(* ===== verification/_CoqProject ===== *)
-Q . S2P
Prelude.v
Sorting.v
Groups.v
Text.v
Bytes.v
Account.v
Sim.v
Selection.v
Policy.v
Period.v
Reconcile.v
DataState.v
Worm.v
AuditChain.v
Marshal.v
MarshalCodec.v
Capability.v
Allowlist.v
FsCodec.v
SocketCodec.v
Fat.v
BlkDev.v
FatOps.v
FatAlloc.v
FatDir.v
FatTree.v
FatCreate.v
FatSelfTest.v
FsServer.v
FsLoop.v
BlkMain.v
FsScenario.v
X86Caps.v
X86Ipc.v
X86IpcSpec.v
X86Sched.v
X86SchedSpec.v
X86Kernel.v
X86Machine.v
X86Behaviour.v
X86Scenario.v
ArmVm.v
ArmMmu.v
ArmElf.v
ArmReclaim.v
StateErr.v
ArmLoader.v
ArmSpace.v
ArmSpaceSpec.v
ArmSpaceOps.v
ArmWorld.v
ArmProcess.v
ArmNet.v
ArmNetSpec.v
ArmSched.v
ArmSchedSpec.v
ArmSchedOps.v
ArmThreads.v
ArmChecks.v
ArmScenario.v
DataCodes.v
Channel.v
Mvno.v
Svc.v
SvcLogic.v
SvcSpec.v
Coherence.v
Drift.v
System.v
Scenario.v
Behaviour.v
DeskPolicy.v
DeskIdentity.v
DeskProxy.v
DeskServer.v
ArmTransport.v
EndToEnd.v
NetRx.v
X86Sockets.v
X86Marshal.v
