(* ===== verification/Prelude.v ===== *)
(** * Runix: the subscriber kernel, its governance chain, the ARM and x86_64 kernels and the storage server, verified

    Runix is a capability-based microkernel OS in Rust.  This library models six
    of its parts and the protocols between them.

    - The subscriber kernel, which decides who may use the mobile network: the
      account registry, the eSIM profiles, the data-policy engine with its billing
      periods and its reconciler, the signed capabilities, the MARSHAL governance
      gate, the bounded audit chain, and the ARM kernel's system calls that tie
      them together.  The pure crates ([mobile/], [capability-manager/], the
      evidence log of [citadel-integration/]) decide; [kernel-arm/src/svc.rs]
      checks a capability, asks the governance gate, changes the tables and audits
      the outcome.
    - The storage server [blk-driver-host/]: a user-mode FAT32 driver that reads
      requests from kernel IPC sessions, checks the per-file token each one
      carries, and changes the disk.
    - The x86_64 kernel [kernel/]: threads, the round-robin scheduler, IPC ports
      and sessions, the system calls with their capability checks, and the gate
      before a sandbox instance is spawned, which asks the MARSHAL proxy through a
      session of the sockets server of [net-driver-host/].
    - The ARM kernel's memory, processes and threads [kernel-arm/]: translation
      tables, the ELF parser and loader, address spaces and their destruction, the
      network driver's process, and the cooperative scheduler.
    - The governance chain: a governed system call of the ARM kernel starts the
      network driver [net-driver-host-arm/] as a process
      ([kernel-arm/src/marshal_transport.rs]), which carries the request to the
      desktop proxy [desktop/src/citadel/]; the proxy checks it, records its
      decision, signs an envelope, asks CITADEL over HTTP and sends the answer back.
    - The network driver's receive path: virtqueues and buffer ownership against a
      device that is not trusted.

    ** Parts and files

    Shared:

    - [Prelude]: machine integers at their widths, [Result], Rust's [find] and
      [find_mut], keyed tables, shared tactics and hints.
    - [Sorting], [Groups]: slice sorting, binary search and [group_by_key] of
      [mobile/src/reconcile.rs], against order-free characterisations.
    - [Text]: the string operations the code uses (decimal and hexadecimal
      printing and parsing, [strip_prefix], [split_once]) and separator-freedom.
    - [Bytes]: little-endian words, length-prefixed blobs and strings, slice
      updates ([splice]), shared by the codecs and the FAT code.
    - [StateErr]: a state monad whose failures keep the state, for the loader and
      the address spaces, with the rule for invariants that survive failure.

    The subscriber kernel:

    - [Account]: [mobile/src/account.rs].  The registry is two lists, as in the
      code; [apply] has its four arms.
    - [Sim]: [kernel-arm/src/sim.rs].  Slots of profiles with their lifecycle.
    - [Selection]: [mobile/src/selection.rs], the network choice.
    - [Policy]: [mobile/src/policy.rs], usage bands and session decisions.
    - [Period]: [mobile/src/period.rs], billing periods, the reset gate and the
      overdue-period checker.
    - [Reconcile]: [mobile/src/reconcile.rs], the drift reconciler.
    - [DataState]: [kernel-arm/src/data_state.rs], the four data tables.
    - [Worm]: the hash-chained evidence log of [citadel-integration/src/lib.rs].
    - [Allowlist]: the signed module and instance allowlists of the same crate and
      the demo gate of [kernel/src/citadel.rs].
    - [AuditChain]: [kernel-arm/src/audit_chain.rs], the quota-bounded chain and
      the reconciler's memory.
    - [Marshal]: [kernel-arm/src/marshal_action.rs] and the response types of
      [ipc/src/marshal.rs].
    - [MarshalCodec]: the wire codec of [ipc/src/marshal.rs].
    - [Capability]: [capability-manager/src/lib.rs] and
      [kernel-arm/src/capabilities.rs].
    - [DataCodes]: [kernel-arm/src/data_codes.rs], return codes, packed
      arguments, demo plans, audit texts and the reconcile snapshot.
    - [Channel]: [kernel-arm/src/ipc_channel.rs], which [ril_channel.rs] repeats.
    - [Mvno]: the wrappers of [kernel-arm/src/mvno.rs] and [data.rs].
    - [Svc]: every handler of [kernel-arm/src/svc.rs] as a function on one explicit
      [Kernel] record (the statics of those modules) in a state monad, with every
      audit entry it makes; [dispatch] is the syscall entry point.
    - [SvcLogic]: weakest-precondition rules for that monad, with the audit chain
      as a frame.
    - [SvcSpec]: what each syscall promises, without auditing, and the lemmas that
      the handlers compute exactly that.
    - [Coherence]: the coupling invariant between registry, slots and data tables,
      and that every specified call preserves it.
    - [Drift]: what a reconcile pass over a coherent state can report.
    - [System]: boot (from [nonsecure.rs]), runs of syscalls, reachable states,
      the refinement and mediation theorems.
    - [Scenario], [Behaviour]: concrete runs, and the end-to-end theorems about
      single syscalls in reachable states.

    The storage server:

    - [FsCodec], [SocketCodec]: [ipc/src/fs.rs] and [ipc/src/sockets.rs], the wire
      protocols with their length bounds.
    - [Fat]: [blk-driver-host/src/lib.rs], the on-disk structures (boot sector,
      FSInfo, short and long directory entries, FAT entries) and the token check.
    - [BlkDev]: one block request, quarantine, sector reads and writes of
      [blk-driver-host/src/main.rs], in the monad [DevM] whose third outcome is a
      panic.
    - [FatOps], [FatDir], [FatTree]: FAT entries with the free-count hint,
      allocation with rollback, directory walks, contents, growth, creation and
      deletion.  [FatAlloc] and [FatCreate] prove what allocation and creation do.
    - [FatSelfTest]: the [run_*_proof] sequences of the boot.
    - [FsServer]: the read and write handlers and the session loop; [FsLoop]
      proves what a run of the loop may change and how much work it does.
    - [BlkMain]: the driver's entry point and its mode selection.
    - [FsScenario]: concrete disks and runs.

    The x86_64 kernel:

    - [X86Caps]: [kernel/src/capabilities.rs], resource strings and port ranges.
    - [X86Ipc]: [kernel/src/ipc.rs], ports with send locks, sessions with two
      lanes.  [X86IpcSpec] has its invariant, the event history and the
      streams it determines.
    - [X86Sched]: [kernel/src/scheduler.rs], threads, the run queue, zombies, stack
      mappings, ticks; [X86SchedSpec] has its invariant.
    - [X86Kernel]: [kernel/src/syscall.rs], every arm of [dispatch].
    - [X86Machine]: the machine: timer ticks, system calls, yields and exits in any
      order the hardware allows; [X86Behaviour] states what holds of
      every run, [X86Scenario] has concrete runs.
    - [X86Sockets]: [run_socket_ipc_server], [pin_to_own_session] and
      [handle_socket_request] of [net-driver-host/src/main.rs], over the class
      [TcpStack].
    - [X86Marshal]: [kernel/src/marshal_client.rs] over the class [ClientSys], the
      spawn request and the gate of [kernel/src/grid_sandbox.rs], and the client
      run against the server of [X86Sockets] (instance [pipe]).

    The ARM kernel's memory and threads:

    - [ArmVm]: [vm.rs], the descriptors of [mmu.rs], physical memory by page, and
      the architecture's table walk with its permission bits.
    - [ArmMmu]: [mmu.rs] [install] and [hw_contract.rs].
    - [ArmElf]: [elf.rs], and the image assembler of [load_proof.rs].
    - [ArmReclaim]: [reclaim.rs], the plan of what a destroyed space frees.
    - [ArmLoader]: [loader.rs] over the class [PrivatePageMapper], whose laws
      [PrivatePageMapperLaws] are what the loader's theorems assume of a mapper.
    - [ArmSpace]: [process.rs], address spaces over the allocator class [Heap];
      its instance [space_mapper] is the mapper of [load_proof.rs].
      [ArmSpaceSpec] has the tree invariant and what an operation may change,
      [ArmSpaceOps] proves it of every operation and discharges the mapper's laws,
      [ArmWorld] is about several spaces in one heap, creation and destruction.
    - [ArmProcess]: what a started program sees through its tables.
    - [ArmNet]: [net_process.rs] and the probe of [virtio_mmio.rs]; [ArmNetSpec]
      proves the construction and its unwinding.
    - [ArmSched]: [scheduler.rs]; [ArmSchedSpec] and [ArmSchedOps] have its
      invariant under every operation, [ArmThreads] the step relation of the
      threads and what holds of every state it reaches.
    - [ArmChecks]: the boot checks [prove_load] and [prove_isolation].
    - [ArmScenario]: an allocator that satisfies the laws, a link map, and a run
      with two drivers, one of which exits and is reaped.

    The governance chain:

    - [DeskPolicy]: [desktop/src/citadel/policy.rs], the checks before the proxy
      vouches for a request.
    - [DeskIdentity]: [identity.rs] and [build_enriched_envelope] of
      [proxy.rs]: timestamps, the signed payload, the envelope.
    - [DeskProxy]: truncation, the HTTP transport ([transport.rs]), the pipeline
      [build_response], and its composition with the kernel's gate.
    - [DeskServer]: framed reads with their deadlines, one connection,
      and the accept loop with its connection threads as interleaved steps.
    - [ArmTransport]: [marshal_transport.rs] and [run_marshal_request] of
      [net-driver-host-arm/src/main.rs].
    - [EndToEnd]: the chain from system call to CITADEL and back, and
      concrete evaluations.

    The network driver:

    - [NetRx]: [net-driver-host-arm/src/]: [lib.rs] (completion checks, queue
      sizes), [smoltcp_device/rx_policy.rs], [smoltcp_device.rs], and the
      [Virtqueue] of [virtio_net.rs].

    ** What the theorems show

    - Subscriber system ([System], [Behaviour], [Scenario]): the coupling invariant
      holds in every reachable state; no state change without the required
      capabilities and governance verdict, down to issued tokens; the dispatcher
      refines its specification; suspension, session admission, metering, reset
      and reconciliation are characterised end to end; the audit chain stays
      bounded and verifies.  One theorem exhibits a run in which a profile switch
      leaves a session behind.
    - Evidence ([Worm], [AuditChain]): tamper evidence relative to explicit hash
      collisions, balanced books, isolation of the audit classes.
    - Authority ([Capability], [Marshal], [MarshalCodec]): a token reaches exactly
      its own resource or window; which replies, down to their bytes, let which
      actions pass; the reply codec is exact and its streaming verdict monotone.
    - Components ([Account], [Sim], [Selection], [Policy], [Period], [Reconcile],
      [DataState], [DataCodes], [Channel]): invariants under every operation,
      exact functional behaviour, order independence of the decision procedures,
      and histories (identity and terminal states).
    - Storage ([FsCodec], [Fat] to [FsScenario]): round trips of codecs and on-disk
      entries; the disk after a creation is exactly the intended one, or the
      volume's free space is restored; the server changes a sector only for a
      complete request whose token covers that file; it always terminates within
      a stated number of device operations.  Four theorems exhibit defects.
    - x86_64 kernel ([X86Caps] to [X86Scenario]): the scheduler and IPC invariants
      hold in every reachable machine state; every effect a thread obtains is
      covered by a token it held; the bytes a session delivers are exactly those
      its peer sent, in order; messages on a port are not interleaved; a ready
      thread runs again within a bounded number of switches; an exit releases what
      the thread held.
    - Spawning on x86_64 ([X86Sockets], [X86Marshal]): the sockets server never
      panics and keeps its sessions apart; the request text says exactly which
      instance is meant; an authorized spawn follows the proxy's answer to that
      request, over client, server and TCP stack.  Two theorems exhibit defects: an
      instance id of 19 bytes or more makes the request too long for the sockets'
      buffers, and the spawn passes unasked; a session that never completes a
      request grows its buffer without bound.
    - Boot authority ([Allowlist]): a load is authorized only for what the release
      process signed, relative to explicit forgeries and collisions; every decision
      leaves one evidence entry.
    - ARM memory ([ArmMmu], [ArmElf], [ArmLoader], [ArmProcess], [ArmReclaim],
      [ArmWorld], [ArmChecks]): the boot map is exactly what it should be; a
      started program sees its image, its stack and nothing else, never writable
      and executable; destruction frees exactly what was taken, after the TLB is
      clean; the boot checks can fail only for lack of memory.
    - ARM processes and threads ([ArmNetSpec], [ArmThreads]): the driver's space is
      built whole or unwound whole; in every reachable state the heap is exactly
      accounted for, threads share no RAM and cannot change the kernel's mappings,
      switching preserves every parked thread, reaping is complete.  One theorem
      shows that the driver's device page reaches beyond its capability.

    - Governance chain ([DeskPolicy] to [EndToEnd]): the proxy vouches exactly for
      the seven governed actions with their own fields; what it signs and forwards
      identifies the request; the answer is a decision exactly when CITADEL gave it;
      reading is bounded in memory, turns and time and independent of how the
      network cuts the bytes; under every interleaving of connections the counter
      is exact, the log verifies and nothing is posted that was not recorded as
      authorized.  End to end a fail-closed action executes exactly on CITADEL's
      EXECUTE for that very action.  One theorem exhibits a refusal that is cut by
      the response region and then ignored for fail-open actions.  The calendar of
      the timestamps is the Gregorian one on every day.
    - Network driver ([NetRx]): whatever the device reports, buffers change hands
      only between their owners, none is lost, frames lie inside their buffers; the
      receive path ends against a device at rest, and need not against one that
      keeps completing transmissions.

    ** Modelling choices

    - Unsigned integers are [N], lengths [nat], signed dBm values [Z]; saturating,
      checked and wrapping operations take the width's maximum.
    - Vectors are lists; maps used as sets are [gset]s.  Error paths are [Result]
      values paired with the state they leave.
    - SHA-256 is the class [Sha256], Ed25519 and hex the class [SignatureScheme];
      [Sha256Laws] and [SignatureLaws] state their documented behaviour, and
      [Worm.Toy] and [Capability.Demo] satisfy them.
    - What an ARM syscall reads from outside is the record [Svc.Env]: the capability
      answers, the MARSHAL evaluation (a network round trip), the timer.  Theorems
      hold for every environment; one theorem of [Behaviour] instantiates
      the capability answers with the model of the token check.
    - The virtqueue and the block device are the class [BlkDev.BlkHardware]: which
      requests complete and with which status.  The disk is a [gmap] from sector
      numbers to bytes.  A slice out of range or an overflow is the panic outcome
      of [DevM].  [volume_ok], [data_fits] and [ready] state what a mounted volume
      and an initialised queue satisfy; the boot code checks or sets them up.
    - An x86 system call that spins on [yield_now] is one attempt that the machine
      retries when the thread runs again: interrupt gates make a handler atomic
      between its yields.  A saved trap frame is what the thread does when it is
      resumed.  Physical frames for stacks are taken to suffice, as the code's
      [expect] does.  [None] is a kernel panic.  [short_run] bounds a run so that
      the 64-bit counters do not wrap.
    - The ARM kernel's allocator is the class [Heap]; [HeapLaws] says that live
      blocks lie in the heap and do not overlap and that allocation is aligned and
      fresh.  Physical memory maps page addresses to 4096 bytes, absent pages read
      as zeros; the kernel reaches it one to one, as its boot tables say.  A store
      to a device frame changes no RAM.  [Phys.trace] records hook runs, TLB
      invalidations and frees in order.  A context saved by [switch_to] is kept by
      its address; the other bytes of a thread's stack are not tracked.  What
      [try_reserve] answers is an argument.
    - The proxy's crates are classes: [DeskJson] (serde's parsers and printer of the
      envelope and of CITADEL's decision), [StrDebug] and [HttpText] (two texts);
      [DeskTexts] says that the texts are UTF-8.  Uuid, clock and HTTP exchange are
      the record [World].  Socket reads, with the times at which they start and end,
      are a list of [ReadStep]s; [None] is a connection still waiting.  The proxy's
      threads take steps at the points where they touch shared state (the counter,
      the log, CITADEL).  A socket turn of the driver says what [send_slice] and
      [recv_slice] answer; [in_order] says that TCP delivers in order.  What a yield
      of the kernel returns to is a function of the state.
    - The TCP/IP stack of the sockets server is the class [TcpStack]; [TcpLaws] says
      which handles are in its set and that a socket takes and delivers no more than
      its 256-byte buffers hold; [ToyTcp] satisfies them.  [None] is the panic on a
      handle outside the set.  In [X86Sockets] the kernel's answers are arbitrary; in
      [X86Marshal.pipe] the client's session is the server's only one, its two lanes
      are in order, as [X86Behaviour] shows of the kernel's sessions, and the server
      runs one iteration for every byte sent, every byte asked for and every yield.
    - The used ring of a virtio device is an input at every poll ([UsedView]); the
      length of its header is a parameter (10 or 12 bytes).
    - Recursion is structural except where a loop has fuel: [Groups.group_loop],
      [Sorting.bsearch_loop] and [Text.hex_go] (the length of the list, the size of
      the slice, the 16 digits of a word, each proved enough), the cluster walks
      (the code's own [CHAIN_CAP] of 1024 hops), the server loop (the code's own
      [SERVER_ITERATIONS]), the relay loop and the wait for an evaluation (the code's
      own 2000000 turns and 64 yields), the sockets server and its client (the
      code's own 500000000 iterations and [max_iters]), and the drain of the transmit ring
      ([NetRx.reap_tx]: 65536 polls are proved enough for a device at rest, no number
      is for one that keeps completing).

    ** Not modelled

    Serial output; locks (one context with interrupts masked runs a handler to
    completion, so the tables are one state); in [Svc] the MARSHAL evaluation is an
    input, which [ArmTransport] models on its own (the excursion runs the relay
    binary linked into the kernel, taken to make no state-changing system call of
    its own);
    the memory, process, loading and boot code of [kernel/], in particular what
    [spawn_instance] does after its gate; the boot sequence,
    exception vectors, interrupt controller and EL0 demo program of [kernel-arm/];
    barriers and cache maintenance;
    the virtqueue memory layout and device probing of the block driver; the
    register handshake of the network drivers and the TCP/IP stack they run
    (third-party), with the x86_64 copy of the receive path; panics of the proxy's
    connection threads; the TLS client (third-party stack); the wasm runtime and
    the sandbox host; the build tools. *)

From stdpp Require Export base tactics list option decidable numbers strings pretty sets fin_sets gmap relations.

(** ** Machine integers

    Unsigned integers of the source ([u8] ... [u128], [usize] on the two 64-bit
    targets) are natural numbers [N]; every operation whose result depends on
    the width takes the type's maximum explicitly. *)

Definition u8_max : N := 255.
Definition u16_max : N := 65535.
Definition u32_max : N := 4294967295.
Definition u64_max : N := 18446744073709551615.
Definition usize_max : N := u64_max.
Definition u128_max : N := 340282366920938463463374607431768211455.

(** Rust's [a.saturating_add(b)], [a.saturating_mul(b)], [a.saturating_sub(b)]. *)
Definition saturating_add (max a b : N) : N := N.min (a + b) max.
Definition saturating_mul (max a b : N) : N := N.min (a * b) max.
Definition saturating_sub (a b : N) : N := (a - b)%N.

(** Rust's [a.checked_add(b)], [a.checked_mul(b)], [a.checked_sub(b)],
    [a.checked_div(b)]. *)
Definition checked_add (max a b : N) : option N :=
  if decide (a + b ≤ max)%N then Some (a + b)%N else None.
Definition checked_mul (max a b : N) : option N :=
  if decide (a * b ≤ max)%N then Some (a * b)%N else None.
Definition checked_sub (a b : N) : option N :=
  if decide (b ≤ a)%N then Some (a - b)%N else None.
Definition checked_div (a b : N) : option N :=
  if decide (b = 0)%N then None else Some (a / b)%N.

(** [x as u8], [x as u16]: truncation. *)
Definition as_u8 (n : N) : N := (n mod 256)%N.
Definition as_u16 (n : N) : N := (n mod 65536)%N.

(** [v.len()] as the [usize] the source compares and stores. *)
Definition len {A} (l : list A) : N := N.of_nat (length l).

Lemma saturating_add_le (max a b : N) : (saturating_add max a b ≤ max)%N.
Proof. unfold saturating_add. lia. Qed.

Lemma saturating_add_ge (max a b : N) :
  (a ≤ max)%N → (a ≤ saturating_add max a b)%N.
Proof. unfold saturating_add. lia. Qed.

Lemma checked_add_Some (max a b c : N) :
  checked_add max a b = Some c ↔ (c = a + b ∧ c ≤ max)%N.
Proof. unfold checked_add. case_decide; naive_solver. Qed.

Lemma checked_mul_Some (max a b c : N) :
  checked_mul max a b = Some c ↔ (c = a * b ∧ c ≤ max)%N.
Proof. unfold checked_mul. case_decide; naive_solver. Qed.

Lemma checked_sub_Some (a b c : N) :
  checked_sub a b = Some c ↔ (b ≤ a ∧ c = a - b)%N.
Proof. unfold checked_sub. case_decide; naive_solver lia. Qed.

Lemma checked_sub_None (a b : N) : checked_sub a b = None ↔ (a < b)%N.
Proof. unfold checked_sub. case_decide; naive_solver lia. Qed.

(** ** Results

    [Result<A, E>], with the error first so that [Result E] is a monad: [?] is
    its bind. *)

Inductive Result (E A : Type) : Type :=
  | Ok (a : A)
  | Err (e : E).
Arguments Ok {E A} a.
Arguments Err {E A} e.

#[global] Instance Result_eq_dec {E A} `{EqDecision E} `{EqDecision A} :
  EqDecision (Result E A).
Proof. solve_decision. Defined.

#[global] Instance Result_ret E : MRet (Result E) := λ A a, Ok a.
#[global] Instance Result_bind E : MBind (Result E) := λ A B f r,
  match r with Ok a => f a | Err e => Err e end.
#[global] Instance Result_fmap E : FMap (Result E) := λ A B f r,
  match r with Ok a => Ok (f a) | Err e => Err e end.

Definition ok_or {E A} (o : option A) (e : E) : Result E A :=
  match o with Some a => Ok a | None => Err e end.

(** [r.ok()] *)
Definition res_ok {E A} (r : Result E A) : option A :=
  match r with Ok a => Some a | Err _ => None end.

Definition map_err {E F A} (f : E → F) (r : Result E A) : Result F A :=
  match r with Ok a => Ok a | Err e => Err (f e) end.

Definition is_err {E A} (r : Result E A) : Prop :=
  match r with Ok _ => False | Err _ => True end.

Lemma Result_bind_Ok {E A B} (f : A → Result E B) (r : Result E A) (b : B) :
  (r ≫= f) = Ok b ↔ ∃ a, r = Ok a ∧ f a = Ok b.
Proof. destruct r; simpl; naive_solver. Qed.

Lemma ok_or_Ok {E A} (o : option A) (e : E) (a : A) : ok_or o e = Ok a ↔ o = Some a.
Proof. destruct o; simpl; naive_solver. Qed.

(** ** Vectors: [iter().find], [iter().position], [iter_mut().find] *)

Section vectors.
Context {A : Type} (P : A → Prop) `{∀ x, Decision (P x)}.

Definition iter_find (l : list A) : option A := snd <$> list_find P l.
Definition iter_position (l : list A) : option nat := fst <$> list_find P l.

(** [if let Some(e) = v.iter_mut().find(|e| P e) { *e = f(e) }] *)
Definition find_mut (f : A → A) (l : list A) : list A :=
  match list_find P l with
  | Some (i, x) => <[i := f x]> l
  | None => l
  end.

Lemma iter_find_Some_1 l x : iter_find l = Some x → x ∈ l ∧ P x.
Proof.
  unfold iter_find. intros ([i y] & Hf & ->)%fmap_Some.
  apply list_find_Some in Hf as (Hl & HP & _).
  split; [by eapply list_elem_of_lookup_2 | done].
Qed.

Lemma iter_find_None l : iter_find l = None ↔ Forall (λ x, ¬ P x) l.
Proof. unfold iter_find. rewrite fmap_None. apply list_find_None. Qed.

Lemma iter_find_is_Some l x : x ∈ l → P x → is_Some (iter_find l).
Proof.
  intros Hin HP. apply not_eq_None_Some. rewrite iter_find_None, Forall_forall.
  intros HF. by apply (HF x).
Qed.

Lemma iter_position_Some l i :
  iter_position l = Some i →
  ∃ x, l !! i = Some x ∧ P x ∧ iter_find l = Some x.
Proof.
  unfold iter_position, iter_find. intros ([j y] & Hf & ->)%fmap_Some.
  rewrite Hf. apply list_find_Some in Hf as (Hl & HP & _).
  exists y. naive_solver.
Qed.

Lemma iter_position_find l :
  iter_position l = None ↔ iter_find l = None.
Proof. unfold iter_position, iter_find. by rewrite !fmap_None. Qed.

Lemma iter_find_cons x l :
  iter_find (x :: l) = if decide (P x) then Some x else iter_find l.
Proof.
  unfold iter_find. simpl. case_decide; [done|].
  by destruct (list_find P l) as [[] |].
Qed.

Lemma iter_find_app l k :
  iter_find (l ++ k) = match iter_find l with Some x => Some x | None => iter_find k end.
Proof.
  induction l as [|x l IH]; [done|]. simpl. rewrite !iter_find_cons.
  by case_decide.
Qed.

Lemma iter_find_snoc_None l x :
  iter_find l = None → iter_find (l ++ [x]) = if decide (P x) then Some x else None.
Proof.
  intros Hn. rewrite iter_find_app, Hn. unfold iter_find. simpl.
  by case_decide.
Qed.

Lemma find_mut_None f l : iter_find l = None → find_mut f l = l.
Proof.
  unfold iter_find, find_mut. intros Hn%fmap_None. by rewrite Hn.
Qed.

Lemma length_find_mut f l : length (find_mut f l) = length l.
Proof.
  unfold find_mut. destruct (list_find P l) as [[i x]|]; [|done].
  apply length_insert.
Qed.

(** An update that keeps a projection of every element keeps the projected list. *)
Lemma find_mut_fmap {K} (key : A → K) f l :
  (∀ x, P x → key (f x) = key x) → key <$> find_mut f l = key <$> l.
Proof.
  intros Hk. unfold find_mut. destruct (list_find P l) as [[i x]|] eqn:Hf; [|done].
  apply list_find_Some in Hf as (Hl & HP & _).
  rewrite list_fmap_insert, Hk by done. apply list_insert_id.
  by rewrite list_lookup_fmap, Hl.
Qed.

Lemma find_mut_Forall (Q : A → Prop) f l :
  Forall Q l → (∀ x, P x → Q x → Q (f x)) → Forall Q (find_mut f l).
Proof.
  intros HF Hf. unfold find_mut. destruct (list_find P l) as [[i x]|] eqn:E; [|done].
  apply list_find_Some in E as (Hl & HP & _).
  apply Forall_insert; [done|]. apply Hf; [done|]. by eapply Forall_lookup_1.
Qed.
End vectors.

Arguments find_mut {A} P {_} f l.
Arguments iter_find {A} P {_} l.
Arguments iter_position {A} P {_} l.

Lemma find_mut_cons {A} (P : A → Prop) `{∀ x, Decision (P x)} f x l :
  find_mut P f (x :: l) = if decide (P x) then f x :: l else x :: find_mut P f l.
Proof.
  unfold find_mut. simpl. case_decide; [done|].
  by destruct (list_find P l) as [[] |].
Qed.

Lemma elem_of_find_mut {A} (P : A → Prop) `{∀ x, Decision (P x)} f l y :
  y ∈ find_mut P f l → y ∈ l ∨ ∃ x, x ∈ l ∧ P x ∧ y = f x.
Proof.
  induction l as [|x l IH]; [naive_solver|]. rewrite find_mut_cons.
  case_decide; rewrite !elem_of_cons; set_solver.
Qed.

(** ** Keyed tables

    The state of the kernel side is a handful of vectors whose rows carry a
    key, searched front to back.  The lemmas below are what "at most one row per
    key" buys. *)

Section keyed.
Context {A K : Type} `{EqDecision K} (key : A → K).

Lemma keyed_inj l x y :
  NoDup (key <$> l) → x ∈ l → y ∈ l → key x = key y → x = y.
Proof.
  intros Hnd (i & Hi)%list_elem_of_lookup (j & Hj)%list_elem_of_lookup Heq.
  assert (i = j) as <-; [|congruence].
  apply (NoDup_lookup (key <$> l) i j (key x)); [done|..];
    rewrite list_lookup_fmap; [by rewrite Hi | by rewrite Hj, Heq].
Qed.

Lemma keyed_find l k x :
  NoDup (key <$> l) → iter_find (λ x, key x = k) l = Some x ↔ x ∈ l ∧ key x = k.
Proof.
  intros Hnd. split; [apply (iter_find_Some_1 (λ x, key x = k))|]. intros [Hin Hk].
  destruct (iter_find_is_Some (λ x, key x = k) l x) as [y Hy]; [done..|].
  rewrite Hy. f_equal. apply (iter_find_Some_1 (λ x, key x = k)) in Hy as [??].
  eapply keyed_inj; [done..|]. congruence.
Qed.

Lemma keyed_find_None l k :
  iter_find (λ x, key x = k) l = None ↔ k ∉ key <$> l.
Proof.
  rewrite iter_find_None, Forall_forall, list_elem_of_fmap. naive_solver.
Qed.

Lemma keyed_snoc l x :
  NoDup (key <$> l) → iter_find (λ y, key y = key x) l = None →
  NoDup (key <$> l ++ [x]).
Proof.
  intros Hnd Hn%keyed_find_None. rewrite fmap_app, NoDup_app. simpl.
  split_and!; [done| |apply NoDup_singleton]. set_solver.
Qed.

Lemma keyed_sublist l k :
  NoDup (key <$> l) → k `sublist_of` l → NoDup (key <$> k).
Proof. intros Hnd Hs. eapply sublist_NoDup; [done|]. by apply fmap_sublist. Qed.

Lemma keyed_find_mut l f k j :
  (∀ x, key (f x) = key x) →
  iter_find (λ x, key x = j) (find_mut (λ x, key x = k) f l) =
  if decide (j = k) then f <$> iter_find (λ x, key x = k) l
  else iter_find (λ x, key x = j) l.
Proof.
  intros Hf. induction l as [|x l IH]; [by case_decide|].
  rewrite find_mut_cons, !(iter_find_cons _ x l).
  destruct (decide (key x = k)) as [Hk|Hk]; rewrite iter_find_cons, ?Hf, ?IH;
    repeat case_decide; simplify_eq; done.
Qed.
End keyed.

Lemma find_mut_keyed_NoDup {A K} `{EqDecision K} (key : A → K)
    (P : A → Prop) `{∀ x, Decision (P x)} f l :
  (∀ x, key (f x) = key x) → NoDup (key <$> l) → NoDup (key <$> find_mut P f l).
Proof. intros Hk Hnd. by rewrite find_mut_fmap. Qed.

Lemma filter_sublist {A} (P : A → Prop) `{∀ x, Decision (P x)} (l k : list A) :
  l `sublist_of` k → filter P l `sublist_of` filter P k.
Proof.
  induction 1; rewrite ?filter_cons; repeat case_decide; auto using sublist.
Qed.

Lemma filter_nil_iff {A} (P : A → Prop) `{∀ x, Decision (P x)} (l : list A) :
  filter P l = [] ↔ Forall (λ x, ¬ P x) l.
Proof.
  induction l as [|x l IH]; [done|]. rewrite filter_cons, Forall_cons.
  case_decide; naive_solver.
Qed.

Lemma filter_all {A} (P : A → Prop) `{∀ x, Decision (P x)} (l : list A) :
  Forall P l → filter P l = l.
Proof. induction 1 as [|x l Hx Hl IH]; [done|]. by rewrite filter_cons, decide_True, IH. Qed.

Lemma filter_iff_in {A} (P Q : A → Prop) `{∀ x, Decision (P x)} `{∀ x, Decision (Q x)}
    (l : list A) :
  (∀ x, x ∈ l → P x ↔ Q x) → filter P l = filter Q l.
Proof.
  induction l as [|x l IH]; intros HPQ; [done|]. rewrite !filter_cons, IH by set_solver.
  assert (P x ↔ Q x) by (apply HPQ; by left). repeat case_decide; naive_solver.
Qed.

Lemma fmap_nil_iff {A B} (f : A → B) (l : list A) : f <$> l = [] ↔ l = [].
Proof. by destruct l. Qed.

Lemma length_snoc {A} (l : list A) x : length (l ++ [x]) = S (length l).
Proof. rewrite length_app. simpl. lia. Qed.

Lemma len_snoc {A} (l : list A) x : len (l ++ [x]) = (len l + 1)%N.
Proof. unfold len. rewrite length_snoc. lia. Qed.

(** Splitting every [match], [if] and [decide] in sight. *)
Ltac case_all := repeat (case_match || case_decide || simplify_eq/=).

(** ** Traces in which every event is allowed by what came before it *)

Definition every_event {A} (allowed : list A → A → Prop) (tr : list A) : Prop :=
  ∀ before ev after, tr = before ++ ev :: after → allowed before ev.

Lemma every_event_nil {A} (allowed : list A → A → Prop) : every_event allowed [].
Proof. intros before ev after He. by destruct before. Qed.

Lemma every_event_snoc {A} (allowed : list A → A → Prop) tr ev :
  every_event allowed tr → allowed tr ev → every_event allowed (tr ++ [ev]).
Proof.
  intros Ht He before ev' after Heq. destruct after as [|x after _] using rev_ind.
  - by apply app_inj_tail in Heq as [<- <-].
  - rewrite app_comm_cons, app_assoc in Heq. apply app_inj_tail in Heq as [Heq _]. by eapply Ht.
Qed.
