(* ===== verification/Sorting.v ===== *)
(** * Sorting: derived orders, [sort] and [binary_search]

    The checkers of [mobile/src/period.rs] and [mobile/src/reconcile.rs] sort
    identifiers and incidents, and look identifiers up by binary search.  A
    derived [Ord] compares the fields of a struct lexicographically, so an
    ordered type is described here by its list of field values. *)

From stdpp Require Export sorting.
From S2P Require Import Prelude.

(** ** The derived order *)

Fixpoint lex_compare (a b : list Z) : comparison :=
  match a, b with
  | [], [] => Eq
  | [], _ :: _ => Lt
  | _ :: _, [] => Gt
  | x :: a, y :: b =>
      match Z.compare x y with Eq => lex_compare a b | c => c end
  end.

Lemma lex_compare_antisym a b : lex_compare a b = CompOpp (lex_compare b a).
Proof.
  revert b. induction a as [|x a IH]; intros [|y b]; simpl; try done.
  rewrite (Z.compare_antisym y x). destruct (y ?= x)%Z; simpl; auto.
Qed.

Lemma lex_compare_eq a b : lex_compare a b = Eq ↔ a = b.
Proof.
  revert b. induction a as [|x a IH]; intros [|y b]; simpl; try done.
  destruct (Z.compare_spec x y); [rewrite IH; naive_solver|split; [done|]..];
    intros; simplify_eq; lia.
Qed.

Lemma lex_compare_refl a : lex_compare a a = Eq.
Proof. by apply lex_compare_eq. Qed.

Lemma lex_compare_trans a b c :
  lex_compare a b ≠ Gt → lex_compare b c ≠ Gt → lex_compare a c ≠ Gt.
Proof.
  revert b c. induction a as [|x a IH]; intros [|y b] [|z c]; simpl; try done.
  destruct (Z.compare_spec x y), (Z.compare_spec y z), (Z.compare_spec x z);
    subst; try done; try lia. apply IH.
Qed.

Lemma lex_compare_trans_Lt a b c :
  lex_compare a b ≠ Gt → lex_compare b c = Lt → lex_compare a c = Lt.
Proof.
  intros Hab Hbc. destruct (lex_compare a c) eqn:Hac; [|done|].
  - apply lex_compare_eq in Hac as ->. rewrite lex_compare_antisym, Hbc in Hab. done.
  - assert (lex_compare c b ≠ Gt) as Hcb.
    { eapply lex_compare_trans; [|exact Hab]. rewrite lex_compare_antisym, Hac. done. }
    rewrite lex_compare_antisym, Hbc in Hcb. done.
Qed.

Section sorting.
Context {A : Type} (key : A → list Z).

Definition cmp (x y : A) : comparison := lex_compare (key x) (key y).
Definition key_le (x y : A) : Prop := cmp x y ≠ Gt.

#[export] Instance key_le_dec : RelDecision key_le.
Proof. intros x y. unfold key_le. apply _. Defined.

#[export] Instance key_le_trans : Transitive key_le.
Proof. intros x y z. apply lex_compare_trans. Qed.

#[export] Instance key_le_total : Total key_le.
Proof.
  intros x y. unfold key_le, cmp. rewrite (lex_compare_antisym (key y)).
  destruct (lex_compare (key x) (key y)); naive_solver.
Qed.

Lemma key_le_antisym `{!Inj (=) (=) key} : AntiSymm (=) key_le.
Proof.
  intros x y. unfold key_le, cmp. rewrite (lex_compare_antisym (key y)).
  destruct (lex_compare (key x) (key y)) eqn:E; try done.
  apply lex_compare_eq in E. intros _ _. by apply (inj key).
Qed.

(** [v.sort()] *)
Definition sort (l : list A) : list A := merge_sort key_le l.

Lemma sort_perm l : sort l ≡ₚ l.
Proof. apply merge_sort_Permutation. Qed.

Lemma sort_sorted l : StronglySorted key_le (sort l).
Proof. apply (StronglySorted_merge_sort key_le). Qed.

Lemma elem_of_sort l x : x ∈ sort l ↔ x ∈ l.
Proof. by rewrite sort_perm. Qed.

(** The sorted vector does not depend on the order of its input. *)
Lemma sort_unique `{!Inj (=) (=) key} l k : l ≡ₚ k → sort l = sort k.
Proof.
  intros Hp. pose proof key_le_antisym. eapply (StronglySorted_unique key_le);
    [apply sort_sorted..|]. by rewrite !sort_perm.
Qed.

(** [v.binary_search_by(|y| y.cmp(x))], the target given by its key: halve the
    window while it holds more than one element, then compare the one left. *)
Fixpoint bsearch_loop (fuel : nat) (l : list A) (x : list Z) (base size : nat) : nat :=
  match fuel with
  | O => base
  | S fuel =>
      if decide (1 < size) then
        let half := size / 2 in
        let mid := base + half in
        let base := match l !! mid with
                    | Some y => match lex_compare (key y) x with Gt => base | _ => mid end
                    | None => base
                    end in
        bsearch_loop fuel l x base (size - half)
      else base
  end.

(** [Ok] with the position of a match, [Err] with the insertion point. *)
Definition binary_search (l : list A) (x : list Z) : Result nat nat :=
  match l with
  | [] => Err 0
  | _ =>
      let base := bsearch_loop (length l) l x 0 (length l) in
      match l !! base with
      | Some y =>
          match lex_compare (key y) x with
          | Eq => Ok base
          | Lt => Err (S base)
          | Gt => Err base
          end
      | None => Err base
      end
  end.

Lemma sorted_lookup l i j x y :
  StronglySorted key_le l → l !! i = Some x → l !! j = Some y → i < j → key_le x y.
Proof.
  intros Hs. revert i j. induction Hs as [|z l Hs IH HF]; intros [|i] [|j] Hi Hj Hlt;
    simplify_eq/=; try lia.
  - rewrite Forall_forall in HF. by apply HF, list_elem_of_lookup_2 with j.
  - eapply IH; [done..|lia].
Qed.

(** The loop keeps a match inside its window, and ends with one element. *)
Lemma bsearch_loop_spec fuel l x base size k y :
  StronglySorted key_le l → size ≤ S fuel → base + size ≤ length l →
  l !! k = Some y → key y = x → base ≤ k < base + size →
  ∃ z, l !! bsearch_loop fuel l x base size = Some z ∧ key z = x.
Proof.
  intros Hs. revert base size k y. induction fuel as [|fuel IH];
    intros base size k y Hfuel Hlen Hk Hkey [Hb Hlt]; cbn [bsearch_loop].
  { assert (k = base) as -> by lia. eauto. }
  case_decide as Hsz; [|assert (k = base) as -> by lia; eauto].
  assert (0 < size / 2 < size) as [Hh1 Hh2].
  { split; [apply Nat.div_str_pos; lia|apply Nat.div_lt; lia]. }
  destruct (lookup_lt_is_Some_2 l (base + size / 2)) as [m Hm]; [lia|].
  pose proof (Nat.Div0.mul_div_le size 2) as Hhalf.
  rewrite Hm. destruct (lex_compare (key m) x) eqn:Hc.
  - apply lex_compare_eq in Hc. eapply IH; [..|exact Hm|done|]; lia.
  - eapply IH; [..|exact Hk|done|]; [lia..|].
    destruct (decide (base + size / 2 ≤ k)); [lia|].
    destruct (sorted_lookup l k (base + size / 2) y m); try done; try lia.
    unfold cmp. by rewrite Hkey, lex_compare_antisym, Hc.
  - eapply IH; [..|exact Hk|done|]; [lia..|].
    destruct (decide (k < base + size / 2)); [lia|].
    destruct (decide (k = base + size / 2)) as [->|].
    { simplify_eq. by rewrite lex_compare_refl in Hc. }
    destruct (sorted_lookup l (base + size / 2) k m y); try done; try lia.
    unfold cmp. by rewrite Hkey.
Qed.

Lemma binary_search_Ok l x i :
  binary_search l x = Ok i → ∃ y, l !! i = Some y ∧ key y = x.
Proof.
  unfold binary_search. destruct l as [|h t] eqn:El; [done|]. rewrite <-El.
  intros H. destruct (l !! _) as [y|] eqn:Hy; [|done].
  destruct (lex_compare (key y) x) eqn:Hc; try done. simplify_eq.
  apply lex_compare_eq in Hc. eauto.
Qed.

(** On a sorted vector the search succeeds exactly when there is a match. *)
Lemma binary_search_ok l x :
  StronglySorted key_le l → (∃ i, binary_search l x = Ok i) ↔ ∃ y, y ∈ l ∧ key y = x.
Proof.
  intros Hs. split.
  - intros (i & (y & Hy & Hk)%binary_search_Ok).
    exists y. split; [by eapply list_elem_of_lookup_2|done].
  - intros (y & [k Hk]%list_elem_of_lookup & Hkey).
    pose proof (lookup_lt_Some _ _ _ Hk).
    destruct (bsearch_loop_spec (length l) l x 0 (length l) k y) as (z & Hz & Hkz);
      try done; try lia.
    unfold binary_search. destruct l as [|h t] eqn:El; [done|]. rewrite <-El in *.
    rewrite Hz, Hkz, lex_compare_refl. eauto.
Qed.
End sorting.

Arguments sort {A} key l.
Arguments binary_search {A} key l x.
