(* ===== verification/Groups.v ===== *)
(** * Groups: records collapsed by key

    Model of [group_by_key] and [find] of [mobile/src/reconcile.rs]: records are
    sorted by key and runs of equal keys collapse to one group, unique or
    ambiguous; groups are looked up by binary search. *)

From S2P Require Import Prelude Sorting.

Inductive Entry (T : Type) : Type :=
  | Unique (t : T)
  | Ambiguous.
Arguments Unique {T} t.
Arguments Ambiguous {T}.

Record Group (K T : Type) := mkGroup {
  g_key : K;
  g_entry : Entry T;
  g_count : nat;
}.
Arguments mkGroup {K T}.
Arguments g_key {K T}.
Arguments g_entry {K T}.
Arguments g_count {K T}.

Section groups.
Context {K T : Type} `{EqDecision K} (kz : K → list Z) `{!Inj (=) (=) kz}.

(** [while iter.next_if(|e| e.0 == k).is_some() { count += 1 }] *)
Fixpoint next_while (k : K) (refs : list (K * T)) : nat * list (K * T) :=
  match refs with
  | (k', _) :: refs' =>
      if decide (k' = k) then let '(n, rest) := next_while k refs' in (S n, rest)
      else (0, refs)
  | [] => (0, [])
  end.

(** The outer loop; every turn consumes at least one element. *)
Fixpoint group_loop (fuel : nat) (refs : list (K * T)) : list (Group K T) :=
  match fuel, refs with
  | S fuel, (k, t) :: refs =>
      let '(n, rest) := next_while k refs in
      let count := 1 + n in
      let entry := if decide (count = 1) then Unique t else Ambiguous in
      mkGroup k entry count :: group_loop fuel rest
  | _, _ => []
  end.

Definition group_by_key (items : list T) (key : T → K) : list (Group K T) :=
  let refs := sort (λ e, kz e.1) ((λ t, (key t, t)) <$> items) in
  group_loop (length refs) refs.

Definition find (groups : list (Group K T)) (key : K) : option (Entry T) :=
  i ← res_ok (binary_search (λ g, kz (g_key g)) groups (kz key));
  g_entry <$> groups !! i.

(** ** What the groups are *)

Definition occurrences (k : K) (refs : list (K * T)) : nat :=
  length (filter (λ e, e.1 = k) refs).

Definition before (g h : Group K T) : Prop :=
  lex_compare (kz (g_key g)) (kz (g_key h)) = Lt.

(** [g] is the group of its key in [refs]. *)
Definition groups_of (refs : list (K * T)) (g : Group K T) : Prop :=
  ∃ t, (g_key g, t) ∈ refs ∧ g_count g = occurrences (g_key g) refs ∧
       g_entry g = if decide (g_count g = 1) then Unique t else Ambiguous.

Lemma next_while_spec k refs n rest :
  next_while k refs = (n, rest) →
  ∃ pre, refs = pre ++ rest ∧ length pre = n ∧ Forall (λ e, e.1 = k) pre ∧
         ∀ e, head rest = Some e → e.1 ≠ k.
Proof.
  revert n. induction refs as [|[k' t] refs IH]; simpl; intros n H.
  - simplify_eq. by exists [].
  - case_decide as Hk.
    + destruct (next_while k refs) as [m r]. simplify_eq.
      destruct (IH m eq_refl) as (pre & -> & <- & HF & Hh).
      exists ((k, t) :: pre). by split_and!; [..|constructor|].
    + simplify_eq. exists []. split_and!; try done. by intros e [= <-].
Qed.

Abbreviation le := (key_le (λ e : K * T, kz e.1)).

(** In a sorted vector, what follows a run has a strictly larger key. *)
Lemma run_rest k refs pre rest :
  Forall (le k) refs → StronglySorted le refs → refs = pre ++ rest →
  (∀ e, head rest = Some e → e.1 ≠ k.1) →
  Forall (λ e, lex_compare (kz k.1) (kz e.1) = Lt) rest.
Proof using Type*.
  intros HF Hs -> Hh. apply Forall_app in HF as [_ HF].
  apply StronglySorted_app_1_r in Hs. destruct rest as [|e rest]; [done|].
  specialize (Hh e eq_refl). apply Forall_cons in HF as [He _].
  assert (lex_compare (kz k.1) (kz e.1) = Lt) as Hlt.
  { unfold key_le, cmp in He. destruct (lex_compare _ _) eqn:Hc; [|done..].
    apply lex_compare_eq, (inj kz) in Hc. congruence. }
  constructor; [done|]. inversion Hs as [|?? _ HF']; subst.
  eapply Forall_impl; [exact HF'|]. intros f Hf. simpl in Hf.
  unfold key_le, cmp in Hf. destruct (lex_compare (kz e.1) (kz f.1)) eqn:Hef; [| |done].
  - apply lex_compare_eq in Hef. by rewrite <-Hef.
  - apply lex_compare_trans_Lt with (kz e.1); [by rewrite Hlt|done].
Qed.

Lemma occurrences_run k t pre rest k' :
  Forall (λ e, e.1 = k) pre → Forall (λ e, lex_compare (kz k) (kz e.1) = Lt) rest →
  occurrences k' ((k, t) :: pre ++ rest) =
  if decide (k' = k) then S (length pre) else occurrences k' rest.
Proof.
  intros Hpre Hrest. unfold occurrences. rewrite filter_cons, filter_app. simpl.
  assert (filter (λ e, e.1 = k') pre = if decide (k' = k) then pre else []) as ->.
  { clear -Hpre. induction Hpre as [|e pre He Hpre IH]; [by case_decide|].
    rewrite filter_cons, IH. repeat case_decide; congruence. }
  destruct (decide (k' = k)) as [->|Hne].
  - rewrite decide_True by done. assert (filter (λ e, e.1 = k) rest = []) as ->.
    { apply filter_nil_iff. eapply Forall_impl; [done|]. intros e He Hk. subst.
      by rewrite lex_compare_refl in He. }
    by rewrite app_nil_r.
  - by rewrite decide_False by congruence.
Qed.

Lemma group_loop_spec fuel refs :
  StronglySorted le refs → length refs ≤ fuel →
  StronglySorted before (group_loop fuel refs) ∧
  ∀ g, g ∈ group_loop fuel refs ↔ groups_of refs g.
Proof using Type*.
  revert refs. induction fuel as [|fuel IH]; intros [|[k t] refs] Hs Hlen;
    simpl in Hlen; try lia; cbn [group_loop];
    [by split; [constructor|intros g; split; [set_solver|intros (t & Ht & _); set_solver]]..|].
  destruct (next_while k refs) as [n rest] eqn:Hn.
  apply next_while_spec in Hn as (pre & -> & <- & Hpre & Hh).
  inversion Hs as [|?? Hs' HF]; subst.
  pose proof (run_rest (k, t) _ _ _ HF Hs' eq_refl Hh) as Hrest. simpl in Hrest.
  destruct (IH rest) as [IHs IHe];
    [by eapply StronglySorted_app_1_r|rewrite length_app in Hlen; lia|].
  assert (Hgt : ∀ g, g ∈ group_loop fuel rest → lex_compare (kz k) (kz (g_key g)) = Lt).
  { intros g (t' & Hin & _)%IHe. rewrite Forall_forall in Hrest. by apply (Hrest _ Hin). }
  split.
  - constructor; [done|]. apply Forall_forall. intros g. apply Hgt.
  - intros g. rewrite elem_of_cons. unfold groups_of.
    rewrite (occurrences_run k t pre rest) by done. split.
    + intros [->|Hg]; simpl.
      * exists t. rewrite decide_True by done. split_and!; [set_solver|done|done].
      * specialize (Hgt _ Hg). apply IHe in Hg as (t' & Hin & Hc & He). exists t'.
        destruct (decide (g_key g = k)) as [Hk|_].
        { rewrite Hk, lex_compare_refl in Hgt. done. }
        split_and!; [set_solver|done|done].
    + intros (t' & Hin & Hc & He). destruct (decide (g_key g = k)) as [Hk|Hk].
      * left. destruct g as [gk ge gc]. simpl in *. subst. f_equal.
        destruct pre; simpl in *; [|done]. rewrite elem_of_cons in Hin.
        destruct Hin as [[= ->]|Hin]; [done|]. rewrite Forall_forall in Hrest.
        specialize (Hrest _ Hin). simpl in Hrest. by rewrite lex_compare_refl in Hrest.
      * right. apply IHe. exists t'. split_and!; try done.
        rewrite elem_of_cons, elem_of_app in Hin.
        destruct Hin as [?|[Hin|?]]; [congruence| |done].
        rewrite Forall_forall in Hpre. by apply Hpre in Hin.
Qed.

Lemma elem_of_group_by_key items key g :
  g ∈ group_by_key items key ↔ ∃ t, t ∈ items ∧ key t = g_key g ∧
    g_count g = length (filter (λ t, key t = g_key g) items) ∧
    g_entry g = if decide (g_count g = 1) then Unique t else Ambiguous.
Proof using Type*.
  unfold group_by_key. set (refs := sort _ _).
  destruct (group_loop_spec (length refs) refs) as [_ ->]; [apply sort_sorted|lia|].
  unfold groups_of.
  assert (∀ k, occurrences k refs = length (filter (λ t, key t = k) items)) as Hocc.
  { intros k. unfold occurrences, refs. rewrite (sort_perm _ _).
    clear. induction items as [|t items IH]; [done|]. csimpl. rewrite !filter_cons.
    csimpl. case_decide; csimpl; by rewrite IH. }
  setoid_rewrite Hocc. unfold refs. setoid_rewrite elem_of_sort.
  setoid_rewrite list_elem_of_fmap. split.
  - intros (t & (y & [= Hk ->] & Hin) & Hc & He). exists y. by rewrite Hk in *.
  - intros (t & Hin & Hk & Hc & He). exists t. split; [|done]. exists t. by rewrite Hk.
Qed.

Lemma group_by_key_sorted items key : StronglySorted before (group_by_key items key).
Proof using Type*.
  apply group_loop_spec; [apply sort_sorted|done].
Qed.

#[local] Instance before_trans : Transitive before.
Proof.
  intros x y z Hxy Hyz. eapply lex_compare_trans_Lt; [|exact Hyz].
  unfold before in Hxy. by rewrite Hxy.
Qed.

Lemma before_cases l g h :
  StronglySorted before l → g ∈ l → h ∈ l → g = h ∨ before g h ∨ before h g.
Proof.
  induction 1 as [|x l Hs IH HF]; [set_solver|]. rewrite Forall_forall in HF.
  rewrite !elem_of_cons. intros [->|Hg] [->|Hh]; auto.
Qed.

(** Groups do not depend on the order in which records are listed. *)
Lemma group_by_key_perm items items' key :
  items ≡ₚ items' → group_by_key items key = group_by_key items' key.
Proof using Type*.
  intros Hp. assert (AntiSymm (=) before) as Hanti.
  { intros x y Hxy Hyx. unfold before in *. rewrite lex_compare_antisym, Hyx in Hxy. done. }
  apply (StronglySorted_unique before); [apply group_by_key_sorted..|].
  assert (Hnd : ∀ l, StronglySorted before l → NoDup l).
  { induction 1 as [|g l Hs IH HF]; constructor; [|done]. intros Hin.
    rewrite Forall_forall in HF. specialize (HF _ Hin). unfold before in HF.
    by rewrite lex_compare_refl in HF. }
  apply NoDup_Permutation; [apply Hnd, group_by_key_sorted..|].
  intros g. rewrite !elem_of_group_by_key. setoid_rewrite Hp. done.
Qed.

Lemma find_Some items key k e :
  find (group_by_key items key) k = Some e ↔
  ∃ g, g ∈ group_by_key items key ∧ g_key g = k ∧ g_entry g = e.
Proof using Type*.
  pose proof (group_by_key_sorted items key) as Hs.
  assert (StronglySorted (key_le (λ g : Group K T, kz (g_key g))) (group_by_key items key))
    as Hle.
  { clear -Hs. induction Hs as [|g l Hs IH HF]; constructor; [done|].
    eapply Forall_impl; [done|]. intros h Hh. unfold key_le, cmp. unfold before in Hh.
    by rewrite Hh. }
  unfold find. split.
  - destruct (binary_search _ _ _) as [i|] eqn:Hb; simpl; [|done].
    intros (g & Hg & ->)%fmap_Some. apply binary_search_Ok in Hb as (y & Hy & Hk).
    assert (y = g) as -> by congruence. apply (inj kz) in Hk. exists g.
    split_and!; [by eapply list_elem_of_lookup_2|done..].
  - intros (g & Hg & <- & <-).
    destruct (proj2 (binary_search_ok _ _ (kz (g_key g)) Hle)) as [i Hi]; [by exists g|].
    rewrite Hi. simpl. apply binary_search_Ok in Hi as (h & Hh & Hk). rewrite Hh. simpl.
    apply (inj kz) in Hk. f_equal. f_equal.
    apply list_elem_of_lookup_2 in Hh.
    destruct (before_cases _ g h Hs Hg Hh) as [?|Hlt]; [done|].
    unfold before in Hlt. rewrite Hk, lex_compare_refl in Hlt. naive_solver.
Qed.

(** ** Unique records *)

Definition copies (items : list T) (key : T → K) (k : K) : nat :=
  length (filter (λ t, key t = k) items).

Definition the_record (items : list T) (key : T → K) (t : T) : Prop :=
  t ∈ items ∧ copies items key (key t) = 1.

Lemma elem_of_unique items key g t :
  g ∈ group_by_key items key → g_entry g = Unique t →
  g_key g = key t ∧ the_record items key t.
Proof using Type*.
  intros (t' & Hin & Hk & Hc & He)%elem_of_group_by_key Hu. rewrite Hu in He.
  case_decide as H1; simplify_eq. split; [done|]. split; [done|].
  unfold copies. by rewrite Hk, <-Hc.
Qed.

Lemma unique_group items key t :
  the_record items key t →
  ∃ g, g ∈ group_by_key items key ∧ g_key g = key t ∧ g_entry g = Unique t ∧ g_count g = 1.
Proof using Type*.
  intros [Hin Hc]. exists (mkGroup (key t) (Unique t) 1). split_and!; [|done..].
  apply elem_of_group_by_key. exists t. split_and!; [done..|]. by rewrite decide_True.
Qed.

Lemma find_unique items key k t :
  find (group_by_key items key) k = Some (Unique t) ↔ the_record items key t ∧ key t = k.
Proof using Type*.
  rewrite find_Some. split.
  - intros (g & Hg & <- & He). by destruct (elem_of_unique _ _ _ _ Hg He) as [-> ?].
  - intros [Ht <-]. destruct (unique_group _ _ _ Ht) as (g & Hg & Hk & He & _). eauto.
Qed.

Lemma elem_of_bind_groups {B} items key (f : Group K T → list B) (h : T → list B) b :
  (∀ g, f g = match g_entry g with Unique t => h t | Ambiguous => [] end) →
  b ∈ group_by_key items key ≫= f ↔ ∃ t, the_record items key t ∧ b ∈ h t.
Proof using Type*.
  intros Hf. rewrite list_elem_of_bind. split.
  - intros (g & Hb & Hg). rewrite Hf in Hb.
    destruct (g_entry g) as [t|] eqn:He; [|by apply not_elem_of_nil in Hb].
    exists t. split; [|done]. by destruct (elem_of_unique _ _ _ _ Hg He).
  - intros (t & Ht & Hb). destruct (unique_group _ _ _ Ht) as (g & Hg & _ & He & _).
    exists g. by rewrite Hf, He.
Qed.

(** Ambiguous keys, as the duplicate checks see them. *)
Lemma elem_of_bind_dups {B} items key (f : K → nat → B) b :
  b ∈ group_by_key items key ≫=
        (λ g, if decide (1 < g_count g) then [f (g_key g) (g_count g)] else []) ↔
  ∃ t, t ∈ items ∧ 1 < copies items key (key t) ∧ b = f (key t) (copies items key (key t)).
Proof using Type*.
  rewrite list_elem_of_bind. split.
  - intros (g & Hb & (t & Ht & Hk & Hc & _)%elem_of_group_by_key).
    case_decide; [|by apply not_elem_of_nil in Hb]. apply list_elem_of_singleton in Hb as ->.
    exists t. unfold copies. rewrite Hk, <-Hc. done.
  - intros (t & Ht & Hc & ->). exists (mkGroup (key t) Ambiguous (copies items key (key t))).
    simpl. rewrite decide_True by done. split; [by apply list_elem_of_singleton|].
    apply elem_of_group_by_key. exists t. simpl. rewrite decide_False by lia.
    by split_and!.
Qed.

Lemma length_group_loop fuel refs : length (group_loop fuel refs) ≤ length refs.
Proof.
  revert refs. induction fuel as [|fuel IH]; intros [|[k t] refs]; cbn [group_loop]; simpl;
    try lia. destruct (next_while k refs) as [n rest] eqn:Hn.
  apply next_while_spec in Hn as (pre & -> & _). simpl. rewrite length_app.
  specialize (IH rest). lia.
Qed.

Lemma length_group_by_key items key : length (group_by_key items key) ≤ length items.
Proof.
  unfold group_by_key. etrans; [apply length_group_loop|].
  by rewrite (Permutation_length (sort_perm _ _)), length_fmap.
Qed.

(** Unique records with a property are as many as the groups that hold one. *)
Lemma NoDup_filter_copies items (key : T → K) (P : T → Prop) `{∀ t, Decision (P t)} :
  (∀ t, t ∈ items → P t → copies items key (key t) ≤ 1) → NoDup (filter P items).
Proof.
  unfold copies. induction items as [|x l IH]; intros HP; [constructor|].
  assert (NoDup (filter P l)) as Hnd.
  { apply IH. intros t Ht HPt. etrans; [|apply (HP t); [by right|done]].
    rewrite filter_cons. case_decide; simpl; lia. }
  rewrite filter_cons. case_decide as HPx; [|done]. constructor; [|done].
  intros [_ Hin]%list_elem_of_filter. specialize (HP x ltac:(by left) HPx).
  rewrite filter_cons, decide_True in HP by done. simpl in HP.
  assert (x ∈ filter (λ t, key t = key x) l) as Hx by (by apply list_elem_of_filter).
  destruct (filter (λ t, key t = key x) l); [by apply not_elem_of_nil in Hx|simpl in HP; lia].
Qed.

Definition entry_sat (P : T → Prop) `{∀ t, Decision (P t)} (g : Group K T) : option T :=
  match g_entry g with
  | Unique t => if decide (P t) then Some t else None
  | Ambiguous => None
  end.

Lemma NoDup_entries items key (P : T → Prop) `{∀ t, Decision (P t)} :
  NoDup (omap (entry_sat P) (group_by_key items key)).
Proof using Type*.
  assert (Hk : ∀ g t, g ∈ group_by_key items key → entry_sat P g = Some t → g_key g = key t).
  { intros g t Hg Ht. unfold entry_sat in Ht.
    destruct (g_entry g) as [t'|] eqn:He; [|done]. case_decide; simplify_eq.
    by destruct (elem_of_unique _ _ _ _ Hg He). }
  pose proof (group_by_key_sorted items key) as Hs. revert Hk Hs.
  generalize (group_by_key items key) as gs. induction gs as [|g gs IH]; intros Hk Hs;
    [constructor|]. inversion Hs as [|?? Hs' HF]; subst. csimpl.
  assert (NoDup (omap (entry_sat P) gs)) by (apply IH; [intros; apply Hk; [by right|done]|done]).
  destruct (entry_sat P g) as [t|] eqn:Ht; [|done]. constructor; [|done].
  intros (h & Hh & Hht)%list_elem_of_omap.
  apply Hk in Ht; [|by left]. apply Hk in Hht; [|by right].
  rewrite Forall_forall in HF. specialize (HF _ Hh). unfold before in HF.
  by rewrite Ht, Hht, lex_compare_refl in HF.
Qed.

Lemma count_entries items key (P : T → Prop) `{∀ t, Decision (P t)} :
  length (filter (λ g, is_Some (entry_sat P g)) (group_by_key items key)) =
  length (filter (λ t, copies items key (key t) = 1 ∧ P t) items).
Proof using Type*.
  assert (∀ gs, length (filter (λ g, is_Some (entry_sat P g)) gs) =
                length (omap (entry_sat P) gs)) as ->.
  { induction gs as [|g gs IHg]; [done|]. rewrite filter_cons. csimpl.
    destruct (entry_sat P g); case_decide as Hd; csimpl; rewrite ?IHg; try done.
    by destruct Hd. }
  apply Permutation_length, NoDup_Permutation; [apply NoDup_entries| |].
  { apply (NoDup_filter_copies _ key). intros t _ [-> _]. done. }
  intros t. rewrite list_elem_of_omap, list_elem_of_filter. unfold entry_sat. split.
  - intros (g & Hg & Ht). destruct (g_entry g) as [t'|] eqn:He; [|done].
    case_decide; simplify_eq. by destruct (elem_of_unique _ _ _ _ Hg He) as [_ [??]].
  - intros [[Hc HP] Ht]. destruct (unique_group items key t) as (g & Hg & _ & He & _); [done|].
    exists g. rewrite He. by rewrite decide_True.
Qed.

Lemma find_None items key k :
  find (group_by_key items key) k = None ↔ ∀ t, t ∈ items → key t ≠ k.
Proof using Type*.
  split.
  - intros Hn t Ht Hk.
    assert (∃ e, find (group_by_key items key) k = Some e) as [e He]; [|congruence].
    setoid_rewrite find_Some.
    set (c := length (filter (λ t, key t = k) items)).
    eexists _, (mkGroup k (if decide (c = 1) then Unique t else Ambiguous) c).
    split_and!; [|done|done]. apply elem_of_group_by_key. by exists t.
  - intros Hall. destruct (find _ k) as [e|] eqn:He; [|done].
    apply find_Some in He as (g & (t & Ht & Hk & _)%elem_of_group_by_key & Hg & _).
    destruct (Hall t); [done|congruence].
Qed.
End groups.
