(* ===== verification/Text.v ===== *)
(** * Text: strings as the sources build and parse them

    [format!] is concatenation with [pretty] for [{}] of an integer; this file
    adds [{:#x}], [strip_prefix], [split_once], [from_str_radix], and the lemmas
    that make separator-joined strings injective. *)

From Stdlib Require Import Ascii.
From S2P Require Import Prelude.

(** ** Characters of a string *)

Fixpoint all_chars (p : ascii → bool) (s : string) : bool :=
  match s with
  | EmptyString => true
  | String c s => p c && all_chars p s
  end.

(** No occurrence of [c]. *)
Definition free (c : ascii) (s : string) : bool :=
  all_chars (λ d, negb (bool_decide (d = c))) s.

Lemma string_app_assoc (a b c : string) : (a +:+ b) +:+ c = a +:+ b +:+ c.
Proof. induction a as [|x a IH]; [done|]. change (String x ((a +:+ b) +:+ c) = String x (a +:+ b +:+ c)). by rewrite IH. Qed.

Lemma string_app_cons c (a b : string) : String c a +:+ b = String c (a +:+ b).
Proof. done. Qed.

Lemma string_app_nil (a : string) : a +:+ "" = a.
Proof. induction a as [|x a IH]; [done|]. rewrite string_app_cons. by rewrite IH. Qed.

Lemma string_length_app (a b : string) :
  String.length (a +:+ b) = String.length a + String.length b.
Proof. induction a as [|x a IH]; [done|]. rewrite string_app_cons. simpl. by rewrite IH. Qed.

Lemma string_app_inj_l (a b c : string) : a +:+ b = a +:+ c → b = c.
Proof. induction a as [|x a IH]; [done|]. rewrite !string_app_cons. intros [= ?]. auto. Qed.

Lemma all_chars_app p (a b : string) : all_chars p (a +:+ b) = all_chars p a && all_chars p b.
Proof.
  induction a as [|x a IH]; [done|]. rewrite string_app_cons. simpl. rewrite IH.
  by rewrite andb_assoc.
Qed.

Lemma all_chars_impl (p q : ascii → bool) s :
  (∀ c, p c = true → q c = true) → all_chars p s = true → all_chars q s = true.
Proof.
  intros Hpq. induction s as [|c s IH]; [done|]. simpl. rewrite !andb_true_iff. naive_solver.
Qed.

(** ** Decimal *)

Definition is_digit (c : ascii) : bool := bool_decide (is_Some (Ascii.is_nat c)).

Lemma pretty_N_char_digit n : is_digit (pretty_N_char n) = true.
Proof. unfold pretty_N_char. by repeat case_match. Qed.

Lemma pretty_N_go_digits n s :
  all_chars is_digit s = true → all_chars is_digit (pretty_N_go n s) = true.
Proof.
  revert s. induction (N.lt_wf_0 n) as [n _ IH]; intros s Hs.
  assert (n = 0 ∨ 0 < n)%N as [->|Hn] by lia; [by rewrite pretty_N_go_0|].
  rewrite pretty_N_go_step by done. apply IH; [by apply N.div_lt|].
  cbn [all_chars]. by rewrite pretty_N_char_digit, Hs.
Qed.

Lemma pretty_digits (n : N) : all_chars is_digit (pretty n) = true.
Proof.
  unfold pretty, pretty_N. case_decide; [done|]. by apply pretty_N_go_digits.
Qed.

(** A character that is not a digit does not occur in a decimal number. *)
Lemma free_pretty c (n : N) : is_digit c = false → free c (pretty n) = true.
Proof.
  intros Hc. eapply all_chars_impl; [|apply pretty_digits]. intros d Hd. simpl.
  case_bool_decide; [|done]. congruence.
Qed.

(** ** Splitting *)

Fixpoint strip_prefix (p s : string) : option string :=
  match p, s with
  | EmptyString, _ => Some s
  | String a p, String b s => if decide (a = b) then strip_prefix p s else None
  | String _ _, EmptyString => None
  end.

Definition starts_with (s p : string) : bool := bool_decide (is_Some (strip_prefix p s)).

Fixpoint split_once (c : ascii) (s : string) : option (string * string) :=
  match s with
  | EmptyString => None
  | String d s =>
      if decide (d = c) then Some (EmptyString, s)
      else (λ p, (String d p.1, p.2)) <$> split_once c s
  end.

Lemma strip_prefix_app p s : strip_prefix p (p +:+ s) = Some s.
Proof.
  induction p as [|x p IH]; [done|]. rewrite string_app_cons. simpl. by rewrite decide_True.
Qed.

Lemma split_once_app c a b : free c a = true → split_once c (a +:+ String c b) = Some (a, b).
Proof.
  induction a as [|x a IH]; intros Hf.
  - change (split_once c (String c b) = Some ("", b)). simpl. by rewrite decide_True.
  - unfold free in Hf. cbn [all_chars] in Hf. apply andb_true_iff in Hf as [Hx Hf].
    apply negb_true_iff, bool_decide_eq_false in Hx. rewrite string_app_cons. simpl.
    rewrite decide_False by done. by rewrite (IH Hf).
Qed.

Lemma split_once_free c a : free c a = true → split_once c a = None.
Proof.
  induction a as [|x a IH]; intros Hf; [done|].
  unfold free in Hf. cbn [all_chars] in Hf. apply andb_true_iff in Hf as [Hx Hf].
  apply negb_true_iff, bool_decide_eq_false in Hx. simpl.
  rewrite decide_False by done. by rewrite (IH Hf).
Qed.

(** Fields joined by a separator that occurs in none of them. *)
Fixpoint join (c : ascii) (fields : list string) : string :=
  match fields with
  | [] => ""
  | [f] => f
  | f :: fs => f +:+ String c (join c fs)
  end.

Lemma join_cons c f g fs : join c (f :: g :: fs) = f +:+ String c (join c (g :: fs)).
Proof. done. Qed.

Lemma join_inj c fs gs :
  Forall (λ f, free c f = true) fs → Forall (λ f, free c f = true) gs →
  fs ≠ [] → gs ≠ [] → join c fs = join c gs → fs = gs.
Proof.
  intros Hfs. revert gs. induction Hfs as [|f fs Hf Hfs IH]; intros gs Hgs Hn1 Hn2 Heq; [done|].
  destruct Hgs as [|g gs Hg Hgs]; [done|].
  destruct fs as [|f' fs], gs as [|g' gs].
  - simpl in Heq. by subst.
  - rewrite join_cons in Heq. simpl in Heq. subst f.
    apply split_once_free in Hf.
    by rewrite split_once_app in Hf.
  - rewrite join_cons in Heq. simpl in Heq. subst g. apply split_once_free in Hg.
    by rewrite split_once_app in Hg.
  - rewrite !join_cons in Heq.
    assert (Some (f, join c (f' :: fs)) = Some (g, join c (g' :: gs))) as [= -> Hj].
    { by rewrite <-(split_once_app c f), <-(split_once_app c g), Heq. }
    f_equal. by apply IH.
Qed.

Lemma free_app c (a b : string) : free c (a +:+ b) = free c a && free c b.
Proof. apply all_chars_app. Qed.

Lemma free_cons c d (s : string) : d ≠ c → free c (String d s) = free c s.
Proof. intros Hd. unfold free. cbn [all_chars]. by rewrite bool_decide_false. Qed.

Lemma free_join c d fs :
  d ≠ c → Forall (λ f, free c f = true) fs → free c (join d fs) = true.
Proof.
  intros Hd. induction 1 as [|f fs Hf Hfs IH]; [done|]. destruct fs as [|g fs]; [done|].
  by rewrite join_cons, free_app, Hf, free_cons, IH.
Qed.

(** ** Hexadecimal *)

Definition hex_char (d : N) : ascii :=
  match d with
  | 0 => "0" | 1 => "1" | 2 => "2" | 3 => "3" | 4 => "4" | 5 => "5" | 6 => "6" | 7 => "7"
  | 8 => "8" | 9 => "9" | 10 => "a" | 11 => "b" | 12 => "c" | 13 => "d" | 14 => "e" | _ => "f"
  end%char%N.

Fixpoint hex_go (fuel : nat) (n : N) (s : string) : string :=
  match fuel with
  | O => s
  | S fuel =>
      if decide (n = 0)%N then s else hex_go fuel (n / 16) (String (hex_char (n mod 16)) s)
  end.

(** [{:#x}] of a [usize]: at most sixteen digits. *)
Definition fmt_hex (n : N) : string :=
  "0x" +:+ (if decide (n = 0)%N then "0" else hex_go 16 n "").

(** [char::to_digit(16)] *)
Definition hex_digit (c : ascii) : option N :=
  let n := N_of_ascii c in
  if decide (48 ≤ n ≤ 57)%N then Some (n - 48)%N
  else if decide (97 ≤ n ≤ 102)%N then Some (n - 87)%N
  else if decide (65 ≤ n ≤ 70)%N then Some (n - 55)%N
  else None.

(** The digit loop, with its checked multiplication and addition. *)
Fixpoint radix16_loop (acc : N) (s : string) : option N :=
  match s with
  | EmptyString => Some acc
  | String c s =>
      d ← hex_digit c;
      acc ← checked_add usize_max (acc * 16) d;
      radix16_loop acc s
  end.

(** [usize::from_str_radix(s, 16).ok()]: an optional leading [+], at least one
    digit, no overflow. *)
Definition from_str_radix16 (s : string) : option N :=
  match s with
  | EmptyString => None
  | String c rest =>
      if decide (c = "+"%char) then
        match rest with EmptyString => None | _ => radix16_loop 0 rest end
      else radix16_loop 0 s
  end.

Lemma hex_digit_char d : (d < 16)%N → hex_digit (hex_char d) = Some d.
Proof.
  intros Hd. rewrite <-(N2Nat.id d). assert (N.to_nat d < 16) as Hk by lia.
  revert Hk. generalize (N.to_nat d) as k. intros k Hk.
  do 16 (destruct k as [|k]; [reflexivity|]). lia.
Qed.

Lemma hex_char_safe d : hex_char d ≠ "+"%char ∧ hex_char d ≠ ":"%char.
Proof. unfold hex_char. by repeat case_match. Qed.

Lemma hex_go_0 fuel s : hex_go fuel 0 s = s.
Proof. by destruct fuel. Qed.

Lemma radix16_hex_go fuel n s :
  (0 < n < 16 ^ N.of_nat fuel)%N → (n ≤ usize_max)%N →
  radix16_loop 0 (hex_go fuel n s) = radix16_loop n s.
Proof.
  revert n s. induction fuel as [|fuel IH]; intros n s [Hpos Hlt] Hmax.
  { simpl in Hlt. lia. }
  cbn [hex_go]. rewrite decide_False by lia.
  pose proof (N.div_mod n 16 ltac:(lia)) as Hdm.
  pose proof (N.mod_lt n 16 ltac:(lia)) as Hm.
  rewrite Nat2N.inj_succ, N.pow_succ_r' in Hlt.
  generalize dependent (n mod 16)%N. intros r Hdm Hm.
  generalize dependent (n / 16)%N. intros q Hdm.
  destruct (decide (q = 0)%N) as [Hz|Hz].
  - rewrite Hz, hex_go_0. cbn [radix16_loop]. rewrite hex_digit_char by done. simpl.
    unfold checked_add. rewrite decide_True by (unfold usize_max, u64_max; lia). simpl.
    f_equal. lia.
  - rewrite IH.
    + cbn [radix16_loop]. rewrite hex_digit_char by done. simpl.
      unfold checked_add. rewrite decide_True by lia. simpl. f_equal. lia.
    + split; lia.
    + lia.
Qed.

Lemma hex_go_head fuel n s :
  (0 < n)%N → 0 < fuel → ∃ d t, hex_go fuel n s = String (hex_char d) t.
Proof.
  revert n s. induction fuel as [|fuel IH]; intros n s Hn Hf; [lia|].
  cbn [hex_go]. rewrite decide_False by lia.
  destruct (decide (n / 16 = 0)%N) as [->|Hz]; [rewrite hex_go_0; eauto|].
  destruct fuel as [|fuel]; [simpl; eauto|]. apply IH; [by apply N.neq_0_lt_0|lia].
Qed.

Lemma from_str_radix16_digits n :
  (n ≤ usize_max)%N →
  from_str_radix16 (if decide (n = 0)%N then "0" else hex_go 16 n "") = Some n.
Proof.
  intros Hn. case_decide as Hz; [by subst|].
  destruct (hex_go_head 16 n "") as (d & t & Hh); [lia|lia|].
  assert (radix16_loop 0 (hex_go 16 n "") = Some n) as Hr.
  { rewrite radix16_hex_go; [done| |done]. split; [lia|]. eapply N.le_lt_trans; [exact Hn|].
    by vm_compute. }
  unfold from_str_radix16. rewrite Hh in *. destruct (hex_char_safe d) as [? _].
  by rewrite decide_False.
Qed.

Lemma free_hex_go c fuel n s :
  (∀ d, hex_char d ≠ c) → free c s = true → free c (hex_go fuel n s) = true.
Proof.
  intros Hc. revert n s. induction fuel as [|fuel IH]; intros n s Hs; [done|]. cbn [hex_go].
  case_decide; [done|]. apply IH. by rewrite free_cons.
Qed.

Lemma free_fmt_hex c n :
  c ∈ [":"; "|"]%char → free c (fmt_hex n) = true.
Proof.
  intros Hc. unfold fmt_hex. rewrite free_app. apply andb_true_iff.
  rewrite !elem_of_cons, elem_of_nil in Hc.
  assert (∀ d, hex_char d ≠ c).
  { intros d Hd. unfold hex_char in Hd. destruct Hc as [->|[->|[]]]; by repeat case_match. }
  split; [naive_solver|]. case_decide; [naive_solver|].
  apply free_hex_go; [done|naive_solver].
Qed.

Lemma fmt_hex_inj n m :
  (n ≤ usize_max)%N → (m ≤ usize_max)%N → fmt_hex n = fmt_hex m → n = m.
Proof.
  intros Hn Hm Heq%string_app_inj_l.
  pose proof (from_str_radix16_digits n Hn) as H1. rewrite Heq in H1.
  rewrite (from_str_radix16_digits m Hm) in H1. congruence.
Qed.

(** A field without the separator is determined when it comes last, whatever the
    text before it contains. *)
Lemma free_not_sep c (a b : string) : free c (a +:+ String c b) = false.
Proof.
  rewrite free_app. unfold free at 2. cbn [all_chars]. rewrite bool_decide_eq_true_2 by done.
  by rewrite andb_false_r.
Qed.

Lemma last_field_inj c (a a' b b' : string) :
  free c b = true → free c b' = true → a +:+ String c b = a' +:+ String c b' → a = a' ∧ b = b'.
Proof.
  intros Hb Hb'. revert a'. induction a as [|x a IH]; intros [|x' a'] Heq.
  - by injection Heq as ->.
  - injection Heq as <- ->. by rewrite free_not_sep in Hb.
  - injection Heq as -> <-. by rewrite free_not_sep in Hb'.
  - rewrite !string_app_cons in Heq. injection Heq as <- Heq. apply IH in Heq as [-> ->]. done.
Qed.
