(* ===== verification/Bytes.v ===== *)
(** * Bytes: little-endian words, UTF-8, windows of buffers, codec laws

    Bytes are numbers below 256; a Rust [String] is the string of its UTF-8
    bytes.  Shared by the wire codecs and by the on-disk parsers: the integer
    conversions [to_le_bytes]/[from_le_bytes], [str::from_utf8], slices
    [buf.get(off..)], [copy_from_slice], and the law every codec of the
    repository is proved to satisfy. *)

From Stdlib Require Import Ascii.
From S2P Require Import Prelude.

(** ** Bytes *)

(** [u32::from_le_bytes] and [u16::from_le_bytes]; the casts of [len()]. *)
Definition u32_from_le (b0 b1 b2 b3 : N) : N := b0 + 256 * (b1 + 256 * (b2 + 256 * b3)).
Definition u16_from_le (b0 b1 : N) : N := b0 + 256 * b1.

Definition u32_to_le (n : N) : list N :=
  [n mod 256; n / 256 mod 256; n / 65536 mod 256; n / 16777216 mod 256]%N.
Definition u16_to_le (n : N) : list N := [n mod 256; n / 256 mod 256]%N.

Definition as_bytes (s : string) : list N := N_of_ascii <$> String.list_ascii_of_string s.
Definition from_bytes (bs : list N) : string := String.string_of_list_ascii (ascii_of_N <$> bs).

Definition in_range (lo hi b : N) : bool := bool_decide (lo ≤ b ∧ b ≤ hi)%N.
Definition continuation (b : N) : bool := in_range 0x80 0xBF b.

(** The well-formed byte sequences of [core::str::from_utf8]. *)
Fixpoint utf8_valid (bs : list N) : bool :=
  match bs with
  | [] => true
  | b0 :: rest =>
      if in_range 0 0x7F b0 then utf8_valid rest else
      match rest with
      | [] => false
      | b1 :: rest =>
          if in_range 0xC2 0xDF b0 then continuation b1 && utf8_valid rest else
          match rest with
          | [] => false
          | b2 :: rest =>
              if in_range 0xE0 0xEF b0 then
                (if decide (b0 = 0xE0)%N then in_range 0xA0 0xBF b1
                 else if decide (b0 = 0xED)%N then in_range 0x80 0x9F b1
                 else continuation b1) && continuation b2 && utf8_valid rest
              else
              match rest with
              | [] => false
              | b3 :: rest =>
                  in_range 0xF0 0xF4 b0 &&
                  (if decide (b0 = 0xF0)%N then in_range 0x90 0xBF b1
                   else if decide (b0 = 0xF4)%N then in_range 0x80 0x8F b1
                   else continuation b1) && continuation b2 && continuation b3 && utf8_valid rest
              end
          end
      end
  end.

Definition from_utf8 (bs : list N) : option string :=
  if utf8_valid bs then Some (from_bytes bs) else None.

(** ** Byte lemmas *)

Definition bytes (bs : list N) : Prop := Forall (λ b, b < 256)%N bs.

Lemma le_digit a b : (a < 256 → (a + 256 * b) mod 256 = a ∧ (a + 256 * b) / 256 = b)%N.
Proof.
  intros Ha. rewrite (N.mul_comm 256). rewrite N.Div0.mod_add, N.div_add, N.mod_small, N.div_small by done.
  done.
Qed.

Lemma u32_digits n :
  u32_to_le n = [n mod 256; n / 256 mod 256; n / 256 / 256 mod 256; n / 256 / 256 / 256 mod 256]%N.
Proof. unfold u32_to_le. by rewrite !N.Div0.div_div. Qed.

Lemma u32_le_roundtrip n : (n < 4294967296)%N →
  ∃ b0 b1 b2 b3, u32_to_le n = [b0; b1; b2; b3] ∧ u32_from_le b0 b1 b2 b3 = n.
Proof.
  intros Hn. rewrite u32_digits. eexists _, _, _, _. split; [reflexivity|]. unfold u32_from_le.
  pose proof (N.div_mod n 256) as H0. pose proof (N.div_mod (n / 256) 256) as H1.
  pose proof (N.div_mod (n / 256 / 256) 256) as H2.
  assert (n / 256 / 256 / 256 < 256)%N as Hq.
  { rewrite !N.Div0.div_div. apply N.Div0.div_lt_upper_bound. lia. }
  rewrite (N.mod_small _ _ Hq). lia.
Qed.

Lemma u32_le_inj b0 b1 b2 b3 :
  bytes [b0; b1; b2; b3] → u32_to_le (u32_from_le b0 b1 b2 b3) = [b0; b1; b2; b3].
Proof.
  unfold bytes. rewrite !Forall_cons. intros (H0 & H1 & H2 & H3 & _). rewrite u32_digits.
  unfold u32_from_le. destruct (le_digit b0 (b1 + 256 * (b2 + 256 * b3)) H0) as [-> ->].
  destruct (le_digit b1 (b2 + 256 * b3) H1) as [-> ->].
  destruct (le_digit b2 b3 H2) as [-> ->]. by rewrite N.mod_small.
Qed.

Lemma u16_le_roundtrip n : (n < 65536)%N →
  ∃ b0 b1, u16_to_le n = [b0; b1] ∧ u16_from_le b0 b1 = n.
Proof.
  intros Hn. eexists _, _. split; [reflexivity|]. unfold u16_from_le.
  pose proof (N.div_mod n 256) as H0.
  assert (n / 256 < 256)%N as Hq by (apply N.Div0.div_lt_upper_bound; lia).
  rewrite (N.mod_small _ _ Hq). lia.
Qed.

Lemma u16_le_inj b0 b1 : bytes [b0; b1] → u16_to_le (u16_from_le b0 b1) = [b0; b1].
Proof.
  unfold bytes. rewrite !Forall_cons. intros (H0 & H1 & _).
  unfold u16_to_le, u16_from_le. destruct (le_digit b0 b1 H0) as [-> ->]. by rewrite N.mod_small.
Qed.

Lemma from_as_bytes s : from_bytes (as_bytes s) = s.
Proof.
  unfold from_bytes, as_bytes. induction s as [|c s IH]; [done|]. cbn.
  rewrite ascii_N_embedding. f_equal. exact IH.
Qed.

Lemma as_from_bytes bs : bytes bs → as_bytes (from_bytes bs) = bs.
Proof.
  unfold from_bytes, as_bytes. induction 1 as [|b bs Hb _ IH]; [done|]. cbn.
  rewrite N_ascii_embedding by done. f_equal. exact IH.
Qed.

Lemma length_as_bytes s : length (as_bytes s) = String.length s.
Proof. unfold as_bytes. rewrite length_fmap. induction s as [|c s IH]; [done|]. cbn. by rewrite IH. Qed.

Lemma length_from_bytes bs : String.length (from_bytes bs) = length bs.
Proof. induction bs as [|b bs IH]; [done|]. cbn. f_equal. exact IH. Qed.

Lemma len_app {A} (l k : list A) : len (l ++ k) = (len l + len k)%N.
Proof. unfold len. rewrite length_app. lia. Qed.

Lemma len_nil_cons {A} (x : A) l : len (x :: l) = (1 + len l)%N.
Proof. unfold len. cbn [length]. lia. Qed.

Lemma split_at {A} (l : list A) n :
  (n ≤ len l)%N → ∃ ext, l = take (N.to_nat n) l ++ ext ∧ len (take (N.to_nat n) l) = n.
Proof.
  unfold len. intros Hn. exists (drop (N.to_nat n) l). rewrite take_drop, length_take. split; [done|lia].
Qed.

Lemma bytes_tail b buf : bytes (b :: buf) → bytes buf.
Proof. by intros [_ ?]%Forall_cons. Qed.

Lemma take_len_app {A} (l ext : list A) n :
  (n ≤ len l)%N → take (N.to_nat n) (l ++ ext) = take (N.to_nat n) l.
Proof. unfold len. intros Hn. by rewrite take_app_le by lia. Qed.

(** ** Little-endian words of any width

    [n.to_le_bytes()] of a [k]-byte integer and [from_le_bytes]. *)

Fixpoint le_bytes (k : nat) (n : N) : list N :=
  match k with
  | O => []
  | S k => (n mod 256)%N :: le_bytes k (n / 256)%N
  end.

Fixpoint from_le (bs : list N) : N :=
  match bs with
  | [] => 0
  | b :: bs => b + 256 * from_le bs
  end.

Lemma length_le_bytes k n : length (le_bytes k n) = k.
Proof. revert n. induction k as [|k IH]; intros n; cbn; [done|by rewrite IH]. Qed.

Lemma bytes_le_bytes k n : bytes (le_bytes k n).
Proof.
  revert n. induction k as [|k IH]; intros n; cbn; constructor; [|apply IH].
  by apply N.mod_lt.
Qed.

Lemma from_le_bytes_mod k n : from_le (le_bytes k n) = (n mod 256 ^ N.of_nat k)%N.
Proof.
  revert n. induction k as [|k IH]; intros n.
  - cbn. by rewrite N.mod_1_r.
  - cbn [le_bytes from_le]. rewrite IH, Nat2N.inj_succ, N.pow_succ_r', N.Div0.mod_mul_r. done.
Qed.

Lemma from_le_bytes k n : (n < 256 ^ N.of_nat k)%N → from_le (le_bytes k n) = n.
Proof. intros Hn. by rewrite from_le_bytes_mod, N.mod_small. Qed.

Lemma le_bytes_from bs : bytes bs → le_bytes (length bs) (from_le bs) = bs.
Proof.
  unfold bytes. induction 1 as [|b bs Hb _ IH]; [done|]. cbn [length le_bytes from_le].
  destruct (le_digit b (from_le bs) Hb) as [-> ->]. by rewrite IH.
Qed.

Lemma from_le_lt bs : bytes bs → (from_le bs < 256 ^ len bs)%N.
Proof.
  unfold bytes, len. induction 1 as [|b bs Hb _ IH]; [done|].
  cbn [length from_le]. rewrite Nat2N.inj_succ, N.pow_succ_r'. lia.
Qed.

Lemma le_bytes_inj k n m :
  (n < 256 ^ N.of_nat k)%N → (m < 256 ^ N.of_nat k)%N → le_bytes k n = le_bytes k m → n = m.
Proof. intros Hn Hm Heq. by rewrite <-(from_le_bytes k n), <-(from_le_bytes k m), Heq. Qed.

Lemma u16_to_le_bytes n : u16_to_le n = le_bytes 2 n.
Proof. done. Qed.

Lemma bytes_u16 n : bytes (u16_to_le n).
Proof. rewrite u16_to_le_bytes. apply bytes_le_bytes. Qed.

Lemma bytes_u32 n : bytes (u32_to_le n).
Proof. rewrite u32_digits. apply (bytes_le_bytes 4 n). Qed.

Lemma bytes_app l k : bytes (l ++ k) ↔ bytes l ∧ bytes k.
Proof. apply Forall_app. Qed.

Lemma bytes_as_bytes s : bytes (as_bytes s).
Proof.
  unfold as_bytes, bytes. apply Forall_fmap, Forall_forall. intros c _. apply N_ascii_bounded.
Qed.

(** ** Windows of a buffer *)

(** [buf.get(off..)]: out of range is [None]. *)
Definition get_from (buf : list N) (off : N) : option (list N) :=
  if decide (off ≤ len buf)%N then Some (drop (N.to_nat off) buf) else None.

(** [buf[off..off + n]], used behind a length check. *)
Definition slice (buf : list N) (off n : N) : list N :=
  take (N.to_nat n) (drop (N.to_nat off) buf).

(** [sector[off..off + src.len()].copy_from_slice(src)], within bounds. *)
Definition copy_at (buf : list N) (off : N) (src : list N) : list N :=
  take (N.to_nat off) buf ++ src ++ drop (N.to_nat off + length src) buf.

Lemma get_from_app l k off : get_from (l ++ k) (len l + off) = get_from k off.
Proof.
  unfold get_from. rewrite len_app. repeat case_decide; try lia; [|done].
  f_equal. unfold len. rewrite N2Nat.inj_add, Nat2N.id. apply drop_app_add.
Qed.

Lemma get_from_len l k : get_from (l ++ k) (len l) = Some k.
Proof.
  rewrite <-(N.add_0_r (len l)), get_from_app. unfold get_from. by rewrite decide_True by lia.
Qed.

Lemma length_slice buf off n :
  (off + n ≤ len buf)%N → len (slice buf off n) = n.
Proof. unfold slice, len. intros H. rewrite length_take, length_drop. lia. Qed.

Lemma slice_app_here l bs k off n :
  off = len l → n = len bs → slice (l ++ bs ++ k) off n = bs.
Proof.
  intros -> ->. unfold slice, len. rewrite !Nat2N.id, drop_app_length. apply take_app_length.
Qed.

Lemma length_copy_at buf off src :
  (off + len src ≤ len buf)%N → length (copy_at buf off src) = length buf.
Proof. unfold copy_at, len. intros H. rewrite !length_app, length_take, length_drop. lia. Qed.

Lemma slice_copy_same buf off src :
  (off + len src ≤ len buf)%N → slice (copy_at buf off src) off (len src) = src.
Proof.
  intros H. unfold copy_at. apply slice_app_here; [|done]. unfold len in *. rewrite length_take. lia.
Qed.

Lemma lookup_copy_other buf off src (i : nat) :
  (off + len src ≤ len buf)%N →
  (i < N.to_nat off ∨ N.to_nat off + length src ≤ i)%nat → copy_at buf off src !! i = buf !! i.
Proof.
  unfold copy_at, len. intros H [Hi|Hi].
  - rewrite lookup_app_l by (rewrite length_take; lia). by rewrite lookup_take_lt.
  - rewrite lookup_app_r by (rewrite length_take; lia).
    rewrite lookup_app_r by (rewrite length_take; lia).
    rewrite lookup_drop. f_equal. rewrite length_take. lia.
Qed.

Lemma lookup_copy_same buf off src (i : nat) :
  (off + len src ≤ len buf)%N → (i < length src)%nat →
  copy_at buf off src !! (N.to_nat off + i)%nat = src !! i.
Proof.
  unfold copy_at, len. intros H Hi. rewrite lookup_app_r by (rewrite length_take; lia).
  rewrite lookup_app_l by (rewrite length_take; lia). f_equal. rewrite length_take. lia.
Qed.

Lemma slice_copy_other buf off src off' n :
  (off + len src ≤ len buf)%N →
  (off' + n ≤ off ∨ off + len src ≤ off')%N → slice (copy_at buf off src) off' n = slice buf off' n.
Proof.
  intros H Hd. apply list_eq. intros i. unfold slice.
  destruct (decide (i < N.to_nat n)) as [Hi|Hi].
  - rewrite !lookup_take_lt, !lookup_drop by done. apply lookup_copy_other; [done|].
    unfold len in *. lia.
  - rewrite !lookup_take_ge by lia. done.
Qed.

Lemma bytes_copy_at buf off src : bytes buf → bytes src → bytes (copy_at buf off src).
Proof.
  intros Hb Hs. unfold copy_at. rewrite !bytes_app. split_and!; [by apply Forall_take|done|by apply Forall_drop].
Qed.

Lemma bytes_slice buf off n : bytes buf → bytes (slice buf off n).
Proof. intros Hb. by apply Forall_take, Forall_drop. Qed.

(** ** Length-prefixed fields

    The [u16]-length fields of [ipc/src/fs.rs], [sockets.rs] and [marshal.rs]:
    a bound on the announced length, then on what has arrived. *)

Definition encode_blob (bs : list N) : list N := u16_to_le (len bs mod 65536)%N ++ bs.

Definition decode_blob (max : N) (buf : list N) : option (list N * N) :=
  match buf with
  | b0 :: b1 :: rest =>
      let n := u16_from_le b0 b1 in
      if decide (max < n)%N then None
      else if decide (len rest < n)%N then None
      else Some (take (N.to_nat n) rest, 2 + n)%N
  | _ => None
  end.

Definition encode_str (s : string) : list N :=
  u16_to_le (N.of_nat (String.length s) mod 65536)%N ++ as_bytes s.

Definition decode_str (max : N) (buf : list N) : option (string * N) :=
  '(bs, n) ← decode_blob max buf; s ← from_utf8 bs; Some (s, n).

Lemma encode_str_blob s : encode_str s = encode_blob (as_bytes s).
Proof. unfold encode_str, encode_blob, len. by rewrite length_as_bytes. Qed.

(** ** Exact codecs

    [dec] reads from the front of a buffer exactly the encodings of the values
    [ok] admits, and says how many bytes it used.  Every wire format of [ipc/] is
    an instance; the streaming facts below follow from the law alone. *)

Class ExactCodec {A} (ok : A → Prop) (enc : A → list N) (dec : list N → option (A * N)) : Prop := {
  codec_exact buf a n :
    bytes buf → dec buf = Some (a, n) ↔ ok a ∧ n = len (enc a) ∧ ∃ ext, buf = enc a ++ ext;
  codec_bytes a : ok a → bytes (enc a);
}.

Section codec.
Context {A} {ok : A → Prop} {enc : A → list N} {dec : list N → option (A * N)}.
Context `{!ExactCodec ok enc dec}.

Lemma codec_dec a ext : ok a → bytes ext → dec (enc a ++ ext) = Some (a, len (enc a)).
Proof.
  intros Ha Hext. apply codec_exact; [by apply bytes_app; split; [by apply codec_bytes|]|].
  split_and!; [done|done|by eexists].
Qed.

Lemma codec_inv buf a n :
  bytes buf → dec buf = Some (a, n) → ok a ∧ n = len (enc a) ∧ ∃ ext, buf = enc a ++ ext ∧ bytes ext.
Proof.
  intros Hb Hd. apply codec_exact in Hd as (Ha & -> & ext & ->); [|done].
  split_and!; [done|done|]. exists ext. split; [done|]. by apply bytes_app in Hb as [_ ?].
Qed.

(** A decoded message is not disturbed by the bytes that follow. *)
Lemma codec_more buf a n ext :
  bytes (buf ++ ext) → dec buf = Some (a, n) → dec (buf ++ ext) = Some (a, n).
Proof.
  intros Hb Hd. pose proof Hb as [Hb1 Hb2]%bytes_app.
  apply codec_inv in Hd as (Ha & -> & k & -> & Hk); [|done].
  rewrite <-app_assoc. apply codec_dec; [done|]. by apply bytes_app.
Qed.

(** Encodings are prefix-free. *)
Lemma codec_prefix_free a b x y :
  ok a → ok b → bytes x → bytes y → enc a ++ x = enc b ++ y → a = b ∧ x = y.
Proof.
  intros Ha Hb Hx Hy Heq. pose proof (codec_dec a x Ha Hx) as H. rewrite Heq in H.
  rewrite (codec_dec b y Hb Hy) in H. injection H as <- _. split; [done|]. by simplify_list_eq.
Qed.

(** A strict prefix of an encoding asks for more. *)
Lemma codec_truncated a k :
  ok a → (k < length (enc a))%nat → dec (take k (enc a)) = None.
Proof.
  intros Ha Hk. destruct (dec (take k (enc a))) as [[b n]|] eqn:Hd; [exfalso|done].
  pose proof (codec_bytes a Ha) as Hb. rewrite <-(take_drop k (enc a)) in Hb.
  pose proof (codec_more _ _ _ _ Hb Hd) as Hfull. rewrite take_drop in Hfull.
  pose proof (codec_dec a [] Ha (Forall_nil_2 _)) as Hs. rewrite app_nil_r, Hfull in Hs.
  injection Hs as -> ->. apply bytes_app in Hb as [Hb _].
  apply codec_inv in Hd as (_ & _ & ext & Heq & _); [|done].
  apply (f_equal length) in Heq. rewrite length_app, length_take in Heq. lia.
Qed.

End codec.

Lemma blob_codec max : (max < 65536)%N →
  ExactCodec (λ bs, (len bs ≤ max)%N ∧ bytes bs) encode_blob (decode_blob max).
Proof.
  intros Hm. split; [|intros bs [_ Hbs]; unfold encode_blob; apply bytes_app; by split; [apply bytes_u16|]].
  intros buf bs n Hb. split.
  - destruct buf as [|b0 [|b1 rest]]; try done. cbn [decode_blob].
    case_decide as Hmax; [done|]. case_decide as Hlen; [done|].
    destruct (split_at rest (u16_from_le b0 b1)) as (ext & Hrest & Hl); [lia|].
    revert Hrest Hl. generalize (take (N.to_nat (u16_from_le b0 b1)) rest). intros bs' -> Hl [= <- <-].
    apply (Forall_app _ [b0; b1] (bs' ++ ext)) in Hb as [Hb [Hbs _]%Forall_app].
    unfold encode_blob. rewrite Hl, N.mod_small, u16_le_inj, len_app by (done || lia).
    split_and!; [lia|done|unfold len at 1; cbn [length]; lia|by exists ext].
  - intros ((Hmax & _) & -> & ext & ->). unfold encode_blob. rewrite N.mod_small by lia.
    destruct (u16_le_roundtrip (len bs)) as (b0 & b1 & -> & Hn); [lia|].
    cbn [app decode_blob]. rewrite Hn. rewrite decide_False by lia.
    rewrite decide_False by (rewrite len_app; lia).
    unfold len at 1. rewrite Nat2N.id, take_app_length. do 2 f_equal. unfold len. cbn [length]. lia.
Qed.

(** A string a field of at most [max] bytes can carry. *)
Definition str_fits (max : N) (s : string) : Prop :=
  (N.of_nat (String.length s) ≤ max)%N ∧ utf8_valid (as_bytes s) = true.

Lemma str_codec max : (max < 65536)%N → ExactCodec (str_fits max) encode_str (decode_str max).
Proof.
  intros Hm. pose proof (blob_codec max Hm) as Hblob. split.
  2:{ intros s _. rewrite encode_str_blob. unfold encode_blob. apply bytes_app.
      split; [apply bytes_u16|apply bytes_as_bytes]. }
  intros buf s n Hb. unfold decode_str, str_fits. rewrite encode_str_blob, <-length_as_bytes. split.
  - intros ([bs k] & Hd & (s' & Hu & [= <- <-])%bind_Some)%bind_Some.
    apply codec_inv in Hd as ([Hl Hbs] & -> & ext & -> & _); [|done].
    unfold from_utf8 in Hu. destruct (utf8_valid bs) eqn:Hv; [|done]. injection Hu as <-.
    rewrite as_from_bytes by done. split_and!; [done|done|done|by eexists].
  - intros ((Hl & Hv) & -> & ext & ->). apply bytes_app in Hb as [_ Hext].
    rewrite codec_dec; [|by split; [|apply bytes_as_bytes]|done].
    cbn [mbind option_bind]. unfold from_utf8. by rewrite Hv, from_as_bytes.
Qed.
