(* ===== verification/Account.v ===== *)
(** * Account: the subscriber / account / plan registry

    Model of [mobile/src/account.rs]: the registry's two vectors, the single
    mutation point [apply] and its wrappers, the enable gate and the audit. *)

From S2P Require Import Prelude.

Definition MAX_ACCOUNTS : nat := 16.
Definition MAX_PROFILES_PER_ACCOUNT : nat := 4.

(** ** Data *)

(** [SubscriberId], [AccountId] ([u64]) and [PlanId] ([u32]) are newtypes over
    integers; they are the integers here. *)

Record ProfileKey := mkKey { key_slot : N; key_profile : N }.

Inductive AccountStatus := Active | Suspended | Closed.

Inductive ProfileLifecycle := Created | Disabled | Enabled | Deleted.

(** The caller-supplied view of eSIM state; [None] is "unknown". *)
Definition ProfileLifecycles : Type := ProfileKey → option ProfileLifecycle.

Record Account := mkAccount {
  acct_id : N;
  acct_subscriber : N;
  acct_plan : N;
  acct_status : AccountStatus;
}.

Inductive AccountError :=
  | RegistryFull
  | AccountFull
  | NoSuchAccount
  | AccountClosed
  | AccountNotActive (s : AccountStatus)
  | InvalidTransition (from to : AccountStatus)
  | AlreadyBound (owner : N)
  | NotBound
  | UnknownProfile (k : ProfileKey)
  | ProfileDeleted (k : ProfileKey)
  | ProfileEnabled (k : ProfileKey).

Inductive Change :=
  | Open (subscriber plan : N)
  | Bind (account : N) (profile : ProfileKey)
  | Unbind (profile : ProfileKey)
  | SetStatus (account : N) (to : AccountStatus).

Record Applied := mkApplied {
  applied_account : N;
  force_disable : list ProfileKey;
}.

Record AccountRegistry := mkRegistry {
  reg_accounts : list Account;
  bindings : list (ProfileKey * N);
}.

#[global] Instance ProfileKey_eq_dec : EqDecision ProfileKey.
Proof. solve_decision. Defined.
#[global] Instance AccountStatus_eq_dec : EqDecision AccountStatus.
Proof. solve_decision. Defined.
#[global] Instance ProfileLifecycle_eq_dec : EqDecision ProfileLifecycle.
Proof. solve_decision. Defined.
#[global] Instance Account_eq_dec : EqDecision Account.
Proof. solve_decision. Defined.
#[global] Instance AccountError_eq_dec : EqDecision AccountError.
Proof. solve_decision. Defined.

(** ** Queries *)

Definition new : AccountRegistry := mkRegistry [] [].

Definition account (self : AccountRegistry) (id : N) : option Account :=
  iter_find (λ a, acct_id a = id) (reg_accounts self).

Definition accounts (self : AccountRegistry) : list Account := reg_accounts self.

Definition owner_of (self : AccountRegistry) (profile : ProfileKey) : option N :=
  snd <$> iter_find (λ b, b.1 = profile) (bindings self).

Definition profiles_of (self : AccountRegistry) (account : N) : list ProfileKey :=
  fst <$> filter (λ b, b.2 = account) (bindings self).

Definition check_enable (self : AccountRegistry) (acc : N) (profile : ProfileKey)
    : Result AccountError () :=
  acct ← ok_or (account self acc) NoSuchAccount;
  if decide (owner_of self profile ≠ Some acc) then Err NotBound else
  match acct_status acct with
  | Active => Ok ()
  | Closed => Err AccountClosed
  | s => Err (AccountNotActive s)
  end.

(** An [Enabled] profile whose owner is missing or not [Active]. *)
Definition leaked (self : AccountRegistry) (lc : ProfileLifecycles)
    (b : ProfileKey * N) : bool :=
  bool_decide (lc b.1 = Some Enabled) &&
  match account self b.2 with
  | None => true
  | Some acct => bool_decide (acct_status acct ≠ Active)
  end.

Definition audit (self : AccountRegistry) (lc : ProfileLifecycles) : list ProfileKey :=
  fst <$> filter (λ b, leaked self lc b = true) (bindings self).

(** ** The one mutation point *)

(** The status table: [Some legal], [None] when the source is [Closed]. *)
Definition legal_transition (from to : AccountStatus) : option bool :=
  match from, to with
  | Closed, _ => None
  | Active, Suspended | Suspended, Active | Active, Closed | Suspended, Closed =>
      Some true
  | _, _ => Some false
  end.

(** The loop that gathers lifecycle facts for every bound profile. *)
Fixpoint gather_force_disable (lc : ProfileLifecycles) (to : AccountStatus)
    (keys : list ProfileKey) (acc : list ProfileKey)
    : Result AccountError (list ProfileKey) :=
  match keys with
  | [] => Ok acc
  | key :: keys =>
      state ← ok_or (lc key) (UnknownProfile key);
      if decide (state = Enabled) then
        if decide (to = Closed) then Err (ProfileEnabled key)
        else gather_force_disable lc to keys (acc ++ [key])
      else gather_force_disable lc to keys acc
  end.

Definition set_status (a : Account) (to : AccountStatus) : Account :=
  mkAccount (acct_id a) (acct_subscriber a) (acct_plan a) to.

Definition apply_open (self : AccountRegistry) (subscriber plan : N)
    : Result AccountError Applied * AccountRegistry :=
  if decide (MAX_ACCOUNTS ≤ length (reg_accounts self)) then (Err RegistryFull, self) else
  let id := len (reg_accounts self) in
  (Ok (mkApplied id []),
   mkRegistry (reg_accounts self ++ [mkAccount id subscriber plan Active]) (bindings self)).

Definition apply_bind (self : AccountRegistry) (acc : N) (profile : ProfileKey)
    (lc : ProfileLifecycles) : Result AccountError Applied * AccountRegistry :=
  match account self acc with
  | None => (Err NoSuchAccount, self)
  | Some acct =>
      let status := acct_status acct in
      if decide (status = Closed) then (Err AccountClosed, self) else
      match owner_of self profile with
      | Some owner => (Err (AlreadyBound owner), self)
      | None =>
          match lc profile with
          | None => (Err (UnknownProfile profile), self)
          | Some state =>
              if decide (state = Deleted) then (Err (ProfileDeleted profile), self) else
              if decide (state = Enabled ∧ status ≠ Active)
              then (Err (AccountNotActive status), self) else
              if decide (MAX_PROFILES_PER_ACCOUNT ≤ length (profiles_of self acc))
              then (Err AccountFull, self) else
              (Ok (mkApplied acc []),
               mkRegistry (reg_accounts self) (bindings self ++ [(profile, acc)]))
          end
      end
  end.

Definition apply_unbind (self : AccountRegistry) (profile : ProfileKey)
    (lc : ProfileLifecycles) : Result AccountError Applied * AccountRegistry :=
  match list_find (λ b, b.1 = profile) (bindings self) with
  | None => (Err NotBound, self)
  | Some (pos, (_, owner)) =>
      match lc profile with
      | None => (Err (UnknownProfile profile), self)
      | Some state =>
          if decide (state = Enabled) then (Err (ProfileEnabled profile), self) else
          (Ok (mkApplied owner []),
           mkRegistry (reg_accounts self) (delete pos (bindings self)))
      end
  end.

Definition apply_set_status (self : AccountRegistry) (acc : N) (to : AccountStatus)
    (lc : ProfileLifecycles) : Result AccountError Applied * AccountRegistry :=
  match list_find (λ a, acct_id a = acc) (reg_accounts self) with
  | None => (Err NoSuchAccount, self)
  | Some (idx, a) =>
      let from := acct_status a in
      match legal_transition from to with
      | None => (Err AccountClosed, self)
      | Some false => (Err (InvalidTransition from to), self)
      | Some true =>
          match (if decide (to ≠ Active)
                 then gather_force_disable lc to (profiles_of self acc) []
                 else Ok []) with
          | Err e => (Err e, self)
          | Ok forced =>
              (Ok (mkApplied acc forced),
               mkRegistry (<[idx := set_status a to]> (reg_accounts self)) (bindings self))
          end
      end
  end.

(** [AccountRegistry::apply]: the four arms of its [match]. *)
Definition apply (self : AccountRegistry) (change : Change) (lc : ProfileLifecycles)
    : Result AccountError Applied * AccountRegistry :=
  match change with
  | Open subscriber plan => apply_open self subscriber plan
  | Bind acc profile => apply_bind self acc profile lc
  | Unbind profile => apply_unbind self profile lc
  | SetStatus acc to => apply_set_status self acc to lc
  end.

(** ** The wrappers *)

Definition no_lifecycle : ProfileLifecycles := λ _, None.

Definition open_account (self : AccountRegistry) (subscriber plan : N)
    : Result AccountError N * AccountRegistry :=
  let '(r, self') := apply self (Open subscriber plan) no_lifecycle in
  (applied_account <$> r, self').

Definition bind (self : AccountRegistry) (acc : N) (profile : ProfileKey)
    (lc : ProfileLifecycles) : Result AccountError () * AccountRegistry :=
  let '(r, self') := apply self (Bind acc profile) lc in ((λ _, ()) <$> r, self').

Definition unbind (self : AccountRegistry) (profile : ProfileKey)
    (lc : ProfileLifecycles) : Result AccountError () * AccountRegistry :=
  let '(r, self') := apply self (Unbind profile) lc in ((λ _, ()) <$> r, self').

Definition suspend (self : AccountRegistry) (acc : N) (lc : ProfileLifecycles)
    : Result AccountError (list ProfileKey) * AccountRegistry :=
  let '(r, self') := apply self (SetStatus acc Suspended) lc in
  (force_disable <$> r, self').

Definition reactivate (self : AccountRegistry) (acc : N)
    : Result AccountError () * AccountRegistry :=
  let '(r, self') := apply self (SetStatus acc Active) no_lifecycle in
  ((λ _, ()) <$> r, self').

Definition close (self : AccountRegistry) (acc : N) (lc : ProfileLifecycles)
    : Result AccountError () * AccountRegistry :=
  let '(r, self') := apply self (SetStatus acc Closed) lc in ((λ _, ()) <$> r, self').

(** DEMO DATA: two accounts and three bindings. *)
Definition demo (lc : ProfileLifecycles) : Result AccountError AccountRegistry :=
  let '(ra, r) := open_account new 0xD00001 1 in
  a ← ra;
  let '(rb, r) := open_account r 0xD00002 2 in
  b ← rb;
  let '(r1, r) := bind r a (mkKey 0 0) lc in
  _ ← r1;
  let '(r2, r) := bind r a (mkKey 0 1) lc in
  _ ← r2;
  let '(r3, r) := bind r b (mkKey 1 0) lc in
  _ ← r3;
  Ok r.

(** ** Well-formedness

    The registry's invariant: ids are positions, both tables are bounded, a
    profile is bound at most once, and every owner is an open account. *)

Record wf (r : AccountRegistry) : Prop := mk_wf {
  wf_ids : ∀ i a, reg_accounts r !! i = Some a → acct_id a = N.of_nat i;
  wf_len : length (reg_accounts r) ≤ MAX_ACCOUNTS;
  wf_keys : NoDup (bindings r).*1;
  wf_owners : ∀ k o, (k, o) ∈ bindings r → (o < len (reg_accounts r))%N;
  wf_cap : ∀ o, length (profiles_of r o) ≤ MAX_PROFILES_PER_ACCOUNT;
}.

Lemma wf_new : wf new.
Proof.
  split; simpl; [done|unfold MAX_ACCOUNTS; lia|apply NoDup_nil_2|set_solver|].
  intros o. unfold profiles_of, MAX_PROFILES_PER_ACCOUNT. simpl. lia.
Qed.

(** *** Lookups under the invariant *)

Lemma account_lookup r id : wf r → account r id = reg_accounts r !! N.to_nat id.
Proof.
  intros Hwf. unfold account.
  destruct (reg_accounts r !! N.to_nat id) as [a|] eqn:Ha.
  - pose proof (wf_ids _ Hwf _ _ Ha) as Hid.
    destruct (iter_find_is_Some (λ a, acct_id a = id) (reg_accounts r) a) as [b Hb];
      [by eapply list_elem_of_lookup_2|lia|].
    rewrite Hb. apply (iter_find_Some_1 (λ a, acct_id a = id)) in Hb as [[j Hj]%list_elem_of_lookup Hbid].
    pose proof (wf_ids _ Hwf _ _ Hj). assert (j = N.to_nat id) by lia. congruence.
  - apply iter_find_None, Forall_forall. intros b [j Hj]%list_elem_of_lookup <-.
    pose proof (wf_ids _ Hwf _ _ Hj) as Hid. rewrite Hid, Nat2N.id in Ha. congruence.
Qed.

Lemma account_find r acc :
  account r acc = snd <$> list_find (λ a, acct_id a = acc) (reg_accounts r).
Proof. done. Qed.

Lemma list_find_account r acc idx a :
  wf r → list_find (λ a, acct_id a = acc) (reg_accounts r) = Some (idx, a) →
  idx = N.to_nat acc ∧ reg_accounts r !! idx = Some a ∧ acct_id a = acc ∧
  account r acc = Some a.
Proof.
  intros Hwf Hf. assert (account r acc = Some a) as Ha by (by rewrite account_find, Hf).
  apply list_find_Some in Hf as (Hl & Hid & _).
  pose proof (wf_ids _ Hwf _ _ Hl). split_and!; [lia|done..].
Qed.

Lemma owner_of_Some r k o : wf r → owner_of r k = Some o ↔ (k, o) ∈ bindings r.
Proof.
  intros Hwf. unfold owner_of. split.
  - intros ([k' o'] & Hf & ->)%fmap_Some.
    apply (keyed_find fst) in Hf as [Hin Hk]; [|apply Hwf]. simpl in *. by subst.
  - intros Hin. assert (iter_find (λ b, b.1 = k) (bindings r) = Some (k, o)) as ->; [|done].
    apply (keyed_find fst); [apply Hwf|done].
Qed.

Lemma owner_of_None r k : owner_of r k = None ↔ k ∉ (bindings r).*1.
Proof. unfold owner_of. rewrite fmap_None. apply (keyed_find_None fst). Qed.

Lemma elem_of_profiles_of r k o : k ∈ profiles_of r o ↔ (k, o) ∈ bindings r.
Proof.
  unfold profiles_of. rewrite list_elem_of_fmap. split.
  - intros ([k' o'] & -> & [Ho ?]%list_elem_of_filter). simpl in *. by subst.
  - intros ?. exists (k, o). by rewrite list_elem_of_filter.
Qed.

Lemma NoDup_profiles_of r o : wf r → NoDup (profiles_of r o).
Proof.
  intros Hwf. apply (keyed_sublist fst) with (bindings r); [apply Hwf|].
  apply sublist_filter.
Qed.

(** *** Every arm of [apply] preserves the invariant *)

Lemma apply_open_wf r s p : wf r → wf (apply_open r s p).2.
Proof.
  intros Hwf. unfold apply_open. case_decide as Hfull; [done|]. simpl. split; simpl.
  - intros i a Hi. destruct (decide (i < length (reg_accounts r))).
    + rewrite lookup_app_l in Hi by lia. by apply Hwf.
    + rewrite lookup_app_r in Hi by lia.
      apply list_lookup_singleton_Some in Hi as [Hi <-]. simpl. unfold len. lia.
  - rewrite length_snoc. lia.
  - apply Hwf.
  - intros k o Hin. pose proof (wf_owners _ Hwf _ _ Hin). rewrite len_snoc. lia.
  - intros o. apply (wf_cap _ Hwf o).
Qed.

Lemma account_lt r acc a :
  wf r → account r acc = Some a → (acc < len (reg_accounts r))%N.
Proof.
  intros Hwf Ha. rewrite account_lookup in Ha by done.
  apply lookup_lt_Some in Ha. unfold len. lia.
Qed.

Lemma profiles_of_snoc accs bs k o o' :
  profiles_of (mkRegistry accs (bs ++ [(k, o)])) o' =
  profiles_of (mkRegistry accs bs) o' ++ if decide (o = o') then [k] else [].
Proof.
  unfold profiles_of. simpl. rewrite filter_app, fmap_app. f_equal.
  rewrite filter_cons, filter_nil. simpl. by repeat case_decide.
Qed.

Lemma apply_bind_wf r acc k lc : wf r → wf (apply_bind r acc k lc).2.
Proof.
  intros Hwf. unfold apply_bind. case_all; try done. split; simpl.
  - apply Hwf.
  - apply Hwf.
  - apply (keyed_snoc fst); [apply Hwf|]. simpl.
    apply (keyed_find_None fst), owner_of_None. done.
  - intros k' o [Hin|[= -> ->]%list_elem_of_singleton]%elem_of_app.
    + by eapply wf_owners.
    + by eapply account_lt.
  - intros o. rewrite profiles_of_snoc, length_app.
    pose proof (wf_cap _ Hwf o) as Hc. destruct r. simpl in *. case_decide; subst; simpl; lia.
Qed.

Lemma apply_unbind_wf r k lc : wf r → wf (apply_unbind r k lc).2.
Proof.
  intros Hwf. unfold apply_unbind. case_all; try done.
  assert (Hs : delete n (bindings r) `sublist_of` bindings r) by apply sublist_delete.
  split; simpl; [apply Hwf..| | |].
  - by eapply (keyed_sublist fst), Hs; apply Hwf.
  - intros k' o Hin%list_elem_of_delete_inv. by eapply wf_owners.
  - intros o. etrans; [|apply (wf_cap _ Hwf o)]. unfold profiles_of. simpl.
    rewrite !length_fmap. by apply sublist_length, filter_sublist.
Qed.

Lemma apply_set_status_wf r acc to lc : wf r → wf (apply_set_status r acc to lc).2.
Proof.
  intros Hwf. unfold apply_set_status.
  destruct (list_find _ _) as [[idx a]|] eqn:Hf; [|done]. simpl.
  apply list_find_account in Hf as (Hidx & Hl & Hid & Ha); [|done].
  do 3 (case_match; try done). simpl. split; simpl.
  - intros i a' [(-> & <- & Hlt)|[Hne Ha']]%list_lookup_insert_Some.
    + simpl. by apply (wf_ids _ Hwf).
    + by apply Hwf.
  - rewrite length_insert. apply Hwf.
  - apply Hwf.
  - intros k o Hin. unfold len. rewrite length_insert. by eapply (wf_owners _ Hwf).
  - apply Hwf.
Qed.

Lemma apply_preserves_wf_aux r c lc : wf r → wf (apply r c lc).2.
Proof.
  intros Hwf. destruct c; simpl;
    auto using apply_open_wf, apply_bind_wf, apply_unbind_wf, apply_set_status_wf.
Qed.

(** The registry's invariant (ids are positions, both tables bounded, a
    profile bound at most once, every owner an existing account, at most four
    profiles per account) is preserved by every change, accepted or refused,
    whatever lifecycle view the caller supplies. *)
Theorem apply_preserves_wf r c lc : wf r → wf (apply r c lc).2.
Proof. apply apply_preserves_wf_aux. Qed.

Lemma apply_err_same r c lc e r' : apply r c lc = (Err e, r') → r' = r.
Proof.
  destruct c; simpl; unfold apply_open, apply_bind, apply_unbind, apply_set_status;
    intros; case_all; done.
Qed.

(** A refused change leaves the registry untouched: whatever the change and
    the lifecycle view, if [apply] returns an error the registry it leaves behind
    is the one it was given. *)
Theorem apply_err_untouched r c lc e r' : apply r c lc = (Err e, r') → r' = r.
Proof. apply apply_err_same. Qed.

(** *** Binding *)

Lemma bind_Ok r acc k lc r' :
  bind r acc k lc = (Ok (), r') ↔
  (∃ a s, account r acc = Some a ∧ acct_status a ≠ Closed ∧ owner_of r k = None ∧
     lc k = Some s ∧ s ≠ Deleted ∧ (s = Enabled → acct_status a = Active) ∧
     length (profiles_of r acc) < MAX_PROFILES_PER_ACCOUNT) ∧
  r' = mkRegistry (reg_accounts r) (bindings r ++ [(k, acc)]).
Proof.
  unfold bind. simpl. unfold apply_bind. split.
  - intros H. case_all; try done. split; [|done]. eexists _, _. split_and!; try done; [|lia].
    intros ->. apply dec_stable. naive_solver.
  - intros ((a & s & Ha & Hc & Ho & Hlc & Hd & He & Hlen) & ->).
    rewrite Ha, Ho, Hlc. case_all; try done; try lia. naive_solver.
Qed.

(** [Bind] is accepted exactly when the account exists and is not [Closed],
    the profile is unbound, known, not [Deleted], not [Enabled] under a
    non-[Active] account, and the account owns fewer than four profiles; the
    profile is then owned by that account and no other binding changes. *)
Theorem bind_ok_iff r acc k lc r' :
  bind r acc k lc = (Ok (), r') ↔
  (∃ a s, account r acc = Some a ∧ acct_status a ≠ Closed ∧ owner_of r k = None ∧
     lc k = Some s ∧ s ≠ Deleted ∧ (s = Enabled → acct_status a = Active) ∧
     length (profiles_of r acc) < MAX_PROFILES_PER_ACCOUNT) ∧
  r' = mkRegistry (reg_accounts r) (bindings r ++ [(k, acc)]).
Proof. apply bind_Ok. Qed.

Lemma owner_of_bind r acc k lc r' k' :
  bind r acc k lc = (Ok (), r') →
  owner_of r' k' = if decide (k' = k) then Some acc else owner_of r k'.
Proof.
  intros [(a & s & _ & _ & Ho & _) ->]%bind_Ok. unfold owner_of in *. simpl.
  rewrite iter_find_app, iter_find_cons. simpl. apply fmap_None in Ho.
  destruct (decide (k' = k)) as [->|Hne].
  - by rewrite Ho, decide_True.
  - destruct (iter_find (λ b, b.1 = k') _); [done|]. by rewrite decide_False.
Qed.

Lemma delete_snoc {A} (l : list A) x : delete (length l) (l ++ [x]) = l.
Proof. rewrite delete_middle. by rewrite app_nil_r. Qed.

Lemma list_find_snoc_None {A} (P : A → Prop) `{∀ x, Decision (P x)} (l : list A) x :
  list_find P l = None → P x → list_find P (l ++ [x]) = Some (length l, x).
Proof.
  intros HN HP. apply list_find_Some. rewrite lookup_app_r, Nat.sub_diag by lia.
  split_and!; [done..|]. intros j y Hj Hlt. rewrite lookup_app_l in Hj by lia.
  apply list_find_None in HN. rewrite Forall_forall in HN.
  by apply HN, list_elem_of_lookup_2 with j.
Qed.

(** Binding then unbinding a profile that is not [Enabled] restores the
    registry exactly, and the unbind reports the owner the bind recorded. *)
Theorem bind_unbind_roundtrip r acc k lc r1 lc' s :
  bind r acc k lc = (Ok (), r1) → lc' k = Some s → s ≠ Enabled →
  apply r1 (Unbind k) lc' = (Ok (mkApplied acc []), r).
Proof.
  intros [(a & s0 & _ & _ & Ho & _) ->]%bind_Ok Hlc Hs. simpl.
  unfold apply_unbind, owner_of, iter_find in *. simpl.
  apply fmap_None in Ho. apply fmap_None in Ho.
  rewrite list_find_snoc_None by done. rewrite Hlc, decide_False by done.
  rewrite delete_snoc. by destruct r.
Qed.

(** *** The enable gate *)

(** The enable gate passes exactly for a profile bound to that account while
    the account is [Active]. *)
Theorem check_enable_ok_iff r acc k :
  check_enable r acc k = Ok () ↔
  owner_of r k = Some acc ∧ ∃ a, account r acc = Some a ∧ acct_status a = Active.
Proof.
  unfold check_enable. destruct (account r acc) as [a|] eqn:Ha; simpl.
  - case_decide as Ho; [naive_solver|].
    destruct (acct_status a) eqn:Hs; split; try done; [eauto|..];
      intros (_ & a' & ? & ?); congruence.
  - split; [done|]. intros (_ & a' & ? & _); congruence.
Qed.

(** *** Suspension and the audit *)

Lemma gather_suspend lc keys acc forced :
  gather_force_disable lc Suspended keys acc = Ok forced →
  forced = acc ++ filter (λ k, lc k = Some Enabled) keys ∧
  ∀ k, k ∈ keys → is_Some (lc k).
Proof.
  revert acc. induction keys as [|k keys IH]; simpl; intros acc H.
  - simplify_eq. rewrite filter_nil, app_nil_r. set_solver.
  - destruct (lc k) as [s|] eqn:Hk; simpl in H; [|done]. rewrite filter_cons.
    case_decide as Hs; subst; apply IH in H as [-> Hall].
    + rewrite decide_True by done. rewrite <-app_assoc. split; [done|set_solver].
    + rewrite decide_False by congruence. split; [done|set_solver].
Qed.

Lemma gather_close lc keys acc forced :
  gather_force_disable lc Closed keys acc = Ok forced →
  forced = acc ∧ ∀ k, k ∈ keys → is_Some (lc k) ∧ lc k ≠ Some Enabled.
Proof.
  revert acc. induction keys as [|k keys IH]; simpl; intros acc H.
  - simplify_eq. set_solver.
  - destruct (lc k) as [s|] eqn:Hk; simpl in H; [|done]. case_decide; [done|].
    apply IH in H as [-> Hall]. split; [done|]. intros k' [->|?]%elem_of_cons; [|by auto].
    rewrite Hk. split; [done|congruence].
Qed.

(** The shape of an accepted status change. *)
Lemma set_status_Ok r acc to lc ap r' :
  wf r → apply_set_status r acc to lc = (Ok ap, r') →
  ∃ a forced, account r acc = Some a ∧ legal_transition (acct_status a) to = Some true ∧
    (if decide (to ≠ Active) then gather_force_disable lc to (profiles_of r acc) []
     else Ok []) = Ok forced ∧
    ap = mkApplied acc forced ∧
    r' = mkRegistry (<[N.to_nat acc := set_status a to]> (reg_accounts r)) (bindings r).
Proof.
  intros Hwf H. unfold apply_set_status in H.
  destruct (list_find _ _) as [[idx a]|] eqn:Hf; [|done].
  apply list_find_account in Hf as (-> & Hl & Hid & Ha); [|done]. exists a.
  destruct (legal_transition _ _) as [[]|]; [|done..].
  destruct (if decide _ then _ else _) as [forced|]; [|done].
  exists forced. naive_solver.
Qed.

Lemma account_set_status r acc to lc ap r' acc' :
  wf r → apply_set_status r acc to lc = (Ok ap, r') →
  account r' acc' = if decide (acc' = acc) then (λ a, set_status a to) <$> account r acc
                    else account r acc'.
Proof.
  intros Hwf H. pose proof (apply_set_status_wf r acc to lc Hwf) as Hwf'.
  rewrite H in Hwf'. simpl in Hwf'.
  apply set_status_Ok in H as (a & forced & Ha & _ & _ & _ & ->); [|done].
  rewrite !account_lookup in * by done. simpl. rewrite list_lookup_insert.
  apply lookup_lt_Some in Ha as Hlt.
  case_decide as Hi; [rewrite decide_True by lia|rewrite decide_False by lia; done].
  by rewrite Ha.
Qed.

Lemma suspend_Ok r acc lc forced r' :
  wf r → suspend r acc lc = (Ok forced, r') →
  forced = filter (λ k, lc k = Some Enabled) (profiles_of r acc) ∧
  (∃ a, account r acc = Some a ∧ acct_status a = Active ∧
        account r' acc = Some (set_status a Suspended)) ∧
  (∀ acc', acc' ≠ acc → account r' acc' = account r acc') ∧
  bindings r' = bindings r.
Proof.
  intros Hwf H. unfold suspend in H. simpl in H.
  destruct (apply_set_status r acc Suspended lc) as [[ap|] r1] eqn:E; [|done].
  simplify_eq/=. pose proof (account_set_status _ _ _ _ _ _ acc Hwf E) as Hacc.
  pose proof (λ acc', account_set_status _ _ _ _ _ _ acc' Hwf E) as Hoth.
  apply set_status_Ok in E as (a & forced & Ha & Hlegal & Hg & -> & ->); [|done].
  rewrite decide_True in Hacc by done. rewrite decide_True in Hg by done.
  apply gather_suspend in Hg as [-> _].
  split_and!; [done| |intros acc' Hne; by rewrite Hoth, decide_False|done].
  exists a. rewrite Hacc, Ha. by destruct (acct_status a).
Qed.

(** An accepted suspension returns exactly the account's bound profiles that
    are [Enabled] in the caller's view, in bind order; it moves that account from
    [Active] to [Suspended] and changes no other account and no binding. *)
Theorem suspend_spec r acc lc forced r' :
  wf r → suspend r acc lc = (Ok forced, r') →
  forced = filter (λ k, lc k = Some Enabled) (profiles_of r acc) ∧
  (∃ a, account r acc = Some a ∧ acct_status a = Active ∧
        account r' acc = Some (set_status a Suspended)) ∧
  (∀ acc', acc' ≠ acc → account r' acc' = account r acc') ∧
  bindings r' = bindings r.
Proof. apply suspend_Ok. Qed.

Lemma audit_nil_iff r lc :
  audit r lc = [] ↔
  ∀ k o, (k, o) ∈ bindings r → lc k = Some Enabled →
    ∃ a, account r o = Some a ∧ acct_status a = Active.
Proof.
  unfold audit. rewrite fmap_nil_iff, filter_nil_iff. split.
  - intros HF k o Hin Hlc. rewrite Forall_forall in HF. specialize (HF _ Hin).
    unfold leaked in HF. simpl in HF. rewrite bool_decide_true in HF by done. simpl in HF.
    destruct (account r o) as [a|]; [|done]. exists a. split; [done|].
    apply dec_stable. intros Hs. by rewrite bool_decide_true in HF.
  - intros H. apply Forall_forall. intros [k o] Hin. unfold leaked. simpl.
    case_bool_decide as Hlc; [|done]. destruct (H _ _ Hin Hlc) as (a & -> & Ha). simpl.
    by rewrite Ha.
Qed.

(** The suspend handshake restores the invariant: if the audit was clean and
    a suspension is accepted, then once the caller has driven the returned
    profiles out of [Enabled] (enabling nothing else), the audit is clean again,
    with the account now [Suspended]. *)
Theorem suspend_handshake_audit_clean r acc lc lc' forced r' :
  wf r → audit r lc = [] → suspend r acc lc = (Ok forced, r') →
  (∀ k, k ∈ forced → lc' k ≠ Some Enabled) →
  (∀ k, lc' k = Some Enabled → lc k = Some Enabled) →
  audit r' lc' = [].
Proof.
  intros Hwf Ha H Hforced Hmono.
  apply suspend_Ok in H as (-> & _ & Hoth & Hb); [|done].
  rewrite audit_nil_iff in *. rewrite Hb. intros k o Hin Hlc'.
  assert (o ≠ acc) as Hne.
  { intros ->. eapply Hforced; [|done]. apply list_elem_of_filter. split; [by auto|].
    by apply elem_of_profiles_of. }
  rewrite Hoth by done. eauto.
Qed.

(** *** Histories of the registry *)

(** One accepted change, under any lifecycle view. *)
Inductive reg_step (r r' : AccountRegistry) : Prop :=
  | reg_step_apply c lc ap : apply r c lc = (Ok ap, r') → reg_step r r'.

Lemma reg_step_wf r r' : wf r → reg_step r r' → wf r'.
Proof.
  intros Hwf [c lc ap H]. pose proof (apply_preserves_wf_aux r c lc Hwf) as Hwf'.
  by rewrite H in Hwf'.
Qed.

Lemma reachable_wf r : rtc reg_step new r → wf r.
Proof.
  intros H. assert (wf new) as Hwf by apply wf_new.
  induction H; eauto using reg_step_wf.
Qed.

(** How one account may evolve in one accepted change. *)
Definition evolves (a a' : Account) : Prop :=
  acct_id a' = acct_id a ∧ acct_subscriber a' = acct_subscriber a ∧
  acct_plan a' = acct_plan a ∧
  (a' = a ∨ legal_transition (acct_status a) (acct_status a') = Some true).

Lemma reg_step_evolves r r' acc a :
  wf r → reg_step r r' → account r acc = Some a →
  ∃ a', account r' acc = Some a' ∧ evolves a a'.
Proof.
  intros Hwf [c lc ap H] Ha. destruct c; simpl in H.
  - unfold apply_open in H. case_all. exists a. split; [|by repeat split; auto].
    unfold account in *. simpl. by rewrite iter_find_app, Ha.
  - unfold apply_bind in H. case_all. exists a. by repeat split; auto.
  - unfold apply_unbind in H. case_all. exists a. by repeat split; auto.
  - pose proof (account_set_status _ _ _ _ _ _ acc Hwf H) as Hacc.
    apply set_status_Ok in H as (b & forced & Hb & Hl & _ & _ & _); [|done].
    case_decide; simplify_eq/=; rewrite Hacc, ?Hb; eexists; split; try done;
      simplify_eq; by repeat split; auto.
Qed.

(** Accounts are forever and [Closed] is terminal: along any sequence of
    accepted changes from the empty registry, an account that exists keeps its
    id, subscriber and plan, and once it is [Closed] its record never changes
    again. *)
Theorem account_history r r' acc a :
  rtc reg_step new r → rtc reg_step r r' → account r acc = Some a →
  ∃ a', account r' acc = Some a' ∧ acct_id a' = acc ∧
    acct_subscriber a' = acct_subscriber a ∧ acct_plan a' = acct_plan a ∧
    (acct_status a = Closed → a' = a).
Proof.
  intros Hr Hs. pose proof (reachable_wf _ Hr) as Hwf. clear Hr. revert a.
  induction Hs as [r|r r1 r' Hstep _ IH]; intros a Ha.
  - exists a. pose proof Ha as Hid. rewrite account_lookup in Hid by done.
    apply wf_ids in Hid; [|done]. split_and!; [done|lia|done..].
  - destruct (reg_step_evolves _ _ _ _ Hwf Hstep Ha) as (a1 & Ha1 & He).
    destruct (IH (reg_step_wf _ _ Hwf Hstep) a1 Ha1) as (a' & Ha' & Hid & Hsub & Hpl & Hcl).
    destruct He as (_ & Hs1 & Hp1 & Hev). exists a'.
    split_and!; [done|done|congruence|congruence|]. intros Hc.
    destruct Hev as [->|Hl]; [by auto|]. by rewrite Hc in Hl.
Qed.

(** ** Concrete registries *)

Definition all_enabled : ProfileLifecycles := λ _, Some Enabled.

(** One Active account that owns the Enabled profile 0 of slot 0. *)
Definition one_bound : AccountRegistry :=
  (bind (open_account new 1 1).2 0 (mkKey 0 0) all_enabled).2.

Lemma one_bound_reachable : rtc reg_step new one_bound.
Proof.
  eapply rtc_l; [eapply (reg_step_apply new _ (Open 1 1) no_lifecycle); reflexivity|].
  eapply rtc_l; [eapply (reg_step_apply _ _ (Bind 0 (mkKey 0 0)) all_enabled); reflexivity|].
  apply rtc_refl.
Qed.

Lemma apply_preserves_wf_witness : wf (apply one_bound (SetStatus 0 Suspended) all_enabled).2.
Proof. apply apply_preserves_wf, reachable_wf, one_bound_reachable. Defined.

Lemma suspend_spec_witness :
  (suspend one_bound 0 all_enabled).1 = Ok [mkKey 0 0] ∧
  [mkKey 0 0] = filter (λ k, all_enabled k = Some Enabled) (profiles_of one_bound 0).
Proof.
  split; [reflexivity|].
  apply (suspend_spec one_bound 0 all_enabled [mkKey 0 0] (suspend one_bound 0 all_enabled).2);
    [apply reachable_wf, one_bound_reachable|reflexivity].
Defined.

Lemma suspend_handshake_witness :
  audit (suspend one_bound 0 all_enabled).2 (λ _, Some Disabled) = [].
Proof.
  apply (suspend_handshake_audit_clean one_bound 0 all_enabled _ [mkKey 0 0]);
    [apply reachable_wf, one_bound_reachable|reflexivity|reflexivity|done|done].
Defined.

Lemma account_history_witness :
  ∃ a', account one_bound 0 = Some a' ∧ acct_subscriber a' = 1%N.
Proof.
  destruct (account_history one_bound one_bound 0 (mkAccount 0 1 1 Active))
    as (a' & Ha & _ & Hs & _); [apply one_bound_reachable|apply rtc_refl|reflexivity|].
  exists a'. split; [exact Ha|exact Hs].
Defined.
