(* ===== verification/Sim.v ===== *)
(** * Sim: the eSIM profile lifecycle

    Model of [kernel-arm/src/sim.rs]: the slot table behind its one lock, the
    per-operation state machine [transition], and the public operations. *)

From S2P Require Import Prelude.

Definition SLOT_COUNT : nat := 4.
Definition MAX_PROFILES_PER_SLOT : nat := 4.

(** ** Data *)

Inductive ProfileState := Created | Disabled | Enabled | Deleted.

Definition as_status_code (s : ProfileState) : N :=
  match s with Created => 0 | Disabled => 1 | Enabled => 2 | Deleted => 3 end.

Record EsimProfile := mkProfile {
  prof_id : N;
  prof_identity : option N;
  prof_state : ProfileState;
}.

Inductive Op := Install | Enable | Disable | Delete.

Definition source_state (op : Op) : ProfileState :=
  match op with
  | Install => Created
  | Enable => Disabled
  | Disable => Enabled
  | Delete => Disabled
  end.

Definition target_state (op : Op) : ProfileState :=
  match op with
  | Install => Disabled
  | Enable => Enabled
  | Disable => Disabled
  | Delete => Deleted
  end.

Inductive SimError :=
  | NoSuchSlot
  | NoSuchProfile
  | SlotFull
  | WrongState (s : ProfileState).

(** A slot is its vector of profile containers. *)
Record SimSlot := mkSlot { slot_profiles : list EsimProfile }.

(** The content of the [SLOTS] mutex. *)
Abbreviation Slots := (list SimSlot).

#[global] Instance ProfileState_eq_dec : EqDecision ProfileState.
Proof. solve_decision. Defined.
#[global] Instance EsimProfile_eq_dec : EqDecision EsimProfile.
Proof. solve_decision. Defined.
#[global] Instance SimError_eq_dec : EqDecision SimError.
Proof. solve_decision. Defined.

Definition new : SimSlot := mkSlot [].

(** [static SLOTS]: four empty slots. *)
Definition SLOTS : Slots := replicate SLOT_COUNT new.

(** ** Slot operations *)

Definition set_state (to : ProfileState) (p : EsimProfile) : EsimProfile :=
  mkProfile (prof_id p) (prof_identity p) to.

Definition set_identity (identity : N) (p : EsimProfile) : EsimProfile :=
  mkProfile (prof_id p) (Some identity) (prof_state p).

(** The loop that demotes whatever was [Enabled] before. *)
Definition demote (p : EsimProfile) : EsimProfile :=
  if decide (prof_state p = Enabled) then set_state Disabled p else p.

Definition find (self : SimSlot) (profile_id : N) : Result SimError nat :=
  ok_or (iter_position (λ p, prof_id p = profile_id) (slot_profiles self)) NoSuchProfile.

Definition slot_create (self : SimSlot) : Result SimError N * SimSlot :=
  if decide (MAX_PROFILES_PER_SLOT ≤ length (slot_profiles self)) then (Err SlotFull, self)
  else
    let id := as_u8 (len (slot_profiles self)) in
    (Ok id, mkSlot (slot_profiles self ++ [mkProfile id None Created])).

Definition transition (self : SimSlot) (profile_id : N) (op : Op)
    : Result SimError () * SimSlot :=
  match list_find (λ p, prof_id p = profile_id) (slot_profiles self) with
  | None => (Err NoSuchProfile, self)
  | Some (idx, p) =>
      let from := prof_state p in
      if decide (from ≠ source_state op) then (Err (WrongState from), self) else
      let to := target_state op in
      let ps := if decide (to = Enabled) then demote <$> slot_profiles self
                else slot_profiles self in
      (Ok (), mkSlot (alter (set_state to) idx ps))
  end.

Definition slot_install (self : SimSlot) (profile_id identity : N)
    : Result SimError () * SimSlot :=
  match transition self profile_id Install with
  | (Err e, self) => (Err e, self)
  | (Ok _, self) =>
      match find self profile_id with
      | Err e => (Err e, self)
      | Ok idx => (Ok (), mkSlot (alter (set_identity identity) idx (slot_profiles self)))
      end
  end.

(** ** The public operations, each one critical section on the table *)

(** [slots.get_mut(slot).ok_or(NoSuchSlot)?.op()] *)
Definition with_slot {A} (slots : Slots) (slot : N)
    (op : SimSlot → Result SimError A * SimSlot) : Result SimError A * Slots :=
  match slots !! N.to_nat slot with
  | None => (Err NoSuchSlot, slots)
  | Some s => let '(r, s') := op s in (r, <[N.to_nat slot := s']> slots)
  end.

Definition create (slots : Slots) (slot : N) : Result SimError N * Slots :=
  with_slot slots slot slot_create.

Definition install (slots : Slots) (slot profile_id identity : N)
    : Result SimError () * Slots :=
  with_slot slots slot (λ s, slot_install s profile_id identity).

Definition enable (slots : Slots) (slot profile_id : N) : Result SimError () * Slots :=
  with_slot slots slot (λ s, transition s profile_id Enable).

Definition disable (slots : Slots) (slot profile_id : N) : Result SimError () * Slots :=
  with_slot slots slot (λ s, transition s profile_id Disable).

Definition delete (slots : Slots) (slot profile_id : N) : Result SimError () * Slots :=
  with_slot slots slot (λ s, transition s profile_id Delete).

Definition profile_state (slots : Slots) (slot profile_id : N)
    : Result SimError ProfileState :=
  s ← ok_or (slots !! N.to_nat slot) NoSuchSlot;
  idx ← find s profile_id;
  ok_or (prof_state <$> slot_profiles s !! idx) NoSuchProfile.

Definition profiles (slots : Slots) (slot : N) : Result SimError (list EsimProfile) :=
  s ← ok_or (slots !! N.to_nat slot) NoSuchSlot;
  Ok (slot_profiles s).

Definition enabled_profile (slots : Slots) (slot : N) : Result SimError (option N) :=
  s ← ok_or (slots !! N.to_nat slot) NoSuchSlot;
  Ok (prof_id <$> iter_find (λ p, prof_state p = Enabled) (slot_profiles s)).

(** ** The slot invariant *)

Record wf_slot (s : SimSlot) : Prop := mk_wf_slot {
  slot_ids : ∀ i p, slot_profiles s !! i = Some p → prof_id p = N.of_nat i;
  slot_len : length (slot_profiles s) ≤ MAX_PROFILES_PER_SLOT;
  slot_one_enabled : ∀ i j p q,
    slot_profiles s !! i = Some p → slot_profiles s !! j = Some q →
    prof_state p = Enabled → prof_state q = Enabled → i = j;
  slot_identity : ∀ i p, slot_profiles s !! i = Some p →
    prof_identity p = None ↔ prof_state p = Created;
}.

Definition wf (slots : Slots) : Prop := Forall wf_slot slots.

Lemma wf_slot_new : wf_slot new.
Proof. split; simpl; unfold MAX_PROFILES_PER_SLOT; naive_solver lia. Qed.

Lemma wf_SLOTS : wf SLOTS.
Proof. apply Forall_replicate, wf_slot_new. Qed.

(** *** Shape lemmas *)

Lemma list_find_profile s pid idx p :
  wf_slot s → list_find (λ p, prof_id p = pid) (slot_profiles s) = Some (idx, p) →
  idx = N.to_nat pid ∧ slot_profiles s !! idx = Some p.
Proof.
  intros Hwf (Hl & Hid & _)%list_find_Some. pose proof (slot_ids _ Hwf _ _ Hl).
  split; [lia|done].
Qed.

Lemma find_profile_lookup s pid :
  wf_slot s →
  list_find (λ p, prof_id p = pid) (slot_profiles s) =
  (λ p, (N.to_nat pid, p)) <$> slot_profiles s !! N.to_nat pid.
Proof.
  intros Hwf. destruct (list_find _ _) as [[idx p]|] eqn:Hf.
  - apply list_find_profile in Hf as [-> ->]; done.
  - apply list_find_None in Hf. destruct (slot_profiles s !! N.to_nat pid) as [p|] eqn:Hp;
      [|done]. rewrite Forall_forall in Hf. destruct (Hf p).
    + by eapply list_elem_of_lookup_2.
    + rewrite (slot_ids _ Hwf _ _ Hp). lia.
Qed.

Lemma prof_id_demote p : prof_id (demote p) = prof_id p.
Proof. unfold demote. by case_decide. Qed.

Lemma prof_identity_demote p : prof_identity (demote p) = prof_identity p.
Proof. unfold demote. by case_decide. Qed.

Lemma demote_not_enabled p : prof_state (demote p) ≠ Enabled.
Proof. unfold demote. case_decide; done. Qed.

Lemma demote_created p : prof_state (demote p) = Created ↔ prof_state p = Created.
Proof. unfold demote. case_decide as H; [simpl; rewrite H|]; done. Qed.

(** What an accepted operation does to the profile at position [i]. *)
Definition effect (op : Op) (idx i : nat) (p : EsimProfile) : EsimProfile :=
  if decide (i = idx) then set_state (target_state op) p
  else match op with Enable => demote p | _ => p end.

Lemma transition_Ok s pid op s' :
  wf_slot s → transition s pid op = (Ok (), s') →
  (∃ p, slot_profiles s !! N.to_nat pid = Some p ∧ prof_state p = source_state op) ∧
  ∀ i, slot_profiles s' !! i = effect op (N.to_nat pid) i <$> slot_profiles s !! i.
Proof.
  intros Hwf H. unfold transition in H. rewrite find_profile_lookup in H by done.
  destruct (slot_profiles s !! N.to_nat pid) as [p|] eqn:Hp; simpl in H; [|done].
  case_decide as Hst; [done|]. simplify_eq/=.
  split; [eauto|]. intros i. unfold effect.
  destruct (decide (i = N.to_nat pid)) as [->|Hne].
  - rewrite list_lookup_alter_eq. destruct op; simpl;
      rewrite ?list_lookup_fmap, Hp; simpl; unfold demote, set_state; by case_all.
  - rewrite list_lookup_alter_ne by done.
    destruct op; simpl; rewrite ?list_lookup_fmap; by destruct (slot_profiles s !! i).
Qed.

Lemma transition_Ok_intro s pid op p :
  wf_slot s → slot_profiles s !! N.to_nat pid = Some p → prof_state p = source_state op →
  (transition s pid op).1 = Ok ().
Proof.
  intros Hwf Hp Hs. unfold transition. rewrite find_profile_lookup, Hp by done. simpl.
  by rewrite decide_False by naive_solver.
Qed.

Lemma transition_Err s pid op e s' : transition s pid op = (Err e, s') → s' = s.
Proof. unfold transition. intros. by case_all. Qed.

Lemma effect_id op idx i p : prof_id (effect op idx i p) = prof_id p.
Proof. unfold effect. case_decide; [done|]. destruct op; auto using prof_id_demote. Qed.

Lemma effect_identity op idx i p : prof_identity (effect op idx i p) = prof_identity p.
Proof. unfold effect. case_decide; [done|]. destruct op; auto using prof_identity_demote. Qed.

Lemma length_transition s pid op :
  length (slot_profiles (transition s pid op).2) = length (slot_profiles s).
Proof.
  unfold transition. destruct (list_find _ _) as [[idx p]|]; simpl; [|done].
  case_decide; [done|]. simpl. rewrite length_alter. by case_decide; rewrite ?length_fmap.
Qed.

(** A transition keeps ids, the bound and "at most one [Enabled]". *)
Lemma transition_one_enabled s pid op s' i j p q :
  wf_slot s → transition s pid op = (Ok (), s') →
  slot_profiles s' !! i = Some p → slot_profiles s' !! j = Some q →
  prof_state p = Enabled → prof_state q = Enabled → i = j.
Proof.
  intros Hwf H Hi Hj Hp Hq. apply transition_Ok in H as [(p0 & Hp0 & Hs0) Hall]; [|done].
  rewrite Hall in Hi, Hj. apply fmap_Some in Hi as (p1 & Hi & ->).
  apply fmap_Some in Hj as (q1 & Hj & ->).
  assert (∀ k x, slot_profiles s !! k = Some x →
    prof_state (effect op (N.to_nat pid) k x) = Enabled →
    (op = Enable ∧ k = N.to_nat pid) ∨ (op ≠ Enable ∧ prof_state x = Enabled)) as Heff.
  { intros k x Hk He. unfold effect in He. case_decide.
    - destruct op; simpl in He; try done. by left.
    - destruct op; [right; done| |right; done|right; done].
      by apply demote_not_enabled in He. }
  destruct (Heff _ _ Hi Hp) as [[-> ->]|[Hop Hp1]], (Heff _ _ Hj Hq) as [[? ->]|[? Hq1]];
    try done. by eapply (slot_one_enabled _ Hwf).
Qed.

(** The identity invariant survives every operation but [Install], which sets
    the identity right after. *)
Lemma effect_created op idx i p :
  (i = idx → prof_state p = source_state op) →
  (op = Install ∧ i = idx) ∨
  (prof_state (effect op idx i p) = Created ↔ prof_state p = Created).
Proof.
  intros Hsrc. unfold effect. case_decide as Hi.
  - specialize (Hsrc Hi). destruct op; [by left|right..]; simpl in *; rewrite Hsrc; done.
  - right. destruct op; auto using demote_created.
Qed.

Lemma slot_create_wf s : wf_slot s → wf_slot (slot_create s).2.
Proof.
  intros Hwf. unfold slot_create. case_decide as Hfull; [done|]. simpl.
  assert (as_u8 (len (slot_profiles s)) = len (slot_profiles s)) as ->.
  { unfold as_u8, len, MAX_PROFILES_PER_SLOT in *. apply N.mod_small. lia. }
  assert (Hsplit : ∀ i p,
    (slot_profiles s ++ [mkProfile (len (slot_profiles s)) None Created]) !! i = Some p →
    slot_profiles s !! i = Some p ∨
    i = length (slot_profiles s) ∧ p = mkProfile (len (slot_profiles s)) None Created).
  { intros i p [?|[? Hp]]%lookup_app_Some; [by left|right].
    apply list_lookup_singleton_Some in Hp as [? <-]. split; [lia|done]. }
  split; simpl.
  - intros i p [?|[-> ->]]%Hsplit; [by apply Hwf|done].
  - rewrite length_snoc. lia.
  - intros i j p q [Hi|[-> ->]]%Hsplit [Hj|[-> ->]]%Hsplit ??; try done.
    by eapply (slot_one_enabled _ Hwf).
  - intros i p [?|[-> ->]]%Hsplit; [by eapply Hwf|done].
Qed.

Lemma transition_wf s pid op : op ≠ Install → wf_slot s → wf_slot (transition s pid op).2.
Proof.
  intros Hop Hwf. pose proof (length_transition s pid op) as Hlen.
  destruct (transition s pid op) as [[[]|e] s'] eqn:H; simpl in *;
    [|apply transition_Err in H; by subst].
  pose proof (transition_Ok _ _ _ _ Hwf H) as [(p0 & Hp0 & Hs0) Hall]. split.
  - intros i p Hi. rewrite Hall in Hi. apply fmap_Some in Hi as (q & Hi & ->).
    rewrite effect_id. by apply Hwf.
  - rewrite Hlen. apply Hwf.
  - intros i j p q. by eapply transition_one_enabled.
  - intros i p Hi. rewrite Hall in Hi. apply fmap_Some in Hi as (q & Hi & ->).
    rewrite effect_identity, (slot_identity _ Hwf i q Hi).
    destruct (effect_created op (N.to_nat pid) i q) as [[??]|Hc]; [|done|by symmetry].
    intros ->. congruence.
Qed.

(** An accepted install. *)
Lemma slot_install_Ok s pid identity s' :
  wf_slot s → slot_install s pid identity = (Ok (), s') →
  (∃ p, slot_profiles s !! N.to_nat pid = Some p ∧ prof_state p = Created) ∧
  ∀ i, slot_profiles s' !! i =
    (if decide (i = N.to_nat pid) then λ p, set_identity identity (set_state Disabled p)
     else id) <$> slot_profiles s !! i.
Proof.
  intros Hwf H. unfold slot_install in H.
  destruct (transition s pid Install) as [[[]|] s1] eqn:Ht; [|done].
  pose proof (transition_Ok _ _ _ _ Hwf Ht) as [Hp Hall]. split; [done|].
  destruct (find s1 pid) as [idx|] eqn:Hf; [|done]. simplify_eq. simpl.
  unfold find in Hf. apply ok_or_Ok in Hf.
  apply iter_position_Some in Hf as (q & Hq & Hid & _).
  assert (idx = N.to_nat pid) as ->.
  { rewrite Hall in Hq. apply fmap_Some in Hq as (q0 & Hq0 & ->).
    rewrite effect_id in Hid. pose proof (slot_ids _ Hwf _ _ Hq0). lia. }
  intros i. rewrite list_lookup_alter. destruct (decide (i = N.to_nat pid)) as [->|Hne].
  - rewrite decide_True, Hall by done. unfold effect.
    destruct (slot_profiles s !! _); simpl; by rewrite ?decide_True.
  - rewrite decide_False, Hall by done. unfold effect.
    destruct (slot_profiles s !! i); simpl; by rewrite ?decide_False.
Qed.

Lemma slot_install_Err s pid identity e s' :
  wf_slot s → slot_install s pid identity = (Err e, s') → s' = s.
Proof.
  intros Hwf H. unfold slot_install in H.
  destruct (transition s pid Install) as [[[]|e'] s1] eqn:Ht;
    [|simplify_eq; by eapply transition_Err].
  pose proof (transition_Ok _ _ _ _ Hwf Ht) as [(p & Hp & Hst) Hall].
  destruct (find s1 pid) as [idx|e'] eqn:Hf; [done|]. exfalso.
  unfold find, ok_or in Hf. case_match eqn:Hn; [done|].
  apply iter_position_find, iter_find_None in Hn. rewrite Forall_forall in Hn.
  specialize (Hall (N.to_nat pid)). rewrite Hp in Hall. simpl in Hall.
  apply (Hn (effect Install (N.to_nat pid) (N.to_nat pid) p)).
  - by eapply list_elem_of_lookup_2.
  - rewrite effect_id, (slot_ids _ Hwf _ _ Hp). lia.
Qed.

Lemma slot_install_wf s pid identity : wf_slot s → wf_slot (slot_install s pid identity).2.
Proof.
  intros Hwf. destruct (slot_install s pid identity) as [[[]|e] s'] eqn:H; simpl;
    [|apply slot_install_Err in H; by subst].
  assert (length (slot_profiles s') = length (slot_profiles s)) as Hlen.
  { unfold slot_install in H. pose proof (length_transition s pid Install) as Ht.
    case_all; rewrite ?length_alter; done. }
  apply slot_install_Ok in H as [(p0 & Hp0 & Hs0) Hall]; [|done].
  assert (Hinv : ∀ i p, slot_profiles s' !! i = Some p → ∃ q, slot_profiles s !! i = Some q ∧
    prof_id p = prof_id q ∧ (prof_state p = Enabled → prof_state q = Enabled) ∧
    (prof_identity p = None ↔ prof_state p = Created)).
  { intros i p Hi. rewrite Hall in Hi. apply fmap_Some in Hi as (q & Hq & ->).
    exists q. case_decide; simpl; [done|]. split_and!; [done..|]. by eapply slot_identity. }
  split.
  - intros i p (q & Hq & -> & _)%Hinv. by apply Hwf.
  - rewrite Hlen. apply Hwf.
  - intros i j p q (p' & Hp & _ & Hpe & _)%Hinv (q' & Hq & _ & Hqe & _)%Hinv ??.
    eapply (slot_one_enabled _ Hwf); eauto.
  - by intros i p (q & Hq & _ & _ & ?)%Hinv.
Qed.

(** *** The table *)

Lemma with_slot_wf {A} slots slot (op : SimSlot → Result SimError A * SimSlot) :
  (∀ s, wf_slot s → wf_slot (op s).2) → wf slots → wf (with_slot slots slot op).2.
Proof.
  intros Hop Hwf. unfold with_slot. destruct (slots !! N.to_nat slot) as [s|] eqn:Hs; [|done].
  specialize (Hop s). destruct (op s) as [r s']. simpl in *.
  apply Forall_insert; [done|]. apply Hop. by eapply Forall_lookup_1.
Qed.

Lemma with_slot_Err {A} slots slot (op : SimSlot → Result SimError A * SimSlot) e slots' :
  (∀ s e s', wf_slot s → op s = (Err e, s') → s' = s) → wf slots →
  with_slot slots slot op = (Err e, slots') → slots' = slots.
Proof.
  intros Hop Hwf H. unfold with_slot in H.
  destruct (slots !! N.to_nat slot) as [s|] eqn:Hs; [|naive_solver].
  destruct (op s) as [r s'] eqn:E. simplify_eq. apply Hop in E as ->;
    [by apply list_insert_id|by eapply Forall_lookup_1].
Qed.

Lemma with_slot_Ok {A} slots slot (op : SimSlot → Result SimError A * SimSlot) a slots' :
  with_slot slots slot op = (Ok a, slots') ↔
  ∃ s s', slots !! N.to_nat slot = Some s ∧ op s = (Ok a, s') ∧
          slots' = <[N.to_nat slot := s']> slots.
Proof.
  unfold with_slot. destruct (slots !! N.to_nat slot) as [s|]; [|naive_solver].
  destruct (op s) as [r s'] eqn:E. split; [intros; simplify_eq; eauto|].
  intros (s1 & s1' & [= <-] & Hop & ->). rewrite E in Hop. by simplify_eq.
Qed.

(** Every public operation that changes the table, as one step. *)
Inductive SimCall :=
  | CallCreate (slot : N)
  | CallInstall (slot profile identity : N)
  | CallEnable (slot profile : N)
  | CallDisable (slot profile : N)
  | CallDelete (slot profile : N).

Definition run_call (slots : Slots) (c : SimCall) : Result SimError N * Slots :=
  match c with
  | CallCreate slot => create slots slot
  | CallInstall slot p i => let '(r, s) := install slots slot p i in ((λ _, 0%N) <$> r, s)
  | CallEnable slot p => let '(r, s) := enable slots slot p in ((λ _, 0%N) <$> r, s)
  | CallDisable slot p => let '(r, s) := disable slots slot p in ((λ _, 0%N) <$> r, s)
  | CallDelete slot p => let '(r, s) := delete slots slot p in ((λ _, 0%N) <$> r, s)
  end.

Lemma run_call_state slots c :
  (run_call slots c).2 =
  match c with
  | CallCreate slot => (create slots slot).2
  | CallInstall slot p i => (install slots slot p i).2
  | CallEnable slot p => (enable slots slot p).2
  | CallDisable slot p => (disable slots slot p).2
  | CallDelete slot p => (delete slots slot p).2
  end.
Proof. destruct c; simpl; [done|..]; by case_match. Qed.

Lemma run_call_wf slots c : wf slots → wf (run_call slots c).2.
Proof.
  intros Hwf. rewrite run_call_state. destruct c; apply with_slot_wf; try done; intros;
    first [by apply slot_create_wf|by apply slot_install_wf|by apply transition_wf].
Qed.

(** The slot table's invariant (profile ids are positions, at most four
    profiles, at most one [Enabled] profile per slot, a profile has an identity
    exactly from its install on) is preserved by every public operation, accepted
    or refused. *)
Theorem sim_preserves_wf slots c : wf slots → wf (run_call slots c).2.
Proof. apply run_call_wf. Qed.

(** A refused eSIM operation leaves the whole slot table untouched. *)
Theorem sim_err_untouched slots c e slots' :
  wf slots → run_call slots c = (Err e, slots') → slots' = slots.
Proof.
  intros Hwf H. destruct c; simpl in H.
  - eapply with_slot_Err; [|done..]. intros s e' s' _. unfold slot_create.
    intros. by case_all.
  - destruct (install _ _ _ _) as [[[]|] s] eqn:E; simplify_eq/=.
    eapply with_slot_Err; [|done..]. intros ???. apply slot_install_Err.
  - destruct (enable _ _ _) as [[[]|] s] eqn:E; simplify_eq/=.
    eapply with_slot_Err; [|done..]. intros ??? _. apply transition_Err.
  - destruct (disable _ _ _) as [[[]|] s] eqn:E; simplify_eq/=.
    eapply with_slot_Err; [|done..]. intros ??? _. apply transition_Err.
  - destruct (delete _ _ _) as [[[]|] s] eqn:E; simplify_eq/=.
    eapply with_slot_Err; [|done..]. intros ??? _. apply transition_Err.
Qed.

(** *** Pointwise view of the table *)

Definition lookup_profile (slots : Slots) (slot pid : N) : option EsimProfile :=
  s ← slots !! N.to_nat slot; slot_profiles s !! N.to_nat pid.

Lemma wf_lookup slots slot s : wf slots → slots !! N.to_nat slot = Some s → wf_slot s.
Proof. intros Hwf Hs. by eapply Forall_lookup_1. Qed.

Lemma profile_state_lookup slots slot pid :
  wf slots →
  res_ok (profile_state slots slot pid) = prof_state <$> lookup_profile slots slot pid.
Proof.
  intros Hwf. unfold profile_state, lookup_profile.
  destruct (slots !! N.to_nat slot) as [s|] eqn:Hs; simpl; [|done].
  unfold find, iter_position. rewrite find_profile_lookup by (by eapply wf_lookup).
  destruct (slot_profiles s !! N.to_nat pid) eqn:Hp; simpl; [|done]. by rewrite Hp.
Qed.

Lemma op_lookup slots slot pid op slots' slot' pid' :
  wf slots → with_slot slots slot (λ s, transition s pid op) = (Ok (), slots') →
  lookup_profile slots' slot' pid' =
  (λ p, if decide (slot' = slot) then effect op (N.to_nat pid) (N.to_nat pid') p else p) <$>
    lookup_profile slots slot' pid'.
Proof.
  intros Hwf (s & s' & Hs & Ht & ->)%with_slot_Ok.
  apply transition_Ok in Ht as [_ Hall]; [|by eapply wf_lookup].
  unfold lookup_profile. destruct (decide (slot' = slot)) as [->|Hne].
  - rewrite list_lookup_insert_eq by (by eapply lookup_lt_Some). simpl. by rewrite Hs, Hall.
  - rewrite list_lookup_insert_ne by lia.
    destruct (slots !! N.to_nat slot') as [t|]; simpl; [|done]. by rewrite option_fmap_id.
Qed.

(** An accepted operation found its profile in the operation's source state. *)
Lemma op_source slots slot pid op slots' :
  wf slots → with_slot slots slot (λ s, transition s pid op) = (Ok (), slots') →
  prof_state <$> lookup_profile slots slot pid = Some (source_state op).
Proof.
  intros Hwf (s & s' & Hs & Ht & ->)%with_slot_Ok.
  apply transition_Ok in Ht as [(p & Hp & Hst) _]; [|by eapply wf_lookup].
  unfold lookup_profile. rewrite Hs. simpl. rewrite Hp. simpl. by rewrite Hst.
Qed.

Lemma op_Ok_intro slots slot pid op :
  wf slots → prof_state <$> lookup_profile slots slot pid = Some (source_state op) →
  (with_slot slots slot (λ s, transition s pid op)).1 = Ok ().
Proof.
  intros Hwf (p & Hp & Hst)%fmap_Some. unfold lookup_profile, with_slot in *.
  destruct (slots !! N.to_nat slot) as [s|] eqn:Hs; simpl in Hp; [|done].
  pose proof (transition_Ok_intro s pid op p) as Hok. simpl in Hok.
  destruct (transition s pid op) as [r s'] eqn:Ht. simpl in *.
  apply Hok; [by eapply wf_lookup|done..].
Qed.

(** After an accepted enable exactly one profile of the slot is [Enabled],
    the requested one, which was [Disabled]; whatever was [Enabled] there before
    is [Disabled]; every other profile of every slot is unchanged. *)
Theorem enable_spec slots slot pid slots' :
  wf slots → enable slots slot pid = (Ok (), slots') →
  prof_state <$> lookup_profile slots slot pid = Some Disabled ∧
  (∀ pid', prof_state <$> lookup_profile slots' slot pid' = Some Enabled ↔ pid' = pid) ∧
  (∀ pid' p, pid' ≠ pid → lookup_profile slots slot pid' = Some p →
     lookup_profile slots' slot pid' =
     Some (if decide (prof_state p = Enabled) then set_state Disabled p else p)) ∧
  (∀ slot' pid', slot' ≠ slot →
     lookup_profile slots' slot' pid' = lookup_profile slots slot' pid').
Proof.
  intros Hwf H. pose proof (op_source _ _ _ _ _ Hwf H) as Hsrc.
  pose proof (λ slot' pid', op_lookup _ _ _ _ _ slot' pid' Hwf H) as Hlk.
  split_and!; [done|..].
  - intros pid'. rewrite Hlk. split.
    + intros (p & Hp & Hst)%fmap_Some. apply fmap_Some in Hp as (q & Hq & ->).
      rewrite decide_True in Hst by done. unfold effect in Hst. case_decide; [lia|].
      symmetry in Hst. by apply demote_not_enabled in Hst.
    + intros ->. apply fmap_Some in Hsrc as (p & -> & _). simpl.
      unfold effect. by rewrite !decide_True.
  - intros pid' p Hne Hp. rewrite Hlk, Hp. simpl. rewrite decide_True by done.
    unfold effect. rewrite decide_False by lia. done.
  - intros slot' pid' Hne. rewrite Hlk.
    destruct (lookup_profile slots slot' pid'); simpl; [by rewrite decide_False|done].
Qed.

(** *** What any call may do to one profile *)

Definition prof_evolves (p p' : EsimProfile) : Prop :=
  prof_id p' = prof_id p ∧
  (∀ i, prof_identity p = Some i → prof_identity p' = Some i) ∧
  (prof_state p = Deleted → p' = p).

Lemma prof_evolves_refl p : prof_evolves p p.
Proof. by split_and!. Qed.

Lemma effect_evolves op idx i p :
  (i = idx → prof_state p = source_state op) → prof_evolves p (effect op idx i p).
Proof.
  intros Hsrc. split_and!; [apply effect_id|by rewrite effect_identity|].
  intros Hd. unfold effect. case_decide as Hi.
  - specialize (Hsrc Hi). destruct op; simpl in *; congruence.
  - destruct op; try done. unfold demote. by rewrite Hd.
Qed.

Lemma op_evolves slots slot pid op slots' slot' pid' p :
  wf slots → with_slot slots slot (λ s, transition s pid op) = (Ok (), slots') →
  lookup_profile slots slot' pid' = Some p →
  ∃ p', lookup_profile slots' slot' pid' = Some p' ∧ prof_evolves p p'.
Proof.
  intros Hwf H Hp. rewrite (op_lookup _ _ _ _ _ slot' pid' Hwf H), Hp. eexists; split; [done|].
  simpl. case_decide as Hs; [|apply prof_evolves_refl]. subst. apply effect_evolves.
  intros Hi. apply op_source in H; [|done]. assert (pid' = pid) as -> by lia.
  rewrite Hp in H. by simplify_eq/=.
Qed.

Lemma slot_evolves slots slot s s' slot' pid p :
  slots !! N.to_nat slot = Some s →
  (∀ i q, slot_profiles s !! i = Some q →
     ∃ q', slot_profiles s' !! i = Some q' ∧ prof_evolves q q') →
  lookup_profile slots slot' pid = Some p →
  ∃ p', lookup_profile (<[N.to_nat slot := s']> slots) slot' pid = Some p' ∧
        prof_evolves p p'.
Proof.
  intros Hs Hall Hp. unfold lookup_profile in *. destruct (decide (slot' = slot)) as [->|Hne].
  - rewrite list_lookup_insert_eq by (by eapply lookup_lt_Some). simpl.
    rewrite Hs in Hp. by apply Hall.
  - rewrite list_lookup_insert_ne by lia. rewrite Hp. eauto using prof_evolves_refl.
Qed.

Lemma run_call_evolves slots c slot pid p :
  wf slots → lookup_profile slots slot pid = Some p →
  ∃ p', lookup_profile (run_call slots c).2 slot pid = Some p' ∧ prof_evolves p p'.
Proof.
  intros Hwf Hp. rewrite run_call_state.
  assert (Hop : ∀ op sl pr, ∃ p', lookup_profile
    (with_slot slots sl (λ s, transition s pr op)).2 slot pid = Some p' ∧ prof_evolves p p').
  { intros op sl pr. destruct (with_slot _ _ _) as [[[]|e] slots'] eqn:H; simpl.
    - by eapply op_evolves.
    - apply with_slot_Err in H as ->; [eauto using prof_evolves_refl| |done].
      intros ??? _. apply transition_Err. }
  destruct c as [sl|sl pr ident|sl pr|sl pr|sl pr]; [| |apply Hop..].
  - unfold create, with_slot. destruct (slots !! N.to_nat sl) as [s|] eqn:Hs;
      [|eauto using prof_evolves_refl].
    destruct (slot_create s) as [r s'] eqn:Hc. simpl. eapply slot_evolves; [done| |done].
    intros i q Hq. exists q. split; [|apply prof_evolves_refl].
    unfold slot_create in Hc. case_decide; simplify_eq/=; [done|].
    rewrite lookup_app_l; [done|]. by eapply lookup_lt_Some.
  - unfold install, with_slot. destruct (slots !! N.to_nat sl) as [s|] eqn:Hs;
      [|eauto using prof_evolves_refl].
    pose proof (wf_lookup _ _ _ Hwf Hs) as Hws.
    destruct (slot_install s pr ident) as [[[]|] s'] eqn:Hc; simpl;
      eapply slot_evolves; try done; intros i q Hq.
    + apply slot_install_Ok in Hc as [(p0 & Hp0 & Hst) Hall]; [|done].
      rewrite Hall, Hq. eexists; split; [done|]. case_decide; simpl; [|apply prof_evolves_refl].
      subst. simplify_eq. split_and!; simpl; [done| |congruence].
      intros i Hi. apply (slot_identity _ Hws) in Hp0. naive_solver.
    + apply slot_install_Err in Hc as ->; [|done]. eauto using prof_evolves_refl.
Qed.

Definition run_calls (slots : Slots) (calls : list SimCall) : Slots :=
  foldl (λ s c, (run_call s c).2) slots calls.

Lemma run_calls_wf slots calls : wf slots → wf (run_calls slots calls).
Proof.
  revert slots. induction calls as [|c calls IH]; intros slots Hwf; [done|].
  simpl. apply IH. by apply run_call_wf.
Qed.

(** Profiles are forever: whatever eSIM calls are made after whatever calls
    since boot, an existing profile keeps its id, an identity once installed is
    never overwritten, and a [Deleted] profile never changes again. *)
Theorem profile_history calls calls' slot pid p :
  lookup_profile (run_calls SLOTS calls) slot pid = Some p →
  ∃ p', lookup_profile (run_calls SLOTS (calls ++ calls')) slot pid = Some p' ∧
    prof_id p' = pid ∧
    (∀ i, prof_identity p = Some i → prof_identity p' = Some i) ∧
    (prof_state p = Deleted → p' = p).
Proof.
  unfold run_calls at 2. rewrite foldl_app. fold (run_calls SLOTS calls).
  assert (wf (run_calls SLOTS calls)) as Hwf by apply run_calls_wf, wf_SLOTS.
  revert p Hwf. generalize (run_calls SLOTS calls) as slots.
  induction calls' as [|c calls' IH]; intros slots p Hwf Hp; simpl.
  - exists p. split_and!; [done| |done..]. unfold lookup_profile in Hp.
    destruct (slots !! N.to_nat slot) as [s|] eqn:Hs; [|done]. simpl in Hp.
    rewrite (slot_ids _ (wf_lookup _ _ _ Hwf Hs) _ _ Hp). lia.
  - destruct (run_call_evolves slots c slot pid p Hwf Hp) as (p1 & Hp1 & Hid & Hi & Hd).
    destruct (IH _ p1 (run_call_wf _ c Hwf) Hp1) as (p' & Hp' & Hid' & Hi' & Hd').
    exists p'. split_and!; [done|done|auto|]. intros Hdel. specialize (Hd Hdel). subst. auto.
Qed.

(** ** Concrete runs *)

(** Profiles 0 and 1 of slot 0 installed, profile 0 enabled. *)
Definition demo_calls : list SimCall :=
  [CallCreate 0; CallInstall 0 0 7; CallCreate 0; CallInstall 0 1 8; CallEnable 0 0].

Lemma sim_preserves_wf_witness : wf (run_call (run_calls SLOTS demo_calls) (CallDelete 0 0)).2.
Proof. apply sim_preserves_wf, run_calls_wf, wf_SLOTS. Defined.

Lemma enable_spec_witness :
  prof_state <$> lookup_profile (enable (run_calls SLOTS demo_calls) 0 1).2 0 1 = Some Enabled.
Proof.
  destruct (enable_spec (run_calls SLOTS demo_calls) 0 1 (enable (run_calls SLOTS demo_calls) 0 1).2)
    as (_ & He & _); [apply run_calls_wf, wf_SLOTS|vm_compute; reflexivity|].
  by apply He.
Defined.

Lemma profile_history_witness :
  ∃ p', lookup_profile (run_calls SLOTS (demo_calls ++ [CallEnable 0 1])) 0 0 = Some p' ∧
    prof_identity p' = Some 7%N.
Proof.
  destruct (profile_history demo_calls [CallEnable 0 1] 0 0 (mkProfile 0 (Some 7%N) Enabled))
    as (p' & Hp & _ & Hi & _); [vm_compute; reflexivity|].
  exists p'. split; [exact Hp|by apply Hi].
Defined.
