(* ===== verification/Selection.v ===== *)
(** * Selection: which network to attach to

    Model of [mobile/src/selection.rs]: the pure decision [select_network], and
    what it decides: the highest-ranked eligible candidate, or the first cause
    of refusal, independently of the order the modem lists networks in. *)

From S2P Require Import Prelude Sorting.

Definition MAX_CANDIDATES : nat := 32.
Definition MAX_ALLOWED_NETWORKS : nat := 64.

(** ** Data *)

Record NetworkId := mkNetwork { mcc : N; mnc : N }.

Inductive AccountStanding := Active | Suspended | Closed.

Record Candidate := mkCandidate {
  network : NetworkId;
  signal : Z;
  is_home : bool;
}.

Record SelectionInput := mkInput {
  standing : AccountStanding;
  allowed : list NetworkId;
  preferred : option NetworkId;
  roaming_allowed : bool;
  candidates : list Candidate;
}.

Inductive SelectionReason := PlanPreferred | HomeNetwork | StrongestSignal.

Inductive RefusalReason :=
  | AccountSuspended
  | AccountClosed
  | TooManyCandidates
  | TooManyAllowedNetworks
  | NoCandidates
  | NoAllowedNetworksInPlan
  | NoAllowedCandidate
  | RoamingNotPermitted.

Inductive Selection :=
  | Allowed (network : NetworkId) (reason : SelectionReason)
  | Refused (r : RefusalReason).

#[global] Instance NetworkId_eq_dec : EqDecision NetworkId.
Proof. solve_decision. Defined.
#[global] Instance Candidate_eq_dec : EqDecision Candidate.
Proof. solve_decision. Defined.
#[global] Instance SelectionReason_eq_dec : EqDecision SelectionReason.
Proof. solve_decision. Defined.
#[global] Instance RefusalReason_eq_dec : EqDecision RefusalReason.
Proof. solve_decision. Defined.
#[global] Instance Selection_eq_dec : EqDecision Selection.
Proof. solve_decision. Defined.

(** ** The decision *)

(** The tuple [(is_pref, is_home, signal, Reverse(network))]; [Reverse] of a
    network negates both of its fields. *)
Definition rank (c : Candidate) (is_pref : bool) : list Z :=
  [Z.b2z is_pref; Z.b2z (is_home c); signal c;
   (- Z.of_N (mcc (network c)))%Z; (- Z.of_N (mnc (network c)))%Z].

Definition rank_gt (a b : list Z) : bool :=
  match lex_compare a b with Gt => true | _ => false end.

(** One turn of the loop over the allowed candidates. *)
Definition consider (input : SelectionInput)
    (st : bool * option (Candidate * bool)) (c : Candidate)
    : bool * option (Candidate * bool) :=
  let '(_, best) := st in
  if negb (is_home c) && negb (roaming_allowed input) then (true, best) else
  let is_pref := bool_decide (preferred input = Some (network c)) in
  let better := match best with
                | None => true
                | Some (b, b_pref) => rank_gt (rank c is_pref) (rank b b_pref)
                end in
  (true, if better then Some (c, is_pref) else best).

Definition select_network (input : SelectionInput) : Selection :=
  match standing input with
  | Suspended => Refused AccountSuspended
  | Closed => Refused AccountClosed
  | Active =>
      if decide (MAX_CANDIDATES < length (candidates input)) then Refused TooManyCandidates else
      if decide (MAX_ALLOWED_NETWORKS < length (allowed input))
      then Refused TooManyAllowedNetworks else
      if decide (candidates input = []) then Refused NoCandidates else
      if decide (allowed input = []) then Refused NoAllowedNetworksInPlan else
      let '(any_allowed, best) :=
        foldl (consider input) (false, None)
          (filter (λ c, network c ∈ allowed input) (candidates input)) in
      match best with
      | Some (c, is_pref) =>
          Allowed (network c)
            (if is_pref then PlanPreferred
             else if is_home c then HomeNetwork else StrongestSignal)
      | None => if any_allowed then Refused RoamingNotPermitted
                else Refused NoAllowedCandidate
      end
  end.

(** ** What is decided *)

(** Eligible: on the plan's list, and home unless the plan permits roaming. *)
Definition eligible (input : SelectionInput) (c : Candidate) : Prop :=
  network c ∈ allowed input ∧ (is_home c = true ∨ roaming_allowed input = true).

Definition pref (input : SelectionInput) (c : Candidate) : bool :=
  bool_decide (preferred input = Some (network c)).

Definition rank_of (input : SelectionInput) (c : Candidate) : list Z :=
  rank c (pref input c).

(** [c] is the best candidate of [l]. *)
Definition is_best (input : SelectionInput) (l : list Candidate) (c : Candidate) : Prop :=
  c ∈ l ∧ eligible input c ∧
  ∀ c', c' ∈ l → eligible input c' → key_le (rank_of input) c' c.

Definition in_bounds (input : SelectionInput) : Prop :=
  standing input = Active ∧
  length (candidates input) ≤ MAX_CANDIDATES ∧
  length (allowed input) ≤ MAX_ALLOWED_NETWORKS.

Definition reason_for (input : SelectionInput) (c : Candidate) : SelectionReason :=
  if pref input c then PlanPreferred
  else if is_home c then HomeNetwork else StrongestSignal.

#[global] Instance eligible_dec input c : Decision (eligible input c).
Proof. unfold eligible. apply _. Defined.

#[global] Instance rank_of_inj input : Inj (=) (=) (rank_of input).
Proof.
  intros [[m1 n1] s1 h1] [[m2 n2] s2 h2]. unfold rank_of, rank. simpl.
  intros [= _ Hh -> Hm Hn]. destruct h1, h2; try done; f_equal; f_equal; lia.
Qed.

Lemma is_best_unique input l c c' : is_best input l c → is_best input l c' → c = c'.
Proof.
  intros (Hc & He & Hb) (Hc' & He' & Hb').
  apply (key_le_antisym (rank_of input)); auto.
Qed.

Lemma is_best_snoc_keep input l c b :
  is_best input l b → (eligible input c → key_le (rank_of input) c b) →
  is_best input (l ++ [c]) b.
Proof.
  intros (Hb & He & Hmax) Hc. split_and!; [apply elem_of_app; by left|done|].
  intros c' [Hc'|Hc']%elem_of_app; [by auto|]. apply list_elem_of_singleton in Hc' as ->. auto.
Qed.

Lemma is_best_snoc_new input l c :
  eligible input c → (∀ c', c' ∈ l → eligible input c' → key_le (rank_of input) c' c) →
  is_best input (l ++ [c]) c.
Proof.
  intros He Hmax. split_and!; [apply elem_of_app; right; by apply list_elem_of_singleton|done|].
  intros c' [Hc'|Hc']%elem_of_app He'; [by auto|]. apply list_elem_of_singleton in Hc' as ->.
  unfold key_le, cmp. by rewrite lex_compare_refl.
Qed.

Lemma not_eligible input c :
  network c ∈ allowed input →
  negb (is_home c) && negb (roaming_allowed input) = true ↔ ¬ eligible input c.
Proof.
  intros Ha. unfold eligible. destruct (is_home c), (roaming_allowed input); naive_solver.
Qed.

Lemma none_eligible_snoc input l c :
  (∀ c', c' ∈ l → ¬ eligible input c') → ¬ eligible input c →
  ∀ c', c' ∈ l ++ [c] → ¬ eligible input c'.
Proof.
  intros Hl Hc c' [?|Hc']%elem_of_app; [by apply Hl|].
  by apply list_elem_of_singleton in Hc' as ->.
Qed.

(** What the loop has established after the prefix [l]. *)
Definition loop_inv (input : SelectionInput) (l : list Candidate)
    (best : option (Candidate * bool)) : Prop :=
  match best with
  | Some (c, p) => p = pref input c ∧ is_best input l c
  | None => ∀ c, c ∈ l → ¬ eligible input c
  end.

Lemma loop_inv_skip input l c best :
  ¬ eligible input c → loop_inv input l best → loop_inv input (l ++ [c]) best.
Proof.
  intros Hc. destruct best as [[b p]|]; simpl.
  - intros [-> Hb]. split; [done|]. by apply is_best_snoc_keep.
  - intros H. by apply none_eligible_snoc.
Qed.

Lemma loop_inv_take input l c best any :
  network c ∈ allowed input → eligible input c → loop_inv input l best →
  loop_inv input (l ++ [c]) (consider input (any, best) c).2.
Proof.
  intros Ha He. unfold consider.
  destruct (negb (is_home c) && negb (roaming_allowed input)) eqn:Hroam.
  { by apply not_eligible in Hroam. }
  destruct best as [[b p]|]; simpl.
  - intros [-> Hb]. unfold rank_gt. fold (pref input c) (rank_of input c) (rank_of input b).
    destruct (lex_compare _ _) eqn:Hcmp; split; try done.
    + apply is_best_snoc_keep; [done|]. intros _. unfold key_le, cmp. by rewrite Hcmp.
    + apply is_best_snoc_keep; [done|]. intros _. unfold key_le, cmp. by rewrite Hcmp.
    + apply is_best_snoc_new; [done|]. intros c' Hc' He'. etrans; [by apply Hb|].
      unfold key_le, cmp. by rewrite lex_compare_antisym, Hcmp.
  - intros Hn. split; [done|]. apply is_best_snoc_new; [done|]. intros c' Hc' He'.
    by destruct (Hn c').
Qed.

(** The loop, over any list: [best] is the best eligible candidate of it. *)
Lemma consider_loop input l :
  let '(any, best) := foldl (consider input) (false, None)
                        (filter (λ c, network c ∈ allowed input) l) in
  (any = true ↔ ∃ c, c ∈ l ∧ network c ∈ allowed input) ∧ loop_inv input l best.
Proof.
  induction l as [|c l IH] using rev_ind.
  { simpl. split; [split; [done|]; intros (c & Hc & _)|intros c Hc];
      by apply not_elem_of_nil in Hc. }
  rewrite filter_app, foldl_app.
  destruct (foldl _ _ (filter _ l)) as [any best]. destruct IH as [Hany Hbest].
  rewrite filter_cons, filter_nil. case_decide as Hc; cbn [foldl].
  - assert ((consider input (any, best) c).1 = true) as H1.
    { unfold consider. by case_match. }
    destruct (decide (eligible input c)) as [He|He].
    + pose proof (loop_inv_take input l c best any Hc He Hbest) as H2.
      destruct (consider input (any, best) c) as [any' best']. simpl in *. subst.
      split; [|done]. split; [|done]. intros _. exists c.
      split; [apply elem_of_app; right; by apply list_elem_of_singleton|done].
    + unfold consider in *. apply not_eligible in He as Hr; [|done]. rewrite Hr in *.
      split; [|by apply loop_inv_skip]. split; [|done]. intros _. exists c.
      split; [apply elem_of_app; right; by apply list_elem_of_singleton|done].
  - split; [|apply loop_inv_skip; [by intros [? _]|done]]. rewrite Hany.
    setoid_rewrite elem_of_app. setoid_rewrite list_elem_of_singleton. naive_solver.
Qed.

Lemma select_Allowed input n reason :
  select_network input = Allowed n reason ↔
  in_bounds input ∧ ∃ c, is_best input (candidates input) c ∧ network c = n ∧
    reason = reason_for input c.
Proof.
  unfold select_network, in_bounds. pose proof (consider_loop input (candidates input)) as HL.
  destruct (standing input); [|naive_solver..].
  destruct (decide (MAX_CANDIDATES < _)); [split; [done|lia]|].
  destruct (decide (MAX_ALLOWED_NETWORKS < _)); [split; [done|lia]|].
  destruct (decide (candidates input = [])) as [Hnil|].
  { split; [done|]. intros (_ & c & (Hc & _) & _). rewrite Hnil in Hc. set_solver. }
  destruct (decide (allowed input = [])) as [Hnil|].
  { split; [done|]. intros (_ & c & (_ & (Ha & _) & _) & _). rewrite Hnil in Ha. set_solver. }
  destruct (foldl _ _ _) as [any [[c p]|]]; destruct HL as [Hany Hbest].
  - destruct Hbest as [-> Hbest]. fold (reason_for input c). split.
    + intros [= <- <-]. split; [split_and!; [done|lia|lia]|]. eauto.
    + intros (_ & c' & Hbest' & <- & ->). by rewrite (is_best_unique _ _ _ _ Hbest Hbest').
  - split; [by destruct any|]. intros (_ & c' & (Hc' & He & _) & _).
    by destruct (Hbest c').
Qed.

(** A network is allowed exactly when the account is [Active], the inputs are
    within bounds and some candidate is eligible (on the plan's list; home unless
    the plan permits roaming); it is then the network of the unique highest-ranked
    eligible candidate (preferred, home, signal, lowest id), with the reason its
    rank gives. *)
Theorem select_allowed_iff input n reason :
  select_network input = Allowed n reason ↔
  in_bounds input ∧ ∃ c, is_best input (candidates input) c ∧ network c = n ∧
    reason = reason_for input c.
Proof. apply select_Allowed. Qed.

(** A refusal names the first cause, in the documented order: standing, input
    bounds, empty inputs, allow-list, roaming. *)
Theorem select_refused input r :
  select_network input = Refused r →
  r = match standing input with
      | Suspended => AccountSuspended
      | Closed => AccountClosed
      | Active =>
          if decide (MAX_CANDIDATES < length (candidates input)) then TooManyCandidates
          else if decide (MAX_ALLOWED_NETWORKS < length (allowed input))
          then TooManyAllowedNetworks
          else if decide (candidates input = []) then NoCandidates
          else if decide (allowed input = []) then NoAllowedNetworksInPlan
          else if decide (Exists (λ c, network c ∈ allowed input) (candidates input))
          then RoamingNotPermitted else NoAllowedCandidate
      end ∧
  (∀ c, c ∈ candidates input → eligible input c → ¬ in_bounds input).
Proof.
  intros H. split.
  - unfold select_network in H.
    pose proof (consider_loop input (candidates input)) as HL.
    destruct (standing input); [|by simplify_eq..].
    do 4 (case_decide; [by simplify_eq|]).
    destruct (foldl _ _ _) as [any [[c p]|]]; [done|]. destruct HL as [Hany _].
    rewrite <-(Exists_exists (λ c, network c ∈ allowed input)) in Hany.
    destruct any; case_decide; naive_solver.
  - intros c Hc He Hin.
    assert (∃ c', is_best input (candidates input) c') as [c' Hb].
    { pose proof (consider_loop input (candidates input)) as HL.
      destruct (foldl _ _ _) as [any [[c' p]|]]; destruct HL as [_ HL]; [naive_solver|].
      by destruct (HL c). }
    assert (select_network input = Allowed (network c') (reason_for input c')) as H'.
    { apply select_Allowed. eauto. }
    congruence.
Qed.

(** The decision does not depend on the order in which the modem lists the
    candidates, nor on the order of the plan's allowed networks. *)
Theorem select_order_independent st al al' pf ro cs cs' :
  al ≡ₚ al' → cs ≡ₚ cs' →
  select_network (mkInput st al pf ro cs) = select_network (mkInput st al' pf ro cs').
Proof.
  intros Hal Hcs.
  set (i := mkInput st al pf ro cs). set (i' := mkInput st al' pf ro cs').
  assert (Hel : ∀ c, eligible i c ↔ eligible i' c).
  { intros c. unfold eligible, i, i'. simpl. by rewrite Hal. }
  pose proof (consider_loop i cs) as HL. pose proof (consider_loop i' cs') as HL'.
  unfold select_network. subst i i'. simpl in *. destruct st; [|done..].
  rewrite (Permutation_length Hcs), (Permutation_length Hal).
  case_decide; [done|]. case_decide; [done|].
  rewrite (decide_ext (cs = []) (cs' = [])).
  2:{ by rewrite <-!Permutation_nil_r, Hcs. }
  rewrite (decide_ext (al = []) (al' = [])).
  2:{ by rewrite <-!Permutation_nil_r, Hal. }
  case_decide; [done|]. case_decide; [done|].
  destruct (foldl _ _ (filter _ cs)) as [any best].
  destruct (foldl _ _ (filter _ cs')) as [any' best'].
  destruct HL as [Hany Hbest], HL' as [Hany' Hbest'].
  assert (any = any') as <-.
  { apply Bool.eq_true_iff_eq. rewrite Hany, Hany'. setoid_rewrite Hal.
    setoid_rewrite Hcs. done. }
  destruct best as [[c p]|], best' as [[c' p']|].
  - destruct Hbest as (-> & Hin & He & Hm), Hbest' as (-> & Hin' & He' & Hm').
    assert (c = c') as <-; [|done].
    eapply (is_best_unique (mkInput Active al pf ro cs) cs); split_and!; try done.
    + by rewrite Hcs.
    + by apply Hel.
    + intros d Hd Hed. apply Hm'; [by rewrite <-Hcs|by apply Hel].
  - destruct Hbest as (_ & Hin & He & _). destruct (Hbest' c); [by rewrite <-Hcs|by apply Hel].
  - destruct Hbest' as (_ & Hin & He & _). destruct (Hbest c'); [by rewrite Hcs|by apply Hel].
  - done.
Qed.

Lemma select_order_witness :
  let home := mkCandidate (mkNetwork 208 1) (-90) true in
  let away := mkCandidate (mkNetwork 214 7) (-60) false in
  select_network (mkInput Active [network home; network away] None true [home; away]) =
  select_network (mkInput Active [network away; network home] None true [away; home]).
Proof. apply select_order_independent; apply perm_swap. Defined.

Lemma select_refused_witness :
  let away := mkCandidate (mkNetwork 214 7) (-60) false in
  select_network (mkInput Active [network away] None false [away]) = Refused RoamingNotPermitted ∧
  ¬ (eligible (mkInput Active [network away] None false [away]) away ∧
     in_bounds (mkInput Active [network away] None false [away])).
Proof.
  split; [reflexivity|]. intros [He Hb].
  eapply (select_refused (mkInput Active [mkNetwork 214 7] None false
    [mkCandidate (mkNetwork 214 7) (-60) false])); [reflexivity| |exact He|exact Hb]. by left.
Defined.
