(* ===== verification/Policy.v ===== *)
(** * Policy: data entitlements

    Model of [mobile/src/policy.rs]: entitlements and their validation, the
    saturating usage counter, the usage bands (exact integer tests in [u128]),
    and the session decision. *)

From S2P Require Import Prelude.

Definition MAX_ESCALATE_PERCENT : N := 10000.

(** ** Data *)

Inductive EntitlementError :=
  | ThrottlePercentAbove100
  | EscalatePercentBelow100
  | EscalatePercentTooLarge.

Record DataEntitlement := mkEntitlement {
  cap_bytes : option N;
  throttle_at_percent : N;
  roaming_data_allowed : bool;
  escalate_at_percent : N;
}.

Record DataUsage := mkUsage { used_bytes : N }.

Inductive AccountStandingForData := Active | Suspended | Closed.

Inductive ProfileLifecycleForData := Created | Disabled | Enabled | Deleted.

Inductive NetworkClass := Home | Roaming.

Record SessionRequest := mkRequest {
  req_standing : AccountStandingForData;
  req_lifecycle : ProfileLifecycleForData;
  req_entitlement : DataEntitlement;
  req_usage : DataUsage;
  req_network : NetworkClass;
}.

Inductive DenyReason :=
  | AccountSuspended
  | AccountClosed
  | ProfileNotEnabled (l : ProfileLifecycleForData)
  | RoamingDataNotAllowed
  | CapExceeded.

Inductive SessionDecision := Allow | AllowThrottled | Deny (r : DenyReason).

Inductive UsageBand := Normal | Throttled | CapReached | Anomalous.

Inductive ActionRequest := NotifyOnly | Throttle | SuspendAccount.

Record UsageAssessment := mkAssessment {
  band : UsageBand;
  escalation : option ActionRequest;
}.

#[global] Instance DataEntitlement_eq_dec : EqDecision DataEntitlement.
Proof. solve_decision. Defined.
#[global] Instance DataUsage_eq_dec : EqDecision DataUsage.
Proof. solve_decision. Defined.
#[global] Instance AccountStandingForData_eq_dec : EqDecision AccountStandingForData.
Proof. solve_decision. Defined.
#[global] Instance ProfileLifecycleForData_eq_dec : EqDecision ProfileLifecycleForData.
Proof. solve_decision. Defined.
#[global] Instance NetworkClass_eq_dec : EqDecision NetworkClass.
Proof. solve_decision. Defined.
#[global] Instance SessionRequest_eq_dec : EqDecision SessionRequest.
Proof. solve_decision. Defined.
#[global] Instance DenyReason_eq_dec : EqDecision DenyReason.
Proof. solve_decision. Defined.
#[global] Instance SessionDecision_eq_dec : EqDecision SessionDecision.
Proof. solve_decision. Defined.
#[global] Instance UsageBand_eq_dec : EqDecision UsageBand.
Proof. solve_decision. Defined.
#[global] Instance ActionRequest_eq_dec : EqDecision ActionRequest.
Proof. solve_decision. Defined.
#[global] Instance UsageAssessment_eq_dec : EqDecision UsageAssessment.
Proof. solve_decision. Defined.

(** ** Entitlements and usage *)

(** [DataEntitlement::new] *)
Definition entitlement_new (cap : option N) (throttle : N) (roaming : bool) (escalate : N)
    : Result EntitlementError DataEntitlement :=
  if decide (100 < throttle)%N then Err ThrottlePercentAbove100 else
  if decide (escalate < 100)%N then Err EscalatePercentBelow100 else
  if decide (MAX_ESCALATE_PERCENT < escalate)%N then Err EscalatePercentTooLarge else
  Ok (mkEntitlement cap throttle roaming escalate).

Definition apply_usage (usage : DataUsage) (bytes : N) : DataUsage :=
  mkUsage (saturating_add u64_max (used_bytes usage) bytes).

Definition reset_usage : DataUsage := mkUsage 0.

(** ** Bands *)

Definition share_reached (used cap percent : N) : bool :=
  let lhs := saturating_mul u128_max used 100 in
  let rhs := saturating_mul u128_max cap percent in
  bool_decide (rhs ≤ lhs)%N.

Definition evaluate_usage (entitlement : DataEntitlement) (usage : DataUsage)
    : UsageAssessment :=
  match cap_bytes entitlement with
  | None => mkAssessment Normal None
  | Some cap =>
      let used := used_bytes usage in
      if decide (cap = 0)%N then mkAssessment CapReached (Some NotifyOnly) else
      if share_reached used cap (escalate_at_percent entitlement)
      then mkAssessment Anomalous (Some SuspendAccount)
      else if decide (cap ≤ used)%N then mkAssessment CapReached (Some NotifyOnly)
      else if share_reached used cap (throttle_at_percent entitlement)
      then mkAssessment Throttled (Some Throttle)
      else mkAssessment Normal None
  end.

Definition evaluate_session (request : SessionRequest) : SessionDecision :=
  match req_standing request with
  | Suspended => Deny AccountSuspended
  | Closed => Deny AccountClosed
  | Active =>
      if decide (req_lifecycle request ≠ Enabled)
      then Deny (ProfileNotEnabled (req_lifecycle request)) else
      if decide (req_network request = Roaming ∧
                 roaming_data_allowed (req_entitlement request) = false)
      then Deny RoamingDataNotAllowed else
      match band (evaluate_usage (req_entitlement request) (req_usage request)) with
      | Normal => Allow
      | Throttled => AllowThrottled
      | CapReached | Anomalous => Deny CapExceeded
      end
  end.

(** ** Decision records *)

Record PolicyDecisionRecord := mkDecisionRecord {
  rec_request : SessionRequest;
  rec_decision : SessionDecision;
  rec_assessment : UsageAssessment;
}.

#[global] Instance PolicyDecisionRecord_eq_dec : EqDecision PolicyDecisionRecord.
Proof. solve_decision. Defined.

(** [PolicyDecisionRecord::decide] *)
Definition record_decide (request : SessionRequest) : PolicyDecisionRecord :=
  mkDecisionRecord request (evaluate_session request)
    (evaluate_usage (req_entitlement request) (req_usage request)).

Definition replays (self : PolicyDecisionRecord) : bool :=
  bool_decide (self = record_decide (rec_request self)).

(** ** Demo plans *)

Definition DEMO_CAPPED_ENTITLEMENT : DataEntitlement :=
  mkEntitlement (Some (5 * 1024 * 1024 * 1024)%N) 80 false 150.

Definition DEMO_UNLIMITED_ENTITLEMENT : DataEntitlement :=
  mkEntitlement None 100 true 100.

Definition demo_entitlements : list DataEntitlement :=
  [DEMO_CAPPED_ENTITLEMENT; DEMO_UNLIMITED_ENTITLEMENT].

(** ** Correctness *)

(** What [new] guarantees, at the widths of the fields. *)
Record valid (e : DataEntitlement) : Prop := mk_valid {
  valid_cap : ∀ c, cap_bytes e = Some c → (c ≤ u64_max)%N;
  valid_throttle : (throttle_at_percent e ≤ 100)%N;
  valid_escalate : (100 ≤ escalate_at_percent e ≤ MAX_ESCALATE_PERCENT)%N;
}.

Lemma entitlement_new_valid cap t r e ent :
  (∀ c, cap = Some c → (c ≤ u64_max)%N) → entitlement_new cap t r e = Ok ent → valid ent.
Proof.
  intros Hc H. unfold entitlement_new in H. case_all. split; simpl; [done|lia|lia].
Qed.

Lemma share_reached_spec used cap percent :
  (used ≤ u64_max)%N → (cap ≤ u64_max)%N → (percent ≤ u16_max)%N →
  share_reached used cap percent = true ↔ (cap * percent ≤ used * 100)%N.
Proof.
  intros Hu Hc Hp. unfold share_reached, saturating_mul.
  assert (used * 100 ≤ u128_max)%N by (unfold u128_max, u64_max in *; lia).
  assert (cap * percent ≤ u128_max)%N.
  { etrans; [apply N.mul_le_mono; eassumption|]. by vm_compute. }
  rewrite !N.min_l by done. apply bool_decide_eq_true.
Qed.

(** The band table, over the integers. *)
Definition band_spec (e : DataEntitlement) (used : N) : UsageBand :=
  match cap_bytes e with
  | None => Normal
  | Some cap =>
      if decide (cap = 0)%N then CapReached
      else if decide (cap * escalate_at_percent e ≤ used * 100)%N then Anomalous
      else if decide (cap ≤ used)%N then CapReached
      else if decide (cap * throttle_at_percent e ≤ used * 100)%N then Throttled
      else Normal
  end.

Definition escalation_spec (e : DataEntitlement) (b : UsageBand) : option ActionRequest :=
  match b with
  | Normal => None
  | Throttled => Some Throttle
  | CapReached => Some NotifyOnly
  | Anomalous => Some SuspendAccount
  end.

Lemma evaluate_usage_spec e u :
  valid e → (used_bytes u ≤ u64_max)%N →
  evaluate_usage e u =
  mkAssessment (band_spec e (used_bytes u)) (escalation_spec e (band_spec e (used_bytes u))).
Proof.
  intros [Hcap Ht [He1 He2]] Hu. unfold evaluate_usage, band_spec.
  destruct (cap_bytes e) as [c|]; [|done]. specialize (Hcap c eq_refl).
  assert (escalate_at_percent e ≤ u16_max)%N
    by (unfold MAX_ESCALATE_PERCENT, u16_max in *; lia).
  assert (throttle_at_percent e ≤ u16_max)%N by (unfold u16_max; lia).
  pose proof (share_reached_spec (used_bytes u) c (escalate_at_percent e)) as HE.
  pose proof (share_reached_spec (used_bytes u) c (throttle_at_percent e)) as HT.
  destruct (share_reached _ _ (escalate_at_percent e)), (share_reached _ _ (throttle_at_percent e));
    repeat case_decide; simpl; try done; exfalso; naive_solver.
Qed.

(** Bands are exact: for every entitlement the constructor accepts and every
    [u64] usage, the band is the one the integer comparisons [U*100 >= C*P] give
    (no [u64] or [u128] overflow disturbs them), with the escalation of that
    band. *)
Theorem evaluate_usage_exact cap t r esc e u :
  (∀ c, cap = Some c → (c ≤ u64_max)%N) → (used_bytes u ≤ u64_max)%N →
  entitlement_new cap t r esc = Ok e →
  evaluate_usage e u =
  mkAssessment (band_spec e (used_bytes u)) (escalation_spec e (band_spec e (used_bytes u))).
Proof. intros Hc Hu H. apply evaluate_usage_spec; [by eapply entitlement_new_valid|done]. Qed.

Lemma evaluate_usage_exact_witness :
  evaluate_usage (mkEntitlement (Some u64_max) 80 false 10000) (mkUsage u64_max) =
  mkAssessment CapReached (Some NotifyOnly).
Proof.
  rewrite (evaluate_usage_exact (Some u64_max) 80 false 10000);
    [reflexivity|intros c [= <-]; reflexivity|simpl; lia|reflexivity].
Defined.

(** The bands as a severity. *)
Definition severity (b : UsageBand) : nat :=
  match b with Normal => 0 | Throttled => 1 | CapReached => 2 | Anomalous => 3 end.

(** Using more data never lowers the band: adding bytes to the (saturating)
    counter can only keep or raise the severity, so a capped account is never
    re-opened by further traffic, not even at the counter's maximum. *)
Theorem usage_monotone e u bytes :
  valid e → (used_bytes u ≤ u64_max)%N →
  severity (band (evaluate_usage e u)) ≤
  severity (band (evaluate_usage e (apply_usage u bytes))).
Proof.
  intros Hv Hu.
  assert (used_bytes (apply_usage u bytes) ≤ u64_max)%N by apply saturating_add_le.
  assert (used_bytes u ≤ used_bytes (apply_usage u bytes))%N by (by apply saturating_add_ge).
  rewrite !evaluate_usage_spec by done. cbn [band]. unfold band_spec.
  revert H H0. generalize (used_bytes (apply_usage u bytes)). intros u' Hu' Hle.
  destruct (cap_bytes e) as [c|]; [|done]. pose proof (valid_escalate _ Hv).
  repeat case_decide; simpl; lia.
Qed.

Lemma usage_monotone_witness :
  severity (band (evaluate_usage DEMO_CAPPED_ENTITLEMENT (mkUsage 4294967295))) ≤
  severity (band (evaluate_usage DEMO_CAPPED_ENTITLEMENT
                    (apply_usage (mkUsage 4294967295) u64_max))).
Proof.
  apply usage_monotone; [|by vm_compute].
  split; [intros c [= <-]; by vm_compute|by vm_compute|split; by vm_compute].
Defined.

(** A session is allowed exactly when the account is [Active], the profile
    [Enabled], the network home or covered by the entitlement, and usage below a
    non-zero cap (or no cap); it is throttled exactly from the throttle share
    of the cap on. *)
Theorem evaluate_session_allow_iff req :
  valid (req_entitlement req) → (used_bytes (req_usage req) ≤ u64_max)%N →
  let e := req_entitlement req in
  let used := used_bytes (req_usage req) in
  let runs := req_standing req = Active ∧ req_lifecycle req = Enabled ∧
              (req_network req = Home ∨ roaming_data_allowed e = true) ∧
              (∀ c, cap_bytes e = Some c → (used < c)%N) in
  let slow := ∃ c, cap_bytes e = Some c ∧ (c * throttle_at_percent e ≤ used * 100)%N in
  (evaluate_session req = Allow ↔ runs ∧ ¬ slow) ∧
  (evaluate_session req = AllowThrottled ↔ runs ∧ slow).
Proof.
  intros Hv Hu e used runs slow. subst e used.
  unfold evaluate_session. rewrite evaluate_usage_spec by done. simpl.
  unfold runs, slow, band_spec. pose proof (valid_escalate _ Hv).
  destruct (req_standing req); [|split; (split; [done|by intros [(?&_) _]])..].
  destruct (req_lifecycle req); try (split; (split; [done|by intros [(_&?&_) _]])).
  rewrite decide_False by naive_solver.
  destruct (decide (_ ∧ _)) as [[Hn Hr]|Hr].
  { rewrite Hn, Hr. naive_solver. }
  assert (req_network req = Home ∨ roaming_data_allowed (req_entitlement req) = true).
  { destruct (req_network req); [by left|]. right.
    destruct (roaming_data_allowed _); naive_solver. }
  destruct (cap_bytes (req_entitlement req)) as [c|]; [|naive_solver].
  assert (c * escalate_at_percent (req_entitlement req) ≤ used_bytes (req_usage req) * 100 →
          c ≤ used_bytes (req_usage req))%N as Hanom by nia.
  assert (Hcap : (∀ c', Some c = Some c' → (used_bytes (req_usage req) < c')%N) ↔
                 (used_bytes (req_usage req) < c)%N) by naive_solver.
  assert (Hslow : (∃ c', Some c = Some c' ∧
      (c' * throttle_at_percent (req_entitlement req) ≤ used_bytes (req_usage req) * 100)%N) ↔
      (c * throttle_at_percent (req_entitlement req) ≤ used_bytes (req_usage req) * 100)%N)
    by naive_solver.
  rewrite Hcap, Hslow. repeat case_decide;
    (split; (split; [intros ?|intros [(_&_&_&?) ?]])); try done; try lia;
    (split; [split_and!; [done..|lia]|done]).
Qed.

Lemma evaluate_session_allow_iff_witness :
  evaluate_session (mkRequest Active Enabled DEMO_UNLIMITED_ENTITLEMENT
                      (mkUsage 7) Roaming) = Allow.
Proof.
  apply (evaluate_session_allow_iff
           (mkRequest Active Enabled DEMO_UNLIMITED_ENTITLEMENT (mkUsage 7) Roaming));
    simpl; [split; simpl; [done|lia|unfold MAX_ESCALATE_PERCENT; lia]|unfold u64_max; lia|].
  split; [split_and!; [done|done|by right|done]|]. naive_solver.
Defined.
