(* ===== verification/Period.v ===== *)
(** * Period: billing periods

    Model of [mobile/src/period.rs]: the assessment of a period at a tick, the
    reset gate (period and early-reset cooldown), the periods a reset starts,
    and the bounded read-only checker [check_periods]. *)

From S2P Require Import Prelude Sorting Groups.

Definition MAX_PERIODS : nat := 64.
Definition DEMO_PERIOD_TICKS : N := 1000.
Definition DEMO_EARLY_RESET_COOLDOWN_MILLIS : N := 3600000.

(** ** Data *)

Inductive PeriodError :=
  | ZeroLength
  | ResetBeforeStart (start_tick reset_at_tick : N).

Record BillingPeriod := mkPeriod { start_tick : N; length_ticks : N }.

Inductive PeriodAssessment :=
  | Active (elapsed remaining : N)
  | Elapsed (overdue_ticks periods_missed : N)
  | ClockBeforeStart (start_tick now_tick : N).

Inductive PeriodRequest := ResetUsage.

Inductive ResetRefusal :=
  | PeriodActive (remaining : N)
  | RefusedClockBeforeStart (start_tick now_tick : N)
  | EarlyCooldown (remaining : N).

Record ObservedPeriod := mkObservedPeriod {
  op_account : N;
  op_period : BillingPeriod;
  op_reset_requested_since : option N;
}.

Inductive PeriodIncidentKind :=
  | TooManyPeriods
  | DuplicateAccount
  | ClockBeforeStartIncident
  | PeriodElapsedNoReset.

Record PeriodIncident := mkPeriodIncident {
  pi_kind : PeriodIncidentKind;
  pi_account : N;
  pi_expected : N;
  pi_observed : N;
}.

#[global] Instance BillingPeriod_eq_dec : EqDecision BillingPeriod.
Proof. solve_decision. Defined.
#[global] Instance PeriodError_eq_dec : EqDecision PeriodError.
Proof. solve_decision. Defined.
#[global] Instance ResetRefusal_eq_dec : EqDecision ResetRefusal.
Proof. solve_decision. Defined.
#[global] Instance PeriodIncidentKind_eq_dec : EqDecision PeriodIncidentKind.
Proof. solve_decision. Defined.
#[global] Instance PeriodIncident_eq_dec : EqDecision PeriodIncident.
Proof. solve_decision. Defined.

(** ** Periods *)

(** [BillingPeriod::new] *)
Definition period_new (start_tick length_ticks : N) : Result PeriodError BillingPeriod :=
  if decide (length_ticks = 0)%N then Err ZeroLength
  else Ok (mkPeriod start_tick length_ticks).

Definition demo_period (start_tick : N) : BillingPeriod :=
  mkPeriod start_tick DEMO_PERIOD_TICKS.

Definition assess_period (period : BillingPeriod) (now_tick : N) : PeriodAssessment :=
  match checked_sub now_tick (start_tick period) with
  | None => ClockBeforeStart (start_tick period) now_tick
  | Some elapsed =>
      let over :=
        Elapsed (saturating_sub elapsed (length_ticks period))
          (default u64_max (checked_div elapsed (length_ticks period))) in
      match checked_sub (length_ticks period) elapsed with
      | Some remaining => if decide (0 < remaining)%N then Active elapsed remaining else over
      | None => over
      end
  end.

Definition period_request (period : BillingPeriod) (now_tick : N) : option PeriodRequest :=
  match assess_period period now_tick with
  | Elapsed _ _ => Some ResetUsage
  | Active _ _ | ClockBeforeStart _ _ => None
  end.

Definition next_period (old : BillingPeriod) (reset_at_tick : N)
    : Result PeriodError BillingPeriod :=
  if decide (reset_at_tick < start_tick old)%N
  then Err (ResetBeforeStart (start_tick old) reset_at_tick)
  else period_new reset_at_tick (length_ticks old).

Definition install_period (reset_at_tick length_ticks : N)
    : Result PeriodError BillingPeriod :=
  period_new reset_at_tick length_ticks.

(** ** The reset gate *)

Definition reset_permitted (assessment : option PeriodAssessment) (early : bool)
    : Result ResetRefusal () :=
  match assessment with
  | None | Some (Elapsed _ _) => Ok ()
  | Some (Active _ remaining) => if early then Ok () else Err (PeriodActive remaining)
  | Some (ClockBeforeStart s n) => Err (RefusedClockBeforeStart s n)
  end.

Definition reset_permitted_at (assessment : option PeriodAssessment) (early : bool)
    (last_reset_tick : option N) (now_tick cooldown_ticks : N) : Result ResetRefusal () :=
  _ ← reset_permitted assessment early;
  if negb early then Ok () else
  match last_reset_tick with
  | None => Ok ()
  | Some last =>
      match checked_sub now_tick last with
      | Some elapsed =>
          if decide (cooldown_ticks ≤ elapsed)%N then Ok ()
          else Err (EarlyCooldown (saturating_sub cooldown_ticks elapsed))
      | None => Err (EarlyCooldown cooldown_ticks)
      end
  end.

(** ** The checker *)

Definition count_u64 (n : N) : N := if decide (n ≤ u64_max)%N then n else u64_max.

Definition dup_incident (account copies : N) : PeriodIncident :=
  mkPeriodIncident DuplicateAccount account 1 (count_u64 copies).

(** Flushing a finished run into [dup_ids] and [out]. *)
Definition flush_run (dup_ids : list N) (out : list PeriodIncident) (run : option (N * N))
    : list N * list PeriodIncident :=
  match run with
  | Some (cur, n) =>
      if decide (1 < n)%N then (dup_ids ++ [cur], out ++ [dup_incident cur n])
      else (dup_ids, out)
  | None => (dup_ids, out)
  end.

(** One turn of the loop over the sorted ids. *)
Definition run_step (st : list N * list PeriodIncident * option (N * N)) (id : N)
    : list N * list PeriodIncident * option (N * N) :=
  let '(dup_ids, out, run) := st in
  match run with
  | Some (cur, n) =>
      if decide (cur = id) then (dup_ids, out, Some (cur, saturating_add usize_max n 1))
      else (flush_run dup_ids out run, Some (id, 1%N))
  | None => (flush_run dup_ids out run, Some (id, 1%N))
  end.

(** One turn of the loop over the periods. *)
Definition check_one (now_tick grace_ticks : N) (dup_ids : list N) (p : ObservedPeriod)
    : list PeriodIncident :=
  match binary_search (λ n, [Z.of_N n]) dup_ids [Z.of_N (op_account p)] with
  | Ok _ => []
  | Err _ =>
      match assess_period (op_period p) now_tick with
      | Active _ _ => []
      | ClockBeforeStart s _ =>
          [mkPeriodIncident ClockBeforeStartIncident (op_account p) s now_tick]
      | Elapsed overdue_ticks _ =>
          let end_ := saturating_sub now_tick overdue_ticks in
          let since := N.max (default 0%N (op_reset_requested_since p)) end_ in
          let deadline := saturating_add u64_max since grace_ticks in
          if decide (deadline < now_tick)%N
          then [mkPeriodIncident PeriodElapsedNoReset (op_account p) deadline now_tick]
          else []
      end
  end.

(** The derived order of [PeriodIncident]: fields in declaration order. *)
Definition kind_rank (k : PeriodIncidentKind) : Z :=
  match k with
  | TooManyPeriods => 0 | DuplicateAccount => 1
  | ClockBeforeStartIncident => 2 | PeriodElapsedNoReset => 3
  end.

Definition incident_key (i : PeriodIncident) : list Z :=
  [kind_rank (pi_kind i); Z.of_N (pi_account i); Z.of_N (pi_expected i);
   Z.of_N (pi_observed i)].

Definition check_periods (periods : list ObservedPeriod) (now_tick grace_ticks : N)
    : list PeriodIncident :=
  if decide (MAX_PERIODS < length periods) then
    [mkPeriodIncident TooManyPeriods 0 (count_u64 (N.of_nat MAX_PERIODS))
       (count_u64 (len periods))]
  else
    let ids := sort (λ n, [Z.of_N n]) (op_account <$> periods) in
    let '(dup_ids, out, run) := foldl run_step ([], [], None) ids in
    let '(dup_ids, out) := flush_run dup_ids out run in
    sort incident_key (out ++ (periods ≫= check_one now_tick grace_ticks dup_ids)).

(** ** Assessment *)

(** The assessment is exact at every [u64] tick, with [start + length] taken
    over the integers (it may exceed [u64::MAX]): before the start it is
    [ClockBeforeStart], never active; inside it is [Active] with the exact elapsed
    and remaining ticks; from the end on it is [Elapsed], overdue by exactly
    [now - end] and with at least one period missed. *)
Theorem assess_period_exact p now :
  (0 < length_ticks p)%N →
  assess_period p now =
  (if decide (now < start_tick p)%N then ClockBeforeStart (start_tick p) now
  else if decide (now < start_tick p + length_ticks p)%N
  then Active (now - start_tick p) (start_tick p + length_ticks p - now)
  else Elapsed (now - (start_tick p + length_ticks p)) ((now - start_tick p) / length_ticks p))
  ∧ (start_tick p + length_ticks p ≤ now → 1 ≤ (now - start_tick p) / length_ticks p)%N.
Proof.
  intros Hl. split.
  - unfold assess_period, checked_sub, saturating_sub, checked_div.
    repeat (case_decide; try lia); simpl; f_equal; lia.
  - intros Hle. apply N.div_le_lower_bound; lia.
Qed.

Lemma assess_period_exact_witness :
  assess_period (mkPeriod 18446744073709551000 1000) 18446744073709551615 = Active 615 385.
Proof.
  destruct (assess_period_exact (mkPeriod 18446744073709551000 1000) 18446744073709551615)
    as [-> _]; [simpl; lia|reflexivity].
Defined.

Lemma assess_Elapsed p now o m :
  (0 < length_ticks p)%N → assess_period p now = Elapsed o m →
  (start_tick p + length_ticks p ≤ now ∧ o = now - (start_tick p + length_ticks p))%N.
Proof.
  intros Hl. unfold assess_period, checked_sub, saturating_sub.
  repeat (case_decide; try lia); simpl; intros; simplify_eq; lia.
Qed.

Lemma reset_permitted_Ok p now early :
  (0 < length_ticks p)%N →
  reset_permitted (Some (assess_period p now)) early = Ok () ↔
  (start_tick p ≤ now ∧ (early = true ∨ start_tick p + length_ticks p ≤ now))%N.
Proof.
  intros Hl. unfold reset_permitted, assess_period, checked_sub.
  repeat (case_decide; try lia); simpl; destruct early; naive_solver lia.
Qed.

Lemma reset_permitted_at_Ok p now early last cooldown :
  (0 < length_ticks p)%N →
  reset_permitted_at (Some (assess_period p now)) early last now cooldown = Ok () ↔
  (start_tick p ≤ now ∧
   if early then ∀ t, last = Some t → t ≤ now ∧ t + cooldown ≤ now
   else start_tick p + length_ticks p ≤ now)%N.
Proof.
  intros Hl. pose proof (reset_permitted_Ok p now early Hl) as Hp. unfold reset_permitted_at.
  destruct (reset_permitted _ _) as [[]|e]; simpl.
  - destruct (proj1 Hp eq_refl) as [Hs He]. destruct early; simpl; [|naive_solver].
    destruct last as [t|]; [|naive_solver]. unfold checked_sub.
    repeat case_decide; split; try done.
    + intros _. split; [done|]. intros t' [= <-]. lia.
    + intros [_ Ht]. specialize (Ht t eq_refl). lia.
    + intros [_ Ht]. specialize (Ht t eq_refl). lia.
  - split; [done|]. intros [Hs He]. destruct early; naive_solver.
Qed.

(** The reset gate: with a period installed, a normal reset is permitted
    exactly from the period's end on, and an early one exactly when the clock is
    not before the period's start and at least the cooldown has passed since the
    last applied reset; a rewound clock permits neither. *)
Theorem reset_gate p now early last cooldown :
  (0 < length_ticks p)%N →
  reset_permitted_at (Some (assess_period p now)) early last now cooldown = Ok () ↔
  (start_tick p ≤ now ∧
   if early then ∀ t, last = Some t → t ≤ now ∧ t + cooldown ≤ now
   else start_tick p + length_ticks p ≤ now)%N.
Proof. apply reset_permitted_at_Ok. Qed.

Lemma reset_gate_witness :
  reset_permitted_at (Some (assess_period (mkPeriod 10 100) 110)) false None 110 5 = Ok ().
Proof. apply reset_gate; simpl; lia. Defined.

(** ** The checker, against a declarative reading *)

#[global] Instance id_key_inj : Inj (=) (=) (λ n, [Z.of_N n]).
Proof. intros x y [= H]. lia. Qed.

#[global] Instance incident_key_inj : Inj (=) (=) incident_key.
Proof.
  intros [k a e o] [k' a' e' o']. unfold incident_key. simpl.
  intros [= Hk ? ? ?]. f_equal; [by destruct k, k'|lia..].
Qed.

Definition tag (ids : list N) : list (N * ()) := (λ id, (id, ())) <$> ids.

(** The pair a group contributes to [dup_ids] and [out]. *)
Definition dup_pair (k n : N) : list (N * N) := if decide (1 < n)%N then [(k, n)] else [].

Definition dup_pairs (gs : list (Group N ())) : list (N * N) :=
  gs ≫= λ g, dup_pair (g_key g) (N.of_nat (g_count g)).

(** The loop's two vectors, as functions of the pairs pushed so far. *)
Definition pushed (ps : list (N * N)) : list N * list PeriodIncident :=
  (ps.*1, (λ p, dup_incident p.1 p.2) <$> ps).

Definition finish (st : list N * list PeriodIncident * option (N * N))
    : list N * list PeriodIncident :=
  let '(dup_ids, out, run) := st in flush_run dup_ids out run.

Lemma flush_pushed ps k n :
  flush_run (pushed ps).1 (pushed ps).2 (Some (k, n)) = pushed (ps ++ dup_pair k n).
Proof.
  unfold flush_run, pushed, dup_pair. simpl. case_decide; simpl.
  - by rewrite !fmap_app.
  - by rewrite app_nil_r.
Qed.

(** The loop over the ids that repeat the current one. *)
Lemma run_loop_same ps cur n ids m rest :
  (n + len ids ≤ usize_max)%N → next_while cur (tag ids) = (m, rest) →
  foldl run_step (pushed ps, Some (cur, n)) ids =
  foldl run_step (pushed ps, Some (cur, (n + N.of_nat m)%N)) rest.*1.
Proof.
  revert n m. induction ids as [|id ids IH]; intros n m Hn H.
  - simpl in H. simplify_eq. simpl. by rewrite N.add_0_r.
  - cbn [tag fmap list_fmap next_while] in H. case_decide as Hid.
    + subst. fold (tag ids) in H. destruct (next_while cur (tag ids)) as [m' r] eqn:E.
      simplify_eq. unfold len in Hn. cbn [length] in Hn. cbn [foldl].
      assert (run_step (pushed ps, Some (cur, n)) cur = (pushed ps, Some (cur, n + 1)%N)) as ->.
      { unfold run_step, pushed. rewrite decide_True by done. do 3 f_equal.
        unfold saturating_add. lia. }
      rewrite (IH (n + 1)%N m'); [|unfold len; lia|done]. do 3 f_equal. f_equal. lia.
    + simplify_eq. rewrite N.add_0_r. f_equal. simpl. f_equal.
      clear. induction ids as [|i ids IH]; [done|]. csimpl. by f_equal.
Qed.

Lemma tag_fst (l : list (N * ())) : tag l.*1 = l.
Proof. induction l as [|[k []] l IH]; [done|]. unfold tag in *. csimpl. by rewrite IH. Qed.

Lemma finish_pushed ps k n :
  finish (pushed ps, Some (k, n)) = pushed (ps ++ dup_pair k n).
Proof. apply flush_pushed. Qed.

Lemma run_step_other ps k n k' :
  k ≠ k' → run_step (pushed ps, Some (k, n)) k' = (pushed (ps ++ dup_pair k n), Some (k', 1%N)).
Proof.
  intros Hne. unfold run_step. rewrite <-flush_pushed. unfold pushed. simpl.
  by rewrite decide_False.
Qed.

Lemma run_loop_groups fuel ps k ids :
  length ids ≤ fuel → (len ids < usize_max)%N →
  finish (foldl run_step (pushed ps, Some (k, 1%N)) ids) =
  pushed (ps ++ dup_pairs (group_loop (S fuel) ((k, ()) :: tag ids))).
Proof.
  revert ps k ids. induction fuel as [|fuel IH]; intros ps k ids Hlen Hmax;
    cbn [group_loop]; destruct (next_while k (tag ids)) as [m rest] eqn:Hw;
    rewrite (run_loop_same ps k 1 ids m rest) by (try done; lia);
    pose proof (next_while_spec _ _ _ _ Hw) as (pre & Hpre & Hm & _ & Hh);
    assert (length ids = m + length rest) as Hsum
      by (rewrite <-Hm, <-length_app, <-Hpre; unfold tag; by rewrite length_fmap);
    assert ((1 + N.of_nat m)%N = N.of_nat (1 + m)) as -> by lia;
    destruct rest as [|[k' []] rest]; unfold dup_pairs; cbn [mbind list_bind g_key g_count];
    [| | |].
  - cbn [fmap list_fmap foldl]. by rewrite finish_pushed, app_nil_r.
  - simpl in Hsum. lia.
  - cbn [fmap list_fmap foldl]. by rewrite finish_pushed, app_nil_r.
  - specialize (Hh _ eq_refl). simpl in Hh. cbn [fmap list_fmap foldl fst].
    rewrite run_step_other by congruence. fold (fmap (M:=list) (@fst N ()) rest).
    simpl in Hsum. rewrite IH, tag_fst, app_assoc; [done|..]; unfold len in *;
      rewrite length_fmap; lia.
Qed.

Abbreviation id_sort := (sort (λ n, [Z.of_N n])).

(** The pairs the loop pushes for a list of account ids. *)
Definition dups (ids : list N) : list (N * N) :=
  dup_pairs (group_loop (length ids) (tag (id_sort ids))).

Lemma dup_loop ids :
  (len ids < usize_max)%N →
  finish (foldl run_step ([], [], None) (id_sort ids)) = pushed (dups ids).
Proof.
  intros Hlen. unfold dups. pose proof (sort_perm (λ n, [Z.of_N n]) ids) as Hp.
  rewrite <-(Permutation_length Hp). unfold len in Hlen.
  rewrite <-(Permutation_length Hp) in Hlen. destruct (id_sort ids) as [|k l]; [done|].
  simpl in Hlen. apply (run_loop_groups (length l) [] k l); unfold len; lia.
Qed.

Lemma elem_of_dup_pairs gs k n :
  (k, n) ∈ dup_pairs gs ↔
  ∃ g, g ∈ gs ∧ g_key g = k ∧ N.of_nat (g_count g) = n ∧ (1 < n)%N.
Proof.
  unfold dup_pairs. rewrite list_elem_of_bind. split.
  - intros (g & Hd & Hg). unfold dup_pair in Hd. case_decide; [|set_solver].
    apply list_elem_of_singleton in Hd. simplify_eq. eauto.
  - intros (g & Hg & <- & <- & Hn). exists g. split; [|done].
    unfold dup_pair. rewrite decide_True by done. by apply list_elem_of_singleton.
Qed.

Lemma sorted_tag l :
  StronglySorted (key_le (λ n, [Z.of_N n])) l →
  StronglySorted (key_le (λ e : N * (), [Z.of_N e.1])) (tag l).
Proof.
  induction 1 as [|k l Hs IH HF]; csimpl; constructor; [done|].
  apply Forall_fmap. eapply Forall_impl; [exact HF|]. done.
Qed.

Lemma dups_groups ids :
  StronglySorted (before (λ n, [Z.of_N n]))
    (group_loop (length ids) (tag (id_sort ids))) ∧
  ∀ g, g ∈ group_loop (length ids) (tag (id_sort ids)) ↔
       groups_of (tag (id_sort ids)) g.
Proof.
  apply (group_loop_spec (λ n, [Z.of_N n])); [apply sorted_tag, sort_sorted|].
  unfold tag. by rewrite length_fmap, (Permutation_length (sort_perm _ ids)).
Qed.

Lemma elem_of_dups ids k n :
  (k, n) ∈ dups ids ↔ n = N.of_nat (length (filter (k =.) ids)) ∧ (1 < n)%N.
Proof.
  unfold dups. rewrite elem_of_dup_pairs. destruct (dups_groups ids) as [_ Hg].
  assert (Hocc : ∀ l : list N, occurrences k (tag l) = length (filter (k =.) l)).
  { unfold occurrences. induction l as [|x l IH]; [done|].
    cbn [tag fmap list_fmap]. rewrite !filter_cons. simpl. fold (tag l).
    repeat case_decide; simpl; congruence. }
  assert (Hlen : occurrences k (tag (id_sort ids)) = length (filter (k =.) ids)).
  { rewrite Hocc. by rewrite (sort_perm _ ids). }
  split.
  - intros (g & (t & _ & Hc & _)%Hg & <- & <- & Hn). split; [|done]. by rewrite Hc, Hlen.
  - intros [-> Hn].
    exists (mkGroup k Ambiguous (length (filter (k =.) ids))).
    split_and!; [|done..]. apply Hg. exists (). simpl.
    rewrite Hlen, decide_False by lia. split_and!; [|done..].
    unfold tag. apply list_elem_of_fmap. exists k. split; [done|]. apply elem_of_sort.
    destruct (filter (k =.) ids) as [|x l] eqn:Hf; [simpl in Hn; lia|].
    assert (x ∈ filter (k =.) ids) as [-> ?]%list_elem_of_filter by (rewrite Hf; set_solver).
    done.
Qed.

Lemma dups_sorted ids : StronglySorted (key_le (λ n, [Z.of_N n])) (dups ids).*1.
Proof.
  unfold dups. destruct (dups_groups ids) as [Hs _].
  induction Hs as [|g l Hs IH HF]; [constructor|]. unfold dup_pairs in *. cbn [mbind list_bind].
  unfold dup_pair at 1. case_decide; [|done]. csimpl. constructor; [done|].
  apply Forall_forall. intros k (y & -> & Hin)%list_elem_of_fmap. destruct y as [k n].
  apply elem_of_dup_pairs in Hin as (h & Hh & <- & _).
  rewrite Forall_forall in HF. specialize (HF _ Hh). unfold before in HF.
  unfold key_le, cmp. simpl fst. by rewrite HF.
Qed.

(** The checker within its bound. *)
Lemma check_periods_bounded ps now grace :
  length ps ≤ MAX_PERIODS →
  check_periods ps now grace =
  sort incident_key ((pushed (dups (op_account <$> ps))).2 ++
    (ps ≫= check_one now grace (dups (op_account <$> ps)).*1)).
Proof.
  intros Hlen. unfold check_periods. rewrite decide_False by lia.
  pose proof (dup_loop (op_account <$> ps)) as Hd.
  destruct (foldl _ _ _) as [[d o] r]. cbn [finish] in Hd. rewrite Hd; [done|].
  unfold len. rewrite length_fmap. unfold MAX_PERIODS, usize_max, u64_max in *. lia.
Qed.

Definition copies (ps : list ObservedPeriod) (acct : N) : nat :=
  length (filter (λ p, op_account p = acct) ps).

(** The tick by which the reset of [p] should have happened. *)
Definition deadline (p : ObservedPeriod) (grace : N) : N :=
  saturating_add u64_max
    (N.max (default 0%N (op_reset_requested_since p))
       (start_tick (op_period p) + length_ticks (op_period p))) grace.

(** What the checker is meant to report. *)
Inductive reported (ps : list ObservedPeriod) (now grace : N) : PeriodIncident → Prop :=
  | reported_duplicate p :
      p ∈ ps → 1 < copies ps (op_account p) →
      reported ps now grace
        (mkPeriodIncident DuplicateAccount (op_account p) 1 (N.of_nat (copies ps (op_account p))))
  | reported_clock p :
      p ∈ ps → copies ps (op_account p) = 1 → (now < start_tick (op_period p))%N →
      reported ps now grace
        (mkPeriodIncident ClockBeforeStartIncident (op_account p) (start_tick (op_period p)) now)
  | reported_overdue p :
      p ∈ ps → copies ps (op_account p) = 1 →
      (start_tick (op_period p) + length_ticks (op_period p) ≤ now)%N →
      (deadline p grace < now)%N →
      reported ps now grace
        (mkPeriodIncident PeriodElapsedNoReset (op_account p) (deadline p grace) now).

Lemma copies_ids ps acct : length (filter (acct =.) (op_account <$> ps)) = copies ps acct.
Proof.
  unfold copies. induction ps as [|p ps IH]; [done|]. csimpl. rewrite !filter_cons.
  repeat case_decide; csimpl; congruence.
Qed.

Lemma copies_pos ps p : p ∈ ps → 1 ≤ copies ps (op_account p).
Proof.
  intros Hp. unfold copies.
  assert (p ∈ filter (λ q, op_account q = op_account p) ps) as Hin
    by (by apply list_elem_of_filter).
  destruct (filter _ _); [set_solver|simpl; lia].
Qed.

Lemma check_one_skip ps now grace p :
  p ∈ ps → 1 < copies ps (op_account p) →
  check_one now grace (dups (op_account <$> ps)).*1 p = [].
Proof.
  intros Hp Hc. unfold check_one.
  destruct (proj2 (binary_search_ok (λ n, [Z.of_N n]) (dups (op_account <$> ps)).*1
              [Z.of_N (op_account p)] (dups_sorted _))) as [i ->]; [|done].
  exists (op_account p). split; [|done]. apply list_elem_of_fmap.
  eexists (op_account p, _). split; [done|]. apply elem_of_dups. rewrite copies_ids. split; [done|lia].
Qed.

Lemma check_one_unique ps now grace p i :
  (0 < length_ticks (op_period p))%N → p ∈ ps → copies ps (op_account p) = 1 →
  i ∈ check_one now grace (dups (op_account <$> ps)).*1 p ↔
  ((now < start_tick (op_period p))%N ∧
   i = mkPeriodIncident ClockBeforeStartIncident (op_account p) (start_tick (op_period p)) now) ∨
  ((start_tick (op_period p) + length_ticks (op_period p) ≤ now)%N ∧ (deadline p grace < now)%N ∧
   i = mkPeriodIncident PeriodElapsedNoReset (op_account p) (deadline p grace) now).
Proof.
  intros Hl Hp Hc. unfold check_one.
  destruct (binary_search _ _ _) as [j|e] eqn:Hb.
  { apply binary_search_Ok in Hb as (y & Hy & [= Hk]). apply list_elem_of_lookup_2 in Hy.
    apply list_elem_of_fmap in Hy as ([k n] & -> & Hin). apply elem_of_dups in Hin as [-> Hn].
    simpl in Hk. assert (k = op_account p) as -> by lia. rewrite copies_ids in Hn. lia. }
  destruct (assess_period (op_period p) now) eqn:Ha.
  - unfold assess_period, checked_sub in Ha. repeat (case_decide; try done); simplify_eq.
    split; [set_solver|]. intros [[? _]|[? _]]; lia.
  - apply assess_Elapsed in Ha as [Hle ->]; [|done].
    assert (saturating_sub now (now - (start_tick (op_period p) + length_ticks (op_period p))) =
            start_tick (op_period p) + length_ticks (op_period p))%N as Hend
      by (unfold saturating_sub; lia).
    rewrite Hend. fold (deadline p grace). case_decide.
    + rewrite list_elem_of_singleton. split; [naive_solver|]. intros [[? _]|(_ & _ & ?)]; [lia|done].
    + split; [set_solver|]. intros [[? _]|(_ & ? & _)]; lia.
  - unfold assess_period, checked_sub in Ha. repeat (case_decide; try done); simplify_eq.
    rewrite list_elem_of_singleton. split; [intros ->; left; split; [lia|done]|].
    intros [[_ ->]|[? _]]; [done|lia].
Qed.

(** Within its bound the checker reports exactly the declarative list: one
    [DuplicateAccount] per account listed more than once, with its number of
    copies (its records are excluded from every other check), one clock incident
    per period that starts in the future, and one overdue incident per period
    that ended and whose grace, counted from the later of its end and the first
    request, is exhausted; beyond the bound it reports only that. *)
Theorem check_periods_exact ps now grace i :
  Forall (λ p, (0 < length_ticks (op_period p))%N) ps →
  i ∈ check_periods ps now grace ↔
  if decide (length ps ≤ MAX_PERIODS) then reported ps now grace i
  else i = mkPeriodIncident TooManyPeriods 0 64 (count_u64 (len ps)).
Proof.
  intros Hvalid. case_decide as Hlen.
  2:{ unfold check_periods. rewrite decide_True by lia. by rewrite list_elem_of_singleton. }
  rewrite check_periods_bounded, elem_of_sort, elem_of_app by done. split.
  - intros [Hd|Hc].
    + cbn [pushed snd] in Hd. apply list_elem_of_fmap in Hd as ([k n] & -> & Hin).
      apply elem_of_dups in Hin as [-> Hn]. rewrite copies_ids in *. simpl.
      unfold copies in Hn. destruct (filter _ ps) as [|p l] eqn:Hf; [simpl in Hn; lia|].
      assert (p ∈ filter (λ p, op_account p = k) ps) as [<- Hp]%list_elem_of_filter
        by (rewrite Hf; set_solver).
      unfold dup_incident, count_u64. rewrite decide_True.
      * apply reported_duplicate; [done|]. unfold copies. rewrite Hf. lia.
      * etrans; [|assert (64 ≤ u64_max)%N as H64 by (by vm_compute); exact H64].
        unfold copies. pose proof (length_filter (λ q, op_account q = op_account p) ps).
        unfold MAX_PERIODS in Hlen. lia.
    + apply list_elem_of_bind in Hc as (p & Hc & Hp). rewrite Forall_forall in Hvalid.
      pose proof (copies_pos ps p Hp).
      destruct (decide (copies ps (op_account p) = 1)) as [H1|H1].
      * apply check_one_unique in Hc as [[? ->]|(? & ? & ->)]; auto using reported.
      * rewrite check_one_skip in Hc; [set_solver|done|lia].
  - destruct 1 as [p Hp Hc|p Hp Hc Hlt|p Hp Hc Hle Hdl].
    + left. cbn [pushed snd]. apply list_elem_of_fmap.
      exists (op_account p, N.of_nat (copies ps (op_account p))). split.
      * unfold dup_incident, count_u64. simpl. rewrite decide_True; [done|].
        pose proof (length_filter (λ q, op_account q = op_account p) ps).
        unfold copies, MAX_PERIODS, u64_max in *. lia.
      * apply elem_of_dups. rewrite copies_ids. lia.
    + right. apply list_elem_of_bind. exists p. split; [|done]. rewrite Forall_forall in Hvalid.
      apply check_one_unique; auto.
    + right. apply list_elem_of_bind. exists p. split; [|done]. rewrite Forall_forall in Hvalid.
      apply check_one_unique; auto.
Qed.

(** The checker's output does not depend on the order of its input. *)
Theorem check_periods_order_independent ps ps' now grace :
  ps ≡ₚ ps' → check_periods ps now grace = check_periods ps' now grace.
Proof.
  intros Hp. pose proof (Permutation_length Hp) as Hl.
  destruct (decide (length ps ≤ MAX_PERIODS)) as [Hlen|Hlen].
  - rewrite !check_periods_bounded by lia.
    assert (dups (op_account <$> ps) = dups (op_account <$> ps')) as ->.
    { unfold dups. rewrite (sort_unique _ (op_account <$> ps) (op_account <$> ps'))
        by (by rewrite Hp). by rewrite !length_fmap, Hl. }
    apply sort_unique; [apply _|]. by rewrite Hp.
  - unfold check_periods, len. rewrite Hl. by rewrite !decide_True by lia.
Qed.

Lemma check_periods_witness :
  mkPeriodIncident DuplicateAccount 3 1 2 ∈
  check_periods [mkObservedPeriod 3 (mkPeriod 0 10) None; mkObservedPeriod 3 (mkPeriod 5 10) None] 7 0.
Proof.
  apply check_periods_exact; [by repeat constructor|]. rewrite decide_True by (vm_compute; lia).
  refine (reported_duplicate
    [mkObservedPeriod 3 (mkPeriod 0 10) None; mkObservedPeriod 3 (mkPeriod 5 10) None] 7 0
    (mkObservedPeriod 3 (mkPeriod 0 10) None) _ _); [by left|vm_compute; lia].
Defined.

Lemma check_periods_order_witness :
  check_periods [mkObservedPeriod 3 (mkPeriod 0 10) None; mkObservedPeriod 4 (mkPeriod 50 10) None] 20 0 =
  check_periods [mkObservedPeriod 4 (mkPeriod 50 10) None; mkObservedPeriod 3 (mkPeriod 0 10) None] 20 0.
Proof. apply check_periods_order_independent, perm_swap. Defined.
