(* ===== verification/Reconcile.v ===== *)
(** * Reconcile: observed state against policy, read-only

    Model of [mobile/src/reconcile.rs]: the snapshot, the incidents with their
    derived order, and [reconcile] itself; what it reports is characterised by
    the relation [drift]. *)

From S2P Require Import Prelude Sorting Groups.

Definition MAX_ACCOUNTS : nat := 64.
Definition MAX_PROFILES : nat := 256.
Definition MAX_SESSIONS : nat := 256.

(** ** Data *)

Inductive Standing := Active | Suspended | Closed.

Inductive ProfileState := Created | Disabled | Enabled | Deleted.

Record ObservedAccount := mkObsAccount {
  oa_id : N;
  oa_standing : Standing;
  oa_data_cap_bytes : option N;
  oa_escalate_at_percent : option N;
  oa_used_bytes : N;
  oa_last_used_bytes : option N;
}.

Record ObservedProfile := mkObsProfile {
  obp_slot : N;
  obp_profile : N;
  obp_lifecycle : ProfileState;
  obp_owner : option N;
}.

Record ObservedSession := mkObsSession {
  os_account : N;
  os_slot : N;
  os_profile : N;
  os_roaming : bool;
  os_roaming_allowed : bool;
}.

Record Observed := mkObserved {
  obs_accounts : list ObservedAccount;
  obs_profiles : list ObservedProfile;
  obs_sessions : list ObservedSession;
}.

Inductive IncidentKind :=
  | SnapshotTooLarge
  | DuplicateAccount
  | DuplicateProfile
  | EnabledProfileUnderInactiveAccount
  | EnabledProfileUnbound
  | ProfileOwnerUnknown
  | MultipleEnabledInSlot
  | UsageRegression
  | UsageOverCapNotRestricted
  | AnomalousUsageNoEscalation
  | SessionWithoutEnabledProfile
  | SessionAccountMismatch
  | RoamingSessionNotPermitted.

Inductive Subject :=
  | SubjSnapshot
  | SubjAccount (id : N)
  | SubjSlot (slot : N)
  | SubjProfile (slot profile : N)
  | SubjSession (account slot profile : N).

Inductive Fact :=
  | Absent
  | Number (n : N)
  | FBool (b : bool)
  | FStanding (s : Standing)
  | Lifecycle (l : ProfileState)
  | Owner (o : option N)
  | AnyOwner
  | Percent (p : N)
  | UsageOfCap (used cap : N).

Record Incident := mkIncident {
  kind : IncidentKind;
  subject : Subject;
  expected : Fact;
  observed : Fact;
}.

#[global] Instance Standing_eq_dec : EqDecision Standing.
Proof. solve_decision. Defined.
#[global] Instance ProfileState_eq_dec : EqDecision ProfileState.
Proof. solve_decision. Defined.
#[global] Instance ObservedAccount_eq_dec : EqDecision ObservedAccount.
Proof. solve_decision. Defined.
#[global] Instance ObservedProfile_eq_dec : EqDecision ObservedProfile.
Proof. solve_decision. Defined.
#[global] Instance ObservedSession_eq_dec : EqDecision ObservedSession.
Proof. solve_decision. Defined.
#[global] Instance IncidentKind_eq_dec : EqDecision IncidentKind.
Proof. solve_decision. Defined.
#[global] Instance Subject_eq_dec : EqDecision Subject.
Proof. solve_decision. Defined.
#[global] Instance Fact_eq_dec : EqDecision Fact.
Proof. solve_decision. Defined.
#[global] Instance Incident_eq_dec : EqDecision Incident.
Proof. solve_decision. Defined.

(** ** The derived order: variant index first, then the fields *)

Definition kind_rank (k : IncidentKind) : Z :=
  match k with
  | SnapshotTooLarge => 0 | DuplicateAccount => 1 | DuplicateProfile => 2
  | EnabledProfileUnderInactiveAccount => 3 | EnabledProfileUnbound => 4
  | ProfileOwnerUnknown => 5 | MultipleEnabledInSlot => 6 | UsageRegression => 7
  | UsageOverCapNotRestricted => 8 | AnomalousUsageNoEscalation => 9
  | SessionWithoutEnabledProfile => 10 | SessionAccountMismatch => 11
  | RoamingSessionNotPermitted => 12
  end.

Definition standing_rank (s : Standing) : Z :=
  match s with Active => 0 | Suspended => 1 | Closed => 2 end.

Definition lifecycle_rank (l : ProfileState) : Z :=
  match l with Created => 0 | Disabled => 1 | Enabled => 2 | Deleted => 3 end.

Definition subject_key (s : Subject) : list Z :=
  match s with
  | SubjSnapshot => [0%Z]
  | SubjAccount id => [1%Z; Z.of_N id]
  | SubjSlot slot => [2%Z; Z.of_N slot]
  | SubjProfile slot profile => [3%Z; Z.of_N slot; Z.of_N profile]
  | SubjSession account slot profile => [4%Z; Z.of_N account; Z.of_N slot; Z.of_N profile]
  end.

Definition fact_key (f : Fact) : list Z :=
  match f with
  | Absent => [0%Z]
  | Number n => [1%Z; Z.of_N n]
  | FBool b => [2%Z; Z.b2z b]
  | FStanding s => [3%Z; standing_rank s]
  | Lifecycle l => [4%Z; lifecycle_rank l]
  | Owner None => [5%Z; 0%Z]
  | Owner (Some id) => [5%Z; 1%Z; Z.of_N id]
  | AnyOwner => [6%Z]
  | Percent p => [7%Z; Z.of_N p]
  | UsageOfCap used cap => [8%Z; Z.of_N used; Z.of_N cap]
  end.

Definition incident_key (i : Incident) : list Z :=
  kind_rank (kind i) ::
  subject_key (subject i) ++ fact_key (expected i) ++ fact_key (observed i).

(** ** The reconciler *)

Definition to_u64 (n : nat) : N :=
  if decide (N.of_nat n ≤ u64_max)%N then N.of_nat n else u64_max.

(** [u128] products: reduced modulo [2^128] as a release build would. *)
Definition wrap_u128 (n : N) : N := (n mod (u128_max + 1))%N.

Definition reached_percent (used cap percent : N) : bool :=
  bool_decide (wrap_u128 (cap * percent) ≤ wrap_u128 (used * 100))%N.

Definition account_key (n : N) : list Z := [Z.of_N n].
Definition profile_key (k : N * N) : list Z := [Z.of_N k.1; Z.of_N k.2].

Definition group_accounts (o : Observed) : list (Group N ObservedAccount) :=
  group_by_key account_key (obs_accounts o) oa_id.

(** [|p| (p.slot, p.profile)] *)
Definition prof_key (p : ObservedProfile) : N * N := (obp_slot p, obp_profile p).

Definition group_profiles (o : Observed) : list (Group (N * N) ObservedProfile) :=
  group_by_key profile_key (obs_profiles o) prof_key.

(** Bounds: one incident per collection that exceeds its own. *)
Definition check_bounds (o : Observed) : list Incident :=
  [(length (obs_accounts o), MAX_ACCOUNTS);
   (length (obs_profiles o), MAX_PROFILES);
   (length (obs_sessions o), MAX_SESSIONS)] ≫= λ '(n, max),
  if decide (max < n)
  then [mkIncident SnapshotTooLarge SubjSnapshot (Number (to_u64 max)) (Number (to_u64 n))]
  else [].

Definition check_dup_account (g : Group N ObservedAccount) : list Incident :=
  if decide (1 < g_count g)
  then [mkIncident DuplicateAccount (SubjAccount (g_key g)) (Number 1)
          (Number (to_u64 (g_count g)))]
  else [].

Definition check_dup_profile (g : Group (N * N) ObservedProfile) : list Incident :=
  if decide (1 < g_count g)
  then [mkIncident DuplicateProfile (SubjProfile (g_key g).1 (g_key g).2) (Number 1)
          (Number (to_u64 (g_count g)))]
  else [].

Definition check_profile (accounts : list (Group N ObservedAccount))
    (g : Group (N * N) ObservedProfile) : list Incident :=
  match g_entry g with
  | Ambiguous => []
  | Unique p =>
      let subject := SubjProfile (obp_slot p) (obp_profile p) in
      let enabled := bool_decide (obp_lifecycle p = Enabled) in
      match obp_owner p with
      | None =>
          if enabled then [mkIncident EnabledProfileUnbound subject AnyOwner (Owner None)]
          else []
      | Some owner =>
          match find account_key accounts owner with
          | None => [mkIncident ProfileOwnerUnknown subject (Owner (Some owner)) Absent]
          | Some (Unique a) =>
              if enabled && bool_decide (oa_standing a ≠ Active)
              then [mkIncident EnabledProfileUnderInactiveAccount subject
                      (FStanding Active) (FStanding (oa_standing a))]
              else []
          | Some Ambiguous => []
          end
      end
  end.

Definition is_enabled (g : Group (N * N) ObservedProfile) : bool :=
  match g_entry g with
  | Unique p => bool_decide (obp_lifecycle p = Enabled)
  | Ambiguous => false
  end.

(** The inner loop over one slot's groups: the count and what follows. *)
Fixpoint slot_run (slot enabled : N) (gs : list (Group (N * N) ObservedProfile))
    : N * list (Group (N * N) ObservedProfile) :=
  match gs with
  | [] => (enabled, [])
  | g :: gs' =>
      if decide ((g_key g).1 ≠ slot) then (enabled, gs)
      else slot_run slot (if is_enabled g then saturating_add u64_max enabled 1 else enabled) gs'
  end.

(** The outer loop; the first group of every turn is consumed. *)
Fixpoint check_slots (fuel : nat) (gs : list (Group (N * N) ObservedProfile))
    : list Incident :=
  match fuel, gs with
  | S fuel, first :: _ =>
      let slot := (g_key first).1 in
      let '(enabled, rest) := slot_run slot 0 gs in
      (if decide (1 < enabled)%N
       then [mkIncident MultipleEnabledInSlot (SubjSlot slot) (Number 1) (Number enabled)]
       else []) ++ check_slots fuel rest
  | _, _ => []
  end.

Definition check_account (sessions : list ObservedSession) (g : Group N ObservedAccount)
    : list Incident :=
  match g_entry g with
  | Ambiguous => []
  | Unique a =>
      let subject := SubjAccount (oa_id a) in
      (match oa_last_used_bytes a with
       | Some last =>
           if decide (oa_used_bytes a < last)%N
           then [mkIncident UsageRegression subject (Number last) (Number (oa_used_bytes a))]
           else []
       | None => []
       end) ++
      match oa_data_cap_bytes a with
      | None => []
      | Some cap =>
          let active := bool_decide (oa_standing a = Active) in
          let usage := UsageOfCap (oa_used_bytes a) cap in
          (if active && bool_decide (cap ≤ oa_used_bytes a)%N &&
              bool_decide (Exists (λ s, os_account s = oa_id a) sessions)
           then [mkIncident UsageOverCapNotRestricted subject (FStanding Suspended) usage]
           else []) ++
          match oa_escalate_at_percent a with
          | Some percent =>
              if active && reached_percent (oa_used_bytes a) cap percent
              then [mkIncident AnomalousUsageNoEscalation subject (Percent percent) usage]
              else []
          | None => []
          end
      end
  end.

Definition check_session (profiles : list (Group (N * N) ObservedProfile))
    (s : ObservedSession) : list Incident :=
  let subject := SubjSession (os_account s) (os_slot s) (os_profile s) in
  (match find profile_key profiles (os_slot s, os_profile s) with
   | None =>
       [mkIncident SessionWithoutEnabledProfile subject (Lifecycle Enabled) Absent]
   | Some (Unique p) =>
       (if decide (obp_lifecycle p ≠ Enabled)
        then [mkIncident SessionWithoutEnabledProfile subject (Lifecycle Enabled)
                (Lifecycle (obp_lifecycle p))]
        else []) ++
       (if decide (obp_owner p ≠ Some (os_account s))
        then [mkIncident SessionAccountMismatch subject (Owner (Some (os_account s)))
                (Owner (obp_owner p))]
        else [])
   | Some Ambiguous => []
   end) ++
  (if os_roaming s && negb (os_roaming_allowed s)
   then [mkIncident RoamingSessionNotPermitted subject (FBool false) (FBool true)]
   else []).

Definition reconcile (o : Observed) : list Incident :=
  let out := check_bounds o in
  if decide (out ≠ []) then sort incident_key out else
  let accounts := group_accounts o in
  let profiles := group_profiles o in
  sort incident_key
    ((accounts ≫= check_dup_account) ++
     (profiles ≫= check_dup_profile) ++
     (profiles ≫= check_profile accounts) ++
     check_slots (length profiles) profiles ++
     (accounts ≫= check_account (obs_sessions o)) ++
     (obs_sessions o ≫= check_session profiles)).

(** ** The order is total on incidents *)

Lemma subject_key_app s s' r r' :
  subject_key s ++ r = subject_key s' ++ r' → s = s' ∧ r = r'.
Proof.
  destruct s, s'; simpl; try done; intros; simplify_eq; done.
Qed.

Lemma fact_key_app f f' r r' : fact_key f ++ r = fact_key f' ++ r' → f = f' ∧ r = r'.
Proof.
  destruct f as [| |b|s|l|[?|]| | |], f' as [| |b'|s'|l'|[?|]| | |]; simpl; try done;
    intros; simplify_eq; try done.
  - by destruct b, b'.
  - by destruct s, s'.
  - by destruct l, l'.
Qed.

#[global] Instance incident_key_inj : Inj (=) (=) incident_key.
Proof.
  intros [k s e o] [k' s' e' o']. unfold incident_key. simpl. intros [= Hk H].
  apply subject_key_app in H as [-> H]. apply fact_key_app in H as [-> H].
  rewrite <-(app_nil_r (fact_key o)), <-(app_nil_r (fact_key o')) in H.
  apply fact_key_app in H as [-> _]. f_equal. by destruct k, k'.
Qed.

#[global] Instance account_key_inj : Inj (=) (=) account_key.
Proof. intros x y [= H]. lia. Qed.

#[global] Instance profile_key_inj : Inj (=) (=) profile_key.
Proof. intros [x1 x2] [y1 y2] [= H1 H2]. simpl in *. f_equal; lia. Qed.

(** Account checks only ask whether some session names the account. *)
#[global] Instance check_account_proper : Proper ((≡ₚ) ==> (=) ==> (=)) check_account.
Proof.
  intros s s' Hs g ? <-. unfold check_account. destruct (g_entry g) as [a|]; [|done].
  assert (bool_decide (Exists (λ s, os_account s = oa_id a) s) =
          bool_decide (Exists (λ s, os_account s = oa_id a) s')) as ->; [|done].
  apply bool_decide_ext. by rewrite Hs.
Qed.

(** The incidents do not depend on the order in which the snapshot lists its
    accounts, profiles and sessions. *)
Theorem reconcile_order_independent a p s a' p' s' :
  a ≡ₚ a' → p ≡ₚ p' → s ≡ₚ s' →
  reconcile (mkObserved a p s) = reconcile (mkObserved a' p' s').
Proof.
  intros Ha Hp Hs. unfold reconcile.
  assert (check_bounds (mkObserved a p s) = check_bounds (mkObserved a' p' s')) as ->.
  { unfold check_bounds. cbn [obs_accounts obs_profiles obs_sessions].
    by rewrite (Permutation_length Ha), (Permutation_length Hp), (Permutation_length Hs). }
  case_decide; [done|]. unfold group_accounts, group_profiles.
  cbn [obs_accounts obs_profiles obs_sessions].
  rewrite (group_by_key_perm _ a a' _ Ha), (group_by_key_perm _ p p' _ Hp).
  apply sort_unique; [apply _|]. do 4 (apply Permutation_app_head).
  apply Permutation_app; [|by rewrite Hs].
  apply reflexive_eq, list_bind_ext; [|done]. intros g. by rewrite Hs.
Qed.

(** ** What is reported *)

Definition the_account (o : Observed) : ObservedAccount → Prop :=
  the_record (obs_accounts o) oa_id.
Definition the_profile (o : Observed) : ObservedProfile → Prop :=
  the_record (obs_profiles o) prof_key.

(** Unambiguous [Enabled] profiles of a slot. *)
Definition enabled_in (o : Observed) (slot : N) : N :=
  len (filter (λ p, copies (obs_profiles o) prof_key (prof_key p) = 1 ∧
                    obp_slot p = slot ∧ obp_lifecycle p = Enabled) (obs_profiles o)).

Abbreviation session_subject s := (SubjSession (os_account s) (os_slot s) (os_profile s)).
Abbreviation profile_subject p := (SubjProfile (obp_slot p) (obp_profile p)).

(** The documented findings, one constructor per cause. *)
Inductive drift (o : Observed) : Incident → Prop :=
  | drift_dup_account a :
      a ∈ obs_accounts o → 1 < copies (obs_accounts o) oa_id (oa_id a) →
      drift o (mkIncident DuplicateAccount (SubjAccount (oa_id a)) (Number 1)
                 (Number (N.of_nat (copies (obs_accounts o) oa_id (oa_id a)))))
  | drift_dup_profile p :
      p ∈ obs_profiles o → 1 < copies (obs_profiles o) prof_key (prof_key p) →
      drift o (mkIncident DuplicateProfile (profile_subject p) (Number 1)
                 (Number (N.of_nat (copies (obs_profiles o) prof_key (prof_key p)))))
  | drift_unbound p :
      the_profile o p → obp_lifecycle p = Enabled → obp_owner p = None →
      drift o (mkIncident EnabledProfileUnbound (profile_subject p) AnyOwner (Owner None))
  | drift_owner_unknown p w :
      the_profile o p → obp_owner p = Some w → (∀ a, a ∈ obs_accounts o → oa_id a ≠ w) →
      drift o (mkIncident ProfileOwnerUnknown (profile_subject p) (Owner (Some w)) Absent)
  | drift_inactive p a :
      the_profile o p → obp_lifecycle p = Enabled → obp_owner p = Some (oa_id a) →
      the_account o a → oa_standing a ≠ Active →
      drift o (mkIncident EnabledProfileUnderInactiveAccount (profile_subject p)
                 (FStanding Active) (FStanding (oa_standing a)))
  | drift_multiple slot :
      (1 < enabled_in o slot)%N →
      drift o (mkIncident MultipleEnabledInSlot (SubjSlot slot) (Number 1)
                 (Number (enabled_in o slot)))
  | drift_regression a last :
      the_account o a → oa_last_used_bytes a = Some last → (oa_used_bytes a < last)%N →
      drift o (mkIncident UsageRegression (SubjAccount (oa_id a)) (Number last)
                 (Number (oa_used_bytes a)))
  | drift_over_cap a cap s :
      the_account o a → oa_standing a = Active → oa_data_cap_bytes a = Some cap →
      (cap ≤ oa_used_bytes a)%N → s ∈ obs_sessions o → os_account s = oa_id a →
      drift o (mkIncident UsageOverCapNotRestricted (SubjAccount (oa_id a))
                 (FStanding Suspended) (UsageOfCap (oa_used_bytes a) cap))
  | drift_anomalous a cap pct :
      the_account o a → oa_standing a = Active → oa_data_cap_bytes a = Some cap →
      oa_escalate_at_percent a = Some pct → (cap * pct ≤ oa_used_bytes a * 100)%N →
      drift o (mkIncident AnomalousUsageNoEscalation (SubjAccount (oa_id a)) (Percent pct)
                 (UsageOfCap (oa_used_bytes a) cap))
  | drift_session_absent s :
      s ∈ obs_sessions o → (∀ p, p ∈ obs_profiles o → prof_key p ≠ (os_slot s, os_profile s)) →
      drift o (mkIncident SessionWithoutEnabledProfile (session_subject s) (Lifecycle Enabled)
                 Absent)
  | drift_session_state s p :
      s ∈ obs_sessions o → the_profile o p → prof_key p = (os_slot s, os_profile s) →
      obp_lifecycle p ≠ Enabled →
      drift o (mkIncident SessionWithoutEnabledProfile (session_subject s) (Lifecycle Enabled)
                 (Lifecycle (obp_lifecycle p)))
  | drift_session_owner s p :
      s ∈ obs_sessions o → the_profile o p → prof_key p = (os_slot s, os_profile s) →
      obp_owner p ≠ Some (os_account s) →
      drift o (mkIncident SessionAccountMismatch (session_subject s)
                 (Owner (Some (os_account s))) (Owner (obp_owner p)))
  | drift_session_roaming s :
      s ∈ obs_sessions o → os_roaming s = true → os_roaming_allowed s = false →
      drift o (mkIncident RoamingSessionNotPermitted (session_subject s) (FBool false)
                 (FBool true)).

(** Field widths of a snapshot. *)
Record widths (o : Observed) : Prop := mk_widths {
  w_used : ∀ a, a ∈ obs_accounts o → (oa_used_bytes a ≤ u64_max)%N;
  w_cap : ∀ a c, a ∈ obs_accounts o → oa_data_cap_bytes a = Some c → (c ≤ u64_max)%N;
  w_pct : ∀ a p, a ∈ obs_accounts o → oa_escalate_at_percent a = Some p → (p ≤ u16_max)%N;
}.

Definition within_bounds (o : Observed) : Prop :=
  length (obs_accounts o) ≤ MAX_ACCOUNTS ∧ length (obs_profiles o) ≤ MAX_PROFILES ∧
  length (obs_sessions o) ≤ MAX_SESSIONS.

Lemma reached_percent_spec used cap pct :
  (used ≤ u64_max)%N → (cap ≤ u64_max)%N → (pct ≤ u16_max)%N →
  reached_percent used cap pct = true ↔ (cap * pct ≤ used * 100)%N.
Proof.
  intros Hu Hc Hp. unfold reached_percent, wrap_u128.
  assert (used * 100 < u128_max + 1)%N by (unfold u128_max, u64_max in *; lia).
  assert (cap * pct < u128_max + 1)%N.
  { eapply N.le_lt_trans; [apply N.mul_le_mono; eassumption|]. by vm_compute. }
  rewrite !N.mod_small by done. apply bool_decide_eq_true.
Qed.

(** *** The loop over slots *)

Section slots.
Abbreviation G := (Group (N * N) ObservedProfile).

Definition slot_le (g h : G) : Prop := ((g_key g).1 ≤ (g_key h).1)%N.

Definition slot_count (slot : N) (gs : list G) : N :=
  len (filter (λ g, (g_key g).1 = slot ∧ is_enabled g = true) gs).

Lemma slot_count_cons slot g gs :
  slot_count slot (g :: gs) =
  ((if decide ((g_key g).1 = slot ∧ is_enabled g = true) then 1 else 0) +
   slot_count slot gs)%N.
Proof. unfold slot_count, len. rewrite filter_cons. case_decide; simpl; lia. Qed.

Lemma slot_count_le slot gs : (slot_count slot gs ≤ len gs)%N.
Proof. unfold slot_count, len. pose proof (length_filter (λ g, (g_key g).1 = slot ∧ is_enabled g = true) gs). lia. Qed.

Lemma slot_count_none slot gs :
  Forall (λ g, (slot < (g_key g).1)%N) gs → slot_count slot gs = 0%N.
Proof.
  induction 1 as [|g gs Hg _ IH]; [done|]. rewrite slot_count_cons, IH.
  rewrite decide_False; [done|]. intros [? _]. lia.
Qed.

(** The run returns the slot's count and a suffix with larger slots only. *)
Lemma slot_run_spec slot e gs n rest :
  StronglySorted slot_le gs → Forall (λ g, (slot ≤ (g_key g).1)%N) gs →
  (e + len gs ≤ u64_max)%N → slot_run slot e gs = (n, rest) →
  n = (e + slot_count slot gs)%N ∧ Forall (λ g, (slot < (g_key g).1)%N) rest ∧
  StronglySorted slot_le rest ∧ length rest ≤ length gs ∧
  (∀ s, s ≠ slot → slot_count s rest = slot_count s gs).
Proof.
  intros Hs. revert e. induction Hs as [|g gs Hs IH HF]; intros e Hge He H; simpl in H.
  { simplify_eq. unfold slot_count, len. simpl. split_and!; [lia|done|constructor|done..]. }
  apply Forall_cons in Hge as [Hg Hge]. case_decide as Hne.
  - simplify_eq. assert (Forall (λ h, (slot < (g_key h).1)%N) (g :: gs)) as Hall.
    { constructor; [lia|]. eapply Forall_impl; [exact HF|]. unfold slot_le. simpl. lia. }
    rewrite slot_count_none by done. split_and!; [lia|done|by constructor|done..].
  - unfold len in He. cbn [length] in He.
    assert ((if is_enabled g then saturating_add u64_max e 1 else e) =
            e + if is_enabled g then 1 else 0)%N as Hen.
    { unfold saturating_add. destruct (is_enabled g); lia. }
    rewrite Hen in H. apply IH in H as (-> & Hr & Hsr & Hlr & Hc);
      [|done|unfold len; destruct (is_enabled g); lia].
    rewrite slot_count_cons. split_and!; [|done|done|simpl; lia|].
    + destruct (is_enabled g); [rewrite decide_True by done; lia|].
      rewrite decide_False by naive_solver. lia.
    + intros s Hs'. rewrite Hc, slot_count_cons, decide_False by naive_solver. lia.
Qed.

Lemma check_slots_spec fuel gs i :
  StronglySorted slot_le gs → length gs ≤ fuel → (len gs ≤ u64_max)%N →
  i ∈ check_slots fuel gs ↔
  ∃ slot, (1 < slot_count slot gs)%N ∧
    i = mkIncident MultipleEnabledInSlot (SubjSlot slot) (Number 1)
          (Number (slot_count slot gs)).
Proof.
  revert gs. induction fuel as [|fuel IH]; intros gs Hs Hf Hl.
  { destruct gs; [|simpl in Hf; lia]. simpl. split; [by intros ?%not_elem_of_nil|].
    intros (s & Hc & _). done. }
  destruct gs as [|g gs]; [simpl; split; [by intros ?%not_elem_of_nil|];
    intros (s & Hc & _); done|].
  cbn [check_slots]. destruct (slot_run _ 0 _) as [n rest] eqn:Hr.
  assert (Forall (λ h, ((g_key g).1 ≤ (g_key h).1)%N) (g :: gs)) as Hge.
  { inversion Hs as [|?? _ HF]; subst. constructor; [lia|].
    eapply Forall_impl; [exact HF|]. done. }
  assert (length rest < length (g :: gs)) as Hlt.
  { cbn [slot_run] in Hr. rewrite decide_False in Hr by naive_solver.
    apply slot_run_spec in Hr as (_ & _ & _ & Hlr & _); [simpl; lia|..].
    - by inversion Hs.
    - by apply Forall_cons in Hge as [_ ?].
    - unfold len, saturating_add in *. simpl in Hl. destruct (is_enabled g); lia. }
  apply slot_run_spec in Hr as (-> & Hgt & Hsr & _ & Hc); [|done..].
  rewrite N.add_0_l, elem_of_app, (IH rest); [|done|simpl in *; lia|unfold len in *; lia].
  pose proof (slot_count_none _ _ Hgt) as Hzero. split.
  - intros [Hin|(s & H1 & ->)].
    + case_decide; [|by apply not_elem_of_nil in Hin].
      apply list_elem_of_singleton in Hin as ->. eauto.
    + exists s. assert (s ≠ (g_key g).1) by (intros ->; lia). by rewrite <-Hc.
  - intros (s & H1 & ->). destruct (decide (s = (g_key g).1)) as [->|Hne].
    + left. rewrite decide_True by done. by apply list_elem_of_singleton.
    + right. exists s. by rewrite Hc.
Qed.
End slots.

Lemma slot_count_groups o slot :
  slot_count slot (group_profiles o) = enabled_in o slot.
Proof.
  unfold slot_count, enabled_in, group_profiles, len. f_equal.
  rewrite <-(count_entries profile_key (obs_profiles o) prof_key
               (λ p, obp_slot p = slot ∧ obp_lifecycle p = Enabled)).
  f_equal. apply filter_iff_in. intros g Hg. unfold is_enabled, entry_sat.
  destruct (g_entry g) as [p|] eqn:He; [|split; [naive_solver|by intros [? ?]]].
  destruct (elem_of_unique profile_key _ _ _ _ Hg He) as [-> _]. unfold prof_key. simpl.
  rewrite bool_decide_eq_true. case_decide; split; try naive_solver.
Qed.

Lemma group_profiles_slot_le o : StronglySorted slot_le (group_profiles o).
Proof.
  pose proof (group_by_key_sorted profile_key (obs_profiles o) prof_key) as Hs.
  unfold group_profiles. induction Hs as [|g gs Hs IH HF]; constructor; [done|].
  eapply Forall_impl; [exact HF|]. intros h Hb. unfold before, slot_le, profile_key in *.
  simpl in Hb. destruct (Z.compare_spec (Z.of_N (g_key g).1) (Z.of_N (g_key h).1)); [lia..|done].
Qed.

(** *** Each check against its causes *)

Ltac nil_solver :=
  match goal with H : _ ∈ [] |- _ => by apply not_elem_of_nil in H end.

(** A check that reports [i] under a condition. *)
Lemma elem_of_when {A} (P : Prop) `{Decision P} (i j : A) :
  i ∈ (if decide P then [j] else []) ↔ P ∧ i = j.
Proof. case_decide; [rewrite list_elem_of_singleton; naive_solver|]. split; [by intros ?%not_elem_of_nil|naive_solver]. Qed.

Lemma elem_of_whenb {A} (b : bool) (i j : A) :
  i ∈ (if b then [j] else []) ↔ b = true ∧ i = j.
Proof. destruct b; [rewrite list_elem_of_singleton; naive_solver|]. split; [by intros ?%not_elem_of_nil|naive_solver]. Qed.

Lemma to_u64_small n : n ≤ 256 → to_u64 n = N.of_nat n.
Proof.
  intros Hn. unfold to_u64. rewrite decide_True; [done|]. unfold u64_max. lia.
Qed.

Lemma copies_le {K T} `{EqDecision K} (items : list T) (key : T → K) k :
  copies items key k ≤ length items.
Proof. apply length_filter. Qed.

Lemma check_profile_drift o p i :
  the_profile o p →
  i ∈ check_profile (group_accounts o) (mkGroup (prof_key p) (Unique p) 1) → drift o i.
Proof.
  intros Hp. unfold check_profile. cbn [g_entry].
  destruct (obp_owner p) as [w|] eqn:Hw.
  - destruct (find account_key (group_accounts o) w) as [[a|]|] eqn:Hf.
    + apply find_unique in Hf as [Ha <-]; [|apply _].
      rewrite elem_of_whenb, andb_true_iff, !bool_decide_eq_true.
      intros [[He Hs] ->]. by eapply drift_inactive.
    + intros ?. nil_solver.
    + rewrite list_elem_of_singleton. intros ->. eapply drift_owner_unknown; [done..|].
      by apply (find_None account_key).
  - rewrite elem_of_whenb, bool_decide_eq_true. intros [He ->]. by apply drift_unbound.
Qed.

Lemma check_account_drift o a i :
  widths o → the_account o a →
  i ∈ check_account (obs_sessions o) (mkGroup (oa_id a) (Unique a) 1) → drift o i.
Proof.
  intros Hw Ha. unfold check_account. cbn [g_entry]. rewrite elem_of_app. intros [Hi|Hi].
  - destruct (oa_last_used_bytes a) as [last|] eqn:Hl; [|nil_solver].
    apply elem_of_when in Hi as [Hlt ->]. by eapply drift_regression.
  - destruct (oa_data_cap_bytes a) as [cap|] eqn:Hcap; [|nil_solver].
    apply elem_of_app in Hi as [Hi|Hi].
    + rewrite elem_of_whenb, !andb_true_iff, !bool_decide_eq_true, Exists_exists in Hi.
      destruct Hi as [[[Hs Hle] (s & Hin & Hid)] ->]. by eapply drift_over_cap.
    + destruct (oa_escalate_at_percent a) as [pct|] eqn:Hpct; [|nil_solver].
      rewrite elem_of_whenb, andb_true_iff, bool_decide_eq_true in Hi.
      destruct Hi as [[Hs Hr] ->]. destruct Ha as [Hin Hc].
      apply reached_percent_spec in Hr; [|by eapply Hw..]. by eapply drift_anomalous.
Qed.

Lemma check_session_drift o s i :
  s ∈ obs_sessions o → i ∈ check_session (group_profiles o) s → drift o i.
Proof.
  intros Hs. unfold check_session. rewrite elem_of_app. intros [Hi|Hi].
  - destruct (find profile_key _ _) as [[p|]|] eqn:Hf; [|nil_solver|].
    + apply find_unique in Hf as [Hp Hk]; [|apply _]. rewrite elem_of_app, !elem_of_when in Hi.
      destruct Hi as [[H ->]|[H ->]];
        [by eapply drift_session_state|by eapply drift_session_owner].
    + apply list_elem_of_singleton in Hi as ->. apply drift_session_absent; [done|].
      by apply (find_None profile_key).
  - rewrite elem_of_whenb, andb_true_iff, negb_true_iff in Hi. destruct Hi as [[??] ->].
    by apply drift_session_roaming.
Qed.

(** The pieces of the result, in the order they are pushed. *)
Definition checks (o : Observed) : list Incident :=
  let accounts := group_accounts o in
  let profiles := group_profiles o in
  (accounts ≫= check_dup_account) ++
  (profiles ≫= check_dup_profile) ++
  (profiles ≫= check_profile accounts) ++
  check_slots (length profiles) profiles ++
  (accounts ≫= check_account (obs_sessions o)) ++
  (obs_sessions o ≫= check_session profiles).

Lemma reconcile_in_bounds o :
  within_bounds o → reconcile o = sort incident_key (checks o).
Proof.
  intros (Ha & Hp & Hs). unfold reconcile.
  assert (check_bounds o = []) as ->.
  { unfold check_bounds. cbn [mbind list_bind]. by rewrite !decide_False by lia. }
  by rewrite decide_False by naive_solver.
Qed.

Lemma elem_of_check_slots o i :
  length (obs_profiles o) ≤ MAX_PROFILES →
  i ∈ check_slots (length (group_profiles o)) (group_profiles o) ↔
  ∃ slot, (1 < enabled_in o slot)%N ∧
    i = mkIncident MultipleEnabledInSlot (SubjSlot slot) (Number 1) (Number (enabled_in o slot)).
Proof.
  intros Hp. rewrite check_slots_spec; [by setoid_rewrite slot_count_groups
    |apply group_profiles_slot_le|done|].
  pose proof (length_group_by_key profile_key (obs_profiles o) prof_key).
  unfold len, group_profiles, MAX_PROFILES, u64_max in *. lia.
Qed.

(** Membership in each piece. *)
Lemma elem_of_dup_accounts o i :
  length (obs_accounts o) ≤ MAX_ACCOUNTS →
  i ∈ group_accounts o ≫= check_dup_account ↔
  ∃ a, a ∈ obs_accounts o ∧ 1 < copies (obs_accounts o) oa_id (oa_id a) ∧
    i = mkIncident DuplicateAccount (SubjAccount (oa_id a)) (Number 1)
          (Number (N.of_nat (copies (obs_accounts o) oa_id (oa_id a)))).
Proof.
  intros Hl. unfold group_accounts. rewrite (elem_of_bind_dups account_key _ _
    (λ k n, mkIncident DuplicateAccount (SubjAccount k) (Number 1) (Number (to_u64 n)))).
  unfold MAX_ACCOUNTS in Hl. assert (∀ k, copies (obs_accounts o) oa_id k ≤ 256) as Hc.
  { intros k. etrans; [apply copies_le|lia]. }
  setoid_rewrite to_u64_small; [done|apply Hc].
Qed.

Lemma elem_of_dup_profiles o i :
  length (obs_profiles o) ≤ MAX_PROFILES →
  i ∈ group_profiles o ≫= check_dup_profile ↔
  ∃ p, p ∈ obs_profiles o ∧ 1 < copies (obs_profiles o) prof_key (prof_key p) ∧
    i = mkIncident DuplicateProfile (profile_subject p) (Number 1)
          (Number (N.of_nat (copies (obs_profiles o) prof_key (prof_key p)))).
Proof.
  intros Hl. unfold group_profiles. rewrite (elem_of_bind_dups profile_key _ _
    (λ k n, mkIncident DuplicateProfile (SubjProfile k.1 k.2) (Number 1) (Number (to_u64 n)))).
  unfold MAX_PROFILES in Hl. assert (∀ k, copies (obs_profiles o) prof_key k ≤ 256) as Hc.
  { intros k. etrans; [apply copies_le|lia]. }
  setoid_rewrite to_u64_small; [done|apply Hc].
Qed.

Lemma elem_of_profile_checks o i :
  i ∈ group_profiles o ≫= check_profile (group_accounts o) ↔
  ∃ p, the_profile o p ∧
    i ∈ check_profile (group_accounts o) (mkGroup (prof_key p) (Unique p) 1).
Proof. apply elem_of_bind_groups; [apply _|]. intros g. by destruct g as [k [p|] n]. Qed.

Lemma elem_of_account_checks o i :
  i ∈ group_accounts o ≫= check_account (obs_sessions o) ↔
  ∃ a, the_account o a ∧
    i ∈ check_account (obs_sessions o) (mkGroup (oa_id a) (Unique a) 1).
Proof. apply elem_of_bind_groups; [apply _|]. intros g. by destruct g as [k [p|] n]. Qed.

Lemma elem_of_checks o i :
  within_bounds o →
  i ∈ checks o ↔
  (∃ a, a ∈ obs_accounts o ∧ 1 < copies (obs_accounts o) oa_id (oa_id a) ∧
    i = mkIncident DuplicateAccount (SubjAccount (oa_id a)) (Number 1)
          (Number (N.of_nat (copies (obs_accounts o) oa_id (oa_id a))))) ∨
  (∃ p, p ∈ obs_profiles o ∧ 1 < copies (obs_profiles o) prof_key (prof_key p) ∧
    i = mkIncident DuplicateProfile (profile_subject p) (Number 1)
          (Number (N.of_nat (copies (obs_profiles o) prof_key (prof_key p))))) ∨
  (∃ p, the_profile o p ∧
    i ∈ check_profile (group_accounts o) (mkGroup (prof_key p) (Unique p) 1)) ∨
  (∃ slot, (1 < enabled_in o slot)%N ∧
    i = mkIncident MultipleEnabledInSlot (SubjSlot slot) (Number 1)
          (Number (enabled_in o slot))) ∨
  (∃ a, the_account o a ∧
    i ∈ check_account (obs_sessions o) (mkGroup (oa_id a) (Unique a) 1)) ∨
  (∃ s, s ∈ obs_sessions o ∧ i ∈ check_session (group_profiles o) s).
Proof.
  intros (Ha & Hp & _). unfold checks. rewrite !elem_of_app, elem_of_dup_accounts,
    elem_of_dup_profiles, elem_of_profile_checks, elem_of_check_slots, elem_of_account_checks,
    list_elem_of_bind by done.
  by setoid_rewrite (comm and (i ∈ check_session _ _)).
Qed.

Lemma drift_checks o i : widths o → within_bounds o → drift o i → i ∈ checks o.
Proof.
  intros Hw Hb Hd. apply elem_of_checks; [done|].
  destruct Hd as [a Ha Hc|p Hp Hc|p Hp He Ho|p w Hp Ho Hn|p a Hp He Ho Ha Hs|slot Hm
    |a last Ha Hl Hlt|a cap s Ha Hs Hcap Hle Hin Hid|a cap pct Ha Hs Hcap Hpct Hle
    |s Hs Hn|s p Hs Hp Hk Hne|s p Hs Hp Hk Hne|s Hs Hr Hra].
  - left. eauto.
  - right; left. eauto.
  - do 2 right; left. exists p. split; [done|]. unfold check_profile. simpl.
    rewrite Ho, elem_of_whenb, bool_decide_eq_true. done.
  - do 2 right; left. exists p. split; [done|]. unfold check_profile. simpl. rewrite Ho.
    apply (find_None account_key) in Hn. unfold group_accounts. rewrite Hn.
    by apply list_elem_of_singleton.
  - do 2 right; left. exists p. split; [done|]. unfold check_profile. simpl. rewrite Ho.
    assert (find account_key (group_accounts o) (oa_id a) = Some (Unique a)) as ->
      by (by apply find_unique; [apply _|]).
    by rewrite elem_of_whenb, andb_true_iff, !bool_decide_eq_true.
  - do 3 right; left. eauto.
  - do 4 right; left. exists a. split; [done|]. unfold check_account. simpl.
    rewrite Hl, elem_of_app, elem_of_when. by left.
  - do 4 right; left. exists a. split; [done|]. unfold check_account. simpl.
    rewrite Hcap, !elem_of_app, elem_of_whenb, !andb_true_iff, !bool_decide_eq_true,
      Exists_exists. right; left. eauto 10.
  - do 4 right; left. exists a. split; [done|]. unfold check_account. simpl.
    rewrite Hcap, Hpct, !elem_of_app, !elem_of_whenb. do 2 right. split; [|done].
    rewrite andb_true_iff, bool_decide_eq_true. split; [done|]. destruct Ha as [Hin _].
    apply reached_percent_spec; [by eapply Hw..|done].
  - do 5 right. exists s. split; [done|]. unfold check_session. rewrite elem_of_app. left.
    apply (find_None profile_key) in Hn. unfold group_profiles. rewrite Hn.
    by apply list_elem_of_singleton.
  - do 5 right. exists s. split; [done|]. unfold check_session. rewrite elem_of_app. left.
    assert (find profile_key (group_profiles o) (os_slot s, os_profile s) = Some (Unique p))
      as -> by (by apply find_unique; [apply _|]).
    rewrite elem_of_app, elem_of_when. by left.
  - do 5 right. exists s. split; [done|]. unfold check_session. rewrite elem_of_app. left.
    assert (find profile_key (group_profiles o) (os_slot s, os_profile s) = Some (Unique p))
      as -> by (by apply find_unique; [apply _|]).
    rewrite elem_of_app, !elem_of_when. by right.
  - do 5 right. exists s. split; [done|]. unfold check_session. rewrite elem_of_app. right.
    rewrite elem_of_whenb, andb_true_iff, negb_true_iff. done.
Qed.

Lemma reconcile_drift o i :
  widths o → within_bounds o → i ∈ reconcile o ↔ drift o i.
Proof.
  intros Hw Hb. rewrite reconcile_in_bounds, elem_of_sort by done.
  split; [|by apply drift_checks]. rewrite elem_of_checks by done.
  intros [(a & ? & ? & ->)|[(p & ? & ? & ->)|[(p & ? & ?)|[(sl & ? & ->)|[(a & ? & ?)|(s & ? & ?)]]]]];
    eauto using drift, check_profile_drift, check_account_drift, check_session_drift.
Qed.

(** C38. On a snapshot within its bounds the reconciler reports exactly the
    documented findings (relation [drift]): every drift is reported, with its
    exact expected and observed facts, and nothing else is. *)
Theorem reconcile_exact o i : widths o → within_bounds o → i ∈ reconcile o ↔ drift o i.
Proof. apply reconcile_drift. Qed.

(** A snapshot beyond a bound is refused, never truncated: the result is not
    empty and every incident of it is [SnapshotTooLarge]. *)
Theorem reconcile_too_large o :
  reconcile o ≠ [] ∧ Forall (λ i, kind i = SnapshotTooLarge) (reconcile o) ∨ within_bounds o.
Proof.
  destruct (decide (check_bounds o = [])) as [Hn|Hn].
  - right. unfold check_bounds in Hn. cbn [mbind list_bind] in Hn. unfold within_bounds.
    repeat (case_decide; [done|]). lia.
  - left. unfold reconcile. rewrite decide_True by done. split.
    + intros He. apply Hn, Permutation_nil_r. rewrite <-He. symmetry. apply sort_perm.
    + apply Forall_forall. intros i. rewrite elem_of_sort. unfold check_bounds.
      rewrite list_elem_of_bind. intros ([n max] & Hi & _). apply elem_of_when in Hi as [_ ->].
      done.
Qed.

(** ** A concrete snapshot *)

(** A profile enabled without an owner. *)
Definition stray : ObservedProfile := mkObsProfile 0 1 Enabled None.

Lemma reconcile_exact_witness :
  mkIncident EnabledProfileUnbound (SubjProfile 0 1) AnyOwner (Owner None) ∈
  reconcile (mkObserved [] [stray] []).
Proof.
  apply (reconcile_exact (mkObserved [] [stray] [])).
  - constructor; cbn; intros; by apply not_elem_of_nil in H.
  - unfold within_bounds; vm_compute; lia.
  - apply (drift_unbound _ stray); [|done|done]. split; [by left|reflexivity].
Defined.

Lemma reconcile_order_witness :
  reconcile (mkObserved [] [stray; mkObsProfile 0 2 Enabled None] []) =
  reconcile (mkObserved [] [mkObsProfile 0 2 Enabled None; stray] []).
Proof. apply reconcile_order_independent; [done|apply perm_swap|done]. Defined.
