(* ===== verification/DataState.v ===== *)
(** * DataState: usage counters, sessions, billing periods

    Model of [kernel-arm/src/data_state.rs]: four bounded tables, each keyed by
    account (sessions by account, slot and profile), and their operations. *)

From S2P Require Import Prelude Policy Period.

Definition MAX_DATA_ACCOUNTS : nat := 16.
Definition MAX_DATA_SESSIONS : nat := 16.

(** ** Data *)

Inductive TableFull := mkTableFull.

Record UsageEntry := mkUsageEntry {
  ue_account : N;
  ue_usage : DataUsage;
  ue_last_used : option N;
}.

Record DataSession := mkSession {
  ds_account : N;
  ds_slot : N;
  ds_profile : N;
  ds_roaming : bool;
}.

Record PeriodEntry := mkPeriodEntry {
  pe_account : N;
  pe_period : BillingPeriod;
  pe_reset_requested_since : option N;
}.

Record ResetEntry := mkResetEntry { re_account : N; re_last_reset_tick : N }.

Record PeriodAdvice := mkAdvice {
  adv_assessment : PeriodAssessment;
  adv_request : option PeriodRequest;
  adv_first_request : bool;
}.

Inductive PeriodStarted :=
  | NoPeriod
  | Started (p : BillingPeriod)
  | Installed (p : BillingPeriod)
  | Rejected (e : PeriodError).

Inductive SessionRecorded := NotRecorded | Opened | Refreshed | RecTableFull.

Record OpenOutcome := mkOutcome {
  oo_record : PolicyDecisionRecord;
  oo_recorded : SessionRecorded;
}.

Record DataState := mkDataState {
  usage : list UsageEntry;
  sessions : list DataSession;
  periods : list PeriodEntry;
  last_resets : list ResetEntry;
}.

#[global] Instance TableFull_eq_dec : EqDecision TableFull.
Proof. solve_decision. Defined.
#[global] Instance UsageEntry_eq_dec : EqDecision UsageEntry.
Proof. solve_decision. Defined.
#[global] Instance DataSession_eq_dec : EqDecision DataSession.
Proof. solve_decision. Defined.
#[global] Instance PeriodEntry_eq_dec : EqDecision PeriodEntry.
Proof. solve_decision. Defined.
#[global] Instance SessionRecorded_eq_dec : EqDecision SessionRecorded.
Proof. solve_decision. Defined.
#[global] Instance PeriodStarted_eq_dec : EqDecision PeriodStarted.
Proof. solve_decision. Defined.

Definition new : DataState := mkDataState [] [] [] [].

(** One field replaced. *)
Definition with_usage (self : DataState) (u : list UsageEntry) : DataState :=
  mkDataState u (sessions self) (periods self) (last_resets self).
Definition with_sessions (self : DataState) (s : list DataSession) : DataState :=
  mkDataState (usage self) s (periods self) (last_resets self).
Definition with_periods (self : DataState) (p : list PeriodEntry) : DataState :=
  mkDataState (usage self) (sessions self) p (last_resets self).
Definition with_last_resets (self : DataState) (r : list ResetEntry) : DataState :=
  mkDataState (usage self) (sessions self) (periods self) r.

(** ** Resets applied *)

Definition last_reset_tick (self : DataState) (account : N) : option N :=
  re_last_reset_tick <$> iter_find (λ e, re_account e = account) (last_resets self).

Definition record_reset (self : DataState) (account now : N)
    : Result TableFull () * DataState :=
  match iter_find (λ e, re_account e = account) (last_resets self) with
  | Some _ =>
      (Ok (), with_last_resets self
                (find_mut (λ e, re_account e = account)
                   (λ e, mkResetEntry (re_account e) now) (last_resets self)))
  | None =>
      if decide (MAX_DATA_ACCOUNTS ≤ length (last_resets self)) then (Err mkTableFull, self)
      else (Ok (), with_last_resets self (last_resets self ++ [mkResetEntry account now]))
  end.

(** ** Usage *)

Definition usage_of (self : DataState) (account : N) : DataUsage :=
  default (mkUsage 0)
    (ue_usage <$> iter_find (λ e, ue_account e = account) (usage self)).

Definition feed_usage (self : DataState) (account bytes : N)
    : Result TableFull (DataUsage * DataUsage) * DataState :=
  match iter_find (λ e, ue_account e = account) (usage self) with
  | Some e =>
      let before := ue_usage e in
      let after := apply_usage before bytes in
      (Ok (before, after),
       with_usage self (find_mut (λ e, ue_account e = account)
         (λ e, mkUsageEntry (ue_account e) after (ue_last_used e)) (usage self)))
  | None =>
      if decide (MAX_DATA_ACCOUNTS ≤ length (usage self)) then (Err mkTableFull, self) else
      let before := mkUsage 0 in
      let after := apply_usage before bytes in
      (Ok (before, after), with_usage self (usage self ++ [mkUsageEntry account after None]))
  end.

(** [DataState::reset_usage] *)
Definition reset_account_usage (self : DataState) (account : N)
    : (DataUsage * DataUsage) * DataState :=
  match iter_find (λ e, ue_account e = account) (usage self) with
  | Some e =>
      ((ue_usage e, reset_usage),
       with_usage self (find_mut (λ e, ue_account e = account)
         (λ e, mkUsageEntry (ue_account e) reset_usage None) (usage self)))
  | None => ((mkUsage 0, reset_usage), self)
  end.

(** ** Periods *)

Definition set_period (self : DataState) (account : N) (period : BillingPeriod)
    : Result TableFull () * DataState :=
  match iter_find (λ e, pe_account e = account) (periods self) with
  | Some _ =>
      (Ok (), with_periods self (find_mut (λ e, pe_account e = account)
                (λ e, mkPeriodEntry (pe_account e) period None) (periods self)))
  | None =>
      if decide (MAX_DATA_ACCOUNTS ≤ length (periods self)) then (Err mkTableFull, self)
      else (Ok (), with_periods self (periods self ++ [mkPeriodEntry account period None]))
  end.

Definition period_of (self : DataState) (account : N) : option BillingPeriod :=
  pe_period <$> iter_find (λ e, pe_account e = account) (periods self).

Definition advise_period (self : DataState) (account now : N)
    : option PeriodAdvice * DataState :=
  match iter_find (λ e, pe_account e = account) (periods self) with
  | None => (None, self)
  | Some e =>
      let assessment := assess_period (pe_period e) now in
      let request := period_request (pe_period e) now in
      let first_request :=
        bool_decide (is_Some request) && bool_decide (pe_reset_requested_since e = None) in
      (Some (mkAdvice assessment request first_request),
       if first_request then
         with_periods self (find_mut (λ e, pe_account e = account)
           (λ e, mkPeriodEntry (pe_account e) (pe_period e) (Some now)) (periods self))
       else self)
  end.

Definition start_next_period (self : DataState) (account now : N) (install_len : option N)
    : PeriodStarted * DataState :=
  match iter_find (λ e, pe_account e = account) (periods self) with
  | None =>
      match install_len with
      | None => (NoPeriod, self)
      | Some len =>
          match install_period now len with
          | Ok p =>
              match set_period self account p with
              | (Ok _, self') => (Installed p, self')
              | (Err _, self') => (NoPeriod, self')
              end
          | Err err => (Rejected err, self)
          end
      end
  | Some e =>
      match next_period (pe_period e) now with
      | Ok next =>
          (Started next,
           with_periods self (find_mut (λ e, pe_account e = account)
             (λ e, mkPeriodEntry (pe_account e) next None) (periods self)))
      | Err err => (Rejected err, self)
      end
  end.

Definition reset_usage_and_period (self : DataState) (account now : N)
    (install_len : option N)
    : (DataUsage * DataUsage * PeriodStarted * Result TableFull ()) * DataState :=
  let '((before, after), self) := reset_account_usage self account in
  let '(started, self) := start_next_period self account now install_len in
  let '(recorded, self) := record_reset self account now in
  ((before, after, started, recorded), self).

Definition period_snapshot (self : DataState) : list ObservedPeriod :=
  (λ e, mkObservedPeriod (pe_account e) (pe_period e) (pe_reset_requested_since e)) <$>
    periods self.

(** ** Sessions *)

Definition same_session (account slot profile : N) (e : DataSession) : Prop :=
  ds_account e = account ∧ ds_slot e = slot ∧ ds_profile e = profile.

#[global] Instance same_session_dec a s p e : Decision (same_session a s p e).
Proof. unfold same_session. apply _. Defined.

Definition record_session (self : DataState) (s : DataSession)
    : SessionRecorded * DataState :=
  match iter_find (same_session (ds_account s) (ds_slot s) (ds_profile s)) (sessions self) with
  | Some _ =>
      (Refreshed, with_sessions self
         (find_mut (same_session (ds_account s) (ds_slot s) (ds_profile s))
            (λ e, mkSession (ds_account e) (ds_slot e) (ds_profile e) (ds_roaming s))
            (sessions self)))
  | None =>
      if decide (MAX_DATA_SESSIONS ≤ length (sessions self)) then (RecTableFull, self)
      else (Opened, with_sessions self (sessions self ++ [s]))
  end.

Definition decide_and_open (self : DataState) (account slot profile : N) (roaming : bool)
    (standing : AccountStandingForData) (lifecycle : ProfileLifecycleForData)
    (entitlement : DataEntitlement) : OpenOutcome * DataState :=
  let record := record_decide (mkRequest standing lifecycle entitlement
                  (usage_of self account) (if roaming then Roaming else Home)) in
  let '(recorded, self) :=
    match rec_decision record with
    | Deny _ => (NotRecorded, self)
    | Allow | AllowThrottled => record_session self (mkSession account slot profile roaming)
    end in
  (mkOutcome record recorded, self).

Definition close_session (self : DataState) (account slot profile : N) : bool * DataState :=
  let kept := filter (λ e, ¬ same_session account slot profile e) (sessions self) in
  (bool_decide (length kept ≠ length (sessions self)), with_sessions self kept).

(** The loop of [drain_sessions]: what is removed and what is kept. *)
Fixpoint drain (matches : DataSession → bool) (l : list DataSession)
    : list DataSession * list DataSession :=
  match l with
  | [] => ([], [])
  | s :: l =>
      let '(removed, kept) := drain matches l in
      if matches s then (s :: removed, kept) else (removed, s :: kept)
  end.

Definition drain_sessions (self : DataState) (matches : DataSession → bool)
    : list DataSession * DataState :=
  let '(removed, kept) := drain matches (sessions self) in
  (removed, with_sessions self kept).

Definition close_sessions_for_account (self : DataState) (account : N)
    : list DataSession * DataState :=
  drain_sessions self (λ s, bool_decide (ds_account s = account)).

Definition close_sessions_for_profile (self : DataState) (slot profile : N)
    : list DataSession * DataState :=
  drain_sessions self (λ s, bool_decide (ds_slot s = slot ∧ ds_profile s = profile)).

(** ** The reconciler's view *)

Definition snapshot (self : DataState) : list UsageEntry * list DataSession :=
  (usage self, sessions self).

(** One turn of [mark_observed]'s loop. *)
Definition observe_one (self : DataState) (o : UsageEntry) : DataState :=
  with_usage self
    (find_mut (λ e, ue_account e = ue_account o)
       (λ e, mkUsageEntry (ue_account e) (ue_usage e) (Some (used_bytes (ue_usage o))))
       (usage self)).

Definition mark_observed (self : DataState) (observed : list UsageEntry) : DataState :=
  foldl observe_one self observed.

Definition assess (self : DataState) (account : N) (entitlement : DataEntitlement)
    : UsageAssessment :=
  evaluate_usage entitlement (usage_of self account).

(** ** The invariant *)

Definition session_key (s : DataSession) : N * N * N := (ds_account s, ds_slot s, ds_profile s).

Record wf (d : DataState) : Prop := mk_wf {
  wf_usage_keys : NoDup (ue_account <$> usage d);
  wf_usage_len : length (usage d) ≤ MAX_DATA_ACCOUNTS;
  wf_usage_u64 : Forall (λ e, (used_bytes (ue_usage e) ≤ u64_max)%N) (usage d);
  wf_session_keys : NoDup (session_key <$> sessions d);
  wf_session_len : length (sessions d) ≤ MAX_DATA_SESSIONS;
  wf_period_keys : NoDup (pe_account <$> periods d);
  wf_period_len : length (periods d) ≤ MAX_DATA_ACCOUNTS;
  wf_period_pos : Forall (λ e, (0 < length_ticks (pe_period e))%N) (periods d);
  wf_reset_keys : NoDup (re_account <$> last_resets d);
  wf_reset_len : length (last_resets d) ≤ MAX_DATA_ACCOUNTS;
}.

Lemma data_wf_new : wf new.
Proof. by split; simpl; repeat constructor; unfold MAX_DATA_ACCOUNTS, MAX_DATA_SESSIONS; lia. Qed.

Lemma apply_usage_u64 u b : (used_bytes (apply_usage u b) ≤ u64_max)%N.
Proof. apply saturating_add_le. Qed.

Create HintDb data.
#[export] Hint Resolve wf_usage_keys wf_usage_len wf_usage_u64 wf_session_keys
  wf_session_len wf_period_keys wf_period_len wf_period_pos wf_reset_keys wf_reset_len : data.
#[export] Hint Resolve apply_usage_u64 : data.

(** The invariant only constrains the four tables one by one. *)
Lemma wf_with_usage d u :
  wf d → NoDup (ue_account <$> u) → length u ≤ MAX_DATA_ACCOUNTS →
  Forall (λ e, (used_bytes (ue_usage e) ≤ u64_max)%N) u → wf (with_usage d u).
Proof. intros Hwf ???. split; simpl; auto with data. Qed.

Lemma wf_with_sessions d s :
  wf d → NoDup (session_key <$> s) → length s ≤ MAX_DATA_SESSIONS → wf (with_sessions d s).
Proof. intros Hwf ??. split; simpl; auto with data. Qed.

Lemma wf_with_periods d p :
  wf d → NoDup (pe_account <$> p) → length p ≤ MAX_DATA_ACCOUNTS →
  Forall (λ e, (0 < length_ticks (pe_period e))%N) p → wf (with_periods d p).
Proof. intros Hwf ???. split; simpl; auto with data. Qed.

Lemma wf_with_last_resets d r :
  wf d → NoDup (re_account <$> r) → length r ≤ MAX_DATA_ACCOUNTS → wf (with_last_resets d r).
Proof. intros Hwf ??. split; simpl; auto with data. Qed.

(** A table row appended or updated in place keeps its table keyed and bounded. *)
Lemma keyed_push {A K} `{EqDecision K} (key : A → K) (l : list A) x max :
  NoDup (key <$> l) → iter_find (λ y, key y = key x) l = None → ¬ max ≤ length l →
  NoDup (key <$> l ++ [x]) ∧ length (l ++ [x]) ≤ max.
Proof.
  intros Hnd Hf Hm. split; [by apply keyed_snoc|]. rewrite length_snoc. lia.
Qed.

Lemma record_reset_wf d a t : wf d → wf (record_reset d a t).2.
Proof.
  intros Hwf. unfold record_reset. destruct (iter_find _ _) as [e|] eqn:Hf; simpl.
  - apply wf_with_last_resets; [done| |rewrite length_find_mut; auto with data].
    apply find_mut_keyed_NoDup; auto with data.
  - case_decide; [done|].
    destruct (keyed_push re_account (last_resets d) (mkResetEntry a t) MAX_DATA_ACCOUNTS);
      [auto with data..|]. by apply wf_with_last_resets.
Qed.

Lemma feed_usage_wf d a b : wf d → wf (feed_usage d a b).2.
Proof.
  intros Hwf. unfold feed_usage. destruct (iter_find _ _) as [e|] eqn:Hf; simpl.
  - apply wf_with_usage; [done|..].
    + apply find_mut_keyed_NoDup; auto with data.
    + rewrite length_find_mut. auto with data.
    + apply find_mut_Forall; [auto with data|]. intros. apply apply_usage_u64.
  - case_decide; [done|]. simpl.
    destruct (keyed_push ue_account (usage d)
                (mkUsageEntry a (apply_usage (mkUsage 0) b) None) MAX_DATA_ACCOUNTS);
      [auto with data..|]. apply wf_with_usage; [done..|].
    apply Forall_app_2; [auto with data|]. constructor; [apply apply_usage_u64|done].
Qed.

Lemma reset_account_usage_wf d a : wf d → wf (reset_account_usage d a).2.
Proof.
  intros Hwf. unfold reset_account_usage. destruct (iter_find _ _) as [e|] eqn:Hf; [|done].
  simpl. apply wf_with_usage; [done|..].
  - apply find_mut_keyed_NoDup; auto with data.
  - rewrite length_find_mut. auto with data.
  - apply find_mut_Forall; simpl; [auto with data|]. intros. unfold u64_max. lia.
Qed.

Lemma set_period_wf d a p : (0 < length_ticks p)%N → wf d → wf (set_period d a p).2.
Proof.
  intros Hp Hwf. unfold set_period. destruct (iter_find _ _) as [e|] eqn:Hf; simpl.
  - apply wf_with_periods; [done|..].
    + apply find_mut_keyed_NoDup; auto with data.
    + rewrite length_find_mut. auto with data.
    + apply find_mut_Forall; simpl; auto with data.
  - case_decide; [done|]. simpl.
    destruct (keyed_push pe_account (periods d) (mkPeriodEntry a p None) MAX_DATA_ACCOUNTS);
      [auto with data..|]. apply wf_with_periods; [done..|].
    apply Forall_app_2; [auto with data|]. by constructor.
Qed.

Lemma advise_period_wf d a now : wf d → wf (advise_period d a now).2.
Proof.
  intros Hwf. unfold advise_period. destruct (iter_find _ _) as [e|] eqn:Hf; [|done]. simpl.
  destruct (_ && _); [|done]. apply wf_with_periods; [done|..].
  - apply find_mut_keyed_NoDup; auto with data.
  - rewrite length_find_mut. auto with data.
  - apply find_mut_Forall; simpl; auto with data.
Qed.

Lemma period_new_pos s l p : period_new s l = Ok p → (0 < length_ticks p)%N.
Proof. unfold period_new. case_decide; [done|]. intros. simplify_eq. simpl. lia. Qed.

Lemma next_period_pos old t p : next_period old t = Ok p → (0 < length_ticks p)%N.
Proof. unfold next_period. case_decide; [done|]. apply period_new_pos. Qed.

Lemma start_next_period_wf d a now il : wf d → wf (start_next_period d a now il).2.
Proof.
  intros Hwf. unfold start_next_period. destruct (iter_find _ _) as [e|] eqn:Hf.
  - destruct (next_period _ _) as [p|] eqn:Hn; [|done]. simpl.
    apply next_period_pos in Hn. apply wf_with_periods; [done|..].
    + apply find_mut_keyed_NoDup; auto with data.
    + rewrite length_find_mut. auto with data.
    + apply find_mut_Forall; simpl; auto with data.
  - destruct il as [l|]; [|done]. destruct (install_period now l) as [p|] eqn:Hi; [|done].
    apply period_new_pos in Hi. pose proof (set_period_wf d a p Hi Hwf).
    by destruct (set_period d a p) as [[] ?].
Qed.

Lemma reset_usage_and_period_wf d a now il : wf d → wf (reset_usage_and_period d a now il).2.
Proof.
  intros Hwf. unfold reset_usage_and_period.
  pose proof (reset_account_usage_wf d a Hwf) as H1.
  destruct (reset_account_usage d a) as [[b af] d1]. simpl in H1.
  pose proof (start_next_period_wf d1 a now il H1) as H2.
  destruct (start_next_period d1 a now il) as [s d2]. simpl in H2.
  pose proof (record_reset_wf d2 a now H2) as H3. by destruct (record_reset d2 a now).
Qed.

(** Sessions are keyed by their triple. *)
Lemma same_session_key a s p e : same_session a s p e ↔ session_key e = (a, s, p).
Proof. unfold same_session, session_key. split; [intros (<- & <- & <-); done|]. by intros [= <- <- <-]. Qed.

Lemma find_session a s p (l : list DataSession) :
  iter_find (same_session a s p) l = iter_find (λ e, session_key e = (a, s, p)) l.
Proof.
  induction l as [|e l IH]; [done|]. rewrite !iter_find_cons, IH.
  pose proof (same_session_key a s p e). repeat case_decide; naive_solver.
Qed.

Lemma record_session_wf d s : wf d → wf (record_session d s).2.
Proof.
  intros Hwf. unfold record_session. destruct (iter_find _ _) as [e|] eqn:Hf; simpl.
  - apply wf_with_sessions; [done|..].
    + apply find_mut_keyed_NoDup; [done|auto with data].
    + rewrite length_find_mut. auto with data.
  - case_decide; [done|]. simpl. rewrite find_session in Hf.
    destruct (keyed_push session_key (sessions d) s MAX_DATA_SESSIONS); [auto with data..|].
    by apply wf_with_sessions.
Qed.

Lemma decide_and_open_wf d a s p r st lc e : wf d → wf (decide_and_open d a s p r st lc e).2.
Proof.
  intros Hwf. unfold decide_and_open. set (record := record_decide _).
  pose proof (record_session_wf d (mkSession a s p r) Hwf) as Hr.
  destruct (rec_decision record); simpl; [..|done];
    destruct (record_session _ _); done.
Qed.

Lemma wf_sub_sessions d k : wf d → k `sublist_of` sessions d → wf (with_sessions d k).
Proof.
  intros Hwf Hs. apply wf_with_sessions; [done|..].
  - eapply keyed_sublist; [|done]. auto with data.
  - etrans; [by apply sublist_length|auto with data].
Qed.

Lemma drain_filter m l :
  drain m l = (filter (λ s, m s = true) l, filter (λ s, m s = false) l).
Proof.
  induction l as [|s l IH]; [done|]. simpl. rewrite IH, !filter_cons.
  destruct (m s); by repeat case_decide.
Qed.

Lemma drain_sessions_wf d m : wf d → wf (drain_sessions d m).2.
Proof.
  intros Hwf. unfold drain_sessions. rewrite drain_filter. simpl.
  apply wf_sub_sessions; [done|]. apply sublist_filter.
Qed.

Lemma mark_observed_wf d obs : wf d → wf (mark_observed d obs).
Proof.
  unfold mark_observed. revert d. induction obs as [|o obs IH]; intros d Hwf; [done|].
  simpl. apply IH, wf_with_usage; [done|..].
  - apply find_mut_keyed_NoDup; auto with data.
  - rewrite length_find_mut. auto with data.
  - apply find_mut_Forall; simpl; auto with data.
Qed.

(** ** Every mutation of the state, as one step *)

Inductive DataOp :=
  | OpFeed (account bytes : N)
  | OpReset (account now : N) (install_len : option N)
  | OpSetPeriod (account : N) (p : BillingPeriod)
  | OpAdvise (account now : N)
  | OpOpen (account slot profile : N) (roaming : bool) (st : AccountStandingForData)
      (lc : ProfileLifecycleForData) (e : DataEntitlement)
  | OpClose (account slot profile : N)
  | OpCloseAccount (account : N)
  | OpCloseProfile (slot profile : N)
  | OpObserve (observed : list UsageEntry).

Definition run_op (d : DataState) (op : DataOp) : DataState :=
  match op with
  | OpFeed a b => (feed_usage d a b).2
  | OpReset a now il => (reset_usage_and_period d a now il).2
  | OpSetPeriod a p => (set_period d a p).2
  | OpAdvise a now => (advise_period d a now).2
  | OpOpen a s p r st lc e => (decide_and_open d a s p r st lc e).2
  | OpClose a s p => (close_session d a s p).2
  | OpCloseAccount a => (close_sessions_for_account d a).2
  | OpCloseProfile s p => (close_sessions_for_profile d s p).2
  | OpObserve obs => mark_observed d obs
  end.

Definition run_ops (d : DataState) (ops : list DataOp) : DataState := foldl run_op d ops.

(** A period is built by its constructor, which refuses a zero length. *)
Definition op_valid (op : DataOp) : Prop :=
  match op with OpSetPeriod _ p => (0 < length_ticks p)%N | _ => True end.

Lemma run_op_wf d op : op_valid op → wf d → wf (run_op d op).
Proof.
  destruct op; simpl; intros Hv Hwf; auto using feed_usage_wf, reset_usage_and_period_wf,
    set_period_wf, advise_period_wf, decide_and_open_wf, mark_observed_wf.
  - apply wf_sub_sessions; [done|]. apply sublist_filter.
  - by apply drain_sessions_wf.
  - by apply drain_sessions_wf.
Qed.

(** Every operation keeps the data state well formed: each table bounded and
    keyed (one usage row, period and last reset per account, one session per
    account, slot and profile), every counter within [u64], every period of
    non-zero length. *)
Theorem data_ops_preserve_wf d ops : Forall op_valid ops → wf d → wf (run_ops d ops).
Proof.
  intros Hv. revert d. unfold run_ops. induction Hv; intros d Hwf; simpl; auto using run_op_wf.
Qed.

(** ** What an operation leaves alone *)

(** The two inputs of the reset gate for one account. *)
Definition gate (d : DataState) (a : N) : option BillingPeriod * option N :=
  (period_of d a, last_reset_tick d a).

Definition touches_gate (a : N) (op : DataOp) : Prop :=
  match op with OpReset a' _ _ => a' = a | OpSetPeriod a' _ => a' = a | _ => False end.

Lemma period_of_set_period d a p a' d' :
  set_period d a p = (Ok (), d') →
  period_of d' a' = if decide (a' = a) then Some p else period_of d a'.
Proof.
  unfold set_period, period_of. intros H. destruct (iter_find _ _) as [e|] eqn:Hf; simplify_eq/=.
  - rewrite (keyed_find_mut pe_account) by done. case_decide; [|done]. by rewrite Hf.
  - case_decide; simplify_eq/=. rewrite iter_find_app. case_decide as Ha; subst.
    + rewrite Hf, iter_find_cons. simpl. by rewrite decide_True.
    + destruct (iter_find (λ e, pe_account e = a') (periods d)); [done|].
      rewrite iter_find_cons. simpl. by rewrite decide_False by congruence.
Qed.

Lemma set_period_tables d a p :
  usage (set_period d a p).2 = usage d ∧ sessions (set_period d a p).2 = sessions d ∧
  last_resets (set_period d a p).2 = last_resets d.
Proof. unfold set_period. by case_all. Qed.

(** The period a reset started or installed, if any. *)
Definition started_period (s : PeriodStarted) : option BillingPeriod :=
  match s with Started p | Installed p => Some p | _ => None end.

Lemma start_next_period_period d a now il a' :
  period_of (start_next_period d a now il).2 a' =
  if decide (a' = a) then
    match started_period (start_next_period d a now il).1 with
    | Some p => Some p
    | None => period_of d a
    end
  else period_of d a'.
Proof.
  unfold start_next_period. destruct (iter_find _ _) as [e|] eqn:Hf.
  - destruct (next_period _ _) as [q|]; simpl; [|by case_decide; subst].
    unfold period_of. simpl. rewrite (keyed_find_mut pe_account) by done.
    case_decide; [by rewrite Hf|done].
  - destruct il as [l|]; simpl; [|by case_decide; subst].
    destruct (install_period now l) as [p|]; simpl; [|by case_decide; subst].
    destruct (set_period d a p) as [[[]|[]] d'] eqn:Hs; simpl.
    + by rewrite (period_of_set_period _ _ _ _ _ Hs).
    + unfold set_period in Hs. rewrite Hf in Hs. case_decide; simplify_eq. by case_decide; subst.
Qed.

Lemma start_next_period_started d a now il p :
  started_period (start_next_period d a now il).1 = Some p →
  start_tick p = now ∧
  length_ticks p = default 0%N (length_ticks <$> period_of d a) ∨
  start_tick p = now ∧ period_of d a = None ∧ il = Some (length_ticks p).
Proof.
  unfold start_next_period, period_of. destruct (iter_find _ _) as [e|]; simpl.
  - unfold next_period, period_new. intros H. left. by repeat case_decide; simplify_eq/=.
  - intros H. right. destruct il as [l|]; [|done]. unfold install_period, period_new in H.
    case_decide; [done|]. by destruct (set_period _ _ _) as [[] ?]; simplify_eq/=.
Qed.

Lemma start_next_period_tables d a now il :
  usage (start_next_period d a now il).2 = usage d ∧
  sessions (start_next_period d a now il).2 = sessions d ∧
  last_resets (start_next_period d a now il).2 = last_resets d.
Proof.
  unfold start_next_period. case_match; [by case_match|]. case_match; [|done].
  case_match; [|done]. pose proof (set_period_tables d a a0) as Ht.
  by destruct (set_period d a a0) as [[] ?].
Qed.

Lemma record_reset_gate d a now a' :
  (record_reset d a now).1 = Ok () →
  last_reset_tick (record_reset d a now).2 a' =
  if decide (a' = a) then Some now else last_reset_tick d a'.
Proof.
  unfold record_reset, last_reset_tick. intros H.
  destruct (iter_find _ _) as [e|] eqn:Hf; simplify_eq/=.
  - rewrite (keyed_find_mut re_account) by done. case_decide; [|done]. by rewrite Hf.
  - case_decide; simplify_eq/=. rewrite iter_find_app. case_decide as Ha; subst.
    + rewrite Hf, iter_find_cons. simpl. by rewrite decide_True.
    + destruct (iter_find (λ e, re_account e = a') (last_resets d)); [done|].
      rewrite iter_find_cons. simpl. by rewrite decide_False by congruence.
Qed.

Lemma record_reset_other d a now a' :
  a' ≠ a → last_reset_tick (record_reset d a now).2 a' = last_reset_tick d a'.
Proof.
  intros Hne. destruct (record_reset d a now).1 as [[]|[]] eqn:H.
  - rewrite record_reset_gate, decide_False by done. done.
  - unfold record_reset in *. by case_all.
Qed.

Lemma record_reset_tables d a now :
  usage (record_reset d a now).2 = usage d ∧ sessions (record_reset d a now).2 = sessions d ∧
  periods (record_reset d a now).2 = periods d.
Proof. unfold record_reset. by case_all. Qed.

Lemma reset_account_usage_tables d a :
  sessions (reset_account_usage d a).2 = sessions d ∧
  periods (reset_account_usage d a).2 = periods d ∧
  last_resets (reset_account_usage d a).2 = last_resets d.
Proof. unfold reset_account_usage. by case_match. Qed.

(** The components of one governed reset. *)
Lemma reset_components d a now il :
  let d1 := (reset_account_usage d a).2 in
  let d2 := (start_next_period d1 a now il).2 in
  reset_usage_and_period d a now il =
  ((reset_account_usage d a).1, (start_next_period d1 a now il).1, (record_reset d2 a now).1,
   (record_reset d2 a now).2).
Proof.
  unfold reset_usage_and_period. simpl.
  destruct (reset_account_usage d a) as [[b af] d1]. simpl.
  destruct (start_next_period d1 a now il) as [s d2]. simpl.
  by destruct (record_reset d2 a now).
Qed.

Lemma gate_tables d d' a :
  periods d' = periods d → last_resets d' = last_resets d → gate d' a = gate d a.
Proof. unfold gate, period_of, last_reset_tick. by intros -> ->. Qed.

Lemma reset_gate_other d a now il a' :
  a' ≠ a → gate (reset_usage_and_period d a now il).2 a' = gate d a'.
Proof.
  intros Hne. rewrite reset_components. simpl. set (d1 := (reset_account_usage d a).2).
  destruct (reset_account_usage_tables d a) as (_ & Hp1 & Hr1). fold d1 in Hp1, Hr1.
  pose proof (start_next_period_period d1 a now il a') as Hp2.
  destruct (start_next_period_tables d1 a now il) as (_ & _ & Hr2).
  set (d2 := (start_next_period d1 a now il).2) in *.
  destruct (record_reset_tables d2 a now) as (_ & _ & Hp3).
  unfold gate. rewrite record_reset_other by done. f_equal.
  - unfold period_of at 1. rewrite Hp3. fold (period_of d2 a'). rewrite Hp2, decide_False by done.
    unfold period_of. by rewrite Hp1.
  - unfold last_reset_tick. by rewrite Hr2, Hr1.
Qed.

Lemma advise_gate d a now a' : gate (advise_period d a now).2 a' = gate d a'.
Proof.
  unfold advise_period. destruct (iter_find _ _) as [e|] eqn:Hf; [|done]. simpl.
  destruct (_ && _); [|done]. unfold gate, period_of. simpl. f_equal.
  rewrite (keyed_find_mut pe_account) by done. case_decide; subst; [|done].
  by rewrite <-option_fmap_compose.
Qed.

Lemma mark_observed_tables d obs :
  sessions (mark_observed d obs) = sessions d ∧ periods (mark_observed d obs) = periods d ∧
  last_resets (mark_observed d obs) = last_resets d.
Proof.
  unfold mark_observed. revert d. induction obs as [|o obs IH]; intros d; [done|].
  simpl. by destruct (IH (observe_one d o)) as (-> & -> & ->).
Qed.

Lemma open_tables d a s p r st lc e :
  usage (decide_and_open d a s p r st lc e).2 = usage d ∧
  periods (decide_and_open d a s p r st lc e).2 = periods d ∧
  last_resets (decide_and_open d a s p r st lc e).2 = last_resets d.
Proof.
  unfold decide_and_open, record_session. by repeat case_match; simplify_eq/=.
Qed.

Lemma run_op_gate d op a : ¬ touches_gate a op → gate (run_op d op) a = gate d a.
Proof.
  destruct op; simpl; intros Hne; auto using reset_gate_other, advise_gate.
  - apply gate_tables; unfold feed_usage; by case_all.
  - unfold gate. destruct (set_period d account p) as [[[]|] d'] eqn:Hs; simpl.
    + rewrite (period_of_set_period _ _ _ _ _ Hs), decide_False by done. f_equal.
      pose proof (set_period_tables d account p) as (_ & _ & Hr). rewrite Hs in Hr. simpl in Hr.
      unfold last_reset_tick. by rewrite Hr.
    + unfold set_period in Hs. by case_all.
  - by apply gate_tables; destruct (open_tables d account slot profile roaming st lc e) as (?&?&?).
  - apply gate_tables; unfold close_sessions_for_account, drain_sessions; by case_all.
  - apply gate_tables; unfold close_sessions_for_profile, drain_sessions; by case_all.
  - by apply gate_tables; destruct (mark_observed_tables d observed) as (?&?&?).
Qed.

Lemma run_ops_gate d ops a :
  Forall (λ op, ¬ touches_gate a op) ops → gate (run_ops d ops) a = gate d a.
Proof.
  intros HF. revert d. unfold run_ops. induction HF as [|op ops Hop _ IH]; intros d; [done|].
  simpl. by rewrite IH, run_op_gate.
Qed.

(** The gate after an applied reset. *)
Lemma reset_gate_self d a now il b af st d' p :
  reset_usage_and_period d a now il = ((b, af, st, Ok ()), d') → started_period st = Some p →
  gate d' a = (Some p, Some now) ∧ start_tick p = now ∧
  (length_ticks p = default 0%N (length_ticks <$> period_of d a) ∨
   period_of d a = None ∧ il = Some (length_ticks p)).
Proof.
  intros H Hst. rewrite reset_components in H. cbv zeta in H.
  set (d1 := (reset_account_usage d a).2) in *.
  pose proof (start_next_period_period d1 a now il a) as Hp.
  pose proof (start_next_period_started d1 a now il p) as Hs.
  set (d2 := (start_next_period d1 a now il).2) in *.
  injection H as Hba Hst' Hrec Hd'. subst d'.
  destruct (record_reset_tables d2 a now) as (_ & _ & Hp3).
  destruct (reset_account_usage_tables d a) as (_ & Hp1 & _). fold d1 in Hp1.
  rewrite Hst' in Hp, Hs. rewrite Hst, decide_True in Hp by done. split.
  - unfold gate. rewrite record_reset_gate, decide_True by done. f_equal.
    unfold period_of. rewrite Hp3. exact Hp.
  - assert (period_of d1 a = period_of d a) as Heq by (unfold period_of; by rewrite Hp1).
    rewrite Heq in Hs. destruct (Hs Hst) as [[? ?]|(? & ? & ?)]; auto.
Qed.

(** Resets are spaced: once a reset of an account is applied at tick [t1]
    (its period started or installed, its tick recorded), then after any
    sequence of other operations the gate permits another normal reset of that
    account only from [t1] plus the full period length on, and another early one
    only from [t1] plus the cooldown on. *)
Theorem reset_spacing d a t1 il b af st d1 p ops early t2 cooldown :
  wf d → reset_usage_and_period d a t1 il = ((b, af, st, Ok ()), d1) →
  started_period st = Some p → Forall (λ op, ¬ touches_gate a op) ops →
  let d2 := run_ops d1 ops in
  reset_permitted_at ((λ q, assess_period q t2) <$> period_of d2 a) early
    (last_reset_tick d2 a) t2 cooldown = Ok () →
  period_of d2 a = Some p ∧ start_tick p = t1 ∧
  if early then (t1 + cooldown ≤ t2)%N else (t1 + length_ticks p ≤ t2)%N.
Proof.
  intros Hwf Hr Hst Hops d2 Hp.
  pose proof (reset_usage_and_period_wf d a t1 il Hwf) as Hwf1. rewrite Hr in Hwf1. simpl in Hwf1.
  destruct (reset_gate_self _ _ _ _ _ _ _ _ _ Hr Hst) as (Hg & Hstart & _).
  assert (gate d2 a = (Some p, Some t1)) as Hg2 by (unfold d2; by rewrite run_ops_gate).
  injection Hg2 as Hper Hlast. rewrite Hper, Hlast in Hp.
  assert (0 < length_ticks p)%N as Hlen.
  { injection Hg as Hper1 _. unfold period_of in Hper1.
    apply fmap_Some in Hper1 as (e & He & ->).
    apply (iter_find_Some_1 (λ e, pe_account e = a)) in He as [He _].
    pose proof (wf_period_pos _ Hwf1) as HF. rewrite Forall_forall in HF. by apply HF. }
  apply reset_permitted_at_Ok in Hp as [Hs Hp]; [|done]. split_and!; [done..|].
  destruct early; [|lia]. destruct (Hp t1 eq_refl). lia.
Qed.

(** ** Usage accounting *)

Lemma usage_of_feed d a b r d' a' :
  feed_usage d a b = (Ok r, d') →
  r = (usage_of d a, apply_usage (usage_of d a) b) ∧
  usage_of d' a' = if decide (a' = a) then apply_usage (usage_of d a) b else usage_of d a'.
Proof.
  unfold feed_usage, usage_of. intros H. destruct (iter_find _ _) as [e|] eqn:Hf; simplify_eq/=.
  - split; [done|]. rewrite (keyed_find_mut ue_account) by done.
    case_decide; [|done]. by rewrite Hf.
  - case_decide; simplify_eq/=. split; [done|]. rewrite iter_find_app. case_decide as Ha; subst.
    + rewrite Hf, iter_find_cons. simpl. by rewrite decide_True.
    + destruct (iter_find (λ e, ue_account e = a') (usage d)); [done|].
      rewrite iter_find_cons. simpl. by rewrite decide_False by congruence.
Qed.

Lemma usage_of_reset d a a' :
  usage_of (reset_account_usage d a).2 a' = if decide (a' = a) then mkUsage 0 else usage_of d a'.
Proof.
  unfold reset_account_usage, usage_of.
  destruct (iter_find (λ e, ue_account e = a) (usage d)) as [e|] eqn:Hf; simpl.
  - rewrite (keyed_find_mut ue_account) by done. case_decide; [|done]. by rewrite Hf.
  - case_decide; [|done]. subst. by rewrite Hf.
Qed.

Lemma usage_of_full_reset d a now il a' :
  usage_of (reset_usage_and_period d a now il).2 a' =
  if decide (a' = a) then mkUsage 0 else usage_of d a'.
Proof.
  rewrite reset_components. simpl. unfold usage_of at 1.
  destruct (record_reset_tables (start_next_period (reset_account_usage d a).2 a now il).2 a now)
    as (-> & _ & _).
  destruct (start_next_period_tables (reset_account_usage d a).2 a now il) as (-> & _ & _).
  apply usage_of_reset.
Qed.

Lemma usage_of_observe d obs a : usage_of (mark_observed d obs) a = usage_of d a.
Proof.
  unfold mark_observed. revert d. induction obs as [|o obs IH]; intros d; [done|]. simpl.
  rewrite IH. unfold usage_of, observe_one. simpl. rewrite (keyed_find_mut ue_account) by done.
  case_decide; [|done]. subst. by destruct (iter_find _ _).
Qed.

Lemma usage_of_tables d d' a : usage d' = usage d → usage_of d' a = usage_of d a.
Proof. unfold usage_of. by intros ->. Qed.

(** Accounts are registry ids, below the table's bound. *)
Definition known (a : N) : Prop := (a < N.of_nat MAX_DATA_ACCOUNTS)%N.

Definition op_known (op : DataOp) : Prop :=
  match op with OpFeed a _ => known a | _ => True end.

Definition rows_known (d : DataState) : Prop := Forall (λ e, known (ue_account e)) (usage d).

Lemma keyed_room {A} (key : A → N) (l : list A) a :
  NoDup (key <$> l) → Forall (λ x, known (key x)) l → known a →
  iter_find (λ x, key x = a) l = None → length l < MAX_DATA_ACCOUNTS.
Proof.
  intros Hnd HF Ha Hf%keyed_find_None.
  assert (NoDup (a :: (key <$> l))) as Hnd' by (by constructor).
  assert (a :: (key <$> l) ⊆+ (N.of_nat <$> seq 0 MAX_DATA_ACCOUNTS)) as Hsub.
  { apply NoDup_submseteq; [done|]. intros x Hx.
    assert (known x) as Hk.
    { apply elem_of_cons in Hx as [->|(y & -> & Hy)%list_elem_of_fmap]; [done|].
      rewrite Forall_forall in HF. by apply HF. }
    apply list_elem_of_fmap. exists (N.to_nat x). split; [lia|].
    apply elem_of_seq. unfold known in Hk. lia. }
  apply submseteq_length in Hsub. rewrite length_fmap, length_seq in Hsub. simpl in Hsub.
  rewrite length_fmap in Hsub. lia.
Qed.

Lemma feed_usage_accepted d a b :
  wf d → rows_known d → known a → ∃ r, (feed_usage d a b).1 = Ok r.
Proof.
  intros Hwf Hr Ha. unfold feed_usage. destruct (iter_find _ _) as [e|] eqn:Hf; [by eexists|].
  pose proof (keyed_room ue_account (usage d) a) as Hroom.
  rewrite decide_False; [by eexists|]. apply Nat.nle_gt. apply Hroom; auto with data.
Qed.

Lemma rows_known_find_mut d (P : UsageEntry → Prop) `{∀ e, Decision (P e)} f :
  (∀ e, ue_account (f e) = ue_account e) → rows_known d →
  rows_known (with_usage d (find_mut P f (usage d))).
Proof.
  intros Hf Hr. unfold rows_known. simpl. apply find_mut_Forall; [done|].
  intros e _. by rewrite Hf.
Qed.

Lemma observe_rows_known d obs : rows_known d → rows_known (mark_observed d obs).
Proof.
  unfold mark_observed. revert d. induction obs; simpl; intros d Hr; [done|].
  apply IHobs. by apply rows_known_find_mut.
Qed.

Lemma feed_rows_known d a b : known a → rows_known d → rows_known (feed_usage d a b).2.
Proof.
  intros Ha Hr. unfold feed_usage. destruct (iter_find _ _); [by apply rows_known_find_mut|].
  case_decide; [done|]. apply Forall_app_2; [done|]. by constructor.
Qed.

Lemma reset_rows_known d a now il :
  rows_known d → rows_known (reset_usage_and_period d a now il).2.
Proof.
  intros Hr. rewrite reset_components. simpl. unfold rows_known.
  destruct (record_reset_tables (start_next_period (reset_account_usage d a).2 a now il).2 a now)
    as (-> & _ & _).
  destruct (start_next_period_tables (reset_account_usage d a).2 a now il) as (-> & _ & _).
  unfold reset_account_usage. destruct (iter_find _ _); [|done]. by apply rows_known_find_mut.
Qed.

Lemma run_op_usage_same d op :
  match op with OpFeed _ _ | OpReset _ _ _ | OpObserve _ => True
           | _ => usage (run_op d op) = usage d end.
Proof.
  destruct op; simpl; try done.
  - by destruct (set_period_tables d account p) as (-> & _).
  - unfold advise_period. by case_all.
  - by destruct (open_tables d account slot profile roaming st lc e) as (-> & _).
  - unfold close_sessions_for_account, drain_sessions. by case_all.
  - unfold close_sessions_for_profile, drain_sessions. by case_all.
Qed.

Lemma run_op_rows_known d op : op_known op → rows_known d → rows_known (run_op d op).
Proof.
  intros Ho Hr. pose proof (run_op_usage_same d op) as Hu.
  destruct op; simpl in *;
    auto using feed_rows_known, reset_rows_known, observe_rows_known;
    unfold rows_known; by rewrite Hu.
Qed.

Definition fed (a : N) (op : DataOp) : N :=
  match op with OpFeed a' b => if decide (a' = a) then b else 0%N | _ => 0%N end.

Definition bytes_fed (a : N) (ops : list DataOp) : N :=
  foldr (λ op n, (fed a op + n)%N) 0%N ops.

Definition resets (a : N) (op : DataOp) : Prop :=
  match op with OpReset a' _ _ => a' = a | _ => False end.

Lemma run_op_usage d op a :
  wf d → rows_known d → op_known op → ¬ resets a op →
  used_bytes (usage_of (run_op d op) a) =
  match op with
  | OpFeed _ _ => N.min (used_bytes (usage_of d a) + fed a op) u64_max
  | _ => used_bytes (usage_of d a)
  end ∨ ∃ a' b, op = OpFeed a' b ∧ a' ≠ a ∧ usage_of (run_op d op) a = usage_of d a.
Proof.
  intros Hwf Hr Hk Hn. pose proof (run_op_usage_same d op) as Hu.
  destruct op; simpl in Hu, Hk, Hn; try (left; simpl; by rewrite (usage_of_tables _ _ _ Hu));
    try (by left).
  - destruct (feed_usage_accepted d account bytes Hwf Hr Hk) as [r Hf]. simpl.
    destruct (feed_usage d account bytes) as [r' d'] eqn:E. simpl in *. subst.
    destruct (usage_of_feed _ _ _ _ _ a E) as [_ ->].
    case_decide as Ha; [left|right].
    + subst. by rewrite decide_True by done.
    + exists account, bytes. by split_and!; [..|congruence|].
  - left. simpl. rewrite usage_of_full_reset, decide_False by congruence. done.
  - left. simpl. by rewrite usage_of_observe.
Qed.

Lemma usage_of_u64 d a : wf d → (used_bytes (usage_of d a) ≤ u64_max)%N.
Proof.
  intros Hwf. unfold usage_of. destruct (iter_find _ _) as [e|] eqn:Hf; simpl;
    [|unfold u64_max; lia].
  apply (iter_find_Some_1 (λ e, ue_account e = a)) in Hf as [He _].
  pose proof (wf_usage_u64 _ Hwf) as HF. rewrite Forall_forall in HF. by apply HF.
Qed.

(** Metering is exact: along any sequence of operations without a reset of
    the account, its counter is the counter at the start plus every byte fed to
    it, saturating at [u64::MAX] (no operation on other accounts, sessions,
    periods or reconciliations disturbs it, and no feed is lost). *)
Theorem usage_is_sum d ops a :
  wf d → rows_known d → Forall op_valid ops → Forall op_known ops →
  Forall (λ op, ¬ resets a op) ops →
  used_bytes (usage_of (run_ops d ops) a) =
  N.min (used_bytes (usage_of d a) + bytes_fed a ops) u64_max.
Proof.
  unfold run_ops. revert d. induction ops as [|op ops IH]; intros d Hwf Hr Hv Hk Hn.
  { simpl. pose proof (usage_of_u64 d a Hwf). lia. }
  apply Forall_cons in Hv as [Hv1 Hv], Hk as [Hk1 Hk], Hn as [Hn1 Hn]. simpl.
  rewrite IH by auto using run_op_wf, run_op_rows_known.
  pose proof (usage_of_u64 d a Hwf).
  destruct (run_op_usage d op a Hwf Hr Hk1 Hn1) as [->|(a' & b & -> & Hne & ->)].
  - destruct op; simpl; lia.
  - simpl fed. rewrite decide_False by done. lia.
Qed.

(** ** Sessions *)

Definition session_of (d : DataState) (a s p : N) : option DataSession :=
  iter_find (same_session a s p) (sessions d).

Lemma session_of_record d s a sl p r d' :
  record_session d s = (r, d') →
  session_of d' a sl p =
  if decide (session_key s = (a, sl, p) ∧ (r = Opened ∨ r = Refreshed))
  then Some s else session_of d a sl p.
Proof.
  unfold record_session, session_of. intros H.
  destruct (iter_find _ _) as [e|] eqn:Hf; simplify_eq/=.
  - assert (∀ l, find_mut (same_session (ds_account s) (ds_slot s) (ds_profile s))
       (λ e, mkSession (ds_account e) (ds_slot e) (ds_profile e) (ds_roaming s)) l =
       find_mut (λ e, session_key e = session_key s)
       (λ e, mkSession (ds_account e) (ds_slot e) (ds_profile e) (ds_roaming s)) l) as ->.
    { induction l as [|x l IH]; [done|]. rewrite !find_mut_cons, IH.
      pose proof (same_session_key (ds_account s) (ds_slot s) (ds_profile s) x).
      unfold session_key at 1 in H. repeat case_decide; naive_solver. }
    rewrite !find_session, (keyed_find_mut session_key) by done.
    destruct (decide ((a, sl, p) = session_key s)) as [Heq|Hne].
    + rewrite decide_True by auto. rewrite find_session in Hf.
      apply (iter_find_Some_1 (λ e, session_key e = _)) in Hf as Hk.
      change (session_key s) with (ds_account s, ds_slot s, ds_profile s). rewrite Hf. simpl.
      f_equal. destruct Hk as [_ [= -> -> ->]]. by destruct s.
    + rewrite decide_False; [done|]. naive_solver.
  - case_decide; simplify_eq/=.
    + rewrite decide_False; [done|]. naive_solver.
    + rewrite iter_find_app. rewrite !find_session in *.
      destruct (decide (session_key s = (a, sl, p))) as [Heq|Hne].
      * rewrite decide_True by auto. rewrite <-Heq.
        change (session_key s) with (ds_account s, ds_slot s, ds_profile s).
        rewrite Hf, iter_find_cons, decide_True by done. done.
      * rewrite decide_False by naive_solver.
        destruct (iter_find (λ e, session_key e = (a, sl, p)) (sessions d)); [done|].
        by rewrite iter_find_cons, decide_False.
Qed.

(** Opening a session applies the policy decision and nothing else: the
    recorded decision is the engine's on the current usage; a denial touches no
    row (not even an already open session); otherwise, unless the table is full,
    the session is open exactly once with the requested roaming flag, and every
    other session is untouched. *)
Theorem open_session_spec d a s p r st lc e o d' :
  wf d → decide_and_open d a s p r st lc e = (o, d') →
  let dec := evaluate_session
    (mkRequest st lc e (usage_of d a) (if r then Roaming else Home)) in
  rec_decision (oo_record o) = dec ∧
  (oo_recorded o = NotRecorded ↔ ∃ why, dec = Deny why) ∧
  (oo_recorded o = NotRecorded ∨ oo_recorded o = RecTableFull → d' = d) ∧
  (oo_recorded o = Opened ∨ oo_recorded o = Refreshed →
   NoDup (session_key <$> sessions d') ∧
   ∀ a' s' p', session_of d' a' s' p' =
     if decide ((a, s, p) = (a', s', p')) then Some (mkSession a s p r)
     else session_of d a' s' p').
Proof.
  intros Hwf H dec. pose proof (decide_and_open_wf d a s p r st lc e Hwf) as Hwf'.
  rewrite H in Hwf'. simpl in Hwf'. unfold decide_and_open in H. simpl in H. fold dec in H.
  destruct (record_session d (mkSession a s p r)) as [rr dr] eqn:Hrec.
  assert (Hnn : rr ≠ NotRecorded ∧ (rr = RecTableFull → dr = d)).
  { unfold record_session in Hrec. by case_all. }
  destruct dec eqn:Hdec; simplify_eq/=; split_and!; try done; try naive_solver.
  - intros Hor. split; [by apply wf_session_keys|]. intros a' s' p'.
    rewrite (session_of_record _ _ _ _ _ _ _ Hrec). unfold session_key. simpl.
    repeat case_decide; naive_solver.
  - intros Hor. split; [by apply wf_session_keys|]. intros a' s' p'.
    rewrite (session_of_record _ _ _ _ _ _ _ Hrec). unfold session_key. simpl.
    repeat case_decide; naive_solver.
Qed.

(** ** Concrete runs *)

Definition demo_ops : list DataOp := [OpFeed 1 300; OpFeed 2 5; OpClose 1 0 0; OpFeed 1 u64_max].

Lemma data_ops_witness : wf (run_ops new demo_ops).
Proof. apply data_ops_preserve_wf; [by repeat constructor|apply data_wf_new]. Defined.

Lemma usage_is_sum_witness : used_bytes (usage_of (run_ops new demo_ops) 1) = u64_max.
Proof.
  rewrite usage_is_sum; [vm_compute; reflexivity|apply data_wf_new|apply Forall_nil_2|
    by repeat constructor|by repeat constructor|].
  repeat constructor; by intros [].
Defined.

Lemma reset_spacing_witness :
  period_of (reset_usage_and_period new 1 100 (Some 50%N)).2 1 = Some (mkPeriod 100 50).
Proof.
  destruct (reset_spacing new 1 100 (Some 50%N) (mkUsage 0) (mkUsage 0) (Installed (mkPeriod 100 50))
    (reset_usage_and_period new 1 100 (Some 50%N)).2 (mkPeriod 100 50) [] false 150 0)
    as (Hp & _ & _); [apply data_wf_new|reflexivity|reflexivity|apply Forall_nil_2|
      vm_compute; reflexivity|]. exact Hp.
Defined.

Lemma open_session_witness :
  let plan := mkEntitlement (Some 100%N) 80 true 95 in
  session_of (decide_and_open new 1 0 0 true Policy.Active Policy.Enabled plan).2 1 0 0 =
  Some (mkSession 1 0 0 true).
Proof.
  cbv zeta. set (plan := mkEntitlement (Some 100%N) 80 true 95).
  destruct (open_session_spec new 1 0 0 true Policy.Active Policy.Enabled plan
    (decide_and_open new 1 0 0 true Policy.Active Policy.Enabled plan).1
    (decide_and_open new 1 0 0 true Policy.Active Policy.Enabled plan).2)
    as (_ & _ & _ & Ho); [apply data_wf_new|reflexivity|].
  destruct Ho as [_ Ho]; [left; vm_compute; reflexivity|]. exact (Ho 1 0 0)%N.
Defined.
