(* ===== verification/Worm.v ===== *)
(** * The local evidence log: [citadel-integration/src/lib.rs]

    [WormEntry], [WormLog] and its recording operations, and the chain
    verifier.  SHA-256 comes from the [sha2] crate: it is the parameter
    [sha256] of the class [Sha256], and the only documented behaviour used of
    it is the 32-byte digest size ([Sha256Laws]).  Strings are byte strings. *)

From Stdlib Require Import Ascii.
From S2P Require Import Prelude Text.

Class Sha256 := sha256 : string → string.

(** A SHA-256 digest is 32 bytes. *)
Class Sha256Laws `{Sha256} : Prop := {
  sha256_length s : String.length (sha256 s) = 32;
}.

Inductive SandboxTier := T1Critical | T2Trusted | T3Untrusted.

#[global] Instance SandboxTier_eq_dec : EqDecision SandboxTier.
Proof. solve_decision. Defined.

Definition tier_as_str (t : SandboxTier) : string :=
  match t with T1Critical => "t1" | T2Trusted => "t2" | T3Untrusted => "t3" end.

Inductive ShadowMarshalOutcome := Execute | Refuse | HardStop | Unreachable | Faulty.

#[global] Instance ShadowMarshalOutcome_eq_dec : EqDecision ShadowMarshalOutcome.
Proof. solve_decision. Defined.

Definition shadow_as_str (o : ShadowMarshalOutcome) : string :=
  match o with
  | Execute => "execute"
  | Refuse => "refuse"
  | HardStop => "hard_stop"
  | Unreachable => "unreachable"
  | Faulty => "faulty"
  end.

Record WormEntry := mkEntry {
  e_seq : N;
  e_module_id : string;
  e_instance_id : option string;
  e_tier : option SandboxTier;
  e_authorized : bool;
  e_reason : option string;
  e_shadow_marshal : option ShadowMarshalOutcome;
  e_prev_hash : string;
  e_entry_hash : string;
}.

#[global] Instance WormEntry_eq_dec : EqDecision WormEntry.
Proof. solve_decision. Defined.

(** [x.to_le_bytes()] of an integer of [n] bytes. *)
Fixpoint to_le_bytes (n : nat) (x : N) : string :=
  match n with
  | O => ""
  | S n => String (ascii_of_N (x mod 256)) (to_le_bytes n (x / 256))
  end.

(** [[b as u8]] *)
Definition flag_char (b : bool) : ascii := if b then ascii_of_N 1 else ascii_of_N 0.

Definition is_some {A} (o : option A) : bool := match o with Some _ => true | None => false end.

(** [[0u8; 32]] *)
Fixpoint zeros (n : nat) : string :=
  match n with O => "" | S n => String (ascii_of_N 0) (zeros n) end.

Definition ZERO_HASH : string := zeros 32.

(** The bytes [WormEntry::compute_hash] feeds to the hasher, in order. *)
Definition preimage (prev_hash : string) (seq : N) (module_id : string)
    (instance_id : option string) (tier : option SandboxTier) (authorized : bool)
    (reason : option string) (shadow_marshal : option ShadowMarshalOutcome) : string :=
  prev_hash +:+ to_le_bytes 8 seq +:+ module_id +:+
  String (flag_char (is_some instance_id)) (default "" instance_id +:+
  String (flag_char (is_some tier)) (default "" (tier_as_str <$> tier) +:+
  String (flag_char authorized) (default "" reason +:+
  String (flag_char (is_some shadow_marshal)) (default "" (shadow_as_str <$> shadow_marshal))))).

Definition entry_preimage (e : WormEntry) : string :=
  preimage (e_prev_hash e) (e_seq e) (e_module_id e) (e_instance_id e) (e_tier e)
    (e_authorized e) (e_reason e) (e_shadow_marshal e).

Section worm.
Context `{Sha256}.

Definition compute_hash (prev_hash : string) (seq : N) (module_id : string)
    (instance_id : option string) (tier : option SandboxTier) (authorized : bool)
    (reason : option string) (shadow_marshal : option ShadowMarshalOutcome) : string :=
  sha256 (preimage prev_hash seq module_id instance_id tier authorized reason shadow_marshal).

(** [WormLog] is its [entries]. *)
Definition last_hash (log : list WormEntry) : string :=
  default ZERO_HASH (e_entry_hash <$> last log).

Definition record (log : list WormEntry) (module_id : string) (instance_id : option string)
    (tier : option SandboxTier) (authorized : bool) (reason : option string)
    (shadow_marshal : option ShadowMarshalOutcome) : list WormEntry :=
  let seq := len log in
  let prev_hash := last_hash log in
  let entry_hash :=
    compute_hash prev_hash seq module_id instance_id tier authorized reason shadow_marshal in
  log ++ [mkEntry seq module_id instance_id tier authorized reason shadow_marshal
            prev_hash entry_hash].

Definition record_shadow_marshal_evaluation (log : list WormEntry)
    (module_id instance_id : string) (outcome : ShadowMarshalOutcome) : list WormEntry :=
  record log module_id (Some instance_id) None false None (Some outcome).

Definition record_proxy_verification (log : list WormEntry)
    (module_id instance_id : string) (authorized : bool) (reason : option string) :
    list WormEntry :=
  record log module_id (Some instance_id) None authorized reason None.

Definition record_lifecycle_transition (log : list WormEntry)
    (subject_id from_state to_state : string) (authorized : bool) (reason : option string) :
    list WormEntry :=
  let reason :=
    match reason with
    | Some r => r +:+ " [" +:+ from_state +:+ " -> " +:+ to_state +:+ "]"
    | None => "[" +:+ from_state +:+ " -> " +:+ to_state +:+ "]"
    end in
  record log subject_id None None authorized (Some reason) None.

Fixpoint verify_loop (prev_hash : string) (entries : list WormEntry) : bool :=
  match entries with
  | [] => true
  | entry :: rest =>
      if decide (e_prev_hash entry ≠ prev_hash) then false
      else
        let recomputed :=
          compute_hash (e_prev_hash entry) (e_seq entry) (e_module_id entry)
            (e_instance_id entry) (e_tier entry) (e_authorized entry) (e_reason entry)
            (e_shadow_marshal entry) in
        if decide (recomputed ≠ e_entry_hash entry) then false
        else verify_loop (e_entry_hash entry) rest
  end.

Definition verify_chain (log : list WormEntry) : bool := verify_loop ZERO_HASH log.

(** A recording call, with its arguments. *)
Inductive worm_op :=
  | WShadow (module_id instance_id : string) (outcome : ShadowMarshalOutcome)
  | WProxy (module_id instance_id : string) (authorized : bool) (reason : option string)
  | WLifecycle (subject from to : string) (authorized : bool) (reason : option string).

Definition run_worm_op (log : list WormEntry) (o : worm_op) : list WormEntry :=
  match o with
  | WShadow m i out => record_shadow_marshal_evaluation log m i out
  | WProxy m i a r => record_proxy_verification log m i a r
  | WLifecycle s f t a r => record_lifecycle_transition log s f t a r
  end.

Definition run_worm_ops (log : list WormEntry) (ops : list worm_op) : list WormEntry :=
  foldl run_worm_op log ops.

(** ** The chain invariant *)

Lemma verify_loop_cons prev e l :
  verify_loop prev (e :: l) = true ↔
  e_prev_hash e = prev ∧ e_entry_hash e = sha256 (entry_preimage e) ∧
  verify_loop (e_entry_hash e) l = true.
Proof.
  cbn [verify_loop]. change (compute_hash _ _ _ _ _ _ _ _) with (sha256 (entry_preimage e)).
  generalize (sha256 (entry_preimage e)) as h. intros h.
  destruct (decide (e_prev_hash e ≠ prev)) as [Hp|Hp%dec_stable].
  { split; [done|]. intros [? _]. by destruct Hp. }
  destruct (decide (h ≠ e_entry_hash e)) as [Hh|Hh%dec_stable].
  { split; [done|]. intros (_ & ? & _). by destruct Hh. }
  by rewrite Hp, Hh; intuition.
Qed.

Lemma verify_loop_snoc prev l e :
  verify_loop prev (l ++ [e]) = true ↔
  verify_loop prev l = true ∧
  e_prev_hash e = default prev (e_entry_hash <$> last l) ∧
  e_entry_hash e = sha256 (entry_preimage e).
Proof.
  revert prev. induction l as [|x l IH]; intros prev.
  - cbn [app last fmap option_fmap option_map default from_option].
    rewrite verify_loop_cons. cbn [verify_loop]. tauto.
  - cbn [app]. rewrite !verify_loop_cons, IH, last_cons.
    destruct (last l); cbn [fmap option_fmap option_map default from_option]; tauto.
Qed.

Lemma last_hash_snoc l e : last_hash (l ++ [e]) = e_entry_hash e.
Proof. unfold last_hash. by rewrite last_snoc. Qed.

Lemma verify_chain_snoc l e :
  verify_chain (l ++ [e]) = true ↔
  verify_chain l = true ∧ e_prev_hash e = last_hash l ∧
  e_entry_hash e = sha256 (entry_preimage e).
Proof. apply verify_loop_snoc. Qed.

Lemma record_verifies l m i t a r s :
  verify_chain l = true → verify_chain (record l m i t a r s) = true.
Proof. intros Hl. unfold record. by rewrite verify_chain_snoc. Qed.

Lemma record_append l m i t a r s :
  ∃ e, record l m i t a r s = l ++ [e] ∧ e_seq e = len l ∧ e_module_id e = m ∧
       e_authorized e = a ∧ e_reason e = r.
Proof. eexists. done. Qed.

Lemma run_worm_op_append l o : ∃ e, run_worm_op l o = l ++ [e] ∧ e_seq e = len l.
Proof. destruct o; eexists; done. Qed.

Lemma run_worm_op_verifies l o :
  verify_chain l = true → verify_chain (run_worm_op l o) = true.
Proof. destruct o; apply record_verifies. Qed.

Lemma run_worm_ops_app l ops ops' :
  run_worm_ops l (ops ++ ops') = run_worm_ops (run_worm_ops l ops) ops'.
Proof. apply foldl_app. Qed.

Lemma run_worm_ops_history l ops :
  verify_chain l = true →
  verify_chain (run_worm_ops l ops) = true ∧
  ∃ es, run_worm_ops l ops = l ++ es ∧ length es = length ops ∧
        ∀ k e, es !! k = Some e → e_seq e = (len l + N.of_nat k)%N.
Proof.
  intros Hl. induction ops as [|o ops IH] using rev_ind; [split; [done|]; exists []; by rewrite app_nil_r|].
  rewrite run_worm_ops_app. destruct IH as [Hv (es & Hes & Hlen & Hseq)].
  split; [by apply run_worm_op_verifies|]. cbn [run_worm_ops foldl].
  destruct (run_worm_op_append (run_worm_ops l ops) o) as (e & -> & He).
  exists (es ++ [e]). rewrite Hes, !length_snoc, Hlen. split_and!; [by rewrite app_assoc|done|].
  intros k e' [Hk|[Hk He']]%lookup_app_Some; [by apply Hseq|].
  apply list_lookup_singleton_Some in He' as [Hz <-]. rewrite He, Hes. unfold len.
  rewrite length_app. lia.
Qed.
End worm.

(** ** What a hash determines *)

(** Text with none of the two bytes the encoding uses as field flags. *)
Definition plain_text (s : string) : bool := all_chars (λ c, bool_decide (2 ≤ N_of_ascii c)%N) s.

Definition plain_entry (e : WormEntry) : Prop :=
  (e_seq e ≤ u64_max)%N ∧ String.length (e_prev_hash e) = 32 ∧
  plain_text (e_module_id e) = true ∧ plain_text (default "" (e_instance_id e)) = true ∧
  plain_text (default "" (e_reason e)) = true.

#[global] Instance plain_entry_dec e : Decision (plain_entry e).
Proof. unfold plain_entry. apply _. Defined.

(** Agreement on every field, an absent reason and an empty one not told apart. *)
Definition same_entry (e e' : WormEntry) : Prop :=
  e_seq e = e_seq e' ∧ e_module_id e = e_module_id e' ∧ e_instance_id e = e_instance_id e' ∧
  e_tier e = e_tier e' ∧ e_authorized e = e_authorized e' ∧
  default "" (e_reason e) = default "" (e_reason e') ∧
  e_shadow_marshal e = e_shadow_marshal e' ∧
  e_prev_hash e = e_prev_hash e' ∧ e_entry_hash e = e_entry_hash e'.

Lemma string_app_split (a b c d : string) :
  String.length a = String.length b → a +:+ c = b +:+ d → a = b ∧ c = d.
Proof.
  revert b. induction a as [|x a IH]; intros [|y b] Hlen Heq; try discriminate Hlen; [done|].
  rewrite !string_app_cons in Heq. injection Heq as -> Heq. injection Hlen as Hlen.
  destruct (IH b Hlen Heq) as [-> ->]. done.
Qed.

Lemma length_to_le_bytes n x : String.length (to_le_bytes n x) = n.
Proof. revert x. induction n as [|n IH]; intros x; [done|]. cbn. by rewrite IH. Qed.

Lemma ascii_of_N_inj_byte a b : (a < 256)%N → (b < 256)%N → ascii_of_N a = ascii_of_N b → a = b.
Proof. intros Ha Hb Heq%(f_equal N_of_ascii). by rewrite !N_ascii_embedding in Heq. Qed.

Lemma to_le_bytes_inj n x y :
  (x < 256 ^ N.of_nat n)%N → (y < 256 ^ N.of_nat n)%N →
  to_le_bytes n x = to_le_bytes n y → x = y.
Proof.
  revert x y. induction n as [|n IH]; intros x y Hx Hy Heq; [simpl in *; lia|].
  rewrite Nat2N.inj_succ, N.pow_succ_r' in Hx, Hy.
  cbn [to_le_bytes] in Heq. injection Heq as Hb Hr.
  apply ascii_of_N_inj_byte in Hb; [|apply N.mod_lt; done..].
  apply IH in Hr; [|apply N.Div0.div_lt_upper_bound; done..].
  rewrite (N.div_mod x 256), (N.div_mod y 256) by done. congruence.
Qed.

Lemma flag_char_inj b b' : flag_char b = flag_char b' → b = b'.
Proof. by destruct b, b'. Qed.

Lemma plain_not_flag c b : bool_decide (2 ≤ N_of_ascii c)%N = true → c ≠ flag_char b.
Proof. intros Hc%bool_decide_eq_true ->. destruct b; by apply Hc. Qed.

(** A plain field ends at the first flag byte. *)
Lemma field_split a a' b b' r r' :
  plain_text a = true → plain_text a' = true →
  a +:+ String (flag_char b) r = a' +:+ String (flag_char b') r' →
  a = a' ∧ b = b' ∧ r = r'.
Proof.
  revert a'. induction a as [|x a IH]; intros [|y a'] Ha Ha' Heq;
    rewrite ?string_app_cons in Heq;
    unfold plain_text in *; cbn [all_chars] in *; rewrite ?andb_true_iff in *.
  - injection Heq as Hf ->. by apply flag_char_inj in Hf as ->.
  - injection Heq as Hf _. exfalso. by apply (plain_not_flag y b); [apply Ha'|].
  - injection Heq as Hf _. exfalso. by apply (plain_not_flag x b'); [apply Ha|].
  - injection Heq as -> Heq. destruct Ha, Ha'. by destruct (IH a') as (-> & -> & ->).
Qed.

Lemma option_text_inj {A} (f : A → string) (o o' : option A) :
  (∀ x y, f x = f y → x = y) → is_some o = is_some o' →
  default "" (f <$> o) = default "" (f <$> o') → o = o'.
Proof.
  intros Hf Hs Heq. destruct o as [x|], o' as [y|]; try discriminate Hs; [|done].
  f_equal. by apply Hf.
Qed.

Lemma tier_as_str_inj t t' : tier_as_str t = tier_as_str t' → t = t'.
Proof. by destruct t, t'. Qed.

Lemma shadow_as_str_inj o o' : shadow_as_str o = shadow_as_str o' → o = o'.
Proof. by destruct o, o'. Qed.

Lemma tier_plain o : plain_text (default "" (tier_as_str <$> o)) = true.
Proof. by destruct o as [[]|]. Qed.

(** Equal preimages of plain entries agree on everything they hash. *)
Lemma preimage_determines e e' :
  plain_entry e → plain_entry e' → entry_preimage e = entry_preimage e' →
  e_entry_hash e = e_entry_hash e' → same_entry e e'.
Proof.
  intros (Hs & Hl & Hm & Hi & Hr) (Hs' & Hl' & Hm' & Hi' & Hr') Heq Hhash.
  unfold entry_preimage, preimage in Heq.
  apply string_app_split in Heq as [Hp Heq]; [|congruence].
  apply string_app_split in Heq as [Hq Heq]; [|by rewrite !length_to_le_bytes].
  apply to_le_bytes_inj in Hq; [|eapply N.le_lt_trans; [done|done]..].
  apply field_split in Heq as (Hmod & Hif & Heq); [|done..].
  apply field_split in Heq as (Hinst & Htf & Heq); [|done..].
  apply field_split in Heq as (Htier & Hauth & Heq); [|apply tier_plain..].
  apply field_split in Heq as (Hreason & Hsf & Hshadow); [|done..].
  unfold same_entry. split_and!; try done.
  - apply (option_text_inj id); [done..|]. by rewrite !option_fmap_id.
  - by apply (option_text_inj tier_as_str); [apply tier_as_str_inj|..].
  - by apply (option_text_inj shadow_as_str); [apply shadow_as_str_inj|..].
Qed.

Section tamper.
Context `{Sha256}.

(** The two logs themselves exhibit a broken hash: an entry of one and an entry
    of the other feed different bytes to the hasher and get the same digest, or
    an entry of either hashes to the all-zero digest that starts a chain. *)
Definition exhibits_collision (l l' : list WormEntry) : Prop :=
  ∃ e e', e ∈ l ∧ e' ∈ l' ∧ entry_preimage e ≠ entry_preimage e' ∧
    sha256 (entry_preimage e) = sha256 (entry_preimage e').

Definition exhibits_zero_preimage (l : list WormEntry) : Prop :=
  ∃ e, e ∈ l ∧ sha256 (entry_preimage e) = ZERO_HASH.

Definition hash_broken_by (l l' : list WormEntry) : Prop :=
  exhibits_collision l l' ∨ exhibits_zero_preimage l ∨ exhibits_zero_preimage l'.

Lemma hash_broken_snoc l l' e e' :
  hash_broken_by l l' → hash_broken_by (l ++ [e]) (l' ++ [e']).
Proof.
  intros [(x & y & Hx & Hy & ?)|[(x & Hx & ?)|(x & Hx & ?)]].
  - left. exists x, y. split_and!; [by apply elem_of_app; left..|tauto|tauto].
  - right; left. exists x. split; [by apply elem_of_app; left|done].
  - right; right. exists x. split; [by apply elem_of_app; left|done].
Qed.

Lemma tamper_evident_aux l l' :
  verify_chain l = true → verify_chain l' = true →
  Forall plain_entry l → Forall plain_entry l' →
  last_hash l = last_hash l' →
  Forall2 same_entry l l' ∨ hash_broken_by l l'.
Proof.
  revert l'. induction l as [|e l IH] using rev_ind; intros l';
    (destruct l' as [|e' l' _] using rev_ind; intros Hv Hv' Hp Hp' Hlast);
    rewrite ?last_hash_snoc in Hlast.
  - by left.
  - apply verify_chain_snoc in Hv' as (_ & _ & He').
    right; right; right. exists e'. split; [set_solver|]. by rewrite <-He', <-Hlast.
  - apply verify_chain_snoc in Hv as (_ & _ & He).
    right; right; left. exists e. split; [set_solver|]. by rewrite <-He, Hlast.
  - apply verify_chain_snoc in Hv as (Hv & Hprev & He).
    apply verify_chain_snoc in Hv' as (Hv' & Hprev' & He').
    apply Forall_app in Hp as [Hp Hpe].
    apply Forall_app in Hp' as [Hp' Hpe'].
    rewrite Forall_singleton in Hpe, Hpe'.
    destruct (decide (entry_preimage e = entry_preimage e')) as [Hpre|Hpre];
      [|right; left; exists e, e'; split_and!; [set_solver|set_solver|done|congruence]].
    assert (same_entry e e') as Hsame by exact (preimage_determines e e' Hpe Hpe' Hpre Hlast).
    assert (last_hash l = last_hash l') as Hl.
    { destruct Hsame as (_ & _ & _ & _ & _ & _ & _ & Hpp & _). congruence. }
    destruct (IH l') as [Hall|Hbad]; [done..| |right; by apply hash_broken_snoc].
    left. apply Forall2_app; [done|]. by constructor.
Qed.


(** Recording keeps the chain valid: from the empty log, whatever sequence
    of recording calls is made, [verify_chain] accepts the log, the log holds
    one entry per call numbered from 0, and every log along the way is a
    prefix of the later ones (nothing is edited or removed). *)
Theorem recorded_log_verifies ops ops' :
  let log := run_worm_ops [] ops in
  let log' := run_worm_ops [] (ops ++ ops') in
  verify_chain log' = true ∧ log `prefix_of` log' ∧ length log' = length (ops ++ ops') ∧
  ∀ k e, log' !! k = Some e → e_seq e = N.of_nat k.
Proof.
  cbn zeta. destruct (run_worm_ops_history [] (ops ++ ops')) as [Hv (es & Hes & Hlen & Hseq)]; [done|].
  destruct (run_worm_ops_history [] ops) as [Hv1 _]; [done|].
  split_and!; [done| |by rewrite Hes|by rewrite Hes].
  rewrite run_worm_ops_app. 
  destruct (run_worm_ops_history (run_worm_ops [] ops) ops' Hv1) as [_ (es2 & -> & _)].
  by exists es2.
Qed.

(** What the hash does not cover: the presence of a reason carries no flag
    byte, so replacing an absent reason by an empty one (or back) in the last
    entry of any log leaves the chain valid, although the entry changed. *)
Theorem empty_reason_not_covered log e :
  let with_reason r := mkEntry (e_seq e) (e_module_id e) (e_instance_id e) (e_tier e)
                         (e_authorized e) r (e_shadow_marshal e) (e_prev_hash e) (e_entry_hash e) in
  with_reason None ≠ with_reason (Some "") ∧
  verify_chain (log ++ [with_reason None]) = verify_chain (log ++ [with_reason (Some "")]).
Proof.
  cbn zeta. split; [congruence|]. apply eq_true_iff_eq. by rewrite !verify_chain_snoc.
Qed.
End tamper.

(** A toy digest of the documented size, to run the definitions with: the first
    32 bytes, zero-padded. *)
Module Toy.
Fixpoint fit (n : nat) (s : string) : string :=
  match n, s with
  | O, _ => ""
  | S n, EmptyString => String (ascii_of_N 0) (fit n "")
  | S n, String c s => String c (fit n s)
  end.

#[export] Instance toy_sha256 : Sha256 := λ s, fit 32 (String (ascii_of_N 255) s).

#[export] Instance toy_laws : Sha256Laws.
Proof.
  constructor. intros s. unfold sha256, toy_sha256. generalize (String (ascii_of_N 255) s) as t.
  generalize 32 as n. induction n as [|n IH]; intros [|c t]; cbn; by rewrite ?IH.
Qed.
End Toy.

