(* ===== verification/AuditChain.v ===== *)
(** * The bounded audit chain: [kernel-arm/src/audit_chain.rs]

    [BoundedAudit] puts a hard bound on the evidence log of [Worm]: a quota of
    individual entries per class of event, and counted, summarised coalescing
    past it.  [ReconcileMemory] is the reconciler's memory of its previous
    pass. *)

From Stdlib Require Import Ascii.
From S2P Require Import Prelude Text Worm.

Inductive AuditClass :=
  | Applied | DataActivity | GateBlocked | GateFailClosed | CapDenialEsim
  | CapDenialMvno | CapDenialData | Rejected | Incident | CleanPassClass.

#[global] Instance AuditClass_eq_dec : EqDecision AuditClass.
Proof. solve_decision. Defined.

Definition CLASS_COUNT : nat := 10.
Definition QUOTAS : list nat := [128; 64; 24; 24; 16; 16; 16; 48; 32; 8].
Definition MAX_SUMMARY_COMMITS : nat := 8.
Definition SUMMARY_GROWTH : N := 4.
Definition REASON_LIMIT : nat := 120.

Definition total_capacity : nat := foldl (λ sum q, sum + (q + MAX_SUMMARY_COMMITS)) 0 QUOTAS.
Definition TOTAL_CAPACITY : nat := total_capacity.

Definition SUMMARY_SUBJECT_PREFIX : string := "audit:summary:".

Definition ALL : list AuditClass :=
  [Applied; DataActivity; GateBlocked; GateFailClosed; CapDenialEsim; CapDenialMvno;
   CapDenialData; Rejected; Incident; CleanPassClass].

Definition index (c : AuditClass) : nat :=
  match c with
  | Applied => 0 | DataActivity => 1 | GateBlocked => 2 | GateFailClosed => 3
  | CapDenialEsim => 4 | CapDenialMvno => 5 | CapDenialData => 6 | Rejected => 7
  | Incident => 8 | CleanPassClass => 9
  end.

Definition name (c : AuditClass) : string :=
  match c with
  | Applied => "applied"
  | DataActivity => "data-activity"
  | GateBlocked => "gate-blocked"
  | GateFailClosed => "gate-fail-closed"
  | CapDenialEsim => "cap-denial.esim"
  | CapDenialMvno => "cap-denial.mvno"
  | CapDenialData => "cap-denial.data"
  | Rejected => "rejected"
  | Incident => "incident"
  | CleanPassClass => "clean-pass"
  end.

Definition quota (c : AuditClass) : nat := QUOTAS !!! index c.

Inductive AuditOutcome :=
  | Recorded (class : AuditClass)
  | Coalesced (class : AuditClass) (dropped : N) (summary_committed : bool) (last_reason : string).

Record ClassState := mkClass {
  recorded : nat;
  dropped : N;
  summaries : nat;
  next_commit_at : N;
  last_reason : string;
}.

Definition class_new : ClassState := mkClass 0 0 0 1 "".

#[global] Instance ClassState_inhabited : Inhabited ClassState := populate class_new.

(** [str::is_char_boundary] of a UTF-8 byte string: the two ends, and any
    position whose byte does not continue a character. *)
Definition is_char_boundary (s : string) (i : nat) : bool :=
  bool_decide (i = 0) || bool_decide (i = String.length s) ||
  match String.get i s with
  | Some c => negb (bool_decide (128 ≤ N_of_ascii c < 192)%N)
  | None => false
  end.

(** [while end > 0 && !s.is_char_boundary(end) { end -= 1 }] *)
Fixpoint boundary_below (s : string) (e : nat) : nat :=
  match e with
  | O => O
  | S e' => if is_char_boundary s e then e else boundary_below s e'
  end.

Definition truncate (s : string) (limit : nat) : string :=
  if decide (String.length s ≤ limit) then s
  else String.substring 0 (boundary_below s limit) s +:+ "...".

Record BoundedAudit := mkAudit {
  log : list WormEntry;
  classes : list ClassState;
}.

Definition audit_new : BoundedAudit := mkAudit [] (replicate CLASS_COUNT class_new).

Definition class_of (a : BoundedAudit) (c : AuditClass) : ClassState := classes a !!! index c.

Definition set_class (a : BoundedAudit) (c : AuditClass) (st : ClassState) : BoundedAudit :=
  mkAudit (log a) (<[index c := st]> (classes a)).

Definition set_log (a : BoundedAudit) (l : list WormEntry) : BoundedAudit :=
  mkAudit l (classes a).

Section audit.
Context `{Sha256}.

Definition summary_text (c : AuditClass) (st : ClassState) : string :=
  "class " +:+ name c +:+ " coalesced " +:+ pretty (dropped st) +:+
  " event(s), not individually recorded (quota " +:+ pretty (N.of_nat (quota c)) +:+
  ", recorded " +:+ pretty (N.of_nat (recorded st)) +:+ "); last: " +:+ last_reason st.

Definition coalesce (a : BoundedAudit) (c : AuditClass) (reason : string) :
    BoundedAudit * AuditOutcome :=
  let st := class_of a c in
  let st := mkClass (recorded st) (saturating_add u64_max (dropped st) 1) (summaries st)
              (next_commit_at st) (truncate reason REASON_LIMIT) in
  if decide (summaries st < MAX_SUMMARY_COMMITS ∧ (next_commit_at st ≤ dropped st)%N) then
    let subject := SUMMARY_SUBJECT_PREFIX +:+ name c in
    let text := summary_text c st in
    let st := mkClass (recorded st) (dropped st) (S (summaries st))
                (saturating_mul u64_max (next_commit_at st) SUMMARY_GROWTH) (last_reason st) in
    let log' := record_lifecycle_transition (log a) subject "individual entries"
                  ("coalesced (" +:+ pretty (dropped st) +:+ ")") false (Some text) in
    (set_class (set_log a log') c st, Coalesced c (dropped st) true (last_reason st))
  else (set_class a c st, Coalesced c (dropped st) false (last_reason st)).

Definition note_coalesced (a : BoundedAudit) (c : AuditClass) (reason : string) :
    BoundedAudit * AuditOutcome :=
  coalesce a c reason.

Definition record (a : BoundedAudit) (c : AuditClass) (subject from to : string)
    (authorized : bool) (reason : option string) : BoundedAudit * AuditOutcome :=
  let st := class_of a c in
  if decide (recorded st < quota c ∧ length (log a) < TOTAL_CAPACITY) then
    let log' := record_lifecycle_transition (log a) subject from to authorized reason in
    (set_class (set_log a log') c
       (mkClass (S (recorded st)) (dropped st) (summaries st) (next_commit_at st) (last_reason st)),
     Recorded c)
  else
    let summary :=
      match reason with
      | Some r => subject +:+ " [" +:+ from +:+ " -> " +:+ to +:+ "]: " +:+ r
      | None => subject +:+ " [" +:+ from +:+ " -> " +:+ to +:+ "]"
      end in
    coalesce a c summary.

Definition last_entry (a : BoundedAudit) : option (bool * option string) :=
  e ← last (log a); Some (e_authorized e, e_reason e).

Definition total_dropped (a : BoundedAudit) : N :=
  foldl (λ s st, saturating_add u64_max s (dropped st)) 0%N (classes a).

(** The loop of [verify] over the classes: the two running sums, or an early
    [return false]. *)
Fixpoint verify_classes (a : BoundedAudit) (cs : list AuditClass) (appended summed : nat) :
    option (nat * nat) :=
  match cs with
  | [] => Some (appended, summed)
  | c :: cs =>
      let st := class_of a c in
      if decide (quota c < recorded st ∨ MAX_SUMMARY_COMMITS < summaries st) then None
      else verify_classes a cs (appended + (recorded st + summaries st)) (summed + summaries st)
  end.

Definition is_summary (e : WormEntry) : bool :=
  starts_with (e_module_id e) SUMMARY_SUBJECT_PREFIX.

Definition verify (a : BoundedAudit) : bool :=
  if negb (verify_chain (log a)) then false
  else
    match verify_classes a ALL 0 0 with
    | None => false
    | Some (appended, summed) =>
        let summary_entries := length (filter (λ e, is_summary e = true) (log a)) in
        bool_decide (length (log a) = appended) &&
        bool_decide (length (log a) ≤ TOTAL_CAPACITY) &&
        bool_decide (summary_entries = summed)
    end.

(** An audited event, as the two recording methods take it. *)
Inductive audit_op :=
  | ARecord (c : AuditClass) (subject from to : string) (authorized : bool)
      (reason : option string)
  | ANote (c : AuditClass) (reason : string).

Definition op_class (o : audit_op) : AuditClass :=
  match o with ARecord c _ _ _ _ _ => c | ANote c _ => c end.

Definition run_audit_op (a : BoundedAudit) (o : audit_op) : BoundedAudit :=
  match o with
  | ARecord c s f t au r => (record a c s f t au r).1
  | ANote c r => (note_coalesced a c r).1
  end.

Definition run_audit_ops (a : BoundedAudit) (ops : list audit_op) : BoundedAudit :=
  foldl run_audit_op a ops.
End audit.

(** ** [ReconcileMemory] *)

Inductive CleanPass :=
  | RecordPass (clean_passes : N)
  | CoalescePass (clean_passes : N).

Record PassPlan := mkPlan {
  fresh : list bool;
  clean : option CleanPass;
}.

Record ReconcileMemory := mkMemory {
  prev : gset string;
  last_clean : bool;
  passes : N;
  clean_passes : N;
}.

Definition memory_new : ReconcileMemory := mkMemory ∅ false 0 0.

Fixpoint observe_loop (prev current : gset string) (keys : list string) :
    gset string * list bool :=
  match keys with
  | [] => (current, [])
  | key :: keys =>
      let new := bool_decide (key ∉ prev) in
      let first_here := bool_decide (key ∉ current) in
      let '(current, fresh) := observe_loop prev ({[key]} ∪ current) keys in
      (current, (new && first_here) :: fresh)
  end.

Definition observe (m : ReconcileMemory) (keys : list string) : ReconcileMemory * PassPlan :=
  let passes := saturating_add u64_max (passes m) 1 in
  let '(current, fresh) := observe_loop (prev m) ∅ keys in
  let is_empty := bool_decide (keys = []) in
  let clean_passes :=
    if is_empty then saturating_add u64_max (clean_passes m) 1 else clean_passes m in
  let clean :=
    if is_empty then
      Some (if last_clean m then CoalescePass clean_passes else RecordPass clean_passes)
    else None in
  (mkMemory current is_empty passes clean_passes, mkPlan fresh clean).

(** ** The books *)

Section books.
Context `{Sha256}.

(** The sum of [f] over the ten classes. *)
Definition sum_classes (f : AuditClass → nat) : nat := sum_list_with f ALL.

Lemma elem_of_ALL c : c ∈ ALL.
Proof. destruct c; repeat (first [left | right]). Qed.

Lemma sum_classes_update f g c :
  (∀ d, d ≠ c → g d = f d) → sum_classes g + f c = sum_classes f + g c.
Proof.
  intros Hd. unfold sum_classes, ALL. cbn [sum_list_with].
  destruct c; repeat match goal with
    | |- context [g ?d] =>
        lazymatch goal with H' : g d = f d |- _ => fail | _ => idtac end;
        assert (g d = f d) by (by apply Hd)
    end; lia.
Qed.

Lemma sum_classes_le f g : (∀ c, f c ≤ g c) → sum_classes f ≤ sum_classes g.
Proof.
  intros Hfg. unfold sum_classes. induction ALL as [|c l IH]; [done|].
  cbn [sum_list_with]. specialize (Hfg c). lia.
Qed.

Lemma sum_classes_lt f g c : (∀ d, f d ≤ g d) → f c < g c → sum_classes f < sum_classes g.
Proof.
  intros Hle Hlt.
  pose proof (sum_classes_update g (λ d, if decide (d = c) then f c else g d) c) as Hu.
  cbn beta in Hu. rewrite decide_True in Hu by done.
  assert (sum_classes f ≤ sum_classes (λ d, if decide (d = c) then f c else g d)).
  { apply sum_classes_le. intros d. case_decide; subst; auto. }
  specialize (Hu ltac:(intros d Hd; by rewrite decide_False)). lia.
Qed.

(** The commit schedule: the next summary is due at [4 ^ summaries], and the
    class is between two due points until its eight summaries are spent. *)
Record class_ok (c : AuditClass) (st : ClassState) : Prop := {
  ok_recorded : recorded st ≤ quota c;
  ok_summaries : summaries st ≤ MAX_SUMMARY_COMMITS;
  ok_dropped : (dropped st ≤ u64_max)%N;
  ok_next : next_commit_at st = (SUMMARY_GROWTH ^ N.of_nat (summaries st))%N;
  ok_reached : ∀ k, k < summaries st → (SUMMARY_GROWTH ^ N.of_nat k ≤ dropped st)%N;
  ok_due : summaries st < MAX_SUMMARY_COMMITS →
           (dropped st < SUMMARY_GROWTH ^ N.of_nat (summaries st))%N;
}.

Record books (a : BoundedAudit) : Prop := {
  books_len : length (classes a) = CLASS_COUNT;
  books_chain : verify_chain (log a) = true;
  books_class c : class_ok c (class_of a c);
  books_log : length (log a) = sum_classes (λ c, recorded (class_of a c) + summaries (class_of a c));
}.

(** The chain holds exactly the summary entries the counters claim. *)
Definition summaries_in_chain (a : BoundedAudit) : Prop :=
  length (filter (λ e, is_summary e = true) (log a)) =
  sum_classes (λ c, summaries (class_of a c)).

Lemma index_lt c : index c < CLASS_COUNT.
Proof. unfold CLASS_COUNT. destruct c; cbn; lia. Qed.

Lemma index_inj c d : index c = index d → c = d.
Proof. by destruct c, d. Qed.

Lemma class_of_set a c st d :
  length (classes a) = CLASS_COUNT →
  class_of (set_class a c st) d = if decide (d = c) then st else class_of a d.
Proof.
  intros Hlen. unfold class_of, set_class. cbn [classes]. case_decide as Hd.
  - subst. apply list_lookup_total_insert_eq. rewrite Hlen. apply index_lt.
  - apply list_lookup_total_insert_ne. intros Heq%index_inj. congruence.
Qed.

Lemma class_of_set_log a l c : class_of (set_log a l) c = class_of a c.
Proof. done. Qed.

Lemma books_room a c : books a → recorded (class_of a c) < quota c → length (log a) < TOTAL_CAPACITY.
Proof.
  intros Hb Hlt. rewrite (books_log a Hb).
  change TOTAL_CAPACITY with (sum_classes (λ c, quota c + MAX_SUMMARY_COMMITS)).
  pose proof (books_class a Hb) as Hc.
  apply (sum_classes_lt _ _ c); [intros d; pose proof (ok_recorded _ _ (Hc d))|].
  - pose proof (ok_summaries _ _ (Hc d)). lia.
  - pose proof (ok_summaries _ _ (Hc c)). lia.
Qed.

Lemma books_capacity a : books a → length (log a) ≤ TOTAL_CAPACITY.
Proof.
  intros Hb. rewrite (books_log a Hb).
  change TOTAL_CAPACITY with (sum_classes (λ c, quota c + MAX_SUMMARY_COMMITS)).
  apply sum_classes_le. intros c. destruct (books_class a Hb c). lia.
Qed.

Lemma books_new : books audit_new ∧ summaries_in_chain audit_new.
Proof.
  assert (∀ c, class_of audit_new c = class_new) as Hnew by (by intros []).
  split; [|done]. split; [done|done|intros c; rewrite Hnew|done].
  constructor; cbn; [lia..|done|lia|lia].
Qed.

(** The entry a quota admits, and the two ways an event is coalesced. *)
Inductive class_step (c : AuditClass) (st : ClassState) : bool → bool → ClassState → Prop :=
  | step_recorded :
      recorded st < quota c →
      class_step c st true false
        (mkClass (S (recorded st)) (dropped st) (summaries st) (next_commit_at st) (last_reason st))
  | step_counted r :
      ¬ (summaries st < MAX_SUMMARY_COMMITS ∧
         (next_commit_at st ≤ saturating_add u64_max (dropped st) 1)%N) →
      class_step c st false false
        (mkClass (recorded st) (saturating_add u64_max (dropped st) 1) (summaries st)
           (next_commit_at st) r)
  | step_summarised r :
      summaries st < MAX_SUMMARY_COMMITS →
      (next_commit_at st ≤ saturating_add u64_max (dropped st) 1)%N →
      class_step c st false true
        (mkClass (recorded st) (saturating_add u64_max (dropped st) 1) (S (summaries st))
           (saturating_mul u64_max (next_commit_at st) SUMMARY_GROWTH) r).

Lemma growth_small k : k ≤ MAX_SUMMARY_COMMITS → (1 ≤ SUMMARY_GROWTH ^ N.of_nat k ≤ 65536)%N.
Proof. unfold MAX_SUMMARY_COMMITS. intros Hk. do 9 (destruct k as [|k]; [done|]). lia. Qed.

Lemma class_step_ok c st b s st' : class_ok c st → class_step c st b s st' → class_ok c st'.
Proof.
  intros [Hr Hs Hd Hn Hre Hdue] Hstep.
  pose proof (growth_small (summaries st) Hs) as Hg.
  assert (1000000 < u64_max)%N as Hbig by done.
  destruct Hstep as [Hlt|r Hno|r Hlt Hle]; constructor; cbn [recorded dropped summaries next_commit_at];
    try done; unfold saturating_add in *; try lia.
  - intros k Hk. specialize (Hre k Hk). lia.
  - rewrite Hn, Nat2N.inj_succ, N.pow_succ_r'. revert Hg.
    generalize (SUMMARY_GROWTH ^ N.of_nat (summaries st))%N as g.
    unfold saturating_mul, SUMMARY_GROWTH. lia.
  - intros k Hk. specialize (Hdue Hlt). destruct (decide (k = summaries st)) as [->|Hne].
    + rewrite Hn in Hle. lia.
    + specialize (Hre k ltac:(lia)). lia.
  - intros Hlt'. specialize (Hdue Hlt). rewrite Nat2N.inj_succ, N.pow_succ_r'. revert Hg Hdue.
    generalize (SUMMARY_GROWTH ^ N.of_nat (summaries st))%N as g. unfold SUMMARY_GROWTH. lia.
Qed.

(** What every audited event does: one class steps, the others are untouched,
    and the chain grows by one entry when the class recorded or summarised. *)
Inductive audit_step (o : audit_op) (a a' : BoundedAudit) : Prop :=
  | audit_step_intro b s st' (es : list WormEntry) :
      class_step (op_class o) (class_of a (op_class o)) b s st' →
      a' = mkAudit (log a ++ es) (<[index (op_class o) := st']> (classes a)) →
      length es = (if b || s then 1 else 0) →
      (b = true → ∃ subj f t au r, o = ARecord (op_class o) subj f t au r ∧ Forall (λ e, e_module_id e = subj) es) →
      (s = true → Forall (λ e, is_summary e = true) es) →
      (verify_chain (log a) = true → verify_chain (log a ++ es) = true) →
      (∀ subj f t au r, o = ARecord (op_class o) subj f t au r →
         recorded (class_of a (op_class o)) < quota (op_class o) →
         length (log a) < TOTAL_CAPACITY → b = true) →
      audit_step o a a'.

Lemma lifecycle_append l subj f t au r :
  ∃ e, record_lifecycle_transition l subj f t au r = l ++ [e] ∧ e_module_id e = subj.
Proof. eexists. done. Qed.

Lemma is_summary_name c e :
  e_module_id e = SUMMARY_SUBJECT_PREFIX +:+ name c → is_summary e = true.
Proof.
  intros He. unfold is_summary, starts_with. rewrite He, strip_prefix_app. by apply bool_decide_true.
Qed.

Lemma coalesce_step a c r o :
  op_class o = c →
  (∀ subj f t au r, o = ARecord c subj f t au r →
     ¬ (recorded (class_of a c) < quota c ∧ length (log a) < TOTAL_CAPACITY)) →
  audit_step o a (coalesce a c r).1.
Proof.
  intros <- Hno. unfold coalesce. cbn [recorded dropped summaries next_commit_at last_reason].
  destruct (decide (_ ∧ _)) as [[Hlt Hle]|Hn].
  - edestruct lifecycle_append as (e & He & Hm).
    eapply (audit_step_intro _ _ _ false true _ [e]); [by constructor|..]; try done.
    + cbn [fst]. unfold set_class, set_log. cbn [log classes]. by rewrite He.
    + intros _. constructor; [|done]. by eapply is_summary_name.
    + intros Hv. rewrite <-He. by apply record_verifies.
    + intros subj f t au r' Ho H1 H2. by destruct (Hno _ _ _ _ _ Ho).
  - eapply (audit_step_intro _ _ _ false false _ []); [by apply step_counted|..]; try done.
    + cbn [fst]. unfold set_class. by rewrite app_nil_r.
    + by rewrite app_nil_r.
    + intros subj f t au r' Ho H1 H2. by destruct (Hno _ _ _ _ _ Ho).
Qed.

Lemma run_audit_op_step a o : audit_step o a (run_audit_op a o).
Proof.
  destruct o as [c subj f t au r|c r]; cbn [run_audit_op]; [|by apply coalesce_step].
  unfold record. destruct (decide (_ ∧ _)) as [[Hlt Hroom]|Hn].
  - edestruct lifecycle_append as (e & He & Hm).
    eapply (audit_step_intro _ _ _ true false _ [e]); [by constructor|..]; try done.
    + cbn [fst]. unfold set_class, set_log. cbn [log classes]. by rewrite He.
    + intros _. do 5 eexists. split; [done|]. by constructor.
    + intros Hv. rewrite <-He. by apply record_verifies.
  - apply coalesce_step; [done|]. intros; by apply Hn.
Qed.

Lemma class_of_step o a a' st' es :
  length (classes a) = CLASS_COUNT →
  a' = mkAudit (log a ++ es) (<[index (op_class o) := st']> (classes a)) →
  ∀ d, class_of a' d = if decide (d = op_class o) then st' else class_of a d.
Proof. intros Hlen -> d. apply (class_of_set a _ _ d Hlen). Qed.

Lemma sum_classes_step a a' c st' (f : ClassState → nat) :
  (∀ d, class_of a' d = if decide (d = c) then st' else class_of a d) →
  sum_classes (λ d, f (class_of a' d)) + f (class_of a c) =
  sum_classes (λ d, f (class_of a d)) + f st'.
Proof.
  intros Hd.
  rewrite (sum_classes_update (λ d, f (class_of a d)) (λ d, f (class_of a' d)) c).
  - by rewrite Hd, decide_True.
  - intros d Hne. by rewrite Hd, decide_False.
Qed.

Lemma audit_step_books o a a' : books a → audit_step o a a' → books a'.
Proof.
  intros [Hlen Hv Hc Hl] [b s st' es Hst Ha' Hes _ _ Hver _].
  pose proof (class_of_step o a a' st' es Hlen Ha') as Hd.
  pose proof (sum_classes_step a a' _ st' (λ st, recorded st + summaries st) Hd) as Hu.
  split.
  - rewrite Ha'. cbn [classes]. by rewrite length_insert.
  - rewrite Ha'. by apply Hver.
  - intros d. rewrite Hd. case_decide; subst; [|done]. by eapply class_step_ok.
  - rewrite Ha' at 1. cbn [log]. rewrite length_app, Hl, Hes.
    destruct Hst; cbn in Hu |- *; lia.
Qed.

(** An event whose subject is not a summary subject, as no subject the kernel
    audits is. *)
Definition admissible (o : audit_op) : Prop :=
  match o with
  | ARecord _ s _ _ _ _ => starts_with s SUMMARY_SUBJECT_PREFIX = false
  | ANote _ _ => True
  end.

Lemma audit_step_summaries o a a' :
  length (classes a) = CLASS_COUNT → admissible o →
  summaries_in_chain a → audit_step o a a' → summaries_in_chain a'.
Proof.
  unfold summaries_in_chain. intros Hlen Hadm Hsum [b s st' es Hst Ha' Hes Hb Hs _ _].
  pose proof (class_of_step o a a' st' es Hlen Ha') as Hd.
  pose proof (sum_classes_step a a' _ st' summaries Hd) as Hu.
  rewrite Ha' at 1. cbn [log]. rewrite filter_app, length_app, Hsum.
  destruct Hst as [Hlt|r Hno|r Hlt Hle]; cbn [orb summaries] in *.
  - destruct (Hb eq_refl) as (subj & f & t & au & r & Ho & Hes').
    enough (filter (λ e, is_summary e = true) es = []) as -> by (cbn [length]; lia).
    apply filter_nil_iff. eapply Forall_impl; [done|]. intros e He.
    unfold is_summary. rewrite He. rewrite Ho in Hadm. cbn [admissible] in Hadm. by rewrite Hadm.
  - apply nil_length_inv in Hes as ->. cbn [length filter list_filter]. lia.
  - specialize (Hs eq_refl). rewrite filter_all, Hes by done. lia.
Qed.

Lemma verify_classes_sum a cs m n :
  (∀ c, class_ok c (class_of a c)) →
  verify_classes a cs m n =
  Some (m + sum_list_with (λ c, recorded (class_of a c) + summaries (class_of a c)) cs,
        n + sum_list_with (λ c, summaries (class_of a c)) cs).
Proof.
  intros Hc. revert m n. induction cs as [|c cs IH]; intros m n; cbn [verify_classes sum_list_with].
  - by rewrite !Nat.add_0_r.
  - destruct (Hc c). rewrite decide_False by lia. rewrite IH. f_equal. f_equal; lia.
Qed.

Lemma books_verify a : books a → summaries_in_chain a → verify a = true.
Proof.
  intros Hb Hs. unfold verify. rewrite (books_chain a Hb). cbn [negb].
  rewrite (verify_classes_sum a ALL 0 0 (books_class a Hb)), !Nat.add_0_l.
  rewrite !andb_true_iff, !bool_decide_eq_true. split_and!; [|by apply books_capacity|done].
  apply (books_log a Hb).
Qed.

Lemma run_audit_ops_snoc a ops o :
  run_audit_ops a (ops ++ [o]) = run_audit_op (run_audit_ops a ops) o.
Proof. apply foldl_snoc. Qed.

Lemma run_audit_op_books a o : books a → books (run_audit_op a o).
Proof. intros Hb. eapply audit_step_books; [done|]. apply run_audit_op_step. Qed.

Lemma run_audit_op_summaries a o :
  books a → admissible o → summaries_in_chain a → summaries_in_chain (run_audit_op a o).
Proof.
  intros Hb Ho Hs. eapply audit_step_summaries; [apply (books_len a Hb)|done..|].
  apply run_audit_op_step.
Qed.

Lemma run_audit_ops_books a ops : books a → books (run_audit_ops a ops).
Proof.
  intros Hb. induction ops as [|o ops IH] using rev_ind; [done|].
  rewrite run_audit_ops_snoc. by apply run_audit_op_books.
Qed.

Lemma run_audit_ops_summaries a ops :
  books a → Forall admissible ops → summaries_in_chain a →
  summaries_in_chain (run_audit_ops a ops).
Proof.
  intros Hb Hadm Hs. induction ops as [|o ops IH] using rev_ind; [done|].
  apply Forall_app in Hadm as [Hadm Ho]. rewrite Forall_singleton in Ho.
  rewrite run_audit_ops_snoc. apply run_audit_op_summaries; auto using run_audit_ops_books.
Qed.

Lemma run_audit_ops_prefix a ops : log a `prefix_of` log (run_audit_ops a ops).
Proof.
  induction ops as [|o ops IH] using rev_ind; [done|]. rewrite run_audit_ops_snoc.
  etrans; [done|]. destruct (run_audit_op_step (run_audit_ops a ops) o) as [b s st' es _ -> _ _ _ _ _].
  cbn [log]. by exists es.
Qed.

(** Events of a class, and the ones among them that ask for an entry. *)
Definition is_record (o : audit_op) : Prop :=
  match o with ARecord _ _ _ _ _ _ => True | ANote _ _ => False end.

#[global] Instance is_record_dec o : Decision (is_record o).
Proof. destruct o; apply _. Defined.

Definition events (c : AuditClass) (ops : list audit_op) : nat :=
  length (filter (λ o, op_class o = c) ops).
Definition requests (c : AuditClass) (ops : list audit_op) : nat :=
  length (filter (λ o, op_class o = c ∧ is_record o) ops).

Lemma requests_le_events c ops : requests c ops ≤ events c ops.
Proof.
  unfold requests, events. induction ops as [|o ops IH]; [done|].
  rewrite !filter_cons. repeat case_decide; cbn; naive_solver lia.
Qed.

Lemma counts_snoc c ops o :
  events c (ops ++ [o]) = events c ops + (if decide (op_class o = c) then 1 else 0) ∧
  requests c (ops ++ [o]) = requests c ops + (if decide (op_class o = c ∧ is_record o) then 1 else 0).
Proof.
  unfold events, requests. rewrite !filter_app, !length_app, !filter_cons.
  split; repeat case_decide; done.
Qed.

(** What one event does to its class's counters. *)
Lemma run_audit_op_counters a o c :
  books a →
  let st := class_of a c in
  let st' := class_of (run_audit_op a o) c in
  if decide (op_class o = c) then
    if decide (is_record o ∧ recorded st < quota c)
    then recorded st' = S (recorded st) ∧ dropped st' = dropped st
    else recorded st' = recorded st ∧ dropped st' = saturating_add u64_max (dropped st) 1
  else st' = st.
Proof.
  intros Hb. cbn zeta. destruct (run_audit_op_step a o) as [b s st' es Hst Ha' _ Hb1 _ _ Hb2].
  rewrite (class_of_step o a _ st' es (books_len a Hb) Ha').
  destruct (decide (op_class o = c)) as [<-|Hne]; [|by rewrite decide_False].
  rewrite (decide_True (P := op_class o = op_class o)) by done.
  destruct (decide (is_record o ∧ _)) as [[Hrec Hlt]|Hn].
  - destruct o as [c subj f t au r|]; [|done].
    rewrite (Hb2 _ _ _ _ _ eq_refl Hlt (books_room a c Hb Hlt)) in Hst. by inversion Hst.
  - destruct Hst as [Hlt| |]; [|done..]. destruct Hn. split; [|done].
    by destruct (Hb1 eq_refl) as (? & ? & ? & ? & ? & -> & _).
Qed.

Lemma counters_exact ops c :
  let st := class_of (run_audit_ops audit_new ops) c in
  recorded st = requests c ops `min` quota c ∧
  dropped st = N.min (N.of_nat (events c ops - recorded st)) u64_max.
Proof.
  cbn zeta. induction ops as [|o ops IH] using rev_ind; [by destruct c|].
  destruct IH as [IHr IHd]. rewrite run_audit_ops_snoc.
  destruct (counts_snoc c ops o) as [-> ->]. pose proof (requests_le_events c ops) as Hle.
  pose proof (run_audit_op_counters (run_audit_ops audit_new ops) o c
    (run_audit_ops_books _ _ (proj1 books_new))) as Hstep. cbn zeta in Hstep.
  assert (0 < u64_max)%N by done. unfold saturating_add in Hstep.
  destruct (decide (op_class o = c)) as [Hc|Hc].
  - destruct (decide (is_record o ∧ _)) as [[Hr Hlt]|Hn]; destruct Hstep as [-> ->].
    + rewrite (decide_True (P := op_class o = c ∧ _)) by done. lia.
    + destruct (decide (op_class o = c ∧ is_record o)) as [[_ Hr]|Hn']; [|lia].
      assert (¬ recorded (class_of (run_audit_ops audit_new ops) c) < quota c) by tauto. lia.
  - rewrite Hstep, decide_False by tauto. lia.
Qed.

Lemma filter_seq_below (P : nat → Prop) `{∀ k, Decision (P k)} s n :
  s ≤ n → (∀ k, k < s → P k) → (∀ k, s ≤ k → ¬ P k) → length (filter P (seq 0 n)) = s.
Proof.
  intros Hle Hin Hout. replace n with (s + (n - s)) by lia. rewrite seq_app, filter_app, length_app.
  rewrite filter_all, length_seq.
  - enough (filter P (seq (0 + s) (n - s)) = []) as -> by (cbn [length]; lia).
    apply filter_nil_iff, Forall_forall. intros k Hk%elem_of_seq. apply Hout. lia.
  - apply Forall_forall. intros k Hk%elem_of_seq. apply Hin. lia.
Qed.

Lemma schedule_count c st :
  class_ok c st → summaries st = length (filter (λ k, (4 ^ N.of_nat k ≤ dropped st)%N) (seq 0 8)).
Proof.
  intros [_ Hs _ _ Hre Hdue]. unfold MAX_SUMMARY_COMMITS, SUMMARY_GROWTH in *.
  destruct (decide (summaries st = 8)) as [H8|H8].
  - rewrite filter_all; [by rewrite length_seq|]. apply Forall_forall.
    intros k Hk%elem_of_seq. apply Hre. lia.
  - symmetry. apply filter_seq_below; [lia|done|]. intros k Hk Hle.
    specialize (Hdue ltac:(lia)).
    assert (4 ^ N.of_nat (summaries st) ≤ 4 ^ N.of_nat k)%N by (apply N.pow_le_mono_r; lia). lia.
Qed.

(** The audit chain is bounded and its books balance: whatever events are
    audited, in whatever order, [BoundedAudit::verify] accepts the result, the
    chain never exceeds [TOTAL_CAPACITY] (456 entries), and the chain before
    the last events is a prefix of the chain after them. *)
Theorem audit_bounded_and_verifies ops ops' :
  Forall admissible (ops ++ ops') →
  let a := run_audit_ops audit_new ops in
  let a' := run_audit_ops audit_new (ops ++ ops') in
  verify a' = true ∧ length (log a') ≤ 456 ∧ log a `prefix_of` log a'.
Proof.
  intros Hadm. cbn zeta. destruct books_new as [Hb Hs].
  pose proof (run_audit_ops_books audit_new (ops ++ ops') Hb) as Hb'.
  split_and!; [|by apply (books_capacity _ Hb')|].
  - apply books_verify; [done|]. by apply run_audit_ops_summaries.
  - unfold run_audit_ops at 2. rewrite foldl_app. apply run_audit_ops_prefix.
Qed.

(** Classes do not borrow from each other and no event is lost: after any
    sequence of events, the counters of a class depend only on that class's own
    events. It recorded its first [quota] entry requests, every other event is
    counted as coalesced, and it committed exactly one summary per power of
    four the count has reached (at most eight). *)
Theorem class_isolation ops c :
  let st := class_of (run_audit_ops audit_new ops) c in
  recorded st = requests c ops `min` quota c ∧
  dropped st = N.min (N.of_nat (events c ops - recorded st)) u64_max ∧
  summaries st = length (filter (λ k, (4 ^ N.of_nat k ≤ dropped st)%N) (seq 0 8)).
Proof.
  cbn zeta. destruct (counters_exact ops c) as [Hr Hd]. split_and!; [done..|].
  eapply schedule_count, books_class, run_audit_ops_books, books_new.
Qed.
End books.

Lemma audit_bounded_witness :
  let a := @run_audit_ops Toy.toy_sha256 audit_new
             ([ARecord Applied "sim:0:1" "Disabled" "Enabled" true None] ++ [ANote CleanPassClass "clean"]) in
  @verify Toy.toy_sha256 a = true ∧ length (log a) ≤ 456.
Proof.
  destruct (@audit_bounded_and_verifies Toy.toy_sha256
    [ARecord Applied "sim:0:1" "Disabled" "Enabled" true None] [ANote CleanPassClass "clean"])
    as (Hv & Hl & _).
  - repeat constructor.
  - exact (conj Hv Hl).
Defined.

(** ** What [observe] plans *)

(** [keys[i]] is new: absent from the previous pass and not reported earlier in
    this one. *)
Definition fresh_key (prev : gset string) (keys : list string) (i : nat) : Prop :=
  ∃ k, keys !! i = Some k ∧ (k ∉ prev) ∧ (k ∉ take i keys).

Lemma observe_loop_spec prev current keys :
  (observe_loop prev current keys).1 = list_to_set keys ∪ current ∧
  length ((observe_loop prev current keys).2) = length keys ∧
  ∀ i, ((observe_loop prev current keys).2) !! i = Some true ↔
       ∃ k, keys !! i = Some k ∧ (k ∉ prev) ∧ (k ∉ current) ∧ (k ∉ take i keys).
Proof.
  revert current. induction keys as [|key keys IH]; intros current; cbn [observe_loop].
  - split_and!; [set_solver|done|]. intros i. rewrite lookup_nil. split; [done|naive_solver].
  - specialize (IH ({[key]} ∪ current)).
    destruct (observe_loop prev ({[key]} ∪ current) keys) as [cur fr]. cbn [fst snd] in *.
    destruct IH as (-> & Hlen & Hi). split_and!; [set_solver|cbn; lia|]. intros [|i]; cbn [lookup list_lookup].
    + cbn [take]. split.
      * intros [= [H1 H2]%andb_true_iff]. apply bool_decide_eq_true in H1, H2.
        exists key. split_and!; [done..|]. apply not_elem_of_nil.
      * intros (k & [= <-] & H1 & H2 & _). by rewrite !bool_decide_true.
    + cbn [take]. rewrite Hi. setoid_rewrite elem_of_union. setoid_rewrite elem_of_singleton.
      setoid_rewrite not_elem_of_cons. naive_solver.
Qed.

(** The state after a sequence of passes. *)
Definition observe_all (m : ReconcileMemory) (passes : list (list string)) : ReconcileMemory :=
  foldl (λ m keys, (observe m keys).1) m passes.

(** The reconciler's memory: after any earlier passes, the last of which
    reported [before], the plan for a pass marks exactly the findings absent from
    [before] and not repeated within the pass, one flag per finding; a pass is
    clean exactly when it has no finding, and then it is recorded exactly when
    the previous one was not clean. *)
Theorem observe_plan earlier before keys :
  let m := observe_all memory_new (earlier ++ [before]) in
  let plan := (observe m keys).2 in
  length (fresh plan) = length keys ∧
  (∀ i, fresh plan !! i = Some true ↔ fresh_key (list_to_set before) keys i) ∧
  (is_Some (clean plan) ↔ keys = []) ∧
  ((∃ n, clean plan = Some (RecordPass n)) ↔ keys = [] ∧ before ≠ []).
Proof.
  cbn zeta. unfold observe_all. rewrite foldl_snoc.
  generalize (foldl (λ m ks, (observe m ks).1) memory_new earlier) as m0. intros m0.
  assert (prev ((observe m0 before).1) = list_to_set before ∧
          last_clean ((observe m0 before).1) = bool_decide (before = [])) as [Hp Hc].
  { unfold observe. destruct (observe_loop_spec (prev m0) ∅ before) as (Hcur & _).
    destruct (observe_loop (prev m0) ∅ before) as [cur fr]. cbn in *. split; [|done].
    rewrite Hcur. set_solver. }
  generalize dependent ((observe m0 before).1). intros m Hp Hc.
  destruct (observe_loop_spec (prev m) ∅ keys) as (_ & Hlen & Hi).
  unfold observe. destruct (observe_loop (prev m) ∅ keys) as [cur fr]. cbn [fst snd fresh clean] in *.
  rewrite Hc, Hp in *. split_and!; [done| | |].
  - intros i. rewrite Hi. unfold fresh_key. set_solver.
  - destruct keys as [|k keys].
    + rewrite bool_decide_true by done. split; [done|by eexists].
    + rewrite bool_decide_false by done. split; [by intros []|done].
  - repeat case_bool_decide; naive_solver.
Qed.
