(* ===== verification/Marshal.v ===== *)
(** * Marshal: governed actions and the enforcement decision

    Model of [kernel-arm/src/marshal_action.rs] (with the reply types of
    [ipc/src/marshal.rs] and the outcome type of [citadel-integration]): the
    actions MARSHAL is asked about and their strings, the per-action policy for
    an unreachable MARSHAL, the classification of replies and the fail-open /
    fail-closed decision. *)

From S2P Require Import Prelude Worm.

(** A double quote, for the JSON strings. *)
Definition dq : string := String (Ascii.ascii_of_nat 34) EmptyString.
Definition quoted (s : string) : string := dq +:+ s +:+ dq.

(** ** Data *)

(** [{:?}] of the outcome. *)
Definition outcome_debug (o : ShadowMarshalOutcome) : string :=
  match o with
  | Execute => "Execute" | Refuse => "Refuse" | HardStop => "HardStop"
  | Unreachable => "Unreachable" | Faulty => "Faulty"
  end.

Inductive MarshalOutcome := OutExecute | OutRefuse | OutHardStop.

Inductive MarshalError :=
  | ErrUnreachable (s : string)
  | ErrTimeout
  | ErrBadResponse (s : string)
  | ErrOther (s : string)
  | ErrPolicyRefused (s : string).

Inductive MarshalResponse :=
  | Decision (outcome : MarshalOutcome) (decision_json : list N)
  | RespError (e : MarshalError).

Inductive ResponseDecode :=
  | Complete (r : MarshalResponse) (consumed : N)
  | Incomplete
  | Malformed.

Inductive MarshalAction :=
  | Esim (op : string) (slot profile : N)
  | MvnoBind (account slot profile : N)
  | MvnoSuspend (account : N)
  | MvnoReactivate (account : N)
  | DataResetUsage (account : N).

Inductive LocalFailure := SetupFailed | SpawnFailed | ExcursionFaulted.

Definition local_failure_str (l : LocalFailure) : string :=
  match l with
  | SetupFailed => "SetupFailed"
  | SpawnFailed => "SpawnFailed"
  | ExcursionFaulted => "ExcursionFaulted"
  end.

Inductive GateOutcome :=
  | Remote (o : ShadowMarshalOutcome)
  | LocalFail (l : LocalFailure).

Inductive UnreachablePolicy := FailOpen | FailClosed.

Inductive Blocked :=
  | BlockedRemote (o : ShadowMarshalOutcome)
  | BlockedLocal (l : LocalFailure)
  | BlockedUnreachable
  | BlockedFaulty.

#[global] Instance LocalFailure_eq_dec : EqDecision LocalFailure.
Proof. solve_decision. Defined.
#[global] Instance GateOutcome_eq_dec : EqDecision GateOutcome.
Proof. solve_decision. Defined.
#[global] Instance UnreachablePolicy_eq_dec : EqDecision UnreachablePolicy.
Proof. solve_decision. Defined.

(** ** The strings of an action *)

Definition action_type (self : MarshalAction) : string :=
  match self with
  | Esim op _ _ => "esim." +:+ op
  | MvnoBind _ _ _ => "mvno.bind_profile"
  | MvnoSuspend _ => "mvno.suspend_account"
  | MvnoReactivate _ => "mvno.reactivate_account"
  | DataResetUsage _ => "data.reset_usage"
  end.

Definition json_field (name : string) (n : N) : string := quoted name +:+ ":" +:+ pretty n.

Definition action_json (self : MarshalAction) : string :=
  let ty := quoted "type" +:+ ":" +:+ quoted (action_type self) in
  match self with
  | Esim _ slot profile =>
      "{" +:+ ty +:+ "," +:+ json_field "slot" slot +:+ "," +:+ json_field "profile" profile +:+ "}"
  | MvnoBind account slot profile =>
      "{" +:+ ty +:+ "," +:+ json_field "account" account +:+ "," +:+ json_field "slot" slot +:+
      "," +:+ json_field "profile" profile +:+ "}"
  | MvnoSuspend account | MvnoReactivate account | DataResetUsage account =>
      "{" +:+ ty +:+ "," +:+ json_field "account" account +:+ "}"
  end.

Definition execution_id (self : MarshalAction) : string :=
  match self with
  | Esim op slot profile => "esim-" +:+ op +:+ "-" +:+ pretty slot +:+ "-" +:+ pretty profile
  | MvnoBind account slot profile =>
      "mvno-bind-" +:+ pretty account +:+ "-" +:+ pretty slot +:+ "-" +:+ pretty profile
  | MvnoSuspend account => "mvno-suspend-" +:+ pretty account
  | MvnoReactivate account => "mvno-reactivate-" +:+ pretty account
  | DataResetUsage account => "data-reset-" +:+ pretty account
  end.

Definition label (self : MarshalAction) : string :=
  match self with
  | Esim op slot profile => op +:+ " slot=" +:+ pretty slot +:+ " profile=" +:+ pretty profile
  | MvnoBind account slot profile =>
      "mvno.bind_profile account=" +:+ pretty account +:+ " slot=" +:+ pretty slot +:+
      " profile=" +:+ pretty profile
  | MvnoSuspend account => "mvno.suspend_account account=" +:+ pretty account
  | MvnoReactivate account => "mvno.reactivate_account account=" +:+ pretty account
  | DataResetUsage account => "data.reset_usage account=" +:+ pretty account
  end.

Definition kerkese_json (self : MarshalAction) (principal : string) : string :=
  "{" +:+ quoted "kerkese_version" +:+ ":" +:+ quoted "1.0" +:+ "," +:+
  quoted "dry_run" +:+ ":true," +:+ quoted "action" +:+ ":" +:+ action_json self +:+ "," +:+
  quoted "actor" +:+ ":{" +:+ quoted "user_id" +:+ ":" +:+ quoted principal +:+ "," +:+
  quoted "role" +:+ ":" +:+ quoted "operator" +:+ "}," +:+
  quoted "execution_id" +:+ ":" +:+ quoted (execution_id self) +:+ "}".

(** ** Policy and enforcement *)

Definition unreachable_policy (self : MarshalAction) : UnreachablePolicy :=
  match self with
  | Esim op _ _ => if decide (op = "enable") then FailOpen else FailClosed
  | MvnoBind _ _ _ => FailOpen
  | MvnoSuspend _ => FailOpen
  | MvnoReactivate _ => FailClosed
  | DataResetUsage _ => FailClosed
  end.

(** [Display for Blocked] *)
Definition blocked_display (b : Blocked) : string :=
  match b with
  | BlockedRemote o => "MARSHAL " +:+ outcome_debug o
  | BlockedLocal l => "MARSHAL local failure: " +:+ local_failure_str l
  | BlockedUnreachable => "MARSHAL unreachable: fail-closed for this action"
  | BlockedFaulty => "MARSHAL faulty reply: fail-closed"
  end.

Definition enforce (policy : UnreachablePolicy) (outcome : GateOutcome) : Result Blocked () :=
  match outcome with
  | Remote Execute => Ok ()
  | Remote Unreachable =>
      match policy with FailOpen => Ok () | FailClosed => Err BlockedUnreachable end
  | Remote Faulty => Err BlockedFaulty
  | Remote Refuse => Err (BlockedRemote Refuse)
  | Remote HardStop => Err (BlockedRemote HardStop)
  | LocalFail l => Err (BlockedLocal l)
  end.

Definition verdict_text (outcome : GateOutcome) : string :=
  match outcome with
  | Remote Execute => "MARSHAL verdict: Execute"
  | Remote Unreachable => "MARSHAL verdict: Unreachable (fail-open: not governed)"
  | Remote Faulty => "MARSHAL verdict: Faulty (blocked: fail-closed)"
  | Remote o => "MARSHAL verdict: " +:+ outcome_debug o +:+ " (blocked)"
  | LocalFail l => "MARSHAL verdict: local failure " +:+ local_failure_str l +:+ " (blocked)"
  end.

Definition reason_with_verdict (base : option string) (verdict : string) : string :=
  match base with Some b => b +:+ "; " +:+ verdict | None => verdict end.

Definition classify_response (resp : option MarshalResponse) : ShadowMarshalOutcome :=
  match resp with
  | Some (Decision outcome _) =>
      match outcome with
      | OutExecute => Execute | OutRefuse => Refuse | OutHardStop => HardStop
      end
  | Some (RespError (ErrPolicyRefused _)) => Refuse
  | Some (RespError (ErrBadResponse _)) | Some (RespError (ErrOther _)) => Faulty
  | Some (RespError (ErrUnreachable _)) | Some (RespError ErrTimeout) | None => Unreachable
  end.

Definition classify_decode (status : ResponseDecode) : ShadowMarshalOutcome :=
  match status with
  | Complete resp _ => classify_response (Some resp)
  | Malformed => Faulty
  | Incomplete => Unreachable
  end.

(** ** Source ports *)

Definition MARSHAL_LOCAL_PORT_BASE : N := 49153.
Definition MARSHAL_LOCAL_PORT_SPAN : N := 16000.

(** The sum is a [u16]; the cast truncates the remainder. *)
Definition marshal_local_port (n : N) : N :=
  as_u16 (MARSHAL_LOCAL_PORT_BASE + as_u16 (n mod MARSHAL_LOCAL_PORT_SPAN)).

(** ** What is let through *)

Lemma enforce_Ok policy outcome :
  enforce policy outcome = Ok () ↔
  outcome = Remote Execute ∨ outcome = Remote Unreachable ∧ policy = FailOpen.
Proof. destruct outcome as [[]|], policy; simpl; naive_solver. Qed.

(** The gate is fail-closed by default: whatever the reply bytes decoded to,
    an action passes only on a decoded EXECUTE decision, or when nothing usable
    answered (no complete reply, or the proxy said unreachable or timed out) and
    the action is one of the three fail-open ones (eSIM enable, bind, suspend).
    A refusal, a hard stop, a policy refusal, a malformed or faulty reply never
    passes, for any action. *)
Theorem gate_passes_iff a status :
  enforce (unreachable_policy a) (Remote (classify_decode status)) = Ok () ↔
  (∃ json n, status = Complete (Decision OutExecute json) n) ∨
  (status = Incomplete ∨ (∃ s n, status = Complete (RespError (ErrUnreachable s)) n) ∨
   (∃ n, status = Complete (RespError ErrTimeout) n)) ∧
  ((∃ slot p, a = Esim "enable" slot p) ∨ (∃ acc slot p, a = MvnoBind acc slot p) ∨
   (∃ acc, a = MvnoSuspend acc)).
Proof.
  rewrite enforce_Ok.
  assert (unreachable_policy a = FailOpen ↔
    (∃ slot p, a = Esim "enable" slot p) ∨ (∃ acc slot p, a = MvnoBind acc slot p) ∨
    (∃ acc, a = MvnoSuspend acc)) as <-.
  { destruct a; simpl; try case_decide; subst; naive_solver. }
  destruct status as [[[] json|[]] n| |]; simpl; naive_solver.
Qed.

(** Every source port stays in the reserved range 49153..=65152 (no [u16]
    overflow), and two evaluations use the same port only if they are a multiple
    of 16000 evaluations apart. *)
Theorem marshal_port_range n m :
  (49153 ≤ marshal_local_port n ≤ 65152)%N ∧
  (marshal_local_port n = marshal_local_port m → (n mod 16000 = m mod 16000)%N).
Proof.
  unfold marshal_local_port, as_u16, MARSHAL_LOCAL_PORT_BASE, MARSHAL_LOCAL_PORT_SPAN.
  pose proof (N.mod_lt n 16000 ltac:(lia)). pose proof (N.mod_lt m 16000 ltac:(lia)).
  rewrite (N.mod_small (n mod 16000) 65536), (N.mod_small (m mod 16000) 65536) by lia.
  rewrite (N.mod_small (49153 + n mod 16000)), (N.mod_small (49153 + m mod 16000)) by lia.
  revert H H0. generalize (n mod 16000)%N (m mod 16000)%N. intros x y Hx Hy.
  split; [lia|]. intros Heq. lia.
Qed.

Lemma marshal_port_witness : marshal_local_port 3 = marshal_local_port 16003 ∧ (3 mod 16000 = 16003 mod 16000)%N.
Proof. split; [reflexivity|]. by apply (marshal_port_range 3 16003). Defined.
