(* ===== verification/MarshalCodec.v ===== *)
(** * MarshalCodec: the MARSHAL wire format

    Model of the codec of [ipc/src/marshal.rs]: length-prefixed fields, the
    typed [decode] and the streaming verdict [decode_status], and what the
    kernel's gate makes of arbitrary reply bytes.  Bytes are numbers below 256; a
    Rust [String] is the string of its UTF-8 bytes. *)

From S2P Require Import Prelude Bytes Worm Marshal.

Definition MAX_JSON_LEN : N := 16384.
Definition MAX_MESSAGE_LEN : N := 256.

(** ** Fields *)

Definition encode_bytes (bs : list N) : list N :=
  u32_to_le (len bs mod 4294967296)%N ++ bs.

Definition decode_bytes (buf : list N) : option (list N * N) :=
  match buf with
  | b0 :: b1 :: b2 :: b3 :: rest =>
      let n := u32_from_le b0 b1 b2 b3 in
      if decide (MAX_JSON_LEN < n)%N then None
      else if decide (len rest < n)%N then None
      else Some (take (N.to_nat n) rest, 4 + n)%N
  | _ => None
  end.

Definition encode_string (s : string) : list N := encode_str s.

Definition decode_string (buf : list N) : option (string * N) := decode_str MAX_MESSAGE_LEN buf.

(** [Ok(None)]: need more bytes; [Err(())]: definitely malformed. *)
Abbreviation Step A := (Result () (option A)).

(** [step.map(|o| o.map(f))] *)
Definition map_step {A B} (f : A → B) (s : Step A) : Step B :=
  match s with
  | Ok (Some a) => Ok (Some (f a))
  | Ok None => Ok None
  | Err e => Err e
  end.

Definition status_bytes (buf : list N) : Step N :=
  match buf with
  | b0 :: b1 :: b2 :: b3 :: rest =>
      let n := u32_from_le b0 b1 b2 b3 in
      if decide (MAX_JSON_LEN < n)%N then Err ()
      else if decide (len rest < n)%N then Ok None
      else Ok (Some (4 + n))%N
  | _ => Ok None
  end.

Definition status_string (buf : list N) : Step N :=
  match buf with
  | b0 :: b1 :: rest =>
      let n := u16_from_le b0 b1 in
      if decide (MAX_MESSAGE_LEN < n)%N then Err ()
      else if decide (len rest < n)%N then Ok None
      else match from_utf8 (take (N.to_nat n) rest) with
           | None => Err ()
           | Some _ => Ok (Some (2 + n))%N
           end
  | _ => Ok None
  end.

(** ** Messages *)

(** [MarshalRequest] is its [kerkese_json]. *)
Definition request_encode (kerkese_json : list N) : list N := encode_bytes kerkese_json.
Definition request_decode (buf : list N) : option (list N * N) := decode_bytes buf.

Definition outcome_to_byte (o : MarshalOutcome) : N :=
  match o with OutExecute => 0 | OutRefuse => 1 | OutHardStop => 2 end.

Definition outcome_from_byte (b : N) : option MarshalOutcome :=
  if decide (b = 0)%N then Some OutExecute
  else if decide (b = 1)%N then Some OutRefuse
  else if decide (b = 2)%N then Some OutHardStop
  else None.

Definition is_blocked (o : MarshalOutcome) : bool :=
  match o with OutExecute => false | OutRefuse | OutHardStop => true end.

Definition error_tag (e : MarshalError) : N :=
  match e with
  | ErrUnreachable _ => 0 | ErrTimeout => 1 | ErrBadResponse _ => 2 | ErrOther _ => 3
  | ErrPolicyRefused _ => 4
  end.

Definition error_encode (e : MarshalError) : list N :=
  error_tag e ::
  match e with
  | ErrUnreachable m | ErrBadResponse m | ErrOther m | ErrPolicyRefused m => encode_string m
  | ErrTimeout => []
  end.

Definition error_decode (buf : list N) : option (MarshalError * N) :=
  match buf with
  | [] => None
  | tag :: rest =>
      if decide (tag = 0)%N then '(m, n) ← decode_string rest; Some (ErrUnreachable m, 1 + n)%N
      else if decide (tag = 1)%N then Some (ErrTimeout, 1%N)
      else if decide (tag = 2)%N then '(m, n) ← decode_string rest; Some (ErrBadResponse m, 1 + n)%N
      else if decide (tag = 3)%N then '(m, n) ← decode_string rest; Some (ErrOther m, 1 + n)%N
      else if decide (tag = 4)%N then '(m, n) ← decode_string rest; Some (ErrPolicyRefused m, 1 + n)%N
      else None
  end.

Definition error_status (buf : list N) : Step N :=
  match buf with
  | [] => Ok None
  | tag :: rest =>
      if decide (tag = 1)%N then Ok (Some 1%N)
      else if decide (tag = 0 ∨ tag = 2 ∨ tag = 3 ∨ tag = 4)%N then
        map_step (N.add 1) (status_string rest)
      else Err ()
  end.

Definition response_encode (r : MarshalResponse) : list N :=
  match r with
  | Decision outcome decision_json => 0%N :: outcome_to_byte outcome :: encode_bytes decision_json
  | RespError e => 1%N :: error_encode e
  end.

Definition response_decode (buf : list N) : option (MarshalResponse * N) :=
  match buf with
  | [] => None
  | tag :: rest =>
      if decide (tag = 0)%N then
        match rest with
        | [] => None
        | b :: rest =>
            outcome ← outcome_from_byte b;
            '(json, n) ← decode_bytes rest;
            Some (Decision outcome json, 2 + n)%N
        end
      else if decide (tag = 1)%N then '(e, n) ← error_decode rest; Some (RespError e, 1 + n)%N
      else None
  end.

(** The [verdict] of [decode_status]: is the framing complete and valid? *)
Definition response_status (buf : list N) : Step () :=
  match buf with
  | [] => Ok None
  | tag :: rest =>
      if decide (tag = 0)%N then
        match rest with
        | [] => Ok None
        | b :: rest =>
            match outcome_from_byte b with
            | None => Err ()
            | Some _ => map_step (λ _, ()) (status_bytes rest)
            end
        end
      else if decide (tag = 1)%N then map_step (λ _, ()) (error_status rest)
      else Err ()
  end.

Definition decode_status (buf : list N) : ResponseDecode :=
  match response_status buf with
  | Err _ => Malformed
  | Ok None => Incomplete
  | Ok (Some _) =>
      match response_decode buf with
      | Some (resp, n) => Complete resp n
      | None => Malformed
      end
  end.

(** ** Fields are exact

    A field decodes exactly from its own encoding, followed by anything. *)

Lemma decode_bytes_exact buf bs n :
  bytes buf →
  decode_bytes buf = Some (bs, n) ↔
  (len bs ≤ MAX_JSON_LEN)%N ∧ n = len (encode_bytes bs) ∧ ∃ ext, buf = encode_bytes bs ++ ext.
Proof.
  intros Hb. split.
  - destruct buf as [|b0 [|b1 [|b2 [|b3 rest]]]]; try done. cbn [decode_bytes].
    case_decide as Hmax; [done|]. case_decide as Hlen; [done|]. intros [= <- <-].
    destruct (split_at rest (u32_from_le b0 b1 b2 b3)) as (ext & Hrest & Hl); [lia|].
    revert Hrest Hl. generalize (take (N.to_nat (u32_from_le b0 b1 b2 b3)) rest). intros bs -> Hl.
    unfold encode_bytes. rewrite Hl, N.mod_small by (unfold MAX_JSON_LEN in *; lia).
    rewrite u32_le_inj by (by apply (Forall_app _ [b0; b1; b2; b3] (bs ++ ext)) in Hb as [? _]).
    rewrite len_app. split_and!; [lia|unfold len at 1; cbn [length]; lia|by exists ext].
  - intros (Hmax & -> & ext & ->). unfold encode_bytes.
    rewrite N.mod_small by (unfold MAX_JSON_LEN in *; lia).
    destruct (u32_le_roundtrip (len bs)) as (b0 & b1 & b2 & b3 & -> & Hn); [unfold MAX_JSON_LEN in *; lia|].
    cbn [app decode_bytes]. rewrite Hn. rewrite decide_False by lia.
    rewrite decide_False by (rewrite len_app; lia).
    unfold len at 1. rewrite Nat2N.id, take_app_length. do 2 f_equal. unfold len. cbn [length]. lia.
Qed.

(** A message the wire can carry. *)
Definition message (s : string) : Prop := str_fits MAX_MESSAGE_LEN s.

Lemma decode_string_exact buf s n :
  bytes buf →
  decode_string buf = Some (s, n) ↔
  message s ∧ n = len (encode_string s) ∧ ∃ ext, buf = encode_string s ++ ext.
Proof. apply (str_codec MAX_MESSAGE_LEN ltac:(done)). Qed.

(** ** Messages are exact *)

Definition error_message (e : MarshalError) : option string :=
  match e with
  | ErrUnreachable m | ErrBadResponse m | ErrOther m | ErrPolicyRefused m => Some m
  | ErrTimeout => None
  end.

Definition encodable (r : MarshalResponse) : Prop :=
  match r with
  | Decision _ json => (len json ≤ MAX_JSON_LEN)%N
  | RespError e => ∀ m, error_message e = Some m → message m
  end.

Lemma error_decode_exact buf e n :
  bytes buf →
  error_decode buf = Some (e, n) ↔
  (∀ m, error_message e = Some m → message m) ∧ n = len (error_encode e) ∧
  ∃ ext, buf = error_encode e ++ ext.
Proof.
  intros Hb. destruct buf as [|tag rest]; [split; [done|]; by intros (_ & _ & ext & ?)|].
  pose proof (λ s k, decode_string_exact rest s k (bytes_tail _ _ Hb)) as Hs.
  cbn [error_decode]. split.
  - repeat case_decide; try done; intros Hd;
      try (apply bind_Some in Hd as ([m k] & Hm & [= <- <-]); apply Hs in Hm as (Hm & -> & ext & ->));
      try (injection Hd as <- <-); cbn [error_message error_encode error_tag];
      (split_and!; [by intros ? [= <-]|first [done|unfold error_encode; by rewrite len_nil_cons]|]); subst; by eexists.
  - intros (Hm & -> & ext & Heq). destruct e; cbn [error_message error_encode error_tag app] in *;
      injection Heq as -> ->; repeat (rewrite decide_False by done); rewrite ?decide_True by done;
      try done;
      (rewrite (proj2 (Hs s (len (encode_string s)))); [cbn [mbind option_bind]; unfold error_encode; by rewrite len_nil_cons|];
       split_and!; [by apply Hm|done|by eexists]).
Qed.

Lemma outcome_byte_exact b o : outcome_from_byte b = Some o ↔ b = outcome_to_byte o.
Proof. unfold outcome_from_byte. repeat case_decide; destruct o; cbn; split; naive_solver. Qed.

Lemma response_decode_exact buf r n :
  bytes buf →
  response_decode buf = Some (r, n) ↔
  encodable r ∧ n = len (response_encode r) ∧ ∃ ext, buf = response_encode r ++ ext.
Proof.
  intros Hb. destruct buf as [|tag rest]; [split; [done|]; intros (_ & _ & ext & ?); by destruct r|].
  cbn [response_decode]. split.
  - case_decide as H0; [|case_decide as H1; [|done]].
    + destruct rest as [|b rest]; [done|].
      intros (o & Ho & ([json k] & Hj & [= <- <-])%bind_Some)%bind_Some.
      apply outcome_byte_exact in Ho. apply decode_bytes_exact in Hj as (Hl & -> & ext & ->);
        [|by apply bytes_tail, bytes_tail in Hb]. subst. split_and!; [done| |by eexists].
      cbn [response_encode]. rewrite !len_nil_cons. lia.
    + intros ([e k] & He & [= <- <-])%bind_Some.
      apply error_decode_exact in He as (Hm & -> & ext & ->); [|by apply bytes_tail in Hb].
      subst. split_and!; [done| |by eexists]. cbn [response_encode]. by rewrite !len_nil_cons.
  - intros (He & -> & ext & Heq). destruct r as [o json|e]; cbn [response_encode] in *;
      rewrite <-!app_comm_cons in Heq.
    + remember (encode_bytes json ++ ext) as body eqn:Hbody.
      injection Heq as -> ->. rewrite decide_True by done.
      rewrite (proj2 (outcome_byte_exact _ o)) by done. cbn [mbind option_bind].
      rewrite (proj2 (decode_bytes_exact body json (len (encode_bytes json))
        (bytes_tail _ _ (bytes_tail _ _ Hb)))); [|split_and!; [done|done|by eexists]].
      cbn [mbind option_bind]. rewrite !len_nil_cons. do 2 f_equal. lia.
    + remember (error_encode e ++ ext) as body eqn:Hbody.
      injection Heq as -> ->. rewrite decide_False, decide_True by done.
      rewrite (proj2 (error_decode_exact body e (len (error_encode e)) (bytes_tail _ _ Hb)));
        [|split_and!; [done|done|by eexists]].
      cbn [mbind option_bind]. by rewrite len_nil_cons.
Qed.

(** ** The streaming verdict *)

(** Whether more bytes can still change the verdict of a field. *)
Inductive Verdict := Need | Bad | Done.

Definition verdict_of {A} (s : Step A) : Verdict :=
  match s with Err _ => Bad | Ok None => Need | Ok (Some _) => Done end.

(** [v'] is [v] after more bytes arrived: only a [Need] may change. *)
Definition settles (v v' : Verdict) : Prop := v ≠ Need → v' = v.

Lemma verdict_map_step {A B} (f : A → B) s : verdict_of (map_step f s) = verdict_of s.
Proof. by destruct s as [[]|]. Qed.

Lemma status_bytes_settles buf ext :
  settles (verdict_of (status_bytes buf)) (verdict_of (status_bytes (buf ++ ext))).
Proof.
  intros Hn. destruct buf as [|b0 [|b1 [|b2 [|b3 rest]]]]; try done. cbn [status_bytes app] in *.
  case_decide; [done|]. case_decide; [done|]. rewrite decide_False; [done|]. rewrite len_app. lia.
Qed.

Lemma status_string_settles buf ext :
  settles (verdict_of (status_string buf)) (verdict_of (status_string (buf ++ ext))).
Proof.
  intros Hn. destruct buf as [|b0 [|b1 rest]]; try done. cbn [status_string app] in *.
  case_decide; [done|]. case_decide; [done|]. rewrite decide_False by (rewrite len_app; lia).
  by rewrite take_len_app by lia.
Qed.

Lemma error_status_settles buf ext :
  settles (verdict_of (error_status buf)) (verdict_of (error_status (buf ++ ext))).
Proof.
  intros Hn. destruct buf as [|tag rest]; [done|]. cbn [error_status app] in *.
  case_decide; [done|]. case_decide; [|done]. rewrite !verdict_map_step in *.
  by apply status_string_settles.
Qed.

(** The typed decoder succeeds exactly when the verdict is [Done]. *)
Lemma decode_bytes_done buf : is_Some (decode_bytes buf) ↔ verdict_of (status_bytes buf) = Done.
Proof.
  destruct buf as [|b0 [|b1 [|b2 [|b3 rest]]]]; cbn [decode_bytes status_bytes];
    repeat case_decide; cbn [verdict_of]; split; try done; by intros [? [=]].
Qed.

Lemma decode_string_done buf : is_Some (decode_string buf) ↔ verdict_of (status_string buf) = Done.
Proof.
  unfold decode_string, decode_str.
  destruct buf as [|b0 [|b1 rest]]; cbn [decode_blob status_string];
    repeat case_decide; cbn [mbind option_bind]; try (destruct (from_utf8 _); cbn [mbind option_bind]);
    cbn [verdict_of]; split; try done; by intros [? [=]].
Qed.

Lemma error_decode_done buf : is_Some (error_decode buf) ↔ verdict_of (error_status buf) = Done.
Proof.
  destruct buf as [|tag rest]; [split; [by intros [? [=]]|done]|]. cbn [error_decode error_status].
  pose proof (decode_string_done rest) as Hs.
  repeat case_decide; try lia; rewrite ?verdict_map_step, <-?Hs;
    try (destruct (decode_string rest) as [[m k]|]; cbn [mbind option_bind]; split; try done; by intros [? [=]]).
Qed.

Lemma response_decode_done buf :
  is_Some (response_decode buf) ↔ verdict_of (response_status buf) = Done.
Proof.
  destruct buf as [|tag rest]; [split; [by intros [? [=]]|done]|].
  cbn [response_decode response_status]. case_decide; [|case_decide].
  - destruct rest as [|b rest]; [split; [by intros [? [=]]|done]|].
    destruct (outcome_from_byte b) as [o|]; cbn [mbind option_bind];
      [|split; [by intros [? [=]]|done]].
    rewrite verdict_map_step, <-decode_bytes_done.
    destruct (decode_bytes rest) as [[json k]|]; cbn [mbind option_bind]; split; try done;
      by intros [? [=]].
  - rewrite verdict_map_step, <-error_decode_done.
    destruct (error_decode rest) as [[e k]|]; cbn [mbind option_bind]; split; try done;
      by intros [? [=]].
  - split; [by intros [? [=]]|done].
Qed.

Lemma response_status_settles buf ext :
  settles (verdict_of (response_status buf)) (verdict_of (response_status (buf ++ ext))).
Proof.
  intros Hn. destruct buf as [|tag rest]; [done|]. cbn [response_status app] in *.
  case_decide; [|case_decide; [|done]].
  - destruct rest as [|b rest]; [done|]. cbn [app]. destruct (outcome_from_byte b); [|done].
    rewrite !verdict_map_step in *. by apply status_bytes_settles.
  - rewrite !verdict_map_step in *. by apply error_status_settles.
Qed.

Lemma decode_status_verdict buf :
  match decode_status buf with
  | Complete r n => verdict_of (response_status buf) = Done ∧ response_decode buf = Some (r, n)
  | Incomplete => verdict_of (response_status buf) = Need
  | Malformed => verdict_of (response_status buf) = Bad
  end.
Proof.
  unfold decode_status. pose proof (response_decode_done buf) as Hd.
  destruct (response_status buf) as [[[]|]|]; [|done|done].
  destruct (response_decode buf) as [[r n]|]; [done|]. by destruct (proj2 Hd eq_refl).
Qed.

Lemma decode_status_complete buf r n :
  decode_status buf = Complete r n ↔ response_decode buf = Some (r, n).
Proof.
  pose proof (decode_status_verdict buf) as Hv. pose proof (response_decode_done buf) as Hd.
  destruct (decode_status buf) as [r' n'| |]; split; try done.
  - intros [= -> ->]. apply Hv.
  - destruct Hv as [_ ->]. by intros [= -> ->].
  - intros Hr; assert (is_Some (response_decode buf)) as Hs%Hd by (by eexists); congruence.
  - intros Hr; assert (is_Some (response_decode buf)) as Hs%Hd by (by eexists); congruence.
Qed.

Lemma decode_status_exact buf r n :
  bytes buf →
  decode_status buf = Complete r n ↔
  encodable r ∧ n = len (response_encode r) ∧ ∃ ext, buf = response_encode r ++ ext.
Proof. intros Hb. rewrite decode_status_complete. by apply response_decode_exact. Qed.

Lemma malformed_stays buf ext :
  decode_status buf = Malformed → decode_status (buf ++ ext) = Malformed.
Proof.
  intros Hm. pose proof (decode_status_verdict buf) as Hv. rewrite Hm in Hv.
  pose proof (response_status_settles buf ext ltac:(by rewrite Hv)) as Hs. rewrite Hv in Hs.
  pose proof (decode_status_verdict (buf ++ ext)) as Hv'.
  destruct (decode_status (buf ++ ext)) as [r n| |]; [destruct Hv'|..]; congruence.
Qed.

Lemma complete_stays buf ext r n :
  bytes (buf ++ ext) → decode_status buf = Complete r n → decode_status (buf ++ ext) = Complete r n.
Proof.
  intros Hb Hc. pose proof Hb as [Hb1 _]%Forall_app.
  apply decode_status_exact in Hc as (He & -> & ext' & ->); [|done].
  apply decode_status_exact; [done|]. split_and!; [done..|]. exists (ext' ++ ext). by rewrite app_assoc.
Qed.

(** The reply codec is exact: on any bytes, [decode_status] is [Complete]
    with a response and a length exactly when the bytes begin with that
    response's encoding, of that length, and the response respects the wire
    bounds (JSON of at most 16384 bytes, UTF-8 messages of at most 256). *)
Theorem reply_codec_exact buf r n :
  bytes buf →
  decode_status buf = Complete r n ↔
  encodable r ∧ n = len (response_encode r) ∧ ∃ ext, buf = response_encode r ++ ext.
Proof. apply decode_status_exact. Qed.

(** The streaming guarantees: for every message the wire can carry, every
    proper prefix of its encoding is [Incomplete] and the whole, followed by
    anything, is [Complete] with it; and a [Malformed] buffer stays [Malformed]
    whatever arrives after it. *)
Theorem reply_streaming r ext :
  encodable r → bytes (response_encode r ++ ext) →
  (∀ k, k < length (response_encode r) → decode_status (take k (response_encode r)) = Incomplete) ∧
  decode_status (response_encode r ++ ext) = Complete r (len (response_encode r)) ∧
  ∀ buf more, decode_status buf = Malformed → decode_status (buf ++ more) = Malformed.
Proof.
  intros He Hb. pose proof Hb as [Hb1 _]%Forall_app.
  assert (decode_status (response_encode r) = Complete r (len (response_encode r))) as Hfull.
  { apply decode_status_exact; [done|]. split_and!; [done..|]. exists []. by rewrite app_nil_r. }
  split_and!; [|by apply complete_stays|apply malformed_stays].
  intros k Hk. rewrite <-(take_drop k (response_encode r)) in Hb1, Hfull.
  destruct (decode_status (take k (response_encode r))) as [r' n| |] eqn:Hd; [|done|].
  - pose proof (complete_stays _ _ _ _ Hb1 Hd) as Hc. rewrite Hfull, take_drop in Hc. injection Hc as -> <-.
    apply decode_status_exact in Hd as (_ & _ & ext' & Heq); [|by apply Forall_app in Hb1 as [? _]].
    apply (f_equal length) in Heq. rewrite length_app, length_take in Heq. lia.
  - apply (malformed_stays _ (drop k (response_encode r))) in Hd. congruence.
Qed.

(** From reply bytes to the decision: an action whose policy is fail-closed
    passes the gate exactly when the bytes that came back begin with the
    encoding of an EXECUTE decision; every other reply, truncated, refused,
    malformed or erroneous, blocks it. *)
Theorem reply_bytes_gate a buf :
  bytes buf → unreachable_policy a = FailClosed →
  enforce (unreachable_policy a) (Remote (classify_decode (decode_status buf))) = Ok () ↔
  ∃ json ext, (len json ≤ MAX_JSON_LEN)%N ∧ buf = response_encode (Decision OutExecute json) ++ ext.
Proof.
  intros Hb ->. rewrite enforce_Ok. split.
  - intros [Hx|[_ [=]]]. injection Hx as Hx.
    destruct (decode_status buf) as [[[] json|[]] n| |] eqn:Hd; try done.
    apply decode_status_exact in Hd as (He & _ & ext & ->); [|done]. by exists json, ext.
  - intros (json & ext & Hl & ->). left.
    rewrite (proj2 (decode_status_exact _ (Decision OutExecute json)
      (len (response_encode (Decision OutExecute json))) Hb)); [done|].
    split_and!; [done..|by eexists].
Qed.

(** ** A concrete reply *)

Definition execute_reply : list N := response_encode (Decision OutExecute [123; 125]%N).

Lemma bytes_dec bs : forallb (λ b, bool_decide (b < 256)%N) bs = true → bytes bs.
Proof. rewrite forallb_forall. intros Hf. apply Forall_forall. intros b Hb%list_elem_of_In. by apply (bool_decide_eq_true_1 _ (Hf b Hb)). Qed.

Lemma reply_codec_witness : decode_status execute_reply = Complete (Decision OutExecute [123; 125]%N) 8.
Proof.
  apply (reply_codec_exact execute_reply); [by apply bytes_dec|].
  split_and!; [by vm_compute|reflexivity|]. by exists [].
Defined.

Lemma reply_streaming_witness : decode_status (take 5 execute_reply) = Incomplete.
Proof.
  apply (reply_streaming (Decision OutExecute [123; 125]%N) [7%N]); [by vm_compute|by apply bytes_dec|].
  vm_compute. lia.
Defined.

Lemma reply_gate_witness :
  enforce (unreachable_policy (MvnoReactivate 0)) (Remote (classify_decode (decode_status execute_reply)))
  = Ok ().
Proof.
  apply (reply_bytes_gate (MvnoReactivate 0) execute_reply); [by apply bytes_dec|reflexivity|].
  exists [123; 125]%N, []. split; [by vm_compute|reflexivity].
Defined.
