(* ===== verification/Capability.v ===== *)
(** * Capability: signed tokens, resource strings and the check

    Model of [capability-manager/src/lib.rs] and [kernel-arm/src/capabilities.rs].
    Ed25519 and hex encoding are third-party crates: they are the class
    [SignatureScheme], and what the code relies on is the class [SignatureLaws]. *)

From Stdlib Require Import Ascii.
From S2P Require Import Prelude Text Bytes.

(** ** The signature scheme the tokens use *)

Class SignatureScheme := {
  SigningKey : Type;
  VerifyingKey : Type;
  verifying_key : SigningKey → VerifyingKey;
  (** 64 signature bytes for a message. *)
  sign : SigningKey → string → list N;
  verify_signature : VerifyingKey → string → list N → bool;
  hex_encode : list N → string;
  hex_decode : string → option (list N);
}.

(** Documented behaviour: an honest signature verifies and is 64 bytes long,
    and hex decoding inverts hex encoding on bytes. *)
Class SignatureLaws (S : SignatureScheme) : Prop := {
  sign_verifies k m : verify_signature (verifying_key k) m (sign k m) = true;
  sign_length k m : length (sign k m) = 64;
  sign_bytes k m : Forall (λ b, b < 256)%N (sign k m);
  hex_decode_encode bs : Forall (λ b, b < 256)%N bs → hex_decode (hex_encode bs) = Some bs;
}.

(** ** Tokens *)

Definition CANONICAL_VERSION : string := "v1".

Record CapabilityToken := mkToken {
  tok_subject : string;
  tok_resource : string;
  tok_issued_at : N;
  tok_expires_at : N;
  tok_key_id : string;
  tok_signature : string;
}.

Inductive CapabilityError := Expired | WrongResource | InvalidSignature.

#[global] Instance CapabilityError_eq_dec : EqDecision CapabilityError.
Proof. solve_decision. Defined.
#[global] Instance CapabilityToken_eq_dec : EqDecision CapabilityToken.
Proof. solve_decision. Defined.

(** [Display for CapabilityError] *)
Definition cap_error_display (e : CapabilityError) : string :=
  match e with
  | Expired => "capability token expired"
  | WrongResource => "capability token is not authorized for this resource"
  | InvalidSignature => "capability token signature invalid"
  end.

Definition canonical_string (self : CapabilityToken) : string :=
  CANONICAL_VERSION +:+ "|" +:+ tok_subject self +:+ "|" +:+ tok_resource self +:+ "|" +:+
  pretty (tok_issued_at self) +:+ "|" +:+ pretty (tok_expires_at self).

Section tokens.
Context `{SignatureScheme}.

Definition issue (subject resource : string) (issued_at expires_at : N) (key_id : string)
    (signing_key : SigningKey) : CapabilityToken :=
  let token := mkToken subject resource issued_at expires_at key_id "" in
  let signature := sign signing_key (canonical_string token) in
  mkToken subject resource issued_at expires_at key_id (hex_encode signature).

Definition verify (self : CapabilityToken) (key : VerifyingKey) (resource : string) (now : N)
    : Result CapabilityError () :=
  if decide (tok_expires_at self < now)%N then Err Expired else
  if decide (tok_resource self ≠ resource) then Err WrongResource else
  match hex_decode (tok_signature self) with
  | Some sig_bytes =>
      if decide (length sig_bytes = 64) then
        if verify_signature key (canonical_string self) sig_bytes then Ok ()
        else Err InvalidSignature
      else Err InvalidSignature
  | None => Err InvalidSignature
  end.

(** [check] over the held set: the loop with its [last_err]. *)
Fixpoint check_loop (key : VerifyingKey) (resource : string) (now : N)
    (tokens : list CapabilityToken) (last_err : CapabilityError) : Result CapabilityError () :=
  match tokens with
  | [] => Err last_err
  | token :: tokens =>
      match verify token key resource now with
      | Ok _ => Ok ()
      | Err e => check_loop key resource now tokens e
      end
  end.

Definition check (demo_key : SigningKey) (held : list CapabilityToken) (resource : string)
    (now : N) : Result CapabilityError () :=
  if decide (held = []) then Err InvalidSignature
  else check_loop (verifying_key demo_key) resource now held InvalidSignature.

(** [issue_and_hold]; the 60-second window is computed with [u64] addition. *)
Definition issue_and_hold (demo_key : SigningKey) (held : list CapabilityToken)
    (resource : string) (now ticks_per_sec : N) : list CapabilityToken :=
  held ++ [issue "el0:arm-demo" resource now
             ((now + (60 * ticks_per_sec) mod (u64_max + 1)) mod (u64_max + 1))%N
             "demo-key" demo_key].
End tokens.

(** ** Revocation *)

Record RevocationList := mkRevocations {
  revoked_signatures : gset string;
  revoked_fingerprints : gset N;
}.

Section revocation.
Context `{SignatureScheme}.

Definition revocations_new : RevocationList := mkRevocations ∅ ∅.

(** The first sixteen characters, if there are that many. *)
Definition head16 (s : string) : option string :=
  if decide (16 ≤ String.length s) then Some (String.substring 0 16 s) else None.

Definition signature_fingerprint (signature_hex : string) : option N :=
  head ← head16 signature_hex;
  bytes ← hex_decode head;
  if decide (length bytes = 8) then Some (from_le bytes) else None.

Definition revoke (self : RevocationList) (token : CapabilityToken) : RevocationList :=
  mkRevocations
    ({[tok_signature token]} ∪ revoked_signatures self)
    (match signature_fingerprint (tok_signature token) with
     | Some fp => {[fp]} ∪ revoked_fingerprints self
     | None => revoked_fingerprints self
     end).

Definition is_revoked (self : RevocationList) (token : CapabilityToken) : bool :=
  bool_decide (tok_signature token ∈ revoked_signatures self).

Definition is_fingerprint_revoked (self : RevocationList) (fingerprint : N) : bool :=
  bool_decide (fingerprint ∈ revoked_fingerprints self).

(** The fingerprint index fails closed: after any sequence of revocations,
    a revoked token whose signature has a fingerprint is reported revoked by
    its fingerprint too. *)
Theorem fingerprint_covers_revoked (revoked : list CapabilityToken) token fp :
  let rl := foldl revoke revocations_new revoked in
  is_revoked rl token = true → signature_fingerprint (tok_signature token) = Some fp →
  is_fingerprint_revoked rl fp = true.
Proof.
  simpl. unfold is_revoked, is_fingerprint_revoked. rewrite !bool_decide_eq_true.
  intros Hrev Hfp. revert Hrev.
  assert (∀ rl, (tok_signature token ∈ revoked_signatures rl → fp ∈ revoked_fingerprints rl) →
    tok_signature token ∈ revoked_signatures (foldl revoke rl revoked) →
    fp ∈ revoked_fingerprints (foldl revoke rl revoked)) as Hgen.
  { induction revoked as [|t ts IH]; intros rl Hrl; [done|]. simpl. apply IH.
    simpl. intros [Heq|Hin]%elem_of_union.
    - apply elem_of_singleton in Heq. rewrite <-Heq, Hfp. set_solver.
    - apply Hrl in Hin. case_match; set_solver. }
  apply Hgen. set_solver.
Qed.
End revocation.

(** ** Resource strings *)

Definition ril_resource (channel : N) : string := "ril:" +:+ pretty channel.
Definition ipc_resource (channel : N) : string := "ipc:" +:+ pretty channel.
Definition sim_resource (slot : N) : string := "sim:" +:+ pretty slot.
Definition sim_profile_resource (slot profile : N) : string :=
  "sim:" +:+ pretty slot +:+ ":" +:+ pretty profile.
Definition sim_delete_resource (slot profile : N) : string :=
  "sim:delete:" +:+ pretty slot +:+ ":" +:+ pretty profile.
Definition mvno_account_resource (account : N) : string := "mvno:account:" +:+ pretty account.
Definition mvno_suspend_resource (account : N) : string := "mvno:suspend:" +:+ pretty account.
Definition data_session_resource (account : N) : string := "data:session:" +:+ pretty account.
Definition data_usage_resource (account : N) : string := "data:usage:" +:+ pretty account.
Definition data_reset_resource (account : N) : string := "data:reset:" +:+ pretty account.
Definition data_reset_early_resource (account : N) : string :=
  "data:reset-early:" +:+ pretty account.
Definition data_reconcile_resource : string := "data:reconcile".
Definition mmio_window_resource (base len : N) : string :=
  "mmio:" +:+ fmt_hex base +:+ ":" +:+ fmt_hex len.

Definition VIRTIO_MMIO_BASE : N := 0x0a000000.
Definition VIRTIO_MMIO_SLOT_STRIDE : N := 0x200.

Definition virtio_mmio_slot_resource (slot : N) : string :=
  mmio_window_resource (VIRTIO_MMIO_BASE + slot * VIRTIO_MMIO_SLOT_STRIDE)
    VIRTIO_MMIO_SLOT_STRIDE.

(** ** MMIO windows *)

Definition parse_mmio_window (resource : string) : option (N * N) :=
  rest ← strip_prefix "mmio:" resource;
  '(base_str, len_str) ← split_once ":" rest;
  base_digits ← strip_prefix "0x" base_str;
  base ← from_str_radix16 base_digits;
  len_digits ← strip_prefix "0x" len_str;
  len ← from_str_radix16 len_digits;
  Some (base, len).

Definition mmio_window_contains (granted_base granted_len requested_base requested_len : N)
    : bool :=
  match checked_add usize_max granted_base granted_len,
        checked_add usize_max requested_base requested_len with
  | Some granted_end, Some requested_end =>
      bool_decide (granted_base ≤ requested_base)%N &&
      bool_decide (requested_end ≤ granted_end)%N
  | _, _ => false
  end.

Definition check_mmio_window `{SignatureScheme} (demo_key : SigningKey)
    (token : CapabilityToken) (requested_base requested_len now : N)
    : Result CapabilityError () :=
  _ ← verify token (verifying_key demo_key) (tok_resource token) now;
  match parse_mmio_window (tok_resource token) with
  | Some (granted_base, granted_len) =>
      if mmio_window_contains granted_base granted_len requested_base requested_len
      then Ok () else Err WrongResource
  | None => Err WrongResource
  end.

(** ** One string per resource *)

Inductive Resource :=
  | RRil (channel : N) | RIpc (channel : N)
  | RSim (slot : N) | RSimProfile (slot profile : N) | RSimDelete (slot profile : N)
  | RMvnoAccount (account : N) | RMvnoSuspend (account : N)
  | RDataSession (account : N) | RDataUsage (account : N)
  | RDataReset (account : N) | RDataResetEarly (account : N)
  | RDataReconcile
  | RMmio (base len : N).

Definition resource_string (r : Resource) : string :=
  match r with
  | RRil c => ril_resource c
  | RIpc c => ipc_resource c
  | RSim s => sim_resource s
  | RSimProfile s p => sim_profile_resource s p
  | RSimDelete s p => sim_delete_resource s p
  | RMvnoAccount a => mvno_account_resource a
  | RMvnoSuspend a => mvno_suspend_resource a
  | RDataSession a => data_session_resource a
  | RDataUsage a => data_usage_resource a
  | RDataReset a => data_reset_resource a
  | RDataResetEarly a => data_reset_early_resource a
  | RDataReconcile => data_reconcile_resource
  | RMmio b l => mmio_window_resource b l
  end.

(** The colon-separated fields of a resource string. *)
Definition fields (r : Resource) : list string :=
  match r with
  | RRil c => ["ril"; pretty c]
  | RIpc c => ["ipc"; pretty c]
  | RSim s => ["sim"; pretty s]
  | RSimProfile s p => ["sim"; pretty s; pretty p]
  | RSimDelete s p => ["sim"; "delete"; pretty s; pretty p]
  | RMvnoAccount a => ["mvno"; "account"; pretty a]
  | RMvnoSuspend a => ["mvno"; "suspend"; pretty a]
  | RDataSession a => ["data"; "session"; pretty a]
  | RDataUsage a => ["data"; "usage"; pretty a]
  | RDataReset a => ["data"; "reset"; pretty a]
  | RDataResetEarly a => ["data"; "reset-early"; pretty a]
  | RDataReconcile => ["data"; "reconcile"]
  | RMmio b l => ["mmio"; fmt_hex b; fmt_hex l]
  end.

Lemma resource_fields r : resource_string r = join ":" (fields r).
Proof. by destruct r. Qed.

Lemma fields_free r : Forall (λ f, free ":" f = true) (fields r).
Proof.
  destruct r; repeat constructor; first [by apply free_pretty|by apply free_fmt_hex; set_solver].
Qed.

(** Addresses are [usize] values. *)
Definition addressable (r : Resource) : Prop :=
  match r with RMmio b l => (b ≤ usize_max ∧ l ≤ usize_max)%N | _ => True end.

Lemma resource_string_inj r r' :
  addressable r → addressable r' → resource_string r = resource_string r' → r = r'.
Proof.
  rewrite !resource_fields. intros Ha Ha' Heq.
  apply join_inj in Heq; [|apply fields_free..|by destruct r|by destruct r'].
  destruct r, r'; try discriminate Heq; try reflexivity; cbn [fields addressable] in *;
    try (f_equal; apply (inj pretty); congruence).
  destruct Ha, Ha'. f_equal; apply fmt_hex_inj; try done; congruence.
Qed.

(** ** What a token authorizes *)

Section authority.
Context `{SignatureLaws}.

Lemma verify_Ok token key resource now :
  verify token key resource now = Ok () ↔
  (now ≤ tok_expires_at token)%N ∧ tok_resource token = resource ∧
  ∃ bs, hex_decode (tok_signature token) = Some bs ∧ length bs = 64 ∧
    verify_signature key (canonical_string token) bs = true.
Proof.
  unfold verify. case_decide; [naive_solver lia|]. case_decide; [naive_solver|].
  destruct (hex_decode (tok_signature token)) as [bs|]; [|naive_solver].
  case_decide; [|naive_solver]. destruct (verify_signature _ _ _) eqn:E; split; try done.
  - intros _. split_and!; [lia|done|]. eauto.
  - intros (_ & _ & bs' & [= <-] & _ & ?). congruence.
Qed.

Lemma check_loop_Ok key resource now tokens e :
  check_loop key resource now tokens e = Ok () ↔
  ∃ t, t ∈ tokens ∧ verify t key resource now = Ok ().
Proof.
  revert e. induction tokens as [|t ts IH]; intros e; simpl.
  - split; [done|]. intros (t & Ht & _). by apply not_elem_of_nil in Ht.
  - destruct (verify t key resource now) as [[]|e'] eqn:Hv.
    + split; [|done]. intros _. exists t. split; [by left|done].
    + rewrite IH. split; intros (t' & Ht' & Hv'); exists t'; split; try done; [by right|].
      apply elem_of_cons in Ht' as [->|?]; [congruence|done].
Qed.

Lemma check_Ok k held resource now :
  check k held resource now = Ok () ↔
  ∃ t, t ∈ held ∧ verify t (verifying_key k) resource now = Ok ().
Proof.
  unfold check. case_decide as Hn; [|apply check_loop_Ok]. subst.
  split; [done|]. intros (t & Ht & _). by apply not_elem_of_nil in Ht.
Qed.

Lemma verify_issue subject resource t0 t1 kid k resource' now :
  verify (issue subject resource t0 t1 kid k) (verifying_key k) resource' now = Ok () ↔
  (now ≤ t1)%N ∧ resource = resource'.
Proof.
  rewrite verify_Ok. simpl. split; [naive_solver|]. intros [Hn ->].
  split_and!; [done..|]. eexists. split_and!; [apply hex_decode_encode, sign_bytes|apply sign_length|].
  apply sign_verifies.
Qed.

(** The tokens the kernel holds when its key issued one per entry. *)
Definition held_tokens (k : SigningKey) (issued : list (Resource * N * N)) : list CapabilityToken :=
  (λ '(r, t0, t1), issue "el0:arm-demo" (resource_string r) t0 t1 "demo-key" k) <$> issued.

Lemma check_issued k (issued : list (Resource * N * N)) r now :
  Forall (λ '(r', _, _), addressable r') issued → addressable r →
  check k (held_tokens k issued) (resource_string r) now = Ok () ↔
  ∃ t0 t1, (r, t0, t1) ∈ issued ∧ (now ≤ t1)%N.
Proof.
  intros Haddr Hr. unfold held_tokens. rewrite check_Ok. split.
  - intros (t & (((r' & t0) & t1) & -> & Hin)%list_elem_of_fmap & [Hn Heq]%verify_issue).
    rewrite Forall_forall in Haddr. specialize (Haddr _ Hin). simpl in Haddr.
    apply resource_string_inj in Heq as ->; [|done..]. eauto.
  - intros (t0 & t1 & Hin & Hn). eexists. split.
    + apply list_elem_of_fmap. eexists (r, t0, t1). done.
    + by apply verify_issue.
Qed.

(** A capability reaches exactly its own resource: when the held tokens
    were issued by the kernel's key for some resources, the check of any
    resource at any time passes exactly when one of them was issued for that
    very resource and has not expired; holding one resource never authorizes
    another (profile access never implies delete, account access never implies
    suspend, metering never implies reset, ...). *)
Theorem check_authorizes_exactly k (issued : list (Resource * N * N)) r now :
  Forall (λ '(r', _, _), addressable r') issued → addressable r →
  check k (held_tokens k issued) (resource_string r) now = Ok () ↔
  ∃ t0 t1, (r, t0, t1) ∈ issued ∧ (now ≤ t1)%N.
Proof. apply check_issued. Qed.
End authority.

(** ** Windows *)

Lemma parse_mmio_roundtrip_aux base len :
  (base ≤ usize_max)%N → (len ≤ usize_max)%N →
  parse_mmio_window (mmio_window_resource base len) = Some (base, len).
Proof.
  intros Hb Hl. unfold parse_mmio_window, mmio_window_resource.
  rewrite strip_prefix_app. cbn [mbind option_bind].
  change (":" +:+ fmt_hex len) with (String ":" (fmt_hex len)).
  rewrite split_once_app by (apply free_fmt_hex; set_solver). cbn [mbind option_bind]. unfold fmt_hex at 1.
  rewrite strip_prefix_app. cbn [mbind option_bind]. rewrite from_str_radix16_digits by done. cbn [mbind option_bind].
  unfold fmt_hex. rewrite strip_prefix_app. cbn [mbind option_bind].
  by rewrite from_str_radix16_digits by done.
Qed.

(** Parsing inverts formatting: every MMIO window resource string parses
    back to the base and length it was built from, for all [usize] values. *)
Theorem parse_mmio_roundtrip base len :
  (base ≤ usize_max)%N → (len ≤ usize_max)%N →
  parse_mmio_window (mmio_window_resource base len) = Some (base, len).
Proof. apply parse_mmio_roundtrip_aux. Qed.

Lemma parse_mmio_roundtrip_witness :
  parse_mmio_window "mmio:0xa003e00:0x200" = Some (0xa003e00, 0x200)%N.
Proof. apply (parse_mmio_roundtrip 0xa003e00 0x200); by vm_compute. Defined.

Lemma mmio_contains_spec gb gl rb rl :
  mmio_window_contains gb gl rb rl = true ↔
  (gb ≤ rb ∧ rb + rl ≤ gb + gl ∧ gb + gl ≤ usize_max ∧ rb + rl ≤ usize_max)%N.
Proof.
  unfold mmio_window_contains, checked_add.
  repeat case_decide; rewrite ?andb_true_iff, ?bool_decide_eq_true; naive_solver lia.
Qed.

(** Mapping authority is exact: a token issued for an MMIO window authorizes
    a requested window exactly while it is unexpired and only for requests whose
    every byte lies in the granted window, with no wrap-around of either end. *)
Theorem check_mmio_window_exact `{SignatureLaws} k subject base len t0 t1 rb rl now :
  (base ≤ usize_max)%N → (len ≤ usize_max)%N →
  let token := issue subject (mmio_window_resource base len) t0 t1 "demo-key" k in
  check_mmio_window k token rb rl now = Ok () ↔
  (now ≤ t1 ∧ base ≤ rb ∧ rb + rl ≤ base + len ∧ base + len ≤ usize_max)%N.
Proof.
  intros Hb Hl token. unfold check_mmio_window. rewrite Result_bind_Ok.
  assert (tok_resource token = mmio_window_resource base len) as -> by done.
  rewrite parse_mmio_roundtrip_aux by done. split.
  - intros ([] & [Hn _]%verify_issue & Hc). destruct (mmio_window_contains _ _ _ _) eqn:E; [|done].
    apply mmio_contains_spec in E. lia.
  - intros (Hn & Hc). exists (). split; [by apply verify_issue|].
    rewrite (proj2 (mmio_contains_spec _ _ _ _)); [done|]. lia.
Qed.

(** ** The canonical string *)

Definition token_fields (t : CapabilityToken) : list string :=
  ["v1"; tok_subject t; tok_resource t; pretty (tok_issued_at t); pretty (tok_expires_at t)].

Lemma canonical_fields t : canonical_string t = join "|" (token_fields t).
Proof. done. Qed.

(** The signed string determines the signed fields as long as subject and
    resource contain no separator, which holds of every resource string of the
    kernel; with a separator inside a field it does not: two tokens with
    different subjects and resources share one canonical string, hence one
    signature. *)
Theorem canonical_string_unambiguous :
  (∀ t t', free "|" (tok_subject t) = true → free "|" (tok_resource t) = true →
     free "|" (tok_subject t') = true → free "|" (tok_resource t') = true →
     canonical_string t = canonical_string t' →
     tok_subject t = tok_subject t' ∧ tok_resource t = tok_resource t' ∧
     tok_issued_at t = tok_issued_at t' ∧ tok_expires_at t = tok_expires_at t') ∧
  (∀ r, free "|" (resource_string r) = true) ∧
  (∃ t t', tok_subject t ≠ tok_subject t' ∧ tok_resource t ≠ tok_resource t' ∧
     canonical_string t = canonical_string t').
Proof.
  split_and!.
  - intros t t' Hs Hr Hs' Hr'. rewrite !canonical_fields. intros Heq.
    apply join_inj in Heq; [|repeat constructor; auto using free_pretty..|done|done].
    unfold token_fields in Heq. by simplify_eq.
  - intros r. rewrite resource_fields. apply free_join; [done|].
    destruct r; repeat constructor; first [by apply free_pretty|by apply free_fmt_hex; set_solver].
  - exists (mkToken "a|b" "c" 0 0 "" ""), (mkToken "a" "b|c" 0 0 "" "").
    split_and!; [done..|]. by vm_compute.
Qed.

(** ** A concrete scheme

    Real hexadecimal, and a keyed checksum in place of Ed25519: it satisfies the
    laws, so they are consistent. *)
Module Demo.
Fixpoint encode (bs : list N) : string :=
  match bs with
  | [] => ""
  | b :: bs => String (hex_char (b / 16)) (String (hex_char (b mod 16)) (encode bs))
  end.

Fixpoint decode (s : string) : option (list N) :=
  match s with
  | String c (String d s) =>
      h ← hex_digit c; l ← hex_digit d; bs ← decode s; Some ((h * 16 + l)%N :: bs)
  | EmptyString => Some []
  | String _ EmptyString => None
  end.

Definition tag (key : N) (message : string) : list N :=
  replicate 64 ((key + N.of_nat (String.length message)) mod 256)%N.

#[export] Instance scheme : SignatureScheme := {|
  SigningKey := N; VerifyingKey := N; verifying_key := id; sign := tag;
  verify_signature key message sig := bool_decide (sig = tag key message);
  hex_encode := encode; hex_decode := decode;
|}.

#[export] Instance laws : SignatureLaws scheme.
Proof.
  constructor; cbn [verify_signature verifying_key sign hex_encode hex_decode scheme id].
  - intros k m. by apply bool_decide_eq_true.
  - intros k m. apply length_replicate.
  - intros k m. apply Forall_replicate, N.mod_lt. done.
  - intros bs HF. induction HF as [|b bs Hb _ IH]; [done|]. cbn [encode decode].
    rewrite !hex_digit_char by (first [apply N.mod_lt; done|apply N.Div0.div_lt_upper_bound; lia]).
    cbn [mbind option_bind]. rewrite IH. cbn [mbind option_bind]. do 2 f_equal.
    rewrite N.mul_comm. symmetry. by apply N.div_mod.
Qed.
End Demo.

Lemma check_authorizes_witness :
  @check Demo.scheme 7%N (held_tokens (7%N : @SigningKey Demo.scheme) [(RSimProfile 0 1, 10, 70)%N])
    (resource_string (RSimProfile 0 1)) 70 = Ok ().
Proof.
  apply (@check_authorizes_exactly Demo.scheme Demo.laws); [by repeat constructor|done|].
  exists 10%N, 70%N. split; [by left|done].
Defined.

Lemma check_mmio_window_witness :
  @check_mmio_window Demo.scheme 7%N
    (@issue Demo.scheme "drv" (mmio_window_resource 0xa000000 0x4000) 0 60 "demo-key" 7%N)
    0xa003e00 0x200 60 = Ok ().
Proof.
  apply (@check_mmio_window_exact Demo.scheme Demo.laws); [by vm_compute..|]. unfold usize_max, u64_max. lia.
Defined.

Lemma fingerprint_witness :
  let token := @issue Demo.scheme "el0" "ril:0" 0 60 "demo-key" 7%N in
  is_fingerprint_revoked (foldl (@revoke Demo.scheme) revocations_new [token]) 1736164148113840152 = true.
Proof.
  apply (@fingerprint_covers_revoked Demo.scheme [@issue Demo.scheme "el0" "ril:0" 0 60 "demo-key" 7%N]
    (@issue Demo.scheme "el0" "ril:0" 0 60 "demo-key" 7%N)); vm_compute; reflexivity.
Defined.

Lemma canonical_string_witness :
  let t := mkToken "el0" "ril:0" 0 60 "k" "aa" in
  let t' := mkToken "el0" "ril:0" 0 60 "k2" "bb" in
  tok_resource t = tok_resource t'.
Proof.
  apply (proj1 canonical_string_unambiguous (mkToken "el0" "ril:0" 0 60 "k" "aa")
    (mkToken "el0" "ril:0" 0 60 "k2" "bb")); vm_compute; reflexivity.
Defined.
