(* ===== verification/Allowlist.v ===== *)
(** * Allowlist: signed module and instance manifests

    Model of the boot gate of [citadel-integration/src/lib.rs]
    ([ModuleManifestEntry], [BootAllowlist], [InstanceManifestEntry],
    [InstanceAllowlist]) and of the demo trust root of [kernel/src/citadel.rs] that
    calls it.  An allowlist holds its entries and, behind a [RefCell], its evidence
    log; authorizing returns the allowlist with the log extended.  Bytes of a
    module are a string of bytes; Ed25519, hex and SHA-256 are the parameters of
    [Capability] and [Worm]. *)

From Stdlib Require Import Ascii.
From S2P Require Import Prelude Text Bytes Worm Capability.

(** Documented behaviour of [hex::encode]: lowercase digits only, so no separator. *)
Class HexDigits (S : SignatureScheme) : Prop :=
  hex_encode_free bs : free "|" (hex_encode bs) = true.

Inductive CitadelError :=
  | NotAllowlisted
  | WrongModule
  | WrongInstance
  | HashMismatch
  | InvalidSignature.

#[global] Instance CitadelError_eq_dec : EqDecision CitadelError.
Proof. solve_decision. Defined.

(** [Display for CitadelError] *)
Definition citadel_error_display (e : CitadelError) : string :=
  match e with
  | NotAllowlisted => "module is not in the boot allowlist"
  | WrongModule => "manifest entry does not authorize this module"
  | WrongInstance => "manifest entry does not authorize this instance"
  | HashMismatch => "module bytes do not match the allowlisted hash"
  | InvalidSignature => "manifest entry signature invalid"
  end.

Section allowlist.
Context `{SignatureScheme} `{Sha256}.

(** [hex::encode(Sha256::digest(module_bytes))] *)
Definition digest_hex (module_bytes : string) : string := hex_encode (as_bytes (sha256 module_bytes)).

(** The signature half of both [verify] functions. *)
Definition verify_hex_signature (key : VerifyingKey) (message signature : string) :
    Result CitadelError () :=
  match hex_decode signature with
  | Some sig_bytes =>
      if decide (length sig_bytes = 64) then
        if verify_signature key message sig_bytes then Ok () else Err InvalidSignature
      else Err InvalidSignature
  | None => Err InvalidSignature
  end.

(** What a decision leaves in the evidence log. *)
Definition record_decision (evidence : list WormEntry) (module_id : string)
    (instance_id : option string) (result : Result CitadelError SandboxTier) : list WormEntry :=
  match result with
  | Ok tier => record evidence module_id instance_id (Some tier) true None None
  | Err err => record evidence module_id instance_id None false (Some (citadel_error_display err)) None
  end.

(** ** Modules *)

Definition CANONICAL_VERSION : string := "v2".

Record ModuleManifestEntry := mkModuleEntry {
  mm_module_id : string;
  mm_sha256_hex : string;
  mm_tier : SandboxTier;
  mm_key_id : string;
  mm_signature : string;
}.

Definition module_canonical_string (self : ModuleManifestEntry) : string :=
  CANONICAL_VERSION +:+ "|" +:+ mm_module_id self +:+ "|" +:+ mm_sha256_hex self +:+ "|" +:+
  tier_as_str (mm_tier self).

Definition module_issue (module_id sha256_hex : string) (tier : SandboxTier) (key_id : string)
    (signing_key : SigningKey) : ModuleManifestEntry :=
  let entry := mkModuleEntry module_id sha256_hex tier key_id "" in
  let signature := sign signing_key (module_canonical_string entry) in
  mkModuleEntry module_id sha256_hex tier key_id (hex_encode signature).

Definition module_verify (self : ModuleManifestEntry) (key : VerifyingKey)
    (expected_module_id expected_sha256_hex : string) : Result CitadelError () :=
  if decide (mm_module_id self ≠ expected_module_id) then Err WrongModule else
  if decide (mm_sha256_hex self ≠ expected_sha256_hex) then Err HashMismatch else
  verify_hex_signature key (module_canonical_string self) (mm_signature self).

Record BootAllowlist := mkBoot {
  boot_entries : list ModuleManifestEntry;
  boot_evidence : list WormEntry;
}.

Definition boot_new : BootAllowlist := mkBoot [] [].

Definition boot_insert (self : BootAllowlist) (entry : ModuleManifestEntry) : BootAllowlist :=
  mkBoot (boot_entries self ++ [entry]) (boot_evidence self).

Definition boot_find (self : BootAllowlist) (module_id : string) : option ModuleManifestEntry :=
  iter_find (λ e, mm_module_id e = module_id) (boot_entries self).

Definition evaluate_module_load (self : BootAllowlist) (key : VerifyingKey)
    (module_id module_bytes : string) : Result CitadelError SandboxTier :=
  entry ← ok_or (boot_find self module_id) NotAllowlisted;
  _ ← module_verify entry key module_id (digest_hex module_bytes);
  Ok (mm_tier entry).

Definition authorize_module_load (self : BootAllowlist) (key : VerifyingKey)
    (module_id module_bytes : string) : Result CitadelError SandboxTier * BootAllowlist :=
  let result := evaluate_module_load self key module_id module_bytes in
  (result, mkBoot (boot_entries self) (record_decision (boot_evidence self) module_id None result)).

(** ** Instances *)

Definition INSTANCE_CANONICAL_VERSION : string := "vi1".

Record InstanceManifestEntry := mkInstanceEntry {
  im_module_id : string;
  im_instance_id : string;
  im_sha256_hex : string;
  im_tier : SandboxTier;
  im_key_id : string;
  im_signature : string;
}.

Definition instance_canonical_string (self : InstanceManifestEntry) : string :=
  INSTANCE_CANONICAL_VERSION +:+ "|" +:+ im_module_id self +:+ "|" +:+ im_instance_id self +:+ "|" +:+
  im_sha256_hex self +:+ "|" +:+ tier_as_str (im_tier self).

Definition instance_issue (module_id instance_id sha256_hex : string) (tier : SandboxTier)
    (key_id : string) (signing_key : SigningKey) : InstanceManifestEntry :=
  let entry := mkInstanceEntry module_id instance_id sha256_hex tier key_id "" in
  let signature := sign signing_key (instance_canonical_string entry) in
  mkInstanceEntry module_id instance_id sha256_hex tier key_id (hex_encode signature).

Definition instance_verify (self : InstanceManifestEntry) (key : VerifyingKey)
    (expected_module_id expected_instance_id expected_sha256_hex : string) :
    Result CitadelError () :=
  if decide (im_module_id self ≠ expected_module_id) then Err WrongModule else
  if decide (im_instance_id self ≠ expected_instance_id) then Err WrongInstance else
  if decide (im_sha256_hex self ≠ expected_sha256_hex) then Err HashMismatch else
  verify_hex_signature key (instance_canonical_string self) (im_signature self).

Record InstanceAllowlist := mkInstances {
  instance_entries : list InstanceManifestEntry;
  instance_evidence : list WormEntry;
}.

Definition instances_new : InstanceAllowlist := mkInstances [] [].

Definition instances_insert (self : InstanceAllowlist) (entry : InstanceManifestEntry) :
    InstanceAllowlist :=
  mkInstances (instance_entries self ++ [entry]) (instance_evidence self).

Definition instances_find (self : InstanceAllowlist) (module_id instance_id : string) :
    option InstanceManifestEntry :=
  iter_find (λ e, im_module_id e = module_id ∧ im_instance_id e = instance_id)
    (instance_entries self).

Definition evaluate_instance_load (self : InstanceAllowlist) (key : VerifyingKey)
    (module_id instance_id module_bytes : string) : Result CitadelError SandboxTier :=
  entry ← ok_or (instances_find self module_id instance_id) NotAllowlisted;
  _ ← instance_verify entry key module_id instance_id (digest_hex module_bytes);
  Ok (im_tier entry).

Definition authorize_instance_load (self : InstanceAllowlist) (key : VerifyingKey)
    (module_id instance_id module_bytes : string) :
    Result CitadelError SandboxTier * InstanceAllowlist :=
  let result := evaluate_instance_load self key module_id instance_id module_bytes in
  (result, mkInstances (instance_entries self)
             (record_decision (instance_evidence self) module_id (Some instance_id) result)).

(** ** The kernel's demo trust root *)

Section demo.
Context (demo_signing_key : SigningKey).

Definition demo_allowlist (module_id module_bytes : string) (tier : SandboxTier) : BootAllowlist :=
  boot_insert boot_new
    (module_issue module_id (digest_hex module_bytes) tier "demo-key" demo_signing_key).

Definition demo_authorize (module_id module_bytes : string) (tier : SandboxTier) :
    Result CitadelError SandboxTier :=
  (authorize_module_load (demo_allowlist module_id module_bytes tier)
     (verifying_key demo_signing_key) module_id module_bytes).1.

(** [*first ^= 0xff], or one byte [0xff] for an empty module. *)
Definition tamper (module_bytes : string) : string :=
  match module_bytes with
  | String c rest => String (ascii_of_N (N.lxor (N_of_ascii c) 0xff)) rest
  | EmptyString => String (ascii_of_N 0xff) ""
  end.

Definition demo_reject_tampered (module_id module_bytes : string) (tier : SandboxTier) :
    Result CitadelError SandboxTier :=
  (authorize_module_load (demo_allowlist module_id module_bytes tier)
     (verifying_key demo_signing_key) module_id (tamper module_bytes)).1.

Definition demo_instance_allowlist (module_id instance_id module_bytes : string)
    (tier : SandboxTier) : InstanceAllowlist :=
  instances_insert instances_new
    (instance_issue module_id instance_id (digest_hex module_bytes) tier "demo-key" demo_signing_key).

Definition demo_authorize_instance (module_id instance_id module_bytes : string)
    (tier : SandboxTier) : Result CitadelError SandboxTier :=
  (authorize_instance_load (demo_instance_allowlist module_id instance_id module_bytes tier)
     (verifying_key demo_signing_key) module_id instance_id module_bytes).1.
End demo.
End allowlist.

(** ** What the gate decides *)

Section spec.
Context `{SignatureScheme} `{Sha256}.

Definition signature_valid (key : VerifyingKey) (message signature : string) : Prop :=
  ∃ sig_bytes, hex_decode signature = Some sig_bytes ∧ length sig_bytes = 64 ∧
    verify_signature key message sig_bytes = true.

Lemma verify_hex_signature_Ok key message signature :
  verify_hex_signature key message signature = Ok () ↔ signature_valid key message signature.
Proof.
  unfold verify_hex_signature, signature_valid. split.
  - case_all; try done. by eexists.
  - intros (sig & -> & Hl & Hv). by rewrite decide_True, Hv.
Qed.

Lemma module_verify_Ok e key id sha :
  module_verify e key id sha = Ok () ↔
  mm_module_id e = id ∧ mm_sha256_hex e = sha ∧
  signature_valid key (module_canonical_string e) (mm_signature e).
Proof.
  unfold module_verify. repeat case_decide; rewrite ?verify_hex_signature_Ok; split; first [done|tauto].
Qed.

Lemma instance_verify_Ok e key id inst sha :
  instance_verify e key id inst sha = Ok () ↔
  im_module_id e = id ∧ im_instance_id e = inst ∧ im_sha256_hex e = sha ∧
  signature_valid key (instance_canonical_string e) (im_signature e).
Proof.
  unfold instance_verify. repeat case_decide; rewrite ?verify_hex_signature_Ok; split; first [done|tauto].
Qed.

Lemma evaluate_module_load_Ok al key id bytes tier :
  evaluate_module_load al key id bytes = Ok tier ↔
  ∃ e, boot_find al id = Some e ∧ mm_tier e = tier ∧ mm_sha256_hex e = digest_hex bytes ∧
    signature_valid key (module_canonical_string e) (mm_signature e).
Proof.
  unfold evaluate_module_load. rewrite Result_bind_Ok. setoid_rewrite ok_or_Ok. split.
  - intros (e & He & ([] & Hv & [= <-])%Result_bind_Ok). apply module_verify_Ok in Hv. naive_solver.
  - intros (e & He & <- & Hd & Hs). exists e. split; [done|]. apply Result_bind_Ok.
    exists (). split; [|done]. apply module_verify_Ok.
    by apply (iter_find_Some_1 (λ e, mm_module_id e = id)) in He as [_ ?].
Qed.

Lemma evaluate_instance_load_Ok al key id inst bytes tier :
  evaluate_instance_load al key id inst bytes = Ok tier ↔
  ∃ e, instances_find al id inst = Some e ∧ im_tier e = tier ∧ im_sha256_hex e = digest_hex bytes ∧
    signature_valid key (instance_canonical_string e) (im_signature e).
Proof.
  unfold evaluate_instance_load. rewrite Result_bind_Ok. setoid_rewrite ok_or_Ok. split.
  - intros (e & He & ([] & Hv & [= <-])%Result_bind_Ok). apply instance_verify_Ok in Hv. naive_solver.
  - intros (e & He & <- & Hd & Hs). exists e. split; [done|]. apply Result_bind_Ok.
    exists (). split; [|done]. apply instance_verify_Ok.
    by apply (iter_find_Some_1 (λ e, im_module_id e = id ∧ im_instance_id e = inst)) in He as [_ [??]].
Qed.

(** ** What the release process signed

    [release] is the list of manifests the holder of the trust root issued, each
    for actual bytes; both kinds are signed with one key. *)

Inductive Release :=
  | RModule (module_id bytes : string) (tier : SandboxTier)
  | RInstance (module_id instance_id bytes : string) (tier : SandboxTier).

Definition release_message (r : Release) : string :=
  match r with
  | RModule id bytes tier => module_canonical_string (mkModuleEntry id (digest_hex bytes) tier "" "")
  | RInstance id inst bytes tier =>
      instance_canonical_string (mkInstanceEntry id inst (digest_hex bytes) tier "" "")
  end.

Definition release_instance_plain (r : Release) : Prop :=
  match r with
  | RModule _ _ _ => True
  | RInstance id _ _ _ => free "|" id = true
  end.

(** A signature that verifies for a message the release process never signed. *)
Definition forged (key : VerifyingKey) (release : list Release) (message signature : string) : Prop :=
  signature_valid key message signature ∧ message ∉ release_message <$> release.

(** Two byte strings with one digest. *)
Definition collide (a b : string) : Prop := a ≠ b ∧ sha256 a = sha256 b.

Context `{!SignatureLaws _} `{!HexDigits _}.

Lemma digest_hex_inj a b : digest_hex a = digest_hex b → a = b ∨ collide a b.
Proof.
  intros Heq. destruct (decide (a = b)) as [|Hne]; [by left|right]. split; [done|].
  apply (f_equal hex_decode) in Heq. unfold digest_hex in Heq.
  rewrite !hex_decode_encode in Heq by apply bytes_as_bytes. injection Heq as Heq.
  by rewrite <-(from_as_bytes (sha256 a)), Heq, from_as_bytes.
Qed.

Lemma digest_hex_free a : free "|" (digest_hex a) = true.
Proof. apply hex_encode_free. Qed.

Lemma tier_free t : free "|" (tier_as_str t) = true.
Proof. by destruct t. Qed.

(** The shape both kinds of message share: a head, the hash, the tier. *)
Lemma message_tail_inj (h h' : string) a b t t' :
  h +:+ "|" +:+ digest_hex a +:+ "|" +:+ tier_as_str t =
  h' +:+ "|" +:+ digest_hex b +:+ "|" +:+ tier_as_str t' →
  h = h' ∧ digest_hex a = digest_hex b ∧ t = t'.
Proof.
  intros Heq. rewrite <-!(string_app_assoc h), <-!(string_app_assoc h'),
    <-!(string_app_assoc (h +:+ "|")), <-!(string_app_assoc (h' +:+ "|")) in Heq.
  apply last_field_inj in Heq as [Heq Ht]; [|apply tier_free..]. apply tier_as_str_inj in Ht.
  rewrite !string_app_assoc in Heq. by apply last_field_inj in Heq as [-> Hd]; [|apply digest_hex_free..].
Qed.

Lemma module_message id sha t k s :
  module_canonical_string (mkModuleEntry id sha t k s) =
  ("v2|" +:+ id) +:+ "|" +:+ sha +:+ "|" +:+ tier_as_str t.
Proof. unfold module_canonical_string. cbn. by rewrite ?string_app_assoc. Qed.

Lemma instance_message id inst sha t k s :
  instance_canonical_string (mkInstanceEntry id inst sha t k s) =
  ("vi1|" +:+ id +:+ "|" +:+ inst) +:+ "|" +:+ sha +:+ "|" +:+ tier_as_str t.
Proof. unfold instance_canonical_string. cbn. by rewrite ?string_app_assoc. Qed.

Lemma module_message_release id bytes t r :
  release_message (RModule id bytes t) = release_message r →
  ∃ bytes', r = RModule id bytes' t ∧ digest_hex bytes = digest_hex bytes'.
Proof.
  destruct r as [id' bytes' t'|id' inst bytes' t']; cbn [release_message];
    rewrite ?module_message, ?instance_message; intros (Hh & Hd & ->)%message_tail_inj.
  - apply (string_app_inj_l "v2|") in Hh as ->. by exists bytes'.
  - by cbn in Hh.
Qed.

Lemma instance_message_release id inst bytes t r :
  free "|" id = true → release_instance_plain r →
  release_message (RInstance id inst bytes t) = release_message r →
  ∃ bytes', r = RInstance id inst bytes' t ∧ digest_hex bytes = digest_hex bytes'.
Proof.
  intros Hid Hr. destruct r as [id' bytes' t'|id' inst' bytes' t']; cbn [release_message];
    rewrite ?module_message, ?instance_message; intros (Hh & Hd & ->)%message_tail_inj.
  - by cbn in Hh.
  - apply (string_app_inj_l "vi1|") in Hh. apply (f_equal (split_once "|")) in Hh. cbn in Hr.
    change ("|" +:+ inst) with (String "|" inst) in Hh. change ("|" +:+ inst') with (String "|" inst') in Hh.
    rewrite !split_once_app in Hh by done. injection Hh as -> ->. by exists bytes'.
Qed.

(** An accepted message was signed, or its signature is a forgery. *)
Lemma signed_or_forged key release message signature :
  signature_valid key message signature →
  (∃ r, r ∈ release ∧ message = release_message r) ∨ forged key release message signature.
Proof.
  intros Hv. destruct (decide (message ∈ release_message <$> release)) as [Hin|Hin].
  - left. apply list_elem_of_fmap in Hin as (r & -> & Hr). by exists r.
  - by right.
Qed.

(** C40. The boot gate admits exactly what was released: if a module load is
    authorized, the release process signed that very module id, these very bytes
    and this very tier; or the allowlist entry carries a forged signature, or the
    bytes collide with released ones under SHA-256.  Nothing in an entry's text can
    change that: ids may contain the separator, and an instance manifest is never
    taken for a module manifest. *)
Theorem module_load_released release al key id bytes tier :
  (authorize_module_load al key id bytes).1 = Ok tier →
  RModule id bytes tier ∈ release ∨
  (∃ e, e ∈ boot_entries al ∧ forged key release (module_canonical_string e) (mm_signature e)) ∨
  (∃ bytes', RModule id bytes' tier ∈ release ∧ collide bytes bytes').
Proof.
  cbn. intros (e & He & <- & Hd & Hs)%evaluate_module_load_Ok.
  apply (iter_find_Some_1 (λ e, mm_module_id e = id)) in He as [Hin Hid].
  destruct (signed_or_forged key release _ _ Hs) as [(r & Hr & Hm)|Hf]; [|right; left; by exists e].
  assert (release_message (RModule id bytes (mm_tier e)) = release_message r) as Hm'.
  { rewrite <-Hm. destruct e. cbn in *. subst. by rewrite !module_message. }
  apply module_message_release in Hm' as (bytes' & -> & Hdd).
  apply digest_hex_inj in Hdd as [<-|Hc]; [by left|]. right; right. by exists bytes'.
Qed.

(** The same for one instance of a module, when module ids do not contain the
    separator (the kernel's own id does not): the release process signed exactly
    this instance of this module, these bytes and this tier. *)
Theorem instance_load_released release al key id inst bytes tier :
  free "|" id = true → Forall release_instance_plain release →
  (authorize_instance_load al key id inst bytes).1 = Ok tier →
  RInstance id inst bytes tier ∈ release ∨
  (∃ e, e ∈ instance_entries al ∧ forged key release (instance_canonical_string e) (im_signature e)) ∨
  (∃ bytes', RInstance id inst bytes' tier ∈ release ∧ collide bytes bytes').
Proof.
  intros Hfree Hplain. cbn. intros (e & He & <- & Hd & Hs)%evaluate_instance_load_Ok.
  apply (iter_find_Some_1 (λ e, im_module_id e = id ∧ im_instance_id e = inst)) in He as [Hin [Hid Hinst]].
  destruct (signed_or_forged key release _ _ Hs) as [(r & Hr & Hm)|Hf]; [|right; left; by exists e].
  assert (release_message (RInstance id inst bytes (im_tier e)) = release_message r) as Hm'.
  { rewrite <-Hm. destruct e. cbn in *. subst. by rewrite !instance_message. }
  apply instance_message_release in Hm' as (bytes' & -> & Hdd); [|done|by eapply Forall_forall in Hplain].
  apply digest_hex_inj in Hdd as [<-|Hc]; [by left|]. right; right. by exists bytes'.
Qed.

(** With the separator in a module id an instance manifest names two instances:
    the signature issued for instance [c] of module [a|b] authorizes instance [b|c]
    of module [a], which nobody released. *)
Theorem instance_manifest_ambiguous signing_key bytes tier :
  let issued := instance_issue "a|b" "c" (digest_hex bytes) tier "k" signing_key in
  let moved := mkInstanceEntry "a" "b|c" (digest_hex bytes) tier "k" (im_signature issued) in
  (authorize_instance_load (instances_insert instances_new moved) (verifying_key signing_key)
     "a" "b|c" bytes).1 = Ok tier ∧
  RInstance "a" "b|c" bytes tier ∉ [RInstance "a|b" "c" bytes tier].
Proof.
  cbn zeta. split; [|by intros [=]%list_elem_of_singleton].
  apply evaluate_instance_load_Ok. eexists. split; [done|]. split_and!; [done..|].
  eexists. split; [cbn [instance_issue im_signature]; apply hex_decode_encode, sign_bytes|].
  split; [apply sign_length|]. apply sign_verifies.
Qed.

(** ** The kernel's calls *)

Lemma signature_valid_issued k message : signature_valid (verifying_key k) message (hex_encode (sign k message)).
Proof. eexists. split; [apply hex_decode_encode, sign_bytes|]. split; [apply sign_length|apply sign_verifies]. Qed.

Lemma tamper_ne bytes : tamper bytes ≠ bytes.
Proof.
  destruct bytes as [|c bytes]; [done|]. cbn. intros [= Heq].
  apply (f_equal N_of_ascii) in Heq.
  assert (N.lxor (N_of_ascii c) 255 < 256)%N as Hlt.
  { apply N.log2_lt_cancel. cbn [N.log2]. apply (N.le_lt_trans _ _ _ (N.log2_lxor _ _)).
    pose proof (N_ascii_bounded c) as Hb. apply N.max_lub_lt; [|done].
    destruct (decide (N_of_ascii c = 0)%N) as [->|]; [done|]. apply N.log2_lt_pow2; [lia|exact Hb]. }
  rewrite N_ascii_embedding in Heq by done. apply (f_equal (N.lxor (N_of_ascii c))) in Heq.
  rewrite N.lxor_nilpotent, <-N.lxor_assoc, N.lxor_nilpotent in Heq. by cbn in Heq.
Qed.

(** The demo gate answers as its checks expect: what was issued is authorized at
    its tier, as a module and as an instance, and tampered bytes are refused as a
    hash mismatch unless they collide. *)
Theorem demo_gate k id inst bytes tier :
  demo_authorize k id bytes tier = Ok tier ∧
  demo_authorize_instance k id inst bytes tier = Ok tier ∧
  (demo_reject_tampered k id bytes tier = Err HashMismatch ∨ collide bytes (tamper bytes)).
Proof.
  split_and!.
  - apply evaluate_module_load_Ok. eexists. split; [cbn; by rewrite decide_True by done|].
    split_and!; [done..|]. apply signature_valid_issued.
  - apply evaluate_instance_load_Ok. eexists. split; [cbn; by rewrite decide_True by done|].
    split_and!; [done..|]. apply signature_valid_issued.
  - destruct (decide (digest_hex bytes = digest_hex (tamper bytes))) as [Heq|Hne].
    + apply digest_hex_inj in Heq as [Heq|Hc]; [by destruct (tamper_ne bytes)|by right].
    + left. unfold demo_reject_tampered, authorize_module_load, evaluate_module_load, demo_allowlist.
      cbn -[digest_hex decide]. rewrite decide_True by done. cbn -[digest_hex decide]. unfold module_verify. cbn -[digest_hex decide].
      rewrite decide_False by (intros []; done). by rewrite decide_True.
Qed.

(** ** Evidence *)

(** The boot loader's calls, one after the other. *)
Definition load_all (al : BootAllowlist) (key : VerifyingKey) (calls : list (string * string)) : BootAllowlist :=
  foldl (λ al call, (authorize_module_load al key call.1 call.2).2) al calls.

(** What an evidence entry says of one decision. *)
Definition evidence_of (e : WormEntry) : string * option SandboxTier * bool * option string :=
  (e_module_id e, e_tier e, e_authorized e, e_reason e).

Definition decision_of (entries : list ModuleManifestEntry) (key : VerifyingKey) (call : string * string) :
    string * option SandboxTier * bool * option string :=
  match evaluate_module_load (mkBoot entries []) key call.1 call.2 with
  | Ok tier => (call.1, Some tier, true, None)
  | Err err => (call.1, None, false, Some (citadel_error_display err))
  end.

Lemma load_all_evidence entries log key calls :
  verify_chain log = true →
  let al' := load_all (mkBoot entries log) key calls in
  boot_entries al' = entries ∧ verify_chain (boot_evidence al') = true ∧
  evidence_of <$> boot_evidence al' = (evidence_of <$> log) ++ (decision_of entries key <$> calls).
Proof.
  cbn zeta. revert log. induction calls as [|[id bytes] calls IH]; intros log Hlog.
  - cbn. by rewrite app_nil_r.
  - cbn [load_all foldl]. unfold authorize_module_load. cbn [fst snd boot_entries boot_evidence].
    set (r := evaluate_module_load (mkBoot entries log) key id bytes).
    destruct (IH (record_decision log id None r)) as (He & Hv & Hev).
    { destruct r; cbn [record_decision]; by apply record_verifies. }
    split_and!; [exact He|exact Hv|]. etransitivity; [exact Hev|].
    rewrite fmap_cons. change (decision_of entries key (id, bytes)) with
      (match r with Ok tier => (id, Some tier, true, None)
       | Err err => (id, None, false, Some (citadel_error_display err)) end).
    destruct r; cbn [record_decision]; unfold record; by rewrite fmap_app, <-app_assoc.
Qed.

(** Every boot decision leaves exactly one evidence entry, in order, saying what
    was decided (the tier granted, or the reason refused), and the chain verifies
    after any number of calls; deciding never changes the allowlist. *)
Theorem boot_evidence_complete entries key calls :
  let al := foldl boot_insert boot_new entries in
  let al' := load_all al key calls in
  boot_entries al' = entries ∧ verify_chain (boot_evidence al') = true ∧
  evidence_of <$> boot_evidence al' = decision_of entries key <$> calls.
Proof.
  cbn zeta. assert (∀ l, foldl boot_insert (mkBoot l []) entries = mkBoot (l ++ entries) []) as Hins.
  { induction entries as [|e es IH]; intros l; cbn; [by rewrite app_nil_r|].
    unfold boot_insert at 2. cbn [boot_entries boot_evidence]. by rewrite IH, <-app_assoc. }
  change boot_new with (mkBoot [] []). rewrite Hins. cbn [app].
  by destruct (load_all_evidence entries [] key calls eq_refl) as (? & ? & ?).
Qed.
End spec.

(** ** Concrete runs *)

Import Demo Toy.

#[export] Instance demo_hex_digits : HexDigits Demo.scheme.
Proof.
  intros bs. induction bs as [|b bs IH]; [done|]. cbn [hex_encode Demo.scheme Demo.encode].
  assert (∀ d, hex_char d ≠ "|"%char) as Hd.
  { intros d. unfold hex_char. by repeat case_match. }
  by rewrite !free_cons by apply Hd.
Qed.

Module Boot.
Definition key : @SigningKey Demo.scheme := 7%N.
Definition allowed : BootAllowlist := demo_allowlist key "grid-sandbox-host" "host" T1Critical.
Definition instances : InstanceAllowlist :=
  demo_instance_allowlist key "grid-sandbox-host" "app-1" "host" T3Untrusted.
End Boot.

Lemma module_load_released_witness :
  let rel := [RModule "grid-sandbox-host" "host" T1Critical] in
  RModule "grid-sandbox-host" "host" T1Critical ∈ rel ∨
  (∃ e, e ∈ boot_entries Boot.allowed ∧ forged (7%N : @VerifyingKey Demo.scheme) rel (module_canonical_string e) (mm_signature e)) ∨
  (∃ bytes', RModule "grid-sandbox-host" bytes' T1Critical ∈ rel ∧ collide "host" bytes').
Proof.
  apply (module_load_released [RModule "grid-sandbox-host" "host" T1Critical] Boot.allowed
    (7%N : @VerifyingKey Demo.scheme)). vm_compute. reflexivity.
Defined.

Lemma instance_load_released_witness :
  let rel := [RInstance "grid-sandbox-host" "app-1" "host" T3Untrusted] in
  RInstance "grid-sandbox-host" "app-1" "host" T3Untrusted ∈ rel ∨
  (∃ e, e ∈ instance_entries Boot.instances ∧ forged (7%N : @VerifyingKey Demo.scheme) rel (instance_canonical_string e) (im_signature e)) ∨
  (∃ bytes', RInstance "grid-sandbox-host" "app-1" bytes' T3Untrusted ∈ rel ∧ collide "host" bytes').
Proof.
  apply (instance_load_released [RInstance "grid-sandbox-host" "app-1" "host" T3Untrusted] Boot.instances
    (7%N : @VerifyingKey Demo.scheme)); [vm_compute; reflexivity|by repeat constructor|vm_compute; reflexivity].
Defined.
