(* ===== verification/FsCodec.v ===== *)
(** * FsCodec: the file-system wire format, [ipc/src/fs.rs]

    Requests and responses between a client and [blk-driver-host], decoded from
    a growing buffer: [None] means "not a message yet".  Each codec is an
    [ExactCodec]. *)

From S2P Require Import Prelude Bytes Capability.

Definition MAX_NAME_LEN : N := 64.
Definition MAX_TOKEN_FIELD_LEN : N := 256.
Definition MAX_DATA_LEN : N := 4096.

Definition encode_string (s : string) : list N := encode_str s.
Definition decode_string (buf : list N) : option (string * N) := decode_str MAX_TOKEN_FIELD_LEN buf.

Definition encode_token (token : CapabilityToken) : list N :=
  encode_string (tok_subject token) ++
  encode_string (tok_resource token) ++
  le_bytes 8 (tok_issued_at token) ++
  le_bytes 8 (tok_expires_at token) ++
  encode_string (tok_key_id token) ++
  encode_string (tok_signature token).

Definition decode_token (buf : list N) : option (CapabilityToken * N) :=
  '(subject, n) ← decode_string buf;
  let off := n in
  '(resource, n) ← get_from buf off ≫= decode_string;
  let off := (off + n)%N in
  if decide (len buf < off + 16)%N then None else
  let issued_at := from_le (slice buf off 8) in
  let off := (off + 8)%N in
  let expires_at := from_le (slice buf off 8) in
  let off := (off + 8)%N in
  '(key_id, n) ← get_from buf off ≫= decode_string;
  let off := (off + n)%N in
  '(signature, n) ← get_from buf off ≫= decode_string;
  let off := (off + n)%N in
  Some (mkToken subject resource issued_at expires_at key_id signature, off).

Inductive FsRequest :=
  | FsRead (name : string) (token : CapabilityToken)
  | FsWrite (name : string) (token : CapabilityToken) (data : list N).

Definition fs_request_encode (r : FsRequest) : list N :=
  match r with
  | FsRead name token => 0%N :: encode_string name ++ encode_token token
  | FsWrite name token data =>
      1%N :: encode_string name ++ encode_token token ++
      u16_to_le (len data mod 65536)%N ++ data
  end.

Definition fs_request_decode (buf : list N) : option (FsRequest * N) :=
  tag ← head buf;
  let off := 1%N in
  '(name, n) ← get_from buf off ≫= decode_string;
  if decide (MAX_NAME_LEN < N.of_nat (String.length name))%N then None else
  let off := (off + n)%N in
  '(token, n) ← get_from buf off ≫= decode_token;
  let off := (off + n)%N in
  if decide (tag = 0)%N then Some (FsRead name token, off)
  else if decide (tag = 1)%N then
    '(data, n) ← get_from buf off ≫= decode_blob MAX_DATA_LEN;
    Some (FsWrite name token data, off + n)%N
  else None.

Inductive FsError := Unauthorized | NotFound | BadRequest | DeviceFailed.

#[global] Instance FsError_eq_dec : EqDecision FsError.
Proof. solve_decision. Defined.

Inductive FsResponse :=
  | FsData (data : list N)
  | FsOk
  | FsErr (e : FsError).

#[global] Instance FsResponse_eq_dec : EqDecision FsResponse.
Proof. solve_decision. Defined.

Definition fs_error_to_byte (e : FsError) : N :=
  match e with Unauthorized => 0 | NotFound => 1 | BadRequest => 2 | DeviceFailed => 3 end.

Definition fs_error_from_byte (byte : N) : option FsError :=
  if decide (byte = 0)%N then Some Unauthorized
  else if decide (byte = 1)%N then Some NotFound
  else if decide (byte = 2)%N then Some BadRequest
  else if decide (byte = 3)%N then Some DeviceFailed
  else None.

Definition fs_response_encode (r : FsResponse) : list N :=
  match r with
  | FsData data => 0%N :: u16_to_le (len data mod 65536)%N ++ data
  | FsOk => [1%N]
  | FsErr e => [2%N; fs_error_to_byte e]
  end.

Definition fs_response_decode (buf : list N) : option (FsResponse * N) :=
  match buf with
  | [] => None
  | tag :: rest =>
      if decide (tag = 0)%N then
        '(data, n) ← decode_blob MAX_DATA_LEN rest; Some (FsData data, 1 + n)%N
      else if decide (tag = 1)%N then Some (FsOk, 1%N)
      else if decide (tag = 2)%N then
        err_byte ← head rest; err ← fs_error_from_byte err_byte; Some (FsErr err, 2%N)
      else None
  end.

(** ** The codecs are exact *)

#[global] Instance fs_string_codec : ExactCodec (str_fits MAX_TOKEN_FIELD_LEN) encode_string decode_string.
Proof. by apply str_codec. Qed.

#[global] Instance fs_data_codec :
  ExactCodec (λ bs, (len bs ≤ MAX_DATA_LEN)%N ∧ bytes bs) encode_blob (decode_blob MAX_DATA_LEN).
Proof. by apply blob_codec. Qed.

(** A token the wire can carry. *)
Definition token_fits (t : CapabilityToken) : Prop :=
  str_fits MAX_TOKEN_FIELD_LEN (tok_subject t) ∧ str_fits MAX_TOKEN_FIELD_LEN (tok_resource t) ∧
  (tok_issued_at t < 256 ^ 8)%N ∧ (tok_expires_at t < 256 ^ 8)%N ∧
  str_fits MAX_TOKEN_FIELD_LEN (tok_key_id t) ∧ str_fits MAX_TOKEN_FIELD_LEN (tok_signature t).

(** Two words in a row. *)
Lemma split_words buf :
  bytes buf → (16 ≤ len buf)%N → ∃ a b ext, (a < 256 ^ 8 ∧ b < 256 ^ 8)%N ∧
    buf = le_bytes 8 a ++ le_bytes 8 b ++ ext.
Proof.
  intros Hb Hl. exists (from_le (take 8 buf)), (from_le (take 8 (drop 8 buf))), (drop 16 buf).
  assert (∀ bs, bytes bs → length bs = 8%nat → (from_le bs < 256 ^ 8)%N ∧ le_bytes 8 (from_le bs) = bs) as H8.
  { intros bs Hbs H. split; [|rewrite <-H at 1; by apply le_bytes_from].
    pose proof (from_le_lt bs Hbs) as Hlt. unfold len in Hlt. by rewrite H in Hlt. }
  unfold len in Hl. destruct (H8 (take 8 buf)) as [Ha ->];
    [by apply Forall_take|rewrite length_take; lia|].
  destruct (H8 (take 8 (drop 8 buf))) as [Hb' ->];
    [by apply Forall_take, Forall_drop|rewrite length_take, length_drop; lia|].
  split; [done|]. rewrite <-(take_drop 8 buf) at 1. f_equal.
  rewrite <-(take_drop 8 (drop 8 buf)) at 1. f_equal. by rewrite drop_drop.
Qed.

Lemma words_len a : len (le_bytes 8 a) = 8%N.
Proof. unfold len. by rewrite length_le_bytes. Qed.

Lemma token_parts t ext :
  encode_token t ++ ext =
  encode_string (tok_subject t) ++ encode_string (tok_resource t) ++ le_bytes 8 (tok_issued_at t) ++
  le_bytes 8 (tok_expires_at t) ++ encode_string (tok_key_id t) ++ encode_string (tok_signature t) ++ ext.
Proof. unfold encode_token. by rewrite <-!app_assoc. Qed.

(** Decoding behind an already decoded prefix. *)
Lemma decode_after {A} (dec : list N → option (A * N)) l k off :
  off = len l → (get_from (l ++ k) off ≫= dec) = dec k.
Proof. intros ->. by rewrite get_from_len. Qed.

Lemma decode_token_ok t ext :
  token_fits t → bytes ext → decode_token (encode_token t ++ ext) = Some (t, len (encode_token t)).
Proof.
  intros (Hs & Hr & Hi & He & Hk & Hg) Hext.
  assert (∀ s k, str_fits MAX_TOKEN_FIELD_LEN s → bytes k → bytes (encode_string s ++ k)) as Hb.
  { intros s k Hf Hk'. apply bytes_app. split; [by apply codec_bytes|done]. }
  assert (∀ n k, bytes k → bytes (le_bytes 8 n ++ k)) as Hw.
  { intros n k Hk'. apply bytes_app. split; [apply bytes_le_bytes|done]. }
  rewrite token_parts. unfold decode_token. rewrite codec_dec by auto 10. cbn [mbind option_bind].
  rewrite decode_after, codec_dec by auto 10. cbn [mbind option_bind].
  rewrite decide_False by (rewrite !len_app, !words_len; lia).
  rewrite (app_assoc (encode_string (tok_subject t)) (encode_string (tok_resource t))).
  rewrite (slice_app_here _ (le_bytes 8 (tok_issued_at t))) by (by rewrite ?len_app, ?words_len).
  rewrite from_le_bytes by done.
  rewrite (app_assoc _ (le_bytes 8 (tok_issued_at t))).
  rewrite (slice_app_here _ (le_bytes 8 (tok_expires_at t))) by (by rewrite ?len_app, ?words_len).
  rewrite from_le_bytes by done.
  rewrite (app_assoc _ (le_bytes 8 (tok_expires_at t))).
  rewrite decode_after, codec_dec by (auto 10 || by rewrite !len_app, !words_len). cbn [mbind option_bind].
  rewrite (app_assoc _ (encode_string (tok_key_id t))).
  rewrite decode_after, codec_dec by (auto 10 || by rewrite !len_app, !words_len). cbn [mbind option_bind].
  destruct t. do 2 f_equal. unfold encode_token. rewrite !len_app, !words_len. cbn. lia.
Qed.

Lemma encode_token_bytes t : token_fits t → bytes (encode_token t).
Proof.
  intros (Hs & Hr & _ & _ & Hk & Hg). unfold encode_token. rewrite !bytes_app.
  split_and!; try apply bytes_le_bytes; by apply codec_bytes.
Qed.

Lemma decode_token_inv buf t n :
  bytes buf → decode_token buf = Some (t, n) →
  token_fits t ∧ n = len (encode_token t) ∧ ∃ ext, buf = encode_token t ++ ext.
Proof.
  intros Hb Hd. unfold decode_token in Hd.
  apply bind_Some in Hd as ([s n1] & H1 & Hd). apply codec_inv in H1 as (Hs & -> & k1 & -> & Hk1); [|done].
  apply bind_Some in Hd as ([r n2] & H2 & Hd). rewrite decode_after in H2 by done.
  apply codec_inv in H2 as (Hr & -> & k2 & -> & Hk2); [|done].
  case_decide as Hlen; [done|]. rewrite !len_app in Hlen.
  destruct (split_words k2 Hk2) as (i & e & k3 & [Hi He] & ->); [lia|].
  rewrite (app_assoc (encode_string s)) in Hd.
  rewrite (slice_app_here _ (le_bytes 8 i)) in Hd by (by rewrite ?len_app, ?words_len).
  rewrite (app_assoc _ (le_bytes 8 i)) in Hd.
  rewrite (slice_app_here _ (le_bytes 8 e)) in Hd by (by rewrite ?len_app, ?words_len).
  rewrite !from_le_bytes in Hd by done. rewrite (app_assoc _ (le_bytes 8 e)) in Hd.
  apply bind_Some in Hd as ([kid n3] & H3 & Hd).
  rewrite decode_after in H3 by (by rewrite !len_app, !words_len).
  apply bytes_app in Hk2 as [_ [_ Hk3]%bytes_app].
  apply codec_inv in H3 as (Hkid & -> & k4 & -> & Hk4); [|done].
  rewrite (app_assoc _ (encode_string kid)) in Hd.
  apply bind_Some in Hd as ([sg n4] & H4 & Hd).
  rewrite decode_after in H4 by (by rewrite !len_app, !words_len).
  apply codec_inv in H4 as (Hsg & -> & k5 & -> & Hk5); [|done]. injection Hd as <- <-.
  split_and!; [done| |exists k5; by rewrite token_parts].
  unfold encode_token. rewrite !len_app, !words_len.
  cbn [tok_subject tok_resource tok_key_id tok_signature]. lia.
Qed.

#[global] Instance token_codec : ExactCodec token_fits encode_token decode_token.
Proof.
  split; [|apply encode_token_bytes]. intros buf t n Hb. split; [by apply decode_token_inv|].
  intros (Ht & -> & ext & ->). apply decode_token_ok; [done|]. by apply bytes_app in Hb as [_ ?].
Qed.

(** A request the wire can carry. *)
Definition request_fits (r : FsRequest) : Prop :=
  match r with
  | FsRead name token => str_fits MAX_NAME_LEN name ∧ token_fits token
  | FsWrite name token data =>
      str_fits MAX_NAME_LEN name ∧ token_fits token ∧ (len data ≤ MAX_DATA_LEN)%N ∧ bytes data
  end.

Lemma name_fits name :
  str_fits MAX_NAME_LEN name ↔
  str_fits MAX_TOKEN_FIELD_LEN name ∧ ¬ (MAX_NAME_LEN < N.of_nat (String.length name))%N.
Proof. unfold str_fits, MAX_NAME_LEN, MAX_TOKEN_FIELD_LEN. naive_solver lia. Qed.

Lemma get_from_1 b buf : get_from (b :: buf) 1 = Some buf.
Proof. apply (get_from_len [b] buf). Qed.

Lemma fs_request_decode_inv buf r n :
  bytes buf → fs_request_decode buf = Some (r, n) →
  request_fits r ∧ n = len (fs_request_encode r) ∧ ∃ ext, buf = fs_request_encode r ++ ext.
Proof.
  intros Hb Hd. unfold fs_request_decode in Hd. destruct buf as [|tag buf]; [done|].
  apply bytes_tail in Hb. cbn [head mbind option_bind] in Hd. rewrite get_from_1 in Hd.
  apply bind_Some in Hd as ([name n1] & H1 & Hd). cbn [mbind option_bind] in H1.
  apply codec_inv in H1 as (Hn & -> & k1 & -> & Hk1); [|done].
  case_decide as Hlen; [done|]. pose proof (proj2 (name_fits name) (conj Hn Hlen)) as Hname.
  apply bind_Some in Hd as ([token n2] & H2 & Hd).
  rewrite app_comm_cons, decode_after in H2 by (by rewrite len_nil_cons).
  apply codec_inv in H2 as (Ht & -> & k2 & -> & Hk2); [|done].
  case_decide as Htag; [|case_decide as Htag1; [|done]].
  - injection Hd as <- <-. subst. split_and!; [done| |exists k2; cbn [fs_request_encode]; by rewrite <-app_comm_cons, <-app_assoc].
    cbn [fs_request_encode]. rewrite len_nil_cons, len_app. lia.
  - apply bind_Some in Hd as ([data n3] & H3 & Hd). subst.
    rewrite app_comm_cons, app_assoc, decode_after in H3 by (by rewrite len_app, len_nil_cons).
    apply codec_inv in H3 as ([Hdl Hdb] & -> & k3 & -> & Hk3); [|done]. injection Hd as <- <-.
    split_and!; [done| |].
    + cbn [fs_request_encode]. fold (encode_blob data). rewrite len_nil_cons, !len_app. lia.
    + exists k3. cbn [fs_request_encode]. fold (encode_blob data).
      by rewrite <-app_comm_cons, <-!app_assoc.
Qed.

Lemma fs_request_decode_ok r ext :
  request_fits r → bytes ext → fs_request_decode (fs_request_encode r ++ ext) = Some (r, len (fs_request_encode r)).
Proof.
  intros Hr Hext.
  assert (∃ tag name token tail,
    fs_request_encode r = tag :: encode_string name ++ encode_token token ++ tail ∧
    str_fits MAX_NAME_LEN name ∧ token_fits token ∧ bytes tail ∧
    ((tag = 0%N ∧ tail = [] ∧ r = FsRead name token) ∨
     (tag = 1%N ∧ ∃ data, tail = encode_blob data ∧ (len data ≤ MAX_DATA_LEN)%N ∧ bytes data ∧
       r = FsWrite name token data))) as (tag & name & token & tail & -> & Hn & Ht & Hb & Hcase).
  { destruct r as [name token|name token data]; cbn [request_fits fs_request_encode] in *.
    - exists 0%N, name, token, []. rewrite app_nil_r. destruct Hr as [? ?].
      split_and!; [done|done|done|by constructor|by left].
    - fold (encode_blob data). exists 1%N, name, token, (encode_blob data).
      destruct Hr as (? & ? & Hd). split_and!; [done|done|done|by apply codec_bytes|]. right.
      split; [done|]. exists data. by destruct Hd. }
  apply name_fits in Hn as [Hn Hlen].
  assert (bytes (tail ++ ext)) as Hb1 by (by apply bytes_app).
  assert (bytes (encode_token token ++ tail ++ ext)) as Hb2
    by (apply bytes_app; split; [by apply codec_bytes|done]).
  rewrite <-app_comm_cons, <-!app_assoc. unfold fs_request_decode. cbn [head mbind option_bind].
  rewrite get_from_1. cbn [mbind option_bind]. rewrite codec_dec by done. cbn [mbind option_bind].
  rewrite decide_False by done. rewrite app_comm_cons, decode_after by (by rewrite len_nil_cons).
  rewrite codec_dec by done. cbn [mbind option_bind].
  destruct Hcase as [(-> & -> & ->)|(-> & data & -> & Hdl & Hdb & ->)].
  - rewrite decide_True by done. rewrite app_nil_r, len_nil_cons, len_app. do 2 f_equal. lia.
  - rewrite decide_False, decide_True by done.
    rewrite app_assoc, decode_after by (by rewrite len_app, len_nil_cons).
    rewrite codec_dec by done. cbn [mbind option_bind]. rewrite len_nil_cons, !len_app. do 2 f_equal. lia.
Qed.

Lemma fs_request_bytes r : request_fits r → bytes (fs_request_encode r).
Proof.
  destruct r as [name token|name token data]; cbn [request_fits fs_request_encode].
  - intros [[Hn _]%name_fits Ht]. constructor; [lia|]. apply bytes_app. by split; apply codec_bytes.
  - intros ([Hn _]%name_fits & Ht & Hd). fold (encode_blob data). constructor; [lia|].
    rewrite !bytes_app. by split_and!; apply codec_bytes.
Qed.

#[global] Instance fs_request_codec : ExactCodec request_fits fs_request_encode fs_request_decode.
Proof.
  split; [|apply fs_request_bytes]. intros buf r n Hb. split; [by apply fs_request_decode_inv|].
  intros (Hr & -> & ext & ->). apply fs_request_decode_ok; [done|]. by apply bytes_app in Hb as [_ ?].
Qed.

(** ** Responses *)

Definition response_fits (r : FsResponse) : Prop :=
  match r with FsData data => (len data ≤ MAX_DATA_LEN)%N ∧ bytes data | FsOk | FsErr _ => True end.

Lemma fs_error_byte_exact b e : fs_error_from_byte b = Some e ↔ b = fs_error_to_byte e.
Proof. unfold fs_error_from_byte. repeat case_decide; destruct e; cbn; split; naive_solver. Qed.

#[global] Instance fs_response_codec : ExactCodec response_fits fs_response_encode fs_response_decode.
Proof.
  split.
  2:{ intros [data| |e] Hr; [|by repeat constructor|destruct e; by repeat constructor].
      constructor; [lia|]. fold (encode_blob data). by apply codec_bytes. }
  intros buf r n Hb. destruct buf as [|tag rest]; [split; [done|]; intros (_ & _ & ext & ?); by destruct r|].
  apply bytes_tail in Hb. cbn [fs_response_decode]. split.
  - case_decide as H0; [|case_decide as H1; [|case_decide as H2; [|done]]].
    + intros ([data k] & Hd & [= <- <-])%bind_Some.
      apply codec_inv in Hd as (Hd & -> & ext & -> & _); [|done]. subst. cbn [fs_response_encode].
      fold (encode_blob data). rewrite len_nil_cons. split_and!; [done|done|by exists ext].
    + intros [= <- <-]. subst. split_and!; [done|done|by exists rest].
    + destruct rest as [|b rest]; [done|]. cbn [head mbind option_bind].
      intros (e & He & [= <- <-])%bind_Some. apply fs_error_byte_exact in He. subst.
      split_and!; [done|done|by exists rest].
  - intros (Hr & -> & ext & Heq). destruct r as [data| |e]; cbn [fs_response_encode] in *.
    + fold (encode_blob data) in *. rewrite <-app_comm_cons in Heq.
      remember (encode_blob data ++ ext) as body eqn:Hbody. injection Heq as -> ->. subst.
      rewrite decide_True by done. apply bytes_app in Hb as [_ Hext]. rewrite codec_dec by done.
      cbn [mbind option_bind]. by rewrite len_nil_cons.
    + by injection Heq as -> ->.
    + injection Heq as -> ->. repeat (rewrite decide_False by done). rewrite decide_True by done.
      cbn [head mbind option_bind]. by rewrite (proj2 (fs_error_byte_exact _ e)).
Qed.

(** The file protocol's codecs are exact: on any bytes, decoding a request (or
    a response) succeeds with a value and a length exactly when the bytes begin
    with that value's encoding, of that length, and the value respects the wire's
    bounds (names of at most 128 bytes, token fields of at most 256, data of at
    most 4096).  So encoding loses nothing, no two messages share an encoding, and
    a message cut short is never mistaken for another. *)
Theorem fs_wire_exact :
  (∀ buf r n, bytes buf →
     fs_request_decode buf = Some (r, n) ↔
     request_fits r ∧ n = len (fs_request_encode r) ∧ ∃ ext, buf = fs_request_encode r ++ ext) ∧
  (∀ buf r n, bytes buf →
     fs_response_decode buf = Some (r, n) ↔
     response_fits r ∧ n = len (fs_response_encode r) ∧ ∃ ext, buf = fs_response_encode r ++ ext).
Proof. split; intros; by apply codec_exact. Qed.
