(* ===== verification/SocketCodec.v ===== *)
(** * SocketCodec: the sockets wire format, [ipc/src/sockets.rs]

    Requests and responses between a client and [net-driver-host]; each codec is
    an [ExactCodec]. *)

From S2P Require Import Prelude Bytes.

Definition MAX_SOCKETS : N := 4.
Definition MAX_PAYLOAD_LEN : N := 4096.

(** [remote_ip] is an array of four bytes. *)
Inductive SocketRequest :=
  | SockOpen
  | SockConnect (handle : N) (ip : N * N * N * N) (remote_port local_port : N)
  | SockSend (handle : N) (data : list N)
  | SockRecv (handle max_len : N)
  | SockClose (handle : N).

Inductive SocketError :=
  AlreadyOpen | NotOpen | InvalidLength | ConnectFailedErr | TooManyOpen | InvalidHandle.

#[global] Instance SocketError_eq_dec : EqDecision SocketError.
Proof. solve_decision. Defined.

Inductive SocketResponse :=
  | Connected (handle : N)
  | OpenFailed (error : SocketError)
  | ConnectFailed (handle : N) (error : SocketError)
  | Sent (handle len : N)
  | SendFailed (handle : N) (error : SocketError)
  | SockData (handle : N) (data : list N)
  | Opened (handle : N)
  | Closed (handle : N)
  | SockError (handle : N) (error : SocketError).

Definition sock_error_to_byte (e : SocketError) : N :=
  match e with
  | AlreadyOpen => 0 | NotOpen => 1 | InvalidLength => 2 | ConnectFailedErr => 3
  | TooManyOpen => 4 | InvalidHandle => 5
  end.

Definition sock_error_from_byte (byte : N) : option SocketError :=
  if decide (byte = 0)%N then Some AlreadyOpen
  else if decide (byte = 1)%N then Some NotOpen
  else if decide (byte = 2)%N then Some InvalidLength
  else if decide (byte = 3)%N then Some ConnectFailedErr
  else if decide (byte = 4)%N then Some TooManyOpen
  else if decide (byte = 5)%N then Some InvalidHandle
  else None.

Definition sock_request_encode (r : SocketRequest) : list N :=
  match r with
  | SockConnect handle (i0, i1, i2, i3) remote_port local_port =>
      [0%N; handle; i0; i1; i2; i3] ++ u16_to_le remote_port ++ u16_to_le local_port
  | SockSend handle data => [1%N; handle] ++ u16_to_le (len data mod 65536)%N ++ data
  | SockRecv handle max_len => [2%N; handle] ++ u16_to_le max_len
  | SockClose handle => [3%N; handle]
  | SockOpen => [4%N]
  end.

Definition sock_request_decode (buf : list N) : option (SocketRequest * N) :=
  match buf with
  | [] => None
  | tag :: rest =>
      if decide (tag = 0)%N then
        match rest with
        | handle :: i0 :: i1 :: i2 :: i3 :: r0 :: r1 :: l0 :: l1 :: _ =>
            Some (SockConnect handle (i0, i1, i2, i3) (u16_from_le r0 r1) (u16_from_le l0 l1), 10%N)
        | _ => None
        end
      else if decide (tag = 1)%N then
        match rest with
        | handle :: rest =>
            '(data, n) ← decode_blob MAX_PAYLOAD_LEN rest; Some (SockSend handle data, 2 + n)%N
        | _ => None
        end
      else if decide (tag = 2)%N then
        match rest with
        | handle :: m0 :: m1 :: _ => Some (SockRecv handle (u16_from_le m0 m1), 4%N)
        | _ => None
        end
      else if decide (tag = 3)%N then
        match rest with
        | handle :: _ => Some (SockClose handle, 2%N)
        | _ => None
        end
      else if decide (tag = 4)%N then Some (SockOpen, 1%N)
      else None
  end.

Definition sock_response_encode (r : SocketResponse) : list N :=
  match r with
  | Connected handle => [0%N; handle]
  | OpenFailed err => [1%N; sock_error_to_byte err]
  | Sent handle len => [2%N; handle] ++ u16_to_le len
  | SendFailed handle error => [3%N; handle; sock_error_to_byte error]
  | SockData handle data => [4%N; handle] ++ u16_to_le (len data mod 65536)%N ++ data
  | Closed handle => [5%N; handle]
  | SockError handle error => [6%N; handle; sock_error_to_byte error]
  | Opened handle => [7%N; handle]
  | ConnectFailed handle error => [8%N; handle; sock_error_to_byte error]
  end.

(** The arms that read a handle and then an error byte. *)
Definition handle_and_error (rest : list N) : option (N * SocketError) :=
  match rest with
  | handle :: b :: _ => error ← sock_error_from_byte b; Some (handle, error)
  | _ => None
  end.

Definition sock_response_decode (buf : list N) : option (SocketResponse * N) :=
  match buf with
  | [] => None
  | tag :: rest =>
      if decide (tag = 0)%N then handle ← head rest; Some (Connected handle, 2%N)
      else if decide (tag = 1)%N then
        err_byte ← head rest; err ← sock_error_from_byte err_byte; Some (OpenFailed err, 2%N)
      else if decide (tag = 2)%N then
        match rest with
        | handle :: l0 :: l1 :: _ => Some (Sent handle (u16_from_le l0 l1), 4%N)
        | _ => None
        end
      else if decide (tag = 3)%N then
        '(handle, error) ← handle_and_error rest; Some (SendFailed handle error, 3%N)
      else if decide (tag = 4)%N then
        match rest with
        | handle :: rest =>
            '(data, n) ← decode_blob MAX_PAYLOAD_LEN rest; Some (SockData handle data, 2 + n)%N
        | _ => None
        end
      else if decide (tag = 5)%N then handle ← head rest; Some (Closed handle, 2%N)
      else if decide (tag = 6)%N then
        '(handle, error) ← handle_and_error rest; Some (SockError handle error, 3%N)
      else if decide (tag = 7)%N then handle ← head rest; Some (Opened handle, 2%N)
      else if decide (tag = 8)%N then
        '(handle, error) ← handle_and_error rest; Some (ConnectFailed handle error, 3%N)
      else None
  end.

(** ** Exactness *)

#[global] Instance payload_codec :
  ExactCodec (λ bs, (len bs ≤ MAX_PAYLOAD_LEN)%N ∧ bytes bs) encode_blob (decode_blob MAX_PAYLOAD_LEN).
Proof. by apply blob_codec. Qed.

(** Handles and address bytes are [u8]s, ports and lengths [u16]s. *)
Definition sock_request_fits (r : SocketRequest) : Prop :=
  match r with
  | SockOpen => True
  | SockConnect h (i0, i1, i2, i3) rp lp => bytes [h; i0; i1; i2; i3] ∧ (rp < 65536 ∧ lp < 65536)%N
  | SockSend h data => (h < 256)%N ∧ (len data ≤ MAX_PAYLOAD_LEN)%N ∧ bytes data
  | SockRecv h m => (h < 256 ∧ m < 65536)%N
  | SockClose h => (h < 256)%N
  end.

Definition sock_response_fits (r : SocketResponse) : Prop :=
  match r with
  | OpenFailed _ => True
  | Connected h | Opened h | Closed h | ConnectFailed h _ | SendFailed h _ | SockError h _ => (h < 256)%N
  | Sent h l => (h < 256 ∧ l < 65536)%N
  | SockData h data => (h < 256)%N ∧ (len data ≤ MAX_PAYLOAD_LEN)%N ∧ bytes data
  end.

Lemma u16_from_le_lt b0 b1 : bytes [b0; b1] → (u16_from_le b0 b1 < 65536)%N.
Proof. unfold bytes, u16_from_le. rewrite !Forall_cons. lia. Qed.

Lemma sock_error_byte_exact b e : sock_error_from_byte b = Some e ↔ b = sock_error_to_byte e.
Proof. unfold sock_error_from_byte. repeat case_decide; destruct e; cbn; split; naive_solver. Qed.

Lemma sock_error_byte e : (sock_error_to_byte e < 256)%N.
Proof. by destruct e. Qed.

(** Two bytes are the encoding of the word they denote. *)
Lemma word_of_bytes b0 b1 rest :
  bytes (b0 :: b1 :: rest) →
  (u16_from_le b0 b1 < 65536)%N ∧ b0 :: b1 :: rest = u16_to_le (u16_from_le b0 b1) ++ rest ∧ bytes rest.
Proof.
  intros Hb. apply (bytes_app [b0; b1] rest) in Hb as [Hb Hr].
  split_and!; [by apply u16_from_le_lt|by rewrite u16_le_inj|done].
Qed.

Lemma sock_request_inv buf r n :
  bytes buf → sock_request_decode buf = Some (r, n) →
  sock_request_fits r ∧ n = len (sock_request_encode r) ∧ ∃ ext, buf = sock_request_encode r ++ ext.
Proof.
  destruct buf as [|tag rest]; [done|]. intros [_ Hb]%Forall_cons. cbn [sock_request_decode].
  case_decide as H0; [|case_decide as H1; [|case_decide as H2; [|case_decide as H3; [|case_decide as H4; [|done]]]]]; subst.
  - destruct rest as [|h [|i0 [|i1 [|i2 [|i3 [|r0 [|r1 [|l0 [|l1 rest]]]]]]]]]; try done.
    intros [= <- <-]. apply (bytes_app [h; i0; i1; i2; i3]) in Hb as [Hh Hb].
    apply word_of_bytes in Hb as (Hr & Hreq & Hb). apply word_of_bytes in Hb as (Hl & Hleq & Hb).
    split_and!; [done|done|]. exists rest. cbn [sock_request_encode].
    rewrite <-!app_assoc. cbn [app]. do 6 f_equal. by rewrite Hreq, Hleq.
  - destruct rest as [|h rest]; [done|]. apply Forall_cons in Hb as [Hh Hb].
    intros ([data k] & Hd & [= <- <-])%bind_Some.
    apply codec_inv in Hd as ([Hl Hdb] & -> & ext & -> & _); [|done]. cbn [sock_request_encode].
    fold (encode_blob data). split_and!; [done| |by exists ext].
    by rewrite len_app.
  - destruct rest as [|h [|m0 [|m1 rest]]]; try done. intros [= <- <-].
    apply Forall_cons in Hb as [Hh Hb]. apply word_of_bytes in Hb as (Hm & -> & Hb).
    split_and!; [done|done|by exists rest].
  - destruct rest as [|h rest]; [done|]. intros [= <- <-]. apply Forall_cons in Hb as [Hh Hb].
    split_and!; [done|done|by exists rest].
  - intros [= <- <-]. split_and!; [done|done|by exists rest].
Qed.

Lemma sock_request_ok r ext :
  sock_request_fits r → bytes ext →
  sock_request_decode (sock_request_encode r ++ ext) = Some (r, len (sock_request_encode r)).
Proof.
  intros Hr Hext. destruct r as [|h [[[i0 i1] i2] i3] rp lp|h data|h m|h];
    cbn [sock_request_encode sock_request_fits] in *.
  - done.
  - destruct Hr as (_ & Hrp & Hlp). destruct (u16_le_roundtrip rp Hrp) as (r0 & r1 & -> & <-).
    by destruct (u16_le_roundtrip lp Hlp) as (l0 & l1 & -> & <-).
  - fold (encode_blob data). destruct Hr as [_ Hd]. rewrite <-app_assoc.
    cbn [app sock_request_decode]. rewrite decide_False, decide_True by done.
    rewrite codec_dec by done. cbn [mbind option_bind]. by rewrite !len_nil_cons, N.add_assoc.
  - destruct Hr as [_ Hm]. by destruct (u16_le_roundtrip m Hm) as (m0 & m1 & -> & <-).
  - done.
Qed.

#[global] Instance sock_request_codec :
  ExactCodec sock_request_fits sock_request_encode sock_request_decode.
Proof.
  split.
  - intros buf r n Hb. split; [by apply sock_request_inv|]. intros (Hr & -> & ext & ->).
    apply sock_request_ok; [done|]. by apply bytes_app in Hb as [_ ?].
  - intros [|h [[[i0 i1] i2] i3] rp lp|h data|h m|h] Hr; cbn [sock_request_encode sock_request_fits] in *.
    + by repeat constructor.
    + constructor; [done|]. destruct Hr as [Hr _]. apply (bytes_app [h; i0; i1; i2; i3]).
      split; [done|]. apply bytes_app; split; apply bytes_u16.
    + fold (encode_blob data). destruct Hr as [Hh Hd]. apply bytes_app.
      split; [by repeat constructor|by apply codec_bytes].
    + apply bytes_app. split; [repeat constructor; by destruct Hr|apply bytes_u16].
    + by repeat constructor.
Qed.

Lemma handle_and_error_inv rest h e :
  bytes rest → handle_and_error rest = Some (h, e) →
  (h < 256)%N ∧ ∃ ext, rest = h :: sock_error_to_byte e :: ext.
Proof.
  intros Hb. destruct rest as [|h' [|b rest]]; try done. cbn [handle_and_error].
  intros (e' & He & [= -> ->])%bind_Some. apply sock_error_byte_exact in He as ->.
  apply Forall_cons in Hb as [Hh _]. split; [done|by eexists].
Qed.

Lemma sock_response_inv buf r n :
  bytes buf → sock_response_decode buf = Some (r, n) →
  sock_response_fits r ∧ n = len (sock_response_encode r) ∧ ∃ ext, buf = sock_response_encode r ++ ext.
Proof.
  destruct buf as [|tag rest]; [done|]. intros [_ Hb]%Forall_cons. cbn [sock_response_decode].
  repeat (case_decide; [subst; match goal with
    | |- context [handle_and_error] =>
        intros ([h e] & He & [= <- <-])%bind_Some; apply handle_and_error_inv in He as (Hh & ext & ->); [|done];
        split_and!; [done|done|by exists ext]
    | |- context [head] =>
        destruct rest as [|h rest]; [done|]; cbn [head mbind option_bind];
        first [ intros [= <- <-]; apply Forall_cons in Hb as [? _]; split_and!; [done|done|by exists rest]
              | intros (e & He & [= <- <-])%bind_Some; apply sock_error_byte_exact in He as ->;
                split_and!; [done|done|by exists rest] ]
    | _ => idtac end|]); try done.
  - destruct rest as [|h [|m0 [|m1 rest]]]; try done. intros [= <- <-].
    apply Forall_cons in Hb as [Hh Hb]. apply word_of_bytes in Hb as (Hm & -> & Hb).
    split_and!; [done|done|by exists rest].
  - destruct rest as [|h rest]; [done|]. apply Forall_cons in Hb as [Hh Hb].
    intros ([data k] & Hd & [= <- <-])%bind_Some.
    apply codec_inv in Hd as ([Hl Hdb] & -> & ext & -> & _); [|done]. cbn [sock_response_encode].
    fold (encode_blob data). split_and!; [done| |by exists ext].
    by rewrite len_app.
Qed.

Lemma sock_response_ok r ext :
  sock_response_fits r → bytes ext →
  sock_response_decode (sock_response_encode r ++ ext) = Some (r, len (sock_response_encode r)).
Proof.
  intros Hr Hext. destruct r as [h|e|h e|h l|h e|h data|h|h|h e]; try (by destruct e); try done;
    cbn [sock_response_encode sock_response_fits] in *.
  - destruct Hr as [_ Hm]. by destruct (u16_le_roundtrip l Hm) as (m0 & m1 & -> & <-).
  - fold (encode_blob data). destruct Hr as [_ Hd]. rewrite <-app_assoc.
    cbn [app sock_response_decode]. repeat (rewrite decide_False by done). rewrite decide_True by done.
    rewrite codec_dec by done. cbn [mbind option_bind]. by rewrite !len_nil_cons, N.add_assoc.
Qed.

#[global] Instance sock_response_codec :
  ExactCodec sock_response_fits sock_response_encode sock_response_decode.
Proof.
  split.
  - intros buf r n Hb. split; [by apply sock_response_inv|]. intros (Hr & -> & ext & ->).
    apply sock_response_ok; [done|]. by apply bytes_app in Hb as [_ ?].
  - intros [h|e|h e|h l|h e|h data|h|h|h e] Hr; cbn [sock_response_encode sock_response_fits] in *;
      try (repeat constructor; first [done|apply sock_error_byte]).
    + apply bytes_app. split; [repeat constructor; by destruct Hr|apply bytes_u16].
    + fold (encode_blob data). destruct Hr as [Hh Hd]. apply bytes_app.
      split; [by repeat constructor|by apply codec_bytes].
Qed.

(** The socket protocol's codecs are exact in the same sense: a decoded value
    and length are those of an encoding the bytes begin with. *)
Theorem socket_wire_exact :
  (∀ buf r n, bytes buf →
     sock_request_decode buf = Some (r, n) ↔
     sock_request_fits r ∧ n = len (sock_request_encode r) ∧ ∃ ext, buf = sock_request_encode r ++ ext) ∧
  (∀ buf r n, bytes buf →
     sock_response_decode buf = Some (r, n) ↔
     sock_response_fits r ∧ n = len (sock_response_encode r) ∧ ∃ ext, buf = sock_response_encode r ++ ext).
Proof. split; intros; by apply codec_exact. Qed.
