(* ===== verification/Fat.v ===== *)
(** * Fat: the FAT32 structures of [blk-driver-host/src/lib.rs]

    The pure half of the block driver: the boot sector, the FSInfo sector,
    directory entries in their 8.3 and long-name forms, FAT entries, the helpers
    that choose slots and clusters, the queue's health machine and the per-file
    token check.  A sector is a list of bytes; fields are little-endian windows. *)

From S2P Require Import Prelude Text Bytes Capability.

(** [buf[i]], for an index the array's type or a guard puts in range. *)
Definition byte_at (buf : list N) (i : N) : N := default 0%N (buf !! N.to_nat i).
Definition u16_at (buf : list N) (off : N) : N := from_le (slice buf off 2).
Definition u32_at (buf : list N) (off : N) : N := from_le (slice buf off 4).

(** ** The boot sector *)

Record BootSectorInfo := mkBoot {
  bytes_per_sector : N;
  sectors_per_cluster : N;
  reserved_sector_count : N;
  num_fats : N;
  fat_size_32 : N;
  root_cluster : N;
  fat_start_sector : N;
  data_start_sector : N;
  fsinfo_sector : N;
}.

Definition VALID_BYTES_PER_SECTOR : list N := [512; 1024; 2048; 4096]%N.

Definition boot_parse (sector : list N) : option BootSectorInfo :=
  if decide (byte_at sector 510 ≠ 0x55 ∨ byte_at sector 511 ≠ 0xAA)%N then None else
  let bps := u16_at sector 11 in
  if decide (bps ∉ VALID_BYTES_PER_SECTOR) then None else
  let spc := byte_at sector 13 in
  if decide (spc = 0)%N then None else
  let reserved := u16_at sector 14 in
  let fats := byte_at sector 16 in
  if decide (fats = 0)%N then None else
  let fat_size := u32_at sector 36 in
  if decide (fat_size = 0)%N then None else
  let root := u32_at sector 44 in
  let fsinfo := u16_at sector 48 in
  fat_region_sectors ← checked_mul u32_max fat_size fats;
  data_start ← checked_add u32_max reserved fat_region_sectors;
  Some (mkBoot bps spc reserved fats fat_size root reserved data_start fsinfo).

Definition cluster_to_sector (self : BootSectorInfo) (cluster : N) : option N :=
  if decide (cluster < 2)%N then None else
  cluster_index ← checked_sub cluster 2;
  offset_sectors ← checked_mul u32_max cluster_index (sectors_per_cluster self);
  checked_add u32_max (data_start_sector self) offset_sectors.

(** ** FSInfo *)

Record FsInfoSector := mkFsInfo { free_count : N; next_free : N }.

Definition FSINFO_SIG1 : N := 0x41615252.
Definition FSINFO_SIG2 : N := 0x61417272.
Definition FSINFO_UNKNOWN : N := 0xFFFFFFFF.

Definition fsinfo_parse (sector : list N) : option FsInfoSector :=
  if decide (byte_at sector 510 ≠ 0x55 ∨ byte_at sector 511 ≠ 0xAA)%N then None
  else if decide (u32_at sector 0 ≠ FSINFO_SIG1) then None
  else if decide (u32_at sector 484 ≠ FSINFO_SIG2) then None
  else Some (mkFsInfo (u32_at sector 488) (u32_at sector 492)).

Definition encode_into (self : FsInfoSector) (sector : list N) : list N :=
  copy_at (copy_at sector 488 (le_bytes 4 (free_count self))) 492 (le_bytes 4 (next_free self)).

(** ** Short names *)

Definition to_ascii_uppercase (b : N) : N := if decide (97 ≤ b ∧ b ≤ 122)%N then (b - 32)%N else b.
Definition to_ascii_lowercase (b : N) : N := if decide (65 ≤ b ∧ b ≤ 90)%N then (b + 32)%N else b.
Definition is_ascii (b : N) : bool := bool_decide (b < 128)%N.

Definition SPACE : N := 32.
Definition DOT : N := 46.

(** [display.iter().rposition(|&b| b == b'.')] *)
Fixpoint rposition (c : N) (l : list N) : option nat :=
  match l with
  | [] => None
  | b :: l =>
      match rposition c l with
      | Some i => Some (S i)
      | None => if decide (b = c) then Some 0%nat else None
      end
  end.

(** The two copy loops: an inadmissible byte makes the whole name [None]. *)
Definition name_byte_ok (b : N) : bool := is_ascii b && negb (bool_decide (b = SPACE)) && negb (bool_decide (b = DOT)).

Definition encode_part (part : list N) : option (list N) :=
  if forallb name_byte_ok part then Some (to_ascii_uppercase <$> part) else None.

(** [out] starts as eleven spaces; the parts are written at 0 and 8. *)
Definition encode_short_name (display : list N) : option (list N) :=
  if decide (display = [] ∨ 12 < length display)%nat then None else
  let '(base, ext) :=
    match rposition DOT display with
    | Some pos => (take pos display, drop (pos + 1) display)
    | None => (display, [])
    end in
  if decide (base = [] ∨ 8 < length base ∨ 3 < length ext)%nat then None else
  base' ← encode_part base;
  ext' ← encode_part ext;
  Some (copy_at (copy_at (replicate 11 SPACE) 0 base') 8 ext').

(** ** Directory entries *)

Record ShortDirEntry := mkEntry {
  e_name : list N;
  first_cluster : N;
  file_size : N;
  is_dir : bool;
}.

Definition ATTR_DIRECTORY : N := 0x10.
Definition ATTR_LONG_NAME : N := 0x0F.
Definition ATTR_LONG_NAME_MASK : N := 0x3F.

Definition parse_short_dir_entry (entry : list N) : option ShortDirEntry :=
  if decide (byte_at entry 0 = 0x00 ∨ byte_at entry 0 = 0xE5)%N then None else
  let attr := byte_at entry 11 in
  if decide (N.land attr ATTR_LONG_NAME_MASK = ATTR_LONG_NAME) then None else
  let cluster_hi := u16_at entry 20 in
  let cluster_lo := u16_at entry 26 in
  Some (mkEntry (slice entry 0 11) (N.lor (N.shiftl cluster_hi 16) cluster_lo)
          (u32_at entry 28) (bool_decide (N.land attr ATTR_DIRECTORY ≠ 0%N))).

Record LfnFragment := mkLfn {
  sequence : N;
  is_last : bool;
  checksum : N;
  chars : list N;
}.

Definition ATTR_LONG_NAME_SEQUENCE_MASK : N := 0x1F.
Definition ATTR_LONG_NAME_LAST_FLAG : N := 0x40.

Definition u16s_at (entry : list N) (off : N) (count : nat) : list N :=
  (λ i, u16_at entry (off + 2 * N.of_nat i)) <$> seq 0 count.

Definition parse_lfn_fragment (entry : list N) : option LfnFragment :=
  let attr := byte_at entry 11 in
  if decide (N.land attr ATTR_LONG_NAME_MASK ≠ ATTR_LONG_NAME) then None else
  let sequence := N.land (byte_at entry 0) ATTR_LONG_NAME_SEQUENCE_MASK in
  if decide (sequence = 0)%N then None else
  let is_last := bool_decide (N.land (byte_at entry 0) ATTR_LONG_NAME_LAST_FLAG ≠ 0%N) in
  Some (mkLfn sequence is_last (byte_at entry 13)
          (u16s_at entry 1 5 ++ u16s_at entry 14 6 ++ u16s_at entry 28 2)).

(** One step is [((sum & 1) << 7).wrapping_add(sum >> 1).wrapping_add(byte)]. *)
Definition checksum_step (sum byte : N) : N :=
  ((N.shiftl (N.land sum 1) 7 + N.shiftr sum 1) mod 256 + byte) mod 256.

Definition short_name_checksum (name : list N) : N := foldl checksum_step 0%N name.

(** ** FAT entries *)

Definition is_end_of_chain (fat_entry : N) : bool := bool_decide (0x0FFFFFF8 ≤ fat_entry)%N.

Definition FAT_MASK : N := 0x0FFFFFFF.
Definition FAT_TOP : N := 0xF0000000.

Definition fat_entry_at (fat_bytes : list N) (cluster : N) : option N :=
  byte_offset ← checked_mul u64_max cluster 4;
  stop ← checked_add u64_max byte_offset 4;
  if decide (len fat_bytes < stop)%N then None
  else Some (N.land (u32_at fat_bytes byte_offset) FAT_MASK).

(** The 32-byte chunks of a sector; a trailing partial chunk is not visited. *)
Fixpoint chunks_exact (fuel : nat) (buf : list N) : list (list N) :=
  match fuel with
  | O => []
  | S fuel => take 32 buf :: chunks_exact fuel (drop 32 buf)
  end.

Definition chunks (sector : list N) : list (list N) := chunks_exact (length sector / 32) sector.

Definition find_reusable_slot (sector : list N) : option nat :=
  iter_position (λ chunk, byte_at chunk 0 = 0x00 ∨ byte_at chunk 0 = 0xE5)%N (chunks sector).

Definition CHAIN_EOC_MARKER : N := 0x0FFFFFFF.

Fixpoint chain_link_values (clusters : list N) : list (N * N) :=
  match clusters with
  | [] => []
  | c :: rest => (c, default CHAIN_EOC_MARKER (head rest)) :: chain_link_values rest
  end.

(** The loop [for entry_in_sector in 0..entries_per_sector], from [entry]. *)
Fixpoint first_free_from (sector : list N) (index per_sector : N) (fuel : nat) (entry : N) : option N :=
  match fuel with
  | O => None
  | S fuel =>
      base ← checked_mul u32_max index per_sector;
      cluster ← checked_add u32_max base entry;
      if decide (cluster < 2)%N then first_free_from sector index per_sector fuel (entry + 1)
      else if decide (fat_entry_at sector entry = Some 0%N) then Some cluster
      else first_free_from sector index per_sector fuel (entry + 1)
  end.

Definition first_free_cluster_in_fat_sector (sector : list N) (fat_sector_index entries_per_sector : N) : option N :=
  first_free_from sector fat_sector_index entries_per_sector (N.to_nat entries_per_sector) 0.

(** ** The queue *)

Inductive QueueHealth := Healthy | Faulted.

#[global] Instance QueueHealth_eq_dec : EqDecision QueueHealth.
Proof. solve_decision. Defined.

Definition health_new : QueueHealth := Healthy.
Definition on_timeout (self : QueueHealth) : bool * QueueHealth := (bool_decide (self = Healthy), Faulted).
Definition may_submit (self : QueueHealth) : bool := match self with Healthy => true | Faulted => false end.

Definition MIN_QUEUE_SIZE : N := 3.
Definition MAX_QUEUE_SIZE : N := 256.

(** [u16::is_power_of_two]: exactly one bit set. *)
Definition is_power_of_two (n : N) : bool := bool_decide (n ≠ 0%N ∧ N.land n (n - 1) = 0%N).

Definition validate_queue_size (qsize : N) : option N :=
  if is_power_of_two qsize && bool_decide (MIN_QUEUE_SIZE ≤ qsize ∧ qsize ≤ MAX_QUEUE_SIZE)%N
  then Some qsize else None.

(** ** The per-file token check *)

Section token.
Context `{SignatureScheme}.

Definition verify_file_token_with (token : CapabilityToken) (verifying_key : VerifyingKey)
    (expected_resource : string) (now : N) (revocation_query : N → N) : bool :=
  match verify token verifying_key expected_resource now with
  | Err _ => false
  | Ok _ =>
      match signature_fingerprint (tok_signature token) with
      | Some fingerprint => bool_decide (revocation_query fingerprint = 0%N)
      | None => false
      end
  end.

End token.

(** ** Geometry *)

(** What every accepted boot sector guarantees. *)
Record boot_wf (i : BootSectorInfo) : Prop := {
  wf_bps : bytes_per_sector i ∈ VALID_BYTES_PER_SECTOR;
  wf_spc : (0 < sectors_per_cluster i < 256)%N;
  wf_fats : (0 < num_fats i < 256)%N;
  wf_fat_size : (0 < fat_size_32 i)%N;
  wf_fat_start : (fat_start_sector i < 65536)%N;
  wf_data_start : data_start_sector i = (fat_start_sector i + num_fats i * fat_size_32 i)%N;
  wf_data_max : (data_start_sector i ≤ u32_max)%N;
  wf_fsinfo : (fsinfo_sector i < 65536)%N;
}.

Lemma byte_at_lt buf i : bytes buf → (byte_at buf i < 256)%N.
Proof.
  intros Hb. unfold byte_at. destruct (buf !! N.to_nat i) as [b|] eqn:Hl; [|done].
  eapply Forall_lookup_1 in Hb; eauto.
Qed.

Lemma word_at_lt buf off n : bytes buf → (from_le (slice buf off n) < 256 ^ n)%N.
Proof.
  intros Hb. pose proof (from_le_lt _ (bytes_slice buf off n Hb)) as Hlt.
  eapply N.lt_le_trans; [exact Hlt|]. apply N.pow_le_mono_r; [done|].
  unfold slice, len. rewrite length_take. lia.
Qed.

Lemma boot_parse_wf sector i : bytes sector → boot_parse sector = Some i → boot_wf i.
Proof.
  intros Hb. unfold boot_parse. repeat (case_decide; [done|]).
  intros (region & Hr & (data & Hd & [= <-])%bind_Some)%bind_Some.
  apply checked_mul_Some in Hr as [-> Hr]. apply checked_add_Some in Hd as [-> Hd].
  pose proof (byte_at_lt sector 13 Hb). pose proof (byte_at_lt sector 16 Hb).
  pose proof (word_at_lt sector 14 2 Hb). pose proof (word_at_lt sector 48 2 Hb).
  split; cbn; unfold u16_at in *; try lia. destruct (decide (from_le (slice sector 11 2) ∈ VALID_BYTES_PER_SECTOR)); done.
Qed.

Lemma cluster_to_sector_Some i c s :
  cluster_to_sector i c = Some s ↔
  (2 ≤ c ∧ s = data_start_sector i + (c - 2) * sectors_per_cluster i ∧ s ≤ u32_max)%N.
Proof.
  unfold cluster_to_sector. case_decide as Hc; [split; [done|lia]|].
  rewrite bind_Some. setoid_rewrite bind_Some. setoid_rewrite checked_sub_Some.
  setoid_rewrite checked_mul_Some. setoid_rewrite checked_add_Some. split.
  - intros (? & (_ & ->) & ? & (-> & _) & -> & Hs). split_and!; [lia|done|done].
  - intros (H2 & -> & Hs). exists (c - 2)%N. split; [by split|].
    exists ((c - 2) * sectors_per_cluster i)%N. split_and!; [done|lia|done|done].
Qed.

(** Clusters occupy disjoint sectors, all behind the FATs. *)
Lemma clusters_disjoint i c c' s s' k k' :
  cluster_to_sector i c = Some s → cluster_to_sector i c' = Some s' → c ≠ c' →
  (k < sectors_per_cluster i → k' < sectors_per_cluster i → s + k ≠ s' + k')%N.
Proof.
  rewrite !cluster_to_sector_Some. intros (H2 & -> & _) (H2' & -> & _) Hne Hk Hk'. nia.
Qed.

Lemma cluster_behind_fats i c s :
  cluster_to_sector i c = Some s → (data_start_sector i ≤ s)%N.
Proof. rewrite cluster_to_sector_Some. lia. Qed.

(** ** Patching four bytes *)

Lemma u32_at_copy_same buf off v :
  (off + 4 ≤ len buf → v < 256 ^ 4 → u32_at (copy_at buf off (le_bytes 4 v)) off = v)%N.
Proof.
  intros Hl Hv. unfold u32_at.
  pose proof (slice_copy_same buf off (le_bytes 4 v)) as Hs.
  change (len (le_bytes 4 v)) with 4%N in Hs.
  rewrite Hs by done. by apply (from_le_bytes 4).
Qed.

Lemma u32_at_copy_other buf off v off' :
  (off + 4 ≤ len buf → off' + 4 ≤ off ∨ off + 4 ≤ off' →
   u32_at (copy_at buf off (le_bytes 4 v)) off' = u32_at buf off')%N.
Proof. intros Hl Hd. unfold u32_at. by rewrite slice_copy_other. Qed.

Lemma byte_at_copy_other buf off v i :
  (off + 4 ≤ len buf → i < off ∨ off + 4 ≤ i →
   byte_at (copy_at buf off (le_bytes 4 v)) i = byte_at buf i)%N.
Proof.
  intros Hl Hd. unfold byte_at. rewrite lookup_copy_other; [done|done|]. cbn [length le_bytes]. lia.
Qed.

Lemma len_copy_u32 buf off v : (off + 4 ≤ len buf)%N → len (copy_at buf off (le_bytes 4 v)) = len buf.
Proof. intros Hl. unfold len at 1. rewrite length_copy_at; [done|]. exact Hl. Qed.

(** Updating the hint keeps the sector a FSInfo sector and is read back. *)
Lemma fsinfo_parse_encode sector old new :
  len sector = 512%N → fsinfo_parse sector = Some old → (free_count new < 256 ^ 4 ∧ next_free new < 256 ^ 4)%N →
  fsinfo_parse (encode_into new sector) = Some new.
Proof.
  intros Hl Hp [Hf Hn]. unfold fsinfo_parse, encode_into in *.
  set (s1 := copy_at sector 488 (le_bytes 4 (free_count new))).
  assert (len s1 = 512%N) as Hl1 by (unfold s1; by rewrite len_copy_u32 by lia).
  rewrite !(byte_at_copy_other s1) by lia. rewrite !(u32_at_copy_other s1) by lia.
  rewrite u32_at_copy_same by lia. unfold s1.
  rewrite !(byte_at_copy_other sector) by lia. rewrite !(u32_at_copy_other sector 488 _ 0) by lia.
  rewrite !(u32_at_copy_other sector 488 _ 484) by lia. rewrite u32_at_copy_same by lia.
  repeat (case_decide; [done|]). by destruct new.
Qed.

Lemma encode_into_other sector new (k : nat) :
  len sector = 512%N → (k < 488 ∨ 496 ≤ k)%nat → encode_into new sector !! k = sector !! k.
Proof.
  intros Hl Hk. unfold encode_into. pose proof (len_copy_u32 sector 488 (free_count new)).
  rewrite lookup_copy_other; [|change (len (le_bytes 4 _)) with 4%N; lia|rewrite length_le_bytes; lia].
  rewrite lookup_copy_other; [done|change (len (le_bytes 4 _)) with 4%N; lia|rewrite length_le_bytes; lia].
Qed.

Lemma len_encode_into new sector : len sector = 512%N → len (encode_into new sector) = 512%N.
Proof. intros Hl. unfold encode_into. by rewrite !len_copy_u32 by (rewrite ?len_copy_u32 by lia; lia). Qed.

Lemma bytes_encode_into new sector : bytes sector → bytes (encode_into new sector).
Proof. intros Hb. unfold encode_into. by repeat apply bytes_copy_at; try apply bytes_le_bytes. Qed.

(** ** FAT entries in a sector *)

Lemma fat_entry_at_Some sector c v :
  (c ≤ u32_max)%N →
  fat_entry_at sector c = Some v ↔ (4 * c + 4 ≤ len sector)%N ∧ v = N.land (u32_at sector (4 * c)) FAT_MASK.
Proof.
  intros Hc. unfold fat_entry_at, checked_mul, checked_add, u32_max, u64_max in *.
  rewrite decide_True by lia. cbn [mbind option_bind]. rewrite decide_True by lia. cbn [mbind option_bind].
  rewrite (N.mul_comm c 4). case_decide; naive_solver lia.
Qed.

Lemma N_lor_lt a b n : (a < 2 ^ n → b < 2 ^ n → N.lor a b < 2 ^ n)%N.
Proof.
  intros Ha Hb. destruct (decide (N.lor a b = 0%N)) as [->|Hne]; [lia|].
  apply N.log2_lt_pow2; [lia|]. rewrite N.log2_lor. apply N.max_lub_lt.
  - destruct (decide (a = 0%N)) as [->|]; [|apply N.log2_lt_pow2; lia].
    change (N.log2 0) with 0%N. destruct (decide (n = 0%N)) as [->|]; [|lia].
    exfalso. apply Hne. assert (b = 0%N) by lia. by subst.
  - destruct (decide (b = 0%N)) as [->|]; [|apply N.log2_lt_pow2; lia].
    change (N.log2 0) with 0%N. destruct (decide (n = 0%N)) as [->|]; [|lia].
    exfalso. apply Hne. assert (a = 0%N) by lia. by subst.
Qed.

Lemma land_mask v : N.land v FAT_MASK = (v mod 2 ^ 28)%N.
Proof. apply (N.land_ones v 28). Qed.

Lemma mask_small v : (v < 2 ^ 28)%N → N.land v FAT_MASK = v.
Proof. intros Hv. rewrite land_mask. by apply N.mod_small. Qed.

Lemma mask_lt v : (N.land v FAT_MASK < 2 ^ 28)%N.
Proof. rewrite land_mask. by apply N.mod_lt. Qed.

(** The read-modify-write of a FAT entry: the low 28 bits are replaced, the
    reserved ones kept. *)
Definition patch_entry (existing masked : N) : N := N.lor (N.land existing FAT_TOP) masked.

Lemma patch_entry_mask existing v : N.land (patch_entry existing (N.land v FAT_MASK)) FAT_MASK = N.land v FAT_MASK.
Proof.
  unfold patch_entry. rewrite N.land_lor_distr_l, <-!N.land_assoc.
  change (N.land FAT_TOP FAT_MASK) with 0%N. change (N.land FAT_MASK FAT_MASK) with FAT_MASK.
  by rewrite N.land_0_r, N.lor_0_l.
Qed.

Lemma patch_entry_top existing v :
  N.land (patch_entry existing (N.land v FAT_MASK)) FAT_TOP = N.land existing FAT_TOP.
Proof.
  unfold patch_entry. rewrite N.land_lor_distr_l, <-!N.land_assoc.
  change (N.land FAT_TOP FAT_TOP) with FAT_TOP. change (N.land FAT_MASK FAT_TOP) with 0%N.
  by rewrite N.land_0_r, N.lor_0_r.
Qed.

Lemma patch_entry_lt existing v : (patch_entry existing (N.land v FAT_MASK) < 256 ^ 4)%N.
Proof.
  change (256 ^ 4)%N with (2 ^ 32)%N. apply N_lor_lt.
  - apply N.le_lt_trans with FAT_TOP; [|done]. rewrite N.land_comm. apply N.ldiff_le.
    apply N.bits_inj. intros k. rewrite N.ldiff_spec, N.land_spec, N.bits_0.
    by destruct (N.testbit FAT_TOP k), (N.testbit existing k).
  - eapply N.lt_trans; [apply mask_lt|done].
Qed.

(** ** Slots *)

Lemma chunks_exact_lookup n buf (i : nat) :
  (i < n)%nat → chunks_exact n buf !! i = Some (take 32 (drop (32 * i) buf)).
Proof.
  revert buf i. induction n as [|n IH]; intros buf i Hi; [lia|]. cbn [chunks_exact].
  destruct i as [|i]; [done|]. cbn [lookup list_lookup]. rewrite IH by lia.
  rewrite drop_drop. do 3 f_equal. lia.
Qed.

Lemma length_chunks_exact n buf : length (chunks_exact n buf) = n.
Proof. revert buf. induction n as [|n IH]; intros buf; cbn; [done|by rewrite IH]. Qed.

Lemma chunks_lookup sector (i : nat) c :
  chunks sector !! i = Some c ↔ (i < length sector / 32)%nat ∧ c = slice sector (32 * N.of_nat i) 32.
Proof.
  unfold chunks, slice. replace (N.to_nat (32 * N.of_nat i)) with (32 * i)%nat by lia.
  change (N.to_nat 32) with 32%nat. split.
  - intros Hc. pose proof (lookup_lt_Some _ _ _ Hc) as Hlt. rewrite length_chunks_exact in Hlt.
    rewrite chunks_exact_lookup in Hc by done. by injection Hc.
  - intros [Hi ->]. by apply chunks_exact_lookup.
Qed.

(** A slot whose first byte marks it deleted or past the end. *)
Definition slot_free (sector : list N) (i : nat) : Prop :=
  byte_at sector (32 * N.of_nat i) = 0x00%N ∨ byte_at sector (32 * N.of_nat i) = 0xE5%N.

Lemma byte_at_slice buf off n k :
  (k < n)%N → byte_at (slice buf off n) k = byte_at buf (off + k).
Proof.
  intros Hk. unfold byte_at, slice. rewrite lookup_take_lt by lia. rewrite lookup_drop.
  do 2 f_equal. lia.
Qed.

(** The first free slot, if there is one. *)
Lemma find_reusable_slot_Some sector (i : nat) :
  find_reusable_slot sector = Some i ↔
  (i < length sector / 32)%nat ∧ slot_free sector i ∧ (∀ j, (j < i)%nat → ¬ slot_free sector j).
Proof.
  unfold find_reusable_slot, iter_position.
  assert (∀ j c, chunks sector !! j = Some c → byte_at c 0 = byte_at sector (32 * N.of_nat j)) as Hbyte.
  { intros j c [_ ->]%chunks_lookup. rewrite byte_at_slice by done. by rewrite N.add_0_r. }
  rewrite fmap_Some. unfold slot_free. split.
  - intros ([k c] & Hf & ->). apply list_find_Some in Hf as (Hc & Hp & Hbefore). cbn [fst].
    rewrite <-(Hbyte _ _ Hc). apply chunks_lookup in Hc as Hi. split_and!; [apply Hi|done|].
    intros j Hj. destruct (lookup_lt_is_Some_2 (chunks sector) j) as [cj Hcj];
      [apply lookup_lt_Some in Hc; lia|]. rewrite <-(Hbyte _ _ Hcj). by eapply Hbefore.
  - intros (Hi & Hp & Hbefore). exists (i, slice sector (32 * N.of_nat i) 32). split; [|done].
    assert (chunks sector !! i = Some (slice sector (32 * N.of_nat i) 32)) as Hc by (by apply chunks_lookup).
    apply list_find_Some. rewrite (Hbyte _ _ Hc). split_and!; [done|done|].
    intros j cj Hcj Hj. rewrite (Hbyte _ _ Hcj). by apply Hbefore.
Qed.

Lemma find_reusable_slot_None sector :
  find_reusable_slot sector = None ↔ ∀ j, (j < length sector / 32)%nat → ¬ slot_free sector j.
Proof.
  unfold find_reusable_slot, iter_position. rewrite fmap_None, list_find_None, Forall_lookup.
  unfold slot_free. split.
  - intros Hf j Hj. specialize (Hf j (slice sector (32 * N.of_nat j) 32)).
    rewrite byte_at_slice, N.add_0_r in Hf by done. apply Hf. by apply chunks_lookup.
  - intros Hf j c [Hj ->]%chunks_lookup. rewrite byte_at_slice, N.add_0_r by done. by apply Hf.
Qed.

(** ** The first free entry of a FAT sector *)

Lemma first_free_from_Some sector index per fuel entry c :
  first_free_from sector index per fuel entry = Some c ↔
  ∃ e, (entry ≤ e < entry + N.of_nat fuel)%N ∧ c = (index * per + e)%N ∧ (2 ≤ c ≤ u32_max)%N ∧
       fat_entry_at sector e = Some 0%N ∧
       ∀ e', (entry ≤ e' < e → 2 ≤ index * per + e' → fat_entry_at sector e' ≠ Some 0)%N.
Proof.
  revert entry. induction fuel as [|fuel IH]; intros entry; cbn [first_free_from].
  { split; [done|]. intros (e & He & _). lia. }
  unfold checked_mul, checked_add.
  destruct (decide (index * per ≤ u32_max)%N) as [Hm|Hm]; cbn [mbind option_bind]; [|split; [done|]; intros (e & He & -> & Hc & _); lia].
  destruct (decide (index * per + entry ≤ u32_max)%N) as [Ha|Ha]; cbn [mbind option_bind]; [|split; [done|]; intros (e & He & -> & Hc & _); lia].
  case_decide as H2; [|case_decide as Hfree].
  - rewrite IH. split; intros (e & He & -> & Hc & Hf & Hbefore); exists e; split_and!; try done; try lia;
      intros e' He' H2'; destruct (decide (e' = entry)); subst; first [lia|apply Hbefore; lia].
  - split.
    + intros [= <-]. exists entry. split_and!; try done; lia.
    + intros (e & He & -> & Hc & Hf & Hbefore). destruct (decide (e = entry)) as [->|]; [done|].
      exfalso. apply (Hbefore entry); [lia|lia|done].
  - rewrite IH. split; intros (e & He & -> & Hc & Hf & Hbefore); exists e; split_and!; try done; try lia.
    + intros e' He' H2'. destruct (decide (e' = entry)) as [->|]; [done|apply Hbefore; lia].
    + destruct (decide (e = entry)) as [->|]; [done|lia].
    + intros e' He' H2'. apply Hbefore; lia.
Qed.

Lemma first_free_None sector index per :
  (index * per + per ≤ u32_max + 1)%N →
  first_free_cluster_in_fat_sector sector index per = None ↔
  ∀ e, (e < per → 2 ≤ index * per + e → fat_entry_at sector e ≠ Some 0)%N.
Proof.
  intros Hmax. unfold first_free_cluster_in_fat_sector.
  pose proof (first_free_from_Some sector index per (N.to_nat per) 0) as Hs.
  destruct (first_free_from sector index per (N.to_nat per) 0) as [c|] eqn:Hf; split; try done.
  - intros Hall. destruct (proj1 (Hs c) eq_refl) as (e & He & -> & Hc & Hz & _).
    exfalso. apply (Hall e); [lia|lia|done].
  - intros _ e. induction (N.lt_wf_0 e) as [e _ IH]. intros He H2 Hz. enough (None = Some (index * per + e)%N) by done.
    apply Hs. exists e. split_and!; try done; try lia. intros e' He' H2'. apply IH; lia.
Qed.

(** ** Chains *)

Lemma chain_link_fst clusters : (chain_link_values clusters).*1 = clusters.
Proof. induction clusters as [|c cs IH]; [done|]. cbn. by rewrite IH. Qed.

Lemma chain_link_lookup clusters (i : nat) c :
  clusters !! i = Some c →
  chain_link_values clusters !! i = Some (c, default CHAIN_EOC_MARKER (clusters !! S i)).
Proof.
  revert i. induction clusters as [|c' cs IH]; intros [|i] Hi; [done|done| |by apply IH].
  injection Hi as ->. cbn. by destruct cs.
Qed.

(** ** Short names, exactly *)

Lemma rposition_None c l : rposition c l = None ↔ c ∉ l.
Proof.
  induction l as [|b l IH]; cbn; [by split; [set_solver|]|].
  destruct (rposition c l) as [i|]; [split; [done|]|].
  - intros Hn. exfalso. assert (c ∉ l) as Hc by set_solver. apply IH in Hc. done.
  - pose proof (proj1 IH eq_refl) as Hl. case_decide; subst; set_solver.
Qed.

Lemma rposition_Some c l i :
  rposition c l = Some i ↔ ∃ k, (l = take i l ++ (c :: k)) ∧ (c ∉ k) ∧ k = drop (i + 1) l ∧ (i < length l)%nat.
Proof.
  revert i. induction l as [|b l IH]; intros i; cbn [rposition].
  { split; [done|]. intros (k & _ & _ & _ & Hi). cbn in Hi. lia. }
  destruct (rposition c l) as [j|] eqn:Hr.
  - split.
    + intros [= <-]. destruct (proj1 (IH j) eq_refl) as (k & Hl & Hc & Hk & Hj).
      exists k. cbn. split_and!; [by f_equal|done|done|lia].
    + intros (k & Hl & Hc & Hk & Hi). destruct i as [|i]; cbn in *.
      * rewrite drop_0 in Hk. subst. injection Hl as <-. apply rposition_None in Hc. congruence.
      * do 2 f_equal. enough (Some j = Some i) by congruence. apply IH. exists k.
        injection Hl as Hl. split_and!; [done|done|done|lia].
  - pose proof (proj1 (rposition_None c l) Hr) as Hn. case_decide as Hb; subst.
    + split.
      * intros [= <-]. exists l. cbn. rewrite drop_0. split_and!; [done|done|done|lia].
      * intros (k & Hl & Hc & Hk & Hi). destruct i as [|i]; [done|]. cbn in *. exfalso.
        injection Hl as Hl. apply Hn. rewrite Hl. set_solver.
    + split; [done|]. intros (k & Hl & Hc & Hk & Hi). exfalso. destruct i as [|i]; cbn in *.
      * by injection Hl as ->.
      * injection Hl as Hl. apply Hn. rewrite Hl. set_solver.
Qed.

(** The admissible parts of a name: a base and an extension. *)
Definition short_parts (base ext : list N) : Prop :=
  (1 ≤ length base ≤ 8)%nat ∧ (length ext ≤ 3)%nat ∧ Forall name_byte_ok base ∧ Forall name_byte_ok ext.

(** The display forms of a name: without a dot, or with one. *)
Definition displays (base ext display : list N) : Prop :=
  (ext = [] ∧ display = base) ∨ display = base ++ DOT :: ext.

Definition pad (n : nat) (part : list N) : list N :=
  (to_ascii_uppercase <$> part) ++ replicate (n - length part) SPACE.

Lemma encode_part_Some part out :
  encode_part part = Some out ↔ Forall name_byte_ok part ∧ out = to_ascii_uppercase <$> part.
Proof.
  unfold encode_part. rewrite <-forallb_True. destruct (forallb name_byte_ok part); naive_solver.
Qed.

Lemma name_byte_not_dot part : Forall name_byte_ok part → DOT ∉ part.
Proof.
  intros Hf Hin. eapply Forall_forall in Hf; [|exact Hin]. by vm_compute in Hf.
Qed.

Lemma place_parts base ext :
  (length base ≤ 8)%nat → (length ext ≤ 3)%nat →
  copy_at (copy_at (replicate 11 SPACE) 0 (to_ascii_uppercase <$> base)) 8 (to_ascii_uppercase <$> ext) =
  pad 8 base ++ pad 3 ext.
Proof.
  intros Hb He. unfold pad, copy_at. rewrite !length_fmap. change (N.to_nat 0) with 0%nat.
  change (N.to_nat 8) with 8%nat. rewrite take_0. cbn [app Nat.add].
  rewrite drop_replicate. rewrite take_app, take_ge, length_fmap, take_replicate by (rewrite length_fmap; lia).
  rewrite drop_app, drop_ge, length_fmap, drop_replicate by (rewrite length_fmap; lia). cbn [app].
  rewrite <-!app_assoc. repeat (f_equal; try lia).
Qed.

Lemma encode_short_name_Some display out :
  encode_short_name display = Some out ↔
  ∃ base ext, short_parts base ext ∧ displays base ext display ∧ out = pad 8 base ++ pad 3 ext.
Proof.
  unfold encode_short_name, short_parts, displays. split.
  - case_decide as Hd; [done|].
    set (parts := match rposition DOT display with Some pos => _ | None => _ end).
    assert (∃ base ext, parts = (base, ext) ∧ displays base ext display) as (base & ext & Hp & Hdisp).
    { unfold parts, displays. destruct (rposition DOT display) as [pos|] eqn:Hr; [|by eexists _, _; split; [|left]].
      apply rposition_Some in Hr as (k & Hl & _ & -> & _). eexists _, _. split; [done|by right]. }
    rewrite Hp. case_decide as Hsz; [done|].
    intros (b & Hb & (e & He & [= <-])%bind_Some)%bind_Some.
    apply encode_part_Some in Hb as [Hb ->]. apply encode_part_Some in He as [He ->].
    exists base, ext. rewrite place_parts by lia.
    assert (base ≠ []) by tauto. destruct base; [done|]. cbn [length] in *.
    split_and!; [lia|lia|lia|done|done|done|done].
  - intros (base & ext & ([H1 H8] & H3 & Hb & He) & Hdisp & ->).
    assert (display ≠ [] ∧ (length display ≤ 12)%nat) as [Hne Hlen].
    { destruct Hdisp as [[-> ->]| ->]; (split; [destruct base; [cbn in *; lia|done]|]); [lia|].
      rewrite length_app. cbn. lia. }
    rewrite decide_False by (intros [?|?]; [done|lia]).
    pose proof (name_byte_not_dot _ Hb) as Hnb. pose proof (name_byte_not_dot _ He) as Hne'.
    replace (match rposition DOT display with Some pos => _ | None => _ end) with (base, ext).
    2:{ destruct Hdisp as [[-> ->]| ->]; [by rewrite (proj2 (rposition_None _ _) Hnb)|].
        rewrite (proj2 (rposition_Some DOT _ (length base))).
        - by rewrite take_app_length, drop_app_add.
        - exists ext. rewrite take_app_length. split_and!; [done|done| |rewrite length_app; cbn; lia].
          by rewrite drop_app_add. }
    rewrite decide_False by (intros [->|?]; [cbn in *; lia|lia]).
    rewrite (proj2 (encode_part_Some base _)) by done. cbn [mbind option_bind].
    rewrite (proj2 (encode_part_Some ext _)) by done. cbn [mbind option_bind].
    by rewrite place_parts by lia.
Qed.

Lemma length_encode_short_name display out : encode_short_name display = Some out → length out = 11%nat.
Proof.
  intros (base & ext & ([_ H8] & H3 & _) & _ & ->)%encode_short_name_Some. unfold pad.
  rewrite !length_app, !length_fmap, !length_replicate. lia.
Qed.

Lemma strip_padding a b i j :
  SPACE ∉ a → SPACE ∉ b → a ++ replicate i SPACE = b ++ replicate j SPACE → a = b.
Proof.
  revert b. induction a as [|x a IH]; intros [|y b] Ha Hb Heq; [done| | |].
  - destruct i; [done|]. injection Heq as <- _. set_solver.
  - destruct j; [done|]. injection Heq as -> _. set_solver.
  - injection Heq as <- Heq. f_equal. apply IH; [set_solver|set_solver|done].
Qed.

Lemma upper_no_space part : Forall name_byte_ok part → SPACE ∉ to_ascii_uppercase <$> part.
Proof.
  intros Hf (b & Hb & Hin)%list_elem_of_fmap. eapply Forall_forall in Hf; [|exact Hin].
  unfold name_byte_ok in Hf. destruct (is_ascii b); [|done]. unfold to_ascii_uppercase, SPACE in *.
  case_decide; [lia|]. subst. done.
Qed.

(** An encoded name is the name up to the case of its letters. *)
Lemma short_name_parts base ext base' ext' :
  short_parts base ext → short_parts base' ext' → pad 8 base ++ pad 3 ext = pad 8 base' ++ pad 3 ext' →
  (to_ascii_uppercase <$> base) = (to_ascii_uppercase <$> base') ∧
  (to_ascii_uppercase <$> ext) = (to_ascii_uppercase <$> ext').
Proof.
  intros ([_ Hb8] & He3 & Hb & He) ([_ Hb8'] & He3' & Hb' & He') Heq.
  apply app_inj_1 in Heq as [H1 H2].
  - split; eapply strip_padding; eauto using upper_no_space.
  - unfold pad. rewrite !length_app, !length_fmap, !length_replicate. lia.
Qed.

(** ** The queue *)

Lemma queue_sizes : Forall (λ q, is_power_of_two q = bool_decide (q ∈ [1; 2; 4; 8; 16; 32; 64; 128; 256]%N))
  (N.of_nat <$> seq 0 257).
Proof. apply (bool_decide_unpack _). vm_compute. exact I. Qed.

Lemma validate_queue_size_Some q r :
  validate_queue_size q = Some r ↔ r = q ∧ q ∈ [4; 8; 16; 32; 64; 128; 256]%N.
Proof.
  unfold validate_queue_size, MIN_QUEUE_SIZE, MAX_QUEUE_SIZE.
  destruct (decide (3 ≤ q ∧ q ≤ 256)%N) as [Hr|Hr].
  - assert (is_power_of_two q = bool_decide (q ∈ [1; 2; 4; 8; 16; 32; 64; 128; 256]%N)) as ->.
    { pose proof queue_sizes as Hq. rewrite Forall_forall in Hq. apply Hq, list_elem_of_fmap.
      exists (N.to_nat q). split; [lia|]. apply elem_of_seq. lia. }
    rewrite (bool_decide_eq_true_2 (_ ∧ _)), andb_true_r by done. case_bool_decide as Hin.
    + split; [intros [= <-]; split; [done|]|by intros [-> _]]. set_unfold. naive_solver lia.
    + split; [done|]. intros [_ Hin']. exfalso. apply Hin. set_solver.
  - rewrite (bool_decide_eq_false_2 (_ ∧ _)), andb_false_r by done. split; [done|].
    intros [_ Hin]. exfalso. apply Hr. set_unfold. naive_solver lia.
Qed.

(** ** The token check *)

Section token_check.
Context `{SignatureScheme}.

(** Granted exactly to an authentic, current token for this very resource that
    the kernel answers [0] for. *)
Lemma verify_file_token_with_iff token key resource now query :
  verify_file_token_with token key resource now query = true ↔
  verify token key resource now = Ok () ∧
  ∃ fp, signature_fingerprint (tok_signature token) = Some fp ∧ query fp = 0%N.
Proof.
  unfold verify_file_token_with. destruct (verify token key resource now) as [[]|e]; [|naive_solver].
  destruct (signature_fingerprint (tok_signature token)) as [fp|]; [|naive_solver].
  rewrite bool_decide_eq_true. naive_solver.
Qed.

End token_check.

(** ** Names of parsed entries *)

Lemma checksum_lt name : (short_name_checksum name < 256)%N.
Proof.
  unfold short_name_checksum. induction name as [|b name IH] using rev_ind; [done|].
  rewrite foldl_snoc. unfold checksum_step at 1. by apply N.mod_lt.
Qed.

Lemma lfn_sequence entry f : parse_lfn_fragment entry = Some f → (1 ≤ sequence f ≤ 31)%N.
Proof.
  unfold parse_lfn_fragment. case_decide; [done|]. case_decide as Hz; [done|]. intros [= <-].
  cbn [sequence]. unfold ATTR_LONG_NAME_SEQUENCE_MASK in *.
  assert (∀ b, N.land b 0x1F = b mod 32)%N as Hmod by (intros b; apply (N.land_ones b 5)).
  rewrite Hmod in *. pose proof (N.mod_lt (byte_at entry 0) 32 ltac:(done)) as Hlt.
  revert Hz Hlt. generalize (byte_at entry 0 mod 32)%N. lia.
Qed.

(** An entry is a long-name fragment or a short entry, never both. *)
Lemma entry_kinds_exclusive entry f e :
  parse_lfn_fragment entry = Some f → parse_short_dir_entry entry = Some e → False.
Proof.
  unfold parse_lfn_fragment, parse_short_dir_entry. case_decide; [done|].
  intros _. case_decide; [done|]. case_decide; [done|]. tauto.
Qed.
