(* ===== verification/BlkDev.v ===== *)
(** * BlkDev: the block device as the driver sees it

    Model of [BlkDevice] in [blk-driver-host/src/main.rs]: one request in flight,
    its completion decided by hardware, the quarantine after a poll timeout, and
    [read_sector]/[write_sector] on top.  The virtio device is not part of the
    repository: it is the class [BlkHardware], whose documented behaviour is that
    a request completed with status 0 was carried out on the addressed sector,
    and that any other request may leave anything in that sector only. *)

From S2P Require Import Prelude Bytes Fat.

Definition SECTOR_SIZE : N := 512.
Definition VIRTIO_BLK_S_OK : N := 0.
Definition NO_STATUS : N := 0xFF.

(** [[u8; SECTOR_SIZE]] *)
Definition is_sector (s : list N) : Prop := len s = SECTOR_SIZE ∧ bytes s.

Definition zero_sector : list N := replicate 512 0%N.
#[global] Arguments zero_sector : simpl never.

Abbreviation Disk := (gmap N (list N)).

Definition sector_at (m : Disk) (s : N) : list N := default zero_sector (m !! s).

(** What [poll_for_completion] sees of a notified request: the status byte of a
    completed one, or nothing within its bounded number of polls. *)
Inductive Completion := Completed (status : N) | NotCompleted.

(** The [n]-th submitted request completes as [hw_completion n]; when it is not a
    completed success, a write leaves [hw_torn n old new] in its sector. *)
Class BlkHardware := {
  hw_completion : nat → Completion;
  hw_torn : nat → list N → list N → list N;
  hw_torn_sector n old new : is_sector old → is_sector new → is_sector (hw_torn n old new);
}.

(** The driver's device state.  [data_buf] is the data part of the request page,
    [submitted] counts the chains posted to the queue, [disk] is the medium. *)
Record BlkDevice := mkDev {
  disk : Disk;
  data_buf : list N;
  health : QueueHealth;
  stall_next_notify : bool;
  stall_after_first_served : bool;
  submitted : nat;
}.

Definition set_disk (f : Disk → Disk) (d : BlkDevice) : BlkDevice :=
  mkDev (f (disk d)) (data_buf d) (health d) (stall_next_notify d) (stall_after_first_served d) (submitted d).
Definition set_buf (b : list N) (d : BlkDevice) : BlkDevice :=
  mkDev (disk d) b (health d) (stall_next_notify d) (stall_after_first_served d) (submitted d).
Definition set_health (h : QueueHealth) (d : BlkDevice) : BlkDevice :=
  mkDev (disk d) (data_buf d) h (stall_next_notify d) (stall_after_first_served d) (submitted d).
Definition set_stall (b : bool) (d : BlkDevice) : BlkDevice :=
  mkDev (disk d) (data_buf d) (health d) b (stall_after_first_served d) (submitted d).
Definition set_stall_after (b : bool) (d : BlkDevice) : BlkDevice :=
  mkDev (disk d) (data_buf d) (health d) (stall_next_notify d) b (submitted d).
Definition submit (d : BlkDevice) : BlkDevice :=
  mkDev (disk d) (data_buf d) (health d) (stall_next_notify d) (stall_after_first_served d) (S (submitted d)).

Definition is_faulted (d : BlkDevice) : bool := negb (may_submit (health d)).

(** ** Driver code: state passing with panics *)

(** A Rust panic ends the driver: [panic] spins forever. *)
Inductive Run (A : Type) := Val (a : A) | Panicked.
Arguments Val {A} a.
Arguments Panicked {A}.

Definition DevM (A : Type) : Type := BlkDevice → Run A * BlkDevice.

#[global] Instance DevM_ret : MRet DevM := λ A a d, (Val a, d).
#[global] Instance DevM_bind : MBind DevM := λ A B k m d,
  match m d with
  | (Val a, d') => k a d'
  | (Panicked, d') => (Panicked, d')
  end.

Definition panic {A} : DevM A := λ d, (Panicked, d).
Definition gets {A} (f : BlkDevice → A) : DevM A := λ d, (Val (f d), d).
Definition modify (f : BlkDevice → BlkDevice) : DevM () := λ d, (Val (), f d).

(** [let x = m?;] in a function returning an [Option]. *)
Definition try_opt {A B} (m : DevM (option A)) (k : A → DevM (option B)) : DevM (option B) :=
  o ← m; match o with Some a => k a | None => mret None end.

Notation "x <-? m ; k" := (try_opt m (λ x, k)) (at level 100, m at next level, right associativity).
Notation "'let?' x := m 'in' k" := (try_opt m (λ x, k)) (at level 200, x strict pattern, m at level 200, k at level 200).

(** A pure [Option] in that position. *)
Definition pure_opt {A} (o : option A) : DevM (option A) := mret o.

(** ** Requests *)

Inductive BlkReq := BlkIn | BlkOut.

Section device.
Context `{BlkHardware}.

(** What the device does to the medium and to the request page; the driver reads
    the page only after a successful read. *)
Definition device_effect (n : nat) (req : BlkReq) (sector : N) (c : Completion) (d : BlkDevice) : BlkDevice :=
  match req, c with
  | BlkIn, Completed 0 => set_buf (sector_at (disk d) sector) d
  | BlkIn, _ => d
  | BlkOut, Completed 0 => set_disk <[sector := data_buf d]> d
  | BlkOut, _ => set_disk <[sector := hw_torn n (sector_at (disk d) sector) (data_buf d)]> d
  end.

(** A request that was posted but not notified is never seen by the device, so
    its poll times out. *)
Definition request (req : BlkReq) (sector : N) : DevM (bool * N) := λ d,
  if negb (may_submit (health d)) then (Val (false, NO_STATUS), d) else
  let n := submitted d in
  let '(completion, d) :=
    if stall_next_notify d then (NotCompleted, set_stall false (submit d))
    else (hw_completion n, device_effect n req sector (hw_completion n) (submit d)) in
  match completion with
  | NotCompleted => (Val (false, NO_STATUS), set_health (on_timeout (health d)).2 d)
  | Completed status => (Val (true, status), d)
  end.

Definition read_sector (sector : N) : DevM (option (list N)) := λ d,
  if is_faulted d then (Val None, d) else
  (modify (set_buf zero_sector) ≫= λ _,
   request BlkIn sector ≫= λ '(completed, status),
   if negb completed || negb (bool_decide (status = VIRTIO_BLK_S_OK)) then mret None
   else gets (λ d, Some (data_buf d))) d.

Definition write_sector (sector : N) (data : list N) : DevM (bool * N) := λ d,
  if is_faulted d then (Val (false, NO_STATUS), d) else
  (modify (set_buf data) ≫= λ _, request BlkOut sector) d.

(** [let (completed, status) = dev.write_sector(..);
    if !completed || status != VIRTIO_BLK_S_OK] *)
Definition write_ok (r : bool * N) : bool := r.1 && bool_decide (r.2 = VIRTIO_BLK_S_OK).

End device.

(** ** Reasoning about driver code *)

(** [post m d Q]: [Q] holds of the outcome of [m] from [d]. *)
Definition post {A} (m : DevM A) (d : BlkDevice) (Q : Run A → BlkDevice → Prop) : Prop :=
  Q (m d).1 (m d).2.

Lemma post_ret {A} (a : A) d Q : Q (Val a) d → post (mret a) d Q.
Proof. done. Qed.

Lemma post_bind {A B} (m : DevM A) (k : A → DevM B) d Q :
  post m d (λ r d', match r with Val a => post (k a) d' Q | Panicked => Q Panicked d' end) →
  post (m ≫= k) d Q.
Proof.
  unfold post, mbind, DevM_bind. destruct (m d) as [[a|] d']; cbn; [|done]. by destruct (k a d').
Qed.

Lemma post_mono {A} (m : DevM A) d (Q Q' : Run A → BlkDevice → Prop) :
  post m d Q → (∀ r d', Q r d' → Q' r d') → post m d Q'.
Proof. unfold post. auto. Qed.

Lemma post_try {A B} (m : DevM (option A)) (k : A → DevM (option B)) d Q :
  post m d (λ r d', match r with
    | Val (Some a) => post (k a) d' Q
    | Val None => Q (Val None) d'
    | Panicked => Q Panicked d'
    end) →
  post (try_opt m k) d Q.
Proof.
  intros Hm. apply post_bind. eapply post_mono; [exact Hm|]. by intros [[a|]|] d'.
Qed.

Lemma post_pure {A B} (o : option A) (k : A → DevM (option B)) d Q :
  (∀ a, o = Some a → post (k a) d Q) → (o = None → Q (Val None) d) →
  post (try_opt (pure_opt o) k) d Q.
Proof. intros Hs Hn. apply post_try. unfold pure_opt. apply post_ret. destruct o; auto. Qed.

Lemma post_elim {A} (m : DevM A) d Q r d' : post m d Q → m d = (r, d') → Q r d'.
Proof. unfold post. intros Hp Heq. by rewrite Heq in Hp. Qed.

(** ** Device invariants *)

(** Every sector of the medium is 512 bytes. *)
Definition disk_wf (m : Disk) : Prop := map_Forall (λ _, is_sector) m.

Lemma zero_is_sector : is_sector zero_sector.
Proof. split; [done|]. by repeat constructor. Qed.

Lemma sector_at_wf m s : disk_wf m → is_sector (sector_at m s).
Proof.
  intros Hm. unfold sector_at. destruct (m !! s) as [x|] eqn:Hs; [by apply (Hm s)|apply zero_is_sector].
Qed.

Lemma disk_wf_insert m s x : disk_wf m → is_sector x → disk_wf (<[s := x]> m).
Proof. intros Hm Hx. by apply map_Forall_insert_2. Qed.

Lemma sector_at_insert m s x s' :
  sector_at (<[s := x]> m) s' = if decide (s = s') then x else sector_at m s'.
Proof.
  unfold sector_at. case_decide as Hs; [subst; by rewrite lookup_insert_eq|by rewrite lookup_insert_ne].
Qed.

(** Two mediums with the same contents. *)
Definition same_disk (m m' : Disk) : Prop := ∀ s, sector_at m s = sector_at m' s.

#[global] Instance same_disk_equivalence : Equivalence same_disk.
Proof.
  split; [by intros m s|by intros m m' Hm s|]. intros m1 m2 m3 H1 H2 s. by rewrite H1.
Qed.

#[global] Instance sector_at_proper : Proper (same_disk ==> eq ==> eq) sector_at.
Proof. intros m m' Hm s ? <-. apply Hm. Qed.

#[global] Instance same_disk_insert s x : Proper (same_disk ==> same_disk) (insert s x : Disk → Disk).
Proof. intros m m' Hm s'. rewrite !sector_at_insert. case_decide; [done|apply Hm]. Qed.

Section rules.
Context `{HW : BlkHardware}.

(** The device answers: healthy, no fault injected, and hardware that completes
    every request with success. *)
Definition dependable (d : BlkDevice) : Prop :=
  health d = Healthy ∧ stall_next_notify d = false ∧ ∀ n, hw_completion n = Completed 0.

(** [d'] is a later state of [d]: a quarantine is never lifted, a dependable
    device stays one, and in quarantine nothing is submitted or changed. *)
Record later (d d' : BlkDevice) : Prop := {
  later_frozen : health d = Faulted → d' = d;
  later_dependable : dependable d → dependable d';
  later_wf : disk_wf (disk d) → disk_wf (disk d');
  later_submitted : submitted d ≤ submitted d';
}.

#[global] Instance later_preorder : PreOrder later.
Proof.
  split.
  - intros d. by split.
  - intros d1 d2 d3 [Hf Hd Hw Hs] [Hf' Hd' Hw' Hs']. split; [|auto|auto|lia].
    intros Hh. specialize (Hf Hh). subst. auto.
Qed.

(** Reading: the medium is unchanged and a delivered sector is the one asked for;
    a dependable device always delivers. *)
Lemma post_read s d (Q : Run (option (list N)) → BlkDevice → Prop) :
  disk_wf (disk d) →
  (∀ d', later d d' → disk d' = disk d → ¬ dependable d → Q (Val None) d') →
  (∀ d', later d d' → disk d' = disk d → health d = Healthy ∧ health d' = health d →
     Q (Val (Some (sector_at (disk d) s))) d') →
  post (read_sector s) d Q.
Proof.
  intros Hw Hnone Hsome. unfold post, read_sector, is_faulted. rename Hsome into Hsome'.
  assert (∀ d', later d d' → disk d' = disk d → health d' = Healthy → health d = Healthy →
    Q (Val (Some (sector_at (disk d) s))) d') as Hsome 
    by (intros d' ????; apply Hsome'; [done|done|split; congruence]).
  clear Hsome'. destruct (health d) eqn:Hh; cbn [may_submit negb].
  2:{ apply Hnone; [done|done|]. intros [? _]. congruence. }
  unfold mbind, DevM_bind, modify, gets, mret, DevM_ret, request. cbn. rewrite Hh. cbn [may_submit negb].
  destruct (stall_next_notify d) eqn:Hs; cbn.
  - apply Hnone; [|done|intros (_ & ? & _); congruence].
    split; cbn; [congruence|intros (_ & ? & _); congruence|done|lia].
  - destruct (hw_completion (submitted d)) as [st|] eqn:Hc; cbn.
    + destruct st as [|p]; [rewrite bool_decide_eq_true_2 by done|rewrite bool_decide_eq_false_2 by done]; cbn.
      * apply Hsome; [|done|done|done]. split; cbn; [congruence|by intros (? & ? & ?)|done|lia].
      * apply Hnone; [|done|]; [|intros (_ & _ & Hall); specialize (Hall (submitted d)); congruence].
        split; cbn; [congruence|by intros (? & ? & ?)|done|lia].
    + apply Hnone; [|done|intros (_ & _ & Hall); specialize (Hall (submitted d)); congruence].
      split; cbn; [congruence|intros (_ & _ & Hall); specialize (Hall (submitted d)); congruence|done|lia].
Qed.

(** Writing: on success the sector holds the data, otherwise it may hold
    anything; every other sector is untouched. *)
Lemma post_write s x d (Q : Run (bool * N) → BlkDevice → Prop) :
  disk_wf (disk d) → is_sector x →
  (∀ d' r, later d d' → write_ok r = false → ¬ dependable d →
     (disk d' = disk d ∨ ∃ y, is_sector y ∧ disk d' = <[s := y]> (disk d)) → Q (Val r) d') →
  (∀ d' r, later d d' → write_ok r = true → health d = Healthy ∧ health d' = health d →
     disk d' = <[s := x]> (disk d) → Q (Val r) d') →
  post (write_sector s x) d Q.
Proof.
  intros Hw Hx Hfail Hok. unfold post, write_sector, is_faulted. rename Hok into Hok'.
  assert (∀ d' r, later d d' → write_ok r = true → health d' = Healthy → health d = Healthy →
    disk d' = <[s := x]> (disk d) → Q (Val r) d') as Hok
    by (intros d' r ?????; apply Hok'; [done|done|split; congruence|done]).
  clear Hok'. destruct (health d) eqn:Hh; cbn [may_submit negb].
  2:{ apply Hfail; [done|done|intros [? _]; congruence|by left]. }
  unfold mbind, DevM_bind, modify, gets, mret, DevM_ret, request. cbn. rewrite Hh. cbn [may_submit negb].
  destruct (stall_next_notify d) eqn:Hs; cbn.
  - apply Hfail; [|done|intros (_ & ? & _); congruence|by left].
    split; cbn; [congruence|intros (_ & ? & _); congruence|done|lia].
  - pose proof (hw_torn_sector (submitted d) (sector_at (disk d) s) x (sector_at_wf _ _ Hw) Hx) as Ht.
    destruct (hw_completion (submitted d)) as [st|] eqn:Hc; cbn.
    + destruct (decide (st = 0%N)) as [->|Hst].
      * apply Hok; cbn; [|done|done|done|done]. split; cbn; [congruence|done| |lia].
        intros _. by apply disk_wf_insert.
      * destruct st as [|p]; [done|]. apply Hfail; cbn.
        -- split; cbn; [congruence| | |lia]; [|intros _; by apply disk_wf_insert].
           intros (_ & _ & Hall). specialize (Hall (submitted d)). congruence.
        -- unfold write_ok. cbn. by rewrite bool_decide_eq_false_2.
        -- intros (_ & _ & Hall). specialize (Hall (submitted d)). congruence.
        -- right. eauto.
    + apply Hfail; cbn; [|done| |right; eauto];
        [|intros (_ & _ & Hall); specialize (Hall (submitted d)); congruence].
      split; cbn; [congruence| |intros _; by apply disk_wf_insert|lia].
      intros (_ & _ & Hall). specialize (Hall (submitted d)). congruence.
Qed.

End rules.
