(* ===== verification/FatOps.v ===== *)
(** * FatOps: FAT entries, the free-cluster hint and allocation

    Model of [write_fat_entry], [adjust_fsinfo_free_count], [free_clusters],
    [next_cluster_in_chain], [allocate_free_cluster] and [allocate_cluster_chain]
    of [blk-driver-host/src/main.rs], against a view of the FAT as a function from
    clusters to entries. *)

From S2P Require Import Prelude Bytes Fat BlkDev.

Section ops.
Context `{HW : BlkHardware} (info : BootSectorInfo).

(** ** Operations *)

Definition next_cluster_in_chain (cluster : N) : DevM (option N) :=
  byte_offset <-? pure_opt (checked_mul u32_max cluster 4);
  let fat_sector_index := (byte_offset / bytes_per_sector info)%N in
  let offset_in_sector := (byte_offset mod bytes_per_sector info)%N in
  fat_sector <-? pure_opt (checked_add u32_max (fat_start_sector info) fat_sector_index);
  sector <-? read_sector fat_sector;
  let relative_cluster := (offset_in_sector / 4)%N in
  mret (fat_entry_at sector relative_cluster).

Definition adjusted_count (delta : Z) (count : N) : N :=
  if decide (delta < 0)%Z then saturating_sub count (Z.abs_N delta)
  else saturating_add u32_max count (Z.to_N delta).

Definition adjust_fsinfo_free_count (delta : Z) : DevM () :=
  o ← read_sector (fsinfo_sector info);
  match o with
  | None => mret ()
  | Some sector =>
      match fsinfo_parse sector with
      | None => mret ()
      | Some fsinfo =>
          if decide (free_count fsinfo = FSINFO_UNKNOWN) then mret () else
          let fsinfo := mkFsInfo (adjusted_count delta (free_count fsinfo)) (next_free fsinfo) in
          _ ← write_sector (fsinfo_sector info) (encode_into fsinfo sector);
          mret ()
      end
  end.

(** The loop over the FAT copies: [None] is [return false], otherwise the value
    of [previous_masked] at its end.  A product beyond [u32] and a slice beyond
    the 512-byte sector panic. *)
Fixpoint write_fat_copies (fat_sector_index offset_in_sector masked : N) (n : nat) (fat_copy : N)
    (previous : option N) : DevM (option (option N)) :=
  match n with
  | O => mret (Some previous)
  | S n =>
      match checked_mul u32_max (fat_size_32 info) fat_copy with
      | None => panic
      | Some copy_offset =>
          copy_base <-? pure_opt (checked_add u32_max (fat_start_sector info) copy_offset);
          fat_sector <-? pure_opt (checked_add u32_max copy_base fat_sector_index);
          sector <-? read_sector fat_sector;
          if decide (SECTOR_SIZE < offset_in_sector + 4)%N then panic else
          let existing := u32_at sector offset_in_sector in
          let previous := if decide (fat_copy = 0)%N then Some (N.land existing FAT_MASK) else previous in
          r ← write_sector fat_sector
                (copy_at sector offset_in_sector (le_bytes 4 (patch_entry existing masked)));
          if negb (write_ok r) then mret None
          else write_fat_copies fat_sector_index offset_in_sector masked n (fat_copy + 1) previous
      end
  end.

Definition write_fat_entry (cluster value : N) : DevM bool :=
  match checked_mul u32_max cluster 4 with
  | None => mret false
  | Some byte_offset =>
      let fat_sector_index := (byte_offset / bytes_per_sector info)%N in
      let offset_in_sector := (byte_offset mod bytes_per_sector info)%N in
      let masked := N.land value FAT_MASK in
      o ← write_fat_copies fat_sector_index offset_in_sector masked (N.to_nat (num_fats info)) 0 None;
      match o with
      | None => mret false
      | Some previous_masked =>
          _ ← match previous_masked with
              | Some previous =>
                  match bool_decide (previous = 0%N), bool_decide (masked = 0%N) with
                  | true, false => adjust_fsinfo_free_count (-1)
                  | false, true => adjust_fsinfo_free_count 1
                  | _, _ => mret ()
                  end
              | None => mret ()
              end;
          mret true
      end
  end.

Fixpoint free_clusters (clusters : list N) : DevM () :=
  match clusters with
  | [] => mret ()
  | cluster :: clusters => _ ← write_fat_entry cluster 0; free_clusters clusters
  end.

(** [for fat_sector_index in 0..total_fat_sectors], from [index]. *)
Fixpoint scan_fat (n : nat) (index : N) : DevM (option N) :=
  match n with
  | O => mret None
  | S n =>
      fat_sector <-? pure_opt (checked_add u32_max (fat_start_sector info) index);
      sector <-? read_sector fat_sector;
      match first_free_cluster_in_fat_sector sector index (bytes_per_sector info / 4) with
      | Some cluster => mret (Some cluster)
      | None => scan_fat n (index + 1)
      end
  end.

Definition allocate_free_cluster : DevM (option N) := scan_fat (N.to_nat (fat_size_32 info)) 0.

(** The first pass: reserve clusters until [count] are, each marked as its own
    end of chain before the next scan.  [false] after a rollback. *)
Fixpoint reserve_clusters (n : nat) (reserved : nat) (out : list N) : DevM (bool * list N) :=
  match n with
  | O => mret (true, out)
  | S n =>
      o ← allocate_free_cluster;
      match o with
      | None => _ ← free_clusters (take reserved out); mret (false, out)
      | Some cluster =>
          ok ← write_fat_entry cluster CHAIN_EOC_MARKER;
          if negb ok then _ ← free_clusters (take reserved out); mret (false, out)
          else reserve_clusters n (S reserved) (<[reserved := cluster]> out)
      end
  end.

(** The second pass: link them. *)
Fixpoint link_clusters (all : list N) (links : list (N * N)) : DevM bool :=
  match links with
  | [] => mret true
  | (cluster, value) :: links =>
      ok ← write_fat_entry cluster value;
      if negb ok then _ ← free_clusters all; mret false
      else link_clusters all links
  end.

Definition allocate_cluster_chain (count : nat) (out : list N) : DevM (bool * list N) :=
  if decide (count = 0 ∨ length out < count)%nat then mret (false, out) else
  '(ok, out) ← reserve_clusters count 0 out;
  if negb ok then mret (false, out) else
  ok ← link_clusters (take count out) (chain_link_values (take count out));
  mret (ok, out).

End ops.

(** ** The FAT as a function *)

Section view.
Context (info : BootSectorInfo).

(** A volume whose sectors are the device's 512 bytes, with FSInfo in the
    reserved region and cluster numbers below the end-of-chain markers. *)
Record volume_ok : Prop := {
  vol_boot : boot_wf info;
  vol_bps : bytes_per_sector info = SECTOR_SIZE;
  vol_fsinfo : (fsinfo_sector info < fat_start_sector info)%N;
  vol_fat_size : (fat_size_32 info ≤ 0x1FFFFF)%N;
}.

Definition in_fat (c : N) : Prop := (c < 128 * fat_size_32 info)%N.

Definition fat_sec (copy c : N) : N := (fat_start_sector info + fat_size_32 info * copy + c / 128)%N.
Definition fat_off (c : N) : N := (4 * (c mod 128))%N.

(** The raw entry of cluster [c] in a copy, and its 28-bit value in the first. *)
Definition fat_raw (copy : N) (m : Disk) (c : N) : N := u32_at (sector_at m (fat_sec copy c)) (fat_off c).
Definition fat (m : Disk) (c : N) : N := N.land (fat_raw 0 m c) FAT_MASK.

Definition in_fat_region (s : N) : Prop := (fat_start_sector info ≤ s < data_start_sector info)%N.

(** The sector of one copy patched for cluster [c]. *)
Definition patch_copy (c masked copy : N) (m : Disk) : Disk :=
  let s := fat_sec copy c in
  <[s := copy_at (sector_at m s) (fat_off c) (le_bytes 4 (patch_entry (fat_raw copy m c) masked))]> m.

Fixpoint patch_copies (c masked : N) (n : nat) (copy : N) (m : Disk) : Disk :=
  match n with
  | O => m
  | S n => patch_copies c masked n (copy + 1) (patch_copy c masked copy m)
  end.

Lemma fat_geometry c :
  bytes_per_sector info = SECTOR_SIZE →
  ((c * 4) / bytes_per_sector info = c / 128 ∧ (c * 4) mod bytes_per_sector info = fat_off c)%N.
Proof.
  intros ->. unfold fat_off, SECTOR_SIZE. change 512%N with (128 * 4)%N. split.
  - by rewrite N.Div0.div_mul_cancel_r.
  - by rewrite N.Div0.mul_mod_distr_r, N.mul_comm.
Qed.

Lemma fat_off_bound c : (fat_off c + 4 ≤ SECTOR_SIZE)%N.
Proof. unfold fat_off, SECTOR_SIZE. pose proof (N.mod_lt c 128 ltac:(done)). lia. Qed.

Lemma fat_off_disjoint c c' :
  (c / 128 = c' / 128 → c ≠ c' → fat_off c + 4 ≤ fat_off c' ∨ fat_off c' + 4 ≤ fat_off c)%N.
Proof.
  intros Hd Hne. unfold fat_off. pose proof (N.div_mod' c 128). pose proof (N.div_mod' c' 128). lia.
Qed.

Lemma in_fat_div c : in_fat c ↔ (c / 128 < fat_size_32 info)%N.
Proof.
  unfold in_fat. split; intros Hc.
  - by apply N.Div0.div_lt_upper_bound.
  - pose proof (N.div_mod' c 128). pose proof (N.mod_lt c 128 ltac:(done)). nia.
Qed.

Lemma fat_sec_inj copy copy' c c' :
  in_fat c → in_fat c' → fat_sec copy c = fat_sec copy' c' → copy = copy' ∧ (c / 128 = c' / 128)%N.
Proof.
  rewrite !in_fat_div. unfold fat_sec. generalize (c / 128)%N (c' / 128)%N (fat_size_32 info).
  intros q q' F Hq Hq' Heq. assert (copy = copy') as ->; [|split; [done|lia]].
  destruct (N.lt_trichotomy copy copy') as [Hlt|[Heq'|Hlt]]; [|done|].
  - pose proof (N.mul_le_mono_l (copy + 1) copy' F ltac:(lia)). lia.
  - pose proof (N.mul_le_mono_l (copy' + 1) copy F ltac:(lia)). lia.
Qed.

Lemma fat_sec_region copy c :
  boot_wf info → in_fat c → (copy < num_fats info)%N → in_fat_region (fat_sec copy c).
Proof.
  intros Hwf Hc%in_fat_div Hcopy. unfold in_fat_region, fat_sec. rewrite (wf_data_start _ Hwf).
  pose proof (N.mul_le_mono_l (copy + 1) (num_fats info) (fat_size_32 info) ltac:(lia)) as Hle.
  revert Hc Hle. generalize (c / 128)%N. intros q Hq Hle. split; nia.
Qed.

Lemma sector_window m s : disk_wf m → len (sector_at m s) = SECTOR_SIZE.
Proof. intros Hm. by apply sector_at_wf. Qed.

Lemma patch_is_sector m c copy v :
  disk_wf m → is_sector (copy_at (sector_at m (fat_sec copy c)) (fat_off c) (le_bytes 4 v)).
Proof.
  intros Hm. pose proof (sector_at_wf m (fat_sec copy c) Hm) as [Hl Hb]. pose proof (fat_off_bound c).
  split; [by rewrite len_copy_u32 by lia|]. apply bytes_copy_at; [done|apply bytes_le_bytes].
Qed.

Lemma patch_copy_wf c v copy m : disk_wf m → disk_wf (patch_copy c v copy m).
Proof. intros Hm. by apply disk_wf_insert, patch_is_sector. Qed.

(** Patching one copy changes that copy's entry of [c] and no other entry. *)
Lemma fat_raw_patch_copy m c v copy copy' c' :
  disk_wf m → in_fat c → in_fat c' →
  fat_raw copy' (patch_copy c (N.land v FAT_MASK) copy m) c' =
    if decide (copy' = copy ∧ c' = c) then patch_entry (fat_raw copy m c) (N.land v FAT_MASK)
    else fat_raw copy' m c'.
Proof.
  intros Hm Hc Hc'. unfold fat_raw at 1, patch_copy. rewrite sector_at_insert.
  pose proof (sector_window m (fat_sec copy c) Hm) as Hl. pose proof (fat_off_bound c) as Hoff.
  case_decide as Hs.
  - apply fat_sec_inj in Hs as [<- Hd]; [|done|done]. case_decide as Hcc.
    + destruct Hcc as [_ ->]. apply u32_at_copy_same; [lia|apply patch_entry_lt].
    + assert (c ≠ c') as Hne by naive_solver.
      rewrite u32_at_copy_other by (first [lia|destruct (fat_off_disjoint c c' Hd Hne); lia]).
      unfold fat_raw. do 2 f_equal. unfold fat_sec. by rewrite Hd.
  - rewrite decide_False; [done|]. by intros [-> ->].
Qed.

Lemma patch_copies_wf c v n copy m : disk_wf m → disk_wf (patch_copies c v n copy m).
Proof.
  revert copy m. induction n as [|n IH]; intros copy m Hm; cbn; [done|]. by apply IH, patch_copy_wf.
Qed.

Lemma fat_raw_patch_copies n m c v copy copy' c' :
  disk_wf m → in_fat c → in_fat c' →
  fat_raw copy' (patch_copies c (N.land v FAT_MASK) n copy m) c' =
    if decide ((copy ≤ copy' < copy + N.of_nat n)%N ∧ c' = c)
    then patch_entry (fat_raw copy' m c) (N.land v FAT_MASK) else fat_raw copy' m c'.
Proof.
  revert copy m. induction n as [|n IH]; intros copy m Hm Hc Hc'; cbn [patch_copies].
  { rewrite decide_False; [done|lia]. }
  rewrite IH by (done || by apply patch_copy_wf). rewrite !fat_raw_patch_copy by done.
  repeat case_decide; try done; try lia; naive_solver lia.
Qed.

Lemma patch_copies_other n m c v copy s :
  (∀ k, (copy ≤ k < copy + N.of_nat n)%N → fat_sec k c ≠ s) →
  sector_at (patch_copies c v n copy m) s = sector_at m s.
Proof.
  revert copy m. induction n as [|n IH]; intros copy m Hs; cbn [patch_copies]; [done|].
  rewrite IH by (intros k Hk; apply Hs; lia). unfold patch_copy. rewrite sector_at_insert.
  rewrite decide_False; [done|]. apply Hs. lia.
Qed.

End view.

(** ** What the operations do *)

(** The FSInfo sector after a change of the hint by [delta]. *)
Definition hint_sector (delta : Z) (sector : list N) : list N :=
  match fsinfo_parse sector with
  | None => sector
  | Some fi =>
      if decide (free_count fi = FSINFO_UNKNOWN) then sector
      else encode_into (mkFsInfo (adjusted_count delta (free_count fi)) (next_free fi)) sector
  end.

(** The transitions that move the hint: a cluster becomes used, or free. *)
Definition transition (previous masked : N) : Z :=
  match bool_decide (previous = 0%N), bool_decide (masked = 0%N) with
  | true, false => -1
  | false, true => 1
  | _, _ => 0
  end.

Definition hint_after (previous masked : N) (sector : list N) : list N :=
  if decide (transition previous masked = 0%Z) then sector
  else hint_sector (transition previous masked) sector.

Lemma hint_sector_is_sector delta s : is_sector s → is_sector (hint_sector delta s).
Proof.
  intros [Hl Hb]. unfold hint_sector. destruct (fsinfo_parse s) as [fi|]; [|done].
  case_decide; [done|]. split; [by apply len_encode_into|by apply bytes_encode_into].
Qed.

Section specs.
Context `{HW : BlkHardware} (info : BootSectorInfo) (Hvol : volume_ok info).

(** Outside the FATs and the FSInfo sector nothing changed. *)
Definition outside_same (m m' : Disk) : Prop :=
  ∀ s, ¬ in_fat_region info s → s ≠ fsinfo_sector info → sector_at m' s = sector_at m s.

#[global] Instance outside_same_preorder : PreOrder outside_same.
Proof.
  split; [by intros m s|]. intros m1 m2 m3 H1 H2 s Hs Hf. rewrite H2 by done. by apply H1.
Qed.

Lemma not_dependable_before d d' : later d d' → ¬ dependable d' → ¬ dependable d.
Proof. intros Hl Hn Hd. apply Hn. by apply (later_dependable _ _ Hl). Qed.

Lemma fsinfo_outside : ¬ in_fat_region info (fsinfo_sector info).
Proof. unfold in_fat_region. pose proof (vol_fsinfo _ Hvol). lia. Qed.

Lemma post_adjust delta d :
  disk_wf (disk d) →
  post (adjust_fsinfo_free_count info delta) d (λ r d',
    r = Val () ∧ later d d' ∧
    (∀ s, s ≠ fsinfo_sector info → sector_at (disk d') s = sector_at (disk d) s) ∧
    (dependable d → sector_at (disk d') (fsinfo_sector info) =
       hint_sector delta (sector_at (disk d) (fsinfo_sector info)))).
Proof.
  intros Hw. unfold adjust_fsinfo_free_count. apply post_bind, post_read; [done| |].
  { intros d' Hl Hd Hn. apply post_ret. rewrite Hd. by split_and!. }
  intros d1 Hl1 Hd1 Hh. unfold hint_sector.
  destruct (fsinfo_parse (sector_at (disk d) (fsinfo_sector info))) as [fi|];
    [|apply post_ret; rewrite Hd1; by split_and!].
  case_decide; [apply post_ret; rewrite Hd1; by split_and!|].
  pose proof (sector_at_wf (disk d) (fsinfo_sector info) Hw) as [Hlen Hb].
  apply post_bind, post_write; [by rewrite Hd1| | |].
  { split; [by apply len_encode_into|by apply bytes_encode_into]. }
  - intros d2 r Hl2 _ Hn Hd2. apply post_ret. split_and!; [done|by transitivity d1| |].
    + intros s Hs. rewrite Hd1 in Hd2. destruct Hd2 as [->|(y & _ & ->)]; [done|].
      by rewrite sector_at_insert, decide_False.
    + intros Hdep. by destruct (not_dependable_before d d1 Hl1 Hn).
  - intros d2 r Hl2 _ _ Hd2. apply post_ret. rewrite Hd2, Hd1. split_and!; [done|by transitivity d1| |].
    + intros s Hs. by rewrite sector_at_insert, decide_False.
    + intros _. by rewrite sector_at_insert, decide_True.
Qed.

Lemma post_write_fat_copies c v n copy prev d :
  disk_wf (disk d) → in_fat info c → (copy + N.of_nat n = num_fats info)%N →
  post (write_fat_copies info (c / 128) (fat_off c) (N.land v FAT_MASK) n copy prev) d (λ r d',
    later d d' ∧
    match r with
    | Panicked => False
    | Val None => ¬ dependable d ∧
        ∀ s, ¬ in_fat_region info s → sector_at (disk d') s = sector_at (disk d) s
    | Val (Some p) =>
        disk d' = patch_copies info c (N.land v FAT_MASK) n copy (disk d) ∧
        p = if decide (copy = 0%N ∧ n ≠ 0%nat) then Some (fat info (disk d) c) else prev
    end).
Proof.
  destruct Hvol as [Hwf Hbps _ _].
  revert copy prev d. induction n as [|n IH]; intros copy prev d Hw Hc Hcopy; cbn [write_fat_copies].
  { apply post_ret. split_and!; [done|done|]. rewrite decide_False; [done|tauto]. }
  pose proof (fat_sec_region info copy c Hwf Hc ltac:(lia)) as [Hr1 Hr2].
  pose proof (wf_data_max _ Hwf) as Hmax. unfold fat_sec in Hr1, Hr2.
  assert (fat_size_32 info * copy ≤ u32_max ∧ fat_start_sector info + fat_size_32 info * copy ≤ u32_max ∧
    fat_start_sector info + fat_size_32 info * copy + c / 128 ≤ u32_max)%N as (Hm1 & Hm2 & Hm3).
  { revert Hr1 Hr2. generalize (c / 128)%N (fat_size_32 info * copy)%N. lia. }
  unfold checked_mul at 1. rewrite decide_True by done.
  apply post_pure; [|unfold checked_add; rewrite decide_True by done; done].
  intros base [-> _]%checked_add_Some.
  apply post_pure; [|unfold checked_add; rewrite decide_True by done; done].
  intros sec [-> _]%checked_add_Some. fold (fat_sec info copy c).
  apply post_try, post_read; [done|by intros d' Hl -> Hn|].
  intros d1 Hl1 Hd1 Hh1. pose proof (fat_off_bound c) as Hoff. rewrite decide_False by lia.
  fold (fat_raw info copy (disk d) c). apply post_bind, post_write; [by rewrite Hd1|by apply patch_is_sector| |].
  - intros d2 r Hl2 -> Hn Hd2. cbn [negb]. apply post_ret. split; [by transitivity d1|].
    split; [by apply (not_dependable_before d d1)|]. intros s Hs. rewrite Hd1 in Hd2.
    destruct Hd2 as [->|(y & _ & ->)]; [done|]. rewrite sector_at_insert, decide_False; [done|].
    intros <-. by apply Hs, fat_sec_region; [| |lia].
  - intros d2 r Hl2 -> _ Hd2. cbn [negb]. rewrite Hd1 in Hd2.
    assert (disk d2 = patch_copy info c (N.land v FAT_MASK) copy (disk d)) as Hp by exact Hd2.
    eapply post_mono; [apply (IH (copy + 1)%N)|]; [rewrite Hp; by apply patch_copy_wf|done|lia|].
    intros [[p|]|] d3 [Hl3 H3]; (split; [by transitivity d1; [|transitivity d2]|]); [| |done].
    + destruct H3 as [-> ->]. cbn [patch_copies]. rewrite Hp. split; [done|].
      rewrite decide_False by lia. destruct (decide (copy = 0)%N) as [->|]; [|rewrite decide_False by tauto; done].
      by rewrite decide_True.
    + destruct H3 as [Hn H3]. split.
      { apply (not_dependable_before d d1); [done|]. by apply (not_dependable_before d1 d2). }
      intros s Hs. rewrite H3, Hp by done. unfold patch_copy. rewrite sector_at_insert, decide_False; [done|].
      intros <-. by apply Hs, fat_sec_region; [| |lia].
Qed.

(** The effect of a successful [write_fat_entry]: every copy's entry of [c], and
    no other entry, takes the value. *)
Record fat_updated (c v : N) (m m' : Disk) : Prop := {
  upd_copies copy c' : (copy < num_fats info)%N → in_fat info c' →
    fat_raw info copy m' c' =
      if decide (c' = c) then patch_entry (fat_raw info copy m c) (N.land v FAT_MASK) else fat_raw info copy m c';
  upd_outside : outside_same m m';
}.

Lemma fat_after c v m m' c' :
  fat_updated c v m m' → in_fat info c' →
  fat info m' c' = if decide (c' = c) then N.land v FAT_MASK else fat info m c'.
Proof.
  intros [Hu _] Hc'. unfold fat. rewrite Hu; [|destruct Hvol as [[] _ _ _]; lia|done].
  case_decide; [apply patch_entry_mask|done].
Qed.

Lemma in_fat_cluster c : in_fat info c → (c * 4 ≤ u32_max ∧ c < 0x0FFFFFF8)%N.
Proof. unfold in_fat, u32_max. pose proof (vol_fat_size _ Hvol). lia. Qed.

Lemma patch_copies_outside c v m : in_fat info c →
  ∀ s, ¬ in_fat_region info s →
  sector_at (patch_copies info c v (N.to_nat (num_fats info)) 0 m) s = sector_at m s.
Proof.
  intros Hc s Hs. apply patch_copies_other. intros k Hk <-. apply Hs.
  apply fat_sec_region; [by destruct Hvol|done|lia].
Qed.

Lemma post_write_fat_entry c v d :
  disk_wf (disk d) → in_fat info c →
  post (write_fat_entry info c v) d (λ r d',
    later d d' ∧
    match r with
    | Panicked => False
    | Val true => fat_updated c v (disk d) (disk d') ∧
        (dependable d → sector_at (disk d') (fsinfo_sector info) =
           hint_after (fat info (disk d) c) (N.land v FAT_MASK) (sector_at (disk d) (fsinfo_sector info)))
    | Val false => ¬ dependable d ∧ outside_same (disk d) (disk d')
    end).
Proof.
  intros Hw Hc. unfold write_fat_entry. pose proof (in_fat_cluster c Hc) as [Hmax _].
  unfold checked_mul at 1. rewrite decide_True by done.
  destruct (fat_geometry info c (vol_bps _ Hvol)) as [-> ->].
  set (n := N.to_nat (num_fats info)).
  assert (0 + N.of_nat n = num_fats info)%N as Hn by lia.
  assert (n ≠ 0%nat) as Hn0 by (destruct Hvol as [[] _ _ _]; lia).
  apply post_bind. eapply post_mono; [by apply post_write_fat_copies|].
  intros [[p|]|] d1 [Hl1 H1]; [| |done].
  2:{ apply post_ret. split; [done|]. destruct H1 as [Hnd H1]. split; [done|]. intros s Hs _. by apply H1. }
  destruct H1 as [Hd1 ->]. rewrite decide_True by done.
  assert (∀ d2, later d1 d2 → (∀ s, s ≠ fsinfo_sector info → sector_at (disk d2) s = sector_at (disk d1) s) →
    later d d2 ∧ fat_updated c v (disk d) (disk d2)) as Hfin.
  { intros d2 Hl2 H2. split; [by transitivity d1|]. split.
    - intros copy c' Hcopy Hc'. unfold fat_raw at 1. rewrite H2.
      + fold (fat_raw info copy (disk d1) c'). rewrite Hd1, fat_raw_patch_copies by done.
        repeat case_decide; try done; naive_solver lia.
      + intros Heq. apply fsinfo_outside. rewrite <-Heq. by apply fat_sec_region; [destruct Hvol| |].
    - intros s Hs Hf. rewrite H2, Hd1 by done. by apply patch_copies_outside. }
  assert (sector_at (disk d1) (fsinfo_sector info) = sector_at (disk d) (fsinfo_sector info)) as Hfs.
  { rewrite Hd1. apply patch_copies_outside; [done|apply fsinfo_outside]. }
  assert (disk_wf (disk d1)) as Hw1 by (by apply (later_wf _ _ Hl1)).
  unfold hint_after, transition.
  destruct (bool_decide (fat info (disk d) c = 0%N)), (bool_decide (N.land v FAT_MASK = 0%N)); apply post_bind;
    [| | |].
  all: try (apply post_ret, post_ret; destruct (Hfin d1 ltac:(done) ltac:(done)); by split_and!).
  all: (eapply post_mono; [by apply post_adjust|]; intros r d2 (-> & Hl2 & Hs & Hhint); apply post_ret;
    destruct (Hfin d2 Hl2 Hs); split_and!; [done|done|]; intros Hdep; rewrite <-Hfs; apply Hhint;
    by apply (later_dependable _ _ Hl1)).
Qed.

(** ** Reading the FAT *)

Lemma fat_entry_at_view m s c :
  disk_wf m → s = fat_sec info 0 c → fat_entry_at (sector_at m s) (c mod 128) = Some (fat info m c).
Proof.
  intros Hm ->. pose proof (N.mod_lt c 128 ltac:(done)) as Hlt.
  apply fat_entry_at_Some; [unfold u32_max; lia|]. pose proof (sector_window m (fat_sec info 0 c) Hm) as Hl.
  rewrite Hl. split; [unfold SECTOR_SIZE; lia|done].
Qed.

Lemma fat_sec_first c : fat_sec info 0 c = (fat_start_sector info + c / 128)%N.
Proof. unfold fat_sec. lia. Qed.

Lemma fat_sec_fits c : in_fat info c → (fat_start_sector info + c / 128 ≤ u32_max)%N.
Proof.
  intros Hc. destruct Hvol as [Hwf _ _ _]. pose proof (fat_sec_region info 0 c Hwf Hc ltac:(destruct Hwf; lia)) as Hr.
  rewrite fat_sec_first in Hr. unfold in_fat_region in Hr. destruct Hwf. lia.
Qed.

Lemma post_next_cluster c d :
  disk_wf (disk d) → in_fat info c →
  post (next_cluster_in_chain info c) d (λ r d',
    later d d' ∧ disk d' = disk d ∧
    match r with
    | Panicked => False
    | Val None => ¬ dependable d
    | Val (Some v) => v = fat info (disk d) c
    end).
Proof.
  intros Hw Hc. unfold next_cluster_in_chain. destruct (in_fat_cluster c Hc) as [Hmax _].
  apply post_pure; [|unfold checked_mul; rewrite decide_True by done; done].
  intros off [-> _]%checked_mul_Some. destruct (fat_geometry info c (vol_bps _ Hvol)) as [-> ->].
  apply post_pure; [|unfold checked_add; rewrite decide_True by (by apply fat_sec_fits); done].
  intros sec [-> _]%checked_add_Some. apply post_try, post_read; [done|by intros d' Hl Hd Hn|].
  intros d' Hl Hd _. apply post_ret.
  replace (fat_off c / 4)%N with (c mod 128)%N by (unfold fat_off; by rewrite N.mul_comm, N.div_mul).
  rewrite fat_entry_at_view; [done|done|by rewrite fat_sec_first].
Qed.

Lemma post_scan_fat n index d :
  disk_wf (disk d) → (index + N.of_nat n = fat_size_32 info)%N →
  post (scan_fat info n index) d (λ r d',
    later d d' ∧ disk d' = disk d ∧
    match r with
    | Panicked => False
    | Val (Some c) => (index * 128 ≤ c ∧ 2 ≤ c)%N ∧ in_fat info c ∧ fat info (disk d) c = 0%N ∧
        ∀ c', (index * 128 ≤ c' < c → 2 ≤ c' → fat info (disk d) c' ≠ 0)%N
    | Val None => dependable d → ∀ c', (index * 128 ≤ c')%N → (2 ≤ c')%N → in_fat info c' → fat info (disk d) c' ≠ 0%N
    end).
Proof.
  revert index d. induction n as [|n IH]; intros index d Hw Hi; cbn [scan_fat].
  { apply post_ret. split_and!; [done|done|]. intros _ c' Hc' _ Hin. unfold in_fat in Hin. lia. }
  assert (∀ e, e < 128 → (index * 128 + e) / 128 = index ∧ (index * 128 + e) mod 128 = e)%N as Hsplit.
  { intros e He. rewrite N.add_comm, N.div_add, N.div_small by lia. split; [lia|].
    rewrite N.Div0.mod_add. by apply N.mod_small. }
  assert (in_fat info (index * 128)) as Hin by (unfold in_fat; lia).
  pose proof (fat_sec_fits _ Hin) as Hfits. destruct (Hsplit 0%N ltac:(done)) as [Hq _]. rewrite N.add_0_r in Hq.
  rewrite Hq in Hfits. apply post_pure; [|unfold checked_add; rewrite decide_True by done; done].
  intros sec [-> _]%checked_add_Some. apply post_try, post_read; [done| |].
  { intros d' Hl Hd Hn. split_and!; [done|done|]. by intros ?. }
  intros d1 Hl1 Hd1 _. rewrite (vol_bps _ Hvol). change (SECTOR_SIZE / 4)%N with 128%N.
  assert (∀ e, (e < 128)%N → fat_entry_at (sector_at (disk d) (fat_start_sector info + index)) e =
    Some (fat info (disk d) (index * 128 + e))) as Hview.
  { intros e He. destruct (Hsplit e He) as [Hd' Hm]. rewrite <-Hm at 1. apply fat_entry_at_view; [done|].
    by rewrite fat_sec_first, Hd'. }
  unfold first_free_cluster_in_fat_sector.
  destruct (first_free_from _ index 128 (N.to_nat 128) 0) as [c|] eqn:Hf.
  - apply post_ret. apply first_free_from_Some in Hf as (e & He & -> & Hc & Hz & Hbefore).
    rewrite Hview in Hz by lia. injection Hz as Hz. split_and!; [done|done|lia|lia|unfold in_fat; lia|done|].
    intros c' Hc' H2 Hz'. replace c' with (index * 128 + (c' - index * 128))%N in Hz' by lia.
    apply (Hbefore (c' - index * 128)%N); [lia|lia|]. rewrite Hview by lia. by rewrite Hz'.
  - pose proof (proj1 (first_free_None (sector_at (disk d) (fat_start_sector info + index)) index 128
      ltac:(pose proof (vol_fat_size _ Hvol); unfold u32_max; lia)) Hf) as Hnone.
    assert (∀ c', (index * 128 ≤ c' < (index + 1) * 128 → 2 ≤ c' → fat info (disk d) c' ≠ 0)%N) as Hrow.
    { intros c' Hc' H2 Hz. apply (Hnone (c' - index * 128)%N); [lia|lia|]. rewrite Hview by lia.
      by replace (index * 128 + (c' - index * 128))%N with c' by lia; rewrite Hz. }
    eapply post_mono; [apply (IH (index + 1)%N)|]; [by rewrite Hd1|lia|].
    rewrite Hd1. intros [[c|]|] d2 (Hl2 & Hd2 & H2); (split; [by transitivity d1|split; [by rewrite Hd2|]]); [| |done].
    + destruct H2 as ([Hlo H2] & Hinc & Hz & Hbefore). split_and!; [lia|lia|done|done|].
      intros c' Hc' H2'. destruct (decide (c' < (index + 1) * 128)%N); [apply Hrow; lia|apply Hbefore; lia].
    + intros Hdep c' Hc' H2' Hinc. destruct (decide (c' < (index + 1) * 128)%N); [apply Hrow; lia|].
      apply H2; [by apply (later_dependable _ _ Hl1)|lia|done|done].
Qed.

(** ** The free-cluster hint *)

(** The clusters of the FAT, and how many of them are free. *)
Definition clusters : list N := (λ i, N.of_nat (2 + i)) <$> seq 0 (N.to_nat (128 * fat_size_32 info) - 2).
Definition free_total (m : Disk) : N := len (filter (λ c, fat info m c = 0%N) clusters).

(** The FSInfo sector states exactly the number of free clusters. *)
Definition hint_exact (m : Disk) : Prop :=
  ∃ fi, fsinfo_parse (sector_at m (fsinfo_sector info)) = Some fi ∧ free_count fi = free_total m.

Lemma elem_of_clusters c : c ∈ clusters ↔ (2 ≤ c)%N ∧ in_fat info c.
Proof.
  unfold clusters, in_fat. rewrite list_elem_of_fmap. split.
  - intros (i & -> & Hi%elem_of_seq). lia.
  - intros [H2 Hc]. exists (N.to_nat c - 2)%nat. split; [lia|]. apply elem_of_seq. lia.
Qed.

Lemma clusters_nodup : NoDup clusters.
Proof. apply NoDup_fmap_2; [intros i j; lia|apply NoDup_seq]. Qed.

(** Counting after a change at one element. *)
Lemma count_change {A} `{EqDecision A} (P Q : A → Prop) `{∀ x, Decision (P x)} `{∀ x, Decision (Q x)} (l : list A) x :
  NoDup l → x ∈ l → (∀ y, y ∈ l → y ≠ x → P y ↔ Q y) →
  (length (filter P l) + (if decide (Q x) then 1 else 0) = length (filter Q l) + (if decide (P x) then 1 else 0))%nat.
Proof.
  induction l as [|y l IH]; intros Hnd Hx Hsame; [set_solver|].
  apply NoDup_cons in Hnd as [Hy Hnd]. destruct (decide (y = x)) as [->|Hne].
  - assert (filter P l = filter Q l) as Heq.
    { assert (∀ z, z ∈ l → P z ↔ Q z) as Hl by (intros z Hz; apply Hsame; set_solver).
      clear -Hl. induction l as [|z l IH]; [done|]. rewrite !filter_cons.
      pose proof (Hl z ltac:(set_solver)). rewrite IH by set_solver. repeat case_decide; tauto. }
    rewrite !filter_cons, Heq. repeat case_decide; cbn; lia.
  - assert (P y ↔ Q y) as Hpq by (apply Hsame; set_solver).
    specialize (IH Hnd ltac:(set_solver) ltac:(set_solver)). rewrite !filter_cons.
    destruct (decide (P y)), (decide (Q y)); try tauto; cbn; lia.
Qed.

Lemma free_total_bound m : (free_total m ≤ 0x0FFFFF80)%N.
Proof.
  unfold free_total, len. pose proof (length_filter (λ c, fat info m c = 0%N) clusters) as Hl.
  assert (length clusters = N.to_nat (128 * fat_size_32 info) - 2)%nat as Hc
    by (unfold clusters; by rewrite length_fmap, length_seq).
  pose proof (vol_fat_size _ Hvol). lia.
Qed.

Lemma free_total_after c v m m' :
  fat_updated c v m m' → (2 ≤ c)%N → in_fat info c →
  (free_total m' + (if decide (fat info m c = 0) then 1 else 0) =
   free_total m + (if decide (N.land v FAT_MASK = 0) then 1 else 0))%N.
Proof.
  intros Hupd H2 Hc.
  pose proof (count_change (λ c, fat info m' c = 0%N) (λ c, fat info m c = 0%N) clusters c clusters_nodup
    (proj2 (elem_of_clusters c) (conj H2 Hc))) as Hcount.
  cbn beta in Hcount. rewrite (fat_after c v m m' c), (decide_True (P := c = c)) in Hcount by done.
  unfold free_total, len. specialize (Hcount ltac:(intros y [_ Hy]%elem_of_clusters Hne;
    by rewrite (fat_after c v m m' y Hupd Hy), decide_False)).
  repeat case_decide; lia.
Qed.

Lemma fsinfo_words m fi :
  disk_wf m → fsinfo_parse (sector_at m (fsinfo_sector info)) = Some fi →
  (free_count fi < 256 ^ 4 ∧ next_free fi < 256 ^ 4)%N.
Proof.
  intros Hm. destruct (sector_at_wf m (fsinfo_sector info) Hm) as [_ Hb].
  unfold fsinfo_parse. repeat (case_decide; [done|]). intros [= <-]. cbn. split; by apply word_at_lt.
Qed.

(** Every transition moves the hint with the FAT. *)
Lemma hint_exact_after c v m m' :
  disk_wf m → fat_updated c v m m' → (2 ≤ c)%N → in_fat info c →
  sector_at m' (fsinfo_sector info) =
    hint_after (fat info m c) (N.land v FAT_MASK) (sector_at m (fsinfo_sector info)) →
  hint_exact m → hint_exact m'.
Proof.
  intros Hm Hupd H2 Hc Hs (fi & Hp & Hfi). pose proof (free_total_after _ _ _ _ Hupd H2 Hc) as Hcount.
  pose proof (free_total_bound m) as Hb. pose proof (free_total_bound m') as Hb'.
  destruct (fsinfo_words m fi Hm Hp) as [_ Hnext]. pose proof (sector_window m (fsinfo_sector info) Hm) as Hl.
  unfold hint_exact. rewrite Hs. unfold hint_after, transition.
  assert (∀ delta, free_total m' = adjusted_count delta (free_count fi) →
    ∃ fi', fsinfo_parse (hint_sector delta (sector_at m (fsinfo_sector info))) = Some fi' ∧
      free_count fi' = free_total m') as Hmove.
  { intros delta Hd. unfold hint_sector. rewrite Hp. rewrite decide_False by (unfold FSINFO_UNKNOWN; lia).
    eexists. split; [eapply fsinfo_parse_encode; [exact Hl|exact Hp|cbn; lia]|]. by rewrite Hd. }
  destruct (decide (fat info m c = 0%N)) as [Hz|Hz], (decide (N.land v FAT_MASK = 0%N)) as [Hv|Hv].
  - rewrite !bool_decide_eq_true_2 by done. rewrite decide_True by done. exists fi. split; [done|lia].
  - rewrite bool_decide_eq_true_2, bool_decide_eq_false_2 by done. rewrite decide_False by done.
    apply Hmove. unfold adjusted_count. rewrite decide_True by lia. unfold saturating_sub. cbn. lia.
  - rewrite bool_decide_eq_false_2, bool_decide_eq_true_2 by done. rewrite decide_False by done.
    apply Hmove. unfold adjusted_count, saturating_add, u32_max. rewrite decide_False by lia. cbn. lia.
  - rewrite !bool_decide_eq_false_2 by done. rewrite decide_True by done. exists fi. split; [done|lia].
Qed.

(** [d'] is later than [d] and, on a dependable device, an exact hint stays so. *)
Record moves (d d' : BlkDevice) : Prop := {
  moves_later : later d d';
  moves_hint : dependable d → disk_wf (disk d) → hint_exact (disk d) → hint_exact (disk d');
}.

#[global] Instance moves_preorder : PreOrder moves.
Proof.
  split; [by intros d; split|]. intros d1 d2 d3 [Hl Hh] [Hl' Hh']. split; [by transitivity d2|].
  intros Hd Hw He. apply Hh'; [by apply (later_dependable _ _ Hl)|by apply (later_wf _ _ Hl)|auto].
Qed.

Lemma moves_dependable d d' : moves d d' → dependable d → dependable d'.
Proof. intros [Hl _]. apply (later_dependable _ _ Hl). Qed.

Lemma moves_wf d d' : moves d d' → disk_wf (disk d) → disk_wf (disk d').
Proof. intros [Hl _]. apply (later_wf _ _ Hl). Qed.

Lemma moves_read d d' : later d d' → disk d' = disk d → moves d d'.
Proof. intros Hl Hd. split; [done|]. by rewrite Hd. Qed.

Lemma post_write_fat_entry_moves c v d :
  disk_wf (disk d) → (2 ≤ c)%N → in_fat info c →
  post (write_fat_entry info c v) d (λ r d',
    moves d d' ∧
    match r with
    | Panicked => False
    | Val true => fat_updated c v (disk d) (disk d')
    | Val false => ¬ dependable d ∧ outside_same (disk d) (disk d')
    end).
Proof.
  intros Hw H2 Hc. eapply post_mono; [by apply post_write_fat_entry|].
  intros [[|]|] d' [Hl H]; [| |done].
  - destruct H as [Hupd Hhint]. split; [|done]. split; [done|]. intros Hdep _.
    eapply hint_exact_after; eauto.
  - split; [|done]. split; [done|]. intros Hdep. by destruct H.
Qed.

End specs.
