(* ===== verification/FatAlloc.v ===== *)
(** * FatAlloc: allocating chains of clusters

    What [allocate_free_cluster], [free_clusters] and [allocate_cluster_chain] of
    [blk-driver-host/src/main.rs] do to the FAT: the clusters handed out were
    free, are distinct and form one chain; a refused request leaves the FAT as it
    was. *)

From S2P Require Import Prelude Bytes Fat BlkDev FatOps.

Section alloc.
Context `{HW : BlkHardware} (info : BootSectorInfo) (Hvol : volume_ok info).

(** A cluster number a chain may use. *)
Definition usable (c : N) : Prop := (2 ≤ c)%N ∧ in_fat info c.

(** A cluster the driver may hand out. *)
Definition allocatable (m : Disk) (c : N) : Prop := (2 ≤ c)%N ∧ in_fat info c ∧ fat info m c = 0%N.

Lemma post_allocate_free_cluster d :
  disk_wf (disk d) →
  post (allocate_free_cluster info) d (λ r d',
    moves info d d' ∧ disk d' = disk d ∧
    match r with
    | Panicked => False
    | Val (Some c) => allocatable (disk d) c ∧ ∀ c', allocatable (disk d) c' → (c ≤ c')%N
    | Val None => dependable d → ∀ c, ¬ allocatable (disk d) c
    end).
Proof.
  intros Hw. unfold allocate_free_cluster. eapply post_mono; [apply post_scan_fat; [done|done|lia]|].
  intros [[c|]|] d' (Hl & Hd & H); (split; [by apply moves_read|split; [done|]]); [| |done].
  - destruct H as ([_ H2] & Hin & Hz & Hbefore). split; [done|]. intros c' (H2' & Hin' & Hz').
    destruct (decide (c ≤ c')%N); [done|]. destruct (Hbefore c'); [lia|done|done].
  - intros Hdep c (H2 & Hin & Hz). by apply (H Hdep c); [lia|..].
Qed.

(** Rolling back frees exactly the listed clusters. *)
Lemma post_free_clusters cs d :
  disk_wf (disk d) → Forall usable cs →
  post (free_clusters info cs) d (λ r d',
    moves info d d' ∧ outside_same info (disk d) (disk d') ∧
    match r with
    | Panicked => False
    | Val () => dependable d → ∀ c, in_fat info c →
        fat info (disk d') c = if decide (c ∈ cs) then 0%N else fat info (disk d) c
    end).
Proof.
  revert d. induction cs as [|c0 cs IH]; intros d Hw Hcs; cbn [free_clusters].
  { apply post_ret. split_and!; [done|done|]. intros _ c _. rewrite decide_False; [done|set_solver]. }
  apply Forall_cons in Hcs as [[Hc0 Hin0] Hcs]. apply post_bind.
  eapply post_mono; [by apply post_write_fat_entry_moves|]. intros [ok|] d1 [Hl1 H1]; [|done].
  eapply post_mono; [apply IH; [by apply (moves_wf info _ _ Hl1)|done]|].
  assert (outside_same info (disk d) (disk d1)) as Hout by (destruct ok; apply H1).
  intros [[]|] d2 (Hl2 & Ho2 & H2); [|done].
  split_and!; [by transitivity d1|by transitivity (disk d1)|].
  intros Hdep c Hc. rewrite (H2 (moves_dependable info _ _ Hl1 Hdep)) by done.
  destruct ok; [|by destruct H1]. rename H1 into Hupd.
  rewrite (fat_after info Hvol c0 0 (disk d)) by done. repeat case_decide; try done; set_solver.
Qed.

(** From the medium [m0], the clusters [cs] were free and are now each their own
    chain; nothing else of the FAT changed. *)
Record reserved (m0 : Disk) (cs : list N) (m : Disk) : Prop := {
  res_nodup : NoDup cs;
  res_free : Forall (allocatable m0) cs;
  res_fat c : in_fat info c → fat info m c = if decide (c ∈ cs) then CHAIN_EOC_MARKER else fat info m0 c;
  res_outside : outside_same info m0 m;
}.

Lemma reserved_nil m : reserved m [] m.
Proof.
  split; [constructor|constructor| |done]. intros c _. rewrite decide_False; [done|set_solver].
Qed.

Lemma reserved_snoc m0 cs m m' c :
  reserved m0 cs m → allocatable m c → fat_updated info c CHAIN_EOC_MARKER m m' →
  reserved m0 (cs ++ [c]) m'.
Proof.
  intros [Hnd Hfree Hfat Hout] (H2 & Hin & Hz) Hupd.
  rewrite Hfat in Hz by done. case_decide as Hc; [done|]. split.
  - apply NoDup_app. split_and!; [done|set_solver|apply NoDup_singleton].
  - apply Forall_app. split; [done|]. by repeat constructor.
  - intros c' Hc'. rewrite (fat_after info Hvol _ _ _ _ _ Hupd) by done.
    change (N.land CHAIN_EOC_MARKER FAT_MASK) with CHAIN_EOC_MARKER. rewrite Hfat by done.
    repeat case_decide; try done; set_solver.
  - transitivity m; [done|]. by destruct Hupd.
Qed.

Lemma reserved_usable m0 cs m : reserved m0 cs m → Forall usable cs.
Proof. intros [_ Hf _ _]. eapply Forall_impl; [exact Hf|]. by intros c (? & ? & _). Qed.

(** The FAT reads as before, and so does everything outside it. *)
Definition fat_restored (m0 m : Disk) : Prop :=
  (∀ c, in_fat info c → fat info m c = fat info m0 c) ∧ outside_same info m0 m.

(** Rolling back a reservation restores the FAT. *)
Lemma post_rollback m0 cs d :
  disk_wf (disk d) → reserved m0 cs (disk d) →
  post (free_clusters info cs) d (λ r d',
    moves info d d' ∧ r = Val () ∧ outside_same info m0 (disk d') ∧
    (dependable d → fat_restored m0 (disk d'))).
Proof.
  intros Hw Hres. eapply post_mono; [apply post_free_clusters; [done|by eapply reserved_usable]|].
  destruct Hres as [_ Hfree Hfat Hout].
  intros [[]|] d' (Hl & Ho & H); [|done]. split_and!; [done|done|by transitivity (disk d)|].
  intros Hdep. split; [|by transitivity (disk d)]. intros c Hc. rewrite H by done.
  case_decide as Hin; [|by rewrite Hfat, decide_False]. eapply Forall_forall in Hfree; [|exact Hin].
  by destruct Hfree as (_ & _ & ->).
Qed.

Lemma take_insert_snoc {A} (l : list A) (i : nat) x :
  (i < length l)%nat → take (S i) (<[i := x]> l) = take i l ++ [x].
Proof.
  intros Hi. rewrite (take_S_r _ _ x) by (by apply list_lookup_insert_eq). by rewrite take_insert_ge.
Qed.

(** The free clusters of [m0] are too few. *)
Definition exhausted (m0 : Disk) (count : nat) : Prop :=
  ∃ cs, (length cs < count)%nat ∧ ∀ c, allocatable m0 c → c ∈ cs.

Lemma post_reserve_clusters m0 n k out d :
  disk_wf (disk d) → (k + n ≤ length out)%nat → reserved m0 (take k out) (disk d) →
  post (reserve_clusters info n k out) d (λ r d',
    moves info d d' ∧
    match r with
    | Panicked => False
    | Val (true, out') => length out' = length out ∧ reserved m0 (take (k + n) out') (disk d')
    | Val (false, out') => outside_same info m0 (disk d') ∧
        (dependable d → fat_restored m0 (disk d') ∧ exhausted m0 (k + n))
    end).
Proof.
  revert k out d. induction n as [|n IH]; intros k out d Hw Hlen Hres; cbn [reserve_clusters].
  { apply post_ret. rewrite Nat.add_0_r. by split_and!. }
  assert (length (take k out) = k) as Hk by (rewrite length_take; lia).
  apply post_bind. eapply post_mono; [by apply post_allocate_free_cluster|].
  intros [[c|]|] d1 (Hl1 & Hd1 & H1); [| |done].
  - destruct H1 as [Halloc _]. apply post_bind. eapply post_mono.
    { apply (post_write_fat_entry_moves info Hvol c CHAIN_EOC_MARKER); [by rewrite Hd1|apply Halloc..]. }
    rewrite Hd1. intros [[|]|] d2 [Hl2 H2]; [| |done]; cbn [negb].
    + rename H2 into Hupd. eapply post_mono.
      { apply (IH (S k) (<[k := c]> out)); [by apply (moves_wf info _ _ Hl2); rewrite Hd1|rewrite length_insert; lia|].
        rewrite take_insert_snoc by lia. by eapply reserved_snoc. }
      rewrite length_insert, Nat.add_succ_comm. intros [[[|] out']|] d3 [Hl3 H3]; [| |done];
        (split; [by transitivity d1; [|transitivity d2]|]); [done|].
      destruct H3 as [Ho H3]. split; [done|]. intros Hdep. apply H3.
      apply (moves_dependable info _ _ Hl2), (moves_dependable info _ _ Hl1), Hdep.
    + destruct H2 as [Hnd Hout]. apply post_bind.
      eapply post_mono; [apply post_free_clusters|].
      { by apply (moves_wf info _ _ Hl2); rewrite Hd1. } { by eapply reserved_usable. }
      intros [[]|] d3 (Hl3 & Ho3 & H3); [|done]. apply post_ret.
      split; [by transitivity d1; [|transitivity d2]|]. split.
      * transitivity (disk d); [apply Hres|by transitivity (disk d2)].
      * intros Hdep. destruct Hnd. by apply (moves_dependable info _ _ Hl1).
  - apply post_bind. eapply post_mono.
    { apply (post_rollback m0); [by rewrite Hd1|by rewrite Hd1]. }
    intros r d2 (Hl2 & -> & Ho & Hr). apply post_ret. split; [by transitivity d1|]. split; [done|].
    intros Hdep. pose proof (moves_dependable info _ _ Hl1 Hdep) as Hdep1. split; [by apply Hr|].
    exists (take k out). split; [lia|]. intros c (H2 & Hin & Hz). destruct (decide (c ∈ take k out)) as [|Hc]; [done|].
    destruct (H1 Hdep c). split_and!; [done|done|]. by rewrite (res_fat _ _ _ Hres), decide_False.
Qed.

(** Linking a list of distinct clusters writes each its value. *)
Lemma post_link_clusters all links d :
  disk_wf (disk d) → NoDup links.*1 → Forall usable links.*1 → Forall usable all →
  Forall (λ l, l.2 < 2 ^ 28)%N links →
  post (link_clusters info all links) d (λ r d',
    moves info d d' ∧ outside_same info (disk d) (disk d') ∧
    match r with
    | Panicked => False
    | Val true => (∀ c v, (c, v) ∈ links → fat info (disk d') c = v) ∧
        (∀ c, in_fat info c → c ∉ links.*1 → fat info (disk d') c = fat info (disk d) c)
    | Val false => ¬ dependable d
    end).
Proof.
  revert d. induction links as [|[c v] links IH]; intros d Hw Hnd Hin Hall Hsmall; cbn [link_clusters].
  { apply post_ret. split_and!; [done|done|set_solver|done]. }
  cbn in Hnd, Hin. apply NoDup_cons in Hnd as [Hc Hnd]. apply Forall_cons in Hin as [[Hc2 Hcin] Hin].
  apply Forall_cons in Hsmall as [Hv Hsmall]. cbn in Hv.
  apply post_bind. eapply post_mono; [by apply post_write_fat_entry_moves|]. intros [[|]|] d1 [Hl1 H1]; [| |done]; cbn [negb].
  - rename H1 into Hupd. eapply post_mono; [by apply IH; [apply (moves_wf info _ _ Hl1)|..]|].
    intros r d2 (Hl2 & Ho2 & H2).
    split_and!; [by transitivity d1|transitivity (disk d1); [apply Hupd|done]|].
    destruct r as [[|]|]; [| |done].
    + destruct H2 as [Hset Hsame]. split.
      * intros c' v' [[= -> ->]|Hin']%elem_of_cons; [|by apply Hset].
        rewrite Hsame by done. rewrite (fat_after info Hvol _ _ _ _ _ Hupd), decide_True by done. by apply mask_small.
      * intros c' Hc' Hnin. cbn in Hnin. rewrite Hsame by set_solver.
        rewrite (fat_after info Hvol _ _ _ _ _ Hupd) by done. rewrite decide_False; [done|set_solver].
    + intros Hdep. apply H2. by apply (moves_dependable info _ _ Hl1).
  - destruct H1 as [Hn Ho]. apply post_bind.
    eapply post_mono; [by apply post_free_clusters; [apply (moves_wf info _ _ Hl1)|]|].
    intros [[]|] d2 (Hl2 & Ho2 & H2); [|done]. apply post_ret.
    split_and!; [by transitivity d1|by transitivity (disk d1)|done].
Qed.

(** [cs] is one chain of the FAT. *)
Definition chained (m : Disk) (cs : list N) : Prop :=
  ∀ (i : nat) c, cs !! i = Some c → fat info m c = default CHAIN_EOC_MARKER (cs !! S i).

Lemma link_values_small cs : Forall usable cs → Forall (λ l, l.2 < 2 ^ 28)%N (chain_link_values cs).
Proof.
  intros Hcs. apply Forall_lookup_2. intros i [c v] Hi.
  assert (∃ c', cs !! i = Some c') as [c' Hc'].
  { apply lookup_lt_is_Some. rewrite <-(chain_link_fst cs), length_fmap. by eapply lookup_lt_Some. }
  rewrite (chain_link_lookup _ _ _ Hc') in Hi. injection Hi as <- <-. cbn.
  destruct (cs !! S i) as [x|] eqn:Hx; [|done]. eapply Forall_lookup_1 in Hcs; [|exact Hx].
  destruct (in_fat_cluster info Hvol x (proj2 Hcs)). cbn. lia.
Qed.

Lemma post_allocate_cluster_chain count out d :
  disk_wf (disk d) → (1 ≤ count ≤ length out)%nat →
  post (allocate_cluster_chain info count out) d (λ r d',
    moves info d d' ∧
    match r with
    | Panicked => False
    | Val (true, out') =>
        let cs := take count out' in
        length cs = count ∧ NoDup cs ∧ Forall (allocatable (disk d)) cs ∧ chained (disk d') cs ∧
        (∀ c, in_fat info c → c ∉ cs → fat info (disk d') c = fat info (disk d) c) ∧
        outside_same info (disk d) (disk d')
    | Val (false, _) => outside_same info (disk d) (disk d') ∧
        (dependable d → fat_restored (disk d) (disk d') ∧ exhausted (disk d) count)
    end).
Proof.
  intros Hw Hcount. unfold allocate_cluster_chain. rewrite decide_False by lia. apply post_bind.
  eapply post_mono; [apply (post_reserve_clusters (disk d) count 0 out d); [done|lia|apply reserved_nil]|].
  intros [[[|] out']|] d1 [Hl1 H1]; [| |done]; cbn [negb]; [|apply post_ret; by split].
  destruct H1 as [Hlen Hres]. cbn [Nat.add] in Hres. set (cs := take count out') in *.
  pose proof (reserved_usable _ _ _ Hres) as Hin. apply post_bind. eapply post_mono.
  { apply (post_link_clusters cs (chain_link_values cs)); rewrite ?chain_link_fst; try done;
      [by apply (moves_wf info _ _ Hl1)|apply Hres|by apply link_values_small]. }
  rewrite chain_link_fst. intros r d2 (Hl2 & Ho2 & H2). destruct r as [[|]|]; [| |done]; apply post_ret;
    (split; [by transitivity d1|]).
  - destruct H2 as [Hset Hsame]. fold cs. split_and!.
    + unfold cs. rewrite length_take. lia.
    + apply Hres.
    + apply Hres.
    + intros i c Hi. apply Hset. apply list_elem_of_lookup. exists i. by apply chain_link_lookup.
    + intros c Hc Hnin. rewrite Hsame by done. by rewrite (res_fat _ _ _ Hres), decide_False.
    + transitivity (disk d1); [apply Hres|done].
  - split; [transitivity (disk d1); [apply Hres|done]|]. intros Hdep. destruct H2. by apply (moves_dependable info _ _ Hl1).
Qed.

(** Allocating a chain, on a device that answers: the clusters handed out are
    distinct, were free, and are now one chain ended by the end-of-chain marker,
    no other FAT entry and no sector outside the FATs and FSInfo changed; the
    request is refused only when fewer clusters are free than asked for, and then
    the FAT is back as it was.  Either way an exact free-cluster hint stays
    exact. *)
Theorem allocate_chain_exact count out d :
  disk_wf (disk d) → dependable d → (1 ≤ count ≤ length out)%nat →
  ∃ ok out' d', allocate_cluster_chain info count out d = (Val (ok, out'), d') ∧
    (hint_exact info (disk d) → hint_exact info (disk d')) ∧ outside_same info (disk d) (disk d') ∧
    if ok : bool then
      let cs := take count out' in
      length cs = count ∧ NoDup cs ∧ Forall (allocatable (disk d)) cs ∧ chained (disk d') cs ∧
      (∀ c, in_fat info c → c ∉ cs → fat info (disk d') c = fat info (disk d) c)
    else fat_restored (disk d) (disk d') ∧ exhausted (disk d) count.
Proof.
  intros Hw Hd Hc. pose proof (post_allocate_cluster_chain count out d Hw Hc) as Hp. unfold post in Hp.
  destruct (allocate_cluster_chain info count out d) as [[[ok out']|] d']; cbn in Hp; destruct Hp as [Hm Hp]; [|done].
  exists ok, out', d'. split; [done|]. split; [by apply (moves_hint _ _ _ Hm)|]. destruct ok.
  - destruct Hp as (H1 & H2 & H3 & H4 & H5 & H6). by split_and!.
  - destruct Hp as [H1 H2]. by split; [|apply H2].
Qed.

End alloc.
