(* ===== verification/FatDir.v ===== *)
(** * FatDir: walking directories and reading files

    Model of the chain walks of [blk-driver-host/src/main.rs]:
    [find_entry_in_directory], [find_entry_with_location],
    [find_entry_by_long_name], [read_file_contents] and the lookups by display
    name.  The source repeats one loop nest (clusters of the chain, sectors of the
    cluster, 32-byte chunks of the sector) with different bodies; here the nest is
    [walk_chain] and the bodies are its argument.  The theorems describe the walks
    by the list of slots a directory holds and the bytes a file holds. *)

From S2P Require Import Prelude Bytes Fat BlkDev FatOps.

(** What a loop body does: go on, or return from the function. *)
Inductive Flow (S R : Type) := Continue (s : S) | Return (r : option R).
Arguments Continue {S R} s.
Arguments Return {S R} r.

Definition CHAIN_CAP : nat := 1024.

Section walks.
Context `{HW : BlkHardware} (info : BootSectorInfo).

Section nest.
Context {S R : Type} (body : S → N → nat → list N → Flow S R).

(** [for (index, chunk) in sector.chunks_exact(32).enumerate()] *)
Fixpoint scan_chunks (sector_num : N) (index : nat) (cs : list (list N)) (st : S) : Flow S R :=
  match cs with
  | [] => Continue st
  | chunk :: cs =>
      match body st sector_num index chunk with
      | Continue st => scan_chunks sector_num (Datatypes.S index) cs st
      | Return r => Return r
      end
  end.

(** [for s in 0..sectors_per_cluster], from sector [sector_num]. *)
Fixpoint scan_sectors (n : nat) (sector_num : N) (st : S) : DevM (Flow S R) :=
  match n with
  | O => mret (Continue st)
  | Datatypes.S n =>
      o ← read_sector sector_num;
      match o with
      | None => mret (Return None)
      | Some sector =>
          match scan_chunks sector_num 0 (chunks sector) st with
          | Continue st => scan_sectors n (sector_num + 1) st
          | Return r => mret (Return r)
          end
      end
  end.

Fixpoint walk_chain (fuel : nat) (cluster : N) (st : S) : DevM (option R) :=
  match fuel with
  | O => mret None
  | Datatypes.S fuel =>
      sector0 <-? pure_opt (cluster_to_sector info cluster);
      flow ← scan_sectors (N.to_nat (sectors_per_cluster info)) sector0 st;
      match flow with
      | Return r => mret r
      | Continue st =>
          next <-? next_cluster_in_chain info cluster;
          if is_end_of_chain next then mret None else walk_chain fuel next st
      end
  end.

End nest.

(** ** Lookups *)

Definition short_name_body (target : list N) (_ : ()) (sector_num : N) (index : nat) (chunk : list N)
    : Flow () (ShortDirEntry * N * nat) :=
  if decide (byte_at chunk 0 = 0x00)%N then Return None else
  match parse_short_dir_entry chunk with
  | Some entry => if decide (e_name entry = target) then Return (Some (entry, sector_num, index * 32)) else Continue ()
  | None => Continue ()
  end.

(** [sector_num as u32] wraps. *)
Definition find_entry_with_location (dir_cluster : N) (target : list N) : DevM (option (ShortDirEntry * N * nat)) :=
  let? (entry, sector_num, offset) := walk_chain (short_name_body target) CHAIN_CAP dir_cluster () in
  mret (Some (entry, sector_num mod 2 ^ 32, offset)%N).

Definition find_entry_in_directory (dir_cluster : N) (target : list N) : DevM (option ShortDirEntry) :=
  let? (entry, _, _) := walk_chain (short_name_body target) CHAIN_CAP dir_cluster () in
  mret (Some entry).

Definition MAX_LFN_FRAGMENTS : nat := 5.

Record LfnRun := mkRun {
  fragments : list (list N);
  have : list bool;
  pending_checksum : option N;
  fragment_count : nat;
}.

Definition lfn_start : LfnRun :=
  mkRun (replicate MAX_LFN_FRAGMENTS (replicate 13 0%N)) (replicate MAX_LFN_FRAGMENTS false) None 0.

Definition ascii_case_insensitive_eq (utf16_char ascii_byte : N) : bool :=
  let folded_ascii := to_ascii_lowercase ascii_byte in
  let folded_utf16 := if decide (65 ≤ utf16_char ∧ utf16_char ≤ 90)%N then (utf16_char + 0x20)%N else utf16_char in
  bool_decide (folded_utf16 = folded_ascii).

(** The two nested loops read the characters of the fragments in order. *)
Fixpoint chars_match (cs : list N) (target : list N) : bool :=
  match cs with
  | [] => bool_decide (target = [])
  | c :: cs =>
      if decide (c = 0)%N then bool_decide (target = [])
      else match target with
           | expected :: target => if ascii_case_insensitive_eq c expected then chars_match cs target else false
           | [] => false
           end
  end.

Definition long_name_matches (frags : list (list N)) (target_ascii : list N) : bool :=
  chars_match (concat frags) target_ascii.

(** A fragment outside the array is ignored without ending the run. *)
Definition add_fragment (f : LfnFragment) (run : LfnRun) : LfnRun :=
  let idx := N.to_nat (sequence f - 1) in
  if decide (idx < MAX_LFN_FRAGMENTS)%nat then
    mkRun (<[idx := chars f]> (fragments run)) (<[idx := true]> (have run))
      (if is_last f then Some (checksum f) else pending_checksum run)
      (if is_last f then N.to_nat (sequence f) else fragment_count run)
  else run.

Definition run_accepts (run : LfnRun) (entry : ShortDirEntry) (target : list N) : bool :=
  match pending_checksum run with
  | None => false
  | Some expected =>
      bool_decide (0 < fragment_count run)%nat &&
      forallb (λ i, default false (have run !! i)) (seq 0 (fragment_count run)) &&
      bool_decide (expected = short_name_checksum (e_name entry)) &&
      long_name_matches (take (fragment_count run) (fragments run)) target
  end.

(** [fragments] itself is not cleared when a run ends. *)
Definition end_run (run : LfnRun) : LfnRun :=
  mkRun (fragments run) (replicate MAX_LFN_FRAGMENTS false) None 0.

Definition long_name_body (target : list N) (run : LfnRun) (_ : N) (_ : nat) (chunk : list N)
    : Flow LfnRun ShortDirEntry :=
  if decide (byte_at chunk 0 = 0x00)%N then Return None else
  match parse_lfn_fragment chunk with
  | Some f => Continue (add_fragment f run)
  | None =>
      match parse_short_dir_entry chunk with
      | Some entry => if run_accepts run entry target then Return (Some entry) else Continue (end_run run)
      | None => Continue (end_run run)
      end
  end.

Definition find_entry_by_long_name (dir_cluster : N) (target_ascii : list N) : DevM (option ShortDirEntry) :=
  walk_chain (long_name_body target_ascii) CHAIN_CAP dir_cluster lfn_start.

Definition find_entry_by_display_name (dir_cluster : N) (name : string) : DevM (option ShortDirEntry) :=
  o ← match encode_short_name (as_bytes name) with
      | Some short => find_entry_in_directory dir_cluster short
      | None => mret None
      end;
  match o with
  | Some entry => mret (Some entry)
  | None => find_entry_by_long_name dir_cluster (as_bytes name)
  end.

Definition resolve_single_sector_file (target_name : list N) : DevM (option N) :=
  entry <-? find_entry_in_directory (root_cluster info) target_name;
  mret (cluster_to_sector info (first_cluster entry)).

Definition resolve_single_sector_file_by_name (name : string) : DevM (option N) :=
  short <-? pure_opt (encode_short_name (as_bytes name));
  resolve_single_sector_file short.

(** ** File contents *)

Definition MAX_FILE_BYTES : nat := 4096.

(** [buf[..written]] grows by the sectors of one cluster; [None] is the early
    [return written] on a failed read. *)
Fixpoint read_cluster (read_len : nat) (n : nat) (sector_num : N) (written : list N)
    : DevM (bool * list N) :=
  match n with
  | O => mret (true, written)
  | S n =>
      if decide (read_len ≤ length written)%nat then mret (true, written) else
      o ← read_sector sector_num;
      match o with
      | None => mret (false, written)
      | Some sector =>
          let take_len := Nat.min (read_len - length written) (N.to_nat SECTOR_SIZE) in
          read_cluster read_len n (sector_num + 1) (written ++ take take_len sector)
      end
  end.

Fixpoint read_chain (read_len : nat) (fuel : nat) (cluster : N) (written : list N) : DevM (list N) :=
  match fuel with
  | O => mret written
  | S fuel =>
      if decide (read_len ≤ length written)%nat then mret written else
      match cluster_to_sector info cluster with
      | None => mret written
      | Some sector0 =>
          '(ok, written) ← read_cluster read_len (N.to_nat (sectors_per_cluster info)) sector0 written;
          if negb ok then mret written
          else if decide (read_len ≤ length written)%nat then mret written
          else
            o ← next_cluster_in_chain info cluster;
            match o with
            | None => mret written
            | Some next => if is_end_of_chain next then mret written else read_chain read_len fuel next written
            end
      end
  end.

(** The bytes copied to the front of a buffer of [buf_len] bytes. *)
Definition read_file_contents (entry : ShortDirEntry) (buf_len : nat) : DevM (list N) :=
  let read_len := Nat.min (N.to_nat (file_size entry)) buf_len in
  read_chain read_len CHAIN_CAP (first_cluster entry) [].

End walks.

(** ** What a chain holds *)

(** A slot: sector, index, the 32 bytes. *)
Abbreviation Slot := (N * nat * list N)%type.

Section contents.
Context (info : BootSectorInfo).

(** The FAT value the code reads for [c], whatever [c] is. *)
Definition next_of (m : Disk) (c : N) : option N :=
  off ← checked_mul u32_max c 4;
  sec ← checked_add u32_max (fat_start_sector info) (off / bytes_per_sector info);
  fat_entry_at (sector_at m sec) ((off mod bytes_per_sector info) / 4).

Fixpoint number (s : N) (i : nat) (cs : list (list N)) : list Slot :=
  match cs with [] => [] | c :: cs => (s, i, c) :: number s (S i) cs end.

Fixpoint sector_slots (m : Disk) (n : nat) (s : N) : list Slot :=
  match n with
  | O => []
  | S n => number s 0 (chunks (sector_at m s)) ++ sector_slots m n (s + 1)
  end.

Fixpoint sector_bytes (m : Disk) (n : nat) (s : N) : list N :=
  match n with
  | O => []
  | S n => sector_at m s ++ sector_bytes m n (s + 1)
  end.

(** The clusters a walk from [c] visits, at most [fuel] of them. *)
Fixpoint visited (m : Disk) (fuel : nat) (c : N) : list N :=
  match fuel with
  | O => []
  | S fuel =>
      match cluster_to_sector info c with
      | None => []
      | Some _ =>
          c :: match next_of m c with
               | Some next => if is_end_of_chain next then [] else visited m fuel next
               | None => []
               end
      end
  end.

Definition cluster_slots (m : Disk) (c : N) : list Slot :=
  match cluster_to_sector info c with
  | Some s => sector_slots m (N.to_nat (sectors_per_cluster info)) s
  | None => []
  end.

Definition cluster_bytes (m : Disk) (c : N) : list N :=
  match cluster_to_sector info c with
  | Some s => sector_bytes m (N.to_nat (sectors_per_cluster info)) s
  | None => []
  end.

(** The slots of a directory and the bytes of a chain. *)
Definition dir_slots (m : Disk) (fuel : nat) (c : N) : list Slot := visited m fuel c ≫= cluster_slots m.
Definition chain_bytes (m : Disk) (fuel : nat) (c : N) : list N := visited m fuel c ≫= cluster_bytes m.

End contents.

(** ** The walks, by their slots *)

Section fold.
Context {S R : Type} (body : S → N → nat → list N → Flow S R).

Fixpoint fold_slots (l : list Slot) (st : S) : Flow S R :=
  match l with
  | [] => Continue st
  | (s, i, c) :: l => match body st s i c with Continue st => fold_slots l st | Return r => Return r end
  end.

Lemma fold_slots_app l k st :
  fold_slots (l ++ k) st = match fold_slots l st with Continue st => fold_slots k st | Return r => Return r end.
Proof.
  revert st. induction l as [|[[s i] c] l IH]; intros st; cbn; [done|]. by destruct (body st s i c).
Qed.

Lemma scan_chunks_number s i cs st : scan_chunks body s i cs st = fold_slots (number s i cs) st.
Proof.
  revert i st. induction cs as [|c cs IH]; intros i st; cbn; [done|]. by destruct (body st s i c).
Qed.

End fold.

Definition flow_result {S R} (f : Flow S R) : option R :=
  match f with Continue _ => None | Return r => r end.

Section walk_specs.
Context `{HW : BlkHardware} (info : BootSectorInfo).

(** [d'] differs from [d] only by requests made: the medium is as it was. *)
Definition only_read (d d' : BlkDevice) : Prop := later d d' ∧ disk d' = disk d.

#[global] Instance only_read_preorder : PreOrder only_read.
Proof.
  split; [by intros d|]. intros d1 d2 d3 [Hl Hd] [Hl' Hd']. split; [by transitivity d2|congruence].
Qed.

Lemma only_read_wf d d' : only_read d d' → disk_wf (disk d) → disk_wf (disk d').
Proof. by intros [_ ->]. Qed.

Lemma only_read_dependable d d' : only_read d d' → ¬ dependable d' → ¬ dependable d.
Proof. intros [Hl _]. by apply not_dependable_before. Qed.

Lemma post_next_of c d :
  disk_wf (disk d) →
  post (next_cluster_in_chain info c) d (λ r d',
    only_read d d' ∧
    match r with
    | Panicked => False
    | Val r => (r = next_of info (disk d) c ∧ health d' = health d) ∨ (r = None ∧ ¬ dependable d)
    end).
Proof.
  intros Hw. unfold next_cluster_in_chain, next_of.
  apply post_pure; [intros off ->|intros ->; by split; [|left]]. cbn [mbind option_bind].
  apply post_pure; [intros sec ->|intros ->; by split; [|left]]. cbn [mbind option_bind].
  apply post_try, post_read; [done|intros d' Hl Hd Hn; by split; [|right]|].
  intros d' Hl Hd [_ Hh]. apply post_ret. by split; [|left].
Qed.

Section walk.
Context {S R : Type} (body : S → N → nat → list N → Flow S R).

Lemma post_scan_sectors n s st d :
  disk_wf (disk d) →
  post (scan_sectors body n s st) d (λ r d',
    only_read d d' ∧
    match r with
    | Panicked => False
    | Val f => (f = fold_slots body (sector_slots (disk d) n s) st ∧ health d' = health d ∧
          (∀ x, f = Return (Some x) → health d = Healthy)) ∨ (f = Return None ∧ ¬ dependable d)
    end).
Proof.
  revert s st d. induction n as [|n IH]; intros s st d Hw; cbn [scan_sectors].
  { apply post_ret. by split; [|left]. }
  apply post_bind, post_read; [done|intros d' Hl Hd Hn; apply post_ret; by split; [|right]|].
  intros d1 Hl1 Hd1 [Hh0 Hh1]. cbn [sector_slots]. rewrite scan_chunks_number, fold_slots_app.
  destruct (fold_slots body (number s 0 (chunks (sector_at (disk d) s))) st) as [st'|r];
    [|apply post_ret; by split; [|left]].
  eapply post_mono; [apply IH; by rewrite Hd1|]. intros [f|] d2 [Hr H]; [|done].
  assert (only_read d d1) as Hd by done. split; [by transitivity d1|].
  rewrite Hd1 in H. destruct H as [(-> & Hh & _)|[-> Hn]]; [left; split_and!; [done|congruence|done]|right; split; [done|]].
  by eapply only_read_dependable.
Qed.

(** A walk computes its body's result over the slots of the chain, or [None]
    because the device failed. *)
Lemma post_walk_chain fuel c st d :
  disk_wf (disk d) →
  post (walk_chain info body fuel c st) d (λ r d',
    only_read d d' ∧
    match r with
    | Panicked => False
    | Val r => (r = flow_result (fold_slots body (dir_slots info (disk d) fuel c) st) ∧ health d' = health d ∧
          (∀ x, r = Some x → health d = Healthy)) ∨ (r = None ∧ ¬ dependable d)
    end).
Proof.
  revert c st d. induction fuel as [|fuel IH]; intros c st d Hw; cbn [walk_chain].
  { apply post_ret. by split; [|left]. }
  unfold dir_slots. cbn [visited]. destruct (cluster_to_sector info c) as [s0|] eqn:Hs.
  2:{ apply post_pure; [done|]. intros _. by split; [|left]. }
  apply post_pure; [|done]. intros ? [= <-]. cbn [mbind list_bind]. rewrite fold_slots_app.
  unfold cluster_slots at 1. rewrite Hs. apply post_bind. eapply post_mono; [by apply post_scan_sectors|].
  intros [f|] d1 [Hr1 H1]; [|done].
  destruct H1 as [(-> & Hh1 & Hok)|[-> Hn]]; [|apply post_ret; by split; [|right]].
  destruct (fold_slots body (sector_slots (disk d) _ s0) st) as [st'|r].
  2:{ apply post_ret. split; [done|left]. split_and!; [done|done|]. intros x ->. by eapply Hok. }
  apply post_try. eapply post_mono; [apply post_next_of; by eapply only_read_wf|].
  destruct Hr1 as [Hl1 Hd1]. rewrite Hd1. assert (only_read d d1) as Hr1 by done.
  intros [o|] d2 [Hr2 H2]; [|done]. assert (only_read d d2) as Hr by (by transitivity d1).
  destruct H2 as [[-> Hh2]|[-> Hn]]; [|split; [done|right; split; [done|]]; by eapply (only_read_dependable d d1)].
  assert (health d2 = health d) as Hh by congruence.
  destruct (next_of info (disk d) c) as [next|]; [|by split; [|left]].
  destruct (is_end_of_chain next); [apply post_ret; by split; [|left]|].
  eapply post_mono; [apply IH; by eapply only_read_wf|]. destruct Hr as [Hl Hd]. rewrite Hd.
  intros [r|] d3 [Hr3 H3]; [|done]. split; [by transitivity d2|].
  destruct H3 as [(-> & Hh3 & Hok3)|[-> Hn]].
  { left. split_and!; [done|congruence|]. intros x Hx. rewrite <-Hh. by eapply Hok3. }
  right. split; [done|].
  by eapply (only_read_dependable d d2).
Qed.

End walk.

(** ** Short-name lookup *)

Definition names (target : list N) (c : list N) (e : ShortDirEntry) : Prop :=
  parse_short_dir_entry c = Some e ∧ e_name e = target.

(** [e] is the first entry of that name before the end of the directory. *)
Definition first_named (target : list N) (l : list Slot) (e : ShortDirEntry) (s : N) (i : nat) : Prop :=
  ∃ l1 c l2, l = l1 ++ (s, i, c) :: l2 ∧ names target c e ∧
    Forall (λ x : Slot, byte_at x.2 0 ≠ 0%N ∧ ∀ e', ¬ names target x.2 e') l1.

Lemma fold_short_name target l e s (o : nat) :
  flow_result (fold_slots (short_name_body target) l ()) = Some (e, s, o) ↔
  ∃ i, o = (i * 32)%nat ∧ first_named target l e s i.
Proof.
  induction l as [|[[s0 i0] c0] l IH]; cbn [fold_slots].
  { split; [done|]. intros (i & _ & l1 & c & l2 & Hl & _). by destruct l1. }
  assert (∀ i, first_named target ((s0, i0, c0) :: l) e s i ↔
    (s = s0 ∧ i = i0 ∧ names target c0 e) ∨
    (byte_at c0 0 ≠ 0%N ∧ (∀ e', ¬ names target c0 e') ∧ first_named target l e s i)) as Hcons.
  { intros i. split.
    - intros ([|x l1] & c & l2 & Hl & Hn & Hb); [injection Hl as -> -> -> _; by left|].
      injection Hl as <- ->. apply Forall_cons in Hb as [[Hb1 Hb2] Hb]. right. split_and!; [done|done|].
      by exists l1, c, l2.
    - intros [(-> & -> & Hn)|(Hb & Hn & l1 & c & l2 & -> & Hc & Hf)].
      + by exists [], c0, l.
      + exists ((s0, i0, c0) :: l1), c, l2. split_and!; [done|done|]. by constructor. }
  setoid_rewrite Hcons. unfold short_name_body at 1. unfold names in *. case_decide as Hz.
  - split; [done|]. intros (i & _ & [(_ & _ & Hp & _)|[? _]]); [|done].
    unfold parse_short_dir_entry in Hp. rewrite decide_True in Hp; [done|by left].
  - destruct (parse_short_dir_entry c0) as [e0|] eqn:Hp; [case_decide as Hn|].
    + cbn [flow_result]. split.
      * intros [= <- <- <-]. exists i0. split; [done|]. by left.
      * intros (i & -> & [(-> & -> & [= ->] & _)|(_ & Hno & _)]); [done|]. by destruct (Hno e0).
    + rewrite IH. split; intros (i & -> & Hf); exists i; (split; [done|]); [right|].
      * split_and!; [done| |done]. intros e' [[= <-] ?]. done.
      * destruct Hf as [(_ & _ & [= ->] & ?)|(_ & _ & ?)]; done.
    + rewrite IH. split; intros (i & -> & Hf); exists i; (split; [done|]); [right|].
      * split_and!; [done| |done]. by intros e' [? _].
      * destruct Hf as [(_ & _ & [=] & ?)|(_ & _ & ?)]; done.
Qed.

Lemma post_find_entry c target d :
  disk_wf (disk d) →
  post (find_entry_in_directory info c target) d (λ r d',
    only_read d d' ∧
    match r with
    | Panicked => False
    | Val (Some e) => health d' = health d ∧
        ∃ s i, first_named target (dir_slots info (disk d) CHAIN_CAP c) e s i
    | Val None => dependable d → ∀ e s i, ¬ first_named target (dir_slots info (disk d) CHAIN_CAP c) e s i
    end).
Proof.
  intros Hw. unfold find_entry_in_directory. apply post_try. eapply post_mono; [by apply post_walk_chain|].
  intros [[[[e s] o]|]|] d' [Hr H]; [| |done].
  - apply post_ret. split; [done|]. destruct H as [(H & Hh & _)|[? _]]; [|done]. symmetry in H. split; [done|].
    apply fold_short_name in H as (i & _ & Hf). by eexists _, _.
  - split; [done|]. intros Hdep e s i Hf. destruct H as [[H _]|[_ Hn]]; [|done].
    assert (flow_result (fold_slots (short_name_body target) (dir_slots info (disk d) CHAIN_CAP c) ()) =
      Some (e, s, (i * 32)%nat)) as Hs by (apply fold_short_name; by exists i). congruence.
Qed.

(** ** File contents *)

Lemma take_take_app {A} n (a b : list A) : take n (take n a ++ b) = take n (a ++ b).
Proof.
  destruct (decide (n ≤ length a)%nat) as [Hn|Hn]; [|by rewrite (take_ge a) by lia].
  rewrite !take_app_le by (rewrite ?length_take; lia). by rewrite take_take, Nat.min_id.
Qed.

Lemma take_short {A} n (a b : list A) : length a = n → take n (a ++ b) = a.
Proof. intros <-. apply take_app_length. Qed.

Lemma prefix_take_app {A} n (a b : list A) : take n a `prefix_of` take n (a ++ b).
Proof. rewrite take_app. by apply prefix_app_r. Qed.

Lemma post_read_cluster rl n s w d :
  disk_wf (disk d) → (length w ≤ rl)%nat →
  post (read_cluster rl n s w) d (λ r d',
    only_read d d' ∧
    match r with
    | Panicked => False
    | Val (true, w') => w' = take rl (w ++ sector_bytes (disk d) n s)
    | Val (false, w') => w' `prefix_of` take rl (w ++ sector_bytes (disk d) n s) ∧ ¬ dependable d
    end).
Proof.
  revert s w d. induction n as [|n IH]; intros s w d Hw Hlen; cbn [read_cluster sector_bytes].
  { apply post_ret. split; [done|]. rewrite app_nil_r, take_ge by lia. done. }
  case_decide as Hfull; [apply post_ret; split; [done|]; by rewrite take_short by lia|].
  apply post_bind, post_read; [done| |].
  { intros d' Hl Hd Hn. apply post_ret. split; [done|]. split; [|done].
    rewrite <-(take_ge w rl) at 1 by lia. apply prefix_take_app. }
  intros d1 Hl1 Hd1 _. pose proof (sector_at_wf (disk d) s Hw) as [Hs _]. unfold len, SECTOR_SIZE in Hs.
  set (w1 := w ++ take _ _).
  assert (w1 = take rl (w ++ sector_at (disk d) s)) as Hw1.
  { unfold w1. rewrite take_app, (take_ge w) by lia. f_equal. unfold SECTOR_SIZE.
    destruct (decide (rl - length w ≤ 512)%nat); [by rewrite Nat.min_l by lia|].
    rewrite Nat.min_r by lia. by rewrite !take_ge by lia. }
  eapply post_mono; [apply (IH (s + 1)%N w1)|];
    [by rewrite Hd1|rewrite Hw1, length_take; lia|].
  rewrite Hd1. intros [[ok w']|] d2 [Hr2 H2]; [|done]. assert (only_read d d1) as Hr1 by done.
  split; [by transitivity d1|]. rewrite Hw1, take_take_app, <-app_assoc in H2.
  destruct ok; [done|]. destruct H2 as [Hp Hn]. split; [done|]. by eapply only_read_dependable.
Qed.

Lemma post_read_chain rl fuel c w d :
  disk_wf (disk d) → (length w ≤ rl)%nat →
  post (read_chain info rl fuel c w) d (λ r d',
    only_read d d' ∧
    match r with
    | Panicked => False
    | Val w' => w' `prefix_of` take rl (w ++ chain_bytes info (disk d) fuel c) ∧
        (dependable d → w' = take rl (w ++ chain_bytes info (disk d) fuel c))
    end).
Proof.
  unfold chain_bytes. revert c w d. induction fuel as [|fuel IH]; intros c w d Hw Hlen; cbn [read_chain visited].
  { apply post_ret. cbn. rewrite app_nil_r, take_ge by lia. done. }
  case_decide as Hfull; [apply post_ret; rewrite take_short by lia; by split|].
  destruct (cluster_to_sector info c) as [s0|] eqn:Hs.
  2:{ apply post_ret. cbn. rewrite app_nil_r, take_ge by lia. done. }
  cbn [mbind list_bind]. set (here := sector_bytes (disk d) (N.to_nat (sectors_per_cluster info)) s0).
  assert (cluster_bytes info (disk d) c = here) as -> by (unfold cluster_bytes; by rewrite Hs).
  apply post_bind. eapply post_mono; [by apply post_read_cluster|]. fold here.
  intros [[ok w1]|] d1 [Hr1 H1]; [|done].
  set (rest := match next_of info (disk d) c with Some _ => _ | None => _ end ≫= cluster_bytes info (disk d)).
  rewrite !app_assoc. assert (take rl (w ++ here) `prefix_of` take rl ((w ++ here) ++ rest)) as Hpre
    by apply prefix_take_app.
  destruct ok; cbn [negb].
  2:{ apply post_ret. destruct H1 as [Hp Hn]. split; [done|]. split; [by etransitivity|done]. }
  subst w1. case_decide as Hfull1.
  { apply post_ret. split; [done|]. split; [done|]. intros _.
    rewrite <-(take_take_app rl (w ++ here) rest), (take_short _ (take rl (w ++ here))); [done|].
    rewrite length_take in *. lia. }
  assert (length (w ++ here) < rl)%nat as Hshort by (rewrite length_take in *; lia).
  rewrite (take_ge (w ++ here)) in * by lia.
  apply post_bind. eapply post_mono; [apply post_next_of; by eapply only_read_wf|].
  destruct Hr1 as [Hl1 Hd1]. rewrite Hd1. assert (only_read d d1) as Hr1 by done.
  intros [o|] d2 [Hr2 H2]; [|done]. assert (only_read d d2) as Hr by (by transitivity d1).
  destruct H2 as [[-> _]|[-> Hn]].
  2:{ apply post_ret. split; [done|]. split; [done|]. intros Hdep.
      destruct (only_read_dependable d d1 Hr1 Hn Hdep). }
  assert (rest = [] → take rl ((w ++ here) ++ rest) = w ++ here) as Hnil
    by (intros ->; by rewrite app_nil_r, take_ge by lia).
  unfold rest in *. destruct (next_of info (disk d) c) as [next|];
    [destruct (is_end_of_chain next)|]; try (apply post_ret; rewrite Hnil by done; by split).
  destruct Hr as [Hl Hd]. eapply post_mono; [apply IH; [by rewrite Hd|lia]|].
  rewrite Hd. intros [w'|] d3 [Hr3 H3]; [|done]. destruct H3 as [Hp He].
  assert (only_read d d2) as Hr by done. split; [by transitivity d2|].
  split; [done|]. intros Hdep. apply He. by apply (later_dependable _ _ Hl).
Qed.

(** The bytes a file's entry promises, as far as its chain has them. *)
Definition file_bytes (m : Disk) (e : ShortDirEntry) (buf_len : nat) : list N :=
  take (Nat.min (N.to_nat (file_size e)) buf_len) (chain_bytes info m CHAIN_CAP (first_cluster e)).

Lemma post_read_file_contents e buf_len d :
  disk_wf (disk d) →
  post (read_file_contents info e buf_len) d (λ r d',
    only_read d d' ∧
    match r with
    | Panicked => False
    | Val w => w `prefix_of` file_bytes (disk d) e buf_len ∧ (dependable d → w = file_bytes (disk d) e buf_len)
    end).
Proof.
  intros Hw. unfold read_file_contents, file_bytes.
  eapply post_mono; [apply post_read_chain; [done|cbn; lia]|]. by intros [w|] d' [Hr H].
Qed.

(** ** Long names *)

Lemma post_find_long c target d :
  disk_wf (disk d) →
  post (find_entry_by_long_name info c target) d (λ r d',
    only_read d d' ∧
    match r with
    | Panicked => False
    | Val r => (r = flow_result (fold_slots (long_name_body target) (dir_slots info (disk d) CHAIN_CAP c) lfn_start)
          ∧ health d' = health d ∧ (∀ x, r = Some x → health d = Healthy)) ∨ (r = None ∧ ¬ dependable d)
    end).
Proof. intros Hw. by apply post_walk_chain. Qed.

End walk_specs.
