(* ===== verification/FatTree.v ===== *)
(** * FatTree: changing directories and files

    Model of the part of [blk-driver-host/src/main.rs] that changes the volume's
    structure: [find_or_grow_create_slot] and [grow_directory], and the steps the
    driver's boot-time checks are made of (walking to the last cluster, freeing a
    chain, patching a size, writing a new entry).  A chain of the FAT is the
    inductive relation [fat_chain]; a directory is described by the positions of
    its slots, which do not depend on the medium. *)

From S2P Require Import Prelude Bytes Fat BlkDev FatOps FatAlloc FatDir.

Definition ATTR_ARCHIVE : N := 0x20.
Definition DELETED_ENTRY_MARKER : N := 0xE5.

(** [new_entry], all zero, then its fields. *)
Definition new_short_entry (name : list N) (new_cluster size : N) : list N :=
  let cluster_hi := N.land (N.shiftr new_cluster 16) 0xFFFF in
  let cluster_lo := N.land new_cluster 0xFFFF in
  let new_entry := copy_at (replicate 32 0%N) 0 name in
  let new_entry := copy_at new_entry 11 [ATTR_ARCHIVE] in
  let new_entry := copy_at new_entry 20 (le_bytes 2 cluster_hi) in
  let new_entry := copy_at new_entry 26 (le_bytes 2 cluster_lo) in
  copy_at new_entry 28 (le_bytes 4 size).

Section ops.
Context `{HW : BlkHardware} (info : BootSectorInfo).

(** ** Directory growth *)

(** [for s in 0..sectors_per_cluster], from [sector_num]; [false] is the early
    [return None]. *)
Fixpoint zero_sectors (n : nat) (sector_num : N) : DevM bool :=
  match n with
  | O => mret true
  | S n =>
      r ← write_sector sector_num zero_sector;
      if negb (write_ok r) then mret false else zero_sectors n (sector_num + 1)
  end.

Definition grow_directory (last_cluster : N) : DevM (option (N * nat)) :=
  '(ok, new_clusters) ← allocate_cluster_chain info 1 [0%N];
  if negb ok then mret None else
  let new_cluster := default 0%N (new_clusters !! 0) in
  sector0 <-? pure_opt (cluster_to_sector info new_cluster);
  ok ← zero_sectors (N.to_nat (sectors_per_cluster info)) sector0;
  if negb ok then mret None else
  ok ← write_fat_entry info last_cluster new_cluster;
  if negb ok then mret None else mret (Some (sector0, 0%nat)).

(** The sectors of one cluster: [Some (Some slot)] returns it, [Some None] falls
    out of the loop, [None] is a failed read. *)
Fixpoint slot_in_sectors (n : nat) (sector_num : N) : DevM (option (option (N * nat))) :=
  match n with
  | O => mret (Some None)
  | S n =>
      sector <-? read_sector sector_num;
      match find_reusable_slot sector with
      | Some index => mret (Some (Some ((sector_num mod 2 ^ 32)%N, (index * 32)%nat)))
      | None => slot_in_sectors n (sector_num + 1)
      end
  end.

Fixpoint create_slot_walk (fuel : nat) (cluster : N) : DevM (option (N * nat)) :=
  match fuel with
  | O => mret None
  | S fuel =>
      sector0 <-? pure_opt (cluster_to_sector info cluster);
      found <-? slot_in_sectors (N.to_nat (sectors_per_cluster info)) sector0;
      match found with
      | Some slot => mret (Some slot)
      | None =>
          next <-? next_cluster_in_chain info cluster;
          if is_end_of_chain next then grow_directory cluster else create_slot_walk fuel next
      end
  end.

Definition find_or_grow_create_slot (dir_cluster : N) : DevM (option (N * nat)) :=
  create_slot_walk CHAIN_CAP dir_cluster.

(** ** Steps on files *)

(** The walk to a file's last cluster; [None] is [walk_ok = false]. *)
Fixpoint walk_to_last (fuel : nat) (last_cluster : N) : DevM (option N) :=
  match fuel with
  | O => mret (Some last_cluster)
  | S fuel =>
      next <-? next_cluster_in_chain info last_cluster;
      if is_end_of_chain next then mret (Some last_cluster) else walk_to_last fuel next
  end.

(** The loop that frees a file's clusters, its result [free_ok]. *)
Fixpoint free_chain (fuel : nat) (cluster : N) : DevM bool :=
  match fuel with
  | O => mret true
  | S fuel =>
      next ← next_cluster_in_chain info cluster;
      ok ← write_fat_entry info cluster 0;
      if negb ok then mret false else
      match next with
      | Some n => if is_end_of_chain n then mret true else free_chain fuel n
      | None => mret true
      end
  end.

(** Read a directory's sector, overwrite the bytes at [offset], write it back. *)
Definition patch_sector (sector : N) (offset : nat) (bs : list N) : DevM bool :=
  o ← read_sector sector;
  match o with
  | Some dir_buf =>
      r ← write_sector sector (copy_at dir_buf (N.of_nat offset) bs);
      mret (write_ok r)
  | None => mret false
  end.

(** A buffer's first [n] bytes overwritten with a pattern, and the check that
    bytes follow one. *)
Definition fill (n : nat) (pattern : nat → N) (buf : list N) : list N :=
  imap (λ i b, if decide (i < n)%nat then pattern i else b) buf.

Definition matches (pattern : nat → N) (bs : list N) : bool :=
  forallb id (imap (λ i b, bool_decide (b = pattern i)) bs).

(** The verification through the ordinary read path: the size and the contents
    found under [name] in the root directory. *)
Definition check_contents (name : list N) (size : nat) (pattern : nat → N) : DevM (bool * bool) :=
  o ← find_entry_in_directory info (root_cluster info) name;
  match o with
  | Some fresh_entry =>
      written ← read_file_contents info fresh_entry MAX_FILE_BYTES;
      mret (bool_decide (file_size fresh_entry = N.of_nat size),
            bool_decide (length written = size) && matches pattern written)
  | None => mret (false, false)
  end.

(** The sequence [run_create_proof] and [run_directory_growth_proof] share; [None]
    is their early [return false]. *)
Definition create_file (name : list N) (size : nat) (content : nat → N) : DevM (option bool) :=
  let? (slot_sector, slot_offset) := find_or_grow_create_slot (root_cluster info) in
  new_cluster <-? allocate_free_cluster info;
  new_sector <-? pure_opt (cluster_to_sector info new_cluster);
  r ← write_sector new_sector (fill size content zero_sector);
  eoc_ok ← write_fat_entry info new_cluster 0x0FFFFFFF;
  entry_write_ok ← patch_sector slot_sector slot_offset (new_short_entry name new_cluster (N.of_nat size));
  '(size_ok, contents_ok) ← check_contents name size content;
  mret (Some (write_ok r && eoc_ok && entry_write_ok && size_ok && contents_ok)).

Definition write_size (dir_sector : N) (dir_offset : nat) (size : N) : DevM bool :=
  patch_sector dir_sector (dir_offset + 28) (le_bytes 4 size).

End ops.

(** ** A new entry reads back *)

Lemma hi_lo c : (c < 2 ^ 32)%N →
  N.lor (N.shiftl (N.land (N.shiftr c 16) 0xFFFF) 16) (N.land c 0xFFFF) = c.
Proof.
  intros Hc. change 0xFFFF%N with (N.ones 16). apply N.bits_inj. intros i.
  rewrite N.lor_spec, N.land_spec. destruct (decide (i < 16)%N) as [Hi|Hi].
  - rewrite N.shiftl_spec_low, N.ones_spec_low by done. by rewrite andb_true_r.
  - rewrite N.shiftl_spec_high', N.land_spec, N.shiftr_spec' by lia. rewrite (N.ones_spec_high 16 i) by lia.
    rewrite andb_false_r, orb_false_r. replace (i - 16 + 16)%N with i by lia.
    destruct (decide (i < 32)%N) as [Hi'|Hi'].
    + rewrite N.ones_spec_low by lia. by rewrite andb_true_r.
    + rewrite N.ones_spec_high by lia. rewrite andb_false_r. symmetry.
      destruct (decide (c = 0)%N) as [->|Hz]; [apply N.bits_0|]. apply N.bits_above_log2.
      apply N.log2_lt_pow2; [lia|]. eapply N.lt_le_trans; [exact Hc|]. apply N.pow_le_mono_r; lia.
Qed.

(** A short name as the driver's constants and [encode_short_name] give it. *)
Definition entry_name (name : list N) : Prop :=
  length name = 11%nat ∧ bytes name ∧ byte_at name 0 ≠ 0x00%N ∧ byte_at name 0 ≠ 0xE5%N.

(** A list of known length, element by element. *)
Ltac explode l :=
  let rec go l := match l with
    | _ => is_var l; let x := fresh "b" in let l' := fresh "l" in destruct l as [|x l']; [try done|try done; go l']
    end in
  try go l.

Section new_entry.
Context (name : list N) (c size : N) (Hname : length name = 11%nat).

Let entry := new_short_entry name c size.

Lemma length_new_entry : length entry = 32%nat.
Proof.
  unfold entry, new_short_entry. cbn zeta.
  repeat (rewrite length_copy_at; unfold len); rewrite ?length_replicate, ?length_le_bytes, ?Hname; cbn; lia.
Qed.

Lemma bytes_new_entry : bytes name → bytes entry.
Proof.
  intros Hb. unfold entry, new_short_entry. cbn zeta.
  repeat (apply bytes_copy_at; [|by first [apply bytes_le_bytes|by repeat constructor]]).
  by repeat constructor.
Qed.

Lemma new_entry_bytes : entry = name ++ [ATTR_ARCHIVE] ++ replicate 8 0%N ++
  le_bytes 2 (N.land (N.shiftr c 16) 0xFFFF) ++ replicate 4 0%N ++ le_bytes 2 (N.land c 0xFFFF) ++ le_bytes 4 size.
Proof.
  unfold entry. clear entry. explode name.
Qed.

Lemma parse_new_entry :
  entry_name name → (c < 2 ^ 32)%N → (size < 2 ^ 32)%N →
  parse_short_dir_entry entry = Some (mkEntry name c size false).
Proof.
  intros (_ & _ & H0 & H5) Hc Hsize. rewrite new_entry_bytes.
  assert (byte_at (name ++ [ATTR_ARCHIVE] ++ replicate 8 0%N ++
    le_bytes 2 (N.land (N.shiftr c 16) 0xFFFF) ++ replicate 4 0%N ++ le_bytes 2 (N.land c 0xFFFF) ++ le_bytes 4 size) 0
    = byte_at name 0) as Hb0 by (unfold byte_at; rewrite lookup_app_l by (rewrite Hname; cbn; lia); done).
  unfold parse_short_dir_entry. rewrite Hb0, decide_False by tauto. unfold u16_at, u32_at. clear Hb0.
  transitivity (Some (mkEntry name
    (N.lor (N.shiftl (from_le (le_bytes 2 (N.land (N.shiftr c 16) 0xFFFF))) 16) (from_le (le_bytes 2 (N.land c 0xFFFF))))
    (from_le (le_bytes 4 size)) false)); [clear -Hname; explode name|].
  assert (∀ x, N.land x 0xFFFF < 256 ^ N.of_nat 2)%N as Hw
    by (intros x; change 0xFFFF%N with (N.ones 16); rewrite N.land_ones; by apply N.mod_lt).
  rewrite !from_le_bytes by done. by rewrite hi_lo.
Qed.

End new_entry.

(** ** Chains *)

Section chains.
Context (info : BootSectorInfo).

(** Every sector of every cluster of the FAT has a 32-bit number. *)
Definition data_fits : Prop :=
  (data_start_sector info + 128 * fat_size_32 info * sectors_per_cluster info ≤ u32_max)%N.

Abbreviation usable := (usable info).
Abbreviation allocatable := (allocatable info).
Abbreviation fat := (fat info).

(** [l] is the chain that starts at [c], up to its end marker. *)
Inductive fat_chain (m : Disk) : N → list N → Prop :=
  | chain_end c : usable c → is_end_of_chain (fat m c) = true → fat_chain m c [c]
  | chain_step c l : usable c → is_end_of_chain (fat m c) = false →
      fat_chain m (fat m c) l → fat_chain m c (c :: l).

Lemma fat_chain_head m c l : fat_chain m c l → ∃ l', l = c :: l'.
Proof. destruct 1; eauto. Qed.

Lemma fat_chain_usable m c l : fat_chain m c l → Forall usable l.
Proof. induction 1; by constructor. Qed.

Lemma fat_chain_start m c l : fat_chain m c l → usable c.
Proof. by destruct 1. Qed.

Lemma fat_chain_det m c l l' : fat_chain m c l → fat_chain m c l' → l = l'.
Proof.
  intros H. revert l'. induction H as [c Hu He|c l Hu He H IH]; intros l' H'; inversion H'; subst; try congruence.
  f_equal. auto.
Qed.

Lemma fat_chain_suffix m c l x : fat_chain m c l → x ∈ l → ∃ l', fat_chain m x l' ∧ (length l' ≤ length l)%nat.
Proof.
  induction 1 as [c Hu He|c l Hu He H IH]; intros Hx.
  - apply list_elem_of_singleton in Hx as ->. exists [c]. split; [by constructor|done].
  - apply elem_of_cons in Hx as [->|Hx]; [exists (c :: l); split; [by constructor|done]|].
    destruct (IH Hx) as (l' & Hl & Hle). exists l'. split; [done|cbn; lia].
Qed.

(** A chain that ends visits no cluster twice. *)
Lemma fat_chain_nodup m c l : fat_chain m c l → NoDup l.
Proof.
  induction 1 as [c Hu He|c l Hu He H IH]; [apply NoDup_singleton|]. constructor; [|done]. intros Hc.
  destruct (fat_chain_suffix _ _ _ _ H Hc) as (l' & Hl' & Hle).
  assert (l' = c :: l) as -> by (eapply fat_chain_det; [done|by constructor]). cbn in Hle. lia.
Qed.

(** No cluster of a chain is free. *)
Lemma fat_chain_used m c l x : fat_chain m c l → x ∈ l → fat m x ≠ 0%N.
Proof.
  induction 1 as [c Hu He|c l Hu He H IH]; intros Hx Hz.
  - apply list_elem_of_singleton in Hx as ->. by rewrite Hz in He.
  - apply elem_of_cons in Hx as [->|Hx]; [|by apply IH]. rewrite Hz in H.
    apply fat_chain_start in H as [? _]. lia.
Qed.

Lemma fat_chain_free m c l x : fat_chain m c l → allocatable m x → x ∉ l.
Proof. intros Hl (_ & _ & Hz) Hx. by eapply fat_chain_used. Qed.

Lemma fat_chain_ext m m' c l : (∀ x, x ∈ l → fat m' x = fat m x) → fat_chain m c l → fat_chain m' c l.
Proof.
  intros Hm H. induction H as [c Hu He|c l Hu He H IH].
  - constructor; [done|]. by rewrite Hm by set_solver.
  - assert (fat m' c = fat m c) as Hc by (apply Hm; set_solver). constructor; [done|by rewrite Hc|].
    rewrite Hc. apply IH. set_solver.
Qed.

Lemma fat_chain_last m c l z : fat_chain m c l → last l = Some z → is_end_of_chain (fat m z) = true.
Proof.
  induction 1 as [c Hu He|c l Hu He H IH]; [by intros [= <-]|].
  destruct (fat_chain_head _ _ _ H) as [l' ->]. by rewrite last_cons_cons.
Qed.

Lemma fat_chain_has_last m c l : fat_chain m c l → ∃ z, last l = Some z ∧ usable z ∧ z ∈ l.
Proof.
  intros H. destruct (last l) as [z|] eqn:Hz.
  - apply last_Some_elem_of in Hz as Hin. exists z. split_and!; [done| |done].
    by eapply Forall_forall; [by eapply fat_chain_usable|].
  - apply last_None in Hz. destruct (fat_chain_head _ _ _ H) as [l' ->]. done.
Qed.

Context (Hvol : volume_ok info).

Lemma end_not_cluster c : usable c → is_end_of_chain c = false.
Proof.
  intros [_ Hc]. destruct (in_fat_cluster info Hvol c Hc) as [_ Hlt]. unfold is_end_of_chain.
  by rewrite bool_decide_eq_false_2 by lia.
Qed.

(** Linking a closed cluster behind the last one extends the chain. *)
Lemma fat_chain_extend m m' c l z new :
  fat_chain m c l → last l = Some z → usable new → is_end_of_chain (fat m' new) = true →
  fat m' z = new → (∀ x, x ∈ l → x ≠ z → fat m' x = fat m x) →
  fat_chain m' c (l ++ [new]).
Proof.
  intros H Hlast Hnew He Hz Hm. induction H as [c Hu Hc|c l Hu Hc H IH].
  - injection Hlast as <-. cbn. apply chain_step; [done|by rewrite Hz, end_not_cluster|].
    rewrite Hz. by constructor.
  - assert (c ≠ z) as Hne.
    { intros ->. destruct (fat_chain_head _ _ _ H) as [l' ->]. rewrite last_cons_cons in Hlast.
      pose proof (fat_chain_last _ _ _ _ H Hlast). congruence. }
    assert (fat m' c = fat m c) as Hcc by (apply Hm; set_solver).
    cbn. apply chain_step; [done|by rewrite Hcc|]. rewrite Hcc. apply IH; [|set_solver].
    destruct (fat_chain_head _ _ _ H) as [l' ->]. by rewrite last_cons_cons in Hlast.
Qed.

(** ** What the walks visit *)

Lemma next_of_fat m c : disk_wf m → in_fat info c → next_of info m c = Some (fat m c).
Proof.
  intros Hw Hc. unfold next_of. destruct (in_fat_cluster info Hvol c Hc) as [Hmax _].
  unfold checked_mul at 1. rewrite decide_True by done. cbn [mbind option_bind].
  destruct (fat_geometry info c (vol_bps _ Hvol)) as [-> ->].
  unfold checked_add at 1. rewrite decide_True by (by apply fat_sec_fits). cbn [mbind option_bind].
  replace (fat_off c / 4)%N with (c mod 128)%N by (unfold fat_off; by rewrite N.mul_comm, N.div_mul).
  apply fat_entry_at_view; [done|by rewrite fat_sec_first].
Qed.

Lemma usable_sector c : data_fits → usable c → ∃ s, cluster_to_sector info c = Some s ∧
  (data_start_sector info ≤ s)%N ∧ (s + sectors_per_cluster info ≤ u32_max)%N.
Proof.
  unfold data_fits, in_fat. intros Hf [H2 Hc]. unfold in_fat in Hc.
  exists (data_start_sector info + (c - 2) * sectors_per_cluster info)%N.
  assert ((c - 2) * sectors_per_cluster info + sectors_per_cluster info ≤
    128 * fat_size_32 info * sectors_per_cluster info)%N as Hle.
  { replace ((c - 2) * sectors_per_cluster info + sectors_per_cluster info)%N
      with ((c - 1) * sectors_per_cluster info)%N by nia.
    apply N.mul_le_mono_r. lia. }
  rewrite cluster_to_sector_Some. revert Hle Hf.
  generalize (128 * fat_size_32 info * sectors_per_cluster info)%N ((c - 2) * sectors_per_cluster info)%N.
  intros p q Hle Hf. split_and!; [lia|done|lia|lia|lia].
Qed.

Lemma visited_chain m c l fuel :
  data_fits → disk_wf m → fat_chain m c l → (length l ≤ fuel)%nat → visited info m fuel c = l.
Proof.
  intros Hf Hw H. revert fuel. induction H as [c Hu He|c l Hu He H IH]; intros fuel Hlen;
    (destruct fuel as [|fuel]; [cbn in Hlen; lia|]); cbn [visited];
    destruct (usable_sector c Hf Hu) as (s & -> & _); rewrite next_of_fat by (done || apply Hu);
    rewrite He; [done|]. f_equal. apply IH. cbn in Hlen. lia.
Qed.

End chains.

(** ** The slots of a directory, by position *)

Abbreviation Position := (N * nat)%type.

Fixpoint sector_positions (n : nat) (s : N) : list Position :=
  match n with
  | O => []
  | S n => (pair s <$> seq 0 16) ++ sector_positions n (s + 1)
  end.

Definition slot_at (m : Disk) (p : Position) : Slot :=
  (p.1, p.2, slice (sector_at m p.1) (32 * N.of_nat p.2) 32).

Definition slot_entry (x : Slot) : list N := x.2.

(** Overwriting [bs] at byte [k] of slot [p]. *)
Definition patch_slot (p : Position) (k : N) (bs : list N) (m : Disk) : Disk :=
  <[p.1 := copy_at (sector_at m p.1) (32 * N.of_nat p.2 + k) bs]> m.

Lemma chunks_of_sector sector :
  len sector = SECTOR_SIZE → chunks sector = (λ i : nat, slice sector (32 * N.of_nat i) 32) <$> seq 0 16.
Proof.
  intros Hl. assert (length sector = 512%nat) as Hlen by (unfold len, SECTOR_SIZE in Hl; lia).
  apply list_eq. intros i. rewrite list_lookup_fmap.
  destruct (decide (i < 16)%nat) as [Hi|Hi].
  - rewrite lookup_seq_lt by done. cbn. apply chunks_lookup. rewrite Hlen. cbn. by split.
  - rewrite lookup_seq_ge by lia. cbn. apply lookup_ge_None_2. unfold chunks.
    rewrite length_chunks_exact, Hlen. cbn. lia.
Qed.

Lemma number_fmap s (f : nat → list N) (i n : nat) :
  number s i (f <$> seq i n) = (λ j, (s, j, f j)) <$> seq i n.
Proof. revert i. induction n as [|n IH]; intros i; cbn; [done|]. f_equal. apply IH. Qed.

Lemma sector_slots_positions m n s :
  disk_wf m → sector_slots m n s = slot_at m <$> sector_positions n s.
Proof.
  intros Hw. revert s. induction n as [|n IH]; intros s; cbn [sector_slots sector_positions]; [done|].
  rewrite fmap_app, IH, chunks_of_sector, number_fmap by (by apply sector_window). done.
Qed.

Lemma slice_copy_within buf off k bs n :
  (k + len bs ≤ n)%N → (off + n ≤ len buf)%N →
  slice (copy_at buf (off + k) bs) off n = copy_at (slice buf off n) k bs.
Proof.
  intros Hk Hn. apply list_eq. intros i. unfold slice at 1.
  assert (len (slice buf off n) = n) as Hlen by (by apply length_slice).
  destruct (decide (i < N.to_nat n)%nat) as [Hi|Hi].
  - rewrite lookup_take_lt, lookup_drop by done.
    destruct (decide (N.to_nat k ≤ i < N.to_nat k + length bs)%nat) as [Hin|Hout].
    + replace (N.to_nat off + i)%nat with (N.to_nat (off + k) + (i - N.to_nat k))%nat by lia.
      rewrite lookup_copy_same by (unfold len in *; lia).
      replace i with (N.to_nat k + (i - N.to_nat k))%nat at 2 by lia.
      by rewrite lookup_copy_same by (unfold len in *; lia).
    + rewrite lookup_copy_other by (unfold len in *; lia). rewrite lookup_copy_other by (unfold len in *; lia).
      unfold slice. by rewrite lookup_take_lt, lookup_drop by done.
  - rewrite lookup_take_ge by lia. symmetry. apply lookup_ge_None_2.
    rewrite length_copy_at by lia. unfold len in Hlen. lia.
Qed.

Lemma slot_at_patch m p k bs q :
  disk_wf m → (p.2 < 16)%nat → (q.2 < 16)%nat → (k + len bs ≤ 32)%N →
  slot_at (patch_slot p k bs m) q =
    if decide (q = p) then (p.1, p.2, copy_at (slot_entry (slot_at m p)) k bs) else slot_at m q.
Proof.
  intros Hw Hp Hq Hk. destruct p as [s i], q as [s' i']. unfold slot_at, patch_slot, slot_entry in *. cbn in *.
  pose proof (sector_window m s Hw) as Hl. unfold SECTOR_SIZE in Hl. rewrite sector_at_insert.
  destruct (decide (s = s')) as [<-|Hs]; [|by rewrite decide_False by congruence].
  destruct (decide (i = i')) as [<-|Hi].
  - rewrite decide_True by done. rewrite slice_copy_within by lia. done.
  - rewrite decide_False by congruence. rewrite slice_copy_other by lia. done.
Qed.

Lemma patch_slot_is_sector m p k bs :
  disk_wf m → (p.2 < 16)%nat → (k + len bs ≤ 32)%N → bytes bs →
  is_sector (copy_at (sector_at m p.1) (32 * N.of_nat p.2 + k) bs).
Proof.
  intros Hw Hp Hk Hb. pose proof (sector_at_wf m p.1 Hw) as [Hl Hb']. split; [|by apply bytes_copy_at].
  unfold len, SECTOR_SIZE in *. rewrite length_copy_at; unfold len; lia.
Qed.

Section positions.
Context (info : BootSectorInfo).

Definition cluster_positions (c : N) : list Position :=
  match cluster_to_sector info c with
  | Some s => sector_positions (N.to_nat (sectors_per_cluster info)) s
  | None => []
  end.

Definition positions (l : list N) : list Position := l ≫= cluster_positions.

Lemma positions_app l k : positions (l ++ k) = positions l ++ positions k.
Proof. apply bind_app. Qed.

Lemma cluster_slots_positions m c :
  disk_wf m → cluster_slots info m c = slot_at m <$> cluster_positions c.
Proof.
  intros Hw. unfold cluster_slots, cluster_positions. destruct (cluster_to_sector info c); [|done].
  by apply sector_slots_positions.
Qed.

(** The slots of a directory whose chain is [l]. *)
Lemma dir_slots_chain m c l :
  volume_ok info → data_fits info → disk_wf m → fat_chain info m c l → (length l ≤ CHAIN_CAP)%nat →
  dir_slots info m CHAIN_CAP c = slot_at m <$> positions l.
Proof.
  intros Hvol Hfits Hw Hl Hlen. unfold dir_slots, positions. rewrite (visited_chain info Hvol m c l) by done.
  clear Hl Hlen. induction l as [|x l IH]; cbn; [done|].
  rewrite fmap_app, <-cluster_slots_positions by done. f_equal. exact IH.
Qed.

Lemma elem_of_sector_positions n s p :
  p ∈ sector_positions n s ↔ (s ≤ p.1 < s + N.of_nat n)%N ∧ (p.2 < 16)%nat.
Proof.
  revert s. induction n as [|n IH]; intros s; cbn [sector_positions]; [split; [set_solver|lia]|].
  rewrite elem_of_app, list_elem_of_fmap, IH. destruct p as [s' i]. cbn [fst snd]. split.
  - intros [(j & [= -> ->] & Hj%elem_of_seq)|[H1 H2]]; lia.
  - intros [H1 H2]. destruct (decide (s' = s)) as [->|]; [left|right; lia].
    exists i. split; [done|]. apply elem_of_seq. lia.
Qed.

Lemma elem_of_positions l p :
  p ∈ positions l → ∃ c s, c ∈ l ∧ cluster_to_sector info c = Some s ∧
    (s ≤ p.1 < s + sectors_per_cluster info)%N ∧ (p.2 < 16)%nat.
Proof.
  unfold positions. rewrite list_elem_of_bind. intros (c & Hp & Hc). unfold cluster_positions in Hp.
  destruct (cluster_to_sector info c) as [s|] eqn:Hs; [|set_solver].
  apply elem_of_sector_positions in Hp. exists c, s. split_and!; [done|done|lia|lia|lia].
Qed.

(** Clusters of distinct chains share no sector. *)
Lemma positions_disjoint l p c s k :
  p ∈ positions l → c ∉ l → cluster_to_sector info c = Some s → (k < sectors_per_cluster info)%N →
  p.1 ≠ (s + k)%N.
Proof.
  intros (c' & s' & Hc' & Hs' & Hr & _)%elem_of_positions Hc Hs Hk.
  replace p.1 with (s' + (p.1 - s'))%N by lia. apply (clusters_disjoint info c' c); [done|done|set_solver|lia|done].
Qed.

End positions.

(** ** On a device that answers *)

Section ready.
Context `{HW : BlkHardware} (info : BootSectorInfo) (Hvol : volume_ok info).

Abbreviation fat := (fat info).
Abbreviation moves := (moves info).

Definition ready (d : BlkDevice) : Prop := disk_wf (disk d) ∧ dependable d.

Lemma moves_ready d d' : moves d d' → ready d → ready d'.
Proof. intros Hm [Hw Hd]. split; [by eapply moves_wf|by eapply moves_dependable]. Qed.

Lemma fat_sec_below c : in_fat info c → (fat_sec info 0 c < data_start_sector info)%N.
Proof.
  intros Hc. destruct Hvol as [Hwf _ _ _].
  pose proof (fat_sec_region info 0 c Hwf Hc ltac:(destruct Hwf; lia)) as [_ ?]. done.
Qed.

(** A write to the data area leaves the FAT and the hint alone. *)
Lemma fat_data_write m s x c :
  (data_start_sector info ≤ s)%N → in_fat info c → fat (<[s := x]> m) c = fat m c.
Proof.
  intros Hs Hc. pose proof (fat_sec_below c Hc). unfold FatOps.fat, fat_raw.
  rewrite sector_at_insert, decide_False by lia. done.
Qed.

Lemma hint_data_write m s x :
  (data_start_sector info ≤ s)%N → hint_exact info m → hint_exact info (<[s := x]> m).
Proof.
  intros Hs (fi & Hp & Hf). exists fi. pose proof (vol_fsinfo _ Hvol) as Hfs.
  assert (fat_start_sector info ≤ data_start_sector info)%N as Hr
    by (destruct Hvol as [Hwf _ _ _]; rewrite (wf_data_start _ Hwf); lia).
  rewrite sector_at_insert, decide_False by lia. split; [done|].
  rewrite Hf. unfold free_total. f_equal. apply filter_iff_in. intros c Hc%elem_of_clusters.
  by rewrite fat_data_write by (done || apply Hc).
Qed.

Lemma ready_read s d Q :
  ready d → (∀ d', moves d d' → disk d' = disk d → Q (Val (Some (sector_at (disk d) s))) d') →
  post (read_sector s) d Q.
Proof.
  intros [Hw Hd] HQ. apply post_read; [done|by intros|]. intros d' Hl Hdisk _. apply HQ; [|done].
  by apply moves_read.
Qed.

Lemma ready_data_write s x d Q :
  ready d → (data_start_sector info ≤ s)%N → is_sector x →
  (∀ d' r, moves d d' → write_ok r = true → disk d' = <[s := x]> (disk d) → Q (Val r) d') →
  post (write_sector s x) d Q.
Proof.
  intros [Hw Hd] Hs Hx HQ. apply post_write; [done|done|by intros|]. intros d' r Hl Hok _ Hdisk.
  apply HQ; [|done|done]. split; [done|]. intros _ _. rewrite Hdisk. by apply hint_data_write.
Qed.

Lemma ready_fat_entry c v d Q :
  ready d → usable info c →
  (∀ d', moves d d' → fat_updated info c v (disk d) (disk d') → Q (Val true) d') →
  post (write_fat_entry info c v) d Q.
Proof.
  intros [Hw Hd] [H2 Hc] HQ. eapply post_mono; [by apply (post_write_fat_entry_moves info Hvol)|].
  intros [[|]|] d' [Hm H]; [by apply HQ| |done]. by destruct H as [? _].
Qed.

Lemma ready_next c d Q :
  ready d → in_fat info c →
  (∀ d', moves d d' → disk d' = disk d → Q (Val (Some (fat (disk d) c))) d') →
  post (next_cluster_in_chain info c) d Q.
Proof.
  intros [Hw Hd] Hc HQ. eapply post_mono; [by apply (post_next_cluster info Hvol)|].
  intros [[v|]|] d' (Hl & Hdisk & H); [subst; apply HQ; [by apply moves_read|done]|done|done].
Qed.

(** The lowest free cluster, or none is free. *)
Lemma ready_allocate d (Q : Run (option N) → BlkDevice → Prop) :
  ready d →
  (∀ d' c, moves d d' → disk d' = disk d → allocatable info (disk d) c →
     (∀ c', allocatable info (disk d) c' → (c ≤ c')%N) → Q (Val (Some c)) d') →
  (∀ d', moves d d' → disk d' = disk d → (∀ c, ¬ allocatable info (disk d) c) → Q (Val None) d') →
  post (allocate_free_cluster info) d Q.
Proof.
  intros [Hw Hd] Hs Hn. eapply post_mono; [by apply (post_allocate_free_cluster info Hvol)|].
  intros [[c|]|] d' (Hm & Hdisk & H); [|by apply Hn; auto|done]. destruct H. by apply Hs.
Qed.

Lemma ready_patch_slot p k bs d Q :
  ready d → (p.2 < 16)%nat → (k + len bs ≤ 32)%N → bytes bs → (data_start_sector info ≤ p.1)%N →
  (∀ d', moves d d' → disk d' = patch_slot p k bs (disk d) → Q (Val true) d') →
  post (patch_sector p.1 (p.2 * 32 + N.to_nat k) bs) d Q.
Proof.
  intros Hr Hp Hk Hb Hs HQ. unfold patch_sector. apply post_bind, ready_read; [done|].
  intros d1 Hm1 Hd1. replace (N.of_nat (p.2 * 32 + N.to_nat k)) with (32 * N.of_nat p.2 + k)%N by lia.
  apply post_bind, ready_data_write; [by eapply moves_ready|done|by apply patch_slot_is_sector; [apply Hr|..]|].
  intros d2 r Hm2 Hok Hd2. rewrite Hok. apply post_ret. apply HQ; [by transitivity d1|]. by rewrite Hd2, Hd1.
Qed.

Lemma post_grow_zero n s d Q :
  ready d → (data_start_sector info ≤ s)%N →
  (∀ d', moves d d' → (∀ c, in_fat info c → fat (disk d') c = fat (disk d) c) →
     (∀ s', sector_at (disk d') s' =
        if decide (s ≤ s' < s + N.of_nat n)%N then zero_sector else sector_at (disk d) s') → Q (Val true) d') →
  post (zero_sectors n s) d Q.
Proof.
  revert s d. induction n as [|n IH]; intros s d Hr Hs HQ; cbn [zero_sectors].
  { apply post_ret, HQ; [done|done|]. intros s'. by rewrite decide_False by lia. }
  apply post_bind, ready_data_write; [done|done|apply zero_is_sector|]. intros d1 r Hm1 -> Hd1. cbn [negb].
  apply IH; [by eapply moves_ready|lia|]. intros d2 Hm2 Hf2 Hz2. apply HQ; [by transitivity d1| |].
  - intros c Hc. rewrite Hf2, Hd1 by done. by apply fat_data_write.
  - intros s'. rewrite Hz2, Hd1, sector_at_insert. repeat case_decide; try done; lia.
Qed.

(** ** Lookups *)

(** What the short-name walk finds among slots. *)
Definition lookup_name (target : list N) (l : list Slot) : option (ShortDirEntry * N * nat) :=
  flow_result (fold_slots (short_name_body target) l ()).

Lemma lookup_name_found target l e s (i : nat) :
  first_named target l e s i → lookup_name target l = Some (e, s, (i * 32)%nat).
Proof. intros Hf. apply fold_short_name. by exists i. Qed.

Lemma lookup_name_none target l :
  lookup_name target l = None ↔ ∀ e s i, ¬ first_named target l e s i.
Proof.
  split.
  - intros Hn e s i Hf%lookup_name_found. congruence.
  - intros Hn. destruct (lookup_name target l) as [[[e s] o]|] eqn:Hl; [|done].
    apply fold_short_name in Hl as (i & _ & Hf). by apply Hn in Hf.
Qed.

Lemma ready_walk_name c target d Q :
  ready d →
  (∀ d', moves d d' → disk d' = disk d → Q (Val (lookup_name target (dir_slots info (disk d) CHAIN_CAP c))) d') →
  post (walk_chain info (short_name_body target) CHAIN_CAP c ()) d Q.
Proof.
  intros [Hw Hd] HQ. eapply post_mono; [by apply post_walk_chain|].
  intros [r|] d' [[Hl Hdisk] H]; [|done]. destruct H as [(-> & _)|[_ ?]]; [|done].
  apply HQ; [by apply moves_read|done].
Qed.

Lemma ready_find c target d Q :
  ready d →
  (∀ d', moves d d' → disk d' = disk d →
     Q (Val ((λ x, x.1.1) <$> lookup_name target (dir_slots info (disk d) CHAIN_CAP c))) d') →
  post (find_entry_in_directory info c target) d Q.
Proof.
  intros Hr HQ. unfold find_entry_in_directory. apply post_try, ready_walk_name; [done|].
  intros d' Hm Hd. specialize (HQ d' Hm Hd). by destruct (lookup_name _ _) as [[[e s] o]|].
Qed.

Lemma ready_find_location c target d Q :
  ready d →
  (∀ d', moves d d' → disk d' = disk d →
     Q (Val ((λ x, (x.1.1, x.1.2 mod 2 ^ 32, x.2)%N) <$> lookup_name target (dir_slots info (disk d) CHAIN_CAP c))) d') →
  post (find_entry_with_location info c target) d Q.
Proof.
  intros Hr HQ. unfold find_entry_with_location. apply post_try, ready_walk_name; [done|].
  intros d' Hm Hd. specialize (HQ d' Hm Hd). by destruct (lookup_name _ _) as [[[e s] o]|].
Qed.

Lemma ready_read_file e n d Q :
  ready d →
  (∀ d', moves d d' → disk d' = disk d → Q (Val (file_bytes info (disk d) e n)) d') →
  post (read_file_contents info e n) d Q.
Proof.
  intros [Hw Hd] HQ. eapply post_mono; [by apply post_read_file_contents|].
  intros [w|] d' [[Hl Hdisk] H]; [|done]. destruct H as [_ He]. rewrite He by done.
  apply HQ; [by apply moves_read|done].
Qed.

Lemma ready_check name size pattern d Q :
  ready d →
  (∀ d' r, moves d d' → disk d' = disk d →
     (∀ e s (i : nat), first_named name (dir_slots info (disk d) CHAIN_CAP (root_cluster info)) e s i →
        r = (bool_decide (file_size e = N.of_nat size),
             bool_decide (length (file_bytes info (disk d) e MAX_FILE_BYTES) = size) &&
             matches pattern (file_bytes info (disk d) e MAX_FILE_BYTES))) →
     Q (Val r) d') →
  post (check_contents info name size pattern) d Q.
Proof.
  intros Hr HQ. unfold check_contents. apply post_bind, ready_find; [done|]. intros d1 Hm1 Hd1.
  destruct (lookup_name _ _) as [[[e s] o]|] eqn:Hl; cbn [fmap option_fmap option_map fst].
  - apply post_bind, ready_read_file; [by eapply moves_ready|]. intros d2 Hm2 Hd2. apply post_ret.
    apply HQ; [by transitivity d1|congruence|]. intros e' s' i Hf%lookup_name_found.
    rewrite Hf in Hl. injection Hl as -> _ _. by rewrite Hd1.
  - apply post_ret, HQ; [done|done|]. intros e s i Hf%lookup_name_found. congruence.
Qed.

End ready.
