(* ===== verification/FatCreate.v ===== *)
(** * FatCreate: growing a directory and creating a file in it

    What [grow_directory], [find_or_grow_create_slot] and the create sequence of
    [blk-driver-host/src/main.rs] do to a sound volume on a device that answers:
    the directory's slots are as before but for the new entry, the file is found
    under its name with its contents, and no other chain of the FAT changed. *)

From S2P Require Import Prelude Bytes Fat BlkDev FatOps FatAlloc FatDir FatTree.

Section grow.
Context `{HW : BlkHardware} (info : BootSectorInfo) (Hvol : volume_ok info) (Hfits : data_fits info).

Abbreviation fat := (fat info).
Abbreviation moves := (moves info).
Abbreviation usable := (usable info).
Abbreviation allocatable := (allocatable info).

Lemma usable_value c : usable c → N.land c FAT_MASK = c.
Proof. intros [_ Hc]. apply mask_small. pose proof (in_fat_cluster info Hvol c Hc). lia. Qed.

Lemma fat_set c v m m' c' :
  fat_updated info c v m m' → N.land v FAT_MASK = v → in_fat info c' →
  fat m' c' = if decide (c' = c) then v else fat m c'.
Proof. intros Hu Hv Hc'. by rewrite (fat_after info Hvol c v m m' c' Hu Hc'), Hv. Qed.

Lemma outside_data m m' s :
  outside_same info m m' → (data_start_sector info ≤ s)%N → sector_at m' s = sector_at m s.
Proof.
  intros Ho Hs. apply Ho; [unfold in_fat_region; lia|]. destruct Hvol as [Hwf _ Hfs _].
  pose proof (wf_data_start _ Hwf). lia.
Qed.

Lemma exhausted_one m : exhausted info m 1 → ∀ c, ¬ allocatable m c.
Proof. intros (cs & Hlen & Hcs) c Hc%Hcs. destruct cs; [set_solver|cbn in Hlen; lia]. Qed.

Lemma allocatable_usable m c : allocatable m c → usable c.
Proof. by intros (? & ? & _). Qed.

(** One free cluster [new], zeroed and linked behind [z]. *)
Record grown (z new s : N) (m m' : Disk) : Prop := {
  grown_free : allocatable m new;
  grown_sector : cluster_to_sector info new = Some s;
  grown_fat c : in_fat info c →
    fat m' c = if decide (c = z) then new else if decide (c = new) then CHAIN_EOC_MARKER else fat m c;
  grown_data s' : (data_start_sector info ≤ s')%N →
    sector_at m' s' = if decide (s ≤ s' < s + sectors_per_cluster info)%N then zero_sector else sector_at m s';
}.

Lemma post_grow_directory z d Q :
  ready d → usable z →
  (∀ d' new s, moves d d' → grown z new s (disk d) (disk d') → Q (Val (Some (s, 0%nat))) d') →
  (∀ d', moves d d' → fat_restored info (disk d) (disk d') → (∀ c, ¬ allocatable (disk d) c) → Q (Val None) d') →
  post (grow_directory info z) d Q.
Proof.
  intros Hr Hz HQ Hnone. unfold grow_directory. apply post_bind. eapply post_mono.
  { apply (post_allocate_cluster_chain info Hvol 1 [0%N]); [apply Hr|cbn; lia]. }
  intros [[[|] out]|] d1 [Hm1 H1]; [| |done]; cbn [negb].
  2:{ apply post_ret. destruct H1 as [_ H1]. destruct (H1 (proj2 Hr)) as [Hrest Hex].
      apply Hnone; [done|done|by apply exhausted_one]. }
  cbn zeta in H1. destruct H1 as (Hlen & _ & Hfree & Hch & Hsame & Hout).
  destruct out as [|new out]; [done|]. cbn [take] in *. rewrite take_0 in *.
  pose proof (proj1 (Forall_singleton _ _) Hfree) as Hfree'.
  change (default 0%N ((new :: out) !! 0%nat)) with new. specialize (Hch 0%nat new eq_refl). cbn in Hch.
  destruct (usable_sector info new Hfits (allocatable_usable _ _ Hfree')) as (s & Hs & Hlo & Hhi).
  apply post_pure; [|by rewrite Hs]. intros ? [= <-]%(eq_trans (eq_sym Hs)).
  apply post_bind, (post_grow_zero info Hvol); [by eapply moves_ready|done|].
  intros d2 Hm2 Hf2 Hz2. cbn [negb]. assert (moves d d2) as Hm by (by transitivity d1).
  apply post_bind, (ready_fat_entry info Hvol); [by eapply moves_ready|done|].
  intros d3 Hm3 Hupd. cbn [negb]. apply post_ret, (HQ d3 new); [by transitivity d2|]. split; [done|done| |].
  - intros c Hc. rewrite (fat_set _ _ _ _ _ Hupd (usable_value _ (allocatable_usable _ _ Hfree')) Hc).
    case_decide; [done|]. rewrite Hf2 by done. destruct (decide (c = new)) as [->|]; [done|].
    apply Hsame; [done|]. set_solver.
  - intros s' Hs'. rewrite (outside_data _ _ _ (upd_outside _ _ _ _ _ Hupd) Hs'), Hz2, N2Nat.id.
    case_decide; [done|]. by apply outside_data.
Qed.

(** ** Finding a slot *)

(** The first byte says deleted, or past the end. *)
Definition reusable (x : Slot) : Prop :=
  byte_at (slot_entry x) 0 = 0x00%N ∨ byte_at (slot_entry x) 0 = 0xE5%N.

#[global] Instance reusable_dec x : Decision (reusable x).
Proof. unfold reusable. apply _. Defined.

Lemma slot_free_at m s (i : nat) : slot_free (sector_at m s) i ↔ reusable (slot_at m (s, i)).
Proof. unfold slot_free, reusable, slot_at, slot_entry. cbn. by rewrite byte_at_slice, N.add_0_r. Qed.

(** [p] is the first of the positions [ps] whose slot may be reused. *)
Definition first_reusable (m : Disk) (ps : list Position) (p : Position) : Prop :=
  ∃ ps1 ps2, ps = ps1 ++ p :: ps2 ∧ reusable (slot_at m p) ∧ Forall (λ q, ¬ reusable (slot_at m q)) ps1.

Lemma first_reusable_app m ps qs p :
  Forall (λ q, ¬ reusable (slot_at m q)) ps → first_reusable m qs p → first_reusable m (ps ++ qs) p.
Proof.
  intros Hps (ps1 & ps2 & -> & Hp & Hps1). exists (ps ++ ps1), ps2. rewrite <-app_assoc.
  split_and!; [done|done|]. by apply Forall_app.
Qed.

Lemma first_reusable_prefix m ps qs p : first_reusable m ps p → first_reusable m (ps ++ qs) p.
Proof. intros (ps1 & ps2 & -> & H). exists ps1, (ps2 ++ qs). by rewrite <-app_assoc. Qed.

Lemma in_sector_first m s (i : nat) :
  disk_wf m → find_reusable_slot (sector_at m s) = Some i →
  (i < 16)%nat ∧ first_reusable m (pair s <$> seq 0 16) (s, i).
Proof.
  intros Hw (Hi & Hf & Hb)%find_reusable_slot_Some. pose proof (sector_window m s Hw) as Hl.
  assert (length (sector_at m s) / 32 = 16)%nat as Hlen by (unfold len, SECTOR_SIZE in Hl; by rewrite (eq_refl : 16 = 512 / 32)%nat; f_equal; lia).
  rewrite Hlen in Hi. split; [done|].
  exists (pair s <$> seq 0 i), (pair s <$> seq (S i) (15 - i)). split_and!.
  - rewrite <-fmap_cons, <-fmap_app. f_equal. change (i :: seq (S i) (15 - i)) with (seq i (S (15 - i))).
    rewrite <-seq_app. f_equal. lia.
  - by apply slot_free_at.
  - apply Forall_fmap, Forall_forall. intros j Hj%elem_of_seq. cbn. rewrite <-slot_free_at. apply Hb. lia.
Qed.

Lemma in_sector_none m s :
  disk_wf m → find_reusable_slot (sector_at m s) = None →
  Forall (λ q, ¬ reusable (slot_at m q)) (pair s <$> seq 0 16).
Proof.
  intros Hw Hf. pose proof (proj1 (find_reusable_slot_None _) Hf) as Hnone. pose proof (sector_window m s Hw) as Hl.
  apply Forall_fmap, Forall_forall. intros j Hj%elem_of_seq. cbn. rewrite <-slot_free_at. apply Hnone.
  unfold len, SECTOR_SIZE in Hl. replace (length (sector_at m s)) with 512%nat by lia. cbn. lia.
Qed.

Lemma post_slot_in_sectors n s d Q :
  ready d → (s + N.of_nat n ≤ u32_max)%N →
  (∀ d' p, moves d d' → disk d' = disk d → first_reusable (disk d) (sector_positions n s) p →
     Q (Val (Some (Some (p.1, p.2 * 32)%nat))) d') →
  (∀ d', moves d d' → disk d' = disk d →
     Forall (λ q, ¬ reusable (slot_at (disk d) q)) (sector_positions n s) → Q (Val (Some None)) d') →
  post (slot_in_sectors n s) d Q.
Proof.
  revert s d. induction n as [|n IH]; intros s d Hr Hs Hfound Hnone; cbn [slot_in_sectors sector_positions] in *.
  { apply post_ret, Hnone; [done|done|constructor]. }
  apply post_try, (ready_read info); [done|]. intros d1 Hm1 Hd1.
  destruct (find_reusable_slot (sector_at (disk d) s)) as [i|] eqn:Hf.
  - apply post_ret. destruct (in_sector_first _ _ _ (proj1 Hr) Hf) as [Hi Hfirst].
    rewrite N.mod_small by (unfold u32_max in Hs; lia).
    apply (Hfound d1 (s, i)); [done|done|]. by apply first_reusable_prefix.
  - pose proof (in_sector_none _ _ (proj1 Hr) Hf) as Hf'.
    apply IH; [by eapply moves_ready|lia| |]; rewrite Hd1.
    + intros d' p Hm Hd Hp. apply Hfound; [by transitivity d1|done|by apply first_reusable_app].
    + intros d' Hm Hd Hp. apply Hnone; [by transitivity d1|done|by apply Forall_app].
Qed.

(** The walk returns the first reusable slot of the directory, or grows it. *)
Lemma post_create_walk fuel c l z d Q :
  ready d → fat_chain info (disk d) c l → last l = Some z → (length l ≤ fuel)%nat →
  (∀ d' p, moves d d' → disk d' = disk d → first_reusable (disk d) (positions info l) p →
     Q (Val (Some (p.1, p.2 * 32)%nat)) d') →
  (∀ d', moves d d' → disk d' = disk d → Forall (λ q, ¬ reusable (slot_at (disk d) q)) (positions info l) →
     post (grow_directory info z) d' Q) →
  post (create_slot_walk info fuel c) d Q.
Proof.
  revert fuel c d. induction l as [|x l IH]; intros fuel c d Hr Hch Hlast Hlen Hfound Hgrow.
  { by apply fat_chain_head in Hch as [? ?]. }
  destruct fuel as [|fuel]; [cbn in Hlen; lia|]. cbn [create_slot_walk].
  destruct (fat_chain_head _ _ _ _ Hch) as [? [= -> _]]. pose proof (fat_chain_start _ _ _ _ Hch) as Hu.
  destruct (usable_sector info c Hfits Hu) as (s & Hs & Hlo & Hhi).
  assert (positions info (c :: l) = sector_positions (N.to_nat (sectors_per_cluster info)) s ++ positions info l) as Hpos
    by (unfold positions, cluster_positions at 1; cbn [mbind list_bind]; by rewrite Hs).
  rewrite Hpos in Hfound, Hgrow.
  apply post_pure; [|by rewrite Hs]. intros ? [= <-]%(eq_trans (eq_sym Hs)).
  apply post_try, post_slot_in_sectors; [done|lia| |].
  { intros d1 p Hm1 Hd1 Hp. apply post_ret, Hfound; [done|done|by apply first_reusable_prefix]. }
  intros d1 Hm1 Hd1 Hnone. apply post_try, (ready_next info Hvol); [by eapply moves_ready|apply Hu|].
  intros d2 Hm2 Hd2. rewrite Hd1 in *. assert (moves d d2) as Hm by (by transitivity d1).
  inversion Hch as [? ? He|? ? ? He Hch']; subst; rewrite He.
  - injection Hlast as <-. apply Hgrow; [done|done|]. by rewrite app_nil_r in *.
  - assert (last l = Some z) as Hlast'
      by (destruct (fat_chain_head _ _ _ _ Hch') as [? ->]; by rewrite last_cons_cons in Hlast).
    apply (IH fuel _ d2); [by eapply moves_ready|by rewrite Hd2|done|cbn in Hlen; lia| |]; rewrite Hd2.
    + intros d' p Hm' Hd' Hp. apply Hfound; [by transitivity d2|done|by apply first_reusable_app].
    + intros d' Hm' Hd' Hp. apply Hgrow; [by transitivity d2|done|by apply Forall_app].
Qed.

(** ** Room for a new entry *)

(** The sectors of a cluster hold what they held. *)
Definition cluster_kept (c : N) (m m' : Disk) : Prop :=
  ∀ s k, cluster_to_sector info c = Some s → (k < sectors_per_cluster info)%N →
    sector_at m' (s + k) = sector_at m (s + k).

(** The directory's chain [l] may have become [l'], by one zeroed cluster that
    was free; [p] is its first reusable slot. *)
Record made_room (root : N) (l l' : list N) (p : Position) (m m' : Disk) : Prop := {
  room_chain : fat_chain info m' root l';
  room_length : (length l' ≤ S (length l))%nat;
  room_prefix : ∃ ext, l' = l ++ ext ∧ Forall (allocatable m) ext;
  room_first : first_reusable m' (positions info l') p;
  room_old q : q ∈ positions info l → slot_at m' q = slot_at m q;
  room_new q : q ∈ positions info l' → q ∉ positions info l → byte_at (slot_entry (slot_at m' q)) 0 = 0%N;
  room_fat c : in_fat info c → c ∉ l' → fat m' c = fat m c;
  room_data c : c ∉ l' → cluster_kept c m m';
}.

Lemma made_room_here root l p m :
  fat_chain info m root l → first_reusable m (positions info l) p → made_room root l l p m m.
Proof.
  intros Hch Hp. split; try done; [lia|]. exists []. by rewrite app_nil_r.
Qed.

Lemma zero_slot (i : nat) : (i < 16)%nat → byte_at (slice zero_sector (32 * N.of_nat i) 32) 0 = 0%N.
Proof.
  intros Hi. rewrite byte_at_slice by done. unfold byte_at, zero_sector. rewrite lookup_replicate_2 by lia. done.
Qed.

Lemma made_room_grown root l z new s m m' :
  fat_chain info m root l → last l = Some z → Forall (λ q, ¬ reusable (slot_at m q)) (positions info l) →
  grown z new s m m' → made_room root l (l ++ [new]) (s, 0%nat) m m'.
Proof.
  intros Hch Hlast Hnone [Hfree Hs Hfat Hdata].
  pose proof (fat_chain_free _ _ _ _ _ Hch Hfree) as Hnew.
  pose proof (allocatable_usable _ _ Hfree) as Hnu.
  assert (z ∈ l) as Hzl by (by apply last_Some_elem_of).
  assert (z ≠ new) as Hzn by set_solver.
  assert (∀ c, c ∈ l → in_fat info c) as Hin.
  { intros c Hc. by destruct (proj1 (Forall_forall _ _) (fat_chain_usable _ _ _ _ Hch) c Hc). }
  pose proof (wf_spc _ (vol_boot _ Hvol)) as Hspc.
  assert (∀ c s' k, c ≠ new → cluster_to_sector info c = Some s' → (k < sectors_per_cluster info)%N →
    sector_at m' (s' + k) = sector_at m (s' + k)) as Hother.
  { intros c s' k Hc Hs' Hk. pose proof (cluster_behind_fats _ _ _ Hs'). rewrite Hdata by lia.
    rewrite decide_False; [done|]. intros Hr.
    apply (clusters_disjoint info c new s' s k (s' + k - s) Hs' Hs Hc Hk); lia. }
  assert (positions info [new] = sector_positions (N.to_nat (sectors_per_cluster info)) s) as Hpos
    by (unfold positions, cluster_positions; cbn [mbind list_bind]; by rewrite Hs, app_nil_r).
  assert (∀ q, q ∈ positions info [new] → byte_at (slot_entry (slot_at m' q)) 0 = 0%N) as Hzero.
  { intros q Hq. rewrite Hpos in Hq. apply elem_of_sector_positions in Hq as [Hq1 Hq2].
    unfold slot_at, slot_entry. cbn [snd]. pose proof (cluster_behind_fats _ _ _ Hs).
    rewrite Hdata, decide_True by lia. by apply zero_slot. }
  assert (∀ q, q ∈ positions info l → slot_at m' q = slot_at m q) as Hold.
  { intros q (c & s' & Hc & Hs' & Hr & _)%elem_of_positions. unfold slot_at. do 2 f_equal.
    replace q.1 with (s' + (q.1 - s'))%N by lia. apply (Hother c); [set_solver|done|lia]. }
  split.
  - eapply (fat_chain_extend info Hvol m m' root l z new); [done|done|done| | |].
    + rewrite Hfat by apply Hnu. rewrite decide_False, decide_True by done. done.
    + rewrite Hfat by auto. by rewrite decide_True.
    + intros x Hx Hxz. rewrite Hfat by auto. rewrite !decide_False by set_solver. done.
  - rewrite length_app. cbn. lia.
  - exists [new]. split; [done|]. by constructor.
  - rewrite positions_app. apply first_reusable_app.
    { apply Forall_forall. intros q Hq. rewrite Hold by done. by eapply (proj1 (Forall_forall _ _) Hnone). }
    rewrite Hpos. destruct (N.to_nat (sectors_per_cluster info)) as [|n] eqn:Hn; [lia|].
    exists [], ((pair s <$> seq 1 15) ++ sector_positions n (s + 1)). split_and!; [done| |constructor].
    left. apply Hzero. rewrite Hpos. by left.
  - done.
  - intros q Hq Hql. rewrite positions_app, elem_of_app in Hq. destruct Hq; [done|auto].
  - intros c Hc Hcl. rewrite Hfat by done. rewrite !decide_False by set_solver. done.
  - intros c Hc s' k Hs' Hk. apply (Hother c); [set_solver|done|done].
Qed.

Lemma post_find_or_grow root l d Q :
  ready d → fat_chain info (disk d) root l → (length l ≤ CHAIN_CAP)%nat →
  (∀ d' l' p, moves d d' → made_room root l l' p (disk d) (disk d') →
     Q (Val (Some (p.1, p.2 * 32)%nat)) d') →
  (∀ d', moves d d' → fat_restored info (disk d) (disk d') → (∀ c, ¬ allocatable (disk d) c) → Q (Val None) d') →
  post (find_or_grow_create_slot info root) d Q.
Proof.
  intros Hr Hch Hlen HQ Hnone. destruct (fat_chain_has_last _ _ _ _ Hch) as (z & Hlast & Hz & _).
  unfold find_or_grow_create_slot. eapply post_create_walk; [done|done|done|done| |].
  - intros d' p Hm Hd Hp. eapply HQ; [done|]. rewrite Hd. by apply made_room_here.
  - intros d1 Hm1 Hd1 Hfull. apply post_grow_directory; [by eapply moves_ready|done| |].
    + intros d' new s Hm Hg. rewrite Hd1 in Hg. apply (HQ d' (l ++ [new]) (s, 0%nat)); [by transitivity d1|].
      by eapply made_room_grown.
    + intros d' Hm. rewrite Hd1. intros Hrest Hno. apply Hnone; [by transitivity d1|done|done].
Qed.

Lemma kept_bytes c m m' : cluster_kept c m m' → cluster_bytes info m' c = cluster_bytes info m c.
Proof.
  intros Hk. unfold cluster_bytes. destruct (cluster_to_sector info c) as [s|] eqn:Hs; [|done].
  assert (∀ k, (k < sectors_per_cluster info)%N → sector_at m' (s + k) = sector_at m (s + k)) as Hsec by (intros; by apply Hk).
  assert (∀ n j, (j + N.of_nat n ≤ sectors_per_cluster info)%N →
    sector_bytes m' n (s + j) = sector_bytes m n (s + j)) as Hall.
  { induction n as [|n IH]; intros j Hj; cbn [sector_bytes]; [done|]. rewrite Hsec by lia. f_equal.
    rewrite <-N.add_assoc. apply IH. lia. }
  rewrite <-(N.add_0_r s). apply Hall. lia.
Qed.

(** A file whose clusters and FAT entries were kept reads as before. *)
Lemma kept_file m m' e fl n :
  disk_wf m → disk_wf m' → fat_chain info m (first_cluster e) fl → (length fl ≤ CHAIN_CAP)%nat →
  (∀ x, x ∈ fl → cluster_kept x m m' ∧ (in_fat info x → fat m' x = fat m x)) →
  fat_chain info m' (first_cluster e) fl ∧ file_bytes info m' e n = file_bytes info m e n.
Proof.
  intros Hw Hw' Hch Hlen Hkept. pose proof (proj1 (Forall_forall _ _) (fat_chain_usable _ _ _ _ Hch)) as Hu.
  assert (fat_chain info m' (first_cluster e) fl) as Hch'.
  { apply (fat_chain_ext info m); [|done]. intros x Hx. apply Hkept; [done|]. by apply Hu. }
  split; [done|]. unfold file_bytes, chain_bytes. rewrite !(visited_chain info Hvol _ _ _ _ Hfits) by done. f_equal.
  clear Hch Hch' Hu Hlen. induction fl as [|x fl IH]; cbn; [done|].
  rewrite (kept_bytes x m m') by (apply Hkept; by left). f_equal. apply IH. intros y Hy. apply Hkept. by right.
Qed.

(** ** A created file *)

(** Its contents fill the front of one sector. *)
Definition contents (size : nat) (content : nat → N) : list N := content <$> seq 0 size.

Lemma take_fill size content :
  (size ≤ 512)%nat → take size (fill size content zero_sector) = contents size content.
Proof.
  intros Hs. apply list_eq. intros i. unfold contents, fill. rewrite list_lookup_fmap.
  destruct (decide (i < size)%nat) as [Hi|Hi].
  - rewrite lookup_take_lt, list_lookup_imap, lookup_seq_lt by done. unfold zero_sector.
    rewrite lookup_replicate_2 by lia. cbn. by rewrite decide_True.
  - rewrite lookup_take_ge, lookup_seq_ge by lia. done.
Qed.

Lemma fill_is_sector size content : (∀ i, content i < 256)%N → is_sector (fill size content zero_sector).
Proof.
  intros Hc. unfold is_sector, len, SECTOR_SIZE, fill, bytes. rewrite length_imap. split; [done|].
  apply Forall_lookup_2. intros i b. rewrite list_lookup_imap, fmap_Some.
  intros (b0 & Hb0%lookup_replicate & ->). destruct Hb0 as [-> _]. case_decide; [auto|done].
Qed.

Lemma matches_contents size content : matches content (contents size content) = true.
Proof.
  unfold matches, contents. apply forallb_forall. intros b Hb%list_elem_of_In.
  apply list_elem_of_lookup in Hb as [i Hi]. rewrite list_lookup_imap, list_lookup_fmap in Hi.
  destruct (decide (i < size)%nat) as [Hlt|Hge].
  - rewrite lookup_seq_lt in Hi by done. cbn in Hi. injection Hi as <-. by rewrite bool_decide_eq_true_2.
  - rewrite lookup_seq_ge in Hi by lia. done.
Qed.

Section created.
Context (name : list N) (size : nat) (content : nat → N).
Context (Hname : entry_name name) (Hsize : (size ≤ 512)%nat) (Hcontent : ∀ i, (content i < 256)%N).

Definition created_entry (c : N) : ShortDirEntry := mkEntry name c (N.of_nat size) false.

(** In the directory at [root], whose chain was [l], the file now exists: its
    entry at slot [p], its contents in the cluster [c] that was free. *)
Record created (root : N) (l l' : list N) (p : Position) (c : N) (m m' : Disk) : Prop := {
  cr_prefix : ∃ ext, l' = l ++ ext ∧ Forall (allocatable m) ext;
  cr_chain : fat_chain info m' root l';
  cr_free : allocatable m c;
  cr_entry : first_named name (slot_at m' <$> positions info l') (created_entry c) p.1 p.2;
  cr_bytes : fat_chain info m' c [c] ∧
    take size (cluster_bytes info m' c) = contents size content;
  cr_old q : q ∈ positions info l → q ≠ p → slot_at m' q = slot_at m q;
  cr_new q : q ∈ positions info l' → q ∉ positions info l → q ≠ p → byte_at (slot_entry (slot_at m' q)) 0 = 0%N;
  cr_others x : x ∉ l' → x ≠ c → cluster_kept x m m' ∧ (in_fat info x → fat m' x = fat m x);
}.

Lemma copy_whole buf src : len src = len buf → copy_at buf 0 src = src.
Proof.
  intros Hl. unfold copy_at. cbn [N.to_nat]. rewrite take_0. cbn. rewrite drop_ge, app_nil_r; [done|].
  unfold len in Hl. lia.
Qed.

(** The three writes, seen from the medium [m1] they start from: the cluster [c]
    at sector [s], its FAT entry, the slot [p]. *)
Record installed (l' : list N) (p : Position) (c s : N) (m1 m4 : Disk) : Prop := {
  ins_fat x : in_fat info x → fat m4 x = if decide (x = c) then CHAIN_EOC_MARKER else fat m1 x;
  ins_data s' : (data_start_sector info ≤ s')%N → s' ≠ p.1 → s' ≠ s → sector_at m4 s' = sector_at m1 s';
  ins_content : sector_at m4 s = fill size content zero_sector;
  ins_slots q : q ∈ positions info l' → slot_at m4 q =
    if decide (q = p) then (p.1, p.2, new_short_entry name c (N.of_nat size)) else slot_at m1 q;
}.

Lemma position_range l' c s q :
  c ∉ l' → cluster_to_sector info c = Some s → q ∈ positions info l' →
  q.1 ≠ s ∧ (data_start_sector info ≤ q.1)%N ∧ (q.2 < 16)%nat.
Proof.
  intros Hc Hs Hq. pose proof (wf_spc _ (vol_boot _ Hvol)). split.
  - rewrite <-(N.add_0_r s). eapply positions_disjoint; [done|exact Hc|done|lia].
  - destruct (elem_of_positions _ _ _ Hq) as (? & ? & _ & Hs'%cluster_behind_fats & ? & ?). lia.
Qed.

Lemma len_new_entry c n : len (new_short_entry name c n) = 32%N.
Proof. unfold len. by rewrite length_new_entry by apply Hname. Qed.

Lemma install l' p c s m1 m2 m3 :
  disk_wf m3 → p ∈ positions info l' → c ∉ l' → cluster_to_sector info c = Some s →
  m2 = <[s := fill size content zero_sector]> m1 → fat_updated info c CHAIN_EOC_MARKER m2 m3 →
  installed l' p c s m1 (patch_slot p 0 (new_short_entry name c (N.of_nat size)) m3).
Proof.
  intros Hw3 Hp Hc Hs -> Hupd. pose proof (cluster_behind_fats _ _ _ Hs) as Hlo.
  destruct (position_range _ _ _ _ Hc Hs Hp) as (Hps & Hpd & Hp16). pose proof (upd_outside _ _ _ _ _ Hupd) as Hout.
  split.
  - intros x Hx. unfold patch_slot. rewrite fat_data_write by done.
    rewrite (fat_set _ _ _ _ _ Hupd eq_refl Hx). case_decide; [done|]. by rewrite fat_data_write.
  - intros s' Hs' Hsp' Hss. unfold patch_slot. rewrite sector_at_insert, decide_False by done.
    by rewrite (outside_data _ _ _ Hout Hs'), sector_at_insert, decide_False by done.
  - unfold patch_slot. rewrite sector_at_insert, decide_False by done.
    by rewrite (outside_data _ _ _ Hout Hlo), sector_at_insert, decide_True by done.
  - intros q Hq. destruct (position_range _ _ _ _ Hc Hs Hq) as (Hqs & Hqd & Hq16).
    rewrite slot_at_patch by (done || rewrite len_new_entry; lia). case_decide as Hqp.
    + do 2 f_equal. apply copy_whole. rewrite len_new_entry. symmetry. apply length_slice.
      rewrite sector_window by done. unfold SECTOR_SIZE. lia.
    + unfold slot_at. do 2 f_equal. rewrite (outside_data _ _ _ Hout Hqd).
      by rewrite sector_at_insert, decide_False.
Qed.

(** The new entry is the first of its name. *)
Lemma created_named root l l' p c s m m1 m4 :
  made_room root l l' p m m1 → usable c → installed l' p c s m1 m4 →
  (∀ q, q ∈ positions info l → ∀ e, ¬ names name (slot_entry (slot_at m q)) e) →
  first_named name (slot_at m4 <$> positions info l') (created_entry c) p.1 p.2.
Proof.
  intros [_ _ _ (ps1 & ps2 & Heq & Hre & Hps1) Hold Hnew _ _] Hcu [_ _ _ Hslot] Hfresh.
  rewrite Heq in *. rewrite fmap_app, fmap_cons.
  exists (slot_at m4 <$> ps1), (new_short_entry name c (N.of_nat size)), (slot_at m4 <$> ps2). split_and!.
  - f_equal. f_equal. rewrite Hslot by set_solver. by rewrite decide_True.
  - split; [|done]. apply parse_new_entry; [apply Hname|done| |lia].
    destruct Hcu as [_ Hin]. pose proof (in_fat_cluster info Hvol c Hin). lia.
  - apply Forall_fmap, Forall_forall. intros q Hq. unfold compose.
    pose proof (proj1 (Forall_forall _ _) Hps1 q Hq) as Hnre. cbv beta in Hnre.
    rewrite Hslot, decide_False by (set_solver || by intros ->).
    split; [by intros Hz; apply Hnre; left|]. intros e' [He' Hn'].
    destruct (decide (q ∈ positions info l)) as [Hqo|Hqn].
    + rewrite Hold in He' by done. by apply (Hfresh q Hqo e').
    + apply Hnre. left. apply Hnew; [set_solver|done].
Qed.

Lemma created_intro root l l' p c s m m1 m4 :
  made_room root l l' p m m1 → disk_wf m4 → allocatable m1 c → cluster_to_sector info c = Some s →
  (∀ q, q ∈ positions info l → ∀ e, ¬ names name (slot_entry (slot_at m q)) e) →
  installed l' p c s m1 m4 → created root l l' p c m m4.
Proof.
  intros Hroom Hw4 Hc Hs Hfresh Hins. pose proof (allocatable_usable _ _ Hc) as Hcu.
  pose proof (created_named _ _ _ _ _ _ _ _ _ Hroom Hcu Hins Hfresh) as Hnamed.
  destruct Hroom as [Hch _ Hpre Hfirst Hold Hnew Hfat Hdata], Hins as [Hfat4 Hsec Hcont Hslot].
  pose proof (fat_chain_free _ _ _ _ _ Hch Hc) as Hcl. pose proof (wf_spc _ (vol_boot _ Hvol)) as Hspc.
  assert (p ∈ positions info l') as Hp by (destruct Hfirst as (? & ? & -> & _); set_solver).
  split; [done| | |done| | | |].
  - apply (fat_chain_ext info m1); [|exact Hch]. intros x Hx. rewrite Hfat4, decide_False; [done|set_solver|].
    by apply (proj1 (Forall_forall _ _) (fat_chain_usable _ _ _ _ Hch) x Hx).
  - destruct Hc as (H2 & Hin & Hz). split_and!; [done|done|]. by rewrite <-Hfat.
  - split; [constructor; [done|]; rewrite Hfat4 by apply Hcu; by rewrite decide_True|].
    unfold cluster_bytes. rewrite Hs. destruct (N.to_nat (sectors_per_cluster info)) as [|n] eqn:Hn; [lia|].
    cbn [sector_bytes]. pose proof (sector_window m4 s Hw4) as Hl. unfold len, SECTOR_SIZE in Hl.
    rewrite take_app_le by lia. rewrite Hcont. by apply take_fill.
  - intros q Hq Hqp. assert (q ∈ positions info l') as Hq'
      by (destruct Hpre as (ext & -> & _); rewrite positions_app; set_solver).
    rewrite Hslot, decide_False by done. auto.
  - intros q Hq Hqn Hqp. rewrite Hslot, decide_False by done. auto.
  - intros x Hx Hxc. split; [|intros Hin; rewrite Hfat4, decide_False by done; auto].
    intros s' k Hs' Hk. pose proof (cluster_behind_fats _ _ _ Hs'). rewrite Hsec.
    + by apply (Hdata x Hx).
    + lia.
    + intros Heq. eapply (positions_disjoint info l' p x); [done|done|done|done|by rewrite Heq].
    + rewrite <-(N.add_0_r s). by apply (clusters_disjoint info x c); [| | |done|lia].
Qed.

Lemma created_file_bytes root l l' p c m m' :
  created root l l' p c m m' → disk_wf m' →
  file_bytes info m' (created_entry c) MAX_FILE_BYTES = contents size content.
Proof.
  intros [_ _ _ _ [Hc Hb] _ _ _] Hw. unfold file_bytes, chain_bytes. cbn [file_size first_cluster created_entry].
  rewrite (visited_chain info Hvol _ _ _ _ Hfits Hw Hc) by (unfold CHAIN_CAP; cbn [length]; lia).
  cbn [mbind list_bind]. rewrite app_nil_r, Nat2N.id.
  rewrite Nat.min_l; [done|]. unfold MAX_FILE_BYTES. lia.
Qed.

(** Every other file reads as before. *)
Lemma created_keeps root l l' p c m m' e fl n :
  created root l l' p c m m' → disk_wf m → disk_wf m' →
  fat_chain info m (first_cluster e) fl → (length fl ≤ CHAIN_CAP)%nat → (∀ x, x ∈ fl → x ∉ l) →
  file_bytes info m' e n = file_bytes info m e n.
Proof.
  intros [(ext & -> & Hext) _ Hc _ _ _ _ Hothers] Hw Hw' Hch Hlen Hdisj.
  apply (kept_file m m' e fl n Hw Hw' Hch Hlen). intros x Hx. apply Hothers.
  - intros [|Hxe]%elem_of_app; [by apply (Hdisj x)|].
    by eapply (fat_chain_free _ _ _ _ _ Hch); [eapply (proj1 (Forall_forall _ _) Hext)|].
  - intros ->. by eapply (fat_chain_free _ _ _ _ _ Hch).
Qed.

(** On a sound volume with room for a new file, all of the sequence's checks
    pass and the file is there. *)
Lemma post_create_file l d Q :
  ready d → fat_chain info (disk d) (root_cluster info) l → (length l < CHAIN_CAP)%nat →
  (∀ q, q ∈ positions info l → ∀ e, ¬ names name (slot_entry (slot_at (disk d) q)) e) →
  (∀ d' l' p c, moves d d' → created (root_cluster info) l l' p c (disk d) (disk d') → Q (Val (Some true)) d') →
  (∀ d', moves d d' → exhausted info (disk d) 2 → Q (Val None) d') →
  post (create_file info name size content) d Q.
Proof.
  intros Hr Hch Hlen Hfresh HQ Hnone. unfold create_file. apply post_try.
  eapply (post_find_or_grow _ l); [done|done|lia| |].
  2:{ intros d1 Hm1 _ Hno. apply Hnone; [done|]. exists []. split; [cbn; lia|]. by intros c ?%Hno. }
  intros d1 l' p Hm1 Hroom. apply post_try, (ready_allocate info Hvol); [by eapply moves_ready| |].
  2:{ intros d2 Hm2 Hd2 Hno. apply Hnone; [by transitivity d1|].
      destruct Hroom as [_ Hlen' (ext & -> & Hext) _ _ _ Hfat _]. exists ext. rewrite length_app in Hlen'.
      split; [lia|]. intros c Hc. destruct (decide (c ∈ l ++ ext)) as [[Hcl|]%elem_of_app|Hcl]; [|done|].
      - by destruct (fat_chain_free _ _ _ _ _ Hch Hc).
      - destruct (Hno c). destruct Hc as (H2 & Hin & Hz). split_and!; [done|done|]. by rewrite Hfat. }
  intros d2 c Hm2 Hd2 Hc _. pose proof (allocatable_usable _ _ Hc) as Hcu.
  destruct (usable_sector info c Hfits Hcu) as (s & Hs & Hlo & _).
  apply post_pure; [|by rewrite Hs]. intros ? [= <-]%(eq_trans (eq_sym Hs)).
  assert (moves d d2) as Hm02 by (by transitivity d1).
  apply post_bind, (ready_data_write info Hvol); [by eapply moves_ready|done|by apply fill_is_sector|].
  intros d3 r Hm3 Hok Hd3. rewrite Hd2 in Hd3. assert (moves d d3) as Hm03 by (by transitivity d2).
  apply post_bind, (ready_fat_entry info Hvol); [by eapply moves_ready|done|].
  intros d4 Hm4 Hupd. assert (moves d d4) as Hm04 by (by transitivity d3).
  assert (p ∈ positions info l') as Hp by (destruct (room_first _ _ _ _ _ _ Hroom) as (? & ? & -> & _); set_solver).
  pose proof (fat_chain_free _ _ _ _ _ (room_chain _ _ _ _ _ _ Hroom) Hc) as Hcl.
  destruct (position_range _ _ _ _ Hcl Hs Hp) as (_ & Hpd & Hp16).
  replace (p.2 * 32)%nat with (p.2 * 32 + N.to_nat 0)%nat by (cbn; lia).
  apply post_bind, (ready_patch_slot info Hvol);
    [by eapply moves_ready|done|rewrite len_new_entry; lia|apply bytes_new_entry; apply Hname|done|].
  intros d5 Hm5 Hd5. assert (moves d d5) as Hm05 by (by transitivity d4).
  assert (disk_wf (disk d4) ∧ disk_wf (disk d5)) as [Hw4 Hw5]
    by (split; [apply (moves_wf info _ _ Hm04)|apply (moves_wf info _ _ Hm05)]; apply Hr).
  pose proof (install l' p c s _ _ _ Hw4 Hp Hcl Hs Hd3 Hupd) as Hins. rewrite <-Hd5 in Hins.
  pose proof (created_intro _ _ _ _ _ _ _ _ _ Hroom Hw5 Hc Hs Hfresh Hins) as Hcr.
  apply post_bind, (ready_check info); [by eapply moves_ready|]. intros d6 res Hm6 Hd6 Hres.
  rewrite (dir_slots_chain info _ _ l' Hvol Hfits Hw5 (cr_chain _ _ _ _ _ _ _ Hcr)) in Hres
    by (pose proof (room_length _ _ _ _ _ _ Hroom); lia).
  rewrite (Hres _ _ _ (cr_entry _ _ _ _ _ _ _ Hcr)), (created_file_bytes _ _ _ _ _ _ _ Hcr Hw5), Hok.
  rewrite matches_contents, !bool_decide_eq_true_2; [|by unfold contents; rewrite length_fmap, length_seq|done].
  apply post_ret, (HQ d6 l' p c); [by transitivity d5|by rewrite Hd6].
Qed.

End created.

End grow.
