(* ===== verification/FatSelfTest.v ===== *)
(** * FatSelfTest: the driver's boot-time checks

    Model of [_start]'s choice of mode and of the [run_*_proof] sequences of
    [blk-driver-host/src/main.rs], which exercise the volume at boot and report
    one result byte.  Console output is not modelled: each sequence is the bool
    it returns.  The theorems say what creating and deleting a file do to the
    volume, and when the driver's own checks of them pass. *)

From S2P Require Import Prelude Text Bytes Fat BlkDev FatOps FatAlloc FatDir FatTree FatCreate.

(** ** Fixtures *)

Definition TEST_PATTERN_PREFIX : string := "RUNIX-BLK-PROOF-1234567890ABCDEF".
Definition TARGET_FILE_NAME : list N := as_bytes "HELLO   TXT".
Definition EXPECTED_FILE_CONTENTS : list N :=
  as_bytes "RUNIX-FAT32-PROOF: this file was read from a real FAT32 filesystem." ++ [10%N].
Definition SUBDIR_NAME : list N := as_bytes "SUBDIR     ".
Definition NESTED_FILE_NAME : list N := as_bytes "NESTED  TXT".
Definition NESTED_EXPECTED_CONTENTS : list N :=
  as_bytes "RUNIX-FAT32-PROOF: nested file inside a real subdirectory." ++ [10%N].
Definition BIG_FILE_NAME : list N := as_bytes "BIG     TXT".
Definition BIG_FILE_LEN : nat := 3000.
Definition LONG_FILE_NAME_ASCII : list N := as_bytes "long-filename-test.txt".
Definition LONG_FILE_NAME_ASCII_UPPER : list N := as_bytes "LONG-FILENAME-TEST.TXT".
Definition LONG_FILE_EXPECTED_CONTENTS : list N :=
  as_bytes "RUNIX-FAT32-PROOF: located via a real long filename, not 8.3." ++ [10%N].
Definition WRITE_FILE_NAME : list N := as_bytes "WRITE   TXT".
Definition PARTIAL_FILE_NAME : list N := as_bytes "PARTIAL TXT".
Definition PARTIAL_NEW_LEN : nat := 300.
Definition GROW_FILE_NAME : list N := as_bytes "GROW    TXT".
Definition GROW_INITIAL_LEN : nat := 512.
Definition GROW_APPEND_LEN : nat := 200.
Definition DELETE_FILE_NAME : list N := as_bytes "DELETE_MTXT".
Definition CREATE_FILE_NAME : list N := as_bytes "CREATED TXT".
Definition CREATE_FILE_LEN : nat := 64.
Definition MULTI_FILE_NAME : list N := as_bytes "MULTI   TXT".
Definition MULTI_INITIAL_LEN : nat := 512.
Definition MULTI_APPEND_LEN : nat := 700.
Definition GROWDIR_FILE_NAME : list N := as_bytes "GROWDIR TXT".
Definition GROWDIR_FILE_LEN : nat := 40.

(** [base + (i % n) as u8] *)
Definition cycle (base n : N) (i : nat) : N := (base + N.of_nat i mod n)%N.

Definition expected_big_file_byte : nat → N := cycle 48 10.
Definition write_pattern_byte (i : nat) : N := (90 - N.of_nat i mod 26)%N.
Definition partial_initial_byte : nat → N := cycle 97 26.
Definition partial_new_byte : nat → N := cycle 48 10.
Definition grow_initial_byte (i : nat) : N :=
  match (N.of_nat i mod 3)%N with 0%N => 88 | 1%N => 89 | _ => 90 end%N.
Definition grow_append_byte : nat → N := cycle 48 10.
Definition create_content_byte : nat → N := cycle 65 26.
Definition multi_initial_byte : nat → N := cycle 109 5.
Definition multi_append_byte : nat → N := cycle 48 10.
Definition growdir_content_byte (i : nat) : N := if decide (N.of_nat i mod 2 = 0)%N then 71%N else 68%N.

(** The first [n] bytes follow one pattern, the rest another. *)
Definition appended (n : nat) (initial append : nat → N) (i : nat) : N :=
  if decide (i < n)%nat then initial i else append (i - n)%nat.

Section proofs.
Context `{HW : BlkHardware}.

Definition run_sector_roundtrip_proof : DevM bool :=
  let pattern := copy_at zero_sector 0 (as_bytes TEST_PATTERN_PREFIX) in
  r ← write_sector 0 pattern;
  read_back ← read_sector 0;
  mret (write_ok r && bool_decide (read_back = Some pattern)).

Context (info : BootSectorInfo).

(** [written >= expected.len() && &buf[..expected.len()] == expected] *)
Definition starts_with (expected written : list N) : bool :=
  bool_decide (length expected ≤ length written)%nat && bool_decide (take (length expected) written = expected).

Definition run_subdir_proof : DevM bool :=
  o ← find_entry_in_directory info (root_cluster info) SUBDIR_NAME;
  match o with
  | None => mret false
  | Some subdir =>
      if negb (is_dir subdir) then mret false else
      o ← find_entry_in_directory info (first_cluster subdir) NESTED_FILE_NAME;
      match o with
      | None => mret false
      | Some nested =>
          written ← read_file_contents info nested MAX_FILE_BYTES;
          mret (starts_with NESTED_EXPECTED_CONTENTS written)
      end
  end.

Definition run_big_file_proof : DevM bool :=
  o ← find_entry_in_directory info (root_cluster info) BIG_FILE_NAME;
  match o with
  | None => mret false
  | Some entry =>
      written ← read_file_contents info entry MAX_FILE_BYTES;
      mret (bool_decide (length written = BIG_FILE_LEN) && matches expected_big_file_byte written)
  end.

Definition run_case_insensitive_long_name_proof : DevM bool :=
  found ← find_entry_by_long_name info (root_cluster info) LONG_FILE_NAME_ASCII_UPPER;
  mret (bool_decide (is_Some found)).

Definition run_long_name_proof : DevM bool :=
  o ← find_entry_by_long_name info (root_cluster info) LONG_FILE_NAME_ASCII;
  match o with
  | None => mret false
  | Some entry =>
      written ← read_file_contents info entry MAX_FILE_BYTES;
      case_insensitive_match ← run_case_insensitive_long_name_proof;
      mret (starts_with LONG_FILE_EXPECTED_CONTENTS written && case_insensitive_match)
  end.

Definition run_write_proof : DevM bool :=
  o ← resolve_single_sector_file info WRITE_FILE_NAME;
  match o with
  | None => mret false
  | Some sector =>
      let new_content := fill 512 write_pattern_byte zero_sector in
      r ← write_sector sector new_content;
      read_back ← read_sector sector;
      mret (write_ok r && bool_decide (read_back = Some new_content))
  end.

Definition run_partial_write_proof : DevM bool :=
  o ← find_entry_with_location info (root_cluster info) PARTIAL_FILE_NAME;
  match o with
  | None => mret false
  | Some (entry, dir_sector, dir_offset) =>
      match cluster_to_sector info (first_cluster entry) with
      | None => mret false
      | Some data_sector =>
          o ← read_sector data_sector;
          match o with
          | None => mret false
          | Some sector_buf =>
              r ← write_sector data_sector (fill PARTIAL_NEW_LEN partial_new_byte sector_buf);
              size_write_ok ← write_size dir_sector dir_offset (N.of_nat PARTIAL_NEW_LEN);
              '(size_visible, contents_match) ← check_contents info PARTIAL_FILE_NAME PARTIAL_NEW_LEN partial_new_byte;
              o ← read_sector data_sector;
              let tail_preserved :=
                match o with
                | Some fresh_sector =>
                    matches (λ i, partial_initial_byte (PARTIAL_NEW_LEN + i)) (drop PARTIAL_NEW_LEN fresh_sector)
                | None => false
                end in
              mret (write_ok r && size_write_ok && size_visible && contents_match && tail_preserved)
          end
      end
  end.

(** The hint's subtraction is checked: a hint of zero with a free cluster panics. *)
Definition run_fsinfo_hint_proof : DevM bool :=
  o ← read_sector (fsinfo_sector info);
  match o ≫= fsinfo_parse with
  | None => mret false
  | Some before =>
      if decide (free_count before = FSINFO_UNKNOWN) then mret true else
      o ← allocate_free_cluster info;
      match o with
      | None => mret false
      | Some cluster =>
          ok ← write_fat_entry info cluster CHAIN_EOC_MARKER;
          if negb ok then mret false else
          o ← read_sector (fsinfo_sector info);
          after_allocate_ok ←
            match o ≫= fsinfo_parse with
            | Some after =>
                match checked_sub (free_count before) 1 with
                | Some expected => mret (bool_decide (free_count after = expected))
                | None => panic
                end
            | None => mret false
            end;
          ok ← write_fat_entry info cluster 0;
          if negb ok then mret false else
          o ← read_sector (fsinfo_sector info);
          let after_free_ok :=
            match o ≫= fsinfo_parse with
            | Some after => bool_decide (free_count after = free_count before)
            | None => false
            end in
          mret (after_allocate_ok && after_free_ok)
      end
  end.

Definition run_grow_proof : DevM bool :=
  o ← find_entry_with_location info (root_cluster info) GROW_FILE_NAME;
  match o with
  | None => mret false
  | Some (entry, dir_sector, dir_offset) =>
      o ← walk_to_last info CHAIN_CAP (first_cluster entry);
      match o with
      | None => mret false
      | Some last_cluster =>
          o ← allocate_free_cluster info;
          match o with
          | None => mret false
          | Some new_cluster =>
              match cluster_to_sector info new_cluster with
              | None => mret false
              | Some new_sector =>
                  r ← write_sector new_sector (fill GROW_APPEND_LEN grow_append_byte zero_sector);
                  new_cluster_eoc_ok ← write_fat_entry info new_cluster 0x0FFFFFFF;
                  link_ok ← write_fat_entry info last_cluster new_cluster;
                  let new_size := (GROW_INITIAL_LEN + GROW_APPEND_LEN)%nat in
                  size_write_ok ← write_size dir_sector dir_offset (N.of_nat new_size);
                  '(size_visible, contents_match) ←
                    check_contents info GROW_FILE_NAME new_size (appended GROW_INITIAL_LEN grow_initial_byte grow_append_byte);
                  mret (write_ok r && new_cluster_eoc_ok && link_ok && size_write_ok && size_visible && contents_match)
              end
          end
      end
  end.

(** The contents of the [k]-th new cluster. *)
Definition multi_content (k : nat) : list N :=
  imap (λ i b, if decide (MULTI_APPEND_LEN ≤ k * 512 + i)%nat then b else multi_append_byte (k * 512 + i)) zero_sector.

Fixpoint write_multi (k : nat) (new_clusters : list N) : DevM bool :=
  match new_clusters with
  | [] => mret true
  | cluster :: new_clusters =>
      match cluster_to_sector info cluster with
      | None => mret false
      | Some sector =>
          r ← write_sector sector (multi_content k);
          if negb (write_ok r) then mret false else write_multi (S k) new_clusters
      end
  end.

Definition run_multi_cluster_grow_proof : DevM bool :=
  o ← find_entry_with_location info (root_cluster info) MULTI_FILE_NAME;
  match o with
  | None => mret false
  | Some (entry, dir_sector, dir_offset) =>
      o ← walk_to_last info CHAIN_CAP (first_cluster entry);
      match o with
      | None => mret false
      | Some last_cluster =>
          '(ok, new_clusters) ← allocate_cluster_chain info 2 [0; 0]%N;
          if negb ok then mret false else
          data_writes_ok ← write_multi 0 new_clusters;
          link_ok ← write_fat_entry info last_cluster (default 0%N (new_clusters !! 0));
          let new_size := (MULTI_INITIAL_LEN + MULTI_APPEND_LEN)%nat in
          size_write_ok ← write_size dir_sector dir_offset (N.of_nat new_size);
          '(size_visible, contents_match) ←
            check_contents info MULTI_FILE_NAME new_size (appended MULTI_INITIAL_LEN multi_initial_byte multi_append_byte);
          mret (data_writes_ok && link_ok && size_write_ok && size_visible && contents_match)
      end
  end.

Definition run_delete_proof : DevM bool :=
  o ← find_entry_with_location info (root_cluster info) DELETE_FILE_NAME;
  match o with
  | None => mret false
  | Some (entry, dir_sector, dir_offset) =>
      let freed_cluster := first_cluster entry in
      free_ok ← free_chain info CHAIN_CAP (first_cluster entry);
      marker_write_ok ← patch_sector dir_sector dir_offset [DELETED_ENTRY_MARKER];
      found ← find_entry_in_directory info (root_cluster info) DELETE_FILE_NAME;
      let no_longer_found := bool_decide (found = None) in
      o ← allocate_free_cluster info;
      let freed_cluster_reusable := bool_decide (o = Some freed_cluster) in
      mret (free_ok && marker_write_ok && no_longer_found && freed_cluster_reusable)
  end.

Definition run_create_proof : DevM bool :=
  o ← create_file info CREATE_FILE_NAME CREATE_FILE_LEN create_content_byte;
  mret (default false o).

Definition run_directory_growth_proof : DevM bool :=
  o ← create_file info GROWDIR_FILE_NAME GROWDIR_FILE_LEN growdir_content_byte;
  match o with
  | None => mret false
  | Some created =>
      next ← next_cluster_in_chain info (root_cluster info);
      let root_chain_grew := match next with Some next => negb (is_end_of_chain next) | None => false end in
      mret (created && root_chain_grew)
  end.

End proofs.

Section start.
Context `{HW : BlkHardware}.

Definition run_fat32_proof : DevM bool :=
  o ← read_sector 0;
  match o ≫= boot_parse with
  | None => mret false
  | Some info =>
      o ← find_entry_in_directory info (root_cluster info) TARGET_FILE_NAME;
      match o with
      | None => mret false
      | Some entry =>
          if is_dir entry then mret false else
          written ← read_file_contents info entry MAX_FILE_BYTES;
          let contents_match := starts_with EXPECTED_FILE_CONTENTS written in
          subdir_pass ← run_subdir_proof info;
          big_file_pass ← run_big_file_proof info;
          long_name_pass ← run_long_name_proof info;
          write_pass ← run_write_proof info;
          partial_write_pass ← run_partial_write_proof info;
          grow_pass ← run_grow_proof info;
          multi_grow_pass ← run_multi_cluster_grow_proof info;
          delete_pass ← run_delete_proof info;
          create_pass ← run_create_proof info;
          directory_growth_pass ← run_directory_growth_proof info;
          fsinfo_hint_pass ← run_fsinfo_hint_proof info;
          mret (contents_match && subdir_pass && big_file_pass && long_name_pass && write_pass
            && partial_write_pass && grow_pass && multi_grow_pass && fsinfo_hint_pass && delete_pass
            && create_pass && directory_growth_pass)
      end
  end.

End start.

(** ** Deleting a file *)

Section delete.
Context `{HW : BlkHardware} (info : BootSectorInfo) (Hvol : volume_ok info) (Hfits : data_fits info).

Abbreviation fat := (fat info).
Abbreviation moves := (moves info).

(** Freeing a chain zeroes its entries and touches nothing else. *)
Lemma post_free_chain fuel c l d Q :
  ready d → fat_chain info (disk d) c l → (length l ≤ fuel)%nat →
  (∀ d', moves d d' → outside_same info (disk d) (disk d') →
     (∀ x, in_fat info x → fat (disk d') x = if decide (x ∈ l) then 0%N else fat (disk d) x) → Q (Val true) d') →
  post (free_chain info fuel c) d Q.
Proof.
  revert fuel c d. induction l as [|y l IH]; intros fuel c d Hr Hch Hlen HQ.
  { by apply fat_chain_head in Hch as [? ?]. }
  destruct fuel as [|fuel]; [cbn in Hlen; lia|]. cbn [free_chain].
  pose proof (fat_chain_nodup _ _ _ _ Hch) as [Hy Hnd]%NoDup_cons.
  pose proof (fat_chain_start _ _ _ _ Hch) as Hu. destruct (fat_chain_head _ _ _ _ Hch) as [l0 [= -> _]]. clear l0.
  apply post_bind, (ready_next info Hvol); [done|apply Hu|]. intros d1 Hm1 Hd1.
  apply post_bind, (ready_fat_entry info Hvol); [by eapply moves_ready|done|]. rewrite Hd1.
  intros d2 Hm2 Hupd. cbn [negb]. assert (moves d d2) as Hm by (by transitivity d1).
  pose proof (λ x, fat_set info Hvol c 0 _ _ x Hupd eq_refl) as Hset.
  inversion Hch as [? ? He|? ? ? He Hch']; subst; rewrite He.
  - apply post_ret, HQ; [done|apply Hupd|]. intros x Hx. rewrite Hset by done.
    repeat case_decide; try done; set_solver.
  - apply (IH fuel _ d2); [by eapply moves_ready| |cbn in Hlen; lia|].
    { apply (fat_chain_ext info (disk d)); [|done]. intros x Hx. rewrite Hset, decide_False; [done|by intros ->|].
      by apply (proj1 (Forall_forall _ _) (fat_chain_usable _ _ _ _ Hch') x Hx). }
    intros d3 Hm3 Ho Hf. apply HQ; [by transitivity d2|transitivity (disk d2); [apply Hupd|done]|].
    intros x Hx. rewrite Hf, Hset by done. repeat case_decide; try done; set_solver.
Qed.

(** The entry at [p] is marked deleted, the chain [fl] is free, and nothing else
    changed. *)
Record deleted (l fl : list N) (p : Position) (m m' : Disk) : Prop := {
  del_marked : byte_at (slot_entry (slot_at m' p)) 0 = DELETED_ENTRY_MARKER;
  del_slots q : q ∈ positions info l → q ≠ p → slot_at m' q = slot_at m q;
  del_fat x : in_fat info x → fat m' x = if decide (x ∈ fl) then 0%N else fat m x;
  del_others x : x ∉ l → cluster_kept info x m m';
}.

Lemma named_position target m ps e s i :
  first_named target (slot_at m <$> ps) e s i → (s, i) ∈ ps.
Proof.
  intros (l1 & c & l2 & Heq & _). apply fmap_app_inv in Heq as (ps1 & ps2' & _ & Heq & ->).
  symmetry in Heq. apply fmap_cons_inv in Heq as (q & ps2 & Hq & _ & ->). destruct q as [s' i'].
  injection Hq as -> -> _. set_solver.
Qed.

Lemma mark_deleted l fl p m m1 :
  disk_wf m1 → p ∈ positions info l → outside_same info m m1 →
  (∀ x, in_fat info x → fat m1 x = if decide (x ∈ fl) then 0%N else fat m x) →
  deleted l fl p m (patch_slot p 0 [DELETED_ENTRY_MARKER] m1).
Proof.
  intros Hw1 Hp Ho Hf. destruct (elem_of_positions _ _ _ Hp) as (cp & sp & Hcp & Hsp & Hrp & Hp16).
  pose proof (cluster_behind_fats _ _ _ Hsp) as Hlo.
  assert (∀ q, q ∈ positions info l → q ≠ p → slot_at (patch_slot p 0 [DELETED_ENTRY_MARKER] m1) q = slot_at m q) as Hsl.
  { intros q Hq Hqp. destruct (elem_of_positions _ _ _ Hq) as (? & ? & _ & Hs'%cluster_behind_fats & ? & ?).
    rewrite slot_at_patch, decide_False by (done || unfold len; cbn [length fst snd]; lia). unfold slot_at. do 2 f_equal.
    apply (outside_data info Hvol); [done|lia]. }
  split; [|done| |].
  - rewrite slot_at_patch, decide_True by (done || unfold len; cbn [length fst snd]; lia). done.
  - intros x Hx. unfold patch_slot. rewrite (fat_data_write info Hvol) by (done || lia). by apply Hf.
  - intros x Hx s k Hs Hk. pose proof (cluster_behind_fats _ _ _ Hs). unfold patch_slot.
    rewrite sector_at_insert, decide_False.
    + apply (outside_data info Hvol); [done|lia].
    + by eapply positions_disjoint.
Qed.

Lemma deleted_chain root l fl p m m' :
  deleted l fl p m m' → fat_chain info m root l → (∀ x, x ∈ fl → x ∉ l) → fat_chain info m' root l.
Proof.
  intros [_ _ Hf _] Hch Hdisj. apply (fat_chain_ext info m); [|done]. intros x Hx.
  rewrite Hf, decide_False; [done|by intros ?%Hdisj|].
  by apply (proj1 (Forall_forall _ _) (fat_chain_usable _ _ _ _ Hch) x Hx).
Qed.

Lemma allocatable_deleted l fl p m m' x :
  deleted l fl p m m' → Forall (usable info) fl →
  allocatable info m' x ↔ x ∈ fl ∨ allocatable info m x.
Proof.
  intros [_ _ Hf _] Hfl. unfold allocatable. split.
  - intros (H2 & Hin & Hz). rewrite Hf in Hz by done. case_decide; [by left|by right].
  - intros [Hx|(H2 & Hin & Hz)].
    + destruct (proj1 (Forall_forall _ _) Hfl x Hx). split_and!; [done|done|]. by rewrite Hf, decide_True.
    + split_and!; [done|done|]. rewrite Hf by done. by case_decide.
Qed.

Lemma post_run_delete l fl e s i d :
  ready d → fat_chain info (disk d) (root_cluster info) l → (length l ≤ CHAIN_CAP)%nat →
  first_named DELETE_FILE_NAME (slot_at (disk d) <$> positions info l) e s i →
  fat_chain info (disk d) (first_cluster e) fl → (length fl ≤ CHAIN_CAP)%nat → (∀ x, x ∈ fl → x ∉ l) →
  post (run_delete_proof info) d (λ r d',
    moves d d' ∧ deleted l fl (s, i) (disk d) (disk d') ∧
    r = Val (bool_decide (lookup_name DELETE_FILE_NAME (slot_at (disk d') <$> positions info l) = None) &&
             bool_decide (Forall (λ x, first_cluster e ≤ x)%N fl ∧
               Forall (λ x, fat (disk d) x ≠ 0 ∨ first_cluster e ≤ x)%N (clusters info)))).
Proof.
  intros Hr Hch Hlen Hnamed Hfch Hflen Hdisj. unfold run_delete_proof.
  pose proof (named_position _ _ _ _ _ _ Hnamed) as Hp.
  destruct (elem_of_positions _ _ _ Hp) as (cp & sp & Hcp & Hsp & Hrp & Hp16). cbn [fst snd] in Hrp, Hp16.
  pose proof (cluster_behind_fats _ _ _ Hsp) as Hlo.
  destruct (usable_sector info cp Hfits (proj1 (Forall_forall _ _) (fat_chain_usable _ _ _ _ Hch) cp Hcp))
    as (? & [= <-]%(eq_trans (eq_sym Hsp)) & _ & Hhi).
  apply post_bind, (ready_find_location info); [done|]. intros d1 Hm1 Hd1.
  rewrite (dir_slots_chain info _ _ l Hvol Hfits (proj1 Hr) Hch Hlen), (lookup_name_found _ _ _ _ _ Hnamed).
  cbn [fmap option_fmap option_map fst snd]. assert (s < 2 ^ 32)%N as Hs32 by (clear -Hrp Hhi; unfold u32_max in Hhi; lia).
  rewrite (N.mod_small s) by done.
  apply post_bind, (post_free_chain _ _ fl); [by eapply moves_ready|by rewrite Hd1|done|]. rewrite Hd1.
  intros d2 Hm2 Ho2 Hf2. assert (moves d d2) as Hm02 by (by transitivity d1).
  replace (i * 32)%nat with ((s, i).2 * 32 + N.to_nat 0)%nat by (cbn [snd]; lia). change s with (s, i).1 at 1.
  apply post_bind, (ready_patch_slot info Hvol);
    [by eapply moves_ready|done|unfold len; cbn [length]; lia|by repeat constructor|cbn [fst]; lia|].
  intros d3 Hm3 Hd3. assert (moves d d3) as Hm03 by (by transitivity d2).
  pose proof (mark_deleted l fl (s, i) _ _ (moves_wf info _ _ Hm02 (proj1 Hr)) Hp Ho2 Hf2) as Hdel. rewrite <-Hd3 in Hdel.
  apply post_bind, (ready_find info); [by eapply moves_ready|]. intros d4 Hm4 Hd4.
  rewrite (dir_slots_chain info _ _ l Hvol Hfits (moves_wf info _ _ Hm03 (proj1 Hr)) (deleted_chain _ _ _ _ _ _ Hdel Hch Hdisj) Hlen).
  assert (moves d d4) as Hm04 by (by transitivity d3).
  pose proof (fat_chain_usable _ _ _ _ Hfch) as Hflu.
  pose proof (λ x, allocatable_deleted _ _ _ _ _ x Hdel Hflu) as Halloc.
  assert (first_cluster e ∈ fl) as Hhead by (destruct (fat_chain_head _ _ _ _ Hfch) as [? ->]; by left).
  apply post_bind, (ready_allocate info Hvol); [by eapply moves_ready| |].
  2:{ intros d5 _ _. rewrite Hd4. intros Hno. destruct (Hno (first_cluster e)). apply Halloc. by left. }
  intros d5 c Hm5 Hd5. rewrite Hd4 in *. intros Hc Hmin. apply post_ret.
  split_and!; [by transitivity d4|by rewrite Hd5|].
  rewrite Hd5. cbn [andb]. f_equal. f_equal; [by apply bool_decide_ext; destruct (lookup_name _ _)|].
  apply bool_decide_ext. rewrite !Forall_forall. split.
  - intros [= ->]. split; [intros x Hx; apply Hmin, Halloc; by left|].
    intros x [H2 Hin]%elem_of_clusters. destruct (decide (fat (disk d) x = 0%N)); [right|by left].
    apply Hmin, Halloc. by right.
  - intros [H1 H2]. f_equal. apply N.le_antisymm; [apply Hmin, Halloc; by left|].
    apply Halloc in Hc as [Hc|(Hc2 & Hcin & Hcz)]; [by apply H1|].
    destruct (H2 c); [by apply elem_of_clusters|done|done].
Qed.

(** Deleting a file, on a device that answers and a root directory whose chain
    is sound: afterwards the first entry of that name is marked deleted, exactly
    the clusters of its chain became free, every other slot of the directory and
    every sector of every cluster outside it is as before, and an exact hint stays
    exact.  The driver's own check of it passes exactly when no further entry has
    the name and the file's first cluster is now the lowest free one, which the
    deletion alone does not ensure. *)
Theorem delete_exact l fl e s i d :
  ready d → fat_chain info (disk d) (root_cluster info) l → (length l ≤ CHAIN_CAP)%nat →
  first_named DELETE_FILE_NAME (dir_slots info (disk d) CHAIN_CAP (root_cluster info)) e s i →
  fat_chain info (disk d) (first_cluster e) fl → (length fl ≤ CHAIN_CAP)%nat → (∀ x, x ∈ fl → x ∉ l) →
  ∃ pass d', run_delete_proof info d = (Val pass, d') ∧ deleted l fl (s, i) (disk d) (disk d') ∧
    (hint_exact info (disk d) → hint_exact info (disk d')) ∧
    (pass = true ↔
       (∀ e' s' i', ¬ first_named DELETE_FILE_NAME (dir_slots info (disk d') CHAIN_CAP (root_cluster info)) e' s' i') ∧
       (∀ x, x ∈ fl ∨ allocatable info (disk d) x → (first_cluster e ≤ x)%N)).
Proof.
  intros Hr Hch Hlen Hnamed Hfch Hflen Hdisj. pose proof (proj1 Hr) as Hw.
  rewrite (dir_slots_chain info _ _ l Hvol Hfits Hw Hch Hlen) in Hnamed.
  pose proof (post_run_delete l fl e s i d Hr Hch Hlen Hnamed Hfch Hflen Hdisj) as Hp. unfold post in Hp.
  destruct (run_delete_proof info d) as [r d']. cbn in Hp. destruct Hp as (Hm & Hdel & ->).
  eexists _, d'. split; [done|]. split; [done|]. split; [by apply (moves_hint _ _ _ Hm); apply Hr|].
  rewrite (dir_slots_chain info _ _ l Hvol Hfits (moves_wf info _ _ Hm Hw) (deleted_chain _ _ _ _ _ _ Hdel Hch Hdisj) Hlen).
  rewrite andb_true_iff, !bool_decide_eq_true, !Forall_forall, lookup_name_none. apply and_iff_compat_l.
  unfold allocatable. setoid_rewrite elem_of_clusters. split.
  - intros [H1 H2] x [Hx|(Hx2 & Hin & Hz)]; [by apply H1|]. by destruct (H2 x).
  - intros H. split; [intros x Hx; apply H; by left|]. intros x [Hx2 Hin].
    destruct (decide (fat (disk d) x = 0%N)); [right; apply H; by right|by left].
Qed.

End delete.

(** ** Creating a file *)

Section create.
Context `{HW : BlkHardware} (info : BootSectorInfo) (Hvol : volume_ok info) (Hfits : data_fits info).

Lemma create_fixture : entry_name CREATE_FILE_NAME ∧ ∀ i, (create_content_byte i < 256)%N.
Proof.
  split; [by split_and!; [|repeat constructor| |]|]. intros i. unfold create_content_byte, cycle.
  pose proof (N.mod_lt (N.of_nat i) 26 ltac:(done)). lia.
Qed.

(** C27. Creating a file, on a device that answers and a root directory whose chain
    is sound and shorter than the cap, and in which the name is new: the driver's
    check passes unless fewer than two clusters are free.  The directory kept its
    slots but for the new entry, growing by one zeroed cluster if it had to; a
    lookup finds the entry and reading it gives the contents; every other file
    reads as before; an exact hint stays exact. *)
Theorem create_exact l d :
  ready d → fat_chain info (disk d) (root_cluster info) l → (length l < CHAIN_CAP)%nat →
  (∀ q, q ∈ positions info l → ∀ e, ¬ names CREATE_FILE_NAME (slot_entry (slot_at (disk d) q)) e) →
  ∃ pass d', run_create_proof info d = (Val pass, d') ∧
    (hint_exact info (disk d) → hint_exact info (disk d')) ∧
    if pass : bool then
      ∃ l' p c, created info CREATE_FILE_NAME CREATE_FILE_LEN create_content_byte
                  (root_cluster info) l l' p c (disk d) (disk d') ∧
        file_bytes info (disk d') (created_entry CREATE_FILE_NAME CREATE_FILE_LEN c) MAX_FILE_BYTES =
          create_content_byte <$> seq 0 64 ∧
        (∀ e fl n, fat_chain info (disk d) (first_cluster e) fl → (length fl ≤ CHAIN_CAP)%nat →
           (∀ x, x ∈ fl → x ∉ l) → file_bytes info (disk d') e n = file_bytes info (disk d) e n)
    else exhausted info (disk d) 2.
Proof.
  intros Hr Hch Hlen Hfresh. destruct create_fixture as [Hname Hbyte].
  pose proof (proj1 Hr) as Hw.
  assert (post (run_create_proof info) d (λ r d', moves info d d' ∧
    ((r = Val true ∧ ∃ l' p c, created info CREATE_FILE_NAME CREATE_FILE_LEN create_content_byte
                  (root_cluster info) l l' p c (disk d) (disk d')) ∨ (r = Val false ∧ exhausted info (disk d) 2))))
    as Hp.
  { unfold run_create_proof. apply post_bind.
    assert (CREATE_FILE_LEN ≤ 512)%nat as Hsz by (unfold CREATE_FILE_LEN; lia).
    apply (post_create_file info Hvol Hfits _ _ _ Hname Hsz Hbyte l); [done..| |].
    - intros d' l' p c Hm Hcr. apply post_ret. split; [done|]. left. split; [done|]. by exists l', p, c.
    - intros d' Hm Hex. apply post_ret. split; [done|]. by right. }
  unfold post in Hp. destruct (run_create_proof info d) as [r d']. cbn in Hp.
  destruct Hp as [Hm [[-> (l' & p & c & Hcr)]|[-> Hex]]]; (eexists _, d'; split; [done|]; split;
    [by apply (moves_hint _ _ _ Hm); apply Hr|]); [|done].
  pose proof (moves_wf info _ _ Hm Hw) as Hw'. exists l', p, c. split_and!; [done| |].
  - eapply created_file_bytes; try done. unfold CREATE_FILE_LEN. lia.
  - intros e fl n Hfl Hflen Hdisj. by eapply created_keeps.
Qed.

End create.
