(* ===== verification/FsServer.v ===== *)
(** * FsServer: the file server of [blk-driver-host]

    Model of [verify_file_token], [handle_read_ipc_request],
    [handle_write_ipc_request] and the session loop [run_fs_ipc_server].  The
    kernel's replies to the driver's system calls ([ticks], [cap_is_revoked],
    [session_try_accept], [session_try_recv]) are inputs of the loop; the bytes it
    sends are its output. *)

From S2P Require Import Prelude Bytes Capability FsCodec Fat BlkDev FatOps FatDir.

Section server.
Context `{SIG : SignatureScheme} `{HW : BlkHardware} (demo_key : SigningKey) (info : BootSectorInfo).

(** The kernel's answers while one request is served. *)
Record Syscalls := mkSyscalls { ticks : N; cap_is_revoked : N → N }.

Definition demo_verifying_key : VerifyingKey := verifying_key demo_key.

Definition file_resource (name : string) : string := "file:" +:+ name.

Definition verify_file_token (sys : Syscalls) (token : CapabilityToken) (name : string) : bool :=
  verify_file_token_with token demo_verifying_key (file_resource name) (ticks sys) (cap_is_revoked sys).

(** ** Handlers *)

Definition handle_read_ipc_request (sys : Syscalls) (name : string) (token : CapabilityToken) : DevM FsResponse :=
  if negb (verify_file_token sys token name) then mret (FsErr Unauthorized) else
  faulted ← gets is_faulted;
  if (faulted : bool) then mret (FsErr DeviceFailed) else
  o ← find_entry_by_display_name info (root_cluster info) name;
  match o with
  | None =>
      faulted ← gets is_faulted;
      mret (if (faulted : bool) then FsErr DeviceFailed else FsErr NotFound)
  | Some entry =>
      if is_dir entry then mret (FsErr NotFound) else
      written ← read_file_contents info entry MAX_FILE_BYTES;
      faulted ← gets is_faulted;
      mret (if (faulted : bool) then FsErr DeviceFailed else FsData written)
  end.

Definition handle_write_ipc_request (sys : Syscalls) (name : string) (token : CapabilityToken) (data : list N)
    : DevM FsResponse :=
  if negb (verify_file_token sys token name) then mret (FsErr Unauthorized) else
  if decide (len data ≠ SECTOR_SIZE) then mret (FsErr BadRequest) else
  faulted ← gets is_faulted;
  if (faulted : bool) then mret (FsErr DeviceFailed) else
  o ← resolve_single_sector_file_by_name info name;
  match o with
  | None =>
      faulted ← gets is_faulted;
      mret (if (faulted : bool) then FsErr DeviceFailed else FsErr NotFound)
  | Some sector =>
      r ← write_sector sector data;
      mret (if write_ok r then FsOk else FsErr DeviceFailed)
  end.

Definition handle_request (sys : Syscalls) (r : FsRequest) : DevM FsResponse :=
  match r with
  | FsRead name token => handle_read_ipc_request sys name token
  | FsWrite name token data => handle_write_ipc_request sys name token data
  end.

(** ** The session loop *)

Definition FS_MAX_PENDING_BYTES : N := 8192.
Definition MAX_FS_SESSIONS : nat := 4.
Definition ACCEPT_POLL_INTERVAL : N := 50000.
Definition SERVER_ITERATIONS : nat := N.to_nat 20000000.

Record FsSession := mkSession { session_id : N; buf : list N }.

(** What the loop keeps besides the device, with the bytes it has sent. *)
Record Server := mkServer {
  sessions : list FsSession;
  requests_served : nat;
  sent : list (N * list N);
}.

(** The kernel's answers over the whole loop: the raw results of
    [SYS_IPC_SESSION_ACCEPT] in an iteration and of [SYS_IPC_SESSION_RECV] for a
    session in it, and the answers during the request that session completes. *)
Record Kernel := mkKernel {
  accept_result : N → N;
  recv_result : N → N → N;
  syscalls_at : N → N → Syscalls;
}.

(** [u64::MAX] is "nothing"; a received value is truncated to a byte. *)
Definition session_try_accept (k : Kernel) (i : N) : option N :=
  if decide (accept_result k i = u64_max) then None else Some (accept_result k i).

Definition session_try_recv (k : Kernel) (i : N) (id : N) : option N :=
  if decide (recv_result k i id = u64_max) then None else Some (as_u8 (recv_result k i id)).

Definition count_served (n : nat) (d : BlkDevice) : BlkDevice :=
  if decide (n = 1)%nat then
    if stall_after_first_served d then set_stall true (set_stall_after false d) else d
  else d.

(** One pass of the inner loop over the sessions: each polls one byte; a session
    whose buffer completes a request is answered and later removed. *)
Fixpoint poll_sessions (k : Kernel) (i : N) (l : list FsSession) (n : nat) (out : list (N * list N))
    : DevM (list FsSession * nat * list (N * list N)) :=
  match l with
  | [] => mret ([], n, out)
  | s :: l =>
      match session_try_recv k i (session_id s) with
      | None =>
          '(l, n, out) ← poll_sessions k i l n out;
          mret (s :: l, n, out)
      | Some byte =>
          let b := buf s ++ [byte] in
          match fs_request_decode b with
          | None =>
              let s := mkSession (session_id s) (if decide (FS_MAX_PENDING_BYTES < len b)%N then [] else b) in
              '(l, n, out) ← poll_sessions k i l n out;
              mret (s :: l, n, out)
          | Some (request, consumed) =>
              response ← handle_request (syscalls_at k i (session_id s)) request;
              let out := out ++ [(session_id s, fs_response_encode response)] in
              let n := S n in
              _ ← modify (count_served n);
              poll_sessions k i l n out
          end
      end
  end.

Definition accept_session (k : Kernel) (i : N) (l : list FsSession) : list FsSession :=
  if decide ((length l < MAX_FS_SESSIONS)%nat ∧ (i mod ACCEPT_POLL_INTERVAL = 0)%N) then
    match session_try_accept k i with
    | Some id => l ++ [mkSession id []]
    | None => l
    end
  else l.

Definition server_iteration (k : Kernel) (i : N) (srv : Server) : DevM Server :=
  '(l, n, out) ← poll_sessions k i (accept_session k i (sessions srv)) (requests_served srv) (sent srv);
  mret (mkServer l n out).

(** [for i in 0..20_000_000], from iteration [i]. *)
Fixpoint server_loop (k : Kernel) (fuel : nat) (i : N) (srv : Server) : DevM Server :=
  match fuel with
  | O => mret srv
  | S fuel => srv ← server_iteration k i srv; server_loop k fuel (i + 1) srv
  end.

Definition server_new : Server := mkServer [] 0 [].

Definition run_fs_ipc_server (k : Kernel) : DevM Server := server_loop k SERVER_ITERATIONS 0 server_new.

(** ** What the handlers do *)

(** The token names this very file, is authentic, current and not revoked. *)
Definition authorized (sys : Syscalls) (token : CapabilityToken) (name : string) : Prop :=
  verify token demo_verifying_key (file_resource name) (ticks sys) = Ok () ∧
  ∃ fp, signature_fingerprint (tok_signature token) = Some fp ∧ cap_is_revoked sys fp = 0%N.

Lemma verify_file_token_iff sys token name :
  verify_file_token sys token name = true ↔ authorized sys token name.
Proof. apply verify_file_token_with_iff. Qed.

(** The sector a write to [name] goes to: the first of the first short entry of
    that name in the root directory. *)
Definition write_target (m : Disk) (name : string) (s : N) : Prop :=
  ∃ short e s0 i, encode_short_name (as_bytes name) = Some short ∧
    first_named short (dir_slots info m CHAIN_CAP (root_cluster info)) e s0 i ∧
    cluster_to_sector info (first_cluster e) = Some s.

Lemma post_resolve name d :
  disk_wf (disk d) →
  post (resolve_single_sector_file_by_name info name) d (λ r d',
    only_read d d' ∧
    match r with
    | Panicked => False
    | Val (Some s) => write_target (disk d) name s
    | Val None => dependable d → ∀ s, ¬ write_target (disk d) name s
    end).
Proof.
  intros Hw. unfold resolve_single_sector_file_by_name. apply post_pure.
  2:{ intros Hn. split; [done|]. intros _ s (short & e & s0 & i & Hs & _). congruence. }
  intros short Hshort. unfold resolve_single_sector_file. apply post_try.
  eapply post_mono; [by apply post_find_entry|]. intros [[e|]|] d' [Hr H]; [| |done].
  - apply post_ret. split; [done|]. destruct H as (_ & s0 & i & Hf).
    destruct (cluster_to_sector info (first_cluster e)) as [s|] eqn:Hs; [by exists short, e, s0, i|].
    intros _ s (short' & e' & s0' & i' & Hshort' & Hf' & Hs').
    rewrite Hshort in Hshort'. injection Hshort' as <-.
    assert (Some (e, s0, (i * 32)%nat) = Some (e', s0', (i' * 32)%nat)) as [= -> _ _]; [|congruence].
    rewrite <-(proj2 (fold_short_name _ _ e s0 _) (ex_intro _ i (conj eq_refl Hf))).
    by rewrite <-(proj2 (fold_short_name _ _ e' s0' _) (ex_intro _ i' (conj eq_refl Hf'))).
  - split; [done|]. intros Hdep s (short' & e & s0 & i & Hshort' & Hf & _).
    rewrite Hshort in Hshort'. injection Hshort' as <-. by eapply H.
Qed.

(** The lookups of a read, on the slots of the root directory. *)
Definition root_slots (m : Disk) : list Slot := dir_slots info m CHAIN_CAP (root_cluster info).

Definition short_lookup (m : Disk) (name : string) : option ShortDirEntry :=
  short ← encode_short_name (as_bytes name);
  (λ x, x.1.1) <$> flow_result (fold_slots (short_name_body short) (root_slots m) ()).

Definition long_lookup (m : Disk) (name : string) : option ShortDirEntry :=
  flow_result (fold_slots (long_name_body (as_bytes name)) (root_slots m) lfn_start).

(** The entry a display name denotes: the short name wins over the long one. *)
Definition entry_of (m : Disk) (name : string) : option ShortDirEntry :=
  match short_lookup m name with Some e => Some e | None => long_lookup m name end.

Lemma post_find_short name d :
  disk_wf (disk d) →
  post (match encode_short_name (as_bytes name) with
        | Some short => find_entry_in_directory info (root_cluster info) short
        | None => mret None
        end) d (λ r d',
    only_read d d' ∧
    match r with
    | Panicked => False
    | Val r => (r = short_lookup (disk d) name ∧ health d' = health d) ∨ (r = None ∧ ¬ dependable d)
    end).
Proof.
  intros Hw. unfold short_lookup, root_slots. destruct (encode_short_name (as_bytes name)) as [short|];
    [|apply post_ret; by split; [|left]].
  cbn [mbind option_bind]. unfold find_entry_in_directory. apply post_try.
  eapply post_mono; [by apply post_walk_chain|]. intros [[[[e s] o]|]|] d' [Hr H]; [| |done].
  - apply post_ret. split; [done|]. destruct H as [(<- & Hh & _)|[? _]]; [by left|done].
  - split; [done|]. destruct H as [(<- & Hh & _)|[_ Hn]]; [by left|by right].
Qed.

Lemma post_find_display name d :
  disk_wf (disk d) →
  post (find_entry_by_display_name info (root_cluster info) name) d (λ r d',
    only_read d d' ∧
    match r with
    | Panicked => False
    | Val (Some e) => (short_lookup (disk d) name = Some e ∨ long_lookup (disk d) name = Some e) ∧
        (dependable d → entry_of (disk d) name = Some e) ∧ (health d = Healthy → health d' = Healthy)
    | Val None => dependable d → entry_of (disk d) name = None
    end).
Proof.
  intros Hw. unfold find_entry_by_display_name, entry_of. apply post_bind.
  eapply post_mono; [by apply post_find_short|]. intros [o|] d1 [Hr1 H1]; [|done].
  destruct o as [e|].
  - apply post_ret. split; [done|]. destruct H1 as [[<- Hh]|[? _]]; [|done]. split_and!; [by left|done|congruence].
  - eapply post_mono; [apply post_find_long; by eapply only_read_wf|].
    destruct Hr1 as [Hl1 Hd1]. rewrite Hd1. assert (only_read d d1) as Hr1 by done.
    intros [[e|]|] d2 [Hr2 H2]; (split; [by transitivity d1|]); [| |done]; fold (root_slots (disk d)) in H2;
      fold (long_lookup (disk d) name) in H2.
    + destruct H2 as [(He & Hh2 & Hok)|[? _]]; [|done]. split_and!; [by right| |].
      * intros Hdep. destruct H1 as [[<- _]|[_ Hn]]; [done|by destruct Hn].
      * intros _. rewrite Hh2. by eapply Hok.
    + intros Hdep. destruct H1 as [[<- _]|[_ Hn]]; [|by destruct Hn].
      destruct H2 as [(<- & _)|[_ Hn]]; [done|]. destruct Hn. by apply (later_dependable _ _ Hl1).
Qed.

(** The answer of a dependable device to an authorized read. *)
Definition read_answer (m : Disk) (name : string) : FsResponse :=
  match entry_of m name with
  | Some e => if is_dir e then FsErr NotFound else FsData (file_bytes info m e MAX_FILE_BYTES)
  | None => FsErr NotFound
  end.

(** Everything a read request may do. *)
Record read_served (sys : Syscalls) (name : string) (token : CapabilityToken) (d : BlkDevice)
    (resp : FsResponse) (d' : BlkDevice) : Prop := {
  rs_only_read : only_read d d';
  rs_denied : ¬ authorized sys token name → resp = FsErr Unauthorized ∧ d' = d;
  rs_granted : authorized sys token name → resp ≠ FsErr Unauthorized ∧ resp ≠ FsErr BadRequest ∧ resp ≠ FsOk;
  rs_faulted : authorized sys token name → health d' = Faulted → resp = FsErr DeviceFailed;
  rs_data data : resp = FsData data → ∃ e,
    (short_lookup (disk d) name = Some e ∨ long_lookup (disk d) name = Some e) ∧ is_dir e = false ∧
    data `prefix_of` file_bytes info (disk d) e MAX_FILE_BYTES;
  rs_exact : authorized sys token name → dependable d → resp = read_answer (disk d) name;
}.

Lemma dependable_not_faulted d : dependable d → is_faulted d = false.
Proof. intros [Hh _]. unfold is_faulted. by rewrite Hh. Qed.

Lemma is_faulted_spec d : is_faulted d = bool_decide (health d = Faulted).
Proof. unfold is_faulted. by destruct (health d). Qed.

Lemma post_gets {A B} (f : BlkDevice → A) (k : A → DevM B) d Q : post (k (f d)) d Q → post (gets f ≫= k) d Q.
Proof. intros H. by apply post_bind. Qed.

(** The two ways a lookup without an entry is answered. *)
Lemma faulted_or_missing d : 
  (if is_faulted d then FsErr DeviceFailed else FsErr NotFound) ≠ FsErr Unauthorized ∧
  (health d = Faulted → (if is_faulted d then FsErr DeviceFailed else FsErr NotFound) = FsErr DeviceFailed).
Proof. unfold is_faulted. by destruct (health d). Qed.

Lemma post_handle_read sys name token d :
  disk_wf (disk d) →
  post (handle_read_ipc_request sys name token) d (λ r d',
    match r with Panicked => False | Val resp => read_served sys name token d resp d' end).
Proof.
  intros Hw. unfold handle_read_ipc_request.
  destruct (verify_file_token sys token name) eqn:Hv; cbn [negb].
  2:{ assert (¬ authorized sys token name) as Hna by (rewrite <-verify_file_token_iff; congruence).
      apply post_ret. by split. }
  assert (authorized sys token name) as Ha by (by apply verify_file_token_iff).
  apply post_gets. destruct (is_faulted d) eqn:Hf.
  { apply post_ret. split; try done. intros _ Hdep. apply dependable_not_faulted in Hdep. congruence. }
  apply post_bind. eapply post_mono; [by apply post_find_display|].
  intros [[e|]|] d1 [Hr1 H1]; [| |done].
  - destruct H1 as (Hfound & Hexact & Hhealth).
    assert (health d = Healthy) as Hh by (unfold is_faulted in Hf; by destruct (health d)).
    destruct (is_dir e) eqn:Hdir.
    { apply post_ret. split; try done.
      - intros _ Hh1. rewrite Hhealth in Hh1 by done. done.
      - intros _ Hdep. unfold read_answer. by rewrite Hexact, Hdir by done. }
    apply post_bind. eapply post_mono; [apply post_read_file_contents; by eapply only_read_wf|].
    destruct Hr1 as [Hl1 Hd1]. rewrite Hd1. assert (only_read d d1) as Hr1 by done.
    intros [w|] d2 [Hr2 H2]; [|done]. destruct H2 as [Hp He]. assert (only_read d d2) as Hr by (by transitivity d1).
    apply post_gets, post_ret. rewrite is_faulted_spec. case_bool_decide as Hf2.
    + split; try done. intros _ Hdep. apply (later_dependable _ _ (proj1 Hr)) in Hdep as [Hh2 _]. congruence.
    + split; try done.
      * intros data [= <-]. by exists e.
      * intros _ Hdep. unfold read_answer. rewrite Hexact, Hdir by done. rewrite He; [done|].
        by apply (later_dependable _ _ Hl1).
  - apply post_gets, post_ret. destruct (faulted_or_missing d1) as [Hne Hdf]. split; try done.
    + intros _. split_and!; [done| |]; unfold is_faulted; by destruct (may_submit (health d1)).
    + intros data Hdata. unfold is_faulted in Hdata. by destruct (may_submit (health d1)).
    + intros _ Hdep. unfold read_answer. rewrite H1 by done.
      rewrite dependable_not_faulted; [done|]. apply (later_dependable _ _ (proj1 Hr1)), Hdep.
Qed.

(** Everything a write request may do. *)
Record write_served (sys : Syscalls) (name : string) (token : CapabilityToken) (data : list N) (d : BlkDevice)
    (resp : FsResponse) (d' : BlkDevice) : Prop := {
  ws_later : later d d';
  ws_denied : ¬ authorized sys token name → resp = FsErr Unauthorized ∧ d' = d;
  ws_length : authorized sys token name → len data ≠ SECTOR_SIZE → resp = FsErr BadRequest ∧ d' = d;
  ws_footprint : disk d' = disk d ∨ authorized sys token name ∧ len data = SECTOR_SIZE ∧
    ∃ s y, write_target (disk d) name s ∧ is_sector y ∧ disk d' = <[s := y]> (disk d);
  ws_ok : resp = FsOk → ∃ s, write_target (disk d) name s ∧ disk d' = <[s := data]> (disk d);
  ws_not_found : resp = FsErr NotFound → disk d' = disk d ∧ health d' = Healthy;
  ws_faulted : authorized sys token name → len data = SECTOR_SIZE → health d' = Faulted → resp = FsErr DeviceFailed;
  ws_exact : authorized sys token name → len data = SECTOR_SIZE → dependable d →
    (resp = FsOk ∧ ∃ s, write_target (disk d) name s) ∨
    (resp = FsErr NotFound ∧ ∀ s, ¬ write_target (disk d) name s);
}.

Lemma post_handle_write sys name token data d :
  disk_wf (disk d) → bytes data →
  post (handle_write_ipc_request sys name token data) d (λ r d',
    match r with Panicked => False | Val resp => write_served sys name token data d resp d' end).
Proof.
  intros Hw Hb. unfold handle_write_ipc_request.
  destruct (verify_file_token sys token name) eqn:Hv; cbn [negb].
  2:{ assert (¬ authorized sys token name) as Hna by (rewrite <-verify_file_token_iff; congruence).
      apply post_ret. split; try done. by left. }
  assert (authorized sys token name) as Ha by (by apply verify_file_token_iff).
  case_decide as Hlen; [apply post_ret; split; try done; by left|].
  assert (len data = SECTOR_SIZE) as Hl by (destruct (decide (len data = SECTOR_SIZE)); tauto).
  apply post_gets. destruct (is_faulted d) eqn:Hf.
  { apply post_ret. split; try done; [by left|]. intros _ _ Hdep. apply dependable_not_faulted in Hdep. congruence. }
  apply post_bind. eapply post_mono; [by apply post_resolve|].
  intros [[s|]|] d1 [Hr1 H1]; [| |done].
  - destruct Hr1 as [Hl1 Hd1]. apply post_bind, post_write; [by rewrite Hd1|done| |].
    + intros d2 r Hl2 -> Hn Hd2. apply post_ret. rewrite Hd1 in Hd2. split; try done.
      * by transitivity d1.
      * destruct Hd2 as [->|(y & Hy & ->)]; [by left|right]. split_and!; [done|done|]. by exists s, y.
      * intros _ _ Hdep. destruct Hn. by apply (later_dependable _ _ Hl1).
    + intros d2 r Hl2 -> [Hh1 Hh2] Hd2. apply post_ret. rewrite Hd1 in Hd2. split; try done.
      * by transitivity d1.
      * right. split_and!; [done|done|]. by exists s, data.
      * intros _. by exists s.
      * intros _ _. congruence.
      * intros _ _ _. left. by split; [|exists s].
  - apply post_gets, post_ret. destruct (faulted_or_missing d1) as [_ Hdf]. destruct Hr1 as [Hl1 Hd1]. split; try done.
    + by left.
    + intros Hok. unfold is_faulted in Hok. by destruct (may_submit (health d1)).
    + intros Hnf. unfold is_faulted in Hnf. by destruct (health d1).
    + intros _ _ Hdep. right. split; [|by apply H1].
      rewrite dependable_not_faulted; [done|]. by apply (later_dependable _ _ Hl1).
Qed.

(** A read request, on any device: it returns, and never changes the medium;
    without authority it answers Unauthorized and touches nothing; data it returns
    are bytes of the file the name denotes (never of a directory); after a poll
    timeout it answers DeviceFailed; and on a device that answers, it returns
    exactly the bytes the entry promises, as far as its chain has them. *)
Theorem read_request_exact sys name token d :
  disk_wf (disk d) →
  ∃ resp d', handle_read_ipc_request sys name token d = (Val resp, d') ∧
    only_read d d' ∧
    (¬ authorized sys token name → resp = FsErr Unauthorized ∧ d' = d) ∧
    (∀ data, resp = FsData data → authorized sys token name ∧ ∃ e,
       (short_lookup (disk d) name = Some e ∨ long_lookup (disk d) name = Some e) ∧ is_dir e = false ∧
       data `prefix_of` file_bytes info (disk d) e MAX_FILE_BYTES) ∧
    (authorized sys token name → health d' = Faulted → resp = FsErr DeviceFailed) ∧
    (authorized sys token name → dependable d → resp = read_answer (disk d) name).
Proof.
  intros Hw. pose proof (post_handle_read sys name token d Hw) as Hp. unfold post in Hp.
  destruct (handle_read_ipc_request sys name token d) as [[resp|] d']; [|done].
  exists resp, d'. cbn in Hp. pose proof Hp as [H1 H2 H3 H4 H5 H6]. split_and!; try done.
  intros data ->. split; [|by apply H5]. destruct (verify_file_token sys token name) eqn:Hv.
  - by apply verify_file_token_iff.
  - destruct H2 as [? _]; [rewrite <-verify_file_token_iff; congruence|done].
Qed.

(** C28. A write request, on any device: it returns; without authority it answers
    Unauthorized, with data that are not one sector BadRequest, and touches
    nothing; it changes at most the first sector of the file the short name
    denotes; Ok means that sector now holds the data; NotFound and a refused
    request mean the medium is as before; and on a device that answers, an
    authorized sector-sized write succeeds exactly when the name has a target. *)
Theorem write_request_exact sys name token data d :
  disk_wf (disk d) → bytes data →
  ∃ resp d', handle_write_ipc_request sys name token data d = (Val resp, d') ∧
    write_served sys name token data d resp d'.
Proof.
  intros Hw Hb. pose proof (post_handle_write sys name token data d Hw Hb) as Hp. unfold post in Hp.
  destruct (handle_write_ipc_request sys name token data d) as [[resp|] d']; [|done]. by exists resp, d'.
Qed.

End server.
