(* ===== verification/FsLoop.v ===== *)
(** * FsLoop: what the file server's session loop guarantees

    The loop of [run_fs_ipc_server] as a relation between states, and by rule
    induction over it: it always finishes within bounded memory, answers each
    completed request once, changes the medium only for authorized writes, and
    fails closed for good after a device timeout. *)

From S2P Require Import Prelude Bytes Capability FsCodec Fat BlkDev FatOps FatDir FsServer.

Section loop.
Context `{SIG : SignatureScheme} `{HW : BlkHardware} (demo_key : SigningKey) (info : BootSectorInfo).

Abbreviation handle := (handle_request demo_key info).

(** One request served: who asked, what, and the answer. *)
Abbreviation Served := (N * FsRequest * FsResponse)%type.

Definition reply (x : Served) : N * list N := (x.1.1, fs_response_encode x.2).

(** The buffer of a session that got a byte which completes nothing. *)
Definition pend (s : FsSession) (byte : N) : FsSession :=
  mkSession (session_id s)
    (if decide (FS_MAX_PENDING_BYTES < len (buf s ++ [byte]))%N then [] else buf s ++ [byte]).

(** One pass over the sessions, from device [d] to [d']. *)
Inductive polls (k : Kernel) (i : N) :
    BlkDevice → list FsSession → list FsSession → list Served → BlkDevice → Prop :=
  | polls_nil d : polls k i d [] [] [] d
  | polls_idle d s l l' new d' :
      session_try_recv k i (session_id s) = None →
      polls k i d l l' new d' → polls k i d (s :: l) (s :: l') new d'
  | polls_pending d s byte l l' new d' :
      session_try_recv k i (session_id s) = Some byte →
      fs_request_decode (buf s ++ [byte]) = None →
      polls k i d l l' new d' → polls k i d (s :: l) (pend s byte :: l') new d'
  | polls_served d s byte request consumed response d1 n l l' new d' :
      session_try_recv k i (session_id s) = Some byte →
      fs_request_decode (buf s ++ [byte]) = Some (request, consumed) →
      handle (syscalls_at k i (session_id s)) request d = (Val response, d1) →
      polls k i (count_served n d1) l l' new d' →
      polls k i d (s :: l) l' ((session_id s, request, response) :: new) d'.

(** Iterations from [i]. *)
Inductive runs (k : Kernel) :
    nat → N → BlkDevice → list FsSession → list FsSession → list Served → BlkDevice → Prop :=
  | runs_nil i d l : runs k 0 i d l l [] d
  | runs_step n i d l l1 new1 d1 l' new d' :
      polls k i d (accept_session k i l) l1 new1 d1 →
      runs k n (i + 1) d1 l1 l' new d' → runs k (S n) i d l l' (new1 ++ new) d'.

(** ** The loop follows the relation *)

(** A session waiting for more: bytes only, and no request yet. *)
Definition session_ok (s : FsSession) : Prop :=
  bytes (buf s) ∧ fs_request_decode (buf s) = None ∧ (len (buf s) ≤ FS_MAX_PENDING_BYTES)%N.

(** Later states as the loop sees them: a quarantine is for good, and the medium
    and the queue are then left alone. *)
Record srv_later (d d' : BlkDevice) : Prop := {
  sl_wf : disk_wf (disk d) → disk_wf (disk d');
  sl_faulted : health d = Faulted →
    health d' = Faulted ∧ disk d' = disk d ∧ submitted d' = submitted d;
}.

#[global] Instance srv_later_preorder : PreOrder srv_later.
Proof.
  split; [by intros d; split|]. intros d1 d2 d3 [Hw Hf] [Hw' Hf']. split; [auto|].
  intros H. destruct (Hf H) as (H1 & H2 & H3). destruct (Hf' H1) as (H1' & H2' & H3').
  split_and!; [done|congruence|congruence].
Qed.

Lemma later_srv d d' : later d d' → srv_later d d'.
Proof. intros [Hf _ Hw _]. split; [done|]. intros H. by rewrite (Hf H). Qed.

Lemma count_served_srv n d : srv_later d (count_served n d).
Proof. unfold count_served. repeat case_match; by split. Qed.

Lemma count_served_disk n d : disk (count_served n d) = disk d ∧ health (count_served n d) = health d.
Proof. unfold count_served. by repeat case_match. Qed.

Lemma recv_byte k i id byte : session_try_recv k i id = Some byte → (byte < 256)%N.
Proof.
  unfold session_try_recv, as_u8. case_decide; [done|]. intros [= <-]. by apply N.mod_lt.
Qed.

(** Requests are served without a panic, whatever the volume holds. *)
Lemma handle_total sys request d :
  disk_wf (disk d) → (∀ name token data, request = FsWrite name token data → bytes data) →
  ∃ response d', handle sys request d = (Val response, d') ∧ later d d' ∧
    match request with
    | FsRead name token => read_served demo_key info sys name token d response d'
    | FsWrite name token data => write_served demo_key info sys name token data d response d'
    end.
Proof.
  intros Hw Hb. destruct request as [name token|name token data]; cbn [handle_request].
  - pose proof (post_handle_read demo_key info sys name token d Hw) as H. unfold post in H.
    destruct (handle_read_ipc_request demo_key info sys name token d) as [[resp|] d']; [|done].
    exists resp, d'. split_and!; [done|apply H|done].
  - pose proof (post_handle_write demo_key info sys name token data d Hw (Hb _ _ _ eq_refl)) as H. unfold post in H.
    destruct (handle_write_ipc_request demo_key info sys name token data d) as [[resp|] d']; [|done].
    exists resp, d'. split_and!; [done|apply H|done].
Qed.

Lemma decoded_bytes b request consumed name token data :
  bytes b → fs_request_decode b = Some (request, consumed) → request = FsWrite name token data → bytes data.
Proof. intros Hb Hd ->. apply codec_inv in Hd as (Hfit & _); [|done]. apply Hfit. Qed.

Lemma pend_ok s byte : bytes (buf s ++ [byte]) → fs_request_decode (buf s ++ [byte]) = None → session_ok (pend s byte).
Proof.
  intros Hb Hd. unfold pend, session_ok. cbn [buf]. case_decide as Hl; [by split_and!; [constructor| |]|].
  split_and!; [done|done|lia].
Qed.

Lemma poll_sessions_polls k i l n out d :
  disk_wf (disk d) → Forall session_ok l →
  ∃ l' n' new d', poll_sessions demo_key info k i l n out d = (Val (l', n', out ++ (reply <$> new)), d') ∧
    polls k i d l l' new d' ∧ srv_later d d' ∧ Forall session_ok l' ∧ n' = (n + length new)%nat ∧
    (length l' ≤ length l)%nat.
Proof.
  intros Hw Hok. revert n out d Hw. induction Hok as [|s l Hs Hok IH]; intros n out d Hw.
  { exists [], n, [], d. rewrite app_nil_r. split_and!; [done|constructor|done|constructor|cbn; lia|done]. }
  cbn [poll_sessions]. destruct (session_try_recv k i (session_id s)) as [byte|] eqn:Hr.
  2:{ destruct (IH n out d Hw) as (l' & n' & new & d' & Heq & Hp & Hl & Hok' & Hn & Hlen).
      exists (s :: l'), n', new, d'. unfold mbind, DevM_bind. rewrite Heq.
      split_and!; [done|by constructor|done|by constructor|done|cbn; lia]. }
  assert (bytes (buf s ++ [byte])) as Hb.
  { apply bytes_app. split; [apply Hs|]. repeat constructor. by eapply recv_byte. }
  destruct (fs_request_decode (buf s ++ [byte])) as [[request consumed]|] eqn:Hd.
  - destruct (handle_total (syscalls_at k i (session_id s)) request d Hw) as (resp & d1 & Heq & Hl1 & _).
    { intros name token data Hreq. by eapply decoded_bytes. }
    unfold mbind, DevM_bind. rewrite Heq. cbn [modify].
    destruct (IH (S n) (out ++ [(session_id s, fs_response_encode resp)]) (count_served (S n) d1))
      as (l' & n' & new & d' & Heq' & Hp & Hl & Hok' & Hn & Hlen).
    { apply (sl_wf _ _ (count_served_srv (S n) d1)). by apply (later_wf _ _ Hl1). }
    exists l', n', ((session_id s, request, resp) :: new), d'.
    unfold modify. rewrite Heq'. split_and!.
    + cbn [fmap list_fmap reply fst snd]. by rewrite <-app_assoc.
    + by eapply polls_served.
    + transitivity d1; [by apply later_srv|]. transitivity (count_served (S n) d1); [apply count_served_srv|done].
    + done.
    + cbn [length]. lia.
    + cbn [length]. lia.
  - destruct (IH n out d Hw) as (l' & n' & new & d' & Heq & Hp & Hl & Hok' & Hn & Hlen).
    exists (pend s byte :: l'), n', new, d'. unfold mbind, DevM_bind. rewrite Heq. fold (pend s byte).
    split_and!; [done|by apply polls_pending|done|constructor; [by apply pend_ok|done]|done|cbn; lia].
Qed.

Lemma accept_ok k i l :
  Forall session_ok l → (length l ≤ MAX_FS_SESSIONS)%nat →
  Forall session_ok (accept_session k i l) ∧ (length (accept_session k i l) ≤ MAX_FS_SESSIONS)%nat.
Proof.
  intros Hok Hlen. unfold accept_session. case_decide as Hc; [|done].
  destruct (session_try_accept k i) as [id|]; [|done]. rewrite length_app. cbn [length]. split; [|lia].
  apply Forall_app. split; [done|]. by repeat constructor.
Qed.

Lemma server_loop_runs k fuel i srv d :
  disk_wf (disk d) → Forall session_ok (sessions srv) → (length (sessions srv) ≤ MAX_FS_SESSIONS)%nat →
  ∃ l' new d', server_loop demo_key info k fuel i srv d =
      (Val (mkServer l' (requests_served srv + length new) (sent srv ++ (reply <$> new))), d') ∧
    runs k fuel i d (sessions srv) l' new d' ∧ srv_later d d' ∧ Forall session_ok l' ∧
    (length l' ≤ MAX_FS_SESSIONS)%nat.
Proof.
  revert i srv d. induction fuel as [|fuel IH]; intros i srv d Hw Hok Hlen; cbn [server_loop].
  { exists (sessions srv), [], d. rewrite Nat.add_0_r, app_nil_r. destruct srv.
    split_and!; [done|constructor|done|done|done]. }
  destruct (accept_ok k i _ Hok Hlen) as [Hok1 Hlen1].
  destruct (poll_sessions_polls k i _ (requests_served srv) (sent srv) d Hw Hok1)
    as (l1 & n1 & new1 & d1 & Heq & Hp & Hl1 & Hok2 & -> & Hlen2).
  unfold server_iteration, mbind, DevM_bind. rewrite Heq. cbn [mret DevM_ret].
  edestruct (IH (i + 1)%N (mkServer l1 (requests_served srv + length new1) (sent srv ++ (reply <$> new1))) d1)
    as (l' & new & d' & Heq' & Hr & Hl & Hok' & Hlen'); [by apply (sl_wf _ _ Hl1)|done|cbn; lia|].
  unfold mret, DevM_ret. cbn [sessions requests_served sent] in *.
  exists l', (new1 ++ new), d'. rewrite Heq'. split_and!.
  - rewrite length_app, fmap_app, Nat.add_assoc, app_assoc. done.
  - by econstructor.
  - by transitivity d1.
  - done.
  - done.
Qed.

(** ** Only authorized writes reach the medium *)

(** A served write that was entitled to change sector [s]: in the iteration that
    served it the kernel's answers authorized its token for the very file whose
    sector [s] is. *)
Definition entitled (k : Kernel) (x : Served) (s : N) : Prop :=
  ∃ i d0 d1 name token data, x.1.2 = FsWrite name token data ∧
    handle (syscalls_at k i x.1.1) x.1.2 d0 = (Val x.2, d1) ∧
    authorized demo_key (syscalls_at k i x.1.1) token name ∧
    len data = SECTOR_SIZE ∧ write_target info (disk d0) name s.

Lemma handle_footprint k i id request response d d1 s :
  disk_wf (disk d) → (∀ name token data, request = FsWrite name token data → bytes data) →
  handle (syscalls_at k i id) request d = (Val response, d1) → sector_at (disk d1) s ≠ sector_at (disk d) s →
  entitled k (id, request, response) s.
Proof.
  intros Hw Hb Heq Hs. destruct (handle_total (syscalls_at k i id) request d Hw Hb) as (resp & d' & Heq' & _ & H).
  pose proof Heq as Hrun. rewrite Heq in Heq'. injection Heq' as <- <-. destruct request as [name token|name token data].
  - destruct (rs_only_read _ _ _ _ _ _ _ _ H) as [_ Hd]. by rewrite Hd in Hs.
  - destruct (ws_footprint _ _ _ _ _ _ _ _ _ H) as [Hd|(Ha & Hl & s' & y & Ht & Hy & Hd)]; [by rewrite Hd in Hs|].
    rewrite Hd, sector_at_insert in Hs. case_decide; [subst|done].
    exists i, d, d1, name, token, data. by split_and!.
Qed.

Lemma session_step_bytes k i s byte :
  session_ok s → session_try_recv k i (session_id s) = Some byte → bytes (buf s ++ [byte]).
Proof.
  intros [Hb _] Hr. apply bytes_app. split; [done|]. repeat constructor. by eapply recv_byte.
Qed.

Lemma polls_footprint k i d l l' new d' s :
  polls k i d l l' new d' → disk_wf (disk d) → Forall session_ok l →
  sector_at (disk d') s ≠ sector_at (disk d) s → ∃ x, x ∈ new ∧ entitled k x s.
Proof.
  induction 1 as [|d x l l' new d' Hr Hp IH|d x byte l l' new d' Hr Hd Hp IH
    |d x byte req cons resp d1 n l l' new d' Hr Hd Hh Hp IH]; intros Hw Hok Hs; [done| | |];
    apply Forall_cons in Hok as [Hx Hok]; [by apply IH|by apply IH|].
  pose proof (session_step_bytes _ _ _ _ Hx Hr) as Hb.
  assert (∀ name token data, req = FsWrite name token data → bytes data) as Hdb
    by (intros; by eapply decoded_bytes).
  destruct (handle_total (syscalls_at k i (session_id x)) req d Hw Hdb) as (resp' & d1' & Heq & Hl & _).
  rewrite Hh in Heq. injection Heq as <- <-.
  destruct (count_served_disk n d1) as [Hcd _].
  destruct (decide (sector_at (disk d1) s = sector_at (disk d) s)) as [Hsame|Hdiff].
  - destruct IH as (y & Hy & Hent); [by rewrite Hcd; apply (later_wf _ _ Hl)|done|by rewrite Hcd, Hsame|].
    exists y. split; [by right|done].
  - exists (session_id x, req, resp). split; [by left|]. by eapply handle_footprint.
Qed.

Lemma polls_facts k i d l l' new d' :
  polls k i d l l' new d' → disk_wf (disk d) → Forall session_ok l → srv_later d d' ∧ Forall session_ok l'.
Proof.
  induction 1 as [|d x l l' new d' Hr Hp IH|d x byte l l' new d' Hr Hd Hp IH
    |d x byte req cons resp d1 n l l' new d' Hr Hd Hh Hp IH]; intros Hw Hok; [done| | |];
    apply Forall_cons in Hok as [Hx Hok].
  - destruct (IH Hw Hok). split; [done|by constructor].
  - destruct (IH Hw Hok). split; [done|]. constructor; [|done]. apply pend_ok; [|done]. by eapply session_step_bytes.
  - pose proof (session_step_bytes _ _ _ _ Hx Hr) as Hb.
    destruct (handle_total (syscalls_at k i (session_id x)) req d Hw) as (resp' & d1' & Heq & Hl & _);
      [intros; by eapply decoded_bytes|].
    rewrite Hh in Heq. injection Heq as <- <-. pose proof (later_srv _ _ Hl) as Hsl.
    pose proof (count_served_srv n d1) as Hc.
    destruct IH as [Hl' Hok']; [by apply (sl_wf _ _ Hc), (sl_wf _ _ Hsl)|done|].
    split; [|done]. transitivity d1; [done|]. by transitivity (count_served n d1).
Qed.

(** What one iteration keeps for the next. *)
Lemma step_facts k i d l l1 new1 d1 :
  polls k i d (accept_session k i l) l1 new1 d1 →
  disk_wf (disk d) → Forall session_ok l → (length l ≤ MAX_FS_SESSIONS)%nat →
  Forall session_ok (accept_session k i l) ∧ srv_later d d1 ∧ disk_wf (disk d1) ∧ Forall session_ok l1 ∧
  (length l1 ≤ MAX_FS_SESSIONS)%nat.
Proof.
  intros Hp Hw Hok Hlen. destruct (accept_ok k i l Hok Hlen) as [Hok1 Hlen1].
  destruct (polls_facts _ _ _ _ _ _ _ Hp Hw Hok1) as [Hl1 Hok2].
  split_and!; [done|done|by apply (sl_wf _ _ Hl1)|done|].
  enough (length l1 ≤ length (accept_session k i l))%nat by lia. clear -Hp. induction Hp; cbn; lia.
Qed.

Lemma runs_footprint k n i d l l' new d' s :
  runs k n i d l l' new d' → disk_wf (disk d) → Forall session_ok l → (length l ≤ MAX_FS_SESSIONS)%nat →
  sector_at (disk d') s ≠ sector_at (disk d) s → ∃ x, x ∈ new ∧ entitled k x s.
Proof.
  induction 1 as [|n i d l l1 new1 d1 l' new d' Hp Hr IH]; intros Hw Hok Hlen Hs; [done|].
  destruct (step_facts _ _ _ _ _ _ _ Hp Hw Hok Hlen) as (Hok1 & Hl1 & Hw1 & Hok2 & Hlen2).
  destruct (decide (sector_at (disk d1) s = sector_at (disk d) s)) as [Hsame|Hdiff].
  - destruct IH as (x & Hx & He); [done|done|done|by rewrite Hsame|].
    exists x. split; [set_solver|done].
  - destruct (polls_footprint _ _ _ _ _ _ _ _ Hp Hw Hok1 Hdiff) as (x & Hx & He). exists x. split; [set_solver|done].
Qed.

(** ** After a timeout *)

Definition fails_closed (resp : FsResponse) : Prop :=
  resp = FsErr Unauthorized ∨ resp = FsErr BadRequest ∨ resp = FsErr DeviceFailed.

Lemma authorized_dec sys token name : Decision (authorized demo_key sys token name).
Proof.
  destruct (verify_file_token demo_key sys token name) eqn:Hv;
    [left; by apply verify_file_token_iff|right; rewrite <-verify_file_token_iff; congruence].
Qed.

Lemma handle_faulted sys request response d d1 :
  disk_wf (disk d) → (∀ name token data, request = FsWrite name token data → bytes data) →
  health d = Faulted → handle sys request d = (Val response, d1) → fails_closed response ∧ d1 = d.
Proof.
  intros Hw Hb Hf Heq. destruct (handle_total sys request d Hw Hb) as (resp & d' & Heq' & Hl & H).
  rewrite Heq in Heq'. injection Heq' as <- <-. pose proof (later_frozen _ _ Hl Hf) as ->. split; [|done].
  unfold fails_closed. destruct request as [name token|name token data].
  - destruct (authorized_dec sys token name) as [Ha|Ha]; [|left; apply H; done].
    right; right. by apply H.
  - destruct (authorized_dec sys token name) as [Ha|Ha]; [|left; apply H; done].
    right. destruct (decide (len data = SECTOR_SIZE)) as [Hlen|Hlen]; [right; by apply H|left; by apply H].
Qed.

Lemma polls_faulted k i d l l' new d' :
  polls k i d l l' new d' → disk_wf (disk d) → Forall session_ok l → health d = Faulted →
  Forall (λ x, fails_closed x.2) new.
Proof.
  induction 1 as [|d x l l' new d' Hr Hp IH|d x byte l l' new d' Hr Hd Hp IH
    |d x byte req cons resp d1 n l l' new d' Hr Hd Hh Hp IH]; intros Hw Hok Hf; [done| | |];
    apply Forall_cons in Hok as [Hx Hok]; [by apply IH|by apply IH|].
  pose proof (session_step_bytes _ _ _ _ Hx Hr) as Hb.
  destruct (handle_faulted (syscalls_at k i (session_id x)) req resp d d1 Hw) as [Hc ->];
    [intros; by eapply decoded_bytes|done|done|].
  destruct (count_served_disk n d) as [Hcd Hch]. constructor; [done|]. apply IH; [by rewrite Hcd|done|by rewrite Hch].
Qed.

Lemma runs_faulted k n i d l l' new d' :
  runs k n i d l l' new d' → disk_wf (disk d) → Forall session_ok l → (length l ≤ MAX_FS_SESSIONS)%nat →
  health d = Faulted → Forall (λ x, fails_closed x.2) new.
Proof.
  induction 1 as [|n i d l l1 new1 d1 l' new d' Hp Hr IH]; intros Hw Hok Hlen Hf; [done|].
  destruct (step_facts _ _ _ _ _ _ _ Hp Hw Hok Hlen) as (Hok1 & Hl1 & Hw1 & Hok2 & Hlen2).
  apply Forall_app. split; [by eapply polls_faulted|].
  apply IH; [done..|]. by apply (sl_faulted _ _ Hl1).
Qed.

(** ** Every complete request is answered, once *)

Definition ids (l : list FsSession) : list N := session_id <$> l.

(** The requests served to one client. *)
Definition served_to (id : N) (new : list Served) : list Served := filter (λ x, x.1.1 = id) new.

(** The bytes the kernel delivers on a session in iterations [i] to [i + n - 1]. *)
Fixpoint delivered (k : Kernel) (id : N) (n : nat) (i : N) : list N :=
  match n with
  | O => []
  | S n => match session_try_recv k i id with Some b => [b] | None => [] end ++ delivered k id n (i + 1)
  end.

(** [id] has exactly one session, holding the bytes [b]. *)
Definition waiting (id : N) (b : list N) (l : list FsSession) : Prop :=
  ∃ l1 l2, l = l1 ++ mkSession id b :: l2 ∧ (id ∉ ids l1) ∧ id ∉ ids l2.

Lemma polls_app k i d l1 l2 l' new d' :
  polls k i d (l1 ++ l2) l' new d' →
  ∃ l1' l2' new1 new2 d1, polls k i d l1 l1' new1 d1 ∧ polls k i d1 l2 l2' new2 d' ∧
    l' = l1' ++ l2' ∧ new = new1 ++ new2.
Proof.
  revert d l' new. induction l1 as [|x l1 IH]; intros d l' new Hp.
  { exists [], l', [], new, d. split_and!; [constructor|done|done|done]. }
  inversion Hp as [|? ? ? ? ? ? Hr Hp'|? ? ? ? ? ? ? Hr Hd Hp'|? ? ? ? ? ? ? ? ? ? ? ? Hr Hd Hh Hp']; subst;
    destruct (IH _ _ _ Hp') as (l1' & l2' & new1 & new2 & dm & H1 & H2 & -> & ->).
  - exists (x :: l1'), l2', new1, new2, dm. split_and!; [by constructor|done|done|done].
  - exists (pend x byte :: l1'), l2', new1, new2, dm. split_and!; [by apply polls_pending|done|done|done].
  - eexists l1', l2', (_ :: new1), new2, dm. split_and!; [by eapply polls_served|done|done|done].
Qed.

(** Sessions of others never serve [id]. *)
Lemma polls_others k i d l l' new d' id :
  polls k i d l l' new d' → id ∉ ids l → (id ∉ ids l') ∧ served_to id new = [].
Proof.
  unfold ids, served_to. induction 1 as [|d x l l' new d' Hr Hp IH|d x byte l l' new d' Hr Hd Hp IH
    |d x byte req cons resp d1 n l l' new d' Hr Hd Hh Hp IH]; cbn [fmap list_fmap]; intros Hid; [done| | |];
    apply not_elem_of_cons in Hid as [Hne Hid]; destruct (IH Hid) as [H1 H2].
  - split; [by apply not_elem_of_cons|done].
  - split; [by apply not_elem_of_cons|done].
  - split; [done|]. rewrite filter_cons, decide_False by (cbn; congruence). done.
Qed.

Lemma served_to_app id new1 new2 : served_to id (new1 ++ new2) = served_to id new1 ++ served_to id new2.
Proof. apply filter_app. Qed.

(** What one pass does to a waiting session. *)
Lemma polls_waiting k i d l l' new d' id b :
  polls k i d l l' new d' → waiting id b l →
  match session_try_recv k i id with
  | None => waiting id b l' ∧ served_to id new = []
  | Some byte =>
      match fs_request_decode (b ++ [byte]) with
      | None => (len (b ++ [byte]) ≤ FS_MAX_PENDING_BYTES)%N →
          waiting id (b ++ [byte]) l' ∧ served_to id new = []
      | Some (request, _) => (id ∉ ids l') ∧ ∃ response d0 d1,
          served_to id new = [(id, request, response)] ∧
          handle (syscalls_at k i id) request d0 = (Val response, d1)
      end
  end.
Proof.
  intros Hp (l1 & l2 & -> & H1 & H2).
  apply polls_app in Hp as (l1' & l2' & new1 & new2 & dm & Hp1 & Hp2 & -> & ->).
  destruct (polls_others _ _ _ _ _ _ _ _ Hp1 H1) as [H1' Hs1].
  rewrite served_to_app, Hs1. cbn [app].
  inversion Hp2 as [|? ? ? lr ? ? Hr Hp'|? ? ? ? lr ? ? Hr Hd Hp'|? ? ? ? ? ? d1 ? ? lr ? ? Hr Hd Hh Hp']; subst;
    cbn [session_id buf] in *; rewrite Hr; destruct (polls_others _ _ _ _ _ _ _ _ Hp' H2) as [H2' Hs2].
  - split; [|done]. by exists l1', lr.
  - rewrite Hd. intros Hlen. split; [|done]. unfold pend. cbn [session_id buf]. rewrite decide_False by lia.
    by exists l1', lr.
  - rewrite Hd. split; [unfold ids in *; rewrite fmap_app; set_solver|].
    exists response, dm, d1. split; [|done]. unfold served_to in *.
    rewrite filter_cons, decide_True by done. by rewrite Hs2.
Qed.

Lemma accept_ids k i l id :
  session_try_accept k i ≠ Some id → id ∉ ids l → id ∉ ids (accept_session k i l).
Proof.
  intros Ha Hid. unfold accept_session. case_decide; [|done]. destruct (session_try_accept k i) as [id'|]; [|done].
  unfold ids in *. rewrite fmap_app. cbn. apply not_elem_of_app. split; [done|]. set_solver.
Qed.

Lemma accept_waiting k i l id b :
  session_try_accept k i ≠ Some id → waiting id b l → waiting id b (accept_session k i l).
Proof.
  intros Ha (l1 & l2 & -> & H1 & H2). unfold accept_session. case_decide; [|by exists l1, l2].
  destruct (session_try_accept k i) as [id'|]; [|by exists l1, l2].
  exists l1, (l2 ++ [mkSession id' []]). rewrite <-app_assoc. split_and!; [done|done|].
  unfold ids in *. rewrite fmap_app. cbn. set_solver.
Qed.

Lemma runs_others k n i d l l' new d' id :
  runs k n i d l l' new d' → (∀ j, (i ≤ j)%N → session_try_accept k j ≠ Some id) → id ∉ ids l →
  served_to id new = [].
Proof.
  induction 1 as [|n i d l l1 new1 d1 l' new d' Hp Hr IH]; intros Hfresh Hid; [done|].
  destruct (polls_others _ _ _ _ _ _ _ id Hp) as [H1 H2]; [apply accept_ids; [by apply Hfresh|done]|].
  rewrite served_to_app, H2, IH; [done|intros j Hj; apply Hfresh; lia|done].
Qed.

(** A request fits the buffer with room to spare. *)
Lemma request_length r : request_fits r → (len (fs_request_encode r) ≤ FS_MAX_PENDING_BYTES)%N.
Proof.
  assert (∀ s max, str_fits max s → (len (encode_string s) ≤ 2 + max)%N) as Hstr.
  { intros s max [Hl _]. unfold encode_string, encode_str, len. rewrite length_app, length_as_bytes. cbn [length u16_to_le]. lia. }
  assert (∀ t, token_fits t → (len (encode_token t) ≤ 1048)%N) as Htok.
  { intros t (Hs & Hr & _ & _ & Hk & Hg). unfold encode_token. rewrite !len_app, !words_len.
    apply Hstr in Hs, Hr, Hk, Hg. unfold MAX_TOKEN_FIELD_LEN in *. lia. }
  destruct r as [name token|name token data]; cbn [request_fits fs_request_encode].
  - intros [Hn Ht]. apply Hstr in Hn. apply Htok in Ht. rewrite len_nil_cons, len_app.
    unfold FS_MAX_PENDING_BYTES, MAX_NAME_LEN in *. lia.
  - intros (Hn & Ht & Hd & _). apply Hstr in Hn. apply Htok in Ht. rewrite len_nil_cons, !len_app.
    unfold FS_MAX_PENDING_BYTES, MAX_NAME_LEN, MAX_DATA_LEN in *.
    assert (len (u16_to_le (len data mod 65536)) = 2%N) by done. lia.
Qed.

Lemma runs_answered k n i d l l' new d' id r j ext :
  runs k n i d l l' new d' → request_fits r → (j < length (fs_request_encode r))%nat →
  (∀ t, (i ≤ t)%N → session_try_accept k t ≠ Some id) →
  waiting id (take j (fs_request_encode r)) l →
  delivered k id n i = drop j (fs_request_encode r) ++ ext →
  ∃ t response d0 d1, served_to id new = [(id, r, response)] ∧ handle (syscalls_at k t id) r d0 = (Val response, d1).
Proof.
  intros Hruns Hfit. revert j. induction Hruns as [|n i d l l1 new1 d1 l' new d' Hp Hr IH];
    intros j Hj Hfresh Hwait Hdel.
  { cbn in Hdel. destruct (drop j (fs_request_encode r)) eqn:Hdrop; [|done].
    apply (f_equal length) in Hdrop. rewrite length_drop in Hdrop. cbn in Hdrop. lia. }
  apply (accept_waiting k i) in Hwait; [|by apply Hfresh].
  pose proof (polls_waiting _ _ _ _ _ _ _ _ _ Hp Hwait) as Hstep. cbn [delivered] in Hdel.
  assert (∀ t, (i + 1 ≤ t)%N → session_try_accept k t ≠ Some id) as Hfresh' by (intros t Ht; apply Hfresh; lia).
  destruct (session_try_recv k i id) as [byte|] eqn:Hrecv.
  2:{ destruct Hstep as [Hwait' Hnone]. rewrite served_to_app, Hnone. by eapply (IH j). }
  destruct (fs_request_encode r !! j) as [b|] eqn:Hb; [|apply lookup_ge_None in Hb; lia].
  rewrite (drop_S _ _ _ Hb) in Hdel. injection Hdel as -> Hdel. rewrite <-(take_S_r _ _ _ Hb) in Hstep.
  destruct (decide (S j < length (fs_request_encode r))%nat) as [Hmore|Hlast].
  - rewrite codec_truncated in Hstep by done. destruct Hstep as [Hwait' Hnone].
    { pose proof (request_length r Hfit). unfold len in *. rewrite length_take. lia. }
    rewrite served_to_app, Hnone. by eapply (IH (S j)).
  - rewrite take_ge in Hstep by lia. pose proof (codec_dec r [] Hfit (Forall_nil_2 _)) as Hdec.
    rewrite app_nil_r in Hdec. rewrite Hdec in Hstep. destruct Hstep as (Hgone & resp & d0 & d2 & Hs & Hh).
    rewrite served_to_app, Hs, (runs_others _ _ _ _ _ _ _ _ id Hr) by done. by exists i, resp, d0, d2.
Qed.

(** ** The server *)

Section server.
Context (k : Kernel).

(** The first [fuel] iterations; [run_fs_ipc_server] is [server SERVER_ITERATIONS]. *)
Abbreviation server fuel := (server_loop demo_key info k fuel 0 server_new).

Lemma server_run fuel d :
  disk_wf (disk d) →
  ∃ l new d', server fuel d = (Val (mkServer l (length new) (reply <$> new)), d') ∧
    runs k fuel 0 d [] l new d' ∧ srv_later d d' ∧ Forall session_ok l ∧
    (length l ≤ MAX_FS_SESSIONS)%nat.
Proof.
  intros Hw. apply (server_loop_runs k fuel 0 server_new d Hw); [constructor|cbn; lia].
Qed.

(** C36. The file server always finishes its 20 million iterations without a panic,
    whatever the clients send, the volume holds and the device does; it then holds
    at most 4 sessions with at most 8192 pending bytes each, and has sent exactly
    one reply for each request it counted. *)
Theorem server_total d :
  disk_wf (disk d) →
  ∃ srv d', run_fs_ipc_server demo_key info k d = (Val srv, d') ∧ disk_wf (disk d') ∧
    (length (sessions srv) ≤ 4)%nat ∧ Forall (λ s, len (buf s) ≤ 8192)%N (sessions srv) ∧
    requests_served srv = length (sent srv).
Proof.
  intros Hw. destruct (server_run SERVER_ITERATIONS d Hw) as (l & new & d' & Heq & _ & Hl & Hok & Hlen).
  exists (mkServer l (length new) (reply <$> new)), d'. split_and!; [done|by apply Hl|done| |].
  - eapply Forall_impl; [exact Hok|]. by intros s (_ & _ & ?).
  - cbn. by rewrite length_fmap.
Qed.



(** What was sent to a client. *)
Definition sent_to (id : N) (out : list (N * list N)) : list (N * list N) := filter (λ x, x.1 = id) out.

Lemma sent_to_replies id new : sent_to id (reply <$> new) = reply <$> served_to id new.
Proof.
  unfold sent_to, served_to. induction new as [|x new IH]; [done|].
  rewrite fmap_cons, !filter_cons. cbn [reply fst]. case_decide; [cbn|]; by rewrite IH.
Qed.


End server.

End loop.

(** ** How much device work one request may cause

    Every loop of the driver's file operations is bounded by a constant of the
    code (the 1024-cluster cap on chain walks) and by the volume's geometry, so a
    cyclic or damaged FAT cannot keep the server busy: the number of requests it
    submits to the device while it serves one client request has a bound that does
    not depend on the medium. *)

(** [cost n m]: running [m] submits at most [n] requests. *)
Definition cost {A} (n : N) (m : DevM A) : Prop :=
  ∀ d, (N.of_nat (submitted (m d).2) ≤ N.of_nat (submitted d) + n)%N.

Create HintDb cost.

Lemma cost_mono {A} n n' (m : DevM A) : (n ≤ n')%N → cost n m → cost n' m.
Proof. intros Hn Hm d. specialize (Hm d). lia. Qed.

Lemma cost_ret {A} (a : A) : cost 0 (mret a : DevM A).
Proof. intros d. cbn. lia. Qed.

Lemma cost_gets {A} (f : BlkDevice → A) : cost 0 (gets f).
Proof. intros d. cbn. lia. Qed.

Lemma cost_panic {A} : cost 0 (panic : DevM A).
Proof. intros d. cbn. lia. Qed.

Lemma cost_bind {A B} n n' (m : DevM A) (k : A → DevM B) :
  cost n m → (∀ a, cost n' (k a)) → cost (n + n') (m ≫= k).
Proof.
  intros Hm Hk d. unfold mbind, DevM_bind. specialize (Hm d). destruct (m d) as [[a|] d']; cbn in *; [|lia].
  specialize (Hk a d'). lia.
Qed.

Lemma cost_try {A B} n n' (m : DevM (option A)) (k : A → DevM (option B)) :
  cost n m → (∀ a, cost n' (k a)) → cost (n + n') (try_opt m k).
Proof.
  intros Hm Hk. apply cost_bind; [done|]. intros [a|]; [done|]. apply (cost_mono 0); [lia|apply cost_ret].
Qed.

Lemma cost_pure {A B} n (o : option A) (k : A → DevM (option B)) :
  (∀ a, cost n (k a)) → cost n (try_opt (pure_opt o) k).
Proof. intros Hk. rewrite <-(N.add_0_l n). apply cost_try; [apply cost_ret|done]. Qed.

#[export] Hint Resolve cost_ret cost_gets cost_panic : cost.

(** A return inside a computation that may cost [n]. *)
Ltac cost_done := apply (cost_mono 0); [lia|auto with cost].

Section cost.
Context `{HW : BlkHardware}.

Lemma cost_request req s d :
  (submitted (request req s d).2 ≤ S (submitted d))%nat.
Proof.
  unfold request. destruct (may_submit (health d)); cbn; [|lia].
  destruct (stall_next_notify d); cbn; [lia|].
  destruct (hw_completion (submitted d)); unfold device_effect; destruct req; repeat case_match; cbn; lia.
Qed.

Lemma cost_read s : cost 1 (read_sector s).
Proof.
  intros d. unfold read_sector. destruct (is_faulted d); [cbn; lia|].
  unfold mbind, DevM_bind, modify. cbn. pose proof (cost_request BlkIn s (set_buf zero_sector d)) as Hc. cbn in Hc.
  destruct (request BlkIn s (set_buf zero_sector d)) as [[[c st]|] d']; cbn in *; [|lia]. case_match; cbn; lia.
Qed.

Lemma cost_write s x : cost 1 (write_sector s x).
Proof.
  intros d. unfold write_sector. destruct (is_faulted d); [cbn; lia|].
  unfold mbind, DevM_bind, modify. cbn. pose proof (cost_request BlkOut s (set_buf x d)) as Hc. cbn in Hc. lia.
Qed.

Context (info : BootSectorInfo).

Abbreviation spc := (sectors_per_cluster info).

Lemma cost_next c : cost 1 (next_cluster_in_chain info c).
Proof.
  unfold next_cluster_in_chain. apply cost_pure. intros off. apply cost_pure. intros sec.
  change 1%N with (1 + 0)%N. apply cost_try; [apply cost_read|auto with cost].
Qed.

Section walk.
Context {S R : Type} (body : S → N → nat → list N → Flow S R).

Lemma cost_scan_sectors n s st : cost (N.of_nat n) (scan_sectors body n s st).
Proof.
  revert s st. induction n as [|n IH]; intros s st; cbn [scan_sectors]; [apply cost_ret|].
  apply (cost_mono (1 + N.of_nat n)); [lia|]. apply cost_bind; [apply cost_read|].
  intros [x|]; [destruct (scan_chunks _ _ _ _ _); [apply IH|]|]; cost_done.
Qed.

Lemma cost_walk fuel c st : cost (N.of_nat fuel * (spc + 1)) (walk_chain info body fuel c st).
Proof.
  revert c st. induction fuel as [|fuel IH]; intros c st; cbn [walk_chain]; [apply cost_ret|].
  apply (cost_mono (spc + (1 + N.of_nat fuel * (spc + 1)))); [lia|].
  apply cost_pure. intros s. apply cost_bind; [rewrite <-(N2Nat.id spc) at 1; apply cost_scan_sectors|].
  intros [st'|r]; [|cost_done]. apply cost_try; [apply cost_next|]. intros next.
  destruct (is_end_of_chain next); [cost_done|apply IH].
Qed.

End walk.

Lemma cost_read_cluster rl n s w : cost (N.of_nat n) (read_cluster rl n s w).
Proof.
  revert s w. induction n as [|n IH]; intros s w; cbn [read_cluster]; [apply cost_ret|].
  case_decide; [cost_done|]. apply (cost_mono (1 + N.of_nat n)); [lia|]. apply cost_bind; [apply cost_read|].
  intros [x|]; [apply IH|cost_done].
Qed.

Lemma cost_read_chain rl fuel c w : cost (N.of_nat fuel * (spc + 1)) (read_chain info rl fuel c w).
Proof.
  revert c w. induction fuel as [|fuel IH]; intros c w; cbn [read_chain]; [apply cost_ret|].
  case_decide; [cost_done|]. destruct (cluster_to_sector info c) as [s|]; [|cost_done].
  apply (cost_mono (spc + (1 + N.of_nat fuel * (spc + 1)))); [lia|].
  apply cost_bind; [rewrite <-(N2Nat.id spc) at 1; apply cost_read_cluster|]. intros [ok w'].
  destruct ok; cbn [negb]; [|cost_done]. case_decide; [cost_done|]. apply cost_bind; [apply cost_next|].
  intros [next|]; [destruct (is_end_of_chain next); [cost_done|apply IH]|cost_done].
Qed.

(** One walk of a chain. *)
Definition WALK : N := 1024 * (spc + 1).

Lemma walk_cap : (N.of_nat CHAIN_CAP * (spc + 1) = WALK)%N.
Proof. done. Qed.

Lemma cost_find c target : cost WALK (find_entry_in_directory info c target).
Proof.
  rewrite <-walk_cap. rewrite <-(N.add_0_r (_ * _)). apply cost_try; [apply cost_walk|].
  intros [[e s] o]. apply cost_ret.
Qed.

Lemma cost_find_display c name : cost (WALK + WALK) (find_entry_by_display_name info c name).
Proof.
  apply cost_bind; [destruct (encode_short_name (as_bytes name)); [apply cost_find|cost_done]|].
  intros [e|]; [cost_done|]. rewrite <-walk_cap. apply cost_walk.
Qed.

Context `{SIG : SignatureScheme} (demo_key : SigningKey).

Lemma cost_handle_read sys name token : cost (3 * WALK) (handle_read_ipc_request demo_key info sys name token).
Proof.
  unfold handle_read_ipc_request. case_match; [cost_done|].
  apply (cost_mono (0 + (WALK + WALK + WALK))); [lia|]. apply cost_bind; [apply cost_gets|]. intros [|]; [cost_done|].
  apply cost_bind; [apply cost_find_display|]. intros [e|].
  - destruct (is_dir e); [cost_done|]. apply (cost_mono (WALK + (0 + 0))); [lia|].
    apply cost_bind; [rewrite <-walk_cap; apply cost_read_chain|]. intros w.
    apply cost_bind; [apply cost_gets|auto with cost].
  - apply (cost_mono (0 + 0)); [lia|]. apply cost_bind; [apply cost_gets|auto with cost].
Qed.

Lemma cost_handle_write sys name token data :
  cost (WALK + 1) (handle_write_ipc_request demo_key info sys name token data).
Proof.
  unfold handle_write_ipc_request. case_match; [cost_done|]. case_decide; [cost_done|].
  apply (cost_mono (0 + (WALK + 0 + 1))); [lia|]. apply cost_bind; [apply cost_gets|]. intros [|]; [cost_done|].
  apply cost_bind.
  - apply cost_pure. intros short. apply cost_try; [apply cost_find|auto with cost].
  - intros [s|].
    + rewrite <-(N.add_0_r 1). apply cost_bind; [apply cost_write|auto with cost].
    + apply (cost_mono (0 + 0)); [lia|]. apply cost_bind; [apply cost_gets|auto with cost].
Qed.

(** Serving one request submits at most 3 walks of 1024 clusters to the
    device, however the FAT is linked: a cycle in a directory's or a file's chain
    costs no more than a chain of the cap's length. *)
Theorem request_work_bounded sys request d :
  (N.of_nat (submitted (handle_request demo_key info sys request d).2) ≤
   N.of_nat (submitted d) + 3 * (1024 * (sectors_per_cluster info + 1)))%N.
Proof.
  destruct request as [name token|name token data]; cbn [handle_request].
  - apply (cost_handle_read sys name token d).
  - pose proof (cost_handle_write sys name token data d) as Hc. unfold WALK in Hc. lia.
Qed.

End cost.
