(* ===== verification/BlkMain.v ===== *)
(** * BlkMain: the entry point of [blk-driver-host]

    Model of [_start] in [blk-driver-host/src/main.rs] behind the device probe: the
    queue-size check, the choice between serving files, the FAT32 checks and the
    raw sector check, and the result bytes left in the boot-info page. *)

From S2P Require Import Prelude Bytes Capability FsCodec Fat BlkDev FatOps FatDir FatSelfTest FsServer FsLoop.

(** The flags of [BlkBootInfo]. *)
Record BlkBootInfo := mkBootInfo {
  attempt_fat32 : N;
  serve_fs_requests : N;
  inject_stall_after_first_request : N;
}.

Definition BLK_RESULT_PASS : N := 1.
Definition BLK_RESULT_FAIL : N := 2.

(** The bytes at [BLK_RESULT_OFFSET] and [BLK_FAT32_RESULT_OFFSET], as written. *)
Record Results := mkResults { result : option N; fat32_result : option N }.

Definition verdict (pass : bool) : N := if pass then BLK_RESULT_PASS else BLK_RESULT_FAIL.

Section start.
Context `{SIG : SignatureScheme} `{HW : BlkHardware} (demo_key : SigningKey).

(** The device after the probe. *)
Definition fresh_device (m : Disk) : BlkDevice := mkDev m zero_sector health_new false false 0.

(** Up to the final [yield_now] loop; [queue_size] is what the device reports, [k]
    the kernel's answers while files are served. *)
Definition start (boot : BlkBootInfo) (queue_size : N) (k : Kernel) : DevM Results :=
  match validate_queue_size queue_size with
  | None => mret (mkResults (Some BLK_RESULT_FAIL) (Some BLK_RESULT_FAIL))
  | Some qsize =>
      if decide (serve_fs_requests boot ≠ 0)%N then
        o ← read_sector 0;
        match o ≫= boot_parse with
        | Some boot_info =>
            _ ← modify (set_stall_after (bool_decide (inject_stall_after_first_request boot ≠ 0%N)));
            _ ← run_fs_ipc_server demo_key boot_info k;
            mret (mkResults None None)
        | None => mret (mkResults None None)
        end
      else if decide (attempt_fat32 boot ≠ 0)%N then
        pass ← run_fat32_proof;
        mret (mkResults None (Some (verdict pass)))
      else
        pass ← run_sector_roundtrip_proof;
        mret (mkResults (Some (verdict pass)) None)
  end.

(** The modes as the boot information selects them. *)
Lemma start_refused boot queue_size k d :
  validate_queue_size queue_size = None →
  start boot queue_size k d = (Val (mkResults (Some BLK_RESULT_FAIL) (Some BLK_RESULT_FAIL)), d).
Proof. unfold start. by intros ->. Qed.

Lemma test_pattern_sector : is_sector (copy_at zero_sector 0 (as_bytes TEST_PATTERN_PREFIX)).
Proof.
  split; [done|]. apply bytes_copy_at; [apply zero_is_sector|apply bytes_as_bytes].
Qed.

(** The raw check: one write and one read of sector 0. *)
Lemma post_sector_roundtrip d :
  disk_wf (disk d) →
  post run_sector_roundtrip_proof d (λ r d',
    later d d' ∧ (∀ s, s ≠ 0%N → sector_at (disk d') s = sector_at (disk d) s) ∧
    ∃ pass, r = Val pass ∧ (dependable d → pass = true)).
Proof.
  intros Hw. unfold run_sector_roundtrip_proof. pose proof test_pattern_sector as Hpat.
  set (pat := copy_at zero_sector 0 (as_bytes TEST_PATTERN_PREFIX)) in *.
  apply post_bind, post_write; [done|done| |].
  - intros d1 r Hl1 Hok Hn Hd1.
    assert (disk_wf (disk d1)) as Hw1 by (by apply (later_wf _ _ Hl1)).
    assert (∀ s, s ≠ 0%N → sector_at (disk d1) s = sector_at (disk d) s) as Hs.
    { intros s Hs. destruct Hd1 as [->|(y & _ & ->)]; [done|]. rewrite sector_at_insert, decide_False by done. done. }
    apply post_bind, post_read; [done| |]; intros d2 Hl2 Hd2 _; apply post_ret; rewrite Hok;
      (split_and!; [by transitivity d1|by rewrite Hd2|]); by exists false.
  - intros d1 r Hl1 Hok Hh Hd1. assert (disk_wf (disk d1)) as Hw1 by (by apply (later_wf _ _ Hl1)).
    assert (∀ s, s ≠ 0%N → sector_at (disk d1) s = sector_at (disk d) s) as Hs.
    { intros s Hs. by rewrite Hd1, sector_at_insert, decide_False. }
    apply post_bind, post_read; [done| |].
    + intros d2 Hl2 Hd2 Hn. apply post_ret. rewrite Hok. split_and!; [by transitivity d1|by rewrite Hd2|].
      eexists. split; [done|]. intros Hdep. by destruct (not_dependable_before d d1 Hl1 Hn).
    + intros d2 Hl2 Hd2 _. apply post_ret. rewrite Hok. split_and!; [by transitivity d1|by rewrite Hd2|].
      eexists. split; [done|]. intros _. rewrite Hd1, sector_at_insert, decide_True by done.
      by apply bool_decide_eq_true_2.
Qed.

(** What the driver may do to the medium on boot, whatever the volume holds and
    the device does: a refused queue size touches nothing; serving files never
    panics and changes a sector only for an entitled write; the raw check writes
    sector 0 and no other, and passes on a device that answers. *)
Theorem start_footprint boot queue_size k d :
  disk_wf (disk d) → (serve_fs_requests boot ≠ 0 ∨ attempt_fat32 boot = 0)%N →
  ∃ r d', start boot queue_size k d = (Val r, d') ∧
    ∀ s, sector_at (disk d') s ≠ sector_at (disk d) s →
      is_Some (validate_queue_size queue_size) ∧
      if decide (serve_fs_requests boot ≠ 0)%N
      then ∃ info x, boot_parse (sector_at (disk d) 0) = Some info ∧ entitled demo_key info k x s
      else s = 0%N.
Proof.
  intros Hw Hmode. unfold start. destruct (validate_queue_size queue_size) as [q|]; [|eexists _, d; by split].
  destruct (decide (serve_fs_requests boot ≠ 0)%N) as [Hserve|Hserve].
  - assert (post (read_sector 0) d (λ r d', later d d' ∧ disk d' = disk d ∧
      (r = Val None ∨ r = Val (Some (sector_at (disk d) 0))))) as Hread
      by (apply post_read; [done|intros; split_and!; try done; by left|intros; split_and!; try done; by right]).
    unfold post in Hread. unfold mbind, DevM_bind.
    destruct (read_sector 0 d) as [r0 d0]. cbn in Hread. destruct Hread as (_ & Hd0 & [-> | ->]);
      [by eexists _, d0; rewrite Hd0|].
    cbn [option_bind]. destruct (boot_parse (sector_at (disk d) 0)) as [info|];
      [|by eexists _, d0; rewrite Hd0].
    cbn [modify]. set (d1 := set_stall_after _ d0).
    assert (disk d1 = disk d) as Hd1 by done.
    destruct (server_run demo_key info k SERVER_ITERATIONS d1) as (l & new & d2 & Heq & Hr & _); [by rewrite Hd1|].
    unfold run_fs_ipc_server, modify. fold d1. rewrite Heq. eexists _, d2. split; [done|]. rewrite <-Hd1.
    intros s Hs. split; [done|]. exists info.
    destruct (runs_footprint _ _ _ _ _ _ _ _ _ _ s Hr) as (x & _ & He); [by rewrite Hd1|constructor|cbn; lia|done|].
    by exists x.
  - destruct Hmode as [?|Hfat]; [done|]. rewrite decide_False by lia.
    pose proof (post_sector_roundtrip d Hw) as Hp. unfold post in Hp. unfold mbind, DevM_bind.
    destruct run_sector_roundtrip_proof as [r d']. cbn in Hp. destruct Hp as (_ & Hs & pass & -> & _).
    eexists _, d'. split; [done|]. intros s Hd. split; [done|]. by destruct (decide (s = 0%N)); [|destruct Hd; apply Hs].
Qed.

End start.
