(* ===== verification/FsScenario.v ===== *)
(** * FsScenario: a small volume, and runs on it

    A 126-cluster volume with one-sector clusters and two FATs, a device that
    answers every request and one that never does.  The runs witness the theorems
    about the driver at concrete inputs, and show where the code departs from its
    intent: sector sizes it accepts and cannot handle, writes to a directory, and
    cluster numbers outside the FAT. *)

From S2P Require Import Prelude Text Bytes Capability FsCodec Fat BlkDev FatOps FatAlloc FatDir.
From S2P Require Import FatTree FatCreate FatSelfTest FsServer FsLoop BlkMain.

(** ** Devices *)

(** Every request completes. *)
#[export] Instance good_hw : BlkHardware := {|
  hw_completion _ := Completed 0; hw_torn _ old _ := old; hw_torn_sector _ old new Ho Hn := Ho;
|}.

Definition device (m : Disk) : BlkDevice := mkDev m zero_sector Healthy false false 0.

(** ** The volume *)

Definition demo_info : BootSectorInfo := mkBoot 512 1 2 2 1 2 2 4 1.

Definition sector (prefix : list N) : list N := prefix ++ replicate (512 - length prefix) 0%N.

Definition EOC : N := 0x0FFFFFFF.

(** [2] is the root directory, [3] HELLO.TXT, [4] SUBDIR, [5] DELETE_M.TXT. *)
Definition demo_fat : list N := sector (concat (le_bytes 4 <$> [0x0FFFFFF8; EOC; EOC; EOC; EOC; EOC]%N)).

Definition dir_entry (name : string) (attr cluster size : N) : list N :=
  copy_at (new_short_entry (as_bytes name) cluster size) 11 [attr].

Definition demo_root : list N :=
  sector (dir_entry "HELLO   TXT" ATTR_ARCHIVE 3 5 ++ dir_entry "SUBDIR     " ATTR_DIRECTORY 4 0 ++
    dir_entry "DELETE_MTXT" ATTR_ARCHIVE 5 4).

Definition demo_fsinfo : list N :=
  copy_at (copy_at (copy_at (copy_at zero_sector 0 (le_bytes 4 FSINFO_SIG1)) 484 (le_bytes 4 FSINFO_SIG2))
    488 (le_bytes 4 122)) 510 [0x55; 0xAA]%N.

Definition demo_disk : Disk := list_to_map
  [(1, demo_fsinfo); (2, demo_fat); (3, demo_fat); (4, demo_root); (5, sector (as_bytes "hello"));
   (7, sector (as_bytes "gone"))]%N.

Definition demo_dev : BlkDevice := device demo_disk.

(** ** Checking a concrete medium *)

Definition sector_ok (s : list N) : bool :=
  bool_decide (len s = SECTOR_SIZE) && forallb (λ b, bool_decide (b < 256)%N) s.

Definition disk_ok (m : Disk) : bool := forallb (λ x, sector_ok x.2) (map_to_list m).

Lemma sector_ok_wf x : sector_ok x = true → is_sector x.
Proof.
  unfold sector_ok. intros [Hl Hb]%andb_true_iff. split; [by apply bool_decide_eq_true in Hl|].
  apply Forall_forall. intros b Hb'%list_elem_of_In. rewrite forallb_forall in Hb.
  by apply (bool_decide_eq_true_1 _ (Hb b Hb')).
Qed.

Lemma disk_ok_wf m : disk_ok m = true → disk_wf m.
Proof.
  unfold disk_ok. rewrite forallb_forall. intros Hall s x Hx%elem_of_map_to_list%list_elem_of_In%Hall.
  by apply sector_ok_wf.
Qed.

Lemma demo_disk_wf : disk_wf demo_disk.
Proof. apply disk_ok_wf. vm_compute. reflexivity. Qed.

Lemma demo_dependable : dependable demo_dev.
Proof. by split_and!. Qed.

Lemma demo_ready : ready demo_dev.
Proof. split; [apply demo_disk_wf|apply demo_dependable]. Qed.

Lemma demo_volume : volume_ok demo_info ∧ data_fits demo_info.
Proof.
  split; [|unfold data_fits, u32_max; cbn; lia].
  split; [|done|cbn; lia|cbn; lia]. split; cbn; try lia; try done. unfold VALID_BYTES_PER_SECTOR. set_solver.
Qed.

Lemma demo_root_chain : fat_chain demo_info demo_disk 2 [2%N].
Proof. constructor; [split; [lia|unfold in_fat; cbn; lia]|vm_compute; reflexivity]. Qed.

(** ** Allocation, creation, deletion *)

Lemma allocate_chain_witness :
  ∃ ok out' d', allocate_cluster_chain demo_info 2 [0; 0]%N demo_dev = (Val (ok, out'), d') ∧
    (if ok : bool then NoDup (take 2 out') else exhausted demo_info demo_disk 2).
Proof.
  destruct (allocate_chain_exact demo_info (proj1 demo_volume) 2 [0; 0]%N demo_dev demo_disk_wf demo_dependable ltac:(cbn; lia))
    as (ok & out' & d' & Heq & _ & _ & H). exists ok, out', d'. split; [done|]. destruct ok; apply H.
Defined.

(** No slot has the name. *)
Definition name_absent (target : list N) (m : Disk) (ps : list Position) : bool :=
  forallb (λ q, match parse_short_dir_entry (slot_entry (slot_at m q)) with
                | Some e => bool_decide (e_name e ≠ target)
                | None => true
                end) ps.

Lemma name_absent_spec target m ps :
  name_absent target m ps = true → ∀ q, q ∈ ps → ∀ e, ¬ names target (slot_entry (slot_at m q)) e.
Proof.
  unfold name_absent. rewrite forallb_forall. intros Hall q Hq%list_elem_of_In%Hall e [He Hn].
  rewrite He in Hq. by apply bool_decide_eq_true in Hq.
Qed.

Lemma create_witness :
  ∃ pass d', run_create_proof demo_info demo_dev = (Val pass, d') ∧
    (hint_exact demo_info demo_disk → hint_exact demo_info (disk d')).
Proof.
  destruct (create_exact demo_info (proj1 demo_volume) (proj2 demo_volume) [2%N] demo_dev demo_ready demo_root_chain)
    as (pass & d' & Heq & Hh & _).
  - cbn [length]. unfold CHAIN_CAP. lia.
  - apply name_absent_spec. vm_compute. reflexivity.
  - exists pass, d'. by split.
Defined.

Definition deleted_entry : ShortDirEntry := mkEntry DELETE_FILE_NAME 5 4 false.

Lemma demo_delete_named :
  first_named DELETE_FILE_NAME (dir_slots demo_info demo_disk CHAIN_CAP 2) deleted_entry 4 2.
Proof.
  assert (lookup_name DELETE_FILE_NAME (dir_slots demo_info demo_disk CHAIN_CAP 2) = Some (deleted_entry, 4%N, 64%nat)) as Hl
    by (vm_compute; reflexivity).
  apply fold_short_name in Hl as (i & Hi & Hf). by replace 2%nat with i by lia.
Qed.

Lemma delete_witness :
  ∃ pass d', run_delete_proof demo_info demo_dev = (Val pass, d') ∧
    deleted demo_info [2%N] [5%N] (4%N, 2%nat) demo_disk (disk d').
Proof.
  destruct (delete_exact demo_info (proj1 demo_volume) (proj2 demo_volume) [2%N] [5%N] deleted_entry 4 2 demo_dev demo_ready
    demo_root_chain) as (pass & d' & Heq & Hdel & _).
  - cbn [length]. unfold CHAIN_CAP. lia.
  - apply demo_delete_named.
  - constructor; [split; [cbn; lia|unfold in_fat; cbn; lia]|vm_compute; reflexivity].
  - cbn [length]. unfold CHAIN_CAP. lia.
  - intros x ->%list_elem_of_singleton. set_solver.
  - exists pass, d'. by split.
Defined.

(** ** Requests *)

(** The kernel's answers: the clock reads 10 and nothing is revoked. *)
Definition demo_sys : Syscalls := mkSyscalls 10 (λ _, 0%N).

Definition demo_token (name : string) : CapabilityToken :=
  @issue Demo.scheme "client" (file_resource name) 0 60 "demo-key" 7%N.

Lemma demo_authorized name :
  bool_decide (@verify Demo.scheme (demo_token name) 7%N (file_resource name) 10 = Ok ()) &&
    match @signature_fingerprint Demo.scheme (tok_signature (demo_token name)) with Some _ => true | None => false end = true →
  @authorized Demo.scheme 7%N demo_sys (demo_token name) name.
Proof.
  intros [Hv Hf]%andb_true_iff. split; [by apply bool_decide_eq_true in Hv|].
  destruct (signature_fingerprint (tok_signature (demo_token name))) as [fp|] eqn:Heq; [|done]. by exists fp.
Qed.

Lemma read_witness :
  ∃ d', @handle_read_ipc_request Demo.scheme good_hw 7%N demo_info demo_sys "hello.txt" (demo_token "hello.txt") demo_dev =
    (Val (FsData (as_bytes "hello")), d').
Proof.
  destruct (@read_request_exact Demo.scheme good_hw 7%N demo_info demo_sys "hello.txt" (demo_token "hello.txt") demo_dev
    demo_disk_wf) as (resp & d' & Heq & _ & _ & _ & _ & Hexact).
  exists d'. rewrite Heq, Hexact; [vm_compute; reflexivity|apply demo_authorized; vm_compute; reflexivity|apply demo_dependable].
Defined.

Lemma bytes_zero : bytes zero_sector.
Proof. by repeat constructor. Qed.

Lemma write_witness :
  ∃ resp d', @handle_write_ipc_request Demo.scheme good_hw 7%N demo_info demo_sys "hello.txt" (demo_token "hello.txt") zero_sector demo_dev =
    (Val resp, d') ∧ (resp = FsOk ∨ resp = FsErr NotFound).
Proof.
  destruct (@write_request_exact Demo.scheme good_hw 7%N demo_info demo_sys "hello.txt" (demo_token "hello.txt") zero_sector demo_dev
    demo_disk_wf bytes_zero) as (resp & d' & Heq & Hw).
  exists resp, d'. split; [done|].
  destruct (ws_exact _ _ _ _ _ _ _ _ _ Hw) as [[-> _]|[-> _]]; [..|by left|by right];
    [apply demo_authorized; vm_compute; reflexivity|done|apply demo_dependable].
Defined.

(** The write path has no directory check: an authorized write naming SUBDIR
    answers Ok and replaces the directory's own sector by the data, while a read
    of the same name with the same token answers NotFound. *)
Theorem write_overwrites_directory :
  let write := @handle_write_ipc_request Demo.scheme good_hw 7%N demo_info demo_sys "SUBDIR" (demo_token "SUBDIR")
                 (sector (as_bytes "data")) demo_dev in
  @authorized Demo.scheme 7%N demo_sys (demo_token "SUBDIR") "SUBDIR" ∧
  is_dir <$> short_lookup demo_info demo_disk "SUBDIR" = Some true ∧
  (@handle_read_ipc_request Demo.scheme good_hw 7%N demo_info demo_sys "SUBDIR" (demo_token "SUBDIR") demo_dev).1 =
    Val (FsErr NotFound) ∧
  write.1 = Val FsOk ∧ cluster_to_sector demo_info 4 = Some 6%N ∧
  sector_at (disk write.2) 6 = sector (as_bytes "data").
Proof.
  cbn zeta. split_and!; [apply demo_authorized| | | | |]; vm_compute; reflexivity.
Qed.

(** ** The server *)

(** Client 5 connects at once and then sends [bs], one byte an iteration. *)
Definition demo_kernel (bs : list N) : Kernel :=
  mkKernel (λ i, if decide (i = 0)%N then 5%N else u64_max)
    (λ i id, if decide (id = 5)%N then default u64_max (bs !! N.to_nat i) else u64_max) (λ _ _, demo_sys).

Definition demo_write : FsRequest := FsWrite "hello.txt" (demo_token "hello.txt") (sector (as_bytes "data")).

Definition demo_run (fuel : nat) (r : FsRequest) (d : BlkDevice) : Run Server * BlkDevice :=
  @server_loop Demo.scheme good_hw 7%N demo_info (demo_kernel (fs_request_encode r)) fuel 0 server_new d.

Definition demo_server (fuel : nat) (r : FsRequest) (d : BlkDevice) : Server :=
  match (demo_run fuel r d).1 with Val srv => srv | Panicked => server_new end.

Lemma server_total_witness :
  ∃ srv d', @run_fs_ipc_server Demo.scheme good_hw 7%N demo_info (demo_kernel (fs_request_encode demo_write)) demo_dev =
    (Val srv, d') ∧ (length (sessions srv) ≤ 4)%nat.
Proof.
  destruct (@server_total Demo.scheme good_hw 7%N demo_info (demo_kernel (fs_request_encode demo_write)) demo_dev demo_disk_wf)
    as (srv & d' & Heq & _ & Hlen & _). exists srv, d'. exact (conj Heq Hlen).
Defined.


(** A device already quarantined. *)
Definition demo_faulted : BlkDevice := set_health Faulted demo_dev.


Lemma demo_request_fits : request_fits demo_write.
Proof.
  repeat split; try (vm_compute; reflexivity); try (vm_compute; discriminate).
  apply sector_ok_wf. vm_compute. reflexivity.
Qed.


Lemma start_witness :
  ∃ r d', @start Demo.scheme good_hw 7%N (mkBootInfo 0 0 0) 128 (demo_kernel []) demo_dev = (Val r, d') ∧
    result r = Some BLK_RESULT_PASS.
Proof.
  destruct (@start_footprint Demo.scheme good_hw 7%N (mkBootInfo 0 0 0) 128 (demo_kernel []) demo_dev demo_disk_wf)
    as (r & d' & Heq & _); [by right|].
  exists r, d'. split; [exact Heq|]. apply (f_equal fst) in Heq. vm_compute in Heq. by injection Heq as <-.
Defined.

(** ** Where the code departs from its intent *)

(** A boot sector with 1024-byte sectors. *)
Definition large_boot : list N :=
  copy_at (copy_at (copy_at (copy_at (copy_at (copy_at (copy_at zero_sector 11 (le_bytes 2 1024)) 13 [1%N])
    14 (le_bytes 2 2)) 16 [1%N]) 36 (le_bytes 4 1)) 44 (le_bytes 4 2)) 510 [0x55; 0xAA]%N.

(** [BootSectorInfo::parse] accepts volumes with sectors of 1024 to 4096 bytes,
    but the driver's buffers are 512 bytes: writing the FAT entry of a cluster in
    the second half of such a FAT sector indexes past the buffer and panics. *)
Theorem large_sectors_panic :
  ∃ info, boot_parse large_boot = Some info ∧ bytes_per_sector info = 1024%N ∧
    (200 * 4 < fat_size_32 info * bytes_per_sector info)%N ∧
    (@write_fat_entry good_hw info 200 0 demo_dev).1 = Panicked.
Proof.
  eexists. split; [vm_compute; reflexivity|]. split_and!; vm_compute; reflexivity.
Qed.

(** A directory entry of the volume whose first cluster the FAT does not have. *)
Definition stray_disk : Disk :=
  <[4%N := sector (dir_entry "DELETE_MTXT" ATTR_ARCHIVE 384 4)]> demo_disk.

(** Cluster numbers are not checked against the FAT's size: deleting a file
    whose entry names cluster 384 of a 128-entry FAT zeroes four bytes in each of
    two data sectors, the first of them HELLO.TXT's. *)
Theorem stray_cluster_writes_data :
  let d' := (run_delete_proof demo_info (device stray_disk)).2 in
  cluster_to_sector demo_info 3 = Some 5%N ∧ (data_start_sector demo_info ≤ 5)%N ∧
  take 5 (sector_at stray_disk 5) = as_bytes "hello" ∧
  take 5 (sector_at (disk d') 5) ≠ as_bytes "hello".
Proof. cbn zeta. split_and!; [vm_compute; reflexivity|cbn; lia|vm_compute; reflexivity|vm_compute; discriminate]. Qed.

(** A long-name fragment with the sequence byte, checksum and 13 characters. *)
Definition lfn_entry (seq chk : N) (cs : list N) : list N :=
  [seq] ++ concat (le_bytes 2 <$> take 5 cs) ++ [0x0F; 0; chk]%N ++ concat (le_bytes 2 <$> take 6 (drop 5 cs)) ++
  [0; 0]%N ++ concat (le_bytes 2 <$> drop 11 cs).

Definition long_name : list N := as_bytes "long-file-name".

(** The name's first fragment carries a checksum that is not the entry's. *)
Definition long_root : list N :=
  sector (lfn_entry 0x42 (short_name_checksum (as_bytes "LONG-F~1   ")) (drop 13 long_name ++ replicate 12 0%N) ++
    lfn_entry 0x01 0 (take 13 long_name) ++ dir_entry "LONG-F~1   " ATTR_ARCHIVE 3 5).

(** Only the checksum of the fragment flagged last is compared: an entry is found
    by a long name one of whose fragments claims another short name. *)
Theorem long_name_checksum_unchecked :
  let m := <[4%N := long_root]> demo_disk in
  checksum <$> parse_lfn_fragment (slice long_root 32 32) = Some 0%N ∧
  short_name_checksum (as_bytes "LONG-F~1   ") ≠ 0%N ∧
  first_cluster <$> long_lookup demo_info m "long-file-name" = Some 3%N.
Proof. cbn zeta. split_and!; [vm_compute; reflexivity|vm_compute; discriminate|vm_compute; reflexivity]. Qed.
