(* ===== verification/X86Caps.v ===== *)
(** * X86Caps: the resource strings and checks of the x86_64 kernel

    Model of [kernel/src/capabilities.rs].  Tokens, their verification and the
    revocation list are those of [Capability]; here are the kernel's resource
    strings, the port-range check of [SYS_PORT_IN] and [SYS_PORT_OUT], and the
    search over a thread's tokens that every gated call makes. *)

From Stdlib Require Import Ascii.
From S2P Require Import Prelude Text Bytes Capability.

Definition as_u64 (n : N) : N := (n mod 18446744073709551616)%N.

(** ** [str::parse::<u16>]

    An optional leading [+], at least one digit, no overflow. *)
Definition dec_digit (c : ascii) : option N :=
  let n := N_of_ascii c in
  if decide (48 ≤ n ≤ 57)%N then Some (n - 48)%N else None.

Fixpoint radix10_loop (max acc : N) (s : string) : option N :=
  match s with
  | EmptyString => Some acc
  | String c s =>
      d ← dec_digit c;
      acc ← checked_mul max acc 10;
      acc ← checked_add max acc d;
      radix10_loop max acc s
  end.

Definition parse_dec (max : N) (s : string) : option N :=
  match s with
  | EmptyString => None
  | String c rest =>
      if decide (c = "+"%char) then
        match rest with EmptyString => None | _ => radix10_loop max 0 rest end
      else radix10_loop max 0 s
  end.

(** ** Resource strings *)

Definition port_resource (port : N) : string := "port:" +:+ pretty port.
Definition grid_instance_resource (instance_id : string) : string := "grid-instance:" +:+ instance_id.
Definition file_resource (name : string) : string := "file:" +:+ name.
Definition random_resource : string := "random".
Definition revocation_query_resource : string := "revocation:query".

Definition ioport_range_resource (base len : N) : string :=
  if decide (len = 0)%N then "ioport:empty"
  else "ioport:" +:+ pretty base +:+ "-" +:+ pretty (base + len - 1)%N.

(** ** Port ranges *)

Definition parse_ioport_range (resource : string) : option (N * N) :=
  rest ← strip_prefix "ioport:" resource;
  '(base, end_) ← split_once "-" rest;
  base ← parse_dec u16_max base;
  end_ ← parse_dec u16_max end_;
  if decide (end_ < base)%N then None else Some (base, end_).

Definition ioport_access_within (resource : string) (port width : N) : bool :=
  match parse_ioport_range resource with
  | None => false
  | Some (base, end_) =>
      match checked_sub width 1 with
      | None => false
      | Some last_offset =>
          match checked_add u16_max port last_offset with
          | None => false
          | Some last => bool_decide (base ≤ port)%N && bool_decide (last ≤ end_)%N
          end
      end
  end.

(** ** Checks *)

Section checks.
Context `{SignatureScheme} (demo_key : SigningKey).

Definition check (token : CapabilityToken) (resource : string) (now : N) : Result CapabilityError () :=
  verify token (verifying_key demo_key) resource now.

Definition check_ioport_range (token : CapabilityToken) (port width now : N) : Result CapabilityError () :=
  _ ← verify token (verifying_key demo_key) (tok_resource token) now;
  if ioport_access_within (tok_resource token) port width then Ok () else Err WrongResource.

Definition blk_driver_extra_capabilities (fs_server_token : CapabilityToken) (now : N)
    (signing_key : SigningKey) : list CapabilityToken :=
  [fs_server_token;
   issue "blk-driver-host" revocation_query_resource now (as_u64 (now + 1000000)) "demo-key" signing_key].

(** [token_authorizes] of [authorized_for_port] and [authorized_for_resource]. *)
Definition token_authorizes (revoked : RevocationList) (resource : string) (now : N)
    (token : CapabilityToken) : bool :=
  negb (is_revoked revoked token) && bool_decide (check token resource now = Ok ()).

(** The main capability first, then the extras. *)
Definition authorized_for_resource (revoked : RevocationList) (capability : option CapabilityToken)
    (extra_capabilities : list CapabilityToken) (now : N) (resource : string) : bool :=
  match capability with
  | Some token => token_authorizes revoked resource now token
  | None => false
  end || existsb (token_authorizes revoked resource now) extra_capabilities.

Definition authorized_for_ioport (revoked : RevocationList) (capability : option CapabilityToken)
    (port width now : N) : bool :=
  match capability with
  | Some token =>
      negb (is_revoked revoked token) && bool_decide (check_ioport_range token port width now = Ok ())
  | None => false
  end.

(** All the tokens a thread carries. *)
Definition carried (capability : option CapabilityToken) (extra : list CapabilityToken) : list CapabilityToken :=
  match capability with Some t => [t] | None => [] end ++ extra.

Lemma authorized_for_resource_iff revoked cap extra now resource :
  authorized_for_resource revoked cap extra now resource = true ↔
  ∃ t, t ∈ carried cap extra ∧ is_revoked revoked t = false ∧
    verify t (verifying_key demo_key) resource now = Ok ().
Proof.
  unfold authorized_for_resource, carried.
  assert (∀ t, token_authorizes revoked resource now t = true ↔
    is_revoked revoked t = false ∧ verify t (verifying_key demo_key) resource now = Ok ()) as Ht.
  { intros t. unfold token_authorizes, check. rewrite andb_true_iff, bool_decide_eq_true, negb_true_iff. done. }
  rewrite orb_true_iff, existsb_exists. setoid_rewrite Ht. setoid_rewrite <-list_elem_of_In.
  destruct cap as [c|].
  - rewrite Ht. setoid_rewrite elem_of_app. setoid_rewrite list_elem_of_singleton. naive_solver.
  - naive_solver.
Qed.
End checks.

(** ** Decimal numbers read back *)

Lemma dec_digit_char d : (d < 10)%N → dec_digit (pretty_N_char d) = Some d.
Proof.
  intros Hd. rewrite <-(N2Nat.id d). assert (N.to_nat d < 10) as Hk by lia.
  revert Hk. generalize (N.to_nat d) as k. intros k Hk.
  do 10 (destruct k as [|k]; [reflexivity|]). lia.
Qed.

Lemma radix10_pretty_go max n s :
  radix10_loop max 0 (pretty_N_go n s) = if decide (n ≤ max)%N then radix10_loop max n s else None.
Proof.
  revert s. induction (N.lt_wf_0 n) as [n _ IH]; intros s.
  assert (n = 0 ∨ 0 < n)%N as [->|Hn] by lia.
  { rewrite pretty_N_go_0. by rewrite decide_True by lia. }
  rewrite pretty_N_go_step by done. rewrite IH by (apply N.div_lt; lia).
  pose proof (N.div_mod n 10 ltac:(lia)) as Hdm. pose proof (N.mod_lt n 10 ltac:(lia)) as Hm.
  revert Hdm Hm. generalize (n `div` 10)%N (n `mod` 10)%N. intros q r Hdm Hm.
  destruct (decide (q ≤ max)%N) as [Hq|Hq].
  - cbn [radix10_loop]. rewrite dec_digit_char by done. cbn [mbind option_bind].
    unfold checked_mul, checked_add. destruct (decide (q * 10 ≤ max)%N) as [H1|H1]; cbn [mbind option_bind].
    + destruct (decide (q * 10 + r ≤ max)%N) as [H2|H2]; cbn [mbind option_bind];
        case_decide; try lia; [|done]. f_equal. lia.
    + rewrite decide_False by lia. done.
  - rewrite decide_False by lia. done.
Qed.

Lemma pretty_head (n : N) : ∃ c s, pretty n = String c s ∧ c ≠ "+"%char.
Proof.
  pose proof (pretty_digits n) as Hd. destruct (pretty n) as [|c s] eqn:E.
  - exfalso. revert E. unfold pretty, pretty_N. case_decide as Hz; [done|].
    rewrite pretty_N_go_step by lia. intros E.
    assert (∀ m t, String.length t ≤ String.length (pretty_N_go m t))%nat as Hlen.
    { intros m. induction (N.lt_wf_0 m) as [m _ IH]; intros t.
      assert (m = 0 ∨ 0 < m)%N as [->|Hm] by lia; [rewrite pretty_N_go_0; lia|].
      rewrite pretty_N_go_step by done. etrans; [|apply IH, N.div_lt; lia]. simpl. lia. }
    specialize (Hlen (n `div` 10)%N (String (pretty_N_char (n `mod` 10)) "")). rewrite E in Hlen. simpl in Hlen. lia.
  - exists c, s. split; [done|]. intros ->. by apply andb_true_iff in Hd as [Hc _].
Qed.

Lemma parse_dec_pretty max n : parse_dec max (pretty n) = if decide (n ≤ max)%N then Some n else None.
Proof.
  destruct (pretty_head n) as (c & s & E & Hc). unfold parse_dec. rewrite E, decide_False by done.
  rewrite <-E. unfold pretty, pretty_N. case_decide as Hz.
  - subst. rewrite (decide_True (P := (0 ≤ max)%N)) by lia. cbn [radix10_loop].
    change (dec_digit "0") with (Some 0%N). cbn [mbind option_bind].
    unfold checked_mul, checked_add. rewrite (decide_True (P := (0 * 10 ≤ max)%N)) by lia. cbn [mbind option_bind].
    by rewrite decide_True by lia.
  - by rewrite radix10_pretty_go.
Qed.

Lemma parse_ioport_range_resource base len :
  parse_ioport_range (ioport_range_resource base len) =
  if decide (1 ≤ len ∧ base + len - 1 ≤ u16_max)%N then Some (base, base + len - 1)%N else None.
Proof.
  unfold ioport_range_resource, parse_ioport_range. case_decide as Hl.
  { rewrite decide_False by lia. by vm_compute. }
  rewrite strip_prefix_app. cbn [mbind option_bind].
  change ("-" +:+ pretty (base + len - 1)%N) with (String "-" (pretty (base + len - 1)%N)).
  rewrite split_once_app by (by apply free_pretty). cbn [mbind option_bind]. rewrite !parse_dec_pretty.
  destruct (decide (base ≤ u16_max)%N) as [Hb|Hb]; cbn [mbind option_bind].
  - case_decide as He; cbn [mbind option_bind].
    + rewrite decide_False, decide_True by lia. done.
    + rewrite decide_False by lia. done.
  - rewrite decide_False by lia. done.
Qed.

Lemma ioport_access_within_iff base len port width :
  ioport_access_within (ioport_range_resource base len) port width = true ↔
  (1 ≤ width ∧ base ≤ port ∧ port + width ≤ base + len ∧ base + len ≤ u16_max + 1)%N.
Proof.
  unfold ioport_access_within. rewrite parse_ioport_range_resource. case_decide as Hr.
  - unfold checked_sub, checked_add. case_decide; [|naive_solver lia]. case_decide; [|naive_solver lia].
    rewrite andb_true_iff, !bool_decide_eq_true. lia.
  - split; [done|]. lia.
Qed.

(** ** One string per resource *)

Inductive Resource :=
  | RPort (port : N) | RGridInstance (instance_id : string) | RFile (name : string)
  | RRandom | RRevocationQuery
  | RIoports (base len : N).

Definition resource_string (r : Resource) : string :=
  match r with
  | RPort p => port_resource p
  | RGridInstance i => grid_instance_resource i
  | RFile n => file_resource n
  | RRandom => random_resource
  | RRevocationQuery => revocation_query_resource
  | RIoports b l => ioport_range_resource b l
  end.

(** A range names at least one port; the empty ranges share one string, which
    grants nothing. *)
Definition proper_resource (r : Resource) : Prop :=
  match r with RIoports _ l => (l ≠ 0)%N | _ => True end.

Lemma ioport_range_prefix b l : ∃ s, ioport_range_resource b l = "ioport:" +:+ s.
Proof. unfold ioport_range_resource. case_decide; [by exists "empty"|by eexists]. Qed.

Lemma x86_resource_string_inj r r' :
  proper_resource r → proper_resource r' → resource_string r = resource_string r' → r = r'.
Proof.
  intros Hr Hr'.
  destruct r as [p|i|n| | |b l], r' as [p'|i'|n'| | |b' l']; cbn [resource_string proper_resource] in *;
    try (intros H; discriminate H);
    try (destruct (ioport_range_prefix b l) as [s ->]; intros H; discriminate H);
    try (destruct (ioport_range_prefix b' l') as [s ->]; intros H; discriminate H); try done.
  - intros H%string_app_inj_l. f_equal. by apply (inj pretty).
  - intros H%string_app_inj_l. by f_equal.
  - intros H%string_app_inj_l. by f_equal.
  - unfold ioport_range_resource. rewrite !decide_False by done. intros H%string_app_inj_l.
    assert (split_once "-" (pretty b +:+ String "-" (pretty (b + l - 1)%N)) =
            split_once "-" (pretty b' +:+ String "-" (pretty (b' + l' - 1)%N))) as Hs
      by exact (f_equal (split_once "-") H).
    rewrite !(split_once_app "-") in Hs by (by apply free_pretty).
    injection Hs as Hb He. apply (inj pretty) in Hb, He. subst. f_equal. lia.
Qed.

(** ** What the checks grant *)

Section authority.
Context `{SignatureLaws} (k : SigningKey).

Implicit Types issued : list (Resource * N * N).

(** The tokens a thread carries when the kernel's key issued one per entry. *)
Definition issued_tokens (subject : string) issued : list CapabilityToken :=
  (λ '(r, t0, t1), issue subject (resource_string r) t0 t1 "demo-key" k) <$> issued.

Lemma authorized_issued subject issued revoked cap extra r now :
  Forall (λ '(r', _, _), proper_resource r') issued → proper_resource r →
  carried cap extra = issued_tokens subject issued →
  authorized_for_resource k revoked cap extra now (resource_string r) = true →
  ∃ t0 t1, (r, t0, t1) ∈ issued ∧ (now ≤ t1)%N.
Proof.
  intros Hprop Hr Hc. rewrite authorized_for_resource_iff, Hc. unfold issued_tokens.
  intros (t & (((r' & t0) & t1) & -> & Hin)%list_elem_of_fmap & _ & [Hn Heq]%verify_issue).
  rewrite Forall_forall in Hprop. specialize (Hprop _ Hin). simpl in Hprop.
  apply x86_resource_string_inj in Heq as ->; [|done..]. eauto.
Qed.

(** Port authority is exact: a token issued for a port range authorizes an
    access of [width] bytes at [port] exactly while unexpired, and only when
    every byte of the access lies in the range; a range past the end of the
    port space and the empty range grant nothing. *)
Theorem check_ioport_range_exact subject base len t0 t1 port width now :
  let token := issue subject (ioport_range_resource base len) t0 t1 "demo-key" k in
  check_ioport_range k token port width now = Ok () ↔
  (now ≤ t1 ∧ 1 ≤ width ∧ base ≤ port ∧ port + width ≤ base + len ∧ base + len ≤ u16_max + 1)%N.
Proof.
  intros token. unfold check_ioport_range. rewrite Result_bind_Ok.
  assert (tok_resource token = ioport_range_resource base len) as -> by done. split.
  - intros ([] & [Hn _]%verify_issue & Hc). destruct (ioport_access_within _ _ _) eqn:E; [|done].
    by apply ioport_access_within_iff in E.
  - intros (Hn & Hc). exists (). split; [by apply verify_issue|].
    by rewrite (proj2 (ioport_access_within_iff _ _ _ _)).
Qed.
End authority.
