(* ===== verification/X86Ipc.v ===== *)
(** * X86Ipc: ports, send locks and sessions of the x86_64 kernel

    Model of [kernel/src/ipc.rs].  The statics [CHANNELS], [SEND_LOCKS],
    [NEXT_SESSION_ID], [SESSIONS] and [PENDING_BY_PORT] are one record.  A loop
    that spin-yields is one attempt of its body: [Done] leaves the loop, [Yield]
    is the call of [scheduler::yield_now], after which the caller tries again
    (the retry is the scheduler's, see [X86Kernel]). *)

From S2P Require Import Prelude.

Abbreviation ThreadId := N (only parsing).
Abbreviation SessionId := N (only parsing).

Definition PORT_COUNT : N := 16.
Definition CHANNEL_CAPACITY : N := 32.
Definition SESSION_CHANNEL_CAPACITY : N := CHANNEL_CAPACITY.
Definition MAX_LIVE_SESSIONS : N := 64.
Definition MAX_SESSIONS_PER_OWNER : N := 8.

Inductive Attempt (A : Type) := Done (a : A) | Yield.
Arguments Done {A} a.
Arguments Yield {A}.

Inductive Role := Owner | Server.

Record Session := mkSession {
  owner_to_server : list N;
  server_to_owner : list N;
  owner_send_locked : bool;
  server_send_locked : bool;
  owner : ThreadId;
  server : option ThreadId;
  server_port : N;
}.

Record Ipc := mkIpc {
  channels : list (list N);
  send_locks : list bool;
  next_session_id : N;
  sessions : gmap SessionId Session;
  pending_by_port : gmap N (list SessionId);
}.

Definition ipc_new : Ipc :=
  mkIpc (replicate (N.to_nat PORT_COUNT) []) (replicate (N.to_nat PORT_COUNT) false) 1 ∅ ∅.

Definition set_channels f (s : Ipc) : Ipc :=
  mkIpc (f (channels s)) (send_locks s) (next_session_id s) (sessions s) (pending_by_port s).
Definition set_locks f (s : Ipc) : Ipc :=
  mkIpc (channels s) (f (send_locks s)) (next_session_id s) (sessions s) (pending_by_port s).
Definition set_sessions f (s : Ipc) : Ipc :=
  mkIpc (channels s) (send_locks s) (next_session_id s) (f (sessions s)) (pending_by_port s).
Definition set_pending f (s : Ipc) : Ipc :=
  mkIpc (channels s) (send_locks s) (next_session_id s) (sessions s) (f (pending_by_port s)).

(** [ARRAY.get(i)] with a [usize] index. *)
Definition get {A} (l : list A) (i : N) : option A :=
  if decide (i < len l)%N then l !! N.to_nat i else None.

(** ** Fixed ports *)

Definition begin_send (port : N) (s : Ipc) : Attempt bool * Ipc :=
  match get (send_locks s) port with
  | None => (Done false, s)
  | Some true => (Yield, s)
  | Some false => (Done true, set_locks (<[N.to_nat port := true]>) s)
  end.

Definition end_send (port : N) (s : Ipc) : bool * Ipc :=
  match get (send_locks s) port with
  | None => (false, s)
  | Some _ => (true, set_locks (<[N.to_nat port := false]>) s)
  end.

Definition send (port byte : N) (s : Ipc) : Attempt bool * Ipc :=
  match get (channels s) port with
  | None => (Done false, s)
  | Some queue =>
      if decide (len queue < CHANNEL_CAPACITY)%N
      then (Done true, set_channels (<[N.to_nat port := queue ++ [byte]]>) s)
      else (Yield, s)
  end.

Definition is_valid_port (port : N) : bool := bool_decide (port < PORT_COUNT)%N.

Definition try_recv (port : N) (s : Ipc) : option N * Ipc :=
  match get (channels s) port with
  | Some (byte :: queue) => (Some byte, set_channels (<[N.to_nat port := queue]>) s)
  | _ => (None, s)
  end.

Definition is_empty (port : N) (s : Ipc) : bool :=
  match get (channels s) port with
  | None => true
  | Some queue => bool_decide (queue = [])
  end.

Definition recv (port : N) (s : Ipc) : Attempt (option N) * Ipc :=
  if negb (is_valid_port port) then (Done None, s) else
  match try_recv port s with
  | (Some byte, s) => (Done (Some byte), s)
  | (None, s) => (Yield, s)
  end.

(** ** Sessions *)

Definition owner_count (t : ThreadId) (m : gmap SessionId Session) : nat :=
  size (filter (λ '(_, ss), owner ss = t) m).

Definition session_open (port : N) (t : ThreadId) (s : Ipc) : option SessionId * Ipc :=
  if decide (MAX_LIVE_SESSIONS ≤ N.of_nat (size (sessions s)))%N then (None, s) else
  if decide (MAX_SESSIONS_PER_OWNER ≤ N.of_nat (owner_count t (sessions s)))%N then (None, s) else
  let id := next_session_id s in
  (Some id,
   mkIpc (channels s) (send_locks s) ((id + 1) mod (u64_max + 1))%N
     (<[id := mkSession [] [] false false t None port]> (sessions s))
     (<[port := default [] (pending_by_port s !! port) ++ [id]]> (pending_by_port s))).

Definition session_pending (port : N) (s : Ipc) : bool :=
  match pending_by_port s !! port with
  | Some queue => bool_decide (queue ≠ [])
  | None => false
  end.

Definition set_server (t : ThreadId) (ss : Session) : Session :=
  mkSession (owner_to_server ss) (server_to_owner ss) (owner_send_locked ss) (server_send_locked ss)
    (owner ss) (Some t) (server_port ss).

Definition session_accept (port : N) (t : ThreadId) (s : Ipc) : option SessionId * Ipc :=
  match pending_by_port s !! port with
  | Some (id :: queue) =>
      (Some id,
       set_sessions (alter (set_server t) id) (set_pending (<[port := queue]>) s))
  | _ => (None, s)
  end.

Definition role_of (ss : Session) (t : ThreadId) : option Role :=
  if decide (owner ss = t) then Some Owner
  else if decide (server ss = Some t) then Some Server
  else None.

(** The session and the caller's role in it. *)
Definition participant (id : SessionId) (t : ThreadId) (s : Ipc) : option (Session * Role) :=
  ss ← sessions s !! id;
  r ← role_of ss t;
  Some (ss, r).

(** The lane a role writes, and the one it reads. *)
Definition out_lane (r : Role) (ss : Session) : list N :=
  match r with Owner => owner_to_server ss | Server => server_to_owner ss end.
Definition in_lane (r : Role) (ss : Session) : list N :=
  match r with Owner => server_to_owner ss | Server => owner_to_server ss end.
Definition set_out_lane (r : Role) (q : list N) (ss : Session) : Session :=
  match r with
  | Owner => mkSession q (server_to_owner ss) (owner_send_locked ss) (server_send_locked ss)
               (owner ss) (server ss) (server_port ss)
  | Server => mkSession (owner_to_server ss) q (owner_send_locked ss) (server_send_locked ss)
               (owner ss) (server ss) (server_port ss)
  end.
Definition set_in_lane (r : Role) (q : list N) (ss : Session) : Session :=
  match r with Owner => set_out_lane Server q ss | Server => set_out_lane Owner q ss end.
Definition lane_lock (r : Role) (ss : Session) : bool :=
  match r with Owner => owner_send_locked ss | Server => server_send_locked ss end.
Definition set_lane_lock (r : Role) (b : bool) (ss : Session) : Session :=
  match r with
  | Owner => mkSession (owner_to_server ss) (server_to_owner ss) b (server_send_locked ss)
               (owner ss) (server ss) (server_port ss)
  | Server => mkSession (owner_to_server ss) (server_to_owner ss) (owner_send_locked ss) b
               (owner ss) (server ss) (server_port ss)
  end.

Definition session_send (id : SessionId) (t : ThreadId) (byte : N) (s : Ipc) : Attempt bool * Ipc :=
  match participant id t s with
  | None => (Done false, s)
  | Some (ss, r) =>
      if decide (len (out_lane r ss) < SESSION_CHANNEL_CAPACITY)%N
      then (Done true, set_sessions (<[id := set_out_lane r (out_lane r ss ++ [byte]) ss]>) s)
      else (Yield, s)
  end.

Definition session_try_recv (id : SessionId) (t : ThreadId) (s : Ipc) : option N * Ipc :=
  match participant id t s with
  | None => (None, s)
  | Some (ss, r) =>
      match in_lane r ss with
      | byte :: queue => (Some byte, set_sessions (<[id := set_in_lane r queue ss]>) s)
      | [] => (None, s)
      end
  end.

Definition session_begin_send (id : SessionId) (t : ThreadId) (s : Ipc) : Attempt bool * Ipc :=
  match participant id t s with
  | None => (Done false, s)
  | Some (ss, r) =>
      if lane_lock r ss then (Yield, s)
      else (Done true, set_sessions (<[id := set_lane_lock r true ss]>) s)
  end.

Definition session_end_send (id : SessionId) (t : ThreadId) (s : Ipc) : bool * Ipc :=
  match participant id t s with
  | None => (false, s)
  | Some (ss, r) => (true, set_sessions (<[id := set_lane_lock r false ss]>) s)
  end.

Definition reap_sessions_for (t : ThreadId) (s : Ipc) : Ipc :=
  let keep id := match sessions s !! id with Some ss => bool_decide (owner ss ≠ t) | None => false end in
  mkIpc (channels s) (send_locks s) (next_session_id s)
    (filter (λ '(_, ss), owner ss ≠ t ∧ server ss ≠ Some t) (sessions s))
    ((λ queue, filter (λ id, keep id = true) queue) <$> pending_by_port s).

(** ** Runs

    What the rest of the kernel observes: the calls that took effect, with the
    thread that made them. *)

Inductive Event :=
  | EvLock (t : ThreadId) (port : N)
  | EvUnlock (t : ThreadId) (port : N)
  | EvSend (t : ThreadId) (port byte : N)
  | EvRecv (t : ThreadId) (port byte : N)
  | EvOpen (t : ThreadId) (port : N) (id : SessionId)
  | EvAccept (t : ThreadId) (port : N) (id : SessionId)
  | EvSessionSend (t : ThreadId) (id : SessionId) (byte : N)
  | EvSessionRecv (t : ThreadId) (id : SessionId) (byte : N)
  | EvSessionLock (t : ThreadId) (id : SessionId)
  | EvSessionUnlock (t : ThreadId) (id : SessionId)
  | EvReap (t : ThreadId).

Definition Trace := list Event.

Inductive ipc_step : Ipc → Event → Ipc → Prop :=
  | step_lock t p s s' : begin_send p s = (Done true, s') → ipc_step s (EvLock t p) s'
  | step_unlock t p s s' : end_send p s = (true, s') → ipc_step s (EvUnlock t p) s'
  | step_send t p b s s' : send p b s = (Done true, s') → ipc_step s (EvSend t p b) s'
  | step_recv t p b s s' : try_recv p s = (Some b, s') → ipc_step s (EvRecv t p b) s'
  | step_open t p id s s' : session_open p t s = (Some id, s') → ipc_step s (EvOpen t p id) s'
  | step_accept t p id s s' : session_accept p t s = (Some id, s') → ipc_step s (EvAccept t p id) s'
  | step_session_send t id b s s' :
      session_send id t b s = (Done true, s') → ipc_step s (EvSessionSend t id b) s'
  | step_session_recv t id b s s' :
      session_try_recv id t s = (Some b, s') → ipc_step s (EvSessionRecv t id b) s'
  | step_session_lock t id s s' :
      session_begin_send id t s = (Done true, s') → ipc_step s (EvSessionLock t id) s'
  | step_session_unlock t id s s' :
      session_end_send id t s = (true, s') → ipc_step s (EvSessionUnlock t id) s'
  | step_reap t s : ipc_step s (EvReap t) (reap_sessions_for t s).

(** Runs grow at the end. *)
Inductive ipc_run : Ipc → Trace → Ipc → Prop :=
  | run_nil s : ipc_run s [] s
  | run_snoc s0 tr s e s' : ipc_run s0 tr s → ipc_step s e s' → ipc_run s0 (tr ++ [e]) s'.

Lemma ipc_run_app s0 tr1 s1 tr2 s2 :
  ipc_run s0 tr1 s1 → ipc_run s1 tr2 s2 → ipc_run s0 (tr1 ++ tr2) s2.
Proof.
  intros H1 H2. induction H2 as [s|s tr s' e s'' H2 IH Hs]; [by rewrite app_nil_r|].
  rewrite app_assoc. by eapply run_snoc; [apply IH|].
Qed.
