(* ===== verification/X86IpcSpec.v ===== *)
(** * X86IpcSpec: what the x86_64 kernel's ports and sessions guarantee

    The invariant of the tables of [X86Ipc], and the history of every session and
    port over a run: bytes come out in the order they went in, on the lane of the
    other participant only, and messages under a send lock stay whole. *)

From Stdlib Require Import Sorting.Sorted.
From S2P Require Import Prelude X86Ipc.

(** ** Tables *)

Lemma get_Some {A} (l : list A) i x :
  get l i = Some x ↔ l !! N.to_nat i = Some x.
Proof.
  unfold get, len. case_decide as Hi; [done|]. split; [done|].
  intros Hl%lookup_lt_Some. lia.
Qed.

Lemma get_lt {A} (l : list A) i x : get l i = Some x → (i < len l)%N.
Proof. intros Hl%get_Some%lookup_lt_Some. unfold len. lia. Qed.

Lemma get_insert {A} (l : list A) i j x :
  get (<[N.to_nat i := x]> l) j = if decide (i = j ∧ (i < len l)%N) then Some x else get l j.
Proof.
  apply option_eq. intros y. rewrite get_Some. case_decide as Hd.
  - destruct Hd as [<- Hi]. unfold len in Hi. rewrite list_lookup_insert_eq by lia. done.
  - rewrite get_Some. destruct (decide (i = j)) as [<-|Hij].
    + unfold len in *. rewrite list_insert_ge by naive_solver lia. done.
    + rewrite list_lookup_insert_ne by (intros ?%N2Nat.inj; done). done.
Qed.

Lemma len_insert {A} (l : list A) i x : len (<[i := x]> l) = len l.
Proof. unfold len. by rewrite length_insert. Qed.

Definition waiting (p : N) (s : Ipc) : list SessionId := default [] (pending_by_port s !! p).

Record session_ok (ss : Session) : Prop := {
  ok_up : (len (owner_to_server ss) ≤ SESSION_CHANNEL_CAPACITY)%N;
  ok_down : (len (server_to_owner ss) ≤ SESSION_CHANNEL_CAPACITY)%N;
  ok_unaccepted : server ss = None → server_to_owner ss = [] ∧ server_send_locked ss = false;
}.

Record ipc_ok (s : Ipc) : Prop := {
  ok_channels : len (channels s) = PORT_COUNT;
  ok_locks : len (send_locks s) = PORT_COUNT;
  ok_queues : Forall (λ q, (len q ≤ CHANNEL_CAPACITY)%N) (channels s);
  ok_ids id ss : sessions s !! id = Some ss → (1 ≤ id < next_session_id s)%N;
  ok_next : (1 ≤ next_session_id s)%N;
  ok_sessions id ss : sessions s !! id = Some ss → session_ok ss;
  ok_live : (N.of_nat (size (sessions s)) ≤ MAX_LIVE_SESSIONS)%N;
  ok_owners t : (N.of_nat (owner_count t (sessions s)) ≤ MAX_SESSIONS_PER_OWNER)%N;
  ok_order p : StronglySorted N.lt (waiting p s);
  ok_waiting p id : id ∈ waiting p s ↔
    ∃ ss, sessions s !! id = Some ss ∧ server ss = None ∧ server_port ss = p;
}.

Lemma ipc_new_ok : ipc_ok ipc_new.
Proof.
  split; try done.
  - by apply Forall_replicate.
  - intros p. unfold waiting. cbn. rewrite lookup_empty. constructor.
  - intros p id. unfold waiting. cbn. rewrite lookup_empty. cbn. setoid_rewrite lookup_empty. set_solver.
Qed.

(** A session whose parties and port stay as they were. *)
Definition same_parties (ss ss' : Session) : Prop :=
  owner ss' = owner ss ∧ server ss' = server ss ∧ server_port ss' = server_port ss.

Lemma participant_Some id t s ss r :
  participant id t s = Some (ss, r) ↔ sessions s !! id = Some ss ∧ role_of ss t = Some r.
Proof.
  unfold participant. destruct (sessions s !! id) as [ss'|]; simpl; [|split; [done|by intros [? _]]].
  destruct (role_of ss' t) eqn:E; simpl; split; intros H; [|destruct H|done|destruct H]; simplify_eq; done.
Qed.

Lemma role_of_Some ss t r :
  role_of ss t = Some r → r = Owner ∧ t = owner ss ∨ r = Server ∧ t ≠ owner ss ∧ server ss = Some t.
Proof. unfold role_of. intros Hr. repeat case_decide; simplify_eq; auto. Qed.

(** The number of sessions of an owner depends on who owns which id only. *)
Lemma owner_count_mono t (m m' : gmap SessionId Session) :
  (∀ id ss, m !! id = Some ss → owner ss = t → ∃ ss', m' !! id = Some ss' ∧ owner ss' = t) →
  (owner_count t m ≤ owner_count t m')%nat.
Proof.
  intros Hm. unfold owner_count. rewrite <-!(size_dom (D := gset SessionId)). apply subseteq_size.
  intros id. rewrite !elem_of_dom. intros [ss [Hs Ho]%map_lookup_filter_Some].
  destruct (Hm id ss Hs Ho) as (ss' & Hs' & Ho'). exists ss'. by apply map_lookup_filter_Some.
Qed.

Lemma owner_count_insert t m id ss :
  m !! id = None →
  owner_count t (<[id := ss]> m) = (owner_count t m + if decide (owner ss = t) then 1 else 0)%nat.
Proof.
  intros Hid. unfold owner_count. rewrite map_filter_insert, delete_id by done. case_decide as Ho; [rewrite decide_True by done|rewrite decide_False by done].
  - rewrite map_size_insert_None; [by rewrite Nat.add_1_r|]. apply map_lookup_filter_None. by left.
  - by rewrite Nat.add_0_r.
Qed.

Lemma sorted_snoc (l : list N) x :
  StronglySorted N.lt l → (∀ y, y ∈ l → (y < x)%N) → StronglySorted N.lt (l ++ [x]).
Proof.
  induction 1 as [|y l Hl IH Hy]; intros Hx; simpl; [by repeat constructor|].
  constructor; [apply IH; set_solver|]. apply Forall_app. split; [done|].
  constructor; [|done]. apply Hx. by left.
Qed.

Lemma sorted_filter (P : N → Prop) `{∀ x, Decision (P x)} (l : list N) :
  StronglySorted N.lt l → StronglySorted N.lt (filter P l).
Proof.
  induction 1 as [|y l Hl IH Hy]; [constructor|]. rewrite filter_cons. case_decide; [|done].
  constructor; [done|]. rewrite Forall_forall in Hy |- *. intros z Hz. apply Hy.
  by apply list_elem_of_filter in Hz as [_ ?].
Qed.

(** ** Every operation keeps the tables sound *)

(** Replacing a session by one with the same parties. *)
Lemma update_session_ok s id ss ss' :
  ipc_ok s → sessions s !! id = Some ss → same_parties ss ss' → session_ok ss' →
  ipc_ok (set_sessions (<[id := ss']>) s).
Proof.
  intros Hok Hs (Ho & Hsrv & Hp) Hss'. destruct Hok. split; cbn; try done.
  - intros id' ss0. rewrite lookup_insert. case_decide; naive_solver.
  - intros id' ss0. rewrite lookup_insert. case_decide; naive_solver.
  - rewrite map_size_insert_Some by done. done.
  - intros t. etrans; [|apply (ok_owners0 t)]. apply N2Z.inj_le. rewrite !nat_N_Z. apply Nat2Z.inj_le, owner_count_mono.
    intros id' ss0. rewrite lookup_insert. case_decide; naive_solver.
  - intros p id'. etransitivity; [apply (ok_waiting0 p id')|]. setoid_rewrite lookup_insert. case_decide as Hid; [|done]. subst id'.
    rewrite Hs. split; intros (ss0 & [= <-] & H1 & H2); eexists; split; try done; split; congruence.
Qed.

Lemma set_out_lane_ok r q ss t :
  session_ok ss → role_of ss t = Some r → (len q ≤ SESSION_CHANNEL_CAPACITY)%N →
  same_parties ss (set_out_lane r q ss) ∧ session_ok (set_out_lane r q ss).
Proof.
  intros [Hu Hd Hn] Hr Hq. split; [by destruct r|].
  apply role_of_Some in Hr as [[-> _]|(-> & _ & Hs)]; split; cbn; try done. by rewrite Hs.
Qed.

Lemma set_in_lane_ok r b q ss :
  session_ok ss → in_lane r ss = b :: q →
  same_parties ss (set_in_lane r q ss) ∧ session_ok (set_in_lane r q ss).
Proof.
  intros [Hu Hd Hn] Hq. split; [by destruct r|].
  destruct r; cbn in Hq; split; cbn; try done; rewrite Hq in *; unfold len in *; cbn [length] in *; try lia.
  intros [? _]%Hn. done.
Qed.

Lemma set_lane_lock_ok r b ss t :
  session_ok ss → role_of ss t = Some r →
  same_parties ss (set_lane_lock r b ss) ∧ session_ok (set_lane_lock r b ss).
Proof.
  intros [Hu Hd Hn] Hr. split; [by destruct r|].
  apply role_of_Some in Hr as [[-> _]|(-> & _ & Hs)]; split; cbn; try done. by rewrite Hs.
Qed.

Lemma session_open_ok p t id s s' :
  ipc_ok s → (next_session_id s < u64_max)%N → session_open p t s = (Some id, s') → ipc_ok s'.
Proof.
  intros Hok Hnext. unfold session_open. case_decide as Hl; [done|]. case_decide as Ho; [done|].
  intros [= <- <-]. set (id := next_session_id s) in *. destruct Hok.
  assert (sessions s !! id = None) as Hfresh.
  { apply eq_None_not_Some. intros [ss [_ H]%ok_ids0]. unfold id in H. lia. }
  assert (((id + 1) mod (u64_max + 1))%N = (id + 1)%N) as Hmod by (apply N.mod_small; lia).
  split; cbn; try done.
  - intros id' ss. rewrite Hmod, lookup_insert. case_decide; [unfold id in *; naive_solver lia|].
    intros [? ?]%ok_ids0. unfold id. lia.
  - rewrite Hmod. lia.
  - intros id' ss. rewrite lookup_insert. case_decide; [|by apply ok_sessions0].
    intros [= <-]. split; cbn; unfold len; cbn; try done; lia.
  - rewrite map_size_insert_None by done. lia.
  - intros t'. rewrite owner_count_insert by done. cbn. specialize (ok_owners0 t').
    case_decide as Ht; [subst t'|]; lia.
  - intros p'. unfold waiting. cbn. rewrite lookup_insert. case_decide as Hp; [|apply ok_order0]. subst p'. cbn.
    apply sorted_snoc; [apply (ok_order0 p)|]. intros y Hy. apply (ok_waiting0 p) in Hy as (ss & Hs & _).
    apply ok_ids0 in Hs. unfold id. lia.
  - intros p' id'. unfold waiting. cbn. setoid_rewrite lookup_insert at 2.
    rewrite lookup_insert. specialize (ok_waiting0 p' id'). unfold waiting in ok_waiting0.
    destruct (decide (p = p')) as [->|Hp]; cbn.
    + rewrite elem_of_app, list_elem_of_singleton, ok_waiting0. case_decide as Hid.
      * subst id'. split; [intros _|by right]. eexists. split; [done|]. done.
      * naive_solver.
    + rewrite ok_waiting0. case_decide as Hid; [|done]. subst id'.
      split; [intros (ss & Hs & _); exfalso; by rewrite Hfresh in Hs|]. intros (? & [= <-] & _ & Hpp). by cbn in Hpp.
Qed.

Lemma session_accept_ok p t id s s' :
  ipc_ok s → session_accept p t s = (Some id, s') →
  ∃ ss q, waiting p s = id :: q ∧ sessions s !! id = Some ss ∧ server ss = None ∧ server_port ss = p ∧
    s' = set_sessions (<[id := set_server t ss]>) (set_pending (<[p := q]>) s) ∧ ipc_ok s'.
Proof.
  intros Hok. unfold session_accept. destruct (pending_by_port s !! p) as [[|id0 q]|] eqn:Hp; [done| |done].
  intros [= -> <-]. assert (waiting p s = id :: q) as Hw by (unfold waiting; by rewrite Hp).
  destruct (proj1 (ok_waiting s Hok p id)) as (ss & Hs & Hsrv & Hport); [rewrite Hw; by left|].
  exists ss, q. do 4 (split; [done|]).
  assert (∀ m : Ipc, sessions m !! id = Some ss →
    set_sessions (alter (set_server t) id) m = set_sessions (<[id := set_server t ss]>) m) as Hins.
  { intros m Hm. unfold set_sessions. f_equal. by rewrite <-(alter_insert_eq (sessions m) id (set_server t) ss),
      insert_id. }
  rewrite Hins by done. split; [done|]. destruct Hok.
  split; cbn; try done.
  - intros id' ss0. rewrite lookup_insert. case_decide; naive_solver.
  - intros id' ss0. rewrite lookup_insert. case_decide; [|by apply ok_sessions0]. intros [= <-].
    destruct (ok_sessions0 id ss Hs). split; cbn; done.
  - rewrite map_size_insert_Some by done. done.
  - intros t'. etrans; [|apply (ok_owners0 t')]. apply N2Z.inj_le. rewrite !nat_N_Z. apply Nat2Z.inj_le, owner_count_mono.
    intros id' ss0. rewrite lookup_insert. case_decide; naive_solver.
  - intros p'. specialize (ok_order0 p'). unfold waiting in *. cbn. rewrite lookup_insert. case_decide as Hpp; [|done].
    subst p'. rewrite Hp in ok_order0. cbn in *. by inversion ok_order0.
  - intros p' id'. pose proof (ok_waiting0 p' id') as Hww. pose proof (ok_order0 p) as Hso.
    rewrite Hw in Hso. inversion Hso as [|? ? _ Hlt]; subst. rewrite Forall_forall in Hlt.
    unfold waiting in *. cbn. rewrite lookup_insert. setoid_rewrite lookup_insert.
    destruct (decide (server_port ss = p')) as [<-|Hpp]; cbn.
    + rewrite Hp in Hww. cbn in Hww. case_decide as Hid.
      * subst id'. split; [|intros (? & [= <-] & [=] & _)]. intros Hin%Hlt. lia.
      * rewrite <-Hww, elem_of_cons. naive_solver.
    + rewrite Hww. case_decide as Hid; [|done]. subst id'. naive_solver.
Qed.

Lemma waiting_reap p t s :
  waiting p (reap_sessions_for t s) =
  filter (λ id, match sessions s !! id with Some ss => bool_decide (owner ss ≠ t) | None => false end = true)
    (waiting p s).
Proof. unfold waiting. cbn. rewrite lookup_fmap. by destruct (pending_by_port s !! p). Qed.

Lemma reap_lookup t s id ss :
  sessions (reap_sessions_for t s) !! id = Some ss ↔
  sessions s !! id = Some ss ∧ owner ss ≠ t ∧ server ss ≠ Some t.
Proof. cbn. rewrite map_lookup_filter_Some. done. Qed.

Lemma reap_ok t s : ipc_ok s → ipc_ok (reap_sessions_for t s).
Proof.
  intros []. split; try done.
  - intros id ss [Hs _]%reap_lookup. by eapply ok_ids0.
  - intros id ss [Hs _]%reap_lookup. by eapply ok_sessions0.
  - etrans; [|apply ok_live0]. cbn. pose proof (map_size_filter (λ '(_, ss), owner ss ≠ t ∧ server ss ≠ Some t) (sessions s)).
    lia.
  - intros t'. etrans; [|apply (ok_owners0 t')]. apply N2Z.inj_le. rewrite !nat_N_Z. apply Nat2Z.inj_le, owner_count_mono.
    intros id ss [Hs _]%reap_lookup. eauto.
  - intros p. rewrite waiting_reap. by apply sorted_filter.
  - intros p id. rewrite waiting_reap, list_elem_of_filter, ok_waiting0. setoid_rewrite reap_lookup. split.
    + intros (Hk & ss & Hs & Hsrv & Hp). rewrite Hs, bool_decide_eq_true in Hk. exists ss. naive_solver.
    + intros (ss & (Hs & Ho & _) & Hsrv & Hp). rewrite Hs, bool_decide_eq_true. eauto.
Qed.

Lemma ipc_step_ok s e s' :
  ipc_ok s → (next_session_id s < u64_max)%N → ipc_step s e s' → ipc_ok s'.
Proof.
  intros Hok Hnext Hstep. destruct Hstep as [t p s s' H|t p s s' H|t p b s s' H|t p b s s' H|t p id s s' H
    |t p id s s' H|t id b s s' H|t id b s s' H|t id s s' H|t id s s' H|t s].
  - revert H. unfold begin_send. case_match eqn:Hg; [|done]. destruct b; [done|]. intros [= <-].
    destruct Hok. split; cbn; rewrite ?len_insert; done.
  - revert H. unfold end_send. case_match eqn:Hg; [|done]. intros [= <-].
    destruct Hok. split; cbn; rewrite ?len_insert; done.
  - revert H. unfold send. case_match eqn:Hg; [|done]. case_decide as Hc; [|done]. intros [= <-].
    destruct Hok. split; cbn; rewrite ?len_insert; try done. apply Forall_insert; [done|]. rewrite len_snoc. lia.
  - revert H. unfold try_recv. case_match eqn:Hg; [|done]. destruct l as [|b0 q]; [done|]. intros [= -> <-].
    destruct Hok. split; cbn; rewrite ?len_insert; try done. apply Forall_insert; [done|].
    apply get_Some in Hg. rewrite Forall_lookup in ok_queues0. apply ok_queues0 in Hg.
    unfold len in *. cbn [length] in Hg. lia.
  - by eapply session_open_ok.
  - apply session_accept_ok in H as (ss & q & _ & _ & _ & _ & _ & H); done.
  - revert H. unfold session_send. case_match eqn:Hp; [|done]. destruct p as [ss r]. case_decide as Hc; [|done].
    intros [= <-]. apply participant_Some in Hp as [Hs Hr].
    destruct (set_out_lane_ok r (out_lane r ss ++ [b]) ss t) as [??]; [by eapply ok_sessions|done|rewrite len_snoc; lia|].
    by eapply update_session_ok.
  - revert H. unfold session_try_recv. case_match eqn:Hp; [|done]. destruct p as [ss r]. case_match eqn:Hl; [done|].
    intros [= -> <-]. apply participant_Some in Hp as [Hs Hr].
    destruct (set_in_lane_ok r b l ss) as [??]; [by eapply ok_sessions|done|]. by eapply update_session_ok.
  - revert H. unfold session_begin_send. case_match eqn:Hp; [|done]. destruct p as [ss r]. case_match; [done|].
    intros [= <-]. apply participant_Some in Hp as [Hs Hr].
    destruct (set_lane_lock_ok r true ss t) as [??]; [by eapply ok_sessions|done|]. by eapply update_session_ok.
  - revert H. unfold session_end_send. case_match eqn:Hp; [|done]. destruct p as [ss r].
    intros [= <-]. apply participant_Some in Hp as [Hs Hr].
    destruct (set_lane_lock_ok r false ss t) as [??]; [by eapply ok_sessions|done|]. by eapply update_session_ok.
  - by apply reap_ok.
Qed.

(** ** The history of sessions and ports over a run

    A session is two one-way streams between its opener and the one thread that
    accepted it; a port is one stream, in which messages sent under the port's
    send lock are never interleaved. *)

(** ** What a trace says about a session *)

Definition is_open (id : SessionId) (e : Event) : option (ThreadId * N) :=
  match e with EvOpen t p id' => if decide (id' = id) then Some (t, p) else None | _ => None end.
Definition is_accept (id : SessionId) (e : Event) : option (ThreadId * N) :=
  match e with EvAccept t p id' => if decide (id' = id) then Some (t, p) else None | _ => None end.
Definition user_of (id : SessionId) (e : Event) : option ThreadId :=
  match e with
  | EvSessionSend t id' _ | EvSessionRecv t id' _ | EvSessionLock t id' | EvSessionUnlock t id' =>
      if decide (id' = id) then Some t else None
  | _ => None
  end.
Definition sent_by (id : SessionId) (who : ThreadId → bool) (e : Event) : option N :=
  match e with
  | EvSessionSend t id' b => if decide (id' = id) then if who t then Some b else None else None
  | _ => None
  end.
Definition received_by (id : SessionId) (who : ThreadId → bool) (e : Event) : option N :=
  match e with
  | EvSessionRecv t id' b => if decide (id' = id) then if who t then Some b else None else None
  | _ => None
  end.

(** The threads that opened, accepted and used the session, with their ports. *)
Definition opens (id : SessionId) (tr : Trace) := omap (is_open id) tr.
Definition accepts (id : SessionId) (tr : Trace) := omap (is_accept id) tr.
Definition users (id : SessionId) (tr : Trace) := omap (user_of id) tr.

(** The bytes sent and received in the session by thread [o], and by the others. *)
Definition is_thread (o t : ThreadId) : bool := bool_decide (t = o).
Definition not_thread (o t : ThreadId) : bool := bool_decide (t ≠ o).
Definition sent (id : SessionId) who (tr : Trace) := omap (sent_by id who) tr.
Definition received (id : SessionId) who (tr : Trace) := omap (received_by id who) tr.

(** The sessions opened so far. *)
Definition opened (tr : Trace) : list SessionId :=
  omap (λ e, match e with EvOpen _ _ id => Some id | _ => None end) tr.

Lemma omap_snoc {A B} (f : A → option B) l x :
  omap f (l ++ [x]) = omap f l ++ match f x with Some y => [y] | None => [] end.
Proof. by rewrite omap_app. Qed.

(** [o] opened the session at [p]; [srv] accepted it, at the same port; nobody
    else used it; each stream is what the receiver has read followed by what is
    still queued. *)
Record history (tr : Trace) (id : SessionId) (o : ThreadId) (p : N) (srv : option ThreadId)
    (up down : list N) : Prop := {
  h_opens : opens id tr = [(o, p)];
  h_accepts : accepts id tr = match srv with Some t => [(t, p)] | None => [] end;
  h_users : ∀ t, t ∈ users id tr → t = o ∨ srv = Some t;
  h_up : sent id (is_thread o) tr = received id (not_thread o) tr ++ up;
  h_down : sent id (not_thread o) tr = received id (is_thread o) tr ++ down;
  h_up_len : (len up ≤ SESSION_CHANNEL_CAPACITY)%N;
  h_down_len : (len down ≤ SESSION_CHANNEL_CAPACITY)%N;
}.

Definition event_session (e : Event) : option SessionId :=
  match e with
  | EvOpen _ _ id | EvAccept _ _ id | EvSessionSend _ id _ | EvSessionRecv _ id _
  | EvSessionLock _ id | EvSessionUnlock _ id => Some id
  | _ => None
  end.

Lemma untouched id e :
  event_session e ≠ Some id →
  is_open id e = None ∧ is_accept id e = None ∧ user_of id e = None ∧
  (∀ who, sent_by id who e = None) ∧ (∀ who, received_by id who e = None).
Proof. intros He. split_and!; try intros who; destruct e; cbn in *; rewrite ?decide_False by congruence; done. Qed.

Lemma history_untouched tr e id o p srv up down :
  event_session e ≠ Some id → history tr id o p srv up down → history (tr ++ [e]) id o p srv up down.
Proof.
  intros (H1 & H2 & H3 & H4 & H5)%untouched [].
  unfold opens, accepts, users, sent, received in *.
  split; unfold opens, accepts, users, sent, received; rewrite ?omap_snoc, ?H1, ?H2, ?H3, ?H4, ?H5, ?app_nil_r; done.
Qed.

(** No event of the trace is about the session. *)
Definition unused (tr : Trace) (id : SessionId) : Prop := Forall (λ e, event_session e ≠ Some id) tr.

Lemma unused_projections tr id :
  unused tr id → opens id tr = [] ∧ accepts id tr = [] ∧ users id tr = [] ∧
  (∀ who, sent id who tr = []) ∧ (∀ who, received id who tr = []).
Proof.
  unfold opens, accepts, users, sent, received.
  induction 1 as [|e tr He Htr (I1 & I2 & I3 & I4 & I5)]; [done|].
  apply untouched in He as (H1 & H2 & H3 & H4 & H5). cbn.
  rewrite H1, H2, H3, I1, I2, I3. split_and!; [done..| |]; intros who; rewrite ?H4, ?H5; auto.
Qed.

(** The state agrees with the trace. *)
Record agrees (tr : Trace) (s : Ipc) : Prop := {
  ag_next : next_session_id s = (1 + len (opened tr))%N;
  ag_unused id : ¬ (1 ≤ id < next_session_id s)%N → unused tr id;
  ag_history id : (1 ≤ id < next_session_id s)%N →
    ∃ o p srv up down, history tr id o p srv up down ∧
      ∀ ss, sessions s !! id = Some ss →
        owner ss = o ∧ server_port ss = p ∧ server ss = srv ∧
        owner_to_server ss = up ∧ server_to_owner ss = down;
}.

(** An event that opens no session and is about a known one, or none. *)
Lemma agrees_touch tr e s s' :
  agrees tr s → next_session_id s' = next_session_id s →
  (match e with EvOpen _ _ _ => False | _ => True end) →
  (∀ id, event_session e = Some id → (1 ≤ id < next_session_id s)%N) →
  (∀ id, event_session e ≠ Some id → ∀ ss, sessions s' !! id = Some ss → sessions s !! id = Some ss) →
  (∀ id o p srv up down, event_session e = Some id → history tr id o p srv up down →
     (∀ ss, sessions s !! id = Some ss → owner ss = o ∧ server_port ss = p ∧ server ss = srv ∧
        owner_to_server ss = up ∧ server_to_owner ss = down) →
     ∃ srv' up' down', history (tr ++ [e]) id o p srv' up' down' ∧
       ∀ ss, sessions s' !! id = Some ss → owner ss = o ∧ server_port ss = p ∧ server ss = srv' ∧
        owner_to_server ss = up' ∧ server_to_owner ss = down') →
  agrees (tr ++ [e]) s'.
Proof.
  intros [Hn Hu Hh] Hn' Hno Hin Hother Hthis. split.
  - rewrite Hn', Hn. unfold opened. rewrite omap_snoc. destruct e; try done; by rewrite app_nil_r.
  - intros id Hid. rewrite Hn' in Hid. apply Forall_app. split; [by apply Hu|]. constructor; [|constructor].
    intros He%Hin. done.
  - intros id Hid. rewrite Hn' in Hid. destruct (Hh id Hid) as (o & p & srv & up & down & Hhist & Hss).
    destruct (decide (event_session e = Some id)) as [He|He].
    + destruct (Hthis id o p srv up down He Hhist Hss) as (srv' & up' & down' & ? & ?). by exists o, p, srv', up', down'.
    + exists o, p, srv, up, down. split; [by apply history_untouched|]. intros ss Hs. apply Hss. by apply Hother.
Qed.

(** The four calls on an accepted or open session. *)
Lemma role_user ss t r o srv :
  role_of ss t = Some r → owner ss = o → server ss = srv → t = o ∨ srv = Some t.
Proof. intros [[_ ->]|(_ & _ & ?)]%role_of_Some; naive_solver. Qed.

Lemma role_is_thread ss t r :
  role_of ss t = Some r →
  match r with
  | Owner => is_thread (owner ss) t = true ∧ not_thread (owner ss) t = false
  | Server => is_thread (owner ss) t = false ∧ not_thread (owner ss) t = true
  end.
Proof.
  intros [[-> ->]|(-> & Hne & _)]%role_of_Some; unfold is_thread, not_thread;
    rewrite !bool_decide_decide; case_decide; case_decide; done.
Qed.

Lemma server_set_out_lane r q ss : server (set_out_lane r q ss) = server ss.
Proof. by destruct r. Qed.
Lemma server_set_in_lane r q ss : server (set_in_lane r q ss) = server ss.
Proof. by destruct r. Qed.

(** Sending appends to the sender's stream and to the queue behind it. *)
Lemma history_send tr id ss t r b p :
  role_of ss t = Some r → server_port ss = p →
  (len (out_lane r ss) < SESSION_CHANNEL_CAPACITY)%N →
  history tr id (owner ss) p (server ss) (owner_to_server ss) (server_to_owner ss) →
  history (tr ++ [EvSessionSend t id b]) id (owner ss) p (server ss)
    (owner_to_server (set_out_lane r (out_lane r ss ++ [b]) ss))
    (server_to_owner (set_out_lane r (out_lane r ss ++ [b]) ss)).
Proof.
  intros Hr Hp Hc []. pose proof (role_is_thread _ _ _ Hr) as Hw.
  unfold opens, accepts, users, sent, received in *.
  split; unfold opens, accepts, users, sent, received; rewrite ?omap_snoc; cbn;
    rewrite ?decide_True by done; rewrite ?app_nil_r; try done.
  - intros t' [Hin|Hin%list_elem_of_singleton]%elem_of_app; [by apply h_users0|]. subst t'. by eapply role_user.
  - destruct r; destruct Hw as [-> _]; cbn; rewrite ?app_nil_r; [|done]. by rewrite h_up0, app_assoc.
  - destruct r; destruct Hw as [_ ->]; cbn; rewrite ?app_nil_r; [done|]. by rewrite h_down0, app_assoc.
  - destruct r; cbn in *; rewrite ?len_snoc; [lia|done].
  - destruct r; cbn in *; rewrite ?len_snoc; [done|lia].
Qed.

(** Receiving moves the first queued byte of the other lane to the reader. *)
Lemma history_recv tr id ss t r b q p :
  role_of ss t = Some r → server_port ss = p → in_lane r ss = b :: q →
  history tr id (owner ss) p (server ss) (owner_to_server ss) (server_to_owner ss) →
  history (tr ++ [EvSessionRecv t id b]) id (owner ss) p (server ss)
    (owner_to_server (set_in_lane r q ss)) (server_to_owner (set_in_lane r q ss)).
Proof.
  intros Hr Hp Hq []. pose proof (role_is_thread _ _ _ Hr) as Hw.
  unfold opens, accepts, users, sent, received in *.
  split; unfold opens, accepts, users, sent, received; rewrite ?omap_snoc; cbn;
    rewrite ?decide_True by done; rewrite ?app_nil_r; try done.
  - intros t' [Hin|Hin%list_elem_of_singleton]%elem_of_app; [by apply h_users0|]. subst t'. by eapply role_user.
  - destruct r; destruct Hw as [_ ->]; cbn in *; rewrite ?app_nil_r; [done|].
    by rewrite h_up0, Hq, <-app_assoc.
  - destruct r; destruct Hw as [-> _]; cbn in *; rewrite ?app_nil_r; [|done].
    by rewrite h_down0, Hq, <-app_assoc.
  - destruct r; cbn in *; [done|]. rewrite Hq in h_up_len0. unfold len in *. cbn [length] in *. lia.
  - destruct r; cbn in *; [|done]. rewrite Hq in h_down_len0. unfold len in *. cbn [length] in *. lia.
Qed.

(** Locking and unlocking move no byte. *)
Lemma history_lock tr id ss t r p e :
  role_of ss t = Some r → server_port ss = p →
  e = EvSessionLock t id ∨ e = EvSessionUnlock t id →
  history tr id (owner ss) p (server ss) (owner_to_server ss) (server_to_owner ss) →
  history (tr ++ [e]) id (owner ss) p (server ss) (owner_to_server ss) (server_to_owner ss).
Proof.
  intros Hr Hp He []. unfold opens, accepts, users, sent, received in *.
  split; unfold opens, accepts, users, sent, received; rewrite ?omap_snoc; destruct He as [-> | ->]; cbn;
    rewrite ?decide_True by done; rewrite ?app_nil_r; try done;
    intros t' [Hin|Hin%list_elem_of_singleton]%elem_of_app; [by apply h_users0|subst t'; by eapply role_user
      |by apply h_users0|subst t'; by eapply role_user].
Qed.

Lemma history_accept tr id ss t p :
  server ss = None → server_port ss = p →
  history tr id (owner ss) p None (owner_to_server ss) (server_to_owner ss) →
  history (tr ++ [EvAccept t p id]) id (owner ss) p (Some t) (owner_to_server ss) (server_to_owner ss).
Proof.
  intros Hs Hp []. unfold opens, accepts, users, sent, received in *.
  split; unfold opens, accepts, users, sent, received; rewrite ?omap_snoc; cbn;
    rewrite ?decide_True by done; rewrite ?app_nil_r; try done.
  - by rewrite h_accepts0.
  - intros t' Hin. destruct (h_users0 t' Hin) as [?|?]; [by left|done].
Qed.

Lemma history_open tr id t p :
  unused tr id → history (tr ++ [EvOpen t p id]) id t p None [] [].
Proof.
  intros (H1 & H2 & H3 & H4 & H5)%unused_projections.
  unfold opens, accepts, users, sent, received in *.
  split; unfold opens, accepts, users, sent, received; rewrite ?omap_snoc, ?H1, ?H2, ?H3, ?H4, ?H5; cbn;
    rewrite ?decide_True by done; try done; [set_solver|unfold len; cbn; lia..].
Qed.

(** An event that replaces one session by another of the same parties. *)
Lemma agrees_update tr e s id ss ss' :
  ipc_ok s → agrees tr s → sessions s !! id = Some ss → event_session e = Some id →
  (match e with EvOpen _ _ _ => False | _ => True end) →
  owner ss' = owner ss → server_port ss' = server_port ss →
  (history tr id (owner ss) (server_port ss) (server ss) (owner_to_server ss) (server_to_owner ss) →
   history (tr ++ [e]) id (owner ss) (server_port ss) (server ss') (owner_to_server ss') (server_to_owner ss')) →
  ∀ s', sessions s' = <[id := ss']> (sessions s) → next_session_id s' = next_session_id s →
  agrees (tr ++ [e]) s'.
Proof.
  intros Hok Hag Hs He Hno Ho Hp Hh s' Hs' Hn. eapply agrees_touch; [done|done|done| | |].
  - intros id' He'. rewrite He in He'. injection He' as <-. by eapply ok_ids.
  - intros id' He' ss0. rewrite Hs', lookup_insert_ne by congruence. done.
  - intros id' o p srv up down He' Hhist Hss. rewrite He in He'. injection He' as <-.
    destruct (Hss ss Hs) as (<- & <- & <- & <- & <-). do 3 eexists. split; [by apply Hh|].
    intros ss0. rewrite Hs', lookup_insert_eq. intros [= <-]. done.
Qed.

(** An event about no session that keeps or drops sessions. *)
Lemma agrees_keep tr e s s' :
  agrees tr s → event_session e = None → next_session_id s' = next_session_id s →
  (∀ id ss, sessions s' !! id = Some ss → sessions s !! id = Some ss) → agrees (tr ++ [e]) s'.
Proof.
  intros Hag He Hn Hs. eapply agrees_touch; [done|done|by destruct e| | |].
  - intros id. by rewrite He.
  - intros id _ ss. apply Hs.
  - intros id o p srv up down. by rewrite He.
Qed.

Lemma agrees_open tr t p id s s' :
  ipc_ok s → (next_session_id s < u64_max)%N → agrees tr s → session_open p t s = (Some id, s') →
  agrees (tr ++ [EvOpen t p id]) s'.
Proof.
  intros Hok Hnext Hag. unfold session_open. case_decide; [done|]. case_decide; [done|]. intros [= <- <-].
  set (id := next_session_id s) in *. destruct Hag.
  assert (((id + 1) mod (u64_max + 1))%N = (id + 1)%N) as Hmod by (apply N.mod_small; lia).
  assert (unused tr id) as Hun by (apply ag_unused0; unfold id; lia).
  split; cbn [next_session_id sessions]; rewrite ?Hmod.
  - unfold opened. rewrite omap_snoc. cbn. rewrite len_snoc. fold (opened tr). unfold id. lia.
  - intros id' Hid. apply Forall_app. split; [apply ag_unused0; unfold id in Hid; lia|]. constructor; [|constructor].
    cbn. intros [= <-]. pose proof (ok_next s Hok). unfold id in Hid. lia.
  - intros id' Hid. destruct (decide (id = id')) as [<-|Hne].
    + exists t, p, None, [], []. split; [by apply history_open|]. intros ss. rewrite lookup_insert_eq. intros [= <-]. done.
    + destruct (ag_history0 id') as (o & p' & srv & up & down & Hh & Hss); [unfold id in *; lia|].
      exists o, p', srv, up, down. split; [apply history_untouched; [cbn; congruence|done]|].
      intros ss. rewrite lookup_insert_ne by done. apply Hss.
Qed.

Lemma agrees_step tr s e s' :
  ipc_ok s → (next_session_id s < u64_max)%N → agrees tr s → ipc_step s e s' → agrees (tr ++ [e]) s'.
Proof.
  intros Hok Hnext Hag Hstep. destruct Hstep as [t p s s' H|t p s s' H|t p b s s' H|t p b s s' H|t p id s s' H
    |t p id s s' H|t id b s s' H|t id b s s' H|t id s s' H|t id s s' H|t s].
  - revert H. unfold begin_send. case_match; [|done]. case_match; [done|]. intros [= <-]. by eapply agrees_keep.
  - revert H. unfold end_send. case_match; [|done]. intros [= <-]. by eapply agrees_keep.
  - revert H. unfold send. case_match; [|done]. case_decide; [|done]. intros [= <-]. by eapply agrees_keep.
  - revert H. unfold try_recv. case_match; [|done]. case_match; [done|]. intros [= -> <-]. by eapply agrees_keep.
  - by eapply agrees_open.
  - apply session_accept_ok in H as (ss & q & _ & Hs & Hsrv & <- & -> & _); [|done].
    eapply (agrees_update tr _ s id ss (set_server t ss)); try done. cbn. rewrite Hsrv. by apply history_accept.
  - revert H. unfold session_send. case_match eqn:Hp; [|done]. destruct p as [ss r]. case_decide as Hc; [|done].
    intros [= <-]. apply participant_Some in Hp as [Hs Hr].
    eapply (agrees_update tr _ s id ss (set_out_lane r (out_lane r ss ++ [b]) ss)); try done; try (by destruct r).
    intros Hh. rewrite server_set_out_lane. by apply history_send.
  - revert H. unfold session_try_recv. case_match eqn:Hp; [|done]. destruct p as [ss r]. case_match eqn:Hl; [done|].
    intros [= -> <-]. apply participant_Some in Hp as [Hs Hr].
    eapply (agrees_update tr _ s id ss (set_in_lane r l ss)); try done; try (by destruct r).
    intros Hh. rewrite server_set_in_lane. by apply history_recv.
  - revert H. unfold session_begin_send. case_match eqn:Hp; [|done]. destruct p as [ss r]. case_match; [done|].
    intros [= <-]. apply participant_Some in Hp as [Hs Hr].
    eapply (agrees_update tr _ s id ss (set_lane_lock r true ss)); try done; try (by destruct r).
    intros Hh. apply (history_lock _ _ _ t r _ (EvSessionLock t id)) in Hh; [|by auto..]. by destruct r.
  - revert H. unfold session_end_send. case_match eqn:Hp; [|done]. destruct p as [ss r].
    intros [= <-]. apply participant_Some in Hp as [Hs Hr].
    eapply (agrees_update tr _ s id ss (set_lane_lock r false ss)); try done; try (by destruct r).
    intros Hh. apply (history_lock _ _ _ t r _ (EvSessionUnlock t id)) in Hh; [|by auto..]. by destruct r.
  - eapply agrees_keep; [done..|]. intros id ss [? _]%reap_lookup. done.
Qed.

Lemma opened_app tr tr' : opened (tr ++ tr') = opened tr ++ opened tr'.
Proof. apply omap_app. Qed.

(** The session counter does not wrap around. *)
Definition few_sessions (tr : Trace) : Prop := (len (opened tr) + 1 < u64_max)%N.

Lemma few_sessions_app tr tr' : few_sessions (tr ++ tr') → few_sessions tr.
Proof. unfold few_sessions, len. rewrite opened_app, length_app. lia. Qed.

Lemma run_agrees tr s : ipc_run ipc_new tr s → few_sessions tr → ipc_ok s ∧ agrees tr s.
Proof.
  intros Hrun. remember ipc_new as s0. induction Hrun as [s|s0 tr s e s' Hrun IH Hstep]; intros Hlen; subst.
  - split; [apply ipc_new_ok|]. split; [done| |].
    + intros id _. constructor.
    + intros id Hid. cbn in Hid. lia.
  - apply few_sessions_app in Hlen. destruct IH as [Hok Hag]; [done..|].
    assert (next_session_id s < u64_max)%N as Hn by (rewrite (ag_next _ _ Hag); unfold few_sessions in Hlen; lia).
    split; [by eapply ipc_step_ok|by eapply agrees_step].
Qed.

(** ** Ports: one stream, framed by the send lock *)

Definition port_sent_by (p : N) (e : Event) : option N :=
  match e with EvSend _ p' b => if decide (p' = p) then Some b else None | _ => None end.
Definition port_received_by (p : N) (e : Event) : option N :=
  match e with EvRecv _ p' b => if decide (p' = p) then Some b else None | _ => None end.
Definition port_sent (p : N) (tr : Trace) := omap (port_sent_by p) tr.
Definition port_received (p : N) (tr : Trace) := omap (port_received_by p) tr.

Lemma port_stream tr s p q :
  ipc_run ipc_new tr s → get (channels s) p = Some q → port_sent p tr = port_received p tr ++ q.
Proof.
  intros Hrun. remember ipc_new as s0. revert q. induction Hrun as [s|s0 tr s e s' Hrun IH Hstep]; intros q Hq; subst.
  - rewrite get_Some in Hq. cbn -[replicate] in Hq. by apply lookup_replicate_1 in Hq as [-> _].
  - specialize (IH eq_refl). unfold port_sent, port_received in *. rewrite !omap_snoc.
    assert (∀ q, get (channels s') p = Some q → channels s' = channels s → port_sent_by p e = None →
      port_received_by p e = None →
      omap (port_sent_by p) tr ++ match port_sent_by p e with Some y => [y] | None => [] end =
      (omap (port_received_by p) tr ++ match port_received_by p e with Some y => [y] | None => [] end) ++ q) as Hsame.
    { intros q' Hq' Hc -> ->. rewrite Hc in Hq'. rewrite !app_nil_r. by apply IH. }
    destruct Hstep as [t p' s s' H|t p' s s' H|t p' b s s' H|t p' b s s' H|t p' id s s' H
      |t p' id s s' H|t id b s s' H|t id b s s' H|t id s s' H|t id s s' H|t s];
      try (apply Hsame; [done|revert H; unfold begin_send, end_send, session_open, session_accept, session_send,
        session_try_recv, session_begin_send, session_end_send; repeat case_match; naive_solver|done|done]).
    + unfold send in H. destruct (get (channels s) p') as [l|] eqn:Hg; [|done].
      destruct (decide (len l < CHANNEL_CAPACITY)%N); [|done]. injection H as <-. revert Hq. cbn.
      rewrite get_insert. case_decide as Hp; rewrite app_nil_r.
      * destruct Hp as [-> _]. rewrite decide_True by done. intros [= <-]. rewrite (IH l) by done. by rewrite app_assoc.
      * intros Hq. rewrite decide_False; [rewrite app_nil_r; by apply IH|]. intros ->. apply Hp. split; [done|].
        by eapply get_lt.
    + unfold try_recv in H. destruct (get (channels s) p') as [[|b0 l0]|] eqn:Hg; [done| |done].
      injection H as -> <-. revert Hq. cbn.
      rewrite get_insert. case_decide as Hp; rewrite ?app_nil_r.
      * destruct Hp as [-> _]. rewrite decide_True by done. intros [= <-]. rewrite (IH (b :: l0)) by done.
        by rewrite <-!app_assoc.
      * intros Hq. rewrite decide_False; [rewrite app_nil_r; by apply IH|]. intros ->. apply Hp. split; [done|].
        by eapply get_lt.
    + by apply Hsame.
Qed.

(** The messages on a port so far, with their senders, and the one in progress. *)
Record Framing := mkFraming {
  whole : list (ThreadId * list N);
  partial : option (ThreadId * list N);
}.

(** One event, if it fits: a message is opened by a lock when none is in
    progress, and extended and closed by its own thread only. *)
Definition frame_step (p : N) (f : Framing) (e : Event) : option Framing :=
  match e with
  | EvLock t p' =>
      if decide (p' = p) then
        match partial f with None => Some (mkFraming (whole f) (Some (t, []))) | Some _ => None end
      else Some f
  | EvSend t p' b =>
      if decide (p' = p) then
        match partial f with
        | Some (t', m) => if decide (t' = t) then Some (mkFraming (whole f) (Some (t, m ++ [b]))) else None
        | None => None
        end
      else Some f
  | EvUnlock t p' =>
      if decide (p' = p) then
        match partial f with
        | Some (t', m) => if decide (t' = t) then Some (mkFraming (whole f ++ [(t, m)]) None) else None
        | None => None
        end
      else Some f
  | _ => Some f
  end.

Definition framing (p : N) (tr : Trace) : option Framing :=
  foldl (λ o e, f ← o; frame_step p f e) (Some (mkFraming [] None)) tr.

Definition framed_bytes (f : Framing) : list N :=
  concat (snd <$> whole f) ++ match partial f with Some (_, m) => m | None => [] end.

(** What one thread must do by itself: send on [p] only between its own lock and
    unlock of [p]. *)
Definition discipline_step (p : N) (t : ThreadId) (inside : bool) (e : Event) : option bool :=
  match e with
  | EvLock t' p' => if decide (t' = t ∧ p' = p) then if inside then None else Some true else Some inside
  | EvSend t' p' _ => if decide (t' = t ∧ p' = p) then if inside then Some true else None else Some inside
  | EvUnlock t' p' => if decide (t' = t ∧ p' = p) then if inside then Some false else None else Some inside
  | _ => Some inside
  end.

Definition discipline (p : N) (t : ThreadId) (tr : Trace) : option bool :=
  foldl (λ o e, i ← o; discipline_step p t i e) (Some false) tr.

Definition disciplined (p : N) (t : ThreadId) (tr : Trace) : Prop := is_Some (discipline p t tr).

Definition holds (f : Framing) (t : ThreadId) : bool :=
  match partial f with Some (t', _) => bool_decide (t' = t) | None => false end.

(** The run, the framing and every thread's own view agree. *)
Record framed (p : N) (tr : Trace) (s : Ipc) (f : Framing) : Prop := {
  fr_framing : framing p tr = Some f;
  fr_lock b : get (send_locks s) p = Some b → b = bool_decide (is_Some (partial f));
  fr_threads t : discipline p t tr = Some (holds f t);
  fr_bytes : port_sent p tr = framed_bytes f;
}.

Lemma discipline_snoc p t tr e : discipline p t (tr ++ [e]) = (i ← discipline p t tr; discipline_step p t i e).
Proof. unfold discipline. by rewrite foldl_app. Qed.
Lemma framing_snoc p tr e : framing p (tr ++ [e]) = (f ← framing p tr; frame_step p f e).
Proof. unfold framing. by rewrite foldl_app. Qed.

(** An event that is not about the port. *)
Definition off_port (p : N) (e : Event) : Prop :=
  match e with EvLock _ p' | EvSend _ p' _ | EvUnlock _ p' => p' ≠ p | _ => True end.

Lemma framed_off p tr s s' e f :
  framed p tr s f → off_port p e → get (send_locks s') p = get (send_locks s) p → framed p (tr ++ [e]) s' f.
Proof.
  intros [] He Hl. split.
  - rewrite framing_snoc, fr_framing0. cbn. destruct e; cbn in *; rewrite ?decide_False by done; done.
  - rewrite Hl. done.
  - intros t. rewrite discipline_snoc, fr_threads0. cbn.
    destruct e; cbn in *; rewrite ?decide_False by naive_solver; done.
  - unfold port_sent in *. rewrite omap_snoc, fr_bytes0.
    destruct e; cbn in *; rewrite ?decide_False by done; by rewrite app_nil_r.
Qed.

Lemma framed_lock p t tr s s' f :
  framed p tr s f → begin_send p s = (Done true, s') →
  framed p (tr ++ [EvLock t p]) s' (mkFraming (whole f) (Some (t, []))).
Proof.
  intros [] H. unfold begin_send in H. destruct (get (send_locks s) p) as [[]|] eqn:Hg; try done. injection H as <-.
  specialize (fr_lock0 _ eq_refl). symmetry in fr_lock0. rewrite bool_decide_eq_false in fr_lock0.
  destruct (partial f) as [x|] eqn:Hpart; [by destruct fr_lock0|]. split.
  - rewrite framing_snoc, fr_framing0. cbn. by rewrite decide_True, Hpart by done.
  - cbn. rewrite get_insert, decide_True by (split; [done|]; by eapply get_lt). intros b [= <-].
    done.
  - intros t'. rewrite discipline_snoc, fr_threads0. unfold holds. rewrite Hpart. cbn [mbind option_bind partial discipline_step].
    case_decide as Ht.
    + destruct Ht as [-> _]. by rewrite bool_decide_true.
    + by rewrite bool_decide_false by naive_solver.
  - unfold port_sent, framed_bytes in *. rewrite omap_snoc, fr_bytes0, Hpart. cbn. by rewrite app_nil_r.
Qed.

(** The thread that sends or unlocks while disciplined is the one in progress. *)
Lemma disciplined_holder p t tr s f e :
  framed p tr s f → is_Some (discipline p t (tr ++ [e])) →
  (e = EvUnlock t p ∨ ∃ b, e = EvSend t p b) → ∃ m, partial f = Some (t, m).
Proof.
  intros [] Hd He. rewrite discipline_snoc, fr_threads0 in Hd. cbn [mbind option_bind] in Hd. unfold holds in Hd.
  destruct (partial f) as [[t' m]|].
  - exists m. destruct (decide (t' = t)) as [->|Hne]; [done|]. rewrite bool_decide_false in Hd by done.
    exfalso. destruct He as [->|[b ->]]; cbn in Hd; rewrite decide_True in Hd by done; by destruct Hd.
  - exfalso. destruct He as [->|[b ->]]; cbn in Hd; rewrite decide_True in Hd by done; by destruct Hd.
Qed.

Lemma framed_send p t b m tr s s' f :
  framed p tr s f → partial f = Some (t, m) → send_locks s' = send_locks s →
  framed p (tr ++ [EvSend t p b]) s' (mkFraming (whole f) (Some (t, m ++ [b]))).
Proof.
  intros [] Hpart Hl. split.
  - rewrite framing_snoc, fr_framing0. cbn. by rewrite decide_True, Hpart, decide_True by done.
  - rewrite Hl. intros b' Hb. rewrite (fr_lock0 _ Hb), Hpart. by rewrite !bool_decide_true by eauto.
  - intros t'. rewrite discipline_snoc, fr_threads0. unfold holds. rewrite Hpart. cbn [mbind option_bind partial discipline_step].
    case_decide as Ht; [|done]. destruct Ht as [-> _]. by rewrite bool_decide_true.
  - unfold port_sent, framed_bytes in *. rewrite omap_snoc, fr_bytes0, Hpart. cbn.
    rewrite decide_True by done. by rewrite <-app_assoc.
Qed.

Lemma framed_unlock p t m tr s s' f :
  framed p tr s f → partial f = Some (t, m) → end_send p s = (true, s') →
  framed p (tr ++ [EvUnlock t p]) s' (mkFraming (whole f ++ [(t, m)]) None).
Proof.
  intros [] Hpart H. unfold end_send in H. destruct (get (send_locks s) p) eqn:Hg; [|done]. injection H as <-. split.
  - rewrite framing_snoc, fr_framing0. cbn. by rewrite decide_True, Hpart, decide_True by done.
  - cbn. rewrite get_insert, decide_True by (split; [done|]; by eapply get_lt). intros b' [= <-].
    done.
  - intros t'. rewrite discipline_snoc, fr_threads0. unfold holds. rewrite Hpart. cbn [mbind option_bind partial discipline_step].
    case_decide as Ht.
    + destruct Ht as [-> _]. by rewrite bool_decide_true.
    + by rewrite bool_decide_false by naive_solver.
  - unfold port_sent, framed_bytes in *. rewrite omap_snoc, fr_bytes0, Hpart. cbn.
    rewrite !app_nil_r, fmap_app, concat_app. cbn. by rewrite app_nil_r.
Qed.

Lemma run_framed p tr s :
  ipc_run ipc_new tr s → (∀ t, disciplined p t tr) → ∃ f, framed p tr s f.
Proof.
  intros Hrun. remember ipc_new as s0. induction Hrun as [s|s0 tr s e s' Hrun IH Hstep]; intros Hd; subst.
  - exists (mkFraming [] None). split; [done| |done|done]. intros b Hb%get_Some. cbn -[replicate] in Hb.
    apply lookup_replicate_1 in Hb as [-> _]. by rewrite bool_decide_false by (by intros [? ?]).
  - destruct IH as [f Hf]; [done| |].
    { intros t. specialize (Hd t). unfold disciplined in *. rewrite discipline_snoc in Hd.
      destruct (discipline p t tr); [eauto|by destruct Hd]. }
    destruct Hstep as [t p' s s' H|t p' s s' H|t p' b s s' H|t p' b s s' H|t p' id s s' H
      |t p' id s s' H|t id b s s' H|t id b s s' H|t id s s' H|t id s s' H|t s];
      try (exists f; eapply framed_off; [done|done|]; revert H; unfold try_recv, session_open, session_accept, session_send,
        session_try_recv, session_begin_send, session_end_send; repeat case_match; naive_solver).
    + destruct (decide (p' = p)) as [->|Hp]; [eexists; by eapply framed_lock|]. exists f.
      eapply framed_off; [done|done|]. revert H. unfold begin_send. repeat case_match; intros [= <-].
      cbn. rewrite get_insert, decide_False by naive_solver. done.
    + destruct (decide (p' = p)) as [->|Hp].
      * destruct (disciplined_holder p t tr s f (EvUnlock t p)) as [m Hm]; [done|apply Hd|by left|].
        eexists. by eapply framed_unlock.
      * exists f. eapply framed_off; [done|done|]. revert H. unfold end_send. case_match; [|done]. intros [= <-].
        cbn. rewrite get_insert, decide_False by naive_solver. done.
    + assert (send_locks s' = send_locks s) as Hl.
      { revert H. unfold send. case_match; [|done]. case_decide; [|done]. by intros [= <-]. }
      destruct (decide (p' = p)) as [->|Hp].
      * destruct (disciplined_holder p t tr s f (EvSend t p b)) as [m Hm]; [done|apply Hd|eauto|].
        eexists. by eapply framed_send.
      * exists f. eapply framed_off; [done|done|]. by rewrite Hl.
    + exists f. by eapply framed_off.
Qed.
