(* ===== verification/X86Sched.v ===== *)
(** * X86Sched: threads, the run queue and context switches of the x86_64 kernel

    Model of [kernel/src/scheduler.rs] and of the tick counter and watchdog of
    [kernel/src/interrupts.rs].  A saved [TrapFrame] is a value of the parameter
    type [F]: what the thread does when it is resumed.  Stack memory is the set of
    mapped stack pages; physical frames are taken to suffice.  A panic is [None]. *)

From S2P Require Import Prelude Capability X86Ipc.

Definition STACK_SIZE : N := 4096 * 16.
Definition GUARD_PAGE_SIZE : N := 4096.
Definition STACK_REGION_START : N := 0x666666660000.
Definition STACK_REGION_STRIDE : N := GUARD_PAGE_SIZE + STACK_SIZE.
Definition KERNEL_ENTRY_STACK_SIZE : N := 4096 * 4.
Definition KERNEL_ENTRY_STACK_REGION_START : N := 0x333333330000.
Definition KERNEL_ENTRY_STACK_REGION_STRIDE : N := GUARD_PAGE_SIZE + KERNEL_ENTRY_STACK_SIZE.
Definition WATCHDOG_THRESHOLD_TICKS : N := 20.

(** [VirtAddr::new] panics on an address whose top bits are not a sign extension. *)
Definition canonical (a : N) : bool :=
  bool_decide (a < 0x800000000000 ∨ 0xffff800000000000 ≤ a ≤ u64_max)%N.

(** The pages [stack_start ..= stack_start + size - 1] covers. *)
Definition stack_pages (stack_start size : N) : list N :=
  (λ i, stack_start + 4096 * N.of_nat i)%N <$> seq 0 (N.to_nat (size / 4096)).

(** [map_to] each page, or [unmap] it; either fails on a page in the wrong state. *)
Fixpoint map_pages (pages : list N) (mapped : gset N) : option (gset N) :=
  match pages with
  | [] => Some mapped
  | page :: pages => if decide (page ∈ mapped) then None else map_pages pages ({[page]} ∪ mapped)
  end.

Fixpoint unmap_pages (pages : list N) (mapped : gset N) : option (gset N) :=
  match pages with
  | [] => Some mapped
  | page :: pages => if decide (page ∈ mapped) then unmap_pages pages (mapped ∖ {[page]}) else None
  end.

(** [(guard_page_base, stack_top)] and the new mapping. *)
Definition map_guarded_stack (region_start stride slot size : N) (mapped : gset N) : option (N * N * gset N) :=
  let region_base := (region_start + slot * stride)%N in
  let stack_start := (region_base + GUARD_PAGE_SIZE)%N in
  if canonical region_base && canonical stack_start && canonical (stack_start + size)%N then
    mapped ← map_pages (stack_pages stack_start size) mapped;
    Some (region_base, stack_start + size, mapped)%N
  else None.

Section sched.
Context {F : Type}.

Record Thread := mkThread {
  thread_id : ThreadId;
  guard_page_base : N;
  stack_pointer : option F;
  capability : option CapabilityToken;
  extra_capabilities : list CapabilityToken;
  address_space : option N;
  kernel_entry_stack_top : option N;
}.

Record Scheduler := mkScheduler {
  run_queue : list Thread;
  current : option Thread;
  zombies : list Thread;
}.

(** The scheduler's statics, the stack mappings, [Cr3], RSP0, the clock and the
    IPC tables. *)
Record Sys := mkSys {
  sched : Scheduler;
  exiting : bool;
  next_thread_id : N;
  next_stack_slot : N;
  next_kernel_entry_stack_slot : N;
  mapped : gset N;
  cr3 : N;
  rsp0 : option N;
  ticks : N;
  last_yield_tick : N;
  ipc : Ipc;
}.

Definition set_sched f (s : Sys) : Sys :=
  mkSys (f (sched s)) (exiting s) (next_thread_id s) (next_stack_slot s) (next_kernel_entry_stack_slot s)
    (mapped s) (cr3 s) (rsp0 s) (ticks s) (last_yield_tick s) (ipc s).
Definition set_exiting b (s : Sys) : Sys :=
  mkSys (sched s) b (next_thread_id s) (next_stack_slot s) (next_kernel_entry_stack_slot s)
    (mapped s) (cr3 s) (rsp0 s) (ticks s) (last_yield_tick s) (ipc s).
Definition set_mapped m (s : Sys) : Sys :=
  mkSys (sched s) (exiting s) (next_thread_id s) (next_stack_slot s) (next_kernel_entry_stack_slot s)
    m (cr3 s) (rsp0 s) (ticks s) (last_yield_tick s) (ipc s).
Definition set_ipc f (s : Sys) : Sys :=
  mkSys (sched s) (exiting s) (next_thread_id s) (next_stack_slot s) (next_kernel_entry_stack_slot s)
    (mapped s) (cr3 s) (rsp0 s) (ticks s) (last_yield_tick s) (f (ipc s)).
Definition load_space c r (s : Sys) : Sys :=
  mkSys (sched s) (exiting s) (next_thread_id s) (next_stack_slot s) (next_kernel_entry_stack_slot s)
    (mapped s) c r (ticks s) (last_yield_tick s) (ipc s).
Definition record_yield (s : Sys) : Sys :=
  mkSys (sched s) (exiting s) (next_thread_id s) (next_stack_slot s) (next_kernel_entry_stack_slot s)
    (mapped s) (cr3 s) (rsp0 s) (ticks s) (ticks s) (ipc s).
Definition advance_ticks (s : Sys) : Sys :=
  mkSys (sched s) (exiting s) (next_thread_id s) (next_stack_slot s) (next_kernel_entry_stack_slot s)
    (mapped s) (cr3 s) (rsp0 s) ((ticks s + 1) mod (u64_max + 1))%N (last_yield_tick s) (ipc s).

Definition set_frame (f : option F) (t : Thread) : Thread :=
  mkThread (thread_id t) (guard_page_base t) f (capability t) (extra_capabilities t) (address_space t)
    (kernel_entry_stack_top t).

(** ** New threads *)

Definition placeholder (id : ThreadId) : Thread := mkThread id 0 None None [] None None.

(** [Thread::new]: the next stack slot, mapped, and the next id. *)
Definition thread_new (entry : F) (s : Sys) : option (Thread * Sys) :=
  let slot := next_stack_slot s in
  '(guard, _, mapped) ← map_guarded_stack STACK_REGION_START STACK_REGION_STRIDE slot STACK_SIZE (mapped s);
  let id := next_thread_id s in
  Some (mkThread id guard (Some entry) None [] None None,
        mkSys (sched s) (exiting s) ((id + 1) mod (u64_max + 1))%N ((slot + 1) mod (usize_max + 1))%N
          (next_kernel_entry_stack_slot s) mapped (cr3 s) (rsp0 s) (ticks s) (last_yield_tick s) (ipc s)).

Definition alloc_kernel_entry_stack (s : Sys) : option (N * Sys) :=
  let slot := next_kernel_entry_stack_slot s in
  '(_, stack_top, mapped) ← map_guarded_stack KERNEL_ENTRY_STACK_REGION_START KERNEL_ENTRY_STACK_REGION_STRIDE
    slot KERNEL_ENTRY_STACK_SIZE (mapped s);
  Some (stack_top,
        mkSys (sched s) (exiting s) (next_thread_id s) (next_stack_slot s) ((slot + 1) mod (usize_max + 1))%N
          mapped (cr3 s) (rsp0 s) (ticks s) (last_yield_tick s) (ipc s)).

Definition push_thread (t : Thread) (s : Sys) : Sys :=
  set_sched (λ sc, mkScheduler (run_queue sc ++ [t]) (current sc) (zombies sc)) s.

Definition spawn_with_capability (entry : F) (cap : option CapabilityToken) (s : Sys) : option Sys :=
  '(t, s) ← thread_new entry s;
  Some (push_thread (mkThread (thread_id t) (guard_page_base t) (stack_pointer t) cap
    (extra_capabilities t) (address_space t) (kernel_entry_stack_top t)) s).

Definition spawn (entry : F) (s : Sys) : option Sys := spawn_with_capability entry None s.

Definition spawn_with_address_space (entry : F) (space : N) (s : Sys) : option Sys :=
  '(t, s) ← thread_new entry s;
  Some (push_thread (mkThread (thread_id t) (guard_page_base t) (stack_pointer t) (capability t)
    (extra_capabilities t) (Some space) (kernel_entry_stack_top t)) s).

Definition spawn_ring3_process_with_capabilities (entry : F) (space : N) (cap : option CapabilityToken)
    (extra : list CapabilityToken) (s : Sys) : option Sys :=
  '(t, s) ← thread_new entry s;
  '(top, s) ← alloc_kernel_entry_stack s;
  Some (push_thread (mkThread (thread_id t) (guard_page_base t) (stack_pointer t) cap extra
    (Some space) (Some top)) s).

Definition spawn_ring3_process_with_capability (entry : F) (space : N) (cap : option CapabilityToken)
    (s : Sys) : option Sys :=
  '(t, s) ← thread_new entry s;
  '(top, s) ← alloc_kernel_entry_stack s;
  Some (push_thread (mkThread (thread_id t) (guard_page_base t) (stack_pointer t) cap (extra_capabilities t)
    (Some space) (Some top)) s).

Definition spawn_ring3_process (entry : F) (space : N) (s : Sys) : option Sys :=
  spawn_ring3_process_with_capability entry space None s.

Definition spawn_ring3_shared (entry : F) (s : Sys) : option Sys :=
  '(t, s) ← thread_new entry s;
  '(top, s) ← alloc_kernel_entry_stack s;
  Some (push_thread (mkThread (thread_id t) (guard_page_base t) (stack_pointer t) (capability t)
    (extra_capabilities t) (address_space t) (Some top)) s).

(** [scheduler::init]: the boot thread, and one page below each stack region. *)
Definition init (kernel_p4_frame now : N) : Sys :=
  mkSys (mkScheduler [] (Some (placeholder 1)) []) false 2 0 0
    {[(STACK_REGION_START - GUARD_PAGE_SIZE)%N; (KERNEL_ENTRY_STACK_REGION_START - GUARD_PAGE_SIZE)%N]}
    kernel_p4_frame None now now ipc_new.

(** ** The current thread *)

Definition current_capability (s : Sys) : option CapabilityToken := current (sched s) ≫= capability.
Definition current_extra_capabilities (s : Sys) : list CapabilityToken :=
  default [] (extra_capabilities <$> current (sched s)).
Definition current_thread_id (s : Sys) : option ThreadId := thread_id <$> current (sched s).

Definition grant_current_extra_capability (token : CapabilityToken) (s : Sys) : Sys :=
  set_sched (λ sc, mkScheduler (run_queue sc)
    ((λ t, mkThread (thread_id t) (guard_page_base t) (stack_pointer t) (capability t)
       (extra_capabilities t ++ [token]) (address_space t) (kernel_entry_stack_top t)) <$> current sc)
    (zombies sc)) s.

(** ** Switching *)

Fixpoint reap_loop (zs : list Thread) (s : Sys) : option Sys :=
  match zs with
  | [] => Some (set_sched (λ sc, mkScheduler (run_queue sc) (current sc) []) s)
  | z :: zs =>
      let s := set_ipc (reap_sessions_for (thread_id z)) s in
      m ← unmap_pages (stack_pages (guard_page_base z + GUARD_PAGE_SIZE) STACK_SIZE) (mapped s);
      reap_loop zs (set_mapped m s)
  end.

Definition reap_zombies (s : Sys) : option Sys := reap_loop (zombies (sched s)) s.

(** The frame to resume, and the system after the switch. *)
Definition reschedule (kernel_p4_frame : N) (current_frame : F) (s : Sys) : option (option F * Sys) :=
  s ← reap_zombies (record_yield s);
  match run_queue (sched s) with
  | [] => Some (Some current_frame, s)
  | next :: queue =>
      let s := load_space (default kernel_p4_frame (address_space next))
        (match kernel_entry_stack_top next with Some top => Some top | None => rsp0 s end) s in
      outgoing ← current (sched s);
      let outgoing := set_frame (Some current_frame) outgoing in
      let zs := zombies (sched s) in
      Some (stack_pointer next,
        if exiting s
        then set_exiting false (set_sched (λ _, mkScheduler queue (Some next) (zs ++ [outgoing])) s)
        else set_sched (λ _, mkScheduler (queue ++ [outgoing]) (Some next) zs) s)
  end.

(** A timer interrupt: count, check the watchdog (armed since [init]), switch. *)
Definition on_timer_tick (kernel_p4_frame : N) (frame : F) (s : Sys) : option (option F * Sys) :=
  let s := advance_ticks s in
  if decide (WATCHDOG_THRESHOLD_TICKS < saturating_sub (ticks s) (last_yield_tick s))%N then None
  else reschedule kernel_p4_frame frame s.

Definition exit_current_thread (kernel_p4_frame : N) (frame : F) (s : Sys) : option (option F * Sys) :=
  reschedule kernel_p4_frame frame (set_exiting true s).
End sched.
Arguments Thread : clear implicits.
Arguments Scheduler : clear implicits.
Arguments Sys : clear implicits.
