(* ===== verification/X86SchedSpec.v ===== *)
(** * X86SchedSpec: what a context switch of the x86_64 kernel guarantees

    The invariant of the scheduler's tables, and the exact outcome of a switch:
    zombies are reaped, the head of the run queue runs with its own address space
    and entry stack, and the outgoing thread goes to the end of the queue, or to
    the zombies when it exits. *)

From S2P Require Import Prelude Capability X86Ipc X86IpcSpec X86Sched.

(** ** Stack pages *)

Definition pages_of {F} (t : Thread F) : list N := stack_pages (guard_page_base t + GUARD_PAGE_SIZE) STACK_SIZE.

Lemma stack_pages_NoDup start size : NoDup (stack_pages start size).
Proof. unfold stack_pages. apply NoDup_fmap_2; [intros i j; lia|apply NoDup_seq]. Qed.

Lemma unmap_pages_Some pages mapped :
  NoDup pages → (∀ p, p ∈ pages → p ∈ mapped) →
  unmap_pages pages mapped = Some (mapped ∖ list_to_set pages).
Proof.
  revert mapped. induction pages as [|p pages IH]; intros mapped Hnd Hin; cbn [unmap_pages list_to_set].
  - f_equal. set_solver.
  - apply NoDup_cons in Hnd as [Hp Hnd]. rewrite decide_True by (apply Hin; by left).
    rewrite IH; [f_equal; set_solver|done|]. intros q Hq. apply elem_of_difference. split; [apply Hin; by right|].
    intros ->%elem_of_singleton. done.
Qed.

Lemma map_pages_Some pages mapped mapped' :
  map_pages pages mapped = Some mapped' →
  mapped' = list_to_set pages ∪ mapped ∧ ∀ p, p ∈ pages → p ∉ mapped.
Proof.
  revert mapped. induction pages as [|p pages IH]; intros mapped; cbn [map_pages list_to_set].
  - intros [= <-]. set_solver.
  - case_decide as Hp; [done|]. intros [-> Hq]%IH. set_solver.
Qed.

Lemma map_guarded_stack_Some start stride slot size mapped guard top mapped' :
  map_guarded_stack start stride slot size mapped = Some (guard, top, mapped') →
  guard = (start + slot * stride)%N ∧
  mapped' = list_to_set (stack_pages (guard + GUARD_PAGE_SIZE) size) ∪ mapped ∧
  ∀ p, p ∈ stack_pages (guard + GUARD_PAGE_SIZE) size → p ∉ mapped.
Proof.
  unfold map_guarded_stack. destruct (_ && _); [|done].
  intros (m & Hm & Hret)%bind_Some. injection Hret as <- _ <-. by apply map_pages_Some in Hm as [-> ?].
Qed.

(** ** The invariant *)

Section spec.
Context {F : Type} (p4 : N).
Implicit Types (s : Sys F) (t : Thread F).

(** The threads that can run, running first, and every thread the scheduler knows. *)
Definition alive s : list (Thread F) :=
  match current (sched s) with Some t => [t] | None => [] end ++ run_queue (sched s).
Definition threads s : list (Thread F) := alive s ++ zombies (sched s).

Definition thread_ids s : list ThreadId := thread_id <$> threads s.

Definition BOOT : ThreadId := 1.

Record sys_ok s : Prop := {
  so_current : is_Some (current (sched s));
  so_ids : NoDup (thread_ids s);
  so_below t : t ∈ threads s → (1 ≤ thread_id t < next_thread_id s)%N;
  so_boot : BOOT ∈ (thread_id <$> alive s);
  so_exiting : exiting s = false;
  so_zombies : (length (zombies (sched s)) ≤ 1)%nat;
  so_frames t : t ∈ run_queue (sched s) → is_Some (stack_pointer t);
  so_space t : current (sched s) = Some t → cr3 s = default p4 (address_space t);
  so_entry t top : current (sched s) = Some t → kernel_entry_stack_top t = Some top → rsp0 s = Some top;
  so_clock : last_yield_tick s = ticks s;
  so_mapped t p : t ∈ threads s → thread_id t ≠ BOOT → p ∈ pages_of t → p ∈ mapped s;
  so_disjoint t t' p : t ∈ threads s → t' ∈ threads s → thread_id t ≠ BOOT → thread_id t' ≠ BOOT →
    p ∈ pages_of t → p ∈ pages_of t' → thread_id t = thread_id t';
  so_sessions id ss : sessions (ipc s) !! id = Some ss →
    owner ss ∈ thread_ids s ∧ ∀ u, server ss = Some u → u ∈ thread_ids s;
}.

Lemma init_ok now : sys_ok (init p4 now).
Proof.
  split; try done; cbn.
  - apply NoDup_singleton.
  - intros t ->%list_elem_of_singleton. cbn. lia.
  - by left.
  - lia.
  - intros t. set_solver.
  - intros t [= <-]. done.
  - intros t top [= <-]. done.
  - intros t p ->%list_elem_of_singleton. done.
  - intros t t' p ->%list_elem_of_singleton. done.
Qed.

(** ** Reaping *)

(** The system once the zombies are gone. *)
Definition reaped s : Sys F :=
  mkSys (mkScheduler (run_queue (sched s)) (current (sched s)) []) (exiting s) (next_thread_id s) (next_stack_slot s)
    (next_kernel_entry_stack_slot s) (mapped s ∖ list_to_set (zombies (sched s) ≫= pages_of)) (cr3 s) (rsp0 s)
    (ticks s) (last_yield_tick s)
    (foldl (λ i z, reap_sessions_for (thread_id z) i) (ipc s) (zombies (sched s))).

Lemma reap_loop_Some zs s :
  NoDup (zs ≫= pages_of) → (∀ p, p ∈ (zs ≫= pages_of) → p ∈ mapped s) →
  reap_loop zs s = Some (mkSys (mkScheduler (run_queue (sched s)) (current (sched s)) []) (exiting s)
    (next_thread_id s) (next_stack_slot s) (next_kernel_entry_stack_slot s)
    (mapped s ∖ list_to_set (zs ≫= pages_of)) (cr3 s) (rsp0 s) (ticks s) (last_yield_tick s)
    (foldl (λ i z, reap_sessions_for (thread_id z) i) (ipc s) zs)).
Proof.
  revert s. induction zs as [|z zs IH]; intros s Hnd Hin; cbn [reap_loop].
  - unfold set_sched. cbn. do 2 f_equal. set_solver.
  - cbn [mbind list_bind] in Hnd, Hin. apply NoDup_app in Hnd as (Hz & Hd & Hnd).
    change (mapped (set_ipc _ s)) with (mapped s). fold (pages_of z).
    rewrite unmap_pages_Some; [|done|intros p Hp; apply Hin, elem_of_app; by left]. cbn [mbind option_bind].
    rewrite IH; [|done|].
    + cbn. do 2 f_equal. rewrite list_to_set_app_L. set_solver.
    + cbn. intros p Hp. apply elem_of_difference. split; [apply Hin, elem_of_app; by right|].
      rewrite elem_of_list_to_set. intros Hpz. by apply (Hd p).
Qed.

Lemma foldl_reap_lookup (zs : list (Thread F)) i id ss :
  sessions (foldl (λ i z, reap_sessions_for (thread_id z) i) i zs) !! id = Some ss ↔
  sessions i !! id = Some ss ∧ (owner ss ∉ (thread_id <$> zs)) ∧ (∀ u, server ss = Some u → u ∉ (thread_id <$> zs)).
Proof.
  revert i. induction zs as [|z zs IH]; intros i; cbn [foldl].
  - split; [intros Hs; split_and!; [done|set_solver..]|by intros (? & _)].
  - rewrite IH, reap_lookup, fmap_cons. setoid_rewrite not_elem_of_cons. split.
    + intros ((Hs & Ho & Hv) & Ho' & Hv'). split_and!; [done..|]. intros u Hu. split; [congruence|auto].
    + intros (Hs & (Ho & Ho') & Hv). split_and!; [done..| |done|intros u Hu; by apply Hv].
      intros Hu. by apply Hv in Hu as [? _].
Qed.

Lemma zombies_pages s :
  sys_ok s → NoDup (zombies (sched s) ≫= pages_of) ∧ ∀ p, p ∈ (zombies (sched s) ≫= pages_of) → p ∈ mapped s.
Proof.
  intros Hok. assert (∀ z, z ∈ zombies (sched s) → thread_id z ≠ BOOT) as Hboot.
  { intros z Hz Hb. pose proof (so_ids s Hok) as Hnd. unfold thread_ids, threads in Hnd.
    rewrite fmap_app, NoDup_app in Hnd. destruct Hnd as (_ & Hd & _).
    apply (Hd BOOT); [apply so_boot; done|]. rewrite <-Hb. by apply list_elem_of_fmap_2. }
  assert (∀ p, p ∈ (zombies (sched s) ≫= pages_of) → p ∈ mapped s) as Hin.
  { intros p (z & Hp & Hz)%list_elem_of_bind. apply (so_mapped s Hok z); [|by apply Hboot|done].
    unfold threads. apply elem_of_app. by right. }
  split; [|done]. pose proof (so_zombies s Hok) as Hlen. destruct (zombies (sched s)) as [|z [|]]; [constructor| |cbn in Hlen; lia].
  cbn. rewrite app_nil_r. apply stack_pages_NoDup.
Qed.

Lemma reap_zombies_reaped s : sys_ok s → reap_zombies s = Some (reaped s).
Proof. intros [Hnd Hin]%zombies_pages. by apply reap_loop_Some. Qed.

Lemma alive_reaped s : alive (reaped s) = alive s.
Proof. done. Qed.

Lemma threads_reaped s : threads (reaped s) = alive s.
Proof. unfold threads. cbn. by rewrite app_nil_r. Qed.

Lemma reaped_ok s : sys_ok s → sys_ok (reaped s).
Proof.
  intros Hok. assert (∀ t, t ∈ alive s → t ∈ threads s) as Hsub by (unfold threads; set_solver).
  pose proof (so_ids s Hok) as Hnd. unfold thread_ids, threads in Hnd. rewrite fmap_app, NoDup_app in Hnd.
  destruct Hnd as (Hnda & Hd & _). split; unfold thread_ids; rewrite ?threads_reaped.
  - apply (so_current s Hok).
  - done.
  - intros t Ht. apply (so_below s Hok). auto.
  - apply (so_boot s Hok).
  - apply (so_exiting s Hok).
  - cbn. lia.
  - apply (so_frames s Hok).
  - apply (so_space s Hok).
  - apply (so_entry s Hok).
  - apply (so_clock s Hok).
  - intros t p Ht Hb Hp. cbn. apply elem_of_difference. split; [by eapply (so_mapped s Hok); eauto|].
    rewrite elem_of_list_to_set. intros (z & Hpz & Hz)%list_elem_of_bind.
    assert (z ∈ threads s) as Hzt by (unfold threads; set_solver).
    apply (Hd (thread_id t)); [by apply list_elem_of_fmap_2|].
    rewrite (so_disjoint s Hok t z p); [by apply list_elem_of_fmap_2|auto|done|done| |done|done].
    intros Hzb. apply (Hd BOOT); [apply (so_boot s Hok)|]. rewrite <-Hzb. by apply list_elem_of_fmap_2.
  - intros t t' p Ht Ht'. apply (so_disjoint s Hok); auto.
  - intros id ss (Hs & Ho & Hv)%foldl_reap_lookup. apply (so_sessions s Hok) in Hs as [Hso Hsv].
    unfold thread_ids, threads in Hso, Hsv. rewrite fmap_app in Hso. setoid_rewrite fmap_app in Hsv.
    split; [set_solver|]. intros u Hu. specialize (Hsv u Hu). specialize (Hv u Hu). set_solver.
Qed.

(** ** Switching *)

Lemma pages_of_set_frame f t : pages_of (set_frame f t) = pages_of t.
Proof. done. Qed.

(** The system after the switch from [out] to [next]. *)
Definition switched (frame : F) (next : Thread F) (queue : list (Thread F)) (out : Thread F) s : Sys F :=
  let out := set_frame (Some frame) out in
  mkSys (if exiting s then mkScheduler queue (Some next) [out] else mkScheduler (queue ++ [out]) (Some next) [])
    false (next_thread_id s) (next_stack_slot s) (next_kernel_entry_stack_slot s) (mapped s)
    (default p4 (address_space next))
    (match kernel_entry_stack_top next with Some top => Some top | None => rsp0 s end)
    (ticks s) (last_yield_tick s) (ipc s).

Lemma elem_of_switched frame next queue out s t :
  t ∈ threads (switched frame next queue out s) ↔ t = next ∨ t ∈ queue ∨ t = set_frame (Some frame) out.
Proof. unfold threads, alive, switched. cbn. destruct (exiting s); cbn; set_solver. Qed.

Lemma thread_ids_switched frame next queue out s :
  thread_ids (switched frame next queue out s) = thread_id next :: (thread_id <$> queue) ++ [thread_id out].
Proof.
  unfold thread_ids, threads, alive, switched. cbn. destruct (exiting s); cbn; rewrite !fmap_app; [done|].
  by rewrite app_nil_r.
Qed.

Lemma switched_ok frame next queue out s :
  sys_ok (set_exiting false s) → zombies (sched s) = [] → run_queue (sched s) = next :: queue →
  current (sched s) = Some out → (exiting s = true → thread_id out ≠ BOOT) →
  sys_ok (switched frame next queue out s).
Proof.
  intros Hok Hz Hq Hc He.
  assert (threads (set_exiting false s) = out :: next :: queue) as Hth.
  { unfold threads, alive. cbn. by rewrite Hc, Hq, Hz, app_nil_r. }
  assert (thread_ids (set_exiting false s) = thread_id out :: thread_id next :: (thread_id <$> queue)) as Hids
    by (unfold thread_ids; by rewrite Hth).
  assert (∀ t, t ∈ threads (switched frame next queue out s) → ∃ t', t' ∈ threads (set_exiting false s) ∧
    thread_id t' = thread_id t ∧ guard_page_base t' = guard_page_base t) as Hold.
  { intros t. rewrite elem_of_switched, Hth. intros [-> | [Hin | ->]]; [exists next|exists t|exists out];
      (split; [set_solver|done]). }
  assert (∀ u, u ∈ thread_ids (set_exiting false s) → u ∈ thread_ids (switched frame next queue out s)) as Hkeep.
  { intros u. rewrite thread_ids_switched, Hids. set_solver. }
  pose proof (so_ids _ Hok) as Hnd. rewrite Hids in Hnd.
  split.
  - unfold switched. cbn. destruct (exiting s); by eexists.
  - rewrite thread_ids_switched. rewrite (Permutation_app_comm _ [thread_id out]). cbn.
    rewrite (Permutation_swap (thread_id out)). done.
  - intros t (t' & Ht' & <- & _)%Hold. apply (so_below _ Hok t' Ht').
  - pose proof (so_boot _ Hok) as Hb. unfold alive in Hb |- *. cbn in Hb. rewrite Hc, Hq in Hb. cbn in Hb.
    unfold switched. cbn. destruct (exiting s); cbn; [specialize (He eq_refl); set_solver|].
    rewrite fmap_app. set_solver.
  - done.
  - unfold switched. cbn. destruct (exiting s); cbn; lia.
  - intros t Ht. pose proof (so_frames _ Hok) as Hf. cbn in Hf. rewrite Hq in Hf.
    unfold switched in Ht. cbn in Ht. destruct (exiting s); cbn in Ht; [apply Hf; by right|].
    apply elem_of_app in Ht as [Ht|Ht]; [apply Hf; by right|]. apply list_elem_of_singleton in Ht. subst t. by eexists.
  - intros t. unfold switched. cbn. intros Ht. by destruct (exiting s); injection Ht as <-.
  - intros t top. unfold switched. cbn. intros Ht Htop.
    destruct (exiting s); injection Ht as <-; by rewrite Htop.
  - apply (so_clock _ Hok).
  - intros t p (t' & Ht' & Hid & Hg)%Hold Hb Hp. apply (so_mapped _ Hok t'); [done|congruence|].
    unfold pages_of in *. by rewrite Hg.
  - intros t t' p (u & Hu & Hid & Hg)%Hold (u' & Hu' & Hid' & Hg')%Hold Hb Hb' Hp Hp'.
    rewrite <-Hid, <-Hid'. apply (so_disjoint _ Hok u u' p); try done; [congruence..| |]; unfold pages_of in *; by rewrite ?Hg, ?Hg'.
  - intros id ss Hs. apply (so_sessions _ Hok) in Hs as [? Hsv]. auto.
Qed.

(** A switch never panics, keeps the invariant, and resumes a saved frame. *)
Lemma reschedule_ok frame s :
  sys_ok (set_exiting false (record_yield s)) → (exiting s = true → current_thread_id s ≠ Some BOOT) →
  (run_queue (sched s) = [] ∧ exiting s = false ∧
   reschedule p4 frame s = Some (Some frame, reaped (record_yield s)) ∧ sys_ok (reaped (record_yield s))) ∨
  (∃ next queue out fr, run_queue (sched s) = next :: queue ∧ current (sched s) = Some out ∧
   stack_pointer next = Some fr ∧
   reschedule p4 frame s = Some (Some fr, switched frame next queue out (reaped (record_yield s))) ∧
   sys_ok (switched frame next queue out (reaped (record_yield s)))).
Proof.
  intros Hok He. pose proof Hok as Hok1.
  assert (reap_zombies (record_yield s) = Some (reaped (record_yield s))) as Hreap.
  { apply zombies_pages in Hok1 as [Hnd Hin]. by apply reap_loop_Some. }
  apply reaped_ok in Hok1. unfold reschedule. rewrite Hreap. cbn [mbind option_bind].
  change (run_queue (sched (reaped (record_yield s)))) with (run_queue (sched s)).
  destruct (so_current _ Hok) as [out Hout]. cbn in Hout.
  destruct (run_queue (sched s)) as [|next queue] eqn:Hq.
  - left. assert (exiting s = false) as Hex.
    { destruct (exiting s); [|done]. exfalso. apply He; [done|]. pose proof (so_boot _ Hok) as Hb.
      unfold alive in Hb. cbn in Hb. rewrite Hout, Hq in Hb. cbn in Hb. apply list_elem_of_singleton in Hb.
      unfold current_thread_id. by rewrite Hout, Hb. }
    split_and!; try done. destruct Hok1. split; done.
  - right. destruct (so_frames _ Hok next) as [fr Hfr]; [cbn; rewrite Hq; by left|].
    exists next, queue, out, fr. split_and!; try done.
    + cbn. rewrite Hout. cbn. unfold switched. cbn. rewrite Hfr. destruct (exiting s) eqn:Hx; [done|].
      unfold set_sched, load_space, reaped, record_yield. cbn. by rewrite Hx.
    + apply switched_ok; try done. cbn. intros Hex. specialize (He Hex). unfold current_thread_id in He.
      rewrite Hout in He. cbn in He. congruence.
Qed.

(** ** New threads *)

(** [s'] is [s] with the fresh thread [t] at the end of the run queue. *)
Record spawned (entry : F) s t s' : Prop := {
  sp_sched : sched s' = mkScheduler (run_queue (sched s) ++ [t]) (current (sched s)) (zombies (sched s));
  sp_exiting : exiting s' = exiting s;
  sp_id : thread_id t = next_thread_id s;
  sp_next : next_thread_id s' = ((next_thread_id s + 1) mod (u64_max + 1))%N;
  sp_frame : stack_pointer t = Some entry;
  sp_fresh p : p ∈ pages_of t → p ∉ mapped s;
  sp_mapped p : p ∈ mapped s ∨ p ∈ pages_of t → p ∈ mapped s';
  sp_same : cr3 s' = cr3 s ∧ rsp0 s' = rsp0 s ∧ ticks s' = ticks s ∧ last_yield_tick s' = last_yield_tick s ∧
    ipc s' = ipc s;
}.

Lemma thread_new_Some entry s t s1 :
  thread_new entry s = Some (t, s1) →
  ∀ cap extra space top,
  spawned entry s (mkThread (thread_id t) (guard_page_base t) (stack_pointer t) cap extra space top)
    (push_thread (mkThread (thread_id t) (guard_page_base t) (stack_pointer t) cap extra space top) s1).
Proof.
  unfold thread_new. intros ([[guard top0] m] & Hm & Hret)%bind_Some cap extra space top. injection Hret as <- <-.
  apply map_guarded_stack_Some in Hm as (-> & -> & Hfresh).
  split; try done. intros p. cbn. unfold pages_of. cbn. rewrite elem_of_union, elem_of_list_to_set. by intros [?|?]; auto.
Qed.

Lemma alloc_kernel_entry_stack_Some s top s1 t entry s0 :
  alloc_kernel_entry_stack s = Some (top, s1) → spawned entry s0 t (push_thread t s) → spawned entry s0 t (push_thread t s1).
Proof.
  unfold alloc_kernel_entry_stack. intros ([[guard top0] m] & Hm & Hret)%bind_Some. injection Hret as <- <-.
  apply map_guarded_stack_Some in Hm as (-> & -> & Hfresh). intros []. split; try done.
  intros p Hp. cbn. apply elem_of_union. right. by apply sp_mapped0.
Qed.

Lemma spawned_ok entry s t s' :
  sys_ok s → (next_thread_id s < u64_max)%N → spawned entry s t s' → sys_ok s'.
Proof.
  intros Hok Hn [Hsched Hex Hid Hnext Hfr Hfresh Hmap (Hcr & Hrsp & Htk & Hly & Hipc)].
  assert (((next_thread_id s + 1) mod (u64_max + 1))%N = (next_thread_id s + 1)%N) as Hmod by (apply N.mod_small; lia).
  rewrite Hmod in Hnext.
  assert (∀ u, u ∈ threads s' ↔ u ∈ threads s ∨ u = t) as Hth.
  { intros u. unfold threads, alive. rewrite Hsched. cbn. set_solver. }
  assert (∀ u, u ∈ thread_ids s' ↔ u ∈ thread_ids s ∨ u = thread_id t) as Hids.
  { intros u. unfold thread_ids. rewrite !list_elem_of_fmap. setoid_rewrite Hth. naive_solver. }
  assert (thread_id t ∉ thread_ids s) as Hnew.
  { rewrite Hid. intros (u & Hu & Hin)%list_elem_of_fmap. apply (so_below s Hok) in Hin. lia. }
  assert (1 ≤ next_thread_id s)%N as Hpos.
  { destruct (so_current s Hok) as [c Hc]. enough (1 ≤ thread_id c < next_thread_id s)%N by lia.
    apply (so_below s Hok). unfold threads, alive. rewrite Hc. by left. }
  split.
  - rewrite Hsched. apply (so_current s Hok).
  - assert (thread_ids s' ≡ₚ thread_id t :: thread_ids s) as ->.
    { unfold thread_ids, threads, alive. rewrite Hsched. cbn. rewrite <-!app_assoc, !fmap_app. cbn.
      by rewrite !Permutation_middle. }
    apply NoDup_cons. split; [done|apply (so_ids s Hok)].
  - intros u [Hu|Hu]%Hth; rewrite Hnext; [apply (so_below s Hok) in Hu; lia|]. rewrite Hu, Hid. lia.
  - pose proof (so_boot s Hok) as Hb. unfold alive in *. rewrite Hsched. cbn. rewrite app_assoc, fmap_app.
    apply elem_of_app. by left.
  - rewrite Hex. apply (so_exiting s Hok).
  - rewrite Hsched. apply (so_zombies s Hok).
  - rewrite Hsched. cbn. intros u [Hu|Hu]%elem_of_app; [by apply (so_frames s Hok)|].
    apply list_elem_of_singleton in Hu. subst u. rewrite Hfr. by eexists.
  - rewrite Hsched, Hcr. apply (so_space s Hok).
  - rewrite Hsched, Hrsp. apply (so_entry s Hok).
  - rewrite Hly, Htk. apply (so_clock s Hok).
  - intros u p [Hu|Hu]%Hth Hb Hp; apply Hmap; [left; by eapply (so_mapped s Hok)|]. subst u. by right.
  - intros u u' p [Hu|Hu]%Hth [Hu'|Hu']%Hth Hb Hb' Hp Hp'.
    + by apply (so_disjoint s Hok u u' p).
    + subst u'. exfalso. apply (Hfresh p Hp'). by eapply (so_mapped s Hok).
    + subst u. exfalso. apply (Hfresh p Hp). by eapply (so_mapped s Hok).
    + by subst.
  - intros id ss. rewrite Hipc. intros [Ho Hv]%(so_sessions s Hok). split; [apply Hids; by left|].
    intros u Hu. apply Hids. left. by apply Hv.
Qed.

(** ** The tables of the IPC side change *)

Definition event_thread (e : Event) : ThreadId :=
  match e with
  | EvLock t _ | EvUnlock t _ | EvSend t _ _ | EvRecv t _ _ | EvOpen t _ _ | EvAccept t _ _
  | EvSessionSend t _ _ | EvSessionRecv t _ _ | EvSessionLock t _ | EvSessionUnlock t _ | EvReap t => t
  end.

(** Parties of sessions are old ones or the thread of the event. *)
Lemma ipc_step_parties i e i' id ss :
  ipc_step i e i' → sessions i' !! id = Some ss →
  (owner ss = event_thread e ∨ ∃ ss0, sessions i !! id = Some ss0 ∧ owner ss0 = owner ss) ∧
  (∀ u, server ss = Some u → u = event_thread e ∨ ∃ ss0, sessions i !! id = Some ss0 ∧ server ss0 = Some u).
Proof.
  intros Hstep. destruct Hstep as [t p s s' H|t p s s' H|t p b s s' H|t p b s s' H|t p id' s s' H
    |t p id' s s' H|t id' b s s' H|t id' b s s' H|t id' s s' H|t id' s s' H|t s].
  - revert H. unfold begin_send. repeat case_match; intros [= <-]. cbn. eauto 10.
  - revert H. unfold end_send. repeat case_match; intros [= <-]. cbn. eauto 10.
  - revert H. unfold send. repeat case_match; intros [= <-]. cbn. eauto 10.
  - revert H. unfold try_recv. repeat case_match; intros [= -> <-]. cbn. eauto 10.
  - revert H. unfold session_open. case_decide; [done|]. case_decide; [done|]. intros [= <- <-]. cbn.
    rewrite lookup_insert. case_decide; [intros [= <-]; cbn; split; [by left|done]|]. eauto 10.
  - revert H. unfold session_accept. repeat case_match; try done. intros [= <- <-]. cbn.
    rewrite lookup_alter. case_decide as Hid; [|eauto 10]. intros (ss0 & Hs & Hss)%fmap_Some. subst ss. cbn.
    split; [subst; eauto|]. intros u [= <-]. by left.
  - revert H. unfold session_send. case_match eqn:Hp; [|done]. destruct p as [ss0 r]. case_decide; [|done].
    intros [= <-]. apply participant_Some in Hp as [Hs _]. cbn. rewrite lookup_insert.
    case_decide as Hid; [|eauto 10]. intros Heq. injection Heq as Heq. subst. destruct r; cbn; eauto 10.
  - revert H. unfold session_try_recv. case_match eqn:Hp; [|done]. destruct p as [ss0 r]. case_match; [done|].
    intros [= -> <-]. apply participant_Some in Hp as [Hs _]. cbn. rewrite lookup_insert.
    case_decide as Hid; [|eauto 10]. intros Heq. injection Heq as Heq. subst. destruct r; cbn; eauto 10.
  - revert H. unfold session_begin_send. case_match eqn:Hp; [|done]. destruct p as [ss0 r]. case_match; [done|].
    intros [= <-]. apply participant_Some in Hp as [Hs _]. cbn. rewrite lookup_insert.
    case_decide as Hid; [|eauto 10]. intros Heq. injection Heq as Heq. subst. destruct r; cbn; eauto 10.
  - revert H. unfold session_end_send. case_match eqn:Hp; [|done]. destruct p as [ss0 r].
    intros [= <-]. apply participant_Some in Hp as [Hs _]. cbn. rewrite lookup_insert.
    case_decide as Hid; [|eauto 10]. intros Heq. injection Heq as Heq. subst. destruct r; cbn; eauto 10.
  - intros [Hs _]%reap_lookup. eauto 10.
Qed.

Lemma set_ipc_ok s e i :
  sys_ok s → event_thread e ∈ thread_ids s → ipc_step (ipc s) e i → sys_ok (set_ipc (λ _, i) s).
Proof.
  intros Hok Ht Hstep. pose proof (so_sessions s Hok) as Hss. destruct Hok. split; try done.
  intros id ss Hs. cbn in Hs. change (thread_ids (set_ipc _ s)) with (thread_ids s).
  destruct (ipc_step_parties _ _ _ _ _ Hstep Hs) as [Ho Hv]. split.
  - destruct Ho as [->|(ss0 & Hs0 & Heq)]; [congruence|]. rewrite <-Heq. by destruct (Hss id ss0 Hs0) as [? _].
  - intros u Hu. destruct (Hv u Hu) as [->|(ss0 & Hs0 & Hu0)]; [done|]. destruct (Hss id ss0 Hs0) as [_ ?]. auto.
Qed.
End spec.
