(* ===== verification/X86Kernel.v ===== *)
(** * X86Kernel: the system calls of the x86_64 kernel and its runs

    Model of [kernel/src/syscall.rs] and [kernel/src/entropy.rs] over the IPC
    tables of [X86Ipc] and the scheduler of [X86Sched].  Every gate is an interrupt
    gate, so a handler runs to completion or to its next [yield_now]; a thread in
    the middle of a blocking call is suspended with the attempt it will retry. *)

From S2P Require Import Prelude Capability X86Caps X86Ipc X86Sched.

Definition SYS_YIELD : N := 0.
Definition SYS_WRITE : N := 1.
Definition SYS_IPC_SEND : N := 2.
Definition SYS_IPC_RECV : N := 3.
Definition SYS_PORT_IN : N := 4.
Definition SYS_PORT_OUT : N := 5.
Definition SYS_TICKS : N := 6.
Definition SYS_IPC_SEND_LOCK : N := 7.
Definition SYS_IPC_SEND_UNLOCK : N := 8.
Definition SYS_RANDOM : N := 9.
Definition SYS_IPC_SESSION_OPEN : N := 10.
Definition SYS_IPC_SESSION_ACCEPT : N := 11.
Definition SYS_IPC_SESSION_SEND : N := 12.
Definition SYS_IPC_SESSION_RECV : N := 13.
Definition SYS_IPC_SESSION_SEND_LOCK : N := 14.
Definition SYS_IPC_SESSION_SEND_UNLOCK : N := 15.
Definition SYS_CAP_IS_REVOKED : N := 16.

(** ** Blocking calls *)

(** The loop a suspended thread is in. *)
Inductive Call :=
  | CallYield
  | CallSend (port byte : N)
  | CallLock (port : N)
  | CallSessionSend (id : SessionId) (caller : ThreadId) (byte : N)
  | CallSessionLock (id : SessionId) (caller : ThreadId).

(** What a thread does when resumed: its own code, or the next attempt of a call. *)
Inductive Frame := User | InCall (c : Call).

(** What a call does besides its result. *)
Inductive Effect :=
  | Ipc_event (e : Event)
  | Serial_write (byte : N)
  | Port_read (port width : N)
  | Port_write (port width value : N)
  | Random_read
  | Revocation_query (fingerprint : N).

Inductive Outcome := Return (value : N) | Block (c : Call).

(** The hardware the calls read: input ports, and the RDRAND instruction with its
    successive results. *)
Record Hardware := mkHardware {
  port_value : N → N → N;
  rdrand_available : bool;
  rdrand : nat → option N;
}.

(** ** Hardware randomness *)

Definition MAX_RETRIES : nat := 10.

Fixpoint rdrand_loop (hw : Hardware) (i fuel : nat) : option N :=
  match fuel with
  | O => None
  | S fuel => match rdrand hw i with Some value => Some value | None => rdrand_loop hw (S i) fuel end
  end.

Definition entropy_read_u64 (hw : Hardware) : option N :=
  if rdrand_available hw then rdrand_loop hw 0 MAX_RETRIES else None.

(** ** The kernel *)

Record Kernel := mkKernel {
  sys : Sys Frame;
  revocations : RevocationList;
}.

Definition on_ipc (f : Ipc → Ipc) (k : Kernel) : Kernel := mkKernel (set_ipc f (sys k)) (revocations k).
Definition with_ipc (i : Ipc) (k : Kernel) : Kernel := on_ipc (λ _, i) k.

Section syscalls.
Context `{SignatureScheme} (demo_key : SigningKey).

Definition authorized_for (k : Kernel) (resource : string) : bool :=
  authorized_for_resource demo_key (revocations k) (current_capability (sys k))
    (current_extra_capabilities (sys k)) (ticks (sys k)) resource.

Definition authorized_for_port (k : Kernel) (port : N) : bool := authorized_for k (port_resource port).
Definition authorized_for_random (k : Kernel) : bool := authorized_for k random_resource.

(** The event of a call that succeeded, by the current thread. *)
Definition by_current (k : Kernel) (e : ThreadId → Event) : list Effect :=
  match current_thread_id (sys k) with Some t => [Ipc_event (e t)] | None => [] end.

(** One attempt of a blocking call: its result, or the call to retry. *)
Definition attempt (c : Call) (k : Kernel) : Outcome * Kernel * list Effect :=
  let finish (r : Attempt bool * Ipc) (e : ThreadId → Event) :=
    match r with
    | (Done true, i) => (Return 0, with_ipc i k, by_current k e)
    | (Done false, i) => (Return u64_max, with_ipc i k, [])
    | (Yield, i) => (Block c, with_ipc i k, [])
    end in
  match c with
  | CallYield => (Return 0, k, [])
  | CallSend port byte => finish (send port byte (ipc (sys k))) (λ t, EvSend t port byte)
  | CallLock port => finish (begin_send port (ipc (sys k))) (λ t, EvLock t port)
  | CallSessionSend id caller byte =>
      finish (session_send id caller byte (ipc (sys k))) (λ _, EvSessionSend caller id byte)
  | CallSessionLock id caller =>
      finish (session_begin_send id caller (ipc (sys k))) (λ _, EvSessionLock caller id)
  end.

Definition denied (k : Kernel) : Outcome * Kernel * list Effect := (Return u64_max, k, []).

Definition dispatch (hw : Hardware) (num arg1 arg2 arg3 : N) (k : Kernel) : Outcome * Kernel * list Effect :=
  let i := ipc (sys k) in
  if decide (num = SYS_YIELD) then (Block CallYield, k, [])
  else if decide (num = SYS_WRITE) then (Return 0, k, [Serial_write (as_u8 arg1)])
  else if decide (num = SYS_IPC_SEND) then
    if negb (is_valid_port arg1) then denied k else
    if negb (authorized_for_port k arg1) then denied k else
    attempt (CallSend arg1 (as_u8 arg2)) k
  else if decide (num = SYS_IPC_SEND_LOCK) then
    if negb (authorized_for_port k arg1) then denied k else attempt (CallLock arg1) k
  else if decide (num = SYS_IPC_SEND_UNLOCK) then
    if negb (authorized_for_port k arg1) then denied k else
    match end_send arg1 i with
    | (true, i) => (Return 0, with_ipc i k, by_current k (λ t, EvUnlock t arg1))
    | (false, i) => (Return u64_max, with_ipc i k, [])
    end
  else if decide (num = SYS_IPC_RECV) then
    if is_empty arg1 i then denied k else
    if negb (authorized_for_port k arg1) then denied k else
    match try_recv arg1 i with
    | (Some byte, i) => (Return byte, with_ipc i k, by_current k (λ t, EvRecv t arg1 byte))
    | (None, i) => (Return u64_max, with_ipc i k, [])
    end
  else if decide (num = SYS_TICKS) then (Return (ticks (sys k)), k, [])
  else if decide (num = SYS_PORT_IN) then
    let port := as_u16 arg1 in
    let width := as_u8 arg2 in
    if negb (authorized_for_ioport demo_key (revocations k) (current_capability (sys k)) port width (ticks (sys k)))
    then denied k else
    if decide (width = 1)%N then (Return (as_u8 (port_value hw port width)), k, [Port_read port width])
    else if decide (width = 2)%N then (Return (as_u16 (port_value hw port width)), k, [Port_read port width])
    else if decide (width = 4)%N then (Return (port_value hw port width mod 4294967296)%N, k, [Port_read port width])
    else denied k
  else if decide (num = SYS_PORT_OUT) then
    let port := as_u16 arg1 in
    let width := as_u8 arg2 in
    if negb (authorized_for_ioport demo_key (revocations k) (current_capability (sys k)) port width (ticks (sys k)))
    then denied k else
    if decide (width = 1)%N then (Return 0, k, [Port_write port width (as_u8 arg3)])
    else if decide (width = 2)%N then (Return 0, k, [Port_write port width (as_u16 arg3)])
    else if decide (width = 4)%N then (Return 0, k, [Port_write port width (arg3 mod 4294967296)%N])
    else denied k
  else if decide (num = SYS_RANDOM) then
    if negb (authorized_for_random k) then denied k else
    (Return (default u64_max (entropy_read_u64 hw)), k, [Random_read])
  else if decide (num = SYS_IPC_SESSION_OPEN) then
    if negb (is_valid_port arg1) || negb (authorized_for_port k arg1) then denied k else
    match current_thread_id (sys k) with
    | None => denied k
    | Some caller =>
        match session_open arg1 caller i with
        | (Some id, i) => (Return id, with_ipc i k, [Ipc_event (EvOpen caller arg1 id)])
        | (None, i) => (Return u64_max, with_ipc i k, [])
        end
    end
  else if decide (num = SYS_IPC_SESSION_ACCEPT) then
    if negb (session_pending arg1 i) then denied k else
    if negb (authorized_for_port k arg1) then denied k else
    match current_thread_id (sys k) with
    | None => denied k
    | Some caller =>
        match session_accept arg1 caller i with
        | (Some id, i) => (Return id, with_ipc i k, [Ipc_event (EvAccept caller arg1 id)])
        | (None, i) => (Return u64_max, with_ipc i k, [])
        end
    end
  else if decide (num = SYS_IPC_SESSION_SEND) then
    match current_thread_id (sys k) with
    | None => denied k
    | Some caller => attempt (CallSessionSend arg1 caller (as_u8 arg2)) k
    end
  else if decide (num = SYS_IPC_SESSION_RECV) then
    match current_thread_id (sys k) with
    | None => denied k
    | Some caller =>
        match session_try_recv arg1 caller i with
        | (Some byte, i) => (Return byte, with_ipc i k, [Ipc_event (EvSessionRecv caller arg1 byte)])
        | (None, i) => (Return u64_max, with_ipc i k, [])
        end
    end
  else if decide (num = SYS_IPC_SESSION_SEND_LOCK) then
    match current_thread_id (sys k) with
    | None => denied k
    | Some caller => attempt (CallSessionLock arg1 caller) k
    end
  else if decide (num = SYS_IPC_SESSION_SEND_UNLOCK) then
    match current_thread_id (sys k) with
    | None => denied k
    | Some caller =>
        match session_end_send arg1 caller i with
        | (true, i) => (Return 0, with_ipc i k, [Ipc_event (EvSessionUnlock caller arg1)])
        | (false, i) => (Return u64_max, with_ipc i k, [])
        end
    end
  else if decide (num = SYS_CAP_IS_REVOKED) then
    if negb (authorized_for k revocation_query_resource) then denied k else
    (Return (if is_fingerprint_revoked (revocations k) arg1 then 1 else 0), k, [Revocation_query arg1])
  else denied k.
End syscalls.
