(* ===== verification/X86Machine.v ===== *)
(** * X86Machine: runs of the x86_64 kernel

    The kernel with the thread it runs, as a machine whose actions are the system
    calls of the running thread, the retry of a suspended call, timer interrupts,
    thread exits, and the kernel-internal operations (spawning, granting,
    revoking).  Everything a run can reach satisfies the invariant below. *)

From S2P Require Import Prelude Capability X86Caps X86Ipc X86IpcSpec X86Sched X86SchedSpec X86Kernel.

(** The [spawn*] functions of the scheduler, with their arguments. *)
Inductive Spawn :=
  | SpawnThread (cap : option CapabilityToken)
  | SpawnSpace (space : N)
  | SpawnProcess (space : N) (cap : option CapabilityToken)
  | SpawnProcessWith (space : N) (cap : option CapabilityToken) (extra : list CapabilityToken)
  | SpawnShared.

Definition do_spawn (sp : Spawn) (s : Sys Frame) : option (Sys Frame) :=
  match sp with
  | SpawnThread cap => spawn_with_capability User cap s
  | SpawnSpace space => spawn_with_address_space User space s
  | SpawnProcess space cap => spawn_ring3_process_with_capability User space cap s
  | SpawnProcessWith space cap extra => spawn_ring3_process_with_capabilities User space cap extra s
  | SpawnShared => spawn_ring3_shared User s
  end.

Inductive Action :=
  | ACall (hw : Hardware) (num arg1 arg2 arg3 : N)
  | ARetry
  | ATick
  | AExit
  | ASpawn (sp : Spawn)
  | AGrant (token : CapabilityToken)
  | ARevoke (token : CapabilityToken).

Record Machine := mkMachine { kern : Kernel; running : Frame }.

Definition current_thread (m : Machine) : option (Thread Frame) := current (sched (sys (kern m))).
Definition ipc_of (m : Machine) : Ipc := ipc (sys (kern m)).

Section machine.
Context `{SIG : SignatureScheme} (demo_key : SigningKey) (p4 : N).

Definition boot (now : N) : Machine := mkMachine (mkKernel (init p4 now) revocations_new) User.

(** The sessions of the zombies are reaped first in every switch. *)
Definition reaps (s : Sys Frame) : list Effect := (λ z, Ipc_event (EvReap (thread_id z))) <$> zombies (sched s).

Definition resume (r : option (option Frame * Sys Frame)) (k : Kernel) (effs : list Effect)
    : option (Machine * list Effect) :=
  '(o, s) ← r;
  frame ← o;
  Some (mkMachine (mkKernel s (revocations k)) frame, effs).

(** A call's outcome: back to the thread, or suspended. *)
Definition finish (r : Outcome * Kernel * list Effect) : option (Machine * list Effect) :=
  match r with
  | (Return _, k, effs) => Some (mkMachine k User, effs)
  | (Block c, k, effs) => resume (reschedule p4 (InCall c) (sys k)) k (effs ++ reaps (sys k))
  end.

(** [None] is a panic. *)
Definition exec (a : Action) (m : Machine) : option (Machine * list Effect) :=
  let k := kern m in
  match a with
  | ACall hw num arg1 arg2 arg3 => finish (dispatch demo_key hw num arg1 arg2 arg3 k)
  | ARetry =>
      match running m with
      | InCall c => finish (attempt c k)
      | User => Some (m, [])
      end
  | ATick => resume (on_timer_tick p4 User (sys k)) k (reaps (sys k))
  | AExit => resume (exit_current_thread p4 User (sys k)) k (reaps (sys k))
  | ASpawn sp => s ← do_spawn sp (sys k); Some (mkMachine (mkKernel s (revocations k)) User, [])
  | AGrant token =>
      Some (mkMachine (mkKernel (grant_current_extra_capability token (sys k)) (revocations k)) User, [])
  | ARevoke token => Some (mkMachine (mkKernel (sys k) (revoke (revocations k) token)) User, [])
  end.

(** A thread runs its own code, or is in a call; the boot thread never exits. *)
Definition enabled (a : Action) (m : Machine) : bool :=
  match running m, a with
  | InCall _, ARetry => true
  | InCall _, _ | User, ARetry => false
  | User, AExit => bool_decide (current_thread_id (sys (kern m)) ≠ Some BOOT)
  | User, _ => true
  end.

(** A run, with the machine before each action and what the action did. *)
Inductive run : list (Machine * list Effect) → Machine → Prop :=
  | run_boot now : run [] (boot now)
  | run_action tr m a m' effs :
      run tr m → enabled a m = true → exec a m = Some (m', effs) → run (tr ++ [(m, effs)]) m'.

Definition event_of (eff : Effect) : option Event := match eff with Ipc_event e => Some e | _ => None end.
Definition effects (tr : list (Machine * list Effect)) : list Effect := concat (snd <$> tr).
Definition events (tr : list (Machine * list Effect)) : Trace := omap event_of (effects tr).

Lemma events_snoc tr m effs : events (tr ++ [(m, effs)]) = events tr ++ omap event_of effs.
Proof. unfold events, effects. rewrite fmap_app, concat_app, omap_app. cbn. by rewrite app_nil_r. Qed.

(** ** Calls *)

Lemma with_ipc_same k : with_ipc (ipc (sys k)) k = k.
Proof. by destruct k as [[] ?]. Qed.

(** A suspended session call remembers its own thread. *)
Definition call_caller (c : Call) (t : ThreadId) : Prop :=
  match c with CallSessionSend _ u _ | CallSessionLock _ u => u = t | _ => True end.

(** What the current thread must be authorized for to make a call wait, and to
    have an effect; [A p] says that a call that may have waited may use port [p].
    Within a session it is the tables that say who takes part. *)
Definition call_permitted (A : N → Prop) (c : Call) : Prop :=
  match c with CallSend p _ | CallLock p => A p | _ => True end.

Definition ioport_permitted (k : Kernel) (port width : N) : Prop :=
  authorized_for_ioport demo_key (revocations k) (current_capability (sys k)) port width (ticks (sys k)) = true.

Definition permitted (A : N → Prop) (k : Kernel) (eff : Effect) : Prop :=
  match eff with
  | Ipc_event (EvLock _ p | EvSend _ p _) => A p
  | Ipc_event (EvUnlock _ p | EvRecv _ p _ | EvOpen _ p _ | EvAccept _ p _) => authorized_for_port demo_key k p = true
  | Ipc_event (EvReap _) => False
  | Ipc_event _ | Serial_write _ => True
  | Port_read port width | Port_write port width _ => ioport_permitted k port width
  | Random_read => authorized_for demo_key k random_resource = true
  | Revocation_query _ => authorized_for demo_key k revocation_query_resource = true
  end.

(** A call by [t] makes no change, or one event of the tables under its own name;
    a call that waits has done nothing yet. *)
Record call_ok (A : N → Prop) (t : ThreadId) (k : Kernel) (o : Outcome) (k' : Kernel) (effs : list Effect) : Prop := {
  co_change : (k' = k ∧ omap event_of effs = []) ∨
    ∃ e i, k' = with_ipc i k ∧ effs = [Ipc_event e] ∧ event_thread e = t ∧ ipc_step (ipc (sys k)) e i;
  co_permitted : Forall (permitted A k) effs;
  co_block c : o = Block c → k' = k ∧ effs = [] ∧ call_caller c t ∧ call_permitted A c;
}.

Lemma quiet_ok A t k v effs :
  omap event_of effs = [] → Forall (permitted A k) effs → call_ok A t k (Return v) k effs.
Proof. intros He Hp. split; [by left|done|done]. Qed.

Lemma denied_ok A t k v : call_ok A t k (Return v) k [].
Proof. by apply quiet_ok. Qed.

Lemma failed_ok A t k v i : i = ipc (sys k) → call_ok A t k (Return v) (with_ipc i k) [].
Proof. intros ->. rewrite with_ipc_same. apply denied_ok. Qed.

Lemma waiting_ok A t k c i :
  i = ipc (sys k) → call_caller c t → call_permitted A c → call_ok A t k (Block c) (with_ipc i k) [].
Proof. intros -> Hc Hp. rewrite with_ipc_same. split; [by left|done|]. intros c' [= <-]. done. Qed.

Lemma event_ok A t k v e i :
  event_thread e = t → ipc_step (ipc (sys k)) e i → permitted A k (Ipc_event e) →
  call_ok A t k (Return v) (with_ipc i k) [Ipc_event e].
Proof. intros He Hs Hp. split; [right; by exists e, i|by constructor|done]. Qed.

Section current.
Context (t : ThreadId) (k : Kernel) (Ht : current_thread_id (sys k) = Some t).

Lemma by_current_is e : by_current k e = [Ipc_event (e t)].
Proof. unfold by_current. by rewrite Ht. Qed.

Lemma attempt_ok A c o k' effs :
  call_caller c t → call_permitted A c → attempt c k = (o, k', effs) → call_ok A t k o k' effs.
Proof.
  intros Hc Hp. unfold attempt. destruct c as [|p b|p|id u b|id u]; cbn in Hc; subst; rewrite ?by_current_is.
  - intros [= <- <- <-]. apply denied_ok.
  - destruct (send p b (ipc (sys k))) as [[[]|] i] eqn:E; intros [= <- <- <-].
    + apply event_ok; [done|by apply step_send|done].
    + apply failed_ok. unfold send in E. by repeat case_match; simplify_eq.
    + apply waiting_ok; [|done..]. unfold send in E. by repeat case_match; simplify_eq.
  - destruct (begin_send p (ipc (sys k))) as [[[]|] i] eqn:E; intros [= <- <- <-].
    + apply event_ok; [done|by apply step_lock|done].
    + apply failed_ok. unfold begin_send in E. by repeat case_match; simplify_eq.
    + apply waiting_ok; [|done..]. unfold begin_send in E. by repeat case_match; simplify_eq.
  - destruct (session_send id t b (ipc (sys k))) as [[[]|] i] eqn:E; intros [= <- <- <-].
    + apply event_ok; [done|by apply step_session_send|done].
    + apply failed_ok. unfold session_send in E. by repeat case_match; simplify_eq.
    + apply waiting_ok; [|done..]. unfold session_send in E. by repeat case_match; simplify_eq.
  - destruct (session_begin_send id t (ipc (sys k))) as [[[]|] i] eqn:E; intros [= <- <- <-].
    + apply event_ok; [done|by apply step_session_lock|done].
    + apply failed_ok. unfold session_begin_send in E. by repeat case_match; simplify_eq.
    + apply waiting_ok; [|done..]. unfold session_begin_send in E. by repeat case_match; simplify_eq.
Qed.

Ltac gate b H := destruct b eqn:H; cbn [negb orb]; [|by intros [= <- <- <-]; apply denied_ok].

Lemma dispatch_ok hw num arg1 arg2 arg3 o k' effs :
  dispatch demo_key hw num arg1 arg2 arg3 k = (o, k', effs) →
  call_ok (λ p, authorized_for_port demo_key k p = true) t k o k' effs.
Proof.
  unfold dispatch, denied. rewrite ?Ht, !by_current_is.
  repeat (match goal with |- (if decide (num = _) then _ else _) = _ → _ => case_decide end;
    [|try (by intros [= <- <- <-]; apply denied_ok)]).
  - intros [= <- <- <-]. split; [by left|done|]. intros c [= <-]. done.
  - intros [= <- <- <-]. by apply quiet_ok; [|repeat constructor].
  - gate (is_valid_port arg1) Hv. gate (authorized_for_port demo_key k arg1) Ha. by apply attempt_ok.
  - gate (authorized_for_port demo_key k arg1) Ha. by apply attempt_ok.
  - gate (authorized_for_port demo_key k arg1) Ha.
    destruct (end_send arg1 (ipc (sys k))) as [[] i] eqn:E; intros [= <- <- <-].
    + apply event_ok; [done|by apply step_unlock|done].
    + apply failed_ok. unfold end_send in E. by repeat case_match; simplify_eq.
  - destruct (is_empty arg1 (ipc (sys k))); [by intros [= <- <- <-]; apply denied_ok|].
    gate (authorized_for_port demo_key k arg1) Ha.
    destruct (try_recv arg1 (ipc (sys k))) as [[b|] i] eqn:E; intros [= <- <- <-].
    + rewrite by_current_is. apply event_ok; [done|by apply step_recv|done].
    + apply failed_ok. unfold try_recv in E. by repeat case_match; simplify_eq.
  - intros [= <- <- <-]. apply denied_ok.
  - gate (authorized_for_ioport demo_key (revocations k) (current_capability (sys k)) (as_u16 arg1) (as_u8 arg2)
      (ticks (sys k))) Ha.
    repeat case_decide; intros [= <- <- <-]; (by apply denied_ok) || (apply quiet_ok; [done|by repeat constructor]).
  - gate (authorized_for_ioport demo_key (revocations k) (current_capability (sys k)) (as_u16 arg1) (as_u8 arg2)
      (ticks (sys k))) Ha.
    repeat case_decide; intros [= <- <- <-]; (by apply denied_ok) || (apply quiet_ok; [done|by repeat constructor]).
  - gate (authorized_for_random demo_key k) Ha. intros [= <- <- <-]. apply quiet_ok; [done|by repeat constructor].
  - gate (is_valid_port arg1) Hv. gate (authorized_for_port demo_key k arg1) Ha.
    destruct (session_open arg1 t (ipc (sys k))) as [[id|] i] eqn:E; intros [= <- <- <-].
    + apply event_ok; [done|by apply step_open|done].
    + apply failed_ok. unfold session_open in E. by repeat case_match; simplify_eq.
  - gate (session_pending arg1 (ipc (sys k))) Hv. gate (authorized_for_port demo_key k arg1) Ha.
    destruct (session_accept arg1 t (ipc (sys k))) as [[id|] i] eqn:E; intros [= <- <- <-].
    + apply event_ok; [done|by apply step_accept|done].
    + apply failed_ok. unfold session_accept in E. by repeat case_match; simplify_eq.
  - by apply attempt_ok.
  - destruct (session_try_recv arg1 t (ipc (sys k))) as [[b|] i] eqn:E; intros [= <- <- <-].
    + apply event_ok; [done|by apply step_session_recv|done].
    + apply failed_ok. unfold session_try_recv in E. by repeat case_match; simplify_eq.
  - by apply attempt_ok.
  - destruct (session_end_send arg1 t (ipc (sys k))) as [[] i] eqn:E; intros [= <- <- <-].
    + apply event_ok; [done|by apply step_session_unlock|done].
    + apply failed_ok. unfold session_end_send in E. by repeat case_match; simplify_eq.
  - gate (authorized_for demo_key k revocation_query_resource) Ha. intros [= <- <- <-].
    apply quiet_ok; [done|by repeat constructor].
Qed.
End current.

(** ** Suspended calls

    [J t c] holds of every thread [t] that is in call [c], running or queued. *)
Definition frames_hold (J : ThreadId → Call → Prop) (s : Sys Frame) (f : Frame) : Prop :=
  (∀ c t, f = InCall c → current_thread_id s = Some t → J t c) ∧
  (∀ t c, t ∈ run_queue (sched s) → stack_pointer t = Some (InCall c) → J (thread_id t) c).

Lemma frames_hold_impl (J J' : ThreadId → Call → Prop) s f :
  (∀ t c, J t c → J' t c) → frames_hold J s f → frames_hold J' s f.
Proof. intros HJ [H1 H2]. split; eauto. Qed.

Lemma reaps_run s :
  ipc_run (ipc s) (omap event_of (reaps s))
    (foldl (λ i z, reap_sessions_for (thread_id z) i) (ipc s) (zombies (sched s))).
Proof.
  unfold reaps. generalize (ipc s). induction (zombies (sched s)) as [|z zs IH]; intros i; [constructor|].
  cbn. apply (ipc_run_app _ [EvReap (thread_id z)] (reap_sessions_for (thread_id z) i)); [|apply IH].
  apply (run_snoc i [] i); constructor.
Qed.

(** A switch goes through, and keeps what holds of the suspended calls. *)
Lemma resume_ok J f s k effs :
  sys_ok p4 (set_exiting false (record_yield s)) → (exiting s = true → current_thread_id s ≠ Some BOOT) → frames_hold J s f →
  ∃ m', resume (reschedule p4 f s) k effs = Some (m', effs) ∧
    sys_ok p4 (sys (kern m')) ∧ frames_hold J (sys (kern m')) (running m') ∧
    ipc_run (ipc s) (omap event_of (reaps s)) (ipc_of m') ∧
    next_thread_id (sys (kern m')) = next_thread_id s ∧ revocations (kern m') = revocations k.
Proof.
  intros Hok He [HJ1 HJ2].
  destruct (reschedule_ok p4 f s Hok He)
    as [(Hq & Hex & -> & Hok')|(next & queue & out & fr & Hq & Hc & Hfr & -> & Hok')]; cbn.
  - eexists. split; [done|]. cbn. split; [done|]. split; [|split; [apply reaps_run|done]].
    split; [done|]. cbn. rewrite Hq. set_solver.
  - eexists. split; [done|]. cbn. split; [done|]. split; [|split; [apply reaps_run|done]].
    split; cbn.
    + intros c t -> Ht. assert (t = thread_id next) as ->.
      { unfold current_thread_id in Ht. cbn in Ht. destruct (exiting s); cbn in Ht; congruence. }
      apply HJ2; [rewrite Hq; by left|done].
    + intros t c Ht Hs. assert (t ∈ queue ∨ t = set_frame (Some f) out) as [Hin | ->].
      { revert Ht. destruct (exiting s); cbn; [by left|]. rewrite elem_of_app, list_elem_of_singleton. done. }
      * apply HJ2; [rewrite Hq; by right|done].
      * cbn in Hs |- *. injection Hs as ->. apply HJ1; [done|]. unfold current_thread_id. by rewrite Hc.
Qed.

(** ** The invariant of the machine *)

Record machine_ok (m : Machine) : Prop := {
  mo_sys : sys_ok p4 (sys (kern m));
  mo_calls : frames_hold (λ t c, call_caller c t) (sys (kern m)) (running m);
}.

Lemma boot_ok now : machine_ok (boot now).
Proof. split; [apply init_ok|]. split; [done|]. cbn. set_solver. Qed.

Lemma current_known (s : Sys Frame) t : current_thread_id s = Some t → t ∈ thread_ids s.
Proof.
  unfold current_thread_id, thread_ids, threads, alive. intros (c & -> & ->)%fmap_Some. by left.
Qed.

(** What one action guarantees. *)
Record action_ok (m : Machine) (m' : Machine) (effs : list Effect) : Prop := {
  ao_machine : machine_ok m';
  ao_ipc : ipc_run (ipc_of m) (omap event_of effs) (ipc_of m');
  ao_threads : (next_thread_id (sys (kern m')) ≤ next_thread_id (sys (kern m)) + 1)%N;
  ao_opened : (length (opened (omap event_of effs)) ≤ 1)%nat;
}.

Lemma reaps_opened s : opened (omap event_of (reaps s)) = [].
Proof. unfold reaps. by induction (zombies (sched s)). Qed.

Lemma finish_ok A m o k' effs t :
  machine_ok m → current_thread_id (sys (kern m)) = Some t → call_ok A t (kern m) o k' effs →
  ∃ m' effs', finish (o, k', effs) = Some (m', effs') ∧ action_ok m m' effs'.
Proof.
  intros [Hok Hcalls] Ht [Hch Hper Hbl]. destruct o as [v|c].
  - exists (mkMachine k' User), effs. split; [done|]. destruct Hch as [[-> Hev]|(e & i & -> & -> & He & Hs)].
    + split; cbn; [split; [done|]|rewrite Hev; constructor|lia|rewrite Hev; cbn; lia].
      destruct Hcalls as [_ ?]. by split.
    + split; cbn.
      * split; cbn; [eapply set_ipc_ok; [done| |done]; rewrite He; by apply current_known|].
        destruct Hcalls as [_ ?]. by split.
      * by apply (run_snoc _ [] (ipc_of m)); [constructor|].
      * lia.
      * unfold opened. cbn. destruct e; cbn; lia.
  - destruct (Hbl c eq_refl) as (-> & -> & Hcc & _).
    destruct (resume_ok (λ t c, call_caller c t) (InCall c) (sys (kern m)) (kern m) (reaps (sys (kern m))))
      as (m' & Hm' & H1 & H2 & H3 & H4 & _).
    { destruct Hok. split; done. }
    { by rewrite (so_exiting _ _ Hok). }
    { split; [intros c' t' [= <-] Ht'; congruence|apply Hcalls]. }
    exists m', (reaps (sys (kern m))). split; [done|]. split; [done|done|lia|]. rewrite reaps_opened. cbn. lia.
Qed.

Lemma switch_action m s f :
  machine_ok m → running m = User →
  sys_ok p4 (set_exiting false (record_yield s)) → (exiting s = true → current_thread_id s ≠ Some BOOT) →
  run_queue (sched s) = run_queue (sched (sys (kern m))) → zombies (sched s) = zombies (sched (sys (kern m))) →
  ipc s = ipc_of m → next_thread_id s = next_thread_id (sys (kern m)) → f = User →
  ∃ m', resume (reschedule p4 f s) (kern m) (reaps (sys (kern m))) = Some (m', reaps (sys (kern m))) ∧
    action_ok m m' (reaps (sys (kern m))).
Proof.
  intros [Hok Hcalls] Hrun Hs He Hq Hz Hi Hn ->.
  destruct (resume_ok (λ t c, call_caller c t) User s (kern m) (reaps (sys (kern m))))
    as (m' & Hm' & H1 & H2 & H3 & H4 & _); [done|done|split; [done|]|].
  { rewrite Hq. apply Hcalls. }
  exists m'. split; [done|].
  replace (reaps s) with (reaps (sys (kern m))) in H3 by (unfold reaps; by rewrite Hz).
  rewrite Hi in H3. split; [done|done|lia|]. rewrite reaps_opened. cbn. lia.
Qed.

Lemma do_spawn_spawned sp s s' : do_spawn sp s = Some s' → ∃ t, spawned User s t s'.
Proof.
  destruct sp; cbn; unfold spawn_with_capability, spawn_with_address_space, spawn_ring3_process_with_capability,
    spawn_ring3_process_with_capabilities, spawn_ring3_shared; intros ([t s1] & Hnew & H)%bind_Some;
    pose proof (thread_new_Some _ _ _ _ Hnew) as Hsp.
  - injection H as <-. eauto.
  - injection H as <-. eauto.
  - apply bind_Some in H as ([top s2] & Hal & H). injection H as <-. eexists. eapply alloc_kernel_entry_stack_Some; eauto.
  - apply bind_Some in H as ([top s2] & Hal & H). injection H as <-. eexists. eapply alloc_kernel_entry_stack_Some; eauto.
  - apply bind_Some in H as ([top s2] & Hal & H). injection H as <-. eexists. eapply alloc_kernel_entry_stack_Some; eauto.
Qed.

Lemma grant_ok token (s : Sys Frame) : sys_ok p4 s → sys_ok p4 (grant_current_extra_capability token s).
Proof.
  intros Hok. destruct (so_current _ _ Hok) as [c Hc].
  set (c' := mkThread (thread_id c) (guard_page_base c) (stack_pointer c) (capability c)
    (extra_capabilities c ++ [token]) (address_space c) (kernel_entry_stack_top c)).
  assert (threads (grant_current_extra_capability token s) = c' :: run_queue (sched s) ++ zombies (sched s)) as Hth.
  { unfold threads, alive. cbn. by rewrite Hc. }
  assert (threads s = c :: run_queue (sched s) ++ zombies (sched s)) as Hth0.
  { unfold threads, alive. by rewrite Hc. }
  assert (thread_ids (grant_current_extra_capability token s) = thread_ids s) as Hids.
  { unfold thread_ids. by rewrite Hth, Hth0. }
  assert (∀ t, t ∈ threads (grant_current_extra_capability token s) →
    ∃ t', t' ∈ threads s ∧ thread_id t' = thread_id t ∧ pages_of t' = pages_of t) as Hold.
  { intros t. rewrite Hth, Hth0. intros [->|Hin]%elem_of_cons; [exists c|exists t]; (split; [set_solver|done]). }
  destruct Hok. split; rewrite ?Hids; try done.
  - cbn. rewrite Hc. by eexists.
  - intros t (t' & Ht' & <- & _)%Hold. by apply so_below.
  - unfold alive in *. cbn. rewrite Hc in *. done.
  - intros t. cbn. rewrite Hc. intros [= <-]. cbn. by apply so_space.
  - intros t top. cbn. rewrite Hc. intros [= <-]. cbn. by apply so_entry.
  - intros t p (t' & Ht' & <- & <-)%Hold. by apply so_mapped.
  - intros t u p (t' & Ht' & <- & <-)%Hold (u' & Hu' & <- & <-)%Hold. by apply so_disjoint.
Qed.

(** ** Every enabled action *)

Definition spawns (a : Action) : bool := match a with ASpawn _ => true | _ => false end.

Lemma tick_clock m : machine_ok m →
  on_timer_tick p4 User (sys (kern m)) = reschedule p4 User (advance_ticks (sys (kern m))).
Proof.
  intros [Hok _]. unfold on_timer_tick. rewrite decide_False; [done|]. cbn. rewrite (so_clock _ _ Hok).
  unfold saturating_sub, WATCHDOG_THRESHOLD_TICKS. pose proof (N.Div0.mod_le (ticks (sys (kern m)) + 1) (u64_max + 1)). lia.
Qed.

Lemma exec_ok a m :
  machine_ok m → enabled a m = true → (next_thread_id (sys (kern m)) < u64_max)%N →
  match exec a m with
  | Some (m', effs) => action_ok m m' effs
  | None => spawns a = true
  end.
Proof.
  intros Hok Hen Hn. destruct (so_current _ _ (mo_sys _ Hok)) as [c Hc].
  assert (current_thread_id (sys (kern m)) = Some (thread_id c)) as Ht by (unfold current_thread_id; by rewrite Hc).
  unfold enabled in Hen. destruct a as [hw num a1 a2 a3| | | |sp|token|token]; cbn [exec].
  - destruct (running m) eqn:Hr; [|done].
    destruct (dispatch demo_key hw num a1 a2 a3 (kern m)) as [[o k'] effs] eqn:E.
    destruct (finish_ok (λ p, authorized_for_port demo_key (kern m) p = true) m o k' effs (thread_id c)) as (m' & effs' & -> & Hact); [done|done|by eapply dispatch_ok|done].
  - destruct (running m) eqn:Hr; [done|].
    destruct (attempt c0 (kern m)) as [[o k'] effs] eqn:E.
    destruct (finish_ok (λ _, True) m o k' effs (thread_id c)) as (m' & effs' & -> & Hact); [done|done| |done].
    apply (attempt_ok _ _ Ht _ c0); [by apply (proj1 (mo_calls _ Hok) c0 (thread_id c))|by destruct c0|done].
  - destruct (running m) eqn:Hr; [|done]. rewrite tick_clock by done.
    destruct (switch_action m (advance_ticks (sys (kern m))) User) as (m' & -> & Hact); try done.
    + destruct (mo_sys _ Hok). by split.
    + cbn. by rewrite (so_exiting _ _ (mo_sys _ Hok)).
  - destruct (running m) eqn:Hr; [|done]. rewrite bool_decide_eq_true in Hen. unfold exit_current_thread.
    destruct (switch_action m (set_exiting true (sys (kern m))) User) as (m' & -> & Hact); try done.
    destruct (mo_sys _ Hok). by split.
  - destruct (do_spawn sp (sys (kern m))) as [s'|] eqn:E; [|done]. cbn.
    apply do_spawn_spawned in E as [t Hsp]. pose proof Hsp as [Hsched _ Hid Hnext Hfr _ _ (_ & _ & _ & _ & Hipc)].
    split; cbn.
    + split; cbn; [by eapply spawned_ok; [apply Hok|..]|]. split; [done|]. rewrite Hsched. cbn.
      intros u c' [Hu|Hu]%elem_of_app Hs; [by apply (mo_calls _ Hok)|]. apply list_elem_of_singleton in Hu. subst u. congruence.
    + unfold ipc_of. cbn. rewrite Hipc. constructor.
    + rewrite Hnext. apply N.Div0.mod_le.
    + lia.
  - split; cbn; [|constructor|lia|lia]. split; cbn; [apply grant_ok, Hok|]. split; [done|]. cbn. apply (mo_calls _ Hok).
  - split; cbn; [|constructor|lia|lia]. split; cbn; [apply Hok|]. split; [done|]. apply (mo_calls _ Hok).
Qed.

(** ** Runs *)

(** Fewer than [u64::MAX - 2] actions: no counter wraps around. *)
Definition short_run (tr : list (Machine * list Effect)) : Prop := (len tr + 3 < u64_max)%N.

Record run_ok (tr : list (Machine * list Effect)) (m : Machine) : Prop := {
  ro_machine : machine_ok m;
  ro_ipc : ipc_run ipc_new (events tr) (ipc_of m);
  ro_threads : (next_thread_id (sys (kern m)) ≤ 2 + len tr)%N;
  ro_opened : (length (opened (events tr)) ≤ length tr)%nat;
}.

Lemma short_run_app tr tr' : short_run (tr ++ tr') → short_run tr.
Proof. unfold short_run, len. rewrite length_app. lia. Qed.

Lemma run_is_ok tr m : run tr m → short_run tr → run_ok tr m.
Proof.
  induction 1 as [now|tr m a m' effs Hrun IH Hen Hex]; intros Hsh.
  - split; [apply boot_ok|constructor|cbn; lia|cbn; lia].
  - assert (short_run tr) as Hsh' by (by eapply short_run_app). destruct (IH Hsh') as [Hok Hipc Hth Hop].
    assert (next_thread_id (sys (kern m)) < u64_max)%N as Hn by (unfold short_run in Hsh'; lia).
    pose proof (exec_ok a m Hok Hen Hn) as Hact. rewrite Hex in Hact. destruct Hact as [Hok' Hipc' Hth' Hop'].
    split; rewrite ?events_snoc; [done|by eapply ipc_run_app| |].
    + rewrite len_snoc. lia.
    + rewrite opened_app, length_app, length_snoc. lia.
Qed.

Lemma run_few_sessions tr m : run_ok tr m → short_run tr → few_sessions (events tr).
Proof. intros [_ _ _ Hop] Hsh. unfold few_sessions, short_run, len in *. lia. Qed.
End machine.
