(* ===== verification/X86Behaviour.v ===== *)
(** * X86Behaviour: what runs of the x86_64 kernel guarantee

    Mediation by capabilities, isolation of sessions, whole messages on ports,
    bounded waiting for the processor, and clean-up after exits, for every
    sequence of calls, interrupts, exits and spawns. *)

From S2P Require Import Prelude Capability X86Caps X86Ipc X86IpcSpec X86Sched X86SchedSpec X86Kernel X86Machine.

Section behaviour.
Context `{SIG : SignatureScheme} (demo_key : SigningKey) (p4 : N).

Abbreviation run := (run demo_key p4).
Abbreviation exec := (exec demo_key p4).

(** The running thread [t] carries a token that names [resource], is not revoked,
    and verifies now. *)
Definition authority (m : Machine) (t : ThreadId) (resource : string) : Prop :=
  ∃ th tok, current_thread m = Some th ∧ thread_id th = t ∧
    tok ∈ carried (capability th) (extra_capabilities th) ∧
    is_revoked (revocations (kern m)) tok = false ∧
    verify tok (verifying_key demo_key) resource (ticks (sys (kern m))) = Ok ().

Lemma authorized_authority m t resource :
  current_thread_id (sys (kern m)) = Some t →
  authorized_for demo_key (kern m) resource = true ↔ authority m t resource.
Proof.
  unfold current_thread_id. intros (th & Hth & ->)%fmap_Some. unfold authorized_for, authority, current_thread.
  rewrite authorized_for_resource_iff. unfold current_capability, current_extra_capabilities. rewrite Hth. cbn. split.
  - intros (tok & Hin & Hr & Hv). exists th, tok. done.
  - intros (th' & tok & [= <-] & _ & Hin & Hr & Hv). exists tok. done.
Qed.

(** ** Where authority comes from *)

(** [t] had the authority for port [p] at some step of the run. *)
Definition had_authority (tr : list (Machine * list Effect)) (t : ThreadId) (p : N) : Prop :=
  ∃ m0 effs0, (m0, effs0) ∈ tr ∧ authority m0 t (port_resource p).

Lemma had_authority_app tr tr' t p : had_authority tr t p → had_authority (tr ++ tr') t p.
Proof. intros (m0 & e0 & Hin & Ha). exists m0, e0. split; [set_solver|done]. Qed.

(** Waiting calls had it. *)
Definition justified (tr : list (Machine * list Effect)) (t : ThreadId) (c : Call) : Prop :=
  call_permitted (had_authority tr t) c.

Lemma justified_app tr tr' t c : justified tr t c → justified (tr ++ tr') t c.
Proof. unfold justified. destruct c; cbn; try done; apply had_authority_app. Qed.

(** What may be behind an effect of a step from [m]. *)
Definition mediated (tr : list (Machine * list Effect)) (m : Machine) (eff : Effect) : Prop :=
  match eff with
  | Ipc_event (EvReap t) => t ∈ (thread_id <$> zombies (sched (sys (kern m))))
  | _ => ∃ t, current_thread_id (sys (kern m)) = Some t ∧
      match eff with Ipc_event e => event_thread e = t | _ => True end ∧
      permitted demo_key (had_authority tr t) (kern m) eff
  end.

Lemma reaps_mediated tr m eff : eff ∈ reaps (sys (kern m)) → mediated tr m eff.
Proof. intros (z & -> & Hz)%list_elem_of_fmap. cbn. by apply list_elem_of_fmap_2. Qed.

Lemma call_mediated tr A t m o k' effs :
  current_thread_id (sys (kern m)) = Some t → call_ok demo_key A t (kern m) o k' effs →
  (∀ p, A p → had_authority tr t p) → ∀ eff, eff ∈ effs → mediated tr m eff.
Proof.
  intros Ht [Hch Hper _] HA eff Hin. rewrite Forall_forall in Hper. specialize (Hper eff Hin).
  assert (match eff with Ipc_event e => event_thread e = t | _ => True end) as Hev.
  { destruct Hch as [[_ Hnone]|(e & i & _ & -> & He & _)].
    - destruct eff as [e| | | | |]; try done. exfalso. assert (e ∈ omap event_of effs) as Hbad.
      { apply list_elem_of_omap. eexists. by split. }
      rewrite Hnone in Hbad. set_solver.
    - apply list_elem_of_singleton in Hin. by subst eff. }
  destruct eff as [[]| | | | |]; cbn in *; try done; eauto 10.
Qed.

(** One action: its effects are mediated, and the calls left waiting justified. *)
Lemma action_mediated tr a m m' effs :
  machine_ok p4 m → enabled a m = true → exec a m = Some (m', effs) →
  frames_hold (justified tr) (sys (kern m)) (running m) →
  let tr' := tr ++ [(m, effs)] in
  (∀ eff, eff ∈ effs → mediated tr' m eff) ∧ frames_hold (justified tr') (sys (kern m')) (running m').
Proof.
  intros Hok Hen Hex HJ tr'. destruct (so_current _ _ (mo_sys _ _ Hok)) as [c Hc].
  assert (current_thread_id (sys (kern m)) = Some (thread_id c)) as Ht by (unfold current_thread_id; by rewrite Hc).
  assert (frames_hold (justified tr') (sys (kern m)) (running m)) as HJ'.
  { eapply frames_hold_impl; [|done]. intros t c0. apply justified_app. }
  assert (∀ p, authorized_for_port demo_key (kern m) p = true → had_authority tr' (thread_id c) p) as Hnow.
  { intros p Hp. exists m, effs. split; [unfold tr'; set_solver|]. by apply authorized_authority. }
  assert (∀ A o k' es, call_ok demo_key A (thread_id c) (kern m) o k' es →
    (∀ p, A p → had_authority tr' (thread_id c) p) → finish p4 (o, k', es) = Some (m', effs) →
    (∀ eff, eff ∈ effs → mediated tr' m eff) ∧ frames_hold (justified tr') (sys (kern m')) (running m')) as Hcall.
  { intros A o k' es Hco HA Hfin. destruct o as [v|cl].
    - injection Hfin as <- <-. split; [by eapply call_mediated|]. cbn. split; [done|].
      destruct Hco as [[[-> _]|(e & i & -> & _)] _ _]; apply HJ'.
    - destruct (co_block _ _ _ _ _ _ _ Hco cl eq_refl) as (-> & -> & Hcc & Hcp).
      destruct (resume_ok p4 (justified tr') (InCall cl) (sys (kern m)) (kern m) (reaps (sys (kern m))))
        as (m1 & Hm1 & _ & H2 & _).
      { destruct (mo_sys _ _ Hok). by split. }
      { by rewrite (so_exiting _ _ (mo_sys _ _ Hok)). }
      { split; [|apply HJ']. intros cl' t' [= <-] Ht'. rewrite Ht in Ht'. injection Ht' as <-.
        unfold justified. destruct cl; cbn in *; try done; by apply HA. }
      cbn in Hfin. rewrite Hm1 in Hfin. injection Hfin as <- <-. split; [apply reaps_mediated|done]. }
  unfold enabled in Hen. destruct a as [hw num a1 a2 a3| | | |sp|token|token]; cbn [X86Machine.exec] in Hex.
  - destruct (dispatch demo_key hw num a1 a2 a3 (kern m)) as [[o k'] es] eqn:E.
    eapply Hcall; [by eapply dispatch_ok|done|done].
  - destruct (running m) as [|cl] eqn:Hr; [done|]. destruct (attempt cl (kern m)) as [[o k'] es] eqn:E.
    eapply (Hcall (had_authority tr' (thread_id c))); [|done|done].
    apply (attempt_ok demo_key _ _ Ht _ cl); [|by apply (proj1 HJ' cl (thread_id c))|done].
    by apply (proj1 (mo_calls _ _ Hok) cl (thread_id c)).
  - assert (running m = User) as Hr by (by destruct (running m)). rewrite tick_clock in Hex by done.
    destruct (resume_ok p4 (justified tr') User (advance_ticks (sys (kern m))) (kern m) (reaps (sys (kern m))))
      as (m1 & Hm1 & _ & H2 & _).
    { destruct (mo_sys _ _ Hok). by split. }
    { cbn. by rewrite (so_exiting _ _ (mo_sys _ _ Hok)). }
    { split; [done|apply HJ']. }
    rewrite Hm1 in Hex. injection Hex as <- <-. split; [apply reaps_mediated|done].
  - assert (running m = User) as Hr by (by destruct (running m)). rewrite Hr, bool_decide_eq_true in Hen.
    unfold exit_current_thread in Hex.
    destruct (resume_ok p4 (justified tr') User (set_exiting true (sys (kern m))) (kern m) (reaps (sys (kern m))))
      as (m1 & Hm1 & _ & H2 & _).
    { destruct (mo_sys _ _ Hok). by split. }
    { done. }
    { split; [done|apply HJ']. }
    rewrite Hm1 in Hex. injection Hex as <- <-. split; [apply reaps_mediated|done].
  - apply bind_Some in Hex as (s' & Hsp & Hret). injection Hret as <- <-. split; [set_solver|]. cbn. split; [done|].
    apply do_spawn_spawned in Hsp as [t [Hsched _ Hid Hnext Hfr _ _ _]]. rewrite Hsched. cbn.
    intros u c' [Hu|Hu]%elem_of_app Hs; [by apply HJ'|]. apply list_elem_of_singleton in Hu. subst u. congruence.
  - injection Hex as <- <-. split; [set_solver|]. cbn. split; [done|]. apply HJ'.
  - injection Hex as <- <-. split; [set_solver|]. cbn. split; [done|]. apply HJ'.
Qed.

Lemma run_mediated tr m :
  run tr m → short_run tr →
  frames_hold (justified tr) (sys (kern m)) (running m) ∧
  ∀ i m1 effs eff, tr !! i = Some (m1, effs) → eff ∈ effs → mediated (take (S i) tr) m1 eff.
Proof.
  induction 1 as [now|tr m a m' effs Hrun IH Hen Hex]; intros Hsh.
  - split; [|done]. split; [done|]. cbn. set_solver.
  - apply short_run_app in Hsh. destruct (IH Hsh) as [HJ Hmed].
    destruct (run_is_ok demo_key p4 tr m Hrun Hsh) as [Hok _ _ _].
    destruct (action_mediated tr a m m' effs Hok Hen Hex HJ) as [Heffs HJ']. split; [done|].
    intros i m1 es eff Hi Hin. destruct (decide (i < length tr)%nat) as [Hlt|Hge].
    + rewrite lookup_app_l in Hi by done. rewrite take_app_le by lia. by eapply Hmed.
    + assert (i = length tr) as ->.
      { apply lookup_lt_Some in Hi. rewrite length_snoc in Hi. lia. }
      rewrite list_lookup_middle in Hi by done. injection Hi as <- <-.
      rewrite take_ge by (rewrite length_snoc; lia). by apply Heffs.
Qed.

(** ** Prefixes of runs *)

Lemma run_prefix tr tr' m : run (tr ++ tr') m → ∃ m', run tr m'.
Proof.
  revert m. induction tr' as [|x tr' IH] using rev_ind; intros m Hrun; [rewrite app_nil_r in Hrun; eauto|].
  rewrite app_assoc in Hrun. inversion Hrun as [? Hnil|tr0 m0 a m1 effs Hr Hen Hex Heq]; subst.
  - by destruct (tr ++ tr').
  - apply app_inj_tail in Heq as [-> _]. eauto.
Qed.

Lemma elem_of_events tr e :
  e ∈ events tr ↔ ∃ j m0 effs0, tr !! j = Some (m0, effs0) ∧ Ipc_event e ∈ effs0.
Proof.
  transitivity (∃ x, x ∈ tr ∧ Ipc_event e ∈ x.2).
  - induction tr as [|[m0 es] tr IH]; [set_solver|].
    assert (events ((m0, es) :: tr) = omap event_of es ++ events tr) as ->.
    { unfold events, effects. cbn. by rewrite omap_app. }
    rewrite elem_of_app, IH, list_elem_of_omap. setoid_rewrite elem_of_cons. split.
    + intros [(eff & Hin & He)|(x & Hx & Hin)]; [|by exists x; auto].
      destruct eff; try done. cbn in He. injection He as ->. exists (m0, es). auto.
    + intros (x & [-> | Hx] & Hin); [left; by exists (Ipc_event e)|right; eauto].
  - split.
    + intros ([m0 es] & (j & Hj)%list_elem_of_lookup & Hin). eauto.
    + intros (j & m0 & es & Hj%list_elem_of_lookup_2 & Hin). by exists (m0, es).
Qed.

(** A user of a session opened or accepted it, with the authority for its port. *)
Lemma session_user tr m t id e i m1 effs :
  run tr m → short_run tr → tr !! i = Some (m1, effs) → Ipc_event e ∈ effs → user_of id e = Some t →
  ∃ j m0 effs0 p, (j ≤ i)%nat ∧ tr !! j = Some (m0, effs0) ∧ authority m0 t (port_resource p) ∧
    (Ipc_event (EvOpen t p id) ∈ effs0 ∨ Ipc_event (EvAccept t p id) ∈ effs0).
Proof.
  intros Hrun Hsh Hi Hin Hu.
  pose proof (run_mediated tr m Hrun Hsh) as [_ Hmed].
  destruct (run_prefix (take (S i) tr) (drop (S i) tr) m) as [m2 Hrun2]; [by rewrite take_drop|].
  assert (short_run (take (S i) tr)) as Hsh2.
  { apply (short_run_app _ (drop (S i) tr)). by rewrite take_drop. }
  pose proof (run_is_ok demo_key p4 _ _ Hrun2 Hsh2) as Hro.
  destruct (run_agrees _ _ (ro_ipc _ _ _ Hro) (run_few_sessions _ _ _ Hro Hsh2)) as [_ Hag].
  assert (t ∈ users id (events (take (S i) tr))) as Hus.
  { unfold users. apply list_elem_of_omap. exists e. split; [|done]. apply elem_of_events.
    exists i, m1, effs. split; [|done]. rewrite lookup_take_lt by lia. done. }
  assert (¬ unused (events (take (S i) tr)) id) as Hused.
  { intros (_ & _ & Hno & _)%unused_projections. rewrite Hno in Hus. set_solver. }
  destruct (decide (1 ≤ id < next_session_id (ipc_of m2))%N) as [Hid|Hid];
    [|by destruct Hused; apply (ag_unused _ _ Hag)].
  destruct (ag_history _ _ Hag id Hid) as (o & p & srv & up & down & [Hop Hac Husers _ _ _ _] & _).
  assert (∀ u q ev, ev ∈ events (take (S i) tr) → (ev = EvOpen u q id ∨ ev = EvAccept u q id) →
    ∃ j m0 effs0 p, (j ≤ i)%nat ∧ tr !! j = Some (m0, effs0) ∧ authority m0 u (port_resource p) ∧
      (Ipc_event (EvOpen u p id) ∈ effs0 ∨ Ipc_event (EvAccept u p id) ∈ effs0)) as Hfind.
  { intros u q ev (j & m0 & es & Hj & Hev)%elem_of_events Hk.
    apply lookup_take_Some in Hj as [Hj Hlt]. exists j, m0, es, q. split; [lia|]. split; [done|].
    pose proof (Hmed j m0 es _ Hj Hev) as Hm.
    destruct Hk as [-> | ->]; destruct Hm as (u' & Hu' & Heq & Hper); cbn in Heq; subst u';
      (split; [by apply authorized_authority|eauto]). }
  assert (∀ f : Event → option (ThreadId * N), ∀ u q, omap f (events (take (S i) tr)) = [(u, q)] →
    ∃ ev, ev ∈ events (take (S i) tr) ∧ f ev = Some (u, q)) as Hproj.
  { intros f u q Hf. apply list_elem_of_omap. rewrite Hf. by left. }
  destruct (Husers t Hus) as [-> | ->].
  - destruct (Hproj _ _ _ Hop) as (ev & Hev & Hf). destruct ev; cbn in Hf; try done.
    case_decide; simplify_eq. eapply Hfind; eauto.
  - destruct (Hproj _ _ _ Hac) as (ev & Hev & Hf). destruct ev; cbn in Hf; try done.
    case_decide; simplify_eq. eapply Hfind; eauto.
Qed.

(** C17. In every state a run of the x86_64 kernel reaches, whatever calls, timer
    interrupts, exits and spawns it is made of: the IPC tables are within their
    bounds and consistent (at most 64 sessions, 8 per opener, 32 bytes per lane and
    port, the unaccepted sessions of a port waiting in the order they were opened);
    thread ids are distinct and the boot thread can run; the processor uses the
    running thread's own page table and entry stack; stacks are mapped and disjoint;
    the parties of every session are threads that have not been reaped; and no
    action that is possible panics, except a spawn. *)
Theorem x86_kernel_sound tr m :
  run tr m → short_run tr →
  sys_ok p4 (sys (kern m)) ∧ ipc_ok (ipc_of m) ∧
  ∀ a, enabled a m = true → spawns a = false → is_Some (exec a m).
Proof.
  intros Hrun Hsh. pose proof (run_is_ok demo_key p4 tr m Hrun Hsh) as Hro.
  destruct (run_agrees _ _ (ro_ipc _ _ _ Hro) (run_few_sessions _ _ _ Hro Hsh)) as [Hipc _].
  split; [apply Hro|]. split; [done|]. intros a Hen Hsp.
  pose proof (exec_ok demo_key p4 a m (ro_machine _ _ _ Hro) Hen) as Hex.
  destruct (exec a m) as [x|]; [by eexists|]. exfalso. enough (spawns a = true) by congruence. apply Hex.
  pose proof (ro_threads _ _ _ Hro). unfold short_run in Hsh. lia.
Qed.


(** C16. A session is a private pair of streams.  Once a thread [o] has opened session
    [id] on port [p], whatever the rest of the system does: nobody else ever opens
    that id; at most one thread accepts it, on the same port; only these two ever
    send, receive or lock in it; the bytes the others have received are, in order
    and without loss, the first bytes [o] sent, and the bytes [o] has received are
    the first bytes the other side sent (never its own); the rest, at most 32 bytes
    each way, is exactly what the session holds while it exists. *)
Theorem x86_session_streams tr m id o p :
  run tr m → short_run tr → Ipc_event (EvOpen o p id) ∈ effects tr →
  ∃ srv up down, history (events tr) id o p srv up down ∧
    ∀ ss, sessions (ipc_of m) !! id = Some ss →
      owner ss = o ∧ server_port ss = p ∧ server ss = srv ∧ owner_to_server ss = up ∧ server_to_owner ss = down.
Proof.
  intros Hrun Hsh Hop. pose proof (run_is_ok demo_key p4 tr m Hrun Hsh) as Hro.
  destruct (run_agrees _ _ (ro_ipc _ _ _ Hro) (run_few_sessions _ _ _ Hro Hsh)) as [_ Hag].
  assert ((o, p) ∈ opens id (events tr)) as Hin.
  { unfold opens, events. apply list_elem_of_omap. exists (EvOpen o p id). split; [|cbn; by rewrite decide_True].
    apply list_elem_of_omap. by exists (Ipc_event (EvOpen o p id)). }
  destruct (decide (1 ≤ id < next_session_id (ipc_of m))%N) as [Hid|Hid].
  - destruct (ag_history _ _ Hag id Hid) as (o' & p' & srv & up & down & Hh & Hss).
    rewrite (h_opens _ _ _ _ _ _ _ Hh) in Hin. apply list_elem_of_singleton in Hin. injection Hin as -> ->. eauto.
  - apply (ag_unused _ _ Hag) in Hid. apply unused_projections in Hid as (Hno & _). rewrite Hno in Hin. set_solver.
Qed.

(** Messages on a port stay whole.  If every thread by itself sends on port [p]
    only between its own lock and its own unlock of [p], then no interleaving of
    the threads mixes messages: the bytes sent to [p] are the messages one after
    the other, each the bytes of one thread between one lock and the matching
    unlock, and the bytes received so far followed by the at most 32 bytes queued
    are exactly these. *)
Theorem x86_port_messages tr m p :
  run tr m → short_run tr → (∀ t, disciplined p t (events tr)) →
  ∃ f, framing p (events tr) = Some f ∧ port_sent p (events tr) = framed_bytes f ∧
    ∀ q, get (channels (ipc_of m)) p = Some q →
      port_received p (events tr) ++ q = framed_bytes f ∧ (len q ≤ CHANNEL_CAPACITY)%N.
Proof.
  intros Hrun Hsh Hd. pose proof (run_is_ok demo_key p4 tr m Hrun Hsh) as Hro.
  destruct (run_agrees _ _ (ro_ipc _ _ _ Hro) (run_few_sessions _ _ _ Hro Hsh)) as [Hok _].
  destruct (run_framed p _ _ (ro_ipc _ _ _ Hro) Hd) as (f & [Hf _ _ Hb]). exists f. split; [done|]. split; [done|].
  intros q Hq. rewrite <-(port_stream _ _ _ _ (ro_ipc _ _ _ Hro) Hq), Hb. split; [done|].
  apply get_Some in Hq. pose proof (ok_queues _ Hok) as Hqs. rewrite Forall_lookup in Hqs. by eapply Hqs.
Qed.
End behaviour.

(** ** Waiting for the processor, and leaving it for good

    How the run queue of the x86_64 kernel moves with every action: each thread in
    it runs after a known number of switches, and an exited thread is gone after
    the next one. *)

Section progress.
Context `{SIG : SignatureScheme} (demo_key : SigningKey) (p4 : N).

Abbreviation run := (run demo_key p4).
Abbreviation exec := (exec demo_key p4).

Definition blocks (r : Outcome * Kernel * list Effect) : bool :=
  match r with (Block _, _, _) => true | _ => false end.

(** The action ends in a context switch. *)
Definition switches (a : Action) (m : Machine) : bool :=
  match a with
  | ACall hw num arg1 arg2 arg3 => blocks (dispatch demo_key hw num arg1 arg2 arg3 (kern m))
  | ARetry => match running m with InCall c => blocks (attempt c (kern m)) | User => false end
  | ATick | AExit => true
  | ASpawn _ | AGrant _ | ARevoke _ => false
  end.

(** [l] actions from one machine to another, [n] of which switch. *)
Inductive path (m : Machine) : nat → nat → Machine → Prop :=
  | path_nil : path m 0 0 m
  | path_snoc l n m1 a m2 effs :
      path m l n m1 → enabled a m1 = true → exec a m1 = Some (m2, effs) →
      path m (S l) (n + if switches a m1 then 1 else 0) m2.

Abbreviation queue m := (run_queue (sched (sys (kern m)))).
Abbreviation ids m := (thread_ids (sys (kern m))).
Definition alive_ids (m : Machine) : list ThreadId := thread_id <$> alive (sys (kern m)).

(** The next thread of the queue runs; who leaves goes to its end, or is the only
    zombie; earlier zombies are gone. *)
Record switch_moves (m m' : Machine) : Prop := {
  sm_queue : ∃ tail, queue m' = drop 1 (queue m) ++ tail;
  sm_current th : queue m !! 0%nat = Some th → current_thread m' = Some th;
  sm_ids t : t ∈ ids m' → t ∈ alive_ids m;
  sm_next : next_thread_id (sys (kern m')) = next_thread_id (sys (kern m));
}.

(** Nothing moves but the back of the queue. *)
Record stays (m m' : Machine) : Prop := {
  st_queue : ∃ tail, queue m' = queue m ++ tail;
  st_current : current_thread_id (sys (kern m')) = current_thread_id (sys (kern m));
  st_ids t : t ∈ ids m' → t ∈ ids m ∨ t = next_thread_id (sys (kern m));
  st_alive t : t ∈ alive_ids m' → t ∈ alive_ids m ∨ t = next_thread_id (sys (kern m));
  st_next : next_thread_id (sys (kern m')) = next_thread_id (sys (kern m)) ∨
    next_thread_id (sys (kern m')) = ((next_thread_id (sys (kern m)) + 1) mod (u64_max + 1))%N;
}.

Lemma resume_moves m s f es m' effs :
  sys_ok p4 (set_exiting false (record_yield s)) → (exiting s = true → current_thread_id s ≠ Some BOOT) →
  sched s = sched (sys (kern m)) → next_thread_id s = next_thread_id (sys (kern m)) →
  resume (reschedule p4 f s) (kern m) es = Some (m', effs) → switch_moves m m'.
Proof.
  intros Hok He Hs Hn. destruct (reschedule_ok p4 f s Hok He)
    as [(Hq & Hex & -> & Hok')|(next & q & out & fr & Hq & Hc & Hfr & -> & Hok')]; intros [= <- _]; rewrite Hs in Hq; split.
  - exists []. cbn. by rewrite Hs, Hq.
  - by rewrite Hq.
  - intros t Ht. change (t ∈ thread_id <$> threads (reaped (record_yield s))) in Ht. rewrite threads_reaped in Ht.
    unfold alive_ids, alive in *. cbn in Ht. by rewrite Hs in Ht.
  - done.
  - rewrite Hq. cbn. destruct (exiting s); cbn; [exists []; by rewrite app_nil_r|by eexists].
  - rewrite Hq. intros th [= <-]. unfold current_thread. cbn. by destruct (exiting s).
  - intros t Ht. change (t ∈ thread_ids (switched p4 f next q out (reaped (record_yield s)))) in Ht.
    rewrite thread_ids_switched in Ht. unfold alive_ids, alive. rewrite Hs in Hc. rewrite Hc, Hq. cbn. set_solver.
  - done.
Qed.

(** ** One action *)

Lemma action_moves a m m' effs :
  machine_ok p4 m → enabled a m = true → exec a m = Some (m', effs) →
  if switches a m then switch_moves m m' else stays m m'.
Proof.
  intros Hok Hen Hex. destruct (so_current _ _ (mo_sys _ _ Hok)) as [c Hc].
  assert (current_thread_id (sys (kern m)) = Some (thread_id c)) as Ht by (unfold current_thread_id; by rewrite Hc).
  assert (∀ A o k' es, call_ok demo_key A (thread_id c) (kern m) o k' es → finish p4 (o, k', es) = Some (m', effs) →
    if blocks (o, k', es) then switch_moves m m' else stays m m') as Hcall.
  { intros A o k' es Hco Hfin. destruct o as [v|cl]; cbn.
    - injection Hfin as <- _. destruct Hco as [[[-> _]|(e & i & -> & _)] _ _];
        (split; cbn; [exists []; by rewrite app_nil_r|done|by left|by left|by left]).
    - destruct (co_block _ _ _ _ _ _ _ Hco cl eq_refl) as (-> & -> & _).
      apply (resume_moves m (sys (kern m)) (InCall cl) (reaps (sys (kern m))) m' effs); [| |done|done|done].
      + destruct (mo_sys _ _ Hok). by split.
      + by rewrite (so_exiting _ _ (mo_sys _ _ Hok)). }
  unfold enabled in Hen. destruct a as [hw num a1 a2 a3| | | |sp|token|token]; cbn [X86Machine.exec switches] in *.
  - destruct (dispatch demo_key hw num a1 a2 a3 (kern m)) as [[o k'] es] eqn:E.
    eapply Hcall; [by eapply dispatch_ok|done].
  - destruct (running m) as [|cl] eqn:Hr; [done|]. destruct (attempt cl (kern m)) as [[o k'] es] eqn:E.
    eapply (Hcall (λ _, True)); [|done]. apply (attempt_ok demo_key _ _ Ht _ cl); [|by destruct cl|done].
    by apply (proj1 (mo_calls _ _ Hok) cl (thread_id c)).
  - rewrite tick_clock in Hex by done. eapply (resume_moves m (advance_ticks (sys (kern m)))); [| |done|done|done].
    + destruct (mo_sys _ _ Hok). by split.
    + cbn. by rewrite (so_exiting _ _ (mo_sys _ _ Hok)).
  - destruct (running m) eqn:Hr; [|done]. rewrite bool_decide_eq_true in Hen. unfold exit_current_thread in Hex.
    eapply (resume_moves m (set_exiting true (sys (kern m)))); [|done|done|done|done].
    destruct (mo_sys _ _ Hok). by split.
  - apply bind_Some in Hex as (s' & Hsp & Hret). injection Hret as <- _.
    apply do_spawn_spawned in Hsp as [t [Hsched _ Hid Hnext _ _ _ _]]. split; cbn.
    + rewrite Hsched. cbn. by eexists.
    + unfold current_thread_id. by rewrite Hsched.
    + intros u. unfold thread_ids, threads, alive. rewrite Hsched. cbn. rewrite !fmap_app. cbn. rewrite <-Hid. set_solver.
    + intros u. unfold alive_ids, alive. cbn. rewrite Hsched. cbn. rewrite !fmap_app. cbn. rewrite <-Hid. set_solver.
    + by right.
  - injection Hex as <- _. split; cbn; [exists []; by rewrite app_nil_r| | | |].
    + unfold current_thread_id. cbn. by rewrite Hc.
    + intros u Hu. left. revert Hu. unfold thread_ids, threads, alive. cbn. rewrite Hc. done.
    + intros u Hu. left. revert Hu. unfold alive_ids, alive. cbn. rewrite Hc. done.
    + by left.
  - injection Hex as <- _. split; cbn; [exists []; by rewrite app_nil_r|done|by left|by left|by left].
Qed.

(** ** Paths *)

Lemma path_run tr m l n m' : run tr m → path m l n m' → ∃ ext, run (tr ++ ext) m' ∧ length ext = l.
Proof.
  intros Hrun Hp. induction Hp as [|l n m1 a m2 effs Hp (ext & Hr & Hl) Hen Hex].
  - exists []. by rewrite app_nil_r.
  - exists (ext ++ [(m1, effs)]). rewrite app_assoc, length_snoc, Hl. split; [|done]. by eapply run_action.
Qed.

(** The bound on the number of actions, for a run and a path that continues it. *)
Definition short_path (tr : list (Machine * list Effect)) (l : nat) : Prop := (len tr + N.of_nat l + 3 < u64_max)%N.

Lemma path_ok tr m l n m' : run tr m → path m l n m' → short_path tr l → ∃ tr', run_ok p4 tr' m' ∧ short_run tr'.
Proof.
  intros Hrun Hp Hsh. destruct (path_run _ _ _ _ _ Hrun Hp) as (ext & Hr & Hl).
  assert (short_run (tr ++ ext)) as Hsh'. { unfold short_run, short_path, len in *. rewrite length_app. lia. }
  exists (tr ++ ext). split; [by apply (run_is_ok demo_key)|done].
Qed.

Lemma short_path_S tr l : short_path tr (S l) → short_path tr l.
Proof. unfold short_path. lia. Qed.

Lemma path_wait tr m l k m' n th :
  run tr m → short_path tr l → queue m !! n = Some th → path m l k m' →
  ((k ≤ n)%nat → queue m' !! (n - k)%nat = Some th) ∧ (k = S n → current_thread_id (sys (kern m')) = Some (thread_id th)).
Proof.
  intros Hrun Hsh Hn Hp. revert Hsh. induction Hp as [|l k m1 a m2 effs Hp IH Hen Hex]; intros Hsh.
  - split; [intros _; by rewrite Nat.sub_0_r|done].
  - apply short_path_S in Hsh. destruct (IH Hsh) as [IH1 IH2].
    destruct (path_ok _ _ _ _ _ Hrun Hp Hsh) as (tr' & Hro & _).
    pose proof (action_moves a m1 m2 effs (ro_machine _ _ _ Hro) Hen Hex) as Hmv. destruct (switches a m1).
    + destruct Hmv as [[tail Hq] Hcur _ _]. split.
      * intros Hk. rewrite Hq. apply lookup_app_l_Some. rewrite lookup_drop. rewrite <-IH1 by lia. f_equal. lia.
      * intros Hk. assert (k = n) as -> by lia. rewrite Nat.sub_diag in IH1.
        unfold current_thread_id. specialize (Hcur th (IH1 (le_n n))). unfold current_thread in Hcur. by rewrite Hcur.
    + rewrite Nat.add_0_r. destruct Hmv as [[tail Hq] Hcur _ _ _]. split.
      * intros Hk. rewrite Hq. apply lookup_app_l_Some. by apply IH1.
      * intros Hk. rewrite Hcur. by apply IH2.
Qed.

Lemma path_gone tr m l k m' t :
  run tr m → short_path tr l → (t < next_thread_id (sys (kern m)))%N → t ∉ alive_ids m → path m l k m' →
  (t < next_thread_id (sys (kern m')))%N ∧ t ∉ alive_ids m' ∧ ((0 < k)%nat → t ∉ ids m').
Proof.
  intros Hrun Hsh Ht Hal Hp. revert Hsh. induction Hp as [|l k m1 a m2 effs Hp IH Hen Hex]; intros Hsh.
  - split_and!; [done..|lia].
  - apply short_path_S in Hsh. destruct (IH Hsh) as (IH1 & IH2 & IH3).
    destruct (path_ok _ _ _ _ _ Hrun Hp Hsh) as (tr' & Hro & Hsh').
    assert (next_thread_id (sys (kern m1)) < u64_max)%N as Hb.
    { pose proof (ro_threads _ _ _ Hro). unfold short_run in Hsh'. lia. }
    pose proof (action_moves a m1 m2 effs (ro_machine _ _ _ Hro) Hen Hex) as Hmv. destruct (switches a m1).
    + destruct Hmv as [_ _ Hids Hnext]. rewrite Hnext. assert (t ∉ ids m2) as Hno by (by intros Hin%Hids).
      split_and!; [done| |done]. intros Hin. apply Hno. revert Hin. unfold alive_ids, thread_ids, threads.
      rewrite fmap_app. set_solver.
    + rewrite Nat.add_0_r. destruct Hmv as [_ _ Hids Halv Hnext]. split_and!.
      * destruct Hnext as [-> | ->]; [done|]. rewrite N.mod_small by lia. lia.
      * intros [?| ->]%Halv; [done|lia].
      * intros Hk [?| ->]%Hids; [by apply IH3|lia].
Qed.

(** The thread that exits is not among those that can run. *)
Lemma exit_leaves m m1 effs t :
  machine_ok p4 m → enabled AExit m = true → exec AExit m = Some (m1, effs) →
  current_thread_id (sys (kern m)) = Some t → t ∉ alive_ids m1.
Proof.
  intros Hok Hen Hex Ht. unfold enabled in Hen. destruct (running m) eqn:Hr; [|done]. apply bool_decide_eq_true in Hen.
  cbn [X86Machine.exec] in Hex. unfold exit_current_thread in Hex.
  assert (sys_ok p4 (set_exiting false (record_yield (set_exiting true (sys (kern m)))))) as Hs.
  { destruct (mo_sys _ _ Hok). by split. }
  destruct (reschedule_ok p4 User (set_exiting true (sys (kern m))) Hs) as [(_ & [=] & _)|H]; [done|].
  destruct H as (next & q & out & fr & Hq & Hc & Hfr & Heq & _). rewrite Heq in Hex. injection Hex as <- _.
  unfold alive_ids, alive. cbn. cbn in Hq, Hc. unfold current_thread_id in Ht. rewrite Hc in Ht. injection Ht as <-.
  pose proof (so_ids _ _ (mo_sys _ _ Hok)) as Hnd. unfold thread_ids, threads, alive in Hnd. rewrite Hc, Hq in Hnd.
  cbn in Hnd. apply NoDup_cons in Hnd as [Hnd _]. rewrite fmap_app in Hnd. set_solver.
Qed.

Lemma current_alive m t : current_thread_id (sys (kern m)) = Some t → t ∈ alive_ids m.
Proof. unfold current_thread_id, alive_ids, alive. intros (th & -> & ->)%fmap_Some. by left. Qed.

(** Round robin: the thread at position [n] of the run queue is the one running
    after exactly [n + 1] context switches, whatever is spawned, exits or blocks in
    between; every timer interrupt is such a switch. *)
Theorem x86_bounded_wait tr m n th l m' :
  run tr m → short_path tr l → queue m !! n = Some th → path m l (S n) m' →
  current_thread_id (sys (kern m')) = Some (thread_id th).
Proof. intros Hrun Hsh Hn Hp. by apply (path_wait tr m l (S n) m' n th). Qed.

(** A thread other than the boot thread can always exit, and it is the last thing
    it does: from the next context switch on, forever, the scheduler does not know
    it, its id is not used again, and no session has it as a party. *)
Theorem x86_exit_cleanup tr m t :
  run tr m → short_run tr → running m = User → current_thread_id (sys (kern m)) = Some t → t ≠ BOOT →
  ∃ m1 effs, exec AExit m = Some (m1, effs) ∧ current_thread_id (sys (kern m1)) ≠ Some t ∧
  ∀ l n m2, short_path (tr ++ [(m, effs)]) l → path m1 l n m2 →
    current_thread_id (sys (kern m2)) ≠ Some t ∧
    ((0 < n)%nat → t ∉ ids m2 ∧
      ∀ id ss, sessions (ipc_of m2) !! id = Some ss → owner ss ≠ t ∧ server ss ≠ Some t).
Proof.
  intros Hrun Hsh Hr Ht Hb. pose proof (run_is_ok demo_key p4 tr m Hrun Hsh) as Hro.
  assert (enabled AExit m = true) as Hen.
  { unfold enabled. rewrite Hr. apply bool_decide_eq_true. congruence. }
  assert (next_thread_id (sys (kern m)) < u64_max)%N as Hn.
  { pose proof (ro_threads _ _ _ Hro). unfold short_run in Hsh. lia. }
  pose proof (exec_ok demo_key p4 AExit m (ro_machine _ _ _ Hro) Hen Hn) as Hex.
  destruct (exec AExit m) as [[m1 effs]|] eqn:E; [|done]. exists m1, effs. split; [done|].
  assert (t ∉ alive_ids m1) as Hal by (by eapply exit_leaves; [apply Hro|..]).
  assert (t < next_thread_id (sys (kern m1)))%N as Hlt.
  { pose proof (action_moves AExit m m1 effs (ro_machine _ _ _ Hro) Hen E) as [_ _ _ ->].
    pose proof (current_known _ _ Ht) as (th & -> & Hin)%list_elem_of_fmap.
    by apply (so_below _ _ (mo_sys _ _ (ro_machine _ _ _ Hro)) th). }
  split; [by intros Hin%current_alive|]. intros l n m2 Hshp Hp.
  assert (run (tr ++ [(m, effs)]) m1) as Hrun1 by (by eapply run_action).
  destruct (path_gone _ _ _ _ _ t Hrun1 Hshp Hlt Hal Hp) as (_ & Hal2 & Hids).
  split; [by intros Hin%current_alive|]. intros Hpos. split; [by apply Hids|].
  intros id ss Hs. destruct (path_ok _ _ _ _ _ Hrun1 Hp Hshp) as (tr' & Hro' & _).
  destruct (so_sessions _ _ (mo_sys _ _ (ro_machine _ _ _ Hro')) id ss Hs) as [Ho Hv].
  split; [intros <-; by apply Hids|]. intros Hu. by apply Hids, Hv.
Qed.
End progress.
