(* ===== verification/X86Scenario.v ===== *)
(** * X86Scenario: a concrete run of the x86_64 kernel

    The boot thread and a second thread exchange a message over a port, open and
    accept a session, use it, and the second thread exits.  The run instantiates
    the theorems of [X86Behaviour]. *)

From S2P Require Import Prelude Capability X86Caps X86Ipc X86IpcSpec X86Sched X86SchedSpec X86Kernel X86Machine X86Behaviour.

(** ** Running a list of actions *)

Section exec_all.
Context `{SIG : SignatureScheme} (demo_key : SigningKey) (p4 : N).

Fixpoint exec_all (acts : list Action) (m : Machine) : option (list (Machine * list Effect) * Machine) :=
  match acts with
  | [] => Some ([], m)
  | a :: acts =>
      if enabled a m then
        '(m1, effs) ← exec demo_key p4 a m;
        '(tr, m2) ← exec_all acts m1;
        Some ((m, effs) :: tr, m2)
      else None
  end.

Lemma exec_all_run acts m tr ext m' :
  run demo_key p4 tr m → exec_all acts m = Some (ext, m') → run demo_key p4 (tr ++ ext) m'.
Proof.
  revert m tr ext. induction acts as [|a acts IH]; intros m tr ext Hrun; cbn.
  - intros [= <- <-]. by rewrite app_nil_r.
  - destruct (enabled a m) eqn:Hen; [|done]. intros ([m1 effs] & Hex & H)%bind_Some.
    apply bind_Some in H as ([tr2 m2] & Hall & Hret). injection Hret as <- <-.
    change ((m, effs) :: tr2) with ([(m, effs)] ++ tr2). rewrite app_assoc. eapply IH; [|done]. by eapply run_action.
Qed.

Lemma exec_all_path acts m ext m' n :
  exec_all acts m = Some (ext, m') →
  foldr (λ '(a, x) k, (if switches demo_key a x.1 then 1 else 0) + k)%nat 0%nat (zip acts ext) = n →
  path demo_key p4 m (length acts) n m'.
Proof.
  intros Hall <-. enough (∀ m0 l k, path demo_key p4 m0 l k m →
    path demo_key p4 m0 (l + length acts)
      (k + foldr (λ '(a, x) k, (if switches demo_key a x.1 then 1 else 0) + k)%nat 0%nat (zip acts ext)) m') as H.
  { apply (H m 0%nat 0%nat), path_nil. }
  revert m ext Hall. induction acts as [|a acts IH]; intros m ext Hall m0 l k Hp; cbn in Hall.
  - injection Hall as <- <-. cbn. by rewrite !Nat.add_0_r.
  - destruct (enabled a m) eqn:Hen; [|done]. apply bind_Some in Hall as ([m1 effs] & Hex & H).
    apply bind_Some in H as ([tr2 m2] & Hall & Hret). injection Hret as <- <-. cbn.
    rewrite Nat.add_succ_r, <-Nat.add_succ_l, Nat.add_assoc. eapply IH; [done|]. by eapply path_snoc.
Qed.
End exec_all.

(** ** The run *)

Module Run.
Definition key : N := 7.
Definition p4 : N := 0x1000.
Definition token (resource : string) : CapabilityToken := @issue Demo.scheme "demo" resource 0 1000 "demo-key" key.
Definition hw : Hardware := mkHardware (λ _ _, 0xab)%N true (λ i, if decide (i = 2)%nat then Some 42%N else None).
Definition call (num arg1 arg2 : N) : Action := ACall hw num arg1 arg2 0.

(** Boot (thread 1) gets its tokens, spawns thread 2 with a token for port 3 as
    its main capability, sends "hi" on port 3 under the lock, and opens a session
    there, in which it sends 65; then thread 2 takes over. *)
Definition first_half : list Action :=
  [AGrant (token (port_resource 3)); AGrant (token random_resource); ASpawn (SpawnThread (Some (token (port_resource 3))));
   call SYS_RANDOM 0 0; call SYS_IPC_SEND_LOCK 3 0; call SYS_IPC_SEND 3 104; call SYS_IPC_SEND 3 105;
   call SYS_IPC_SEND_UNLOCK 3 0; call SYS_IPC_SESSION_OPEN 3 0; call SYS_IPC_SESSION_SEND 1 65; call SYS_YIELD 0 0].

(** Thread 2 reads the port, accepts the session, reads it and answers 66; a timer
    interrupt later boot finishes its yield, reads the answer and yields again, and
    thread 2 is left with the processor. *)
Definition second_half : list Action :=
  [call SYS_IPC_RECV 3 0; call SYS_IPC_SESSION_ACCEPT 3 0; call SYS_IPC_SESSION_RECV 1 0; call SYS_IPC_SESSION_SEND 1 66;
   ATick; ARetry; call SYS_IPC_SESSION_RECV 1 0; ATick].

Definition result acts := @exec_all Demo.scheme key p4 acts (boot p4 0).
Definition trace acts : list (Machine * list Effect) := default [] (fst <$> result acts).
Definition machine acts : Machine := default (boot p4 0) (snd <$> result acts).

Lemma runs acts : bool_decide (is_Some (result acts)) = true → @X86Machine.run Demo.scheme key p4 (trace acts) (machine acts).
Proof.
  intros [[tr m] Hr]%bool_decide_eq_true. unfold trace, machine. rewrite Hr. cbn.
  apply (@exec_all_run Demo.scheme key p4 acts (boot p4 0) [] tr m); [constructor|done].
Qed.

Definition whole_run : list Action := first_half ++ second_half.

(** What the run did. *)
Example run_events :
  events (trace whole_run) =
    [EvLock 1 3; EvSend 1 3 104; EvSend 1 3 105; EvUnlock 1 3; EvOpen 1 3 1; EvSessionSend 1 1 65;
     EvRecv 2 3 104; EvAccept 2 3 1; EvSessionRecv 2 1 65; EvSessionSend 2 1 66; EvSessionRecv 1 1 66].
Proof. vm_compute. reflexivity. Qed.

Lemma whole_runs : @X86Machine.run Demo.scheme key p4 (trace whole_run) (machine whole_run).
Proof. apply runs. by vm_compute. Qed.

Lemma whole_short : short_run (trace whole_run).
Proof. by vm_compute. Qed.

Lemma x86_kernel_sound_witness :
  @X86Machine.run Demo.scheme key p4 (trace whole_run) (machine whole_run) ∧ ipc_ok (ipc_of (machine whole_run)) ∧
  is_Some (@X86Machine.exec Demo.scheme key p4 AExit (machine whole_run)).
Proof.
  destruct (@x86_kernel_sound Demo.scheme key p4 _ _ whole_runs whole_short) as (_ & Hi & Hp).
  split; [exact whole_runs|]. split; [exact Hi|]. apply Hp; by vm_compute.
Defined.


Lemma x86_session_streams_witness :
  ∃ srv up down, history (events (trace whole_run)) 1 1 3 srv up down ∧
    ∀ ss, sessions (ipc_of (machine whole_run)) !! 1%N = Some ss →
      owner ss = 1%N ∧ server_port ss = 3%N ∧ server ss = srv ∧ owner_to_server ss = up ∧ server_to_owner ss = down.
Proof.
  apply (@x86_session_streams Demo.scheme key p4 _ _ 1 1 3 whole_runs whole_short).
  apply (list_elem_of_lookup_2 _ 5%nat). vm_compute. reflexivity.
Defined.

Lemma disciplined_port t : disciplined 3 t (events (trace whole_run)).
Proof.
  rewrite run_events. destruct (decide (t = 1)%N) as [->|H1]; [by eexists|].
  unfold disciplined, discipline. cbn [foldl mbind option_bind discipline_step].
  repeat (rewrite (decide_False (P := (1%N = t ∧ 3%N = 3%N))) by naive_solver; cbn [mbind option_bind]). by eexists.
Qed.

Lemma x86_port_messages_witness :
  ∃ f, framing 3 (events (trace whole_run)) = Some f ∧ whole f = [(1%N, [104; 105]%N)] ∧ partial f = None ∧
    port_received 3 (events (trace whole_run)) ++ [105]%N = framed_bytes f.
Proof.
  destruct (@x86_port_messages Demo.scheme key p4 _ _ 3 whole_runs whole_short disciplined_port) as (f & Hf & _ & Hq).
  exists f. split; [exact Hf|]. rewrite run_events in Hf. vm_compute in Hf. injection Hf as <-.
  split; [reflexivity|]. split; [reflexivity|]. apply Hq. vm_compute. reflexivity.
Defined.

(** Thread 2 waits at the head of the queue when boot yields. *)
Lemma x86_bounded_wait_witness :
  ∃ m', path (SIG := Demo.scheme) key p4 (machine (take 10 first_half)) 1 1 m' ∧
    current_thread_id (sys (kern m')) = Some 2%N.
Proof.
  assert (∃ ext m', @exec_all Demo.scheme key p4 [call SYS_YIELD 0 0] (machine (take 10 first_half)) = Some (ext, m'))
    as (ext & m' & Hex) by (eexists _, _; vm_compute; reflexivity).
  assert (path (SIG := Demo.scheme) key p4 (machine (take 10 first_half)) 1 1 m') as Hp.
  { eapply (exec_all_path (SIG := Demo.scheme) key p4 [call SYS_YIELD 0 0]); [exact Hex|].
    vm_compute in Hex. injection Hex as <- _. vm_compute. reflexivity. }
  assert (∃ th, run_queue (sched (sys (kern (machine (take 10 first_half))))) !! 0%nat = Some th ∧ thread_id th = 2%N)
    as (th & Hth & Hid) by (eexists; split; vm_compute; reflexivity).
  exists m'. split; [exact Hp|]. rewrite <-Hid.
  apply (@x86_bounded_wait Demo.scheme key p4 (trace (take 10 first_half)) (machine (take 10 first_half)) 0 th 1 m');
    [apply runs; by vm_compute|by vm_compute|exact Hth|exact Hp].
Defined.

(** Thread 2 exits at the end of the run; one switch later its session is gone. *)
Lemma x86_exit_cleanup_witness :
  ∃ m1 effs, @X86Machine.exec Demo.scheme key p4 AExit (machine whole_run) = Some (m1, effs) ∧
    current_thread_id (sys (kern m1)) ≠ Some 2%N.
Proof.
  destruct (@x86_exit_cleanup Demo.scheme key p4 (trace whole_run) (machine whole_run) 2 whole_runs whole_short)
    as (m1 & effs & Hex & Hne & _); [vm_compute; reflexivity..|done|].
  exists m1, effs. split; [exact Hex|exact Hne].
Defined.

Lemma check_ioport_range_witness :
  @check_ioport_range Demo.scheme key (@issue Demo.scheme "net" (ioport_range_resource 0xc000 32) 0 60 "demo-key" key)
    0xc01c 4 60 = Ok ().
Proof. apply (@check_ioport_range_exact Demo.scheme Demo.laws). unfold u16_max. lia. Defined.
End Run.
