(* ===== verification/ArmVm.v ===== *)
(** * ArmVm: translation descriptors, page tables in memory, the kernel's map

    Model of [kernel-arm/src/vm.rs], of the descriptors and tables of
    [kernel-arm/src/mmu.rs], and of [hw_contract.rs].  Physical memory is a map from
    frame addresses to their 4096 bytes; a table entry is the little-endian word at
    its place.  [walk] is not code: it is the stage 1 walk of the architecture for
    the regime [mmu.rs] configures (4 KiB granule, 39-bit addresses, starting at
    level 1), against which what the code writes is judged. *)

From S2P Require Import Prelude Bytes.

Local Open Scope N_scope.

(** ** [vm.rs] *)

Definition GRANULE_1GIB : N := N.shiftl 1 30.
Definition GRANULE_4KIB : N := N.shiftl 1 12.
Definition UXN : N := N.shiftl 1 54.
Definition PXN : N := N.shiftl 1 53.
Definition AP_EL0_RW : N := N.shiftl 1 6.
Definition AP_EL0_RO : N := N.shiftl 3 6.
Definition PRIVATE_REGION_BASE : N := 2 * GRANULE_1GIB.
Definition PRIVATE_REGION_END : N := PRIVATE_REGION_BASE + GRANULE_1GIB.

(** ** Descriptors of [mmu.rs] *)

Definition GRANULE_2MIB : N := N.shiftl 1 21.
Definition NORMAL_BASE : N := GRANULE_1GIB.
Definition ATTRINDX_DEVICE : N := 0.
Definition ATTRINDX_NORMAL : N := 1.
Definition DESC_BLOCK : N := 1.
Definition DESC_TABLE_OR_PAGE : N := 3.
Definition AF : N := N.shiftl 1 10.
Definition SH_OUTER : N := N.shiftl 2 8.
Definition SH_INNER : N := N.shiftl 3 8.
(** [process.rs] *)
Definition DESC_ADDR_MASK : N := 0x0000FFFFFFFFF000.

Definition device_block_descriptor (output_addr : N) : N :=
  N.lor output_addr (N.lor DESC_BLOCK (N.lor AF (N.lor (N.shiftl ATTRINDX_DEVICE 2)
    (N.lor SH_OUTER (N.lor UXN PXN))))).

Definition table_descriptor (next_level_table : N) : N :=
  N.lor next_level_table DESC_TABLE_OR_PAGE.

Definition normal_2mib_block_descriptor (output_addr : N) : N :=
  N.lor output_addr (N.lor DESC_BLOCK (N.lor AF (N.lor (N.shiftl ATTRINDX_NORMAL 2) SH_INNER))).

Definition normal_4kib_page_descriptor (output_addr extra : N) : N :=
  N.lor output_addr (N.lor (N.lor DESC_TABLE_OR_PAGE (N.lor AF (N.lor (N.shiftl ATTRINDX_NORMAL 2) SH_INNER))) extra).

(** ** Memory *)

Abbreviation Mem := (gmap N (list N)).

Definition zero_page : list N := replicate 4096 0.
Definition page_at (m : Mem) (a : N) : list N := default zero_page (m !! a).
Definition mem_ok (m : Mem) : Prop := map_Forall (λ _ p, length p = 4096%nat ∧ bytes p) m.

(** [entry_ptr(table, index).read_volatile()] and [write_volatile]. *)
Definition read_entry (m : Mem) (table index : N) : N :=
  from_le (slice (page_at m table) (8 * index) 8).
Definition write_entry (m : Mem) (table index value : N) : Mem :=
  <[table := copy_at (page_at m table) (8 * index) (le_bytes 8 value)]> m.

Definition l1_index (va : N) : N := N.land (N.shiftr va 30) 0x1ff.
Definition l2_index (va : N) : N := N.land (N.shiftr va 21) 0x1ff.
Definition l3_index (va : N) : N := N.land (N.shiftr va 12) 0x1ff.

(** ** The architecture's walk *)

Definition desc_addr (d : N) : N := N.land d DESC_ADDR_MASK.
Definition desc_type (d : N) : N := N.land d 3.

(** The physical address and the leaf descriptor, [None] for a translation or
    access-flag fault.  A block keeps the low address bits of its size. *)
Definition leaf (d size va : N) : option (N * N) :=
  if N.testbit d 10 then Some (desc_addr d - desc_addr d mod size + va mod size, d) else None.

Definition walk (m : Mem) (root va : N) : option (N * N) :=
  if decide (N.shiftl 1 39 ≤ va) then None else
  let d1 := read_entry m root (l1_index va) in
  if decide (desc_type d1 = DESC_BLOCK) then leaf d1 GRANULE_1GIB va else
  if decide (desc_type d1 ≠ DESC_TABLE_OR_PAGE) then None else
  let d2 := read_entry m (desc_addr d1) (l2_index va) in
  if decide (desc_type d2 = DESC_BLOCK) then leaf d2 GRANULE_2MIB va else
  if decide (desc_type d2 ≠ DESC_TABLE_OR_PAGE) then None else
  let d3 := read_entry m (desc_addr d2) (l3_index va) in
  if decide (desc_type d3 = DESC_TABLE_OR_PAGE) then leaf d3 GRANULE_4KIB va else None.

(** What EL0 may do through a leaf descriptor ([AP[2:1]], [UXN]), and whether EL1
    may fetch from it. *)
Definition el0_readable (d : N) : bool := N.testbit d 6.
Definition el0_writable (d : N) : bool := N.testbit d 6 && negb (N.testbit d 7).
Definition el0_executable (d : N) : bool := negb (N.testbit d 54).
Definition el1_executable (d : N) : bool := negb (N.testbit d 53).

(** ** Entries *)

Lemma length_zero_page : length zero_page = 4096%nat.
Proof. apply length_replicate. Qed.

Lemma bytes_zero_page : bytes zero_page.
Proof. by apply Forall_replicate. Qed.

Lemma length_page_at m a : mem_ok m → length (page_at m a) = 4096%nat.
Proof.
  intros Hm. unfold page_at. destruct (m !! a) eqn:Ha; cbn; [by apply Hm in Ha as [??]|apply length_zero_page].
Qed.

Lemma bytes_page_at m a : mem_ok m → bytes (page_at m a).
Proof.
  intros Hm. unfold page_at. destruct (m !! a) eqn:Ha; cbn; [by apply Hm in Ha as [??]|apply bytes_zero_page].
Qed.

Lemma page_at_insert m a p b : page_at (<[a := p]> m) b = if decide (a = b) then p else page_at m b.
Proof. unfold page_at. case_decide; subst; by rewrite ?lookup_insert_eq, ?lookup_insert_ne by done. Qed.

Lemma mem_ok_insert m a p : mem_ok m → length p = 4096%nat → bytes p → mem_ok (<[a := p]> m).
Proof. intros Hm Hl Hb. by apply map_Forall_insert_2. Qed.

Lemma entry_in_page m a i : mem_ok m → i < 512 → (8 * i + len (le_bytes 8 0) ≤ len (page_at m a)).
Proof. intros Hm Hi. unfold len. rewrite length_page_at, length_le_bytes by done. lia. Qed.

Lemma mem_ok_write m a i v : mem_ok m → i < 512 → mem_ok (write_entry m a i v).
Proof.
  intros Hm Hi. pose proof (entry_in_page m a i Hm Hi). unfold write_entry. apply mem_ok_insert; [done| |].
  - rewrite length_copy_at; [by apply length_page_at|]. unfold len in *. by rewrite length_le_bytes in *.
  - apply bytes_copy_at; [by apply bytes_page_at|apply bytes_le_bytes].
Qed.

Lemma page_at_write m a i v b : a ≠ b → page_at (write_entry m a i v) b = page_at m b.
Proof. intros Hne. unfold write_entry. by rewrite page_at_insert, decide_False. Qed.

Lemma read_write_same m a i v :
  mem_ok m → i < 512 → v < N.shiftl 1 64 → read_entry (write_entry m a i v) a i = v.
Proof.
  intros Hm Hi Hv. pose proof (entry_in_page m a i Hm Hi) as Hin. unfold read_entry, write_entry.
  rewrite page_at_insert, decide_True by done.
  replace 8 with (len (le_bytes 8 v)) at 4 by (unfold len; by rewrite length_le_bytes).
  rewrite slice_copy_same; [by apply from_le_bytes|]. unfold len in *. by rewrite length_le_bytes in *.
Qed.

Lemma read_write_other m a i v b j :
  mem_ok m → i < 512 → j < 512 → (a, i) ≠ (b, j) → read_entry (write_entry m a i v) b j = read_entry m b j.
Proof.
  intros Hm Hi Hj Hne. unfold read_entry. destruct (decide (a = b)) as [<-|Hab]; [|by rewrite page_at_write].
  unfold write_entry. rewrite page_at_insert, decide_True by done. f_equal.
  pose proof (entry_in_page m a i Hm Hi) as Hin. assert (i ≠ j) by naive_solver.
  apply slice_copy_other; unfold len in *; rewrite length_le_bytes in *; lia.
Qed.

Lemma read_write m a i v b j :
  mem_ok m → i < 512 → j < 512 → v < N.shiftl 1 64 →
  read_entry (write_entry m a i v) b j = if decide ((a, i) = (b, j)) then v else read_entry m b j.
Proof.
  intros. case_decide as Heq; [injection Heq as <- <-; by apply read_write_same|by apply read_write_other].
Qed.

Lemma read_zero m a i : i < 512 → page_at m a = zero_page → read_entry m a i = 0.
Proof.
  intros Hi Hp. unfold read_entry, slice, zero_page in *. rewrite Hp, drop_replicate, take_replicate.
  replace (_ `min` _)%nat with 8%nat by lia. done.
Qed.

Lemma read_entry_page m m' a i : page_at m a = page_at m' a → read_entry m a i = read_entry m' a i.
Proof. unfold read_entry. by intros ->. Qed.

(** ** Bits of descriptors *)

(** The address of a frame a descriptor can name. *)
Definition frame_addr (a : N) : Prop := a mod 4096 = 0 ∧ a < N.shiftl 1 48.

#[global] Instance frame_addr_dec a : Decision (frame_addr a) := _.

Lemma frame_bits a k : frame_addr a → k < 12 ∨ 48 ≤ k → N.testbit a k = false.
Proof.
  intros [Hm Hl] [Hk|Hk].
  - rewrite <-(N.mod_pow2_bits_low a 12 k Hk). change (2 ^ 12) with 4096. by rewrite Hm, N.bits_0.
  - destruct (decide (a = 0)) as [->|Ha]; [apply N.bits_0|]. apply N.bits_above_log2.
    apply (N.lt_le_trans _ 48); [|done]. apply N.log2_lt_pow2; [lia|exact Hl].
Qed.

Lemma mask_bits k : N.testbit DESC_ADDR_MASK k = bool_decide (12 ≤ k < 48).
Proof.
  change DESC_ADDR_MASK with (N.shiftl (N.ones 36) 12). case_bool_decide as Hk.
  - rewrite N.shiftl_spec_high' by lia. apply N.ones_spec_low. lia.
  - destruct (decide (k < 12)); [by apply N.shiftl_spec_low|].
    rewrite N.shiftl_spec_high' by lia. apply N.ones_spec_high. lia.
Qed.

Lemma frame_mask a : frame_addr a → desc_addr a = a.
Proof.
  intros Ha. unfold desc_addr. apply N.bits_inj. intros k. rewrite N.land_spec, mask_bits.
  case_bool_decide as Hk; [apply andb_true_r|]. rewrite (frame_bits a k) by (done || lia). done.
Qed.

Lemma desc_addr_lor a c : frame_addr a → N.land c DESC_ADDR_MASK = 0 → desc_addr (N.lor a c) = a.
Proof.
  intros Ha Hc. unfold desc_addr. rewrite N.land_lor_distr_l, Hc, N.lor_0_r. by apply frame_mask.
Qed.

Lemma desc_type_lor a c : frame_addr a → desc_type (N.lor a c) = desc_type c.
Proof.
  intros Ha. unfold desc_type. rewrite N.land_lor_distr_l. replace (N.land a 3) with 0; [apply N.lor_0_l|].
  symmetry. apply N.bits_inj. intros k. rewrite N.bits_0, N.land_spec. change 3 with (N.ones 2).
  destruct (decide (k < 2)); [rewrite frame_bits by (done || lia); done|].
  rewrite N.ones_spec_high by lia. apply andb_false_r.
Qed.

Lemma testbit_lor_frame a c k : frame_addr a → k < 12 ∨ 48 ≤ k → N.testbit (N.lor a c) k = N.testbit c k.
Proof. intros Ha Hk. by rewrite N.lor_spec, frame_bits. Qed.

Lemma lor_lt_pow2 a b k : a < 2 ^ k → b < 2 ^ k → N.lor a b < 2 ^ k.
Proof.
  intros Ha Hb. destruct (decide (N.lor a b = 0)) as [->|Hne]; [by apply N.neq_0_lt_0, N.pow_nonzero|].
  apply N.log2_lt_pow2; [lia|]. rewrite N.log2_lor.
  destruct (decide (k = 0)) as [->|]; [cbn in *; assert (a = 0) as -> by lia; by assert (b = 0) as -> by lia|].
  apply N.max_lub_lt; [destruct (decide (a = 0)) as [->|]|destruct (decide (b = 0)) as [->|]];
    try (apply N.log2_lt_pow2; lia); cbn; lia.
Qed.

Lemma desc_lt a c : frame_addr a → c < 2 ^ 64 → N.lor a c < N.shiftl 1 64.
Proof.
  intros [_ Ha] Hc. change (N.shiftl 1 64) with (2 ^ 64). apply lor_lt_pow2; [|done].
  change (N.shiftl 1 48) with (2 ^ 48) in Ha. etrans; [exact Ha|done].
Qed.

(** Table descriptors. *)
Lemma table_desc_addr t : frame_addr t → desc_addr (table_descriptor t) = t.
Proof. intros Ht. by apply desc_addr_lor. Qed.

Lemma table_desc_type t : frame_addr t → desc_type (table_descriptor t) = DESC_TABLE_OR_PAGE.
Proof. intros Ht. unfold table_descriptor. by rewrite desc_type_lor. Qed.

Lemma table_desc_lt t : frame_addr t → table_descriptor t < N.shiftl 1 64.
Proof. intros Ht. by apply desc_lt. Qed.

(** Page descriptors: the permission bits a caller passes are the [AP], [UXN] and
    [PXN] bits and nothing else. *)
Definition PERM_MASK : N := N.lor AP_EL0_RO (N.lor UXN PXN).
Definition perm_ok (p : N) : Prop := N.land p PERM_MASK = p.

#[global] Instance perm_ok_dec p : Decision (perm_ok p) := _.

Lemma perm_bits p k : perm_ok p → N.testbit PERM_MASK k = false → N.testbit p k = false.
Proof. intros Hp Hk. unfold perm_ok in Hp. by rewrite <-Hp, N.land_spec, Hk, andb_false_r. Qed.

Lemma perm_land p c : perm_ok p → N.land PERM_MASK c = 0 → N.land p c = 0.
Proof. intros Hp Hc. unfold perm_ok in Hp. by rewrite <-Hp, <-N.land_assoc, Hc, N.land_0_r. Qed.

Lemma perm_lt p : perm_ok p → p < 2 ^ 64.
Proof.
  intros Hp. destruct (decide (p = 0)) as [->|]; [done|]. apply N.log2_lt_pow2; [lia|].
  unfold perm_ok in Hp. rewrite <-Hp. eapply N.le_lt_trans; [apply N.log2_land|].
  apply (N.le_lt_trans _ (N.log2 PERM_MASK)); [apply N.le_min_r|]. by vm_compute.
Qed.

Lemma page_desc_addr a p : frame_addr a → perm_ok p → desc_addr (normal_4kib_page_descriptor a p) = a.
Proof.
  intros Ha Hp. apply desc_addr_lor; [done|]. rewrite N.land_lor_distr_l.
  rewrite (perm_land p DESC_ADDR_MASK Hp eq_refl). done.
Qed.

Lemma page_desc_type a p : frame_addr a → perm_ok p → desc_type (normal_4kib_page_descriptor a p) = DESC_TABLE_OR_PAGE.
Proof.
  intros Ha Hp. unfold normal_4kib_page_descriptor. rewrite desc_type_lor by done.
  unfold desc_type. rewrite N.land_lor_distr_l. rewrite (perm_land p 3 Hp eq_refl). done.
Qed.

Lemma page_desc_lt a p : frame_addr a → perm_ok p → normal_4kib_page_descriptor a p < N.shiftl 1 64.
Proof.
  intros Ha Hp. apply desc_lt; [done|]. apply lor_lt_pow2; [by vm_compute|by apply perm_lt].
Qed.

Lemma page_desc_perm a p : frame_addr a → perm_ok p → N.land (normal_4kib_page_descriptor a p) PERM_MASK = p.
Proof.
  intros Ha Hp. unfold normal_4kib_page_descriptor. rewrite !N.land_lor_distr_l.
  unfold perm_ok in Hp. rewrite Hp.
  replace (N.land a PERM_MASK) with 0; [by rewrite N.lor_0_l|]. symmetry.
  apply N.bits_inj. intros k. rewrite N.bits_0, N.land_spec.
  destruct (decide (12 ≤ k < 48)) as [Hk|Hk]; [|by rewrite frame_bits by (done || lia)].
  replace (N.testbit PERM_MASK k) with false; [apply andb_false_r|].
  symmetry. unfold PERM_MASK, UXN, PXN, AP_EL0_RO. rewrite !N.lor_spec.
  rewrite (N.shiftl_spec_low 1 54), (N.shiftl_spec_low 1 53), N.shiftl_spec_high' by lia.
  rewrite !orb_false_r. change 3 with (N.ones 2). apply N.ones_spec_high. lia.
Qed.

Lemma page_desc_af a p : frame_addr a → N.testbit (normal_4kib_page_descriptor a p) 10 = true.
Proof. intros Ha. unfold normal_4kib_page_descriptor. rewrite testbit_lor_frame by (done || lia). by rewrite N.lor_spec. Qed.

Lemma page_desc_bit a p k :
  frame_addr a → N.testbit PERM_MASK k = true → N.testbit (normal_4kib_page_descriptor a p) k = N.testbit p k.
Proof.
  intros Ha Hk. assert (k = 6 ∨ k = 7 ∨ k = 53 ∨ k = 54) as Hcase.
  { revert Hk. unfold PERM_MASK, UXN, PXN, AP_EL0_RO. rewrite !N.lor_spec, !orb_true_iff.
    assert (∀ n, N.testbit (N.shiftl 1 n) k = true → k = n) as H1.
    { intros n. rewrite N.shiftl_1_l, N.pow2_bits_eqb. intros ->%N.eqb_eq. done. }
    intros [H|[H|H]]; [|apply H1 in H; lia..].
    change (N.shiftl 3 6) with (N.lor (N.shiftl 1 6) (N.shiftl 1 7)) in H.
    rewrite N.lor_spec, orb_true_iff in H. destruct H as [H|H]; apply H1 in H; lia. }
  unfold normal_4kib_page_descriptor. rewrite testbit_lor_frame by (done || lia). rewrite N.lor_spec.
  destruct Hcase as [->|[->|[->|]]]; [..|subst]; done.
Qed.

(** ** Indices *)

Lemma index_eq va k : N.land (N.shiftr va k) 0x1ff = va / 2 ^ k mod 512.
Proof. change 0x1ff with (N.ones 9). by rewrite N.land_ones, N.shiftr_div_pow2. Qed.

Lemma l1_index_eq va : l1_index va = va / GRANULE_1GIB mod 512.
Proof. apply index_eq. Qed.
Lemma l2_index_eq va : l2_index va = va / GRANULE_2MIB mod 512.
Proof. apply index_eq. Qed.
Lemma l3_index_eq va : l3_index va = va / GRANULE_4KIB mod 512.
Proof. apply index_eq. Qed.

Lemma table_index_lt va k : N.land (N.shiftr va k) 0x1ff < 512.
Proof. rewrite index_eq. by apply N.mod_lt. Qed.

(** ** Address arithmetic *)

Ltac granules :=
  unfold PRIVATE_REGION_END, PRIVATE_REGION_BASE, NORMAL_BASE, GRANULE_1GIB, GRANULE_2MIB, GRANULE_4KIB in *;
  change (N.shiftl 1 30) with 1073741824 in *; change (N.shiftl 1 21) with 2097152 in *;
  change (N.shiftl 1 12) with 4096 in *; change (N.shiftl 1 39) with 549755813888 in *;
  change (N.shiftl 1 48) with 281474976710656 in *.

(** Linear arithmetic with division and remainder by the granule sizes. *)
Ltac div_lia := granules; zify; Z.to_euclidean_division_equations; lia.
