(* ===== verification/ArmMmu.v ===== *)
(** * ArmMmu: the kernel's own translation tables

    Model of [install] of [kernel-arm/src/mmu.rs] and of [hw_contract.rs].  The
    addresses the linker chooses (the three static tables, [el0_demo], [EL0_STACK])
    are parameters.  The theorem says what the architecture's walk finds in the
    tables [install] wrote. *)

From S2P Require Import Prelude Bytes ArmVm.

Local Open Scope N_scope.

(** ** [hw_contract.rs] *)

Definition SCTLR_M : N := N.shiftl 1 0.
Definition SCTLR_NTWE : N := N.shiftl 1 18.
Definition sctlr_with_mmu_and_el0_wfe (current : N) : N := N.lor current (N.lor SCTLR_M SCTLR_NTWE).

Definition NET_MODE_TCP_PROOF : N := 0.
Definition NET_MODE_MARSHAL_REQUEST : N := 1.

Definition check_net_mode (mode : N) (has_request_bytes : bool) : Result string () :=
  if decide (mode = NET_MODE_TCP_PROOF ∧ has_request_bytes = false) then Ok () else
  if decide (mode = NET_MODE_MARSHAL_REQUEST ∧ has_request_bytes = true) then Ok () else
  if decide (mode = NET_MODE_MARSHAL_REQUEST) then
    Err "net boot info mode is MARSHAL-request but no request bytes were supplied"
  else if decide (mode = NET_MODE_TCP_PROOF) then
    Err "net boot info mode is TCP-proof but request bytes were supplied"
  else Err "net boot info has an unknown mode".

(** ** [install] *)

Definition MAIR_ATTR_DEVICE_NGNRNE : N := 0x00.
Definition MAIR_ATTR_NORMAL_NC : N := 0x44.
(** [el0.rs] *)
Definition EL0_STACK_SIZE : N := 4096 * 4.

Record Registers := mkRegisters {
  mair_el1 : N;
  tcr_el1 : N;
  ttbr0_el1 : N;
  sctlr_el1 : N;
}.

(** [for (i, entry) in table.iter_mut().enumerate() { *entry = f(i) }] *)
Fixpoint fill_entries (m : Mem) (table : N) (f : N → N) (n : nat) : Mem :=
  match n with
  | O => m
  | S n => write_entry (fill_entries m table f n) table (N.of_nat n) (f (N.of_nat n))
  end.

Section install.
Context (level1 level2 level3 el0_demo stack_base : N).

(** [None] is the failed assertion (or an address below RAM, an arithmetic
    overflow). *)
Definition normal_split_index : option N :=
  demo ← checked_sub el0_demo NORMAL_BASE;
  stack ← checked_sub stack_base NORMAL_BASE;
  let demo_index := demo / GRANULE_2MIB in
  let stack_index := stack / GRANULE_2MIB in
  if decide (demo_index = stack_index) then Some demo_index else None.

Definition level2_entry (split_index i : N) : N :=
  let granule_addr := NORMAL_BASE + i * GRANULE_2MIB in
  if decide (i = split_index) then table_descriptor level3 else normal_2mib_block_descriptor granule_addr.

(** [div_ceil] *)
Definition stack_page_count : N := (EL0_STACK_SIZE + GRANULE_4KIB - 1) / GRANULE_4KIB.

Definition level3_entry (split_index j : N) : N :=
  let demo_page := (el0_demo - NORMAL_BASE - split_index * GRANULE_2MIB) / GRANULE_4KIB in
  let stack_first_page := (stack_base - NORMAL_BASE - split_index * GRANULE_2MIB) / GRANULE_4KIB in
  let granule_base := NORMAL_BASE + split_index * GRANULE_2MIB in
  let page_addr := granule_base + j * GRANULE_4KIB in
  if decide (j = demo_page) then normal_4kib_page_descriptor page_addr AP_EL0_RW
  else if decide (stack_first_page ≤ j ∧ j < stack_first_page + stack_page_count) then
    normal_4kib_page_descriptor page_addr (N.lor AP_EL0_RW UXN)
  else normal_4kib_page_descriptor page_addr 0.

Definition install (m : Mem) (sctlr : N) : option (Mem * Registers) :=
  let m := write_entry m level1 0 (device_block_descriptor 0) in
  let m := write_entry m level1 1 (table_descriptor level2) in
  split_index ← normal_split_index;
  let m := fill_entries m level2 (level2_entry split_index) 512 in
  let m := fill_entries m level3 (level3_entry split_index) 512 in
  Some (m, mkRegisters
    (N.lor MAIR_ATTR_DEVICE_NGNRNE (N.shiftl MAIR_ATTR_NORMAL_NC 8))
    (N.lor 25 (N.lor (N.shiftl 3 12) (N.shiftl 1 23)))
    level1
    (sctlr_with_mmu_and_el0_wfe sctlr)).
End install.

(** ** Filled tables *)

Lemma fill_entries_spec m t f n :
  mem_ok m → (n ≤ 512)%nat → (∀ i, i < N.of_nat n → f i < N.shiftl 1 64) →
  mem_ok (fill_entries m t f n) ∧
  (∀ i, i < 512 → read_entry (fill_entries m t f n) t i =
     if decide (i < N.of_nat n) then f i else read_entry m t i) ∧
  (∀ a, a ≠ t → page_at (fill_entries m t f n) a = page_at m a).
Proof.
  intros Hm. induction n as [|n IH]; intros Hn Hf.
  - split_and!; [done| |done]. intros i Hi. rewrite decide_False by lia. done.
  - destruct IH as (Hok & Hr & Ho); [lia|intros i Hi; apply Hf; lia|]. cbn [fill_entries].
    split_and!.
    + by apply mem_ok_write; [|lia].
    + intros i Hi. rewrite read_write by (done || lia || (apply Hf; lia)).
      case_decide as Heq; [injection Heq as <-; by rewrite decide_True by lia|].
      rewrite Hr by done. repeat case_decide; try done; [lia|].
      destruct Heq. f_equal. lia.
    + intros a Ha. rewrite page_at_write by done. by apply Ho.
Qed.

Lemma device_desc a :
  frame_addr a → let d := device_block_descriptor a in
  desc_type d = DESC_BLOCK ∧ desc_addr d = a ∧ N.testbit d 10 = true ∧ d < N.shiftl 1 64 ∧
  el0_readable d = false ∧ el0_writable d = false ∧ el0_executable d = false ∧ el1_executable d = false.
Proof.
  intros Ha. cbn zeta. unfold device_block_descriptor, el0_readable, el0_writable, el0_executable, el1_executable.
  rewrite desc_type_lor, desc_addr_lor by done.
  split_and!; rewrite ?(testbit_lor_frame _ _ 6), ?(testbit_lor_frame _ _ 7), ?(testbit_lor_frame _ _ 10),
    ?(testbit_lor_frame _ _ 53), ?(testbit_lor_frame _ _ 54) by (done || lia); try done.
  by apply desc_lt.
Qed.

Lemma normal_block_desc a :
  frame_addr a → let d := normal_2mib_block_descriptor a in
  desc_type d = DESC_BLOCK ∧ desc_addr d = a ∧ N.testbit d 10 = true ∧ d < N.shiftl 1 64 ∧
  el0_readable d = false ∧ el0_writable d = false.
Proof.
  intros Ha. cbn zeta. unfold normal_2mib_block_descriptor, el0_readable, el0_writable.
  rewrite desc_type_lor, desc_addr_lor by done.
  split_and!; rewrite ?(testbit_lor_frame _ _ 6), ?(testbit_lor_frame _ _ 7), ?(testbit_lor_frame _ _ 10),
    ?(testbit_lor_frame _ _ 53), ?(testbit_lor_frame _ _ 54) by (done || lia); try done.
  by apply desc_lt.
Qed.

(** A leaf maps the page-aligned or block-aligned address it names, offset kept. *)
Lemma leaf_aligned d size va :
  N.testbit d 10 = true → desc_addr d mod size = 0 → leaf d size va = Some (desc_addr d + va mod size, d).
Proof. intros Haf Hs. unfold leaf. by rewrite Haf, Hs, N.sub_0_r. Qed.

(** ** The kernel's map *)

Lemma frame_granule i : i < 512 → frame_addr (NORMAL_BASE + i * GRANULE_2MIB).
Proof. intros Hi. split; div_lia. Qed.

Lemma frame_page i j : i < 512 → j < 512 → frame_addr (NORMAL_BASE + i * GRANULE_2MIB + j * GRANULE_4KIB).
Proof. intros Hi Hj. split; div_lia. Qed.

Section kernel_map.
Context (level1 level2 level3 el0_demo stack_base : N).

(** Where the linker may put them: three distinct frames, and [EL0_STACK] aligned
    and wholly inside the granule of [el0_demo], all of it in RAM below 2 GiB. *)
Record linked : Prop := {
  linked_frames : frame_addr level1 ∧ frame_addr level2 ∧ frame_addr level3;
  linked_distinct : level1 ≠ level2 ∧ level1 ≠ level3 ∧ level2 ≠ level3;
  linked_low : NORMAL_BASE ≤ el0_demo < PRIVATE_REGION_BASE;
  linked_stack : stack_base mod GRANULE_4KIB = 0 ∧ NORMAL_BASE ≤ stack_base;
  linked_granule : el0_demo / GRANULE_2MIB = stack_base / GRANULE_2MIB ∧
    el0_demo / GRANULE_2MIB = (stack_base + EL0_STACK_SIZE - 1) / GRANULE_2MIB;
}.

Definition in_demo (va : N) : Prop := va / GRANULE_4KIB = el0_demo / GRANULE_4KIB.
Definition in_stack (va : N) : Prop := stack_base ≤ va < stack_base + EL0_STACK_SIZE.

#[local] Instance in_demo_dec va : Decision (in_demo va) := _.
#[local] Instance in_stack_dec va : Decision (in_stack va) := _.

Definition page_extra (va : N) : N :=
  if decide (in_demo va) then AP_EL0_RW else if decide (in_stack va) then N.lor AP_EL0_RW UXN else 0.

Context (Hl : linked).

Let split := (el0_demo - NORMAL_BASE) / GRANULE_2MIB.

Lemma split_index_ok : normal_split_index el0_demo stack_base = Some split.
Proof.
  destruct Hl as [_ _ [? ?] [? ?] [Hg _]]. unfold normal_split_index.
  rewrite (proj2 (checked_sub_Some el0_demo NORMAL_BASE _)) by (split; [done|reflexivity]). cbn [mbind option_bind].
  rewrite (proj2 (checked_sub_Some stack_base NORMAL_BASE _)) by (split; [done|reflexivity]). cbn [mbind option_bind].
  rewrite decide_True; [done|]. div_lia.
Qed.

Lemma split_lt : split < 512.
Proof. destruct Hl as [_ _ [? ?] _ _]. unfold split. div_lia. Qed.

Lemma page_extra_ok va : perm_ok (page_extra va).
Proof. unfold page_extra. repeat case_decide; by vm_compute. Qed.

(** Page numbers within one granule. *)
Lemma page_in_granule x g :
  NORMAL_BASE ≤ x → (x - NORMAL_BASE) / GRANULE_2MIB = g →
  (x - NORMAL_BASE - g * GRANULE_2MIB) / GRANULE_4KIB = x / GRANULE_4KIB mod 512 ∧
  x / GRANULE_4KIB = 512 * 512 + 512 * g + x / GRANULE_4KIB mod 512.
Proof. intros Hx <-. div_lia. Qed.

Lemma granule_of x : NORMAL_BASE ≤ x < PRIVATE_REGION_BASE → (x - NORMAL_BASE) / GRANULE_2MIB = l2_index x.
Proof. intros Hx. rewrite l2_index_eq. div_lia. Qed.

Lemma in_stack_pages va :
  in_stack va ↔ stack_base / GRANULE_4KIB ≤ va / GRANULE_4KIB < stack_base / GRANULE_4KIB + 4.
Proof.
  destruct Hl as [_ _ _ [? ?] _]. unfold in_stack, EL0_STACK_SIZE. split; intros; div_lia.
Qed.

(** The page entry for an address of the split granule. *)
Lemma level3_entry_va va :
  NORMAL_BASE ≤ va < PRIVATE_REGION_BASE → l2_index va = split →
  level3_entry el0_demo stack_base split (l3_index va) =
  normal_4kib_page_descriptor (va - va mod GRANULE_4KIB) (page_extra va).
Proof.
  intros Hva Hs. pose proof (in_stack_pages va) as Hst. destruct Hl as [_ _ [? ?] [? ?] [Hg1 Hg2]].
  destruct (page_in_granule el0_demo split) as [Hd1 Hd2]; [done|done|].
  destruct (page_in_granule stack_base split) as [Hs1 Hs2]; [done|unfold split; div_lia|].
  destruct (page_in_granule va split) as [Hv1 Hv2]; [lia|by rewrite granule_of|].
  assert (stack_base / GRANULE_4KIB mod 512 ≤ 508) as Hroom by (unfold EL0_STACK_SIZE in Hg2; div_lia).
  unfold level3_entry, page_extra. rewrite Hd1, Hs1, l3_index_eq. change stack_page_count with 4.
  assert (NORMAL_BASE + split * GRANULE_2MIB + va / GRANULE_4KIB mod 512 * GRANULE_4KIB =
    va - va mod GRANULE_4KIB) as -> by (clear -Hv2; div_lia).
  unfold in_demo in *. clear -Hst Hd2 Hs2 Hv2 Hroom.
  repeat case_decide; try done; exfalso; rewrite ?Hst in *; lia.
Qed.

(** What [install] leaves in memory, as the three tables' entries. *)
Lemma install_tables m sctlr :
  mem_ok m → ∃ m', install level1 level2 level3 el0_demo stack_base m sctlr =
      Some (m', mkRegisters 0x4400 (N.lor 25 (N.lor (N.shiftl 3 12) (N.shiftl 1 23))) level1
                  (sctlr_with_mmu_and_el0_wfe sctlr)) ∧
    mem_ok m' ∧
    (∀ i, i < 512 → read_entry m' level1 i =
       if decide (i = 0) then device_block_descriptor 0
       else if decide (i = 1) then table_descriptor level2 else read_entry m level1 i) ∧
    (∀ i, i < 512 → read_entry m' level2 i = level2_entry level3 split i) ∧
    (∀ i, i < 512 → read_entry m' level3 i = level3_entry el0_demo stack_base split i) ∧
    (∀ a, a ≠ level1 → a ≠ level2 → a ≠ level3 → page_at m' a = page_at m a).
Proof.
  intros Hm. destruct Hl as [(H1 & H2 & H3) (H12 & H13 & H23) _ _ _].
  unfold install. rewrite split_index_ok. cbn [mbind option_bind].
  set (m1 := write_entry m level1 0 _). set (m2 := write_entry m1 level1 1 _).
  assert (mem_ok m1) by by apply mem_ok_write. assert (mem_ok m2) by by apply mem_ok_write.
  destruct (fill_entries_spec m2 level2 (level2_entry level3 split) 512) as (Hok2 & Hr2 & Ho2); [done|done| |].
  { intros i Hi. unfold level2_entry. case_decide; [by apply table_desc_lt|].
    by apply normal_block_desc, frame_granule. }
  set (m3 := fill_entries m2 level2 _ 512) in *.
  destruct (fill_entries_spec m3 level3 (level3_entry el0_demo stack_base split) 512) as (Hok3 & Hr3 & Ho3); [done|done| |].
  { intros j Hj. pose proof split_lt. unfold level3_entry.
    repeat case_decide; (apply page_desc_lt; [by apply frame_page|by vm_compute]). }
  eexists. split; [reflexivity|]. split_and!; [done|..].
  - intros i Hi. rewrite (read_entry_page _ m3) by (by apply Ho3).
    rewrite (read_entry_page _ m2) by (by apply Ho2). unfold m2, m1.
    rewrite read_write; [|done|done|done|by apply table_desc_lt].
    rewrite read_write; [|done|done|done|by vm_compute].
    repeat case_decide; simplify_eq; try done.
  - intros i Hi. rewrite (read_entry_page _ m3) by (by apply Ho3). rewrite Hr2 by done. by rewrite decide_True by lia.
  - intros i Hi. rewrite Hr3 by done. by rewrite decide_True by lia.
  - intros a Ha1 Ha2 Ha3. rewrite Ho3, Ho2 by done. unfold m2, m1. by rewrite !page_at_write by done.
Qed.


(** The leaf the walk finds for every address of the 39-bit space. *)
Definition kernel_leaf (va : N) : option N :=
  if decide (va < NORMAL_BASE) then Some (device_block_descriptor 0)
  else if decide (va < PRIVATE_REGION_BASE) then
    if decide (l2_index va = split) then
      Some (normal_4kib_page_descriptor (va - va mod GRANULE_4KIB) (page_extra va))
    else Some (normal_2mib_block_descriptor (va - va mod GRANULE_2MIB))
  else None.

Lemma install_walk m m' regs sctlr va :
  mem_ok m → page_at m level1 = zero_page → va < N.shiftl 1 39 →
  install level1 level2 level3 el0_demo stack_base m sctlr = Some (m', regs) →
  walk m' level1 va = (λ d, (va, d)) <$> kernel_leaf va.
Proof.
  intros Hm Hz Hva Hi. destruct (install_tables m sctlr Hm) as (m1 & Hi1 & _ & H1 & H2 & H3 & _).
  rewrite Hi in Hi1. injection Hi1 as -> ->. destruct Hl as [(Hf1 & Hf2 & Hf3) _ _ _ _].
  unfold walk, kernel_leaf. rewrite decide_False by lia. rewrite H1 by apply table_index_lt.
  assert (l1_index va = 0 ↔ va < NORMAL_BASE) as Hi0 by (rewrite l1_index_eq; split; intros; div_lia).
  assert (l1_index va = 1 ↔ NORMAL_BASE ≤ va < PRIVATE_REGION_BASE) as Hi1 by (rewrite l1_index_eq; split; intros; div_lia).
  destruct (decide (va < NORMAL_BASE)) as [Hlow|Hlow].
  { rewrite (decide_True _ _ (proj2 Hi0 Hlow)). rewrite decide_True by done.
    rewrite leaf_aligned by done. cbn [fmap option_fmap option_map]. do 2 f_equal.
    change (desc_addr (device_block_descriptor 0)) with 0. clear -Hlow. div_lia. }
  rewrite (decide_False (P := l1_index va = 0)) by (intros ?%Hi0; lia).
  destruct (decide (va < PRIVATE_REGION_BASE)) as [Hmid|Hhigh].
  2:{ rewrite (decide_False (P := l1_index va = 1)) by (intros ?%Hi1; lia). rewrite read_zero by (done || apply table_index_lt). done. }
  rewrite (decide_True (P := l1_index va = 1)) by (apply Hi1; lia).
  rewrite table_desc_type, table_desc_addr, H2 by (done || apply table_index_lt).
  rewrite decide_False by done. rewrite decide_False by (intros Hne; by apply Hne). unfold level2_entry.
  destruct (decide (l2_index va = split)) as [Hs|Hs].
  - rewrite table_desc_type, table_desc_addr, H3 by (done || apply table_index_lt).
    rewrite decide_False by done. rewrite decide_False by (intros Hne; by apply Hne).
    rewrite level3_entry_va by (done || lia).
    assert (frame_addr (va - va mod GRANULE_4KIB)) as Hf by (clear -Hmid; split; div_lia).
    rewrite page_desc_type, decide_True by (done || apply page_extra_ok).
    rewrite leaf_aligned; rewrite ?page_desc_af, ?page_desc_addr by (done || apply page_extra_ok); [|done|clear; div_lia].
    cbn [fmap option_fmap option_map]. do 2 f_equal. clear. div_lia.
  - assert (NORMAL_BASE + l2_index va * GRANULE_2MIB = va - va mod GRANULE_2MIB) as ->.
    { rewrite l2_index_eq. clear -Hlow Hmid. div_lia. }
    assert (frame_addr (va - va mod GRANULE_2MIB)) as Hf by (clear -Hmid; split; div_lia).
    destruct (normal_block_desc _ Hf) as (Ht & Ha & Haf & _).
    rewrite Ht, decide_True by done. rewrite leaf_aligned; rewrite ?Ha; [|done|clear; div_lia].
    cbn [fmap option_fmap option_map]. do 2 f_equal. clear. div_lia.
Qed.

(** The map [install] builds is the identity on the first 2 GiB and nothing else:
    everything above faults, the whole private window included.  Device memory is
    never executable and never reachable from EL0; of normal memory EL0 can read
    and write exactly the page of [el0_demo] and the pages of [EL0_STACK]. *)
Theorem kernel_map_exact m sctlr :
  mem_ok m → page_at m level1 = zero_page →
  ∃ m' regs, install level1 level2 level3 el0_demo stack_base m sctlr = Some (m', regs) ∧
    ttbr0_el1 regs = level1 ∧
    ∀ va, va < N.shiftl 1 39 →
      (va < PRIVATE_REGION_BASE → ∃ d, walk m' level1 va = Some (va, d) ∧
         (el0_readable d = true ↔ in_demo va ∨ in_stack va) ∧
         (el0_writable d = true ↔ in_demo va ∨ in_stack va) ∧
         (va < NORMAL_BASE → el0_executable d = false ∧ el1_executable d = false)) ∧
      (PRIVATE_REGION_BASE ≤ va → walk m' level1 va = None).
Proof.
  intros Hm Hz. destruct (install_tables m sctlr Hm) as (m' & Hi & _).
  eexists m', _. split; [exact Hi|]. split; [done|]. intros va Hva. split.
  - intros Hlow. rewrite (install_walk m m' _ sctlr va Hm Hz Hva Hi). unfold kernel_leaf.
    destruct Hl as [_ _ [? ?] [? ?] [Hg1 Hg2]].
    destruct (decide (va < NORMAL_BASE)) as [Hdev|Hnorm].
    { eexists. split; [done|]. unfold in_demo, in_stack. cbn. split_and!; [split..|done];
        first [done|intros [?|?]; div_lia]. }
    rewrite decide_True by done.
    destruct (decide (l2_index va = split)) as [Hs|Hs].
    + eexists. split; [done|]. assert (frame_addr (va - va mod GRANULE_4KIB)) as Hf by (clear -Hlow; split; div_lia).
      unfold el0_readable, el0_writable. rewrite !page_desc_bit by done. unfold page_extra.
      repeat case_decide; cbn; split_and!; [split..|lia]; first [done|tauto].
    + assert (frame_addr (va - va mod GRANULE_2MIB)) as Hf by (clear -Hlow; split; div_lia).
      destruct (normal_block_desc _ Hf) as (_ & _ & _ & _ & Hr & Hw).
      eexists. split; [done|]. rewrite Hr, Hw.
      assert (¬ (in_demo va ∨ in_stack va)).
      { unfold in_demo, in_stack, split in *. rewrite <-granule_of in Hs by lia. intros [?|?]; div_lia. }
      split_and!; [split; [done|tauto]..|lia].
  - intros Hhigh. rewrite (install_walk m m' _ sctlr va Hm Hz Hva Hi). unfold kernel_leaf.
    rewrite !decide_False by (granules; lia). done.
Qed.
End kernel_map.
