(* ===== verification/ArmElf.v ===== *)
(** * ArmElf: the ELF64 parser of the ARM kernel

    Model of [kernel-arm/src/elf.rs]: header and program-header validation over
    checked reads, the segment list, the segments' bytes.  [image] is the layout
    [load_proof.rs] assembles its proof image with, for any list of headers; the
    parser recovers exactly what was laid out. *)

From S2P Require Import Prelude Bytes.

Local Open Scope N_scope.

Definition ELF_MAGIC : list N := [0x7f; 0x45; 0x4c; 0x46].
Definition EI_CLASS : N := 4.
Definition ELFCLASS64 : N := 2.
Definition EI_DATA : N := 5.
Definition ELFDATA2LSB : N := 1.
Definition E_TYPE_OFFSET : N := 16.
Definition ET_EXEC : N := 2.
Definition E_MACHINE_OFFSET : N := 18.
Definition EM_AARCH64 : N := 183.
Definition E_ENTRY_OFFSET : N := 24.
Definition E_PHOFF_OFFSET : N := 32.
Definition E_PHENTSIZE_OFFSET : N := 54.
Definition E_PHNUM_OFFSET : N := 56.
Definition ELF_HEADER_SIZE : N := 64.
Definition PHDR_SIZE : N := 56.
Definition PH_TYPE_OFFSET : N := 0.
Definition PH_FLAGS_OFFSET : N := 4.
Definition PH_OFFSET_OFFSET : N := 8.
Definition PH_VADDR_OFFSET : N := 16.
Definition PH_FILESZ_OFFSET : N := 32.
Definition PH_MEMSZ_OFFSET : N := 40.
Definition PT_LOAD : N := 1.
Definition PF_X : N := 1.
Definition PF_W : N := 2.
Definition PF_R : N := 4.

Inductive ElfError :=
  | TooShort
  | BadMagic
  | Not64Bit
  | NotLittleEndian
  | NotAarch64
  | NotExecutable
  | UnexpectedProgramHeaderSize
  | ProgramHeadersOutOfBounds
  | SegmentOutOfBounds
  | SegmentSmallerThanFileContent
  | NoLoadableSegments.

#[global] Instance ElfError_eq_dec : EqDecision ElfError.
Proof. solve_decision. Defined.

(** [Display for ElfError], which [net_process.rs] repeats. *)
Definition elf_error_display (e : ElfError) : string :=
  match e with
  | TooShort => "image is shorter than an ELF64 header"
  | BadMagic => "not an ELF image (bad magic)"
  | Not64Bit => "not ELFCLASS64"
  | NotLittleEndian => "not ELFDATA2LSB (little-endian)"
  | NotAarch64 => "e_machine is not EM_AARCH64"
  | NotExecutable => "e_type is not ET_EXEC"
  | UnexpectedProgramHeaderSize => "e_phentsize is not 56"
  | ProgramHeadersOutOfBounds => "program header table runs past the image"
  | SegmentOutOfBounds => "PT_LOAD segment range runs past the image"
  | SegmentSmallerThanFileContent => "PT_LOAD segment has p_memsz < p_filesz"
  | NoLoadableSegments => "no PT_LOAD segment"
  end.

Record LoadSegment := mkSegment {
  seg_flags : N;
  seg_offset : N;
  seg_vaddr : N;
  seg_filesz : N;
  seg_memsz : N;
}.

#[global] Instance LoadSegment_eq_dec : EqDecision LoadSegment.
Proof. solve_decision. Defined.

Definition is_readable (s : LoadSegment) : bool := negb (N.land (seg_flags s) PF_R =? 0).
Definition is_writable (s : LoadSegment) : bool := negb (N.land (seg_flags s) PF_W =? 0).
Definition is_executable (s : LoadSegment) : bool := negb (N.land (seg_flags s) PF_X =? 0).
Definition bss_len (s : LoadSegment) : N := saturating_sub (seg_memsz s) (seg_filesz s).

Record Elf64 := mkElf {
  elf_bytes : list N;
  elf_entry : N;
  elf_phoff : N;
  elf_phnum : N;
}.

(** [bytes.get(offset..end)] with [end = offset.checked_add(n)?], read
    little-endian. *)
Definition read_le (n : N) (buf : list N) (offset : N) : option N :=
  stop ← checked_add usize_max offset n;
  if decide (stop ≤ len buf) then Some (from_le (slice buf offset n)) else None.

Definition read_u16 := read_le 2.
Definition read_u32 := read_le 4.
Definition read_u64 := read_le 8.

(** One program header, if it is a complete [PT_LOAD]. *)
Definition load_segment (elf : Elf64) (i : N) : option LoadSegment :=
  let base := elf_phoff elf + i * PHDR_SIZE in
  p_type ← read_u32 (elf_bytes elf) (base + PH_TYPE_OFFSET);
  if decide (p_type ≠ PT_LOAD) then None else
  flags ← read_u32 (elf_bytes elf) (base + PH_FLAGS_OFFSET);
  offset ← read_u64 (elf_bytes elf) (base + PH_OFFSET_OFFSET);
  vaddr ← read_u64 (elf_bytes elf) (base + PH_VADDR_OFFSET);
  filesz ← read_u64 (elf_bytes elf) (base + PH_FILESZ_OFFSET);
  memsz ← read_u64 (elf_bytes elf) (base + PH_MEMSZ_OFFSET);
  Some (mkSegment flags offset vaddr filesz memsz).

Definition segments_unvalidated (elf : Elf64) : list LoadSegment :=
  omap (load_segment elf) (N.of_nat <$> seq 0 (N.to_nat (elf_phnum elf))).

Definition segments (elf : Elf64) : list LoadSegment := segments_unvalidated elf.
Definition load_segments (elf : Elf64) : list LoadSegment := segments elf.
Definition entry_point (elf : Elf64) : N := elf_entry elf.

(** [unwrap_or(&[])] on the slice; the sum saturates. *)
Definition segment_bytes (elf : Elf64) (segment : LoadSegment) : list N :=
  let start := seg_offset segment in
  let stop := saturating_add usize_max start (seg_filesz segment) in
  if decide (start ≤ stop ∧ stop ≤ len (elf_bytes elf)) then slice (elf_bytes elf) start (stop - start) else [].

(** The loop over the segments, counting them. *)
Fixpoint validate_segments (image_len : N) (l : list LoadSegment) (loadable : N) : Result ElfError N :=
  match l with
  | [] => Ok loadable
  | segment :: l =>
      if decide (seg_memsz segment < seg_filesz segment) then Err SegmentSmallerThanFileContent else
      file_end ← ok_or (checked_add u64_max (seg_offset segment) (seg_filesz segment)) SegmentOutOfBounds;
      if decide (image_len < file_end) then Err SegmentOutOfBounds else
      _ ← ok_or (checked_add u64_max (seg_vaddr segment) (seg_memsz segment)) SegmentOutOfBounds;
      validate_segments image_len l (loadable + 1)
  end.

(** [bytes[i]], after the length check. *)
Definition byte_at (buf : list N) (i : N) : N := default 0 (buf !! N.to_nat i).

Definition parse (buf : list N) : Result ElfError Elf64 :=
  if decide (len buf < ELF_HEADER_SIZE) then Err TooShort else
  if decide (take 4 buf ≠ ELF_MAGIC) then Err BadMagic else
  if decide (byte_at buf EI_CLASS ≠ ELFCLASS64) then Err Not64Bit else
  if decide (byte_at buf EI_DATA ≠ ELFDATA2LSB) then Err NotLittleEndian else
  e_type ← ok_or (read_u16 buf E_TYPE_OFFSET) TooShort;
  if decide (e_type ≠ ET_EXEC) then Err NotExecutable else
  e_machine ← ok_or (read_u16 buf E_MACHINE_OFFSET) TooShort;
  if decide (e_machine ≠ EM_AARCH64) then Err NotAarch64 else
  phentsize ← ok_or (read_u16 buf E_PHENTSIZE_OFFSET) TooShort;
  if decide (phentsize ≠ PHDR_SIZE) then Err UnexpectedProgramHeaderSize else
  entry ← ok_or (read_u64 buf E_ENTRY_OFFSET) TooShort;
  phoff ← ok_or (read_u64 buf E_PHOFF_OFFSET) TooShort;
  phnum ← ok_or (read_u16 buf E_PHNUM_OFFSET) TooShort;
  table_end ← ok_or (table_len ← checked_mul usize_max phnum PHDR_SIZE; checked_add usize_max phoff table_len)
                ProgramHeadersOutOfBounds;
  if decide (len buf < table_end) then Err ProgramHeadersOutOfBounds else
  let elf := mkElf buf entry phoff phnum in
  loadable ← validate_segments (len buf) (segments_unvalidated elf) 0;
  if decide (loadable = 0) then Err NoLoadableSegments else Ok elf.

(** ** What a parsed image guarantees *)

Definition segment_ok (elf : Elf64) (s : LoadSegment) : Prop :=
  seg_filesz s ≤ seg_memsz s ∧ seg_offset s + seg_filesz s ≤ len (elf_bytes elf) ∧
  seg_vaddr s + seg_memsz s ≤ u64_max ∧
  segment_bytes elf s = slice (elf_bytes elf) (seg_offset s) (seg_filesz s) ∧
  len (segment_bytes elf s) = seg_filesz s.

Definition elf_ok (elf : Elf64) : Prop :=
  elf_phoff elf + elf_phnum elf * PHDR_SIZE ≤ len (elf_bytes elf) ∧
  segments elf ≠ [] ∧ Forall (segment_ok elf) (segments elf).

Lemma validate_segments_Ok n l c k :
  validate_segments n l c = Ok k ↔
  k = c + len l ∧
  Forall (λ s, seg_filesz s ≤ seg_memsz s ∧ seg_offset s + seg_filesz s ≤ n ∧
    seg_offset s + seg_filesz s ≤ u64_max ∧ seg_vaddr s + seg_memsz s ≤ u64_max) l.
Proof.
  revert c. induction l as [|s l IH]; intros c; cbn [validate_segments].
  - rewrite Forall_nil. unfold len. cbn. split; [intros [= <-]; split; [lia|done]|intros [-> _]; f_equal; lia].
  - rewrite Forall_cons, len_nil_cons. unfold checked_add. case_decide; [split; [done|lia]|].
    destruct (decide (seg_offset s + seg_filesz s ≤ u64_max)); cbn; [|split; [done|lia]].
    destruct (decide (n < _)); [split; [done|lia]|].
    destruct (decide (seg_vaddr s + seg_memsz s ≤ u64_max)); cbn; [|split; [done|lia]]. rewrite IH.
    split; [intros [-> HF]|intros [-> [_ HF]]]; (split; [lia|]); [split; [lia|done]|done].
Qed.

(** A property of a fallible computation's result. *)
Lemma segment_ok_intro elf s :
  len (elf_bytes elf) ≤ u64_max →
  seg_filesz s ≤ seg_memsz s → seg_offset s + seg_filesz s ≤ len (elf_bytes elf) →
  seg_vaddr s + seg_memsz s ≤ u64_max → segment_ok elf s.
Proof.
  intros Hl H1 H2 H3. assert (segment_bytes elf s = slice (elf_bytes elf) (seg_offset s) (seg_filesz s)) as Hb.
  { unfold segment_bytes, saturating_add. change usize_max with u64_max.
    rewrite N.min_l by lia. rewrite decide_True by lia. f_equal. lia. }
  split_and!; try done. rewrite Hb. by apply length_slice.
Qed.

Ltac parse_step H :=
  repeat match type of H with
  | (if decide ?P then Err _ else _) = Ok _ => destruct (decide P); [done|]
  | (ok_or ?o ?e ≫= _) = Ok _ =>
      let x := fresh "x" in let E := fresh "E" in destruct o as [x|] eqn:E; cbn [ok_or mbind Result_bind] in H; [|done]
  end.

Lemma parse_Ok buf elf :
  len buf ≤ u64_max → parse buf = Ok elf →
  elf_ok elf ∧ elf_bytes elf = buf ∧
  read_u64 buf E_ENTRY_OFFSET = Some (elf_entry elf) ∧ read_u64 buf E_PHOFF_OFFSET = Some (elf_phoff elf) ∧
  read_u16 buf E_PHNUM_OFFSET = Some (elf_phnum elf).
Proof.
  intros Hlen Hp. unfold parse in Hp. parse_step Hp.
  apply Result_bind_Ok in Hp as (k & Hv & Hp). destruct (decide (k = 0)) as [|Hk]; [done|]. injection Hp as <-.
  apply validate_segments_Ok in Hv as [-> HF]. split_and!; [split_and!|done..].
  - cbn. apply bind_Some in E5 as (tl & ?%checked_mul_Some & ?%checked_add_Some). lia.
  - intros Hnil. apply Hk. unfold segments in Hnil. rewrite Hnil. done.
  - eapply Forall_impl; [exact HF|]. intros s (? & ? & ? & ?). by apply segment_ok_intro.
Qed.

(** ** Laying out an image

    [build_proof_image] of [load_proof.rs], for any entry point, headers and
    payload. *)

Definition build_header (entry phnum : N) : list N :=
  let image := replicate 64 0 in
  let image := copy_at image 0 ELF_MAGIC in
  let image := copy_at image 4 [ELFCLASS64] in
  let image := copy_at image 5 [ELFDATA2LSB] in
  let image := copy_at image 16 (le_bytes 2 ET_EXEC) in
  let image := copy_at image 18 (le_bytes 2 EM_AARCH64) in
  let image := copy_at image 24 (le_bytes 8 entry) in
  let image := copy_at image 32 (le_bytes 8 ELF_HEADER_SIZE) in
  let image := copy_at image 54 (le_bytes 2 PHDR_SIZE) in
  copy_at image 56 (le_bytes 2 (as_u16 phnum)).

Definition build_phdr (phdr : LoadSegment) : list N :=
  let entry := replicate 56 0 in
  let entry := copy_at entry 0 (le_bytes 4 PT_LOAD) in
  let entry := copy_at entry 4 (le_bytes 4 (seg_flags phdr)) in
  let entry := copy_at entry 8 (le_bytes 8 (seg_offset phdr)) in
  let entry := copy_at entry 16 (le_bytes 8 (seg_vaddr phdr)) in
  let entry := copy_at entry 32 (le_bytes 8 (seg_filesz phdr)) in
  copy_at entry 40 (le_bytes 8 (seg_memsz phdr)).

Definition build_image (entry : N) (phdrs : list LoadSegment) (payload : list N) : list N :=
  build_header entry (len phdrs) ++ concat (build_phdr <$> phdrs) ++ payload.

Lemma length_build_header entry n : length (build_header entry n) = 64%nat.
Proof. reflexivity. Qed.

Lemma length_build_phdr p : length (build_phdr p) = 56%nat.
Proof. reflexivity. Qed.

Lemma slice_skip (a b : list N) off n : slice (a ++ b) (len a + off) n = slice b off n.
Proof. unfold slice, len. f_equal. rewrite N2Nat.inj_add, Nat2N.id. apply drop_app_add. Qed.

Lemma length_build_phdrs phs : length (concat (build_phdr <$> phs)) = (56 * length phs)%nat.
Proof.
  induction phs as [|p phs IH]; [done|].
  rewrite fmap_cons, concat_cons, length_app, IH, length_build_phdr. cbn [length]. lia.
Qed.

(** A field of a literal prefix of the buffer. *)
Lemma read_le_prefix n (a b : list N) off v :
  off + n ≤ len a → off + n ≤ u64_max → slice (a ++ b) off n = le_bytes (N.to_nat n) v →
  v < 256 ^ n → read_le n (a ++ b) off = Some v.
Proof.
  intros Hl Hu Hs Hv. unfold read_le. change usize_max with u64_max.
  rewrite (proj2 (checked_add_Some u64_max off n (off + n))) by lia. cbn [mbind option_bind].
  rewrite decide_True by (rewrite len_app; lia). rewrite Hs, from_le_bytes; [done|by rewrite N2Nat.id].
Qed.

Lemma read_le_skip n (a b : list N) off :
  len a + off + n ≤ u64_max → read_le n (a ++ b) (len a + off) = read_le n b off.
Proof.
  intros Hu. unfold read_le. change usize_max with u64_max.
  rewrite (proj2 (checked_add_Some u64_max (len a + off) n (len a + off + n))) by lia.
  rewrite (proj2 (checked_add_Some u64_max off n (off + n))) by lia. cbn [mbind option_bind].
  rewrite slice_skip, len_app. by destruct (decide (off + n ≤ len b)), (decide (len a + off + n ≤ len a + len b)); try lia.
Qed.

Definition fields_fit (s : LoadSegment) : Prop :=
  seg_flags s < 256 ^ 4 ∧ seg_offset s < 256 ^ 8 ∧ seg_vaddr s < 256 ^ 8 ∧
  seg_filesz s < 256 ^ 8 ∧ seg_memsz s < 256 ^ 8.

Lemma load_segment_built elf i pre p post :
  elf_bytes elf = pre ++ build_phdr p ++ post → elf_phoff elf + i * PHDR_SIZE = len pre →
  fields_fit p → len (elf_bytes elf) ≤ u64_max → load_segment elf i = Some p.
Proof.
  intros Hb Hbase (H1 & H2 & H3 & H4 & H5) Hl. unfold load_segment. rewrite Hbase, Hb in *.
  assert (len pre + 56 ≤ u64_max) as Hu.
  { rewrite !len_app in Hl. unfold len in Hl at 2. rewrite length_build_phdr in Hl. lia. }
  assert (∀ n off v, off + n ≤ 56 → slice (build_phdr p ++ post) off n = le_bytes (N.to_nat n) v → v < 256 ^ n →
    read_le n (pre ++ build_phdr p ++ post) (len pre + off) = Some v) as Hread.
  { intros n off v Ho Hs Hv. rewrite read_le_skip by lia. apply read_le_prefix; [|lia|done|done].
    unfold len. by rewrite length_build_phdr. }
  unfold read_u32, read_u64.
  rewrite (Hread 4 PH_TYPE_OFFSET PT_LOAD) by done. cbn [mbind option_bind]. rewrite decide_False by naive_solver.
  rewrite (Hread 4 PH_FLAGS_OFFSET (seg_flags p)) by done. cbn [mbind option_bind].
  rewrite (Hread 8 PH_OFFSET_OFFSET (seg_offset p)) by done. cbn [mbind option_bind].
  rewrite (Hread 8 PH_VADDR_OFFSET (seg_vaddr p)) by done. cbn [mbind option_bind].
  rewrite (Hread 8 PH_FILESZ_OFFSET (seg_filesz p)) by done. cbn [mbind option_bind].
  rewrite (Hread 8 PH_MEMSZ_OFFSET (seg_memsz p)) by done. cbn [mbind option_bind].
  by destruct p.
Qed.

Lemma omap_seq {A} (f : N → option A) (l : list A) k :
  (∀ j x, l !! j = Some x → f (N.of_nat (k + j)) = Some x) → omap f (N.of_nat <$> seq k (length l)) = l.
Proof.
  revert k. induction l as [|x l IH]; intros k Hf; [done|]. cbn [length seq fmap list_fmap omap list_omap].
  specialize (Hf 0%nat x eq_refl) as H0. rewrite Nat.add_0_r in H0. rewrite H0. f_equal.
  apply IH. intros j y Hj. rewrite Nat.add_succ_comm. by apply Hf.
Qed.

Lemma segments_built entry phs payload :
  let image := build_image entry phs payload in
  let elf := mkElf image entry 64 (len phs) in
  Forall fields_fit phs → len image ≤ u64_max → segments_unvalidated elf = phs.
Proof.
  cbn zeta. intros HF Hl. unfold segments_unvalidated. cbn [elf_phnum]. unfold len at 2. rewrite Nat2N.id.
  apply omap_seq. intros j p Hj. cbn [Nat.add].
  apply (load_segment_built _ _ (build_header entry (len phs) ++ concat (build_phdr <$> take j phs)) p
    (concat (build_phdr <$> drop (S j) phs) ++ payload)); [..|by eapply Forall_lookup_1|done].
  - cbn [elf_bytes]. unfold build_image. rewrite <-(take_drop_middle phs j p Hj) at 2.
    rewrite fmap_app, fmap_cons, concat_app, concat_cons. by rewrite <-!app_assoc.
  - cbn [elf_phoff]. unfold len. rewrite length_app, length_build_header, length_build_phdrs, length_take.
    apply lookup_lt_Some in Hj. unfold PHDR_SIZE. lia.
Qed.

(** C29. What is laid out parses back: for any entry point, any non-empty list of
    loadable headers that lie within the image, and any payload, the parser
    accepts the image and reports exactly that entry point and those segments, in
    order. *)
Theorem elf_roundtrip entry phs payload :
  let image := build_image entry phs payload in
  entry < 256 ^ 8 → phs ≠ [] → len phs < 65536 → Forall fields_fit phs → len image ≤ u64_max →
  Forall (λ s, seg_filesz s ≤ seg_memsz s ∧ seg_offset s + seg_filesz s ≤ len image ∧
               seg_vaddr s + seg_memsz s ≤ u64_max) phs →
  ∃ elf, parse image = Ok elf ∧ entry_point elf = entry ∧ load_segments elf = phs ∧
    Forall (λ s, segment_bytes elf s = slice image (seg_offset s) (seg_filesz s)) phs.
Proof.
  cbn zeta. intros Hentry Hne Hnum Hfit Hlen Hok. set (image := build_image entry phs payload) in *.
  pose proof (segments_built entry phs payload Hfit Hlen) as Hsegs. fold image in Hsegs.
  assert (64 + 56 * len phs ≤ len image) as Htable.
  { unfold image, build_image, len. rewrite !length_app, length_build_header, length_build_phdrs. lia. }
  assert (∀ n off v, off + n ≤ 64 → slice image off n = le_bytes (N.to_nat n) v → v < 256 ^ n →
    read_le n image off = Some v) as Hread.
  { intros n off v Ho Hs Hv. unfold image, build_image in *. apply read_le_prefix; [|unfold u64_max; lia|done|done].
    unfold len. by rewrite length_build_header. }
  exists (mkElf image entry 64 (len phs)). split_and!; [|done|done|].
  - unfold parse. rewrite decide_False by (unfold ELF_HEADER_SIZE; lia).
    rewrite decide_False by (intros Hn; by apply Hn). rewrite decide_False by (intros Hn; by apply Hn).
    rewrite decide_False by (intros Hn; by apply Hn). unfold read_u16, read_u64.
    rewrite (Hread 2 E_TYPE_OFFSET ET_EXEC) by done. cbn [ok_or mbind Result_bind]. rewrite decide_False by naive_solver.
    rewrite (Hread 2 E_MACHINE_OFFSET EM_AARCH64) by done. cbn [ok_or mbind Result_bind]. rewrite decide_False by naive_solver.
    rewrite (Hread 2 E_PHENTSIZE_OFFSET PHDR_SIZE) by done. cbn [ok_or mbind Result_bind]. rewrite decide_False by naive_solver.
    rewrite (Hread 8 E_ENTRY_OFFSET entry) by done. cbn [ok_or mbind Result_bind].
    rewrite (Hread 8 E_PHOFF_OFFSET 64) by done. cbn [ok_or mbind Result_bind].
    rewrite (Hread 2 E_PHNUM_OFFSET (len phs)); [|done|by transitivity (le_bytes 2 (as_u16 (len phs))); [|unfold as_u16; rewrite N.mod_small]|done].
    cbn [ok_or mbind Result_bind]. unfold PHDR_SIZE. change usize_max with u64_max.
    rewrite (proj2 (checked_mul_Some u64_max (len phs) 56 (len phs * 56))) by (unfold u64_max; lia). cbn [mbind option_bind].
    rewrite (proj2 (checked_add_Some u64_max 64 (len phs * 56) (64 + len phs * 56))) by (unfold u64_max; lia).
    cbn [ok_or mbind Result_bind]. rewrite decide_False by lia. rewrite Hsegs.
    rewrite (proj2 (validate_segments_Ok (len image) phs 0 (len phs))); cbn [ok_or mbind Result_bind].
    + rewrite decide_False; [done|]. unfold len. destruct phs; [done|cbn [length]; lia].
    + split; [lia|]. eapply Forall_impl; [exact Hok|]. cbn. intros s (? & ? & ?). lia.
  - eapply Forall_impl; [exact Hok|]. cbn. intros s (? & ? & ?).
    by apply (segment_ok_intro (mkElf image entry 64 (len phs)) s).
Qed.
