(* ===== verification/ArmReclaim.v ===== *)
(** * ArmReclaim: which frames an address space may free

    Model of [kernel-arm/src/reclaim.rs].  [plan_frees] validates every extent an
    address space says it owns, then sorts them and refuses any overlap, so that a
    plan is either complete and safe or frees nothing. *)

From S2P Require Import Prelude Sorting.

Local Open Scope N_scope.

Definition FRAME_BYTES : N := 4096.

Record Extent := mkExtent { ext_addr : N; ext_bytes : N }.

#[global] Instance Extent_eq_dec : EqDecision Extent.
Proof. solve_decision. Defined.

Inductive PlanError :=
  | Misaligned (addr : N)
  | BadLength (addr : N)
  | OutsideHeap (addr : N)
  | Overlap (addr : N).

#[global] Instance PlanError_eq_dec : EqDecision PlanError.
Proof. solve_decision. Defined.

Definition plan_error_as_str (e : PlanError) : string :=
  match e with
  | Misaligned _ => "extent is not 4 KiB-aligned"
  | BadLength _ => "extent has zero or overflowing length"
  | OutsideHeap _ => "extent is outside the kernel heap"
  | Overlap _ => "two owned extents overlap (double free refused)"
  end.

(** The two loops that collect the extents. *)
Definition frame_extents (frames : list N) : list Extent := (λ addr, mkExtent addr FRAME_BYTES) <$> frames.

Fixpoint block_extents (blocks : list (N * N)) : Result PlanError (list Extent) :=
  match blocks with
  | [] => Ok []
  | (addr, count) :: blocks =>
      n ← ok_or (checked_mul u64_max count FRAME_BYTES) (BadLength addr);
      rest ← block_extents blocks;
      Ok (mkExtent addr n :: rest)
  end.

Fixpoint check_extents (heap_start heap_end : N) (l : list Extent) : Result PlanError () :=
  match l with
  | [] => Ok ()
  | e :: l =>
      if decide (ext_addr e mod FRAME_BYTES ≠ 0) then Err (Misaligned (ext_addr e)) else
      if decide (ext_bytes e = 0) then Err (BadLength (ext_addr e)) else
      stop ← ok_or (checked_add u64_max (ext_addr e) (ext_bytes e)) (BadLength (ext_addr e));
      if decide (ext_addr e < heap_start ∨ heap_end < stop) then Err (OutsideHeap (ext_addr e))
      else check_extents heap_start heap_end l
  end.

(** [extents.windows(2)] *)
Fixpoint check_overlaps (l : list Extent) : Result PlanError () :=
  match l with
  | e :: (f :: _) as rest =>
      if decide (ext_addr f < ext_addr e + ext_bytes e) then Err (Overlap (ext_addr f))
      else check_overlaps rest
  | _ => Ok ()
  end.

(** [sort_unstable_by_key(|e| e.addr)]; the order of equal addresses, which the
    overlap check refuses, is left open by the source and fixed here. *)
Definition extent_key (e : Extent) : list Z := [Z.of_N (ext_addr e); Z.of_N (ext_bytes e)].
Definition sort_extents (l : list Extent) : list Extent := sort extent_key l.

(** [reserved] is whether [try_reserve] found memory for the list itself. *)
Definition plan_frees (reserved : bool) (tables pages : list N) (blocks : list (N * N))
    (heap_start heap_end : N) : Result PlanError (list Extent) :=
  if negb reserved then Err (BadLength 0) else
  blocks ← block_extents blocks;
  let extents := frame_extents (tables ++ pages) ++ blocks in
  _ ← check_extents heap_start heap_end extents;
  let extents := sort_extents extents in
  _ ← check_overlaps extents;
  Ok extents.

(** ** What a plan is *)

Definition ext_end (e : Extent) : N := ext_addr e + ext_bytes e.

Definition extent_fits (heap_start heap_end : N) (e : Extent) : Prop :=
  ext_addr e mod FRAME_BYTES = 0 ∧ 0 < ext_bytes e ∧ ext_end e ≤ u64_max ∧
  heap_start ≤ ext_addr e ∧ ext_end e ≤ heap_end.

(** Everything the space declares. *)
Definition declared (tables pages : list N) (blocks : list (N * N)) : list Extent :=
  frame_extents (tables ++ pages) ++ ((λ '(addr, count), mkExtent addr (count * FRAME_BYTES)) <$> blocks).

Definition ends_before (e f : Extent) : Prop := ext_end e ≤ ext_addr f.

#[global] Instance extent_key_inj : Inj (=) (=) extent_key.
Proof. intros [a n] [b k] [= ?%N2Z.inj ?%N2Z.inj]. by subst. Qed.

Lemma block_extents_Ok blocks l :
  block_extents blocks = Ok l ↔
  l = (λ '(addr, count), mkExtent addr (count * FRAME_BYTES)) <$> blocks ∧
  Forall (λ b, b.2 * FRAME_BYTES ≤ u64_max) blocks.
Proof.
  revert l. induction blocks as [|[a c] blocks IH]; intros l; cbn [block_extents].
  - split; [intros [= <-]; split; [done|constructor]|intros [-> _]; done].
  - rewrite Forall_cons. unfold checked_mul. cbn [snd].
    destruct (decide (c * FRAME_BYTES ≤ u64_max)); cbn [ok_or mbind Result_bind]; [|split; [done|naive_solver]].
    rewrite Result_bind_Ok. setoid_rewrite IH. split.
    + intros (rest & [-> HF] & [= <-]). done.
    + intros [-> [_ HF]]. eexists. split; [split; [reflexivity|done]|done].
Qed.

Lemma check_extents_Ok hs he l : check_extents hs he l = Ok () ↔ Forall (extent_fits hs he) l.
Proof.
  induction l as [|e l IH]; cbn [check_extents]; [split; [constructor|done]|].
  rewrite Forall_cons, <-IH. unfold extent_fits, ext_end, checked_add.
  repeat (case_decide; cbn [ok_or mbind Result_bind]); split; try done; intros; try tauto; try lia.
  split_and!; done || lia.
Qed.

Lemma ends_before_sorted l :
  Forall (λ e, 0 < ext_bytes e) l → StronglySorted (key_le extent_key) l →
  check_overlaps l = Ok () ↔ StronglySorted ends_before l.
Proof.
  intros HF Hs. induction l as [|e l IH]; [split; [constructor|done]|].
  apply Forall_cons in HF as [He HF]. apply StronglySorted_inv in Hs as [Hs Hle].
  destruct l as [|f l]; [split; [by repeat constructor|done]|].
  change (check_overlaps (e :: f :: l)) with
    (if decide (ext_addr f < ext_addr e + ext_bytes e) then Err (Overlap (ext_addr f)) else check_overlaps (f :: l)).
  specialize (IH HF Hs). case_decide as Hov.
  - split; [done|]. intros [_ Hb]%StronglySorted_inv. apply Forall_cons in Hb as [Hb _].
    unfold ends_before, ext_end in Hb. lia.
  - rewrite IH. split; [|by intros [? _]%StronglySorted_inv]. intros Hb. constructor; [done|].
    apply StronglySorted_inv in Hb as [_ Hb]. constructor; [unfold ends_before, ext_end; lia|].
    eapply Forall_impl; [exact Hb|]. unfold ends_before, ext_end. intros g Hg. lia.
Qed.

Lemma sort_extents_sorted l :
  Forall (λ e, 0 < ext_bytes e) l → StronglySorted ends_before l → sort_extents l = l.
Proof.
  intros HF Hs. pose proof (key_le_antisym extent_key).
  eapply (StronglySorted_unique (key_le extent_key)); [apply sort_sorted| |apply sort_perm].
  induction Hs as [|e l Hs IH Hb]; [constructor|]. apply Forall_cons in HF as [He HF].
  constructor; [by apply IH|]. eapply Forall_impl; [exact Hb|]. intros f Hf.
  unfold ends_before, ext_end in Hf. unfold key_le, cmp, extent_key. cbn.
  destruct (Z.compare_spec (Z.of_N (ext_addr e)) (Z.of_N (ext_addr f))); [lia|done|lia].
Qed.

Lemma plan_frees_iff tables pages blocks hs he plan :
  plan_frees true tables pages blocks hs he = Ok plan ↔
  Forall (λ b, b.2 * FRAME_BYTES ≤ u64_max) blocks ∧
  plan ≡ₚ declared tables pages blocks ∧
  Forall (extent_fits hs he) plan ∧ StronglySorted ends_before plan.
Proof.
  unfold plan_frees, declared. cbn [negb]. rewrite Result_bind_Ok. setoid_rewrite block_extents_Ok. split.
  - intros (bl & [-> HB] & ([] & HF%check_extents_Ok & ([] & Hov & [= <-])%Result_bind_Ok)%Result_bind_Ok).
    split_and!; [done|apply sort_perm| |].
    + by rewrite (sort_perm extent_key).
    + apply ends_before_sorted; [|apply sort_sorted|done].
      rewrite (sort_perm extent_key). eapply Forall_impl; [exact HF|]. by intros e (_ & ? & _).
  - intros (HB & Hp & HF & Hs). eexists. split; [split; [reflexivity|done]|].
    assert (Forall (λ e, 0 < ext_bytes e) plan) as Hpos by (eapply Forall_impl; [exact HF|]; by intros e (_ & ? & _)).
    apply Result_bind_Ok. exists (). split; [apply check_extents_Ok; by rewrite <-Hp|].
    unfold sort_extents. rewrite (sort_unique extent_key _ plan) by (by rewrite Hp).
    fold (sort_extents plan). rewrite sort_extents_sorted by done.
    apply Result_bind_Ok. exists (). split; [|done].
    apply ends_before_sorted; [done| |done]. rewrite <-(sort_extents_sorted plan) by done. apply sort_sorted.
Qed.

(** A plan is produced exactly when it is safe to act on: it holds the declared
    extents, each once and nothing else, in address order; every one is aligned,
    non-empty and inside the heap, and each ends before the next begins, so that no
    byte is freed twice.  Any violation anywhere refuses the whole plan. *)
Theorem plan_frees_exact tables pages blocks hs he plan :
  plan_frees true tables pages blocks hs he = Ok plan ↔
  Forall (λ b, b.2 * FRAME_BYTES ≤ u64_max) blocks ∧
  plan ≡ₚ declared tables pages blocks ∧
  Forall (extent_fits hs he) plan ∧ StronglySorted ends_before plan.
Proof. apply plan_frees_iff. Qed.
