(* ===== verification/StateErr.v ===== *)
(** * StateErr: computations with a state and an error

    The shape of a [&mut self] method that returns [Result]: the state it leaves is
    there on both paths, and [?] stops at the first error. *)

From S2P Require Import Prelude.

Definition SE (S E A : Type) : Type := S → Result E A * S.

#[global] Instance SE_ret {S E} : MRet (SE S E) := λ A a s, (Ok a, s).
#[global] Instance SE_bind {S E} : MBind (SE S E) := λ A B f m s,
  match m s with
  | (Ok a, s) => f a s
  | (Err e, s) => (Err e, s)
  end.

Section ops.
Context {S E : Type}.

Definition raise {A} (e : E) : SE S E A := λ s, (Err e, s).
Definition of_result {A} (r : Result E A) : SE S E A := λ s, (r, s).
Definition modify (f : S → S) : SE S E () := λ s, (Ok (), f s).

(** [m.map_err(f)?] *)
Definition with_err {F A} (f : F → E) (m : SE S F A) : SE S E A := λ s,
  match m s with
  | (Ok a, s) => (Ok a, s)
  | (Err e, s) => (Err (f e), s)
  end.

(** A [for] loop whose body may stop the computation, threading a value. *)
Fixpoint for_each {A B} (l : list A) (b : B) (body : A → B → SE S E B) : SE S E B :=
  match l with
  | [] => mret b
  | a :: l => b ← body a b; for_each l b body
  end.

Lemma bind_SE_Ok {A B} (m : SE S E A) (f : A → SE S E B) s b s' :
  (m ≫= f) s = (Ok b, s') ↔ ∃ a s1, m s = (Ok a, s1) ∧ f a s1 = (Ok b, s').
Proof. unfold mbind, SE_bind. destruct (m s) as [[a|e] s1]; naive_solver. Qed.

Lemma bind_SE_run {A B} (m : SE S E A) (f : A → SE S E B) s a s1 :
  m s = (Ok a, s1) → (m ≫= f) s = f a s1.
Proof. unfold mbind, SE_bind. by intros ->. Qed.

(** What holds of the state, whatever the outcome: [P] is kept by [m] on success
    and on error. *)
Definition keeps (P : S → Prop) {A} (m : SE S E A) : Prop := ∀ s, P s → P (m s).2.

Lemma keeps_bind P {A B} (m : SE S E A) (f : A → SE S E B) :
  keeps P m → (∀ a, keeps P (f a)) → keeps P (m ≫= f).
Proof.
  intros Hm Hf s Hs. specialize (Hm s Hs). unfold mbind, SE_bind.
  destruct (m s) as [[a|e] s1]; [by apply Hf|done].
Qed.

(** The same, with what the first computation returned. *)
Lemma keeps_bind_Ok P {A B} (m : SE S E A) (f : A → SE S E B) :
  keeps P m → (∀ s a s', P s → m s = (Ok a, s') → P s' → P (f a s').2) → keeps P (m ≫= f).
Proof.
  intros Hm Hf s Hs. pose proof (Hm s Hs) as Hs'. unfold mbind, SE_bind.
  destruct (m s) as [[a|e] s1] eqn:Hrun; [|done]. by apply (Hf s a s1).
Qed.

Lemma keeps_ret P {A} (a : A) : keeps P (mret a : SE S E A).
Proof. by intros s. Qed.

Lemma keeps_raise P {A} (e : E) : keeps P (raise e : SE S E A).
Proof. by intros s. Qed.

Lemma keeps_for_each P {A B} (l : list A) (b : B) (body : A → B → SE S E B) :
  (∀ a b, a ∈ l → keeps P (body a b)) → keeps P (for_each l b body).
Proof.
  revert b. induction l as [|a l IH]; intros b Hb; [apply keeps_ret|].
  apply keeps_bind; [apply Hb; by left|]. intros b'. apply IH. intros. apply Hb. by right.
Qed.

Lemma for_each_app {A B} (l k : list A) (b : B) (body : A → B → SE S E B) s :
  for_each (l ++ k) b body s = (for_each l b body ≫= λ b, for_each k b body) s.
Proof.
  revert b s. induction l as [|a l IH]; intros b s; [done|]. cbn [app for_each].
  unfold mbind, SE_bind. destruct (body a b s) as [[b'|e] s']; [|done]. rewrite IH. done.
Qed.
End ops.

Create HintDb keeps.
#[export] Hint Resolve keeps_ret keeps_raise : keeps.
