(* ===== verification/ArmLoader.v ===== *)
(** * ArmLoader: loading an ELF image into an address space

    Model of [kernel-arm/src/loader.rs].  The trait [PrivatePageMapper] is a class
    of two operations (mapping a page, writing through the reference it returned);
    [PrivatePageMapperLaws] is what the loader relies on, and the theorems about
    [load] are proved against it.  [ArmSpace] discharges it for the page tables of
    [process.rs]. *)

From S2P Require Import Prelude Bytes StateErr ArmVm ArmElf.

Local Open Scope N_scope.

Definition STACK_TOP : N := PRIVATE_REGION_END.
Definition STACK_SIZE : N := 4 * GRANULE_4KIB.
Definition STACK_BASE : N := STACK_TOP - STACK_SIZE.
Definition STACK_GUARD_SIZE : N := 16 * GRANULE_4KIB.
Definition SEGMENT_WINDOW_BASE : N := PRIVATE_REGION_BASE.
Definition SEGMENT_WINDOW_END : N := STACK_BASE - STACK_GUARD_SIZE.

Inductive LoaderError :=
  | SegmentNotReadable
  | SegmentWritableAndExecutable
  | SegmentOutsideWindow (vaddr stop : N)
  | OverlappingSegments (page : N)
  | EntryPointNotExecutable (entry : N)
  | MapFailed (va : N) (reason : string).

#[global] Instance LoaderError_eq_dec : EqDecision LoaderError.
Proof. solve_decision. Defined.

Class PrivatePageMapper (M : Type) := {
  map_page : N → N → SE M LoaderError N;
  page_write : N → N → list N → M → M;
}.

Record LoadedImage := mkLoaded {
  entry : N;
  stack_top : N;
  stack_base : N;
  segment_pages : N;
  stack_pages : N;
}.

Definition page_permissions (flags : N) : Result LoaderError N :=
  let readable := negb (N.land flags PF_R =? 0) in
  let writable := negb (N.land flags PF_W =? 0) in
  let executable := negb (N.land flags PF_X =? 0) in
  match readable, writable, executable with
  | false, _, _ => Err SegmentNotReadable
  | true, true, true => Err SegmentWritableAndExecutable
  | true, false, false => Ok (N.lor AP_EL0_RO (N.lor UXN PXN))
  | true, false, true => Ok (N.lor AP_EL0_RO PXN)
  | true, true, false => Ok (N.lor AP_EL0_RW (N.lor UXN PXN))
  end.

Definition align_down (va : N) : N := N.land va (N.lxor u64_max (GRANULE_4KIB - 1)).

(** [while page_va <= last_page { ..; page_va += GRANULE_4KIB }] *)
Definition pages_between (first_page last_page : N) : list N :=
  (λ i, first_page + N.of_nat i * GRANULE_4KIB) <$>
    seq 0 (N.to_nat ((last_page - first_page) / GRANULE_4KIB + 1)).

Section load.
Context {M : Type} `{PrivatePageMapper M}.

(** The body of the page loop. *)
Definition load_page (permissions vaddr : N) (content : list N) (page_va : N) (mapped : gset N) :
    SE M LoaderError (gset N) :=
  let file_end := vaddr + len content in
  if decide (page_va ∈ mapped) then raise (OverlappingSegments page_va) else
  page ← map_page page_va permissions;
  _ ← modify (page_write page 0 zero_page);
  let copy_start := N.max page_va vaddr in
  let copy_end := N.min (page_va + GRANULE_4KIB) file_end in
  _ ← (if decide (copy_start < copy_end) then
         modify (page_write page (copy_start - page_va)
                   (slice content (copy_start - vaddr) (copy_end - copy_start)))
       else mret ());
  mret ({[page_va]} ∪ mapped).

(** The body of the segment loop. *)
Definition load_one (elf : Elf64) (segment : LoadSegment) (st : gset N * bool) :
    SE M LoaderError (gset N * bool) :=
  let '(mapped, entry_is_executable) := st in
  if decide (seg_memsz segment = 0) then mret (mapped, entry_is_executable) else
  permissions ← of_result (page_permissions (seg_flags segment));
  stop ← of_result (ok_or (checked_add u64_max (seg_vaddr segment) (seg_memsz segment))
                    (SegmentOutsideWindow (seg_vaddr segment) u64_max));
  if decide (seg_vaddr segment < SEGMENT_WINDOW_BASE ∨ SEGMENT_WINDOW_END < stop) then
    raise (SegmentOutsideWindow (seg_vaddr segment) stop) else
  let entry_is_executable :=
    if is_executable segment && bool_decide (seg_vaddr segment ≤ entry_point elf < stop) then true
    else entry_is_executable in
  let content := segment_bytes elf segment in
  let first_page := align_down (seg_vaddr segment) in
  let last_page := align_down (stop - 1) in
  mapped ← for_each (pages_between first_page last_page) mapped
             (load_page permissions (seg_vaddr segment) content);
  mret (mapped, entry_is_executable).

Definition map_stack_page (i : nat) (_ : ()) : SE M LoaderError () :=
  page ← map_page (STACK_BASE + N.of_nat i * GRANULE_4KIB) (N.lor AP_EL0_RW (N.lor UXN PXN));
  modify (page_write page 0 zero_page).

Definition load (elf : Elf64) : SE M LoaderError LoadedImage :=
  '(mapped, entry_is_executable) ← for_each (segments elf) (∅, false) (load_one elf);
  if negb entry_is_executable then raise (EntryPointNotExecutable (entry_point elf)) else
  let stack_pages := N.to_nat (STACK_SIZE / GRANULE_4KIB) in
  _ ← for_each (seq 0 stack_pages) () map_stack_page;
  mret (mkLoaded (entry_point elf) STACK_TOP STACK_BASE (N.of_nat (size mapped)) (N.of_nat stack_pages)).
End load.

(** ** What the loader relies on *)

Definition private_page (va : N) : Prop :=
  va mod GRANULE_4KIB = 0 ∧ PRIVATE_REGION_BASE ≤ va < PRIVATE_REGION_END.

#[global] Instance private_page_dec va : Decision (private_page va) := _.

Class PrivatePageMapperLaws (M : Type) `{PrivatePageMapper M} := {
  mapper_ok : M → Prop;
  (** The permissions and the bytes a page of the private window has. *)
  mapped_page : M → N → option (N * list N);
  (** The reference [page] is to the page mapped at [va]. *)
  refers : M → N → N → Prop;
  map_page_Ok m va perm page m' :
    mapper_ok m → private_page va → perm_ok perm → map_page va perm m = (Ok page, m') →
    mapper_ok m' ∧ refers m' page va ∧
    ∃ bs, length bs = 4096%nat ∧
      ∀ va', private_page va' → mapped_page m' va' = if decide (va' = va) then Some (perm, bs) else mapped_page m va';
  map_page_Err m va perm e m' :
    mapper_ok m → map_page va perm m = (Err e, m') →
    mapper_ok m' ∧ ∀ va', private_page va' → mapped_page m' va' = mapped_page m va';
  page_write_ok m page va perm bs off src :
    mapper_ok m → refers m page va → private_page va → mapped_page m va = Some (perm, bs) →
    off + len src ≤ 4096 → bytes src →
    mapper_ok (page_write page off src m) ∧ refers (page_write page off src m) page va ∧
    ∀ va', private_page va' → mapped_page (page_write page off src m) va' =
      if decide (va' = va) then Some (perm, copy_at bs off src) else mapped_page m va';
}.

(** ** What a segment puts on a page *)

Definition seg_byte (elf : Elf64) (s : LoadSegment) (va : N) : N :=
  if decide (seg_vaddr s ≤ va < seg_vaddr s + seg_filesz s) then
    byte_at (elf_bytes elf) (seg_offset s + (va - seg_vaddr s))
  else 0.

Definition page_content (elf : Elf64) (s : LoadSegment) (page : N) : list N :=
  (λ k, seg_byte elf s (page + N.of_nat k)) <$> seq 0 4096.

Definition seg_perm (s : LoadSegment) : N := default 0 (res_ok (page_permissions (seg_flags s))).

Definition seg_pages (s : LoadSegment) : list N :=
  if decide (seg_memsz s = 0) then [] else
  pages_between (align_down (seg_vaddr s)) (align_down (seg_vaddr s + seg_memsz s - 1)).

(** Static acceptance of one segment. *)
Definition seg_accepted (s : LoadSegment) : Prop :=
  seg_memsz s = 0 ∨
  (is_Some (res_ok (page_permissions (seg_flags s))) ∧
   SEGMENT_WINDOW_BASE ≤ seg_vaddr s ∧ seg_vaddr s + seg_memsz s ≤ SEGMENT_WINDOW_END).

Definition enters (elf : Elf64) (s : LoadSegment) : Prop :=
  seg_memsz s ≠ 0 ∧ is_executable s = true ∧ seg_vaddr s ≤ entry_point elf < seg_vaddr s + seg_memsz s.

(** The images [load] accepts. *)
Definition loadable (elf : Elf64) : Prop :=
  Forall seg_accepted (segments elf) ∧ NoDup (concat (seg_pages <$> segments elf)) ∧
  Exists (enters elf) (segments elf).

Lemma length_page_content elf s page : length (page_content elf s page) = 4096%nat.
Proof. unfold page_content. by rewrite length_fmap, length_seq. Qed.

Lemma page_content_lookup elf s page k :
  (k < 4096)%nat → page_content elf s page !! k = Some (seg_byte elf s (page + N.of_nat k)).
Proof. intros Hk. unfold page_content. by rewrite list_lookup_fmap, lookup_seq_lt by done. Qed.

Lemma zero_page_lookup k : (k < 4096)%nat → zero_page !! k = Some 0.
Proof. intros Hk. unfold zero_page. by rewrite lookup_replicate_2. Qed.

(** The zeroed page with the overlapping bytes copied in. *)
Lemma page_content_copied elf s page :
  segment_ok elf s →
  let content := segment_bytes elf s in
  let copy_start := N.max page (seg_vaddr s) in
  let copy_end := N.min (page + GRANULE_4KIB) (seg_vaddr s + len content) in
  page_content elf s page =
  if decide (copy_start < copy_end) then
    copy_at zero_page (copy_start - page) (slice content (copy_start - seg_vaddr s) (copy_end - copy_start))
  else zero_page.
Proof.
  intros (_ & Hfile & _ & Hb & Hl). cbn zeta. rewrite Hl. change GRANULE_4KIB with 4096.
  apply list_eq. intros k. destruct (decide (k < 4096)%nat) as [Hk|Hk].
  2:{ rewrite (lookup_ge_None_2 (page_content _ _ _)) by (rewrite length_page_content; lia).
      symmetry. apply lookup_ge_None_2. case_decide; [|rewrite length_zero_page; lia].
      rewrite length_copy_at; rewrite ?length_zero_page; [lia|].
      rewrite length_slice by lia. unfold len. rewrite length_zero_page. lia. }
  rewrite page_content_lookup by done. unfold seg_byte.
  destruct (decide (N.max page (seg_vaddr s) < N.min (page + 4096) (seg_vaddr s + seg_filesz s))) as [Hc|Hc].
  - set (start := N.max page (seg_vaddr s)) in *. set (stop := N.min (page + 4096) (seg_vaddr s + seg_filesz s)) in *.
    assert (len (slice (segment_bytes elf s) (start - seg_vaddr s) (stop - start)) = stop - start) as Hsl.
    { apply length_slice. rewrite Hl. lia. }
    assert (start - page + (stop - start) ≤ len zero_page) as Hroom.
    { unfold len. rewrite length_zero_page. lia. }
    destruct (decide (seg_vaddr s ≤ page + N.of_nat k < seg_vaddr s + seg_filesz s)) as [Hin|Hout].
    + pose proof (lookup_copy_same zero_page (start - page)
        (slice (segment_bytes elf s) (start - seg_vaddr s) (stop - start)) (k - N.to_nat (start - page))) as Hsame.
      replace (N.to_nat (start - page) + (k - N.to_nat (start - page)))%nat with k in Hsame by lia.
      rewrite Hsame; [|by rewrite Hsl|unfold len in Hsl; lia].
      rewrite Hb. unfold slice. rewrite lookup_take_lt by lia. rewrite lookup_drop, lookup_take_lt by lia.
      rewrite lookup_drop. unfold byte_at. unfold len in Hfile.
      destruct (lookup_lt_is_Some_2 (elf_bytes elf)
        (N.to_nat (seg_offset s) + (N.to_nat (start - seg_vaddr s) + (k - N.to_nat (start - page))))%nat) as [b Hbyte]; [lia|].
      rewrite Hbyte. replace (N.to_nat (seg_offset s + (page + N.of_nat k - seg_vaddr s))) with
        (N.to_nat (seg_offset s) + (N.to_nat (start - seg_vaddr s) + (k - N.to_nat (start - page))))%nat by lia.
      by rewrite Hbyte.
    + rewrite lookup_copy_other; [by rewrite zero_page_lookup|by rewrite Hsl|].
      unfold len in Hsl. lia.
  - rewrite zero_page_lookup by done. f_equal. case_decide; [lia|done].
Qed.

(** ** Pages of a segment *)

Lemma align_down_eq va : va ≤ u64_max → align_down va = va - va mod GRANULE_4KIB.
Proof.
  intros Hva. unfold align_down. change (N.lxor u64_max (GRANULE_4KIB - 1)) with (N.shiftl (N.ones 52) 12).
  assert (N.land va (N.shiftl (N.ones 52) 12) = N.shiftl (N.shiftr va 12) 12) as ->.
  { apply N.bits_inj. intros k. rewrite N.land_spec. destruct (decide (k < 12)).
    - rewrite !N.shiftl_spec_low by done. apply andb_false_r.
    - rewrite !N.shiftl_spec_high' by lia. rewrite N.shiftr_spec'. replace (k - 12 + 12) with k by lia.
      destruct (decide (k < 64)); [rewrite N.ones_spec_low by lia; apply andb_true_r|].
      rewrite N.ones_spec_high by lia. rewrite andb_false_r. symmetry.
      destruct (decide (va = 0)) as [->|]; [apply N.bits_0|]. apply N.bits_above_log2.
      apply (N.lt_le_trans _ 64); [|lia]. apply N.log2_lt_pow2; [lia|]. unfold u64_max in Hva. lia. }
  rewrite N.shiftl_mul_pow2, N.shiftr_div_pow2. change (2 ^ 12) with 4096. div_lia.
Qed.

Lemma elem_of_pages_between first last p :
  first mod GRANULE_4KIB = 0 → last mod GRANULE_4KIB = 0 → first ≤ last →
  p ∈ pages_between first last ↔ p mod GRANULE_4KIB = 0 ∧ first ≤ p ≤ last.
Proof.
  intros Hf Hl Hle. unfold pages_between. rewrite list_elem_of_fmap. split.
  - intros (i & -> & Hi%elem_of_seq). div_lia.
  - intros (Hp & H1 & H2). exists (N.to_nat ((p - first) / GRANULE_4KIB)). split; [div_lia|].
    apply elem_of_seq. div_lia.
Qed.

Lemma NoDup_pages_between first last : NoDup (pages_between first last).
Proof.
  unfold pages_between. apply NoDup_fmap_2_strong; [|apply NoDup_seq].
  intros i j _ _ Heq. granules. lia.
Qed.

(** The pages of an accepted segment: those its memory touches. *)
Lemma elem_of_seg_pages s p :
  seg_accepted s → p ∈ seg_pages s ↔
  seg_memsz s ≠ 0 ∧ p mod GRANULE_4KIB = 0 ∧ p < seg_vaddr s + seg_memsz s ∧ seg_vaddr s < p + GRANULE_4KIB.
Proof.
  intros Hacc. unfold seg_pages. case_decide as Hz.
  - split; [by intros ?%not_elem_of_nil|tauto].
  - destruct Hacc as [|(_ & Hlo & Hhi)]; [done|].
    unfold SEGMENT_WINDOW_BASE, SEGMENT_WINDOW_END, STACK_GUARD_SIZE, STACK_BASE, STACK_TOP, STACK_SIZE in *.
    rewrite !align_down_eq by (unfold u64_max; granules; lia).
    rewrite elem_of_pages_between by div_lia. split; intros; div_lia.
Qed.

Lemma seg_page_private s p : seg_accepted s → p ∈ seg_pages s → private_page p ∧ p + GRANULE_4KIB ≤ SEGMENT_WINDOW_END.
Proof.
  intros Hacc Hp. apply elem_of_seg_pages in Hp as (Hz & Hm & H1 & H2); [|done].
  destruct Hacc as [|(_ & Hlo & Hhi)]; [done|]. unfold private_page.
  unfold SEGMENT_WINDOW_BASE, SEGMENT_WINDOW_END, STACK_GUARD_SIZE, STACK_BASE, STACK_TOP, STACK_SIZE in *. div_lia.
Qed.

(** ** Permissions *)

Lemma page_permissions_Ok flags p :
  page_permissions flags = Ok p →
  perm_ok p ∧ N.testbit p 53 = true ∧ N.testbit p 6 = true ∧
  (N.testbit p 7 = true ↔ N.land flags PF_W = 0) ∧ (N.testbit p 54 = true ↔ N.land flags PF_X = 0).
Proof.
  unfold page_permissions.
  destruct (N.land flags PF_R =? 0), (N.land flags PF_W =? 0) eqn:Hw, (N.land flags PF_X =? 0) eqn:Hx;
    cbn [negb]; try done; rewrite ?N.eqb_eq, ?N.eqb_neq in *; intros [= <-];
    (split_and!; [by vm_compute..|split|split]); done || (intros; by vm_compute).
Qed.

Definition RW_PERM : N := N.lor AP_EL0_RW (N.lor UXN PXN).

Lemma RW_PERM_ok : perm_ok RW_PERM.
Proof. by vm_compute. Qed.

(** ** The loops, against the mapper's laws *)

Section load_spec.
Context {M : Type} `{PrivatePageMapperLaws M} (elf : Elf64).

(** [m'] is [m] with the pages of [new] mapped over it. *)
Definition updated (m m' : M) (new : gmap N (N * list N)) : Prop :=
  ∀ va, private_page va →
    mapped_page m' va = match new !! va with Some x => Some x | None => mapped_page m va end.

Lemma updated_refl m : updated m m ∅.
Proof. intros va _. by rewrite lookup_empty. Qed.

Lemma updated_trans m m1 m2 a b : updated m m1 a → updated m1 m2 b → updated m m2 (b ∪ a).
Proof.
  intros Ha Hb va Hva. rewrite (Hb va Hva), (Ha va Hva), lookup_union.
  destruct (b !! va), (a !! va); done.
Qed.

Lemma write_zero m page va perm bs :
  mapper_ok m → refers m page va → private_page va → length bs = 4096%nat →
  mapped_page m va = Some (perm, bs) →
  let m' := page_write page 0 zero_page m in
  mapper_ok m' ∧ refers m' page va ∧ updated m m' {[va := (perm, zero_page)]}.
Proof.
  intros Hm Hr Hva Hlen Hp. cbn zeta.
  destruct (page_write_ok m page va perm bs 0 zero_page) as (Hm' & Hr' & Hv'); try done; [apply bytes_zero_page|].
  split_and!; [done..|]. intros va' Hva'. rewrite Hv' by done. rewrite lookup_singleton.
  case_decide as Hva2; [subst va'; rewrite decide_True by done|by rewrite decide_False by done].
  do 2 f_equal. unfold copy_at. rewrite take_0, drop_ge; [apply app_nil_r|].
  by rewrite Hlen, length_zero_page.
Qed.

Lemma load_page_Ok s perm page mapped m mapped' m' :
  mapper_ok m → private_page page → perm_ok perm → segment_ok elf s → bytes (elf_bytes elf) →
  load_page perm (seg_vaddr s) (segment_bytes elf s) page mapped m = (Ok mapped', m') →
  (page ∉ mapped) ∧ mapped' = ({[page]} ∪ mapped) ∧ mapper_ok m' ∧
  updated m m' {[page := (perm, page_content elf s page)]}.
Proof.
  intros Hm Hpage Hperm Hs Hbytes. unfold load_page. case_decide as Hin; [done|].
  intros (h & m1 & Hmap & (? & m2 & [= <- <-] & (? & m3 & Hcopy & [= <- <-])%bind_SE_Ok)%bind_SE_Ok)%bind_SE_Ok.
  destruct (map_page_Ok m page perm h m1 Hm Hpage Hperm Hmap) as (Hm1 & Hr1 & bs & Hbs & Hv1).
  assert (mapped_page m1 page = Some (perm, bs)) as Hp1 by (by rewrite Hv1, decide_True).
  destruct (write_zero m1 h page perm bs) as (Hm2 & Hr2 & Hv2); [done..|].
  assert (updated m m1 {[page := (perm, bs)]}) as Hu1.
  { intros va Hva. rewrite Hv1 by done. rewrite lookup_singleton. repeat case_decide; naive_solver. }
  pose proof (page_content_copied elf s page Hs) as Hc. cbn zeta in Hc.
  split; [done|]. split; [done|].
  destruct (decide (N.max page (seg_vaddr s) < N.min (page + GRANULE_4KIB) (seg_vaddr s + len (segment_bytes elf s)))) as [Hlt|Hlt];
    injection Hcopy as _ <-.
  - destruct (page_write_ok (page_write h 0 zero_page m1) h page perm zero_page
      (N.max page (seg_vaddr s) - page)
      (slice (segment_bytes elf s) (N.max page (seg_vaddr s) - seg_vaddr s)
         (N.min (page + GRANULE_4KIB) (seg_vaddr s + len (segment_bytes elf s)) - N.max page (seg_vaddr s))))
      as (Hm3 & _ & Hv3); [done|done|done| | | |].
    + rewrite Hv2 by done. by rewrite lookup_singleton_eq.
    + rewrite length_slice by lia. change GRANULE_4KIB with 4096 in *. lia.
    + apply bytes_slice. destruct Hs as (_ & _ & _ & -> & _). by apply bytes_slice.
    + split; [done|]. intros va Hva. rewrite Hv3 by done. rewrite Hc, lookup_singleton.
      case_decide as Hva2; [subst va; by rewrite decide_True by done|]. rewrite decide_False by done.
      rewrite (Hv2 va Hva), lookup_singleton_ne by done. rewrite (Hu1 va Hva), lookup_singleton_ne by done. done.
  - split; [done|]. rewrite Hc. intros va Hva. rewrite (Hv2 va Hva), !lookup_singleton.
    case_decide; [done|]. rewrite (Hu1 va Hva), lookup_singleton_ne by done. done.
Qed.

(** The page loop of one segment. *)
Lemma load_pages_Ok s perm l mapped m mapped' m' :
  mapper_ok m → Forall private_page l → perm_ok perm → segment_ok elf s → bytes (elf_bytes elf) →
  for_each l mapped (load_page perm (seg_vaddr s) (segment_bytes elf s)) m = (Ok mapped', m') →
  NoDup l ∧ (∀ p, p ∈ l → p ∉ mapped) ∧ mapped' = (list_to_set l ∪ mapped) ∧ mapper_ok m' ∧
  updated m m' (list_to_map ((λ p, (p, (perm, page_content elf s p))) <$> l)).
Proof.
  intros Hm HF Hperm Hs Hbytes. revert mapped m Hm. induction l as [|p l IH]; intros mapped m Hm.
  - intros [= <- <-]. split_and!; [constructor|set_solver|set_solver|done|apply updated_refl].
  - apply Forall_cons in HF as [Hp HF]. cbn [for_each].
    intros (mapped1 & m1 & Hpage & Hrest)%bind_SE_Ok.
    destruct (load_page_Ok s perm p mapped m mapped1 m1) as (Hn & -> & Hm1 & Hu1); [done..|].
    destruct (IH HF _ _ Hm1 Hrest) as (Hnd & Hdisj & -> & Hm' & Hu').
    assert (p ∉ l) as Hpl by (intros Hin; apply (Hdisj p Hin); set_solver).
    split_and!; [by constructor| |set_solver|done|].
    + intros q [->|Hq]%elem_of_cons; [done|]. specialize (Hdisj q Hq). set_solver.
    + pose proof (updated_trans _ _ _ _ _ Hu1 Hu') as Hu. rewrite fmap_cons. cbn [list_to_map foldr].
      intros va Hva. rewrite (Hu va Hva). cbn [fst snd]. rewrite lookup_union, lookup_insert, lookup_singleton.
      case_decide as Hva2; [|by destruct (_ !! va)].
      subst va. rewrite not_elem_of_list_to_map_1; [done|]. rewrite <-list_fmap_compose.
      intros (q & -> & Hq)%list_elem_of_fmap. done.
Qed.

(** The pages the segments [l] put into the window. *)
Definition image_pages (l : list LoadSegment) : list (N * (N * list N)) :=
  l ≫= λ s, (λ p, (p, (seg_perm s, page_content elf s p))) <$> seg_pages s.

Lemma image_pages_fst l : (image_pages l).*1 = concat (seg_pages <$> l).
Proof.
  induction l as [|s l IH]; [done|]. unfold image_pages in *. cbn [mbind list_bind].
  rewrite fmap_app, IH, fmap_cons, concat_cons. f_equal. rewrite <-list_fmap_compose. apply list_fmap_id.
Qed.

Lemma load_one_Ok s mapped flag m mapped' flag' m' :
  mapper_ok m → segment_ok elf s → bytes (elf_bytes elf) →
  load_one elf s (mapped, flag) m = (Ok (mapped', flag'), m') →
  seg_accepted s ∧ NoDup (seg_pages s) ∧ (∀ p, p ∈ seg_pages s → p ∉ mapped) ∧
  mapped' = (list_to_set (seg_pages s) ∪ mapped) ∧ (flag' = true ↔ flag = true ∨ enters elf s) ∧
  mapper_ok m' ∧ updated m m' (list_to_map (image_pages [s])).
Proof.
  intros Hm Hs Hbytes. unfold load_one.
  destruct (decide (seg_memsz s = 0)) as [Hz|Hz].
  { intros [= <- <- <-]. unfold image_pages, enters, seg_pages, seg_accepted. cbn [mbind list_bind].
    rewrite decide_True by done. cbn.
    split_and!; [by left|constructor|set_solver|set_solver|naive_solver|done|apply updated_refl]. }
  intros (perm & m1 & [= Hp <-] & (stop & m2 & [= Hstop <-] & Hrest)%bind_SE_Ok)%bind_SE_Ok.
  rewrite ok_or_Ok in Hstop. apply checked_add_Some in Hstop as [-> Hmax].
  destruct (decide (_ ∨ _)) as [|Hwin]; [done|].
  apply bind_SE_Ok in Hrest as (mapped1 & m3 & Hpages & [= <- <- <-]).
  assert (seg_accepted s) as Hacc.
  { right. split_and!; [rewrite Hp; by eexists|lia..]. }
  assert (pages_between (align_down (seg_vaddr s)) (align_down (seg_vaddr s + seg_memsz s - 1)) = seg_pages s) as Heq.
  { unfold seg_pages. by rewrite decide_False. }
  rewrite Heq in Hpages. destruct (page_permissions_Ok _ _ Hp) as [Hperm _].
  destruct (load_pages_Ok s perm (seg_pages s) mapped m mapped1 m3) as (Hnd & Hdisj & -> & Hm' & Hu); try done.
  { apply Forall_forall. intros p Hpin. by apply (seg_page_private s). }
  split_and!; try done.
  - unfold enters. destruct (is_executable s) eqn:Hx; cbn [andb].
    + case_bool_decide; split; try done; [tauto|tauto|]. intros [|(_ & _ & ?)]; [done|tauto].
    + split; [tauto|]. intros [|(_ & ? & _)]; done.
  - unfold image_pages. cbn [mbind list_bind]. rewrite app_nil_r. unfold seg_perm. by rewrite Hp.
Qed.

Lemma load_all_Ok l mapped flag m mapped' flag' m' :
  mapper_ok m → Forall (segment_ok elf) l → bytes (elf_bytes elf) →
  for_each l (mapped, flag) (load_one elf) m = (Ok (mapped', flag'), m') →
  Forall seg_accepted l ∧ NoDup (concat (seg_pages <$> l)) ∧ (∀ p, p ∈ concat (seg_pages <$> l) → p ∉ mapped) ∧
  mapped' = (list_to_set (concat (seg_pages <$> l)) ∪ mapped) ∧ (flag' = true ↔ flag = true ∨ Exists (enters elf) l) ∧
  mapper_ok m' ∧ updated m m' (list_to_map (image_pages l)).
Proof.
  intros Hm HF Hbytes. revert mapped flag m Hm. induction l as [|s l IH]; intros mapped flag m Hm.
  - intros [= <- <- <-]. cbn. split_and!; [constructor|constructor|set_solver|set_solver| |done|apply updated_refl].
    rewrite Exists_nil. tauto.
  - apply Forall_cons in HF as [Hs HF]. cbn [for_each].
    intros ([mapped1 flag1] & m1 & H1 & H2)%bind_SE_Ok.
    destruct (load_one_Ok s mapped flag m mapped1 flag1 m1) as (Ha & Hnd & Hd & -> & Hf & Hm1 & Hu1); [done..|].
    destruct (IH HF _ _ _ Hm1 H2) as (HFa & Hnd2 & Hd2 & -> & Hf2 & Hm2 & Hu2).
    assert (∀ p, p ∈ seg_pages s → p ∉ concat (seg_pages <$> l)) as Hdis.
    { intros p Hp Hin. apply (Hd2 p Hin), elem_of_union_l. by apply elem_of_list_to_set. }
    rewrite fmap_cons, concat_cons. split_and!; [by constructor| | | | |done|].
    + apply NoDup_app. split_and!; [done| |done]. intros p Hp. by apply Hdis.
    + intros p [Hp|Hp]%elem_of_app; [by apply Hd|]. specialize (Hd2 p Hp). clear -Hd2. set_solver.
    + rewrite list_to_set_app_L. clear. set_solver.
    + rewrite Hf2, Hf, Exists_cons. tauto.
    + pose proof (updated_trans _ _ _ _ _ Hu1 Hu2) as Hu.
      change (s :: l) with ([s] ++ l). unfold image_pages at 1. rewrite bind_app, list_to_map_app.
      fold (image_pages [s]) (image_pages l). rewrite map_union_comm; [done|].
      apply map_disjoint_spec. intros p x y Hx Hy. apply (Hdis p).
      * apply elem_of_list_to_map_2, (list_elem_of_fmap_2 fst) in Hx. rewrite image_pages_fst in Hx.
        cbn in Hx. by rewrite app_nil_r in Hx.
      * apply elem_of_list_to_map_2, (list_elem_of_fmap_2 fst) in Hy. by rewrite image_pages_fst in Hy.
Qed.

Definition stack_page_list : list (N * (N * list N)) :=
  (λ i, (STACK_BASE + N.of_nat i * GRANULE_4KIB, (RW_PERM, zero_page))) <$> seq 0 4.

Lemma stack_page_private i : (i < 4)%nat → private_page (STACK_BASE + N.of_nat i * GRANULE_4KIB).
Proof. intros Hi. unfold private_page, STACK_BASE, STACK_TOP, STACK_SIZE. div_lia. Qed.

Lemma map_stack_page_Ok i m u m' :
  mapper_ok m → (i < 4)%nat → map_stack_page i () m = (Ok u, m') →
  mapper_ok m' ∧ updated m m' {[STACK_BASE + N.of_nat i * GRANULE_4KIB := (RW_PERM, zero_page)]}.
Proof.
  intros Hm Hi. unfold map_stack_page. intros (h & m1 & Hmap & [= _ <-])%bind_SE_Ok.
  pose proof (stack_page_private i Hi) as Hp.
  destruct (map_page_Ok m _ _ h m1 Hm Hp RW_PERM_ok Hmap) as (Hm1 & Hr1 & bs & Hbs & Hv1).
  destruct (write_zero m1 h _ RW_PERM bs Hm1 Hr1 Hp Hbs) as (Hm2 & _ & Hu2); [by rewrite Hv1, decide_True|].
  split; [done|]. intros va Hva. rewrite (Hu2 va Hva), lookup_singleton. case_decide; [done|].
  rewrite Hv1, decide_False; done.
Qed.

Lemma map_stack_Ok l m u m' :
  mapper_ok m → Forall (λ i, (i < 4)%nat) l → NoDup l → for_each l () map_stack_page m = (Ok u, m') →
  mapper_ok m' ∧ updated m m' (list_to_map ((λ i, (STACK_BASE + N.of_nat i * GRANULE_4KIB, (RW_PERM, zero_page))) <$> l)).
Proof.
  intros Hm HF Hnd. revert m Hm u. induction l as [|i l IH]; intros m Hm u.
  - intros [= _ <-]. split; [done|apply updated_refl].
  - apply Forall_cons in HF as [Hi HF]. apply NoDup_cons in Hnd as [Hni Hnd]. cbn [for_each].
    intros ([] & m1 & H1 & H2)%bind_SE_Ok. destruct (map_stack_page_Ok i m () m1 Hm Hi H1) as [Hm1 Hu1].
    destruct (IH HF Hnd m1 Hm1 u H2) as [Hm2 Hu2]. split; [done|].
    pose proof (updated_trans _ _ _ _ _ Hu1 Hu2) as Hu. intros va Hva. rewrite (Hu va Hva).
    rewrite fmap_cons. cbn [list_to_map foldr fst snd]. rewrite lookup_union, lookup_insert, lookup_singleton.
    case_decide as Heq; [|by destruct (_ !! va)]. rewrite not_elem_of_list_to_map_1; [done|].
    rewrite <-list_fmap_compose. intros (j & Hj & Hjin)%list_elem_of_fmap. cbn in Hj. subst va.
    assert (i = j) as -> by (granules; lia). done.
Qed.

(** What a successful load leaves: the pages of the image and of the stack, over
    whatever was mapped before. *)
Definition load_map : gmap N (N * list N) :=
  list_to_map stack_page_list ∪ list_to_map (image_pages (segments elf)).

Lemma load_Ok m img m' :
  mapper_ok m → elf_ok elf → bytes (elf_bytes elf) → load elf m = (Ok img, m') →
  loadable elf ∧ mapper_ok m' ∧ updated m m' load_map ∧
  img = mkLoaded (entry_point elf) STACK_TOP STACK_BASE (len (concat (seg_pages <$> segments elf))) 4.
Proof.
  intros Hm (_ & _ & HF) Hbytes. unfold load.
  intros ([mapped flag] & m1 & H1 & H2)%bind_SE_Ok.
  destruct (load_all_Ok (segments elf) ∅ false m mapped flag m1) as (Ha & Hnd & _ & -> & Hf & Hm1 & Hu1); [done..|].
  destruct flag; cbn [negb] in H2; [|done].
  apply bind_SE_Ok in H2 as (u & m2 & H2 & [= <- <-]).
  change (N.to_nat (STACK_SIZE / GRANULE_4KIB)) with 4%nat in *.
  destruct (map_stack_Ok (seq 0 4) m1 u m2 Hm1) as [Hm2 Hu2]; [|apply NoDup_seq|done|].
  { apply Forall_forall. intros i Hi%elem_of_seq. lia. }
  split_and!; [split_and!; try done; naive_solver|done|by eapply updated_trans|].
  f_equal. rewrite union_empty_r_L, size_list_to_set by done. done.
Qed.

(** ** On every path the address space stays in order *)

Lemma len_slice_le (b : list N) off n : len (slice b off n) ≤ n.
Proof. unfold slice, len. rewrite length_take. lia. Qed.

Lemma map_then_write va perm (f : N → M → M) :
  private_page va → perm_ok perm →
  (∀ m page bs, mapper_ok m → refers m page va → length bs = 4096%nat → mapped_page m va = Some (perm, bs) →
     mapper_ok (f page m)) →
  keeps mapper_ok (page ← map_page va perm; modify (f page)).
Proof.
  intros Hva Hp Hf m Hm. unfold mbind, SE_bind. destruct (map_page va perm m) as [[page|e] m1] eqn:Hmap; cbn.
  - destruct (map_page_Ok m va perm page m1) as (Hm1 & Hr & bs & Hbs & Hv); [done..|].
    apply (Hf m1 page bs); [done..|]. by rewrite Hv, decide_True.
  - by eapply map_page_Err.
Qed.

Lemma load_page_keeps perm vaddr content page mapped :
  private_page page → perm_ok perm → bytes content →
  keeps mapper_ok (load_page perm vaddr content page mapped).
Proof.
  intros Hpage Hperm Hb m Hm. unfold load_page. case_decide; [done|].
  unfold mbind, SE_bind. destruct (map_page page perm m) as [[h|e] m1] eqn:Hmap; cbn; [|by eapply map_page_Err].
  destruct (map_page_Ok m page perm h m1 Hm Hpage Hperm Hmap) as (Hm1 & Hr1 & bs & Hbs & Hv1).
  assert (mapped_page m1 page = Some (perm, bs)) as Hp1 by (by rewrite Hv1, decide_True).
  destruct (write_zero m1 h page perm bs) as (Hm2 & Hr2 & Hv2); [done..|].
  case_decide as Hc; cbn; [|done].
  apply (page_write_ok (page_write h 0 zero_page m1) h page perm zero_page); try done.
  - rewrite Hv2 by done. by rewrite lookup_singleton_eq.
  - pose proof (len_slice_le content (N.max page vaddr - vaddr)
      (N.min (page + GRANULE_4KIB) (vaddr + len content) - N.max page vaddr)).
    change GRANULE_4KIB with 4096 in *. lia.
  - by apply bytes_slice.
Qed.

Lemma bytes_segment_bytes s : bytes (elf_bytes elf) → bytes (segment_bytes elf s).
Proof. intros Hb. unfold segment_bytes. case_decide; [by apply bytes_slice|constructor]. Qed.

Lemma load_one_keeps s st : bytes (elf_bytes elf) → keeps mapper_ok (load_one elf s st).
Proof.
  intros Hb m Hm. destruct st as [mapped flag]. unfold load_one. case_decide as Hz; [done|].
  unfold mbind, SE_bind, of_result. destruct (page_permissions (seg_flags s)) as [perm|e] eqn:Hp; [|done].
  unfold checked_add. case_decide as Hmax; cbn [ok_or]; [|done]. case_decide as Hwin; [done|].
  assert (seg_accepted s) as Hacc by (right; split_and!; [rewrite Hp; by eexists|lia..]).
  pose proof (keeps_for_each mapper_ok (seg_pages s) mapped
    (load_page perm (seg_vaddr s) (segment_bytes elf s))) as Hk.
  unfold seg_pages in Hk. rewrite decide_False in Hk by done.
  specialize (Hk ltac:(intros p mp Hpin; apply load_page_keeps;
    [apply (seg_page_private s p Hacc); unfold seg_pages; by rewrite decide_False
    |by eapply page_permissions_Ok|by apply bytes_segment_bytes]) m Hm).
  destruct (for_each _ _ _ m) as [[mp|e] m1]; done.
Qed.

(** Whatever the image and whatever fails, the mapper's invariant survives. *)
Lemma load_keeps : bytes (elf_bytes elf) → keeps mapper_ok (load elf).
Proof.
  intros Hb. unfold load. apply keeps_bind; [apply keeps_for_each; intros; by apply load_one_keeps|].
  intros [mapped flag]. destruct flag; cbn [negb]; [|apply keeps_raise].
  apply keeps_bind; [|intros; apply keeps_ret]. apply keeps_for_each. intros i [] Hi%elem_of_seq.
  change (N.to_nat (STACK_SIZE / GRANULE_4KIB)) with 4%nat in Hi.
  pose proof (stack_page_private i) as Hp. apply map_then_write; [apply Hp; lia|apply RW_PERM_ok|].
  intros m h bs Hm Hr Hl Hv. eapply (write_zero m h _ RW_PERM bs); [done|done|apply Hp; lia|done|exact Hv].
Qed.

(** ** Acceptance *)

Definition mapper_total : Prop :=
  ∀ m va perm, mapper_ok m → private_page va → perm_ok perm → ∃ page m', map_page va perm m = (Ok page, m').

Lemma load_page_total perm vaddr content page mapped m :
  mapper_total → mapper_ok m → private_page page → perm_ok perm → page ∉ mapped →
  ∃ m', load_page perm vaddr content page mapped m = (Ok ({[page]} ∪ mapped), m').
Proof.
  intros Ht Hm Hpage Hperm Hn. unfold load_page. rewrite decide_False by done.
  destruct (Ht m page perm Hm Hpage Hperm) as (h & m1 & Hmap).
  rewrite (bind_SE_run _ _ _ _ _ Hmap). cbn. case_decide; cbn; by eexists.
Qed.

Lemma load_pages_total perm vaddr content l mapped m :
  mapper_total → mapper_ok m → Forall private_page l → perm_ok perm → bytes content →
  NoDup l → (∀ p, p ∈ l → p ∉ mapped) →
  ∃ m', for_each l mapped (load_page perm vaddr content) m = (Ok (list_to_set l ∪ mapped), m').
Proof.
  intros Ht Hm HF Hperm Hb. revert mapped m Hm. induction l as [|p l IH]; intros mapped m Hm Hnd Hd.
  - exists m. cbn. by rewrite union_empty_l_L.
  - apply Forall_cons in HF as [Hp HF]. apply NoDup_cons in Hnd as [Hpl Hnd]. cbn [for_each].
    destruct (load_page_total perm vaddr content p mapped m) as [m1 H1]; [done..|apply Hd; by left|].
    pose proof (load_page_keeps perm vaddr content p mapped Hp Hperm Hb m Hm) as Hm1. rewrite H1 in Hm1.
    rewrite (bind_SE_run _ _ _ _ _ H1).
    destruct (IH HF ({[p]} ∪ mapped) m1 Hm1 Hnd) as [m2 H2].
    { intros q Hq Hin. apply elem_of_union in Hin as [->%elem_of_singleton|Hin]; [done|].
      apply (Hd q); [by right|done]. }
    exists m2. rewrite H2. do 2 f_equal. cbn. clear. set_solver.
Qed.

Lemma load_one_total s mapped flag m :
  mapper_total → mapper_ok m → bytes (elf_bytes elf) → seg_accepted s → (∀ p, p ∈ seg_pages s → p ∉ mapped) →
  ∃ flag' m', load_one elf s (mapped, flag) m = (Ok (list_to_set (seg_pages s) ∪ mapped, flag'), m') ∧
    (flag' = true ↔ flag = true ∨ enters elf s).
Proof.
  intros Ht Hm Hb Hacc Hd. unfold load_one.
  destruct (decide (seg_memsz s = 0)) as [Hz|Hz].
  { exists flag, m. unfold seg_pages, enters. rewrite decide_True by done. split; [|tauto].
    cbn. by rewrite union_empty_l_L. }
  destruct Hacc as [|([perm Hp] & Hlo & Hhi)]; [done|].
  assert (page_permissions (seg_flags s) = Ok perm) as Hperm by (destruct (page_permissions _); naive_solver).
  assert (seg_vaddr s + seg_memsz s ≤ u64_max) as Hmax.
  { unfold u64_max, SEGMENT_WINDOW_END, STACK_BASE, STACK_TOP, STACK_SIZE, STACK_GUARD_SIZE in *. granules. lia. }
  unfold of_result. rewrite Hperm. unfold checked_add. rewrite (decide_True _ _ Hmax). cbn [ok_or].
  assert (seg_accepted s) as Hacc by (right; split_and!; [by rewrite Hp|done..]).
  destruct (load_pages_total perm (seg_vaddr s) (segment_bytes elf s) (seg_pages s) mapped m) as [m1 H1]; try done.
  { apply Forall_forall. intros p Hpin. by apply (seg_page_private s). }
  { by eapply page_permissions_Ok. }
  { by apply bytes_segment_bytes. }
  { unfold seg_pages. case_decide; [constructor|apply NoDup_pages_between]. }
  unfold seg_pages in H1 at 1. rewrite decide_False in H1 by done.
  unfold mbind at 1, SE_bind at 1. unfold mbind at 1, SE_bind at 1. rewrite decide_False by lia.
  rewrite (bind_SE_run _ _ _ _ _ H1). eexists _, m1. split; [reflexivity|].
  unfold enters. destruct (is_executable s) eqn:Hx; cbn [andb].
  - case_bool_decide; split; try done; [tauto|tauto|]. intros [|(_ & _ & ?)]; [done|tauto].
  - split; [tauto|]. intros [|(_ & ? & _)]; done.
Qed.

Lemma load_all_total l mapped flag m :
  mapper_total → mapper_ok m → bytes (elf_bytes elf) → Forall seg_accepted l →
  NoDup (concat (seg_pages <$> l)) → (∀ p, p ∈ concat (seg_pages <$> l) → p ∉ mapped) →
  ∃ mapped' flag' m', for_each l (mapped, flag) (load_one elf) m = (Ok (mapped', flag'), m') ∧
    (flag' = true ↔ flag = true ∨ Exists (enters elf) l).
Proof.
  intros Ht Hm Hb HF. revert mapped flag m Hm. induction l as [|s l IH]; intros mapped flag m Hm Hnd Hd.
  - eexists _, _, _. split; [done|]. rewrite Exists_nil. tauto.
  - apply Forall_cons in HF as [Hs HF]. rewrite fmap_cons, concat_cons in *.
    apply NoDup_app in Hnd as (_ & Hdis & Hnd). cbn [for_each].
    destruct (load_one_total s mapped flag m) as (flag1 & m1 & H1 & Hf1); [done..| |].
    { intros p Hp. apply Hd, elem_of_app. by left. }
    pose proof (load_one_keeps s (mapped, flag) Hb m Hm) as Hm1. rewrite H1 in Hm1.
    rewrite (bind_SE_run _ _ _ _ _ H1).
    destruct (IH HF (list_to_set (seg_pages s) ∪ mapped) flag1 m1 Hm1 Hnd) as (mp & fl & m2 & H2 & Hf2).
    { intros p Hp [Hin%elem_of_list_to_set|Hin]%elem_of_union; [by apply (Hdis p)|].
      apply (Hd p); [by apply elem_of_app; right|done]. }
    eexists _, _, _. split; [exact H2|]. rewrite Hf2, Hf1, Exists_cons. tauto.
Qed.

Lemma map_stack_total l m :
  mapper_total → mapper_ok m → Forall (λ i, (i < 4)%nat) l → ∃ m', for_each l () map_stack_page m = (Ok (), m').
Proof.
  intros Ht Hm HF. revert m Hm. induction l as [|i l IH]; intros m Hm; [by eexists|].
  apply Forall_cons in HF as [Hi HF]. cbn [for_each].
  destruct (Ht m _ RW_PERM Hm (stack_page_private i Hi) RW_PERM_ok) as (h & m1 & Hmap).
  assert (map_stack_page i () m = (Ok (), page_write h 0 zero_page m1)) as H1.
  { unfold map_stack_page. fold RW_PERM. rewrite (bind_SE_run _ _ _ _ _ Hmap). done. }
  rewrite (bind_SE_run _ _ _ _ _ H1). apply IH; [done|].
  by apply (map_stack_page_Ok i m () _ Hm Hi).
Qed.

(** With a mapper that has memory left, an image is loaded exactly when it is
    acceptable: every segment readable, not both writable and executable, and
    inside the window below the guard gap; no two segments on one page; the entry
    point inside an executable segment. *)
Lemma load_accepts_iff m :
  mapper_total → mapper_ok m → elf_ok elf → bytes (elf_bytes elf) →
  (∃ img m', load elf m = (Ok img, m')) ↔ loadable elf.
Proof.
  intros Ht Hm He Hb. split; [intros (img & m' & Hl); by eapply load_Ok|].
  intros (HF & Hnd & Hen). unfold load.
  destruct (load_all_total (segments elf) ∅ false m) as (mp & fl & m1 & H1 & Hf); [done..|set_solver|].
  rewrite (bind_SE_run _ _ _ _ _ H1). destruct fl; cbn [negb]; [|naive_solver].
  assert (mapper_ok m1) as Hm1.
  { pose proof (keeps_for_each mapper_ok (segments elf) (∅, false) (load_one elf)) as Hk.
    specialize (Hk ltac:(intros; by apply load_one_keeps) m Hm). by rewrite H1 in Hk. }
  destruct (map_stack_total (seq 0 (N.to_nat (STACK_SIZE / GRANULE_4KIB))) m1 Ht Hm1) as [m2 H2].
  { apply Forall_forall. intros i Hi%elem_of_seq. change (N.to_nat (STACK_SIZE / GRANULE_4KIB)) with 4%nat in Hi. lia. }
  rewrite (bind_SE_run _ _ _ _ _ H2). by eexists _, _.
Qed.
End load_spec.
