(* ===== verification/ArmSpace.v ===== *)
(** * ArmSpace: per-process address spaces

    Model of [kernel-arm/src/process.rs] and [heap.rs]: translation tables built in
    physical memory, the ownership ledger, and [destroy].  The global allocator
    ([linked_list_allocator]) is the class [Heap]; [HeapLaws] is the contract of
    [GlobalAlloc].  Memory is identity-mapped for the kernel, so the address of a
    block is its physical address.  Barriers and TLB maintenance have no effect on
    the model's state except that their order against the frees is kept in
    [trace]. *)

From S2P Require Import Prelude Bytes Sorting StateErr ArmVm ArmElf ArmReclaim ArmLoader.

Local Open Scope N_scope.

(** ** The allocator *)

Definition HEAP_START : N := 0x41000000.
Definition HEAP_SIZE : N := 4 * 1024 * 1024.

(** [heap::range()] *)
Definition heap_range : N * N := (HEAP_START, HEAP_START + HEAP_SIZE).

Class Heap := {
  HeapState : Type;
  (** [alloc_zeroed(Layout(bytes, align))]: the address, or null. *)
  heap_alloc : HeapState → N → N → option (N * HeapState);
  heap_dealloc : HeapState → N → N → HeapState;
  (** [try_reserve] of one of the kernel's vectors. *)
  heap_reserve : HeapState → option HeapState;
  (** The blocks handed out with an explicit layout, by address. *)
  heap_live : HeapState → gmap N N;
  heap_ok : HeapState → Prop;
}.

(** Live blocks lie in the heap and do not overlap. *)
Definition extents_ok (live : gmap N N) : Prop :=
  ∀ a n, live !! a = Some n →
    HEAP_START ≤ a ∧ a + n ≤ HEAP_START + HEAP_SIZE ∧ 0 < n ∧
    ∀ b k, live !! b = Some k → a ≠ b → a + n ≤ b ∨ b + k ≤ a.

Class HeapLaws (H : Heap) : Prop := {
  heap_extents h : heap_ok h → extents_ok (heap_live h);
  heap_alloc_ok h n align a h' :
    heap_ok h → 0 < n → heap_alloc h n align = Some (a, h') →
    heap_ok h' ∧ a mod align = 0 ∧ heap_live h !! a = None ∧ heap_live h' = <[a := n]> (heap_live h);
  heap_dealloc_ok h a n :
    heap_ok h → heap_live h !! a = Some n →
    heap_ok (heap_dealloc h a n) ∧ heap_live (heap_dealloc h a n) = delete a (heap_live h);
  heap_reserve_ok h h' :
    heap_ok h → heap_reserve h = Some h' → heap_ok h' ∧ heap_live h' = heap_live h;
}.

(** ** State *)

(** [fn(usize)] values a space may register; [net_process.rs] has the only one. *)
Inductive Hook := ResetVirtioDevice.

Inductive Event :=
  | HookRan (hook : Hook) (arg : N)
  | TlbInvalidated
  | Freed (addr bytes : N).

Inductive AddressSpaceError := VaOutsidePrivateRegion | VaMisaligned | OutOfMemory.

#[global] Instance AddressSpaceError_eq_dec : EqDecision AddressSpaceError.
Proof. solve_decision. Defined.

Definition address_space_error_message (e : AddressSpaceError) : string :=
  match e with
  | VaOutsidePrivateRegion => "virtual address is outside the process-private region"
  | VaMisaligned => "virtual address is not 4 KiB-aligned"
  | OutOfMemory => "out of memory for a page or translation table"
  end.

Record AddressSpace := mkSpace {
  root : N;
  owned_tables : gset N;
  seeded_root : N;
  owned_pages : list N;
  owned_blocks : list (N * N);
  pre_free_hook : option (Hook * N);
}.

Record Reclaimed := mkReclaimed { rec_extents : N; rec_bytes : N }.

Inductive DestroyError := Live | BadLedger (e : PlanError).

Section space.
Context `{Heap}.

Record Phys := mkPhys {
  mem : Mem;
  heap : HeapState;
  ttbr0 : N;
  trace : list Event;
}.

Definition set_mem (m : Mem) (p : Phys) : Phys := mkPhys m (heap p) (ttbr0 p) (trace p).
Definition set_heap (h : HeapState) (p : Phys) : Phys := mkPhys (mem p) h (ttbr0 p) (trace p).
Definition log (e : Event) (p : Phys) : Phys := mkPhys (mem p) (heap p) (ttbr0 p) (trace p ++ [e]).

Definition Proc : Type := AddressSpace * Phys.
Abbreviation Op A := (SE Proc AddressSpaceError A).

Definition with_space (f : AddressSpace → AddressSpace) (sp : Proc) : Proc := (f sp.1, sp.2).
Definition with_phys (f : Phys → Phys) (sp : Proc) : Proc := (sp.1, f sp.2).

Definition push_table (t : N) (s : AddressSpace) : AddressSpace :=
  mkSpace (root s) ({[t]} ∪ owned_tables s) (seeded_root s) (owned_pages s) (owned_blocks s) (pre_free_hook s).
Definition push_page (a : N) (s : AddressSpace) : AddressSpace :=
  mkSpace (root s) (owned_tables s) (seeded_root s) (owned_pages s ++ [a]) (owned_blocks s) (pre_free_hook s).
Definition push_block (b : N * N) (s : AddressSpace) : AddressSpace :=
  mkSpace (root s) (owned_tables s) (seeded_root s) (owned_pages s) (owned_blocks s ++ [b]) (pre_free_hook s).

(** ** Operations *)

Definition alloc_page_in (p : Phys) : Result AddressSpaceError N * Phys :=
  match heap_alloc (heap p) GRANULE_4KIB GRANULE_4KIB with
  | Some (a, h) => (Ok a, mkPhys (<[a := zero_page]> (mem p)) h (ttbr0 p) (trace p))
  | None => (Err OutOfMemory, p)
  end.

Definition alloc_page : Op N := λ sp, let '(r, p) := alloc_page_in sp.2 in (r, (sp.1, p)).

Definition reserve : Op () := λ sp,
  match heap_reserve (heap sp.2) with
  | Some h => (Ok (), (sp.1, set_heap h sp.2))
  | None => (Err OutOfMemory, sp)
  end.

Definition active_root (p : Phys) : N := desc_addr (ttbr0 p).

(** [AddressSpace::new]: the active level-1 table copied by value. *)
Definition space_new (p : Phys) : Result AddressSpaceError AddressSpace * Phys :=
  match alloc_page_in p with
  | (Err e, p) => (Err e, p)
  | (Ok r, p) =>
      let active := active_root p in
      let p := set_mem (<[r := page_at (mem p) active]> (mem p)) p in
      (Ok (mkSpace r {[r]} active [] [] None), p)
  end.

Definition descend (table index : N) : Op N := λ sp,
  let descriptor := read_entry (mem sp.2) table index in
  let next := desc_addr descriptor in
  let is_table := bool_decide (desc_type descriptor = DESC_TABLE_OR_PAGE) in
  if is_table && bool_decide (next ∈ owned_tables sp.1) then (Ok next, sp) else
  (fresh ← alloc_page;
   _ ← modify (with_space (push_table fresh));
   _ ← modify (with_phys (λ p, set_mem (write_entry (mem p) table index (table_descriptor fresh)) p));
   mret fresh) sp.

Definition check_private_va (va : N) : Op () :=
  if decide (PRIVATE_REGION_BASE ≤ va < PRIVATE_REGION_END) then mret () else raise VaOutsidePrivateRegion.

(** The walk both mapping functions start with. *)
Definition descend_to_l3 (va : N) : Op N := λ sp,
  (l2 ← descend (root sp.1) (l1_index va); descend l2 (l2_index va)) sp.

Definition write_l3 (l3 va descriptor : N) : Op () :=
  modify (with_phys (λ p, set_mem (write_entry (mem p) l3 (l3_index va) descriptor) p)).

Definition map_private_page_with (va permissions : N) : Op N :=
  _ ← (if decide (va mod GRANULE_4KIB ≠ 0) then raise VaMisaligned else mret ());
  _ ← check_private_va va;
  l3 ← descend_to_l3 va;
  _ ← reserve;
  frame ← alloc_page;
  _ ← modify (with_space (push_page frame));
  _ ← write_l3 l3 va (normal_4kib_page_descriptor frame permissions);
  mret frame.

Definition map_private_page (va : N) : Op N :=
  map_private_page_with va (N.lor AP_EL0_RW (N.lor UXN PXN)).

Definition map_mmio_page (va pa : N) (writable : bool) : Op () :=
  _ ← (if decide (va mod GRANULE_4KIB ≠ 0 ∨ pa mod GRANULE_4KIB ≠ 0) then raise VaMisaligned else mret ());
  _ ← check_private_va va;
  l3 ← descend_to_l3 va;
  let ap := if writable then AP_EL0_RW else AP_EL0_RO in
  write_l3 l3 va (normal_4kib_page_descriptor pa (N.lor ap (N.lor UXN PXN))).

Definition adopt_block (pa pages : N) : Op () :=
  _ ← reserve;
  modify (with_space (push_block (pa, pages))).

Definition set_pre_free_hook (hook : Hook) (arg : N) (s : AddressSpace) : AddressSpace :=
  mkSpace (root s) (owned_tables s) (seeded_root s) (owned_pages s) (owned_blocks s) (Some (hook, arg)).

Definition is_live (s : AddressSpace) (p : Phys) : bool := bool_decide (root s = active_root p).

(** [owned_tables.iter()]: a [BTreeSet] iterates in order. *)
Definition tables_in_order (s : AddressSpace) : list N :=
  sort (λ a, [Z.of_N a]) (elements (owned_tables s)).

Definition free_extent (p : Phys) (e : Extent) : Phys :=
  log (Freed (ext_addr e) (ext_bytes e)) (set_heap (heap_dealloc (heap p) (ext_addr e) (ext_bytes e)) p).

(** [reserved] answers the [try_reserve] of [plan_frees]. *)
Definition destroy (reserved : bool) (s : AddressSpace) (p : Phys) : Result DestroyError Reclaimed * Phys :=
  if is_live s p then (Err Live, p) else
  let p := match pre_free_hook s with Some (hook, arg) => log (HookRan hook arg) p | None => p end in
  match plan_frees reserved (tables_in_order s) (owned_pages s) (owned_blocks s)
          heap_range.1 heap_range.2 with
  | Err e => (Err (BadLedger e), p)
  | Ok plan =>
      let p := log TlbInvalidated p in
      let p := foldl free_extent p plan in
      (Ok (mkReclaimed (len plan) (foldr N.add 0 (ext_bytes <$> plan))), p)
  end.

(** One level of the loop in [page_descriptor]. *)
Definition owned_next (s : AddressSpace) (p : Phys) (table index : N) : option N :=
  let descriptor := read_entry (mem p) table index in
  if decide (desc_type descriptor ≠ DESC_TABLE_OR_PAGE) then None else
  let next := desc_addr descriptor in
  if decide (next ∈ owned_tables s) then Some next else None.

Definition page_descriptor (s : AddressSpace) (p : Phys) (va : N) : option N :=
  l2 ← owned_next s p (root s) (l1_index va);
  l3 ← owned_next s p l2 (l2_index va);
  let descriptor := read_entry (mem p) l3 (l3_index va) in
  if decide (desc_type descriptor = DESC_TABLE_OR_PAGE) then Some descriptor else None.

Definition write_ttbr0 (value : N) (p : Phys) : Phys := mkPhys (mem p) (heap p) value (trace p ++ [TlbInvalidated]).

(** [activate]: the previous raw register value, for [restore]. *)
Definition activate (s : AddressSpace) (p : Phys) : N * Phys := (ttbr0 p, write_ttbr0 (desc_addr (root s)) p).
Definition restore (previous : N) (p : Phys) : Phys := write_ttbr0 previous p.
Definition load_root (r : N) (p : Phys) : Phys := write_ttbr0 (desc_addr r) p.

(** [impl PrivatePageMapper for AddressSpace] of [load_proof.rs]; the reference a
    mapping returns is the frame, written through the kernel's own mapping. *)
#[export] Instance space_mapper : PrivatePageMapper Proc := {|
  map_page va permissions :=
    with_err (λ e, MapFailed va (address_space_error_message e)) (map_private_page_with va permissions);
  page_write page off src :=
    with_phys (λ p, set_mem (<[page := copy_at (page_at (mem p) page) off src]> (mem p)) p);
|}.
End space.

Arguments Phys {_}.
Arguments Proc {_}.
