(* ===== verification/ArmSpaceSpec.v ===== *)
(** * ArmSpaceSpec: the invariant of an address space

    A space's tables are described by a [Tree]: its level-2 table, the level-3 tables
    below it, and which frame each private page is mapped to with which
    permissions.  [space_inv] says that memory holds exactly that tree, that the
    ledger is what the allocator gave out, and that nothing is shared; every
    operation of [ArmSpace] preserves it and touches only frames the space owns. *)

From S2P Require Import Prelude Bytes Sorting StateErr ArmVm ArmElf ArmReclaim ArmLoader ArmSpace.

Local Open Scope N_scope.

(** ** Addresses of the window *)

Definition page_va (i j : N) : N := PRIVATE_REGION_BASE + i * GRANULE_2MIB + j * GRANULE_4KIB.

Lemma private_l1 va : PRIVATE_REGION_BASE ≤ va < PRIVATE_REGION_END → l1_index va = 2.
Proof. intros Hva. rewrite l1_index_eq. div_lia. Qed.

Lemma private_page_va va : private_page va → va = page_va (l2_index va) (l3_index va).
Proof.
  intros [Hm Hr]. unfold page_va. rewrite l2_index_eq, l3_index_eq. div_lia.
Qed.

Lemma page_va_l2 i j : i < 512 → j < 512 → l2_index (page_va i j) = i.
Proof. intros Hi Hj. unfold page_va. rewrite l2_index_eq. div_lia. Qed.

Lemma page_va_l3 i j : i < 512 → j < 512 → l3_index (page_va i j) = j.
Proof. intros Hi Hj. unfold page_va. rewrite l3_index_eq. div_lia. Qed.

(** ** The tables as a tree *)

Record Tree := mkTree {
  t_l2 : option N;
  t_l3 : gmap N N;
  t_page : gmap N (N * N);
}.

Definition table_entry (o : option N) : N := match o with Some t => table_descriptor t | None => 0 end.
Definition page_entry (o : option (N * N)) : N :=
  match o with Some (f, perm) => normal_4kib_page_descriptor f perm | None => 0 end.

Record tree_ok (m : Mem) (r : N) (t : Tree) : Prop := {
  tree_root : read_entry m r 2 = table_entry (t_l2 t);
  tree_l2 l2 i : t_l2 t = Some l2 → i < 512 → read_entry m l2 i = table_entry (t_l3 t !! i);
  tree_l3 i l3 j : t_l3 t !! i = Some l3 → j < 512 → read_entry m l3 j = page_entry (t_page t !! page_va i j);
  tree_l3_index i l3 : t_l3 t !! i = Some l3 → i < 512 ∧ is_Some (t_l2 t);
  tree_pages va f perm : t_page t !! va = Some (f, perm) →
    private_page va ∧ is_Some (t_l3 t !! l2_index va) ∧ frame_addr f ∧ perm_ok perm;
}.

Definition tree_table (r : N) (t : Tree) (a : N) : Prop :=
  a = r ∨ t_l2 t = Some a ∨ ∃ i, t_l3 t !! i = Some a.

Lemma tree_ok_mem m m' r t :
  tree_ok m r t → (∀ a, tree_table r t a → page_at m' a = page_at m a) → tree_ok m' r t.
Proof.
  intros [H1 H2 H3 H4 H5] Hsame. split; try done.
  - rewrite <-H1. apply read_entry_page, Hsame. by left.
  - intros l2 i Hl Hi. rewrite <-(H2 l2 i Hl Hi). apply read_entry_page, Hsame. right; by left.
  - intros i l3 j Hl Hj. rewrite <-(H3 i l3 j Hl Hj). apply read_entry_page, Hsame. right; right. by exists i.
Qed.

(** ** The invariant *)

Definition owned (s : AddressSpace) (a : N) : Prop := a ∈ owned_tables s ∨ a ∈ owned_pages s.

#[global] Instance owned_dec s a : Decision (owned s a) := _.

(** A frame a space maps without allocating it: device memory, or part of a block
    the space has adopted. *)
Definition device_frame (f : N) : Prop := f + GRANULE_4KIB ≤ NORMAL_BASE.

#[global] Instance device_frame_dec f : Decision (device_frame f) := _.

Definition external (s : AddressSpace) (f : N) : Prop :=
  device_frame f ∨ ∃ b n, (b, n) ∈ owned_blocks s ∧ b ≤ f < b + n * GRANULE_4KIB.

Lemma device_below_heap f : device_frame f → f + GRANULE_4KIB ≤ HEAP_START.
Proof. unfold device_frame, NORMAL_BASE, HEAP_START. granules. lia. Qed.

Section inv.
Context `{HL : HeapLaws}.

Definition live (p : Phys) : gmap N N := heap_live (heap p).

Record ledger_ok (s : AddressSpace) (p : Phys) : Prop := {
  ledger_owned a : owned s a → live p !! a = Some GRANULE_4KIB ∧ frame_addr a;
  ledger_pages : NoDup (owned_pages s);
  ledger_disjoint a : a ∈ owned_tables s → a ∉ owned_pages s;
  ledger_blocks b n : (b, n) ∈ owned_blocks s →
    live p !! b = Some (n * GRANULE_4KIB) ∧ frame_addr b ∧ ¬ owned s b;
  ledger_blocks_nodup : NoDup (owned_blocks s).*1;
}.

Record space_inv (s : AddressSpace) (p : Phys) (t : Tree) : Prop := {
  inv_mem : mem_ok (mem p);
  inv_heap : heap_ok (heap p);
  inv_tree : tree_ok (mem p) (root s) t;
  inv_tables a : a ∈ owned_tables s ↔ tree_table (root s) t a;
  inv_root_l2 : t_l2 t ≠ Some (root s);
  inv_l3_inj i j a : t_l3 t !! i = Some a → t_l3 t !! j = Some a → i = j;
  inv_l3_other i a : t_l3 t !! i = Some a → a ≠ root s ∧ t_l2 t ≠ Some a;
  inv_ledger : ledger_ok s p;
  inv_exclusive va va' f q q' : t_page t !! va = Some (f, q) → t_page t !! va' = Some (f, q') →
    f ∈ owned_pages s → va = va';
  inv_backed va f q : t_page t !! va = Some (f, q) → f ∈ owned_pages s ∨ external s f;
}.

(** What an operation may change: frames of the space, old and newly allocated. *)
Record grows (sp sp' : Proc) : Prop := {
  grows_root : root sp'.1 = root sp.1;
  grows_seeded : seeded_root sp'.1 = seeded_root sp.1;
  grows_hook : pre_free_hook sp'.1 = pre_free_hook sp.1;
  grows_blocks : owned_blocks sp'.1 = owned_blocks sp.1;
  grows_pages a : a ∈ owned_pages sp.1 → a ∈ owned_pages sp'.1;
  grows_owned a : owned sp.1 a → owned sp'.1 a;
  grows_fresh a : owned sp'.1 a → ¬ owned sp.1 a → live sp.2 !! a = None ∧ live sp'.2 !! a = Some GRANULE_4KIB;
  grows_live a : ¬ (owned sp'.1 a ∧ ¬ owned sp.1 a) → live sp'.2 !! a = live sp.2 !! a;
  grows_mem a : ¬ owned sp'.1 a → page_at (mem sp'.2) a = page_at (mem sp.2) a;
  grows_kernel i : i < 512 → i ≠ 2 → read_entry (mem sp'.2) (root sp.1) i = read_entry (mem sp.2) (root sp.1) i;
  grows_ttbr0 : ttbr0 sp'.2 = ttbr0 sp.2;
  grows_trace : trace sp'.2 = trace sp.2;
}.

Lemma grows_refl sp : grows sp sp.
Proof. by split; try tauto. Qed.

Lemma grows_trans sp1 sp2 sp3 : grows sp1 sp2 → grows sp2 sp3 → grows sp1 sp3.
Proof.
  intros H1 H2. split.
  - by rewrite (grows_root _ _ H2), (grows_root _ _ H1).
  - by rewrite (grows_seeded _ _ H2), (grows_seeded _ _ H1).
  - by rewrite (grows_hook _ _ H2), (grows_hook _ _ H1).
  - by rewrite (grows_blocks _ _ H2), (grows_blocks _ _ H1).
  - intros a Ha. by apply (grows_pages _ _ H2), (grows_pages _ _ H1).
  - intros a Ha. by apply (grows_owned _ _ H2), (grows_owned _ _ H1).
  - intros a H3 Hn. destruct (decide (owned sp2.1 a)) as [Hm|Hm].
    + destruct (grows_fresh _ _ H1 a Hm Hn) as [? Hl]. split; [done|].
      rewrite (grows_live _ _ H2); [done|tauto].
    + destruct (grows_fresh _ _ H2 a H3 Hm) as [Hl ?]. split; [|done].
      rewrite <-(grows_live _ _ H1); [done|tauto].
  - intros a Hn. destruct (decide (owned sp3.1 a)) as [H3|H3].
    + destruct (decide (owned sp1.1 a)) as [Ho|Ho]; [|tauto].
      rewrite (grows_live _ _ H2), (grows_live _ _ H1); [done|tauto|].
      intros [_ Hno]. apply Hno. by apply (grows_owned _ _ H1).
    + rewrite (grows_live _ _ H2), (grows_live _ _ H1); [done| |tauto].
      intros [Ho _]. apply H3. by apply (grows_owned _ _ H2).
  - intros a Hn. rewrite (grows_mem _ _ H2 a Hn). apply (grows_mem _ _ H1). intros Ho.
    apply Hn. by apply (grows_owned _ _ H2).
  - intros i Hi Hne. rewrite <-(grows_kernel _ _ H1 i Hi Hne), <-(grows_root _ _ H1).
    by apply (grows_kernel _ _ H2).
  - by rewrite (grows_ttbr0 _ _ H2), (grows_ttbr0 _ _ H1).
  - by rewrite (grows_trace _ _ H2), (grows_trace _ _ H1).
Qed.

Lemma heap_frame p a n : heap_ok (heap p) → live p !! a = Some n → a mod GRANULE_4KIB = 0 → frame_addr a.
Proof.
  intros Hh Hl Hm. destruct (heap_extents _ Hh a n Hl) as (_ & Hr & _). split; [exact Hm|].
  unfold HEAP_START, HEAP_SIZE in Hr. granules. lia.
Qed.

Lemma table_is_owned s p t a : space_inv s p t → tree_table (root s) t a → owned s a.
Proof. intros Hi Ha. left. by apply (inv_tables _ _ _ Hi). Qed.

Lemma table_frame s p t a : space_inv s p t → tree_table (root s) t a → frame_addr a.
Proof. intros Hi Ha. by apply (ledger_owned _ _ (inv_ledger _ _ _ Hi)), (table_is_owned s p t). Qed.

(** ** Reading the tree *)

Lemma page_entry_type f perm :
  frame_addr f → perm_ok perm → desc_type (page_entry (Some (f, perm))) = DESC_TABLE_OR_PAGE.
Proof. apply page_desc_type. Qed.

Lemma owned_next_table s p t table i :
  space_inv s p t → ∀ o, read_entry (mem p) table i = table_entry o →
  (∀ a, o = Some a → tree_table (root s) t a) → owned_next s p table i = o.
Proof.
  intros Hi o Hr Ho. unfold owned_next. rewrite Hr. destruct o as [a|]; cbn [table_entry].
  - pose proof (table_frame s p t a Hi (Ho a eq_refl)) as Hf.
    rewrite table_desc_type, table_desc_addr by done. rewrite decide_False by (intros Hne; by apply Hne).
    rewrite decide_True; [done|]. apply (inv_tables _ _ _ Hi). by apply Ho.
  - by rewrite decide_True.
Qed.

Lemma page_descriptor_tree s p t va :
  space_inv s p t → private_page va →
  page_descriptor s p va = (λ x, normal_4kib_page_descriptor x.1 x.2) <$> t_page t !! va.
Proof.
  intros Hi Hva. pose proof (inv_tree _ _ _ Hi) as [T1 T2 T3 T4 T5]. unfold page_descriptor.
  rewrite private_l1 by apply Hva.
  rewrite (owned_next_table s p t _ _ Hi (t_l2 t)); [|done|intros a Ha; right; by left].
  assert (∀ x, t_page t !! va = Some x → is_Some (t_l3 t !! l2_index va)) as Hpage.
  { intros [f q] Hx. by apply T5 in Hx as (_ & ? & _). }
  destruct (t_l2 t) as [l2|] eqn:Hl2; cbn [mbind option_bind].
  2:{ destruct (t_page t !! va) as [x|] eqn:Hx; [|done]. destruct (Hpage x eq_refl) as [l3 H3].
      apply T4 in H3 as [_ [? ?]]. done. }
  rewrite (owned_next_table s p t _ _ Hi (t_l3 t !! l2_index va)); [|apply T2; [done|apply table_index_lt]|].
  2:{ intros a Ha. right; right. by eexists. }
  destruct (t_l3 t !! l2_index va) as [l3|] eqn:Hl3; cbn [mbind option_bind].
  2:{ destruct (t_page t !! va) as [x|] eqn:Hx; [|done]. by destruct (Hpage x eq_refl). }
  rewrite (T3 _ l3 _ Hl3) by apply table_index_lt. rewrite <-private_page_va by done.
  destruct (t_page t !! va) as [[f q]|] eqn:Hx; cbn [page_entry fmap option_fmap option_map].
  - apply T5 in Hx as (_ & _ & Hf & Hq). by rewrite page_desc_type, decide_True.
  - by rewrite decide_False.
Qed.

(** What the hardware finds for an address of the window. *)
Lemma walk_tree s p t va :
  space_inv s p t → PRIVATE_REGION_BASE ≤ va < PRIVATE_REGION_END →
  walk (mem p) (root s) va =
  (λ x, (x.1 + va mod GRANULE_4KIB, normal_4kib_page_descriptor x.1 x.2)) <$> t_page t !! (va - va mod GRANULE_4KIB).
Proof.
  intros Hi Hva. pose proof (inv_tree _ _ _ Hi) as [T1 T2 T3 T4 T5].
  set (pg := va - va mod GRANULE_4KIB). assert (private_page pg) as Hpg.
  { unfold private_page, pg. clear -Hva. div_lia. }
  assert (l2_index va = l2_index pg ∧ l3_index va = l3_index pg) as [E2 E3].
  { unfold pg. rewrite !l2_index_eq, !l3_index_eq. clear -Hva. div_lia. }
  assert (∀ x, t_page t !! pg = Some x → is_Some (t_l3 t !! l2_index pg)) as Hpage.
  { intros [f q] Hx. by apply T5 in Hx as (_ & ? & _). }
  unfold walk. rewrite decide_False by (granules; lia). rewrite private_l1 by done. rewrite T1.
  destruct (t_l2 t) as [l2|] eqn:Hl2; cbn [table_entry].
  2:{ destruct (t_page t !! pg) as [x|] eqn:Hx; [|done]. destruct (Hpage x eq_refl) as [l3 H3].
      apply T4 in H3 as [_ [? ?]]. done. }
  pose proof (table_frame s p t l2 Hi) as F2. unfold tree_table in F2.
  rewrite table_desc_type, table_desc_addr by (apply F2; tauto).
  rewrite decide_False by done. rewrite decide_False by (intros Hne; by apply Hne).
  rewrite (T2 l2 _ eq_refl) by apply table_index_lt. rewrite E2.
  destruct (t_l3 t !! l2_index pg) as [l3|] eqn:Hl3; cbn [table_entry].
  2:{ destruct (t_page t !! pg) as [x|] eqn:Hx; [|done]. by destruct (Hpage x eq_refl). }
  assert (frame_addr l3) as F3 by (apply (table_frame s p t l3 Hi); right; right; by eexists).
  rewrite table_desc_type, table_desc_addr by done.
  rewrite decide_False by done. rewrite decide_False by (intros Hne; by apply Hne).
  rewrite (T3 _ l3 _ Hl3) by apply table_index_lt. rewrite E3, <-private_page_va by done.
  destruct (t_page t !! pg) as [[f q]|] eqn:Hx; cbn [page_entry fmap option_fmap option_map fst snd].
  - apply T5 in Hx as (_ & _ & Hf & Hq). rewrite page_desc_type, decide_True by done.
    unfold leaf. rewrite page_desc_af, page_desc_addr by done. destruct Hf as [Hf _].
    change GRANULE_4KIB with 4096. rewrite Hf. by rewrite N.sub_0_r.
  - by rewrite decide_False.
Qed.

(** ** Allocation *)

Lemma alloc_page_Ok p a p' :
  heap_ok (heap p) → alloc_page_in p = (Ok a, p') →
  mem p' = <[a := zero_page]> (mem p) ∧ heap_ok (heap p') ∧ live p' = <[a := GRANULE_4KIB]> (live p) ∧
  live p !! a = None ∧ frame_addr a ∧ ttbr0 p' = ttbr0 p ∧ trace p' = trace p.
Proof.
  intros Hh. unfold alloc_page_in. destruct (heap_alloc _ _ _) as [[b h]|] eqn:Ha; [|done]. intros [= <- <-].
  destruct (heap_alloc_ok _ GRANULE_4KIB _ _ _ Hh eq_refl Ha) as (Hh' & Hm & Hn & Hl). cbn.
  split_and!; try done. eapply (heap_frame (mkPhys ∅ h 0 []) b GRANULE_4KIB); [done| |done].
  unfold live. cbn. by rewrite Hl, lookup_insert_eq.
Qed.

Lemma alloc_page_Err p e p' : alloc_page_in p = (Err e, p') → p' = p.
Proof. unfold alloc_page_in. by destruct (heap_alloc _ _ _) as [[]|]; intros [=]. Qed.

Lemma fresh_not_owned s p a : ledger_ok s p → live p !! a = None → ¬ owned s a.
Proof. intros Hl Hn Ho. apply (ledger_owned _ _ Hl) in Ho as [Hs _]. congruence. Qed.

(** ** Attaching a fresh table *)

Definition attached (s : AddressSpace) (p p1 : Phys) (a table index : N) : Proc :=
  (push_table a s, set_mem (write_entry (mem p1) table index (table_descriptor a)) p1).

Lemma push_table_owned a s b : owned (push_table a s) b ↔ b = a ∨ owned s b.
Proof. unfold owned, push_table. cbn. rewrite elem_of_union, elem_of_singleton. tauto. Qed.

Lemma attached_ledger s p p1 a table index :
  heap_ok (heap p) → ledger_ok s p → alloc_page_in p = (Ok a, p1) →
  ledger_ok (attached s p p1 a table index).1 (attached s p p1 a table index).2.
Proof.
  intros Hh HL' Ha. destruct (alloc_page_Ok p a p1 Hh Ha) as (Hm & Hh1 & Hlive & Hn & Hf & _).
  pose proof (fresh_not_owned s p a HL' Hn) as Hfresh. destruct HL' as [L1 L2 L3 L4 L5].
  split; cbn [attached fst snd].
  - intros b Hb. apply push_table_owned in Hb as [->|Hb]; unfold live in *; cbn [heap set_mem]; rewrite Hlive.
    + by rewrite lookup_insert_eq.
    + destruct (L1 b Hb) as [Hlb Hfb]. rewrite lookup_insert_ne; [done|congruence].
  - done.
  - intros b. cbn. intros [->%elem_of_singleton|Hb]%elem_of_union; [|by apply L3].
    intros Hin. apply Hfresh. by right.
  - intros b n Hb. destruct (L4 b n Hb) as (Hlb & Hfb & Hno). unfold live in *; cbn [heap set_mem].
    rewrite Hlive, push_table_owned. assert (b ≠ a) by congruence. rewrite lookup_insert_ne by done. tauto.
  - done.
Qed.

Lemma attached_mem s p t p1 a table index :
  space_inv s p t → alloc_page_in p = (Ok a, p1) → owned s table → index < 512 →
  let m' := mem (attached s p p1 a table index).2 in
  mem_ok m' ∧ heap_ok (heap (attached s p p1 a table index).2) ∧
  (∀ b j, j < 512 → read_entry m' b j =
     if decide ((table, index) = (b, j)) then table_descriptor a
     else if decide (b = a) then 0 else read_entry (mem p) b j).
Proof.
  intros Hi Ha Ht Hidx. destruct (alloc_page_Ok p a p1 (inv_heap _ _ _ Hi) Ha) as (Hm & Hh1 & _ & Hn & Hf & _).
  pose proof (fresh_not_owned s p a (inv_ledger _ _ _ Hi) Hn) as Hfresh.
  assert (mem_ok (mem p1)) as Hok1.
  { rewrite Hm. apply mem_ok_insert; [apply (inv_mem _ _ _ Hi)|apply length_zero_page|apply bytes_zero_page]. }
  cbn. split_and!; [by apply mem_ok_write|done|]. intros b j Hj.
  rewrite read_write by (done || by apply table_desc_lt). case_decide as Heq; [done|].
  case_decide as Hb.
  - subst b. apply read_zero; [done|]. rewrite Hm, page_at_insert. by rewrite decide_True.
  - apply read_entry_page. rewrite Hm, page_at_insert. by rewrite decide_False by congruence.
Qed.

Lemma attached_grows s p t p1 a table index :
  space_inv s p t → alloc_page_in p = (Ok a, p1) → owned s table → index < 512 → (table = root s → index = 2) →
  grows (s, p) (attached s p p1 a table index).
Proof.
  intros Hi Ha Ht Hidx Hroot.
  destruct (alloc_page_Ok p a p1 (inv_heap _ _ _ Hi) Ha) as (Hm & Hh1 & Hlive & Hn & Hf & Htt & Htr).
  destruct (attached_mem s p t p1 a table index Hi Ha Ht Hidx) as (_ & _ & Hread).
  pose proof (fresh_not_owned s p a (inv_ledger _ _ _ Hi) Hn) as Hfresh.
  assert (root s ≠ a) by (intros <-; apply Hfresh, (table_is_owned s p t); [done|by left]).
  split; cbn [attached fst snd] in *; try done.
  - intros b Hb. apply push_table_owned. by right.
  - intros b [->|Hb]%push_table_owned Hnb; [|done]. unfold live in *. cbn. by rewrite Hlive, lookup_insert_eq.
  - intros b Hb. unfold live in *. cbn. rewrite Hlive. rewrite push_table_owned in Hb.
    destruct (decide (b = a)) as [->|]; [tauto|]. by rewrite lookup_insert_ne.
  - intros b Hb. rewrite push_table_owned in Hb. unfold set_mem. cbn [mem].
    rewrite page_at_write by (intros ->; tauto). rewrite Hm, page_at_insert, decide_False; [done|intros ->; tauto].
  - intros i Hi' Hne. rewrite Hread by done. rewrite decide_False by (intros [= E1 E2]; apply Hne; rewrite <-E2; auto).
    by rewrite decide_False.
Qed.

(** ** [descend] *)

Definition descended (sp sp' : Proc) (t t' : Tree) : Prop :=
  space_inv sp'.1 sp'.2 t' ∧ t_page t' = t_page t ∧ grows sp sp' ∧
  owned_pages sp'.1 = owned_pages sp.1 ∧ owned_blocks sp'.1 = owned_blocks sp.1 ∧
  ∀ a, a ∉ owned_tables sp'.1 → page_at (mem sp'.2) a = page_at (mem sp.2) a.

Lemma descended_refl s p t : space_inv s p t → descended (s, p) (s, p) t t.
Proof. intros Hi. by split_and!; [|done|apply grows_refl|done..]. Qed.

Lemma attached_pages s p p1 a table index :
  heap_ok (heap p) → alloc_page_in p = (Ok a, p1) → table ∈ owned_tables s →
  ∀ b, b ∉ owned_tables (attached s p p1 a table index).1 →
  page_at (mem (attached s p p1 a table index).2) b = page_at (mem p) b.
Proof.
  intros Hh Ha Ht b Hb. destruct (alloc_page_Ok p a p1 Hh Ha) as (Hm & _). cbn in Hb |- *.
  apply not_elem_of_union in Hb as [Hba%not_elem_of_singleton Hb].
  rewrite page_at_write by (intros ->; done). by rewrite Hm, page_at_insert, decide_False by congruence.
Qed.

Lemma descend_Err table index sp e sp' : descend table index sp = (Err e, sp') → sp' = sp.
Proof.
  unfold descend. case_match; [done|]. destruct sp as [s p]. unfold mbind, SE_bind, alloc_page. cbn.
  destruct (alloc_page_in p) as [[a|e'] p1] eqn:Ha; [done|]. intros [= _ <-]. by apply alloc_page_Err in Ha as ->.
Qed.

(** An entry that is not an owned table gets a fresh one. *)
Lemma descend_fresh s p table index :
  read_entry (mem p) table index = table_entry None →
  ∀ l sp', descend table index (s, p) = (Ok l, sp') →
  ∃ p1, alloc_page_in p = (Ok l, p1) ∧ sp' = attached s p p1 l table index.
Proof.
  intros Hr l sp'. unfold descend. cbn [fst snd]. rewrite Hr. cbn [table_entry].
  unfold mbind, SE_bind, alloc_page. cbn. destruct (alloc_page_in p) as [[a|e] p1] eqn:Ha; [|done].
  intros [= -> <-]. by exists p1.
Qed.

Lemma descend_present s p t table index a :
  space_inv s p t → tree_table (root s) t a → read_entry (mem p) table index = table_entry (Some a) →
  descend table index (s, p) = (Ok a, (s, p)).
Proof.
  intros Hi Ha Hr. unfold descend. cbn [fst snd]. rewrite Hr. cbn [table_entry].
  pose proof (table_frame s p t a Hi Ha) as Hf. rewrite table_desc_type, table_desc_addr by done.
  rewrite bool_decide_eq_true_2 by done. rewrite bool_decide_eq_true_2; [done|]. by apply (inv_tables _ _ _ Hi).
Qed.

Lemma descend_root s p t l2 sp' :
  space_inv s p t → descend (root s) 2 (s, p) = (Ok l2, sp') →
  ∃ t', descended (s, p) sp' t t' ∧ t_l2 t' = Some l2.
Proof.
  intros Hi Hd. pose proof (inv_tree _ _ _ Hi) as [T1 T2 T3 T4 T5].
  destruct (t_l2 t) as [a|] eqn:Hl2.
  - rewrite (descend_present s p t (root s) 2 a) in Hd; [|done|right; by left|done]. injection Hd as <- <-.
    exists t. split; [by apply descended_refl|done].
  - assert (t_l3 t = ∅) as E3.
    { apply map_empty. intros i. apply eq_None_not_Some. intros [x Hx]. apply T4 in Hx as [_ [? ?]]. done. }
    assert (t_page t = ∅) as Ep.
    { apply map_empty. intros va. apply eq_None_not_Some. intros [[f q] Hx]. apply T5 in Hx as (_ & [? Hx] & _).
      by rewrite E3 in Hx. }
    destruct (descend_fresh s p (root s) 2 T1 l2 sp' Hd) as (p1 & Ha & ->).
    assert (owned s (root s)) as Hro by (left; apply (inv_tables _ _ _ Hi); by left).
    destruct (attached_mem s p t p1 l2 (root s) 2 Hi Ha Hro ltac:(done)) as (Hm & Hh & Hread).
    destruct (alloc_page_Ok p l2 p1 (inv_heap _ _ _ Hi) Ha) as (_ & _ & _ & Hn & Hf & _).
    pose proof (fresh_not_owned s p l2 (inv_ledger _ _ _ Hi) Hn) as Hfresh.
    assert (l2 ≠ root s) as Hne by (intros ->; done).
    exists (mkTree (Some l2) ∅ ∅). split; [|done]. split_and!; [|done| |done|done|].
    2:{ by apply (attached_grows s p t). }
    2:{ apply attached_pages; [apply Hi|done|]. apply (inv_tables _ _ _ Hi). by left. }
    split; [done|done| | |cbn; congruence|done|done| |done|done].
    + split; cbn [t_l2 t_l3 t_page]; [| |done|done|done].
      * rewrite Hread by done. by rewrite decide_True.
      * intros l i [= <-] Hidx. rewrite Hread by done. rewrite lookup_empty. cbn [table_entry].
        rewrite decide_False by congruence. by rewrite decide_True.
    + intros b. cbn. rewrite elem_of_union, elem_of_singleton, (inv_tables _ _ _ Hi). unfold tree_table. cbn.
      rewrite Hl2, E3. setoid_rewrite lookup_empty. split.
      * intros [-> | [-> | [[=] | [? [=]]]]]; [right; by left|by left].
      * intros [-> | [[= <-] | [? [=]]]]; [right; by left|by left].
    + apply attached_ledger; try done; apply Hi.
Qed.

Lemma descend_l2 s p t l2 i l3 sp' :
  space_inv s p t → t_l2 t = Some l2 → i < 512 → descend l2 i (s, p) = (Ok l3, sp') →
  ∃ t', descended (s, p) sp' t t' ∧ t_l3 t' !! i = Some l3.
Proof.
  intros Hi Hl2 Hidx Hd. pose proof (inv_tree _ _ _ Hi) as [T1 T2 T3 T4 T5].
  destruct (t_l3 t !! i) as [a|] eqn:Hl3.
  - rewrite (descend_present s p t l2 i a) in Hd; [|done|right; right; by exists i|by rewrite T2, Hl3].
    injection Hd as <- <-. exists t. split; [by apply descended_refl|done].
  - destruct (descend_fresh s p l2 i) with (l := l3) (sp' := sp') as (p1 & Ha & ->); [by rewrite T2, Hl3|done|].
    assert (owned s l2) as Ho by (left; apply (inv_tables _ _ _ Hi); right; by left).
    destruct (attached_mem s p t p1 l3 l2 i Hi Ha Ho Hidx) as (Hm & Hh & Hread).
    destruct (alloc_page_Ok p l3 p1 (inv_heap _ _ _ Hi) Ha) as (_ & _ & _ & Hn & Hf & _).
    pose proof (fresh_not_owned s p l3 (inv_ledger _ _ _ Hi) Hn) as Hfresh.
    assert (∀ a, tree_table (root s) t a → a ≠ l3) as Hne.
    { intros a Hta ->. by apply Hfresh, (table_is_owned s p t). }
    assert (root s ≠ l3) by (apply Hne; by left). assert (l2 ≠ l3) by (apply Hne; right; by left).
    assert (l2 ≠ root s) by (pose proof (inv_root_l2 _ _ _ Hi); congruence).
    exists (mkTree (Some l2) (<[i := l3]> (t_l3 t)) (t_page t)). split; [|apply lookup_insert_eq].
    split_and!; [|done| |done|done|].
    2:{ by apply (attached_grows s p t). }
    2:{ apply attached_pages; [apply Hi|done|]. apply (inv_tables _ _ _ Hi). right; by left. }
    split; [done|done| | |cbn; congruence| | | |apply (inv_exclusive _ _ _ Hi)|apply (inv_backed _ _ _ Hi)].
    + split; cbn [t_l2 t_l3 t_page].
      * change (root (attached s p p1 l3 l2 i).1) with (root s).
        rewrite Hread by done. rewrite decide_False by congruence. rewrite decide_False by done. by rewrite T1, Hl2.
      * intros l j [= <-] Hj. rewrite Hread by done. rewrite (T2 l2 j Hl2 Hj).
        destruct (decide (i = j)) as [<-|Hij]; [by rewrite lookup_insert_eq, decide_True|].
        rewrite lookup_insert_ne by done. rewrite decide_False by congruence. by rewrite decide_False.
      * intros k l j Hk Hj. rewrite Hread by done. destruct (decide (i = k)) as [<-|Hik].
        -- rewrite lookup_insert_eq in Hk. injection Hk as <-. rewrite decide_False by congruence.
           rewrite decide_True by done. destruct (t_page t !! page_va i j) as [[f q]|] eqn:Hp; [|done].
           apply T5 in Hp as (_ & [? Hx] & _). rewrite page_va_l2 in Hx by done. congruence.
        -- rewrite lookup_insert_ne in Hk by done. destruct (inv_l3_other _ _ _ Hi k l Hk) as [_ Hx].
           rewrite decide_False by congruence. rewrite decide_False; [by apply T3|].
           apply Hne. right; right. by exists k.
      * intros k l Hk. split; [|done]. destruct (decide (i = k)) as [<-|Hik]; [done|].
        rewrite lookup_insert_ne in Hk by done. by apply T4 in Hk as [? _].
      * intros va f q Hp. apply T5 in Hp as (? & [l Hx] & ? & ?). split_and!; [done| |done|done].
        destruct (decide (i = l2_index va)) as [<-|?]; [by rewrite lookup_insert_eq|].
        rewrite lookup_insert_ne by done. by eexists.
    + intros b. cbn. rewrite elem_of_union, elem_of_singleton, (inv_tables _ _ _ Hi). unfold tree_table. cbn.
      rewrite Hl2. split.
      * intros [-> | [Hb | [Hb | [k Hk]]]]; [right; right; exists i; by rewrite lookup_insert_eq|by left|right; by left|].
        right; right. exists k. rewrite lookup_insert_ne; [done|congruence].
      * intros [Hb | [Hb | [k Hk]]]; [right; by left|right; right; by left|].
        apply lookup_insert_Some in Hk as [[_ <-]|[_ Hk]]; [by left|]. right; right; right. by exists k.
    + intros k j a Hk Hj. cbn in Hk, Hj. apply lookup_insert_Some in Hk as [[<- <-]|[Hik Hk]];
        apply lookup_insert_Some in Hj as [[<- Hj]|[Hij Hj]]; try done.
      * exfalso. by apply (Hne l3); [right; right; by eexists|].
      * exfalso. apply (Hne a); [right; right; by eexists|done].
      * by eapply (inv_l3_inj _ _ _ Hi).
    + intros k a Hk. cbn in Hk |- *. apply lookup_insert_Some in Hk as [[_ <-]|[_ Hk]]; [split; congruence|].
      destruct (inv_l3_other _ _ _ Hi k a Hk). split; [done|congruence].
    + apply attached_ledger; try done; apply Hi.
Qed.

Lemma descended_trans sp1 sp2 sp3 t1 t2 t3 : descended sp1 sp2 t1 t2 → descended sp2 sp3 t2 t3 → descended sp1 sp3 t1 t3.
Proof.
  intros (I1 & E1 & G1 & P1 & B1 & M1) (I2 & E2 & G2 & P2 & B2 & M2).
  split_and!; [done|congruence|by eapply grows_trans|congruence|congruence|].
  intros a Ha. rewrite (M2 a Ha). apply M1. intros Hin. apply Ha.
  destruct (grows_owned _ _ G2 a (or_introl Hin)) as [|Hp]; [done|].
  rewrite P2, P1 in Hp. exfalso. apply (ledger_disjoint _ _ (inv_ledger _ _ _ I1) a Hin). by rewrite P1.
Qed.

Lemma descend_to_l3_Ok s p t va l3 sp' :
  space_inv s p t → private_page va → descend_to_l3 va (s, p) = (Ok l3, sp') →
  ∃ t', descended (s, p) sp' t t' ∧ t_l3 t' !! l2_index va = Some l3.
Proof.
  intros Hi Hva. unfold descend_to_l3. cbn [fst]. rewrite private_l1 by apply Hva.
  intros (l2 & [s1 p1] & H1 & H2)%bind_SE_Ok. destruct (descend_root s p t l2 _ Hi H1) as (t1 & D1 & Hl2).
  pose proof D1 as (I1 & _). destruct (descend_l2 s1 p1 t1 l2 (l2_index va) l3 sp' I1 Hl2) as (t2 & D2 & Hl3);
    [apply table_index_lt|done|]. exists t2. split; [by eapply descended_trans|done].
Qed.

Lemma descend_to_l3_Err s p t va e sp' :
  space_inv s p t → private_page va → descend_to_l3 va (s, p) = (Err e, sp') →
  ∃ t', descended (s, p) sp' t t'.
Proof.
  intros Hi Hva. unfold descend_to_l3. cbn [fst]. rewrite private_l1 by apply Hva.
  unfold mbind, SE_bind. destruct (descend (root s) 2 (s, p)) as [[l2|e1] [s1 p1]] eqn:H1.
  - destruct (descend_root s p t l2 _ Hi H1) as (t1 & D1 & Hl2). intros ->%descend_Err. by exists t1.
  - apply descend_Err in H1 as [= -> ->]. intros [= _ <-]. exists t.
    by apply descended_refl.
Qed.

(** ** Pages *)

Lemma backed_not_table s p t va f q : space_inv s p t → t_page t !! va = Some (f, q) → f ∉ owned_tables s.
Proof.
  intros Hi Hp Hin. pose proof (inv_ledger _ _ _ Hi) as [L1 L2 L3 L4 L5].
  destruct (L1 f ltac:(by left)) as [Hlf _]. pose proof (heap_extents _ (inv_heap _ _ _ Hi)) as Hx.
  destruct (Hx f _ Hlf) as (Hlo & Hhi & _ & Hdis).
  destruct (inv_backed _ _ _ Hi va f q Hp) as [Hpg|[Hb%device_below_heap|(b & n & Hb & Hr)]]; [by apply (L3 f)|granules; lia|].
  destruct (L4 b n Hb) as (Hlb & _ & Hno). destruct (decide (f = b)) as [->|Hne]; [apply Hno; by left|].
  destruct (Hdis b _ Hlb Hne); granules; lia.
Qed.

(** A fresh frame backs no page yet. *)
Lemma fresh_unmapped s p t a p1 va q :
  space_inv s p t → alloc_page_in p = (Ok a, p1) → t_page t !! va ≠ Some (a, q).
Proof.
  intros Hi Ha Hp. destruct (alloc_page_Ok p a p1 (inv_heap _ _ _ Hi) Ha) as (_ & Hh & Hlive & Hn & _).
  pose proof (fresh_not_owned s p a (inv_ledger _ _ _ Hi) Hn) as Hfresh.
  pose proof (inv_ledger _ _ _ Hi) as [L1 L2 L3 L4 L5].
  pose proof (heap_extents _ Hh) as Hx. change (heap_live (heap p1)) with (live p1) in Hx. rewrite Hlive in Hx.
  destruct (Hx a GRANULE_4KIB (lookup_insert_eq _ _ _)) as (Hlo & Hhi & _ & Hdis).
  destruct (inv_backed _ _ _ Hi va a q Hp) as [Hpg|[Hb%device_below_heap|(b & n & Hb & Hr)]]; [apply Hfresh; by right|granules; lia|].
  destruct (L4 b n Hb) as (Hlb & _ & _). assert (a ≠ b) as Hne by congruence.
  destruct (Hdis b (n * GRANULE_4KIB)); [by rewrite lookup_insert_ne|done| |]; granules; lia.
Qed.

Lemma push_page_owned a s b : owned (push_page a s) b ↔ b = a ∨ owned s b.
Proof. unfold owned, push_page. cbn. rewrite elem_of_app, list_elem_of_singleton. tauto. Qed.

Lemma push_page_inv s p t a p1 :
  space_inv s p t → alloc_page_in p = (Ok a, p1) →
  space_inv (push_page a s) p1 t ∧ grows (s, p) (push_page a s, p1).
Proof.
  intros Hi Ha. destruct (alloc_page_Ok p a p1 (inv_heap _ _ _ Hi) Ha) as (Hm & Hh & Hlive & Hn & Hf & Htt & Htr).
  pose proof (inv_ledger _ _ _ Hi) as HL'. pose proof (fresh_not_owned s p a HL' Hn) as Hfresh.
  pose proof (λ va q, fresh_unmapped s p t a p1 va q Hi Ha) as Hun.
  destruct HL' as [L1 L2 L3 L4 L5]. split; [split|split].
  - rewrite Hm. apply mem_ok_insert; [apply Hi|apply length_zero_page|apply bytes_zero_page].
  - done.
  - apply (tree_ok_mem (mem p)); [apply Hi|]. intros b Hb. rewrite Hm, page_at_insert, decide_False; [done|].
    intros ->. by apply Hfresh, (table_is_owned s p t).
  - apply Hi.
  - apply Hi.
  - apply (inv_l3_inj _ _ _ Hi).
  - apply (inv_l3_other _ _ _ Hi).
  - split; cbn [push_page owned_pages owned_tables owned_blocks].
    + intros b Hb. apply push_page_owned in Hb as [->|Hb]; unfold live in *; rewrite Hlive.
      * by rewrite lookup_insert_eq.
      * destruct (L1 b Hb) as [Hlb Hfb]. rewrite lookup_insert_ne; [done|congruence].
    + apply NoDup_app. split_and!; [done| |apply NoDup_singleton].
      intros b Hb ->%list_elem_of_singleton. apply Hfresh. by right.
    + intros b Hb [Hin| ->%list_elem_of_singleton]%elem_of_app; [by apply (L3 b)|]. apply Hfresh. by left.
    + intros b n Hb. destruct (L4 b n Hb) as (Hlb & Hfb & Hno). unfold live in *.
      assert (b ≠ a) by congruence. rewrite push_page_owned, Hlive, lookup_insert_ne by done. tauto.
    + done.
  - intros va va' f q q' H1 H2 [Hf'| ->%list_elem_of_singleton]%elem_of_app; [by eapply (inv_exclusive _ _ _ Hi)|].
    by apply Hun in H1.
  - intros va f q Hp. destruct (inv_backed _ _ _ Hi va f q Hp) as [Hx|Hx]; [left|by right].
    cbn. apply elem_of_app. by left.
  - done.
  - done.
  - done.
  - done.
  - intros b Hb. cbn. apply elem_of_app. by left.
  - intros b Hb. apply push_page_owned. by right.
  - intros b [->|Hb]%push_page_owned Hnb; [|done]. unfold live in *. cbn. by rewrite Hlive, lookup_insert_eq.
  - intros b Hb. unfold live in *. cbn in *. rewrite Hlive. rewrite push_page_owned in Hb.
    destruct (decide (b = a)) as [->|]; [tauto|]. by rewrite lookup_insert_ne.
  - intros b Hb. cbn in *. rewrite push_page_owned in Hb. rewrite Hm, page_at_insert, decide_False; [done|intros ->; tauto].
  - intros i _ _. cbn. apply read_entry_page. rewrite Hm, page_at_insert, decide_False; [done|].
    intros ->. apply Hfresh, (table_is_owned s p t); [done|by left].
  - done.
  - done.
Qed.

(** Writing a page descriptor. *)
Definition set_page (va f perm : N) (t : Tree) : Tree := mkTree (t_l2 t) (t_l3 t) (<[va := (f, perm)]> (t_page t)).

Lemma write_leaf_inv s p t l3 va f perm :
  space_inv s p t → private_page va → t_l3 t !! l2_index va = Some l3 →
  frame_addr f → perm_ok perm → f ∈ owned_pages s ∨ external s f →
  (f ∈ owned_pages s → ∀ va' q, t_page t !! va' = Some (f, q) → va' = va) →
  let p' := set_mem (write_entry (mem p) l3 (l3_index va) (normal_4kib_page_descriptor f perm)) p in
  space_inv s p' (set_page va f perm t) ∧ grows (s, p) (s, p').
Proof.
  intros Hi Hva Hl3 Hf Hq Hback Hexcl. cbn zeta. pose proof (inv_tree _ _ _ Hi) as [T1 T2 T3 T4 T5].
  assert (owned s l3) as Ho by (left; apply (inv_tables _ _ _ Hi); right; right; by eexists).
  pose proof (table_index_lt va 12) as Hj. fold (l3_index va) in Hj.
  pose proof (inv_mem _ _ _ Hi) as Hm. pose proof (page_desc_lt f perm Hf Hq) as Hlt.
  assert (∀ b j, j < 512 → read_entry (write_entry (mem p) l3 (l3_index va) (normal_4kib_page_descriptor f perm)) b j =
    if decide ((l3, l3_index va) = (b, j)) then normal_4kib_page_descriptor f perm else read_entry (mem p) b j) as Hread.
  { intros b j Hjj. by apply read_write. }
  destruct (inv_l3_other _ _ _ Hi _ _ Hl3) as [Hnr Hn2].
  split; [split|split]; cbn [set_page t_l2 t_l3 t_page fst snd mem set_mem heap ttbr0 trace]; try done.
  - by apply mem_ok_write.
  - apply Hi.
  - split; cbn [set_page t_l2 t_l3 t_page].
    + rewrite Hread by done. rewrite decide_False by congruence. done.
    + intros l2 i Hl2 Hidx. rewrite Hread by done. rewrite decide_False by congruence. by apply T2.
    + intros i l j Hl Hjj. rewrite Hread by done. destruct (decide (i = l2_index va)) as [->|Hne].
      * rewrite Hl in Hl3. injection Hl3 as ->. destruct (decide (j = l3_index va)) as [->|Hnj].
        -- rewrite decide_True by done. rewrite <-(private_page_va va Hva). by rewrite lookup_insert_eq.
        -- rewrite decide_False by congruence. rewrite lookup_insert_ne; [by apply T3|].
           intros Heq. apply (f_equal l3_index) in Heq. rewrite page_va_l3 in Heq; [done|apply table_index_lt|done].
      * rewrite decide_False. 2:{ intros [= El _]. rewrite <-El in Hl. apply Hne. by eapply (inv_l3_inj _ _ _ Hi). }
        rewrite lookup_insert_ne; [by apply T3|]. intros Heq. apply (f_equal l2_index) in Heq.
        rewrite page_va_l2 in Heq; [done|by apply T4 in Hl as [? _]|done].
    + apply T4.
    + intros va' f' q' [[<- [= <- <-]]|[_ Hp]]%lookup_insert_Some; [|by eapply T5]. split_and!; try done.
  - apply Hi.
  - apply Hi.
  - apply (inv_l3_inj _ _ _ Hi).
  - apply (inv_l3_other _ _ _ Hi).
  - destruct (inv_ledger _ _ _ Hi) as [L1 L2 L3 L4 L5]. by split.
  - intros va1 va2 f' q1 q2 H1 H2 Hin.
    apply lookup_insert_Some in H1 as [[<- E1]|[Hne1 H1]];
      apply lookup_insert_Some in H2 as [[<- E2]|[Hne2 H2]]; simplify_eq; [done| | |].
    + symmetry. by eapply Hexcl.
    + by eapply Hexcl.
    + by eapply (inv_exclusive _ _ _ Hi).
  - intros va' f' q' [[<- [= <- <-]]|[_ Hp]]%lookup_insert_Some; [done|by eapply (inv_backed _ _ _ Hi)].
  - intros b Hb. apply page_at_write. by intros ->.
  - intros i Hi' _. rewrite Hread by done. by rewrite decide_False by congruence.
Qed.
End inv.
