(* ===== verification/ArmSpaceOps.v ===== *)
(** * ArmSpaceOps: what each operation of an address space does

    The operations of [ArmSpace] against the invariant of [ArmSpaceSpec]: mapping a
    fresh page, mapping a given frame, adopting a block, writing through a page
    reference.  At the end the loader's contract, [PrivatePageMapperLaws], is
    discharged for address spaces. *)

From S2P Require Import Prelude Bytes Sorting StateErr ArmVm ArmElf ArmReclaim ArmLoader ArmSpace ArmSpaceSpec.

Local Open Scope N_scope.

Section ops.
Context `{HL : HeapLaws}.

(** Steps that leave memory and the live blocks alone. *)
Lemma same_live_inv s p t p' :
  space_inv s p t → mem p' = mem p → live p' = live p → heap_ok (heap p') → space_inv s p' t.
Proof.
  intros Hi Hm Hl Hh. destruct Hi as [H1 H2 H3 H4 H5 H6 H7 [L1 L2 L3 L4 L5] H9 H10].
  split; rewrite ?Hm; try done. split; rewrite ?Hl; done.
Qed.

Lemma same_live_grows s p p' :
  mem p' = mem p → live p' = live p → ttbr0 p' = ttbr0 p → trace p' = trace p → grows (s, p) (s, p').
Proof. intros Hm Hl Ht Htr. split; cbn; rewrite ?Hm, ?Hl; done || tauto. Qed.

Lemma reserve_inv s p t r sp' :
  space_inv s p t → reserve (s, p) = (r, sp') →
  space_inv s sp'.2 t ∧ sp'.1 = s ∧ grows (s, p) sp' ∧ mem sp'.2 = mem p ∧ live sp'.2 = live p.
Proof.
  intros Hi. unfold reserve. cbn. destruct (heap_reserve (heap p)) as [h|] eqn:Hr; intros [= <- <-].
  - destruct (heap_reserve_ok _ _ (inv_heap _ _ _ Hi) Hr) as [Hh Hl].
    split_and!; [by eapply same_live_inv|done|by apply same_live_grows|done|done].
  - by split_and!; [|done|apply grows_refl|done..].
Qed.

(** ** Mapping a fresh page *)

(** Everything but the pages of the tree. *)
Record page_added (sp sp' : Proc) (t t' : Tree) (va f perm : N) : Prop := {
  added_inv : space_inv sp'.1 sp'.2 t';
  added_pages : t_page t' = <[va := (f, perm)]> (t_page t);
  added_grows : grows sp sp';
  added_owned : owned_pages sp'.1 = owned_pages sp.1 ++ [f];
  added_blocks : owned_blocks sp'.1 = owned_blocks sp.1;
  added_fresh : live sp.2 !! f = None;
  added_zero : page_at (mem sp'.2) f = zero_page;
  added_mem a : a ∉ owned_tables sp'.1 → a ≠ f → page_at (mem sp'.2) a = page_at (mem sp.2) a;
}.

Lemma map_private_page_with_Ok s p t va perm f sp' :
  space_inv s p t → perm_ok perm → map_private_page_with va perm (s, p) = (Ok f, sp') →
  private_page va ∧ ∃ t', page_added (s, p) sp' t t' va f perm.
Proof.
  intros Hi Hq. unfold map_private_page_with, check_private_va.
  intros ([] & sp0 & H0 & H1)%bind_SE_Ok. destruct (decide (_ ≠ 0)) as [|Hal] in H0; [done|]. injection H0 as <-.
  apply bind_SE_Ok in H1 as ([] & sp0 & H0 & H1). destruct (decide (_ ≤ va < _)) as [Hr|] in H0; [|done].
  injection H0 as <-. assert (private_page va) as Hva by (split; [lia|done]). split; [done|].
  apply bind_SE_Ok in H1 as (l3 & [s1 p1] & H1 & H2).
  destruct (descend_to_l3_Ok s p t va l3 _ Hi Hva H1) as (t1 & (I1 & E1 & G1 & P1 & B1 & M1) & Hl3). cbn [fst snd] in *.
  apply bind_SE_Ok in H2 as ([] & [s2 p2] & H2 & H3).
  destruct (reserve_inv s1 p1 t1 _ _ I1 H2) as (I2 & E2 & G2 & M2 & Hl2). cbn [fst snd] in *. subst s2.
  unfold alloc_page, write_l3, modify in H3. unfold mbind, SE_bind in H3. cbn in H3.
  destruct (alloc_page_in p2) as [[a|e] p3] eqn:Ha; [|done]. injection H3 as <- <-.
  destruct (alloc_page_Ok p2 a p3 (inv_heap _ _ _ I2) Ha) as (Hm3 & _ & _ & Hn3 & Hf & _).
  destruct (push_page_inv s1 p2 t1 a p3 I2 Ha) as [I3 G3].
  destruct (write_leaf_inv (push_page a s1) p3 t1 l3 va a perm I3 Hva Hl3 Hf Hq) as [I4 G4].
  { left. cbn. apply elem_of_app. right. by left. }
  { intros _ va' q Hp. by apply (fresh_unmapped s1 p2 t1 a p3) in Hp. }
  assert (l3 ∈ owned_tables s1) as Ht3 by (apply (inv_tables _ _ _ I1); right; right; by eexists).
  assert (a ∉ owned_tables s1) as Hna.
  { intros Hin. apply (fresh_not_owned s1 p2 a (inv_ledger _ _ _ I2) Hn3). by left. }
  assert (a ≠ l3) by (intros ->; done).
  pose proof (grows_trans _ _ _ G1 (grows_trans _ _ _ G2 (grows_trans _ _ _ G3 G4))) as G.
  assert (owned (push_page a s1) a) as Hoa by (apply push_page_owned; by left).
  exists (set_page va a perm t1). split; cbn [fst snd with_phys with_space].
  - exact I4.
  - cbn. by rewrite E1.
  - exact G.
  - cbn. by rewrite P1.
  - cbn. by rewrite B1.
  - destruct (decide (owned s a)) as [Ho|Ho]; [|by apply (grows_fresh _ _ G a)].
    exfalso. apply (fresh_not_owned s1 p2 a (inv_ledger _ _ _ I2) Hn3). by apply (grows_owned _ _ G1).
  - unfold set_mem. cbn [mem]. rewrite page_at_write by done. by rewrite Hm3, page_at_insert, decide_True.
  - intros b Hb Hne. cbn in Hb. unfold set_mem. cbn [mem]. rewrite page_at_write by (intros ->; done).
    rewrite Hm3, page_at_insert, decide_False, M2 by done. by apply M1.
Qed.

Lemma map_private_page_with_Err s p t va perm e sp' :
  space_inv s p t → map_private_page_with va perm (s, p) = (Err e, sp') →
  ∃ t', descended (s, p) sp' t t'.
Proof.
  intros Hi. unfold map_private_page_with, check_private_va. unfold mbind at 1, SE_bind at 1.
  case_decide as Hal; [intros [= _ <-]; exists t; by apply descended_refl|].
  unfold mbind at 1, SE_bind at 1. cbn [mret SE_ret].
  case_decide as Hr; [|intros [= _ <-]; exists t; by apply descended_refl].
  assert (private_page va) as Hva by (split; [lia|done]).
  unfold mbind at 1, SE_bind at 1. cbn [mret SE_ret].
  destruct (descend_to_l3 va (s, p)) as [[l3|e1] [s1 p1]] eqn:H1.
  2:{ intros [= _ <-]. by eapply descend_to_l3_Err. }
  destruct (descend_to_l3_Ok s p t va l3 _ Hi Hva H1) as (t1 & D1 & Hl3). pose proof D1 as (I1 & _).
  unfold mbind at 1, SE_bind at 1. destruct (reserve (s1, p1)) as [r [s2 p2]] eqn:H2.
  destruct (reserve_inv s1 p1 t1 _ _ I1 H2) as (I2 & E2 & G2 & M2 & Hl2). cbn [fst snd] in *. subst s2.
  assert (descended (s1, p1) (s1, p2) t1 t1) as D2.
  { split_and!; try done. intros a _. cbn. by rewrite M2. }
  intros H3. exists t1. assert (sp' = (s1, p2)) as ->; [|by eapply descended_trans].
  destruct r as [[]|e2]; [|by injection H3 as _ <-].
  unfold alloc_page, mbind, SE_bind in H3. cbn in H3. destruct (alloc_page_in p2) as [[a|e2] p3] eqn:Ha; [done|].
  injection H3 as _ <-. by apply alloc_page_Err in Ha as ->.
Qed.

(** ** Mapping a frame the space does not allocate *)

Lemma map_mmio_page_Ok s p t va pa writable sp' :
  space_inv s p t → external s pa → pa < N.shiftl 1 48 →
  map_mmio_page va pa writable (s, p) = (Ok (), sp') →
  private_page va ∧ ∃ t', space_inv sp'.1 sp'.2 t' ∧ grows (s, p) sp' ∧
    t_page t' = <[va := (pa, N.lor (if writable then AP_EL0_RW else AP_EL0_RO) (N.lor UXN PXN))]> (t_page t) ∧
    owned_pages sp'.1 = owned_pages s ∧ owned_blocks sp'.1 = owned_blocks s ∧
    ∀ a, a ∉ owned_tables sp'.1 → page_at (mem sp'.2) a = page_at (mem p) a.
Proof.
  intros Hi Hx Hpa. unfold map_mmio_page, check_private_va.
  intros ([] & sp0 & H0 & H1)%bind_SE_Ok. destruct (decide (_ ∨ _)) as [|Hal] in H0; [done|]. injection H0 as <-.
  apply bind_SE_Ok in H1 as ([] & sp0 & H0 & H1). destruct (decide (_ ≤ va < _)) as [Hr|] in H0; [|done].
  injection H0 as <-. assert (private_page va) as Hva by (split; [lia|done]). split; [done|].
  apply bind_SE_Ok in H1 as (l3 & [s1 p1] & H1 & H2).
  destruct (descend_to_l3_Ok s p t va l3 _ Hi Hva H1) as (t1 & D1 & Hl3).
  pose proof D1 as (I1 & E1 & G1 & P1 & B1 & M1). cbn [fst snd] in *.
  set (perm := N.lor (if writable then AP_EL0_RW else AP_EL0_RO) (N.lor UXN PXN)) in *.
  assert (perm_ok perm) as Hq by (by destruct writable; vm_compute).
  assert (frame_addr pa) as Hf by (split; [change 4096 with GRANULE_4KIB; lia|done]).
  assert (external s1 pa) as Hx1 by (unfold external; by rewrite B1).
  destruct (write_leaf_inv s1 p1 t1 l3 va pa perm I1 Hva Hl3 Hf Hq) as [I2 G2]; [by right| |].
  { intros Hin. exfalso. destruct (ledger_owned _ _ (inv_ledger _ _ _ I1) pa ltac:(by right)) as [Hlp _].
    destruct (heap_extents _ (inv_heap _ _ _ I1) pa _ Hlp) as (Hlo & Hhi & _ & Hdis).
    destruct Hx1 as [Hb%device_below_heap|(b & n & Hb & Hrg)]; [granules; lia|].
    destruct (ledger_blocks _ _ (inv_ledger _ _ _ I1) b n Hb) as (Hlb & _ & Hno).
    destruct (decide (pa = b)) as [->|Hne]; [apply Hno; by right|].
    destruct (Hdis b _ Hlb Hne); granules; lia. }
  injection H2 as <-. exists (set_page va pa perm t1). cbn [fst snd with_phys].
  split_and!; [exact I2|by eapply grows_trans|cbn; by rewrite E1|exact P1|exact B1|].
  intros a Ha. rewrite <-(M1 a Ha). unfold set_mem. cbn [mem]. apply page_at_write. intros ->.
  apply Ha. apply (inv_tables _ _ _ I1). right; right. by eexists.
Qed.

(** ** Adopting a block *)

Lemma adopt_block_Ok s p t pa pages sp' :
  space_inv s p t → live p !! pa = Some (pages * GRANULE_4KIB) → frame_addr pa →
  ¬ owned s pa → pa ∉ (owned_blocks s).*1 → adopt_block pa pages (s, p) = (Ok (), sp') →
  space_inv sp'.1 sp'.2 t ∧ sp'.1 = push_block (pa, pages) s ∧ mem sp'.2 = mem p ∧ live sp'.2 = live p ∧
  ttbr0 sp'.2 = ttbr0 p ∧ trace sp'.2 = trace p.
Proof.
  intros Hi Hlp Hf Hno Hnb. unfold adopt_block. intros ([] & [s1 p1] & H1 & H2)%bind_SE_Ok.
  destruct (reserve_inv s p t _ _ Hi H1) as (I1 & E1 & G1 & M1 & Hl1). cbn [fst snd] in *. subst s1.
  injection H2 as <-. cbn [fst snd with_space].
  split_and!; try done; [|apply (grows_ttbr0 _ _ G1)|apply (grows_trace _ _ G1)].
  destruct I1 as [H1' H2 H3 H4 H5 H6 H7 [L1 L2 L3 L4 L5] H9 H10].
  split; try done.
  - split; try done; cbn.
    + intros b n [Hb|[= -> ->]%list_elem_of_singleton]%elem_of_app; [by apply L4|]. by rewrite Hl1.
    + rewrite fmap_app. apply NoDup_app. split_and!; [done| |apply NoDup_singleton].
      intros b Hb ->%list_elem_of_singleton. done.
  - intros va f q Hp. destruct (H10 va f q Hp) as [|[Hx|(b & n & Hb & Hr)]]; [by left|right..].
    + by left.
    + right. exists b, n. split; [|done]. cbn. apply elem_of_app. by left.
Qed.

(** ** Writing a page *)

Definition page_written (page off : N) (src : list N) (p : Phys) : Phys :=
  set_mem (<[page := copy_at (page_at (mem p) page) off src]> (mem p)) p.

Lemma page_written_inv s p t page off src :
  space_inv s p t → page ∈ owned_pages s → off + len src ≤ 4096 → bytes src →
  space_inv s (page_written page off src p) t ∧ grows (s, p) (s, page_written page off src p).
Proof.
  intros Hi Hin Hle Hb. pose proof (inv_mem _ _ _ Hi) as Hm.
  assert (off + len src ≤ len (page_at (mem p) page)) as Hfit by (unfold len in *; rewrite length_page_at; [lia|done]).
  assert (page ∉ owned_tables s) as Hnt.
  { intros Ht. by apply (ledger_disjoint _ _ (inv_ledger _ _ _ Hi) page). }
  split.
  - destruct Hi as [H1 H2 H3 H4 H5 H6 H7 [L1 L2 L3 L4 L5] H9 H10]. split; try done; cbn.
    + apply mem_ok_insert; [done|rewrite length_copy_at by done; by apply length_page_at|].
      apply bytes_copy_at; [by apply bytes_page_at|done].
    + apply (tree_ok_mem (mem p)); [done|]. intros a Ha. rewrite page_at_insert, decide_False; [done|].
      intros ->. by apply Hnt, H4.
  - split; try done.
    + intros a Ha. cbn. rewrite page_at_insert, decide_False; [done|]. intros ->. apply Ha. by right.
    + intros i _ _. cbn. apply read_entry_page. rewrite page_at_insert, decide_False; [done|].
      intros ->. apply Hnt, (inv_tables _ _ _ Hi). by left.
Qed.

(** ** The loader's contract *)

Definition space_page (sp : Proc) (va : N) : option (N * list N) :=
  (λ d, (N.land d PERM_MASK, page_at (mem sp.2) (desc_addr d))) <$> page_descriptor sp.1 sp.2 va.

Lemma space_page_tree s p t va :
  space_inv s p t → private_page va →
  space_page (s, p) va = (λ x, (x.2, page_at (mem p) x.1)) <$> t_page t !! va.
Proof.
  intros Hi Hva. unfold space_page. cbn [fst snd]. rewrite (page_descriptor_tree s p t va Hi Hva).
  destruct (t_page t !! va) as [[f q]|] eqn:Hx; [|done]. cbn.
  apply (tree_pages _ _ _ (inv_tree _ _ _ Hi)) in Hx as (_ & _ & Hf & Hq).
  by rewrite page_desc_perm, page_desc_addr.
Qed.

Definition space_refers (sp : Proc) (page va : N) : Prop :=
  page ∈ owned_pages sp.1 ∧ desc_addr <$> page_descriptor sp.1 sp.2 va = Some page.

Lemma space_refers_tree s p t page va :
  space_inv s p t → private_page va →
  space_refers (s, p) page va ↔ page ∈ owned_pages s ∧ fst <$> t_page t !! va = Some page.
Proof.
  intros Hi Hva. unfold space_refers. cbn [fst snd]. rewrite (page_descriptor_tree s p t va Hi Hva).
  destruct (t_page t !! va) as [[f q]|] eqn:Hx; [|done]. cbn.
  apply (tree_pages _ _ _ (inv_tree _ _ _ Hi)) in Hx as (_ & _ & Hf & Hq). by rewrite page_desc_addr.
Qed.

(** Nothing outside the space moves, seen from where the operation began. *)
Definition space_from (sp0 sp : Proc) : Prop := (∃ t, space_inv sp.1 sp.2 t) ∧ grows sp0 sp.

Lemma added_page sp sp' t t' va f perm va' :
  space_inv sp.1 sp.2 t → page_added sp sp' t t' va f perm → private_page va' →
  space_page sp' va' = if decide (va' = va) then Some (perm, zero_page) else space_page sp va'.
Proof.
  destruct sp as [s p], sp' as [s' p']. cbn. intros Hi [I1 P1 G1 O1 B1 F1 Z1 M1] Hva. cbn [fst snd] in *.
  rewrite (space_page_tree s' p' t' va' I1 Hva), (space_page_tree s p t va' Hi Hva), P1.
  case_decide as Heq; [subst va'; rewrite lookup_insert_eq; cbn; by rewrite Z1|].
  rewrite lookup_insert_ne by congruence. destruct (t_page t !! va') as [[f' q']|] eqn:Hx; [|done]. cbn.
  rewrite M1; [done| |].
  - eapply (backed_not_table s' p' t' va'); [done|]. rewrite P1, lookup_insert_ne; [exact Hx|congruence].
  - intros ->. assert (va' = va); [|done]. eapply (inv_exclusive _ _ _ I1 va' va f q' perm).
    + rewrite P1, lookup_insert_ne; [done|congruence].
    + by rewrite P1, lookup_insert_eq.
    + rewrite O1. apply elem_of_app. right. by left.
Qed.

Lemma descended_page sp sp' t t' va :
  space_inv sp.1 sp.2 t → descended sp sp' t t' → private_page va → space_page sp' va = space_page sp va.
Proof.
  destruct sp as [s p], sp' as [s' p']. cbn. intros Hi (I1 & P1 & G1 & O1 & B1 & M1) Hva. cbn [fst snd] in *.
  rewrite (space_page_tree s' p' t' va I1 Hva), (space_page_tree s p t va Hi Hva), P1.
  destruct (t_page t !! va) as [[f q]|] eqn:Hx; [|done]. cbn.
  rewrite M1; [done|]. eapply (backed_not_table s' p' t' va); [done|]. by rewrite P1.
Qed.

Lemma written_page s p t page va off src va' :
  space_inv s p t → space_refers (s, p) page va → private_page va → private_page va' →
  off + len src ≤ 4096 → bytes src →
  space_page (s, page_written page off src p) va' =
  if decide (va' = va) then (λ x, (x.1, copy_at x.2 off src)) <$> space_page (s, p) va else space_page (s, p) va'.
Proof.
  intros Hi Hr Hva Hva' Hle Hb. apply (space_refers_tree s p t page va Hi Hva) in Hr as [Hin Hpg].
  destruct (page_written_inv s p t page off src Hi Hin Hle Hb) as [Hi' _].
  rewrite (space_page_tree s _ t va' Hi' Hva'), !(space_page_tree s p t _ Hi) by done. cbn [page_written mem set_mem].
  destruct (t_page t !! va) as [[f q]|] eqn:Hx; [|done]. cbn in Hpg. injection Hpg as ->.
  case_decide as Heq.
  - subst va'. rewrite Hx. cbn. by rewrite page_at_insert, decide_True.
  - destruct (t_page t !! va') as [[f' q']|] eqn:Hx'; [|done]. cbn.
    rewrite page_at_insert, decide_False; [done|]. intros <-. apply Heq. by eapply (inv_exclusive _ _ _ Hi).
Qed.

#[export] Instance space_mapper_laws (sp0 : Proc) : PrivatePageMapperLaws Proc.
Proof.
  refine {| mapper_ok := space_from sp0; mapped_page := space_page; refers := space_refers |}.
  - intros [s p] va perm page sp' [[t Hi] G0] Hva Hq. cbn [fst snd] in Hi. unfold map_page, space_mapper, with_err.
    destruct (map_private_page_with va perm (s, p)) as [[f|e] sp1] eqn:Hm; [|done]. intros [= -> <-].
    destruct (map_private_page_with_Ok s p t va perm page sp1 Hi Hq Hm) as (_ & t' & A).
    split_and!.
    + split; [by exists t'; apply A|]. eapply grows_trans; [exact G0|apply A].
    + destruct sp1 as [s1 p1]. apply (space_refers_tree s1 p1 t' page va (added_inv _ _ _ _ _ _ _ A) Hva).
      pose proof (added_owned _ _ _ _ _ _ _ A) as Ho. cbn [fst] in Ho.
      rewrite Ho, (added_pages _ _ _ _ _ _ _ A), lookup_insert_eq. split; [|done]. apply elem_of_app. right. by left.
    + exists zero_page. split; [apply length_zero_page|]. intros va' Hva'. by eapply (added_page (s, p)).
  - intros [s p] va perm e sp' [[t Hi] G0]. cbn [fst snd] in Hi. unfold map_page, space_mapper, with_err.
    destruct (map_private_page_with va perm (s, p)) as [[f|e'] sp1] eqn:Hm; [done|]. intros [= _ <-].
    destruct (map_private_page_with_Err s p t va perm e' sp1 Hi Hm) as [t' D].
    split; [split; [exists t'; apply D|eapply grows_trans; [exact G0|apply D]]|].
    intros va' Hva'. by eapply (descended_page (s, p)).
  - intros [s p] page va perm bs off src [[t Hi] G0] Hr Hva Hpg Hle Hb. cbn [fst snd] in Hi.
    destruct (proj1 (space_refers_tree s p t page va Hi Hva) Hr) as [Hin Hfst].
    destruct (page_written_inv s p t page off src Hi Hin Hle Hb) as [Hi' G'].
    change (page_write page off src (s, p)) with (s, page_written page off src p).
    split_and!.
    + split; [by exists t|by eapply grows_trans].
    + by apply (space_refers_tree s _ t page va Hi' Hva).
    + intros va' Hva'. rewrite (written_page s p t page va off src va') by done. by rewrite Hpg.
Defined.
End ops.
