(* ===== verification/ArmWorld.v ===== *)
(** * ArmWorld: several address spaces in one physical memory

    The footprint of a space is the set of blocks it holds from the allocator.
    Operations of one space leave every other space with a disjoint footprint as it
    was; [destroy] gives the footprint back, all of it and nothing else; [space_new]
    starts from a kernel table that is never written. *)

From S2P Require Import Prelude Bytes Sorting StateErr ArmVm ArmElf ArmReclaim ArmLoader ArmSpace ArmSpaceSpec ArmSpaceOps.

Local Open Scope N_scope.

(** ** Footprints *)

Definition space_extents (s : AddressSpace) : list Extent :=
  declared (tables_in_order s) (owned_pages s) (owned_blocks s).

Definition footprint (s : AddressSpace) : gmap N N :=
  list_to_map ((λ e, (ext_addr e, ext_bytes e)) <$> space_extents s).

Section footprint.
Context `{HL : HeapLaws}.

Lemma elem_of_tables_in_order s a : a ∈ tables_in_order s ↔ a ∈ owned_tables s.
Proof. unfold tables_in_order. by rewrite (sort_perm (λ a, [Z.of_N a])), elem_of_elements. Qed.

Lemma elem_of_space_extents s e :
  e ∈ space_extents s ↔
  (owned s (ext_addr e) ∧ ext_bytes e = GRANULE_4KIB) ∨
  ∃ n, (ext_addr e, n) ∈ owned_blocks s ∧ ext_bytes e = n * GRANULE_4KIB.
Proof.
  unfold space_extents, declared, frame_extents, owned.
  rewrite elem_of_app, fmap_app, elem_of_app, !list_elem_of_fmap.
  setoid_rewrite elem_of_tables_in_order. destruct e as [a n]. cbn. split.
  - intros [[(b & [= -> ->] & ?)|(b & [= -> ->] & ?)]|([b k] & [= -> ->] & ?)]; [left; auto..|right; eauto].
  - intros [[[?|?] ->]|(k & ? & ->)]; [left; left; eauto|left; right; eauto|right; by exists (a, k)].
Qed.

Lemma space_extents_nodup s p : ledger_ok s p → NoDup (ext_addr <$> space_extents s).
Proof.
  intros [L1 L2 L3 L4 L5]. unfold space_extents, declared, frame_extents.
  rewrite fmap_app, <-!list_fmap_compose. change (ext_addr ∘ (λ addr, mkExtent addr FRAME_BYTES)) with (@id N).
  rewrite list_fmap_id. apply NoDup_app. split_and!.
  - apply NoDup_app. split_and!; [|intros a Ha%elem_of_tables_in_order; by apply L3|done].
    unfold tables_in_order. rewrite (sort_perm (λ a, [Z.of_N a])). apply NoDup_elements.
  - intros a Ha (b & -> & Hb)%list_elem_of_fmap. destruct b as [b n]. cbn in Ha.
    destruct (L4 b n Hb) as (_ & _ & Hno). apply Hno. apply elem_of_app in Ha as [Ha|Ha]; [left|by right].
    by apply elem_of_tables_in_order.
  - assert ((ext_addr ∘ (λ '(addr, count), mkExtent addr (count * FRAME_BYTES))) <$> owned_blocks s = (owned_blocks s).*1) as ->;
      [|done]. apply list_fmap_ext. by intros _ [b n] _.
Qed.

Lemma footprint_lookup s p a n :
  ledger_ok s p →
  footprint s !! a = Some n ↔
  (owned s a ∧ n = GRANULE_4KIB) ∨ ∃ k, (a, k) ∈ owned_blocks s ∧ n = k * GRANULE_4KIB.
Proof.
  intros Hl. unfold footprint. rewrite <-elem_of_list_to_map.
  - rewrite list_elem_of_fmap. pose proof (elem_of_space_extents s (mkExtent a n)) as He. cbn in He. rewrite <-He.
    split; [intros ([b k] & E & ?)|intros Hin; by exists (mkExtent a n)]. cbn in E. by injection E as -> ->.
  - rewrite <-list_fmap_compose. by eapply (space_extents_nodup s p).
Qed.

Lemma extents_live s p e : ledger_ok s p → e ∈ space_extents s → live p !! ext_addr e = Some (ext_bytes e).
Proof.
  intros Hl [[Ho ->]|(n & Hb & ->)]%elem_of_space_extents.
  - by apply (ledger_owned _ _ Hl) in Ho as [? _].
  - by apply (ledger_blocks _ _ Hl) in Hb as [? _].
Qed.

Lemma footprint_live s p : ledger_ok s p → footprint s ⊆ live p.
Proof.
  intros Hl. apply map_subseteq_spec. intros a n Ha. apply (footprint_lookup s p a n Hl) in Ha.
  apply (extents_live s p (mkExtent a n) Hl). by apply elem_of_space_extents.
Qed.

Lemma footprint_owned s p a : ledger_ok s p → owned s a → footprint s !! a = Some GRANULE_4KIB.
Proof. intros Hl Ho. apply (footprint_lookup s p a _ Hl). by left. Qed.

Lemma ledger_frame s p p' : ledger_ok s p → footprint s ⊆ live p' → ledger_ok s p'.
Proof.
  intros Hl Hf. pose proof (footprint_lookup s p) as Hlook. pose proof Hl as [L1 L2 L3 L4 L5].
  rewrite map_subseteq_spec in Hf. split; try done.
  - intros a Ho. split; [|by apply L1]. apply Hf, Hlook; auto.
  - intros b n Hb. destruct (L4 b n Hb) as (_ & ? & ?). split_and!; [|done..]. apply Hf, Hlook; eauto.
Qed.

(** A space survives anything that leaves its tables and its blocks alone. *)
Lemma space_inv_frame_tables s p t p' :
  space_inv s p t → mem_ok (mem p') → heap_ok (heap p') → footprint s ⊆ live p' →
  (∀ a, a ∈ owned_tables s → page_at (mem p') a = page_at (mem p) a) → space_inv s p' t.
Proof.
  intros [H1 H2 H3 H4 H5 H6 H7 H8 H9 H10] Hm Hh Hf Hsame. split; try done.
  - apply (tree_ok_mem (mem p)); [done|]. intros a Ha. apply Hsame. by apply H4.
  - by eapply ledger_frame.
Qed.

Lemma space_inv_frame s p t p' :
  space_inv s p t → mem_ok (mem p') → heap_ok (heap p') → footprint s ⊆ live p' →
  (∀ a, owned s a → page_at (mem p') a = page_at (mem p) a) → space_inv s p' t.
Proof.
  intros Hi Hm Hh Hf Hsame. apply (space_inv_frame_tables s p t p'); try done. intros a Ha. apply Hsame. by left.
Qed.

(** ** Blocks of different owners *)

(** The frame at [a] lies in one of the blocks. *)
Definition in_extents (fp : gmap N N) (a : N) : Prop := ∃ b n, fp !! b = Some n ∧ b ≤ a < b + n.

(** A frame the allocator never hands out. *)
Definition static_frame (a : N) : Prop := a + GRANULE_4KIB ≤ HEAP_START ∨ HEAP_START + HEAP_SIZE ≤ a.

#[global] Instance static_frame_dec a : Decision (static_frame a) := _.

Lemma extents_apart p fp1 fp2 a :
  heap_ok (heap p) → fp1 ⊆ live p → fp2 ⊆ live p → fp1 ##ₘ fp2 → in_extents fp1 a → ¬ in_extents fp2 a.
Proof.
  intros Hh H1 H2 Hd (b & n & Hb & Hr) (c & k & Hc & Hr').
  assert (b ≠ c) as Hne by (intros ->; by apply (map_disjoint_spec _ _) with (i := c) (x := n) (y := k) in Hd).
  pose proof (lookup_weaken _ _ _ _ Hb H1) as Lb. pose proof (lookup_weaken _ _ _ _ Hc H2) as Lc.
  destruct (heap_extents _ Hh b n Lb) as (_ & _ & _ & Hdis). destruct (Hdis c k Lc Hne); lia.
Qed.

Lemma static_apart p fp a : heap_ok (heap p) → fp ⊆ live p → static_frame a → ¬ in_extents fp a.
Proof.
  intros Hh Hs Ha (b & n & Hb & Hr). pose proof (lookup_weaken _ _ _ _ Hb Hs) as Lb.
  destruct (heap_extents _ Hh b n Lb) as (Hlo & Hhi & _). unfold static_frame in Ha. granules. lia.
Qed.

Lemma owned_in_extents s p a : ledger_ok s p → owned s a → in_extents (footprint s) a.
Proof. intros Hl Ho. exists a, GRANULE_4KIB. split; [by eapply footprint_owned|granules; lia]. Qed.

Lemma device_static a : device_frame a → static_frame a.
Proof. intros Ha%device_below_heap. by left. Qed.

(** The frame behind a page: the space's own, or device memory. *)
Lemma backing_place s p t va f q :
  space_inv s p t → t_page t !! va = Some (f, q) → device_frame f ∨ in_extents (footprint s) f.
Proof.
  intros Hi Hp. pose proof (inv_ledger _ _ _ Hi) as Hl.
  destruct (inv_backed _ _ _ Hi va f q Hp) as [Hin|[Hx|(b & n & Hb & Hr)]]; [|tauto|].
  - right. eapply owned_in_extents; [done|by right].
  - right. exists b, (n * GRANULE_4KIB). split; [|done]. apply (footprint_lookup s p b _ Hl). eauto.
Qed.

(** ** From one state of a space to a later one *)

(** A frame someone relies on: outside the heap, or in a block that is handed out. *)
Definition kept_frame (p : Phys) (a : N) : Prop := static_frame a ∨ in_extents (live p) a.

Record extends (sp sp' : Proc) : Prop := {
  ext_root : root sp'.1 = root sp.1;
  ext_seeded : seeded_root sp'.1 = seeded_root sp.1;
  ext_hook : pre_free_hook sp'.1 = pre_free_hook sp.1;
  ext_pages a : a ∈ owned_pages sp.1 → a ∈ owned_pages sp'.1;
  ext_blocks b : b ∈ owned_blocks sp.1 → b ∈ owned_blocks sp'.1;
  ext_footprint : footprint sp.1 ⊆ footprint sp'.1;
  ext_fresh : footprint sp'.1 ∖ footprint sp.1 ##ₘ live sp.2;
  ext_live : live sp'.2 = (footprint sp'.1 ∖ footprint sp.1) ∪ live sp.2;
  ext_mem a : ¬ in_extents (footprint sp'.1) a → kept_frame sp.2 a → page_at (mem sp'.2) a = page_at (mem sp.2) a;
  ext_kernel i : i < 512 → i ≠ 2 → read_entry (mem sp'.2) (root sp.1) i = read_entry (mem sp.2) (root sp.1) i;
  ext_ttbr0 : ttbr0 sp'.2 = ttbr0 sp.2;
  ext_trace : trace sp'.2 = trace sp.2;
}.

Lemma extends_refl sp : extends sp sp.
Proof.
  split; try done; rewrite map_difference_diag; [apply map_disjoint_empty_l|by rewrite (left_id_L ∅ (∪))].
Qed.

Lemma in_extents_mono fp fp' a : fp ⊆ fp' → in_extents fp a → in_extents fp' a.
Proof. intros Hs (b & n & Hb & Hr). exists b, n. split; [by eapply lookup_weaken|done]. Qed.

Lemma extends_live_mono sp sp' : extends sp sp' → live sp.2 ⊆ live sp'.2.
Proof. intros E. rewrite (ext_live _ _ E). apply map_union_subseteq_r, E. Qed.

Lemma kept_frame_mono p p' a : live p ⊆ live p' → kept_frame p a → kept_frame p' a.
Proof. intros Hs [Ha|Ha]; [by left|right]. by eapply in_extents_mono. Qed.

Lemma extends_trans sp1 sp2 sp3 : extends sp1 sp2 → extends sp2 sp3 → extends sp1 sp3.
Proof.
  intros H1 H2. pose proof (ext_footprint _ _ H1) as F1. pose proof (ext_footprint _ _ H2) as F2.
  pose proof (ext_live _ _ H1) as L1. pose proof (ext_live _ _ H2) as L2.
  pose proof (ext_fresh _ _ H1) as D1. pose proof (ext_fresh _ _ H2) as D2. rewrite L1 in D2.
  apply map_disjoint_union_r in D2 as [D2 D3]. rewrite map_subseteq_spec in F1, F2.
  assert (footprint sp3.1 ∖ footprint sp1.1 = (footprint sp3.1 ∖ footprint sp2.1) ∪ (footprint sp2.1 ∖ footprint sp1.1)) as Hd.
  { apply map_eq. intros a. rewrite lookup_union, !lookup_difference. specialize (F1 a). specialize (F2 a).
    destruct (footprint sp1.1 !! a) as [x|]; [by rewrite (F1 x eq_refl)|].
    destruct (footprint sp2.1 !! a) as [x|]; [by rewrite (F2 x eq_refl)|]. by destruct (footprint sp3.1 !! a). }
  split.
  - by rewrite (ext_root _ _ H2), (ext_root _ _ H1).
  - by rewrite (ext_seeded _ _ H2), (ext_seeded _ _ H1).
  - by rewrite (ext_hook _ _ H2), (ext_hook _ _ H1).
  - intros a Ha. by apply (ext_pages _ _ H2), (ext_pages _ _ H1).
  - intros b Hb. by apply (ext_blocks _ _ H2), (ext_blocks _ _ H1).
  - etrans; [apply H1|apply H2].
  - rewrite Hd. by apply map_disjoint_union_l.
  - by rewrite L2, L1, Hd, (assoc_L (∪)).
  - intros a Hn Hk. rewrite (ext_mem _ _ H2 a Hn).
    + apply (ext_mem _ _ H1); [|done]. intros Hx. apply Hn. eapply in_extents_mono; [apply H2|done].
    + eapply kept_frame_mono; [by apply extends_live_mono|done].
  - intros i Hi Hne. rewrite <-(ext_kernel _ _ H1 i Hi Hne), <-(ext_root _ _ H1). by apply (ext_kernel _ _ H2).
  - by rewrite (ext_ttbr0 _ _ H2), (ext_ttbr0 _ _ H1).
  - by rewrite (ext_trace _ _ H2), (ext_trace _ _ H1).
Qed.

Lemma grows_extends s p s' p' : ledger_ok s p → ledger_ok s' p' → grows (s, p) (s', p') → extends (s, p) (s', p').
Proof.
  intros Hl Hl' G. pose proof (grows_blocks _ _ G) as Hb. cbn in Hb.
  pose proof (footprint_lookup s p) as K. pose proof (footprint_lookup s' p') as K'.
  assert (∀ a n, (footprint s' ∖ footprint s) !! a = Some n ↔ n = GRANULE_4KIB ∧ owned s' a ∧ ¬ owned s a) as Hnew.
  { intros a n. rewrite lookup_difference_Some, (K' a n Hl'). split.
    - intros [Hin Hnone]. destruct Hin as [[Ho ->]|(k & Hk & ->)].
      + split_and!; [done..|]. intros Ho'. by rewrite (footprint_owned s p a Hl Ho') in Hnone.
      + exfalso. rewrite Hb in Hk. assert (footprint s !! a = Some (k * GRANULE_4KIB)) by (apply K; eauto). congruence.
    - intros (-> & Ho & Hno). split; [by left|]. apply eq_None_not_Some. intros [x Hx].
      apply (K a x Hl) in Hx as [[? _]|(k & Hk & _)]; [done|]. rewrite <-Hb in Hk.
      by apply (ledger_blocks _ _ Hl') in Hk as (_ & _ & ?). }
  split; try apply G; cbn [fst snd].
  - intros b. by rewrite Hb.
  - apply map_subseteq_spec. intros a n [[Ho ->]|Hk]%(K a n Hl); apply (K' a _ Hl').
    + left. split; [by apply (grows_owned _ _ G)|done].
    + right. by rewrite Hb.
  - apply map_disjoint_spec. intros a x y (-> & Ho & Hno)%Hnew Hy. destruct (grows_fresh _ _ G a Ho Hno).
    cbn in *. congruence.
  - apply map_eq. intros a. rewrite lookup_union. pose proof (grows_live _ _ G a) as Hsame. cbn in Hsame.
    destruct ((footprint s' ∖ footprint s) !! a) as [x|] eqn:Hx.
    + apply Hnew in Hx as (-> & Ho & Hno). destruct (grows_fresh _ _ G a Ho Hno) as [Hn1 Hn2]. cbn in Hn1, Hn2.
      by rewrite Hn1, Hn2.
    + rewrite Hsame; [by destruct (live p !! a)|]. intros [Ho Hno].
      assert ((footprint s' ∖ footprint s) !! a = Some GRANULE_4KIB) by by apply Hnew. congruence.
  - intros a Hn _. apply (grows_mem _ _ G a). intros Ho. apply Hn. exists a, GRANULE_4KIB.
    split; [by eapply footprint_owned|granules; lia].
Qed.

(** [sp] became [sp'] and [s2] is another space. *)
Lemma extends_other s p s' p' t' s2 t2 :
  extends (s, p) (s', p') → space_inv s' p' t' → space_inv s2 p t2 → footprint s ##ₘ footprint s2 →
  space_inv s2 p' t2 ∧ footprint s' ##ₘ footprint s2 ∧
  ∀ va, private_page va → space_page (s2, p') va = space_page (s2, p) va.
Proof.
  intros G Hi' Hi2 Hd. pose proof (inv_ledger _ _ _ Hi2) as Hl2. pose proof (inv_ledger _ _ _ Hi') as Hl'.
  pose proof (ext_live _ _ G) as Hlive. cbn in Hlive. pose proof (footprint_live s2 p Hl2) as Hsub2.
  assert (footprint s2 ⊆ live p') as Hsub.
  { rewrite Hlive. etrans; [exact Hsub2|]. apply map_union_subseteq_r, G. }
  assert (footprint s' ##ₘ footprint s2) as Hd'.
  { apply map_disjoint_spec. intros a x y Hx Hy. destruct (footprint s !! a) as [z|] eqn:Hz.
    - by apply (map_disjoint_spec _ _) with (i := a) (x := z) (y := y) in Hd.
    - assert ((footprint s' ∖ footprint s) !! a = Some x) as Hn by by apply lookup_difference_Some.
      pose proof (lookup_weaken _ _ _ _ Hy Hsub2) as Hl.
      pose proof (ext_fresh _ _ G) as Hf. cbn in Hf.
      by apply (map_disjoint_spec _ _) with (i := a) (x := x) (y := y) in Hf. }
  pose proof (ledger_frame s2 p p' Hl2 Hsub) as Hl2'. pose proof (footprint_live s' p' Hl') as Hsub'.
  pose proof (inv_heap _ _ _ Hi') as Hh. pose proof (ext_mem _ _ G) as Hmem. cbn in Hmem.
  assert (∀ a, in_extents (footprint s2) a → page_at (mem p') a = page_at (mem p) a) as Hsame.
  { intros a Ha. apply Hmem; [by eapply (extents_apart p' (footprint s2))|].
    right. by eapply in_extents_mono. }
  assert (space_inv s2 p' t2) as Hi2'.
  { apply (space_inv_frame s2 p t2 p' Hi2); [apply Hi'|done|done|]. intros a Ho.
    apply Hsame. by eapply owned_in_extents. }
  split_and!; [done|done|]. intros va Hva.
  rewrite (space_page_tree s2 p' t2 va Hi2' Hva), (space_page_tree s2 p t2 va Hi2 Hva).
  destruct (t_page t2 !! va) as [[f q]|] eqn:Hp; [|done]. cbn. do 2 f_equal.
  destruct (backing_place s2 p t2 va f q Hi2 Hp) as [Hst|Hin]; [|by apply Hsame].
  apply device_static in Hst. apply Hmem; [by eapply static_apart|by left].
Qed.

(** ** [destroy] *)

Lemma space_extents_fit s p :
  heap_ok (heap p) → ledger_ok s p → Forall (extent_fits heap_range.1 heap_range.2) (space_extents s).
Proof.
  intros Hh Hl. apply Forall_forall. intros e He. pose proof (extents_live s p e Hl He) as Hlive.
  destruct (heap_extents _ Hh _ _ Hlive) as (Hlo & Hhi & Hpos & _).
  assert (frame_addr (ext_addr e)) as [Hm _].
  { apply elem_of_space_extents in He as [[Ho _]|(n & Hb & _)]; [by apply (ledger_owned _ _ Hl)|].
    by apply (ledger_blocks _ _ Hl) in Hb as (_ & ? & _). }
  unfold extent_fits, ext_end. split_and!; [done|done| |done|done].
  unfold HEAP_START, HEAP_SIZE, u64_max in *. lia.
Qed.

Lemma total_perm (l k : list N) : l ≡ₚ k → foldr N.add 0 l = foldr N.add 0 k.
Proof. induction 1; cbn; lia. Qed.

Lemma live_sorted p l :
  heap_ok (heap p) → NoDup (ext_addr <$> l) → (∀ e, e ∈ l → live p !! ext_addr e = Some (ext_bytes e)) →
  StronglySorted (key_le extent_key) l → StronglySorted ends_before l.
Proof.
  intros Hh Hnd Hlive Hs. induction Hs as [|e l Hs IH Hle]; [constructor|].
  cbn in Hnd. apply NoDup_cons in Hnd as [Hni Hnd].
  constructor; [apply IH; [done|intros f Hf; apply Hlive; by right]|].
  apply Forall_forall. intros f Hf. rewrite Forall_forall in Hle. specialize (Hle f Hf).
  assert (ext_addr e ≠ ext_addr f) as Hne by (intros Heq; apply Hni; rewrite Heq; by apply list_elem_of_fmap_2).
  assert (ext_addr e ≤ ext_addr f) as Hlt.
  { unfold key_le, extent_key, cmp in Hle. cbn in Hle.
    destruct (Z.compare_spec (Z.of_N (ext_addr e)) (Z.of_N (ext_addr f))); [lia|lia|done]. }
  destruct (heap_extents _ Hh _ _ (Hlive e ltac:(by left))) as (_ & _ & _ & Hdis).
  destruct (Hdis _ _ (Hlive f ltac:(by right)) Hne) as [Ha|Hb]; [exact Ha|].
  destruct (heap_extents _ Hh _ _ (Hlive f ltac:(by right))) as (_ & _ & Hpos & _).
  unfold ends_before, ext_end. lia.
Qed.

Lemma space_plan s p :
  heap_ok (heap p) → ledger_ok s p → ∃ plan,
    plan_frees true (tables_in_order s) (owned_pages s) (owned_blocks s) heap_range.1 heap_range.2 = Ok plan ∧
    plan ≡ₚ space_extents s.
Proof.
  intros Hh Hl. exists (sort_extents (space_extents s)).
  assert (sort_extents (space_extents s) ≡ₚ space_extents s) as Hp by apply sort_perm.
  pose proof (space_extents_fit s p Hh Hl) as HF. split; [|done]. apply plan_frees_iff. split_and!.
  - apply Forall_forall. intros [b n] Hb.
    assert (mkExtent b (n * GRANULE_4KIB) ∈ space_extents s) as He by (apply elem_of_space_extents; eauto).
    rewrite Forall_forall in HF. destruct (HF _ He) as (_ & _ & Hmax & _). unfold ext_end in Hmax. cbn in *.
    change FRAME_BYTES with GRANULE_4KIB. lia.
  - exact Hp.
  - by rewrite Hp.
  - apply (live_sorted p); [done|rewrite Hp; by eapply space_extents_nodup| |apply sort_sorted].
    intros e He. rewrite Hp in He. by eapply extents_live.
Qed.

Lemma free_extents_ok plan p :
  heap_ok (heap p) → NoDup (ext_addr <$> plan) → (∀ e, e ∈ plan → live p !! ext_addr e = Some (ext_bytes e)) →
  let p' := foldl free_extent p plan in
  heap_ok (heap p') ∧ live p' = live p ∖ list_to_map ((λ e, (ext_addr e, ext_bytes e)) <$> plan) ∧
  mem p' = mem p ∧ ttbr0 p' = ttbr0 p ∧
  trace p' = trace p ++ ((λ e, Freed (ext_addr e) (ext_bytes e)) <$> plan).
Proof.
  cbn zeta. revert p. induction plan as [|e plan IH]; intros p Hh Hnd Hlive.
  { cbn. by rewrite map_difference_empty, app_nil_r. }
  cbn in Hnd. apply NoDup_cons in Hnd as [Hni Hnd].
  destruct (heap_dealloc_ok _ _ _ Hh (Hlive e ltac:(by left))) as [Hh1 Hl1].
  destruct (IH (free_extent p e)) as (Hh2 & Hl2 & Hm2 & Ht2 & Htr2); [done|done| |].
  { intros f Hf. unfold live, free_extent. cbn. rewrite Hl1, lookup_delete_ne; [apply Hlive; by right|].
    intros Heq. apply Hni. rewrite Heq. by apply list_elem_of_fmap_2. }
  cbn [foldl]. split_and!; [done| |done|done|].
  - rewrite Hl2. unfold live at 1, free_extent. cbn [heap set_heap log]. rewrite Hl1.
    rewrite fmap_cons, list_to_map_cons. apply map_eq. intros a. rewrite !lookup_difference, lookup_insert, lookup_delete.
    unfold live. repeat case_decide; by destruct (list_to_map _ !! a).
  - rewrite Htr2. unfold free_extent. cbn. by rewrite <-app_assoc.
Qed.

(** [destroy] refuses the space the processor runs on and touches nothing; any
    other space it frees completely: exactly the footprint leaves the heap, after
    the hook ran and the TLB was invalidated, and no byte of memory is written. *)
Lemma destroy_live reserved s p : root s = active_root p → destroy reserved s p = (Err Live, p).
Proof. intros Hr. unfold destroy, is_live. by rewrite bool_decide_eq_true_2. Qed.

Definition hook_events (s : AddressSpace) : list Event :=
  match pre_free_hook s with Some (hook, arg) => [HookRan hook arg] | None => [] end.

Lemma destroy_Ok s p :
  heap_ok (heap p) → ledger_ok s p → root s ≠ active_root p →
  ∃ plan rec p', destroy true s p = (Ok rec, p') ∧ plan ≡ₚ space_extents s ∧
    heap_ok (heap p') ∧ live p' = live p ∖ footprint s ∧ mem p' = mem p ∧ ttbr0 p' = ttbr0 p ∧
    trace p' = trace p ++ hook_events s ++ TlbInvalidated :: ((λ e, Freed (ext_addr e) (ext_bytes e)) <$> plan) ∧
    rec = mkReclaimed (len (space_extents s)) (foldr N.add 0 (ext_bytes <$> space_extents s)).
Proof.
  intros Hh Hl Hr. destruct (space_plan s p Hh Hl) as (plan & Hplan & Hp).
  unfold destroy, is_live. rewrite bool_decide_eq_false_2 by done. rewrite Hplan.
  set (p0 := match pre_free_hook s with Some (hook, arg) => log (HookRan hook arg) p | None => p end).
  assert (heap p0 = heap p ∧ mem p0 = mem p ∧ ttbr0 p0 = ttbr0 p ∧ trace p0 = trace p ++ hook_events s) as (E1 & E2 & E3 & E4).
  { unfold p0, hook_events. destruct (pre_free_hook s) as [[]|]; [done|by rewrite app_nil_r]. }
  destruct (free_extents_ok plan (log TlbInvalidated p0)) as (Hh' & Hlive' & Hm' & Ht' & Htr').
  { cbn. by rewrite E1. }
  { rewrite Hp. by eapply space_extents_nodup. }
  { intros e He. unfold live. cbn. rewrite E1. apply (extents_live s p e Hl). by rewrite <-Hp. }
  eexists plan, _, _. split; [reflexivity|]. split_and!; [done|done| | | | |].
  - rewrite Hlive'. unfold live. cbn. rewrite E1. f_equal. unfold footprint.
    apply list_to_map_proper; [|by rewrite Hp].
    rewrite <-list_fmap_compose. rewrite Hp. by eapply space_extents_nodup.
  - rewrite Hm'. cbn. done.
  - rewrite Ht'. cbn. done.
  - rewrite Htr'. cbn. rewrite E4, <-!app_assoc. done.
  - f_equal; [unfold len; by rewrite Hp|]. apply total_perm. by rewrite Hp.
Qed.
Lemma destroy_other s p p' s2 t2 :
  space_inv s2 p t2 → footprint s ##ₘ footprint s2 → heap_ok (heap p') → live p' = live p ∖ footprint s →
  mem p' = mem p → space_inv s2 p' t2.
Proof.
  intros Hi Hd Hh Hlive Hm. apply (space_inv_frame s2 p t2 p' Hi); [rewrite Hm; apply Hi|done| |by rewrite Hm].
  rewrite Hlive. pose proof (footprint_live s2 p (inv_ledger _ _ _ Hi)) as Hsub.
  apply map_subseteq_spec. intros a n Ha. apply lookup_difference_Some. split; [by eapply lookup_weaken|].
  apply eq_None_not_Some. intros [x Hx]. by apply (map_disjoint_spec _ _) with (i := a) (x := x) (y := n) in Hd.
Qed.

(** ** [AddressSpace::new] *)

(** A state in which the active level-1 table can seed a space: it is not a block
    the allocator could hand out, and its slot for the private window is empty. *)
Record seedable (p : Phys) : Prop := {
  seed_mem : mem_ok (mem p);
  seed_heap : heap_ok (heap p);
  seed_root : static_frame (active_root p) ∨ is_Some (live p !! active_root p);
  seed_slot : read_entry (mem p) (active_root p) 2 = 0;
}.

Lemma space_new_Ok p s p' :
  seedable p → space_new p = (Ok s, p') →
  space_inv s p' (mkTree None ∅ ∅) ∧ footprint s = {[root s := GRANULE_4KIB]} ∧
  live p !! root s = None ∧ live p' = <[root s := GRANULE_4KIB]> (live p) ∧
  (∀ a, a ≠ root s → page_at (mem p') a = page_at (mem p) a) ∧
  page_at (mem p') (root s) = page_at (mem p) (active_root p) ∧
  root s ≠ active_root p ∧ frame_addr (root s) ∧ ttbr0 p' = ttbr0 p ∧ trace p' = trace p ∧
  s = mkSpace (root s) {[root s]} (active_root p) [] [] None.
Proof.
  intros [Hm Hh Hr Hs]. unfold space_new. destruct (alloc_page_in p) as [[r|e] p1] eqn:Ha; [|done].
  intros [= <- <-]. destruct (alloc_page_Ok p r p1 Hh Ha) as (Hm1 & Hh1 & Hl1 & Hn & Hf & Ht & Htr).
  assert (active_root p1 = active_root p) as Eact by (unfold active_root; by rewrite Ht). cbn [root].
  assert (r ≠ active_root p) as Hne.
  { intros ->. destruct Hr as [Hst|[n Hx]]; [|congruence].
    assert (live p1 !! active_root p = Some GRANULE_4KIB) as Hl by (by rewrite Hl1, lookup_insert_eq).
    destruct (heap_extents _ Hh1 _ _ Hl) as (Hlo & Hhi & _). unfold static_frame in Hst. granules. lia. }
  assert (mem_ok (mem p1)) as Hok1.
  { rewrite Hm1. apply mem_ok_insert; [done|apply length_zero_page|apply bytes_zero_page]. }
  assert (page_at (mem p1) (active_root p) = page_at (mem p) (active_root p)) as Eold.
  { by rewrite Hm1, page_at_insert, decide_False. }
  set (p2 := set_mem _ p1). assert (page_at (mem p2) r = page_at (mem p) (active_root p)) as Er.
  { unfold p2. cbn. rewrite page_at_insert, decide_True by done. by rewrite Eact. }
  assert (ledger_ok (mkSpace r {[r]} (active_root p1) [] [] None) p2) as Hled.
  { split; cbn.
    - intros a [Hin|Hin]; cbn in Hin; [apply elem_of_singleton in Hin as ->|by apply not_elem_of_nil in Hin].
      split; [|done]. change (live p2) with (live p1). by rewrite Hl1, lookup_insert_eq.
    - constructor.
    - intros a _ []%not_elem_of_nil.
    - intros b n []%not_elem_of_nil.
    - constructor. }
  split_and!; [| |done|exact Hl1| |done|done|done|exact Ht|exact Htr|by rewrite Eact].
  - split; cbn [root]; try done.
    + unfold p2. cbn. apply mem_ok_insert; [done|by apply length_page_at|by apply bytes_page_at].
    + split; cbn [t_l2 t_l3 t_page]; try done. etrans; [|exact Hs]. unfold read_entry. by rewrite Er.
    + intros a. cbn. rewrite elem_of_singleton. unfold tree_table. cbn. split; [by left|].
      intros [?|[?|[? ?]]]; done.
  - apply map_eq. intros a. apply option_eq. intros n. rewrite (footprint_lookup _ p2 a n Hled).
    rewrite lookup_singleton_Some. unfold owned. cbn. rewrite elem_of_singleton. split.
    + intros [[[->|[]%not_elem_of_nil] ->]|(k & []%not_elem_of_nil & _)]. done.
    + intros [<- <-]. left. split; [by left|done].
  - intros a Hne'. unfold p2. cbn. by rewrite page_at_insert, decide_False, Hm1, page_at_insert, decide_False by done.
Qed.

Lemma space_new_Err p e p' : space_new p = (Err e, p') → p' = p.
Proof.
  unfold space_new. destruct (alloc_page_in p) as [[r|e'] p1] eqn:Ha; [done|]. intros [= _ <-].
  by apply alloc_page_Err in Ha as ->.
Qed.

(** ** The kernel's half *)

(** The tables below the root, the private slot apart, are outside the heap. *)
Definition kernel_static (m : Mem) (r : N) : Prop :=
  ∀ i, i < 512 → i ≠ 2 → desc_type (read_entry m r i) = DESC_TABLE_OR_PAGE →
    static_frame (desc_addr (read_entry m r i)) ∧
    ∀ j, j < 512 → desc_type (read_entry m (desc_addr (read_entry m r i)) j) = DESC_TABLE_OR_PAGE →
      static_frame (desc_addr (read_entry m (desc_addr (read_entry m r i)) j)).

Lemma kernel_walk m m' r r' va :
  (∀ i, i < 512 → i ≠ 2 → read_entry m' r' i = read_entry m r i) →
  (∀ a, static_frame a → page_at m' a = page_at m a) →
  kernel_static m r → l1_index va ≠ 2 → walk m' r' va = walk m r va.
Proof.
  intros Hroot Hst Hk Hva. unfold walk. case_decide; [done|].
  pose proof (table_index_lt va 30) as H1. fold (l1_index va) in H1. rewrite (Hroot _ H1 Hva).
  destruct (decide (desc_type (read_entry m r (l1_index va)) = DESC_BLOCK)); [done|].
  destruct (decide (desc_type (read_entry m r (l1_index va)) ≠ DESC_TABLE_OR_PAGE)) as [|Ht]; [done|].
  destruct (Hk _ H1 Hva) as [S1 S2]; [by apply dec_stable|].
  rewrite (read_entry_page m' m (desc_addr (read_entry m r (l1_index va)))) by by apply Hst.
  destruct (decide (desc_type (read_entry m (desc_addr (read_entry m r (l1_index va))) (l2_index va)) = DESC_BLOCK)); [done|].
  destruct (decide (desc_type (read_entry m (desc_addr (read_entry m r (l1_index va))) (l2_index va)) ≠ DESC_TABLE_OR_PAGE))
    as [|Ht2]; [done|].
  pose proof (S2 _ (table_index_lt va 21) (dec_stable Ht2)) as S3.
  by rewrite (read_entry_page m' m) by by apply Hst.
Qed.

Lemma kernel_static_frame m m' r r' :
  (∀ i, i < 512 → i ≠ 2 → read_entry m' r' i = read_entry m r i) →
  (∀ a, static_frame a → page_at m' a = page_at m a) → kernel_static m r → kernel_static m' r'.
Proof.
  intros Hroot Hst Hk i Hi Hne. rewrite (Hroot i Hi Hne). intros Ht. destruct (Hk i Hi Hne Ht) as [S1 S2].
  split; [done|]. intros j Hj. rewrite (read_entry_page m' m) by by apply Hst. by apply S2.
Qed.
End footprint.
