(* ===== verification/ArmProcess.v ===== *)
(** * ArmProcess: what a loaded program sees

    The loader over real page tables, seen through the architecture's walk:
    [prove_load] of [kernel-arm/src/load_proof.rs] and [prove_isolation] of
    [process.rs], and the theorems about every image and every pair of spaces
    those two boot checks sample. *)

From S2P Require Import Prelude Bytes Sorting StateErr ArmVm ArmMmu ArmElf ArmReclaim ArmLoader ArmSpace ArmSpaceSpec ArmSpaceOps ArmWorld.

Local Open Scope N_scope.

(** ** What an image puts where *)

Lemma stack_list_lookup p :
  (list_to_map stack_page_list : gmap N (N * list N)) !! p =
  if decide (p mod GRANULE_4KIB = 0 ∧ STACK_BASE ≤ p < STACK_TOP) then Some (RW_PERM, zero_page) else None.
Proof.
  unfold stack_page_list. change (N.to_nat (STACK_SIZE / GRANULE_4KIB)) with 4%nat in *. cbn [seq fmap list_fmap list_to_map foldr fst snd].
  rewrite !lookup_insert, lookup_empty. unfold STACK_BASE, STACK_TOP, STACK_SIZE in *.
  repeat case_decide; try done; exfalso; div_lia.
Qed.

Lemma load_map_seg elf s p :
  loadable elf → s ∈ segments elf → p ∈ seg_pages s → load_map elf !! p = Some (seg_perm s, page_content elf s p).
Proof.
  intros (HF & Hnd & _) Hs Hp. unfold load_map. rewrite lookup_union, stack_list_lookup.
  pose proof HF as HF'. rewrite Forall_forall in HF'. destruct (seg_page_private s p (HF' s Hs) Hp) as [[Hm _] Hle].
  rewrite decide_False. 2:{ unfold SEGMENT_WINDOW_END, STACK_GUARD_SIZE in Hle. granules. lia. }
  rewrite (left_id_L None _). apply elem_of_list_to_map_1; [by rewrite image_pages_fst|].
  unfold image_pages. apply list_elem_of_bind. exists s. split; [|done].
  apply list_elem_of_fmap. by exists p.
Qed.

Lemma load_map_stack elf p :
  p mod GRANULE_4KIB = 0 → STACK_BASE ≤ p < STACK_TOP → load_map elf !! p = Some (RW_PERM, zero_page).
Proof.
  intros Hm Hp. unfold load_map. rewrite lookup_union, stack_list_lookup, decide_True by done.
  by destruct (_ !! p).
Qed.

Lemma load_map_none elf p :
  ¬ (STACK_BASE ≤ p < STACK_TOP) → (∀ s, s ∈ segments elf → p ∉ seg_pages s) → load_map elf !! p = None.
Proof.
  intros Hst Hseg. unfold load_map. rewrite lookup_union, stack_list_lookup, decide_False by tauto.
  rewrite (left_id_L None _). apply not_elem_of_list_to_map_1. rewrite image_pages_fst.
  intros (l & Hl & Hin)%list_elem_of_In%in_concat. apply list_elem_of_In, list_elem_of_fmap in Hl as (s & -> & Hs).
  apply (Hseg s Hs). by apply list_elem_of_In.
Qed.

(** ** Reading through the tables *)

Definition page_of (va : N) : N := va - va mod GRANULE_4KIB.

Definition phys_byte (m : Mem) (pa : N) : N := byte_at (page_at m (page_of pa)) (pa mod GRANULE_4KIB).

(** A load or store by EL0 at [va] under the tables of [root], the byte it finds. *)
Definition el0_byte (m : Mem) (root va : N) : option N :=
  '(pa, d) ← walk m root va; if el0_readable d then Some (phys_byte m pa) else None.

Section view.
Context `{HL : HeapLaws}.

Lemma walk_space_page s p t va q bs :
  space_inv s p t → PRIVATE_REGION_BASE ≤ va < PRIVATE_REGION_END →
  space_page (s, p) (page_of va) = Some (q, bs) →
  ∃ f, frame_addr f ∧ perm_ok q ∧
    walk (mem p) (root s) va = Some (f + va mod GRANULE_4KIB, normal_4kib_page_descriptor f q) ∧
    phys_byte (mem p) (f + va mod GRANULE_4KIB) = byte_at bs (va mod GRANULE_4KIB).
Proof.
  intros Hi Hva. assert (private_page (page_of va)) as Hpg by (unfold private_page, page_of; clear -Hva; div_lia).
  rewrite (space_page_tree s p t _ Hi Hpg), (walk_tree s p t va Hi Hva). fold (page_of va).
  destruct (t_page t !! page_of va) as [[f q']|] eqn:Hx; [|done]. cbn. intros [= <- <-].
  apply (tree_pages _ _ _ (inv_tree _ _ _ Hi)) in Hx as (_ & _ & Hf & Hq).
  exists f. split_and!; [done|done|done|]. unfold phys_byte, page_of.
  assert ((f + va mod GRANULE_4KIB) mod GRANULE_4KIB = va mod GRANULE_4KIB) as ->.
  { destruct Hf as [Hm _]. change 4096 with GRANULE_4KIB in Hm. clear -Hm. div_lia. }
  by replace (f + va mod GRANULE_4KIB - va mod GRANULE_4KIB) with f by lia.
Qed.

Lemma walk_space_none s p t va :
  space_inv s p t → PRIVATE_REGION_BASE ≤ va < PRIVATE_REGION_END →
  space_page (s, p) (page_of va) = None → walk (mem p) (root s) va = None.
Proof.
  intros Hi Hva. assert (private_page (page_of va)) as Hpg by (unfold private_page, page_of; clear -Hva; div_lia).
  rewrite (space_page_tree s p t _ Hi Hpg), (walk_tree s p t va Hi Hva). fold (page_of va).
  by destruct (t_page t !! page_of va) as [[f q']|].
Qed.

Lemma empty_space_page s p va : space_inv s p (mkTree None ∅ ∅) → private_page va → space_page (s, p) va = None.
Proof. intros Hi Hva. by rewrite (space_page_tree s p _ va Hi Hva). Qed.

(** A load into a fresh space. *)
Lemma load_into_space elf s p img s' p' :
  space_inv s p (mkTree None ∅ ∅) → elf_ok elf → bytes (elf_bytes elf) →
  load elf (s, p) = (Ok img, (s', p')) →
  loadable elf ∧ (∃ t', space_inv s' p' t') ∧ grows (s, p) (s', p') ∧
  (∀ va, private_page va → space_page (s', p') va = load_map elf !! va) ∧
  img = mkLoaded (entry_point elf) STACK_TOP STACK_BASE (len (concat (seg_pages <$> segments elf))) 4.
Proof.
  intros Hi He Hb Hld. pose (L := space_mapper_laws (s, p)).
  destruct (@load_Ok Proc space_mapper L elf (s, p) img (s', p')) as (Hl & [Ht G] & Hu & Himg); try done.
  { split; [by eexists|apply grows_refl]. }
  split_and!; [done|done|done| |done]. intros va Hva. specialize (Hu va Hva). cbn [mapped_page L space_mapper_laws] in Hu.
  rewrite Hu, (empty_space_page s p va Hi Hva). by destruct (load_map elf !! va).
Qed.
(** ** Starting a program *)

(** The tables EL0 gets: what every address of the private window translates to. *)
Record program_view (elf : Elf64) (m : Mem) (r : N) : Prop := {
  view_segment sg va : sg ∈ segments elf → page_of va ∈ seg_pages sg → ∃ pa d,
    walk m r va = Some (pa, d) ∧ phys_byte m pa = seg_byte elf sg va ∧
    el0_readable d = true ∧ el1_executable d = false ∧
    (el0_writable d = true ↔ N.land (seg_flags sg) PF_W ≠ 0) ∧
    (el0_executable d = true ↔ N.land (seg_flags sg) PF_X ≠ 0);
  view_stack va : STACK_BASE ≤ va < STACK_TOP → ∃ pa d,
    walk m r va = Some (pa, d) ∧ phys_byte m pa = 0 ∧ el0_readable d = true ∧ el1_executable d = false ∧
    el0_writable d = true ∧ el0_executable d = false;
  view_rest va : PRIVATE_REGION_BASE ≤ va < PRIVATE_REGION_END → ¬ (STACK_BASE ≤ va < STACK_TOP) →
    (∀ sg, sg ∈ segments elf → page_of va ∉ seg_pages sg) → walk m r va = None;
}.

Lemma page_of_stack va : STACK_BASE ≤ va < STACK_TOP ↔ STACK_BASE ≤ page_of va < STACK_TOP.
Proof. unfold page_of, STACK_BASE, STACK_TOP, STACK_SIZE. split; intros; div_lia. Qed.

Lemma negb_iff b (P : Prop) : (b = true ↔ P) → (negb b = true ↔ ¬ P).
Proof.
  intros HP. rewrite <-HP. by destruct b.
Qed.

Lemma offset_lt va : (N.to_nat (va mod GRANULE_4KIB) < 4096)%nat.
Proof. pose proof (N.mod_lt va GRANULE_4KIB ltac:(done)). granules. lia. Qed.

Lemma byte_of_content elf sg va :
  byte_at (page_content elf sg (page_of va)) (va mod GRANULE_4KIB) = seg_byte elf sg va.
Proof.
  unfold byte_at. rewrite page_content_lookup by apply offset_lt. cbn. f_equal.
  unfold page_of. rewrite N2Nat.id. div_lia.
Qed.

Lemma space_program_view elf s p t :
  space_inv s p t → loadable elf → (∀ va, private_page va → space_page (s, p) va = load_map elf !! va) →
  program_view elf (mem p) (root s).
Proof.
  intros Hi Hl Hmap. pose proof Hl as (HF & _ & _). rewrite Forall_forall in HF.
  assert (∀ va, PRIVATE_REGION_BASE ≤ va < PRIVATE_REGION_END → private_page (page_of va)) as Hpp.
  { intros va Hva. unfold private_page, page_of. clear -Hva. div_lia. }
  split.
  - intros sg va Hs Hp. pose proof (HF sg Hs) as Hacc. destruct (seg_page_private sg _ Hacc Hp) as [Hpg _].
    assert (PRIVATE_REGION_BASE ≤ va < PRIVATE_REGION_END) as Hva.
    { destruct Hpg as [_ Hr]. unfold page_of in Hr. clear -Hr. div_lia. }
    pose proof (Hmap _ Hpg) as Hsp. rewrite (load_map_seg elf sg _ Hl Hs Hp) in Hsp.
    destruct (walk_space_page s p t va _ _ Hi Hva Hsp) as (f & Hf & Hq & Hw & Hb).
    apply elem_of_seg_pages in Hp as (Hz & _); [|done].
    destruct Hacc as [|([perm Hperm] & _)]; [done|].
    assert (page_permissions (seg_flags sg) = Ok perm) as Hok.
    { clear -Hperm. destruct (page_permissions _); cbn in Hperm; congruence. }
    assert (seg_perm sg = perm) as Esp by (unfold seg_perm; by rewrite Hok). rewrite Esp in *.
    destruct (page_permissions_Ok _ _ Hok) as (_ & H53 & H6 & H7 & H54).
    eexists _, _. split; [exact Hw|]. rewrite Hb, byte_of_content.
    unfold el0_readable, el0_writable, el0_executable, el1_executable. rewrite !page_desc_bit by done.
    rewrite H6, H53. cbn [andb negb]. split_and!; [done..|by apply negb_iff|by apply negb_iff].
  - intros va Hst. assert (PRIVATE_REGION_BASE ≤ va < PRIVATE_REGION_END) as Hva.
    { unfold STACK_BASE, STACK_TOP, STACK_SIZE in Hst. granules. lia. }
    pose proof (Hmap _ (Hpp va Hva)) as Hsp.
    rewrite load_map_stack in Hsp; [|apply (Hpp va Hva)|exact (proj1 (page_of_stack va) Hst)].
    destruct (walk_space_page s p t va _ _ Hi Hva Hsp) as (f & Hf & Hq & Hw & Hb).
    eexists _, _. split; [exact Hw|]. rewrite Hb.
    unfold el0_readable, el0_writable, el0_executable, el1_executable. rewrite !page_desc_bit by done.
    split_and!; try done. unfold byte_at. by rewrite zero_page_lookup by apply offset_lt.
  - intros va Hva Hst Hseg. apply (walk_space_none s p t va Hi Hva). rewrite (Hmap _ (Hpp va Hva)).
    apply load_map_none; [|done]. by rewrite <-page_of_stack.
Qed.
Inductive StartError :=
  | StartParse (e : ElfError)
  | StartSpace (e : AddressSpaceError)
  | StartLoad (e : LoaderError).

(** What [prove_load] does first: parse, a fresh space, load. *)
Definition start_program (image : list N) (p : Phys) : Result StartError (AddressSpace * LoadedImage) * Phys :=
  match parse image with
  | Err e => (Err (StartParse e), p)
  | Ok elf =>
      match space_new p with
      | (Err e, p) => (Err (StartSpace e), p)
      | (Ok s, p) =>
          match load elf (s, p) with
          | (Err e, (s, p)) => (Err (StartLoad e), p)
          | (Ok loaded, (s, p)) => (Ok (s, loaded), p)
          end
      end
  end.

(** The state after boot: the active table can seed a space, and the tables below
    it are the kernel's own, outside the heap. *)
Definition kernel_ready (p : Phys) : Prop := seedable p ∧ kernel_static (mem p) (active_root p).

Lemma new_space_extends_live p s1 p1 s p' :
  live p !! root s1 = None → footprint s1 = {[root s1 := GRANULE_4KIB]} →
  live p1 = <[root s1 := GRANULE_4KIB]> (live p) → extends (s1, p1) (s, p') →
  live p' ∖ footprint s = live p ∧ footprint s ##ₘ live p ∧ live p' = footprint s ∪ live p.
Proof.
  intros Hn Hf Hl1 E. pose proof (ext_live _ _ E) as Hl. pose proof (ext_footprint _ _ E) as Hsub.
  pose proof (ext_fresh _ _ E) as Hd. cbn [fst snd] in *. rewrite Hf, Hl1 in *.
  assert (footprint s !! root s1 = Some GRANULE_4KIB) as Hr by (eapply lookup_weaken; [apply lookup_singleton_eq|done]).
  assert (footprint s ##ₘ live p) as Hdis.
  { apply map_disjoint_spec. intros a x y Hx Hy. assert (a ≠ root s1) by congruence.
    apply (map_disjoint_spec _ _) with (i := a) (x := x) (y := y) in Hd; [done| |by rewrite lookup_insert_ne].
    apply lookup_difference_Some. by rewrite lookup_singleton_ne. }
  assert (live p' = footprint s ∪ live p) as Hlive.
  { rewrite Hl. apply map_eq. intros a. rewrite !lookup_union, lookup_difference, lookup_singleton, lookup_insert.
    case_decide as Heq; [|done]. subst a. rewrite Hr, Hn. done. }
  split_and!; [|done|done]. rewrite Hlive. apply map_eq. intros a. rewrite lookup_difference, lookup_union.
  destruct (footprint s !! a) as [x|] eqn:Hx; [|by destruct (live p !! a)].
  symmetry. by eapply map_disjoint_Some_l.
Qed.

(** Everything a successful start establishes. *)
Record started (elf : Elf64) (s : AddressSpace) (p p' : Phys) : Prop := {
  started_inv : ∃ t, space_inv s p' t;
  started_loadable : loadable elf;
  started_pages va : private_page va → space_page (s, p') va = load_map elf !! va;
  started_seed : seeded_root s = active_root p;
  started_inactive : root s ≠ active_root p';
  started_fresh : footprint s ##ₘ live p;
  started_live : live p' = footprint s ∪ live p;
  started_mem a : ¬ in_extents (footprint s) a → kept_frame p a → page_at (mem p') a = page_at (mem p) a;
  started_kernel i : i < 512 → i ≠ 2 → read_entry (mem p') (root s) i = read_entry (mem p) (active_root p) i;
  started_ttbr0 : ttbr0 p' = ttbr0 p;
  started_trace : trace p' = trace p;
  started_hook : pre_free_hook s = None;
}.

Lemma start_program_Ok image p s img p' :
  seedable p → bytes image → len image ≤ u64_max → start_program image p = (Ok (s, img), p') →
  ∃ elf, parse image = Ok elf ∧ started elf s p p' ∧
    img = mkLoaded (entry_point elf) STACK_TOP STACK_BASE (len (concat (seg_pages <$> segments elf))) 4.
Proof.
  intros Hs Hb Hlen. unfold start_program. destruct (parse image) as [elf|] eqn:Hp; [|done].
  destruct (space_new p) as [[s1|] p1] eqn:Hn; [|done].
  destruct (load elf (s1, p1)) as [[loaded|] [s2 p2]] eqn:Hld; [|done]. intros [= <- <- <-].
  destruct (parse_Ok image elf Hlen Hp) as (He & Heb & _). rewrite <-Heb in Hb.
  destruct (space_new_Ok p s1 p1 Hs Hn) as (Hi1 & Hf1 & Hfree & Hl1 & Hmem1 & Hroot1 & Hne1 & _ & Ht1 & Htr1 & Es1).
  destruct (load_into_space elf s1 p1 loaded s2 p2 Hi1 He Hb Hld) as (Hl & [t2 Hi2] & G & Hpg & Himg).
  pose proof (grows_extends s1 p1 s2 p2 (inv_ledger _ _ _ Hi1) (inv_ledger _ _ _ Hi2) G) as E.
  pose proof (ext_root _ _ E) as Er. pose proof (ext_seeded _ _ E) as Ese. pose proof (ext_hook _ _ E) as Eh.
  pose proof (ext_ttbr0 _ _ E) as Et. pose proof (ext_trace _ _ E) as Etr. cbn [fst snd] in *.
  destruct (new_space_extends_live p s1 p1 s2 p2 Hfree Hf1 Hl1 E) as (_ & Hdis & Hlive).
  exists elf. split; [done|]. split; [|done]. split; try done.
  - by eexists.
  - rewrite Ese, Es1. done.
  - unfold active_root. rewrite Et, Ht1, Er. done.
  - intros a Ha Hk. pose proof (ext_mem _ _ E a Ha) as Hm. cbn in Hm. rewrite Hm.
    + apply Hmem1. intros ->. apply Ha. exists (root s1), GRANULE_4KIB. split; [|granules; lia].
      eapply lookup_weaken; [|apply (ext_footprint _ _ E)]. cbn. rewrite Hf1. apply lookup_singleton_eq.
    + eapply kept_frame_mono; [|done]. rewrite Hl1. by apply insert_subseteq.
  - intros i Hi Hni. rewrite Er. pose proof (ext_kernel _ _ E i Hi Hni) as Hk. cbn in Hk. rewrite Hk.
    unfold read_entry. by rewrite Hroot1.
  - congruence.
  - congruence.
  - rewrite Eh, Es1. done.
Qed.
(** The kernel's half of the started space is the kernel's. *)
Lemma started_kernel_walk elf s p p' va :
  heap_ok (heap p') → footprint s ⊆ live p' → started elf s p p' → kernel_static (mem p) (active_root p) →
  l1_index va ≠ 2 → walk (mem p') (root s) va = walk (mem p) (active_root p) va.
Proof.
  intros Hh Hf St Hk Hva. apply kernel_walk; [by apply St| |done|done].
  intros a Ha. apply (started_mem _ _ _ _ St); [by eapply static_apart|by left].
Qed.

Lemma enters_executable elf sg : enters elf sg → seg_accepted sg → page_of (entry_point elf) ∈ seg_pages sg.
Proof.
  intros (Hz & _ & Hr) Hacc. apply elem_of_seg_pages; [done|]. unfold page_of.
  split_and!; [done|clear; div_lia|clear -Hr; div_lia|clear -Hr; div_lia].
Qed.

(** A segment's permissions are never both. *)
Lemma accepted_not_wx sg :
  seg_accepted sg → seg_memsz sg ≠ 0 → N.land (seg_flags sg) PF_W ≠ 0 → N.land (seg_flags sg) PF_X ≠ 0 → False.
Proof.
  intros [|([perm Hp] & _)] Hz Hw Hx; [done|]. unfold page_permissions in Hp.
  rewrite (proj2 (N.eqb_neq _ _) Hw), (proj2 (N.eqb_neq _ _) Hx) in Hp. cbn in Hp. by destruct (_ =? _).
Qed.

(** C10. Whatever image starts, the translation tables give EL0 exactly that image:
    every page of a segment holds the file's bytes and zeros after them, with the
    segment's own permissions; the stack is zero, writable and not executable;
    every other address of the window, the guard gap included, faults.  No page is
    both writable and executable, none is executable at EL1, the entry point is
    executable, and outside the window the space translates as the kernel does. *)
Theorem loaded_program_view image p s img p' :
  kernel_ready p → bytes image → len image ≤ u64_max → start_program image p = (Ok (s, img), p') →
  ∃ elf, parse image = Ok elf ∧ program_view elf (mem p') (root s) ∧
    (∀ va pa d, PRIVATE_REGION_BASE ≤ va < PRIVATE_REGION_END → walk (mem p') (root s) va = Some (pa, d) →
       el0_writable d && el0_executable d = false ∧ el1_executable d = false) ∧
    entry img = entry_point elf ∧
    (∃ pa d, walk (mem p') (root s) (entry img) = Some (pa, d) ∧ el0_executable d = true) ∧
    (∀ va, l1_index va ≠ 2 → walk (mem p') (root s) va = walk (mem p) (active_root p) va).
Proof.
  intros [Hs Hk] Hb Hlen Hst. destruct (start_program_Ok image p s img p' Hs Hb Hlen Hst) as (elf & Hp & St & ->).
  pose proof (started_inv _ _ _ _ St) as [t Hi]. pose proof (started_loadable _ _ _ _ St) as Hl.
  pose proof (space_program_view elf s p' t Hi Hl (started_pages _ _ _ _ St)) as V.
  pose proof Hl as (HF & _ & Hen). rewrite Forall_forall in HF.
  exists elf. split; [done|]. split; [done|]. split_and!.
  - intros va pa d Hva Hw. destruct (decide (STACK_BASE ≤ va < STACK_TOP)) as [Hstk|Hstk].
    { destruct (view_stack _ _ _ V va Hstk) as (pa' & d' & Hw' & _ & _ & H1 & _ & H2).
      rewrite Hw in Hw'. injection Hw' as <- <-. by rewrite H2, andb_false_r. }
    destruct (decide (Exists (λ sg, page_of va ∈ seg_pages sg) (segments elf))) as [Hex|Hnone].
    + apply Exists_exists in Hex as (sg & Hsg & Hin).
      destruct (view_segment _ _ _ V sg va Hsg Hin) as (pa' & d' & Hw' & _ & _ & H1 & H2 & H3).
      rewrite Hw in Hw'. injection Hw' as <- <-. split; [|done]. apply not_true_is_false.
      intros [Hwr Hx]%andb_true_iff. apply elem_of_seg_pages in Hin as (Hz & _); [|by apply HF].
      apply (accepted_not_wx sg (HF sg Hsg) Hz); [by apply H2|by apply H3].
    + rewrite (view_rest _ _ _ V va Hva Hstk) in Hw; [done|]. intros sg Hsg Hin.
      apply Hnone, Exists_exists. eauto.
  - done.
  - apply Exists_exists in Hen as (sg & Hsg & Hen).
    destruct (view_segment _ _ _ V sg (entry_point elf) Hsg (enters_executable elf sg Hen (HF sg Hsg)))
      as (pa & d & Hw & _ & _ & _ & _ & H3).
    exists pa, d. split; [done|]. apply H3. destruct Hen as (_ & Hx & _). unfold is_executable in Hx. by apply N.eqb_neq, negb_true_iff.
  - intros va Hva. eapply started_kernel_walk; [apply Hi|eapply footprint_live, Hi|done..].
Qed.

(** A program that was started can be taken down again, and then the heap is as it
    was: [destroy] succeeds, frees every block the start took and no other, leaves
    all memory that was in use as it was before the start, and frees only after the
    TLB was invalidated. *)
Theorem start_destroy_restores image p s img p' :
  seedable p → bytes image → len image ≤ u64_max → start_program image p = (Ok (s, img), p') →
  ∃ rec p'' frees, destroy true s p' = (Ok rec, p'') ∧ live p'' = live p ∧ heap_ok (heap p'') ∧
    (∀ a, kept_frame p a → page_at (mem p'') a = page_at (mem p) a) ∧
    trace p'' = trace p ++ TlbInvalidated :: frees ∧
    (∀ a n, Freed a n ∈ frees ↔ footprint s !! a = Some n) ∧
    rec_extents rec = len frees ∧ ttbr0 p'' = ttbr0 p.
Proof.
  intros Hs Hb Hlen Hst. destruct (start_program_Ok image p s img p' Hs Hb Hlen Hst) as (elf & _ & St & _).
  pose proof (started_inv _ _ _ _ St) as [t Hi].
  destruct (destroy_Ok s p' (inv_heap _ _ _ Hi) (inv_ledger _ _ _ Hi) (started_inactive _ _ _ _ St))
    as (plan & rec & p'' & Hd & Hplan & Hh & Hlive & Hm & Ht & Htr & Hrec).
  exists rec, p'', ((λ e, Freed (ext_addr e) (ext_bytes e)) <$> plan). split; [done|]. split_and!.
  - rewrite Hlive, (started_live _ _ _ _ St). apply map_eq. intros a. rewrite lookup_difference, lookup_union.
    pose proof (started_fresh _ _ _ _ St) as Hf.
    destruct (footprint s !! a) as [x|] eqn:Hx; [|by destruct (live p !! a)]. symmetry. by eapply map_disjoint_Some_l.
  - done.
  - intros a Hk. rewrite Hm. apply (started_mem _ _ _ _ St); [|done].
    pose proof (started_live _ _ _ _ St) as Hl'. pose proof (started_fresh _ _ _ _ St) as Hf.
    pose proof (footprint_live s p' (inv_ledger _ _ _ Hi)) as Hsub. destruct Hk as [Hk|Hk].
    + eapply static_apart; [apply Hi|done|done].
    + eapply (extents_apart p' (live p)); [apply Hi| |done|done|done].
      rewrite Hl'. by apply map_union_subseteq_r.
  - rewrite Htr. unfold hook_events. by rewrite (started_hook _ _ _ _ St), (started_trace _ _ _ _ St).
  - intros a n. rewrite list_elem_of_fmap, (footprint_lookup s p' a n (inv_ledger _ _ _ Hi)).
    pose proof (elem_of_space_extents s (mkExtent a n)) as He. cbn in He. rewrite <-He. setoid_rewrite Hplan.
    split; [intros ([b k] & [= -> ->] & Hin); exact Hin|intros Hin; by exists (mkExtent a n)].
  - rewrite Hrec. cbn. unfold len. by rewrite length_fmap, Hplan.
  - by rewrite Ht, (started_ttbr0 _ _ _ _ St).
Qed.

(** ** From [mmu::install] *)

(** The tables [install] writes are ready for spaces, when the linker put them
    outside the heap. *)
Lemma install_ready level1 level2 level3 el0_demo stack_base m sctlr m' regs h tr :
  linked level1 level2 level3 el0_demo stack_base → mem_ok m → page_at m level1 = zero_page →
  static_frame level1 → static_frame level2 → static_frame level3 → heap_ok h →
  install level1 level2 level3 el0_demo stack_base m sctlr = Some (m', regs) →
  kernel_ready (mkPhys m' h (ttbr0_el1 regs) tr).
Proof.
  intros Hl Hm Hz S1 S2 S3 Hh Hi.
  destruct (install_tables level1 level2 level3 el0_demo stack_base Hl m sctlr Hm) as (m1 & Hi1 & Hm1 & H1 & H2 & H3 & _).
  rewrite Hi in Hi1. injection Hi1 as -> ->. cbn [ttbr0_el1]. destruct Hl as [(F1 & F2 & F3) _ _ _ _].
  unfold kernel_ready, active_root. cbn [ttbr0 mem]. rewrite (frame_mask level1 F1). split.
  - split; unfold active_root; cbn [ttbr0 mem heap]; rewrite ?(frame_mask level1 F1); [done|done|by left|].
    rewrite H1 by done. rewrite !decide_False by done. by rewrite read_zero.
  - intros i Hi' Hne. rewrite H1 by done. destruct (decide (i = 0)) as [->|H0]; [done|].
    destruct (decide (i = 1)) as [->|Hi1]; [|by rewrite read_zero]. intros _.
    rewrite table_desc_addr by done. split; [done|]. intros j Hj. rewrite H2 by done. unfold level2_entry.
    case_decide; [by rewrite table_desc_addr|].
    by destruct (normal_block_desc _ (frame_granule j Hj)) as (-> & _).
Qed.
End view.
