(* ===== verification/ArmNet.v ===== *)
(** * ArmNet: the network driver's process

    Model of [kernel-arm/src/net_process.rs] and the device type of
    [virtio_mmio.rs]: the address space of the EL0 network driver, with its
    capability-gated device window, DMA regions, boot-info page and image.  On any
    failure the half-built space is destroyed; the theorems say what a finished one
    maps and that a failed one leaves the heap as it found it. *)

From S2P Require Import Prelude Text Bytes Sorting StateErr Capability ArmVm ArmMmu ArmElf ArmReclaim ArmLoader ArmSpace ArmSpaceSpec ArmSpaceOps ArmWorld ArmProcess.

Local Open Scope N_scope.

(** ** [virtio_mmio.rs] *)

Definition SLOT_STRIDE : N := 0x200.
Definition SLOT_COUNT : N := 32.

Record NetDevice := mkNetDevice {
  dev_slot : N;
  dev_version : N;
  dev_vendor_id : N;
  dev_mac : list N;
}.

Definition dev_base (dev : NetDevice) : N := VIRTIO_MMIO_BASE + dev_slot dev * SLOT_STRIDE.

Definition REG_MAGIC_VALUE : N := 0x000.
Definition REG_VERSION : N := 0x004.
Definition REG_DEVICE_ID : N := 0x008.
Definition REG_VENDOR_ID : N := 0x00c.
Definition REG_CONFIG : N := 0x100.
Definition MAGIC : N := 0x74726976.
Definition DEVICE_ID_NET : N := 1.

Record Scan := mkScan { populated_slots : N; scan_net : option NetDevice }.

(** The probe, over what the device registers read as. *)
Definition probe_slot (read32 read8 : N → N) (acc : Scan) (slot : N) : Scan :=
  let base := VIRTIO_MMIO_BASE + slot * SLOT_STRIDE in
  if decide (read32 (base + REG_MAGIC_VALUE) ≠ MAGIC) then acc else
  let device_id := read32 (base + REG_DEVICE_ID) in
  if decide (device_id = 0) then acc else
  let acc := mkScan (populated_slots acc + 1) (scan_net acc) in
  if decide (device_id ≠ DEVICE_ID_NET ∨ is_Some (scan_net acc)) then acc else
  let mac := (λ i, read8 (base + REG_CONFIG + N.of_nat i)) <$> seq 0 6 in
  mkScan (populated_slots acc)
    (Some (mkNetDevice slot (read32 (base + REG_VERSION)) (read32 (base + REG_VENDOR_ID)) mac)).

Definition probe (read32 read8 : N → N) : Scan :=
  foldl (probe_slot read32 read8) (mkScan 0 None) (N.of_nat <$> seq 0 (N.to_nat SLOT_COUNT)).

(** ** Messages *)

Definition elf_error_message (e : ElfError) : string :=
  match e with
  | TooShort => "image is shorter than an ELF64 header"
  | BadMagic => "not an ELF image (bad magic)"
  | Not64Bit => "not ELFCLASS64"
  | NotLittleEndian => "not ELFDATA2LSB (little-endian)"
  | NotAarch64 => "e_machine is not EM_AARCH64"
  | NotExecutable => "e_type is not ET_EXEC"
  | UnexpectedProgramHeaderSize => "e_phentsize is not 56"
  | ProgramHeadersOutOfBounds => "program header table runs past the image"
  | SegmentOutOfBounds => "PT_LOAD segment range runs past the image"
  | SegmentSmallerThanFileContent => "PT_LOAD segment has p_memsz < p_filesz"
  | NoLoadableSegments => "no PT_LOAD segment"
  end.

Definition loader_error_message (e : LoaderError) : string :=
  match e with
  | SegmentNotReadable => "PT_LOAD segment is not readable (no PF_R)"
  | SegmentWritableAndExecutable => "PT_LOAD segment is both writable and executable (W^X violation)"
  | SegmentOutsideWindow _ _ => "PT_LOAD segment is outside the loadable window"
  | OverlappingSegments _ => "two PT_LOAD segments share the same page"
  | EntryPointNotExecutable _ => "entry point is not inside an executable segment"
  | MapFailed _ reason => reason
  end.

(** ** Layout *)

Definition NET_HEAP_START : N := 0x88000000.
Definition NET_HEAP_PAGES : N := 64.
Definition NET_INFO_VA : N := 0x88100000.
Definition NET_RXQ_VA : N := 0x88200000.
Definition NET_TXQ_VA : N := 0x88300000.
Definition NET_RXBUF_VA : N := 0x88400000.
Definition NET_TXBUF_VA : N := 0x88500000.
Definition QUEUE_REGION_PAGES : N := 3.
Definition RX_BUFFER_COUNT : N := 8.
Definition TX_BUFFER_COUNT : N := 4.
Definition NET_MMIO_VA : N := 0x89000000.
Definition NET_MMIO_SLOT_STRIDE : N := 0x200.
Definition MARSHAL_REQUEST_VA : N := 0x88600000.
Definition MARSHAL_RESPONSE_VA : N := 0x88700000.
Definition MARSHAL_BUFFER_PAGES : N := 2.
Definition MARSHAL_BUFFER_CAPACITY : N := MARSHAL_BUFFER_PAGES * GRANULE_4KIB.

Record NetBootInfo := mkNetBootInfo {
  mmio_base : N;
  rx_queue_phys : N;
  tx_queue_phys : N;
  rx_buffer_phys : list N;
  tx_buffer_phys : list N;
  mode : N;
  remote_ip : list N;
  remote_port : N;
  local_port : N;
  request_len : N;
}.

(** The [repr(C)] image of the struct. *)
Definition boot_info_bytes (i : NetBootInfo) : list N :=
  le_bytes 8 (mmio_base i) ++ le_bytes 8 (rx_queue_phys i) ++ le_bytes 8 (tx_queue_phys i) ++
  (rx_buffer_phys i ≫= le_bytes 8) ++ (tx_buffer_phys i ≫= le_bytes 8) ++
  le_bytes 8 (mode i) ++ remote_ip i ++ le_bytes 2 (remote_port i) ++ le_bytes 2 (local_port i) ++
  le_bytes 8 (request_len i).

(** ** Construction *)

Section net.
Context `{Heap} `{SignatureScheme} (demo_key : SigningKey).

Abbreviation NetOp A := (SE Proc string A).

Definition frames_from (pa pages : N) : list N :=
  (λ i, pa + N.of_nat i * GRANULE_4KIB) <$> seq 0 (N.to_nat pages).

Definition zero_frames (frames : list N) (m : Mem) : Mem := foldr (λ f m, <[f := zero_page]> m) m frames.

(** [alloc_zeroed] of a multi-page layout. *)
Definition alloc_block (pages : N) (p : Phys) : option (N * Phys) :=
  match heap_alloc (heap p) (pages * GRANULE_4KIB) GRANULE_4KIB with
  | Some (pa, h) => Some (pa, mkPhys (zero_frames (frames_from pa pages) (mem p)) h (ttbr0 p) (trace p))
  | None => None
  end.

Definition dealloc_block (pa pages : N) (p : Phys) : Phys :=
  set_heap (heap_dealloc (heap p) pa (pages * GRANULE_4KIB)) p.

Definition map_region_page (va_base pa_base : N) (i : nat) (_ : ()) : NetOp () :=
  with_err address_space_error_message
    (map_mmio_page (va_base + N.of_nat i * GRANULE_4KIB) (pa_base + N.of_nat i * GRANULE_4KIB) true).

Definition map_contiguous_region (va_base pages : N) : NetOp N := λ sp,
  match alloc_block pages sp.2 with
  | None => (Err "out of memory for a contiguous virtqueue region", sp)
  | Some (pa_base, p) =>
      match adopt_block pa_base pages (sp.1, p) with
      | (Err _, (s, p)) =>
          (Err "out of memory recording a contiguous virtqueue region", (s, dealloc_block pa_base pages p))
      | (Ok _, sp) =>
          (_ ← for_each (seq 0 (N.to_nat pages)) () (map_region_page va_base pa_base); mret pa_base) sp
      end
  end.

Definition map_net_page (va : N) : NetOp N := with_err address_space_error_message (map_private_page va).

(** [for (i, slot) in buffers.iter_mut().enumerate()]: the frames, in order. *)
Definition map_buffers (va_base : N) (count : nat) : NetOp (list N) :=
  for_each (seq 0 count) [] (λ i acc,
    page ← map_net_page (va_base + N.of_nat i * GRANULE_4KIB);
    mret (acc ++ [page])).

(** [issue_mmio_token]: the expiry is computed with [u64] addition. *)
Definition issue_mmio_token (resource : string) (now ticks_per_sec : N) : CapabilityToken :=
  issue "el0:arm-demo" resource now
    ((now + (60 * ticks_per_sec) mod (u64_max + 1)) mod (u64_max + 1)) "demo-key" demo_key.

(** [copy_nonoverlapping] into a contiguous physical region. *)
Definition copy_frames (pa : N) (src : list N) (pages : N) (m : Mem) : Mem :=
  foldl (λ m i, <[pa + N.of_nat i * GRANULE_4KIB :=
                    copy_at (page_at m (pa + N.of_nat i * GRANULE_4KIB)) 0
                      (take 4096 (drop (4096 * i) src))]> m)
    m (seq 0 (N.to_nat pages)).

(** The [request_bytes] part of [build_net_boot_info]. *)
Definition map_request (request : list N) (info : NetBootInfo) : NetOp (NetBootInfo * N) :=
  request_phys ← map_contiguous_region MARSHAL_REQUEST_VA MARSHAL_BUFFER_PAGES;
  response_phys ← map_contiguous_region MARSHAL_RESPONSE_VA MARSHAL_BUFFER_PAGES;
  let n := N.min (len request) MARSHAL_BUFFER_CAPACITY in
  _ ← modify (with_phys (λ p, set_mem (copy_frames request_phys (take (N.to_nat n) request) MARSHAL_BUFFER_PAGES (mem p)) p));
  mret (mkNetBootInfo (mmio_base info) (rx_queue_phys info) (tx_queue_phys info) (rx_buffer_phys info)
          (tx_buffer_phys info) (mode info) (remote_ip info) (remote_port info) (local_port info) n,
        response_phys).

(** The device window: the token is checked against the slot, and the page that
    contains the slot is mapped. *)
Definition grant_device (dev : NetDevice) (token : CapabilityToken) (now : N) : NetOp () :=
  let mmio_phys_base := dev_base dev in
  let mmio_page_pa := align_down mmio_phys_base in
  _ ← of_result (match check_mmio_window demo_key token mmio_phys_base NET_MMIO_SLOT_STRIDE now with
                 | Ok _ => Ok ()
                 | Err _ => Err "mmio capability check denied the virtio-net device window"
                 end);
  with_err address_space_error_message (map_mmio_page NET_MMIO_VA mmio_page_pa true).

Definition build_net_boot_info (dev : NetDevice) (info : NetBootInfo) (request : option (list N))
    (now ticks_per_sec : N) : NetOp (option N) :=
  let mmio_phys_base := dev_base dev in
  let mmio_page_pa := align_down mmio_phys_base in
  let mmio_page_offset := mmio_phys_base - mmio_page_pa in
  let token := issue_mmio_token (virtio_mmio_slot_resource (dev_slot dev)) now ticks_per_sec in
  _ ← grant_device dev token now;
  _ ← for_each (seq 0 (N.to_nat NET_HEAP_PAGES)) () (λ i _,
        _ ← map_net_page (NET_HEAP_START + N.of_nat i * GRANULE_4KIB); mret ());
  info_page ← map_net_page NET_INFO_VA;
  rx_queue ← map_contiguous_region NET_RXQ_VA QUEUE_REGION_PAGES;
  tx_queue ← map_contiguous_region NET_TXQ_VA QUEUE_REGION_PAGES;
  rx_buffers ← map_buffers NET_RXBUF_VA (N.to_nat RX_BUFFER_COUNT);
  tx_buffers ← map_buffers NET_TXBUF_VA (N.to_nat TX_BUFFER_COUNT);
  let info := mkNetBootInfo (NET_MMIO_VA + mmio_page_offset) rx_queue tx_queue rx_buffers tx_buffers
                (mode info) (remote_ip info) (remote_port info) (local_port info) (request_len info) in
  '(info, response) ← match request with
                      | Some bytes => '(info, r) ← map_request bytes info; mret (info, Some r)
                      | None => mret (info, None)
                      end;
  _ ← modify (page_write info_page 0 (boot_info_bytes info));
  mret response.

Definition build_and_load (elf : Elf64) (dev : NetDevice) (info : NetBootInfo) (request : option (list N))
    (now ticks_per_sec : N) : NetOp (option N * LoadedImage) :=
  response ← build_net_boot_info dev info request now ticks_per_sec;
  loaded ← with_err loader_error_message (load elf);
  mret (response, loaded).

(** [reserved] answers the [try_reserve] of a [destroy] on the error path. *)
Definition setup (reserved : bool) (image : list N) (dev : NetDevice) (info : NetBootInfo)
    (request : option (list N)) (now ticks_per_sec : N) (p : Phys) :
    Result string (AddressSpace * LoadedImage * option N) * Phys :=
  match check_net_mode (mode info) (bool_decide (is_Some request)) with
  | Err e => (Err e, p)
  | Ok _ =>
      match parse image with
      | Err e => (Err (elf_error_message e), p)
      | Ok elf =>
          match space_new p with
          | (Err e, p) => (Err (address_space_error_message e), p)
          | (Ok s, p) =>
              let s := set_pre_free_hook ResetVirtioDevice (dev_base dev) s in
              match build_and_load elf dev info request now ticks_per_sec (s, p) with
              | (Ok (response, loaded), (s, p)) => (Ok (s, loaded, response), p)
              | (Err reason, (s, p)) => (Err reason, (destroy reserved s p).2)
              end
          end
      end
  end.
End net.
