(* ===== verification/ArmNetSpec.v ===== *)
(** * ArmNetSpec: the network driver's process is built whole or not at all

    Every step of [build_and_load] keeps the space in order and accounted for,
    whatever fails; so the [destroy] on the error path gives everything back. *)

From S2P Require Import Prelude Text Bytes Sorting StateErr Capability ArmVm ArmMmu ArmElf ArmReclaim ArmLoader ArmSpace ArmSpaceSpec ArmSpaceOps ArmWorld ArmProcess ArmNet.

Local Open Scope N_scope.

Section held.
Context `{HL : HeapLaws}.

(** The space is in order and everything it took since [sp0] is in its ledger. *)
Definition held (sp0 sp : Proc) : Prop := (∃ t, space_inv sp.1 sp.2 t) ∧ extends sp0 sp.

Lemma held_grows sp0 sp sp' t' : held sp0 sp → space_inv sp'.1 sp'.2 t' → grows sp sp' → held sp0 sp'.
Proof.
  destruct sp as [s p], sp' as [s' p']. intros [[t Hi] E] Hi' G. split; [by exists t'|]. eapply extends_trans; [exact E|].
  eapply grows_extends; [eapply inv_ledger, Hi|eapply inv_ledger, Hi'|done].
Qed.

Lemma with_err_keeps {E F A} (P : Proc → Prop) (f : F → E) (m : SE Proc F A) : keeps P m → keeps P (with_err f m).
Proof. intros Hm sp Hsp. specialize (Hm sp Hsp). unfold with_err. by destruct (m sp) as [[]]. Qed.

Lemma of_result_keeps {E A} (P : Proc → Prop) (r : Result E A) : keeps P (of_result r).
Proof. by intros sp. Qed.

Lemma map_page_keeps sp0 va perm : perm_ok perm → keeps (held sp0) (map_private_page_with va perm).
Proof.
  intros Hq [s p] Hh. pose proof Hh as [[t Hi] E].
  destruct (map_private_page_with va perm (s, p)) as [[f|e] [s' p']] eqn:Hm; cbn [snd].
  - destruct (map_private_page_with_Ok s p t va perm f _ Hi Hq Hm) as (_ & t' & A).
    eapply held_grows; [done|apply A|apply A].
  - destruct (map_private_page_with_Err s p t va perm e _ Hi Hm) as (t' & D).
    eapply held_grows; [done|apply D|apply D].
Qed.

Lemma map_mmio_page_Err s p t va pa writable e sp' :
  space_inv s p t → map_mmio_page va pa writable (s, p) = (Err e, sp') → ∃ t', descended (s, p) sp' t t'.
Proof.
  intros Hi. unfold map_mmio_page, check_private_va. unfold mbind at 1, SE_bind at 1.
  destruct (decide (_ ∨ _)) as [|Hal]; [intros [= _ <-]; exists t; by apply descended_refl|].
  unfold mbind at 1, SE_bind at 1. cbn [mret SE_ret].
  destruct (decide (PRIVATE_REGION_BASE ≤ va < PRIVATE_REGION_END)) as [Hr|];
    [|intros [= _ <-]; exists t; by apply descended_refl].
  assert (private_page va) as Hva by (split; [lia|done]).
  unfold mbind at 1, SE_bind at 1. cbn [mret SE_ret].
  destruct (descend_to_l3 va (s, p)) as [[l3|e1] [s1 p1]] eqn:H1; [done|].
  intros [= _ <-]. by eapply descend_to_l3_Err.
Qed.

Lemma map_mmio_keeps sp0 va pa writable s p :
  held sp0 (s, p) → external s pa → pa < N.shiftl 1 48 →
  held sp0 (map_mmio_page va pa writable (s, p)).2 ∧
  owned_blocks (map_mmio_page va pa writable (s, p)).2.1 = owned_blocks s.
Proof.
  intros Hh Hx Hpa. pose proof Hh as [[t Hi] E].
  destruct (map_mmio_page va pa writable (s, p)) as [[[]|e] [s' p']] eqn:Hm; cbn [snd fst].
  - destruct (map_mmio_page_Ok s p t va pa writable _ Hi Hx Hpa Hm) as (_ & t' & Hi' & G & _ & _ & Hb & _).
    split; [by eapply held_grows|done].
  - destruct (map_mmio_page_Err s p t va pa writable e _ Hi Hm) as (t' & Hi' & _ & G & _ & Hb & _).
    split; [by eapply held_grows|done].
Qed.

(** ** Writing memory the space holds *)

Lemma frame_write_held sp0 s p a page :
  held sp0 (s, p) → in_extents (footprint s) a → a ∉ owned_tables s →
  length page = 4096%nat → bytes page → held sp0 (s, set_mem (<[a := page]> (mem p)) p).
Proof.
  intros [[t Hi] E] Hin Hnt Hlen Hb. split.
  - exists t. apply (space_inv_frame_tables s p t); try done; cbn.
    + apply mem_ok_insert; [apply Hi|done..].
    + apply Hi.
    + exact (footprint_live s p (inv_ledger _ _ _ Hi)).
    + intros b Hb'. rewrite page_at_insert, decide_False; [done|]. intros ->. done.
  - eapply extends_trans; [exact E|]. split; cbn [fst snd]; try done.
    + rewrite map_difference_diag. apply map_disjoint_empty_l.
    + by rewrite map_difference_diag, (left_id_L ∅ (∪)).
    + intros b Hnb _. cbn. rewrite page_at_insert, decide_False; [done|]. by intros ->.
    + intros i _ _. apply read_entry_page. cbn. rewrite page_at_insert, decide_False; [done|].
      intros ->. apply Hnt, (inv_tables _ _ _ Hi). by left.
Qed.

(** A frame of an adopted block is no table. *)
Lemma block_frame_place s p t b n a :
  space_inv s p t → (b, n) ∈ owned_blocks s → b ≤ a < b + n * GRANULE_4KIB →
  in_extents (footprint s) a ∧ a ∉ owned_tables s ∧ a ∉ owned_pages s.
Proof.
  intros Hi Hb Hr. pose proof (inv_ledger _ _ _ Hi) as Hl.
  destruct (ledger_blocks _ _ Hl b n Hb) as (Hlb & _ & Hno).
  assert (¬ owned s a) as Hna.
  { intros Ho. destruct (ledger_owned _ _ Hl a Ho) as [Hla _].
    destruct (heap_extents _ (inv_heap _ _ _ Hi) a _ Hla) as (_ & _ & _ & Hdis).
    destruct (decide (a = b)) as [->|Hne]; [done|]. destruct (Hdis b _ Hlb Hne); granules; lia. }
  split; [|unfold owned in Hna; tauto].
  exists b, (n * GRANULE_4KIB). split; [|done]. apply (footprint_lookup s p b _ Hl). eauto.
Qed.
(** ** Contiguous regions *)

Lemma elem_of_frames_from pa pages a :
  a ∈ frames_from pa pages ↔ ∃ i, i < pages ∧ a = pa + i * GRANULE_4KIB.
Proof.
  unfold frames_from. rewrite list_elem_of_fmap. split.
  - intros (i & -> & Hi%elem_of_seq). exists (N.of_nat i). split; [lia|done].
  - intros (i & Hi & ->). exists (N.to_nat i). rewrite N2Nat.id. split; [done|]. apply elem_of_seq. lia.
Qed.

Lemma zero_frames_spec frames m :
  mem_ok m → mem_ok (zero_frames frames m) ∧
  ∀ a, page_at (zero_frames frames m) a = if decide (a ∈ frames) then zero_page else page_at m a.
Proof.
  intros Hm. induction frames as [|f frames [IH1 IH2]]; cbn [zero_frames foldr].
  - split; [done|]. intros a. rewrite decide_False; [done|]. apply not_elem_of_nil.
  - fold (zero_frames frames m). split.
    + apply mem_ok_insert; [done|apply length_zero_page|apply bytes_zero_page].
    + intros a. rewrite page_at_insert. destruct (decide (f = a)) as [->|Hne].
      * rewrite decide_True; [done|by left].
      * rewrite IH2. destruct (decide (a ∈ frames)); [rewrite decide_True; [done|by right]|].
        rewrite decide_False; [done|]. intros [->|]%elem_of_cons; done.
Qed.

(** What [alloc_block] hands out. *)
Record block_new (p p1 : Phys) (pa pages : N) : Prop := {
  bn_heap : heap_ok (heap p1);
  bn_mem : mem_ok (mem p1);
  bn_fresh : live p !! pa = None;
  bn_live : live p1 = <[pa := pages * GRANULE_4KIB]> (live p);
  bn_frame : frame_addr pa;
  bn_top : pa + pages * GRANULE_4KIB ≤ HEAP_START + HEAP_SIZE;
  bn_zero i : i < pages → page_at (mem p1) (pa + i * GRANULE_4KIB) = zero_page;
  bn_kept a : kept_frame p a → page_at (mem p1) a = page_at (mem p) a;
  bn_ttbr0 : ttbr0 p1 = ttbr0 p;
  bn_trace : trace p1 = trace p;
}.

Lemma alloc_block_Some pages p pa p1 :
  heap_ok (heap p) → mem_ok (mem p) → 0 < pages → alloc_block pages p = Some (pa, p1) → block_new p p1 pa pages.
Proof.
  intros Hh Hm Hp. unfold alloc_block. destruct (heap_alloc _ _ _) as [[b h]|] eqn:Ha; [|done]. intros [= -> <-].
  destruct (heap_alloc_ok _ _ _ _ _ Hh (ltac:(granules; lia) : 0 < pages * GRANULE_4KIB) Ha) as (Hh' & Hal & Hn & Hl).
  destruct (zero_frames_spec (frames_from pa pages) (mem p) Hm) as [Hm' Hpg].
  assert (heap_live h !! pa = Some (pages * GRANULE_4KIB)) as Hlp by (by rewrite Hl, lookup_insert_eq).
  destruct (heap_extents _ Hh' _ _ Hlp) as (Hlo & Hhi & _ & Hdis).
  split; try done; cbn [mem heap].
  - split; [done|]. unfold HEAP_START, HEAP_SIZE in *. granules. lia.
  - intros i Hi. rewrite Hpg, decide_True; [done|]. apply elem_of_frames_from. by exists i.
  - intros a Hk. rewrite Hpg, decide_False; [done|]. intros (i & Hi & ->)%elem_of_frames_from.
    assert (pa + i * GRANULE_4KIB + GRANULE_4KIB ≤ pa + pages * GRANULE_4KIB) as Hle by (granules; lia).
    destruct Hk as [[?|?]|(b & n & Hb & Hr)]; [granules; lia|granules; lia|].
    assert (b ≠ pa) as Hne by (intros ->; unfold live in Hb; congruence).
    destruct (Hdis b n) as [?|?]; [by rewrite Hl, lookup_insert_ne|done|granules; lia|granules; lia].
Qed.

Lemma footprint_kept s p a : ledger_ok s p → in_extents (footprint s) a → kept_frame p a.
Proof. intros Hl Ha. right. eapply in_extents_mono; [by apply footprint_live|done]. Qed.

Lemma block_new_inv s p t p1 pa pages : space_inv s p t → block_new p p1 pa pages → space_inv s p1 t.
Proof.
  intros Hi B. pose proof (inv_ledger _ _ _ Hi) as Hl. apply (space_inv_frame_tables s p t); [done|apply B|apply B| |].
  - rewrite (bn_live _ _ _ _ B). etrans; [by apply footprint_live|]. apply insert_subseteq, B.
  - intros a Ha. apply (bn_kept _ _ _ _ B). eapply footprint_kept; [done|]. eapply owned_in_extents; [done|by left].
Qed.

Lemma push_block_footprint s p pa pages :
  ledger_ok s p → ledger_ok (push_block (pa, pages) s) p → footprint s !! pa = None →
  footprint (push_block (pa, pages) s) = <[pa := pages * GRANULE_4KIB]> (footprint s).
Proof.
  intros Hl Hl' Hn. apply map_eq. intros a. apply option_eq. intros n.
  rewrite (footprint_lookup _ p a n Hl'), lookup_insert_Some, (footprint_lookup s p a n Hl).
  unfold owned, push_block. cbn. setoid_rewrite elem_of_app. setoid_rewrite list_elem_of_singleton. split.
  - intros [[Ho ->]|(k & [Hk|[= -> ->]] & ->)]; [right|right|by left].
    + split; [|by left]. intros <-. by rewrite (footprint_owned s p pa Hl Ho) in Hn.
    + split; [|right; by exists k]. intros <-.
      assert (footprint s !! pa = Some (k * GRANULE_4KIB)) by (apply (footprint_lookup s p pa _ Hl); eauto). congruence.
  - intros [[<- <-]|[_ [?|(k & ? & ->)]]]; [right; exists pages; auto|by left|right; exists k; auto].
Qed.

Lemma adopt_held sp0 s p p1 pa pages s2 p2 :
  held sp0 (s, p) → block_new p p1 pa pages → adopt_block pa pages (s, p1) = (Ok (), (s2, p2)) →
  held sp0 (s2, p2) ∧ (pa, pages) ∈ owned_blocks s2 ∧ mem p2 = mem p1.
Proof.
  intros [[t Hi] E] B Ha. cbn [fst snd] in *. pose proof (inv_ledger _ _ _ Hi) as Hl.
  pose proof (block_new_inv s p t p1 pa pages Hi B) as Hi1. pose proof (bn_fresh _ _ _ _ B) as Hn.
  assert (footprint s !! pa = None) as Hfn.
  { apply eq_None_not_Some. intros [x Hx]. pose proof (lookup_weaken _ _ _ _ Hx (footprint_live s p Hl)). congruence. }
  destruct (adopt_block_Ok s p1 t pa pages (s2, p2) Hi1) as (Hi2 & Hs2 & Hm2 & Hl2 & Ht2 & Htr2); cbn [fst snd] in *.
  { by rewrite (bn_live _ _ _ _ B), lookup_insert_eq. }
  { apply B. }
  { intros Ho. by rewrite (footprint_owned s p pa Hl Ho) in Hfn. }
  { intros ([b n] & -> & Hin)%list_elem_of_fmap.
    assert (footprint s !! b = Some (n * GRANULE_4KIB)) by (apply (footprint_lookup s p b _ Hl); eauto).
    cbn in Hfn. congruence. }
  { done. }
  subst s2. split_and!; [|cbn; apply elem_of_app; right; by left|done].
  split; [by exists t|]. eapply extends_trans; [exact E|].
  assert (ledger_ok s p2) as Hlp2.
  { apply (ledger_frame s p1); [apply (inv_ledger _ _ _ Hi1)|]. rewrite Hl2. by eapply footprint_live, inv_ledger. }
  pose proof (push_block_footprint s p2 pa pages Hlp2 (inv_ledger _ _ _ Hi2) Hfn) as Hfp.
  assert (footprint (push_block (pa, pages) s) ∖ footprint s = {[pa := pages * GRANULE_4KIB]}) as Hdiff.
  { rewrite Hfp. apply map_eq. intros a. rewrite lookup_difference, lookup_insert, lookup_singleton.
    destruct (decide (pa = a)) as [<-|]; [by rewrite Hfn|]. by destruct (footprint s !! a). }
  split; cbn [fst snd]; try done.
  - intros b Hb. cbn. apply elem_of_app. by left.
  - rewrite Hfp. by apply insert_subseteq.
  - rewrite Hdiff. by apply map_disjoint_singleton_l.
  - rewrite Hdiff, Hl2, (bn_live _ _ _ _ B). by rewrite insert_union_singleton_l.
  - intros a Hna Hk. rewrite Hm2. by apply (bn_kept _ _ _ _ B).
  - intros i Hi' Hne. apply read_entry_page. rewrite Hm2. apply (bn_kept _ _ _ _ B).
    eapply footprint_kept; [done|]. eapply owned_in_extents; [done|]. left. apply (inv_tables _ _ _ Hi). by left.
  - rewrite Ht2. apply B.
  - rewrite Htr2. apply B.
Qed.
Lemma dealloc_block_held sp0 s p p1 pa pages p2 t :
  held sp0 (s, p) → space_inv s p t → block_new p p1 pa pages → space_inv s p2 t →
  mem p2 = mem p1 → live p2 = live p1 → ttbr0 p2 = ttbr0 p1 → trace p2 = trace p1 →
  held sp0 (s, dealloc_block pa pages p2).
Proof.
  intros [_ E] Hi B Hi2 Hm Hl Ht Htr. pose proof (inv_ledger _ _ _ Hi) as Hled.
  assert (live p2 !! pa = Some (pages * GRANULE_4KIB)) as Hlp.
  { by rewrite Hl, (bn_live _ _ _ _ B), lookup_insert_eq. }
  destruct (heap_dealloc_ok _ _ _ (inv_heap _ _ _ Hi2) Hlp) as [Hh3 Hl3].
  assert (live (dealloc_block pa pages p2) = live p) as Hback.
  { unfold live at 1. cbn. rewrite Hl3. fold (live p2). rewrite Hl, (bn_live _ _ _ _ B). by rewrite delete_insert_id by apply B. }
  split.
  - exists t. apply (space_inv_frame_tables s p t _ Hi); [cbn; rewrite Hm; apply B|done| |].
    + etrans; [by apply footprint_live|]. by rewrite <-Hback.
    + intros a Ha. cbn. rewrite Hm. apply (bn_kept _ _ _ _ B). eapply footprint_kept; [done|].
      eapply owned_in_extents; [done|by left].
  - eapply extends_trans; [exact E|]. split; cbn [fst snd]; try done.
    + rewrite map_difference_diag. apply map_disjoint_empty_l.
    + by rewrite map_difference_diag, (left_id_L ∅ (∪)).
    + intros a _ Hk. cbn. rewrite Hm. by apply (bn_kept _ _ _ _ B).
    + intros i _ _. cbn. apply read_entry_page. rewrite Hm. apply (bn_kept _ _ _ _ B).
      eapply footprint_kept; [done|]. eapply owned_in_extents; [done|]. left. apply (inv_tables _ _ _ Hi). by left.
    + cbn. rewrite Ht. apply B.
    + cbn. rewrite Htr. apply B.
Qed.

(** The page loop of a region: frames of an adopted block. *)
Definition held_block (sp0 : Proc) (pa pages : N) (sp : Proc) : Prop :=
  held sp0 sp ∧ (pa, pages) ∈ owned_blocks sp.1.

Lemma region_page_keeps sp0 va pa pages i u :
  N.of_nat i < pages → keeps (held_block sp0 pa pages) (map_region_page va pa i u).
Proof.
  intros Hi. apply with_err_keeps. intros [s p] [Hh Hb]. cbn [fst] in Hb. pose proof Hh as [[t Hinv] _]. cbn in Hinv.
  destruct (ledger_blocks _ _ (inv_ledger _ _ _ Hinv) pa pages Hb) as (Hlp & _ & _).
  destruct (heap_extents _ (inv_heap _ _ _ Hinv) pa _ Hlp) as (_ & Htop & _).
  destruct (map_mmio_keeps sp0 (va + N.of_nat i * GRANULE_4KIB) (pa + N.of_nat i * GRANULE_4KIB) true s p Hh) as [Hh' Hb'].
  - right. exists pa, pages. split; [done|]. granules. lia.
  - unfold HEAP_START, HEAP_SIZE in Htop. granules. lia.
  - split; [done|]. by rewrite Hb'.
Qed.

Lemma region_keeps sp0 va pages : 0 < pages → keeps (held sp0) (map_contiguous_region va pages).
Proof.
  intros Hpg [s p] Hh. pose proof Hh as [[t Hi] E]. cbn in Hi. unfold map_contiguous_region. cbn [fst snd].
  destruct (alloc_block pages p) as [[pa p1]|] eqn:Ha; [|done].
  pose proof (alloc_block_Some pages p pa p1 (inv_heap _ _ _ Hi) (inv_mem _ _ _ Hi) Hpg Ha) as B.
  pose proof (block_new_inv s p t p1 pa pages Hi B) as Hi1.
  destruct (adopt_block pa pages (s, p1)) as [[[]|e] [s2 p2]] eqn:Had.
  - destruct (adopt_held sp0 s p p1 pa pages s2 p2 Hh B Had) as (Hh2 & Hb2 & _).
    pose proof (keeps_for_each (held_block sp0 pa pages) (seq 0 (N.to_nat pages)) () (map_region_page va pa)) as Hk.
    specialize (Hk ltac:(intros i u Hin%elem_of_seq; apply region_page_keeps; lia) (s2, p2) (conj Hh2 Hb2)).
    unfold mbind, SE_bind.
    destruct (for_each (seq 0 (N.to_nat pages)) () (map_region_page va pa) (s2, p2)) as [[u|e] sp3]; apply Hk.
  - unfold adopt_block, mbind, SE_bind in Had. destruct (reserve (s, p1)) as [[[]|e'] [s3 p3]] eqn:Hr; [done|].
    injection Had as -> -> ->. destruct (reserve_inv s p1 t _ _ Hi1 Hr) as (Hi2 & Es & G & Hm & Hl). cbn [fst snd] in *.
    subst s2. eapply dealloc_block_held; try done; [apply (grows_ttbr0 _ _ G)|apply (grows_trace _ _ G)].
Qed.

Lemma net_page_keeps sp0 va : keeps (held sp0) (map_net_page va).
Proof. apply with_err_keeps, map_page_keeps. by vm_compute. Qed.

Lemma buffers_keeps sp0 va n : keeps (held sp0) (map_buffers va n).
Proof.
  apply keeps_for_each. intros i acc _. apply keeps_bind; [apply net_page_keeps|intros; apply keeps_ret].
Qed.
Lemma held_refl s p t : space_inv s p t → held (s, p) (s, p).
Proof. intros Hi. split; [by exists t|apply extends_refl]. Qed.

Lemma held_trans sp0 sp sp' : held sp0 sp → held sp sp' → held sp0 sp'.
Proof. intros [_ E] [Hi E']. split; [done|by eapply extends_trans]. Qed.

(** Each operation also keeps [held] from where it started. *)
Lemma keeps_from {A E} sp0 sp (m : SE Proc E A) : (∀ sp0, keeps (held sp0) m) → held sp0 sp → held sp (m sp).2.
Proof. intros Hk Hh. apply Hk. destruct sp as [s p]. destruct Hh as [[t Hi] _]. by eapply held_refl. Qed.

Lemma region_Ok sp0 va pages sp pa sp' :
  0 < pages → held sp0 sp → map_contiguous_region va pages sp = (Ok pa, sp') → (pa, pages) ∈ owned_blocks sp'.1.
Proof.
  intros Hpg Hh. destruct sp as [s p]. pose proof Hh as [[t Hi] _]. cbn in Hi. unfold map_contiguous_region. cbn [fst snd].
  destruct (alloc_block pages p) as [[b p1]|] eqn:Ha; [|done].
  pose proof (alloc_block_Some pages p b p1 (inv_heap _ _ _ Hi) (inv_mem _ _ _ Hi) Hpg Ha) as B.
  destruct (adopt_block b pages (s, p1)) as [[[]|e] [s2 p2]] eqn:Had; [|done].
  destruct (adopt_held sp0 s p p1 b pages s2 p2 Hh B Had) as (Hh2 & Hb2 & _).
  pose proof (keeps_for_each (held_block sp0 b pages) (seq 0 (N.to_nat pages)) () (map_region_page va b)) as Hk.
  specialize (Hk ltac:(intros i u Hin%elem_of_seq; apply region_page_keeps; lia) (s2, p2) (conj Hh2 Hb2)).
  intros (u & sp3 & Hrun & [= <- <-])%bind_SE_Ok. rewrite Hrun in Hk. apply Hk.
Qed.

Lemma net_page_Ok sp0 va sp f sp' :
  held sp0 sp → map_net_page va sp = (Ok f, sp') → f ∈ owned_pages sp'.1.
Proof.
  intros [[t Hi] _]. destruct sp as [s p]. cbn in Hi. unfold map_net_page, with_err.
  destruct (map_private_page va (s, p)) as [[g|e] sp1] eqn:Hm; [|done]. intros [= -> <-].
  destruct (map_private_page_with_Ok s p t va _ f sp1 Hi RW_PERM_ok Hm) as (_ & t' & A).
  rewrite (added_owned _ _ _ _ _ _ _ A). apply elem_of_app. right. by left.
Qed.

Lemma copy_frames_held sp0 s p pa pages src :
  held sp0 (s, p) → (pa, pages) ∈ owned_blocks s → bytes src →
  held sp0 (s, set_mem (copy_frames pa src pages (mem p)) p).
Proof.
  intros Hh Hb Hsrc. unfold copy_frames.
  assert (Forall (λ i, N.of_nat i < pages) (seq 0 (N.to_nat pages))) as HF.
  { apply Forall_forall. intros i Hi%elem_of_seq. lia. }
  revert p Hh. induction HF as [|i l Hi HF IH]; intros p Hh; cbn [foldl]; [by destruct p|].
  pose proof Hh as [[t Hinv] _]. cbn in Hinv. set (a := pa + N.of_nat i * GRANULE_4KIB).
  destruct (block_frame_place s p t pa pages a Hinv Hb) as (Hin & Hnt & _); [unfold a; granules; lia|].
  pose proof (inv_mem _ _ _ Hinv) as Hm.
  assert (0 + len (take 4096 (drop (4096 * i) src)) ≤ len (page_at (mem p) a)) as Hfit.
  { unfold len. rewrite length_take, (length_page_at _ _ Hm). lia. }
  pose proof (frame_write_held sp0 s p a (copy_at (page_at (mem p) a) 0 (take 4096 (drop (4096 * i) src)))
    Hh Hin Hnt) as Hw. specialize (IH _ (Hw ltac:(by rewrite length_copy_at, length_page_at)
    ltac:(apply bytes_copy_at; [by apply bytes_page_at|by apply Forall_take, Forall_drop]))). exact IH.
Qed.

Lemma page_write_held sp0 sp page off src :
  held sp0 sp → page ∈ owned_pages sp.1 → off + len src ≤ 4096 → bytes src → held sp0 (page_write page off src sp).
Proof.
  destruct sp as [s p]. intros Hh Hin Hle Hb. pose proof Hh as [[t Hi] _]. cbn in Hi, Hin.
  destruct (page_written_inv s p t page off src Hi Hin Hle Hb) as [Hi' G]. by eapply held_grows.
Qed.

Lemma map_buffers_length va n sp l sp' : map_buffers va n sp = (Ok l, sp') → length l = n.
Proof.
  unfold map_buffers.
  assert (∀ k acc sp, for_each k acc (λ i acc, page ← map_net_page (va + N.of_nat i * GRANULE_4KIB);
    mret (acc ++ [page])) sp = (Ok l, sp') → length l = (length acc + length k)%nat) as Hgen.
  { induction k as [|i k IH]; intros acc sp1; cbn [for_each]; [intros [= <- _]; cbn; lia|].
    intros (acc' & sp2 & (pg & sp3 & _ & [= <- <-])%bind_SE_Ok & Hr)%bind_SE_Ok.
    apply IH in Hr. rewrite length_app in Hr. cbn in *. lia. }
  intros Hr%Hgen. by rewrite length_seq in Hr.
Qed.
Lemma load_held sp0 elf : bytes (elf_bytes elf) → keeps (held sp0) (load elf).
Proof.
  intros Hb [s p] Hh. pose proof Hh as [[t Hi] _]. cbn in Hi.
  pose proof (@load_keeps Proc space_mapper (space_mapper_laws (s, p)) elf Hb (s, p)) as Hk.
  destruct Hk as [[t' Hi'] G]; [split; [by exists t|apply grows_refl]|].
  exact (held_grows sp0 (s, p) _ t' Hh Hi' G).
Qed.
End held.

(** ** The whole construction *)

Definition info_ok (info : NetBootInfo) : Prop := bytes (remote_ip info) ∧ length (remote_ip info) = 4%nat.

Lemma bytes_flat (l : list N) k : bytes (l ≫= le_bytes k).
Proof. induction l; cbn; [constructor|]. apply Forall_app_2; [apply bytes_le_bytes|done]. Qed.

Lemma length_flat (l : list N) k : length (l ≫= le_bytes k) = (length l * k)%nat.
Proof. induction l as [|x l IH]; cbn; [done|]. rewrite length_app, IH, length_le_bytes. lia. Qed.

Lemma boot_info_fits i :
  info_ok i → length (rx_buffer_phys i) = 8%nat → length (tx_buffer_phys i) = 4%nat →
  len (boot_info_bytes i) = 144 ∧ bytes (boot_info_bytes i).
Proof.
  intros [Hb Hl] H8 H4. split.
  - unfold len, boot_info_bytes. rewrite !length_app, !length_flat, !length_le_bytes, H8, H4, Hl. done.
  - unfold boot_info_bytes. repeat (apply Forall_app_2; [try apply bytes_le_bytes; try apply bytes_flat|]);
      try apply bytes_le_bytes; done.
Qed.

Lemma device_window dev :
  dev_slot dev < SLOT_COUNT → device_frame (align_down (dev_base dev)) ∧ align_down (dev_base dev) < N.shiftl 1 48.
Proof.
  intros Hs. unfold SLOT_COUNT in Hs. rewrite align_down_eq.
  - unfold device_frame, dev_base, VIRTIO_MMIO_BASE, SLOT_STRIDE. div_lia.
  - unfold dev_base, VIRTIO_MMIO_BASE, SLOT_STRIDE, u64_max. lia.
Qed.

Section build.
Context `{HL : HeapLaws} `{SS : SignatureScheme} (demo_key : SigningKey).

Lemma request_keeps sp0 request info : bytes request → keeps (held sp0) (map_request request info).
Proof.
  intros Hb. unfold map_request. apply keeps_bind_Ok; [by apply region_keeps|].
  intros sp request_phys sp1 Hh Hr Hh1. pose proof (region_Ok sp0 MARSHAL_REQUEST_VA MARSHAL_BUFFER_PAGES _ _ _ ltac:(done) Hh Hr) as Hblk.
  assert (keeps (held sp0) (map_contiguous_region MARSHAL_RESPONSE_VA MARSHAL_BUFFER_PAGES)) as Hk by by apply region_keeps.
  pose proof (Hk sp1 Hh1) as Hh2. unfold mbind at 1, SE_bind at 1.
  pose proof (keeps_from sp0 sp1 (map_contiguous_region MARSHAL_RESPONSE_VA MARSHAL_BUFFER_PAGES)
    (λ sp0, region_keeps sp0 _ MARSHAL_BUFFER_PAGES ltac:(done)) Hh1) as Hf.
  destruct (map_contiguous_region MARSHAL_RESPONSE_VA MARSHAL_BUFFER_PAGES sp1) as [[r|e] [s2 p2]] eqn:Hrun; [|done].
  cbn [snd] in *. unfold mbind, SE_bind, modify. cbn [snd with_phys mret SE_ret fst].
  apply copy_frames_held; [done| |by apply Forall_take].
  destruct Hf as [_ E]. by apply (ext_blocks _ _ E).
Qed.

Lemma request_info sp request info info' r sp' :
  map_request request info sp = (Ok (info', r), sp') →
  rx_buffer_phys info' = rx_buffer_phys info ∧ tx_buffer_phys info' = tx_buffer_phys info ∧ remote_ip info' = remote_ip info ∧
  request_len info' = N.min (len request) MARSHAL_BUFFER_CAPACITY ∧ mmio_base info' = mmio_base info ∧
  rx_queue_phys info' = rx_queue_phys info ∧ tx_queue_phys info' = tx_queue_phys info.
Proof.
  unfold map_request. intros (a & sp1 & _ & (b & sp2 & _ & (c & sp3 & _ & [= <- _ _])%bind_SE_Ok)%bind_SE_Ok)%bind_SE_Ok. done.
Qed.

Lemma build_keeps sp0 dev info request now ticks :
  dev_slot dev < SLOT_COUNT → info_ok info → (∀ b, request = Some b → bytes b) →
  keeps (held sp0) (build_net_boot_info demo_key dev info request now ticks).
Proof.
  intros Hdev Hinfo Hreq. destruct (device_window dev Hdev) as [Hd Hd48]. unfold build_net_boot_info.
  apply keeps_bind; [|intros _].
  { apply keeps_bind; [apply of_result_keeps|intros _]. apply with_err_keeps. intros [s p] Hh. apply map_mmio_keeps; [done|by left|done]. }
  apply keeps_bind; [|intros _].
  { apply keeps_for_each. intros i u _. apply keeps_bind; [apply net_page_keeps|intros; apply keeps_ret]. }
  apply keeps_bind_Ok; [apply net_page_keeps|]. intros sp1 info_page sp2 Hh1 Hinfop Hh2.
  pose proof (net_page_Ok sp0 _ _ _ _ Hh1 Hinfop) as Hpage.
  assert (held sp2 sp2) as Hself by (destruct sp2, Hh2 as [[t Hi] _]; by eapply held_refl).
  pose (P := λ sp, held sp0 sp ∧ held sp2 sp). refine (proj1 (_ : P _)).
  assert (∀ A (m : SE Proc string A), (∀ sp0, keeps (held sp0) m) → keeps P m) as Hboth.
  { intros A m Hm sp [Ha Hb]. split; by apply Hm. }
  match goal with |- P (?m sp2).2 => enough (keeps P m) as Hrest by (by apply Hrest) end.
  apply keeps_bind; [apply Hboth; intros; by apply region_keeps|intros rx_queue].
  apply keeps_bind; [apply Hboth; intros; by apply region_keeps|intros tx_queue].
  apply keeps_bind_Ok; [apply Hboth; intros; apply buffers_keeps|].
  intros sp3 rx sp4 _ Hrx HP4. apply map_buffers_length in Hrx.
  match goal with |- P (?m sp4).2 => enough (keeps P m) as Hrest by (by apply Hrest) end.
  apply keeps_bind_Ok; [apply Hboth; intros; apply buffers_keeps|].
  intros sp5 tx sp6 _ Htx HP6. apply map_buffers_length in Htx.
  set (info1 := mkNetBootInfo _ _ _ _ _ _ _ _ _ _).
  match goal with |- P (?m sp6).2 => enough (keeps P m) as Hrest by (by apply Hrest) end.
  apply keeps_bind_Ok.
  { destruct request as [b|]; [|intros sp Hsp; exact Hsp].
    apply keeps_bind; [apply Hboth; intros; apply request_keeps; by apply Hreq|intros []; apply keeps_ret]. }
  intros sp7 [info2 resp] sp8 _ Hrq [Ha Hb].
  assert (info_ok info2 ∧ length (rx_buffer_phys info2) = 8%nat ∧ length (tx_buffer_phys info2) = 4%nat) as (Hok & H8 & H4).
  { destruct request as [b|].
    - apply bind_SE_Ok in Hrq as ([i2 r] & sp9 & Hrq & [= <- _ _]).
      apply request_info in Hrq as (E1 & E2 & E3 & _). unfold info_ok. by rewrite E1, E2, E3.
    - injection Hrq as <- _ _. done. }
  destruct (boot_info_fits info2 Hok H8 H4) as [Hlen Hbytes].
  assert (info_page ∈ owned_pages sp8.1) as Hpage8 by (destruct Hb as [_ E]; by apply (ext_pages _ _ E)).
  split; apply page_write_held; try done; rewrite Hlen; done.
Qed.

Lemma build_and_load_keeps sp0 elf dev info request now ticks :
  bytes (elf_bytes elf) → dev_slot dev < SLOT_COUNT → info_ok info → (∀ b, request = Some b → bytes b) →
  keeps (held sp0) (build_and_load demo_key elf dev info request now ticks).
Proof.
  intros Hb Hdev Hinfo Hreq. unfold build_and_load. apply keeps_bind; [by apply build_keeps|intros r].
  apply keeps_bind; [by apply with_err_keeps, load_held|intros l; apply keeps_ret].
Qed.
Lemma hooked_inv s p t hook arg : space_inv s p t → space_inv (set_pre_free_hook hook arg s) p t.
Proof. intros [H1 H2 H3 H4 H5 H6 H7 [L1 L2 L3 L4 L5] H9 H10]. by split. Qed.

Definition is_free (e : Event) : Prop := ∃ a n, e = Freed a n.

(** What [setup] leaves when it succeeds. *)
Record built (s : AddressSpace) (dev : NetDevice) (p p' : Phys) : Prop := {
  built_inv : ∃ t, space_inv s p' t;
  built_fresh : footprint s ##ₘ live p;
  built_live : live p' = footprint s ∪ live p;
  built_inactive : root s ≠ active_root p';
  built_seed : seeded_root s = active_root p;
  built_hook : pre_free_hook s = Some (ResetVirtioDevice, dev_base dev);
  built_kernel i : i < 512 → i ≠ 2 → read_entry (mem p') (root s) i = read_entry (mem p) (active_root p) i;
  built_trace : trace p' = trace p;
}.

(** A failed [setup] leaves no trace in the heap: either it stopped before there was
    a space, or the space was destroyed, the device reset and the TLB invalidated
    before the first frame was freed. *)
Definition unwound (dev : NetDevice) (p p' : Phys) : Prop :=
  heap_ok (heap p') ∧ mem_ok (mem p') ∧ live p' = live p ∧
  (trace p' = trace p ∨
   ∃ frees, trace p' = trace p ++ HookRan ResetVirtioDevice (dev_base dev) :: TlbInvalidated :: frees ∧ Forall is_free frees).

Lemma unwound_refl dev p : seedable p → unwound dev p p.
Proof. intros Hs. split_and!; [apply Hs|apply Hs|done|by left]. Qed.

Lemma setup_outcome image dev info request now ticks p r p' :
  seedable p → bytes image → len image ≤ u64_max → dev_slot dev < SLOT_COUNT → info_ok info →
  (∀ b, request = Some b → bytes b) →
  setup demo_key true image dev info request now ticks p = (r, p') →
  (∀ a, kept_frame p a → page_at (mem p') a = page_at (mem p) a) ∧ ttbr0 p' = ttbr0 p ∧
  match r with Ok (s, _, _) => built s dev p p' | Err _ => unwound dev p p' end.
Proof.
  intros Hs Hb Hlen Hdev Hinfo Hreq. pose proof (seed_heap _ Hs) as Hh. unfold setup.
  destruct (check_net_mode _ _) as [[]|e]; [|intros [= <- <-]; split_and!; [done|done|by apply unwound_refl]].
  destruct (parse image) as [elf|e] eqn:Hp; [|intros [= <- <-]; split_and!; [done|done|by apply unwound_refl]].
  destruct (parse_Ok image elf Hlen Hp) as (_ & Heb & _). rewrite <-Heb in Hb.
  destruct (space_new p) as [[s0|e] p1] eqn:Hn;
    [|apply space_new_Err in Hn as ->; intros [= <- <-]; split_and!; [done|done|by apply unwound_refl]].
  destruct (space_new_Ok p s0 p1 Hs Hn) as (Hi1 & Hf1 & Hfree & Hl1 & Hmem1 & Hroot1 & Hne1 & _ & Ht1 & Htr1 & Es1).
  set (s1 := set_pre_free_hook ResetVirtioDevice (dev_base dev) s0).
  pose proof (hooked_inv s0 p1 _ ResetVirtioDevice (dev_base dev) Hi1) as Hi1'. fold s1 in Hi1'.
  pose proof (build_and_load_keeps (s1, p1) elf dev info request now ticks Hb Hdev Hinfo Hreq (s1, p1)
    (held_refl s1 p1 _ Hi1')) as [[t2 Hi2] E].
  destruct (build_and_load demo_key elf dev info request now ticks (s1, p1)) as [res [s2 p2]] eqn:Hbl. cbn [snd fst] in *.
  pose proof (ext_root _ _ E) as Er. pose proof (ext_seeded _ _ E) as Ese. pose proof (ext_hook _ _ E) as Eh.
  pose proof (ext_ttbr0 _ _ E) as Et. pose proof (ext_trace _ _ E) as Etr. cbn [fst snd] in *.
  destruct (new_space_extends_live p s1 p1 s2 p2 Hfree Hf1 Hl1 E) as (Hrest & Hdis & Hlive).
  assert (∀ a, kept_frame p a → page_at (mem p2) a = page_at (mem p) a) as Hkept.
  { intros a Hk. pose proof (footprint_live s2 p2 (inv_ledger _ _ _ Hi2)) as Hsub.
    assert (¬ in_extents (footprint s2) a) as Hna.
    { destruct Hk as [Hk|Hk]; [eapply static_apart; [apply Hi2|done|done]|].
      eapply (extents_apart p2 (live p)); [apply Hi2| |done|done|done]. rewrite Hlive. by apply map_union_subseteq_r. }
    pose proof (ext_mem _ _ E a Hna) as Hm. cbn in Hm. rewrite Hm.
    - apply Hmem1. intros ->. apply Hna. exists (root s0), GRANULE_4KIB. split; [|granules; lia].
      eapply lookup_weaken; [|apply (ext_footprint _ _ E)]. cbn. unfold s1.
      change (footprint (set_pre_free_hook _ _ s0)) with (footprint s0). rewrite Hf1. apply lookup_singleton_eq.
    - eapply kept_frame_mono; [|done]. rewrite Hl1. by apply insert_subseteq. }
  assert (root s2 ≠ active_root p2) as Hinact by (unfold active_root; rewrite Et, Ht1, Er; done).
  destruct res as [[response loaded]|reason]; intros [= <- <-].
  - split_and!; [done|congruence|]. split; try done.
    + by exists t2.
    + rewrite Ese. unfold s1. cbn. rewrite Es1. done.
    + intros i Hi Hni. rewrite Er. etrans; [apply (ext_kernel _ _ E i Hi Hni)|].
      change (root (s1, p1).1) with (root s0). unfold read_entry. cbn [snd]. by rewrite Hroot1.
    + congruence.
  - destruct (destroy_Ok s2 p2 (inv_heap _ _ _ Hi2) (inv_ledger _ _ _ Hi2) Hinact)
      as (plan & rec & p3 & Hd & Hplan & Hh3 & Hlive3 & Hm3 & Ht3 & Htr3 & _). rewrite Hd. cbn [snd].
    split_and!; [intros a Hk; rewrite Hm3; by apply Hkept|congruence|]. split_and!; [done|rewrite Hm3; apply Hi2|by rewrite Hlive3|].
    right. exists ((λ e, Freed (ext_addr e) (ext_bytes e)) <$> plan). split.
    + rewrite Htr3, Etr, Htr1. unfold hook_events. by rewrite Eh.
    + apply Forall_fmap, Forall_forall. intros e _. by eexists _, _.
Qed.


(** ** The device window *)

Lemma slot_token_refuses slot other now ticks len now' :
  slot < SLOT_COUNT → other ≠ slot → 0 < len →
  check_mmio_window demo_key (issue_mmio_token demo_key (virtio_mmio_slot_resource slot) now ticks)
    (VIRTIO_MMIO_BASE + other * SLOT_STRIDE) len now' ≠ Ok ().
Proof.
  intros Hs Ho Hl Hok. unfold SLOT_COUNT in Hs.
  unfold check_mmio_window in Hok. apply Result_bind_Ok in Hok as ([] & _ & Hc).
  change (tok_resource _) with (mmio_window_resource (VIRTIO_MMIO_BASE + slot * VIRTIO_MMIO_SLOT_STRIDE) VIRTIO_MMIO_SLOT_STRIDE) in Hc.
  rewrite parse_mmio_roundtrip_aux in Hc by (unfold VIRTIO_MMIO_BASE, VIRTIO_MMIO_SLOT_STRIDE, usize_max, u64_max; lia).
  destruct (mmio_window_contains _ _ _ _) eqn:E; [|done]. apply mmio_contains_spec in E.
  unfold VIRTIO_MMIO_BASE, VIRTIO_MMIO_SLOT_STRIDE, SLOT_STRIDE in E. lia.
Qed.

(** The mapping is wider than the grant.  The token and its check name one virtio
    slot of 512 bytes, but a page is the least that can be mapped: once the device
    is granted, EL0 can write the registers of every slot in the same page, and the
    very token that authorised the mapping refuses each of them. *)
Theorem device_page_overgrant dev other s p t now ticks s' p' :
  let token := issue_mmio_token demo_key (virtio_mmio_slot_resource (dev_slot dev)) now ticks in
  let register := VIRTIO_MMIO_BASE + other * SLOT_STRIDE in
  space_inv s p t → dev_slot dev < SLOT_COUNT → other ≠ dev_slot dev → other / 8 = dev_slot dev / 8 →
  grant_device demo_key dev token now (s, p) = (Ok (), (s', p')) →
  (∃ d, walk (mem p') (root s') (NET_MMIO_VA + register mod GRANULE_4KIB) = Some (register, d) ∧ el0_writable d = true) ∧
  check_mmio_window demo_key token register SLOT_STRIDE now ≠ Ok ().
Proof.
  intros token register Hi Hs Ho Hg Hgr. split; [|by apply slot_token_refuses].
  apply bind_SE_Ok in Hgr as ([] & sp1 & H1 & H2).
  assert (sp1 = (s, p)) as ->. { unfold of_result in H1. by destruct (check_mmio_window _ _ _ _ _); injection H1. }
  unfold with_err in H2. destruct (map_mmio_page _ _ _ _) as [[[]|e] sp'] eqn:Hm; [|done]. injection H2 as ->.
  destruct (device_window dev Hs) as [Hd Hlt].
  destruct (map_mmio_page_Ok s p t _ _ _ _ Hi (or_introl Hd) Hlt Hm) as (_ & t' & Hi' & _ & Hp & _). cbn [fst snd] in *.
  assert (register mod GRANULE_4KIB < GRANULE_4KIB) as Hoff by by apply N.mod_lt.
  set (off := register mod GRANULE_4KIB) in *.
  assert (NET_MMIO_VA mod GRANULE_4KIB = 0) as Hz by done.
  assert ((NET_MMIO_VA + off) mod GRANULE_4KIB = off) as Emod by (clear -Hoff Hz; div_lia).
  assert (align_down (dev_base dev) + off = register) as Ereg.
  { rewrite align_down_eq by (unfold dev_base, VIRTIO_MMIO_BASE, SLOT_STRIDE, SLOT_COUNT, u64_max in *; lia).
    unfold off, register, dev_base, VIRTIO_MMIO_BASE, SLOT_STRIDE in *. clear -Hg. div_lia. }
  rewrite (walk_tree s' p' t' _ Hi') by (unfold NET_MMIO_VA; granules; lia).
  rewrite Emod. replace (NET_MMIO_VA + off - off) with NET_MMIO_VA by lia. rewrite Hp, lookup_insert_eq.
  cbn [fmap option_fmap option_map fst snd]. rewrite Ereg. eexists. split; [done|].
  assert (t_page t' !! NET_MMIO_VA = Some (align_down (dev_base dev), N.lor AP_EL0_RW (N.lor UXN PXN))) as Hx
    by by rewrite Hp, lookup_insert_eq.
  apply (tree_pages _ _ _ (inv_tree _ _ _ Hi')) in Hx as (_ & _ & Hf & _).
  unfold el0_writable. by rewrite !page_desc_bit.
Qed.
End build.
