(* ===== verification/ArmSched.v ===== *)
(** * ArmSched: the cooperative scheduler of the ARM kernel

    Model of [kernel-arm/src/scheduler.rs]: threads with heap stacks and optional
    address spaces, the round-robin run queue, the register save area of
    [switch_to], exit, and the reaping of exited threads.  A saved context is kept
    by the address [switch_to] stores it at; the other bytes of a thread's stack are
    not tracked.  [reserved] answers the [try_reserve] calls. *)

From S2P Require Import Prelude Bytes Sorting ArmVm ArmReclaim ArmSpace ArmSpaceSpec ArmWorld.

Local Open Scope N_scope.

Definition THREAD_STACK_SIZE : N := 4096 * 2.
Definition STACK_ALIGN : N := 16.
Definition CONTEXT_SIZE : N := 160.

(** The callee-saved registers: [x19]-[x29], [x30], [d8]-[d15]. *)
Record Context := mkContext { ctx_x : list N; ctx_x30 : N; ctx_d : list N }.

Inductive SpawnError :=
  | NotInitialized
  | SpawnOutOfMemory
  | AddressSpaceNotSeededFromKernel (seeded kernel : N).

Record Thread := mkThread {
  stack_base : N;
  stack_pointer : N;
  address_space : option AddressSpace;
  exiting : bool;
}.

Definition placeholder : Thread := mkThread 0 0 None false.

Record Scheduler := mkScheduler {
  run_queue : list Thread;
  current : option Thread;
  zombies : list Thread;
}.

Section sched.
Context `{Heap}.

Record Kernel := mkKernel {
  k_phys : Phys;
  k_sp : N;
  k_regs : Context;
  k_saved : gmap N Context;
  k_sched : option Scheduler;
  k_root : N;
  k_switches : N;
  k_skips : N;
  k_reaped : N;
  k_reclaimed : N;
}.

Definition with_kphys (p : Phys) (k : Kernel) : Kernel :=
  mkKernel p (k_sp k) (k_regs k) (k_saved k) (k_sched k) (k_root k) (k_switches k) (k_skips k) (k_reaped k) (k_reclaimed k).
Definition with_sched (s : option Scheduler) (k : Kernel) : Kernel :=
  mkKernel (k_phys k) (k_sp k) (k_regs k) (k_saved k) s (k_root k) (k_switches k) (k_skips k) (k_reaped k) (k_reclaimed k).
Definition with_cpu (sp : N) (regs : Context) (k : Kernel) : Kernel :=
  mkKernel (k_phys k) sp regs (k_saved k) (k_sched k) (k_root k) (k_switches k) (k_skips k) (k_reaped k) (k_reclaimed k).
Definition with_saved (saved : gmap N Context) (k : Kernel) : Kernel :=
  mkKernel (k_phys k) (k_sp k) (k_regs k) saved (k_sched k) (k_root k) (k_switches k) (k_skips k) (k_reaped k) (k_reclaimed k).

(** ** Creation *)

Definition init (k : Kernel) : Kernel :=
  mkKernel (k_phys k) (k_sp k) (k_regs k) (k_saved k) (Some (mkScheduler [] (Some placeholder) []))
    (active_root (k_phys k)) (k_switches k) (k_skips k) (k_reaped k) (k_reclaimed k).

Definition thread_new (entry : N) (k : Kernel) : Result SpawnError Thread * Kernel :=
  match heap_alloc (heap (k_phys k)) THREAD_STACK_SIZE STACK_ALIGN with
  | None => (Err SpawnOutOfMemory, k)
  | Some (base, h) =>
      let top := base + THREAD_STACK_SIZE in
      let context_ptr := top - CONTEXT_SIZE in
      let context := mkContext (replicate 11 0) entry (replicate 8 0) in
      let k := with_kphys (set_heap h (k_phys k)) k in
      (Ok (mkThread base context_ptr None false), with_saved (<[context_ptr := context]> (k_saved k)) k)
  end.

Definition enqueue (t : Thread) (k : Kernel) : Result SpawnError () * Kernel :=
  match k_sched k with
  | None => (Err NotInitialized, k)
  | Some s => (Ok (), with_sched (Some (mkScheduler (run_queue s ++ [t]) (current s) (zombies s))) k)
  end.

Definition spawn (entry : N) (k : Kernel) : Result SpawnError () * Kernel :=
  match thread_new entry k with
  | (Err e, k) => (Err e, k)
  | (Ok t, k) => enqueue t k
  end.

Definition discard_space (reserved : bool) (s : AddressSpace) (k : Kernel) : Kernel :=
  with_kphys (destroy reserved s (k_phys k)).2 k.

Definition spawn_with_address_space (reserved : bool) (entry : N) (space : AddressSpace) (k : Kernel) :
    Result SpawnError () * Kernel :=
  if decide (k_root k = 0) then (Err NotInitialized, discard_space reserved space k) else
  if decide (seeded_root space ≠ k_root k) then
    (Err (AddressSpaceNotSeededFromKernel (seeded_root space) (k_root k)), discard_space reserved space k) else
  match thread_new entry k with
  | (Err e, k) => (Err e, discard_space reserved space k)
  | (Ok t, k) => enqueue (mkThread (stack_base t) (stack_pointer t) (Some space) (exiting t)) k
  end.

(** ** Switching *)

Definition thread_root (k : Kernel) (t : Thread) : N :=
  match address_space t with Some s => root s | None => k_root k end.

Definition set_sp (sp : N) (t : Thread) : Thread := mkThread (stack_base t) sp (address_space t) (exiting t).

(** [switch_to(current_sp_ptr, next_sp)]: [None] when nothing was ever saved at
    [next_sp], where the processor would load garbage. *)
Definition switch_to (next_sp : N) (k : Kernel) : option (N * Kernel) :=
  let here := k_sp k - CONTEXT_SIZE in
  let saved := <[here := k_regs k]> (k_saved k) in
  regs ← saved !! next_sp;
  Some (here, with_cpu (next_sp + CONTEXT_SIZE) regs (with_saved saved k)).

Definition install_root (next_root : N) (k : Kernel) : Kernel :=
  if decide (next_root ≠ 0 ∧ active_root (k_phys k) ≠ next_root) then
    mkKernel (load_root next_root (k_phys k)) (k_sp k) (k_regs k) (k_saved k) (k_sched k) (k_root k)
      (k_switches k + 1) (k_skips k) (k_reaped k) (k_reclaimed k)
  else
    mkKernel (k_phys k) (k_sp k) (k_regs k) (k_saved k) (k_sched k) (k_root k)
      (k_switches k) (k_skips k + 1) (k_reaped k) (k_reclaimed k).

(** [yield_now], up to where the next thread continues. *)
Definition yield_now (reserved : bool) (k : Kernel) : option Kernel :=
  match k_sched k with
  | None => Some k
  | Some s =>
      match run_queue s with
      | [] => Some k
      | next :: rest =>
          match current s with
          | None => Some k
          | Some cur =>
              let k := install_root (thread_root k next) k in
              '(sp, k) ← switch_to (stack_pointer next) k;
              let cur := set_sp sp cur in
              Some (with_sched (Some
                (if exiting cur && reserved then mkScheduler rest (Some next) (zombies s ++ [cur])
                 else mkScheduler (rest ++ [cur]) (Some next) (zombies s))) k)
          end
      end
  end.

(** The first half of [exit_current]; what follows is [yield_now] for ever. *)
Definition mark_exiting (k : Kernel) : Kernel :=
  match k_sched k with
  | Some s =>
      match current s with
      | Some cur =>
          if decide (stack_base cur ≠ 0) then
            with_sched (Some (mkScheduler (run_queue s)
              (Some (mkThread (stack_base cur) (stack_pointer cur) (address_space cur) true)) (zombies s))) k
          else k
      | None => k
      end
  | None => k
  end.

(** ** Reaping *)

Definition space_is_live (t : Thread) (p : Phys) : bool :=
  match address_space t with Some s => is_live s p | None => false end.

(** [Thread::reclaim]; [None] hands the thread back. *)
Definition reclaim (reserved : bool) (sp : N) (t : Thread) (p : Phys) : option (N * Phys) :=
  let lo := stack_base t in
  let hi := N.min (lo + THREAD_STACK_SIZE) u64_max in
  if decide (stack_base t = 0 ∨ lo ≤ sp < hi) then None else
  if space_is_live t p then None else
  let '(bytes, p) :=
    match address_space t with
    | Some s => match destroy reserved s p with
                | (Ok r, p) => (THREAD_STACK_SIZE + rec_bytes r, p)
                | (Err _, p) => (THREAD_STACK_SIZE, p)
                end
    | None => (THREAD_STACK_SIZE, p)
    end in
  Some (bytes, set_heap (heap_dealloc (heap p) (stack_base t) THREAD_STACK_SIZE) p).

Record Reap := mkReap { reap_count : N; reap_bytes : N; reap_kept : list Thread; reap_phys : Phys }.

Definition reap_one (reserved : N → bool) (sp : N) (acc : Reap) (t : Thread) : Reap :=
  match reclaim (reserved (stack_base t)) sp t (reap_phys acc) with
  | Some (bytes, p) => mkReap (reap_count acc + 1) (reap_bytes acc + bytes) (reap_kept acc) p
  | None => mkReap (reap_count acc) (reap_bytes acc) (reap_kept acc ++ [t]) (reap_phys acc)
  end.

Definition reap_exited (reserved : N → bool) (k : Kernel) : N * Kernel :=
  match k_sched k with
  | None => (0, k)
  | Some s =>
      let r := foldl (reap_one reserved (k_sp k)) (mkReap 0 0 [] (k_phys k)) (zombies s) in
      (reap_count r,
       mkKernel (reap_phys r) (k_sp k) (k_regs k) (k_saved k)
         (Some (mkScheduler (run_queue s) (current s) (reap_kept r))) (k_root k)
         (k_switches k) (k_skips k) (k_reaped k + reap_count r) (k_reclaimed k + reap_bytes r))
  end.
End sched.
