(* ===== verification/ArmSchedSpec.v ===== *)
(** * ArmSchedSpec: the scheduler's invariant

    Every block the allocator has handed out is either of the initial heap or held
    by exactly one thread, as its stack or in its address space; suspended threads
    keep their registers inside their own stacks; the translation root in force is
    the running thread's.  [sched_inv] says so and every operation keeps it. *)

From S2P Require Import Prelude Bytes Sorting StateErr ArmVm ArmMmu ArmElf ArmReclaim ArmLoader ArmSpace ArmSpaceSpec ArmSpaceOps ArmWorld ArmProcess ArmNet ArmNetSpec ArmSched.

Local Open Scope N_scope.

(** ** Pairwise disjoint maps *)

Fixpoint disjoint_all (l : list (gmap N N)) : Prop :=
  match l with
  | [] => True
  | m :: l => Forall (map_disjoint m) l ∧ disjoint_all l
  end.

#[global] Instance disjoint_all_perm : Proper ((≡ₚ) ==> iff) disjoint_all.
Proof.
  assert (∀ l k, l ≡ₚ k → disjoint_all l → disjoint_all k) as Himp.
  { induction 1 as [|m l k Hp IH|m n l|l1 l2 l3 _ IH1 _ IH2]; cbn; [done| | |auto].
    - intros [HF Hd]. split; [by rewrite <-Hp|auto].
    - rewrite !Forall_cons. intros [[H1 H2] [H3 H4]]. by split_and!. }
  intros l k Hp. split; apply Himp; [done|by symmetry].
Qed.

Definition union_all (l : list (gmap N N)) : gmap N N := foldr (∪) ∅ l.

Lemma union_all_disjoint m l : Forall (map_disjoint m) l ↔ m ##ₘ union_all l.
Proof.
  induction l as [|n l IH]; cbn; [split; [intros; apply map_disjoint_empty_r|constructor]|].
  rewrite Forall_cons, IH, map_disjoint_union_r. done.
Qed.

Lemma union_all_perm l k : disjoint_all l → l ≡ₚ k → union_all l = union_all k.
Proof.
  intros Hd Hp. unfold union_all. revert Hd. induction Hp as [|m l k Hp IH|m n l|l1 l2 l3 H1 IH1 H2 IH2]; cbn; [done| | |].
  - intros [_ Hd]. by rewrite IH.
  - rewrite Forall_cons. intros [[Hmn _] _]. rewrite !(assoc_L (∪)). f_equal. by apply map_union_comm.
  - intros Hd. rewrite IH1 by done. apply IH2. by rewrite <-H1.
Qed.

Lemma disjoint_all_lookup l i j m n :
  disjoint_all l → l !! i = Some m → l !! j = Some n → i ≠ j → m ##ₘ n.
Proof.
  revert i j. induction l as [|x l IH]; intros i j Hd Hi Hj Hne; [done|]. destruct Hd as [HF Hd].
  rewrite Forall_forall in HF. destruct i as [|i], j as [|j]; simplify_eq/=.
  - apply HF. by eapply list_elem_of_lookup_2.
  - symmetry. apply HF. by eapply list_elem_of_lookup_2.
  - eapply (IH i j); auto.
Qed.

Lemma union_all_sub m l : disjoint_all l → m ∈ l → m ⊆ union_all l.
Proof.
  induction l as [|x l IH]; cbn; [by intros _ ?%not_elem_of_nil|].
  intros [HF Hd] [->|Hin]%elem_of_cons; [apply map_union_subseteq_l|].
  etrans; [by apply IH|]. apply map_union_subseteq_r. by apply union_all_disjoint.
Qed.

Lemma union_all_app l k : union_all (l ++ k) = union_all l ∪ union_all k.
Proof.
  induction l as [|m l IH]; cbn [app]; [symmetry; apply (left_id_L ∅ (∪))|].
  change (union_all (m :: l ++ k)) with (m ∪ union_all (l ++ k)). rewrite IH. apply (assoc_L (∪)).
Qed.

Lemma disjoint_all_split l k : disjoint_all (l ++ k) → disjoint_all l ∧ disjoint_all (union_all l :: k).
Proof.
  induction l as [|m l IH]; cbn [app].
  - intros Hd. split; [done|]. split; [|done]. apply union_all_disjoint, map_disjoint_empty_l.
  - intros [HF Hd]. apply Forall_app in HF as [HF1 HF2]. destruct (IH Hd) as [Hl [Hu Hk]].
    split; [by split|]. split; [|done]. apply union_all_disjoint. change (union_all (m :: l)) with (m ∪ union_all l).
    apply map_disjoint_union_l. split; by apply union_all_disjoint.
Qed.

(** ** What a thread holds *)

Definition stack_claim (t : Thread) : gmap N N :=
  if decide (stack_base t = 0) then ∅ else {[stack_base t := THREAD_STACK_SIZE]}.
Definition space_claim (t : Thread) : gmap N N :=
  match address_space t with Some s => footprint s | None => ∅ end.
Definition claims (t : Thread) : gmap N N := stack_claim t ∪ space_claim t.

Definition threads (s : Scheduler) : list Thread := option_list (current s) ++ run_queue s ++ zombies s.

(** Where a thread may keep its registers: at [sp], below its stack's top; the boot
    thread's stack is the kernel image's own. *)
Definition context_place (base sp : N) : Prop :=
  if decide (base = 0) then sp + CONTEXT_SIZE ≤ HEAP_START
  else base ≤ sp ∧ sp + CONTEXT_SIZE ≤ base + THREAD_STACK_SIZE.

(** The running thread has room for one more context below its stack pointer. *)
Definition on_stack (t : Thread) (sp : N) : Prop := CONTEXT_SIZE ≤ sp ∧ context_place (stack_base t) (sp - CONTEXT_SIZE).

Section inv.
Context `{HL : HeapLaws}.

Record space_of_thread (k : Kernel) (s : AddressSpace) : Prop := {
  st_inv : ∃ tr, space_inv s (k_phys k) tr;
  st_seed : seeded_root s = k_root k;
  st_kernel i : i < 512 → i ≠ 2 → read_entry (mem (k_phys k)) (root s) i = read_entry (mem (k_phys k)) (k_root k) i;
}.

Record kernel_ok (k : Kernel) : Prop := {
  ko_mem : mem_ok (mem (k_phys k));
  ko_heap : heap_ok (heap (k_phys k));
  ko_root : k_root k ≠ 0 ∧ frame_addr (k_root k) ∧ static_frame (k_root k);
  ko_slot : read_entry (mem (k_phys k)) (k_root k) 2 = 0;
  ko_static : kernel_static (mem (k_phys k)) (k_root k);
}.

Record sched_inv (base : gmap N N) (k : Kernel) (s : Scheduler) (cur : Thread) : Prop := {
  si_sched : k_sched k = Some s;
  si_current : current s = Some cur;
  si_kernel : kernel_ok k;
  si_spaces t sp : t ∈ threads s → address_space t = Some sp → space_of_thread k sp;
  si_claims : disjoint_all (base :: (claims <$> threads s));
  si_live : live (k_phys k) = base ∪ union_all (claims <$> threads s);
  si_own t sp : t ∈ threads s → address_space t = Some sp → stack_claim t ##ₘ footprint sp;
  si_ids : NoDup (stack_base <$> threads s);
  si_saved t : t ∈ run_queue s ++ zombies s → context_place (stack_base t) (stack_pointer t) ∧ is_Some (k_saved k !! stack_pointer t);
  si_running : on_stack cur (k_sp k);
  si_active : active_root (k_phys k) = thread_root k cur;
  si_exiting t : t ∈ threads s → exiting t = true → stack_base t ≠ 0;
  si_zombies t : t ∈ zombies s → exiting t = true;
}.

Lemma thread_claims_live base k s cur t : sched_inv base k s cur → t ∈ threads s → claims t ⊆ live (k_phys k).
Proof.
  intros I Ht. rewrite (si_live _ _ _ _ I). pose proof (si_claims _ _ _ _ I) as [HF Hd].
  etrans; [|apply map_union_subseteq_r; by apply union_all_disjoint].
  apply union_all_sub; [done|]. by apply list_elem_of_fmap_2.
Qed.

Lemma stack_live base k s cur t :
  sched_inv base k s cur → t ∈ threads s → stack_base t ≠ 0 → live (k_phys k) !! stack_base t = Some THREAD_STACK_SIZE.
Proof.
  intros I Ht Hb. eapply lookup_weaken; [|by eapply thread_claims_live].
  unfold claims, stack_claim. rewrite decide_False by done. rewrite lookup_union, lookup_singleton_eq.
  by destruct (space_claim t !! stack_base t).
Qed.

(** Contexts of different threads do not overlap. *)
Lemma contexts_apart base k s cur t u sp sp' :
  sched_inv base k s cur → t ∈ threads s → u ∈ threads s → stack_base t ≠ stack_base u →
  context_place (stack_base t) sp → context_place (stack_base u) sp' →
  sp + CONTEXT_SIZE ≤ sp' ∨ sp' + CONTEXT_SIZE ≤ sp.
Proof.
  intros I Ht Hu Hne. pose proof (heap_extents _ (ko_heap _ (si_kernel _ _ _ _ I))) as Hx.
  pose proof (λ v Hv Hv0, Hx _ _ (stack_live base k s cur v I Hv Hv0)) as Hlive. unfold context_place.
  destruct (decide (stack_base t = 0)) as [Et|Et], (decide (stack_base u = 0)) as [Eu|Eu]; intros H1 H2; [congruence| | |].
  - destruct (Hlive u Hu Eu) as (Hlo & _). lia.
  - destruct (Hlive t Ht Et) as (Hlo & _). lia.
  - destruct (Hlive t Ht Et) as (_ & _ & _ & Hdis).
    destruct (Hdis _ _ (stack_live base k s cur u I Hu Eu) Hne); lia.
Qed.
(** ** Yielding *)

Lemma install_root_phys r k :
  mem (k_phys (install_root r k)) = mem (k_phys k) ∧ heap (k_phys (install_root r k)) = heap (k_phys k) ∧
  (r ≠ 0 → frame_addr r → active_root (k_phys (install_root r k)) = r) ∧
  k_sp (install_root r k) = k_sp k ∧ k_regs (install_root r k) = k_regs k ∧
  k_saved (install_root r k) = k_saved k ∧ k_root (install_root r k) = k_root k.
Proof.
  unfold install_root. case_decide as Hd; cbn; split_and!; try done.
  - intros _ Hf. unfold active_root, load_root, write_ttbr0. cbn. by rewrite !frame_mask by (rewrite ?frame_mask; done).
  - intros Hr _. destruct (decide (active_root (k_phys k) = r)); [done|tauto].
Qed.

Lemma space_root_frame s p tr : space_inv s p tr → root s ≠ 0 ∧ frame_addr (root s) ∧ ¬ static_frame (root s).
Proof.
  intros Hi. assert (owned s (root s)) as Ho by (eapply table_is_owned; [done|by left]).
  destruct (ledger_owned _ _ (inv_ledger _ _ _ Hi) _ Ho) as [Hl Hf].
  destruct (heap_extents _ (inv_heap _ _ _ Hi) _ _ Hl) as (Hlo & Hhi & _).
  unfold static_frame, HEAP_START, HEAP_SIZE in *. split_and!; [lia|done|]. granules. lia.
Qed.

Lemma thread_root_ok base k s cur t :
  sched_inv base k s cur → t ∈ threads s → thread_root k t ≠ 0 ∧ frame_addr (thread_root k t).
Proof.
  intros I Ht. unfold thread_root. destruct (address_space t) as [sp|] eqn:Hs.
  - destruct (st_inv _ _ (si_spaces _ _ _ _ I t sp Ht Hs)) as [tr Hi]. split; by eapply space_root_frame.
  - by destruct (ko_root _ (si_kernel _ _ _ _ I)) as (? & ? & _).
Qed.

Lemma space_of_thread_same k k' s :
  mem (k_phys k') = mem (k_phys k) → heap (k_phys k') = heap (k_phys k) → k_root k' = k_root k →
  space_of_thread k s → space_of_thread k' s.
Proof.
  intros Hm Hh Hr [[tr Hi] Hs Hk]. split; rewrite ?Hm, ?Hr; [|done|done].
  exists tr. apply (same_live_inv s (k_phys k) tr); [done|done|unfold live; by rewrite Hh|rewrite Hh; apply Hi].
Qed.

Lemma kernel_ok_same k k' :
  mem (k_phys k') = mem (k_phys k) → heap (k_phys k') = heap (k_phys k) → k_root k' = k_root k →
  kernel_ok k → kernel_ok k'.
Proof. intros Hm Hh Hr [H1 H2 H3 H4 H5]. split; rewrite ?Hm, ?Hh, ?Hr; done. Qed.

Definition yielded (reserved : bool) (k : Kernel) (s : Scheduler) (cur next : Thread) (rest : list Thread) : Scheduler :=
  let cur := set_sp (k_sp k - CONTEXT_SIZE) cur in
  if exiting cur && reserved then mkScheduler rest (Some next) (zombies s ++ [cur])
  else mkScheduler (rest ++ [cur]) (Some next) (zombies s).

Lemma yielded_threads reserved k s cur next rest :
  current s = Some cur → run_queue s = next :: rest →
  (run_queue (yielded reserved k s cur next rest) ++ zombies (yielded reserved k s cur next rest)) ≡ₚ
    set_sp (k_sp k - CONTEXT_SIZE) cur :: rest ++ zombies s ∧
  threads s = cur :: next :: rest ++ zombies s.
Proof.
  intros Hc Hq. split; [|unfold threads; by rewrite Hc, Hq]. unfold yielded. case_match; cbn.
  - rewrite (assoc_L (++)). symmetry. apply Permutation_cons_append.
  - rewrite <-(assoc_L (++)). cbn. by rewrite Permutation_middle.
Qed.

Lemma yielded_all reserved k s cur next rest :
  current s = Some cur → run_queue s = next :: rest →
  threads (yielded reserved k s cur next rest) ≡ₚ next :: set_sp (k_sp k - CONTEXT_SIZE) cur :: rest ++ zombies s.
Proof.
  intros Hc Hq. destruct (yielded_threads reserved k s cur next rest Hc Hq) as [Hp _].
  unfold threads. assert (current (yielded reserved k s cur next rest) = Some next) as ->.
  { unfold yielded. by case_match. }
  cbn. by rewrite Hp.
Qed.

Lemma set_sp_same sp t : claims (set_sp sp t) = claims t ∧ stack_base (set_sp sp t) = stack_base t.
Proof. done. Qed.

Lemma saved_apart base k s cur t :
  sched_inv base k s cur → t ∈ run_queue s ++ zombies s → stack_pointer t ≠ k_sp k - CONTEXT_SIZE.
Proof.
  intros I Ht Heq. pose proof (si_current _ _ _ _ I) as Hc.
  assert (threads s = cur :: run_queue s ++ zombies s) as Hth by (unfold threads; by rewrite Hc).
  pose proof (si_ids _ _ _ _ I) as Hids. rewrite Hth in Hids. cbn in Hids. apply NoDup_cons in Hids as [Hcid _].
  assert (stack_base cur ≠ stack_base t) as Hne.
  { intros Heq'. apply Hcid. rewrite Heq'. by apply list_elem_of_fmap_2. }
  destruct (si_saved _ _ _ _ I t Ht) as [Hpt _]. destruct (si_running _ _ _ _ I) as [Hroom Hcp].
  destruct (contexts_apart base k s cur cur t _ _ I ltac:(rewrite Hth; by left) ltac:(rewrite Hth; by right) Hne Hcp Hpt);
    unfold CONTEXT_SIZE in *; lia.
Qed.

Lemma yield_ok base reserved k s cur next rest :
  sched_inv base k s cur → run_queue s = next :: rest →
  ∃ k', yield_now reserved k = Some k' ∧ sched_inv base k' (yielded reserved k s cur next rest) next ∧
    k_saved k !! stack_pointer next = Some (k_regs k') ∧ k_sp k' = stack_pointer next + CONTEXT_SIZE ∧
    k_saved k' = <[k_sp k - CONTEXT_SIZE := k_regs k]> (k_saved k) ∧
    mem (k_phys k') = mem (k_phys k) ∧ heap (k_phys k') = heap (k_phys k) ∧ k_root k' = k_root k.
Proof.
  intros I Hq. pose proof (si_current _ _ _ _ I) as Hc.
  destruct (yielded_threads reserved k s cur next rest Hc Hq) as [Hpq Hth].
  pose proof (yielded_all reserved k s cur next rest Hc Hq) as Hall.
  assert (next ∈ threads s) as Hn by (rewrite Hth; right; by left).
  assert (cur ∈ threads s) as Hcur by (rewrite Hth; by left).
  assert (next ∈ run_queue s ++ zombies s) as Hnq by (rewrite Hq; by left).
  destruct (si_saved _ _ _ _ I next Hnq) as [Hplace [regs Hregs]].
  destruct (thread_root_ok base k s cur next I Hn) as [Hr0 Hrf].
  destruct (install_root_phys (thread_root k next) k) as (Em & Eh & Ea & Esp & Ereg & Esv & Er).
  set (k1 := install_root (thread_root k next) k) in *.
  destruct (si_running _ _ _ _ I) as [Hroom Hcp].
  assert (∀ t, t ∈ next :: rest ++ zombies s → stack_pointer t ≠ k_sp k - CONTEXT_SIZE) as Hother.
  { intros t Ht. eapply saved_apart; [done|by rewrite Hq]. }
  assert (switch_to (stack_pointer next) k1 = Some (k_sp k - CONTEXT_SIZE,
    with_cpu (stack_pointer next + CONTEXT_SIZE) regs (with_saved (<[k_sp k - CONTEXT_SIZE := k_regs k]> (k_saved k)) k1))) as Hsw.
  { unfold switch_to. rewrite Esp, Ereg, Esv. rewrite lookup_insert_ne; [by rewrite Hregs|].
    intros Heq. by apply (Hother next ltac:(by left)). }
  unfold yield_now. rewrite (si_sched _ _ _ _ I), Hq, Hc. fold k1. rewrite Hsw. cbn [mbind option_bind].
  fold (yielded reserved k s cur next rest). eexists. split; [reflexivity|].
  split; [|split_and!; try done; by rewrite Hregs].
  split.
  - done.
  - unfold yielded. by case_match.
  - by apply (kernel_ok_same k); [..|apply I].
  - intros t sp Ht Hs. apply (space_of_thread_same k); [done..|]. rewrite Hall in Ht.
    apply elem_of_cons in Ht as [->|Ht]; [by apply (si_spaces _ _ _ _ I next)|].
    apply elem_of_cons in Ht as [->|Ht]; [by apply (si_spaces _ _ _ _ I cur)|].
    apply (si_spaces _ _ _ _ I t); [rewrite Hth; by do 2 right|done].
  - rewrite Hall. pose proof (si_claims _ _ _ _ I) as Hcl. rewrite Hth in Hcl. cbn [fmap list_fmap] in Hcl |- *.
    change (claims (set_sp (k_sp k - CONTEXT_SIZE) cur)) with (claims cur).
    by rewrite (Permutation_swap (claims next) (claims cur)) in Hcl.
  - change (live _) with (live (k_phys k1)) at 1. unfold live. rewrite Eh. fold (live (k_phys k)).
    rewrite (si_live _ _ _ _ I). f_equal. apply union_all_perm; [by apply (si_claims _ _ _ _ I)|].
    rewrite Hall, Hth. cbn [fmap list_fmap]. change (claims (set_sp (k_sp k - CONTEXT_SIZE) cur)) with (claims cur).
    apply Permutation_swap.
  - intros t sp Ht Hs. rewrite Hall in Ht.
    apply elem_of_cons in Ht as [->|Ht]; [by apply (si_own _ _ _ _ I next)|].
    apply elem_of_cons in Ht as [->|Ht]; [by apply (si_own _ _ _ _ I cur)|].
    apply (si_own _ _ _ _ I t); [rewrite Hth; by do 2 right|done].
  - rewrite Hall. pose proof (si_ids _ _ _ _ I) as Hids'. rewrite Hth in Hids'. cbn [fmap list_fmap] in Hids' |- *.
    change (stack_base (set_sp (k_sp k - CONTEXT_SIZE) cur)) with (stack_base cur).
    by rewrite (Permutation_swap (stack_base next) (stack_base cur)) in Hids'.
  - intros t Ht. rewrite Hpq in Ht. cbn [k_saved with_cpu with_saved with_sched].
    apply elem_of_cons in Ht as [->|Ht]; [split; [done|]; cbn; by rewrite lookup_insert_eq|].
    destruct (si_saved _ _ _ _ I t) as [H1 H2]; [rewrite Hq; by right|]. split; [done|].
    rewrite lookup_insert_ne; [done|]. intros Heq. by apply (Hother t ltac:(by right)).
  - cbn [k_sp with_cpu with_sched]. split; [lia|]. by replace (stack_pointer next + CONTEXT_SIZE - CONTEXT_SIZE) with (stack_pointer next) by lia.
  - change (thread_root _ next) with (thread_root k1 next).
    assert (thread_root k1 next = thread_root k next) as -> by (unfold thread_root; by rewrite Er). by apply Ea.
  - intros t Ht Hx. rewrite Hall in Ht.
    apply elem_of_cons in Ht as [->|Ht]; [by apply (si_exiting _ _ _ _ I next)|].
    apply elem_of_cons in Ht as [->|Ht]; [by apply (si_exiting _ _ _ _ I cur)|].
    apply (si_exiting _ _ _ _ I t); [rewrite Hth; by do 2 right|done].
  - intros t. unfold yielded. cbn [set_sp exiting]. destruct (exiting cur) eqn:Hex, reserved; cbn [andb zombies];
      try apply (si_zombies _ _ _ _ I).
    intros [Ht| ->%list_elem_of_singleton]%elem_of_app; [by apply (si_zombies _ _ _ _ I)|done].
Qed.
(** ** Reaping *)

Record reapable (sp : N) (p : Phys) (t : Thread) : Prop := {
  rp_stack : stack_base t ≠ 0;
  rp_off : ¬ (stack_base t ≤ sp < stack_base t + THREAD_STACK_SIZE);
  rp_space s : address_space t = Some s →
    (∃ tr, space_inv s p tr) ∧ root s ≠ active_root p ∧ stack_claim t ##ₘ footprint s;
}.

Lemma map_difference_union (m a b : gmap N N) : m ∖ (a ∪ b) = m ∖ b ∖ a.
Proof.
  apply map_eq. intros i. rewrite !lookup_difference, lookup_union.
  by destruct (a !! i), (b !! i).
Qed.

Lemma space_claim_sub t s : address_space t = Some s → stack_claim t ##ₘ footprint s → footprint s ⊆ claims t.
Proof. intros Hs Hd. unfold claims, space_claim. rewrite Hs. by apply map_union_subseteq_r. Qed.

Lemma reclaim_ok sp t p :
  heap_ok (heap p) → claims t ⊆ live p → reapable sp p t →
  ∃ bytes p', reclaim true sp t p = Some (bytes, p') ∧ heap_ok (heap p') ∧ mem p' = mem p ∧ ttbr0 p' = ttbr0 p ∧
    live p' = live p ∖ claims t.
Proof.
  intros Hh Hcl [Hb Hoff Hsp]. unfold reclaim. rewrite decide_False by lia.
  assert (claims t !! stack_base t = Some THREAD_STACK_SIZE) as Hst.
  { unfold claims, stack_claim. rewrite decide_False by done. rewrite lookup_union, lookup_singleton_eq.
    by destruct (space_claim t !! stack_base t). }
  assert (∃ bytes p1, (match address_space t with
    | Some s => match destroy true s p with (Ok r, p) => (THREAD_STACK_SIZE + rec_bytes r, p) | (Err _, p) => (THREAD_STACK_SIZE, p) end
    | None => (THREAD_STACK_SIZE, p) end) = (bytes, p1) ∧ heap_ok (heap p1) ∧ mem p1 = mem p ∧ ttbr0 p1 = ttbr0 p ∧
    live p1 = live p ∖ space_claim t ∧ live p1 !! stack_base t = Some THREAD_STACK_SIZE ∧ space_is_live t p = false)
    as (bytes & p1 & Hrun & Hh1 & Hm1 & Ht1 & Hl1 & Hs1 & Hlv).
  { unfold space_is_live, space_claim. destruct (address_space t) as [s|] eqn:Has.
    - destruct (Hsp s eq_refl) as ([tr Hi] & Hna & Hd).
      destruct (destroy_Ok s p Hh (inv_ledger _ _ _ Hi) Hna) as (plan & rec & p1 & Hd1 & _ & H1 & H2 & H3 & H4 & _).
      rewrite Hd1. eexists _, _. split_and!; try done; [|unfold is_live; by apply bool_decide_eq_false_2].
      rewrite H2. apply lookup_difference_Some. split; [by eapply lookup_weaken|].
      eapply map_disjoint_Some_l; [exact Hd|]. unfold stack_claim. rewrite decide_False by done. apply lookup_singleton_eq.
    - eexists _, _. split_and!; try done; [by rewrite map_difference_empty|by eapply lookup_weaken]. }
  rewrite Hlv, Hrun. destruct (heap_dealloc_ok _ _ _ Hh1 Hs1) as [Hh2 Hl2].
  eexists _, _. split; [reflexivity|]. split_and!; try done.
  unfold live at 1. cbn. rewrite Hl2. fold (live p1). rewrite Hl1. unfold claims. rewrite map_difference_union.
  unfold stack_claim. rewrite decide_False by done. apply map_eq. intros a.
  rewrite lookup_delete, (lookup_difference _ {[_ := _]}), lookup_singleton. by case_decide.
Qed.

Lemma reap_fold sp zs acc B :
  heap_ok (heap (reap_phys acc)) → mem_ok (mem (reap_phys acc)) → disjoint_all (B :: (claims <$> zs)) →
  live (reap_phys acc) = B ∪ union_all (claims <$> zs) → Forall (reapable sp (reap_phys acc)) zs →
  let r := foldl (reap_one (λ _, true) sp) acc zs in
  reap_count r = reap_count acc + len zs ∧ reap_kept r = reap_kept acc ∧ heap_ok (heap (reap_phys r)) ∧
  live (reap_phys r) = B ∧ mem (reap_phys r) = mem (reap_phys acc) ∧ ttbr0 (reap_phys r) = ttbr0 (reap_phys acc).
Proof.
  cbn zeta. revert acc. induction zs as [|z zs IH]; intros acc Hh Hm Hd Hl HF.
  { cbn in *. rewrite (right_id_L ∅ (∪)) in Hl. split_and!; try done. unfold len. cbn. lia. }
  apply Forall_cons in HF as [Hz HF]. destruct Hd as [HB [Hzd Hd]]. cbn [fmap list_fmap] in HB, Hl. apply Forall_cons in HB as [HBz HB].
  change (union_all (claims z :: (claims <$> zs))) with (claims z ∪ union_all (claims <$> zs)) in Hl.
  assert (claims z ##ₘ B ∪ union_all (claims <$> zs)) as Hza.
  { apply map_disjoint_union_r. split; [done|by apply union_all_disjoint]. }
  assert (live (reap_phys acc) = claims z ∪ (B ∪ union_all (claims <$> zs))) as Hl'.
  { rewrite Hl, !(assoc_L (∪)). f_equal. by apply map_union_comm. }
  destruct (reclaim_ok sp z (reap_phys acc) Hh) as (bytes & p1 & Hr & Hh1 & Hm1 & Ht1 & Hl1); [|done|].
  { rewrite Hl'. apply map_union_subseteq_l. }
  assert (live p1 = B ∪ union_all (claims <$> zs)) as Hl1'.
  { rewrite Hl1, Hl'. apply map_eq. intros a. rewrite lookup_difference, lookup_union.
    destruct (claims z !! a) as [x|] eqn:Hx.
    - symmetry. by eapply map_disjoint_Some_l.
    - by rewrite (left_id_L None _). }
  assert (reap_one (λ _, true) sp acc z = mkReap (reap_count acc + 1) (reap_bytes acc + bytes) (reap_kept acc) p1) as Hone.
  { unfold reap_one. by rewrite Hr. }
  cbn [foldl]. rewrite Hone.
  destruct (IH (mkReap (reap_count acc + 1) (reap_bytes acc + bytes) (reap_kept acc) p1)) as (C1 & C2 & C3 & C4 & C5 & C6);
    cbn [reap_phys] in *; try done.
  - by rewrite Hm1.
  - apply Forall_forall. intros t Ht. rewrite Forall_forall in HF. destruct (HF t Ht) as [R1 R2 R3]. split; [done|done|].
    intros s Hs. destruct (R3 s Hs) as ([tr Hi] & Hna & Hdj). split_and!; [|unfold active_root; by rewrite Ht1|done].
    exists tr. apply (space_inv_frame_tables s (reap_phys acc)); [done|by rewrite Hm1|done| |by rewrite Hm1].
    rewrite Hl1'. etrans; [by eapply space_claim_sub|]. etrans; [|by apply map_union_subseteq_r, union_all_disjoint].
    apply union_all_sub; [done|by apply list_elem_of_fmap_2].
  - split_and!; [rewrite C1; cbn; unfold len; cbn; lia|done|done|done|by rewrite C5|by rewrite C6].
Qed.
Definition stack_top (t : Thread) : N := if decide (stack_base t = 0) then HEAP_START else stack_base t + THREAD_STACK_SIZE.

Lemma claims_disjoint base k s cur i j t u :
  sched_inv base k s cur → threads s !! i = Some t → threads s !! j = Some u → i ≠ j → claims t ##ₘ claims u.
Proof.
  intros I Hi Hj Hne. destruct (si_claims _ _ _ _ I) as [_ Hd].
  eapply (disjoint_all_lookup _ i j); [exact Hd| | |done]; by rewrite list_lookup_fmap, ?Hi, ?Hj.
Qed.

Lemma root_claimed base k s cur t sp :
  sched_inv base k s cur → t ∈ threads s → address_space t = Some sp → is_Some (claims t !! root sp).
Proof.
  intros I Ht Hs. destruct (st_inv _ _ (si_spaces _ _ _ _ I t sp Ht Hs)) as [tr Hi].
  exists GRANULE_4KIB. eapply lookup_weaken; [|eapply space_claim_sub; [done|by eapply si_own]].
  eapply footprint_owned; [by eapply inv_ledger|]. eapply table_is_owned; [done|by left].
Qed.

Lemma zombie_reapable base k s cur z :
  sched_inv base k s cur → k_sp k < stack_top cur → z ∈ zombies s → reapable (k_sp k) (k_phys k) z.
Proof.
  intros I Hin Hz. pose proof (si_current _ _ _ _ I) as Hc.
  assert (threads s = cur :: run_queue s ++ zombies s) as Hth by (unfold threads; by rewrite Hc).
  assert (z ∈ threads s) as Hzt by (rewrite Hth; right; apply elem_of_app; by right).
  assert (cur ∈ threads s) as Hct by (rewrite Hth; by left).
  pose proof (si_exiting _ _ _ _ I z Hzt (si_zombies _ _ _ _ I z Hz)) as Hb.
  assert (∃ j, threads s !! S j = Some z) as [j Hj].
  { rewrite Hth. assert (z ∈ run_queue s ++ zombies s) as Hx by (apply elem_of_app; by right).
    apply list_elem_of_lookup in Hx as [j Hj]. by exists j. }
  assert (threads s !! O = Some cur) as H0 by (by rewrite Hth).
  assert (stack_base cur ≠ stack_base z) as Hne.
  { intros Heq. pose proof (si_ids _ _ _ _ I) as Hids. rewrite Hth in Hids. cbn in Hids.
    apply NoDup_cons in Hids as [Hni _]. apply Hni. rewrite Heq. rewrite Hth in Hj. cbn in Hj.
    apply list_elem_of_fmap_2. by eapply list_elem_of_lookup_2. }
  split; [done| |].
  - destruct (si_running _ _ _ _ I) as [Hroom Hcp]. unfold context_place, stack_top in *.
    pose proof (heap_extents _ (ko_heap _ (si_kernel _ _ _ _ I))) as Hx.
    pose proof (stack_live base k s cur z I Hzt Hb) as Lz. destruct (Hx _ _ Lz) as (Hlo & _ & _ & Hdis).
    destruct (decide (stack_base cur = 0)) as [E0|E0]; [lia|].
    pose proof (stack_live base k s cur cur I Hct E0) as Lc. destruct (Hdis _ _ Lc ltac:(done)); unfold CONTEXT_SIZE in *; lia.
  - intros sp Hs. pose proof (si_spaces _ _ _ _ I z sp Hzt Hs) as [[tr Hi] _ _].
    split_and!; [by exists tr| |by eapply si_own]. rewrite (si_active _ _ _ _ I). unfold thread_root.
    destruct (address_space cur) as [sc|] eqn:Hsc.
    + intros Heq. destruct (root_claimed base k s cur z sp I Hzt Hs) as [x Hx].
      destruct (root_claimed base k s cur cur sc I Hct Hsc) as [y Hy]. rewrite <-Heq in Hy.
      pose proof (claims_disjoint base k s cur O (S j) cur z I H0 Hj ltac:(done)) as Hd.
      by apply (map_disjoint_spec _ _) with (i := root sp) (x := y) (y := x) in Hd.
    + intros Heq. destruct (space_root_frame sp _ tr Hi) as (_ & _ & Hns). apply Hns. rewrite Heq.
      by destruct (ko_root _ (si_kernel _ _ _ _ I)) as (_ & _ & ?).
Qed.
Lemma spaces_survive base k s cur p' t sp :
  sched_inv base k s cur → t ∈ threads s → address_space t = Some sp → mem_ok (mem p') → heap_ok (heap p') →
  claims t ⊆ live p' → (∀ a, kept_frame (k_phys k) a → page_at (mem p') a = page_at (mem (k_phys k)) a) →
  space_of_thread (with_kphys p' k) sp.
Proof.
  intros I Ht Hs Hm Hh Hcl Hkept. destruct (si_spaces _ _ _ _ I t sp Ht Hs) as [[tr Hi] Hseed Hk].
  pose proof (si_own _ _ _ _ I t sp Ht Hs) as Hd. pose proof (inv_ledger _ _ _ Hi) as Hl.
  assert (∀ a, a ∈ owned_tables sp → page_at (mem p') a = page_at (mem (k_phys k)) a) as Hsame.
  { intros a Ha. apply Hkept. eapply footprint_kept; [done|]. eapply owned_in_extents; [done|by left]. }
  split; cbn [k_phys k_root with_kphys].
  - exists tr. apply (space_inv_frame_tables sp (k_phys k)); try done. etrans; [by eapply space_claim_sub|done].
  - done.
  - intros i Hi' Hne. rewrite (read_entry_page (mem p') (mem (k_phys k)) (root sp)).
    + rewrite Hk by done. symmetry. apply read_entry_page, Hkept. left. apply (ko_root _ (si_kernel _ _ _ _ I)).
    + apply Hsame, (inv_tables _ _ _ Hi). by left.
Qed.

Lemma kernel_survives k p' :
  kernel_ok k → mem_ok (mem p') → heap_ok (heap p') →
  (∀ a, kept_frame (k_phys k) a → page_at (mem p') a = page_at (mem (k_phys k)) a) → kernel_ok (with_kphys p' k).
Proof.
  intros [H1 H2 H3 H4 H5] Hm Hh Hkept. destruct H3 as (Hr0 & Hrf & Hrs).
  assert (∀ i, read_entry (mem p') (k_root k) i = read_entry (mem (k_phys k)) (k_root k) i) as Hroot.
  { intros i. apply read_entry_page, Hkept. by left. }
  split; cbn [k_phys k_root with_kphys]; try done.
  - by rewrite Hroot.
  - eapply kernel_static_frame; [|intros a Ha; apply Hkept; by left|done]. intros i _ _. apply Hroot.
Qed.

Lemma reap_exited_ok base k s cur :
  sched_inv base k s cur → k_sp k < stack_top cur →
  ∃ k', reap_exited (λ _, true) k = (len (zombies s), k') ∧
    sched_inv base k' (mkScheduler (run_queue s) (Some cur) []) cur ∧
    mem (k_phys k') = mem (k_phys k) ∧ k_saved k' = k_saved k ∧ k_regs k' = k_regs k ∧ k_sp k' = k_sp k ∧
    k_reaped k' = k_reaped k + len (zombies s).
Proof.
  intros I Hin. pose proof (si_current _ _ _ _ I) as Hc. pose proof (si_kernel _ _ _ _ I) as K.
  assert (threads s = (cur :: run_queue s) ++ zombies s) as Hth by (unfold threads; by rewrite Hc).
  pose proof (si_claims _ _ _ _ I) as Hcl. rewrite Hth, fmap_app in Hcl.
  change (base :: (claims <$> cur :: run_queue s) ++ (claims <$> zombies s)) with
    ((base :: (claims <$> cur :: run_queue s)) ++ (claims <$> zombies s)) in Hcl.
  apply disjoint_all_split in Hcl as [HdA HdZ].
  set (B := union_all (base :: (claims <$> cur :: run_queue s))) in *.
  unfold reap_exited. rewrite (si_sched _ _ _ _ I).
  destruct (reap_fold (k_sp k) (zombies s) (mkReap 0 0 [] (k_phys k)) B) as (C1 & C2 & C3 & C4 & C5 & C6).
  { apply K. } { apply K. } { done. }
  { cbn. rewrite (si_live _ _ _ _ I), Hth, fmap_app, union_all_app. apply (assoc_L (∪)). }
  { apply Forall_forall. intros z Hz. by eapply zombie_reapable. }
  set (r := foldl _ _ _) in *. cbn [reap_phys reap_count reap_kept] in *.
  eexists. split; [by rewrite C1, C2, N.add_0_l|].
  assert (∀ t, t ∈ cur :: run_queue s → t ∈ threads s) as Hsub by (intros t Ht; rewrite Hth; apply elem_of_app; by left).
  assert (∀ t, t ∈ cur :: run_queue s → claims t ⊆ live (reap_phys r)) as Hcov.
  { intros t Ht. rewrite C4. apply union_all_sub; [done|]. right. by apply list_elem_of_fmap_2. }
  split_and!; try done.
  assert (kernel_ok (with_kphys (reap_phys r) k)) as K' by (apply kernel_survives; rewrite ?C5; done || apply K).
  split; cbn [k_sched k_sp k_saved k_phys].
  - by rewrite Hc.
  - done.
  - destruct K' as [H1 H2 H3 H4 H5]. by split.
  - intros t sp Ht Hs. unfold threads in Ht. cbn in Ht. rewrite app_nil_r in Ht.
    destruct (spaces_survive base k s cur (reap_phys r) t sp I (Hsub t Ht) Hs) as [H1 H2 H3];
      [rewrite C5; apply K|done|by apply Hcov|intros a _; by rewrite C5|by split].
  - unfold threads. cbn. by rewrite app_nil_r.
  - unfold threads. cbn. by rewrite app_nil_r.
  - intros t sp Ht. unfold threads in Ht. cbn in Ht. rewrite app_nil_r in Ht. by eapply si_own, Hsub.
  - pose proof (si_ids _ _ _ _ I) as Hids. rewrite Hth, fmap_app in Hids. apply NoDup_app in Hids as [Hids _].
    unfold threads. cbn. by rewrite app_nil_r.
  - intros t Ht. cbn in Ht. rewrite app_nil_r in Ht. apply (si_saved _ _ _ _ I). apply elem_of_app. by left.
  - apply I.
  - unfold active_root. cbn. rewrite C6. apply (si_active _ _ _ _ I).
  - intros t Ht. unfold threads in Ht. cbn in Ht. rewrite app_nil_r in Ht. by eapply si_exiting, Hsub.
  - intros t []%not_elem_of_nil.
Qed.
End inv.
