(* ===== verification/ArmSchedOps.v ===== *)
(** * ArmSchedOps: every operation keeps the scheduler's invariant

    Spawning, with and without an address space, storing from EL0, exiting.  The
    step relation at the end is what the kernel's threads can do; [sched_inv] holds
    in every state it reaches. *)

From S2P Require Import Prelude Bytes Sorting StateErr Capability ArmVm ArmMmu ArmElf ArmReclaim ArmLoader ArmSpace ArmSpaceSpec ArmSpaceOps ArmWorld ArmProcess ArmNet ArmNetSpec ArmSched ArmSchedSpec.

Local Open Scope N_scope.

Section ops.
Context `{HL : HeapLaws}.

(** ** A new thread *)

Definition queued (t : Thread) (s : Scheduler) : Scheduler := mkScheduler (run_queue s ++ [t]) (current s) (zombies s).

Record newcomer (k : Kernel) (p' : Phys) (t : Thread) : Prop := {
  nc_mem : mem_ok (mem p');
  nc_heap : heap_ok (heap p');
  nc_kept a : kept_frame (k_phys k) a → page_at (mem p') a = page_at (mem (k_phys k)) a;
  nc_fresh : claims t ##ₘ live (k_phys k);
  nc_live : live p' = claims t ∪ live (k_phys k);
  nc_ttbr0 : ttbr0 p' = ttbr0 (k_phys k);
  nc_stack : stack_base t ≠ 0;
  nc_space s : address_space t = Some s → stack_claim t ##ₘ footprint s ∧ space_of_thread (with_kphys p' k) s;
  nc_place : context_place (stack_base t) (stack_pointer t);
  nc_exiting : exiting t = false;
}.

Lemma own_stack_claim t : stack_base t ≠ 0 → claims t !! stack_base t = Some THREAD_STACK_SIZE.
Proof.
  intros Hb. unfold claims, stack_claim. rewrite decide_False by done. rewrite lookup_union, lookup_singleton_eq.
  by destruct (space_claim t !! stack_base t).
Qed.

Lemma queued_threads t s : threads (queued t s) ≡ₚ t :: threads s.
Proof.
  unfold threads, queued. cbn. rewrite (assoc_L (++)), (assoc_L (++) (option_list _)).
  rewrite <-!(assoc_L (++)). cbn. rewrite (assoc_L (++)), (assoc_L (++) (option_list (current s))).
  symmetry. apply Permutation_middle.
Qed.

Lemma sched_add base k s cur p' t ctx :
  sched_inv base k s cur → newcomer k p' t →
  sched_inv base (with_sched (Some (queued t s)) (with_saved (<[stack_pointer t := ctx]> (k_saved k)) (with_kphys p' k)))
    (queued t s) cur.
Proof.
  intros I Nc. pose proof (queued_threads t s) as Hq. pose proof (nc_fresh _ _ _ Nc) as Hf.
  assert (∀ u, u ∈ threads s → claims u ⊆ live p') as Hcov.
  { intros u Hu. rewrite (nc_live _ _ _ Nc). etrans; [by eapply thread_claims_live|]. by apply map_union_subseteq_r. }
  assert (Forall (map_disjoint (claims t)) (base :: (claims <$> threads s))) as Hnew.
  { apply union_all_disjoint. change (union_all (base :: ?l)) with (base ∪ union_all l). by rewrite <-(si_live _ _ _ _ I). }
  split; cbn [k_sched k_phys k_saved k_sp with_sched with_saved with_kphys].
  - done.
  - apply I.
  - destruct (kernel_survives k p' (si_kernel _ _ _ _ I)) as [H1 H2 H3 H4 H5]; [apply Nc..|]. by split.
  - intros u sp Hu Hs. rewrite Hq in Hu. apply elem_of_cons in Hu as [->|Hu].
    + destruct (nc_space _ _ _ Nc sp Hs) as [_ [H1 H2 H3]]. by split.
    + destruct (spaces_survive base k s cur p' u sp I Hu Hs) as [H1 H2 H3]; [apply Nc|apply Nc|by apply Hcov|apply Nc|by split].
  - rewrite Hq. cbn [fmap list_fmap]. rewrite Permutation_swap. split; [done|apply I].
  - rewrite (nc_live _ _ _ Nc), (si_live _ _ _ _ I).
    rewrite (union_all_perm (claims <$> threads (queued t s)) (claims t :: (claims <$> threads s))); [| |by rewrite Hq].
    + change (union_all (claims t :: ?l)) with (claims t ∪ union_all l). rewrite !(assoc_L (∪)). f_equal.
      apply map_union_comm. rewrite (si_live _ _ _ _ I) in Hf. by apply map_disjoint_union_r in Hf as [? _].
    + rewrite Hq. apply Forall_cons in Hnew as [_ Hnew]. destruct (si_claims _ _ _ _ I) as [_ Hd]. by split.
  - intros u sp Hu Hs. rewrite Hq in Hu. apply elem_of_cons in Hu as [->|Hu]; [|by eapply si_own].
    by destruct (nc_space _ _ _ Nc sp Hs).
  - rewrite Hq. cbn [fmap list_fmap]. apply NoDup_cons. split; [|apply I].
    intros (u & Heq & Hu)%list_elem_of_fmap. pose proof (nc_stack _ _ _ Nc) as Hb.
    pose proof (own_stack_claim t Hb) as Ht. assert (stack_base u ≠ 0) as Hub by congruence.
    pose proof (stack_live base k s cur u I Hu Hub) as Hul. rewrite <-Heq in Hul.
    by apply (map_disjoint_spec _ _) with (i := stack_base t) (x := THREAD_STACK_SIZE) (y := THREAD_STACK_SIZE) in Hf.
  - intros u Hu. assert (u ∈ t :: run_queue s ++ zombies s) as Hu'.
    { unfold queued in Hu. cbn in Hu. rewrite <-(assoc_L (++)) in Hu. cbn in Hu. by rewrite <-Permutation_middle in Hu. }
    apply elem_of_cons in Hu' as [->|Hu'].
    + split; [apply Nc|]. by rewrite lookup_insert_eq.
    + destruct (si_saved _ _ _ _ I u Hu') as [H1 [c Hc]]. split; [done|]. rewrite lookup_insert. case_decide; by eexists.
  - apply I.
  - unfold active_root. rewrite (nc_ttbr0 _ _ _ Nc). apply (si_active _ _ _ _ I).
  - intros u Hu Hx. rewrite Hq in Hu. apply elem_of_cons in Hu as [->|Hu]; [apply Nc|by eapply si_exiting].
  - apply I.
Qed.

(** The stack a new thread gets. *)
Lemma thread_new_Ok entry k t k' :
  heap_ok (heap (k_phys k)) → thread_new entry k = (Ok t, k') →
  stack_base t ≠ 0 ∧ address_space t = None ∧ exiting t = false ∧ context_place (stack_base t) (stack_pointer t) ∧
  stack_pointer t + CONTEXT_SIZE = stack_base t + THREAD_STACK_SIZE ∧
  live (k_phys k) !! stack_base t = None ∧ live (k_phys k') = <[stack_base t := THREAD_STACK_SIZE]> (live (k_phys k)) ∧
  heap_ok (heap (k_phys k')) ∧ mem (k_phys k') = mem (k_phys k) ∧ ttbr0 (k_phys k') = ttbr0 (k_phys k) ∧
  k' = with_saved (<[stack_pointer t := mkContext (replicate 11 0) entry (replicate 8 0)]> (k_saved k))
         (with_kphys (k_phys k') k).
Proof.
  intros Hh. unfold thread_new. destruct (heap_alloc _ _ _) as [[b h]|] eqn:Ha; [|done]. intros [= <- <-].
  destruct (heap_alloc_ok _ _ _ _ _ Hh (ltac:(done) : 0 < THREAD_STACK_SIZE) Ha) as (Hh' & _ & Hn & Hl).
  assert (heap_live h !! b = Some THREAD_STACK_SIZE) as Hlb by (by rewrite Hl, lookup_insert_eq).
  destruct (heap_extents _ Hh' _ _ Hlb) as (Hlo & Hhi & _). unfold HEAP_START in Hlo.
  assert (b ≠ 0) as Hb by lia. cbn [stack_base stack_pointer]. unfold context_place, CONTEXT_SIZE, THREAD_STACK_SIZE.
  rewrite decide_False by done. split_and!; try done; lia.
Qed.

Lemma thread_new_Err entry k e k' : thread_new entry k = (Err e, k') → k' = k.
Proof. unfold thread_new. destruct (heap_alloc _ _ _) as [[]|]; [done|]. by intros [= _ <-]. Qed.

Lemma spawn_ok base k s cur entry r k' :
  sched_inv base k s cur → spawn entry k = (r, k') →
  (∃ t, r = Ok () ∧ sched_inv base k' (queued t s) cur ∧ stack_base t ∉ stack_base <$> threads s ∧
     k_saved k' = <[stack_pointer t := mkContext (replicate 11 0) entry (replicate 8 0)]> (k_saved k)) ∨
  (∃ e, r = Err e ∧ k' = k).
Proof.
  intros I. pose proof (si_kernel _ _ _ _ I) as K. unfold spawn.
  destruct (thread_new entry k) as [[t|e] k1] eqn:Ht.
  2:{ apply thread_new_Err in Ht as ->. intros [= <- <-]. right. eauto. }
  destruct (thread_new_Ok entry k t k1 (ko_heap _ K) Ht) as (Hb & Has & Hex & Hpl & _ & Hn & Hl & Hh & Hm & Htt & Ek1).
  assert (claims t = {[stack_base t := THREAD_STACK_SIZE]}) as Ecl.
  { unfold claims, stack_claim, space_claim. rewrite Has, decide_False by done. by rewrite (right_id_L ∅ (∪)). }
  assert (newcomer k (k_phys k1) t) as Nc.
  { split; try done; rewrite ?Hm, ?Ecl, ?Hl; try done.
    - apply K.
    - by apply map_disjoint_singleton_l.
    - by rewrite insert_union_singleton_l.
    - intros sp. by rewrite Has. }
  pose proof (sched_add base k s cur (k_phys k1) t (mkContext (replicate 11 0) entry (replicate 8 0)) I Nc) as I'.
  unfold enqueue. rewrite Ek1. cbn [k_sched with_saved with_kphys]. rewrite (si_sched _ _ _ _ I). intros [= <- <-].
  left. exists t. split_and!; [done|exact I'| |done].
  pose proof (si_ids _ _ _ _ I') as Hids. rewrite (queued_threads t s) in Hids. cbn in Hids. by apply NoDup_cons in Hids as [? _].
Qed.
(** ** A new thread with a new space *)

(** The heap came back as it was and nothing in use was written. *)
Lemma sched_rephys base k s cur p' :
  sched_inv base k s cur → mem_ok (mem p') → heap_ok (heap p') →
  (∀ a, kept_frame (k_phys k) a → page_at (mem p') a = page_at (mem (k_phys k)) a) →
  live p' = live (k_phys k) → ttbr0 p' = ttbr0 (k_phys k) → sched_inv base (with_kphys p' k) s cur.
Proof.
  intros I Hm Hh Hk Hl Ht. pose proof I as [S1 S2 S3 S4 S5 S6 S7 S8 S9 S10 S11 S12 S13].
  split; cbn [k_sched k_phys k_saved k_sp with_kphys]; try done.
  - by apply kernel_survives.
  - intros t sp Ht' Hs. eapply (spaces_survive base k s cur); try done. rewrite Hl. by eapply thread_claims_live.
  - by rewrite Hl.
  - unfold active_root. by rewrite Ht.
Qed.

(** A space that was just made, in the state it left. *)
Record fresh_space (s : AddressSpace) (p p' : Phys) : Prop := {
  fs_inv : ∃ t, space_inv s p' t;
  fs_fresh : footprint s ##ₘ live p;
  fs_live : live p' = footprint s ∪ live p;
  fs_seed : seeded_root s = active_root p;
  fs_kernel i : i < 512 → i ≠ 2 → read_entry (mem p') (root s) i = read_entry (mem p) (active_root p) i;
  fs_kept a : kept_frame p a → page_at (mem p') a = page_at (mem p) a;
  fs_ttbr0 : ttbr0 p' = ttbr0 p;
}.

Lemma fresh_not_active s p p' : fresh_space s p p' → static_frame (active_root p) → root s ≠ active_root p'.
Proof.
  intros F Hst Heq. destruct (fs_inv _ _ _ F) as [t Hi]. destruct (space_root_frame s p' t Hi) as (_ & _ & Hns).
  apply Hns. rewrite Heq. unfold active_root. by rewrite (fs_ttbr0 _ _ _ F).
Qed.

Lemma fresh_back s p p' : fresh_space s p p' → live p' ∖ footprint s = live p.
Proof.
  intros F. rewrite (fs_live _ _ _ F). apply map_eq. intros a. rewrite lookup_difference, lookup_union.
  pose proof (fs_fresh _ _ _ F) as Hf.
  destruct (footprint s !! a) as [x|] eqn:Hx; [|by destruct (live p !! a)]. symmetry. by eapply map_disjoint_Some_l.
Qed.

Lemma started_fresh_space elf s p p' : started elf s p p' → fresh_space s p p'.
Proof.
  intros St. destruct (started_inv _ _ _ _ St) as [t Hi]. split; try apply St.
  intros a Hk. apply (started_mem _ _ _ _ St); [|done].
  pose proof (footprint_live s p' (inv_ledger _ _ _ Hi)) as Hsub. destruct Hk as [Hk|Hk].
  - eapply static_apart; [apply Hi|done|done].
  - eapply (extents_apart p' (live p)); [apply Hi| |done|symmetry; apply St|done].
    rewrite (started_live _ _ _ _ St). apply map_union_subseteq_r, St.
Qed.

Lemma spawn_space_ok base k s cur entry sp p' r k' :
  sched_inv base k s cur → address_space cur = None → fresh_space sp (k_phys k) p' →
  spawn_with_address_space true entry sp (with_kphys p' k) = (r, k') →
  (∃ t, r = Ok () ∧ address_space t = Some sp ∧ sched_inv base k' (queued t s) cur ∧
     k_saved k' = <[stack_pointer t := mkContext (replicate 11 0) entry (replicate 8 0)]> (k_saved k)) ∨
  (∃ e, r = Err e ∧ sched_inv base k' s cur ∧ live (k_phys k') = live (k_phys k)).
Proof.
  intros I Hc F. pose proof (si_kernel _ _ _ _ I) as K. pose proof (ko_root _ K) as (Hr0 & Hrf & Hrs).
  assert (active_root (k_phys k) = k_root k) as Eact.
  { rewrite (si_active _ _ _ _ I). unfold thread_root. by rewrite Hc. }
  destruct (fs_inv _ _ _ F) as [tr Hi]. pose proof (inv_ledger _ _ _ Hi) as Hled.
  assert (static_frame (active_root (k_phys k))) as Hst by by rewrite Eact.
  unfold spawn_with_address_space. cbn [k_root with_kphys]. rewrite decide_False by done.
  rewrite decide_False by (intros Hne; apply Hne; rewrite (fs_seed _ _ _ F); done).
  destruct (thread_new entry (with_kphys p' k)) as [[t|e] k1] eqn:Ht.
  - destruct (thread_new_Ok entry (with_kphys p' k) t k1 (inv_heap _ _ _ Hi) Ht)
      as (Hb & Has & Hex & Hpl & _ & Hn & Hl & Hh & Hm & Htt & Ek1). cbn [k_phys with_kphys k_saved] in *.
    set (t' := mkThread (stack_base t) (stack_pointer t) (Some sp) (exiting t)).
    assert (stack_claim t' = {[stack_base t := THREAD_STACK_SIZE]}) as Est by (unfold stack_claim; by rewrite decide_False).
    assert (claims t' = <[stack_base t := THREAD_STACK_SIZE]> (footprint sp)) as Ecl.
    { unfold claims, space_claim. rewrite Est. cbn. by rewrite insert_union_singleton_l. }
    rewrite (fs_live _ _ _ F) in Hn, Hl. apply lookup_union_None in Hn as [Hn1 Hn2].
    assert (newcomer k (k_phys k1) t') as Nc.
    { split; try done; rewrite ?Ecl.
      - rewrite Hm. apply Hi.
      - intros a Ha. rewrite Hm. by apply (fs_kept _ _ _ F).
      - apply map_disjoint_insert_l. split; [done|apply F].
      - rewrite Hl. by rewrite insert_union_l.
      - rewrite Htt. apply F.
      - intros sp' [= <-]. rewrite Est. split; [by apply map_disjoint_singleton_l|].
        split; cbn [k_phys k_root with_kphys].
        + exists tr. apply (space_inv_frame_tables sp p'); [done|rewrite Hm; apply Hi|done| |by rewrite Hm].
          etrans; [by apply footprint_live|]. rewrite Hl, (fs_live _ _ _ F). apply insert_subseteq.
          by apply lookup_union_None.
        + by rewrite (fs_seed _ _ _ F).
        + intros i Hi' Hne. rewrite Hm, (fs_kernel _ _ _ F i Hi' Hne), Eact. symmetry.
          apply read_entry_page, (fs_kept _ _ _ F). by left. }
    pose proof (sched_add base k s cur (k_phys k1) t' (mkContext (replicate 11 0) entry (replicate 8 0)) I Nc) as I'.
    unfold enqueue. rewrite Ek1. cbn [k_sched with_saved with_kphys]. rewrite (si_sched _ _ _ _ I). intros [= <- <-].
    left. exists t'. split_and!; done.
  - apply thread_new_Err in Ht as ->. intros [= <- <-]. right. exists e. split; [done|].
    unfold discard_space. cbn [k_phys with_kphys].
    destruct (destroy_Ok sp p' (inv_heap _ _ _ Hi) Hled (fresh_not_active _ _ _ F Hst))
      as (plan & rec & p2 & Hd & _ & Hh2 & Hl2 & Hm2 & Ht2 & _). rewrite Hd. cbn [snd].
    rewrite (fresh_back _ _ _ F) in Hl2.
    assert (sched_inv base (with_kphys p2 k) s cur) as I2; [|by split].
    apply sched_rephys; try done; [rewrite Hm2; apply Hi| |rewrite Ht2; apply F].
    intros a Ha. rewrite Hm2. by apply (fs_kept _ _ _ F).
Qed.
(** ** Stores from EL0 *)

(** What an EL0 store of byte [b] at [va] does to memory: nothing when it faults;
    a store to device memory reaches the device and not RAM. *)
Definition el0_store (va b : N) (p : Phys) : Phys :=
  match walk (mem p) (active_root p) va with
  | Some (pa, d) =>
      if el0_writable d && negb (bool_decide (device_frame (page_of pa))) then
        set_mem (<[page_of pa := copy_at (page_at (mem p) (page_of pa)) (pa mod GRANULE_4KIB) [b]]> (mem p)) p
      else p
  | None => p
  end.

(** A store through the private window changes at most one frame, a data frame of
    the space in force. *)
Lemma el0_store_place s p t va b :
  space_inv s p t → active_root p = root s → PRIVATE_REGION_BASE ≤ va < PRIVATE_REGION_END → b < 256 →
  let p' := el0_store va b p in
  heap p' = heap p ∧ ttbr0 p' = ttbr0 p ∧ mem_ok (mem p') ∧
  (p' = p ∨ ∃ f, in_extents (footprint s) f ∧ f ∉ owned_tables s ∧ ∀ a, a ≠ f → page_at (mem p') a = page_at (mem p) a).
Proof.
  intros Hi Hact Hva Hb. cbn zeta. unfold el0_store. rewrite Hact, (walk_tree s p t va Hi Hva). fold (page_of va).
  destruct (t_page t !! page_of va) as [[f q]|] eqn:Hx; cbn [fmap option_fmap option_map fst snd];
    [|split_and!; try done; [apply Hi|by left]].
  pose proof (tree_pages _ _ _ (inv_tree _ _ _ Hi) _ _ _ Hx) as (_ & _ & Hf & Hq).
  assert (page_of (f + va mod GRANULE_4KIB) = f ∧ (f + va mod GRANULE_4KIB) mod GRANULE_4KIB = va mod GRANULE_4KIB) as [-> ->].
  { destruct Hf as [Hm _]. change 4096 with GRANULE_4KIB in Hm. unfold page_of. clear -Hm. div_lia. }
  case_match eqn:Hw; [|split_and!; try done; [apply Hi|by left]].
  apply andb_true_iff in Hw as [_ Hnd%negb_true_iff%bool_decide_eq_false].
  pose proof (inv_mem _ _ _ Hi) as Hm. pose proof (offset_lt va) as Hoff.
  split_and!; [done|done| |right; exists f; split_and!].
  - cbn. apply mem_ok_insert; [done|rewrite length_copy_at; [by apply length_page_at|]|].
    + unfold len. cbn. rewrite length_page_at by done. lia.
    + apply bytes_copy_at; [by apply bytes_page_at|by repeat constructor].
  - by destruct (backing_place s p t _ f q Hi Hx).
  - by eapply backed_not_table.
  - intros a Ha. cbn. by rewrite page_at_insert, decide_False.
Qed.

Lemma store_ok base k s cur sp va b :
  sched_inv base k s cur → address_space cur = Some sp → PRIVATE_REGION_BASE ≤ va < PRIVATE_REGION_END → b < 256 →
  sched_inv base (with_kphys (el0_store va b (k_phys k)) k) s cur.
Proof.
  intros I Hs Hva Hb. pose proof (si_current _ _ _ _ I) as Hc. pose proof (si_kernel _ _ _ _ I) as K.
  assert (threads s = cur :: run_queue s ++ zombies s) as Hth by (unfold threads; by rewrite Hc).
  assert (cur ∈ threads s) as Hct by (rewrite Hth; by left).
  destruct (si_spaces _ _ _ _ I cur sp Hct Hs) as [[tr Hi] Hseed Hkern].
  assert (active_root (k_phys k) = root sp) as Hact.
  { rewrite (si_active _ _ _ _ I). unfold thread_root. by rewrite Hs. }
  destruct (el0_store_place sp (k_phys k) tr va b Hi Hact Hva Hb) as (Eh & Et & Hm & Hcase).
  set (p' := el0_store va b (k_phys k)) in *.
  destruct Hcase as [Hsame|(f & Hin & Hnt & Hframe)]; [rewrite Hsame; by destruct k|].
  pose proof (footprint_live sp (k_phys k) (inv_ledger _ _ _ Hi)) as Hfl.
  assert (∀ a, static_frame a → page_at (mem p') a = page_at (mem (k_phys k)) a) as Hstat.
  { intros a Ha. apply Hframe. intros ->. eapply (static_apart (k_phys k) (footprint sp)); [apply Hi|done|done|done]. }
  assert (live p' = live (k_phys k)) as El by (unfold live; by rewrite Eh).
  assert (∀ u su, u ∈ threads s → address_space u = Some su → f ∉ owned_tables su) as Htab.
  { intros u su Hu Hsu. destruct (list_elem_of_lookup_1 _ _ Hu) as [j Hj]. destruct j as [|j].
    - rewrite Hth in Hj. cbn in Hj. injection Hj as <-. rewrite Hs in Hsu. by injection Hsu as <-.
    - intros Hin'. destruct (si_spaces _ _ _ _ I u su Hu Hsu) as [[tu Hiu] _ _]. pose proof (inv_ledger _ _ _ Hiu) as Hlu.
      assert (threads s !! O = Some cur) as H0 by (by rewrite Hth).
      pose proof (claims_disjoint base k s cur O (S j) cur u I H0 Hj ltac:(done)) as Hd.
      assert (footprint sp ##ₘ footprint su) as Hdf.
      { eapply map_disjoint_weaken; [exact Hd|by eapply space_claim_sub, si_own|by eapply space_claim_sub, si_own]. }
      eapply (extents_apart (k_phys k) (footprint sp)); [apply Hi|done|by apply footprint_live|exact Hdf|exact Hin|].
      eapply owned_in_extents; [done|by left]. }
  pose proof I as [S1 S2 S3 S4 S5 S6 S7 S8 S9 S10 S11 S12 S13].
  split; cbn [k_sched k_phys k_saved k_sp with_kphys]; try done.
  - destruct K as [K1 K2 (K3 & K4 & K5) K6 K7]. split; cbn [k_phys k_root with_kphys]; try done.
    + rewrite Eh. done.
    + rewrite <-K6. apply read_entry_page. by apply Hstat.
    + eapply kernel_static_frame; [|exact Hstat|done]. intros i _ _. apply read_entry_page. by apply Hstat.
  - intros u su Hu Hsu. destruct (S4 u su Hu Hsu) as [[tu Hiu] Hsd Hku]. pose proof (Htab u su Hu Hsu) as Hntu.
    split; cbn [k_phys k_root with_kphys]; [|done|].
    + exists tu. apply (space_inv_frame_tables su (k_phys k)); [done|done|rewrite Eh; apply Hiu| |].
      * rewrite El. eapply footprint_live, inv_ledger, Hiu.
      * intros a Ha. apply Hframe. by intros ->.
    + intros i Hi' Hne. rewrite (read_entry_page (mem p') (mem (k_phys k)) (root su)).
      * rewrite Hku by done. symmetry. apply read_entry_page, Hstat. apply K.
      * apply Hframe. intros Heq. apply Hntu. rewrite <-Heq. apply (inv_tables _ _ _ Hiu). by left.
  - by rewrite El.
  - unfold active_root. by rewrite Et.
Qed.
(** ** The rest *)

Definition marked (t : Thread) : Thread := mkThread (stack_base t) (stack_pointer t) (address_space t) true.

Lemma exit_ok base k s cur :
  sched_inv base k s cur → stack_base cur ≠ 0 →
  mark_exiting k = with_sched (Some (mkScheduler (run_queue s) (Some (marked cur)) (zombies s))) k ∧
  sched_inv base (mark_exiting k) (mkScheduler (run_queue s) (Some (marked cur)) (zombies s)) (marked cur).
Proof.
  intros I Hb. pose proof I as [S1 S2 S3 S4 S5 S6 S7 S8 S9 S10 S11 S12 S13].
  assert (mark_exiting k = with_sched (Some (mkScheduler (run_queue s) (Some (marked cur)) (zombies s))) k) as E.
  { unfold mark_exiting. rewrite S1, S2. by rewrite decide_True. }
  split; [done|]. rewrite E.
  assert (threads s = cur :: run_queue s ++ zombies s) as Hth by (unfold threads; by rewrite S2).
  rewrite Hth in *.
  split; cbn [k_sched k_phys k_saved k_sp with_sched]; try done; unfold threads; cbn [current run_queue zombies option_list].
  - destruct S3 as [K1 K2 K3 K4 K5]. by split.
  - intros t sp Ht Hs. cbn in Ht. apply elem_of_cons in Ht as [->|Ht].
    + destruct (S4 cur sp ltac:(by left) Hs) as [H1 H2 H3]. by split.
    + destruct (S4 t sp ltac:(by right) Hs) as [H1 H2 H3]. by split.
  - intros t sp Ht Hs. cbn in Ht. apply elem_of_cons in Ht as [->|Ht]; [by apply (S7 cur sp); [left|]|by apply (S7 t sp); [right|]].
  - intros t Ht Hx. cbn in Ht. apply elem_of_cons in Ht as [->|Ht]; [done|by apply (S12 t); [right|]].
Qed.

Lemma run_ok base k s cur sp regs :
  sched_inv base k s cur → on_stack cur sp → sched_inv base (with_cpu sp regs k) s cur.
Proof.
  intros [S1 S2 S3 S4 S5 S6 S7 S8 S9 S10 S11 S12 S13] Hsp. split; cbn [k_sched k_phys k_saved k_sp with_cpu]; try done.
  - destruct S3 as [K1 K2 K3 K4 K5]. by split.
  - intros t su Ht Hs. destruct (S4 t su Ht Hs) as [H1 H2 H3]. by split.
Qed.

Lemma sched_init_ok k :
  kernel_ready (k_phys k) → active_root (k_phys k) ≠ 0 → frame_addr (active_root (k_phys k)) →
  static_frame (active_root (k_phys k)) → on_stack placeholder (k_sp k) →
  sched_inv (live (k_phys k)) (init k) (mkScheduler [] (Some placeholder) []) placeholder.
Proof.
  intros [[M Hh R S] Kst] H0 Hf Hs Hsp.
  assert (claims placeholder = ∅) as Ecl.
  { unfold claims, stack_claim, space_claim. rewrite decide_True by done. cbn. by rewrite (left_id_L ∅ (∪)). }
  split; cbn [k_sched k_phys k_saved k_sp init]; try done; unfold threads; cbn [current run_queue zombies];
    change (option_list (Some placeholder) ++ [] ++ []) with [placeholder].
  - intros t sp [->|[]%not_elem_of_nil]%elem_of_cons. done.
  - cbn [fmap list_fmap]. rewrite Ecl. split; [repeat constructor; apply map_disjoint_empty_r|]. by repeat constructor.
  - cbn [fmap list_fmap]. rewrite Ecl. cbn. by rewrite !(right_id_L ∅ (∪)).
  - intros t sp [->|[]%not_elem_of_nil]%elem_of_cons. done.
  - apply NoDup_singleton.
  - intros t []%not_elem_of_nil.
  - intros t [->|[]%not_elem_of_nil]%elem_of_cons. done.
  - intros t []%not_elem_of_nil.
Qed.
End ops.
