(* ===== verification/ArmThreads.v ===== *)
(** * ArmThreads: what the kernel's threads can do to one another

    The step relation of the ARM kernel's threads: computing, storing from EL0,
    spawning, building and launching the network driver, yielding, exiting,
    reaping.  The theorems are about every state it reaches. *)

From S2P Require Import Prelude Bytes Sorting StateErr Capability ArmVm ArmMmu ArmElf ArmReclaim ArmLoader ArmSpace ArmSpaceSpec ArmSpaceOps ArmWorld ArmProcess ArmNet ArmNetSpec ArmSched ArmSchedSpec ArmSchedOps.

Local Open Scope N_scope.

Section threads.
Context `{HL : HeapLaws} `{SS : SignatureScheme} (demo_key : SigningKey).

Record Launch := mkLaunch {
  l_image : list N;
  l_dev : NetDevice;
  l_info : NetBootInfo;
  l_request : option (list N);
  l_now : N;
  l_ticks : N;
  l_entry : N;
}.

Definition launch_ok (l : Launch) : Prop :=
  bytes (l_image l) ∧ len (l_image l) ≤ u64_max ∧ dev_slot (l_dev l) < SLOT_COUNT ∧ info_ok (l_info l) ∧
  ∀ b, l_request l = Some b → bytes b.

(** [setup] and then [spawn_with_address_space], as [tcp_proof.rs] and
    [marshal_transport.rs] call them. *)
Definition launch (l : Launch) (k : Kernel) : Result string (LoadedImage * option N) * Kernel :=
  match setup demo_key true (l_image l) (l_dev l) (l_info l) (l_request l) (l_now l) (l_ticks l) (k_phys k) with
  | (Ok (space, loaded, response), p) =>
      match spawn_with_address_space true (l_entry l) space (with_kphys p k) with
      | (Ok _, k) => (Ok (loaded, response), k)
      | (Err _, k) => (Err "spawn failed", k)
      end
  | (Err reason, p) => (Err reason, with_kphys p k)
  end.

Inductive kstep : Kernel → Kernel → Prop :=
  | step_run k s cur sp regs :
      k_sched k = Some s → current s = Some cur → on_stack cur sp → kstep k (with_cpu sp regs k)
  | step_store k s cur sp va b :
      k_sched k = Some s → current s = Some cur → address_space cur = Some sp →
      PRIVATE_REGION_BASE ≤ va < PRIVATE_REGION_END → b < 256 →
      kstep k (with_kphys (el0_store va b (k_phys k)) k)
  | step_spawn k entry : kstep k (spawn entry k).2
  | step_launch k s cur l :
      k_sched k = Some s → current s = Some cur → address_space cur = None → launch_ok l →
      kstep k (launch l k).2
  | step_yield k reserved k' : yield_now reserved k = Some k' → kstep k k'
  | step_exit k s cur : k_sched k = Some s → current s = Some cur → stack_base cur ≠ 0 → kstep k (mark_exiting k)
  | step_reap k s cur :
      k_sched k = Some s → current s = Some cur → k_sp k < stack_top cur → kstep k (reap_exited (λ _, true) k).2.

Lemma seedable_now base k s cur : sched_inv base k s cur → address_space cur = None → seedable (k_phys k).
Proof.
  intros I Hc. pose proof (si_kernel _ _ _ _ I) as [K1 K2 (K3 & K4 & K5) K6 K7].
  assert (active_root (k_phys k) = k_root k) as Eact.
  { rewrite (si_active _ _ _ _ I). unfold thread_root. by rewrite Hc. }
  split; rewrite ?Eact; [done|done|by left|done].
Qed.

Lemma built_fresh_space s dev p p' :
  built s dev p p' → (∀ a, kept_frame p a → page_at (mem p') a = page_at (mem p) a) → ttbr0 p' = ttbr0 p → fresh_space s p p'.
Proof. intros B Hk Ht. split; try apply B; done. Qed.

Lemma launch_ok_inv base k s cur l r k' :
  sched_inv base k s cur → address_space cur = None → launch_ok l → launch l k = (r, k') →
  (∃ t sp, is_Some (res_ok r) ∧ address_space t = Some sp ∧ sched_inv base k' (queued t s) cur ∧
     pre_free_hook sp = Some (ResetVirtioDevice, dev_base (l_dev l))) ∨
  (∃ e, r = Err e ∧ sched_inv base k' s cur ∧ live (k_phys k') = live (k_phys k)).
Proof.
  intros I Hc (Hb & Hlen & Hdev & Hinfo & Hreq). pose proof (seedable_now base k s cur I Hc) as Hs. unfold launch.
  destruct (setup _ _ _ _ _ _ _ _ _) as [[[[space loaded] response]|reason] p] eqn:Hset.
  - destruct (setup_outcome demo_key _ _ _ _ _ _ _ _ _ Hs Hb Hlen Hdev Hinfo Hreq Hset) as (Hk & Ht & B).
    pose proof (built_fresh_space _ _ _ _ B Hk Ht) as F.
    destruct (spawn_with_address_space _ _ _ _) as [r1 k1] eqn:Hsp.
    destruct (spawn_space_ok base k s cur _ _ _ _ _ I Hc F Hsp) as [(t & -> & Hts & I' & _)|(e & -> & I' & Hl)];
      intros [= <- <-].
    + left. exists t, space. split_and!; [by eexists|done|done|apply B].
    + right. eauto.
  - destruct (setup_outcome demo_key _ _ _ _ _ _ _ _ _ Hs Hb Hlen Hdev Hinfo Hreq Hset) as (Hk & Ht & Hh & Hm & Hl & _).
    intros [= <- <-]. right. exists reason. split_and!; [done|by apply sched_rephys|done].
Qed.

Lemma kstep_inv base k s cur k' : sched_inv base k s cur → kstep k k' → ∃ s' cur', sched_inv base k' s' cur'.
Proof.
  intros I Hst. pose proof (si_sched _ _ _ _ I) as Hs. pose proof (si_current _ _ _ _ I) as Hc.
  destruct Hst as [k s0 cur0 sp regs Hs0 Hc0 Hon|k s0 cur0 sp va b Hs0 Hc0 Has Hva Hb|k entry|k s0 cur0 l Hs0 Hc0 Has Hl
    |k reserved k' Hy|k s0 cur0 Hs0 Hc0 Hbase|k s0 cur0 Hs0 Hc0 Hsp];
    try (rewrite Hs in Hs0; injection Hs0 as <-; rewrite Hc in Hc0; injection Hc0 as <-).
  - eexists _, _. by apply run_ok.
  - eexists _, _. by eapply store_ok.
  - destruct (spawn entry k) as [r k'] eqn:Hsp.
    destruct (spawn_ok base k s cur entry r k' I Hsp) as [(t & -> & I' & _)|(e & -> & ->)]; eauto.
  - destruct (launch l k) as [r k'] eqn:Hl'.
    destruct (launch_ok_inv base k s cur l r k' I Has Hl Hl') as [(t & sp & _ & _ & I' & _)|(e & _ & I' & _)]; eauto.
  - destruct (run_queue s) as [|next rest] eqn:Hq.
    + unfold yield_now in Hy. rewrite Hs, Hq in Hy. injection Hy as <-. eauto.
    + destruct (yield_ok base reserved k s cur next rest I Hq) as (k1 & Hy1 & I' & _).
      rewrite Hy in Hy1. injection Hy1 as <-. eauto.
  - eexists _, _. by apply exit_ok.
  - destruct (reap_exited_ok base k s cur I Hsp) as (k' & Hr & I' & _). rewrite Hr. eauto.
Qed.

(** The states the threads reach from boot. *)
Definition booted (k : Kernel) : Prop :=
  kernel_ready (k_phys k) ∧ active_root (k_phys k) ≠ 0 ∧ frame_addr (active_root (k_phys k)) ∧
  static_frame (active_root (k_phys k)) ∧ on_stack placeholder (k_sp k).

Definition reached (k0 k : Kernel) : Prop := booted k0 ∧ rtc kstep (init k0) k.

Lemma reached_inv k0 k : reached k0 k → ∃ s cur, sched_inv (live (k_phys k0)) k s cur.
Proof.
  intros [(B1 & B2 & B3 & B4 & B5) Hr]. assert (∃ s cur, sched_inv (live (k_phys k0)) (init k0) s cur) as Hi.
  { eexists _, _. by apply sched_init_ok. }
  induction Hr as [k|k k1 k' Hs _ IH]; [done|]. apply IH. destruct Hi as (s & cur & I). by eapply kstep_inv.
Qed.
(** C24. The thread table is well formed in every state the threads reach: there is a
    running thread, its stack pointer leaves room on its own stack for one more
    context and its tables are the active ones; stacks are distinct; every other
    thread's saved context exists and lies inside that thread's stack; every address
    space is a well-formed tree of tables it owns, seeded from the kernel's. *)
Theorem threads_well_formed k0 k :
  reached k0 k → ∃ s cur, k_sched k = Some s ∧ current s = Some cur ∧
    mem_ok (mem (k_phys k)) ∧ NoDup (stack_base <$> threads s) ∧
    on_stack cur (k_sp k) ∧ active_root (k_phys k) = thread_root k cur ∧
    (∀ t, t ∈ run_queue s ++ zombies s →
       context_place (stack_base t) (stack_pointer t) ∧ is_Some (k_saved k !! stack_pointer t)) ∧
    (∀ t sp, t ∈ threads s → address_space t = Some sp →
       (∃ tr, space_inv sp (k_phys k) tr) ∧ seeded_root sp = k_root k) ∧
    (∀ t, t ∈ zombies s → exiting t = true ∧ stack_base t ≠ 0).
Proof.
  intros Hr. destruct (reached_inv k0 k Hr) as (s & cur & I). exists s, cur.
  pose proof (ko_mem _ (si_kernel _ _ _ _ I)) as Hm. destruct I as [I1 I2 I3 I4 I5 I6 I7 I8 I9 I10 I11 I12 I13].
  do 7 (split; [assumption|]). split.
  - intros t sp Ht Hs. by destruct (I4 t sp Ht Hs).
  - intros t Ht. split; [by apply I13|]. apply I12; [|by apply I13]. unfold threads. rewrite !elem_of_app. auto.
Qed.

(** ** The heap *)

Lemma union_all_lookup l a n :
  disjoint_all l → union_all l !! a = Some n ↔ ∃ i m, l !! i = Some m ∧ m !! a = Some n.
Proof.
  induction l as [|x l IH]; intros Hd.
  - cbn. rewrite lookup_empty. split; [done|]. by intros (i & m & ? & _).
  - destruct Hd as [HF Hd]. change (union_all (x :: l)) with (x ∪ union_all l).
    rewrite lookup_union_Some by (by apply union_all_disjoint). rewrite (IH Hd). split.
    + intros [Hx|(i & m & Hi & Hm)]; [by exists O, x|by exists (S i), m].
    + intros ([|i] & m & Hi & Hm); cbn in Hi; [left; by simplify_eq|right; eauto].
Qed.


(** ** Isolation *)

Lemma spaces_apart base k s cur i j t u st su :
  sched_inv base k s cur → threads s !! i = Some t → threads s !! j = Some u → i ≠ j →
  address_space t = Some st → address_space u = Some su → footprint st ##ₘ footprint su.
Proof.
  intros I Hi Hj Hne Hst Hsu. pose proof (claims_disjoint base k s cur i j t u I Hi Hj Hne) as Hd.
  pose proof (list_elem_of_lookup_2 _ _ _ Hi) as Ht. pose proof (list_elem_of_lookup_2 _ _ _ Hj) as Hu.
  eapply map_disjoint_weaken; [exact Hd|by eapply space_claim_sub, si_own|by eapply space_claim_sub, si_own].
Qed.

(** The frame an address of the window translates to. *)
Lemma walk_frame s p t va pa d :
  space_inv s p t → PRIVATE_REGION_BASE ≤ va < PRIVATE_REGION_END → walk (mem p) (root s) va = Some (pa, d) →
  device_frame (page_of pa) ∨ in_extents (footprint s) (page_of pa).
Proof.
  intros Hi Hva. rewrite (walk_tree s p t va Hi Hva).
  destruct (t_page t !! _) as [[f q]|] eqn:Hx; [|done]. cbn. intros [= <- <-].
  pose proof (tree_pages _ _ _ (inv_tree _ _ _ Hi) _ _ _ Hx) as (_ & _ & Hf & _).
  assert (page_of (f + va mod GRANULE_4KIB) = f) as ->.
  { destruct Hf as [Hm _]. change 4096 with GRANULE_4KIB in Hm. unfold page_of. clear -Hm. div_lia. }
  by eapply backing_place.
Qed.

(** ** The kernel's half *)

Lemma free_extents_mem plan p : mem (foldl free_extent p plan) = mem p.
Proof. revert p. induction plan as [|e plan IH]; intros p; [done|]. cbn [foldl]. by rewrite IH. Qed.

Lemma destroy_mem reserved s p : mem (destroy reserved s p).2 = mem p.
Proof.
  unfold destroy. destruct (is_live s p); [done|]. destruct (plan_frees _ _ _ _ _ _); cbn [snd].
  - rewrite free_extents_mem. by destruct (pre_free_hook s) as [[]|].
  - by destruct (pre_free_hook s) as [[]|].
Qed.

Lemma thread_new_mem entry k : mem (k_phys (thread_new entry k).2) = mem (k_phys k) ∧ k_root (thread_new entry k).2 = k_root k.
Proof. unfold thread_new. by destruct (heap_alloc _ _ _) as [[]|]. Qed.

Lemma enqueue_mem t k : mem (k_phys (enqueue t k).2) = mem (k_phys k) ∧ k_root (enqueue t k).2 = k_root k.
Proof. unfold enqueue. by destruct (k_sched k). Qed.

Lemma spawn_mem entry k : mem (k_phys (spawn entry k).2) = mem (k_phys k) ∧ k_root (spawn entry k).2 = k_root k.
Proof.
  unfold spawn. pose proof (thread_new_mem entry k) as [H1 H2]. destruct (thread_new entry k) as [[t|e] k1]; [|done].
  cbn in H1, H2. destruct (enqueue_mem t k1) as [-> ->]. done.
Qed.

Lemma spawn_space_mem entry s k :
  mem (k_phys (spawn_with_address_space true entry s k).2) = mem (k_phys k) ∧
  k_root (spawn_with_address_space true entry s k).2 = k_root k.
Proof.
  unfold spawn_with_address_space, discard_space. repeat case_decide; cbn [snd k_phys with_kphys k_root]; [by rewrite destroy_mem..|].
  pose proof (thread_new_mem entry k) as [E1 E2]. destruct (thread_new entry k) as [[t|e] k1]; cbn [snd] in *.
  - destruct (enqueue_mem (mkThread (stack_base t) (stack_pointer t) (Some s) (exiting t)) k1) as [-> ->]. done.
  - cbn [k_phys with_kphys k_root]. by rewrite destroy_mem.
Qed.

Lemma launch_static base k s cur l a :
  sched_inv base k s cur → address_space cur = None → launch_ok l → static_frame a →
  page_at (mem (k_phys (launch l k).2)) a = page_at (mem (k_phys k)) a ∧ k_root (launch l k).2 = k_root k.
Proof.
  intros I Hc (Hb & Hlen & Hdev & Hinfo & Hreq) Ha. pose proof (seedable_now base k s cur I Hc) as Hs. unfold launch.
  destruct (setup _ _ _ _ _ _ _ _ _) as [r p] eqn:Hset.
  destruct (setup_outcome demo_key _ _ _ _ _ _ _ _ _ Hs Hb Hlen Hdev Hinfo Hreq Hset) as (Hk & _ & _).
  specialize (Hk a (or_introl Ha)). destruct r as [[[space loaded] response]|reason]; [|done].
  pose proof (spawn_space_mem (l_entry l) space (with_kphys p k)) as [E1 E2].
  destruct (spawn_with_address_space _ _ _ _) as [[]]; cbn [snd] in *; by rewrite E1, E2.
Qed.

Lemma kstep_static base k s cur k' a :
  sched_inv base k s cur → kstep k k' → static_frame a →
  page_at (mem (k_phys k')) a = page_at (mem (k_phys k)) a ∧ k_root k' = k_root k.
Proof.
  intros I Hst Ha. pose proof (si_sched _ _ _ _ I) as Hs. pose proof (si_current _ _ _ _ I) as Hc.
  destruct Hst as [k s0 cur0 sp regs Hs0 Hc0 Hon|k s0 cur0 sp va b Hs0 Hc0 Has Hva Hb|k entry|k s0 cur0 l Hs0 Hc0 Has Hl
    |k reserved k' Hy|k s0 cur0 Hs0 Hc0 Hbase|k s0 cur0 Hs0 Hc0 Hsp];
    try (rewrite Hs in Hs0; injection Hs0 as <-; rewrite Hc in Hc0; injection Hc0 as <-).
  - done.
  - split; [|done]. cbn [k_phys with_kphys].
    assert (cur ∈ threads s) as Hct by (unfold threads; rewrite Hc; by left).
    destruct (si_spaces _ _ _ _ I cur sp Hct Has) as [[tr Hi] _ _].
    assert (active_root (k_phys k) = root sp) as Hact by (rewrite (si_active _ _ _ _ I); unfold thread_root; by rewrite Has).
    destruct (el0_store_place sp (k_phys k) tr va b Hi Hact Hva Hb) as (_ & _ & _ & [->|(f & Hin & _ & Hframe)]); [done|].
    apply Hframe. intros ->. eapply (static_apart (k_phys k) (footprint sp)); [apply Hi|by eapply footprint_live, inv_ledger|done|done].
  - by destruct (spawn_mem entry k) as [-> ->].
  - by apply (launch_static base k s cur).
  - destruct (run_queue s) as [|next rest] eqn:Hq.
    + unfold yield_now in Hy. rewrite Hs, Hq in Hy. by injection Hy as <-.
    + destruct (yield_ok base reserved k s cur next rest I Hq) as (k1 & Hy1 & _ & _ & _ & _ & Hm & _ & Hr).
      rewrite Hy in Hy1. injection Hy1 as <-. by rewrite Hm.
  - destruct (exit_ok base k s cur I Hbase) as [-> _]. done.
  - destruct (reap_exited_ok base k s cur I Hsp) as (k' & Hr & _ & Hm & _). unfold reap_exited in *. rewrite Hs in *.
    injection Hr as _ <-. cbn [snd k_phys k_root] in *. by rewrite Hm.
Qed.

Lemma reached_static k0 k a :
  reached k0 k → static_frame a → page_at (mem (k_phys k)) a = page_at (mem (k_phys k0)) a ∧ k_root k = active_root (k_phys k0).
Proof.
  intros [(B1 & B2 & B3 & B4 & B5) Hr] Ha.
  assert (∃ s cur, sched_inv (live (k_phys k0)) (init k0) s cur) as Hi by (eexists _, _; by apply sched_init_ok).
  assert (page_at (mem (k_phys (init k0))) a = page_at (mem (k_phys k0)) a ∧ k_root (init k0) = active_root (k_phys k0)) as H0 by done.
  induction Hr as [k|k k1 k' Hs _ IH]; [done|]. destruct Hi as (s & cur & I).
  destruct (kstep_static _ k s cur k1 a I Hs Ha) as [E1 E2]. destruct H0 as [H1 H2].
  apply IH; [by eapply kstep_inv|]. by rewrite E1, E2.
Qed.

(** Whatever the threads do, whichever of them is running: outside the private
    window every thread's tables translate every address exactly as the tables the
    kernel booted with did. *)
Theorem kernel_half_immutable k0 k s t va :
  reached k0 k → k_sched k = Some s → t ∈ threads s → l1_index va ≠ 2 →
  walk (mem (k_phys k)) (thread_root k t) va = walk (mem (k_phys k0)) (active_root (k_phys k0)) va.
Proof.
  intros Hr Hs Ht Hva. destruct (reached_inv k0 k Hr) as (s' & cur & I).
  assert (s' = s) as -> by (pose proof (si_sched _ _ _ _ I); congruence).
  assert (static_frame (k_root k)) as Hst by apply (ko_root _ (si_kernel _ _ _ _ I)).
  destruct (reached_static k0 k _ Hr Hst) as [Hroot Er].
  assert (∀ a, static_frame a → page_at (mem (k_phys k)) a = page_at (mem (k_phys k0)) a) as Hsame.
  { intros a Ha. by apply (reached_static k0 k a Hr Ha). }
  assert (∀ i, read_entry (mem (k_phys k)) (k_root k) i = read_entry (mem (k_phys k0)) (active_root (k_phys k0)) i) as Hent.
  { intros i. unfold read_entry. by rewrite Hroot, Er. }
  destruct Hr as [((_ & Hk) & _) _]. apply kernel_walk; [|done|done|done]. intros i Hi Hne.
  unfold thread_root. destruct (address_space t) as [sp|] eqn:Hsp; [|apply Hent].
  destruct (si_spaces _ _ _ _ I t sp Ht Hsp) as [_ _ Hkern]. by rewrite Hkern.
Qed.
(** ** Registers across switches *)

(** The threads as a reader of [yield_now] thinks of them: one runs, with the
    processor's registers, and each other is parked with its own. *)
Record Cores := mkCores {
  c_running : N;
  c_cpu : option Context * N;
  c_parked : gmap N (option Context * N);
}.

Definition parked_at (k : Kernel) (t : Thread) : option Context * N :=
  (k_saved k !! stack_pointer t, stack_pointer t + CONTEXT_SIZE).

Definition cores (k : Kernel) (s : Scheduler) (cur : Thread) : Cores :=
  mkCores (stack_base cur) (Some (k_regs k), k_sp k)
    (list_to_map ((λ t, (stack_base t, parked_at k t)) <$> run_queue s ++ zombies s)).

Lemma waiting_ids base k s cur :
  sched_inv base k s cur →
  NoDup (stack_base <$> run_queue s ++ zombies s) ∧ stack_base cur ∉ stack_base <$> run_queue s ++ zombies s.
Proof.
  intros I. pose proof (si_ids _ _ _ _ I) as Hids. unfold threads in Hids. rewrite (si_current _ _ _ _ I) in Hids.
  cbn in Hids. apply NoDup_cons in Hids as [Hn Hids]. done.
Qed.

Lemma parked_lookup base k s cur x v :
  sched_inv base k s cur →
  c_parked (cores k s cur) !! x = Some v ↔ ∃ t, t ∈ run_queue s ++ zombies s ∧ stack_base t = x ∧ v = parked_at k t.
Proof.
  intros I. destruct (waiting_ids base k s cur I) as [Hnd _]. cbn [c_parked cores].
  rewrite <-elem_of_list_to_map by (by rewrite <-list_fmap_compose). rewrite list_elem_of_fmap. split.
  - intros (t & [= -> ->] & Ht). eauto.
  - intros (t & Ht & <- & ->). eauto.
Qed.

(** C19. One [yield_now] is one step of round robin over parked threads: the first in the
    queue gets the processor with exactly the registers and stack pointer it parked
    with and under its own translation root, the one that yielded is parked with the
    processor's and goes to the back of the queue (or, exiting, to the zombies), and
    every other parked thread stays as it was. *)
Theorem yield_refines k0 k s cur next rest reserved :
  reached k0 k → k_sched k = Some s → current s = Some cur → run_queue s = next :: rest →
  ∃ k' s', yield_now reserved k = Some k' ∧ k_sched k' = Some s' ∧ current s' = Some next ∧
    c_parked (cores k s cur) !! stack_base next = Some (c_cpu (cores k' s' next)) ∧
    c_parked (cores k' s' next) = <[stack_base cur := c_cpu (cores k s cur)]> (delete (stack_base next) (c_parked (cores k s cur))) ∧
    active_root (k_phys k') = thread_root k' next ∧
    stack_base <$> run_queue s' = (stack_base <$> rest) ++ (if exiting cur && reserved then [] else [stack_base cur]) ∧
    stack_base <$> zombies s' = (stack_base <$> zombies s) ++ (if exiting cur && reserved then [stack_base cur] else []).
Proof.
  intros Hr Hs Hc Hq. destruct (reached_inv k0 k Hr) as (s1 & cur1 & I).
  assert (s1 = s) as -> by (pose proof (si_sched _ _ _ _ I); congruence).
  assert (cur1 = cur) as -> by (pose proof (si_current _ _ _ _ I); congruence).
  destruct (yield_ok _ reserved k s cur next rest I Hq) as (k' & Hy & I' & Hregs & Hsp & Hsv & _ & _ & _).
  destruct (waiting_ids _ k s cur I) as [Hnd Hcn]. destruct (yielded_threads reserved k s cur next rest Hc Hq) as [Hpq _].
  destruct (si_running _ _ _ _ I) as [Hroom _].
  exists k', (yielded reserved k s cur next rest). split_and!; [done|apply I'|apply I'| | |apply I'| |].
  - apply (parked_lookup _ k s cur _ _ I). exists next. split_and!; [rewrite Hq; by left|done|].
    unfold parked_at. by rewrite Hregs, <-Hsp.
  - apply map_eq. intros x. apply option_eq. intros v. rewrite (parked_lookup _ k' _ next x v I').
    rewrite lookup_insert_Some, lookup_delete_Some, (parked_lookup _ k s cur x v I). setoid_rewrite Hpq.
    rewrite Hq in Hnd, Hcn |- *. cbn [app fmap list_fmap] in Hnd, Hcn. apply NoDup_cons in Hnd as [Hnn Hnd].
    assert (∀ t, t ∈ rest ++ zombies s → parked_at k' t = parked_at k t) as Hsame.
    { intros t Ht. unfold parked_at. rewrite Hsv, lookup_insert_ne; [done|]. intros Heq.
      by eapply (saved_apart _ k s cur t I); [rewrite Hq; right|]. }
    split.
    + intros (t & [->|Ht]%elem_of_cons & <- & ->).
      * left. split; [done|]. unfold parked_at. cbn [stack_pointer set_sp]. rewrite Hsv, lookup_insert_eq.
        cbn [c_cpu cores]. f_equal. unfold CONTEXT_SIZE in *. lia.
      * right. split_and!.
        -- intros Heq. apply Hcn. rewrite Heq. right. by apply list_elem_of_fmap_2.
        -- intros Heq. apply Hnn. rewrite Heq. by apply list_elem_of_fmap_2.
        -- exists t. split_and!; [by right|done|by apply Hsame].
    + intros [[<- <-]|(Hne & Hnx & t & [->|Ht]%elem_of_cons & <- & ->)]; [|done|].
      * exists (set_sp (k_sp k - CONTEXT_SIZE) cur). split_and!; [by left|done|].
        unfold parked_at. cbn [stack_pointer set_sp]. rewrite Hsv, lookup_insert_eq. cbn [c_cpu cores].
        f_equal. unfold CONTEXT_SIZE in *. lia.
      * exists t. split_and!; [by right|done|]. symmetry. by apply Hsame.
  - unfold yielded. cbn [set_sp exiting]. case_match; cbn; [by rewrite app_nil_r|by rewrite fmap_app].
  - unfold yielded. cbn [set_sp exiting]. case_match; cbn; [by rewrite fmap_app|by rewrite app_nil_r].
Qed.
(** ** Reaping *)

(** [reap_exited] never has to give a thread back: every zombie is freed, stack and
    address space, and what leaves the heap is exactly what the zombies held. *)
Theorem reap_complete k0 k s cur :
  reached k0 k → k_sched k = Some s → current s = Some cur → k_sp k < stack_top cur →
  ∃ k' s', reap_exited (λ _, true) k = (len (zombies s), k') ∧ k_sched k' = Some s' ∧ zombies s' = [] ∧
    run_queue s' = run_queue s ∧ current s' = Some cur ∧
    (∀ a n, live (k_phys k') !! a = Some n ↔ live (k_phys k) !! a = Some n ∧ ∀ z, z ∈ zombies s → claims z !! a = None) ∧
    mem (k_phys k') = mem (k_phys k) ∧ k_saved k' = k_saved k.
Proof.
  intros Hr Hs Hc Hsp. destruct (reached_inv k0 k Hr) as (s1 & cur1 & I).
  assert (s1 = s) as -> by (pose proof (si_sched _ _ _ _ I); congruence).
  assert (cur1 = cur) as -> by (pose proof (si_current _ _ _ _ I); congruence).
  destruct (reap_exited_ok _ k s cur I Hsp) as (k' & Hre & I' & Hm & Hsv & _).
  eexists k', _. split; [done|]. split; [apply I'|]. split_and!; try done. intros a n.
  rewrite (si_live _ _ _ _ I), (si_live _ _ _ _ I'). pose proof (si_claims _ _ _ _ I) as [HB Hd]. apply union_all_disjoint in HB.
  assert (threads s = threads (mkScheduler (run_queue s) (Some cur) []) ++ zombies s) as Hth.
  { unfold threads. rewrite Hc. cbn. by rewrite app_nil_r. }
  rewrite Hth, fmap_app, union_all_app in *. set (A := union_all (claims <$> threads (mkScheduler _ _ _))) in *.
  apply map_disjoint_union_r in HB as [HBA HBZ]. apply disjoint_all_split in Hd as [_ [HAZ Hdz]].
  apply union_all_disjoint in HAZ. fold A in HAZ.
  rewrite !lookup_union_Some by (done || by apply map_disjoint_union_r).
  assert (∀ z, z ∈ zombies s → claims z ⊆ union_all (claims <$> zombies s)) as Hsub.
  { intros z Hz. apply union_all_sub; [done|by apply list_elem_of_fmap_2]. }
  assert (∀ m : gmap N N, m ##ₘ union_all (claims <$> zombies s) → m !! a = Some n → ∀ z, z ∈ zombies s → claims z !! a = None) as Hout.
  { intros m Hdm Hma z Hz. apply eq_None_not_Some. intros [x Hx]. pose proof (lookup_weaken _ _ _ _ Hx (Hsub z Hz)) as Hu.
    by apply (map_disjoint_spec _ _) with (i := a) (x := n) (y := x) in Hdm. }
  split.
  - intros [Hb|Ha]; (split; [tauto|]); [exact (Hout _ HBZ Hb)|exact (Hout _ HAZ Ha)].
  - intros [[Hb|[Ha|Hz]] Hnone]; [tauto|tauto|]. exfalso.
    apply union_all_lookup in Hz as (i & m & Hi & Hm'); [|done]. rewrite list_lookup_fmap in Hi.
    destruct (zombies s !! i) as [z|] eqn:Hz; [|done]. cbn in Hi. injection Hi as <-.
    rewrite (Hnone z) in Hm'; [done|by eapply list_elem_of_lookup_2].
Qed.
End threads.
