(* ===== verification/ArmChecks.v ===== *)
(** * ArmChecks: the kernel's own boot checks

    Model of [prove_load] of [kernel-arm/src/load_proof.rs] and [prove_isolation] of
    [process.rs], the checks the kernel runs on itself at boot, with the processor's
    translation in place of the hardware's.  The theorems say that from a ready
    kernel neither check can fail for any reason but memory. *)

From S2P Require Import Prelude Bytes Sorting StateErr ArmVm ArmMmu ArmElf ArmReclaim ArmLoader ArmSpace ArmSpaceSpec ArmSpaceOps ArmWorld ArmProcess ArmNet ArmNetSpec ArmSched ArmSchedSpec ArmSchedOps.

Local Open Scope N_scope.

(** ** [load_proof.rs] *)

Definition AP_MASK : N := N.shiftl 3 6.
Definition TEXT_VADDR : N := PRIVATE_REGION_BASE + 0x00200000.
Definition DATA_VADDR : N := PRIVATE_REGION_BASE + 0x00210000.
Definition TEXT : list N := [0x1f; 0x20; 0x03; 0xd5].
Definition DATA : list N := [0x72; 0x75; 0x6e; 0x69; 0x78].
Definition BSS_LEN : N := 32.

Definition proof_phdrs : list LoadSegment :=
  let payload_offset := ELF_HEADER_SIZE + 2 * PHDR_SIZE in
  [ mkSegment (N.lor PF_R PF_X) payload_offset TEXT_VADDR (len TEXT) (len TEXT);
    mkSegment (N.lor PF_R PF_W) (payload_offset + len TEXT) DATA_VADDR (len DATA) (len DATA + BSS_LEN) ].

Definition build_proof_image : list N := build_image TEXT_VADDR proof_phdrs (TEXT ++ DATA).

Inductive Verdict :=
  | Pass
  | Failed (why : string)
  | DataAbort.

Section checks.
Context `{Heap}.

(** [read_volatile] at EL1: any valid translation serves a read. *)
Definition el1_read (p : Phys) (va : N) : option N :=
  '(pa, _) ← walk (mem p) (active_root p) va; Some (phys_byte (mem p) pa).

(** [AT S1E0R], [AT S1E0W] and [AT S1E1R] *)
Definition el0_can_read (p : Phys) (va : N) : bool :=
  match walk (mem p) (active_root p) va with Some (_, d) => el0_readable d | None => false end.
Definition el0_can_write (p : Phys) (va : N) : bool :=
  match walk (mem p) (active_root p) va with Some (_, d) => el0_writable d | None => false end.
Definition translate_read (p : Phys) (va : N) : N :=
  match walk (mem p) (active_root p) va with
  | Some (pa, _) => N.lor (N.land pa DESC_ADDR_MASK) (N.land va (GRANULE_4KIB - 1))
  | None => 0
  end.

Definition wx_ok (text_desc data_desc stack_desc : N) : bool :=
  (N.land text_desc AP_MASK =? AP_EL0_RO) && (N.land text_desc UXN =? 0) && negb (N.land text_desc PXN =? 0) &&
  (N.land data_desc AP_MASK =? AP_EL0_RW) && negb (N.land data_desc UXN =? 0) && negb (N.land data_desc PXN =? 0) &&
  (N.land stack_desc AP_MASK =? AP_EL0_RW) && negb (N.land stack_desc UXN =? 0) && negb (N.land stack_desc PXN =? 0).

Definition prove_load (p : Phys) : Verdict * Phys :=
  match parse build_proof_image with
  | Err _ => (Failed "parse", p)
  | Ok elf =>
  match space_new p with
  | (Err _, p) => (Failed "address space", p)
  | (Ok space, p) =>
  match load elf (space, p) with
  | (Err _, (space, p)) => (Failed "load", p)
  | (Ok loaded, (space, p)) =>
  match page_descriptor space p TEXT_VADDR, page_descriptor space p DATA_VADDR, page_descriptor space p STACK_BASE with
  | Some text_desc, Some data_desc, Some stack_desc =>
      let wx := wx_ok text_desc data_desc stack_desc in
      let '(previous, p) := activate space p in
      match mapM (λ i, el1_read p (TEXT_VADDR + N.of_nat i)) (seq 0 4),
            mapM (λ i, el1_read p (DATA_VADDR + N.of_nat i)) (seq 0 5),
            mapM (λ i, el1_read p (DATA_VADDR + len DATA + N.of_nat i)) (seq 0 (N.to_nat BSS_LEN)) with
      | Some text_read, Some data_read, Some bss =>
          let text_el0_read := el0_can_read p TEXT_VADDR in
          let text_el0_write := el0_can_write p TEXT_VADDR in
          let data_el0_read := el0_can_read p DATA_VADDR in
          let data_el0_write := el0_can_write p DATA_VADDR in
          let p := restore previous p in
          let content_ok := bool_decide (text_read = TEXT) && bool_decide (data_read = DATA) &&
                            bool_decide (Forall (λ b, b = 0) bss) in
          let hardware_ok := text_el0_read && negb text_el0_write && data_el0_read && data_el0_write in
          (if content_ok && wx && hardware_ok then Pass else Failed "checks", p)
      | _, _, _ => (DataAbort, p)
      end
  | _, _, _ => (Failed "no private page descriptor", p)
  end
  end
  end
  end.

(** ** [process.rs] *)

Definition PROOF_VA : N := PRIVATE_REGION_BASE + 0x00123000.

Definition prove_isolation (p : Phys) : Verdict * Phys :=
  match space_new p with
  | (Err _, p) => (Failed "space A", p)
  | (Ok a, p) =>
  match space_new p with
  | (Err _, p) => (Failed "space B", p)
  | (Ok b, p) =>
  match map_private_page PROOF_VA (a, p) with
  | (Err _, (_, p)) => (Failed "map A", p)
  | (Ok page_a, (a, p)) =>
  let p := page_written page_a 0 [0xAA] p in
  match map_private_page PROOF_VA (b, p) with
  | (Err _, (_, p)) => (Failed "map B", p)
  | (Ok page_b, (b, p)) =>
  let p := page_written page_b 0 [0xBB] p in
  if decide (byte_at (page_at (mem p) page_a) 0 ≠ 0xAA) then (Failed "clobbered", p) else
  let '(previous, p) := activate a p in
  let observed_a := el1_read p PROOF_VA in
  let translated_a := translate_read p PROOF_VA in
  let p := restore previous p in
  let '(previous, p) := activate b p in
  let observed_b := el1_read p PROOF_VA in
  let translated_b := translate_read p PROOF_VA in
  let p := restore previous p in
  match observed_a, observed_b with
  | Some observed_a, Some observed_b =>
      (if decide (observed_a = 0xAA ∧ observed_b = 0xBB ∧ translated_a ≠ translated_b) then Pass
       else Failed "not isolated", p)
  | _, _ => (DataAbort, p)
  end
  end
  end
  end
  end.
End checks.

(** ** The load check passes *)

Definition proof_elf : Elf64 := mkElf build_proof_image TEXT_VADDR ELF_HEADER_SIZE 2.

Lemma parse_proof_image : parse build_proof_image = Ok proof_elf.
Proof. by vm_compute. Qed.

Lemma proof_segments : segments proof_elf = proof_phdrs.
Proof. by vm_compute. Qed.

Lemma proof_image_bytes : bytes build_proof_image ∧ len build_proof_image ≤ u64_max.
Proof. split; [|by vm_compute]. apply (bool_decide_unpack _). by vm_compute. Qed.

Lemma desc_field f q k :
  frame_addr f → perm_ok q → N.land PERM_MASK k = k → N.land (normal_4kib_page_descriptor f q) k = N.land q k.
Proof. intros Hf Hq Hk. rewrite <-Hk, !N.land_assoc, (page_desc_perm f q Hf Hq), Hq. done. Qed.

Lemma mapM_total {A B} (f : A → option B) (g : A → B) l :
  (∀ x, x ∈ l → f x = Some (g x)) → mapM f l = Some (g <$> l).
Proof.
  induction l as [|x l IH]; intros Hf; [done|]. cbn. rewrite (Hf x) by apply list_elem_of_here. cbn.
  rewrite IH; [done|]. intros y Hy. apply Hf. by right.
Qed.

Section passes.
Context `{HL : HeapLaws}.

Lemma activated_root s p : frame_addr (root s) → active_root (activate s p).2 = root s.
Proof. intros Hf. unfold activate, active_root. cbn. by rewrite !frame_mask by (done || by rewrite frame_mask). Qed.

(** A mapped page's descriptor, as [page_descriptor] reads it back. *)
Lemma descriptor_space_page s p t va q bs :
  space_inv s p t → private_page va → space_page (s, p) va = Some (q, bs) →
  ∃ f, frame_addr f ∧ perm_ok q ∧ page_descriptor s p va = Some (normal_4kib_page_descriptor f q).
Proof.
  intros Hi Hva. rewrite (space_page_tree s p t va Hi Hva), (page_descriptor_tree s p t va Hi Hva).
  destruct (t_page t !! va) as [[f q']|] eqn:Hx; [|done]. cbn. intros [= <- <-].
  apply (tree_pages _ _ _ (inv_tree _ _ _ Hi)) in Hx as (_ & _ & Hf & Hq). by exists f.
Qed.

Lemma proof_descriptors s p t :
  space_inv s p t → loadable proof_elf → (∀ va, private_page va → space_page (s, p) va = load_map proof_elf !! va) →
  ∃ dt dd ds, page_descriptor s p TEXT_VADDR = Some dt ∧ page_descriptor s p DATA_VADDR = Some dd ∧
    page_descriptor s p STACK_BASE = Some ds ∧ wx_ok dt dd ds = true.
Proof.
  intros Hi Hl Hmap.
  assert (∀ va sg, private_page va → sg ∈ proof_phdrs → va ∈ seg_pages sg → ∃ f, frame_addr f ∧ perm_ok (seg_perm sg) ∧
    page_descriptor s p va = Some (normal_4kib_page_descriptor f (seg_perm sg))) as Hseg.
  { intros va sg Hva Hs Hp. eapply descriptor_space_page; [done|done|]. rewrite Hmap by done.
    apply load_map_seg; [done|by rewrite proof_segments|done]. }
  assert (∀ sg va, va ∈ seg_pages sg ↔ bool_decide (va ∈ seg_pages sg) = true) as Hdec.
  { intros. by rewrite bool_decide_eq_true. }
  destruct (Hseg TEXT_VADDR (mkSegment (N.lor PF_R PF_X) 176 TEXT_VADDR 4 4)) as (ft & Hft & Hqt & Ht);
    [by vm_compute|by left|apply Hdec; by vm_compute|].
  destruct (Hseg DATA_VADDR (mkSegment (N.lor PF_R PF_W) 180 DATA_VADDR 5 37)) as (fd & Hfd & Hqd & Hd);
    [by vm_compute|by right; left|apply Hdec; by vm_compute|].
  destruct (descriptor_space_page s p t STACK_BASE RW_PERM zero_page) as (fs & Hfs & Hqs & Hsd);
    [done|by vm_compute|rewrite Hmap by (by vm_compute); by apply load_map_stack|].
  eexists _, _, _. split; [exact Ht|]. split; [exact Hd|]. split; [exact Hsd|].
  unfold wx_ok. rewrite !desc_field by done. by vm_compute.
Qed.

(** What the check reads and probes, once the space is active. *)
Lemma proof_reads s p t :
  space_inv s p t → program_view proof_elf (mem p) (root s) →
  let p' := (activate s p).2 in
  mapM (λ i, el1_read p' (TEXT_VADDR + N.of_nat i)) (seq 0 4) = Some TEXT ∧
  mapM (λ i, el1_read p' (DATA_VADDR + N.of_nat i)) (seq 0 5) = Some DATA ∧
  mapM (λ i, el1_read p' (DATA_VADDR + len DATA + N.of_nat i)) (seq 0 (N.to_nat BSS_LEN)) =
    Some (replicate (N.to_nat BSS_LEN) 0) ∧
  el0_can_read p' TEXT_VADDR = true ∧ el0_can_write p' TEXT_VADDR = false ∧
  el0_can_read p' DATA_VADDR = true ∧ el0_can_write p' DATA_VADDR = true.
Proof.
  intros Hi V p'. pose proof (activated_root s p (proj1 (proj2 (space_root_frame s p t Hi)))) as Ha. fold p' in Ha.
  set (st := mkSegment (N.lor PF_R PF_X) 176 TEXT_VADDR 4 4).
  set (sd := mkSegment (N.lor PF_R PF_W) 180 DATA_VADDR 5 37).
  assert (∀ sg va, sg ∈ proof_phdrs → bool_decide (page_of va ∈ seg_pages sg) = true →
    el1_read p' va = Some (seg_byte proof_elf sg va) ∧ el0_can_read p' va = true ∧
    (el0_can_write p' va = true ↔ N.land (seg_flags sg) PF_W ≠ 0)) as Hv.
  { intros sg va Hs Hp%bool_decide_eq_true. rewrite <-proof_segments in Hs.
    destruct (view_segment _ _ _ V sg va Hs Hp) as (pa & d & Hw & Hb & Hr & _ & Hwr & _).
    unfold el1_read, el0_can_read, el0_can_write. rewrite Ha. change (mem p') with (mem p). rewrite Hw. cbn.
    by rewrite Hb. }
  assert (st ∈ proof_phdrs) as Hst by by left. assert (sd ∈ proof_phdrs) as Hsd by by right; left.
  assert (∀ n base sg, sg ∈ proof_phdrs →
    forallb (λ i, bool_decide (page_of (base + N.of_nat i) ∈ seg_pages sg)) (seq 0 n) = true →
    mapM (λ i, el1_read p' (base + N.of_nat i)) (seq 0 n) =
      Some ((λ i, seg_byte proof_elf sg (base + N.of_nat i)) <$> seq 0 n)) as Hm.
  { intros n base sg Hs Hall. apply mapM_total. intros i Hin. apply Hv; [done|].
    rewrite forallb_forall in Hall. by apply Hall, list_elem_of_In. }
  split_and!.
  - rewrite (Hm 4%nat TEXT_VADDR st Hst) by by vm_compute. by vm_compute.
  - rewrite (Hm 5%nat DATA_VADDR sd Hsd) by by vm_compute. by vm_compute.
  - rewrite (Hm _ (DATA_VADDR + len DATA) sd Hsd) by by vm_compute. by vm_compute.
  - by apply (Hv st).
  - apply not_true_is_false. intros Hw. by apply (Hv st TEXT_VADDR Hst eq_refl) in Hw.
  - by apply (Hv sd).
  - by apply (Hv sd DATA_VADDR Hsd eq_refl).
Qed.

Lemma start_proof_image p s loaded p1 s1 p2 :
  space_new p = (Ok s, p1) → load proof_elf (s, p1) = (Ok loaded, (s1, p2)) →
  start_program build_proof_image p = (Ok (s1, loaded), p2).
Proof. intros Hn Hl. unfold start_program. by rewrite parse_proof_image, Hn, Hl. Qed.

(** The loader's boot check can fail for one reason only: memory.  From a kernel
    whose tables are ready, [prove_load] reports PASS whenever the space and the
    load succeed; no read it makes can abort; and on every path TTBR0 is left as it
    was found. *)
Theorem prove_load_passes p v p' :
  kernel_ready p → prove_load p = (v, p') →
  ttbr0 p' = ttbr0 p ∧
  (v = Pass ∨ (v = Failed "address space" ∧ p' = p) ∨ v = Failed "load").
Proof.
  intros [Hs _]. unfold prove_load. rewrite parse_proof_image. destruct proof_image_bytes as [Hb Hlen].
  destruct (space_new p) as [[s|e] p1] eqn:Hn; cycle 1.
  { intros [= <- <-]. apply space_new_Err in Hn as ->. auto. }
  destruct (space_new_Ok p s p1 Hs Hn) as (Hi1 & _ & _ & _ & _ & _ & _ & _ & Ht1 & _).
  destruct (load proof_elf (s, p1)) as [[loaded|e] [s2 p2]] eqn:Hld; cycle 1.
  { intros [= <- <-]. assert (held (s, p1) (s, p1)) as H0 by (split; [by eexists|apply extends_refl]).
    pose proof (load_held (s, p1) proof_elf Hb _ H0) as Hk. unfold Proc in Hk. rewrite Hld in Hk. destruct Hk as [_ E].
    pose proof (ext_ttbr0 _ _ E) as Ht. cbn in Ht. rewrite Ht, Ht1. auto. }
  destruct (start_program_Ok _ p s2 loaded p2 Hs Hb Hlen (start_proof_image _ _ _ _ _ _ Hn Hld)) as (elf & He & St & _).
  rewrite parse_proof_image in He. injection He as <-.
  destruct (started_inv _ _ _ _ St) as [t Hi]. pose proof (started_loadable _ _ _ _ St) as Hl.
  destruct (proof_descriptors s2 p2 t Hi Hl (started_pages _ _ _ _ St)) as (dt & dd & ds & -> & -> & -> & ->).
  assert (program_view proof_elf (mem p2) (root s2)) as V by by eapply space_program_view; [..|apply St].
  pose proof (proof_reads s2 p2 t Hi V) as Hr. unfold activate in *. cbn [snd] in Hr.
  destruct Hr as (-> & -> & -> & -> & -> & -> & ->). intros [= <- <-]. split; [apply St|]. by left.
Qed.

(** ** The isolation check passes *)

Definition PROOF_PERM : N := N.lor AP_EL0_RW (N.lor UXN PXN).

(** A space with one private page, whose first byte is [b]. *)
Definition one_page (s : AddressSpace) (p : Phys) (f b : N) : Prop :=
  ∃ t, space_inv s p t ∧ t_page t = {[PROOF_VA := (f, PROOF_PERM)]} ∧ f ∈ owned_pages s ∧
    byte_at (page_at (mem p) f) 0 = b.

Lemma proof_va_private : private_page PROOF_VA.
Proof. by vm_compute. Qed.

Lemma first_byte bs b : length bs = 4096%nat → byte_at (copy_at bs 0 [b]) 0 = b.
Proof. destruct bs; [done|]. intros _. done. Qed.

Lemma map_one s p f s' p' b :
  space_inv s p (mkTree None ∅ ∅) → b < 256 → map_private_page PROOF_VA (s, p) = (Ok f, (s', p')) →
  one_page s' (page_written f 0 [b] p') f b ∧ extends (s, p) (s', page_written f 0 [b] p').
Proof.
  intros Hi Hb Hm. destruct (map_private_page_with_Ok s p _ PROOF_VA _ f _ Hi (eq_refl : perm_ok PROOF_PERM) Hm)
    as [_ [t' [I1 P1 G1 O1 B1 F1 Z1 M1]]]. cbn [fst snd] in *.
  assert (f ∈ owned_pages s') as Hf by (rewrite O1; apply elem_of_app; right; by left).
  destruct (page_written_inv s' p' t' f 0 [b] I1 Hf) as [I2 G2]; [done|by repeat constructor|].
  split; [|apply (grows_extends s p); [apply Hi|apply I2|by eapply grows_trans]].
  exists t'. split_and!; [done|by rewrite P1|done|]. unfold page_written. cbn [mem set_mem].
  rewrite page_at_insert, decide_True by done. apply first_byte, length_page_at, I1.
Qed.

Lemma one_page_other s p s' p' t' s2 f b :
  one_page s2 p f b → extends (s, p) (s', p') → space_inv s' p' t' → footprint s ##ₘ footprint s2 →
  one_page s2 p' f b ∧ footprint s' ##ₘ footprint s2.
Proof.
  intros (t2 & Hi2 & Hp & Hf & Hb) E Hi' Hd.
  destruct (extends_other s p s' p' t' s2 t2 E Hi' Hi2 Hd) as (I2 & Hd' & Hsame). split; [|done].
  exists t2. split_and!; [done..|]. specialize (Hsame PROOF_VA proof_va_private).
  rewrite (space_page_tree s2 p' t2 _ I2 proof_va_private), (space_page_tree s2 p t2 _ Hi2 proof_va_private), Hp in Hsame.
  rewrite lookup_singleton_eq in Hsame. cbn in Hsame. injection Hsame as ->. done.
Qed.

Lemma one_page_read s p f b : one_page s p f b →
  let p' := (activate s p).2 in el1_read p' PROOF_VA = Some b ∧ translate_read p' PROOF_VA = f.
Proof.
  intros (t & Hi & Hp & _ & Hb) p'. pose proof (proj1 (proj2 (space_root_frame s p t Hi))) as Hfr.
  pose proof (activated_root s p Hfr) as Ha. fold p' in Ha. unfold el1_read, translate_read. rewrite Ha.
  change (mem p') with (mem p).
  assert (t_page t !! PROOF_VA = Some (f, PROOF_PERM)) as Hx by (rewrite Hp; apply lookup_singleton_eq).
  rewrite (walk_tree s p t PROOF_VA Hi) by done.
  change (PROOF_VA - PROOF_VA mod GRANULE_4KIB) with PROOF_VA. rewrite Hx. cbn [fmap option_fmap option_map fst snd].
  apply (tree_pages _ _ _ (inv_tree _ _ _ Hi)) in Hx as (_ & _ & Hf & _).
  change (PROOF_VA mod GRANULE_4KIB) with 0. change (N.land PROOF_VA (GRANULE_4KIB - 1)) with 0.
  rewrite N.add_0_r, N.lor_0_r. split; [|by apply frame_mask]. cbn. unfold phys_byte, page_of.
  destruct Hf as [Hz _]. change 4096 with GRANULE_4KIB in Hz. by rewrite Hz, N.sub_0_r, Hb.
Qed.

(** A second space from the same kernel. *)
Lemma second_space p a p1 b p2 :
  seedable p → space_new p = (Ok a, p1) → space_new p1 = (Ok b, p2) →
  space_inv a p2 (mkTree None ∅ ∅) ∧ space_inv b p2 (mkTree None ∅ ∅) ∧ footprint a ##ₘ footprint b ∧ ttbr0 p2 = ttbr0 p.
Proof.
  intros Hs Ha Hb. pose proof Hs as [Hm0 Hh0 Hr0 Hs0].
  destruct (space_new_Ok p a p1 Hs Ha) as (Ia & Fa & Na & La & Ma & _ & Ra & _ & Ta & _).
  assert (active_root p1 = active_root p) as Er by (unfold active_root; by rewrite Ta).
  assert (seedable p1) as Hs1.
  { split; [apply Ia|apply Ia| |].
    - rewrite Er, La. destruct Hr0 as [|[n Hn]]; [by left|right]. rewrite lookup_insert_ne by congruence. by exists n.
    - rewrite Er. unfold read_entry. rewrite Ma by congruence. exact Hs0. }
  destruct (space_new_Ok p1 b p2 Hs1 Hb) as (Ib & Fb & Nb & Lb & Mb & _ & Rb & _ & Tb & _).
  assert (root a ≠ root b) as Hne by (intros Heq; rewrite <-Heq, La, lookup_insert_eq in Nb; done).
  split_and!; [|done| |congruence].
  - apply (space_inv_frame_tables a p1); [done|apply Ib|apply Ib| |].
    + rewrite Lb, La, Fa. apply map_subseteq_spec. intros x n. rewrite lookup_singleton. case_decide; [subst|done].
      intros [= <-]. rewrite lookup_insert_ne by congruence. apply lookup_insert_eq.
    + intros x Hx. apply Mb. intros ->. apply (inv_tables _ _ _ Ia) in Hx.
      destruct Hx as [Hx|[Hx|[i Hx]]]; [congruence|done|cbn in Hx; by apply lookup_empty_Some in Hx].
  - rewrite Fa, Fb. apply map_disjoint_singleton_l, lookup_singleton_ne. congruence.
Qed.

(** The isolation check can fail for one reason only: memory.  From a kernel whose
    tables are ready, [prove_isolation] reports PASS whenever its two spaces and its
    two pages can be allocated: the first page is never clobbered, and the one VA
    reads 0xAA under one root and 0xBB under the other, from different frames. *)
Theorem prove_isolation_passes p v p' :
  kernel_ready p → prove_isolation p = (v, p') →
  ttbr0 p' = ttbr0 p ∧
  (v = Pass ∨ v = Failed "space A" ∨ v = Failed "space B" ∨ v = Failed "map A" ∨ v = Failed "map B").
Proof.
  intros [Hs _]. unfold prove_isolation.
  destruct (space_new p) as [[a|e] p1] eqn:Ha; [|intros [= <- <-]; apply space_new_Err in Ha as ->; auto].
  assert (ttbr0 p1 = ttbr0 p) as T1 by by destruct (space_new_Ok p a p1 Hs Ha) as (_ & _ & _ & _ & _ & _ & _ & _ & ? & _).
  destruct (space_new p1) as [[b|e] p2] eqn:Hb; [|intros [= <- <-]; apply space_new_Err in Hb as ->; auto].
  destruct (second_space p a p1 b p2 Hs Ha Hb) as (Ia & Ib & Hd & T2).
  destruct (map_private_page PROOF_VA (a, p2)) as [[fa|e] [a' p3]] eqn:Hma; cycle 1.
  { intros [= <- <-]. destruct (map_private_page_with_Err a p2 _ _ _ _ _ Ia Hma) as (t & _ & _ & G & _).
    pose proof (grows_ttbr0 _ _ G) as T3. cbn in T3. rewrite T3. auto 6. }
  destruct (map_one a p2 fa a' p3 0xAA Ia ltac:(done) Hma) as [Oa Ea]. set (p4 := page_written fa 0 [0xAA] p3) in *.
  pose proof Oa as (ta & Ia4 & _). destruct (extends_other a p2 a' p4 ta b _ Ea Ia4 Ib Hd) as (Ib4 & Hd4 & _).
  pose proof (ext_ttbr0 _ _ Ea) as T4. cbn [snd] in T4.
  destruct (map_private_page PROOF_VA (b, p4)) as [[fb|e] [b' p5]] eqn:Hmb; cycle 1.
  { intros [= <- <-]. destruct (map_private_page_with_Err b p4 _ _ _ _ _ Ib4 Hmb) as (t & _ & _ & G & _).
    pose proof (grows_ttbr0 _ _ G) as T5. cbn [snd] in T5. split; [congruence|auto 6]. }
  destruct (map_one b p4 fb b' p5 0xBB Ib4 ltac:(done) Hmb) as [Ob Eb]. set (p6 := page_written fb 0 [0xBB] p5) in *.
  pose proof Ob as (tb & Ib6 & _ & Hfb & _). pose proof (ext_ttbr0 _ _ Eb) as T6. cbn [snd] in T6.
  destruct (one_page_other b p4 b' p6 tb a' fa 0xAA Oa Eb Ib6 (symmetry Hd4)) as [Oa6 Hd6].
  pose proof Oa6 as (ta6 & Ia6 & _ & Hfa & Hbyte). rewrite decide_False by (rewrite Hbyte; auto).
  assert (fa ≠ fb) as Hne.
  { intros ->. apply (map_disjoint_spec _ _) with (i := fb) (x := GRANULE_4KIB) (y := GRANULE_4KIB) in Hd6; [done| |].
    - apply (footprint_owned _ p6); [apply Ib6|by right]. - apply (footprint_owned _ p6); [apply Ia6|by right]. }
  destruct (one_page_read a' p6 fa 0xAA Oa6) as [Ra Xa]. unfold activate, restore in *. cbn [snd] in Ra, Xa.
  rewrite Ra, Xa. set (p7 := write_ttbr0 _ (write_ttbr0 _ p6)) in *.
  assert (one_page b' p7 fb 0xBB) as Ob7.
  { destruct Ob as (t & Hi & ?). exists t. split; [|done]. apply (space_inv_frame b' p6); try apply Hi; [|done].
    apply (footprint_live b' p6), Hi. }
  destruct (one_page_read b' p7 fb 0xBB Ob7) as [Rb Xb]. unfold activate in *. cbn [snd] in Rb, Xb. rewrite Rb, Xb.
  intros [= <- <-]. split; [change (ttbr0 p6 = ttbr0 p); congruence|]. left. by rewrite decide_True.
Qed.
End passes.
