(* ===== verification/ArmScenario.v ===== *)
(** * ArmScenario: a concrete ARM kernel

    A bump allocator that satisfies the heap's laws, the tables [install] writes for
    a plausible link map, and a run of two network drivers on it: every theorem of
    the ARM kernel's files applied where its hypotheses hold. *)

From S2P Require Import Prelude Bytes Sorting StateErr Capability ArmVm ArmMmu ArmElf ArmReclaim ArmLoader ArmSpace ArmSpaceSpec ArmSpaceOps ArmWorld ArmProcess ArmNet ArmNetSpec ArmSched ArmSchedSpec ArmSchedOps ArmThreads ArmChecks.

Local Open Scope N_scope.

(** ** An allocator *)

Module Bump.
Record State := mkState { next : N; blocks : gmap N N }.

Definition place (h : State) (align : N) : N := (next h + align - 1) / align * align.

Definition alloc (h : State) (n align : N) : option (N * State) :=
  let a := place h align in
  if decide (align = 0 ∨ HEAP_START + HEAP_SIZE < a + n) then None
  else Some (a, mkState (a + n) (<[a := n]> (blocks h))).

Definition ok (h : State) : Prop :=
  HEAP_START ≤ next h ∧ extents_ok (blocks h) ∧ ∀ a n, blocks h !! a = Some n → a + n ≤ next h.

#[export] Instance bump : Heap := {|
  HeapState := State; heap_alloc := alloc;
  heap_dealloc h a _ := mkState (next h) (delete a (blocks h));
  heap_reserve := Some; heap_live := blocks; heap_ok := ok;
|}.

Lemma place_spec h align : align ≠ 0 → next h ≤ place h align ∧ place h align mod align = 0.
Proof.
  intros Ha. unfold place. split; [|by apply N.Div0.mod_mul].
  pose proof (N.div_mod (next h + align - 1) align Ha). pose proof (N.mod_lt (next h + align - 1) align Ha). lia.
Qed.

#[export] Instance laws : HeapLaws bump.
Proof.
  split.
  - intros h Hh. apply Hh.
  - intros h n align a h' (Hs & He & Hn) Hpos. cbn. unfold alloc. case_decide as Hd; [done|]. intros [= <- <-].
    apply Decidable.not_or in Hd as [Ha Hfit]. destruct (place_spec h align Ha) as [Hle Hmod]. cbn.
    assert (blocks h !! place h align = None) as Hnone.
    { apply eq_None_not_Some. intros [k Hk]. destruct (He _ _ Hk) as (_ & _ & ? & _). specialize (Hn _ _ Hk). lia. }
    split_and!; [|done|done|done]. unfold ok. cbn. split; [lia|]. split.
    + intros b k. rewrite lookup_insert_Some. intros [[<- <-]|[Hne Hb]].
      * split_and!; [lia|lia|done|]. intros c j Hc Hcne. rewrite lookup_insert_ne in Hc by done.
        specialize (Hn _ _ Hc). lia.
      * destruct (He _ _ Hb) as (H1 & H2 & H3 & H4). split_and!; [done..|]. intros c j.
        rewrite lookup_insert_Some. intros [[<- <-]|[_ Hc]] Hcne; [specialize (Hn _ _ Hb); lia|by apply H4].
    + intros b k. rewrite lookup_insert_Some. intros [[<- <-]|[Hne Hb]]; [lia|]. specialize (Hn _ _ Hb). lia.
  - intros h a n (Hs & He & Hn) _. cbn. split; [|done]. split_and!; cbn; [done| |].
    + intros b k [Hne Hb]%lookup_delete_Some. destruct (He _ _ Hb) as (H1 & H2 & H3 & H4). split_and!; [done..|].
      intros c j [_ Hc]%lookup_delete_Some. by apply H4.
    + intros b k [_ Hb]%lookup_delete_Some. by apply Hn.
  - intros h h' Hh [= <-]. done.
Qed.
End Bump.
Import Bump.

(** ** A machine after boot *)

Definition level1 : N := 0x40090000.
Definition level2 : N := 0x40091000.
Definition level3 : N := 0x40092000.
Definition el0_demo : N := 0x40080120.
Definition el0_stack : N := 0x40084000.

Lemma link_map : linked level1 level2 level3 el0_demo el0_stack.
Proof. by split. Qed.

Definition boot_mem : Mem :=
  match install level1 level2 level3 el0_demo el0_stack ∅ 0 with Some (m, _) => m | None => ∅ end.

Definition boot_phys : Phys := mkPhys boot_mem (mkState HEAP_START ∅) level1 [].

Lemma boot_ready : kernel_ready boot_phys.
Proof.
  assert (mem_ok ∅) as H0 by by intros ???.
  destruct (install_tables _ _ _ _ _ link_map ∅ 0 H0) as (m & Hi & _). unfold boot_phys, boot_mem. rewrite Hi.
  assert (heap_ok (mkState HEAP_START ∅)) as Hh by (split; [done|split; by intros ???]).
  exact (install_ready level1 level2 level3 el0_demo el0_stack ∅ 0 m _ _ [] link_map H0 eq_refl
    ltac:(by left) ltac:(by left) ltac:(by left) Hh Hi).
Qed.

Definition boot_kernel : Kernel := mkKernel boot_phys 0x40100000 (mkContext [] 0 []) ∅ None 0 0 0 0 0.

Lemma boot_booted : booted boot_kernel.
Proof.
  split; [apply boot_ready|]. change (active_root (k_phys boot_kernel)) with level1.
  split_and!; [done|done|by left|done].
Qed.

(** ** Two drivers *)

Definition demo_launch (slot : N) : Launch :=
  mkLaunch build_proof_image (mkNetDevice slot 1 0 []) (mkNetBootInfo 0 0 0 [] [] NET_MODE_TCP_PROOF [10; 0; 2; 2] 80 0 0)
    None 0 1 0x40200000.

Lemma demo_launch_ok slot : slot < SLOT_COUNT → launch_ok (demo_launch slot).
Proof.
  intros Hs. destruct proof_image_bytes as [Hb Hl]. split_and!; [done|done|done|split; [by repeat constructor|done]|done].
Qed.

Definition one_driver : Kernel := (launch (7 : @SigningKey Demo.scheme) (demo_launch 0) (init boot_kernel)).2.
Definition two_drivers : Kernel := (launch (7 : @SigningKey Demo.scheme) (demo_launch 31) one_driver).2.

Definition is_ok {E A} (r : Result E A) : bool := match r with Ok _ => true | Err _ => false end.

Lemma demo_success :
  is_ok (launch (7 : @SigningKey Demo.scheme) (demo_launch 0) (init boot_kernel)).1 = true ∧
  is_ok (launch (7 : @SigningKey Demo.scheme) (demo_launch 31) one_driver).1 = true.
Proof. by vm_compute. Qed.

(** What the run leaves: the boot thread and the two drivers. *)
Definition BASE : gmap N N := live boot_phys.

Lemma launched k s cur slot :
  sched_inv BASE k s cur → address_space cur = None → slot < SLOT_COUNT →
  is_ok (launch (7 : @SigningKey Demo.scheme) (demo_launch slot) k).1 = true →
  ∃ t sp, address_space t = Some sp ∧
    sched_inv BASE (launch (7 : @SigningKey Demo.scheme) (demo_launch slot) k).2 (queued t s) cur.
Proof.
  intros I Hc Hs Hok.
  destruct (launch (7 : @SigningKey Demo.scheme) (demo_launch slot) k) as [r k'] eqn:Hl. cbn [fst snd] in *.
  destruct (launch_ok_inv (7 : @SigningKey Demo.scheme) BASE k s cur _ r k' I Hc (demo_launch_ok slot Hs) Hl)
    as [(t & sp & _ & Ht & I' & _)|(e & -> & _)]; [exists t, sp; by split|discriminate Hok].
Qed.

Lemma two_drivers_run : ∃ t st u su, address_space t = Some st ∧ address_space u = Some su ∧
  sched_inv BASE two_drivers (mkScheduler [t; u] (Some placeholder) []) placeholder ∧
  reached (7 : @SigningKey Demo.scheme) boot_kernel two_drivers.
Proof.
  destruct demo_success as [S1 S2].
  destruct boot_booted as (B1 & B2 & B3 & B4 & B5). pose proof (sched_init_ok boot_kernel B1 B2 B3 B4 B5) as I0.
  destruct (launched _ _ _ 0 I0 eq_refl eq_refl S1) as (t & st & Ht & I1).
  destruct (launched _ _ _ 31 I1 eq_refl eq_refl S2) as (u & su & Hu & I2).
  exists t, st, u, su. split_and!; [done|done|exact I2|]. split; [apply boot_booted|].
  eapply rtc_l; [|eapply rtc_l; [|apply rtc_refl]].
  - eapply (step_launch _ (init boot_kernel) _ placeholder (demo_launch 0)); [apply I0|done|done|by apply demo_launch_ok].
  - eapply (step_launch _ one_driver _ placeholder (demo_launch 31)); [apply I1|done|done|by apply demo_launch_ok].
Qed.



Lemma kernel_half_immutable_witness : ∃ u : Thread,
  walk (mem (k_phys two_drivers)) (thread_root two_drivers u) 0x40080000 =
  walk (mem (k_phys boot_kernel)) (active_root (k_phys boot_kernel)) 0x40080000.
Proof.
  destruct two_drivers_run as (t & st & u & su & Ht & Hu & I & R). exists u.
  apply (kernel_half_immutable (7 : @SigningKey Demo.scheme) boot_kernel two_drivers _ u 0x40080000 R (si_sched _ _ _ _ I)).
  - do 2 right. left.
  - by vm_compute.
Defined.

Lemma yield_refines_witness : ∃ (t : Thread) k' s',
  yield_now true two_drivers = Some k' ∧ k_sched k' = Some s' ∧ current s' = Some t.
Proof.
  destruct two_drivers_run as (t & st & u & su & Ht & Hu & I & R). exists t.
  destruct (yield_refines (7 : @SigningKey Demo.scheme) boot_kernel two_drivers _ placeholder t [u] true R
    (si_sched _ _ _ _ I) eq_refl eq_refl) as (k' & s' & Hy & Hs & Hc & _).
  exists k', s'. split_and!; [exact Hy|exact Hs|exact Hc].
Defined.

(** The first driver runs, exits and is switched away from. *)
Definition running : Kernel := default two_drivers (yield_now true two_drivers).
Definition switched : Kernel := default running (yield_now true (mark_exiting running)).
(** The second driver has pushed a frame. *)
Definition exited : Kernel := with_cpu (k_sp switched - 32) (k_regs switched) switched.

Definition current_thread (k : Kernel) : Thread := default placeholder (s ← k_sched k; current s).
Definition exited_threads (k : Kernel) : N := default 0 (s ← k_sched k; Some (len (zombies s))).

Lemma exit_run :
  yield_now true two_drivers = Some running ∧ yield_now true (mark_exiting running) = Some switched.
Proof.
  assert (∀ (o : option Kernel) d, match o with Some _ => true | None => false end = true → o = Some (default d o)) as Hd
    by by intros [].
  split; apply Hd; by vm_compute.
Qed.

#[local] Instance on_stack_dec t sp : Decision (on_stack t sp).
Proof. unfold on_stack, context_place. destruct (decide (stack_base t = 0)); exact _. Defined.

Lemma exit_checks : negb (stack_base (current_thread running) =? 0) = true ∧
  bool_decide (on_stack (current_thread switched) (k_sp switched - 32)) = true ∧
  (k_sp exited <? stack_top (current_thread exited)) = true ∧ exited_threads exited = 1.
Proof. by vm_compute. Qed.

Abbreviation runs k := (reached (7 : @SigningKey Demo.scheme) boot_kernel k).

Lemma reached_current k : runs k → ∃ s cur, k_sched k = Some s ∧ current s = Some cur ∧
  current_thread k = cur ∧ exited_threads k = len (zombies s).
Proof.
  intros R. destruct (reached_inv _ _ _ R) as (s & cur & I). exists s, cur.
  pose proof (si_sched _ _ _ _ I) as Hs. pose proof (si_current _ _ _ _ I) as Hc.
  unfold current_thread, exited_threads. rewrite Hs. cbn. by rewrite Hc.
Qed.

Lemma yield_run k k' : runs k → yield_now true k = Some k' → runs k'.
Proof. intros [B R] Hy. split; [done|]. eapply rtc_r; [exact R|]. exact (step_yield _ _ _ _ Hy). Qed.

Lemma exit_step k : runs k → negb (stack_base (current_thread k) =? 0) = true → runs (mark_exiting k).
Proof.
  intros R Hb. destruct (reached_current k R) as (s & cur & Hs & Hc & E & _). rewrite E in Hb.
  apply negb_true_iff, N.eqb_neq in Hb. destruct R as [B R]. split; [done|]. eapply rtc_r; [exact R|].
  exact (step_exit _ _ _ _ Hs Hc Hb).
Qed.

Lemma run_step k sp : runs k → bool_decide (on_stack (current_thread k) sp) = true → runs (with_cpu sp (k_regs k) k).
Proof.
  intros R Hb. destruct (reached_current k R) as (s & cur & Hs & Hc & E & _). rewrite E in Hb.
  apply bool_decide_eq_true in Hb. destruct R as [B R]. split; [done|]. eapply rtc_r; [exact R|].
  exact (step_run _ _ _ _ _ _ Hs Hc Hb).
Qed.

Lemma exited_reached : runs exited.
Proof.
  destruct two_drivers_run as (t & st & u & su & Ht & Hu & I & R). destruct exit_run as [Y1 Y2].
  destruct exit_checks as (Hb & Hon & _).
  exact (run_step _ _ (yield_run _ _ (exit_step _ (yield_run _ _ R Y1) Hb) Y2) Hon).
Qed.

Lemma threads_well_formed_witness : ∃ s cur, k_sched exited = Some s ∧ current s = Some cur ∧ on_stack cur (k_sp exited).
Proof.
  destruct (threads_well_formed (7 : @SigningKey Demo.scheme) boot_kernel exited exited_reached)
    as (s & cur & Hs & Hc & _ & _ & Ho & _).
  exists s, cur. split_and!; [exact Hs|exact Hc|exact Ho].
Defined.

Lemma reap_complete_witness : ∃ k', reap_exited (λ _, true) exited = (1, k') ∧ exited_threads k' = 0.
Proof.
  destruct (reached_current exited exited_reached) as (s & cur & Hs & Hc & E & Ez).
  destruct exit_checks as (_ & _ & Hsp & Hz). rewrite E in Hsp. rewrite Ez in Hz. apply N.ltb_lt in Hsp.
  destruct (reap_complete (7 : @SigningKey Demo.scheme) boot_kernel exited s cur exited_reached Hs Hc Hsp)
    as (k' & s' & Hr & Hs' & Hz' & _).
  exists k'. rewrite Hz in Hr. split; [exact Hr|]. unfold exited_threads. rewrite Hs'. cbn. by rewrite Hz'.
Defined.

(** ** The other theorems on this machine *)

Lemma kernel_map_exact_witness : ∃ m' regs,
  install level1 level2 level3 el0_demo el0_stack ∅ 0 = Some (m', regs) ∧ walk m' level1 0x80000000 = None.
Proof.
  destruct (kernel_map_exact level1 level2 level3 el0_demo el0_stack link_map ∅ 0) as (m & regs & Hi & _ & Hw).
  - intros ???. done.
  - reflexivity.
  - exists m, regs. split; [exact Hi|]. apply (Hw 0x80000000); [by vm_compute|]. by vm_compute.
Defined.

Lemma elf_roundtrip_witness : ∃ elf, parse build_proof_image = Ok elf ∧ load_segments elf = proof_phdrs.
Proof.
  destruct (elf_roundtrip TEXT_VADDR proof_phdrs (TEXT ++ DATA)) as (elf & Hp & _ & Hs & _).
  - by vm_compute.
  - discriminate.
  - by vm_compute.
  - apply (bool_decide_unpack _). by vm_compute.
  - by vm_compute.
  - apply (bool_decide_unpack _). by vm_compute.
  - exists elf. split; [exact Hp|exact Hs].
Defined.

Lemma start_success : is_ok (start_program build_proof_image boot_phys).1 = true.
Proof. by vm_compute. Qed.

Lemma proof_program : ∃ s img p', start_program build_proof_image boot_phys = (Ok (s, img), p').
Proof.
  pose proof start_success as Hs. destruct (start_program _ _) as [[[s img]|e] p'] eqn:E; [|discriminate Hs].
  by exists s, img, p'.
Qed.

Lemma loaded_program_view_witness : ∃ (s : AddressSpace) p', program_view proof_elf (mem p') (root s).
Proof.
  destruct proof_program as (s & img & p' & E). destruct proof_image_bytes as [Hb Hl].
  destruct (loaded_program_view build_proof_image boot_phys s img p' boot_ready Hb Hl E) as (elf & Hp & V & _).
  rewrite parse_proof_image in Hp. exists s, p'. by injection Hp as <-.
Defined.

Lemma start_destroy_restores_witness : ∃ s p' rec p'',
  destroy true s p' = (Ok rec, p'') ∧ live p'' = live boot_phys.
Proof.
  destruct proof_program as (s & img & p' & E). destruct proof_image_bytes as [Hb Hl].
  destruct (start_destroy_restores build_proof_image boot_phys s img p' (proj1 boot_ready) Hb Hl E)
    as (rec & p'' & frees & Hd & Hlive & _).
  exists s, p', rec, p''. split; [exact Hd|exact Hlive].
Defined.


Lemma prove_load_passes_witness : (prove_load boot_phys).1 = Pass ∧ ttbr0 (prove_load boot_phys).2 = ttbr0 boot_phys.
Proof.
  split; [by vm_compute|]. destruct (prove_load boot_phys) as [v p'] eqn:E.
  exact (proj1 (prove_load_passes boot_phys v p' boot_ready E)).
Defined.

Lemma prove_isolation_passes_witness :
  (prove_isolation boot_phys).1 = Pass ∧ ttbr0 (prove_isolation boot_phys).2 = ttbr0 boot_phys.
Proof.
  split; [by vm_compute|]. destruct (prove_isolation boot_phys) as [v p'] eqn:E.
  exact (proj1 (prove_isolation_passes boot_phys v p' boot_ready E)).
Defined.

Definition granted : Result string () * Proc :=
  match space_new boot_phys with
  | (Ok s, p) =>
      grant_device (7 : @SigningKey Demo.scheme) (mkNetDevice 31 1 0 [])
        (issue_mmio_token (7 : @SigningKey Demo.scheme) (virtio_mmio_slot_resource 31) 0 1) 0 (s, p)
  | (Err _, p) => (Err "no space", (mkSpace 0 ∅ 0 [] [] None, p))
  end.

Lemma grant_success : is_ok granted.1 = true.
Proof. by vm_compute. Qed.

Lemma device_page_overgrant_witness : ∃ (s' : AddressSpace) p' d,
  walk (mem p') (root s') (NET_MMIO_VA + 0) = Some (0x0a003000, d) ∧ el0_writable d = true.
Proof.
  pose proof grant_success as G. unfold granted in G.
  destruct (space_new boot_phys) as [[s|e] p] eqn:Hn; [|discriminate G].
  destruct (space_new_Ok boot_phys s p (proj1 boot_ready) Hn) as [Hi _].
  destruct (grant_device _ _ _ _ _) as [[[]|e] [s' p']] eqn:Hg; [|discriminate G].
  destruct (device_page_overgrant (7 : @SigningKey Demo.scheme) (mkNetDevice 31 1 0 []) 24 s p _ 0 1 s' p' Hi) as [(d & Hw & Hd) _].
  - by vm_compute.
  - discriminate.
  - by vm_compute.
  - exact Hg.
  - exists s', p', d. split; [exact Hw|exact Hd].
Defined.
