(* ===== verification/DataCodes.v ===== *)
(** * The data-syscall glue: [kernel-arm/src/data_codes.rs]

    Return-code encodings, argument packing, the enum adapters between the live
    state and the decoupled mirrors of [mobile/], the compiled-in plan and
    billing-period tables, the audit descriptions, and the reconciler snapshot
    builder.  The text of the error types the audit prints ([Display] and
    derived [Debug]) is here too. *)

From Stdlib Require Import Ascii.
From S2P Require Import Prelude Text Account Sim Policy Period Reconcile DataState Worm Marshal.

(** ** Return codes *)

Definition USAGE_NONE : N := 0.
Definition USAGE_NOTIFY : N := 1.
Definition USAGE_THROTTLE : N := 2.
Definition USAGE_SUSPEND_REQUESTED : N := 3.
Definition USAGE_DENIED : N := 4.
Definition USAGE_NO_ENTITLEMENT : N := 5.
Definition USAGE_NO_SUCH_ACCOUNT : N := 6.
Definition USAGE_TABLE_FULL : N := 7.
Definition USAGE_NOT_ACTIVE : N := 8.
Definition USAGE_NO_PROFILE : N := 9.

Definition usage_feed_refusal (status : Account.AccountStatus) (has_bound_profile : bool)
    : option N :=
  match status with
  | Account.Active => if has_bound_profile then None else Some USAGE_NO_PROFILE
  | Account.Suspended | Account.Closed => Some USAGE_NOT_ACTIVE
  end.

Definition action_request_code (request : option ActionRequest) : N :=
  match request with
  | None => USAGE_NONE
  | Some NotifyOnly => USAGE_NOTIFY
  | Some Throttle => USAGE_THROTTLE
  | Some SuspendAccount => USAGE_SUSPEND_REQUESTED
  end.

Definition action_request_from_code (code : N) : option (option ActionRequest) :=
  if decide (code = USAGE_NONE) then Some None
  else if decide (code = USAGE_NOTIFY) then Some (Some NotifyOnly)
  else if decide (code = USAGE_THROTTLE) then Some (Some Throttle)
  else if decide (code = USAGE_SUSPEND_REQUESTED) then Some (Some SuspendAccount)
  else None.

Definition SESSION_ALLOW : N := 0.
Definition SESSION_ALLOW_THROTTLED : N := 1.
Definition SESSION_DENY_ACCOUNT_SUSPENDED : N := 2.
Definition SESSION_DENY_ACCOUNT_CLOSED : N := 3.
Definition SESSION_DENY_PROFILE_NOT_ENABLED : N := 4.
Definition SESSION_DENY_ROAMING_NOT_ALLOWED : N := 5.
Definition SESSION_DENY_CAP_EXCEEDED : N := 6.
Definition SESSION_REFUSED_CAPABILITY : N := 7.
Definition SESSION_REFUSED_NO_ENTITLEMENT : N := 8.
Definition SESSION_REFUSED_NO_SUCH_ACCOUNT : N := 9.
Definition SESSION_REFUSED_PROFILE_NOT_BOUND : N := 10.
Definition SESSION_REFUSED_UNKNOWN_PROFILE : N := 11.
Definition SESSION_REFUSED_BAD_ARGUMENT : N := 12.
Definition SESSION_FAILED_TABLE_FULL : N := 13.

Definition session_decision_code (decision : SessionDecision) : N :=
  match decision with
  | Allow => SESSION_ALLOW
  | AllowThrottled => SESSION_ALLOW_THROTTLED
  | Deny AccountSuspended => SESSION_DENY_ACCOUNT_SUSPENDED
  | Deny Policy.AccountClosed => SESSION_DENY_ACCOUNT_CLOSED
  | Deny (ProfileNotEnabled _) => SESSION_DENY_PROFILE_NOT_ENABLED
  | Deny RoamingDataNotAllowed => SESSION_DENY_ROAMING_NOT_ALLOWED
  | Deny CapExceeded => SESSION_DENY_CAP_EXCEEDED
  end.

Definition CLOSE_OK : N := 0.
Definition CLOSE_DENIED : N := 1.
Definition CLOSE_NOT_OPEN : N := 2.
Definition CLOSE_BAD_ARGUMENT : N := 3.

Definition RECONCILE_DENIED : N := u64_max.

Definition RESET_OK : N := 0.
Definition RESET_DENIED_CAPABILITY : N := 1.
Definition RESET_DENIED_MARSHAL : N := 2.
Definition RESET_DENIED_LOCAL_FAILURE : N := 3.
Definition RESET_NO_ENTITLEMENT : N := 4.
Definition RESET_NO_SUCH_ACCOUNT : N := 5.
Definition RESET_DENIED_UNREACHABLE : N := 6.
Definition RESET_PERIOD_ACTIVE : N := 7.
Definition RESET_CLOCK_BEFORE_START : N := 8.
Definition RESET_BAD_MODE : N := 9.
Definition RESET_EARLY_COOLDOWN : N := 10.
Definition RESET_DENIED_FAULTY : N := 11.

Definition RESET_MODE_NORMAL : N := 0.
Definition RESET_MODE_EARLY : N := 1.

Inductive ResetMode := NormalReset | EarlyReset.

Definition reset_mode_from_arg (arg : N) : option ResetMode :=
  if decide (arg = RESET_MODE_NORMAL) then Some NormalReset
  else if decide (arg = RESET_MODE_EARLY) then Some EarlyReset
  else None.

Definition is_early (m : ResetMode) : bool :=
  match m with EarlyReset => true | NormalReset => false end.

Definition reset_refusal_code (r : ResetRefusal) : N :=
  match r with
  | PeriodActive _ => RESET_PERIOD_ACTIVE
  | RefusedClockBeforeStart _ _ => RESET_CLOCK_BEFORE_START
  | EarlyCooldown _ => RESET_EARLY_COOLDOWN
  end.

Definition reset_blocked_code (b : Blocked) : N :=
  match b with
  | BlockedRemote _ => RESET_DENIED_MARSHAL
  | BlockedLocal _ => RESET_DENIED_LOCAL_FAILURE
  | BlockedUnreachable => RESET_DENIED_UNREACHABLE
  | BlockedFaulty => RESET_DENIED_FAULTY
  end.

Definition reset_gate_code (policy : UnreachablePolicy) (outcome : GateOutcome) : N :=
  match enforce policy outcome with
  | Ok _ => RESET_OK
  | Err b => reset_blocked_code b
  end.

Definition PERIOD_ACTIVE : N := 0.
Definition PERIOD_RESET_REQUESTED : N := 1.
Definition PERIOD_CLOCK_BEFORE_START : N := 2.
Definition PERIOD_NO_PERIOD : N := 3.
Definition PERIOD_DENIED : N := 4.

Definition period_assessment_code (a : PeriodAssessment) : N :=
  match a with
  | Period.Active _ _ => PERIOD_ACTIVE
  | Elapsed _ _ => PERIOD_RESET_REQUESTED
  | ClockBeforeStart _ _ => PERIOD_CLOCK_BEFORE_START
  end.

(** ** Argument packing *)

Definition ROAMING_FLAG : N := 256.

Definition pack_profile_roaming (profile : N) (roaming : bool) : N :=
  N.lor profile (if roaming then ROAMING_FLAG else 0).

Definition unpack_profile_roaming (arg : N) : option (N * bool) :=
  if decide (N.shiftr arg 9 ≠ 0)%N then None
  else Some (as_u8 (N.land arg 0xff), bool_decide (N.land arg ROAMING_FLAG ≠ 0)%N).

(** ** Enum adapters *)

Definition standing_for_data (status : Account.AccountStatus) : AccountStandingForData :=
  match status with
  | Account.Active => Policy.Active
  | Account.Suspended => Policy.Suspended
  | Account.Closed => Policy.Closed
  end.

Definition standing_for_reconcile (status : Account.AccountStatus) : Standing :=
  match status with
  | Account.Active => Reconcile.Active
  | Account.Suspended => Reconcile.Suspended
  | Account.Closed => Reconcile.Closed
  end.

Definition lifecycle_for_data (state : Sim.ProfileState) : ProfileLifecycleForData :=
  match state with
  | Sim.Created => Policy.Created
  | Sim.Disabled => Policy.Disabled
  | Sim.Enabled => Policy.Enabled
  | Sim.Deleted => Policy.Deleted
  end.

Definition lifecycle_for_reconcile (state : Sim.ProfileState) : Reconcile.ProfileState :=
  match state with
  | Sim.Created => Reconcile.Created
  | Sim.Disabled => Reconcile.Disabled
  | Sim.Enabled => Reconcile.Enabled
  | Sim.Deleted => Reconcile.Deleted
  end.

(** ** The compiled-in tables *)

Definition demo_entitlement (account : N) : option DataEntitlement :=
  if decide (account ≤ 2)%N then res_ok (entitlement_new (Some 1000%N) 80 false 150) else None.

Definition DEMO_PERIOD_MILLIS : N := 500.
Definition DEMO_LONG_PERIOD_MILLIS : N := 86400000.
Definition DEMO_GRACE_MILLIS : N := 20000.
Definition DEMO_INSTALL_PERIOD_MILLIS : N := DEMO_LONG_PERIOD_MILLIS.

Definition millis_to_ticks (freq_hz millis : N) : N :=
  let t := (saturating_mul u64_max freq_hz millis / 1000)%N in
  if decide (t = 0 ∧ millis ≠ 0)%N then 1%N else t.

Definition demo_install_period_ticks (freq_hz : N) : N :=
  millis_to_ticks freq_hz DEMO_INSTALL_PERIOD_MILLIS.

Definition demo_early_reset_cooldown_ticks (freq_hz : N) : N :=
  millis_to_ticks freq_hz DEMO_EARLY_RESET_COOLDOWN_MILLIS.

Definition demo_period (account freq_hz : N) : option BillingPeriod :=
  if decide (account = 0)%N
  then res_ok (period_new 0 (millis_to_ticks freq_hz DEMO_PERIOD_MILLIS))
  else if decide (account = 1)%N
  then res_ok (period_new 0 (millis_to_ticks freq_hz DEMO_LONG_PERIOD_MILLIS))
  else None.

(** ** Text of the types the audit prints *)

Definition bool_display (b : bool) : string := if b then "true" else "false".

Definition account_status_debug (s : Account.AccountStatus) : string :=
  match s with
  | Account.Active => "Active" | Account.Suspended => "Suspended" | Account.Closed => "Closed"
  end.

Definition profile_state_debug (s : Sim.ProfileState) : string :=
  match s with
  | Sim.Created => "Created" | Sim.Disabled => "Disabled"
  | Sim.Enabled => "Enabled" | Sim.Deleted => "Deleted"
  end.

Definition sim_error_display (e : SimError) : string :=
  match e with
  | NoSuchSlot => "no such SIM slot"
  | NoSuchProfile => "no such eSIM profile in this slot"
  | SlotFull =>
      "SIM slot is full (" +:+ pretty (N.of_nat MAX_PROFILES_PER_SLOT) +:+ " profile containers)"
  | WrongState s => "wrong state for this operation (" +:+ profile_state_debug s +:+ ")"
  end.

Definition profile_key_debug (k : ProfileKey) : string :=
  "ProfileKey { slot: " +:+ pretty (key_slot k) +:+ ", profile: " +:+ pretty (key_profile k) +:+ " }".

Definition account_error_debug (e : AccountError) : string :=
  match e with
  | RegistryFull => "RegistryFull"
  | AccountFull => "AccountFull"
  | NoSuchAccount => "NoSuchAccount"
  | Account.AccountClosed => "AccountClosed"
  | AccountNotActive s => "AccountNotActive(" +:+ account_status_debug s +:+ ")"
  | InvalidTransition from to =>
      "InvalidTransition { from: " +:+ account_status_debug from +:+ ", to: " +:+
      account_status_debug to +:+ " }"
  | AlreadyBound owner => "AlreadyBound(AccountId(" +:+ pretty owner +:+ "))"
  | NotBound => "NotBound"
  | UnknownProfile k => "UnknownProfile(" +:+ profile_key_debug k +:+ ")"
  | ProfileDeleted k => "ProfileDeleted(" +:+ profile_key_debug k +:+ ")"
  | ProfileEnabled k => "ProfileEnabled(" +:+ profile_key_debug k +:+ ")"
  end.

Definition period_error_display (e : PeriodError) : string :=
  match e with
  | ZeroLength => "billing period length must be non-zero"
  | ResetBeforeStart start_tick reset_at_tick =>
      "reset at tick " +:+ pretty reset_at_tick +:+ " is before the period start " +:+
      pretty start_tick
  end.

Definition reset_refusal_display (r : ResetRefusal) : string :=
  match r with
  | PeriodActive remaining =>
      "billing period still active (" +:+ pretty remaining +:+
      " ticks remaining); a normal reset is only allowed once it has elapsed"
  | RefusedClockBeforeStart start_tick now_tick =>
      "clock before period start (now " +:+ pretty now_tick +:+ " < start " +:+
      pretty start_tick +:+ "); reset refused"
  | EarlyCooldown remaining =>
      "early-reset cooldown: a reset was applied recently (" +:+ pretty remaining +:+
      " ticks remaining before another early reset is allowed)"
  end.

Definition period_incident_kind_debug (k : PeriodIncidentKind) : string :=
  match k with
  | TooManyPeriods => "TooManyPeriods"
  | Period.DuplicateAccount => "DuplicateAccount"
  | ClockBeforeStartIncident => "ClockBeforeStart"
  | PeriodElapsedNoReset => "PeriodElapsedNoReset"
  end.

Definition period_incident_display (i : PeriodIncident) : string :=
  match pi_kind i with
  | TooManyPeriods =>
      "too many periods: " +:+ pretty (pi_observed i) +:+ " given, at most " +:+
      pretty (pi_expected i) +:+ " accepted; nothing checked"
  | Period.DuplicateAccount =>
      "account " +:+ pretty (pi_account i) +:+ ": " +:+ pretty (pi_observed i) +:+
      " period records share this id"
  | ClockBeforeStartIncident =>
      "account " +:+ pretty (pi_account i) +:+ ": clock at tick " +:+ pretty (pi_observed i) +:+
      " is before period start " +:+ pretty (pi_expected i)
  | PeriodElapsedNoReset =>
      "account " +:+ pretty (pi_account i) +:+ ": period elapsed, no reset by tick " +:+
      pretty (pi_expected i) +:+ " (now " +:+ pretty (pi_observed i) +:+ ")"
  end.

Definition incident_kind_display (k : IncidentKind) : string :=
  match k with
  | SnapshotTooLarge => "snapshot-too-large"
  | DuplicateAccount => "duplicate-account"
  | DuplicateProfile => "duplicate-profile"
  | EnabledProfileUnderInactiveAccount => "enabled-profile-under-inactive-account"
  | EnabledProfileUnbound => "enabled-profile-unbound"
  | ProfileOwnerUnknown => "profile-owner-unknown"
  | MultipleEnabledInSlot => "multiple-enabled-in-slot"
  | UsageRegression => "usage-regression"
  | UsageOverCapNotRestricted => "usage-over-cap-not-restricted"
  | AnomalousUsageNoEscalation => "anomalous-usage-no-escalation"
  | SessionWithoutEnabledProfile => "session-without-enabled-profile"
  | SessionAccountMismatch => "session-account-mismatch"
  | RoamingSessionNotPermitted => "roaming-session-not-permitted"
  end.

Definition subject_display (s : Subject) : string :=
  match s with
  | SubjSnapshot => "snapshot"
  | SubjAccount id => "account:" +:+ pretty id
  | SubjSlot slot => "slot:" +:+ pretty slot
  | SubjProfile slot profile => "profile:" +:+ pretty slot +:+ "/" +:+ pretty profile
  | SubjSession account slot profile =>
      "session:" +:+ pretty account +:+ "@" +:+ pretty slot +:+ "/" +:+ pretty profile
  end.

Definition standing_debug (s : Standing) : string :=
  match s with
  | Reconcile.Active => "Active" | Reconcile.Suspended => "Suspended"
  | Reconcile.Closed => "Closed"
  end.

Definition reconcile_lifecycle_debug (l : Reconcile.ProfileState) : string :=
  match l with
  | Reconcile.Created => "Created" | Reconcile.Disabled => "Disabled"
  | Reconcile.Enabled => "Enabled" | Reconcile.Deleted => "Deleted"
  end.

Definition fact_display (f : Fact) : string :=
  match f with
  | Absent => "absent"
  | Number n => pretty n
  | FBool b => bool_display b
  | FStanding s => standing_debug s
  | Lifecycle l => reconcile_lifecycle_debug l
  | Owner (Some id) => "owner:" +:+ pretty id
  | Owner None => "owner:none"
  | AnyOwner => "owner:any"
  | Percent p => pretty p +:+ "%"
  | UsageOfCap used cap => pretty used +:+ "/" +:+ pretty cap
  end.

Definition standing_for_data_debug (s : AccountStandingForData) : string :=
  match s with
  | Policy.Active => "Active" | Policy.Suspended => "Suspended" | Policy.Closed => "Closed"
  end.

Definition lifecycle_for_data_debug (l : ProfileLifecycleForData) : string :=
  match l with
  | Policy.Created => "Created" | Policy.Disabled => "Disabled"
  | Policy.Enabled => "Enabled" | Policy.Deleted => "Deleted"
  end.

Definition network_debug (n : NetworkClass) : string :=
  match n with Home => "Home" | Roaming => "Roaming" end.

Definition band_debug (b : UsageBand) : string :=
  match b with
  | Normal => "Normal" | Throttled => "Throttled" | CapReached => "CapReached"
  | Anomalous => "Anomalous"
  end.

Definition action_request_debug (r : ActionRequest) : string :=
  match r with
  | NotifyOnly => "NotifyOnly" | Throttle => "Throttle" | SuspendAccount => "SuspendAccount"
  end.

Definition escalation_debug (r : option ActionRequest) : string :=
  match r with None => "None" | Some r => "Some(" +:+ action_request_debug r +:+ ")" end.

Definition deny_reason_debug (r : DenyReason) : string :=
  match r with
  | AccountSuspended => "AccountSuspended"
  | Policy.AccountClosed => "AccountClosed"
  | ProfileNotEnabled l => "ProfileNotEnabled(" +:+ lifecycle_for_data_debug l +:+ ")"
  | RoamingDataNotAllowed => "RoamingDataNotAllowed"
  | CapExceeded => "CapExceeded"
  end.

Definition session_decision_debug (d : SessionDecision) : string :=
  match d with
  | Allow => "Allow"
  | AllowThrottled => "AllowThrottled"
  | Deny r => "Deny(" +:+ deny_reason_debug r +:+ ")"
  end.

(** ** Description strings *)

Definition describe_period_assessment (a : PeriodAssessment) : string :=
  match a with
  | Period.Active elapsed remaining =>
      "active: " +:+ pretty elapsed +:+ " ticks in, " +:+ pretty remaining +:+
      " remaining; no reset requested"
  | Elapsed overdue_ticks periods_missed =>
      "elapsed: overdue " +:+ pretty overdue_ticks +:+ " ticks, " +:+ pretty periods_missed +:+
      " period(s) missed; reset REQUESTED (advisory: nothing was reset)"
  | ClockBeforeStart start_tick now_tick =>
      "clock before start: now " +:+ pretty now_tick +:+ " < period start " +:+
      pretty start_tick +:+ "; anomaly, no reset requested"
  end.

Definition describe_reset_assessment (a : option PeriodAssessment) : string :=
  match a with
  | None =>
      "no billing period for this account (this first reset is not period-gated and installs one)"
  | Some (Period.Active elapsed remaining) =>
      "period active: " +:+ pretty elapsed +:+ " ticks in, " +:+ pretty remaining +:+ " remaining"
  | Some (Elapsed overdue_ticks periods_missed) =>
      "period elapsed: overdue " +:+ pretty overdue_ticks +:+ " ticks, " +:+
      pretty periods_missed +:+ " period(s) missed"
  | Some (ClockBeforeStart start_tick now_tick) =>
      "clock before start: now " +:+ pretty now_tick +:+ " < period start " +:+ pretty start_tick
  end.

Definition describe_reset_mode (mode : ResetMode) (a : option PeriodAssessment) : string :=
  let assessed := describe_reset_assessment a in
  match mode with
  | NormalReset => "NORMAL reset; " +:+ assessed
  | EarlyReset =>
      "EARLY (override) reset under data:reset-early, not waiting for the billing period to elapse; "
      +:+ assessed
  end.

Definition describe_period_started (s : PeriodStarted) : string :=
  match s with
  | NoPeriod => "no billing period for this account; none started"
  | Installed p =>
      "billing period INSTALLED at tick " +:+ pretty (start_tick p) +:+ " (length " +:+
      pretty (length_ticks p) +:+
      " ticks) because the account had none; DEMO DATA; later resets are period-gated"
  | Started p =>
      "next billing period started at tick " +:+ pretty (start_tick p) +:+ " (length " +:+
      pretty (length_ticks p) +:+ " ticks); reset request cleared"
  | DataState.Rejected e =>
      "next billing period NOT started (" +:+ period_error_display e +:+
      "); old period and request kept"
  end.

Definition cap_text (e : DataEntitlement) : string :=
  match cap_bytes e with Some c => pretty c | None => "unlimited" end.

Definition describe_session_record (r : PolicyDecisionRecord) : string :=
  let req := rec_request r in
  let ent := req_entitlement req in
  "standing=" +:+ standing_for_data_debug (req_standing req) +:+
  " lifecycle=" +:+ lifecycle_for_data_debug (req_lifecycle req) +:+
  " network=" +:+ network_debug (req_network req) +:+
  " used=" +:+ pretty (used_bytes (req_usage req)) +:+
  " cap=" +:+ cap_text ent +:+
  " throttle=" +:+ pretty (throttle_at_percent ent) +:+
  "% escalate=" +:+ pretty (escalate_at_percent ent) +:+
  "% roaming_ok=" +:+ bool_display (roaming_data_allowed ent) +:+
  " band=" +:+ band_debug (band (rec_assessment r)) +:+
  " decision=" +:+ session_decision_debug (rec_decision r).

Definition describe_usage_assessment (e : DataEntitlement) (usage : DataUsage)
    (a : UsageAssessment) : string :=
  "used=" +:+ pretty (used_bytes usage) +:+ " cap=" +:+ cap_text e +:+
  " throttle=" +:+ pretty (throttle_at_percent e) +:+ "% escalate=" +:+
  pretty (escalate_at_percent e) +:+ "% band=" +:+ band_debug (band a) +:+
  " request=" +:+ escalation_debug (escalation a).

(** ** The reconciler snapshot *)

Record ProfileRow := mkRow {
  row_slot : N;
  row_profile : N;
  row_state : Sim.ProfileState;
  row_owner : option N;
}.

Definition observe_account (usage : list UsageEntry) (entitlement_of : N → option DataEntitlement)
    (a : N * Account.AccountStatus) : ObservedAccount :=
  let '(id, status) := a in
  let ent := entitlement_of id in
  let row := iter_find (λ u, ue_account u = id) usage in
  mkObsAccount id (standing_for_reconcile status)
    (e ← ent; cap_bytes e)
    (escalate_at_percent <$> ent)
    (default 0%N ((λ u, used_bytes (ue_usage u)) <$> row))
    (u ← row; ue_last_used u).

Definition observe_profile (p : ProfileRow) : ObservedProfile :=
  mkObsProfile (row_slot p) (row_profile p) (lifecycle_for_reconcile (row_state p)) (row_owner p).

Definition observe_session (entitlement_of : N → option DataEntitlement) (s : DataSession)
    : ObservedSession :=
  mkObsSession (ds_account s) (ds_slot s) (ds_profile s) (ds_roaming s)
    (default false (roaming_data_allowed <$> entitlement_of (ds_account s))).

Definition build_observed (accounts : list (N * Account.AccountStatus))
    (profiles : list ProfileRow) (usage : list UsageEntry) (sessions : list DataSession)
    (entitlement_of : N → option DataEntitlement) : Observed :=
  mkObserved (observe_account usage entitlement_of <$> accounts)
    (observe_profile <$> profiles)
    (observe_session entitlement_of <$> sessions).

(** ** Correctness of the encodings *)

Lemma shiftr9_zero arg : N.shiftr arg 9 = 0%N ↔ (arg < 512)%N.
Proof.
  rewrite N.shiftr_div_pow2. change (2 ^ 9)%N with 512%N. split; intros Ha.
  - by apply N.div_small_iff in Ha.
  - by apply N.div_small.
Qed.

(** The 512 well-formed arguments, checked one by one. *)
Lemma packed_table :
  forallb (λ arg, match unpack_profile_roaming arg with
                  | Some (p, r) =>
                      bool_decide (p ≤ 255)%N && bool_decide (pack_profile_roaming p r = arg)
                  | None => false
                  end) (N.of_nat <$> seq 0 512) = true.
Proof. vm_compute. reflexivity. Qed.

Lemma packed_table_inv :
  forallb (λ p, bool_decide (unpack_profile_roaming (pack_profile_roaming p true) = Some (p, true)) &&
                bool_decide (unpack_profile_roaming (pack_profile_roaming p false) = Some (p, false)))
    (N.of_nat <$> seq 0 256) = true.
Proof. vm_compute. reflexivity. Qed.

Lemma forallb_below (f : N → bool) k n :
  forallb f (N.of_nat <$> seq 0 k) = true → (n < N.of_nat k)%N → f n = true.
Proof.
  intros Hf Hn. apply (proj1 (List.forallb_forall _ _) Hf). apply list_elem_of_In, list_elem_of_fmap.
  exists (N.to_nat n). split; [lia|]. apply elem_of_seq. lia.
Qed.

(** The packed session argument: unpacking accepts exactly the registers that
    packing produces for a one-byte profile id and a flag, and gives both back; a
    register with any reserved bit set is refused. *)
Theorem unpack_exact arg profile roaming :
  unpack_profile_roaming arg = Some (profile, roaming) ↔
  (profile ≤ 255)%N ∧ arg = pack_profile_roaming profile roaming.
Proof.
  split.
  - intros Hu. assert (arg < 512)%N as Hlt.
    { apply shiftr9_zero. unfold unpack_profile_roaming in Hu. by case_decide. }
    pose proof (forallb_below _ 512 arg packed_table Hlt) as Ht. cbv beta in Ht. rewrite Hu in Ht.
    by rewrite andb_true_iff, !bool_decide_eq_true in Ht; destruct Ht as [? <-].
  - intros [Hp ->]. pose proof (forallb_below _ 256 profile packed_table_inv ltac:(lia)) as Ht.
    cbv beta in Ht. rewrite andb_true_iff, !bool_decide_eq_true in Ht. by destruct roaming, Ht.
Qed.

Lemma action_request_roundtrip_aux code request :
  action_request_from_code code = Some request ↔ action_request_code request = code.
Proof.
  unfold action_request_from_code.
  repeat case_decide; subst; (split; [by intros [= <-] | by destruct request as [[]|]]).
Qed.

(** The ABI of the advisory request: the four request codes decode to the
    request they encode and nothing else decodes, so no refusal code of the usage
    syscall can be read as a request. *)
Theorem request_code_roundtrip code request :
  (action_request_from_code code = Some request ↔ action_request_code request = code) ∧
  (code ∈ [USAGE_DENIED; USAGE_NO_ENTITLEMENT; USAGE_NO_SUCH_ACCOUNT; USAGE_TABLE_FULL;
           USAGE_NOT_ACTIVE; USAGE_NO_PROFILE] → action_request_from_code code = None).
Proof.
  split; [apply action_request_roundtrip_aux|]. rewrite !elem_of_cons, elem_of_nil.
  by intros [->|[->|[->|[->|[->|[->|[]]]]]]].
Qed.

Lemma millis_to_ticks_bounds freq millis :
  (millis ≠ 0 → 0 < millis_to_ticks freq millis)%N ∧ (millis_to_ticks freq millis ≤ u64_max)%N.
Proof.
  unfold millis_to_ticks.
  assert (saturating_mul u64_max freq millis / 1000 ≤ u64_max)%N as Hle.
  { etrans; [apply N.Div0.div_le_upper_bound|]; [|done]. unfold saturating_mul. lia. }
  revert Hle. generalize (saturating_mul u64_max freq millis / 1000)%N as t. intros t Hle.
  case_decide; split; [lia|unfold u64_max; lia|lia|lia].
Qed.

Lemma demo_entitlement_valid account e : demo_entitlement account = Some e → valid e.
Proof.
  unfold demo_entitlement. case_decide; [|done]. intros [= <-].
  constructor; cbn; [by intros c [= <-]|lia|split; done].
Qed.

Lemma demo_entitlement_known account e : demo_entitlement account = Some e → known account.
Proof.
  unfold demo_entitlement, known, MAX_DATA_ACCOUNTS. case_decide; [|done]. lia.
Qed.

(** Durations of the billing tables at any timer frequency: the billing
    periods the kernel installs or starts with are never empty and fit a u64, so
    the period constructor always accepts them; and whenever the product does not
    saturate, the conversion is the exact floor of [freq * millis / 1000], at
    least one tick. *)
Theorem demo_durations_sound freq millis account :
  (0 < demo_install_period_ticks freq ≤ u64_max)%N ∧
  (0 < demo_early_reset_cooldown_ticks freq ≤ u64_max)%N ∧
  (is_Some (demo_period account freq) ↔ (account ≤ 1)%N) ∧
  (∀ p, demo_period account freq = Some p → start_tick p = 0%N ∧ (0 < length_ticks p ≤ u64_max)%N) ∧
  ((freq * millis ≤ u64_max)%N → millis ≠ 0%N →
   millis_to_ticks freq millis = N.max 1 (freq * millis / 1000)).
Proof.
  assert (∀ m, m ≠ 0%N → 0 < millis_to_ticks freq m ≤ u64_max)%N as Hpos.
  { intros m Hm. destruct (millis_to_ticks_bounds freq m). auto. }
  split_and!.
  1-4: try (by apply Hpos).
  - unfold demo_period, period_new.
    pose proof (Hpos DEMO_PERIOD_MILLIS ltac:(done)). pose proof (Hpos DEMO_LONG_PERIOD_MILLIS ltac:(done)).
    repeat case_decide; cbn [res_ok]; split; intros Hx; try (by eexists); try lia; by destruct Hx.
  - intros p. unfold demo_period, period_new.
    pose proof (Hpos DEMO_PERIOD_MILLIS ltac:(done)). pose proof (Hpos DEMO_LONG_PERIOD_MILLIS ltac:(done)).
    repeat case_decide; cbn [res_ok]; intros [= <-]; cbn [start_tick length_ticks]; done.
  - intros Hf Hm. unfold millis_to_ticks, saturating_mul. rewrite N.min_l by done.
    generalize (freq * millis / 1000)%N as t. intros t. case_decide; lia.
Qed.

Lemma demo_durations_witness :
  millis_to_ticks 62500000 500 = 31250000%N.
Proof.
  destruct (demo_durations_sound 62500000 500 0) as (_ & _ & _ & _ & H).
  rewrite H; [vm_compute; reflexivity | vm_compute; discriminate | discriminate].
Defined.

Lemma request_code_witness : action_request_from_code USAGE_TABLE_FULL = None.
Proof. apply (request_code_roundtrip USAGE_TABLE_FULL None). by do 3 right; left. Defined.
