(* ===== verification/Channel.v ===== *)
(** * Byte mailboxes: [kernel-arm/src/ril_channel.rs] and [ipc_channel.rs]

    Two separate instances of the same array of one-byte mailboxes: sending
    overwrites, receiving takes. *)

From S2P Require Import Prelude.

Definition CHANNEL_COUNT : nat := 4.

Abbreviation Channels := (list (option N)).

Definition CHANNELS : Channels := replicate CHANNEL_COUNT None.

Definition send (channels : Channels) (channel byte : N) : Result () () * Channels :=
  match channels !! N.to_nat channel with
  | Some _ => (Ok (), <[N.to_nat channel := Some byte]> channels)
  | None => (Err (), channels)
  end.

Definition recv (channels : Channels) (channel : N) : option N * Channels :=
  match channels !! N.to_nat channel with
  | Some slot => (slot, <[N.to_nat channel := None]> channels)
  | None => (None, channels)
  end.

(** The byte waiting on a channel. *)
Definition pending (channels : Channels) (channel : N) : option N :=
  mjoin (channels !! N.to_nat channel).

Lemma pending_send channels c b c' :
  (send channels c b).1 = Ok () →
  pending ((send channels c b).2) c' = if decide (c' = c) then Some b else pending channels c'.
Proof.
  unfold send, pending. destruct (channels !! N.to_nat c) eqn:Hc; [|done]. intros _. cbn [snd].
  case_decide as Hd; [subst; by rewrite list_lookup_insert_eq by (by eapply lookup_lt_Some)|].
  by rewrite list_lookup_insert_ne by lia.
Qed.

Lemma pending_recv channels c c' :
  (recv channels c).1 = pending channels c ∧
  pending ((recv channels c).2) c' = if decide (c' = c) then None else pending channels c'.
Proof.
  unfold recv, pending. destruct (channels !! N.to_nat c) as [o|] eqn:Hc; cbn [fst snd mjoin option_join].
  - split; [done|]. case_decide as Hd;
      [subst; by rewrite list_lookup_insert_eq by (by eapply lookup_lt_Some)|].
    by rewrite list_lookup_insert_ne by lia.
  - split; [done|]. case_decide; [by subst; rewrite Hc|done].
Qed.

Lemma length_send channels c b : length ((send channels c b).2) = length channels.
Proof. unfold send. case_match; [apply length_insert|done]. Qed.

Lemma length_recv channels c : length ((recv channels c).2) = length channels.
Proof. unfold recv. case_match; [apply length_insert|done]. Qed.

(** A sequence of mailbox calls. *)
Inductive mail := MSend (channel byte : N) | MRecv (channel : N).

Definition run_mail (cs : Channels) (m : mail) : Channels :=
  match m with MSend c b => (send cs c b).2 | MRecv c => (recv cs c).2 end.

Definition mail_channel (m : mail) : N := match m with MSend c _ => c | MRecv c => c end.

Lemma run_mail_length cs m : length (run_mail cs m) = length cs.
Proof. destruct m; [apply length_send|apply length_recv]. Qed.

Lemma run_mails_length cs ms : length (foldl run_mail cs ms) = length cs.
Proof.
  revert cs. induction ms as [|m ms IH]; intros cs; [done|]. cbn [foldl].
  by rewrite IH, run_mail_length.
Qed.

Lemma run_mail_other cs m c : mail_channel m ≠ c → pending (run_mail cs m) c = pending cs c.
Proof.
  intros Hne. destruct m as [d b|d]; cbn [run_mail mail_channel] in *.
  - destruct (send cs d b) as [r cs'] eqn:Hs. cbn [snd]. destruct r as [[]|[]].
    + pose proof (pending_send cs d b c) as Hp. rewrite Hs in Hp. cbn [fst snd] in Hp.
      rewrite Hp by done. by rewrite decide_False by congruence.
    + unfold send in Hs. case_match; [done|]. by injection Hs as <-.
  - destruct (pending_recv cs d c) as [_ ->]. by rewrite decide_False by congruence.
Qed.

(** Mailbox round trip and isolation: a byte sent on one of the four channels
    is what the next receive on that channel returns, whatever traffic crosses
    the other channels in between, and a second receive finds nothing. *)
Theorem mailbox_roundtrip cs c b ms :
  length cs = CHANNEL_COUNT → (c < 4)%N → Forall (λ m, mail_channel m ≠ c) ms →
  let cs1 := foldl run_mail (run_mail cs (MSend c b)) ms in
  let '(first, cs2) := recv cs1 c in
  first = Some b ∧ (recv cs2 c).1 = None.
Proof.
  intros Hlen Hc Hms. cbn zeta.
  assert (pending (foldl run_mail (run_mail cs (MSend c b)) ms) c = Some b) as Hp.
  { assert (pending (run_mail cs (MSend c b)) c = Some b) as Hs.
    { cbn [run_mail]. rewrite pending_send; [by rewrite decide_True|].
      unfold send. destruct (lookup_lt_is_Some_2 cs (N.to_nat c)) as [x ->]; [|done].
      rewrite Hlen. unfold CHANNEL_COUNT. lia. }
    revert Hs. generalize (run_mail cs (MSend c b)) as ds.
    induction Hms as [|m ms Hm Hms IH]; intros ds Hs; [done|]. apply IH. by rewrite run_mail_other. }
  revert Hp. generalize (foldl run_mail (run_mail cs (MSend c b)) ms) as ds. intros ds Hp.
  destruct (recv ds c) as [r ds'] eqn:Hr.
  destruct (pending_recv ds c c) as [H1 H2]. rewrite Hr in H1, H2. cbn [fst snd] in H1, H2.
  destruct (pending_recv ds' c c) as [-> _]. rewrite H2, decide_True by done. by rewrite H1, Hp.
Qed.

Lemma mailbox_witness :
  (recv (foldl run_mail (run_mail CHANNELS (MSend 1 65)) [MSend 2 7; MRecv 0]) 1).1 = Some 65%N.
Proof.
  refine (proj1 (mailbox_roundtrip CHANNELS 1 65 [MSend 2 7; MRecv 0] _ _ _));
    [reflexivity|reflexivity|repeat constructor; discriminate].
Defined.
