(* ===== verification/Mvno.v ===== *)
(** * The kernel-side owners: [kernel-arm/src/mvno.rs] and [data.rs]

    The registry of [Account] coupled to the live profiles of [Sim] through the
    lifecycle view, and the snapshot the reconciler reads.  The statics become
    explicit arguments; a lock is held for the duration of one function. *)

From S2P Require Import Prelude Account Sim Policy Period Reconcile Selection DataState Worm Marshal.
From S2P Require Import DataCodes.

Definition adapt (state : Sim.ProfileState) : ProfileLifecycle :=
  match state with
  | Sim.Created => Account.Created
  | Sim.Disabled => Account.Disabled
  | Sim.Enabled => Account.Enabled
  | Sim.Deleted => Account.Deleted
  end.

Definition lifecycle_view (slots : Slots) : ProfileLifecycles := λ key,
  adapt <$> res_ok (profile_state slots (key_slot key) (key_profile key)).

Definition open_demo_account (reg : AccountRegistry) : Result AccountError N * AccountRegistry :=
  open_account reg 0xD00001 1.

Definition open_second_demo_account (reg : AccountRegistry)
    : Result AccountError N * AccountRegistry :=
  open_account reg 0xD00002 1.

Definition open_third_demo_account (reg : AccountRegistry)
    : Result AccountError N * AccountRegistry :=
  open_account reg 0xD00003 1.

Definition mvno_bind (reg : AccountRegistry) (slots : Slots) (account slot profile : N)
    : Result AccountError () * AccountRegistry :=
  Account.bind reg account (mkKey slot profile) (lifecycle_view slots).

Definition mvno_unbind (reg : AccountRegistry) (slots : Slots) (slot profile : N)
    : Result AccountError (option N) * AccountRegistry :=
  let k := mkKey slot profile in
  match owner_of reg k with
  | None => (Ok None, reg)
  | Some owner =>
      let '(r, reg') := Account.unbind reg k (lifecycle_view slots) in
      ((λ _, Some owner) <$> r, reg')
  end.

Definition gate_enable (reg : AccountRegistry) (slot profile : N) : Result AccountError () :=
  let k := mkKey slot profile in
  owner ← ok_or (owner_of reg k) NotBound;
  check_enable reg owner k.

Definition mvno_suspend (reg : AccountRegistry) (slots : Slots) (account : N)
    : Result AccountError (list ProfileKey) * AccountRegistry :=
  Account.suspend reg account (lifecycle_view slots).

Definition mvno_reactivate (reg : AccountRegistry) (account : N)
    : Result AccountError () * AccountRegistry :=
  Account.reactivate reg account.

Definition mvno_audit (reg : AccountRegistry) (slots : Slots) : list ProfileKey :=
  Account.audit reg (lifecycle_view slots).

Definition standing_in (reg : AccountRegistry) (acc : N) : option AccountStanding :=
  (λ a, match acct_status a with
        | Account.Active => Selection.Active
        | Account.Suspended => Selection.Suspended
        | Account.Closed => Selection.Closed
        end) <$> account reg acc.

Definition standing (reg : AccountRegistry) (acc : N) : option AccountStatus :=
  acct_status <$> account reg acc.

Definition mvno_owner_of (reg : AccountRegistry) (slot profile : N) : option N :=
  owner_of reg (mkKey slot profile).

Definition has_bound_profile (reg : AccountRegistry) (acc : N) : bool :=
  negb (bool_decide (profiles_of reg acc = [])).

Definition mvno_accounts (reg : AccountRegistry) : list (N * AccountStatus) :=
  (λ a, (acct_id a, acct_status a)) <$> accounts reg.

(** ** [data.rs] *)

Definition MAX_SLOT_SCAN : nat := 16.

Definition slot_rows (reg : AccountRegistry) (slot : N) (ps : list EsimProfile) : list ProfileRow :=
  (λ p, mkRow slot (prof_id p) (prof_state p) (mvno_owner_of reg slot (prof_id p))) <$> ps.

(** [for slot in 0..MAX_SLOT_SCAN], [fuel] slots from [slot] on. *)
Fixpoint scan_slots (reg : AccountRegistry) (slots : Slots) (fuel : nat) (slot : N)
    : list ProfileRow :=
  match fuel with
  | O => []
  | S fuel =>
      match profiles slots slot with
      | Ok ps => slot_rows reg slot ps ++ scan_slots reg slots fuel (slot + 1)
      | Err NoSuchSlot => []
      | Err _ => scan_slots reg slots fuel (slot + 1)
      end
  end.

Definition snapshot_for_reconcile (reg : AccountRegistry) (slots : Slots) (data : DataState)
    : Observed * list UsageEntry :=
  let accounts := mvno_accounts reg in
  let rows := scan_slots reg slots MAX_SLOT_SCAN 0 in
  let '(usage, sessions) := snapshot data in
  (build_observed accounts rows usage sessions demo_entitlement, usage).

Definition assess_period_of (data : DataState) (acc now : N) : option PeriodAssessment :=
  (λ p, assess_period p now) <$> period_of data acc.
