(* ===== verification/Svc.v ===== *)
(** * The syscall boundary: [kernel-arm/src/svc.rs]

    Every handler of the SVC dispatcher, as a function of one explicit kernel
    state (the statics of [svc.rs], [mvno.rs], [sim.rs], [data.rs] and the two
    channel modules) and of what the call reads from outside: the answers of the
    capability check, the MARSHAL evaluation and the generic timer.  Serial
    output is not modelled; every audit entry is.  The handlers run to
    completion one at a time (one EL0 context, interrupts masked). *)

From S2P Require Import Prelude Text Account Sim Policy Period Reconcile DataState Worm AuditChain.
From S2P Require Import Marshal Capability DataCodes Channel Mvno.

(** ** State and effects *)

Record Kernel := mkKernel {
  k_registry : AccountRegistry;
  k_slots : Slots;
  k_data : DataState;
  k_ril : Channels;
  k_ipc : Channels;
  k_worm : option BoundedAudit;
  k_memory : ReconcileMemory;
}.

Definition KERNEL : Kernel :=
  mkKernel Account.new SLOTS DataState.new CHANNELS CHANNELS None memory_new.

(** What one call reads from outside.  [env_check] is the capability check at the
    ticks this call reads (each resource is checked at most once per call);
    [env_gate_now] is the first tick a reset reads and [env_now] the tick it
    takes effect at, or the only tick the other handlers read. *)
Record Env := mkEnv {
  env_check : string → Result CapabilityError ();
  env_evaluate : MarshalAction → GateOutcome;
  env_gate_now : N;
  env_now : N;
  env_freq : N;
}.

Definition M (A : Type) : Type := Kernel → A * Kernel.

#[global] Instance M_ret : MRet M := λ A a k, (a, k).
#[global] Instance M_bind : MBind M := λ A B f m k, let '(a, k') := m k in f a k'.

Definition gets {A} (f : Kernel → A) : M A := λ k, (f k, k).

Definition on_registry {A} (f : AccountRegistry → Slots → A * AccountRegistry) : M A := λ k,
  let '(a, r) := f (k_registry k) (k_slots k) in
  (a, mkKernel r (k_slots k) (k_data k) (k_ril k) (k_ipc k) (k_worm k) (k_memory k)).

Definition on_slots {A} (f : Slots → A * Slots) : M A := λ k,
  let '(a, s) := f (k_slots k) in
  (a, mkKernel (k_registry k) s (k_data k) (k_ril k) (k_ipc k) (k_worm k) (k_memory k)).

Definition on_data {A} (f : DataState → A * DataState) : M A := λ k,
  let '(a, d) := f (k_data k) in
  (a, mkKernel (k_registry k) (k_slots k) d (k_ril k) (k_ipc k) (k_worm k) (k_memory k)).

Definition on_ril {A} (f : Channels → A * Channels) : M A := λ k,
  let '(a, c) := f (k_ril k) in
  (a, mkKernel (k_registry k) (k_slots k) (k_data k) c (k_ipc k) (k_worm k) (k_memory k)).

Definition on_ipc {A} (f : Channels → A * Channels) : M A := λ k,
  let '(a, c) := f (k_ipc k) in
  (a, mkKernel (k_registry k) (k_slots k) (k_data k) (k_ril k) c (k_worm k) (k_memory k)).

Definition on_memory {A} (f : ReconcileMemory → ReconcileMemory * A) : M A := λ k,
  let '(m, a) := f (k_memory k) in
  (a, mkKernel (k_registry k) (k_slots k) (k_data k) (k_ril k) (k_ipc k) (k_worm k) m).

(** [guard.get_or_insert_with(BoundedAudit::new)] *)
Definition on_worm {A} (f : BoundedAudit → BoundedAudit * A) : M A := λ k,
  let '(a, x) := f (default audit_new (k_worm k)) in
  (x, mkKernel (k_registry k) (k_slots k) (k_data k) (k_ril k) (k_ipc k) (Some a) (k_memory k)).

(** ** Constants *)

Definition MARSHAL_PRINCIPAL : string := "el0:arm-demo".

Definition SYS_WRITE : N := 1.
Definition SYS_RIL_ACCESS : N := 2.
Definition SYS_RIL_SEND : N := 3.
Definition SYS_RIL_RECV : N := 4.
Definition SYS_SIM_CREATE : N := 5.
Definition SYS_SIM_INSTALL : N := 6.
Definition SYS_SIM_ENABLE : N := 7.
Definition SYS_SIM_DISABLE : N := 8.
Definition SYS_SIM_DELETE : N := 9.
Definition SYS_SIM_STATUS : N := 10.
Definition SYS_IPC_SEND : N := 11.
Definition SYS_IPC_RECV : N := 12.
Definition SYS_EL0_PROOF_DONE : N := 13.
Definition SYS_NET_PROOF_DONE : N := 14.
Definition SYS_MARSHAL_PROOF_DONE : N := 15.
Definition SYS_MVNO_BIND : N := 16.
Definition SYS_MVNO_SUSPEND : N := 17.
Definition SYS_MVNO_REACTIVATE : N := 18.
Definition SYS_DATA_ACCOUNT : N := 19.
Definition SYS_DATA_SESSION_OPEN : N := 20.
Definition SYS_DATA_SESSION_CLOSE : N := 21.
Definition SYS_DATA_RECONCILE : N := 22.
Definition SYS_DATA_RESET : N := 23.
Definition SYS_DATA_PERIOD : N := 24.

Definition RIL_RECV_EMPTY : N := 256.
Definition RIL_RECV_DENIED : N := 257.
Definition IPC_RECV_EMPTY : N := 256.
Definition IPC_RECV_DENIED : N := 257.
Definition SIM_STATUS_DENIED : N := 4.
Definition SIM_CREATE_FAILED : N := 256.

Definition applied_or_rejected (authorized : bool) : AuditClass :=
  if authorized then AuditChain.Applied else AuditChain.Rejected.

(** [Result<T, AccountError>] as [(authorized, reason)]. *)
Definition audit_outcome {T} (r : Result AccountError T) : bool * option string :=
  match r with Ok _ => (true, None) | Err e => (false, Some (account_error_debug e)) end.

Section svc.
Context `{Sha256}.

(** ** Auditing *)

Definition audit_event (class : AuditClass) (subject from to : string) (authorized : bool)
    (reason : option string) : M AuditOutcome :=
  on_worm (λ a, AuditChain.record a class subject from to authorized reason).

Definition audit_coalesce (class : AuditClass) (reason : string) : M AuditOutcome :=
  on_worm (λ a, note_coalesced a class reason).

Definition audit_chain_summary : M (nat * bool) := gets (λ k,
  match k_worm k with Some a => (length (log a), AuditChain.verify a) | None => (0, true) end).

Definition audit_transition (slot profile_id : N) (from to : Sim.ProfileState)
    (result : Result SimError ()) (verdict : option string) : M () :=
  let subject := sim_profile_resource slot profile_id in
  let '(authorized, reason) :=
    match result with
    | Ok _ => (true, None)
    | Err e => (false, Some (sim_error_display e))
    end in
  let reason :=
    match verdict with Some v => Some (reason_with_verdict reason v) | None => reason end in
  _ ← audit_event (applied_or_rejected authorized) subject (profile_state_debug from)
        (profile_state_debug to) authorized reason;
  mret ().

Definition audit_capability_denial (class : AuditClass) (label resource denial : string) : M () :=
  _ ← audit_event class resource "capability check" "denied" false
        (Some (label +:+ ": capability denied: " +:+ denial));
  mret ().

Fixpoint audit_closed_sessions (rows : list DataSession) (what : string) : M () :=
  match rows with
  | [] => mret ()
  | r :: rows =>
      _ ← audit_event DataActivity (data_session_resource (ds_account r)) "Open"
            ("Closed (kernel cleanup after " +:+ what +:+ ")") true
            (Some ("slot " +:+ pretty (ds_slot r) +:+ " profile " +:+ pretty (ds_profile r)));
      audit_closed_sessions rows what
  end.

Definition audit_data_session (account : N) (authorized : bool) (to reason : string) : M () :=
  _ ← audit_event (if authorized then DataActivity else AuditChain.Rejected)
        (data_session_resource account) "Closed" to authorized (Some reason);
  mret ().

(** ** The MARSHAL gate *)

Definition enforce_gate (policy : UnreachablePolicy) (outcome : GateOutcome)
    (subject from to : string) : M (Result Blocked GateOutcome) :=
  match enforce policy outcome with
  | Ok _ => mret (Ok outcome)
  | Err blocked =>
      let class :=
        match blocked with
        | BlockedRemote _ => GateBlocked
        | BlockedLocal _ | BlockedUnreachable | BlockedFaulty => GateFailClosed
        end in
      _ ← audit_event class subject from to false (Some (blocked_display blocked));
      mret (Err blocked)
  end.

Definition marshal_gate (env : Env) (action : MarshalAction) (subject from to : string)
    : M (Result Blocked GateOutcome) :=
  enforce_gate (unreachable_policy action) (env_evaluate env action) subject from to.

(** ** RIL and IPC mailboxes *)

Definition ril_access (env : Env) (arg1 : N) : M N :=
  match env_check env (ril_resource arg1) with Ok _ => mret 0%N | Err _ => mret 1%N end.

Definition ril_send (env : Env) (arg1 arg2 : N) : M N :=
  match env_check env (ril_resource arg1) with
  | Ok _ =>
      r ← on_ril (λ cs, send cs arg1 (as_u8 arg2));
      match r with Ok _ => mret 0%N | Err _ => mret 1%N end
  | Err _ => mret 1%N
  end.

Definition ril_recv (env : Env) (arg1 : N) : M N :=
  match env_check env (ril_resource arg1) with
  | Ok _ =>
      r ← on_ril (λ cs, recv cs arg1);
      match r with Some byte => mret byte | None => mret RIL_RECV_EMPTY end
  | Err _ => mret RIL_RECV_DENIED
  end.

Definition ipc_send (env : Env) (arg1 arg2 : N) : M N :=
  match env_check env (ipc_resource arg1) with
  | Ok _ =>
      r ← on_ipc (λ cs, send cs arg1 (as_u8 arg2));
      match r with Ok _ => mret 0%N | Err _ => mret 1%N end
  | Err _ => mret 1%N
  end.

Definition ipc_recv (env : Env) (arg1 : N) : M N :=
  match env_check env (ipc_resource arg1) with
  | Ok _ =>
      r ← on_ipc (λ cs, recv cs arg1);
      match r with Some byte => mret byte | None => mret IPC_RECV_EMPTY end
  | Err _ => mret IPC_RECV_DENIED
  end.

(** ** eSIM *)

Definition slot_profile (slot profile : N) : string :=
  "slot " +:+ pretty slot +:+ " profile " +:+ pretty profile.

Definition sim_create (env : Env) (arg1 : N) : M N :=
  let slot := arg1 in
  match env_check env (sim_resource slot) with
  | Ok _ =>
      r ← on_slots (λ s, Sim.create s slot);
      match r with Ok profile_id => mret profile_id | Err _ => mret SIM_CREATE_FAILED end
  | Err e =>
      _ ← audit_capability_denial CapDenialEsim ("SYS_SIM_CREATE slot " +:+ pretty slot)
            (sim_resource slot) (cap_error_display e);
      mret SIM_CREATE_FAILED
  end.

Definition sim_install (env : Env) (arg1 arg2 arg3 : N) : M N :=
  let slot := arg1 in
  let profile_id := as_u8 arg2 in
  let identity := arg3 in
  match env_check env (sim_profile_resource slot profile_id) with
  | Ok _ =>
      result ← on_slots (λ s, Sim.install s slot profile_id identity);
      _ ← audit_transition slot profile_id Sim.Created Sim.Disabled result None;
      match result with Ok _ => mret 0%N | Err _ => mret 1%N end
  | Err e =>
      _ ← audit_capability_denial CapDenialEsim
            ("SYS_SIM_INSTALL " +:+ slot_profile slot profile_id)
            (sim_profile_resource slot profile_id) (cap_error_display e);
      mret 1%N
  end.

Definition sim_enable (env : Env) (arg1 arg2 : N) : M N :=
  let slot := arg1 in
  let profile_id := as_u8 arg2 in
  let subject := sim_profile_resource slot profile_id in
  let from := profile_state_debug Sim.Disabled in
  let to := profile_state_debug Sim.Enabled in
  match env_check env subject with
  | Ok _ =>
      gate ← gets (λ k, gate_enable (k_registry k) slot profile_id);
      match gate with
      | Err e =>
          _ ← audit_event AuditChain.Rejected subject from to false
                (Some ("refused by the MVNO enable gate: " +:+ account_error_debug e));
          mret 1%N
      | Ok _ =>
          let action := Esim "enable" slot profile_id in
          let outcome := env_evaluate env action in
          allowed ← enforce_gate (unreachable_policy action) outcome subject from to;
          match allowed with
          | Err _ => mret 1%N
          | Ok allowed =>
              let verdict := verdict_text allowed in
              result ← on_slots (λ s, Sim.enable s slot profile_id);
              _ ← audit_transition slot profile_id Sim.Disabled Sim.Enabled result (Some verdict);
              match result with Ok _ => mret 0%N | Err _ => mret 1%N end
          end
      end
  | Err e =>
      _ ← audit_capability_denial CapDenialEsim
            ("SYS_SIM_ENABLE " +:+ slot_profile slot profile_id) subject (cap_error_display e);
      mret 1%N
  end.

Definition sim_disable (env : Env) (arg1 arg2 : N) : M N :=
  let slot := arg1 in
  let profile_id := as_u8 arg2 in
  match env_check env (sim_profile_resource slot profile_id) with
  | Ok _ =>
      result ← on_slots (λ s, Sim.disable s slot profile_id);
      _ ← audit_transition slot profile_id Sim.Enabled Sim.Disabled result None;
      match result with
      | Ok _ =>
          closed ← on_data (λ d, close_sessions_for_profile d slot profile_id);
          _ ← audit_closed_sessions closed "operator SIM disable";
          mret 0%N
      | Err _ => mret 1%N
      end
  | Err e =>
      _ ← audit_capability_denial CapDenialEsim
            ("SYS_SIM_DISABLE " +:+ slot_profile slot profile_id)
            (sim_profile_resource slot profile_id) (cap_error_display e);
      mret 1%N
  end.

Definition release_binding_after_delete (slot profile_id : N) : M () :=
  let subject := sim_profile_resource slot profile_id in
  r ← on_registry (λ reg slots, mvno_unbind reg slots slot profile_id);
  _ ← match r with
      | Ok None => mret ()
      | Ok (Some owner) =>
          _ ← audit_event AuditChain.Applied subject
                ("Bound(account " +:+ pretty owner +:+ ")") "Unbound" true None;
          mret ()
      | Err e =>
          _ ← audit_event AuditChain.Rejected subject "Bound" "Unbound" false
                (Some (account_error_debug e));
          mret ()
      end;
  closed ← on_data (λ d, close_sessions_for_profile d slot profile_id);
  audit_closed_sessions closed "SIM delete".

Definition sim_delete (env : Env) (arg1 arg2 : N) : M N :=
  let slot := arg1 in
  let profile_id := as_u8 arg2 in
  match env_check env (sim_delete_resource slot profile_id) with
  | Ok _ =>
      let action := Esim "delete" slot profile_id in
      let outcome := env_evaluate env action in
      allowed ← enforce_gate (unreachable_policy action) outcome
                  (sim_profile_resource slot profile_id)
                  (profile_state_debug Sim.Disabled) (profile_state_debug Sim.Deleted);
      match allowed with
      | Err _ => mret 1%N
      | Ok allowed =>
          let verdict := verdict_text allowed in
          result ← on_slots (λ s, Sim.delete s slot profile_id);
          _ ← audit_transition slot profile_id Sim.Disabled Sim.Deleted result (Some verdict);
          match result with
          | Ok _ => _ ← release_binding_after_delete slot profile_id; mret 0%N
          | Err _ => mret 1%N
          end
      end
  | Err e =>
      _ ← audit_capability_denial CapDenialEsim
            ("SYS_SIM_DELETE " +:+ slot_profile slot profile_id)
            (sim_delete_resource slot profile_id) (cap_error_display e);
      mret 1%N
  end.

Definition sim_status (env : Env) (arg1 arg2 : N) : M N :=
  let slot := arg1 in
  let profile_id := as_u8 arg2 in
  match env_check env (sim_profile_resource slot profile_id) with
  | Ok _ =>
      r ← gets (λ k, profile_state (k_slots k) slot profile_id);
      match r with Ok state => mret (as_status_code state) | Err _ => mret SIM_STATUS_DENIED end
  | Err e =>
      _ ← audit_capability_denial CapDenialEsim
            ("SYS_SIM_STATUS " +:+ slot_profile slot profile_id)
            (sim_profile_resource slot profile_id) (cap_error_display e);
      mret SIM_STATUS_DENIED
  end.

(** ** MVNO *)

Definition bind_authority (env : Env) (account slot profile_id : N) : Result string () :=
  let account_res := mvno_account_resource account in
  let profile_res := sim_profile_resource slot profile_id in
  match env_check env account_res, env_check env profile_res with
  | Ok _, Ok _ => Ok ()
  | Err e, Ok _ => Err ("resource " +:+ account_res +:+ ": " +:+ cap_error_display e)
  | Ok _, Err e => Err ("resource " +:+ profile_res +:+ ": " +:+ cap_error_display e)
  | Err a, Err p =>
      Err ("resource " +:+ account_res +:+ ": " +:+ cap_error_display a +:+ "; resource " +:+
           profile_res +:+ ": " +:+ cap_error_display p)
  end.

Definition mvno_bind_call (env : Env) (arg1 arg2 arg3 : N) : M N :=
  let account := arg1 in
  let slot := arg2 in
  let profile_id := as_u8 arg3 in
  match bind_authority env account slot profile_id with
  | Ok _ =>
      let to := "Bound(account " +:+ pretty account +:+ ")" in
      allowed ← marshal_gate env (MvnoBind account slot profile_id)
                  (sim_profile_resource slot profile_id) "Unbound" to;
      match allowed with
      | Err _ => mret 1%N
      | Ok allowed =>
          let verdict := verdict_text allowed in
          result ← on_registry (λ reg slots, mvno_bind reg slots account slot profile_id);
          let '(authorized, reason) := audit_outcome result in
          _ ← audit_event (applied_or_rejected authorized) (sim_profile_resource slot profile_id)
                "Unbound" to authorized (Some (reason_with_verdict reason verdict));
          match result with Ok _ => mret 0%N | Err _ => mret 1%N end
      end
  | Err e =>
      _ ← audit_capability_denial CapDenialMvno
            ("SYS_MVNO_BIND account " +:+ pretty account +:+ " " +:+ slot_profile slot profile_id)
            (mvno_account_resource account) e;
      mret 1%N
  end.

(** [for k in forced { sim::disable(k.slot, k.profile); audit }], the [ok] flag
    threaded through. *)
Fixpoint force_disables (forced : list ProfileKey) (ok : bool) : M bool :=
  match forced with
  | [] => mret ok
  | k :: forced =>
      disabled ← on_slots (λ s, Sim.disable s (key_slot k) (key_profile k));
      let '(authorized, reason) :=
        match disabled with
        | Ok _ => (true, None)
        | Err e => (false, Some (sim_error_display e))
        end in
      _ ← audit_event (applied_or_rejected authorized)
            (sim_profile_resource (key_slot k) (key_profile k)) "Enabled"
            "Disabled (forced by MVNO suspend)" authorized reason;
      force_disables forced (match disabled with Ok _ => ok | Err _ => false end)
  end.

Definition suspend_account (account : N) (verdict : string) : M N :=
  result ← on_registry (λ reg slots, mvno_suspend reg slots account);
  let '(authorized, reason) := audit_outcome result in
  _ ← audit_event (applied_or_rejected authorized) (mvno_account_resource account)
        "Active" "Suspended" authorized (Some (reason_with_verdict reason verdict));
  match result with
  | Err _ => mret 1%N
  | Ok forced =>
      ok ← force_disables forced true;
      closed ← on_data (λ d, close_sessions_for_account d account);
      _ ← audit_closed_sessions closed "MVNO suspend";
      leaked ← gets (λ k, mvno_audit (k_registry k) (k_slots k));
      summary ← audit_chain_summary;
      let '(_, chain_ok) := summary in
      let ok := if decide (leaked = []) then ok else false in
      mret (if ok && chain_ok then 0%N else 1%N)
  end.

Definition mvno_suspend_call (env : Env) (arg1 : N) : M N :=
  let account := arg1 in
  match env_check env (mvno_suspend_resource account) with
  | Ok _ =>
      allowed ← marshal_gate env (MvnoSuspend account) (mvno_account_resource account)
                  "Active" "Suspended";
      match allowed with
      | Err _ => mret 1%N
      | Ok allowed => suspend_account account (verdict_text allowed)
      end
  | Err e =>
      _ ← audit_capability_denial CapDenialMvno ("SYS_MVNO_SUSPEND account " +:+ pretty account)
            (mvno_suspend_resource account) (cap_error_display e);
      mret 1%N
  end.

Definition mvno_reactivate_call (env : Env) (arg1 : N) : M N :=
  let account := arg1 in
  match env_check env (mvno_account_resource account) with
  | Ok _ =>
      allowed ← marshal_gate env (MvnoReactivate account) (mvno_account_resource account)
                  "Suspended" "Active";
      match allowed with
      | Err _ => mret 1%N
      | Ok allowed =>
          let verdict := verdict_text allowed in
          result ← on_registry (λ reg _, mvno_reactivate reg account);
          let '(authorized, reason) := audit_outcome result in
          _ ← audit_event (applied_or_rejected authorized) (mvno_account_resource account)
                "Suspended" "Active" authorized (Some (reason_with_verdict reason verdict));
          match result with Ok _ => mret 0%N | Err _ => mret 1%N end
      end
  | Err e =>
      _ ← audit_capability_denial CapDenialMvno
            ("SYS_MVNO_REACTIVATE account " +:+ pretty account)
            (mvno_account_resource account) (cap_error_display e);
      mret 1%N
  end.

(** ** Data policy *)

Definition data_account (env : Env) (account bytes : N) : M N :=
  let resource := data_usage_resource account in
  match env_check env resource with
  | Err e =>
      _ ← audit_capability_denial CapDenialData ("SYS_DATA_ACCOUNT account " +:+ pretty account)
            resource (cap_error_display e);
      mret USAGE_DENIED
  | Ok _ =>
  match demo_entitlement account with
  | None =>
      _ ← audit_event AuditChain.Rejected resource "Metered" "Metered" false
            (Some "refused: no data entitlement for this account");
      mret USAGE_NO_ENTITLEMENT
  | Some entitlement =>
  st ← gets (λ k, standing (k_registry k) account);
  match st with
  | None =>
      _ ← audit_event AuditChain.Rejected resource "Metered" "Metered" false
            (Some "refused: no such account in the registry");
      mret USAGE_NO_SUCH_ACCOUNT
  | Some status =>
  bound ← gets (λ k, has_bound_profile (k_registry k) account);
  match usage_feed_refusal status bound with
  | Some code =>
      let why :=
        if decide (code = USAGE_NOT_ACTIVE)
        then "account is " +:+ account_status_debug status +:+ ", not Active"
        else "account has no bound profile" in
      _ ← audit_event AuditChain.Rejected resource "Metered" "Metered" false
            (Some ("refused: " +:+ why +:+ "; bytes " +:+ pretty bytes +:+ " not counted"));
      mret code
  | None =>
  fed ← on_data (λ d, feed_usage d account bytes);
  match fed with
  | Err _ =>
      _ ← audit_event AuditChain.Rejected resource "Metered" "Metered" false
            (Some "refused: usage table full, bytes not counted");
      mret USAGE_TABLE_FULL
  | Ok (before, after) =>
      let assessment := evaluate_usage entitlement after in
      let described := describe_usage_assessment entitlement after assessment in
      _ ← audit_event DataActivity resource ("used " +:+ pretty (used_bytes before))
            ("used " +:+ pretty (used_bytes after)) true
            (Some ("usage fed " +:+ pretty bytes +:+ " bytes; " +:+ described));
      _ ← match escalation assessment with
          | Some request =>
              _ ← audit_event DataActivity resource ("band " +:+ band_debug (band assessment))
                    ("REQUEST " +:+ action_request_debug request +:+
                     " (advisory; nothing was performed by this syscall)") true
                    (Some "policy engine request to the caller, to be carried out through the governed path");
              mret ()
          | None => mret ()
          end;
      mret (action_request_code (escalation assessment))
  end end end end end.

Definition data_session_open (env : Env) (account slot packed : N) : M N :=
  let resource := data_session_resource account in
  match env_check env resource with
  | Err e =>
      _ ← audit_capability_denial CapDenialData
            ("SYS_DATA_SESSION_OPEN account " +:+ pretty account +:+ " slot " +:+ pretty slot)
            resource (cap_error_display e);
      mret SESSION_REFUSED_CAPABILITY
  | Ok _ =>
  match unpack_profile_roaming packed with
  | None =>
      _ ← audit_data_session account false "Open"
            ("refused: malformed packed argument " +:+ fmt_hex packed);
      mret SESSION_REFUSED_BAD_ARGUMENT
  | Some (profile, roaming) =>
  match demo_entitlement account with
  | None =>
      _ ← audit_data_session account false "Open"
            ("refused: no data entitlement for account " +:+ pretty account);
      mret SESSION_REFUSED_NO_ENTITLEMENT
  | Some entitlement =>
  st ← gets (λ k, standing (k_registry k) account);
  match st with
  | None =>
      _ ← audit_data_session account false "Open" ("refused: no such account " +:+ pretty account);
      mret SESSION_REFUSED_NO_SUCH_ACCOUNT
  | Some status =>
  owner ← gets (λ k, mvno_owner_of (k_registry k) slot profile);
  if decide (owner ≠ Some account) then
    let who :=
      match owner with
      | None => "bound to no account"
      | Some o => "bound to account " +:+ pretty o
      end in
    _ ← audit_data_session account false "Open"
          ("refused: " +:+ slot_profile slot profile +:+ " is " +:+ who +:+ ", not account " +:+
           pretty account);
    mret SESSION_REFUSED_PROFILE_NOT_BOUND
  else
  state ← gets (λ k, profile_state (k_slots k) slot profile);
  match state with
  | Err e =>
      _ ← audit_data_session account false "Open"
            ("refused: no lifecycle for " +:+ slot_profile slot profile +:+ " (" +:+
             sim_error_display e +:+ ")");
      mret SESSION_REFUSED_UNKNOWN_PROFILE
  | Ok state =>
      let lifecycle := lifecycle_for_data state in
      outcome ← on_data (λ d, decide_and_open d account slot profile roaming
                                (standing_for_data status) lifecycle entitlement);
      let record := oo_record outcome in
      let described := describe_session_record record in
      match rec_decision record, oo_recorded outcome with
      | Deny reason, _ =>
          _ ← audit_data_session account false "Open"
                ("denied " +:+ deny_reason_debug reason +:+ "; " +:+ described);
          mret (session_decision_code (rec_decision record))
      | _, RecTableFull =>
          _ ← audit_data_session account false "Open"
                ("allowed by policy but not recorded: session table full; " +:+ described);
          mret SESSION_FAILED_TABLE_FULL
      | decision, _ =>
          let to :=
            if decide (decision = AllowThrottled) then "Open (throttled)" else "Open" in
          _ ← audit_data_session account true to ("allowed; " +:+ described);
          mret (session_decision_code decision)
      end
  end end end end end.

Definition data_session_close (env : Env) (account slot arg : N) : M N :=
  match env_check env (data_session_resource account) with
  | Err e =>
      _ ← audit_capability_denial CapDenialData
            ("SYS_DATA_SESSION_CLOSE account " +:+ pretty account +:+ " slot " +:+ pretty slot)
            (data_session_resource account) (cap_error_display e);
      mret CLOSE_DENIED
  | Ok _ =>
  match unpack_profile_roaming arg with
  | None | Some (_, true) => mret CLOSE_BAD_ARGUMENT
  | Some (profile, false) =>
      open ← on_data (λ d, close_session d account slot profile);
      if (open : bool) then
        _ ← audit_event DataActivity (data_session_resource account) "Open"
              "Closed (by caller via SYS_DATA_SESSION_CLOSE)" true
              (Some (slot_profile slot profile));
        mret CLOSE_OK
      else
        _ ← audit_event AuditChain.Rejected (data_session_resource account) "Closed" "Closed" false
              (Some (slot_profile slot profile +:+ ": no such open session"));
        mret CLOSE_NOT_OPEN
  end end.

(** ** Reconciliation *)

Definition incident_text (i : Reconcile.Incident) : string :=
  incident_kind_display (kind i) +:+ "|" +:+ subject_display (subject i) +:+ "|" +:+
  fact_display (expected i) +:+ "|" +:+ fact_display (observed i).

Definition period_incident_text (i : PeriodIncident) : string :=
  "period|" +:+ period_incident_kind_debug (pi_kind i) +:+ "|" +:+ pretty (pi_account i) +:+
  "|" +:+ pretty (pi_expected i).

Definition EVIDENCE : string :=
  "RECONCILER EVIDENCE (observed drift, not a denial; nothing was corrected): ".

(** [for (i, incident) in incidents.iter().enumerate() { if plan.fresh[i] .. }],
    from index [i] on. *)
Fixpoint audit_incidents (fresh : list bool) (i : nat) (incidents : list Reconcile.Incident) : M () :=
  match incidents with
  | [] => mret ()
  | incident :: incidents =>
      _ ← (if decide (fresh !! i = Some true) then
             _ ← audit_event AuditChain.Incident
                   (data_reconcile_resource +:+ ":" +:+ subject_display (subject incident))
                   ("expected " +:+ fact_display (expected incident))
                   ("observed " +:+ fact_display (observed incident)) false
                   (Some (EVIDENCE +:+ incident_kind_display (kind incident)));
             mret ()
           else mret ());
      audit_incidents fresh (S i) incidents
  end.

Fixpoint audit_period_incidents (fresh : list bool) (i : nat) (incidents : list PeriodIncident)
    : M () :=
  match incidents with
  | [] => mret ()
  | incident :: incidents =>
      _ ← (if decide (fresh !! i = Some true) then
             _ ← audit_event AuditChain.Incident
                   (data_reconcile_resource +:+ ":period:" +:+ pretty (pi_account incident))
                   ("expected " +:+ pretty (pi_expected incident))
                   ("observed " +:+ pretty (pi_observed incident)) false
                   (Some (EVIDENCE +:+ "billing period: " +:+ period_incident_display incident));
             mret ()
           else mret ());
      audit_period_incidents fresh (S i) incidents
  end.

Definition audit_clean_pass (c : option CleanPass) : M () :=
  match c with
  | Some (RecordPass clean_passes) =>
      _ ← audit_event CleanPassClass data_reconcile_resource
            "reconcile pass: findings or none yet" "reconcile pass: clean" true
            (Some ("RECONCILER EVIDENCE: pass ran and found no incident (clean pass #" +:+
                   pretty clean_passes +:+
                   "); consecutive clean passes are counted, not appended"));
      mret ()
  | Some (CoalescePass clean_passes) =>
      _ ← audit_coalesce CleanPassClass
            ("reconcile clean pass #" +:+ pretty clean_passes +:+
             ", unchanged since the last recorded clean pass");
      mret ()
  | None => mret ()
  end.

Definition data_reconcile (env : Env) : M N :=
  let resource := data_reconcile_resource in
  match env_check env resource with
  | Err e =>
      _ ← audit_capability_denial CapDenialData "SYS_DATA_RECONCILE" resource
            (cap_error_display e);
      mret RECONCILE_DENIED
  | Ok _ =>
      snap ← gets (λ k, snapshot_for_reconcile (k_registry k) (k_slots k) (k_data k));
      let '(observed, usage_rows) := snap in
      let incidents := reconcile observed in
      snaps ← gets (λ k, period_snapshot (k_data k));
      let period_incidents :=
        check_periods snaps (env_now env) (millis_to_ticks (env_freq env) DEMO_GRACE_MILLIS) in
      let keys := (incident_text <$> incidents) ++ (period_incident_text <$> period_incidents) in
      plan ← on_memory (λ m, observe m keys);
      _ ← audit_incidents (fresh plan) 0 incidents;
      _ ← audit_period_incidents (fresh plan) (length incidents) period_incidents;
      _ ← audit_clean_pass (clean plan);
      _ ← on_data (λ d, ((), mark_observed d usage_rows));
      mret (N.of_nat (length incidents + length period_incidents))
  end.

(** ** Billing periods *)

Definition data_period (env : Env) (account : N) : M N :=
  let resource := data_session_resource account in
  match env_check env resource with
  | Err e =>
      _ ← audit_capability_denial CapDenialData ("SYS_DATA_PERIOD account " +:+ pretty account)
            resource (cap_error_display e);
      mret PERIOD_DENIED
  | Ok _ =>
      let now := env_now env in
      advice ← on_data (λ d, advise_period d account now);
      match advice with
      | None => mret PERIOD_NO_PERIOD
      | Some advice =>
          let described := describe_period_assessment (adv_assessment advice) in
          let code := period_assessment_code (adv_assessment advice) in
          _ ← (if adv_first_request advice then
                 _ ← audit_event DataActivity resource "billing period in progress"
                       "REQUEST ResetUsage (advisory; nothing was performed by this syscall)" true
                       (Some ("billing period elapsed; request to the caller to issue the governed SYS_DATA_RESET; first requested at tick "
                              +:+ pretty now +:+ "; " +:+ described));
                 mret ()
               else mret ());
          mret code
      end
  end.

Definition IN_FORCE : string := "usage period in force".

Definition data_reset (env : Env) (account mode_arg : N) : M N :=
  match reset_mode_from_arg mode_arg with
  | None => mret RESET_BAD_MODE
  | Some mode =>
  let early := is_early mode in
  let label := if early then "SYS_DATA_RESET(early)" else "SYS_DATA_RESET" in
  let resource :=
    if early then data_reset_early_resource account else data_reset_resource account in
  match env_check env resource with
  | Err e =>
      _ ← audit_capability_denial CapDenialData (label +:+ " account " +:+ pretty account)
            resource (cap_error_display e);
      mret RESET_DENIED_CAPABILITY
  | Ok _ =>
  match demo_entitlement account with
  | None =>
      _ ← audit_event AuditChain.Rejected resource IN_FORCE IN_FORCE false
            (Some "refused: no data entitlement for this account");
      mret RESET_NO_ENTITLEMENT
  | Some _ =>
  st ← gets (λ k, standing (k_registry k) account);
  match st with
  | None =>
      _ ← audit_event AuditChain.Rejected resource IN_FORCE IN_FORCE false
            (Some "refused: no such account in the registry");
      mret RESET_NO_SUCH_ACCOUNT
  | Some _ =>
  let gate_now := env_gate_now env in
  let freq := env_freq env in
  assessment ← gets (λ k, assess_period_of (k_data k) account gate_now);
  let mode_text := describe_reset_mode mode assessment in
  last ← gets (λ k, last_reset_tick (k_data k) account);
  match reset_permitted_at assessment early last gate_now
          (demo_early_reset_cooldown_ticks freq) with
  | Err refusal =>
      _ ← audit_event AuditChain.Rejected resource IN_FORCE IN_FORCE false
            (Some ("refused: " +:+ reset_refusal_display refusal +:+ "; " +:+ mode_text));
      mret (reset_refusal_code refusal)
  | Ok _ =>
  allowed ← marshal_gate env (DataResetUsage account) resource IN_FORCE
              (if early then "new usage period (counter reset; EARLY override)"
               else "new usage period (counter reset)");
  match allowed with
  | Err blocked => mret (reset_blocked_code blocked)
  | Ok allowed =>
      let verdict := verdict_text allowed in
      let now := env_now env in
      done ← on_data (λ d, reset_usage_and_period d account now
                             (Some (demo_install_period_ticks freq)));
      let '(before, after, started, _) := done in
      let period_text := describe_period_started started in
      _ ← audit_event AuditChain.Applied resource ("used " +:+ pretty (used_bytes before))
            ("used " +:+ pretty (used_bytes after)) true
            (Some (reason_with_verdict
               (Some ("usage period reset (new period); reconciler memory cleared; no session, standing or profile changed; "
                      +:+ mode_text +:+ "; " +:+ period_text)) verdict));
      mret RESET_OK
  end end end end end end.

(** ** Dispatch

    The three completion arms resume a suspended kernel continuation; outside
    such an excursion they return the unknown-syscall value, which is the case
    modelled here. *)
Definition dispatch (env : Env) (num arg1 arg2 arg3 : N) : M N :=
  if decide (num = SYS_WRITE) then mret 0%N
  else if decide (num = SYS_RIL_ACCESS) then ril_access env arg1
  else if decide (num = SYS_RIL_SEND) then ril_send env arg1 arg2
  else if decide (num = SYS_RIL_RECV) then ril_recv env arg1
  else if decide (num = SYS_SIM_CREATE) then sim_create env arg1
  else if decide (num = SYS_SIM_INSTALL) then sim_install env arg1 arg2 arg3
  else if decide (num = SYS_SIM_ENABLE) then sim_enable env arg1 arg2
  else if decide (num = SYS_SIM_DISABLE) then sim_disable env arg1 arg2
  else if decide (num = SYS_SIM_DELETE) then sim_delete env arg1 arg2
  else if decide (num = SYS_SIM_STATUS) then sim_status env arg1 arg2
  else if decide (num = SYS_IPC_SEND) then ipc_send env arg1 arg2
  else if decide (num = SYS_IPC_RECV) then ipc_recv env arg1
  else if decide (num = SYS_MVNO_BIND) then mvno_bind_call env arg1 arg2 arg3
  else if decide (num = SYS_MVNO_SUSPEND) then mvno_suspend_call env arg1
  else if decide (num = SYS_MVNO_REACTIVATE) then mvno_reactivate_call env arg1
  else if decide (num = SYS_DATA_ACCOUNT) then data_account env arg1 arg2
  else if decide (num = SYS_DATA_SESSION_OPEN) then data_session_open env arg1 arg2 arg3
  else if decide (num = SYS_DATA_SESSION_CLOSE) then data_session_close env arg1 arg2 arg3
  else if decide (num = SYS_DATA_RECONCILE) then data_reconcile env
  else if decide (num = SYS_DATA_RESET) then data_reset env arg1 arg2
  else if decide (num = SYS_DATA_PERIOD) then data_period env arg1
  else mret u64_max.
End svc.
