(* ===== verification/SvcLogic.v ===== *)
(** * Reasoning about handlers

    A handler threads the audit chain through every branch but never branches on
    it.  [wp m Q c] says: run [m] on the state [c] with any audit chain whose
    books balance; then the books balance afterwards and [Q] holds of the result
    and of the rest of the state.  The rules below are the only things the
    handler proofs use. *)

From S2P Require Import Prelude Text Account Sim Policy Period Reconcile DataState Worm AuditChain.
From S2P Require Import Marshal Capability DataCodes Channel Mvno Svc.

(** The kernel state without the audit chain. *)
Record Core := mkCore {
  c_registry : AccountRegistry;
  c_slots : Slots;
  c_data : DataState;
  c_ril : Channels;
  c_ipc : Channels;
  c_memory : ReconcileMemory;
}.

Definition core (k : Kernel) : Core :=
  mkCore (k_registry k) (k_slots k) (k_data k) (k_ril k) (k_ipc k) (k_memory k).

Definition attach (c : Core) (w : option BoundedAudit) : Kernel :=
  mkKernel (c_registry c) (c_slots c) (c_data c) (c_ril c) (c_ipc c) w (c_memory c).

Lemma attach_core k : attach (core k) (k_worm k) = k.
Proof. by destruct k. Qed.

Lemma core_attach c w : core (attach c w) = c.
Proof. by destruct c. Qed.

Definition with_registry (c : Core) (r : AccountRegistry) : Core :=
  mkCore r (c_slots c) (c_data c) (c_ril c) (c_ipc c) (c_memory c).
Definition with_slots (c : Core) (s : Slots) : Core :=
  mkCore (c_registry c) s (c_data c) (c_ril c) (c_ipc c) (c_memory c).
Definition with_data (c : Core) (d : DataState) : Core :=
  mkCore (c_registry c) (c_slots c) d (c_ril c) (c_ipc c) (c_memory c).
Definition with_ril (c : Core) (ch : Channels) : Core :=
  mkCore (c_registry c) (c_slots c) (c_data c) ch (c_ipc c) (c_memory c).
Definition with_ipc (c : Core) (ch : Channels) : Core :=
  mkCore (c_registry c) (c_slots c) (c_data c) (c_ril c) ch (c_memory c).
Definition with_memory (c : Core) (m : ReconcileMemory) : Core :=
  mkCore (c_registry c) (c_slots c) (c_data c) (c_ril c) (c_ipc c) m.

Section logic.
Context `{Sha256}.

Definition audit_ok (w : option BoundedAudit) : Prop :=
  match w with Some a => books a ∧ summaries_in_chain a | None => True end.

(** The entries of a chain not yet allocated are none. *)
Definition entries (w : option BoundedAudit) : list WormEntry :=
  match w with Some a => log a | None => [] end.

(** [w'] continues [w]: its books balance and it only appended. *)
Definition continues (w w' : option BoundedAudit) : Prop :=
  audit_ok w' ∧ entries w `prefix_of` entries w'.

Lemma continues_refl w : audit_ok w → continues w w.
Proof. by split. Qed.

Lemma continues_trans w1 w2 w3 : continues w1 w2 → continues w2 w3 → continues w1 w3.
Proof. intros [_ H1] [Ho H2]. split; [done|]. by etrans. Qed.

Definition wp {A} (m : M A) (Q : A → Core → Prop) (c : Core) : Prop :=
  ∀ w, audit_ok w →
    continues w (k_worm ((m (attach c w)).2)) ∧
    Q ((m (attach c w)).1) (core ((m (attach c w)).2)).

Lemma wp_ret {A} (a : A) Q c : Q a c → wp (mret a) Q c.
Proof.
  intros HQ w Hw. unfold mret, M_ret. cbn [fst snd]. split; [by apply continues_refl|].
  by rewrite core_attach.
Qed.

Lemma wp_bind {A B} (m : M A) (f : A → M B) Q c :
  wp m (λ a c', wp (f a) Q c') c → wp (m ≫= f) Q c.
Proof.
  intros Hm w Hw. destruct (Hm w Hw) as [Hw' Hf]. unfold mbind, M_bind.
  destruct (m (attach c w)) as [a k']. cbn [fst snd] in *.
  destruct (Hf (k_worm k') (proj1 Hw')) as [Hw2 HQ]. rewrite attach_core in Hw2, HQ.
  split; [by eapply continues_trans|done].
Qed.

Lemma wp_mono {A} (m : M A) (Q Q' : A → Core → Prop) c :
  wp m Q c → (∀ a c', Q a c' → Q' a c') → wp m Q' c.
Proof. intros Hm HQ w Hw. destruct (Hm w Hw). auto. Qed.

Lemma wp_gets {A} (f : Kernel → A) Q c : (∀ w, Q (f (attach c w)) c) → wp (gets f) Q c.
Proof.
  intros HQ w Hw. split; [by apply continues_refl|]. cbn [gets fst snd]. rewrite core_attach. apply HQ.
Qed.

Lemma wp_on_registry {A} (f : AccountRegistry → Slots → A * AccountRegistry) Q c :
  (let '(a, r) := f (c_registry c) (c_slots c) in Q a (with_registry c r)) →
  wp (on_registry f) Q c.
Proof. intros HQ w Hw. apply continues_refl in Hw. unfold on_registry. cbn [attach k_registry k_slots]. by destruct (f _ _). Qed.

Lemma wp_on_slots {A} (f : Slots → A * Slots) Q c :
  (let '(a, s) := f (c_slots c) in Q a (with_slots c s)) → wp (on_slots f) Q c.
Proof. intros HQ w Hw. apply continues_refl in Hw. unfold on_slots. cbn [attach k_slots]. by destruct (f _). Qed.

Lemma wp_on_data {A} (f : DataState → A * DataState) Q c :
  (let '(a, d) := f (c_data c) in Q a (with_data c d)) → wp (on_data f) Q c.
Proof. intros HQ w Hw. apply continues_refl in Hw. unfold on_data. cbn [attach k_data]. by destruct (f _). Qed.

Lemma wp_on_ril {A} (f : Channels → A * Channels) Q c :
  (let '(a, ch) := f (c_ril c) in Q a (with_ril c ch)) → wp (on_ril f) Q c.
Proof. intros HQ w Hw. apply continues_refl in Hw. unfold on_ril. cbn [attach k_ril]. by destruct (f _). Qed.

Lemma wp_on_ipc {A} (f : Channels → A * Channels) Q c :
  (let '(a, ch) := f (c_ipc c) in Q a (with_ipc c ch)) → wp (on_ipc f) Q c.
Proof. intros HQ w Hw. apply continues_refl in Hw. unfold on_ipc. cbn [attach k_ipc]. by destruct (f _). Qed.

Lemma wp_on_memory {A} (f : ReconcileMemory → ReconcileMemory * A) Q c :
  (let '(m, a) := f (c_memory c) in Q a (with_memory c m)) → wp (on_memory f) Q c.
Proof. intros HQ w Hw. apply continues_refl in Hw. unfold on_memory. cbn [attach k_memory]. by destruct (f _). Qed.

(** ** Auditing leaves the rest of the state alone *)

Definition own_subject (s : string) : Prop := starts_with s SUMMARY_SUBJECT_PREFIX = false.

Lemma audit_ok_default w : audit_ok w → books (default audit_new w) ∧ summaries_in_chain (default audit_new w).
Proof. destruct w; [done|]. intros _. apply books_new. Qed.

Lemma entries_default w : entries w = log (default audit_new w).
Proof. by destruct w. Qed.

Lemma wp_audit_event class subject from to authorized reason Q c :
  own_subject subject → (∀ out, Q out c) →
  wp (audit_event class subject from to authorized reason) Q c.
Proof.
  intros Hs HQ w Hw. pose proof (entries_default w) as He. apply audit_ok_default in Hw as [Hb Hsum].
  unfold audit_event, on_worm. cbn [attach k_worm].
  pose proof (run_audit_op_books _ (ARecord class subject from to authorized reason) Hb) as Hb'.
  pose proof (run_audit_op_summaries _ (ARecord class subject from to authorized reason) Hb Hs Hsum) as Hs'.
  pose proof (run_audit_ops_prefix (default audit_new w) [ARecord class subject from to authorized reason]) as Hpre.
  cbn [run_audit_op run_audit_ops foldl] in Hb', Hs', Hpre.
  destruct (AuditChain.record _ _ _ _ _ _ _) as [a' out]. cbn [fst snd k_worm core attach] in *.
  split; [split; [done|by rewrite He]|]. destruct c. apply HQ.
Qed.

Lemma wp_audit_coalesce class reason Q c :
  (∀ out, Q out c) → wp (audit_coalesce class reason) Q c.
Proof.
  intros HQ w Hw. pose proof (entries_default w) as He. apply audit_ok_default in Hw as [Hb Hsum].
  unfold audit_coalesce, on_worm. cbn [attach k_worm].
  pose proof (run_audit_op_books _ (ANote class reason) Hb) as Hb'.
  pose proof (run_audit_op_summaries _ (ANote class reason) Hb I Hsum) as Hs'.
  pose proof (run_audit_ops_prefix (default audit_new w) [ANote class reason]) as Hpre.
  cbn [run_audit_op run_audit_ops foldl] in Hb', Hs', Hpre.
  destruct (note_coalesced _ _ _) as [a' out]. cbn [fst snd k_worm core attach] in *.
  split; [split; [done|by rewrite He]|]. destruct c. apply HQ.
Qed.

(** A chain whose books balance verifies, so the summary always reports so. *)
Lemma wp_audit_chain_summary Q c : (∀ n, Q (n, true) c) → wp audit_chain_summary Q c.
Proof.
  intros HQ w Hw. unfold audit_chain_summary, gets. cbn [fst snd].
  split; [by apply continues_refl|]. rewrite core_attach. cbn [attach k_worm].
  destruct w as [a|]; [|apply HQ]. destruct Hw as [Hb Hs]. rewrite (books_verify a Hb Hs). apply HQ.
Qed.

(** ** The subjects the kernel audits *)

Lemma sim_own s p : own_subject (sim_profile_resource s p).
Proof. reflexivity. Qed.
Lemma sim_slot_own s : own_subject (sim_resource s).
Proof. reflexivity. Qed.
Lemma sim_delete_own s p : own_subject (sim_delete_resource s p).
Proof. reflexivity. Qed.
Lemma mvno_account_own a : own_subject (mvno_account_resource a).
Proof. reflexivity. Qed.
Lemma mvno_suspend_own a : own_subject (mvno_suspend_resource a).
Proof. reflexivity. Qed.
Lemma data_session_own a : own_subject (data_session_resource a).
Proof. reflexivity. Qed.
Lemma data_usage_own a : own_subject (data_usage_resource a).
Proof. reflexivity. Qed.
Lemma data_reset_own a : own_subject (data_reset_resource a).
Proof. reflexivity. Qed.
Lemma data_reset_early_own a : own_subject (data_reset_early_resource a).
Proof. reflexivity. Qed.
Lemma data_reconcile_own s : own_subject (data_reconcile_resource +:+ s).
Proof. reflexivity. Qed.
Lemma data_reconcile_own' : own_subject data_reconcile_resource.
Proof. reflexivity. Qed.
End logic.

Create HintDb subjects.
#[export] Hint Resolve sim_own sim_slot_own sim_delete_own mvno_account_own mvno_suspend_own
  data_session_own data_usage_own data_reset_own data_reset_early_own data_reconcile_own
  data_reconcile_own' : subjects.
