(* ===== verification/SvcSpec.v ===== *)
(** * What the syscalls promise

    The abstract specification of every handler of [Svc]: the effect on the
    accounts, profiles, sessions, usage, periods and mailboxes, and the code
    returned, with the audit left out.  The refinement lemmas show that the
    real dispatcher computes exactly this and keeps the audit chain's books. *)

From S2P Require Import Prelude Text Account Sim Policy Period Reconcile DataState Worm AuditChain.
From S2P Require Import Marshal Capability DataCodes Channel Mvno Svc SvcLogic.

Definition allows (env : Env) (resource : string) : bool :=
  match env_check env resource with Ok _ => true | Err _ => false end.

(** The governance verdict for an action lets it proceed. *)
Definition passes (env : Env) (action : MarshalAction) : bool :=
  match enforce (unreachable_policy action) (env_evaluate env action) with
  | Ok _ => true
  | Err _ => false
  end.

Definition unit_code {E A} (r : Result E A) : N := match r with Ok _ => 0 | Err _ => 1 end.

Definition spec_sim_create (env : Env) (slot : N) (c : Core) : N * Core :=
  if allows env (sim_resource slot) then
    let '(r, s) := Sim.create (c_slots c) slot in
    (match r with Ok id => id | Err _ => SIM_CREATE_FAILED end, with_slots c s)
  else (SIM_CREATE_FAILED, c).

Definition spec_sim_install (env : Env) (slot profile identity : N) (c : Core) : N * Core :=
  if allows env (sim_profile_resource slot profile) then
    let '(r, s) := Sim.install (c_slots c) slot profile identity in (unit_code r, with_slots c s)
  else (1%N, c).

Definition spec_sim_enable (env : Env) (slot profile : N) (c : Core) : N * Core :=
  if allows env (sim_profile_resource slot profile) then
    match gate_enable (c_registry c) slot profile with
    | Err _ => (1%N, c)
    | Ok _ =>
        if passes env (Esim "enable" slot profile) then
          let '(r, s) := Sim.enable (c_slots c) slot profile in (unit_code r, with_slots c s)
        else (1%N, c)
    end
  else (1%N, c).

Definition spec_sim_disable (env : Env) (slot profile : N) (c : Core) : N * Core :=
  if allows env (sim_profile_resource slot profile) then
    let '(r, s) := Sim.disable (c_slots c) slot profile in
    match r with
    | Ok _ =>
        (0%N, with_data (with_slots c s) ((close_sessions_for_profile (c_data c) slot profile).2))
    | Err _ => (1%N, with_slots c s)
    end
  else (1%N, c).

Definition spec_sim_delete (env : Env) (slot profile : N) (c : Core) : N * Core :=
  if allows env (sim_delete_resource slot profile) then
    if passes env (Esim "delete" slot profile) then
      let '(r, s) := Sim.delete (c_slots c) slot profile in
      match r with
      | Ok _ =>
          let reg := (mvno_unbind (c_registry c) s slot profile).2 in
          let d := (close_sessions_for_profile (c_data c) slot profile).2 in
          (0%N, with_data (with_registry (with_slots c s) reg) d)
      | Err _ => (1%N, with_slots c s)
      end
    else (1%N, c)
  else (1%N, c).

Definition spec_sim_status (env : Env) (slot profile : N) (c : Core) : N * Core :=
  (if allows env (sim_profile_resource slot profile) then
     match profile_state (c_slots c) slot profile with
     | Ok st => as_status_code st
     | Err _ => SIM_STATUS_DENIED
     end
   else SIM_STATUS_DENIED, c).

Definition spec_mvno_bind (env : Env) (account slot profile : N) (c : Core) : N * Core :=
  if allows env (mvno_account_resource account) && allows env (sim_profile_resource slot profile) then
    if passes env (MvnoBind account slot profile) then
      let '(r, reg) := mvno_bind (c_registry c) (c_slots c) account slot profile in
      (unit_code r, with_registry c reg)
    else (1%N, c)
  else (1%N, c).

(** The forced disables of a suspension, in order. *)
Fixpoint disable_all (keys : list ProfileKey) (ok : bool) (s : Slots) : bool * Slots :=
  match keys with
  | [] => (ok, s)
  | k :: keys =>
      let '(r, s) := Sim.disable s (key_slot k) (key_profile k) in
      disable_all keys (match r with Ok _ => ok | Err _ => false end) s
  end.

Definition spec_suspend_account (account : N) (c : Core) : N * Core :=
  let '(r, reg) := mvno_suspend (c_registry c) (c_slots c) account in
  match r with
  | Err _ => (1%N, with_registry c reg)
  | Ok forced =>
      let '(ok, s) := disable_all forced true (c_slots c) in
      let d := (close_sessions_for_account (c_data c) account).2 in
      (if ok && bool_decide (mvno_audit reg s = []) then 0%N else 1%N,
       with_data (with_slots (with_registry c reg) s) d)
  end.

Definition spec_mvno_suspend (env : Env) (account : N) (c : Core) : N * Core :=
  if allows env (mvno_suspend_resource account) then
    if passes env (MvnoSuspend account) then spec_suspend_account account c else (1%N, c)
  else (1%N, c).

Definition spec_mvno_reactivate (env : Env) (account : N) (c : Core) : N * Core :=
  if allows env (mvno_account_resource account) then
    if passes env (MvnoReactivate account) then
      let '(r, reg) := mvno_reactivate (c_registry c) account in (unit_code r, with_registry c reg)
    else (1%N, c)
  else (1%N, c).

Definition spec_data_account (env : Env) (account bytes : N) (c : Core) : N * Core :=
  if allows env (data_usage_resource account) then
    match demo_entitlement account, standing (c_registry c) account with
    | None, _ => (USAGE_NO_ENTITLEMENT, c)
    | _, None => (USAGE_NO_SUCH_ACCOUNT, c)
    | Some ent, Some status =>
        match usage_feed_refusal status (has_bound_profile (c_registry c) account) with
        | Some code => (code, c)
        | None =>
            let '(r, d) := feed_usage (c_data c) account bytes in
            (match r with
             | Ok (_, after) => action_request_code (escalation (evaluate_usage ent after))
             | Err _ => USAGE_TABLE_FULL
             end, with_data c d)
        end
    end
  else (USAGE_DENIED, c).

Definition spec_session_open (env : Env) (account slot packed : N) (c : Core) : N * Core :=
  if allows env (data_session_resource account) then
    match unpack_profile_roaming packed with
    | None => (SESSION_REFUSED_BAD_ARGUMENT, c)
    | Some (profile, roaming) =>
        match demo_entitlement account, standing (c_registry c) account with
        | None, _ => (SESSION_REFUSED_NO_ENTITLEMENT, c)
        | _, None => (SESSION_REFUSED_NO_SUCH_ACCOUNT, c)
        | Some ent, Some status =>
            if decide (mvno_owner_of (c_registry c) slot profile = Some account) then
              match profile_state (c_slots c) slot profile with
              | Err _ => (SESSION_REFUSED_UNKNOWN_PROFILE, c)
              | Ok st =>
                  let '(out, d) := decide_and_open (c_data c) account slot profile roaming
                                     (standing_for_data status) (lifecycle_for_data st) ent in
                  (match rec_decision (oo_record out), oo_recorded out with
                   | Allow, RecTableFull | AllowThrottled, RecTableFull => SESSION_FAILED_TABLE_FULL
                   | decision, _ => session_decision_code decision
                   end, with_data c d)
              end
            else (SESSION_REFUSED_PROFILE_NOT_BOUND, c)
        end
    end
  else (SESSION_REFUSED_CAPABILITY, c).

Definition spec_session_close (env : Env) (account slot arg : N) (c : Core) : N * Core :=
  if allows env (data_session_resource account) then
    match unpack_profile_roaming arg with
    | None | Some (_, true) => (CLOSE_BAD_ARGUMENT, c)
    | Some (profile, false) =>
        let '(was_open, d) := close_session (c_data c) account slot profile in
        (if (was_open : bool) then CLOSE_OK else CLOSE_NOT_OPEN, with_data c d)
    end
  else (CLOSE_DENIED, c).

(** The findings of a reconcile pass over the current state. *)
Definition findings (env : Env) (c : Core) : list Reconcile.Incident * list PeriodIncident :=
  (reconcile ((snapshot_for_reconcile (c_registry c) (c_slots c) (c_data c)).1),
   check_periods (period_snapshot (c_data c)) (env_now env)
     (millis_to_ticks (env_freq env) DEMO_GRACE_MILLIS)).

Definition finding_keys (fs : list Reconcile.Incident * list PeriodIncident) : list string :=
  (incident_text <$> fs.1) ++ (period_incident_text <$> fs.2).

Definition spec_data_reconcile (env : Env) (c : Core) : N * Core :=
  if allows env data_reconcile_resource then
    let fs := findings env c in
    (N.of_nat (length fs.1 + length fs.2),
     with_data (with_memory c ((observe (c_memory c) (finding_keys fs)).1))
       (mark_observed (c_data c) (usage (c_data c))))
  else (RECONCILE_DENIED, c).

Definition spec_data_period (env : Env) (account : N) (c : Core) : N * Core :=
  if allows env (data_session_resource account) then
    let '(advice, d) := advise_period (c_data c) account (env_now env) in
    (match advice with
     | None => PERIOD_NO_PERIOD
     | Some a => period_assessment_code (adv_assessment a)
     end, with_data c d)
  else (PERIOD_DENIED, c).

Definition reset_resource (mode : ResetMode) (account : N) : string :=
  if is_early mode then data_reset_early_resource account else data_reset_resource account.

Definition spec_data_reset (env : Env) (account mode_arg : N) (c : Core) : N * Core :=
  match reset_mode_from_arg mode_arg with
  | None => (RESET_BAD_MODE, c)
  | Some mode =>
      if allows env (reset_resource mode account) then
        match demo_entitlement account, standing (c_registry c) account with
        | None, _ => (RESET_NO_ENTITLEMENT, c)
        | _, None => (RESET_NO_SUCH_ACCOUNT, c)
        | Some _, Some _ =>
            match reset_permitted_at (assess_period_of (c_data c) account (env_gate_now env))
                    (is_early mode) (last_reset_tick (c_data c) account) (env_gate_now env)
                    (demo_early_reset_cooldown_ticks (env_freq env)) with
            | Err refusal => (reset_refusal_code refusal, c)
            | Ok _ =>
                match enforce (unreachable_policy (DataResetUsage account))
                        (env_evaluate env (DataResetUsage account)) with
                | Err blocked => (reset_blocked_code blocked, c)
                | Ok _ =>
                    (RESET_OK,
                     with_data c ((reset_usage_and_period (c_data c) account (env_now env)
                                     (Some (demo_install_period_ticks (env_freq env)))).2))
                end
            end
        end
      else (RESET_DENIED_CAPABILITY, c)
  end.

Definition spec_ril_send (env : Env) (channel byte : N) (c : Core) : N * Core :=
  if allows env (ril_resource channel) then
    let '(r, cs) := send (c_ril c) channel (as_u8 byte) in (unit_code r, with_ril c cs)
  else (1%N, c).

Definition spec_ril_recv (env : Env) (channel : N) (c : Core) : N * Core :=
  if allows env (ril_resource channel) then
    let '(r, cs) := recv (c_ril c) channel in (default RIL_RECV_EMPTY r, with_ril c cs)
  else (RIL_RECV_DENIED, c).

Definition spec_ipc_send (env : Env) (channel byte : N) (c : Core) : N * Core :=
  if allows env (ipc_resource channel) then
    let '(r, cs) := send (c_ipc c) channel (as_u8 byte) in (unit_code r, with_ipc c cs)
  else (1%N, c).

Definition spec_ipc_recv (env : Env) (channel : N) (c : Core) : N * Core :=
  if allows env (ipc_resource channel) then
    let '(r, cs) := recv (c_ipc c) channel in (default IPC_RECV_EMPTY r, with_ipc c cs)
  else (IPC_RECV_DENIED, c).

(** The syscalls, decoded.  [CallOther] is every number without an effect. *)
Inductive Call :=
  | CallRilAccess (channel : N) | CallRilSend (channel byte : N) | CallRilRecv (channel : N)
  | CallSimCreate (slot : N) | CallSimInstall (slot profile identity : N)
  | CallSimEnable (slot profile : N) | CallSimDisable (slot profile : N)
  | CallSimDelete (slot profile : N) | CallSimStatus (slot profile : N)
  | CallIpcSend (channel byte : N) | CallIpcRecv (channel : N)
  | CallMvnoBind (account slot profile : N) | CallMvnoSuspend (account : N)
  | CallMvnoReactivate (account : N)
  | CallDataAccount (account bytes : N) | CallSessionOpen (account slot packed : N)
  | CallSessionClose (account slot arg : N) | CallDataReconcile
  | CallDataReset (account mode : N) | CallDataPeriod (account : N)
  | CallOther (code : N).

Definition decode (num arg1 arg2 arg3 : N) : Call :=
  if decide (num = SYS_WRITE) then CallOther 0
  else if decide (num = SYS_RIL_ACCESS) then CallRilAccess arg1
  else if decide (num = SYS_RIL_SEND) then CallRilSend arg1 arg2
  else if decide (num = SYS_RIL_RECV) then CallRilRecv arg1
  else if decide (num = SYS_SIM_CREATE) then CallSimCreate arg1
  else if decide (num = SYS_SIM_INSTALL) then CallSimInstall arg1 (as_u8 arg2) arg3
  else if decide (num = SYS_SIM_ENABLE) then CallSimEnable arg1 (as_u8 arg2)
  else if decide (num = SYS_SIM_DISABLE) then CallSimDisable arg1 (as_u8 arg2)
  else if decide (num = SYS_SIM_DELETE) then CallSimDelete arg1 (as_u8 arg2)
  else if decide (num = SYS_SIM_STATUS) then CallSimStatus arg1 (as_u8 arg2)
  else if decide (num = SYS_IPC_SEND) then CallIpcSend arg1 arg2
  else if decide (num = SYS_IPC_RECV) then CallIpcRecv arg1
  else if decide (num = SYS_MVNO_BIND) then CallMvnoBind arg1 arg2 (as_u8 arg3)
  else if decide (num = SYS_MVNO_SUSPEND) then CallMvnoSuspend arg1
  else if decide (num = SYS_MVNO_REACTIVATE) then CallMvnoReactivate arg1
  else if decide (num = SYS_DATA_ACCOUNT) then CallDataAccount arg1 arg2
  else if decide (num = SYS_DATA_SESSION_OPEN) then CallSessionOpen arg1 arg2 arg3
  else if decide (num = SYS_DATA_SESSION_CLOSE) then CallSessionClose arg1 arg2 arg3
  else if decide (num = SYS_DATA_RECONCILE) then CallDataReconcile
  else if decide (num = SYS_DATA_RESET) then CallDataReset arg1 arg2
  else if decide (num = SYS_DATA_PERIOD) then CallDataPeriod arg1
  else CallOther u64_max.

Definition spec (env : Env) (call : Call) (c : Core) : N * Core :=
  match call with
  | CallRilAccess ch => (if allows env (ril_resource ch) then 0%N else 1%N, c)
  | CallRilSend ch b => spec_ril_send env ch b c
  | CallRilRecv ch => spec_ril_recv env ch c
  | CallSimCreate s => spec_sim_create env s c
  | CallSimInstall s p i => spec_sim_install env s p i c
  | CallSimEnable s p => spec_sim_enable env s p c
  | CallSimDisable s p => spec_sim_disable env s p c
  | CallSimDelete s p => spec_sim_delete env s p c
  | CallSimStatus s p => spec_sim_status env s p c
  | CallIpcSend ch b => spec_ipc_send env ch b c
  | CallIpcRecv ch => spec_ipc_recv env ch c
  | CallMvnoBind a s p => spec_mvno_bind env a s p c
  | CallMvnoSuspend a => spec_mvno_suspend env a c
  | CallMvnoReactivate a => spec_mvno_reactivate env a c
  | CallDataAccount a b => spec_data_account env a b c
  | CallSessionOpen a s x => spec_session_open env a s x c
  | CallSessionClose a s x => spec_session_close env a s x c
  | CallDataReconcile => spec_data_reconcile env c
  | CallDataReset a m => spec_data_reset env a m c
  | CallDataPeriod a => spec_data_period env a c
  | CallOther code => (code, c)
  end.

(** ** The handlers refine the specification *)

Section refinement.
Context `{Sha256}.

Lemma wp_audit_closed_sessions rows what Q c :
  Q () c → wp (audit_closed_sessions rows what) Q c.
Proof.
  intros HQ. induction rows as [|r rows IH]; cbn [audit_closed_sessions]; [by apply wp_ret|].
  apply wp_bind, wp_audit_event; [auto with subjects|]. by intros _.
Qed.

Lemma wp_audit_transition slot p from to r v Q c :
  Q () c → wp (audit_transition slot p from to r v) Q c.
Proof.
  intros HQ. unfold audit_transition. destruct r;
    (apply wp_bind, wp_audit_event; [auto with subjects|]; intros _; by apply wp_ret).
Qed.

Lemma wp_audit_capability_denial class label resource denial Q c :
  own_subject resource → Q () c → wp (audit_capability_denial class label resource denial) Q c.
Proof.
  intros Hs HQ. unfold audit_capability_denial. apply wp_bind, wp_audit_event; [done|].
  intros _. by apply wp_ret.
Qed.

Lemma wp_audit_data_session account authorized to reason Q c :
  Q () c → wp (audit_data_session account authorized to reason) Q c.
Proof.
  intros HQ. unfold audit_data_session. apply wp_bind, wp_audit_event; [auto with subjects|].
  intros _. by apply wp_ret.
Qed.

Lemma wp_enforce_gate policy outcome subject from to Q c :
  own_subject subject →
  Q (match enforce policy outcome with Ok _ => Ok outcome | Err b => Err b end) c →
  wp (enforce_gate policy outcome subject from to) Q c.
Proof.
  intros Hs HQ. unfold enforce_gate. destruct (enforce policy outcome) as [u|b]; [by apply wp_ret|].
  apply wp_bind, wp_audit_event; [done|]. intros _. by apply wp_ret.
Qed.

Lemma wp_marshal_gate env action subject from to Q c :
  own_subject subject →
  Q (match enforce (unreachable_policy action) (env_evaluate env action) with
     | Ok _ => Ok (env_evaluate env action) | Err b => Err b end) c →
  wp (marshal_gate env action subject from to) Q c.
Proof. apply wp_enforce_gate. Qed.

Lemma wp_audit_incidents fresh i l Q c : Q () c → wp (audit_incidents fresh i l) Q c.
Proof.
  intros HQ. revert i. induction l as [|x l IH]; intros i; cbn [audit_incidents]; [by apply wp_ret|].
  apply wp_bind. case_decide; [|apply wp_ret, IH].
  apply wp_bind, wp_audit_event; [auto with subjects|]. intros _. apply wp_ret, IH.
Qed.

Lemma wp_audit_period_incidents fresh i l Q c :
  Q () c → wp (audit_period_incidents fresh i l) Q c.
Proof.
  intros HQ. revert i. induction l as [|x l IH]; intros i; cbn [audit_period_incidents];
    [by apply wp_ret|].
  apply wp_bind. case_decide; [|apply wp_ret, IH].
  apply wp_bind, wp_audit_event; [auto with subjects|]. intros _. apply wp_ret, IH.
Qed.

Lemma wp_audit_clean_pass cp Q c : Q () c → wp (audit_clean_pass cp) Q c.
Proof.
  intros HQ. unfold audit_clean_pass. destruct cp as [[n|n]|]; [| |by apply wp_ret].
  - apply wp_bind, wp_audit_event; [auto with subjects|]. intros _. by apply wp_ret.
  - apply wp_bind, wp_audit_coalesce. intros _. by apply wp_ret.
Qed.

Lemma wp_force_disables keys ok Q c :
  (let '(ok', s) := disable_all keys ok (c_slots c) in Q ok' (with_slots c s)) →
  wp (force_disables keys ok) Q c.
Proof.
  revert ok c. induction keys as [|k keys IH]; intros ok c HQ; cbn [force_disables disable_all] in *.
  - apply wp_ret. by destruct c.
  - apply wp_bind, wp_on_slots.
    destruct (Sim.disable (c_slots c) (key_slot k) (key_profile k)) as [r s].
    destruct r; (apply wp_bind, wp_audit_event; [auto with subjects|]; intros _; by apply IH).
Qed.
End refinement.

(** One rule of the logic at the head of a handler. *)
Ltac wp_step :=
  lazymatch goal with
  | |- wp (mret _) _ _ => apply wp_ret
  | |- wp (_ ≫= _) _ _ => apply wp_bind
  | |- wp (gets _) _ _ => apply wp_gets; intros ?
  | |- wp (on_registry _) _ _ => apply wp_on_registry
  | |- wp (on_slots _) _ _ => apply wp_on_slots
  | |- wp (on_data _) _ _ => apply wp_on_data
  | |- wp (on_ril _) _ _ => apply wp_on_ril
  | |- wp (on_ipc _) _ _ => apply wp_on_ipc
  | |- wp (on_memory _) _ _ => apply wp_on_memory
  | |- wp (audit_event _ _ _ _ _ _) _ _ =>
      apply wp_audit_event; [auto with subjects | intros ?]
  | |- wp (audit_chain_summary) _ _ => apply wp_audit_chain_summary; intros ?
  | |- wp (audit_closed_sessions _ _) _ _ => apply wp_audit_closed_sessions
  | |- wp (audit_transition _ _ _ _ _ _) _ _ => apply wp_audit_transition
  | |- wp (audit_capability_denial _ _ _ _) _ _ =>
      apply wp_audit_capability_denial; [auto with subjects |]
  | |- wp (audit_data_session _ _ _ _) _ _ => apply wp_audit_data_session
  | |- wp (enforce_gate _ _ _ _ _) _ _ => apply wp_enforce_gate; [auto with subjects |]
  | |- wp (marshal_gate _ _ _ _ _) _ _ => apply wp_marshal_gate; [auto with subjects |]
  | |- wp (audit_incidents _ _ _) _ _ => apply wp_audit_incidents
  | |- wp (audit_period_incidents _ _ _) _ _ => apply wp_audit_period_incidents
  | |- wp (audit_clean_pass _) _ _ => apply wp_audit_clean_pass
  | |- wp (force_disables _ _) _ _ => apply wp_force_disables
  end; cbn [attach k_registry k_slots k_data k_ril k_ipc k_memory].

Section handlers.
Context `{Sha256}.

Definition refines (m : M N) (f : Core → N * Core) : Prop :=
  ∀ c, wp m (λ r c', (r, c') = f c) c.

Lemma sim_create_refines env slot : refines (sim_create env slot) (spec_sim_create env slot).
Proof.
  intros c. unfold sim_create, spec_sim_create, allows. destruct (env_check _ _); repeat wp_step; [|done].
  destruct (Sim.create _ _) as [[|] s]; by wp_step.
Qed.

Lemma sim_install_refines env slot p i :
  refines (sim_install env slot p i) (spec_sim_install env slot (as_u8 p) i).
Proof.
  intros c. unfold sim_install, spec_sim_install, allows. destruct (env_check _ _); repeat wp_step; [|done].
  destruct (Sim.install _ _ _ _) as [[|] s]; repeat wp_step; done.
Qed.

Lemma sim_enable_refines env slot p :
  refines (sim_enable env slot p) (spec_sim_enable env slot (as_u8 p)).
Proof.
  intros c. unfold sim_enable, spec_sim_enable, allows, passes. destruct (env_check _ _); repeat wp_step; [|done].
  destruct (gate_enable _ _ _); repeat wp_step; [|done].
  destruct (enforce _ _); repeat wp_step; [|done].
  destruct (Sim.enable _ _ _) as [[|] s]; repeat wp_step; done.
Qed.

Lemma sim_disable_refines env slot p :
  refines (sim_disable env slot p) (spec_sim_disable env slot (as_u8 p)).
Proof.
  intros c. unfold sim_disable, spec_sim_disable, allows. destruct (env_check _ _); repeat wp_step; [|done].
  destruct (Sim.disable _ _ _) as [[|] s]; repeat wp_step; [|done].
  change (c_data (with_slots c s)) with (c_data c).
  destruct (close_sessions_for_profile _ _ _); repeat wp_step; done.
Qed.

Lemma sim_delete_refines env slot p :
  refines (sim_delete env slot p) (spec_sim_delete env slot (as_u8 p)).
Proof.
  intros c. unfold sim_delete, spec_sim_delete, allows, passes. destruct (env_check _ _); repeat wp_step; [|done].
  destruct (enforce _ _); repeat wp_step; [|done].
  destruct (Sim.delete _ _ _) as [[|] s]; repeat wp_step; [|done].
  unfold release_binding_after_delete. repeat wp_step. unfold with_slots at 1 2. cbn [c_registry c_slots].
  destruct (mvno_unbind _ _ _ _) as [[[owner|]|e] reg]; repeat wp_step;
    (change (c_data (with_registry (with_slots c s) reg)) with (c_data c);
     destruct (close_sessions_for_profile _ _ _); repeat wp_step; done).
Qed.

Lemma sim_status_refines env slot p :
  refines (sim_status env slot p) (spec_sim_status env slot (as_u8 p)).
Proof.
  intros c. unfold sim_status, spec_sim_status, allows. destruct (env_check _ _); repeat wp_step; [|done].
  destruct (profile_state _ _ _); by wp_step.
Qed.

Lemma mvno_bind_refines env a slot p :
  refines (mvno_bind_call env a slot p) (spec_mvno_bind env a slot (as_u8 p)).
Proof.
  intros c. unfold mvno_bind_call, spec_mvno_bind, allows, passes, bind_authority.
  destruct (env_check env (mvno_account_resource a)), (env_check env (sim_profile_resource slot (as_u8 p)));
    cbn [andb]; repeat wp_step; try done.
  destruct (enforce _ _); repeat wp_step; [|done].
  destruct (mvno_bind _ _ _ _ _) as [[|] reg]; cbn [audit_outcome]; repeat wp_step; done.
Qed.

Lemma suspend_account_refines a v : refines (suspend_account a v) (spec_suspend_account a).
Proof.
  intros c. unfold suspend_account, spec_suspend_account. repeat wp_step.
  destruct (mvno_suspend _ _ _) as [[forced|e] reg]; cbn [audit_outcome]; repeat wp_step; [|done].
  change (c_slots (with_registry c reg)) with (c_slots c).
  destruct (disable_all _ _ _) as [ok s]. repeat wp_step.
  change (c_data (with_slots (with_registry c reg) s)) with (c_data c).
  destruct (close_sessions_for_account _ _) as [closed d]. repeat wp_step.
  cbn [with_data with_slots with_registry c_registry c_slots snd]. f_equal.
  case_decide as Hl; [rewrite bool_decide_true by done|rewrite bool_decide_false by done];
    by destruct ok.
Qed.

Lemma mvno_suspend_refines env a : refines (mvno_suspend_call env a) (spec_mvno_suspend env a).
Proof.
  intros c. unfold mvno_suspend_call, spec_mvno_suspend, allows, passes.
  destruct (env_check _ _); repeat wp_step; [|done].
  destruct (enforce _ _); [apply suspend_account_refines|by wp_step].
Qed.

Lemma mvno_reactivate_refines env a :
  refines (mvno_reactivate_call env a) (spec_mvno_reactivate env a).
Proof.
  intros c. unfold mvno_reactivate_call, spec_mvno_reactivate, allows, passes.
  destruct (env_check _ _); repeat wp_step; [|done].
  destruct (enforce _ _); repeat wp_step; [|done].
  destruct (mvno_reactivate _ _) as [[|] reg]; cbn [audit_outcome]; repeat wp_step; done.
Qed.

Lemma data_account_refines env a b : refines (data_account env a b) (spec_data_account env a b).
Proof.
  intros c. unfold data_account, spec_data_account, allows.
  destruct (env_check _ _); repeat wp_step; [|done].
  destruct (demo_entitlement a) as [ent|]; repeat wp_step; [|done].
  destruct (standing _ _) as [st|]; repeat wp_step; [|done].
  destruct (usage_feed_refusal _ _); repeat wp_step; [done|].
  destruct (feed_usage _ _ _) as [[[before after]|] d]; repeat wp_step; [|done].
  destruct (escalation _); repeat wp_step; done.
Qed.

Lemma session_open_refines env a slot x :
  refines (data_session_open env a slot x) (spec_session_open env a slot x).
Proof.
  intros c. unfold data_session_open, spec_session_open, allows.
  destruct (env_check _ _); repeat wp_step; [|done].
  destruct (unpack_profile_roaming x) as [[p r]|]; repeat wp_step; [|done].
  destruct (demo_entitlement a) as [ent|]; repeat wp_step; [|done].
  destruct (standing _ _) as [st|]; repeat wp_step; [|done].
  destruct (decide (mvno_owner_of (c_registry c) slot p = Some a)) as [Ho|Ho].
  - rewrite decide_False by (intros Hn; by apply Hn). repeat wp_step.
    destruct (profile_state _ _ _) as [state|]; repeat wp_step; [|done].
    destruct (decide_and_open _ _ _ _ _ _ _ _) as [out d].
    destruct (rec_decision (oo_record out)), (oo_recorded out); repeat wp_step; done.
  - rewrite decide_True by done. repeat wp_step. done.
Qed.

Lemma session_close_refines env a slot x :
  refines (data_session_close env a slot x) (spec_session_close env a slot x).
Proof.
  intros c. unfold data_session_close, spec_session_close, allows.
  destruct (env_check _ _); repeat wp_step; [|done].
  destruct (unpack_profile_roaming x) as [[p []]|]; repeat wp_step; [done| |done].
  destruct (close_session _ _ _ _) as [[] d]; repeat wp_step; done.
Qed.

Lemma snapshot_rows reg slots d : (snapshot_for_reconcile reg slots d).2 = usage d.
Proof. reflexivity. Qed.

Lemma data_reconcile_refines env : refines (data_reconcile env) (spec_data_reconcile env).
Proof.
  intros c. unfold data_reconcile, spec_data_reconcile, allows.
  destruct (env_check _ _); repeat wp_step; [|done].
  unfold findings. pose proof (snapshot_rows (c_registry c) (c_slots c) (c_data c)) as Hrows.
  destruct (snapshot_for_reconcile _ _ _) as [obs rows]. cbn [fst snd] in *. subst rows.
  repeat wp_step. unfold finding_keys. cbn [fst snd].
  destruct (observe _ _) as [m plan]. repeat wp_step. done.
Qed.

Lemma data_period_refines env a : refines (data_period env a) (spec_data_period env a).
Proof.
  intros c. unfold data_period, spec_data_period, allows.
  destruct (env_check _ _); repeat wp_step; [|done].
  destruct (advise_period _ _ _) as [[adv|] d]; repeat wp_step; [|done].
  destruct (adv_first_request adv); repeat wp_step; done.
Qed.

Lemma data_reset_refines env a m : refines (data_reset env a m) (spec_data_reset env a m).
Proof.
  intros c. unfold data_reset, spec_data_reset, allows.
  destruct (reset_mode_from_arg m) as [mode|]; [|by wp_step]. fold (reset_resource mode a).
  assert (own_subject (reset_resource mode a)) by (unfold reset_resource; case_match; auto with subjects).
  destruct (env_check _ _); repeat wp_step; [|done].
  destruct (demo_entitlement a) as [ent|]; repeat wp_step; [|done].
  destruct (standing _ _) as [st|]; repeat wp_step; [|done].
  destruct (reset_permitted_at _ _ _ _ _); repeat wp_step; [|done].
  destruct (enforce _ _); repeat wp_step; [|done].
  destruct (reset_usage_and_period _ _ _ _) as [[[[before after] started] recorded] d].
  repeat wp_step. done.
Qed.

Lemma mail_refines env ch b :
  refines (ril_send env ch b) (spec_ril_send env ch b) ∧
  refines (ril_recv env ch) (spec_ril_recv env ch) ∧
  refines (ipc_send env ch b) (spec_ipc_send env ch b) ∧
  refines (ipc_recv env ch) (spec_ipc_recv env ch).
Proof.
  split_and!; intros c;
    unfold ril_send, spec_ril_send, ril_recv, spec_ril_recv, ipc_send, spec_ipc_send, ipc_recv,
      spec_ipc_recv, allows; destruct (env_check _ _); repeat wp_step; try done.
  - destruct (send _ _ _) as [[|] cs]; by wp_step.
  - destruct (recv _ _) as [[|] cs]; by wp_step.
  - destruct (send _ _ _) as [[|] cs]; by wp_step.
  - destruct (recv _ _) as [[|] cs]; by wp_step.
Qed.

Lemma ret_refines r : refines (mret r) (λ c, (r, c)).
Proof. intros c. by apply wp_ret. Qed.

Lemma dispatch_wp env num a1 a2 a3 :
  refines (dispatch env num a1 a2 a3) (spec env (decode num a1 a2 a3)).
Proof.
  intros c. unfold dispatch, decode. repeat case_decide; unfold spec;
    first [ apply ret_refines | apply sim_create_refines | apply sim_install_refines
          | apply sim_enable_refines | apply sim_disable_refines | apply sim_delete_refines
          | apply sim_status_refines | apply mvno_bind_refines | apply mvno_suspend_refines
          | apply mvno_reactivate_refines | apply data_account_refines
          | apply session_open_refines | apply session_close_refines
          | apply data_reconcile_refines | apply data_reset_refines | apply data_period_refines
          | apply (mail_refines env a1 a2)
          | unfold ril_access, allows; destruct (env_check _ _); by wp_step ].
Qed.

Lemma dispatch_refines_aux env num a1 a2 a3 k :
  audit_ok (k_worm k) →
  let '(r, k') := dispatch env num a1 a2 a3 k in
  (r, core k') = spec env (decode num a1 a2 a3) (core k) ∧ continues (k_worm k) (k_worm k').
Proof.
  intros Hok. pose proof (dispatch_wp env num a1 a2 a3 (core k) (k_worm k) Hok) as [Hw Hq].
  rewrite attach_core in Hw, Hq. by destruct (dispatch env num a1 a2 a3 k).
Qed.
End handlers.
