(* ===== verification/Coherence.v ===== *)
(** * The coupling invariant

    What ties the registry, the profiles and the data sessions together in every
    state the syscalls can reach ([coherent]), and its preservation by each
    syscall of the specification. *)

From S2P Require Import Prelude Text Account Sim Policy Period Reconcile DataState Worm AuditChain.
From S2P Require Import Marshal Capability DataCodes Channel Mvno Svc SvcLogic SvcSpec.

(** ** Profile states, by key *)

Definition state_of (slots : Slots) (k : ProfileKey) : option Sim.ProfileState :=
  prof_state <$> lookup_profile slots (key_slot k) (key_profile k).

Lemma profile_state_of slots s p :
  Sim.wf slots → res_ok (profile_state slots s p) = state_of slots (mkKey s p).
Proof. apply profile_state_lookup. Qed.

Lemma profile_state_Ok slots s p st :
  Sim.wf slots → profile_state slots s p = Ok st ↔ state_of slots (mkKey s p) = Some st.
Proof.
  intros Hwf. rewrite <-profile_state_of by done. destruct (profile_state slots s p); cbn; naive_solver.
Qed.

Lemma lifecycle_view_of slots k : Sim.wf slots → lifecycle_view slots k = adapt <$> state_of slots k.
Proof. intros Hwf. unfold lifecycle_view. rewrite profile_state_of by done. by destruct k. Qed.

Lemma adapt_enabled o : adapt <$> o = Some Account.Enabled ↔ o = Some Sim.Enabled.
Proof. destruct o as [[]|]; cbn; naive_solver. Qed.

Lemma adapt_deleted o : adapt <$> o = Some Account.Deleted ↔ o = Some Sim.Deleted.
Proof. destruct o as [[]|]; cbn; naive_solver. Qed.

#[global] Instance Op_eq_dec : EqDecision Op.
Proof. solve_decision. Defined.

(** What an operation on profile [key] of [slot] does to the state of profile [k]. *)
Definition op_state (op : Op) (key k : ProfileKey) (st : Sim.ProfileState) : Sim.ProfileState :=
  if decide (k = key) then target_state op
  else if decide (op = Sim.Enable ∧ key_slot k = key_slot key ∧ st = Sim.Enabled)
  then Sim.Disabled else st.

Lemma op_states slots s p op slots' k :
  Sim.wf slots → with_slot slots s (λ sl, transition sl p op) = (Ok (), slots') →
  state_of slots' k = op_state op (mkKey s p) k <$> state_of slots k.
Proof.
  intros Hwf Hop. unfold state_of. rewrite (op_lookup _ _ _ _ _ _ _ Hwf Hop), <-!option_fmap_compose.
  destruct k as [s' p']. cbn [key_slot key_profile].
  destruct (lookup_profile slots s' p') as [q|]; [|done]. cbn. f_equal. unfold op_state, effect.
  cbn [key_slot]. destruct (decide (s' = s)) as [->|Hs].
  - destruct (decide (p' = p)) as [->|Hp].
    + by rewrite !decide_True by done.
    + rewrite decide_False by lia. rewrite (decide_False (P := mkKey s p' = _)) by congruence.
      unfold demote. destruct op; try (rewrite decide_False by naive_solver; done).
      destruct (decide (prof_state q = Sim.Enabled)) as [He|He].
      * by rewrite decide_True by done.
      * by rewrite decide_False by naive_solver.
  - rewrite !decide_False by naive_solver. done.
Qed.

Lemma op_failed slots s p op e slots' :
  Sim.wf slots → with_slot slots s (λ sl, transition sl p op) = (Err e, slots') → slots' = slots.
Proof. intros Hwf Hop. eapply with_slot_Err; [|done..]. intros ??? _. apply transition_Err. Qed.

Lemma op_wf slots s p op r slots' :
  op ≠ Install → Sim.wf slots → with_slot slots s (λ sl, transition sl p op) = (r, slots') →
  Sim.wf slots'.
Proof.
  intros Hop Hwf Heq. pose proof (with_slot_wf slots s (λ sl, transition sl p op)) as Hw.
  rewrite Heq in Hw. apply Hw; [|done]. intros sl. by apply transition_wf.
Qed.

Lemma with_slot_length {A} slots s (op : SimSlot → Result SimError A * SimSlot) :
  length ((with_slot slots s op).2) = length slots.
Proof.
  unfold with_slot. destruct (slots !! N.to_nat s); [|done]. destruct (op _). apply length_insert.
Qed.

Lemma install_states slots s p i slots' k :
  Sim.wf slots → Sim.install slots s p i = (Ok (), slots') →
  state_of slots (mkKey s p) = Some Sim.Created ∧
  state_of slots' k = if decide (k = mkKey s p) then Some Sim.Disabled else state_of slots k.
Proof.
  intros Hwf (sl & sl' & Hs & Ht & ->)%with_slot_Ok.
  pose proof (wf_lookup _ _ _ Hwf Hs) as Hws.
  apply slot_install_Ok in Ht as [(q & Hq & Hst) Hall]; [|done].
  split; [unfold state_of, lookup_profile; cbn [key_slot key_profile]; rewrite Hs; cbn; rewrite Hq; cbn; by rewrite Hst|].
  unfold state_of, lookup_profile. destruct k as [s' p']. cbn [key_slot key_profile].
  destruct (decide (s' = s)) as [->|Hne].
  - rewrite list_lookup_insert_eq by (by eapply lookup_lt_Some). rewrite Hs. cbn [mbind option_bind].
    rewrite Hall. destruct (decide (p' = p)) as [->|Hp].
    + rewrite !decide_True by done. by rewrite Hq.
    + rewrite !decide_False by (congruence || lia). by rewrite option_fmap_id.
  - rewrite list_lookup_insert_ne by lia. by rewrite decide_False by congruence.
Qed.

Lemma install_failed slots s p i e slots' :
  Sim.wf slots → Sim.install slots s p i = (Err e, slots') → slots' = slots.
Proof. intros Hwf Hop. eapply with_slot_Err; [|done..]. intros ???. apply slot_install_Err. Qed.

Lemma create_states slots s r slots' k :
  Sim.create slots s = (r, slots') →
  (∀ st, state_of slots k = Some st → state_of slots' k = Some st) ∧
  (∀ st, state_of slots' k = Some st → state_of slots k = Some st ∨ st = Sim.Created).
Proof.
  unfold Sim.create, with_slot. destruct (slots !! N.to_nat s) as [sl|] eqn:Hs;
    [|intros [= <- <-]; naive_solver].
  unfold slot_create. case_decide; cbn.
  - intros [= <- <-]. rewrite list_insert_id by done. naive_solver.
  - intros [= <- <-]. unfold state_of, lookup_profile. destruct (decide (key_slot k = s)) as [->|Hne].
    + rewrite list_lookup_insert_eq by (by eapply lookup_lt_Some). rewrite Hs. cbn [mbind option_bind slot_profiles].
      split.
      * intros st (q & Hq & ->)%fmap_Some. rewrite lookup_app_l by (by eapply lookup_lt_Some). by rewrite Hq.
      * intros st (q & [Hq|[_ Hq]]%lookup_app_Some & ->)%fmap_Some; [left; by rewrite Hq|].
        apply list_lookup_singleton_Some in Hq as [_ <-]. by right.
    + rewrite list_lookup_insert_ne by lia. naive_solver.
Qed.

(** ** The invariant *)

Definition active (reg : AccountRegistry) (acc : N) : Prop := standing reg acc = Some Account.Active.

#[global] Instance active_dec reg acc : base.Decision (active reg acc).
Proof. unfold active. apply _. Defined.

(** A session is justified when its profile is bound to its account, the account
    is active and the plan allows the network it runs on. *)
Definition justified (reg : AccountRegistry) (x : DataSession) : Prop :=
  owner_of reg (mkKey (ds_slot x) (ds_profile x)) = Some (ds_account x) ∧
  active reg (ds_account x) ∧
  ∃ e, demo_entitlement (ds_account x) = Some e ∧ (ds_roaming x = true → roaming_data_allowed e = true).

(** The reconciler's memory of a counter never runs ahead of it. *)
Definition memory_behind (d : DataState) : Prop :=
  ∀ e l, e ∈ usage d → ue_last_used e = Some l → (l ≤ used_bytes (ue_usage e))%N.

Record coherent (c : Core) : Prop := mk_coherent {
  co_registry : Account.wf (c_registry c);
  co_slots : Sim.wf (c_slots c);
  co_slot_count : length (c_slots c) = SLOT_COUNT;
  co_data : DataState.wf (c_data c);
  co_rows : rows_known (c_data c);
  co_memory : memory_behind (c_data c);
  co_bound : ∀ k o, owner_of (c_registry c) k = Some o →
    ∃ st, state_of (c_slots c) k = Some st ∧ st ≠ Sim.Deleted;
  co_enabled : ∀ k, state_of (c_slots c) k = Some Sim.Enabled →
    ∃ o, owner_of (c_registry c) k = Some o ∧ active (c_registry c) o;
  co_sessions : ∀ x, x ∈ sessions (c_data c) → justified (c_registry c) x;
}.

(** ** Changes of one part *)

Lemma coherent_with_slots c s :
  coherent c → Sim.wf s → length s = SLOT_COUNT →
  (∀ k st, owner_of (c_registry c) k ≠ None → state_of (c_slots c) k = Some st →
     st ≠ Sim.Deleted → ∃ st', state_of s k = Some st' ∧ st' ≠ Sim.Deleted) →
  (∀ k, state_of s k = Some Sim.Enabled →
     state_of (c_slots c) k = Some Sim.Enabled ∨
     ∃ o, owner_of (c_registry c) k = Some o ∧ active (c_registry c) o) →
  coherent (with_slots c s).
Proof.
  intros [Hr Hs Hn Hd Hrows Hm Hb He Hx] Hwf Hlen Hlive Hen.
  constructor; cbn [with_slots c_registry c_slots c_data]; try done.
  - intros k o Ho. destruct (Hb k o Ho) as (st & Hst & Hne). by apply (Hlive k st); [rewrite Ho|..].
  - intros k Hk. destruct (Hen k Hk) as [Hold|Hnew]; [by apply He|done].
Qed.

Lemma coherent_with_data c d :
  coherent c → DataState.wf d → rows_known d → memory_behind d →
  (∀ x, x ∈ sessions d → x ∈ sessions (c_data c) ∨ justified (c_registry c) x) →
  coherent (with_data c d).
Proof.
  intros [Hr Hs Hn Hd Hrows Hm Hb He Hx] Hwf Hrows' Hm' Hx'.
  constructor; cbn [with_data c_registry c_slots c_data]; try done.
  intros x Hin. destruct (Hx' x Hin); auto.
Qed.

Lemma coherent_same_data c c' :
  coherent c → c_registry c' = c_registry c → c_slots c' = c_slots c → c_data c' = c_data c →
  coherent c'.
Proof. intros [] Hr Hs Hd. constructor; rewrite ?Hr, ?Hs, ?Hd; done. Qed.

Lemma memory_behind_sub d d' :
  usage d' = usage d → memory_behind d → memory_behind d'.
Proof. unfold memory_behind. by intros ->. Qed.

(** ** Data operations *)

Lemma sub_sessions_coherent c d :
  coherent c → DataState.wf d → usage d = usage (c_data c) →
  (∀ x, x ∈ sessions d → x ∈ sessions (c_data c)) → coherent (with_data c d).
Proof.
  intros Hc Hwf Hu Hx. apply coherent_with_data; [done..| | |].
  - unfold rows_known. rewrite Hu. apply (co_rows c Hc).
  - eapply memory_behind_sub; [done|]. apply (co_memory c Hc).
  - intros x Hin. left. auto.
Qed.

Lemma drain_sessions_in d m x : x ∈ sessions ((drain_sessions d m).2) ↔ x ∈ sessions d ∧ m x = false.
Proof.
  unfold drain_sessions. rewrite drain_filter. cbn [snd with_sessions sessions].
  rewrite list_elem_of_filter. tauto.
Qed.

Lemma drain_usage d m : usage ((drain_sessions d m).2) = usage d.
Proof. unfold drain_sessions. by destruct (drain _ _). Qed.

Lemma drain_coherent c m : coherent c → coherent (with_data c ((drain_sessions (c_data c) m).2)).
Proof.
  intros Hc. apply sub_sessions_coherent; [done| |apply drain_usage|].
  - apply drain_sessions_wf, (co_data c Hc).
  - intros x Hx. by apply drain_sessions_in in Hx as [? _].
Qed.

Lemma close_session_coherent c a s p : coherent c → coherent (with_data c ((close_session (c_data c) a s p).2)).
Proof.
  intros Hc. apply sub_sessions_coherent; [done| |done|].
  - apply (run_op_wf (c_data c) (OpClose a s p) I), (co_data c Hc).
  - intros x Hx. cbn [close_session snd with_sessions sessions] in Hx.
    by apply list_elem_of_filter in Hx as [_ ?].
Qed.

Lemma apply_usage_ge u b : (used_bytes u ≤ u64_max)%N → (used_bytes u ≤ used_bytes (apply_usage u b))%N.
Proof. apply saturating_add_ge. Qed.

Lemma feed_memory d a b : DataState.wf d → memory_behind d → memory_behind ((feed_usage d a b).2).
Proof.
  intros Hwf Hm. unfold feed_usage.
  destruct (iter_find (λ e, ue_account e = a) (usage d)) as [e0|] eqn:Hf.
  - apply (iter_find_Some_1 (λ e, ue_account e = a)) in Hf as [Hin0 Hk0].
    intros e l He Hl. cbn [snd with_usage usage] in He.
    apply elem_of_find_mut in He as [He|(e1 & He1 & Hk & ->)]; [by eapply Hm|].
    assert (e1 = e0) as -> by (eapply (keyed_inj ue_account); [apply (wf_usage_keys d Hwf)|congruence..]).
    cbn [ue_last_used ue_usage] in Hl |- *. specialize (Hm e0 l Hin0 Hl).
    pose proof (wf_usage_u64 d Hwf) as Hu. rewrite Forall_forall in Hu.
    pose proof (apply_usage_ge (ue_usage e0) b (Hu e0 Hin0)). lia.
  - case_decide; [done|]. intros e l He Hl. cbn [snd with_usage usage] in He.
    apply elem_of_app in He as [He|He]; [by eapply Hm|].
    apply list_elem_of_singleton in He as ->. done.
Qed.

Lemma reset_memory d a now il :
  memory_behind d → memory_behind ((reset_usage_and_period d a now il).2).
Proof.
  intros Hm. rewrite reset_components. cbn [snd].
  eapply memory_behind_sub; [apply record_reset_tables|].
  eapply memory_behind_sub; [apply start_next_period_tables|].
  unfold reset_account_usage. destruct (iter_find _ (usage d)) as [e0|]; [|done].
  intros e l He Hl. cbn [snd with_usage usage] in He.
  apply elem_of_find_mut in He as [He|(e1 & He1 & Hk & ->)]; [by eapply Hm|done].
Qed.

(** The rows of [mark_observed], without the reconciler's memory. *)
Lemma observe_rows d obs :
  (λ e, (ue_account e, ue_usage e)) <$> usage (mark_observed d obs) =
  (λ e, (ue_account e, ue_usage e)) <$> usage d.
Proof.
  unfold mark_observed. revert d. induction obs as [|o obs IH]; intros d; [done|].
  cbn [foldl]. rewrite IH. unfold observe_one. cbn [with_usage usage]. by apply find_mut_fmap.
Qed.

Lemma observe_memory_aux d obs :
  memory_behind d →
  (∀ o e, o ∈ obs → e ∈ usage d → ue_account e = ue_account o →
     (used_bytes (ue_usage o) ≤ used_bytes (ue_usage e))%N) →
  memory_behind (mark_observed d obs).
Proof.
  unfold mark_observed. revert d. induction obs as [|o obs IH]; intros d Hm Hobs; [done|].
  cbn [foldl]. apply IH.
  - intros e l He Hl. unfold observe_one in He. cbn [with_usage usage] in He.
    apply elem_of_find_mut in He as [He|(e1 & He1 & Hk & ->)]; [by eapply Hm|].
    cbn in Hl. injection Hl as <-. cbn [ue_usage]. apply Hobs; [by left|done..].
  - intros o' e Ho' He Hk. unfold observe_one in He. cbn [with_usage usage] in He.
    apply elem_of_find_mut in He as [He|(e1 & He1 & Hk1 & ->)]; [apply Hobs; [by right|done..]|].
    cbn [ue_usage ue_account] in *. apply Hobs; [by right|done..].
Qed.

Lemma observe_memory d :
  DataState.wf d → memory_behind d → memory_behind (mark_observed d (usage d)).
Proof.
  intros Hwf Hm. apply observe_memory_aux; [done|]. intros o e Ho He Hk.
  assert (e = o) as -> by (by eapply (keyed_inj ue_account); [apply (wf_usage_keys d Hwf)|..]). done.
Qed.

Lemma decide_and_open_sessions d a s p r st lc e x :
  x ∈ sessions ((decide_and_open d a s p r st lc e).2) →
  x ∈ sessions d ∨
  (x = mkSession a s p r ∧
   ∀ why, evaluate_session (mkRequest st lc e (usage_of d a) (if r then Roaming else Home)) ≠ Deny why).
Proof.
  unfold decide_and_open. cbn [record_decide rec_decision].
  destruct (evaluate_session _) as [| |why] eqn:Hev; [| |by left].
  all: unfold record_session; cbn [ds_account ds_slot ds_profile ds_roaming].
  all: destruct (iter_find _ (sessions d)) as [y|] eqn:Hf; [|case_decide; [by left|]].
  all: cbn [snd with_sessions sessions].
  all: intros Hx.
  all: first [ apply elem_of_find_mut in Hx as [Hx|(y' & Hin & (Hk1 & Hk2 & Hk3) & ->)]; [by left|right; split; [by subst|by intros]]
             | apply elem_of_app in Hx as [Hx|Hx]; [by left|right; apply list_elem_of_singleton in Hx as ->; split; [done|by intros]] ].
Qed.

Lemma evaluate_session_allows st lc e u net :
  (∀ why, evaluate_session (mkRequest st lc e u net) ≠ Deny why) →
  st = Policy.Active ∧ lc = Policy.Enabled ∧ (net = Roaming → roaming_data_allowed e = true).
Proof.
  unfold evaluate_session. cbn [req_standing req_lifecycle req_entitlement req_usage req_network].
  intros Hn. destruct st; [|by destruct (Hn AccountSuspended)|by destruct (Hn Policy.AccountClosed)].
  case_decide as Hl; [by destruct (Hn (ProfileNotEnabled lc))|].
  case_decide as Hr; [by destruct (Hn RoamingDataNotAllowed)|].
  split_and!; [done|done|]. intros ->.
  destruct (roaming_data_allowed e); [done|]. by destruct Hr.
Qed.

(** ** Registry operations *)

Lemma standing_account reg acc st :
  standing reg acc = Some st ↔ ∃ a, account reg acc = Some a ∧ acct_status a = st.
Proof. unfold standing. rewrite fmap_Some. naive_solver. Qed.

Lemma gate_enable_Ok reg s p :
  gate_enable reg s p = Ok () → ∃ o, owner_of reg (mkKey s p) = Some o ∧ active reg o.
Proof.
  unfold gate_enable. destruct (owner_of reg (mkKey s p)) as [o|] eqn:Ho; cbn; [|done].
  unfold check_enable. destruct (account reg o) as [a|] eqn:Ha; cbn; [|done].
  rewrite Ho, decide_False by naive_solver. destruct (acct_status a) eqn:Hs; try done.
  intros _. exists o. split; [done|]. apply standing_account. eauto.
Qed.

(** The registry a wrapper leaves behind is the one [apply] does. *)
Lemma registry_call reg change lc r reg' :
  Account.wf reg → Account.apply reg change lc = (r, reg') →
  Account.wf reg' ∧ (∀ e, r = Err e → reg' = reg).
Proof.
  intros Hwf Ha. pose proof (apply_preserves_wf_aux reg change lc Hwf) as Hw. rewrite Ha in Hw.
  split; [done|]. intros e ->. by eapply apply_err_same.
Qed.

Lemma justified_registry reg reg' x :
  (∀ k o, owner_of reg k = Some o → owner_of reg' k = Some o) →
  (∀ o, active reg o → active reg' o) → justified reg x → justified reg' x.
Proof. intros Hown Hact (Ho & Ha & He). split_and!; auto. Qed.

Lemma coherent_with_registry c reg :
  coherent c → Account.wf reg →
  (∀ k o, owner_of (c_registry c) k = Some o → owner_of reg k = Some o) →
  (∀ o, active (c_registry c) o → active reg o) →
  (∀ k o, owner_of reg k = Some o → owner_of (c_registry c) k = Some o ∨
     ∃ st, state_of (c_slots c) k = Some st ∧ st ≠ Sim.Deleted) →
  coherent (with_registry c reg).
Proof.
  intros [Hr Hs Hn Hd Hrows Hm Hb He Hx] Hwf Hown Hact Hnew.
  constructor; cbn [with_registry c_registry c_slots c_data]; try done.
  - intros k o Ho. destruct (Hnew k o Ho); eauto.
  - intros k Hk. destruct (He k Hk) as (o & Ho & Ha). eauto.
  - intros x Hin. eapply justified_registry; [done..|]. by apply Hx.
Qed.

Lemma coherent_registry_id c : coherent c → coherent (with_registry c (c_registry c)).
Proof. intros Hc. by eapply coherent_same_data. Qed.

Lemma account_same_accounts reg reg' acc :
  reg_accounts reg' = reg_accounts reg → standing reg' acc = standing reg acc.
Proof. unfold standing, account. by intros ->. Qed.

Lemma mvno_bind_coherent c acc s p r reg :
  coherent c → mvno_bind (c_registry c) (c_slots c) acc s p = (r, reg) →
  coherent (with_registry c reg).
Proof.
  intros Hc Hb. pose proof (co_registry c Hc) as Hwf. unfold mvno_bind in Hb. destruct r as [[]|e].
  - pose proof (λ k', owner_of_bind _ _ _ _ _ k' Hb) as Hown.
    assert (Account.wf reg) as Hwf'.
    { unfold Account.bind in Hb. destruct (Account.apply _ _ _) as [r0 reg0] eqn:Ha.
      injection Hb as _ <-. by eapply registry_call. }
    apply bind_Ok in Hb as [(a & st & Ha & _ & Hnone & Hlc & Hdel & _ & _) Hreg].
    apply coherent_with_registry; [done..| | |].
    + intros k o Ho. rewrite Hown. case_decide; [congruence|done].
    + intros o. unfold active. by rewrite (account_same_accounts (c_registry c) reg) by (by rewrite Hreg).
    + intros k o. rewrite Hown. case_decide as Hk; [|by left]. intros _. right. subst k.
      rewrite lifecycle_view_of in Hlc by apply (co_slots c Hc).
      apply fmap_Some in Hlc as (st0 & Hst0 & ->). exists st0. split; [done|]. by intros ->.
  - unfold Account.bind in Hb. destruct (Account.apply _ _ _) as [[ap|e'] reg0] eqn:Ha; [done|].
    injection Hb as _ <-. apply apply_err_same in Ha as ->. by apply coherent_registry_id.
Qed.

Lemma reactivate_coherent c acc r reg :
  coherent c → mvno_reactivate (c_registry c) acc = (r, reg) → coherent (with_registry c reg).
Proof.
  intros Hc Hr. pose proof (co_registry c Hc) as Hwf. unfold mvno_reactivate, Account.reactivate in Hr.
  destruct (Account.apply _ _ _) as [r0 reg0] eqn:Ha. injection Hr as _ <-.
  destruct (registry_call _ _ _ _ _ Hwf Ha) as [Hwf' Herr].
  destruct r0 as [ap|e]; [|rewrite (Herr e eq_refl); by apply coherent_registry_id].
  cbn [Account.apply] in Ha. pose proof (λ acc', account_set_status _ _ _ _ _ _ acc' Hwf Ha) as Hacc.
  apply set_status_Ok in Ha as (a & forced & Hacct & _ & _ & _ & Hreg); [|done].
  assert (∀ k, owner_of reg0 k = owner_of (c_registry c) k) as Hown by (intros k; by rewrite Hreg).
  apply coherent_with_registry; [done..| | |].
  - intros k o. by rewrite Hown.
  - intros o. unfold active. rewrite !standing_account. rewrite Hacc. case_decide; [subst|done].
    rewrite Hacct. intros _. eexists. split; [done|]. done.
  - intros k o. rewrite Hown. by left.
Qed.

(** ** Deletion *)

Lemma unbind_released reg k o lc st :
  Account.wf reg → owner_of reg k = Some o → lc k = Some st → st ≠ Account.Enabled →
  ∃ reg', Account.unbind reg k lc = (Ok (), reg') ∧ Account.wf reg' ∧
    reg_accounts reg' = reg_accounts reg ∧
    ∀ k', owner_of reg' k' = if decide (k' = k) then None else owner_of reg k'.
Proof.
  intros Hwf Ho Hlc Hst. unfold Account.unbind.
  pose proof (apply_preserves_wf_aux reg (Unbind k) lc Hwf) as Hw. cbn [Account.apply] in *.
  unfold owner_of, iter_find in Ho. unfold apply_unbind in *.
  destruct (list_find (λ b, b.1 = k) (bindings reg)) as [[pos [k0 o0]]|] eqn:Hf; [|done].
  cbn in Ho. injection Ho as ->. rewrite Hlc in *. rewrite decide_False in * by done. cbn [fst snd] in *.
  eexists. split; [done|]. split; [done|]. split; [done|].
  apply list_find_Some in Hf as (Hl & Hk & _). cbn in Hk. subst k0.
  pose proof (delete_Permutation _ _ _ Hl) as Hperm.
  intros k'. case_decide as Hd.
  - subst k'. apply owner_of_None. cbn [bindings]. pose proof (wf_keys reg Hwf) as Hnd.
    rewrite Hperm in Hnd. cbn in Hnd. by apply NoDup_cons in Hnd as [? _].
  - apply option_eq. intros o'. rewrite !owner_of_Some by done. cbn [bindings].
    pose proof (elem_of_Permutation_proper (k', o') _ _ Hperm) as Hin.
    rewrite elem_of_cons in Hin. naive_solver.
Qed.

Lemma mvno_unbind_deleted reg slots s p :
  Account.wf reg → Sim.wf slots → state_of slots (mkKey s p) = Some Sim.Deleted →
  let reg' := (mvno_unbind reg slots s p).2 in
  Account.wf reg' ∧ reg_accounts reg' = reg_accounts reg ∧
  (mvno_unbind reg slots s p).1 = Ok (owner_of reg (mkKey s p)) ∧
  ∀ k, owner_of reg' k = if decide (k = mkKey s p) then None else owner_of reg k.
Proof.
  intros Hwf Hs Hst. unfold mvno_unbind. destruct (owner_of reg (mkKey s p)) as [o|] eqn:Ho.
  - destruct (unbind_released reg (mkKey s p) o (lifecycle_view slots) Account.Deleted) as (reg' & -> & Hw & Hacc & Hown);
      [done..| |done|done]. by rewrite lifecycle_view_of, Hst.
  - cbn. split_and!; [done..|]. intros k. case_decide; [by subst|done].
Qed.

Lemma delete_coherent c s p slots' :
  coherent c → Sim.delete (c_slots c) s p = (Ok (), slots') →
  coherent (with_data (with_registry (with_slots c slots')
              ((mvno_unbind (c_registry c) slots' s p).2))
              ((close_sessions_for_profile (c_data c) s p).2)).
Proof.
  intros Hc Hdel. pose proof (co_slots c Hc) as Hws.
  pose proof (λ k, op_states _ _ _ _ _ k Hws Hdel) as Hst.
  pose proof (op_source _ _ _ _ _ Hws Hdel) as Hsrc. 
  change (state_of (c_slots c) (mkKey s p) = Some Sim.Disabled) in Hsrc.
  assert (Sim.wf slots') as Hws' by (by eapply (op_wf _ _ _ Delete)).
  assert (state_of slots' (mkKey s p) = Some Sim.Deleted) as Hgone.
  { rewrite Hst, Hsrc. cbn. unfold op_state. by rewrite decide_True. }
  assert (∀ k, k ≠ mkKey s p → state_of slots' k = state_of (c_slots c) k) as Hsame.
  { intros k Hk. rewrite Hst. unfold op_state. destruct (state_of (c_slots c) k); [|done]. cbn.
    rewrite decide_False by done. by rewrite decide_False by naive_solver. }
  destruct (mvno_unbind_deleted (c_registry c) slots' s p (co_registry c Hc) Hws' Hgone)
    as (Hwr & Hacc & _ & Hown). revert Hwr Hacc Hown.
  generalize ((mvno_unbind (c_registry c) slots' s p).2) as reg'. intros reg' Hwr Hacc Hown.
  unfold close_sessions_for_profile.
  constructor; cbn [with_data with_registry with_slots c_registry c_slots c_data].
  - done.
  - done.
  - rewrite <-(co_slot_count c Hc). pose proof (with_slot_length (c_slots c) s (λ sl, transition sl p Delete)) as Hl.
    unfold Sim.delete in Hdel. by rewrite Hdel in Hl.
  - apply drain_sessions_wf, (co_data c Hc).
  - unfold rows_known. rewrite (drain_usage (c_data c)). apply (co_rows c Hc).
  - eapply memory_behind_sub; [apply drain_usage|]. apply (co_memory c Hc).
  - intros k o. rewrite Hown. case_decide; [done|]. intros Ho. rewrite Hsame by done.
    by apply (co_bound c Hc) in Ho.
  - intros k Hk. assert (k ≠ mkKey s p) as Hne by (intros ->; congruence).
    rewrite Hsame in Hk by done. destruct (co_enabled c Hc k Hk) as (o & Ho & Ha).
    exists o. rewrite Hown, decide_False by done. split; [done|].
    unfold active. by rewrite (account_same_accounts (c_registry c) reg').
  - intros x [Hx Hm]%drain_sessions_in. apply bool_decide_eq_false in Hm.
    destruct (co_sessions c Hc x Hx) as (Ho & Ha & He). split_and!; [| |done].
    + rewrite Hown, decide_False; [done|]. intros [= Hs0 Hp0]. by apply Hm.
    + unfold active. by rewrite (account_same_accounts (c_registry c) reg').
Qed.

(** ** Suspension *)

Lemma disable_all_spec keys ok s :
  Sim.wf s → NoDup keys → (∀ k, k ∈ keys → state_of s k = Some Sim.Enabled) →
  let '(ok', s') := disable_all keys ok s in
  ok' = ok ∧ Sim.wf s' ∧ length s' = length s ∧
  ∀ k, state_of s' k = if decide (k ∈ keys) then Some Sim.Disabled else state_of s k.
Proof.
  revert ok s. induction keys as [|k0 keys IH]; intros ok s Hwf Hnd Hen; cbn [disable_all].
  - split_and!; [done..|]. intros k. by rewrite decide_False by apply not_elem_of_nil.
  - apply NoDup_cons in Hnd as [Hni Hnd].
    assert (state_of s k0 = Some Sim.Enabled) as Hk0 by (apply Hen; by left).
    pose proof (op_Ok_intro s (key_slot k0) (key_profile k0) Disable Hwf Hk0) as Hok.
    pose proof (with_slot_length s (key_slot k0) (λ sl, transition sl (key_profile k0) Disable)) as Hlen.
    fold (Sim.disable s (key_slot k0) (key_profile k0)) in Hok, Hlen.
    destruct (Sim.disable s (key_slot k0) (key_profile k0)) as [r s1] eqn:Hd. cbn [fst snd] in *. subst r.
    pose proof (λ k, op_states _ _ _ _ _ k Hwf Hd) as Hst.
    assert (Sim.wf s1) as Hwf1 by (by eapply (op_wf _ _ _ Disable)).
    assert (∀ k, state_of s1 k = if decide (k = k0) then Some Sim.Disabled else state_of s k) as Hs1.
    { intros k. rewrite Hst. unfold op_state. destruct k0 as [a b]. cbn [key_slot key_profile] in *.
      case_decide; [subst; by rewrite Hk0|]. destruct (state_of s k); [|done]. cbn.
      by rewrite decide_False by naive_solver. }
    specialize (IH ok s1 Hwf1 Hnd). destruct (disable_all keys ok s1) as [ok' s'].
    destruct IH as (-> & Hwf' & Hlen' & Hst').
    { intros k Hk. rewrite Hs1, decide_False by (intros ->; done). apply Hen. by right. }
    split_and!; [done|done|congruence|]. intros k. rewrite Hst', Hs1.
    destruct (decide (k ∈ keys)) as [Hin|Hin].
    + by rewrite decide_True by (by right).
    + destruct (decide (k = k0)) as [->|Hne]; [by rewrite decide_True by (by left)|].
      rewrite decide_False; [done|]. rewrite elem_of_cons. naive_solver.
Qed.

(** The state a suspension leaves, for an account that was active. *)
Record suspended (c : Core) (acc : N) (c' : Core) : Prop := mk_suspended {
  sus_status : standing (c_registry c') acc = Some Account.Suspended;
  sus_others : ∀ acc', acc' ≠ acc → standing (c_registry c') acc' = standing (c_registry c) acc';
  sus_bindings : ∀ k, owner_of (c_registry c') k = owner_of (c_registry c) k;
  sus_states : ∀ k, state_of (c_slots c') k =
    if decide (owner_of (c_registry c) k = Some acc ∧ state_of (c_slots c) k = Some Sim.Enabled)
    then Some Sim.Disabled else state_of (c_slots c) k;
  sus_sessions : ∀ x, x ∈ sessions (c_data c') ↔ x ∈ sessions (c_data c) ∧ ds_account x ≠ acc;
  sus_usage : usage (c_data c') = usage (c_data c);
}.

Lemma suspend_accepted reg acc lc :
  Account.wf reg → active reg acc → (∀ k, owner_of reg k = Some acc → is_Some (lc k)) →
  ∃ forced reg', Account.suspend reg acc lc = (Ok forced, reg').
Proof.
  intros Hwf (a & Ha & Hs)%standing_account Hlc. unfold Account.suspend. cbn [Account.apply].
  unfold apply_set_status. rewrite account_find in Ha.
  destruct (list_find _ (reg_accounts reg)) as [[idx a']|]; [|done]. cbn in Ha. injection Ha as ->.
  rewrite Hs. cbn [legal_transition]. rewrite decide_True by done.
  enough (∀ keys l, (∀ k, k ∈ keys → is_Some (lc k)) →
            ∃ f, gather_force_disable lc Account.Suspended keys l = Ok f) as Hg.
  { destruct (Hg (profiles_of reg acc) []) as [f ->]; [|by do 2 eexists].
    intros k Hk%elem_of_profiles_of. by apply Hlc, owner_of_Some. }
  induction keys as [|k keys IH]; intros l Hk; [by eexists|]. cbn [gather_force_disable].
  destruct (Hk k) as [st ->]; [by left|]. cbn.
  case_decide; [rewrite decide_False by done|]; apply IH; intros k' Hk'; apply Hk; by right.
Qed.

Lemma suspend_spec_aux c acc forced reg :
  coherent c → mvno_suspend (c_registry c) (c_slots c) acc = (Ok forced, reg) →
  active (c_registry c) acc ∧ Account.wf reg ∧
  NoDup forced ∧
  (∀ k, k ∈ forced ↔ owner_of (c_registry c) k = Some acc ∧ state_of (c_slots c) k = Some Sim.Enabled) ∧
  standing reg acc = Some Account.Suspended ∧
  (∀ acc', acc' ≠ acc → standing reg acc' = standing (c_registry c) acc') ∧
  (∀ k, owner_of reg k = owner_of (c_registry c) k).
Proof.
  intros Hc Hsus. pose proof (co_registry c Hc) as Hwf. pose proof (co_slots c Hc) as Hws.
  assert (Account.wf reg) as Hwf'.
  { unfold mvno_suspend, Account.suspend in Hsus. destruct (Account.apply _ _ _) as [r0 reg0] eqn:Ha.
    injection Hsus as _ <-. by eapply registry_call. }
  apply suspend_Ok in Hsus as (-> & (a & Ha & Hact & Ha') & Hoth & Hbind); [|done].
  split_and!; [apply standing_account; eauto|done|apply NoDup_filter, NoDup_profiles_of, Hwf| | | |].
  - intros k. rewrite list_elem_of_filter, elem_of_profiles_of, <-owner_of_Some by done.
    rewrite lifecycle_view_of, adapt_enabled by done. tauto.
  - apply standing_account. eauto.
  - intros acc' Hne. unfold standing. by rewrite Hoth.
  - intros k. unfold owner_of. by rewrite Hbind.
Qed.

Lemma spec_suspend_Ok c acc :
  coherent c → active (c_registry c) acc →
  let '(r, c') := spec_suspend_account acc c in r = 0%N ∧ suspended c acc c' ∧ coherent c'.
Proof.
  intros Hc Hact. unfold spec_suspend_account.
  destruct (suspend_accepted (c_registry c) acc (lifecycle_view (c_slots c))) as (forced & reg & Hs);
    [apply (co_registry c Hc)|done| |].
  { intros k Hk. destruct (co_bound c Hc k acc Hk) as (st & Hst & _).
    rewrite lifecycle_view_of, Hst by apply (co_slots c Hc). by eexists. }
  fold (mvno_suspend (c_registry c) (c_slots c) acc) in Hs. rewrite Hs.
  destruct (suspend_spec_aux c acc forced reg Hc Hs) as (_ & Hwf' & Hnd & Hforced & Hst & Hoth & Hown).
  pose proof (disable_all_spec forced true (c_slots c) (co_slots c Hc) Hnd) as Hd.
  destruct (disable_all forced true (c_slots c)) as [ok s].
  destruct Hd as (-> & Hws & Hlen & Hstates); [intros k Hk; by apply Hforced|].
  assert (∀ k, state_of s k =
    if decide (owner_of (c_registry c) k = Some acc ∧ state_of (c_slots c) k = Some Sim.Enabled)
    then Some Sim.Disabled else state_of (c_slots c) k) as Hstates'.
  { intros k. rewrite Hstates. specialize (Hforced k). repeat case_decide; naive_solver. }
  assert (∀ o, o ≠ acc → active (c_registry c) o → active reg o) as Hactive.
  { intros o Hne. unfold active. by rewrite Hoth. }
  assert (∀ k, state_of s k = Some Sim.Enabled → ∃ o, owner_of reg k = Some o ∧ active reg o) as Hen.
  { intros k. rewrite Hstates'. case_decide as Hk; [done|]. intros He.
    destruct (co_enabled c Hc k He) as (o & Ho & Ha). exists o. rewrite Hown. split; [done|].
    apply Hactive; [|done]. intros ->. by apply Hk. }
  split_and!.
  - rewrite bool_decide_true; [done|]. apply audit_nil_iff. intros k o Hin Hlc.
    rewrite lifecycle_view_of, adapt_enabled in Hlc by done.
    destruct (Hen k Hlc) as (o' & Ho' & Ha'). apply owner_of_Some in Hin; [|done].
    assert (o' = o) as -> by congruence. by apply standing_account.
  - constructor; cbn [with_data with_slots with_registry c_registry c_slots c_data]; try done.
    + intros x. unfold close_sessions_for_account. rewrite drain_sessions_in, bool_decide_eq_false. done.
    + apply drain_usage.
  - unfold close_sessions_for_account.
    constructor; cbn [with_data with_slots with_registry c_registry c_slots c_data].
    + done.
    + done.
    + rewrite Hlen. apply (co_slot_count c Hc).
    + apply drain_sessions_wf, (co_data c Hc).
    + unfold rows_known. rewrite drain_usage. apply (co_rows c Hc).
    + eapply memory_behind_sub; [apply drain_usage|]. apply (co_memory c Hc).
    + intros k o. rewrite Hown, Hstates'. intros Ho. case_decide; [by eexists|].
      by apply (co_bound c Hc) in Ho.
    + done.
    + intros x [Hx Hne%bool_decide_eq_false]%drain_sessions_in.
      destruct (co_sessions c Hc x Hx) as (Ho & Ha & He). split_and!; [by rewrite Hown|auto|done].
Qed.

Lemma spec_suspend_Err c acc :
  coherent c → ¬ active (c_registry c) acc → spec_suspend_account acc c = (1%N, c).
Proof.
  intros Hc Hn. unfold spec_suspend_account.
  destruct (mvno_suspend (c_registry c) (c_slots c) acc) as [[forced|e] reg] eqn:Hs.
  - by apply suspend_spec_aux in Hs as [? _].
  - unfold mvno_suspend, Account.suspend in Hs. destruct (Account.apply _ _ _) as [[ap|e'] reg0] eqn:Ha; [done|].
    injection Hs as _ <-. apply apply_err_same in Ha as ->. by destruct c.
Qed.

(** ** Every call keeps the invariant *)

Lemma coherent_slots_id c : coherent c → coherent (with_slots c (c_slots c)).
Proof. intros Hc. by eapply coherent_same_data. Qed.

Lemma create_coherent c s r slots' :
  coherent c → Sim.create (c_slots c) s = (r, slots') → coherent (with_slots c slots').
Proof.
  intros Hc Hcr. pose proof (co_slots c Hc) as Hws.
  pose proof (run_call_wf (c_slots c) (CallCreate s) Hws) as Hwf. cbn [run_call] in Hwf.
  pose proof (with_slot_length (c_slots c) s slot_create) as Hlen.
  fold (Sim.create (c_slots c) s) in Hlen. rewrite Hcr in Hwf, Hlen. cbn [snd] in *.
  apply coherent_with_slots; [done..|by rewrite Hlen; apply (co_slot_count c Hc)| |].
  - intros k st _ Hst Hne. destruct (create_states _ _ _ _ k Hcr) as [Hkeep _]. eauto.
  - intros k Hk. left. destruct (create_states _ _ _ _ k Hcr) as [_ Hback].
    by destruct (Hback _ Hk).
Qed.

Lemma install_coherent c s p i r slots' :
  coherent c → Sim.install (c_slots c) s p i = (r, slots') → coherent (with_slots c slots').
Proof.
  intros Hc Hin. pose proof (co_slots c Hc) as Hws. destruct r as [[]|e];
    [|apply install_failed in Hin as ->; [by apply coherent_slots_id|done]].
  pose proof (run_call_wf (c_slots c) (CallInstall s p i) Hws) as Hwf.
  pose proof (with_slot_length (c_slots c) s (λ sl, slot_install sl p i)) as Hlen.
  fold (Sim.install (c_slots c) s p i) in Hlen. rewrite run_call_state in Hwf. rewrite Hin in Hwf, Hlen.
  cbn [snd] in *. pose proof (λ k, install_states _ _ _ _ _ k Hws Hin) as Hst.
  apply coherent_with_slots; [done..|by rewrite Hlen; apply (co_slot_count c Hc)| |].
  - intros k st _ Hk Hne. destruct (Hst k) as [_ ->]. case_decide; eauto.
  - intros k. destruct (Hst k) as [_ ->]. case_decide; [done|by left].
Qed.

Lemma transition_coherent c s p op r slots' :
  coherent c → op ≠ Install → op ≠ Delete →
  (op = Sim.Enable → ∃ o, owner_of (c_registry c) (mkKey s p) = Some o ∧ active (c_registry c) o) →
  with_slot (c_slots c) s (λ sl, transition sl p op) = (r, slots') → coherent (with_slots c slots').
Proof.
  intros Hc Hni Hnd Hgate Hop. pose proof (co_slots c Hc) as Hws. destruct r as [[]|e];
    [|apply op_failed in Hop as ->; [by apply coherent_slots_id|done]].
  pose proof (with_slot_length (c_slots c) s (λ sl, transition sl p op)) as Hlen. rewrite Hop in Hlen. cbn [snd] in Hlen.
  pose proof (λ k, op_states _ _ _ _ _ k Hws Hop) as Hst.
  apply coherent_with_slots; [done|by eapply op_wf|by rewrite Hlen; apply (co_slot_count c Hc)| |].
  - intros k st _ Hk Hne. rewrite Hst, Hk. cbn. unfold op_state.
    case_decide; [eexists; split; [done|]; by destruct op|]. case_decide; eauto.
  - intros k. rewrite Hst. destruct (state_of (c_slots c) k) as [st|]; [|done]. cbn. unfold op_state.
    case_decide as Hk; [|case_decide; [done|by left]].
    subst k. intros [= Ht]. right. apply Hgate. by destruct op.
Qed.

Lemma open_coherent c a s p r e st_acc st :
  coherent c → demo_entitlement a = Some e → standing (c_registry c) a = Some st_acc →
  owner_of (c_registry c) (mkKey s p) = Some a →
  coherent (with_data c ((decide_and_open (c_data c) a s p r (standing_for_data st_acc)
                            (lifecycle_for_data st) e).2)).
Proof.
  intros Hc He Hst Ho. pose proof (open_tables (c_data c) a s p r (standing_for_data st_acc)
    (lifecycle_for_data st) e) as (Hu & _).
  apply coherent_with_data; [done|apply decide_and_open_wf, (co_data c Hc)| | |].
  - unfold rows_known. rewrite Hu. apply (co_rows c Hc).
  - eapply memory_behind_sub; [done|]. apply (co_memory c Hc).
  - intros x [Hx|[-> Hev]]%decide_and_open_sessions; [by left|right].
    apply evaluate_session_allows in Hev as (Ha & _ & Hroam).
    split_and!; cbn [ds_account ds_slot ds_profile ds_roaming]; [done| |].
    + unfold active. by destruct st_acc.
    + exists e. split; [done|]. intros ->. by apply Hroam.
Qed.

Lemma same_tables_coherent c d :
  coherent c → DataState.wf d → usage d = usage (c_data c) → sessions d = sessions (c_data c) →
  coherent (with_data c d).
Proof. intros Hc Hwf Hu Hs. apply sub_sessions_coherent; [done..|]. by rewrite Hs. Qed.

Lemma feed_coherent c a b :
  coherent c → known a → coherent (with_data c ((feed_usage (c_data c) a b).2)).
Proof.
  intros Hc Hk. apply coherent_with_data; [done| | | |].
  - apply feed_usage_wf, (co_data c Hc).
  - by apply feed_rows_known, (co_rows c Hc).
  - apply feed_memory; [apply (co_data c Hc)|apply (co_memory c Hc)].
  - intros x Hx. left. unfold feed_usage in Hx. repeat case_match; done.
Qed.

Lemma reset_coherent c a now il :
  coherent c → coherent (with_data c ((reset_usage_and_period (c_data c) a now il).2)).
Proof.
  intros Hc. apply coherent_with_data; [done| | | |].
  - apply reset_usage_and_period_wf, (co_data c Hc).
  - apply reset_rows_known, (co_rows c Hc).
  - apply reset_memory, (co_memory c Hc).
  - intros x Hx. left. rewrite reset_components in Hx. cbn [snd] in Hx.
    destruct (record_reset_tables ((start_next_period ((reset_account_usage (c_data c) a).2) a now il).2) a now) as (_ & Hs & _).
    destruct (start_next_period_tables ((reset_account_usage (c_data c) a).2) a now il) as (_ & Hs2 & _).
    destruct (reset_account_usage_tables (c_data c) a) as (Hs3 & _). by rewrite Hs, Hs2, Hs3 in Hx.
Qed.

Lemma advise_coherent c a now : coherent c → coherent (with_data c ((advise_period (c_data c) a now).2)).
Proof.
  intros Hc. apply same_tables_coherent; [done|apply advise_period_wf, (co_data c Hc)|..];
    unfold advise_period; repeat case_match; done.
Qed.

Lemma observe_coherent c : coherent c → coherent (with_data c (mark_observed (c_data c) (usage (c_data c)))).
Proof.
  intros Hc. apply coherent_with_data; [done| | | |].
  - apply mark_observed_wf, (co_data c Hc).
  - apply observe_rows_known, (co_rows c Hc).
  - apply observe_memory; [apply (co_data c Hc)|apply (co_memory c Hc)].
  - intros x Hx. left. destruct (mark_observed_tables (c_data c) (usage (c_data c))) as (Hs & _).
    by rewrite Hs in Hx.
Qed.

Lemma sim_calls_coherent env call c :
  match call with
  | CallSimCreate _ | CallSimInstall _ _ _ | CallSimEnable _ _ | CallSimDisable _ _
  | CallSimDelete _ _ | CallSimStatus _ _ => True
  | _ => False
  end → coherent c → coherent ((spec env call c).2).
Proof.
  intros Hcall Hc. destruct call; try done; cbn [spec].
  - unfold spec_sim_create. case_match; [|done].
    destruct (Sim.create _ _) as [r s] eqn:Hop. by eapply create_coherent.
  - unfold spec_sim_install. case_match; [|done].
    destruct (Sim.install _ _ _ _) as [r s] eqn:Hop. by eapply install_coherent.
  - unfold spec_sim_enable. case_match; [|done].
    destruct (gate_enable _ _ _) as [[]|] eqn:Hg; [|done]. case_match; [|done].
    destruct (Sim.enable _ _ _) as [r s] eqn:Hop.
    eapply (transition_coherent c slot profile Sim.Enable); [done..| |done].
    intros _. by apply gate_enable_Ok.
  - unfold spec_sim_disable. case_match; [|done].
    destruct (Sim.disable _ _ _) as [r s] eqn:Hop.
    assert (coherent (with_slots c s)) as Hcs by (by eapply (transition_coherent c slot profile Disable)).
    destruct r; [|done]. apply (drain_coherent (with_slots c s)), Hcs.
  - unfold spec_sim_delete. case_match; [|done]. case_match; [|done].
    destruct (Sim.delete _ _ _) as [[[]|e] s] eqn:Hop; [by apply delete_coherent|].
    apply op_failed in Hop as ->; [by apply coherent_slots_id|apply (co_slots c Hc)].
Qed.

Lemma mvno_calls_coherent env call c :
  match call with
  | CallMvnoBind _ _ _ | CallMvnoSuspend _ | CallMvnoReactivate _ => True
  | _ => False
  end → coherent c → coherent ((spec env call c).2).
Proof.
  intros Hcall Hc. destruct call; try done; cbn [spec].
  - unfold spec_mvno_bind. case_match; [|done]. case_match; [|done].
    destruct (mvno_bind _ _ _ _ _) as [r reg] eqn:Hop. by eapply mvno_bind_coherent.
  - unfold spec_mvno_suspend. case_match; [|done]. case_match; [|done].
    destruct (decide (active (c_registry c) account)) as [Ha|Ha].
    + pose proof (spec_suspend_Ok c account Hc Ha) as Hs.
      destruct (spec_suspend_account account c). by destruct Hs as (_ & _ & ?).
    + by rewrite spec_suspend_Err.
  - unfold spec_mvno_reactivate. case_match; [|done]. case_match; [|done].
    destruct (mvno_reactivate _ _) as [r reg] eqn:Hop. by eapply reactivate_coherent.
Qed.

Lemma data_calls_coherent env call c :
  match call with
  | CallDataAccount _ _ | CallSessionOpen _ _ _ | CallSessionClose _ _ _ | CallDataReconcile
  | CallDataReset _ _ | CallDataPeriod _ => True
  | _ => False
  end → coherent c → coherent ((spec env call c).2).
Proof.
  intros Hcall Hc. destruct call; try done; cbn [spec].
  - unfold spec_data_account. case_match; [|done].
    destruct (demo_entitlement account) as [e|] eqn:He; [|done].
    destruct (standing _ _) as [st|]; [|done]. destruct (usage_feed_refusal _ _); [done|].
    pose proof (feed_coherent c account bytes Hc (demo_entitlement_known _ _ He)) as Hf.
    by destruct (feed_usage _ _ _).
  - unfold spec_session_open. case_match; [|done].
    destruct (unpack_profile_roaming packed) as [[p r]|]; [|done].
    destruct (demo_entitlement account) as [e|] eqn:He; [|done].
    destruct (standing _ _) as [st|] eqn:Hst; [|done]. case_decide as Ho; [|done].
    destruct (profile_state _ _ _) as [state|]; [|done].
    pose proof (open_coherent c account slot p r e st state Hc He Hst Ho) as Hopen.
    by destruct (decide_and_open _ _ _ _ _ _ _ _).
  - unfold spec_session_close. case_match; [|done].
    destruct (unpack_profile_roaming arg) as [[p []]|]; [done| |done].
    by apply close_session_coherent.
  - unfold spec_data_reconcile. case_match; [|done].
    eapply coherent_same_data; [by apply observe_coherent|done..].
  - unfold spec_data_reset. destruct (reset_mode_from_arg mode) as [m|]; [|done]. case_match; [|done].
    destruct (demo_entitlement account); [|done]. destruct (standing _ _); [|done].
    destruct (reset_permitted_at _ _ _ _ _); [|done]. destruct (enforce _ _); [|done].
    by apply reset_coherent.
  - unfold spec_data_period. case_match; [|done].
    pose proof (advise_coherent c account (env_now env) Hc). by destruct (advise_period _ _ _).
Qed.

Lemma mail_calls_coherent env call c :
  match call with
  | CallRilAccess _ | CallRilSend _ _ | CallRilRecv _ | CallIpcSend _ _ | CallIpcRecv _
  | CallOther _ => True
  | _ => False
  end → coherent c → coherent ((spec env call c).2).
Proof.
  intros Hcall Hc. destruct call; try done; cbn [spec];
    unfold spec_ril_send, spec_ril_recv, spec_ipc_send, spec_ipc_recv;
    repeat case_match; cbn [snd]; try done; by eapply coherent_same_data.
Qed.

Lemma spec_coherent env call c : coherent c → coherent ((spec env call c).2).
Proof.
  destruct call; eauto using sim_calls_coherent, mvno_calls_coherent, data_calls_coherent, mail_calls_coherent.
Qed.
