(* ===== verification/Drift.v ===== *)
(** * What the reconciler can find in a running kernel

    The snapshot taken of a coherent state, and why most kinds of drift cannot
    appear in it. *)

From S2P Require Import Prelude Groups Text Account Sim Policy Period Reconcile DataState Worm.
From S2P Require Import AuditChain Marshal Capability DataCodes Channel Mvno Svc SvcLogic SvcSpec Coherence.

(** ** Unique keys have one copy *)

Lemma copies_NoDup {K T} `{EqDecision K} (items : list T) (key : T → K) k :
  NoDup (key <$> items) → Groups.copies items key k ≤ 1.
Proof.
  intros Hnd. unfold Groups.copies. induction items as [|x l IH]; [cbn; lia|].
  cbn in Hnd. apply NoDup_cons in Hnd as [Hni Hnd]. rewrite filter_cons. case_decide as Hk; [|auto].
  enough (filter (λ t, key t = k) l = []) as -> by (cbn; lia).
  apply filter_nil_iff, Forall_forall. intros y Hy Hyk. apply Hni.
  apply list_elem_of_fmap. exists y. split; [congruence|done].
Qed.

(** ** The profile rows *)

Definition row_key (r : ProfileRow) : N * N := (row_slot r, row_profile r).

Lemma profiles_Ok slots i ps :
  profiles slots i = Ok ps ↔ ∃ s, slots !! N.to_nat i = Some s ∧ ps = slot_profiles s.
Proof. unfold profiles. destruct (slots !! N.to_nat i); cbn; naive_solver. Qed.

Lemma elem_of_slot_rows reg i ps r :
  r ∈ slot_rows reg i ps ↔
  ∃ p, p ∈ ps ∧ r = mkRow i (prof_id p) (prof_state p) (mvno_owner_of reg i (prof_id p)).
Proof. unfold slot_rows. rewrite list_elem_of_fmap. naive_solver. Qed.

Lemma elem_of_scan reg slots fuel i r :
  r ∈ scan_slots reg slots fuel i ↔
  ∃ j s, (i ≤ j < i + N.of_nat fuel)%N ∧ slots !! N.to_nat j = Some s ∧
         r ∈ slot_rows reg j (slot_profiles s).
Proof.
  revert i. induction fuel as [|fuel IH]; intros i; cbn [scan_slots].
  - split; [by intros ?%not_elem_of_nil|]. intros (j & s & ? & _). lia.
  - unfold profiles. destruct (slots !! N.to_nat i) as [s0|] eqn:Hs0; cbn.
    + rewrite elem_of_app, IH. split.
      * intros [Hr|(j & s & Hj & Hs & Hr)]; [exists i, s0; split_and!; [lia|lia|done|done]|].
        exists j, s. split_and!; [lia|lia|done|done].
      * intros (j & s & Hj & Hs & Hr). destruct (decide (j = i)) as [->|Hne].
        -- left. congruence.
        -- right. exists j, s. split_and!; [lia|lia|done|done].
    + split; [by intros ?%not_elem_of_nil|]. intros (j & s & Hj & Hs & _).
      apply lookup_lt_Some in Hs. apply lookup_ge_None in Hs0. lia.
Qed.

Lemma slot_rows_NoDup reg i s : wf_slot s → NoDup (row_key <$> slot_rows reg i (slot_profiles s)).
Proof.
  intros Hs. unfold slot_rows. rewrite <-list_fmap_compose. apply NoDup_alt. intros a b x Ha Hb.
  apply list_lookup_fmap_Some in Ha as (p & -> & Hp). apply list_lookup_fmap_Some in Hb as (q & Heq & Hq).
  apply (slot_ids s Hs) in Hp, Hq. cbn in Heq. injection Heq as Heq. rewrite Hp, Hq in Heq. lia.
Qed.

Lemma scan_NoDup reg slots fuel i : Sim.wf slots → NoDup (row_key <$> scan_slots reg slots fuel i).
Proof.
  intros Hwf. revert i. induction fuel as [|fuel IH]; intros i; cbn [scan_slots]; [constructor|].
  unfold profiles. destruct (slots !! N.to_nat i) as [s0|] eqn:Hs0; cbn; [|constructor].
  rewrite fmap_app. apply NoDup_app. split_and!; [apply slot_rows_NoDup; by eapply wf_lookup| |apply IH].
  intros x Hx Hx'. apply list_elem_of_fmap in Hx as (r & -> & (p & _ & ->)%elem_of_slot_rows).
  apply list_elem_of_fmap in Hx' as (r' & Heq & (j & s & Hj & _ & (q & _ & ->)%elem_of_slot_rows)%elem_of_scan).
  cbn in Heq. injection Heq as ? ?. lia.
Qed.

Lemma scan_length reg slots fuel i :
  Sim.wf slots → length (scan_slots reg slots fuel i) ≤ 4 * (length slots - N.to_nat i).
Proof.
  intros Hwf. revert i. induction fuel as [|fuel IH]; intros i; cbn [scan_slots length]; [lia|].
  unfold profiles. destruct (slots !! N.to_nat i) as [s0|] eqn:Hs0; cbn; [|lia].
  rewrite length_app. unfold slot_rows. rewrite length_fmap.
  pose proof (slot_len s0 (wf_lookup _ _ _ Hwf Hs0)) as Hl. unfold MAX_PROFILES_PER_SLOT in Hl.
  apply lookup_lt_Some in Hs0. specialize (IH (i + 1)%N). lia.
Qed.

(** The rows are exactly the profiles, each with its state and owner. *)
Lemma elem_of_rows reg slots r :
  Sim.wf slots → length slots = SLOT_COUNT →
  r ∈ scan_slots reg slots MAX_SLOT_SCAN 0 ↔
  ∃ k st, state_of slots k = Some st ∧ r = mkRow (key_slot k) (key_profile k) st (owner_of reg k).
Proof.
  intros Hwf Hlen. rewrite elem_of_scan. split.
  - intros (j & s & _ & Hs & (p & Hp & ->)%elem_of_slot_rows).
    apply list_elem_of_lookup in Hp as (n & Hn). pose proof (slot_ids s (wf_lookup _ _ _ Hwf Hs) n p Hn) as Hid.
    exists (mkKey j (prof_id p)), (prof_state p). split; [|done].
    unfold state_of, lookup_profile. cbn [key_slot key_profile]. rewrite Hs. cbn [mbind option_bind].
    by rewrite Hid, Nat2N.id, Hn.
  - intros ([j i] & st & Hst & ->). unfold state_of, lookup_profile in Hst. cbn [key_slot key_profile] in *.
    apply fmap_Some in Hst as (p & Hp & ->). apply bind_Some in Hp as (s & Hs & Hp).
    exists j, s. split_and!; [lia| |done|].
    + apply lookup_lt_Some in Hs. rewrite Hlen in Hs. unfold SLOT_COUNT, MAX_SLOT_SCAN in *. lia.
    + apply elem_of_slot_rows. exists p. split; [by eapply list_elem_of_lookup_2|].
      rewrite (slot_ids s (wf_lookup _ _ _ Hwf Hs) _ p Hp), N2Nat.id. done.
Qed.

(** ** The snapshot of a coherent state *)

Section coherent_snapshot.
Context (c : Core) (Hc : coherent c).

Let reg := c_registry c.
Let slots := c_slots c.
Let o := (snapshot_for_reconcile reg slots (c_data c)).1.

Lemma snapshot_profiles p :
  p ∈ obs_profiles o ↔
  ∃ k st, state_of slots k = Some st ∧
    p = mkObsProfile (key_slot k) (key_profile k) (lifecycle_for_reconcile st) (owner_of reg k).
Proof.
  change (obs_profiles o) with (observe_profile <$> scan_slots reg slots MAX_SLOT_SCAN 0).
  rewrite list_elem_of_fmap. split.
  - intros (r & -> & (k & st & Hst & ->)%elem_of_rows); [|apply (co_slots c Hc)|apply (co_slot_count c Hc)].
    exists k, st. done.
  - intros (k & st & Hst & ->). exists (mkRow (key_slot k) (key_profile k) st (owner_of reg k)).
    split; [done|]. apply elem_of_rows; [apply (co_slots c Hc)|apply (co_slot_count c Hc)|]. eauto.
Qed.

Lemma snapshot_profile_keys k : Groups.copies (obs_profiles o) prof_key k ≤ 1.
Proof.
  apply copies_NoDup.
  change (obs_profiles o) with (observe_profile <$> scan_slots reg slots MAX_SLOT_SCAN 0).
  rewrite <-list_fmap_compose. apply scan_NoDup, (co_slots c Hc).
Qed.

Lemma snapshot_accounts a :
  a ∈ obs_accounts o → standing_for_reconcile <$> standing reg (oa_id a) = Some (oa_standing a) ∧
  oa_data_cap_bytes a = (e ← demo_entitlement (oa_id a); cap_bytes e) ∧
  oa_escalate_at_percent a = escalate_at_percent <$> demo_entitlement (oa_id a) ∧
  oa_used_bytes a = used_bytes (usage_of (c_data c) (oa_id a)) ∧
  oa_last_used_bytes a =
    (u ← iter_find (λ u, ue_account u = oa_id a) (usage (c_data c)); ue_last_used u).
Proof.
  change (obs_accounts o) with (observe_account (usage (c_data c)) demo_entitlement <$> mvno_accounts reg).
  intros ([id st] & -> & Hin)%list_elem_of_fmap. apply list_elem_of_fmap in Hin as (acct & [= -> ->] & Hin).
  cbn [observe_account oa_id oa_standing oa_data_cap_bytes oa_escalate_at_percent oa_used_bytes oa_last_used_bytes].
  split_and!; [|done|done| |done].
  - apply list_elem_of_lookup in Hin as (n & Hn). unfold accounts in Hn.
    rewrite (wf_ids _ (co_registry c Hc) n acct Hn). unfold standing.
    rewrite account_lookup, Nat2N.id by apply (co_registry c Hc). by rewrite Hn.
  - unfold usage_of. by destruct (iter_find _ (usage (c_data c))).
Qed.

Lemma snapshot_account_keys id : Groups.copies (obs_accounts o) oa_id id ≤ 1.
Proof.
  apply copies_NoDup.
  change (obs_accounts o) with (observe_account (usage (c_data c)) demo_entitlement <$> mvno_accounts reg).
  unfold mvno_accounts. rewrite <-!list_fmap_compose. apply NoDup_alt. intros i j x Hi Hj.
  apply list_lookup_fmap_Some in Hi as (a & -> & Ha). apply list_lookup_fmap_Some in Hj as (b & Heq & Hb).
  apply (wf_ids _ (co_registry c Hc)) in Ha, Hb. cbn in Heq. rewrite Ha, Hb in Heq. lia.
Qed.

Lemma snapshot_owner k w : owner_of reg k = Some w → ∃ a, a ∈ obs_accounts o ∧ oa_id a = w.
Proof.
  intros Ho. apply owner_of_Some in Ho; [|apply (co_registry c Hc)].
  apply (wf_owners _ (co_registry c Hc)) in Ho. unfold len in Ho.
  destruct (lookup_lt_is_Some_2 (reg_accounts reg) (N.to_nat w)) as [a Ha]; [subst reg; lia|].
  exists (observe_account (usage (c_data c)) demo_entitlement (acct_id a, acct_status a)).
  split; [|cbn; rewrite (wf_ids _ (co_registry c Hc) _ a Ha); lia].
  change (obs_accounts o) with (observe_account (usage (c_data c)) demo_entitlement <$> mvno_accounts reg).
  apply list_elem_of_fmap_2, list_elem_of_fmap. exists a. split; [done|]. by eapply list_elem_of_lookup_2.
Qed.

Lemma snapshot_sessions s :
  s ∈ obs_sessions o ↔ ∃ x, x ∈ sessions (c_data c) ∧ s = observe_session demo_entitlement x.
Proof.
  change (obs_sessions o) with (observe_session demo_entitlement <$> sessions (c_data c)).
  rewrite list_elem_of_fmap. split; intros (x & H1 & H2); by exists x.
Qed.

Lemma snapshot_widths : widths o.
Proof.
  constructor.
  - intros a (_ & _ & _ & -> & _)%snapshot_accounts. apply usage_of_u64, (co_data c Hc).
  - intros a cap (_ & -> & _)%snapshot_accounts. intros (e & He & Hcap)%bind_Some.
    by apply (valid_cap e (demo_entitlement_valid _ _ He)).
  - intros a p (_ & _ & -> & _)%snapshot_accounts. intros (e & He & ->)%fmap_Some.
    pose proof (valid_escalate e (demo_entitlement_valid _ _ He)) as Hv.
    unfold MAX_ESCALATE_PERCENT, u16_max in *. lia.
Qed.

Lemma snapshot_bounds : within_bounds o.
Proof.
  split_and!.
  - change (obs_accounts o) with (observe_account (usage (c_data c)) demo_entitlement <$> mvno_accounts reg).
    unfold mvno_accounts. rewrite !length_fmap. pose proof (wf_len _ (co_registry c Hc)) as Hl.
    unfold Account.MAX_ACCOUNTS, Reconcile.MAX_ACCOUNTS, accounts in *. subst reg. lia.
  - change (obs_profiles o) with (observe_profile <$> scan_slots reg slots MAX_SLOT_SCAN 0).
    rewrite length_fmap. pose proof (scan_length reg slots MAX_SLOT_SCAN 0 (co_slots c Hc)) as Hl.
    pose proof (co_slot_count c Hc) as Hn. unfold SLOT_COUNT in Hn. unfold MAX_PROFILES. subst slots. lia.
  - change (obs_sessions o) with (observe_session demo_entitlement <$> sessions (c_data c)).
    rewrite length_fmap. pose proof (wf_session_len _ (co_data c Hc)) as Hl.
    unfold MAX_DATA_SESSIONS, MAX_SESSIONS in *. lia.
Qed.

(** The three kinds of drift a running kernel can still show: both are about
    usage nobody has acted on yet, or about a session on a profile another
    enable has demoted. *)
Definition possible_kind (i : Reconcile.Incident) : Prop :=
  kind i = UsageOverCapNotRestricted ∨ kind i = AnomalousUsageNoEscalation ∨
  (kind i = SessionWithoutEnabledProfile ∧ observed i ≠ Absent).

Lemma lifecycle_for_reconcile_enabled st :
  lifecycle_for_reconcile st = Reconcile.Enabled ↔ st = Sim.Enabled.
Proof. by destruct st. Qed.

Lemma standing_for_reconcile_active st :
  standing_for_reconcile st = Reconcile.Active ↔ st = Account.Active.
Proof. by destruct st. Qed.

Lemma one_enabled slot : (enabled_in o slot ≤ 1)%N.
Proof.
  unfold enabled_in, len. enough (length (filter (λ p, Groups.copies (obs_profiles o) prof_key (prof_key p) = 1 ∧
    obp_slot p = slot ∧ obp_lifecycle p = Reconcile.Enabled) (obs_profiles o)) ≤ 1) by lia.
  set (l := filter _ _). assert (NoDup l) as Hnd.
  { apply (NoDup_filter_copies _ prof_key). intros. apply snapshot_profile_keys. }
  assert (∀ p q, p ∈ l → q ∈ l → p = q) as Huniq.
  { intros p q [(_ & Hps & Hpe) Hp]%list_elem_of_filter [(_ & Hqs & Hqe) Hq]%list_elem_of_filter.
    apply snapshot_profiles in Hp as ([s i] & st & Hst & ->).
    apply snapshot_profiles in Hq as ([s' j] & st' & Hst' & ->). cbn [obp_slot obp_lifecycle key_slot key_profile] in *.
    subst s s'. apply lifecycle_for_reconcile_enabled in Hpe, Hqe. subst st st'.
    enough (i = j) as -> by done. unfold state_of, lookup_profile in Hst, Hst'. cbn [key_slot key_profile] in *.
    destruct (slots !! N.to_nat slot) as [sl|] eqn:Hsl; [|done]. cbn [mbind option_bind] in *.
    apply fmap_Some in Hst as (a & Ha & Ea). apply fmap_Some in Hst' as (b & Hb & Eb).
    pose proof (slot_one_enabled sl (wf_lookup _ _ _ (co_slots c Hc) Hsl) _ _ _ _ Ha Hb) as Hone.
    specialize (Hone ltac:(congruence) ltac:(congruence)). lia. }
  clearbody l. destruct l as [|x [|y l]]; [cbn; lia..|]. exfalso.
  apply NoDup_cons in Hnd as [Hni _]. apply Hni. rewrite (Huniq x y); [by left|by left|by right; left].
Qed.

Lemma enabled_owner p :
  p ∈ obs_profiles o → obp_lifecycle p = Reconcile.Enabled →
  ∃ w, obp_owner p = Some w ∧ active reg w.
Proof.
  intros (k & st & Hst & ->)%snapshot_profiles He. cbn in He |- *.
  apply lifecycle_for_reconcile_enabled in He as ->. apply (co_enabled c Hc k Hst).
Qed.

Lemma session_profile s :
  s ∈ obs_sessions o →
  ∃ k st, prof_key (mkObsProfile (key_slot k) (key_profile k) (lifecycle_for_reconcile st) (owner_of reg k)) =
          (os_slot s, os_profile s) ∧ state_of slots k = Some st ∧
          owner_of reg k = Some (os_account s) ∧ (os_roaming s = true → os_roaming_allowed s = true).
Proof.
  intros (x & Hx & ->)%snapshot_sessions.
  destruct (co_sessions c Hc x Hx) as (Ho & _ & e & He & Hroam).
  destruct (co_bound c Hc _ _ Ho) as (st & Hst & _).
  exists (mkKey (ds_slot x) (ds_profile x)), st. split_and!; [done..|]. cbn. rewrite He. done.
Qed.

Lemma drift_possible i : i ∈ reconcile o → possible_kind i.
Proof.
  rewrite reconcile_drift by (apply snapshot_widths || apply snapshot_bounds).
  unfold possible_kind. destruct 1 as [a Ha Hn|p Hp Hn|p Hp He Hno|p w Hp Ho Hno|p a Hp He Ho Ha Hst
    |slot Hn|a l Ha Hl Hlt|a cap s Ha|a cap pct Ha|s Hs Hno|s p Hs Hp Hk Hne|s p Hs Hp Hk Hne|s Hs Hr Hno];
    cbn [kind observed]; try tauto; try (by right; right); exfalso.
  - pose proof (snapshot_account_keys (oa_id a)). lia.
  - pose proof (snapshot_profile_keys (prof_key p)). lia.
  - destruct Hp as [Hp _]. destruct (enabled_owner p Hp He) as (w & Hw & _). congruence.
  - destruct Hp as [Hp _]. apply snapshot_profiles in Hp as (k & st & Hst & ->). cbn in Ho.
    destruct (snapshot_owner k w Ho) as (a & Ha & Hid). by apply (Hno a).
  - destruct Hp as [Hp _], Ha as [Ha _]. destruct (enabled_owner p Hp He) as (w & Hw & Hact).
    rewrite Ho in Hw. injection Hw as <-.
    apply snapshot_accounts in Ha as (Hs & _). unfold active in Hact. fold reg in Hs. rewrite Hact in Hs.
    cbn in Hs. injection Hs as Hs. congruence.
  - pose proof (one_enabled slot). lia.
  - destruct Ha as [Ha _]. apply snapshot_accounts in Ha as (_ & _ & _ & Hu & Hlast).
    rewrite Hlast in Hl. apply bind_Some in Hl as (u & Hu' & Hl).
    unfold usage_of in Hu. rewrite Hu' in Hu. cbn in Hu.
    apply (iter_find_Some_1 (λ u, ue_account u = oa_id a)) in Hu' as [Hin _].
    pose proof (co_memory c Hc u l Hin Hl). lia.
  - destruct (session_profile s Hs) as (k & st & Hk & Hst & _). apply (Hno _) in Hk; [done|].
    apply snapshot_profiles. eauto.
  - destruct (session_profile s Hs) as (k & st & Hk' & Hst & Ho & _). destruct Hp as [Hp _].
    apply snapshot_profiles in Hp as (k' & st' & Hst' & ->). apply Hne. cbn [obp_owner].
    enough (k' = k) as -> by done. destruct k as [ks kp], k' as [ks' kp']. clear -Hk Hk'.
    unfold prof_key in Hk, Hk'. cbn [obp_slot obp_profile key_slot key_profile] in Hk, Hk'. congruence.
  - destruct (session_profile s Hs) as (k & st & _ & _ & _ & Hroam). specialize (Hroam Hr). congruence.
Qed.
End coherent_snapshot.
