(* ===== verification/System.v ===== *)
(** * The kernel as a whole

    Boot, runs of syscalls, and the properties that hold of every state a run can
    reach. *)

From S2P Require Import Prelude Text Account Sim Policy Period Reconcile DataState Worm AuditChain.
From S2P Require Import Marshal Capability DataCodes Channel Mvno Svc SvcLogic SvcSpec Coherence Drift.

(** ** Boot and runs *)

(** The accounts opened at boot. *)
Definition boot_registry : AccountRegistry :=
  let reg := (open_demo_account Account.new).2 in
  let reg := (open_second_demo_account reg).2 in
  (open_third_demo_account reg).2.

Definition boot_period (account freq : N) (d : DataState) : DataState :=
  match demo_period account freq with
  | Some p => (set_period d account p).2
  | None => d
  end.

(** The state the first syscall runs in, at a timer of [freq] Hz. *)
Definition boot (freq : N) : Kernel :=
  mkKernel boot_registry SLOTS
    (boot_period 1 freq (boot_period 0 freq DataState.new)) CHANNELS CHANNELS None memory_new.

(** A system call, with what it reads from outside. *)
Record Trap := mkTrap {
  t_env : Env;
  t_num : N;
  t_arg1 : N;
  t_arg2 : N;
  t_arg3 : N;
}.

Definition t_call (t : Trap) : Call := decode (t_num t) (t_arg1 t) (t_arg2 t) (t_arg3 t).

Section system.
Context `{Sha256}.

Definition trap (k : Kernel) (t : Trap) : N * Kernel :=
  dispatch (t_env t) (t_num t) (t_arg1 t) (t_arg2 t) (t_arg3 t) k.

Definition run (k : Kernel) (ts : list Trap) : Kernel := foldl (λ k t, (trap k t).2) k ts.

Lemma boot_period_wf account freq d : DataState.wf d → DataState.wf (boot_period account freq d).
Proof.
  intros Hd. unfold boot_period, demo_period.
  repeat case_decide; [..|done]; unfold period_new; case_decide; try done;
    (apply set_period_wf; [cbn; lia|done]).
Qed.

Lemma boot_period_tables account freq d :
  usage (boot_period account freq d) = usage d ∧ sessions (boot_period account freq d) = sessions d.
Proof.
  unfold boot_period. destruct (demo_period account freq) as [p|]; [|done].
  by destruct (set_period_tables d account p) as (-> & -> & _).
Qed.

Lemma boot_coherent freq : coherent (core (boot freq)).
Proof.
  destruct (boot_period_tables 0 freq DataState.new) as [Hu0 Hs0].
  destruct (boot_period_tables 1 freq (boot_period 0 freq DataState.new)) as [Hu1 Hs1].
  constructor; cbn [core boot c_registry c_slots c_data k_registry k_slots k_data].
  - exact (apply_open_wf _ _ _ (apply_open_wf _ _ _ (apply_open_wf _ _ _ Account.wf_new))).
  - apply wf_SLOTS.
  - done.
  - by apply boot_period_wf, boot_period_wf, data_wf_new.
  - unfold rows_known. by rewrite Hu1, Hu0.
  - intros e l. rewrite Hu1, Hu0. by intros ?%not_elem_of_nil.
  - intros k o. done.
  - intros k. unfold state_of, lookup_profile. intros (p & Hp & _)%fmap_Some.
    apply bind_Some in Hp as (s & Hs & Hp). apply list_elem_of_lookup_2 in Hs.
    unfold SLOTS in Hs. by apply elem_of_replicate in Hs as [-> _].
  - intros x. rewrite Hs1, Hs0. by intros ?%not_elem_of_nil.
Qed.

(** ** Reachable states *)

Lemma run_snoc k ts t : run k (ts ++ [t]) = (trap (run k ts) t).2.
Proof. unfold run. by rewrite foldl_snoc. Qed.

Lemma run_app k ts ts' : run k (ts ++ ts') = run (run k ts) ts'.
Proof. apply foldl_app. Qed.

Lemma trap_refines k t :
  audit_ok (k_worm k) →
  (trap k t).1 = (spec (t_env t) (t_call t) (core k)).1 ∧
  core ((trap k t).2) = (spec (t_env t) (t_call t) (core k)).2 ∧
  continues (k_worm k) (k_worm ((trap k t).2)).
Proof.
  intros Hok. pose proof (dispatch_refines_aux (t_env t) (t_num t) (t_arg1 t) (t_arg2 t) (t_arg3 t) k Hok) as Hd.
  unfold trap, t_call. destruct (dispatch _ _ _ _ _ k) as [r k']. destruct Hd as [Heq Hc].
  cbn [fst snd]. by rewrite <-Heq.
Qed.

Lemma run_invariant k ts :
  coherent (core k) → audit_ok (k_worm k) →
  coherent (core (run k ts)) ∧ continues (k_worm k) (k_worm (run k ts)).
Proof.
  intros Hc Hok. induction ts as [|t ts IH] using rev_ind; [split; [done|by apply continues_refl]|].
  destruct IH as [Hc' Hcont]. rewrite run_snoc.
  destruct (trap_refines (run k ts) t (proj1 Hcont)) as (_ & Hcore & Hcont').
  split; [rewrite Hcore; by apply spec_coherent|by eapply continues_trans].
Qed.

Lemma reachable freq ts :
  coherent (core (run (boot freq) ts)) ∧ audit_ok (k_worm (run (boot freq) ts)).
Proof.
  destruct (run_invariant (boot freq) ts (boot_coherent freq) I) as [Hc [Ho _]]. done.
Qed.

(** C1. The coupling invariant of the kernel: in every state a run of syscalls
    from boot can reach, whatever the arguments, capabilities, governance
    verdicts and clock readings, every Enabled profile is bound to an Active
    account, at most one profile of a slot is Enabled, every bound profile
    exists and is not Deleted, every open data session is on a profile bound to
    its own Active account under a plan that allows it, and all tables are
    within their bounds. *)
Theorem kernel_invariant freq ts : coherent (core (run (boot freq) ts)).
Proof. apply reachable. Qed.

(** C4. The syscall dispatcher refines its specification in every reachable
    state: the code it returns and the state it leaves (accounts, profiles,
    data tables, mailboxes, reconciler memory) are exactly the specified ones,
    so auditing never influences an outcome, and the audit chain is only
    appended to. *)
Theorem dispatch_refines freq ts t :
  let k := run (boot freq) ts in
  let '(code, k') := trap k t in
  (code, core k') = spec (t_env t) (t_call t) (core k) ∧
  entries (k_worm k) `prefix_of` entries (k_worm k').
Proof.
  cbn zeta. destruct (trap_refines (run (boot freq) ts) t) as (Hr & Hc & Hcont); [apply reachable|].
  destruct (trap (run (boot freq) ts) t) as [code k']. cbn [fst snd] in *.
  split; [|apply Hcont]. rewrite Hr, Hc. by destruct (spec _ _ _).
Qed.

(** C35. The audit chain of the running kernel: after any run of syscalls the
    chain verifies with its books balanced, holds at most 456 entries however
    many calls were made, and continues the chain of every earlier state. *)
Theorem kernel_audit_sound freq ts ts' :
  let k := run (boot freq) ts in
  let k' := run (boot freq) (ts ++ ts') in
  (∀ a, k_worm k' = Some a → AuditChain.verify a = true ∧ length (log a) ≤ 456) ∧
  entries (k_worm k) `prefix_of` entries (k_worm k').
Proof.
  cbn zeta. rewrite run_app. destruct (reachable freq ts) as [Hc Hok].
  destruct (run_invariant (run (boot freq) ts) ts' Hc Hok) as [_ [Hok' Hpre]]. split; [|done].
  intros a Ha. rewrite Ha in Hok'. destruct Hok' as [Hb Hs].
  split; [by apply books_verify|by apply (books_capacity a Hb)].
Qed.
End system.

(** ** Mediation *)

(** The capabilities a call must present, all of them, before it can change
    anything. *)
Definition required (call : Call) : list Resource :=
  match call with
  | CallRilAccess ch | CallRilSend ch _ | CallRilRecv ch => [RRil ch]
  | CallIpcSend ch _ | CallIpcRecv ch => [RIpc ch]
  | CallSimCreate s => [RSim s]
  | CallSimInstall s p _ | CallSimEnable s p | CallSimDisable s p | CallSimStatus s p => [RSimProfile s p]
  | CallSimDelete s p => [RSimDelete s p]
  | CallMvnoBind a s p => [RMvnoAccount a; RSimProfile s p]
  | CallMvnoSuspend a => [RMvnoSuspend a]
  | CallMvnoReactivate a => [RMvnoAccount a]
  | CallDataAccount a _ => [RDataUsage a]
  | CallSessionOpen a _ _ | CallSessionClose a _ _ | CallDataPeriod a => [RDataSession a]
  | CallDataReconcile => [RDataReconcile]
  | CallDataReset a m =>
      match reset_mode_from_arg m with
      | Some NormalReset => [RDataReset a]
      | Some EarlyReset => [RDataResetEarly a]
      | None => []
      end
  | CallOther _ => []
  end.

(** The action MARSHAL must let through, for the consequential calls. *)
Definition governed (call : Call) : option MarshalAction :=
  match call with
  | CallSimEnable s p => Some (Esim "enable" s p)
  | CallSimDelete s p => Some (Esim "delete" s p)
  | CallMvnoBind a s p => Some (MvnoBind a s p)
  | CallMvnoSuspend a => Some (MvnoSuspend a)
  | CallMvnoReactivate a => Some (MvnoReactivate a)
  | CallDataReset a _ => Some (DataResetUsage a)
  | _ => None
  end.

(** A guard whose failure leaves the state alone must have held. *)
Ltac held_guard Hch :=
  match type of Hch with
  | (if ?g then _ else _).2 ≠ _ => destruct g eqn:?; [|by destruct Hch]
  | (match ?g with Ok _ => _ | Err _ => _ end).2 ≠ _ => destruct g eqn:?; [|by destruct Hch]
  | (match ?g with Some _ => _ | None => _ end).2 ≠ _ => destruct g eqn:?; [|by destruct Hch]
  end.

Ltac mediated Hch :=
  repeat held_guard Hch; rewrite ?andb_true_iff in *;
  split_and!; [done|repeat constructor; cbn [resource_string]; tauto|by intros act [= <-]].

Lemma spec_mediated env call c :
  (spec env call c).2 ≠ c →
  required call ≠ [] ∧ Forall (λ r, allows env (resource_string r) = true) (required call) ∧
  ∀ act, governed call = Some act → passes env act = true.
Proof.
  intros Hch. destruct call; cbn [spec required governed] in *; try (by destruct Hch).
  all: try (unfold spec_ril_send, spec_ril_recv, spec_ipc_send, spec_ipc_recv, spec_sim_create,
    spec_sim_install, spec_sim_enable, spec_sim_disable, spec_sim_delete, spec_mvno_bind,
    spec_mvno_suspend, spec_mvno_reactivate, spec_data_account, spec_session_open,
    spec_session_close, spec_data_reconcile, spec_data_period in Hch; mediated Hch).
  unfold spec_data_reset in Hch. repeat held_guard Hch. unfold passes.
  split_and!; [by destruct r|by destruct r; repeat constructor|]. intros act [= <-].
  match goal with Hg : enforce _ _ = Ok _ |- _ => by rewrite Hg end.
Qed.

Section mediation.
Context `{Sha256}.

(** C2. Complete mediation: if a syscall in a reachable state changes anything
    (accounts, profiles, data tables, mailboxes or the reconciler's memory),
    then it is a call with a capability requirement, every capability it
    requires was granted at this call, and, for the consequential calls (enable,
    delete, bind, suspend, reactivate, reset), the governance verdict let it
    through. Without that the call changes nothing but the audit chain. *)
Theorem complete_mediation freq ts t :
  let k := run (boot freq) ts in
  core ((trap k t).2) ≠ core k →
  required (t_call t) ≠ [] ∧
  Forall (λ r, allows (t_env t) (resource_string r) = true) (required (t_call t)) ∧
  ∀ act, governed (t_call t) = Some act → passes (t_env t) act = true.
Proof.
  cbn zeta. destruct (trap_refines (run (boot freq) ts) t) as (_ & -> & _); [apply reachable|].
  apply spec_mediated.
Qed.
End mediation.
