(* ===== verification/Scenario.v ===== *)
(** * Concrete runs

    An environment that grants and allows everything, and a run in which two
    profiles of one slot are created, installed and bound to account 0. *)

From S2P Require Import Prelude Text Account Sim Policy Period Reconcile DataState Worm AuditChain.
From S2P Require Import Marshal Capability DataCodes Channel Mvno Svc SvcLogic SvcSpec Coherence System.

(** The timer frequency of the board, in Hz. *)
Definition demo_freq : N := 62500000.

(** Every capability is held, MARSHAL says Execute, the clock reads [now]. *)
Definition open_env (now : N) : Env := mkEnv (λ _, Ok ()) (λ _, Remote Execute) now now demo_freq.

Definition call (num arg1 arg2 arg3 : N) : Trap := mkTrap (open_env 1000) num arg1 arg2 arg3.

(** Profiles 0 and 1 of slot 0 installed and bound to account 0. *)
Definition provision : list Trap :=
  [call SYS_SIM_CREATE 0 0 0; call SYS_SIM_INSTALL 0 0 0;
   call SYS_SIM_CREATE 0 0 0; call SYS_SIM_INSTALL 0 1 1;
   call SYS_MVNO_BIND 0 0 0; call SYS_MVNO_BIND 0 0 1].

(** Then profile 0 enabled, and a session opened on it. *)
Definition online : list Trap :=
  provision ++ [call SYS_SIM_ENABLE 0 0 0; call SYS_DATA_SESSION_OPEN 0 0 0].

(** The abstract state after a run. *)
Definition spec_run (c : Core) (ts : list Trap) : Core :=
  foldl (λ c t, (spec (t_env t) (t_call t) c).2) c ts.

Section scenario.
Context `{Sha256}.

Lemma run_spec freq ts : core (run (boot freq) ts) = spec_run (core (boot freq)) ts.
Proof.
  induction ts as [|t ts IH] using rev_ind; [done|]. rewrite run_snoc.
  unfold spec_run in *. rewrite foldl_snoc, <-IH.
  by destruct (trap_refines (run (boot freq) ts) t) as (_ & -> & _); [apply reachable|].
Qed.

Lemma k_data_core k : k_data k = c_data (core k).
Proof. reflexivity. Qed.
Lemma k_slots_core k : k_slots k = c_slots (core k).
Proof. reflexivity. Qed.
Lemma k_registry_core k : k_registry k = c_registry (core k).
Proof. reflexivity. Qed.

(** Switching profiles leaves a session behind: after a run in which a
    session is opened on profile 0 and then profile 1 of the same slot is
    enabled, profile 0 is Disabled while its session is still open; the session
    outlives the Enabled profile it was admitted on until the reconciler
    reports it. *)
Theorem enable_strands_session :
  let k := run (boot demo_freq) (online ++ [call SYS_SIM_ENABLE 0 1 0]) in
  session_of (k_data k) 0 0 0 = Some (mkSession 0 0 0 false) ∧
  state_of (k_slots k) (mkKey 0 0) = Some Sim.Disabled ∧
  state_of (k_slots k) (mkKey 0 1) = Some Sim.Enabled ∧
  kind <$> (findings (open_env 1000) (core k)).1 = [SessionWithoutEnabledProfile].
Proof.
  cbn zeta. rewrite k_data_core, k_slots_core, run_spec. split_and!; vm_compute; reflexivity.
Qed.
End scenario.
