(* ===== verification/Behaviour.v ===== *)
(** * What the syscalls do, end to end

    Theorems about one syscall taken in any reachable state, with the concrete
    runs that exercise them. *)

From S2P Require Import Prelude Text Account Sim Policy Period Reconcile DataState Worm AuditChain.
From S2P Require Import Marshal Capability DataCodes Channel Mvno Svc SvcLogic SvcSpec Coherence Drift.
From S2P Require Import System Scenario.

(** ** Admission of a session *)

Lemma evaluate_session_admits st lc e u net :
  (∀ why, evaluate_session (mkRequest st lc e u net) ≠ Deny why) ↔
  st = Policy.Active ∧ lc = Policy.Enabled ∧ (net = Roaming → roaming_data_allowed e = true) ∧
  severity (band (evaluate_usage e u)) < 2.
Proof.
  split.
  - intros Hn. destruct (evaluate_session_allows st lc e u net Hn) as (-> & -> & Hr).
    split_and!; [done..|]. unfold evaluate_session in Hn. cbn [req_standing req_lifecycle req_entitlement req_usage req_network] in Hn.
    rewrite decide_False in Hn by (intros Hx; by apply Hx).
    rewrite decide_False in Hn by (intros [Hx Hy]; specialize (Hr Hx); congruence).
    destruct (band _); cbn; try lia; by destruct (Hn CapExceeded).
  - intros (-> & -> & Hr & Hs) why. unfold evaluate_session.
    cbn [req_standing req_lifecycle req_entitlement req_usage req_network].
    rewrite decide_False by (intros Hx; by apply Hx).
    rewrite decide_False by (intros [Hx Hy]; specialize (Hr Hx); congruence).
    destruct (band _); cbn in Hs; [done|done|lia|lia].
Qed.

Lemma record_session_full d s :
  (record_session d s).1 = RecTableFull ↔
  session_of d (ds_account s) (ds_slot s) (ds_profile s) = None ∧
  ¬ length (sessions d) < MAX_DATA_SESSIONS.
Proof.
  unfold record_session, session_of. destruct (iter_find _ (sessions d)); [split; [done|by intros [? _]]|].
  case_decide; cbn; split; try done; intros; [split; [done|lia]|lia].
Qed.

Lemma record_decide_decision q : rec_decision (record_decide q) = evaluate_session q.
Proof. done. Qed.

Lemma spec_open_admits env acc slot packed c :
  coherent c → allows env (data_session_resource acc) = true →
  ((spec_session_open env acc slot packed c).1 < 2)%N ↔
  ∃ profile roaming e, unpack_profile_roaming packed = Some (profile, roaming) ∧
    demo_entitlement acc = Some e ∧ active (c_registry c) acc ∧
    owner_of (c_registry c) (mkKey slot profile) = Some acc ∧
    state_of (c_slots c) (mkKey slot profile) = Some Sim.Enabled ∧
    (roaming = true → roaming_data_allowed e = true) ∧
    severity (band (evaluate_usage e (usage_of (c_data c) acc))) < 2 ∧
    (is_Some (session_of (c_data c) acc slot profile) ∨
     length (sessions (c_data c)) < MAX_DATA_SESSIONS).
Proof.
  intros Hc Hallow. unfold spec_session_open. rewrite Hallow. unfold active.
  destruct (unpack_profile_roaming packed) as [[p r]|]; [|split; [done|by intros (?&?&?&?&_)]].
  destruct (demo_entitlement acc) as [e|]; [|split; [done|by intros (?&?&?&_&?&_)]].
  destruct (standing (c_registry c) acc) as [st|]; [|split; [done|by intros (?&?&?&_&_&?&_)]].
  destruct (decide (mvno_owner_of (c_registry c) slot p = Some acc)) as [Ho|Ho];
    [|split; [done|]; intros (p'&r'&e'&[= <- <-]&_&_&Ho'&_); by destruct Ho].
  destruct (profile_state (c_slots c) slot p) as [state|err] eqn:Hps.
  2:{ split; [done|]. intros (p'&r'&e'&[= <- <-]&_&_&_&Hst&_).
      apply profile_state_Ok in Hst; [congruence|apply (co_slots c Hc)]. }
  apply profile_state_Ok in Hps; [|apply (co_slots c Hc)].
  unfold decide_and_open. rewrite !record_decide_decision.
  pose proof (evaluate_session_admits (standing_for_data st) (lifecycle_for_data state) e
    (usage_of (c_data c) acc) (if r then Roaming else Home)) as Hadm.
  pose proof (record_session_full (c_data c) (mkSession acc slot p r)) as Hfull. cbn [ds_account ds_slot ds_profile] in Hfull.
  destruct (evaluate_session _) as [| |why] eqn:Hev.
  3:{ split; [intros Hx; exfalso; cbn [oo_record] in Hx; rewrite record_decide_decision, Hev in Hx; by destruct why|].
      intros (p'&r'&e'&Hu&He&Ha&_&Hst&Hroam&Hsev&_). exfalso.
      assert (p' = p) as -> by congruence. assert (r' = r) as -> by congruence.
      assert (e' = e) as -> by congruence. assert (st = Account.Active) as -> by congruence.
      assert (state = Sim.Enabled) as -> by congruence.
      apply (proj2 Hadm) with why; [|done].
      split_and!; [done|done| |done]. intros Hx. apply Hroam. by destruct r. }
  all: destruct (proj1 Hadm ltac:(done)) as (Hst & Hlc & Hroam & Hsev).
  all: destruct (record_session (c_data c) (mkSession acc slot p r)) as [rec d]. all: cbn [fst] in Hfull.
  all: assert (st = Account.Active) as -> by (by destruct st).
  all: assert (state = Sim.Enabled) as -> by (by destruct state).
  all: cbn [oo_record oo_recorded fst]; rewrite record_decide_decision, Hev.
  all: destruct (decide (rec = RecTableFull)) as [->|Hnf]; [split; [done|];
         intros (p'&r'&e'&[= <- <-]&_&_&_&_&_&_&[[y Hy]|Hroom]);
         destruct (proj1 Hfull eq_refl) as [Hn Hl]; [congruence|done] |].
  all: split; [intros _|by destruct rec].
  all: exists p, r, e; split_and!; [done..| |done|].
  all: try (intros ->; by apply Hroam).
  all: destruct (session_of (c_data c) acc slot p) eqn:Hso; [left; by eexists|right].
  all: apply dec_stable; intros Hl; apply Hnf, Hfull; done.
Qed.

Lemma spec_metered env acc bytes e c :
  coherent c → allows env (data_usage_resource acc) = true → demo_entitlement acc = Some e →
  active (c_registry c) acc → has_bound_profile (c_registry c) acc = true →
  let after := apply_usage (usage_of (c_data c) acc) bytes in
  let '(code, c') := spec_data_account env acc bytes c in
  code = action_request_code (escalation (evaluate_usage e after)) ∧
  ∀ a, usage_of (c_data c') a = if decide (a = acc) then after else usage_of (c_data c) a.
Proof.
  intros Hc Hallow He Hact Hbound. unfold spec_data_account. rewrite Hallow, He, Hact, Hbound.
  cbn [usage_feed_refusal].
  destruct (feed_usage_accepted (c_data c) acc bytes) as [r Hr];
    [apply (co_data c Hc)|apply (co_rows c Hc)|by eapply demo_entitlement_known|].
  destruct (feed_usage (c_data c) acc bytes) as [r' d] eqn:Hf. cbn [fst] in Hr. subst r'.
  split; [|intros a; by apply (usage_of_feed (c_data c) acc bytes r d a)].
  by destruct (usage_of_feed (c_data c) acc bytes r d acc Hf) as [-> _].
Qed.

(** ** The governed reset *)

(** When the period gate is open: a normal reset from the period's end on, an
    early one from the period's start on and a cooldown after the last reset. *)
Definition gate_open (d : DataState) (acc : N) (early : bool) (now cooldown : N) : Prop :=
  (∀ p, period_of d acc = Some p →
     (start_tick p ≤ now ∧ (early = false → start_tick p + length_ticks p ≤ now))%N) ∧
  (early = true → ∀ last, last_reset_tick d acc = Some last → (last + cooldown ≤ now)%N).

Lemma period_of_pos d acc p : DataState.wf d → period_of d acc = Some p → (0 < length_ticks p)%N.
Proof.
  intros Hwf (e & He & ->)%fmap_Some.
  apply (iter_find_Some_1 (λ e, pe_account e = acc)) in He as [He _].
  pose proof (wf_period_pos _ Hwf) as HF. rewrite Forall_forall in HF. by apply HF.
Qed.

Lemma gate_open_permitted d acc early now cooldown :
  DataState.wf d →
  reset_permitted_at (assess_period_of d acc now) early (last_reset_tick d acc) now cooldown = Ok () ↔
  gate_open d acc early now cooldown.
Proof.
  intros Hwf. unfold assess_period_of, gate_open.
  destruct (period_of d acc) as [p|] eqn:Hp; cbn [fmap option_fmap option_map].
  - rewrite reset_permitted_at_Ok by (by eapply period_of_pos). destruct early; split.
    + intros [Hs Hl]. split; [intros ? [= <-]; done|]. intros _ last Hlast. by apply Hl.
    + intros [Hs Hl]. split; [by apply Hs|]. intros last Hlast. specialize (Hl eq_refl last Hlast). lia.
    + intros [Hs Hl]. split; [by intros ? [= <-]|done].
    + intros [Hs _]. destruct (Hs p eq_refl) as [? He]. split; [done|by apply He].
  - unfold reset_permitted_at. cbn [reset_permitted mbind Result_bind].
    destruct early; cbn [negb]; [|done].
    destruct (last_reset_tick d acc) as [last|]; [|by repeat split].
    unfold checked_sub. repeat case_decide; split; try done.
    + intros _. split; [done|]. intros _ ? [= <-]. lia.
    + intros [_ Hl]. specialize (Hl eq_refl last eq_refl). lia.
    + intros [_ Hl]. specialize (Hl eq_refl last eq_refl). lia.
Qed.

Lemma reset_sessions d a now il : sessions ((reset_usage_and_period d a now il).2) = sessions d.
Proof.
  rewrite reset_components. cbn [snd]. set (d1 := (reset_account_usage d a).2).
  destruct (record_reset_tables ((start_next_period d1 a now il).2) a now) as (_ & -> & _).
  destruct (start_next_period_tables d1 a now il) as (_ & -> & _).
  apply reset_account_usage_tables.
Qed.

(** A reset not before the period's start restarts the period, at its length. *)
Lemma reset_restarts d a now il p :
  (0 < length_ticks p)%N → period_of d a = Some p → (start_tick p ≤ now)%N →
  period_of ((reset_usage_and_period d a now il).2) a = Some (mkPeriod now (length_ticks p)).
Proof.
  intros Hlen Hp Hle. rewrite reset_components. cbn [snd]. set (d1 := (reset_account_usage d a).2).
  destruct (record_reset_tables ((start_next_period d1 a now il).2) a now) as (_ & _ & Hper).
  unfold period_of at 1. rewrite Hper. fold (period_of ((start_next_period d1 a now il).2) a).
  rewrite start_next_period_period, decide_True by done.
  destruct (reset_account_usage_tables d a) as (_ & Hper1 & _). fold d1 in Hper1.
  unfold start_next_period. unfold period_of in Hp. rewrite <-Hper1 in Hp.
  destruct (iter_find _ (periods d1)) as [e|]; [|done]. injection Hp as Hp. rewrite Hp.
  unfold next_period, period_new. rewrite decide_False by lia. by rewrite decide_False by lia.
Qed.

(** A reset goes through exactly when the mode is known, that mode's capability
    is held, the account has a plan and is registered, the period gate is open
    and MARSHAL lets it. *)
Definition reset_admitted (env : Env) (acc mode : N) (c : Core) : Prop :=
  ∃ m, reset_mode_from_arg mode = Some m ∧ allows env (reset_resource m acc) = true ∧
    is_Some (demo_entitlement acc) ∧ is_Some (standing (c_registry c) acc) ∧
    gate_open (c_data c) acc (is_early m) (env_gate_now env)
      (demo_early_reset_cooldown_ticks (env_freq env)) ∧
    passes env (DataResetUsage acc) = true.

Lemma spec_reset_admitted env acc mode c :
  coherent c →
  let '(code, c') := spec_data_reset env acc mode c in
  (code = RESET_OK ↔ reset_admitted env acc mode c) ∧
  c' = if decide (code = RESET_OK)
       then with_data c ((reset_usage_and_period (c_data c) acc (env_now env)
              (Some (demo_install_period_ticks (env_freq env)))).2)
       else c.
Proof.
  intros Hc. unfold spec_data_reset, reset_admitted, passes.
  destruct (reset_mode_from_arg mode) as [m|]; [|split; [|done]; split; [done|by intros (?&?&_)]].
  destruct (allows env (reset_resource m acc)) eqn:Hallow;
    [|split; [|done]; split; [done|]; intros (?&[= <-]&?&_); congruence].
  destruct (demo_entitlement acc) as [e|];
    [|split; [|done]; split; [done|]; by intros (?&_&_&[? ?]&_)].
  destruct (standing (c_registry c) acc) as [st|];
    [|split; [|done]; split; [done|]; by intros (?&_&_&_&[? ?]&_)].
  pose proof (gate_open_permitted (c_data c) acc (is_early m) (env_gate_now env)
    (demo_early_reset_cooldown_ticks (env_freq env)) (co_data c Hc)) as Hgate.
  destruct (reset_permitted_at _ _ _ _ _) as [[]|refusal].
  2:{ split; [|by destruct refusal]. split; [by destruct refusal|]. intros (?&[= <-]&_&_&_&Hg&_).
      by apply Hgate in Hg. }
  destruct (enforce _ _) as [[]|blocked].
  - split; [|done]. split; [intros _|done]. exists m. split_and!; try done. by apply Hgate.
  - split; [|by destruct blocked]. split; [by destruct blocked|]. by intros (?&_&_&_&_&_&?).
Qed.

Section properties.
Context `{Sha256}.


(** What the reconciler can report of the running kernel: in every reachable
    state a pass over the live snapshot reports no duplicate, no unbound or
    wrongly owned Enabled profile, no second Enabled profile in a slot, no
    usage regression, no session on someone else's, on an unknown or on a
    forbidden roaming profile, and no oversized snapshot. The only findings
    possible are usage over the cap with a session still open, anomalous usage
    not yet escalated, and a session on an existing profile that is not
    Enabled. *)
Theorem reconcile_possible_findings freq ts env i :
  let k := run (boot freq) ts in
  i ∈ (findings env (core k)).1 →
  kind i = UsageOverCapNotRestricted ∨ kind i = AnomalousUsageNoEscalation ∨
  (kind i = SessionWithoutEnabledProfile ∧ observed i ≠ Absent).
Proof. cbn zeta. apply drift_possible, reachable. Qed.

(** Reconciliation is read-only: in every reachable state the reconcile
    syscall returns the number of its findings and changes no account, binding,
    profile, session, billing period, reset record, counter or mailbox; it only
    updates the reconciler's own memory. *)
Theorem reconcile_read_only freq ts t :
  let k := run (boot freq) ts in
  t_call t = CallDataReconcile → allows (t_env t) data_reconcile_resource = true →
  let '(code, k') := trap k t in
  let fs := findings (t_env t) (core k) in
  code = N.of_nat (length fs.1 + length fs.2) ∧
  k_registry k' = k_registry k ∧ k_slots k' = k_slots k ∧ k_ril k' = k_ril k ∧ k_ipc k' = k_ipc k ∧
  sessions (k_data k') = sessions (k_data k) ∧ periods (k_data k') = periods (k_data k) ∧
  last_resets (k_data k') = last_resets (k_data k) ∧
  ∀ acc, usage_of (k_data k') acc = usage_of (k_data k) acc.
Proof.
  cbn zeta. intros Hcall Hallow. destruct (reachable freq ts) as [Hc Hok].
  destruct (trap_refines (run (boot freq) ts) t Hok) as (Hr & Hcore & _).
  rewrite Hcall in Hr, Hcore. cbn [spec] in Hr, Hcore.
  unfold spec_data_reconcile in Hr, Hcore. rewrite Hallow in Hr, Hcore.
  destruct (trap (run (boot freq) ts) t) as [code k']. cbn [fst snd] in *. split; [done|].
  generalize dependent (run (boot freq) ts). intros k Hc Hok Hr Hcore.
  destruct (mark_observed_tables (k_data k) (usage (k_data k))) as (Hs & Hp & Hl).
  pose proof (usage_of_observe (k_data k) (usage (k_data k))) as Hu.
  unfold core, with_data, with_memory in Hcore. cbn [c_registry c_slots c_data c_ril c_ipc c_memory] in Hcore.
  injection Hcore as -> -> -> -> -> _. done.
Qed.

(** C26. Session admission, end to end: in every reachable state, an authorized
    open request succeeds (code 0, or 1 when throttled) exactly when the
    argument is well formed, the account has a plan and is Active, the profile
    is bound to that account and Enabled, roaming is permitted if requested, the
    usage so far is below the cap, and the session is already open or the
    session table has room. *)
Theorem session_admission freq ts t acc slot packed :
  let k := run (boot freq) ts in
  t_call t = CallSessionOpen acc slot packed →
  allows (t_env t) (data_session_resource acc) = true →
  ((trap k t).1 < 2)%N ↔
  ∃ profile roaming e, unpack_profile_roaming packed = Some (profile, roaming) ∧
    demo_entitlement acc = Some e ∧ active (k_registry k) acc ∧
    owner_of (k_registry k) (mkKey slot profile) = Some acc ∧
    state_of (k_slots k) (mkKey slot profile) = Some Sim.Enabled ∧
    (roaming = true → roaming_data_allowed e = true) ∧
    severity (band (evaluate_usage e (usage_of (k_data k) acc))) < 2 ∧
    (is_Some (session_of (k_data k) acc slot profile) ∨
     length (sessions (k_data k)) < MAX_DATA_SESSIONS).
Proof.
  cbn zeta. intros Hcall Hallow. destruct (reachable freq ts) as [Hc Hok].
  destruct (trap_refines (run (boot freq) ts) t Hok) as (-> & _ & _). rewrite Hcall. cbn [spec].
  by apply spec_open_admits.
Qed.

(** Metering never loses a byte and never fails for want of room: in every
    reachable state, an authorized report of bytes for an Active account with a
    plan and a bound profile is always recorded, saturating at the [u64] bound;
    the code tells the escalation of the new total, and no other account's
    counter moves. *)
Theorem metering_total freq ts t acc bytes e :
  let k := run (boot freq) ts in
  t_call t = CallDataAccount acc bytes → allows (t_env t) (data_usage_resource acc) = true →
  demo_entitlement acc = Some e → active (k_registry k) acc →
  has_bound_profile (k_registry k) acc = true →
  let '(code, k') := trap k t in
  code = action_request_code (escalation (evaluate_usage e (usage_of (k_data k') acc))) ∧
  used_bytes (usage_of (k_data k') acc) =
    N.min u64_max (used_bytes (usage_of (k_data k) acc) + bytes) ∧
  ∀ acc', acc' ≠ acc → usage_of (k_data k') acc' = usage_of (k_data k) acc'.
Proof.
  cbn zeta. intros Hcall Hallow He Hact Hbound. destruct (reachable freq ts) as [Hc Hok].
  destruct (trap_refines (run (boot freq) ts) t Hok) as (Hr & Hcore & _).
  rewrite Hcall in Hr, Hcore. cbn [spec] in Hr, Hcore.
  rewrite k_registry_core in Hact, Hbound. rewrite k_data_core.
  destruct (trap (run (boot freq) ts) t) as [code k']. cbn [fst snd] in *. rewrite (k_data_core k').
  generalize dependent (core (run (boot freq) ts)). intros c Hact Hbound Hc Hr Hcore.
  pose proof (spec_metered (t_env t) acc bytes e c Hc Hallow He Hact Hbound) as Hspec.
  cbn zeta in Hspec. destruct (spec_data_account (t_env t) acc bytes c) as [code' c'].
  cbn [fst snd] in Hr, Hcore. destruct Hspec as [Hcode Hdata]. rewrite Hr, Hcore, Hcode.
  pose proof (Hdata acc) as Hacc. rewrite decide_True in Hacc by done. rewrite Hacc.
  split_and!; [done|apply N.min_comm|]. intros acc' Hne. by rewrite Hdata, decide_False.
Qed.

(** The billing reset, end to end: in every reachable state the reset call
    succeeds exactly when it is admitted (mode, capability, plan, account,
    period gate at the tick the gate reads, MARSHAL). A success zeroes that
    account's counter and no other, restarts its billing period at the tick of
    the reset and touches no session, profile, account or other account's
    period; a refusal changes nothing at all. *)
Theorem governed_reset freq ts t acc mode :
  let k := run (boot freq) ts in
  t_call t = CallDataReset acc mode →
  let '(code, k') := trap k t in
  (code = RESET_OK ↔ reset_admitted (t_env t) acc mode (core k)) ∧
  (code ≠ RESET_OK → core k' = core k) ∧
  (code = RESET_OK →
     k_registry k' = k_registry k ∧ k_slots k' = k_slots k ∧
     sessions (k_data k') = sessions (k_data k) ∧
     (∀ a, usage_of (k_data k') a = if decide (a = acc) then mkUsage 0 else usage_of (k_data k) a) ∧
     (∀ p, period_of (k_data k) acc = Some p → (env_gate_now (t_env t) ≤ env_now (t_env t))%N →
        period_of (k_data k') acc = Some (mkPeriod (env_now (t_env t)) (length_ticks p))) ∧
     ∀ a, a ≠ acc → gate (k_data k') a = gate (k_data k) a).
Proof.
  cbn zeta. intros Hcall. destruct (reachable freq ts) as [Hc Hok].
  destruct (trap_refines (run (boot freq) ts) t Hok) as (Hr & Hcore & _).
  rewrite Hcall in Hr, Hcore. cbn [spec] in Hr, Hcore.
  rewrite !(k_registry_core (run _ _)), !(k_slots_core (run _ _)), !(k_data_core (run _ _)).
  destruct (trap (run (boot freq) ts) t) as [code k']. cbn [fst snd] in *.
  rewrite (k_registry_core k'), (k_slots_core k'), (k_data_core k').
  generalize dependent (core (run (boot freq) ts)). intros c Hc Hr Hcore.
  pose proof (spec_reset_admitted (t_env t) acc mode c Hc) as Hspec.
  destruct (spec_data_reset (t_env t) acc mode c) as [code' c']. cbn [fst snd] in Hr, Hcore.
  rewrite Hr, Hcore. destruct Hspec as [Hiff ->]. split; [done|].
  case_decide as Hok'; split; try done. intros _. cbn [with_data c_registry c_slots c_data].
  split_and!; [done|done|apply reset_sessions|intros a; apply usage_of_full_reset|..].
  - intros p Hp Hle. apply reset_restarts; [by eapply period_of_pos, Hp; apply (co_data c Hc)|done|].
    apply Hiff in Hok' as (m & _ & _ & _ & _ & Hg & _). apply Hg in Hp. lia.
  - intros a Hne. by apply reset_gate_other.
Qed.
End properties.

(** ** Authority comes from issued tokens *)

Lemma required_addressable c r : r ∈ required c → addressable r.
Proof.
  destruct c; cbn [required]; rewrite ?elem_of_cons, ?elem_of_nil; try naive_solver.
  destruct (reset_mode_from_arg mode) as [[]|]; rewrite ?elem_of_cons, ?elem_of_nil; naive_solver.
Qed.

Section authority.
Context `{Sha256} `{SignatureLaws}.

(** C3. No authority without a token: when the capability check of a call is the
    check of the tokens the kernel's key issued, a syscall in a reachable state
    changes anything only if, for every resource the call requires, a token was
    issued for exactly that resource and has not expired at the tick it is
    checked. *)
Theorem authority_from_tokens freq ts t key issued now :
  let k := run (boot freq) ts in
  Forall (λ '(r, _, _), addressable r) issued →
  (∀ s, env_check (t_env t) s = Capability.check key (held_tokens key issued) s now) →
  core ((trap k t).2) ≠ core k →
  required (t_call t) ≠ [] ∧
  Forall (λ r, ∃ t0 t1, (r, t0, t1) ∈ issued ∧ (now ≤ t1)%N) (required (t_call t)).
Proof.
  cbn zeta. intros Haddr Hcheck.
  destruct (trap_refines (run (boot freq) ts) t) as (_ & -> & _); [apply reachable|].
  intros (Hne & HF & _)%spec_mediated. split; [done|].
  rewrite Forall_forall in HF |- *. intros r Hr. specialize (HF r Hr).
  unfold allows in HF. rewrite Hcheck in HF.
  apply (check_issued key issued r now); [done|by eapply required_addressable|].
  by destruct (Capability.check _ _ _ _) as [[]|].
Qed.
End authority.

(** ** The theorems on concrete runs *)

Module Runs.
Import Toy.

Abbreviation online_kernel := (run (boot demo_freq) online).

Lemma online_active : active (k_registry online_kernel) 0.
Proof. vm_compute. reflexivity. Qed.

Lemma kernel_audit_witness :
  ∃ a, k_worm online_kernel = Some a ∧ length (log a) ≤ 456.
Proof.
  destruct (k_worm online_kernel) as [a|] eqn:Ha; [|vm_compute in Ha; discriminate Ha].
  exists a. split; [reflexivity|].
  pose proof (kernel_audit_sound demo_freq [] online) as Hv. cbv zeta in Hv. cbn [app] in Hv.
  exact (proj2 (proj1 Hv a Ha)).
Defined.

Lemma complete_mediation_witness :
  passes (open_env 1000) (MvnoSuspend 0) = true.
Proof.
  apply (complete_mediation demo_freq online (call SYS_MVNO_SUSPEND 0 0 0)); [|reflexivity].
  intros Heq%(f_equal (λ c, sessions (c_data c))). vm_compute in Heq. discriminate Heq.
Defined.


Definition stranded : list Trap := online ++ [call SYS_SIM_ENABLE 0 1 0].

Lemma possible_findings_witness :
  ∃ i, i ∈ (findings (open_env 1000) (core (run (boot demo_freq) stranded))).1 ∧
    (kind i = UsageOverCapNotRestricted ∨ kind i = AnomalousUsageNoEscalation ∨
     (kind i = SessionWithoutEnabledProfile ∧ observed i ≠ Absent)).
Proof.
  destruct (findings (open_env 1000) (core (run (boot demo_freq) stranded))).1 as [|i l] eqn:Hf;
    [vm_compute in Hf; discriminate Hf|].
  exists i. split; [by left|].
  apply (reconcile_possible_findings demo_freq stranded (open_env 1000)). rewrite Hf. by left.
Defined.

Lemma reconcile_read_only_witness :
  sessions (k_data ((trap online_kernel (call SYS_DATA_RECONCILE 0 0 0)).2)) =
  sessions (k_data online_kernel).
Proof.
  pose proof (reconcile_read_only demo_freq online (call SYS_DATA_RECONCILE 0 0 0)
    eq_refl eq_refl) as Hs.
  cbv zeta in Hs.
  destruct (trap online_kernel _) as [code k']. apply Hs.
Defined.

Lemma session_admission_witness :
  active (k_registry online_kernel) 0.
Proof.
  destruct (proj1 (session_admission demo_freq online (call SYS_DATA_SESSION_OPEN 0 0 0) 0 0 0
    eq_refl eq_refl)) as (p & r & e & _ & _ & Ha & _); [vm_compute; reflexivity|exact Ha].
Defined.

Lemma metering_witness :
  used_bytes (usage_of (k_data ((trap online_kernel (call SYS_DATA_ACCOUNT 0 4096 0)).2)) 0) = 4096%N.
Proof.
  destruct (demo_entitlement 0) as [e|] eqn:He; [|vm_compute in He; discriminate He].
  pose proof (metering_total demo_freq online (call SYS_DATA_ACCOUNT 0 4096 0) 0 4096 e
    eq_refl eq_refl He online_active) as Hs.
  cbv zeta in Hs.
  specialize (Hs ltac:(vm_compute; reflexivity)).
  destruct (trap online_kernel _) as [code k']. destruct Hs as (_ & Hu & _). cbn [snd]. rewrite Hu.
  vm_compute. reflexivity.
Defined.

(** An early reset, at a tick past the start of the boot period. *)
Lemma governed_reset_witness :
  usage_of (k_data ((trap online_kernel (call SYS_DATA_RESET 0 1 0)).2)) 0 = mkUsage 0.
Proof.
  assert ((trap online_kernel (call SYS_DATA_RESET 0 1 0)).1 = RESET_OK) as Hok
    by (vm_compute; reflexivity).
  pose proof (governed_reset demo_freq online (call SYS_DATA_RESET 0 1 0) 0 1 eq_refl) as Hs.
  cbv zeta in Hs.
  destruct (trap online_kernel _) as [code k']. destruct Hs as (_ & _ & Hs).
  cbn [fst snd] in *. destruct (Hs Hok) as (_ & _ & _ & Hu & _). by rewrite Hu, decide_True.
Defined.

(** One token, for slot 0, and a call that needs it. *)
Definition token_trap : Trap :=
  mkTrap (mkEnv (λ s, @Capability.check Demo.scheme 7%N
                        (held_tokens (7%N : @SigningKey Demo.scheme) [(RSim 0, 10, 70)%N]) s 60)
            (λ _, Remote Execute) 60 60 demo_freq) SYS_SIM_CREATE 0 0 0.

Lemma authority_witness :
  Forall (λ r, ∃ t0 t1, (r, t0, t1) ∈ [(RSim 0, 10, 70)%N] ∧ (60 ≤ t1)%N) [RSim 0].
Proof.
  apply (@authority_from_tokens toy_sha256 Demo.scheme Demo.laws demo_freq [] token_trap 7%N
    [(RSim 0, 10, 70)%N] 60%N); [by repeat constructor|reflexivity|].
  intros Heq%(f_equal c_slots). vm_compute in Heq. discriminate Heq.
Defined.
End Runs.
