(* ===== verification/DeskPolicy.v ===== *)
(** * DeskPolicy: what the desktop proxy vouches for

    Model of [desktop/src/citadel/policy.rs]: the minimal envelope the kernels send,
    the proxy's local check of it, and the identifiers under which the decision is
    recorded.  A JSON field of [Option] type is an [option]; of an asserted
    [verifier] only the presence matters, its text is kept. *)

From Stdlib Require Import Ascii.
From S2P Require Import Prelude Text.

Local Open Scope N_scope.

(** [{:?}] of a [str]: the escaping of [core::fmt], whose tables of printable
    characters are not reproduced. *)
Class StrDebug := str_debug : string → string.

(** ** Action types *)

Definition SPAWN_INSTANCE_ACTION : string := "grid_sandbox.spawn_instance".
Definition ESIM_ENABLE_ACTION : string := "esim.enable".
Definition ESIM_DELETE_ACTION : string := "esim.delete".
Definition MVNO_BIND_PROFILE_ACTION : string := "mvno.bind_profile".
Definition MVNO_SUSPEND_ACCOUNT_ACTION : string := "mvno.suspend_account".
Definition MVNO_REACTIVATE_ACCOUNT_ACTION : string := "mvno.reactivate_account".
Definition DATA_RESET_USAGE_ACTION : string := "data.reset_usage".

Definition RECOGNIZED_ACTION_TYPES : list string :=
  [SPAWN_INSTANCE_ACTION; ESIM_ENABLE_ACTION; ESIM_DELETE_ACTION; MVNO_BIND_PROFILE_ACTION;
   MVNO_SUSPEND_ACCOUNT_ACTION; MVNO_REACTIVATE_ACCOUNT_ACTION; DATA_RESET_USAGE_ACTION].

Definition is_data_action (action_type : string) : bool :=
  bool_decide (action_type = DATA_RESET_USAGE_ACTION).
Definition is_mvno_action (action_type : string) : bool :=
  bool_decide (action_type ∈ [MVNO_BIND_PROFILE_ACTION; MVNO_SUSPEND_ACCOUNT_ACTION; MVNO_REACTIVATE_ACCOUNT_ACTION]).
Definition is_esim_action (action_type : string) : bool :=
  bool_decide (action_type ∈ [ESIM_ENABLE_ACTION; ESIM_DELETE_ACTION]).

Definition KERNEL_ACTOR_USER_ID_PREFIX : string := "kernel:".
Definition KERNEL_ACTOR_ROLE : string := "operator".

(** ** The minimal envelope *)

Record KernelMinimalAction := mkAction {
  a_type : string;
  a_module_id : string;
  a_instance_id : string;
  a_slot : option N;
  a_profile : option N;
  a_account : option N;
}.

Record KernelMinimalActor := mkActor { ka_user_id : string; ka_role : string }.

Record KernelMinimalEnvelope := mkEnvelope {
  env_version : string;
  env_dry_run : bool;
  env_action : KernelMinimalAction;
  env_actor : KernelMinimalActor;
  env_execution_id : string;
  env_verifier : option string;
}.

Definition part (v : option N) : string := match v with Some n => pretty n | None => "" end.

Definition audit_ids (self : KernelMinimalAction) : string * string :=
  if is_data_action (a_type self) then ("data", "account-" +:+ part (a_account self))
  else if is_mvno_action (a_type self) then
    ("mvno",
     if decide (a_type self = MVNO_BIND_PROFILE_ACTION) then
       "account-" +:+ part (a_account self) +:+ "-slot-" +:+ part (a_slot self) +:+ "-profile-" +:+ part (a_profile self)
     else "account-" +:+ part (a_account self))
  else if is_esim_action (a_type self) then
    ("esim", "slot-" +:+ part (a_slot self) +:+ "-profile-" +:+ part (a_profile self))
  else (a_module_id self, a_instance_id self).

Inductive PolicyError :=
  | UnrecognizedActionType (t : string)
  | EmptyIdentifier (field : string)
  | MissingField (field : string)
  | UnexpectedField (field : string)
  | MalformedIdentifier (field value : string)
  | KernelAssertedVerifier.

#[global] Instance PolicyError_eq_dec : EqDecision PolicyError.
Proof. solve_decision. Defined.

Definition policy_error_display `{StrDebug} (e : PolicyError) : string :=
  match e with
  | UnrecognizedActionType t => "POLICY_REFUSE: action type " +:+ str_debug t +:+ " is not one this proxy recognizes"
  | EmptyIdentifier field => "POLICY_REFUSE: " +:+ field +:+ " is empty"
  | MissingField field => "POLICY_REFUSE: " +:+ field +:+ " is required for this action type"
  | UnexpectedField field => "POLICY_REFUSE: " +:+ field +:+ " is not valid for this action type"
  | MalformedIdentifier field value =>
      "POLICY_REFUSE: " +:+ field +:+ " " +:+ str_debug value +:+ " contains characters outside [A-Za-z0-9._:-]"
  | KernelAssertedVerifier =>
      "POLICY_REFUSE: request already carries a verifier field — only this proxy may attach one"
  end.

Definition is_ascii_alphanumeric (c : ascii) : bool :=
  let n := N_of_ascii c in
  bool_decide (48 ≤ n ≤ 57 ∨ 65 ≤ n ≤ 90 ∨ 97 ≤ n ≤ 122).

(** A character outside ASCII has only bytes outside it. *)
Definition identifier_char (c : ascii) : bool :=
  is_ascii_alphanumeric c || bool_decide (c ∈ ["-"; "_"; "."; ":"]%char).

Definition is_well_formed_identifier (s : string) : bool :=
  bool_decide (s ≠ "") && bool_decide ((String.length s ≤ 256)%nat) && all_chars identifier_char s.

(** ** The check *)

(** [if cond { return Err(e) }] *)
Definition refuse_if (cond : bool) (e : PolicyError) (rest : Result PolicyError ()) : Result PolicyError () :=
  if cond then Err e else rest.

Definition missing {A} (o : option A) : bool := match o with None => true | Some _ => false end.
Definition given {A} (o : option A) : bool := negb (missing o).
Definition is_empty_str (s : string) : bool := bool_decide (s = "").

Definition no_module_ids (a : KernelMinimalAction) (rest : Result PolicyError ()) : Result PolicyError () :=
  refuse_if (negb (is_empty_str (a_module_id a))) (UnexpectedField "module_id")
    (refuse_if (negb (is_empty_str (a_instance_id a))) (UnexpectedField "instance_id") rest).

Definition identifier_ok (field value : string) (rest : Result PolicyError ()) : Result PolicyError () :=
  refuse_if (is_empty_str value) (EmptyIdentifier field)
    (refuse_if (negb (is_well_formed_identifier value)) (MalformedIdentifier field value) rest).

Definition check_action (a : KernelMinimalAction) (rest : Result PolicyError ()) : Result PolicyError () :=
  if is_data_action (a_type a) then
    refuse_if (missing (a_account a)) (MissingField "account")
      (refuse_if (given (a_slot a)) (UnexpectedField "slot")
         (refuse_if (given (a_profile a)) (UnexpectedField "profile") (no_module_ids a rest)))
  else if is_mvno_action (a_type a) then
    refuse_if (missing (a_account a)) (MissingField "account")
      (if decide (a_type a = MVNO_BIND_PROFILE_ACTION) then
         refuse_if (missing (a_slot a)) (MissingField "slot")
           (refuse_if (missing (a_profile a)) (MissingField "profile") (no_module_ids a rest))
       else
         refuse_if (given (a_slot a)) (UnexpectedField "slot")
           (refuse_if (given (a_profile a)) (UnexpectedField "profile") (no_module_ids a rest)))
  else if is_esim_action (a_type a) then
    refuse_if (given (a_account a)) (UnexpectedField "account")
      (refuse_if (missing (a_slot a)) (MissingField "slot")
         (refuse_if (missing (a_profile a)) (MissingField "profile") (no_module_ids a rest)))
  else
    refuse_if (given (a_account a)) (UnexpectedField "account")
      (refuse_if (given (a_slot a)) (UnexpectedField "slot")
         (refuse_if (given (a_profile a)) (UnexpectedField "profile")
            (identifier_ok "module_id" (a_module_id a) (identifier_ok "instance_id" (a_instance_id a) rest)))).

Definition check (envelope : KernelMinimalEnvelope) : Result PolicyError () :=
  refuse_if (given (env_verifier envelope)) KernelAssertedVerifier
    (refuse_if (negb (bool_decide (a_type (env_action envelope) ∈ RECOGNIZED_ACTION_TYPES)))
       (UnrecognizedActionType (a_type (env_action envelope)))
       (check_action (env_action envelope)
          (identifier_ok "actor.user_id" (ka_user_id (env_actor envelope)) (Ok ())))).

(** ** What passes *)

(** The governed actions, with exactly the fields each is identified by. *)
Inductive Vouched :=
  | VSpawn (module_id instance_id : string)
  | VEnable (slot profile : N)
  | VDelete (slot profile : N)
  | VBind (account slot profile : N)
  | VSuspend (account : N)
  | VReactivate (account : N)
  | VReset (account : N).

Definition as_action (v : Vouched) : KernelMinimalAction :=
  match v with
  | VSpawn m i => mkAction SPAWN_INSTANCE_ACTION m i None None None
  | VEnable s p => mkAction ESIM_ENABLE_ACTION "" "" (Some s) (Some p) None
  | VDelete s p => mkAction ESIM_DELETE_ACTION "" "" (Some s) (Some p) None
  | VBind a s p => mkAction MVNO_BIND_PROFILE_ACTION "" "" (Some s) (Some p) (Some a)
  | VSuspend a => mkAction MVNO_SUSPEND_ACCOUNT_ACTION "" "" None None (Some a)
  | VReactivate a => mkAction MVNO_REACTIVATE_ACCOUNT_ACTION "" "" None None (Some a)
  | VReset a => mkAction DATA_RESET_USAGE_ACTION "" "" None None (Some a)
  end.

Definition vouched_ids (v : Vouched) : Prop :=
  match v with
  | VSpawn m i => is_well_formed_identifier m = true ∧ is_well_formed_identifier i = true
  | _ => True
  end.

Definition vouches (e : KernelMinimalEnvelope) (v : Vouched) : Prop :=
  env_action e = as_action v ∧ vouched_ids v ∧ env_verifier e = None ∧
  is_well_formed_identifier (ka_user_id (env_actor e)) = true.

Lemma refuse_if_Ok cond e rest : refuse_if cond e rest = Ok () ↔ cond = false ∧ rest = Ok ().
Proof. destruct cond; cbn; naive_solver. Qed.

Lemma missing_false {A} (o : option A) : missing o = false ↔ is_Some o.
Proof. by destruct o. Qed.

Lemma given_false {A} (o : option A) : given o = false ↔ o = None.
Proof. by destruct o. Qed.

Lemma not_empty_false s : negb (is_empty_str s) = false ↔ s = "".
Proof. unfold is_empty_str. by rewrite negb_false_iff, bool_decide_eq_true. Qed.

Lemma identifier_ok_Ok field value rest :
  identifier_ok field value rest = Ok () ↔ is_well_formed_identifier value = true ∧ rest = Ok ().
Proof.
  unfold identifier_ok. rewrite !refuse_if_Ok, negb_false_iff. unfold is_empty_str. rewrite bool_decide_eq_false.
  split; [tauto|]. intros [Hw Hr]. split_and!; try done. intros ->. done.
Qed.

Lemma no_module_ids_Ok a rest :
  no_module_ids a rest = Ok () ↔ a_module_id a = "" ∧ a_instance_id a = "" ∧ rest = Ok ().
Proof. unfold no_module_ids. by rewrite !refuse_if_Ok, !not_empty_false. Qed.

(** Decides which family a known action type belongs to. *)
Ltac classify H :=
  repeat match type of H with
  | context [is_data_action ?t] => let b := eval vm_compute in (is_data_action t) in change (is_data_action t) with b in H
  | context [is_mvno_action ?t] => let b := eval vm_compute in (is_mvno_action t) in change (is_mvno_action t) with b in H
  | context [is_esim_action ?t] => let b := eval vm_compute in (is_esim_action t) in change (is_esim_action t) with b in H
  end;
  cbv iota in H; rewrite ?decide_True in H by done; rewrite ?decide_False in H by done.

Lemma check_action_Ok a rest :
  a_type a ∈ RECOGNIZED_ACTION_TYPES →
  check_action a rest = Ok () ↔ (∃ v, a = as_action v ∧ vouched_ids v) ∧ rest = Ok ().
Proof.
  destruct a as [ty m i sl pr ac]. cbn [a_type]. unfold RECOGNIZED_ACTION_TYPES. rewrite !elem_of_cons, elem_of_nil.
  unfold check_action. cbn [a_type a_module_id a_instance_id a_slot a_profile a_account]. intros Hty.
  split.
  - intros Hc. repeat destruct Hty as [->|Hty]; [..|done]; classify Hc;
      rewrite ?refuse_if_Ok, ?no_module_ids_Ok, ?identifier_ok_Ok, ?missing_false, ?given_false in Hc; cbn [a_module_id a_instance_id] in Hc.
    + destruct Hc as (-> & -> & -> & Hm & Hi & Hr). split; [|done]. by exists (VSpawn m i).
    + destruct Hc as (-> & [s ->] & [p ->] & -> & -> & Hr). split; [|done]. by exists (VEnable s p).
    + destruct Hc as (-> & [s ->] & [p ->] & -> & -> & Hr). split; [|done]. by exists (VDelete s p).
    + destruct Hc as ([x ->] & [s ->] & [p ->] & -> & -> & Hr). split; [|done]. by exists (VBind x s p).
    + destruct Hc as ([x ->] & -> & -> & -> & -> & Hr). split; [|done]. by exists (VSuspend x).
    + destruct Hc as ([x ->] & -> & -> & -> & -> & Hr). split; [|done]. by exists (VReactivate x).
    + destruct Hc as ([x ->] & -> & -> & -> & -> & Hr). split; [|done]. by exists (VReset x).
  - intros [(v & Ha & Hv) Hr]. destruct v; injection Ha as -> -> -> -> -> ->; [|done..].
    destruct Hv as [Hm Hi]. change (identifier_ok "module_id" module_id (identifier_ok "instance_id" instance_id rest) = Ok ()).
    by rewrite !identifier_ok_Ok.
Qed.

Lemma vouched_recognized v : a_type (as_action v) ∈ RECOGNIZED_ACTION_TYPES.
Proof. apply (bool_decide_unpack _). by destruct v. Qed.

Lemma policy_check_Ok e : check e = Ok () ↔ ∃ v, vouches e v.
Proof.
  unfold check. rewrite !refuse_if_Ok, given_false, negb_false_iff, bool_decide_eq_true. split.
  - intros (Hv & Hr & Hc). apply (check_action_Ok _ _ Hr) in Hc as [(v & Ha & Hi) Hid].
    apply identifier_ok_Ok in Hid as [Hid _]. by exists v.
  - intros (v & Ha & Hi & Hv & Hid). rewrite Ha. pose proof (vouched_recognized v) as Hr. split_and!; [done|done|].
    apply (check_action_Ok _ _ Hr). split; [by exists v|]. by apply identifier_ok_Ok.
Qed.

Lemma as_action_inj v v' : as_action v = as_action v' → v = v'.
Proof. destruct v, v'; intros [=]; by subst. Qed.

(** C22. The proxy vouches for an envelope exactly when it is one of the seven governed
    actions with exactly that action's own fields and no others, its identifiers
    are well formed, the actor is named, and nobody has asserted a verifier before
    it; the action is then unambiguous. *)
Theorem policy_exact e :
  (check e = Ok () ↔ ∃ v, vouches e v) ∧ ∀ v v', vouches e v → vouches e v' → v = v'.
Proof.
  split; [apply policy_check_Ok|]. intros v v' (Ha & _) (Ha' & _). apply as_action_inj. congruence.
Qed.

(** ** What the record identifies *)

Lemma dashed_inj (n n' : N) (r r' : string) :
  pretty n +:+ String "-" r = pretty n' +:+ String "-" r' → n = n' ∧ r = r'.
Proof.
  intros Heq. apply (f_equal (split_once "-")) in Heq.
  rewrite !split_once_app in Heq by by apply free_pretty. injection Heq as Hn ->. split; [|done].
  by apply (inj pretty).
Qed.

Lemma slot_profile_inj (s p s' p' : N) :
  pretty s +:+ "-profile-" +:+ pretty p = pretty s' +:+ "-profile-" +:+ pretty p' → s = s' ∧ p = p'.
Proof.
  change ("-profile-" +:+ pretty p) with (String "-" ("profile-" +:+ pretty p)).
  change ("-profile-" +:+ pretty p') with (String "-" ("profile-" +:+ pretty p')).
  intros [-> Hp]%dashed_inj. split; [done|]. apply string_app_inj_l in Hp. by apply (inj pretty).
Qed.

(** The identifiers under which a decision is recorded determine the action among
    those of the same type.  They do not determine the type: enabling and deleting a
    profile, suspending and reactivating an account, are recorded alike, and a spawn
    can be named so that it is recorded as an eSIM action. *)
Theorem audit_ids_determine :
  (∀ v v', a_type (as_action v) = a_type (as_action v') →
     audit_ids (as_action v) = audit_ids (as_action v') → v = v') ∧
  (∀ s p, audit_ids (as_action (VEnable s p)) = audit_ids (as_action (VDelete s p))) ∧
  (∀ a, audit_ids (as_action (VSuspend a)) = audit_ids (as_action (VReactivate a))) ∧
  vouched_ids (VSpawn "esim" "slot-1-profile-2") ∧
  audit_ids (as_action (VSpawn "esim" "slot-1-profile-2")) = audit_ids (as_action (VEnable 1 2)).
Proof.
  split_and!; try done. intros v v' Hty.
  destruct v as [m i|s p|s p|a s p|a|a|a], v' as [m' i'|s' p'|s' p'|a' s' p'|a'|a'|a']; try done; clear Hty;
    cbn -[String.app pretty]; intros [= Heq].
  - by subst.
  - by apply slot_profile_inj in Heq as [-> ->].
  - by apply slot_profile_inj in Heq as [-> ->].
  - change (pretty a +:+ String "-" ("slot-" +:+ pretty s +:+ "-profile-" +:+ pretty p) =
            pretty a' +:+ String "-" ("slot-" +:+ pretty s' +:+ "-profile-" +:+ pretty p')) in Heq.
    apply dashed_inj in Heq as [-> Heq]. apply string_app_inj_l in Heq.
    by apply slot_profile_inj in Heq as [-> ->].
  - f_equal. by apply (inj (pretty (A := N))).
  - f_equal. by apply (inj (pretty (A := N))).
  - f_equal. by apply (inj (pretty (A := N))).
Qed.
