(* ===== verification/DeskIdentity.v ===== *)
(** * DeskIdentity: the envelope the desktop proxy signs

    Model of [desktop/src/citadel/identity.rs] and of [build_enriched_envelope] of
    [proxy.rs]: the proxy's verifier identity, the full Kerkese envelope built from
    a vouched minimal one, its canonical payload and the signature over it.  The
    fresh UUID and the wall clock are arguments; a [BTreeMap] of strings is a
    [gmap]. *)

From Stdlib Require Import Ascii.
From S2P Require Import Prelude Text Bytes Capability DeskPolicy.

(** ** Calendar dates and timestamps

    Model of [civil_from_days] and [format_rfc3339_utc] of
    [desktop/src/citadel/identity.rs], against a calendar that only knows how to
    step from one day to the next.  [i64] values are [Z]; division truncates, as in
    Rust. *)

Local Open Scope Z_scope.

(** ** The code *)

Definition civil_from_days (z : Z) : Z * Z * Z :=
  let z := z + 719468 in
  let era := Z.quot (if decide (0 ≤ z) then z else z - 146096) 146097 in
  let doe := z - era * 146097 in
  let yoe := Z.quot (doe - Z.quot doe 1460 + Z.quot doe 36524 - Z.quot doe 146096) 365 in
  let y := yoe + era * 400 in
  let doy := doe - (365 * yoe + Z.quot yoe 4 - Z.quot yoe 100) in
  let mp := Z.quot (5 * doy + 2) 153 in
  let d := doy - Z.quot (153 * mp + 2) 5 + 1 in
  let m := if decide (mp < 10) then mp + 3 else mp - 9 in
  let y := if decide (m ≤ 2) then y + 1 else y in
  (y, m, d).

(** [{:0w}] of an [i64]: zeros go between the sign and the digits. *)
Fixpoint zeros_to (n : nat) (s : string) : string :=
  match n with O => s | S n => String "0" (zeros_to n s) end.
Definition pad (w : nat) (s : string) : string := zeros_to (w - String.length s) s.
Definition fmt_pad (w : nat) (n : Z) : string :=
  if decide (0 ≤ n) then pad w (pretty (Z.to_N n))
  else String "-" (pad (w - 1) (pretty (Z.to_N (- n)))).

Definition format_rfc3339_utc (unix_secs : Z) : string :=
  let days := unix_secs / 86400 in
  let secs_of_day := unix_secs mod 86400 in
  let '(year, month, day) := civil_from_days days in
  let hour := Z.quot secs_of_day 3600 in
  let minute := Z.quot (Z.rem secs_of_day 3600) 60 in
  let second := Z.rem secs_of_day 60 in
  fmt_pad 4 year +:+ "-" +:+ fmt_pad 2 month +:+ "-" +:+ fmt_pad 2 day +:+ "T" +:+
  fmt_pad 2 hour +:+ ":" +:+ fmt_pad 2 minute +:+ ":" +:+ fmt_pad 2 second +:+ "Z".

(** ** The calendar *)

Definition leap (y : Z) : bool :=
  bool_decide (y mod 4 = 0 ∧ (y mod 100 ≠ 0 ∨ y mod 400 = 0)).

Definition days_in_month (y m : Z) : Z :=
  if decide (m = 2) then if leap y then 29 else 28
  else if decide (m = 4 ∨ m = 6 ∨ m = 9 ∨ m = 11) then 30 else 31.

Definition valid_date (date : Z * Z * Z) : Prop :=
  let '(y, m, d) := date in 1 ≤ m ≤ 12 ∧ 1 ≤ d ≤ days_in_month y m.

Definition next_day (date : Z * Z * Z) : Z * Z * Z :=
  let '(y, m, d) := date in
  if decide (d < days_in_month y m) then (y, m, d + 1)
  else if decide (m < 12) then (y, m + 1, 1)
  else (y + 1, 1, 1).

(** ** One era is enough *)

Definition shift (k : Z) (date : Z * Z * Z) : Z * Z * Z := let '(y, m, d) := date in (y + 400 * k, m, d).

Lemma leap_shift y k : leap (y + 400 * k) = leap y.
Proof.
  unfold leap. apply bool_decide_ext.
  replace (y + 400 * k) with (y + (100 * k) * 4) by lia. rewrite Z.mod_add by lia.
  replace (y + 100 * k * 4) with (y + (4 * k) * 100) by lia. rewrite Z.mod_add by lia.
  replace (y + 4 * k * 100) with (y + k * 400) by lia. by rewrite Z.mod_add by lia.
Qed.

Lemma days_in_month_shift y m k : days_in_month (y + 400 * k) m = days_in_month y m.
Proof. unfold days_in_month. by rewrite leap_shift. Qed.

Lemma next_day_shift k date : next_day (shift k date) = shift k (next_day date).
Proof.
  destruct date as [[y m] d]. unfold next_day, shift. rewrite days_in_month_shift.
  repeat case_decide; try done. do 2 f_equal. lia.
Qed.

(** The [era] of the code is the floor. *)
Lemma era_floor z : Z.quot (if decide (0 ≤ z) then z else z - 146096) 146097 = z / 146097.
Proof.
  case_decide; [by rewrite Z.quot_div_nonneg by lia|].
  apply Z.div_unique with (r := z - 146097 * Z.quot (z - 146096) 146097); [|lia]. left.
  pose proof (Z.quot_rem (z - 146096) 146097 ltac:(lia)). pose proof (Z.rem_nonpos (z - 146096) 146097 ltac:(lia) ltac:(lia)).
  pose proof (Z.rem_bound_abs (z - 146096) 146097 ltac:(lia)). lia.
Qed.

(** ** Years and days of an era

    An era begins on a first of March; [start y] is the day its year [y] begins. *)

Definition start (y : Z) : Z := 365 * y + y / 4 - y / 100 + y / 400.
Definition raw (doe : Z) : Z := doe - Z.quot doe 1460 + Z.quot doe 36524 - Z.quot doe 146096.
Definition yoe_of (doe : Z) : Z := Z.quot (raw doe) 365.
Definition month_of (mp : Z) : Z := if decide (mp < 10) then mp + 3 else mp - 9.
Definition month_day (doy : Z) : Z * Z :=
  let mp := Z.quot (5 * doy + 2) 153 in (month_of mp, doy - Z.quot (153 * mp + 2) 5 + 1).

Definition all_below (f : Z → bool) (n : nat) : bool := forallb (λ k, f (Z.of_nat k)) (seq 0 n).

Lemma all_below_spec f n z : all_below f n = true → 0 ≤ z < Z.of_nat n → f z = true.
Proof.
  unfold all_below. rewrite forallb_forall. intros Hall Hz. specialize (Hall (Z.to_nat z)).
  rewrite Z2Nat.id in Hall by lia. apply Hall, in_seq. lia.
Qed.

Lemma raw_mono a b : 0 ≤ a ≤ b → b < 146097 → 0 ≤ raw a ≤ raw b.
Proof.
  intros Hab Hb. unfold raw. rewrite !Z.quot_div_nonneg by lia.
  assert (a = b ∨ a < b < 146096 ∨ b = 146096 ∧ a < b) as [->|[Hs|[-> Hs]]] by lia.
  - Z.to_euclidean_division_equations. lia.
  - rewrite (Z.div_small a 146096), (Z.div_small b 146096) by lia. Z.to_euclidean_division_equations. lia.
  - rewrite (Z.div_small a 146096) by lia. change (146096 / 1460) with 100. change (146096 / 36524) with 4.
    change (146096 / 146096) with 1. Z.to_euclidean_division_equations. lia.
Qed.

Lemma yoe_mono a b : 0 ≤ a ≤ b → b < 146097 → yoe_of a ≤ yoe_of b.
Proof. intros Hab Hb. apply Z.quot_le_mono; [lia|]. by apply raw_mono. Qed.

Lemma year_ends y : 0 ≤ y < 400 → yoe_of (start y) = y ∧ yoe_of (start (y + 1) - 1) = y.
Proof.
  intros Hy. pose proof (all_below_spec
    (λ y, bool_decide (yoe_of (start y) = y ∧ yoe_of (start (y + 1) - 1) = y)) 400 y eq_refl ltac:(lia)) as Hb.
  by apply bool_decide_eq_true in Hb.
Qed.

Lemma start_step y : start y + 365 ≤ start (y + 1) ≤ start y + 366.
Proof. unfold start. Z.to_euclidean_division_equations. lia. Qed.

(** The code's year formula finds the year a day lies in. *)
Lemma yoe_exact y doe : 0 ≤ y < 400 → start y ≤ doe < start (y + 1) → yoe_of doe = y.
Proof.
  intros Hy Hd. destruct (year_ends y Hy) as [H1 H2].
  assert (0 ≤ start y) by (unfold start; Z.to_euclidean_division_equations; lia).
  assert (start (y + 1) ≤ 146097) by (unfold start; Z.to_euclidean_division_equations; lia).
  pose proof (yoe_mono (start y) doe ltac:(lia) ltac:(lia)).
  pose proof (yoe_mono doe (start (y + 1) - 1) ltac:(lia) ltac:(lia)). lia.
Qed.

Lemma year_exists n doe : 0 ≤ doe < start (Z.of_nat n) → ∃ y, 0 ≤ y < Z.of_nat n ∧ start y ≤ doe < start (y + 1).
Proof.
  induction n as [|n IH]; [change (start (Z.of_nat 0)) with 0; lia|]. intros Hd.
  destruct (decide (doe < start (Z.of_nat n))) as [Hl|Hl].
  - destruct IH as (y & Hy & Hr); [lia|]. exists y. split; [lia|done].
  - exists (Z.of_nat n). replace (Z.of_nat n + 1) with (Z.of_nat (S n)) by lia. lia.
Qed.

Definition date_in (y doy : Z) : Z * Z * Z :=
  let '(m, d) := month_day doy in (if decide (m ≤ 2) then y + 1 else y, m, d).

Lemma civil_era z :
  civil_from_days z =
  let e := (z + 719468) / 146097 in
  let doe := z + 719468 - e * 146097 in
  shift e (date_in (yoe_of doe) (doe - (365 * yoe_of doe + Z.quot (yoe_of doe) 4 - Z.quot (yoe_of doe) 100))).
Proof.
  unfold civil_from_days. rewrite era_floor. cbv zeta. generalize ((z + 719468) / 146097) as e. intros e.
  generalize (z + 719468 - e * 146097) as doe. intros doe. unfold date_in, month_day, yoe_of, raw, month_of, shift.
  generalize (Z.quot (doe - Z.quot doe 1460 + Z.quot doe 36524 - Z.quot doe 146096) 365) as yoe. intros yoe.
  generalize (doe - (365 * yoe + Z.quot yoe 4 - Z.quot yoe 100)) as doy. intros doy.
  generalize (Z.quot (5 * doy + 2) 153) as mp. intros mp. repeat case_decide; do 2 f_equal; lia.
Qed.

Lemma start_bounds y : 0 ≤ y < 400 → 0 ≤ start y ∧ start (y + 1) ≤ 146097.
Proof. intros Hy. unfold start. Z.to_euclidean_division_equations. lia. Qed.

Lemma civil_in_era y doy :
  0 ≤ y < 400 → 0 ≤ doy < start (y + 1) - start y → civil_from_days (start y + doy - 719468) = date_in y doy.
Proof.
  intros Hy Hd. rewrite civil_era. destruct (start_bounds y Hy). cbv zeta.
  replace (start y + doy - 719468 + 719468) with (start y + doy) by lia.
  rewrite (Z.div_small (start y + doy)) by lia. replace (start y + doy - 0 * 146097) with (start y + doy) by lia.
  rewrite (yoe_exact y) by lia.
  replace (start y + doy - (365 * y + Z.quot y 4 - Z.quot y 100)) with doy.
  - destruct (date_in y doy) as [[y' m] d]. unfold shift. do 2 f_equal. lia.
  - unfold start. rewrite !Z.quot_div_nonneg by lia. rewrite (Z.div_small y 400) by lia. lia.
Qed.

(** Within a year, and from one year to the next. *)
Lemma long_year y : start (y + 1) - start y = if leap (y + 1) then 366 else 365.
Proof.
  unfold leap, start. case_bool_decide as Hl; Z.to_euclidean_division_equations; lia.
Qed.

Lemma civil_shift z k : civil_from_days (z + 146097 * k) = shift k (civil_from_days z).
Proof.
  rewrite !civil_era. cbv zeta.
  replace (z + 146097 * k + 719468) with (z + 719468 + k * 146097) by lia. rewrite Z.div_add by lia.
  generalize ((z + 719468) / 146097) as e. intros e.
  replace (z + 719468 + k * 146097 - (e + k) * 146097) with (z + 719468 - e * 146097) by lia.
  destruct (date_in _ _) as [[y m] d]. unfold shift. do 2 f_equal. lia.
Qed.

(** Every day but a year's last: a fixed table, up to the length of February. *)
Definition day_step_ok (long : bool) (doy : Z) : bool :=
  let '(m, d) := month_day doy in
  let last := if decide (m = 2) then if long then 29 else 28
              else if decide (m = 4 ∨ m = 6 ∨ m = 9 ∨ m = 11) then 30 else 31 in
  let next := if decide (d < last) then (m, d + 1) else if decide (m < 12) then (m + 1, 1) else (1, 1) in
  bool_decide (1 ≤ m ≤ 12 ∧ 1 ≤ d ≤ last ∧ month_day (doy + 1) = next ∧ (m = 2 → d < last)).

Lemma days_checked : all_below (day_step_ok false) 364 = true ∧ all_below (day_step_ok true) 365 = true.
Proof. split; vm_compute; reflexivity. Qed.

Lemma day_step (long : bool) doy :
  0 ≤ doy → doy + 1 < (if long then 366 else 365) → day_step_ok long doy = true.
Proof.
  intros Hd Hl. destruct days_checked as [H1 H2].
  destruct long; [apply (all_below_spec _ 365); [done|lia]|apply (all_below_spec _ 364); [done|lia]].
Qed.

Lemma step_in_year y doy :
  0 ≤ doy → doy + 1 < start (y + 1) - start y →
  next_day (date_in y doy) = date_in y (doy + 1) ∧ valid_date (date_in y doy).
Proof.
  rewrite long_year. intros Hd Hl. pose proof (day_step _ doy Hd Hl) as Hs. unfold day_step_ok in Hs.
  unfold date_in. destruct (month_day doy) as [m d]. set (yr := if decide (m ≤ 2) then y + 1 else y).
  set (last := if decide (m = 2) then _ else _) in Hs.
  assert (last = days_in_month yr m) as El.
  { unfold last, days_in_month, yr. destruct (decide (m = 2)) as [->|]; [by rewrite decide_True by lia|done]. }
  apply bool_decide_eq_true in Hs as (Hm & Hdd & -> & Hfeb). rewrite El in *. unfold next_day, valid_date.
  split; [|done]. unfold yr in *. repeat case_decide; try done; lia.
Qed.

Lemma step_year y :
  let last := start (y + 1) - start y - 1 in
  next_day (date_in y last) = date_in (y + 1) 0 ∧ valid_date (date_in y last).
Proof.
  cbv zeta. rewrite long_year. destruct (leap (y + 1)) eqn:Hl; unfold date_in.
  - change (month_day (366 - 1)) with (2, 29). change (month_day 0) with (3, 1). cbn [decide].
    unfold next_day, valid_date, days_in_month. rewrite (decide_True (P := 2 ≤ 2)), (decide_True (P := 2 = 2)), Hl by lia.
    rewrite decide_False, decide_True by lia. rewrite decide_False by lia. split; [done|lia].
  - change (month_day (365 - 1)) with (2, 28). change (month_day 0) with (3, 1).
    unfold next_day, valid_date, days_in_month. rewrite (decide_True (P := 2 ≤ 2)), (decide_True (P := 2 = 2)), Hl by lia.
    rewrite decide_False, decide_True by lia. rewrite decide_False by lia. split; [done|lia].
Qed.

Lemma valid_shift k date : valid_date date → valid_date (shift k date).
Proof. destruct date as [[y m] d]. unfold valid_date, shift. by rewrite days_in_month_shift. Qed.

(** The position of a day: era, year of the era, day of the year. *)
Lemma day_position z : ∃ k y doy, 0 ≤ y < 400 ∧ 0 ≤ doy < start (y + 1) - start y ∧
  z = start y + doy - 719468 + 146097 * k.
Proof.
  pose proof (Z.mod_pos_bound (z + 719468) 146097 ltac:(lia)) as Hm.
  destruct (year_exists 400 ((z + 719468) mod 146097)) as (y & Hy & Hd); [change (start (Z.of_nat 400)) with 146097; lia|].
  exists ((z + 719468) / 146097), y, ((z + 719468) mod 146097 - start y). split_and!; [lia..|].
  pose proof (Z.div_mod (z + 719468) 146097 ltac:(lia)). lia.
Qed.

Lemma civil_step z : valid_date (civil_from_days z) ∧ civil_from_days (z + 1) = next_day (civil_from_days z).
Proof.
  destruct (day_position z) as (k & y & doy & Hy & Hd & ->).
  rewrite civil_shift, civil_in_era by done. rewrite next_day_shift.
  destruct (decide (doy + 1 < start (y + 1) - start y)) as [Hin|Hlast].
  - destruct (step_in_year y doy) as [-> Hv]; [lia|done|]. split; [by apply valid_shift|].
    replace (start y + doy - 719468 + 146097 * k + 1) with (start y + (doy + 1) - 719468 + 146097 * k) by lia.
    by rewrite civil_shift, civil_in_era by lia.
  - replace doy with (start (y + 1) - start y - 1) by lia. destruct (step_year y) as [-> Hv].
    split; [by apply valid_shift|].
    replace (start y + (start (y + 1) - start y - 1) - 719468 + 146097 * k + 1)
      with (start (y + 1) + 0 - 719468 + 146097 * k) by lia.
    destruct (decide (y = 399)) as [->|Hne].
    + replace (start (399 + 1) + 0 - 719468 + 146097 * k) with (start 0 + 0 - 719468 + 146097 * (k + 1))
        by (change (start 0) with 0; change (start (399 + 1)) with 146097; lia).
      rewrite civil_shift, civil_in_era by done. unfold date_in, shift. change (month_day 0) with (3, 1).
      cbn [fst snd]. destruct (decide (3 ≤ 2)); [lia|]. do 2 f_equal. lia.
    + rewrite civil_shift, civil_in_era; [done|lia|]. pose proof (start_step (y + 1)). lia.
Qed.


(** ** Order *)

Definition date_lt (a b : Z * Z * Z) : Prop :=
  let '(y, m, d) := a in let '(y', m', d') := b in
  y < y' ∨ y = y' ∧ (m < m' ∨ m = m' ∧ d < d').

Lemma date_lt_trans a b c : date_lt a b → date_lt b c → date_lt a c.
Proof. destruct a as [[??]?], b as [[??]?], c as [[??]?]. cbn. lia. Qed.

Lemma next_day_lt date : date_lt date (next_day date).
Proof. destruct date as [[y m] d]. unfold next_day. repeat case_decide; cbn; lia. Qed.

Lemma civil_lt z z' : z < z' → date_lt (civil_from_days z) (civil_from_days z').
Proof.
  intros Hz. replace z' with (z + 1 + (z' - z - 1)) by lia. assert (0 ≤ z' - z - 1) as Hn by lia.
  revert Hn. generalize (z' - z - 1). apply natlike_ind.
  - rewrite Z.add_0_r. destruct (civil_step z) as [_ ->]. apply next_day_lt.
  - intros n Hn IH. eapply date_lt_trans; [exact IH|]. replace (z + 1 + Z.succ n) with (z + 1 + n + 1) by lia.
    destruct (civil_step (z + 1 + n)) as [_ ->]. apply next_day_lt.
Qed.

Lemma civil_inj z z' : civil_from_days z = civil_from_days z' → z = z'.
Proof.
  intros Heq. destruct (Z.lt_total z z') as [Hl|[Hl|Hl]]; [|done|]; apply civil_lt in Hl; rewrite Heq in Hl;
    destruct (civil_from_days z') as [[??]?]; cbn in Hl; lia.
Qed.

(** ** Timestamps *)

Fixpoint read_digits (acc : N) (s : string) : N :=
  match s with
  | EmptyString => acc
  | String c s => read_digits (10 * acc + (N_of_ascii c - 48)) s
  end.

Lemma read_pretty_go n s : read_digits 0 (pretty_N_go n s) = read_digits n s.
Proof.
  revert s. induction n as [n IH] using (well_founded_induction N.lt_wf_0). intros s.
  destruct (decide (n = 0)%N) as [->|Hn]; [by rewrite pretty_N_go_0|].
  rewrite pretty_N_go_step by lia. rewrite IH by (apply N.div_lt; lia). cbn [read_digits]. f_equal.
  assert (∀ d, (d < 10)%N → (N_of_ascii (pretty_N_char d) - 48 = d)%N) as Hc.
  { intros d Hd. assert (d = 0 ∨ d = 1 ∨ d = 2 ∨ d = 3 ∨ d = 4 ∨ d = 5 ∨ d = 6 ∨ d = 7 ∨ d = 8 ∨ d = 9)%N as Hcases by lia.
    by destruct_or!; subst. }
  rewrite Hc by (apply N.mod_lt; lia). pose proof (N.div_mod n 10 ltac:(lia)). lia.
Qed.

Lemma length_pretty_go w : ∀ n s, (n < 10 ^ N.of_nat w)%N → (String.length (pretty_N_go n s) ≤ w + String.length s)%nat.
Proof.
  induction w as [|w IH]; intros n s Hn.
  - assert (n = 0)%N as -> by (cbn in Hn; lia). by rewrite pretty_N_go_0.
  - destruct (decide (n = 0)%N) as [->|Hz]; [rewrite pretty_N_go_0; lia|]. rewrite pretty_N_go_step by lia.
    etrans; [apply IH|cbn; lia]. apply N.Div0.div_lt_upper_bound.
    rewrite Nat2N.inj_succ, N.pow_succ_r' in Hn. lia.
Qed.

Lemma read_zeros k s : read_digits 0 (zeros_to k s) = read_digits 0 s.
Proof. induction k as [|k IH]; [done|]. cbn [zeros_to read_digits]. exact IH. Qed.

Lemma length_zeros k s : String.length (zeros_to k s) = (k + String.length s)%nat.
Proof. induction k as [|k IH]; [done|]. cbn. by rewrite IH. Qed.

Lemma pad_digits w n :
  (0 < w)%nat → 0 ≤ n → (Z.to_N n < 10 ^ N.of_nat w)%N →
  String.length (fmt_pad w n) = w ∧ Z.of_N (read_digits 0 (fmt_pad w n)) = n.
Proof.
  intros Hw Hn Hlt. unfold fmt_pad, pad. rewrite decide_True by done. rewrite length_zeros, read_zeros.
  assert (String.length (pretty (Z.to_N n)) ≤ w ∧ read_digits 0 (pretty (Z.to_N n)) = Z.to_N n)%nat as [Hl Hr].
  { unfold pretty, pretty_N. case_decide as Hz; [rewrite Hz; split; [exact Hw|done]|].
    split; [|apply read_pretty_go]. pose proof (length_pretty_go w _ "" Hlt) as Hp. cbn [String.length] in Hp. by rewrite Nat.add_0_r in Hp. }
  rewrite Hr. split; lia.
Qed.

Lemma pad2 n : 0 ≤ n < 100 → String.length (fmt_pad 2 n) = 2%nat ∧ Z.of_N (read_digits 0 (fmt_pad 2 n)) = n.
Proof. intros Hn. apply pad_digits; [lia..|]. change (10 ^ N.of_nat 2)%N with 100%N. lia. Qed.

Lemma pad4 n : 0 ≤ n < 10000 → String.length (fmt_pad 4 n) = 4%nat ∧ Z.of_N (read_digits 0 (fmt_pad 4 n)) = n.
Proof. intros Hn. apply pad_digits; [lia..|]. change (10 ^ N.of_nat 4)%N with 10000%N. lia. Qed.

Definition LAST_SECOND : Z := 253402300799.

Lemma year_range t y m d :
  0 ≤ t ≤ LAST_SECOND → civil_from_days (t / 86400) = (y, m, d) → 0 ≤ y < 10000 ∧ 1 ≤ m ≤ 12 ∧ 1 ≤ d < 100.
Proof.
  unfold LAST_SECOND. intros Ht Hc. destruct (civil_step (t / 86400)) as [Hv _]. rewrite Hc in Hv. destruct Hv as [Hm Hd].
  assert (0 ≤ t / 86400 ≤ 2932896) as Hz by (split; [apply Z.div_pos; lia|apply Z.lt_succ_r, Z.div_lt_upper_bound; lia]).
  assert (days_in_month y m ≤ 31) by (unfold days_in_month; destruct (leap y); repeat case_decide; lia).
  split; [|lia]. split.
  - destruct (decide (t / 86400 = 0)) as [E|]; [rewrite E in Hc; change (civil_from_days 0) with (1970, 1, 1) in Hc; injection Hc as <- _ _; lia|].
    assert (0 < t / 86400) as Hl%civil_lt by lia. rewrite Hc in Hl. change (civil_from_days 0) with (1970, 1, 1) in Hl.
    cbn in Hl. lia.
  - destruct (decide (t / 86400 = 2932896)) as [E|]; [rewrite E in Hc; change (civil_from_days 2932896) with (9999, 12, 31) in Hc; injection Hc as <- _ _; lia|].
    assert (t / 86400 < 2932896) as Hl%civil_lt by lia. rewrite Hc in Hl.
    change (civil_from_days 2932896) with (9999, 12, 31) in Hl. cbn in Hl. lia.
Qed.

Lemma fixed_split (a a' b b' : string) :
  String.length a = String.length a' → a +:+ b = a' +:+ b' → a = a' ∧ b = b'.
Proof.
  revert a'. induction a as [|c a IH]; intros [|c' a'] Hl Heq; try done. cbn in Hl, Heq. injection Heq as -> Heq.
  destruct (IH a') as [-> ->]; [lia|done|done].
Qed.

Lemma pad_inj w n n' (s s' : string) :
  String.length (fmt_pad w n) = String.length (fmt_pad w n') →
  Z.of_N (read_digits 0 (fmt_pad w n)) = n → Z.of_N (read_digits 0 (fmt_pad w n')) = n' →
  fmt_pad w n +:+ s = fmt_pad w n' +:+ s' → n = n' ∧ s = s'.
Proof. intros Hl H1 H2 [He Hs]%fixed_split; [|done]. split; [|done]. rewrite <-H1, <-H2. by rewrite He. Qed.

Lemma pad2_inj n n' (s s' : string) :
  0 ≤ n < 100 → 0 ≤ n' < 100 → fmt_pad 2 n +:+ s = fmt_pad 2 n' +:+ s' → n = n' ∧ s = s'.
Proof. intros [L1 R1]%pad2 [L2 R2]%pad2. apply pad_inj; [by rewrite L1, L2|done..]. Qed.

Lemma pad4_inj n n' (s s' : string) :
  0 ≤ n < 10000 → 0 ≤ n' < 10000 → fmt_pad 4 n +:+ s = fmt_pad 4 n' +:+ s' → n = n' ∧ s = s'.
Proof. intros [L1 R1]%pad4 [L2 R2]%pad4. apply pad_inj; [by rewrite L1, L2|done..]. Qed.

Lemma seconds_split t :
  let s := t mod 86400 in
  0 ≤ Z.quot s 3600 < 24 ∧ 0 ≤ Z.quot (Z.rem s 3600) 60 < 60 ∧ 0 ≤ Z.rem s 60 < 60 ∧
  s = 3600 * Z.quot s 3600 + 60 * Z.quot (Z.rem s 3600) 60 + Z.rem s 60.
Proof.
  cbv zeta. pose proof (Z.mod_pos_bound t 86400 ltac:(lia)) as Hs. revert Hs. generalize (t mod 86400). intros s Hs.
  rewrite !Z.rem_mod_nonneg by lia. rewrite !Z.quot_div_nonneg by (try apply Z.mod_pos_bound; lia).
  Z.to_euclidean_division_equations. lia.
Qed.

Lemma timestamp_both t t' :
  0 ≤ t ≤ LAST_SECOND → 0 ≤ t' ≤ LAST_SECOND →
  String.length (format_rfc3339_utc t) = 20%nat ∧ (format_rfc3339_utc t = format_rfc3339_utc t' → t = t').
Proof.
  intros Ht Ht'. unfold format_rfc3339_utc.
  destruct (civil_from_days (t / 86400)) as [[y m] d] eqn:Hc. destruct (civil_from_days (t' / 86400)) as [[y' m'] d'] eqn:Hc'.
  destruct (year_range t y m d Ht Hc) as (Hy & Hm & Hd). destruct (year_range t' y' m' d' Ht' Hc') as (Hy' & Hm' & Hd').
  destruct (seconds_split t) as (Hh & Hi & Hs & Et). destruct (seconds_split t') as (Hh' & Hi' & Hs' & Et').
  split.
  - rewrite !string_length_app. rewrite (proj1 (pad4 y Hy)), (proj1 (pad2 m ltac:(lia))), (proj1 (pad2 d ltac:(lia))).
    by rewrite (proj1 (pad2 _ (conj (proj1 Hh) (Z.lt_trans _ _ 100 (proj2 Hh) eq_refl)))),
      (proj1 (pad2 _ (conj (proj1 Hi) (Z.lt_trans _ _ 100 (proj2 Hi) eq_refl)))),
      (proj1 (pad2 _ (conj (proj1 Hs) (Z.lt_trans _ _ 100 (proj2 Hs) eq_refl)))).
  - intros [-> [= [-> [= [-> [= [Eh [= [Ei [= [Es _]%pad2_inj]]%pad2_inj]]%pad2_inj]]%pad2_inj]]%pad2_inj]]%pad4_inj; try lia.
    assert (t / 86400 = t' / 86400) as Ed by (apply civil_inj; congruence).
    pose proof (Z.div_mod t 86400 ltac:(lia)). pose proof (Z.div_mod t' 86400 ltac:(lia)). lia.
Qed.

Lemma timestamp_length t : 0 ≤ t ≤ LAST_SECOND → String.length (format_rfc3339_utc t) = 20%nat.
Proof. intros Ht. apply (timestamp_both t t Ht Ht). Qed.

Lemma timestamp_inj t t' :
  0 ≤ t ≤ LAST_SECOND → 0 ≤ t' ≤ LAST_SECOND → format_rfc3339_utc t = format_rfc3339_utc t' → t = t'.
Proof. intros Ht Ht'. apply (timestamp_both t t' Ht Ht'). Qed.

(** A timestamp says exactly one second: over all of the years 1970 to 9999 the
    formatted text has 20 characters, and two instants with the same text are the
    same instant. *)
Theorem timestamp_faithful t t' :
  0 ≤ t ≤ LAST_SECOND → 0 ≤ t' ≤ LAST_SECOND →
  String.length (format_rfc3339_utc t) = 20%nat ∧ (format_rfc3339_utc t = format_rfc3339_utc t' → t = t').
Proof. apply timestamp_both. Qed.

Lemma timestamp_faithful_witness :
  String.length (format_rfc3339_utc 1775383200) = 20%nat ∧ format_rfc3339_utc 1775383200 = "2026-04-05T10:00:00Z"%string ∧
  (format_rfc3339_utc 1775383200 = format_rfc3339_utc 0 → 1775383200 = 0).
Proof.
  pose proof (timestamp_faithful 1775383200 0 ltac:(unfold LAST_SECOND; lia) ltac:(unfold LAST_SECOND; lia)) as [Hl Hi].
  split; [exact Hl|]. split; [vm_compute; reflexivity|exact Hi].
Defined.

Local Close Scope Z_scope.

Local Open Scope string_scope.

(** ** Data *)

Definition PROXY_VERIFIER_USER_ID : string := "citadel_proxy:verifier".
Definition PROXY_VERIFIER_ROLE : string := "auditor".

Record KerkeseActor := mkKActor { kac_user_id : string; kac_role : string; kac_email : option string }.
Record KerkeseVerifier := mkKVerifier { kv_user_id : string; kv_role : string; kv_email : option string }.

Definition this_proxy : KerkeseVerifier := mkKVerifier PROXY_VERIFIER_USER_ID PROXY_VERIFIER_ROLE None.

Record KerkeseSoD := mkSoD { operator_user_id : string; verifier_user_id : string }.
Record KerkeseAction := mkKAction { kact_type : string; kact_description : string }.

(** [KerkeseEvidence] is its [extra]. *)
Record Kerkese := mkKerkese {
  k_version : string;
  k_ts_utc : string;
  k_project_id : string;
  k_execution_id : string;
  k_action : KerkeseAction;
  k_actor : KerkeseActor;
  k_verifier : KerkeseVerifier;
  k_extra : gmap string string;
  k_sod : KerkeseSoD;
  k_dry_run : bool;
  k_sig_verifier : string;
}.

(** ** What is signed *)

Definition canonical_payload (k : Kerkese) : string :=
  "v1|" +:+ k_execution_id k +:+ "|" +:+ kact_type (k_action k) +:+ "|" +:+ "" +:+ "|" +:+
  kac_user_id (k_actor k) +:+ "|" +:+ kac_role (k_actor k) +:+ "|" +:+
  kv_user_id (k_verifier k) +:+ "|" +:+ kv_role (k_verifier k) +:+ "|" +:+
  operator_user_id (k_sod k) +:+ "|" +:+ verifier_user_id (k_sod k) +:+ "|" +:+ k_ts_utc k.

Section envelope.
Context `{SS : SignatureScheme}.

Definition sign_verifier_payload (payload : string) (signing_key : SigningKey) : string :=
  hex_encode (sign signing_key payload).

(** [kerkese.sig_verifier = sign_verifier_payload(&payload, signing_key)] *)
Definition with_signature (k : Kerkese) (signing_key : SigningKey) : Kerkese :=
  mkKerkese (k_version k) (k_ts_utc k) (k_project_id k) (k_execution_id k) (k_action k) (k_actor k)
    (k_verifier k) (k_extra k) (k_sod k) (k_dry_run k)
    (sign_verifier_payload (canonical_payload k) signing_key).

(** The evidence and the description of an action: the branches of
    [build_enriched_envelope]. *)
Definition evidence_of_action (a : KernelMinimalAction) : gmap string string * string :=
  if is_data_action (a_type a) then
    let account := pretty (default 0%N (a_account a)) in
    (<["account" := account]> ∅, a_type a +:+ " account=" +:+ account)
  else if is_mvno_action (a_type a) then
    let account := pretty (default 0%N (a_account a)) in
    let extra := <["account" := account]> ∅ in
    if decide (a_type a = MVNO_BIND_PROFILE_ACTION) then
      let slot := pretty (default 0%N (a_slot a)) in
      let profile := pretty (default 0%N (a_profile a)) in
      (<["profile" := profile]> (<["slot" := slot]> extra),
       a_type a +:+ " account=" +:+ account +:+ " slot=" +:+ slot +:+ " profile=" +:+ profile)
    else (extra, a_type a +:+ " account=" +:+ account)
  else if is_esim_action (a_type a) then
    let slot := pretty (default 0%N (a_slot a)) in
    let profile := pretty (default 0%N (a_profile a)) in
    (<["profile" := profile]> (<["slot" := slot]> ∅), a_type a +:+ " slot=" +:+ slot +:+ " profile=" +:+ profile)
  else
    (<["instance_id" := a_instance_id a]> (<["module_id" := a_module_id a]> ∅),
     "grid_sandbox.spawn_instance module_id=" +:+ a_module_id a +:+ " instance_id=" +:+ a_instance_id a).

Definition build_enriched_envelope (envelope : KernelMinimalEnvelope) (signing_key : SigningKey)
    (uuid : string) (now_unix_secs : Z) : Kerkese :=
  let ts_utc := format_rfc3339_utc now_unix_secs in
  let '(extra, description) := evidence_of_action (env_action envelope) in
  let extra :=
    if negb (is_empty_str (env_execution_id envelope))
    then <["kernel_execution_id" := env_execution_id envelope]> extra else extra in
  let actor := mkKActor (ka_user_id (env_actor envelope)) (ka_role (env_actor envelope)) None in
  let verifier := this_proxy in
  let sod := mkSoD (kac_user_id actor) (kv_user_id verifier) in
  let kerkese :=
    mkKerkese (if is_empty_str (env_version envelope) then "1.0" else env_version envelope) ts_utc "runix" uuid
      (mkKAction (a_type (env_action envelope)) description) actor verifier extra sod (env_dry_run envelope) "" in
  with_signature kerkese signing_key.
End envelope.

(** ** The payload determines who, what and when *)

Lemma identifier_free s : is_well_formed_identifier s = true → free "|" s = true.
Proof.
  unfold is_well_formed_identifier. rewrite !andb_true_iff. intros [_ Hc]. revert Hc.
  apply all_chars_impl. intros c Hc. apply negb_true_iff, bool_decide_eq_false. intros ->. by vm_compute in Hc.
Qed.

Lemma vouched_type_free v : free "|" (a_type (as_action v)) = true.
Proof. by destruct v. Qed.

Lemma fixed_split_r (a a' b b' : string) :
  String.length b = String.length b' → a +:+ b = a' +:+ b' → a = a' ∧ b = b'.
Proof.
  intros Hl Heq. apply fixed_split; [|done].
  apply (f_equal String.length) in Heq. rewrite !string_length_app in Heq. lia.
Qed.

Lemma sep_inj (a a' b b' : string) :
  free "|" a = true → free "|" a' = true → a +:+ String "|" b = a' +:+ String "|" b' → a = a' ∧ b = b'.
Proof.
  intros Ha Ha' Heq. apply (f_equal (split_once "|")) in Heq. rewrite !split_once_app in Heq by done.
  by injection Heq as -> ->.
Qed.

Section payload.
Context `{SS : SignatureScheme}.

(** The signed bytes of a vouched request. *)
Definition request_payload (e : KernelMinimalEnvelope) (uuid : string) (now : Z) : string :=
  "v1|" +:+ uuid +:+ String "|" (a_type (env_action e) +:+ String "|" (String "|"
    (ka_user_id (env_actor e) +:+ String "|" (ka_role (env_actor e) +:+
      ("|citadel_proxy:verifier|auditor|" +:+ ka_user_id (env_actor e) +:+
        ("|citadel_proxy:verifier|" +:+ format_rfc3339_utc now)))))).

Lemma built_payload e k uuid now :
  canonical_payload (build_enriched_envelope e k uuid now) = request_payload e uuid now.
Proof.
  unfold build_enriched_envelope. destruct (evidence_of_action (env_action e)) as [extra d].
  unfold canonical_payload, with_signature, request_payload. cbn [k_execution_id k_action k_actor k_verifier k_sod k_ts_utc
    kact_type kac_user_id kac_role kv_user_id kv_role operator_user_id verifier_user_id this_proxy].
  unfold PROXY_VERIFIER_USER_ID, PROXY_VERIFIER_ROLE. reflexivity.
Qed.

Lemma request_payload_inj e e' uuid uuid' now now' :
  check e = Ok () → check e' = Ok () → free "|" uuid = true → free "|" uuid' = true →
  (0 ≤ now ≤ LAST_SECOND)%Z → (0 ≤ now' ≤ LAST_SECOND)%Z →
  request_payload e uuid now = request_payload e' uuid' now' →
  uuid = uuid' ∧ a_type (env_action e) = a_type (env_action e') ∧ env_actor e = env_actor e' ∧ now = now'.
Proof.
  intros (v & Ha & _ & _ & Hu)%policy_check_Ok (v' & Ha' & _ & _ & Hu')%policy_check_Ok Huu Huu' Hn Hn'.
  unfold request_payload. rewrite Ha, Ha'. intros Heq. apply string_app_inj_l in Heq.
  apply sep_inj in Heq as [-> Heq]; [|done..].
  apply sep_inj in Heq as [Ht [= Heq]]; [|apply vouched_type_free..].
  apply sep_inj in Heq as [Hid Heq]; [|by apply identifier_free..].
  pose proof (timestamp_length now Hn) as Hl. pose proof (timestamp_length now' Hn') as Hl'.
  apply fixed_split_r in Heq as [Hr Heq]; [|by rewrite !string_length_app, Hid, Hl, Hl'].
  rewrite Hid in Heq. apply string_app_inj_l in Heq. apply string_app_inj_l in Heq. apply string_app_inj_l in Heq.
  split_and!; [done|done| |by apply timestamp_inj].
  destruct (env_actor e), (env_actor e'); cbn in *; congruence.
Qed.
End payload.

(** ** Separation of duties and the signature *)

Section spec.
Context `{SS : SignatureScheme} `{!SignatureLaws SS}.

(** What the proxy signs is exactly who asked, for which kind of action, under which
    request id and when: two vouched requests have the same signed payload if and
    only if they agree on those, whatever characters the unchecked role contains.
    The subject of the action (account, slot, profile, module) is not part of it. *)
Theorem payload_exact k k' e e' uuid uuid' now now' :
  check e = Ok () → check e' = Ok () → free "|" uuid = true → free "|" uuid' = true →
  (0 ≤ now ≤ LAST_SECOND)%Z → (0 ≤ now' ≤ LAST_SECOND)%Z →
  canonical_payload (build_enriched_envelope e k uuid now) =
    canonical_payload (build_enriched_envelope e' k' uuid' now') ↔
  uuid = uuid' ∧ a_type (env_action e) = a_type (env_action e') ∧ env_actor e = env_actor e' ∧ now = now'.
Proof.
  intros He He' Hu Hu' Hn Hn'. rewrite !built_payload. split; [by apply request_payload_inj|].
  intros (-> & Ht & Ha & ->). unfold request_payload. by rewrite Ht, Ha.
Qed.

(** The evidence of a vouched action holds the very fields it is identified by, and
    beside them only the execution id the caller chose. *)
Definition vouched_evidence (v : Vouched) : gmap string string :=
  match v with
  | VSpawn m i => <["instance_id" := i]> (<["module_id" := m]> ∅)
  | VEnable s p | VDelete s p => <["profile" := pretty p]> (<["slot" := pretty s]> ∅)
  | VBind a s p => <["profile" := pretty p]> (<["slot" := pretty s]> (<["account" := pretty a]> ∅))
  | VSuspend a | VReactivate a | VReset a => <["account" := pretty a]> ∅
  end.

Lemma evidence_vouched v : (evidence_of_action (as_action v)).1 = vouched_evidence v.
Proof. by destruct v. Qed.

(** [gate3NDS]'s two checks pass on the envelope. *)
Definition separated (k : Kerkese) : Prop :=
  operator_user_id (k_sod k) = kac_user_id (k_actor k) ∧ verifier_user_id (k_sod k) = kv_user_id (k_verifier k) ∧
  operator_user_id (k_sod k) ≠ verifier_user_id (k_sod k).

Lemma built_fields e k uuid now :
  let K := build_enriched_envelope e k uuid now in
  kact_type (k_action K) = a_type (env_action e) ∧ k_dry_run K = env_dry_run e ∧ k_execution_id K = uuid ∧
  kac_user_id (k_actor K) = ka_user_id (env_actor e) ∧ kac_role (k_actor K) = ka_role (env_actor e) ∧
  k_verifier K = this_proxy ∧ k_sod K = mkSoD (ka_user_id (env_actor e)) PROXY_VERIFIER_USER_ID ∧
  k_extra K = (if is_empty_str (env_execution_id e) then id else insert "kernel_execution_id" (env_execution_id e))
                (evidence_of_action (env_action e)).1 ∧
  k_sig_verifier K = sign_verifier_payload (canonical_payload K) k.
Proof.
  unfold build_enriched_envelope. destruct (evidence_of_action (env_action e)) as [extra d].
  generalize (format_rfc3339_utc now). intros ts. cbv zeta. split_and!; [reflexivity..| |reflexivity]. cbn [k_extra with_signature fst]. by destruct (is_empty_str (env_execution_id e)).
Qed.

End spec.

(** ** Concrete envelopes *)

Import Demo.

Module DeskDemo.
Definition key : @SigningKey Demo.scheme := 9%N.
Definition uuid : string := "00000000-0000-0000-0000-000000000001".
Definition reset : KernelMinimalEnvelope :=
  mkEnvelope "1.0" true (as_action (VReset 7)) (mkActor "kernel:subscriber" "operator") "data-reset-7" None.
(** The same request by someone who calls itself the proxy, with separators in its role. *)
Definition impostor : KernelMinimalEnvelope :=
  mkEnvelope "1.0" true (as_action (VReset 8)) (mkActor PROXY_VERIFIER_USER_ID "a|b") "" None.
End DeskDemo.

Lemma payload_exact_witness :
  canonical_payload (build_enriched_envelope (SS := Demo.scheme) DeskDemo.reset DeskDemo.key DeskDemo.uuid 1775383200) ≠
  canonical_payload (build_enriched_envelope (SS := Demo.scheme) DeskDemo.impostor DeskDemo.key DeskDemo.uuid 1775383200).
Proof.
  intros Heq.
  apply (payload_exact (SS := Demo.scheme) DeskDemo.key DeskDemo.key DeskDemo.reset DeskDemo.impostor DeskDemo.uuid
    DeskDemo.uuid 1775383200 1775383200) in Heq;
    [by destruct Heq as (_ & _ & [=] & _)|reflexivity|reflexivity|reflexivity|reflexivity|unfold LAST_SECOND; lia..].
Defined.

