(* ===== verification/DeskProxy.v ===== *)
(** * DeskProxy: from a request to CITADEL and back

    Model of the pipeline of [desktop/src/citadel/proxy.rs] and of the HTTP transport
    of [desktop/src/citadel/transport.rs]: parse, check, record, enrich, forward,
    translate.  What the crates do is given by parameters: [serde_json]'s reading and
    writing ([DeskJson]), the texts of HTTP statuses ([HttpText]), and one exchange of
    the HTTP client, the fresh UUID and the clock per request ([World]).  A Rust
    [String] is a byte string that is [text]. *)

From Stdlib Require Import Ascii.
From S2P Require Import Prelude Text Bytes Worm Marshal MarshalCodec Capability DeskPolicy DeskIdentity.

(** ** Cutting a message at a character boundary

    Model of [truncate_message] of [desktop/src/citadel/proxy.rs], with
    [str::is_char_boundary], and what cutting UTF-8 text at a boundary keeps. *)

(** ** The code *)

Definition is_char_boundary (s : list N) (index : nat) : bool :=
  if decide (index = 0) then true
  else match s !! index with
       | None => bool_decide (index = length s)
       | Some b => negb (continuation b)
       end.

(** [while end > 0 && !s.is_char_boundary(end) { end -= 1 }] *)
Fixpoint floor_boundary (s : list N) (end_ : nat) : nat :=
  match end_ with
  | O => O
  | S e => if is_char_boundary s end_ then end_ else floor_boundary s e
  end.

Definition truncate_message (s : string) : string :=
  if decide (N.of_nat (String.length s) ≤ MAX_MESSAGE_LEN)%N then s
  else from_bytes (take (floor_boundary (as_bytes s) (N.to_nat MAX_MESSAGE_LEN)) (as_bytes s)).

(** ** Characters *)

(** One encoded character: a lead byte and its continuation bytes. *)
Definition one_char (c : list N) : Prop :=
  ∃ b0 cs, c = b0 :: cs ∧ length cs ≤ 3 ∧ continuation b0 = false ∧ Forall (λ b, continuation b = true) cs ∧
  ∀ rest, utf8_valid (c ++ rest) = utf8_valid rest.

Lemma in_range_true lo hi b : in_range lo hi b = true ↔ (lo ≤ b ∧ b ≤ hi)%N.
Proof. apply bool_decide_eq_true. Qed.

Lemma in_range_false lo hi b : in_range lo hi b = false ↔ ¬ (lo ≤ b ∧ b ≤ hi)%N.
Proof. apply bool_decide_eq_false. Qed.

Ltac ranges :=
  repeat match goal with
  | H : in_range _ _ _ = true |- _ => apply in_range_true in H
  | H : in_range _ _ _ = false |- _ => apply in_range_false in H
  | H : continuation _ = true |- _ => unfold continuation in H
  | |- continuation _ = true => unfold continuation; apply in_range_true
  | |- continuation _ = false => unfold continuation; apply in_range_false
  end.

Lemma utf8_uncons bs :
  utf8_valid bs = true → bs = [] ∨ ∃ c rest, bs = c ++ rest ∧ one_char c ∧ utf8_valid rest = true.
Proof.
  destruct bs as [|b0 rest]; [by left|]. intros Hv. right. cbn [utf8_valid] in Hv.
  destruct (in_range 0 0x7F b0) eqn:R1.
  { exists [b0], rest. split_and!; [done| |done]. exists b0, []. split_and!; [done|cbn; lia| |done|].
    - ranges. lia.
    - intros r. cbn. by rewrite R1. }
  destruct rest as [|b1 rest]; [done|]. destruct (in_range 0xC2 0xDF b0) eqn:R2.
  { apply andb_true_iff in Hv as [C1 Hv]. exists [b0; b1], rest. split_and!; [done| |done].
    exists b0, [b1]. split_and!; [done|cbn; lia| |by repeat constructor|].
    - ranges. lia.
    - intros r. cbn. by rewrite R1, R2, C1. }
  destruct rest as [|b2 rest]; [done|]. destruct (in_range 0xE0 0xEF b0) eqn:R3.
  { apply andb_true_iff in Hv as [[C1 C2]%andb_true_iff Hv]. exists [b0; b1; b2], rest. split_and!; [done| |done].
    exists b0, [b1; b2]. split_and!; [done|cbn; lia| | |].
    - ranges. lia.
    - repeat constructor; [|done]. repeat case_decide; ranges; lia.
    - intros r. cbn. by rewrite R1, R2, R3, C1, C2. }
  destruct rest as [|b3 rest]; [done|].
  apply andb_true_iff in Hv as [[[[R4 C1]%andb_true_iff C2]%andb_true_iff C3]%andb_true_iff Hv].
  exists [b0; b1; b2; b3], rest. split_and!; [done| |done].
  exists b0, [b1; b2; b3]. split_and!; [done|cbn; lia| | |].
  - ranges. lia.
  - repeat constructor; [|done|done]. repeat case_decide; ranges; lia.
  - intros r. cbn. by rewrite R1, R2, R3, R4, C1, C2, C3.
Qed.

(** Induction over the characters of valid text. *)
Lemma utf8_ind (P : list N → Prop) :
  P [] → (∀ c rest, one_char c → utf8_valid rest = true → P rest → P (c ++ rest)) →
  ∀ bs, utf8_valid bs = true → P bs.
Proof.
  intros Hnil Hcons bs. remember (length bs) as n eqn:Hn. revert bs Hn.
  induction n as [n IH] using lt_wf_ind. intros bs -> Hv.
  destruct (utf8_uncons bs Hv) as [->|(c & rest & -> & Hc & Hr)]; [done|].
  apply Hcons; [done..|]. apply (IH (length rest)); [|done..].
  destruct Hc as (b0 & cs & -> & _). rewrite length_app. cbn. lia.
Qed.

Lemma utf8_app a b : utf8_valid a = true → utf8_valid (a ++ b) = utf8_valid b.
Proof.
  intros Ha. revert a Ha. apply utf8_ind; [done|]. intros c rest (b0 & cs & _ & _ & _ & _ & Hc) _ IH.
  by rewrite <-app_assoc, Hc.
Qed.

Lemma as_bytes_app s t : as_bytes (s +:+ t) = as_bytes s ++ as_bytes t.
Proof. induction s as [|c s IH]; [done|]. change (N_of_ascii c :: as_bytes (s +:+ t) = N_of_ascii c :: as_bytes s ++ as_bytes t). by rewrite IH. Qed.

(** A Rust [String]. *)
Definition text (s : string) : Prop := utf8_valid (as_bytes s) = true.

Lemma text_app s t : text s → text t → text (s +:+ t).
Proof. unfold text. intros Hs Ht. by rewrite as_bytes_app, utf8_app. Qed.

(** ** Cutting *)

Lemma boundary_inside c rest i :
  one_char c → 0 < i < length c → is_char_boundary (c ++ rest) i = false.
Proof.
  intros (b0 & cs & -> & _ & _ & Hcs & _) Hi. unfold is_char_boundary. rewrite decide_False by lia.
  destruct i as [|i]; [lia|]. cbn [length] in Hi. cbn [app lookup list_lookup].
  destruct (lookup_lt_is_Some_2 cs i) as [b Hb]; [lia|].
  change ((cs ++ rest) !! i) with ((cs ++ rest) !! i). rewrite lookup_app_l by lia. rewrite Hb.
  by rewrite (proj1 (Forall_lookup _ _) Hcs i b Hb).
Qed.

Lemma boundary_after c rest i :
  one_char c → utf8_valid rest = true → length c ≤ i → is_char_boundary (c ++ rest) i = true → is_char_boundary rest (i - length c) = true.
Proof.
  intros _ _ Hi. unfold is_char_boundary. case_decide as H0; case_decide as H1; try done; try lia.
  rewrite lookup_app_r by lia. destruct (rest !! (i - length c)) eqn:Hl; [done|].
  rewrite !bool_decide_eq_true, length_app. lia.
Qed.

Lemma utf8_take bs : utf8_valid bs = true → ∀ i, is_char_boundary bs i = true → utf8_valid (take i bs) = true.
Proof.
  revert bs. apply (utf8_ind (λ bs, ∀ i, is_char_boundary bs i = true → utf8_valid (take i bs) = true)).
  - intros i _. by rewrite take_nil.
  - intros c rest Hc Hr IH i Hb. destruct (decide (i = 0)) as [->|]; [done|].
    destruct (decide (i < length c)) as [|Hl].
    { by rewrite boundary_inside in Hb by (done || lia). }
    rewrite take_app, take_ge by lia. destruct Hc as (b0 & cs & Hcc & Hlen & Hlead & Hcont & Hc).
    rewrite Hc. apply IH. apply (boundary_after c); [by exists b0, cs|done|lia|done].
Qed.

Lemma floor_boundary_spec s e :
  floor_boundary s e ≤ e ∧ is_char_boundary s (floor_boundary s e) = true.
Proof.
  induction e as [|e [IH1 IH2]]; [done|]. cbn [floor_boundary]. destruct (is_char_boundary s (S e)) eqn:Hb; [done|].
  split; [lia|done].
Qed.

(** A boundary is never more than three bytes back. *)
Lemma boundary_near bs :
  utf8_valid bs = true → ∀ i, i ≤ length bs → ∃ j, j ≤ i ∧ i ≤ j + 3 ∧ is_char_boundary bs j = true.
Proof.
  revert bs. apply (utf8_ind (λ bs, ∀ i, i ≤ length bs → ∃ j, j ≤ i ∧ i ≤ j + 3 ∧ is_char_boundary bs j = true)).
  - intros i Hi. exists i. split_and!; [lia..|]. cbn in Hi. by replace i with 0 by lia.
  - intros c rest Hc Hr IH i Hi. rewrite length_app in Hi.
    assert (1 ≤ length c ≤ 4) as Hlc by (destruct Hc as (b0 & cs & -> & ? & _); cbn; lia).
    destruct (decide (i < length c)) as [|Hl].
    { exists 0. split_and!; [lia..|done]. }
    destruct (IH (i - length c)) as (j & Hj1 & Hj2 & Hjb); [lia|]. exists (length c + j). split_and!; [lia..|].
    unfold is_char_boundary in *. rewrite decide_False by lia. rewrite lookup_app_r by lia.
    replace (length c + j - length c) with j by lia. rewrite length_app.
    destruct (rest !! j) eqn:Hl'.
    + case_decide as H0; [|done]. subst j. destruct (utf8_uncons rest Hr) as [->|(c' & r' & -> & Hc' & _)]; [done|].
      destruct Hc' as (b0 & cs & -> & _ & Hb0 & _). cbn in Hl'. injection Hl' as <-. by rewrite Hb0.
    + apply lookup_ge_None in Hl'. apply bool_decide_eq_true. case_decide as H0.
      * subst j. destruct rest; cbn in *; lia.
      * apply bool_decide_eq_true in Hjb. lia.
Qed.

Lemma floor_boundary_greatest s e j : j ≤ e → is_char_boundary s j = true → j ≤ floor_boundary s e.
Proof.
  induction e as [|e IH]; intros Hj Hb; [lia|]. cbn [floor_boundary].
  destruct (is_char_boundary s (S e)) eqn:He; [done|].
  destruct (decide (j = S e)) as [->|]; [congruence|]. apply IH; [lia|done].
Qed.

Lemma bytes_take k bs : bytes bs → bytes (take k bs).
Proof. apply Forall_take. Qed.

Lemma truncate_fits s : text s → message (truncate_message s).
Proof.
  intros Hs. unfold truncate_message, message, str_fits. case_decide as Hd; [done|].
  destruct (floor_boundary_spec (as_bytes s) (N.to_nat MAX_MESSAGE_LEN)) as [Hl Hb].
  rewrite <-length_as_bytes, as_from_bytes by apply bytes_take, bytes_as_bytes.
  split; [|by apply utf8_take]. rewrite length_take. unfold MAX_MESSAGE_LEN in *. lia.
Qed.

(** Truncation cuts text to what the wire can carry: the result is valid UTF-8 of at
    most 256 bytes, a prefix of the message, the whole of it when it fits and otherwise
    short of 256 by at most three bytes. *)
Theorem truncate_exact s :
  text s →
  message (truncate_message s) ∧
  (∃ rest, as_bytes s = as_bytes (truncate_message s) ++ rest) ∧
  ((N.of_nat (String.length s) ≤ MAX_MESSAGE_LEN)%N → truncate_message s = s) ∧
  ((MAX_MESSAGE_LEN < N.of_nat (String.length s))%N → (253 ≤ N.of_nat (String.length (truncate_message s)))%N).
Proof.
  intros Hs. split; [by apply truncate_fits|]. unfold truncate_message. case_decide as Hd.
  { split_and!; [by exists []; rewrite app_nil_r|done|unfold MAX_MESSAGE_LEN in *; lia]. }
  split_and!; [|unfold MAX_MESSAGE_LEN in *; lia|].
  - rewrite as_from_bytes by apply bytes_take, bytes_as_bytes. eexists. symmetry. apply take_drop.
  - intros _. rewrite <-length_as_bytes, as_from_bytes, length_take by apply bytes_take, bytes_as_bytes.
    rewrite <-length_as_bytes in Hd. unfold MAX_MESSAGE_LEN in *.
    destruct (boundary_near (as_bytes s) Hs 256) as (j & Hj1 & Hj2 & Hjb); [lia|].
    pose proof (floor_boundary_greatest (as_bytes s) 256 j Hj1 Hjb). change (N.to_nat 256) with 256. lia.
Qed.

(** 100 copies of a three-byte character: 300 bytes, cut to 255. *)
Definition long_message : string := Nat.iter 100 (λ s, "—" +:+ s) "".

Lemma truncate_exact_witness :
  message (truncate_message long_message) ∧ String.length (truncate_message long_message) = 255.
Proof. split; [apply (truncate_exact long_message); vm_compute; reflexivity|vm_compute; reflexivity]. Defined.

(** ** The crates *)

(** [citadel_kerkese_core::decision::Outcome]. *)
Inductive CitadelOutcome := CExecute | CRefuse | CHardStop.

#[global] Instance CitadelOutcome_eq_dec : EqDecision CitadelOutcome.
Proof. solve_decision. Defined.

(** Of a parsed [Decision] the code reads the outcome; an error is its [Display] text. *)
Class DeskJson := {
  envelope_from_slice : list N → Result string KernelMinimalEnvelope;
  decision_from_slice : list N → Result string CitadelOutcome;
  kerkese_to_vec : Kerkese → Result string (list N);
}.

(** [Display] of a [StatusCode]. *)
Class HttpText := status_display : N → string.

(** The texts the crates produce are [String]s, and what is read from JSON holds
    [String]s; [to_vec] and the HTTP client handle bytes. *)
Class DeskTexts `{StrDebug} `{DeskJson} `{HttpText} : Prop := {
  debug_text s : text s → text (str_debug s);
  envelope_err_text bs m : envelope_from_slice bs = Err m → text m;
  envelope_ids_text bs e : envelope_from_slice bs = Ok e →
    text (a_type (env_action e)) ∧ text (a_module_id (env_action e)) ∧ text (a_instance_id (env_action e)) ∧
    text (ka_user_id (env_actor e));
  decision_err_text bs m : decision_from_slice bs = Err m → text m;
  to_vec_err_text k m : kerkese_to_vec k = Err m → text m;
  status_text n : text (status_display n);
}.

(** One use of the HTTP client: sending fails, or a response with a status arrives,
    whose body is then read. *)
Inductive BodyRead := BodyOk (bs : list N) | BodyTimeout | BodyErr (msg : string).
Inductive HttpExchange := SendTimeout | SendErr (msg : string) | Responded (status : N) (body : BodyRead).

(** What one request meets outside: the exchange of each POST, the UUID, the clock. *)
Record World := mkWorld {
  w_http : string → list N → HttpExchange;
  w_uuid : string;
  w_now : Z;
}.

Definition exchange_text (x : HttpExchange) : Prop :=
  match x with
  | SendErr m | Responded _ (BodyErr m) => text m
  | Responded _ (BodyOk bs) => bytes bs
  | _ => True
  end.

(** ** The transport *)

Inductive TransportError :=
  | TUnreachable (msg : string)
  | TTimeout
  | TBadResponse (msg : string)
  | TOther (msg : string).

Definition RUNIX_CITADEL_URL_ENV : string := "RUNIX_CITADEL_URL".

Definition FORBIDDEN : N := 403.
Definition is_success (status : N) : bool := bool_decide (200 ≤ status < 300)%N.

(** [response.bytes().await.map_err(body_error)] *)
Definition body_error (b : BodyRead) : Result TransportError (list N) :=
  match b with
  | BodyOk bs => Ok bs
  | BodyTimeout => Err TTimeout
  | BodyErr msg => Err (TBadResponse msg)
  end.

(** [HttpKerkeseTransport::from_env]: the endpoint, if one is configured. *)
Definition from_env (var : option string) : option string :=
  match var with Some s => if is_empty_str s then None else Some s | None => None end.

(** ** The proxy *)

(** What the proxy does beyond computing its answer, in order. *)
Inductive DeskEvent :=
  | Recorded (entry : WormEntry)
  | Posted (url : string) (body : list N).

Record DeskState := mkDesk { d_log : list WormEntry; d_trace : list DeskEvent }.

Definition to_marshal_outcome (outcome : CitadelOutcome) : MarshalOutcome :=
  match outcome with CExecute => OutExecute | CRefuse => OutRefuse | CHardStop => OutHardStop end.

Section proxy.
Context `{SS : SignatureScheme} `{SHA : Sha256} `{SD : StrDebug} `{DJ : DeskJson} `{HT : HttpText}.

Definition http_status (status : N) : string := "HTTP " +:+ status_display status.

(** [submit_async], after the request was sent. *)
Definition read_response (x : HttpExchange) : Result TransportError (list N) :=
  match x with
  | SendTimeout => Err TTimeout
  | SendErr msg => Err (TUnreachable msg)
  | Responded status body =>
      if decide (status = FORBIDDEN) then
        body ← body_error body;
        match decision_from_slice body with
        | Ok CRefuse | Ok CHardStop => Ok body
        | _ => Err (TBadResponse (http_status status))
        end
      else if negb (is_success status) then Err (TBadResponse (http_status status))
      else body_error body
  end.

Definition submit (w : World) (url : option string) (st : DeskState) (envelope_bytes : list N) :
    Result TransportError (list N) * DeskState :=
  match url with
  | None =>
      (Err (TUnreachable (RUNIX_CITADEL_URL_ENV +:+ " not configured — refusing to guess a CITADEL endpoint")), st)
  | Some url =>
      (read_response (w_http w url envelope_bytes),
       mkDesk (d_log st) (d_trace st ++ [Posted url envelope_bytes]))
  end.

Definition parse_kernel_envelope (kerkese_json : list N) : Result MarshalResponse KernelMinimalEnvelope :=
  match envelope_from_slice kerkese_json with
  | Ok e => Ok e
  | Err e =>
      Err (RespError (ErrBadResponse (truncate_message
        ("kerkese_json was not a well-formed minimal envelope: " +:+ e))))
  end.

(** The lock is recovered when poisoned, so the entry is always appended. *)
Definition proxy_record (st : DeskState) (module_id instance_id : string) (authorized : bool)
    (reason : option string) : DeskState :=
  let log := Worm.record_proxy_verification (d_log st) module_id instance_id authorized reason in
  mkDesk log (d_trace st ++ (Recorded <$> option_list (last log))).

Definition policy_error_response (err : PolicyError) : MarshalResponse :=
  RespError (ErrPolicyRefused (truncate_message (policy_error_display err))).

Definition submit_and_translate (w : World) (url : option string) (st : DeskState) (kerkese_json : list N) :
    MarshalResponse * DeskState :=
  let '(r, st) := submit w url st kerkese_json in
  (match r with
   | Err (TUnreachable msg) => RespError (ErrUnreachable (truncate_message msg))
   | Err TTimeout => RespError ErrTimeout
   | Err (TBadResponse msg) => RespError (ErrBadResponse (truncate_message msg))
   | Err (TOther msg) => RespError (ErrOther (truncate_message msg))
   | Ok decision_json =>
       match decision_from_slice decision_json with
       | Ok outcome => Decision (to_marshal_outcome outcome) decision_json
       | Err e =>
           RespError (ErrBadResponse (truncate_message ("response body was not a well-formed Decision: " +:+ e)))
       end
   end, st).

Definition build_response (w : World) (url : option string) (signing_key : SigningKey) (st : DeskState)
    (kerkese_json : list N) : MarshalResponse * DeskState :=
  match parse_kernel_envelope kerkese_json with
  | Err response => (response, st)
  | Ok envelope =>
      let '(module_id, instance_id) := audit_ids (env_action envelope) in
      match check envelope with
      | Err err =>
          (policy_error_response err,
           proxy_record st module_id instance_id false (Some (policy_error_display err)))
      | Ok _ =>
          let st := proxy_record st module_id instance_id true None in
          let enriched := build_enriched_envelope envelope signing_key (w_uuid w) (w_now w) in
          match kerkese_to_vec enriched with
          | Err e =>
              (RespError (ErrOther (truncate_message ("failed to serialize enriched Kerkese envelope: " +:+ e))), st)
          | Ok enriched_json => submit_and_translate w url st enriched_json
          end
      end
  end.
End proxy.

(** ** What is recorded and forwarded *)

Section spec.
Context `{SS : SignatureScheme} `{SHA : Sha256} `{SD : StrDebug} `{DJ : DeskJson} `{HT : HttpText}.

(** The entry a verification appends to a log. *)
Definition verification_entry (log : list WormEntry) (ids : string * string) (authorized : bool)
    (reason : option string) : WormEntry :=
  mkEntry (len log) ids.1 (Some ids.2) None authorized reason None (last_hash log)
    (compute_hash (last_hash log) (len log) ids.1 (Some ids.2) None authorized reason None).

Lemma proxy_record_spec st m i a r :
  proxy_record st m i a r =
  mkDesk (d_log st ++ [verification_entry (d_log st) (m, i) a r])
    (d_trace st ++ [Recorded (verification_entry (d_log st) (m, i) a r)]).
Proof.
  unfold proxy_record, Worm.record_proxy_verification, record. by rewrite last_snoc.
Qed.

Lemma read_response_Ok x d :
  read_response x = Ok d ↔
  ∃ status, x = Responded status (BodyOk d) ∧
    (is_success status = true ∨
     status = FORBIDDEN ∧ (decision_from_slice d = Ok CRefuse ∨ decision_from_slice d = Ok CHardStop)).
Proof.
  split.
  - destruct x as [| |status body]; [done..|]. cbn [read_response]. case_decide as Hf.
    + destruct body as [bs| |]; [|done..]. cbn [body_error mbind Result_bind].
      destruct (decision_from_slice bs) as [[]|] eqn:Hd; [done|..|done]; intros [= <-]; exists status; subst; eauto.
    + destruct (is_success status) eqn:Hs; [|done]. destruct body; [|done..]. intros [= <-]. exists status. eauto.
  - intros (status & -> & [Hs|[-> Hd]]); cbn [read_response].
    + rewrite decide_False by (intros ->; by vm_compute in Hs). by rewrite Hs.
    + rewrite decide_True by done. cbn. by destruct Hd as [-> | ->].
Qed.

Variables (url : option string) (key : SigningKey).

(** The outcome of one request, case by case. *)
Inductive Handled (w : World) (st : DeskState) (json : list N) : MarshalResponse → DeskState → Prop :=
  | HUnparsed m :
      envelope_from_slice json = Err m →
      Handled w st json
        (RespError (ErrBadResponse (truncate_message ("kerkese_json was not a well-formed minimal envelope: " +:+ m)))) st
  | HRefused e err en :
      envelope_from_slice json = Ok e → check e = Err err →
      en = verification_entry (d_log st) (audit_ids (env_action e)) false (Some (policy_error_display err)) →
      Handled w st json (policy_error_response err) (mkDesk (d_log st ++ [en]) (d_trace st ++ [Recorded en]))
  | HUnserialized e en m :
      envelope_from_slice json = Ok e → check e = Ok () →
      en = verification_entry (d_log st) (audit_ids (env_action e)) true None →
      kerkese_to_vec (build_enriched_envelope e key (w_uuid w) (w_now w)) = Err m →
      Handled w st json
        (RespError (ErrOther (truncate_message ("failed to serialize enriched Kerkese envelope: " +:+ m))))
        (mkDesk (d_log st ++ [en]) (d_trace st ++ [Recorded en]))
  | HSubmitted e en body :
      envelope_from_slice json = Ok e → check e = Ok () →
      en = verification_entry (d_log st) (audit_ids (env_action e)) true None →
      kerkese_to_vec (build_enriched_envelope e key (w_uuid w) (w_now w)) = Ok body →
      Handled w st json
        (submit_and_translate w url (mkDesk (d_log st ++ [en]) (d_trace st ++ [Recorded en])) body).1
        (mkDesk (d_log st ++ [en])
           (d_trace st ++ Recorded en :: match url with Some u => [Posted u body] | None => [] end)).

Lemma submit_state w st body :
  (submit_and_translate w url st body).2 =
  mkDesk (d_log st) (d_trace st ++ match url with Some u => [Posted u body] | None => [] end).
Proof.
  unfold submit_and_translate, submit. destruct url; [done|]. cbn. rewrite app_nil_r. by destruct st.
Qed.

Lemma build_response_handled w st json :
  Handled w st json (build_response w url key st json).1 (build_response w url key st json).2.
Proof.
  unfold build_response, parse_kernel_envelope.
  destruct (envelope_from_slice json) as [e|m] eqn:He; [|by apply HUnparsed].
  destruct (audit_ids (env_action e)) as [mid iid] eqn:Hi.
  destruct (check e) as [[]|err] eqn:Hc; rewrite proxy_record_spec.
  2: { eapply HRefused; [done..|]. by rewrite Hi. }
  destruct (kerkese_to_vec (build_enriched_envelope e key (w_uuid w) (w_now w))) as [body|m] eqn:Hv.
  2: { eapply HUnserialized; [done..| |done]. by rewrite Hi. }
  rewrite submit_state. cbn [d_log d_trace]. rewrite <-app_assoc. cbn [app].
  eapply HSubmitted; [done..| |done]. by rewrite Hi.
Qed.

Lemma verification_verifies log ids a r :
  verify_chain log = true → verify_chain (log ++ [verification_entry log ids a r]) = true.
Proof. apply (record_verifies log ids.1 (Some ids.2) None a r None). Qed.

(** A response that is a decision. *)
Lemma translate_decision w st body o d :
  (submit_and_translate w url st body).1 = Decision o d ↔
  ∃ u status oc, url = Some u ∧ w_http w u body = Responded status (BodyOk d) ∧
    decision_from_slice d = Ok oc ∧ o = to_marshal_outcome oc ∧
    (is_success status = true ∨ status = FORBIDDEN ∧ oc ≠ CExecute).
Proof.
  unfold submit_and_translate, submit. destruct url as [u|]; cbn [fst snd]; [|split; [done|by intros (? & ? & ? & [=] & _)]].
  split.
  - destruct (read_response (w_http w u body)) as [d'|[]] eqn:Hr; [|done..].
    destruct (decision_from_slice d') as [oc|] eqn:Hd; [|done]. intros [= <- <-].
    apply read_response_Ok in Hr as (status & Hx & Hs). exists u, status, oc. split_and!; [done..|].
    destruct Hs as [Hs|[-> [Hs|Hs]]]; [by left|right..]; split; try done; congruence.
  - intros (? & status & oc & [= <-] & Hx & Hd & -> & Hs).
    rewrite (proj2 (read_response_Ok (w_http w u body) d)); [by rewrite Hd|]. exists status. split; [done|].
    destruct Hs as [Hs|[-> Hne]]; [by left|right]. split; [done|]. destruct oc; [done|by left|by right].
Qed.

(** What was asked of CITADEL for a request, if anything was. *)
Definition asked (w : World) (json : list N) (x : HttpExchange) : Prop :=
  ∃ e v body u, envelope_from_slice json = Ok e ∧ vouches e v ∧
    kerkese_to_vec (build_enriched_envelope e key (w_uuid w) (w_now w)) = Ok body ∧
    url = Some u ∧ x = w_http w u body.

Lemma build_response_decision w st json o d :
  (build_response w url key st json).1 = Decision o d ↔
  ∃ status oc, asked w json (Responded status (BodyOk d)) ∧
    decision_from_slice d = Ok oc ∧ o = to_marshal_outcome oc ∧
    (is_success status = true ∨ status = FORBIDDEN ∧ oc ≠ CExecute).
Proof.
  destruct (build_response_handled w st json) as [m He|e err en He Hc _|e en m He Hc _ Hv|e en body He Hc _ Hv].
  4: rewrite translate_decision.
  1-3: split; [done|]; intros (status & oc & (e' & v & body & u & He' & Hvo & Hv' & _) & _).
  - congruence.
  - assert (check e' = Ok ()) by (apply policy_check_Ok; by exists v). congruence.
  - congruence.
  - split.
    + intros (u & status & oc & Hu & Hx & Hd & Ho & Hs). apply policy_check_Ok in Hc as [v Hc].
      exists status, oc. split_and!; [|done..]. by exists e, v, body, u.
    + intros (status & oc & (e' & v & body' & u & He' & _ & Hv' & Hu & Hx) & Hd & Ho & Hs).
      assert (e' = e) as -> by congruence. assert (body' = body) as -> by congruence.
      exists u, status, oc. by split_and!.
Qed.

(** Every request ends in exactly one of four ways, and CITADEL is asked at most once
    and only about a vouched request, after the authorization was recorded: the log
    grows by the one entry of this decision (none if the request did not parse) and
    stays verifiable, and whatever is posted is the signed envelope of that request. *)
Theorem forwarded_only_vouched w st json :
  let st' := (build_response w url key st json).2 in
  ∃ entries posts,
    d_log st' = d_log st ++ entries ∧ d_trace st' = d_trace st ++ (Recorded <$> entries) ++ posts ∧
    (verify_chain (d_log st) = true → verify_chain (d_log st') = true) ∧
    (∀ m, envelope_from_slice json = Err m → entries = [] ∧ posts = []) ∧
    (∀ e, envelope_from_slice json = Ok e → ∃ en, entries = [en] ∧
       (e_module_id en, e_instance_id en) = ((audit_ids (env_action e)).1, Some (audit_ids (env_action e)).2) ∧
       (e_authorized en = true ↔ ∃ v, vouches e v) ∧ (posts ≠ [] → e_authorized en = true)) ∧
    (∀ ev, ev ∈ posts → ∃ e u body, posts = [ev] ∧ ev = Posted u body ∧ url = Some u ∧
       envelope_from_slice json = Ok e ∧
       kerkese_to_vec (build_enriched_envelope e key (w_uuid w) (w_now w)) = Ok body).
Proof.
  cbv zeta.
  destruct (build_response_handled w st json) as [m He|e err en He Hc Hen|e en m He Hc Hen Hv|e en body He Hc Hen Hv];
    cbn [d_log d_trace].
  - exists [], []. cbn. rewrite !app_nil_r. split_and!; try done; [|by intros ev ?%elem_of_nil]. intros e He'. congruence.
  - exists [en], []. cbn. split_and!; try done; [subst; apply verification_verifies|congruence| |by intros ev ?%elem_of_nil].
    intros e' He'. assert (e' = e) as -> by congruence. exists en. subst en. cbn. split_and!; try done.
    split; [done|]. rewrite <-policy_check_Ok. congruence.
  - exists [en], []. cbn. split_and!; try done; [subst; apply verification_verifies|congruence| |by intros ev ?%elem_of_nil].
    intros e' He'. assert (e' = e) as -> by congruence. exists en. subst en. cbn. split_and!; try done.
    by rewrite <-policy_check_Ok.
  - exists [en], (match url with Some u => [Posted u body] | None => [] end). split_and!; try done.
    + subst. apply verification_verifies.
    + congruence.
    + intros e' He'. assert (e' = e) as -> by congruence. exists en. subst en. cbn. split_and!; try done.
      by rewrite <-policy_check_Ok.
    + intros ev Hev. destruct url as [u|]; [|by apply elem_of_nil in Hev]. apply list_elem_of_singleton in Hev as ->.
      by exists e, u, body.
Qed.

(** The answer is a decision exactly when CITADEL answered one: with a success status
    any outcome, with 403 only a refusal or a hard stop, and the bytes handed back are
    CITADEL's own.  In particular EXECUTE is answered only when CITADEL answered EXECUTE
    with a success status to the signed envelope of a vouched request. *)
Theorem decision_exact w st json o d :
  (build_response w url key st json).1 = Decision o d ↔
  ∃ status oc, asked w json (Responded status (BodyOk d)) ∧
    decision_from_slice d = Ok oc ∧ o = to_marshal_outcome oc ∧
    (is_success status = true ∨ status = FORBIDDEN ∧ oc ≠ CExecute).
Proof. apply build_response_decision. Qed.
End spec.

(** ** Every answer reaches the kernel *)

Section delivery.
Context `{SS : SignatureScheme} `{SHA : Sha256} `{SD : StrDebug} `{DJ : DeskJson} `{HT : HttpText} `{!DeskTexts}.

Definition policy_text (e : PolicyError) : Prop :=
  match e with
  | UnrecognizedActionType t => text t
  | EmptyIdentifier f | MissingField f | UnexpectedField f => text f
  | MalformedIdentifier f v => text f ∧ text v
  | KernelAssertedVerifier => True
  end.

Definition errs_text (r : Result PolicyError ()) : Prop := ∀ e, r = Err e → policy_text e.

Lemma refuse_if_text c e r : policy_text e → errs_text r → errs_text (refuse_if c e r).
Proof. intros He Hr e'. destruct c; cbn; [by intros [= <-]|apply Hr]. Qed.

Lemma no_module_ids_text a r : errs_text r → errs_text (no_module_ids a r).
Proof. intros Hr. by repeat (apply refuse_if_text; [reflexivity|]). Qed.

Lemma identifier_ok_text f v r : text f → text v → errs_text r → errs_text (identifier_ok f v r).
Proof. intros Hf Hv Hr. by repeat (apply refuse_if_text; [done|]). Qed.

Lemma check_errs_text json e : envelope_from_slice json = Ok e → errs_text (check e).
Proof.
  intros (Ht & Hm & Hi & Hu)%envelope_ids_text.
  assert (errs_text (identifier_ok "actor.user_id" (ka_user_id (env_actor e)) (Ok ()))) as Hr
    by (by apply identifier_ok_text).
  unfold check. apply refuse_if_text; [done|]. apply refuse_if_text; [done|].
  unfold check_action. repeat case_match;
    repeat first [exact Hr|apply identifier_ok_text; [reflexivity|assumption|]|apply no_module_ids_text
                 |apply refuse_if_text; [reflexivity|]].
Qed.

Lemma display_text err : policy_text err → text (policy_error_display err).
Proof.
  destruct err; cbn [policy_text policy_error_display]; intros Ht;
    repeat first [apply text_app; [reflexivity|]|reflexivity|apply text_app|done|by apply debug_text].
  - destruct Ht. done.
  - destruct Ht. by apply debug_text.
Qed.

Lemma read_response_text x err : exchange_text x → read_response x = Err err →
  match err with TUnreachable m | TBadResponse m | TOther m => text m | TTimeout => True end.
Proof.
  assert (∀ n, text (http_status n)) as Hst by (intros n; by apply text_app; [|apply status_text]).
  destruct x as [|m|status body]; cbn [read_response]; [by intros _ [= <-]|by intros Ht [= <-]|].
  intros Ht. case_decide.
  - destruct body as [bs| |m]; cbn [body_error mbind Result_bind]; [|by intros [= <-]|by intros [= <-]].
    destruct (decision_from_slice bs) as [[]|]; try done; by intros [= <-].
  - destruct (is_success status); cbn [negb]; [|by intros [= <-]].
    destruct body; cbn [body_error]; [done|by intros [= <-]..].
Qed.

Variables (url : option string) (key : SigningKey).

(** The client's texts are [String]s and its bodies bytes. *)
Definition world_text (w : World) : Prop := ∀ u body, exchange_text (w_http w u body).

Lemma translate_encodable w st body :
  world_text w →
  encodable (submit_and_translate w url st body).1 ∨
  ∃ o d, (submit_and_translate w url st body).1 = Decision o d ∧ (MAX_JSON_LEN < len d)%N.
Proof.
  intros Hw. unfold submit_and_translate. destruct (submit w url st body) as [r st'] eqn:Hs. cbn [fst].
  assert (∀ err, r = Err err →
    match err with TUnreachable m | TBadResponse m | TOther m => text m | TTimeout => True end) as Hr.
  { intros err ->. unfold submit in Hs. destruct url; injection Hs as Hr _.
    - by apply read_response_text in Hr.
    - by subst err. }
  destruct r as [d|err].
  - destruct (decision_from_slice d) as [oc|m] eqn:Hd.
    + destruct (decide (len d ≤ MAX_JSON_LEN)%N); [by left|right]. eexists _, d. split; [done|lia].
    + left. intros m' [= <-]. apply truncate_fits, text_app; [done|by eapply decision_err_text].
  - left. specialize (Hr err eq_refl). destruct err; intros m' [= <-]; by apply truncate_fits.
Qed.

Lemma response_encodable w st json :
  world_text w →
  encodable (build_response w url key st json).1 ∨
  ∃ o d, (build_response w url key st json).1 = Decision o d ∧ (MAX_JSON_LEN < len d)%N.
Proof.
  intros Hw.
  destruct (build_response_handled url key w st json) as [m He|e err en He Hc _|e en m He Hc _ Hv|e en body He Hc _ Hv].
  - left. intros m' [= <-]. apply truncate_fits, text_app; [done|by eapply envelope_err_text].
  - left. intros m' [= <-]. apply truncate_fits, display_text. by eapply check_errs_text.
  - left. intros m' [= <-]. apply truncate_fits, text_app; [done|by eapply to_vec_err_text].
  - by apply translate_encodable.
Qed.
End delivery.

(** ** The kernel's gate over the desktop proxy

    Composition of the kernel side ([kernel-arm/src/marshal_action.rs], the reply codec
    of [ipc/src/marshal.rs]) with the proxy's pipeline: which exchanges with CITADEL let
    a governed action pass. *)

(** ** The request the kernel sends *)

(** The vouched form of a kernel action; only the two eSIM operations are governed. *)
Definition vouched_of (a : MarshalAction) : option Vouched :=
  match a with
  | Esim op slot profile =>
      if decide (op = "enable") then Some (VEnable slot profile)
      else if decide (op = "delete") then Some (VDelete slot profile)
      else None
  | MvnoBind account slot profile => Some (VBind account slot profile)
  | MvnoSuspend account => Some (VSuspend account)
  | MvnoReactivate account => Some (VReactivate account)
  | DataResetUsage account => Some (VReset account)
  end.

(** What the JSON text of [kerkese_json] says. *)
Definition kernel_envelope (a : MarshalAction) (v : Vouched) (principal : string) : KernelMinimalEnvelope :=
  mkEnvelope "1.0" true (as_action v) (mkActor principal "operator") (execution_id a) None.

Lemma vouched_of_type a v : vouched_of a = Some v → a_type (as_action v) = action_type a ∧ vouched_ids v.
Proof.
  destruct a as [op s p|x s p|x|x|x]; cbn; [|by intros [= <-]..].
  repeat case_decide; subst; intros [= <-]; done.
Qed.

Lemma kernel_vouched a v principal :
  vouched_of a = Some v → is_well_formed_identifier principal = true → vouches (kernel_envelope a v principal) v.
Proof. intros [_ Hv]%vouched_of_type Hp. by split_and!. Qed.

(** ** What the reply bytes mean *)

Lemma response_encode_bytes r :
  (∀ o d, r = Decision o d → bytes d) → bytes (response_encode r).
Proof.
  destruct r as [o d|e]; intros Hd; cbn [response_encode].
  - constructor; [lia|]. constructor; [by destruct o|]. apply bytes_app. split; [apply bytes_u32|by eapply Hd].
  - constructor; [lia|]. unfold error_encode. constructor; [by destruct e|].
    destruct e; try (rewrite encode_str_blob || unfold encode_string; unfold encode_str; apply bytes_app; split;
      [apply bytes_u16|apply bytes_as_bytes]). constructor.
Qed.

Lemma oversized_malformed o d :
  bytes d → (MAX_JSON_LEN < len d < 4294967296)%N → decode_status (response_encode (Decision o d)) = Malformed.
Proof.
  intros Hb Hl. pose proof (decode_status_verdict (response_encode (Decision o d))) as Hv.
  assert (response_status (response_encode (Decision o d)) = Err ()) as Hs.
  { cbn [response_encode response_status]. rewrite decide_True by done.
    rewrite (proj2 (outcome_byte_exact _ o) eq_refl). unfold encode_bytes. rewrite N.mod_small by lia.
    destruct (u32_le_roundtrip (len d)) as (b0 & b1 & b2 & b3 & -> & Hn); [lia|]. cbn [app status_bytes].
    rewrite Hn. by rewrite decide_True by lia. }
  rewrite Hs in Hv. destruct (decode_status _); [by destruct Hv|done..].
Qed.

(** How the kernel classifies the proxy's answer. *)
Definition reply_class (r : MarshalResponse) : ShadowMarshalOutcome :=
  match r with
  | Decision _ d => if decide (len d ≤ MAX_JSON_LEN)%N then classify_response (Some r) else Faulty
  | RespError _ => classify_response (Some r)
  end.

Lemma classify_reply r :
  encodable r ∨ (∃ o d, r = Decision o d ∧ (MAX_JSON_LEN < len d)%N) →
  (∀ o d, r = Decision o d → bytes d ∧ (len d < 4294967296)%N) →
  classify_decode (decode_status (response_encode r)) = reply_class r.
Proof.
  intros [He|(o & d & -> & Hl)] Hd.
  2: { rewrite oversized_malformed; [|by apply (Hd o)|split; [done|by apply (Hd o)]]. cbn. by rewrite decide_False by lia. }
  rewrite (proj2 (decode_status_exact (response_encode r) r (len (response_encode r))
    (response_encode_bytes r (λ o d Hr, proj1 (Hd o d Hr))))); [|split_and!; [done..|exists []; by rewrite app_nil_r]].
  cbn. destruct r as [o d|e]; [|done]. cbn in He |- *. by rewrite decide_True.
Qed.

(** ** Which exchanges let an action pass *)

(** CITADEL did not answer within the time, or could not be reached. *)
Definition no_answer (x : HttpExchange) : Prop :=
  match x with
  | SendTimeout | SendErr _ => True
  | Responded status BodyTimeout => status = FORBIDDEN ∨ is_success status = true
  | _ => False
  end.

(** CITADEL answered EXECUTE, in a body the kernel can take. *)
Definition said_execute `{DeskJson} (x : HttpExchange) : Prop :=
  ∃ status d, x = Responded status (BodyOk d) ∧ is_success status = true ∧ decision_from_slice d = Ok CExecute ∧
    (len d ≤ MAX_JSON_LEN)%N.

Section gate.
Context `{SS : SignatureScheme} `{SHA : Sha256} `{SD : StrDebug} `{DJ : DeskJson} `{HT : HttpText} `{!DeskTexts}.

(** The class of an answer, from the exchange. *)
Lemma translate_class w u st body :
  (reply_class (submit_and_translate w (Some u) st body).1 = Execute ↔ said_execute (w_http w u body)) ∧
  (reply_class (submit_and_translate w (Some u) st body).1 = Unreachable ↔ no_answer (w_http w u body)).
Proof.
  unfold submit_and_translate, submit. cbn [fst snd]. destruct (w_http w u body) as [|m|status b] eqn:Hx; cbn [read_response].
  - cbn. split; split; try done. by intros (? & ? & [=] & _).
  - cbn. split; split; try done. by intros (? & ? & [=] & _).
  - case_decide as Hf.
    + assert (is_success status = false) as H403 by by subst.
      destruct b as [d| |m]; cbn [body_error mbind Result_bind].
      * destruct (decision_from_slice d) as [[]|] eqn:Hd; cbn; rewrite ?Hd; cbn; try case_decide; cbn; split; split;
          try done; intros (s' & d' & [= <- <-] & Hs & _); congruence.
      * cbn. split; split; try done; [by intros (? & ? & [=] & _)|by left].
      * cbn. split; split; try done; by intros (? & ? & [=] & _).
    + destruct (is_success status) eqn:Hs; cbn [negb].
      * destruct b as [d| |m]; cbn [body_error].
        -- destruct (decision_from_slice d) as [[]|] eqn:Hd; cbn; try case_decide; cbn; split; split; try done;
             try (intros (s' & d' & [= <- <-] & _ & Hd' & Hl); congruence || lia). by exists status, d.
        -- cbn. split; split; try done; [by intros (? & ? & [=] & _)|by right].
        -- cbn. split; split; try done; by intros (? & ? & [=] & _).
      * cbn. split; split; try done; [intros (? & ? & [= <- ->] & Hs' & _); congruence|].
        destruct b; try done. intros [?|?]; congruence.
Qed.

Lemma decision_bytes url key w st json o d :
  world_text w → (∀ u b s d, w_http w u b = Responded s (BodyOk d) → (len d < 4294967296)%N) →
  (build_response w url key st json).1 = Decision o d → bytes d ∧ (len d < 4294967296)%N.
Proof.
  intros Hw Hlen (s & oc & (e & v' & b & u & _ & _ & _ & _ & Hx) & _)%build_response_decision.
  split; [specialize (Hw u b); by rewrite <-Hx in Hw|by eapply Hlen].
Qed.

(** The class of the answer to a governed action of the kernel. *)
Lemma proxy_gate_class url key w st a v principal body :
  vouched_of a = Some v → is_well_formed_identifier principal = true →
  envelope_from_slice (as_bytes (kerkese_json a principal)) = Ok (kernel_envelope a v principal) →
  kerkese_to_vec (build_enriched_envelope (kernel_envelope a v principal) key (w_uuid w) (w_now w)) = Ok body →
  world_text w → (∀ u b s d, w_http w u b = Responded s (BodyOk d) → (len d < 4294967296)%N) →
  let cls := reply_class (build_response w url key st (as_bytes (kerkese_json a principal))).1 in
  (cls = Execute ↔ ∃ u, url = Some u ∧ said_execute (w_http w u body)) ∧
  (cls = Unreachable ↔ url = None ∨ ∃ u, url = Some u ∧ no_answer (w_http w u body)).
Proof.
  intros Ha Hp He Hb Hw Hlen. cbv zeta.
  assert (check (kernel_envelope a v principal) = Ok ()) as Hc by (apply policy_check_Ok; exists v; by apply kernel_vouched).
  destruct (build_response_handled url key w st (as_bytes (kerkese_json a principal)))
    as [m He'|e err en He' Hc' _|e en m He' Hc' _ Hv|e en body' He' Hc' _ Hv];
    [congruence|assert (e = kernel_envelope a v principal) as -> by congruence..]; [congruence|congruence|].
  assert (body' = body) as -> by congruence. destruct url as [u|].
  - destruct (translate_class w u (mkDesk (d_log st ++ [en]) (d_trace st ++ [Recorded en])) body) as [-> ->].
    split; split.
    + intros Hr. by exists u.
    + by intros (? & [= <-] & Hr).
    + intros Hr. right. by exists u.
    + by intros [[=]|(? & [= <-] & Hr)].
  - cbn. split; split; try done; [by intros (? & [=] & _)|by left].
Qed.

(** C20. A governed action of the kernel, asked through the proxy, passes the kernel's gate
    exactly when CITADEL answered EXECUTE with a success status to the proxy's signed
    envelope (in at most 16384 bytes), or when the action is fail-open and CITADEL was
    not configured, not reached or did not answer in time.  Every other answer, a
    refusal, an error status, a body that is no decision, an inconsistent 403 or an
    oversized body, blocks every action. *)
Theorem proxy_gate url key w st a v principal body :
  vouched_of a = Some v → is_well_formed_identifier principal = true →
  envelope_from_slice (as_bytes (kerkese_json a principal)) = Ok (kernel_envelope a v principal) →
  kerkese_to_vec (build_enriched_envelope (kernel_envelope a v principal) key (w_uuid w) (w_now w)) = Ok body →
  world_text w → (∀ u b s d, w_http w u b = Responded s (BodyOk d) → (len d < 4294967296)%N) →
  let reply := response_encode (build_response w url key st (as_bytes (kerkese_json a principal))).1 in
  enforce (unreachable_policy a) (Remote (classify_decode (decode_status reply))) = Ok () ↔
    (∃ u, url = Some u ∧ said_execute (w_http w u body)) ∨
    unreachable_policy a = FailOpen ∧ (url = None ∨ ∃ u, url = Some u ∧ no_answer (w_http w u body)).
Proof.
  intros Ha Hp He Hb Hw Hlen. cbv zeta.
  destruct (proxy_gate_class url key w st a v principal body Ha Hp He Hb Hw Hlen) as [<- <-].
  rewrite classify_reply; [|by apply response_encodable|intros o d; by apply decision_bytes].
  rewrite enforce_Ok. split; [intros [[= Hr]|[[= Hr] Hf]]|intros [Hr|[Hf Hr]]; rewrite Hr]; auto.
Qed.
End gate.

(** ** A concrete exchange *)

Module DeskToy.
Import Demo Toy.

(** Enough of the crates for one request: a reset of the usage of account 7. *)
Definition asked_action : MarshalAction := DataResetUsage 7.
Definition principal : string := "kernel:subscriber".

#[export] Instance debug : StrDebug := quoted.
#[export] Instance http_text : HttpText := λ _, "status".
#[export] Instance json : DeskJson := {
  envelope_from_slice bs :=
    if decide (bs = as_bytes (kerkese_json asked_action principal))
    then Ok (kernel_envelope asked_action (VReset 7) principal) else Err "expected value";
  decision_from_slice bs :=
    if decide (bs = [1%N]) then Ok CExecute else if decide (bs = [2%N]) then Ok CRefuse else Err "expected value";
  kerkese_to_vec k := Ok (as_bytes (canonical_payload k));
}.

#[export] Instance texts : DeskTexts.
Proof.
  split.
  - intros s Hs. by repeat (apply text_app; [done|]).
  - cbn. intros bs m. case_decide; [done|]. by intros [= <-].
  - cbn. intros bs e. case_decide; [|done]. intros [= <-]. by split_and!.
  - cbn. intros bs m. repeat case_decide; try done. by intros [= <-].
  - done.
  - done.
Qed.

(** CITADEL answers every POST with 200 and EXECUTE. *)
Definition world : World := mkWorld (λ _ _, Responded 200 (BodyOk [1%N])) DeskDemo.uuid 0.
Definition refusing : World := mkWorld (λ _ _, Responded 403 (BodyOk [2%N])) DeskDemo.uuid 0.
Definition start : DeskState := mkDesk [] [].
End DeskToy.

Lemma proxy_gate_witness :
  enforce (unreachable_policy DeskToy.asked_action) (Remote (classify_decode (decode_status (response_encode
    (build_response (SHA := Toy.toy_sha256) (SD := DeskToy.debug) (DJ := DeskToy.json) (HT := DeskToy.http_text)
       DeskToy.world (Some "http://citadel") DeskDemo.key DeskToy.start
       (as_bytes (kerkese_json DeskToy.asked_action DeskToy.principal))).1)))) = Ok ().
Proof.
  eapply (proxy_gate (SS := Demo.scheme) (SHA := Toy.toy_sha256) (SD := DeskToy.debug) (DJ := DeskToy.json)
    (HT := DeskToy.http_text) (H := DeskToy.texts)
    (Some "http://citadel") DeskDemo.key DeskToy.world DeskToy.start DeskToy.asked_action (VReset 7) DeskToy.principal).
  - reflexivity.
  - vm_compute. reflexivity.
  - vm_compute. reflexivity.
  - reflexivity.
  - intros u b. by apply bytes_dec.
  - intros u b s d [= <- <-]. by vm_compute.
  - left. exists "http://citadel". split; [reflexivity|]. exists 200%N, [1%N]. by split_and!.
Defined.
