(* ===== verification/DeskServer.v ===== *)
(** * DeskServer: connections and the accept loop

    Model of [handle_connection_with] and [serve_listener] of
    [desktop/src/citadel/proxy.rs].  A connection is handled as a whole by
    [handle_connection_with]; the server is a step relation in which the acceptor, the
    connection threads, the shared counter and the shared log interleave: every atomic
    operation on the counter and every locked append to the log is one step.  The
    counter is a [usize] that wraps. *)

From S2P Require Import Prelude Text Bytes Worm Marshal MarshalCodec Capability DeskPolicy DeskIdentity DeskProxy.

(** ** Reading one request off a connection

    Model of [ProxyLimits] and [read_marshal_request] of
    [desktop/src/citadel/proxy.rs].  Instants and durations are numbers of one unit.
    The connection is the sequence of what each turn of the loop meets: the instant at
    which the remaining time is computed, what [set_read_timeout] and [read] return,
    and the instant after the read. *)

Local Open Scope N_scope.

(** ** Limits *)

Record ProxyLimits := mkLimits {
  first_byte_timeout : N;
  frame_deadline : N;
  write_timeout : N;
  max_connections : N;
}.

(** In milliseconds. *)
Definition default_limits : ProxyLimits := mkLimits 20000 3000 2000 8.

Definition MAX_REQUEST_BYTES : N := MAX_JSON_LEN + 4.
Definition CHUNK : N := 4096.

(** ** The loop *)

Inductive ErrorKind := InvalidData | TimedOut | UnexpectedEof | OsKind (n : N).
Record IoError := mkIo { io_kind : ErrorKind; io_message : string }.

Inductive ReadResult := RBytes (chunk : list N) | RErr (e : IoError).

Record ReadStep := mkRead {
  r_start : N;
  r_set : option IoError;
  r_result : ReadResult;
  r_end : N;
}.

(** [u32::from_le_bytes([buf[0], buf[1], buf[2], buf[3]])] *)
Definition declared (buf : list N) : option N :=
  match buf with b0 :: b1 :: b2 :: b3 :: _ => Some (u32_from_le b0 b1 b2 b3) | _ => None end.

Definition oversized (buf : list N) : bool :=
  match declared buf with Some n => bool_decide (MAX_JSON_LEN < n) | None => false end.

Definition too_long : IoError := mkIo InvalidData "MarshalRequest declared length exceeds MAX_JSON_LEN".
Definition too_big : IoError := mkIo InvalidData "MarshalRequest exceeds the maximum wire size without decoding".
Definition late : IoError := mkIo TimedOut "deadline reached before a full MarshalRequest was received".
Definition closed : IoError := mkIo UnexpectedEof "connection closed before a full MarshalRequest was received".

(** What the loop returns, the buffer it then holds and the turns not used; no result
    while it is still waiting for a read. *)
Fixpoint read_loop (frame_deadline : N) (buf : list N) (deadline : N) (steps : list ReadStep) :
    option (Result IoError (list N)) * list N * list ReadStep :=
  match request_decode buf with
  | Some (request, _) => (Some (Ok request), buf, steps)
  | None =>
      if oversized buf then (Some (Err too_long), buf, steps)
      else if decide (MAX_REQUEST_BYTES < len buf) then (Some (Err too_big), buf, steps)
      else
        match steps with
        | [] => (None, buf, [])
        | s :: steps =>
            let remaining := deadline - r_start s in
            if decide (remaining = 0) then (Some (Err late), buf, steps)
            else
              match r_set s, r_result s with
              | Some e, _ | None, RErr e => (Some (Err e), buf, steps)
              | None, RBytes chunk =>
                  if decide (len chunk = 0) then (Some (Err closed), buf, steps)
                  else
                    read_loop frame_deadline (buf ++ chunk)
                      (if decide (buf = []) then r_end s + frame_deadline else deadline) steps
              end
        end
  end.

Definition read_marshal_request (now first_byte_timeout frame_deadline : N) (steps : list ReadStep) :
    option (Result IoError (list N)) * list N * list ReadStep :=
  read_loop frame_deadline [] (now + first_byte_timeout) steps.

(** ** Bounds *)

(** [read] returns at most as many bytes as its buffer holds. *)
Definition chunk_of (s : ReadStep) : list N := match r_result s with RBytes c => c | RErr _ => [] end.
Definition chunk_fits (s : ReadStep) : Prop := len (chunk_of s) ≤ CHUNK ∧ bytes (chunk_of s).

Lemma undecoded_small buf : request_decode buf = None → oversized buf = false → len buf < MAX_REQUEST_BYTES.
Proof.
  unfold request_decode, oversized, MAX_REQUEST_BYTES, MAX_JSON_LEN.
  destruct buf as [|b0 [|b1 [|b2 [|b3 rest]]]]; try (intros _ _; unfold len; cbn; lia).
  cbn [decode_bytes declared]. unfold MAX_JSON_LEN. intros Hd Ho%bool_decide_eq_false. rewrite decide_False in Hd by done.
  case_decide as Hl; [|done]. unfold len in *. cbn [length]. lia.
Qed.

(** One turn of the loop. *)
Lemma read_loop_turn f buf d s steps :
  request_decode buf = None → oversized buf = false →
  read_loop f buf d (s :: steps) =
    if decide (d - r_start s = 0) then (Some (Err late), buf, steps)
    else match r_set s, r_result s with
         | Some e, _ | None, RErr e => (Some (Err e), buf, steps)
         | None, RBytes chunk =>
             if decide (len chunk = 0) then (Some (Err closed), buf, steps)
             else read_loop f (buf ++ chunk) (if decide (buf = []) then r_end s + f else d) steps
         end.
Proof.
  intros Hd Ho. cbn [read_loop]. rewrite Hd, Ho.
  pose proof (undecoded_small buf Hd Ho). by rewrite decide_False by lia.
Qed.

Lemma read_loop_decoded f buf d steps req n :
  request_decode buf = Some (req, n) → read_loop f buf d steps = (Some (Ok req), buf, steps).
Proof. intros Hd. destruct steps; cbn [read_loop]; by rewrite Hd. Qed.

Lemma read_loop_oversized f buf d steps :
  request_decode buf = None → oversized buf = true → read_loop f buf d steps = (Some (Err too_long), buf, steps).
Proof. intros Hd Ho. destruct steps; cbn [read_loop]; by rewrite Hd, Ho. Qed.

Lemma read_loop_waiting f buf d :
  request_decode buf = None → oversized buf = false → read_loop f buf d [] = (None, buf, []).
Proof.
  intros Hd Ho. cbn [read_loop]. rewrite Hd, Ho. pose proof (undecoded_small buf Hd Ho).
  by rewrite decide_False by lia.
Qed.

(** Case analysis of a run of the loop. *)
Ltac turn f buf d s steps :=
  let Hd := fresh "Hd" in let Ho := fresh "Ho" in
  destruct (request_decode buf) as [[? ?]|] eqn:Hd;
  [erewrite read_loop_decoded by exact Hd
  |destruct (oversized buf) eqn:Ho; [rewrite read_loop_oversized by done|rewrite read_loop_turn by done]].

(** Before every read the buffer is smaller than a whole request. *)
Definition loop_end_ok (buf0 : list N) (steps0 : list ReadStep)
    (out : option (Result IoError (list N)) * list N * list ReadStep) : Prop :=
  let '(r, buf, rest) := out in
  (len buf < MAX_REQUEST_BYTES + CHUNK) ∧ r ≠ Some (Err too_big) ∧
  (r = None → rest = [] ∧ len buf < MAX_REQUEST_BYTES ∧ len buf0 + N.of_nat (length steps0) ≤ len buf) ∧
  (N.of_nat (length steps0) ≤ N.of_nat (length rest) + (MAX_REQUEST_BYTES - len buf0)).

Lemma read_loop_bounded f steps : Forall chunk_fits steps → ∀ buf d,
  (∀ s e, s ∈ steps → r_set s = Some e ∨ r_result s = RErr e → e ≠ too_big) →
  len buf < MAX_REQUEST_BYTES + CHUNK →
  loop_end_ok buf steps (read_loop f buf d steps).
Proof.
  unfold loop_end_ok. induction 1 as [|s steps [Hc _] Hs IH]; intros buf d Hos Hb.
  - destruct (request_decode buf) as [[? ?]|] eqn:Hd; [erewrite read_loop_decoded by exact Hd; cbn; split_and!; try done; lia|].
    destruct (oversized buf) eqn:Ho; [rewrite read_loop_oversized by done; cbn; split_and!; try done; lia|].
    rewrite read_loop_waiting by done. pose proof (undecoded_small buf Hd Ho). cbn. split_and!; try done; [intros _; split_and!; [done|lia..]|lia].
  - turn f buf d s steps; [cbn; split_and!; try done; lia|cbn; split_and!; try done; lia|].
    pose proof (undecoded_small buf Hd Ho) as Hsm. unfold chunk_of in Hc.
    assert (N.of_nat (length (s :: steps)) ≤ N.of_nat (length steps) + (MAX_REQUEST_BYTES - len buf)) as Hcnt
      by (cbn [length]; lia).
    assert (∀ e, r_set s = Some e ∨ r_result s = RErr e → Some (Err e : Result IoError (list N)) ≠ Some (Err too_big)) as Hne
      by (intros e He [= Heq]; eapply Hos; [left|exact He|exact Heq]).
    case_decide; [split_and!; try done|].
    destruct (r_set s) as [e|] eqn:Hset; [split_and!; try done; apply Hne; by left|].
    destruct (r_result s) as [c|e] eqn:Hres; [|split_and!; try done; apply Hne; by right].
    case_decide as Hz; [split_and!; try done|].
    specialize (IH (buf ++ c) (if decide (buf = []) then r_end s + f else d)).
    destruct (read_loop _ _ _ steps) as [[r b] rest]. rewrite len_app in IH.
    destruct IH as (H1 & H2 & H3 & H4); [intros s' e Hin; apply Hos; by right|unfold CHUNK in *; lia|].
    split_and!; [done|done| |cbn [length]; lia]. intros Hr. destruct (H3 Hr) as (? & ? & ?). split_and!; [done..|cbn [length]; lia].
Qed.

(** ** Time *)

(** A read begun before the deadline returns at most [slack] after it: what a read
    timeout promises. *)
Fixpoint timeouts_kept (slack f : N) (empty : bool) (deadline : N) (steps : list ReadStep) : Prop :=
  match steps with
  | [] => True
  | s :: steps =>
      (r_start s < deadline → r_end s ≤ deadline + slack) ∧
      timeouts_kept slack f false (if empty then r_end s + f else deadline) steps
  end.

Definition is_nil {A} (l : list A) : bool := match l with [] => true | _ => false end.

Lemma read_loop_in_time slack f steps : ∀ buf d,
  timeouts_kept slack f (is_nil buf) d steps →
  let '(r, _, rest) := read_loop f buf d steps in
  ∃ reads last_turn, steps = reads ++ last_turn ++ rest ∧ (last_turn = [] ∨ length last_turn = 1%nat ∧ r = Some (Err late)) ∧
    Forall (λ s, r_end s ≤ (if is_nil buf then d + slack + f else d) + slack) reads.
Proof.
  induction steps as [|s steps IH]; intros buf d Hk.
  - destruct (request_decode buf) as [[? ?]|] eqn:Hd; [erewrite read_loop_decoded by exact Hd|];
      [|destruct (oversized buf) eqn:Ho; [rewrite read_loop_oversized by done|rewrite read_loop_waiting by done]];
      exists [], []; (split_and!; [done|by left|constructor]).
  - destruct Hk as [Hk1 Hk2]. turn f buf d s steps; [exists [], []; (split_and!; [done|by left|constructor])..|].
    case_decide as Hr; [exists [], [s]; (split_and!; [done|by right|constructor])|].
    assert (r_end s ≤ (if is_nil buf then d + slack + f else d) + slack) as He.
    { specialize (Hk1 ltac:(lia)). destruct (is_nil buf); lia. }
    destruct (r_set s); [exists [s], []; (split_and!; [done|by left|by constructor])|].
    destruct (r_result s) as [c|]; [|exists [s], []; (split_and!; [done|by left|by constructor])].
    case_decide as Hz; [exists [s], []; (split_and!; [done|by left|by constructor])|].
    assert (is_nil (buf ++ c) = false) as Hnil by (destruct buf, c; done).
    specialize (IH (buf ++ c) (if decide (buf = []) then r_end s + f else d)). rewrite Hnil in IH.
    destruct (read_loop _ _ _ steps) as [[r b] rest].
    destruct IH as (reads & lt & -> & Hlt & Hf).
    { by destruct buf; [rewrite decide_True by done|rewrite decide_False by done]. }
    exists (s :: reads), lt. split_and!; [done|done|]. constructor; [done|].
    eapply Forall_impl; [exact Hf|]. intros s' Hs'. specialize (Hk1 ltac:(lia)).
    destruct buf; cbn [is_nil]; [rewrite decide_True in Hs' by done|rewrite decide_False in Hs' by done]; lia.
Qed.

(** ** Any chunking *)

Lemma chunk_of_bytes s c : r_result s = RBytes c → chunk_of s = c.
Proof. unfold chunk_of. by intros ->. Qed.

Lemma read_loop_sound f steps : ∀ buf d req b rest,
  read_loop f buf d steps = (Some (Ok req), b, rest) →
  ∃ used, steps = used ++ rest ∧ b = buf ++ concat (chunk_of <$> used) ∧ ∃ n, request_decode b = Some (req, n).
Proof.
  induction steps as [|s steps IH]; intros buf d req b rest.
  - destruct (request_decode buf) as [[? ?]|] eqn:Hd; [erewrite read_loop_decoded by exact Hd|];
      [|destruct (oversized buf) eqn:Ho; [by rewrite read_loop_oversized by done|by rewrite read_loop_waiting by done]].
    intros [= -> <- <-]. exists []. cbn. rewrite app_nil_r. eauto.
  - turn f buf d s steps; [|done|].
    { intros [= -> <- <-]. exists []. cbn. rewrite app_nil_r. eauto. }
    case_decide; [done|]. destruct (r_set s); [done|]. destruct (r_result s) as [c|] eqn:Hres; [|done].
    case_decide; [done|]. intros (used & -> & -> & Hd')%IH. exists (s :: used). split_and!; [done| |done].
    cbn [fmap list_fmap concat]. by rewrite (chunk_of_bytes s c Hres), app_assoc.
Qed.

(** Turns that deliver bytes. *)
Definition delivers (s : ReadStep) : Prop := r_set s = None ∧ ∃ c, r_result s = RBytes c ∧ c ≠ [].

(** Every turn begins before its deadline. *)
Fixpoint on_time (f : N) (empty : bool) (deadline : N) (steps : list ReadStep) : Prop :=
  match steps with
  | [] => True
  | s :: steps => r_start s < deadline ∧ on_time f false (if empty then r_end s + f else deadline) steps
  end.

Lemma request_prefix json ext buf more :
  bytes (request_encode json ++ ext) → len json ≤ MAX_JSON_LEN → buf ++ more = request_encode json ++ ext →
  match request_decode buf with
  | Some (req, _) => req = json
  | None => oversized buf = false ∧ len buf < len (request_encode json)
  end.
Proof.
  intros Hb Hl Heq. pose proof Hb as Hb'. rewrite <-Heq in Hb'. pose proof Hb' as [Hbb _]%bytes_app.
  assert (request_decode (buf ++ more) = Some (json, len (request_encode json))) as Hfull.
  { apply decode_bytes_exact; [done|]. split_and!; [done..|]. by exists ext. }
  destruct (request_decode buf) as [[req n]|] eqn:Hd.
  - apply decode_bytes_exact in Hd as (Hlr & -> & e & ->); [|done].
    rewrite <-app_assoc in Hfull. unfold request_decode in Hfull.
    rewrite (proj2 (decode_bytes_exact (encode_bytes req ++ e ++ more) req (len (encode_bytes req)) ltac:(by rewrite app_assoc)))
      in Hfull; [by injection Hfull|]. split_and!; [done..|by eexists].
  - destruct (decide (len (request_encode json) ≤ len buf)) as [Hle|Hlt].
    { assert (buf = request_encode json ++ drop (length (request_encode json)) buf) as Hbuf.
      { rewrite <-(take_drop (length (request_encode json)) buf) at 1. f_equal.
        apply (f_equal (take (length (request_encode json)))) in Heq. unfold len in Hle.
        by rewrite take_app_le, take_app_length in Heq by lia. }
      unfold request_decode in Hd. rewrite (proj2 (decode_bytes_exact buf json (len (encode_bytes json)) Hbb)) in Hd; [done|].
      split_and!; [done..|by eexists]. }
    split; [|lia]. destruct buf as [|b0 [|b1 [|b2 [|b3 rest]]]]; try done.
    unfold oversized. cbn [declared]. apply bool_decide_eq_false. unfold request_encode, encode_bytes in Heq.
    rewrite N.mod_small in Heq by (unfold MAX_JSON_LEN in *; lia).
    destruct (u32_le_roundtrip (len json)) as (c0 & c1 & c2 & c3 & Hu & Hn); [unfold MAX_JSON_LEN in *; lia|].
    rewrite Hu in Heq. cbn in Heq. injection Heq as -> -> -> -> _. lia.
Qed.

Lemma read_loop_complete f json ext steps : ∀ buf d,
  bytes (request_encode json ++ ext) → len json ≤ MAX_JSON_LEN →
  Forall delivers steps → on_time f (is_nil buf) d steps →
  buf ++ concat (chunk_of <$> steps) = request_encode json ++ ext →
  ∃ b rest, read_loop f buf d steps = (Some (Ok json), b, rest).
Proof.
  induction steps as [|s steps IH]; intros buf d Hb Hl Hdel Ht Heq.
  - pose proof (request_prefix json ext buf _ Hb Hl Heq) as Hp.
    destruct (request_decode buf) as [[req n]|] eqn:Hd; [subst; erewrite read_loop_decoded by exact Hd; eauto|].
    destruct Hp as [_ Hp]. change (buf ++ [] = request_encode json ++ ext) in Heq. rewrite app_nil_r in Heq. rewrite Heq, len_app in Hp. lia.
  - apply Forall_cons in Hdel as [[Hset (c & Hres & Hc)] Hdel]. destruct Ht as [Ht1 Ht2].
    pose proof (request_prefix json ext buf _ Hb Hl Heq) as Hp.
    turn f buf d s steps; [subst; eauto|by destruct Hp|].
    rewrite decide_False by lia. rewrite Hset, Hres.
    rewrite decide_False by (unfold len; destruct c; [done|cbn; lia]).
    assert (is_nil (buf ++ c) = false) as Hnil by (destruct buf, c; done).
    apply IH; [done..| |].
    + rewrite Hnil. by destruct buf; [rewrite decide_True by done|rewrite decide_False by done].
    + cbn [fmap list_fmap concat] in Heq. by rewrite (chunk_of_bytes s c Hres), app_assoc in Heq.
Qed.

(** ** The reader *)

(** C21. A connection holds bounded memory, turns and time, whatever the peer sends: fewer
    than 16388 + 4096 bytes are ever buffered, at most 16388 turns are taken (a result
    is there by then), no read outlives the two timeouts by more than twice the slack of
    one read timeout, and the size check after the declared-length check is never what
    stops it. *)
Theorem reader_bounded now first f slack steps :
  Forall chunk_fits steps →
  (∀ s e, s ∈ steps → r_set s = Some e ∨ r_result s = RErr e → e ≠ too_big) →
  timeouts_kept slack f true (now + first) steps →
  let '(r, buf, rest) := read_marshal_request now first f steps in
  len buf < MAX_REQUEST_BYTES + CHUNK ∧
  N.of_nat (length steps) ≤ N.of_nat (length rest) + MAX_REQUEST_BYTES ∧
  (MAX_REQUEST_BYTES ≤ N.of_nat (length steps) → r ≠ None) ∧
  r ≠ Some (Err too_big) ∧
  ∃ reads last_turn, steps = reads ++ last_turn ++ rest ∧
    (last_turn = [] ∨ length last_turn = 1%nat ∧ r = Some (Err late)) ∧
    Forall (λ s, r_end s ≤ now + first + f + 2 * slack) reads.
Proof.
  intros Hc Hos Hk. unfold read_marshal_request.
  pose proof (read_loop_bounded f steps Hc [] (now + first) Hos ltac:(by vm_compute)) as Hb.
  pose proof (read_loop_in_time slack f steps [] (now + first) Hk) as Ht. cbn [is_nil] in Ht. unfold loop_end_ok in Hb.
  destruct (read_loop f [] (now + first) steps) as [[r buf] rest].
  destruct Hb as (H1 & H2 & H3 & H4), Ht as (reads & lt & Hs & Hlt & Hf). change (len (@nil N)) with 0 in *.
  split_and!; [done|lia|intros Hn Hr; destruct (H3 Hr) as (_ & ? & ?); lia|done|].
  exists reads, lt. split_and!; [done..|]. eapply Forall_impl; [exact Hf|]. cbn. lia.
Qed.

(** The request read is the request sent, however the network cuts it into pieces: if
    the bytes arriving in time begin with the encoding of a request, that request is
    returned; and whatever is returned was encoded at the start of the bytes taken. *)
Theorem reader_exact now first f steps json ext :
  Forall delivers steps → bytes (concat (chunk_of <$> steps)) → on_time f true (now + first) steps →
  concat (chunk_of <$> steps) = request_encode json ++ ext → len json ≤ MAX_JSON_LEN →
  (∃ buf rest, read_marshal_request now first f steps = (Some (Ok json), buf, rest)) ∧
  ∀ steps' json' buf' rest',
    Forall chunk_fits steps' → read_marshal_request now first f steps' = (Some (Ok json'), buf', rest') →
    ∃ used, steps' = used ++ rest' ∧ len json' ≤ MAX_JSON_LEN ∧
      ∃ ext', concat (chunk_of <$> used) = request_encode json' ++ ext'.
Proof.
  intros Hdel Hb Ht Heq Hl. split.
  - apply (read_loop_complete f json ext); try done. by rewrite <-Heq.
  - intros steps' json' buf' rest' Hfit (used & -> & -> & n & Hd)%read_loop_sound. exists used. split; [done|].
    apply Forall_app in Hfit as [Hfit _].
    apply decode_bytes_exact in Hd as (Hl' & _ & ext' & He); [by split; [|exists ext']|].
    cbn. clear -Hfit. induction Hfit as [|s used [_ Hs] _ IH]; [constructor|]. cbn. by apply bytes_app.
Qed.

(** ** A concrete connection: a five-byte request in three pieces *)

Definition slow_steps : list ReadStep :=
  [mkRead 0 None (RBytes [1]) 15000; mkRead 15000 None (RBytes [0; 0; 0]) 15100; mkRead 15100 None (RBytes [123; 7]) 17000].

Lemma reader_exact_witness :
  ∃ buf rest, read_marshal_request 0 20000 3000 slow_steps = (Some (Ok [123]), buf, rest).
Proof.
  apply (reader_exact 0 20000 3000 slow_steps [123] [7]).
  - repeat (constructor; [split; [reflexivity|eexists; split; [reflexivity|done]]|]). constructor.
  - by apply bytes_dec.
  - cbn. lia.
  - reflexivity.
  - by vm_compute.
Defined.

Lemma reader_bounded_witness :
  let '(r, buf, rest) := read_marshal_request 0 20000 3000 slow_steps in len buf < MAX_REQUEST_BYTES + CHUNK.
Proof.
  pose proof (reader_bounded 0 20000 3000 0 slow_steps) as Hb.
  destruct (read_marshal_request 0 20000 3000 slow_steps) as [[r buf] rest].
  apply Hb.
  - repeat (constructor; [split; [by vm_compute|by apply bytes_dec]|]). constructor.
  - intros s e Hs He. unfold slow_steps in Hs. rewrite !elem_of_cons in Hs.
    destruct Hs as [->|[->|[->|Hs]]]; [destruct He as [[=]|[=]]..|by apply elem_of_nil in Hs].
  - cbn. lia.
Defined.

Local Close Scope N_scope.

(** ** One connection *)

(** What writing meets: [set_write_timeout], [write_all] (failing after some bytes) and
    [flush]. *)
Record WriteEnv := mkWrite {
  wr_set : option IoError;
  wr_fail : option (nat * IoError);
  wr_flush : option IoError;
}.

Definition write_response (e : WriteEnv) (out : list N) : Result IoError () * list N :=
  match wr_set e with
  | Some err => (Err err, [])
  | None =>
      match wr_fail e with
      | Some (k, err) => (Err err, take k out)
      | None => (match wr_flush e with Some err => Err err | None => Ok () end, out)
      end
  end.

Section connection.
Context `{SS : SignatureScheme} `{SHA : Sha256} `{SD : StrDebug} `{DJ : DeskJson} `{HT : HttpText}.

(** The result (none while waiting for the request), the bytes written and the state. *)
Definition handle_connection_with (w : World) (url : option string) (signing_key : SigningKey) (st : DeskState)
    (limits : ProxyLimits) (now : N) (steps : list ReadStep) (env : WriteEnv) :
    option (Result IoError ()) * list N * DeskState :=
  match (read_marshal_request now (first_byte_timeout limits) (frame_deadline limits) steps).1.1 with
  | None => (None, [], st)
  | Some (Err e) => (Some (Err e), [], st)
  | Some (Ok request) =>
      let '(response, st) := build_response w url signing_key st request in
      let '(r, out) := write_response env (response_encode response) in
      (Some r, out, st)
  end.

(** The two halves of [build_response]: the first ends with the recording, the second
    touches nothing shared but the wire. *)
Definition verify_request (st : DeskState) (json : list N) : (MarshalResponse + KernelMinimalEnvelope) * DeskState :=
  match parse_kernel_envelope json with
  | Err response => (inl response, st)
  | Ok envelope =>
      let '(module_id, instance_id) := audit_ids (env_action envelope) in
      match check envelope with
      | Err err =>
          (inl (policy_error_response err),
           proxy_record st module_id instance_id false (Some (policy_error_display err)))
      | Ok _ => (inr envelope, proxy_record st module_id instance_id true None)
      end
  end.

Definition forward_request (w : World) (url : option string) (signing_key : SigningKey) (st : DeskState)
    (envelope : KernelMinimalEnvelope) : MarshalResponse * DeskState :=
  match kerkese_to_vec (build_enriched_envelope envelope signing_key (w_uuid w) (w_now w)) with
  | Err e =>
      (RespError (ErrOther (truncate_message ("failed to serialize enriched Kerkese envelope: " +:+ e))), st)
  | Ok enriched_json => submit_and_translate w url st enriched_json
  end.

Lemma build_response_split w url key st json :
  build_response w url key st json =
  match verify_request st json with
  | (inl response, st) => (response, st)
  | (inr envelope, st) => forward_request w url key st envelope
  end.
Proof.
  unfold build_response, verify_request, forward_request.
  destruct (parse_kernel_envelope json) as [e|r]; [|done]. destruct (audit_ids (env_action e)) as [m i].
  by destruct (check e).
Qed.
End connection.

(** ** The server *)

Definition fetch_add (x : N) : N := ((x + 1) mod (usize_max + 1))%N.
Definition fetch_sub (x : N) : N := ((x + usize_max) mod (usize_max + 1))%N.

(** Where the acceptor is between [accept] and [accept]. *)
Inductive Acceptor := AtAccept | Accepted | Counted (old : N) | Uncounting.

(** Where a connection thread is. *)
Inductive Phase :=
  | Reading
  | HasRequest (json : list N)
  | Vouched_for (envelope : KernelMinimalEnvelope)
  | Answering (response : MarshalResponse)
  | Finished.

Record Server := mkServer {
  sv_active : N;
  sv_acceptor : Acceptor;
  sv_threads : gmap nat Phase;
  sv_desk : DeskState;
}.

Definition server_start : Server := mkServer 0 AtAccept ∅ (mkDesk [] []).

Definition set_acceptor (s : Server) (a : Acceptor) : Server := mkServer (sv_active s) a (sv_threads s) (sv_desk s).
Definition set_thread (s : Server) (t : nat) (p : Phase) : Server :=
  mkServer (sv_active s) (sv_acceptor s) (<[t := p]> (sv_threads s)) (sv_desk s).

Section server.
Context `{SS : SignatureScheme} `{SHA : Sha256} `{SD : StrDebug} `{DJ : DeskJson} `{HT : HttpText}.
Variables (url : option string) (key : SigningKey) (limits : ProxyLimits).

Inductive server_step : Server → Server → Prop :=
  (** [listener.accept()]: an error is logged and the loop continues. *)
  | SAcceptError s : sv_acceptor s = AtAccept → server_step s s
  | SAccept s : sv_acceptor s = AtAccept → server_step s (set_acceptor s Accepted)
  (** [active.fetch_add(1, AcqRel)] *)
  | SCount s :
      sv_acceptor s = Accepted →
      server_step s (mkServer (fetch_add (sv_active s)) (Counted (sv_active s)) (sv_threads s) (sv_desk s))
  (** [>= limits.max_connections] *)
  | SAtCap s old :
      sv_acceptor s = Counted old → (max_connections limits ≤ old)%N → server_step s (set_acceptor s Uncounting)
  | SSpawn s old t :
      sv_acceptor s = Counted old → (old < max_connections limits)%N → sv_threads s !! t = None →
      server_step s (mkServer (sv_active s) AtAccept (<[t := Reading]> (sv_threads s)) (sv_desk s))
  | SSpawnFailed s old :
      sv_acceptor s = Counted old → (old < max_connections limits)%N → server_step s (set_acceptor s Uncounting)
  | SUncount s :
      sv_acceptor s = Uncounting →
      server_step s (mkServer (fetch_sub (sv_active s)) AtAccept (sv_threads s) (sv_desk s))
  (** A thread: [read_marshal_request], on some sequence of reads. *)
  | TRead s t now steps buf rest json :
      sv_threads s !! t = Some Reading →
      read_marshal_request now (first_byte_timeout limits) (frame_deadline limits) steps = (Some (Ok json), buf, rest) →
      server_step s (set_thread s t (HasRequest json))
  | TReadFailed s t now steps buf rest e :
      sv_threads s !! t = Some Reading →
      read_marshal_request now (first_byte_timeout limits) (frame_deadline limits) steps = (Some (Err e), buf, rest) →
      server_step s (set_thread s t Finished)
  (** Parse, check and the locked append. *)
  | TVerify s t json r st :
      sv_threads s !! t = Some (HasRequest json) → verify_request (sv_desk s) json = (r, st) →
      server_step s
        (mkServer (sv_active s) (sv_acceptor s)
           (<[t := match r with inl response => Answering response | inr e => Vouched_for e end]> (sv_threads s)) st)
  (** Enrich and submit, in whatever world the thread meets. *)
  | TForward s t e w r st :
      sv_threads s !! t = Some (Vouched_for e) → forward_request w url key (sv_desk s) e = (r, st) →
      server_step s (mkServer (sv_active s) (sv_acceptor s) (<[t := Answering r]> (sv_threads s)) st)
  (** The write, whether it succeeds or not. *)
  | TWrite s t r : sv_threads s !! t = Some (Answering r) → server_step s (set_thread s t Finished)
  (** [active_for_thread.fetch_sub(1, AcqRel)] *)
  | TDone s t :
      sv_threads s !! t = Some Finished →
      server_step s (mkServer (fetch_sub (sv_active s)) (sv_acceptor s) (delete t (sv_threads s)) (sv_desk s)).

Definition server_reachable : Server → Prop := rtc server_step server_start.
End server.

(** ** What every run keeps *)

Definition counting (a : Acceptor) : N := match a with Counted _ | Uncounting => 1 | _ => 0 end.

Definition authorizes (ev : DeskEvent) : bool := match ev with Recorded en => e_authorized en | Posted _ _ => false end.
Definition is_post (ev : DeskEvent) : bool := match ev with Posted _ _ => true | Recorded _ => false end.
Definition recorded (ev : DeskEvent) : option WormEntry := match ev with Recorded en => Some en | _ => None end.

Definition count (p : DeskEvent → bool) (tr : list DeskEvent) : nat := length (filter (λ ev, p ev = true) tr).

Definition is_vouched (p : Phase) : bool := match p with Vouched_for _ => true | _ => false end.
Definition pending (ts : gmap nat Phase) : nat := size (filter (λ kv : nat * Phase, is_vouched kv.2 = true) ts).

Lemma count_app p tr tr' : count p (tr ++ tr') = count p tr + count p tr'.
Proof. unfold count. by rewrite filter_app, length_app. Qed.

Lemma pending_insert ts t p p' :
  ts !! t = Some p →
  pending (<[t := p']> ts) + (if is_vouched p then 1 else 0) = pending ts + (if is_vouched p' then 1 else 0).
Proof.
  intros Ht. unfold pending. rewrite <-(insert_delete_id ts t p Ht) at 2. rewrite <-(insert_delete_eq ts t p').
  assert (∀ q, size (filter (λ kv : nat * Phase, is_vouched kv.2 = true) (<[t := q]> (delete t ts))) =
    (if is_vouched q then 1 else 0) + size (filter (λ kv : nat * Phase, is_vouched kv.2 = true) (delete t ts))) as Hq.
  { intros q. destruct (is_vouched q) eqn:Hv.
    - rewrite map_filter_insert_True by done. rewrite map_size_insert_None; [done|].
      apply map_lookup_filter_None. left. apply lookup_delete_eq.
    - rewrite map_filter_insert_False by (cbn; congruence). by rewrite delete_delete_eq. }
  rewrite !Hq. lia.
Qed.

Lemma pending_new ts t p : ts !! t = None → is_vouched p = false → pending (<[t := p]> ts) = pending ts.
Proof.
  intros Ht Hp. unfold pending. rewrite map_filter_insert_False by (cbn; congruence). by rewrite delete_id.
Qed.

Lemma pending_delete ts t p : ts !! t = Some p → is_vouched p = false → pending (delete t ts) = pending ts.
Proof.
  intros Ht Hp. pose proof (pending_insert ts t p Finished Ht) as Hi. rewrite Hp in Hi. cbn in Hi.
  rewrite <-(insert_delete_eq ts t Finished), pending_new in Hi by (done || apply lookup_delete_eq). lia.
Qed.

Section invariant.
Context `{SS : SignatureScheme} `{SHA : Sha256} `{SD : StrDebug} `{DJ : DeskJson} `{HT : HttpText}.
Variables (url : option string) (key : SigningKey) (limits : ProxyLimits).
Hypothesis cap_fits : (max_connections limits < usize_max)%N.

(** The authorization of an envelope is on record. *)
Definition on_record (tr : list DeskEvent) (e : KernelMinimalEnvelope) : Prop :=
  check e = Ok () ∧ ∃ en, Recorded en ∈ tr ∧ e_authorized en = true ∧
    e_module_id en = (audit_ids (env_action e)).1 ∧ e_instance_id en = Some (audit_ids (env_action e)).2.

(** Every post follows the record of its authorization, one post per record. *)
Definition justified (tr : list DeskEvent) : Prop :=
  ∀ pre u body suf, tr = pre ++ Posted u body :: suf →
    url = Some u ∧ count is_post pre < count authorizes pre ∧
    ∃ e w, on_record pre e ∧ kerkese_to_vec (build_enriched_envelope e key (w_uuid w) (w_now w)) = Ok body.

Record server_ok (s : Server) : Prop := {
  ok_active : sv_active s = (N.of_nat (size (sv_threads s)) + counting (sv_acceptor s))%N;
  ok_cap : (N.of_nat (size (sv_threads s)) ≤ max_connections limits)%N;
  ok_old old : sv_acceptor s = Counted old → (N.of_nat (size (sv_threads s)) ≤ old)%N;
  ok_log : verify_chain (d_log (sv_desk s)) = true;
  ok_trace : omap recorded (d_trace (sv_desk s)) = d_log (sv_desk s);
  ok_posts : justified (d_trace (sv_desk s));
  ok_pending : count is_post (d_trace (sv_desk s)) + pending (sv_threads s) ≤ count authorizes (d_trace (sv_desk s));
  ok_vouched t e : sv_threads s !! t = Some (Vouched_for e) → on_record (d_trace (sv_desk s)) e;
}.

Lemma on_record_app tr tr' e : on_record tr e → on_record (tr ++ tr') e.
Proof. intros (Hc & en & Hin & ?). split; [done|]. exists en. split; [apply elem_of_app; by left|done]. Qed.

Lemma justified_record tr en : justified tr → justified (tr ++ [Recorded en]).
Proof.
  intros Hj pre u body suf Heq. destruct suf as [|ev suf _] using rev_ind.
  - change (pre ++ [Posted u body]) with (pre ++ [Posted u body]) in Heq. by apply app_inj_tail in Heq as [_ [=]].
  - rewrite app_comm_cons, app_assoc in Heq. apply app_inj_tail in Heq as [Heq _]. by eapply Hj.
Qed.

Lemma justified_post tr u body :
  justified tr → url = Some u → count is_post tr < count authorizes tr →
  (∃ e w, on_record tr e ∧ kerkese_to_vec (build_enriched_envelope e key (w_uuid w) (w_now w)) = Ok body) →
  justified (tr ++ [Posted u body]).
Proof.
  intros Hj Hu Hc He pre u' body' suf Heq. destruct suf as [|ev suf _] using rev_ind.
  - apply app_inj_tail in Heq as [<- [= <- <-]]. done.
  - rewrite app_comm_cons, app_assoc in Heq. apply app_inj_tail in Heq as [Heq _]. by eapply Hj.
Qed.

(** *** The shared operations *)

Lemma verify_request_spec st json r st' :
  verify_request st json = (r, st') →
  (st' = st ∧ ∃ response, r = inl response) ∨
  ∃ en, st' = mkDesk (d_log st ++ [en]) (d_trace st ++ [Recorded en]) ∧
    (verify_chain (d_log st) = true → verify_chain (d_log st ++ [en]) = true) ∧
    match r with
    | inl _ => e_authorized en = false
    | inr e => e_authorized en = true ∧ check e = Ok () ∧
        e_module_id en = (audit_ids (env_action e)).1 ∧ e_instance_id en = Some (audit_ids (env_action e)).2
    end.
Proof.
  unfold verify_request. destruct (parse_kernel_envelope json) as [e|resp]; [|intros [= <- <-]; left; eauto].
  destruct (audit_ids (env_action e)) as [m i] eqn:Hi. intros Hv. right.
  destruct (check e) as [[]|err] eqn:Hc; injection Hv as <- <-; rewrite proxy_record_spec; eexists;
    (split; [reflexivity|split; [apply verification_verifies|]]); [by rewrite Hi|done].
Qed.

Lemma forward_request_spec w st e r st' :
  forward_request w url key st e = (r, st') →
  st' = st ∨ ∃ u body, url = Some u ∧ st' = mkDesk (d_log st) (d_trace st ++ [Posted u body]) ∧
    kerkese_to_vec (build_enriched_envelope e key (w_uuid w) (w_now w)) = Ok body.
Proof.
  unfold forward_request. destruct (kerkese_to_vec _) as [body|m] eqn:Hv; [|intros [= <- <-]; by left].
  intros Hs. pose proof (submit_state url w st body) as Hst. rewrite Hs in Hst. cbn in Hst. rewrite Hst.
  destruct url as [u|]; [right; eauto|left]. rewrite app_nil_r. by destruct st.
Qed.

Lemma fetch_add_small x : (x < usize_max)%N → fetch_add x = (x + 1)%N.
Proof. intros Hx. unfold fetch_add. apply N.mod_small. lia. Qed.

Lemma fetch_sub_small x : (0 < x ≤ usize_max)%N → fetch_sub x = (x - 1)%N.
Proof.
  intros Hx. unfold fetch_sub. replace (x + usize_max)%N with (x - 1 + 1 * (usize_max + 1))%N by lia.
  rewrite N.Div0.mod_add. apply N.mod_small. lia.
Qed.

(** *** Preservation *)

Lemma ok_acceptor s a active :
  server_ok s → (active = N.of_nat (size (sv_threads s)) + counting a)%N →
  (∀ old, a = Counted old → (N.of_nat (size (sv_threads s)) ≤ old)%N) →
  server_ok (mkServer active a (sv_threads s) (sv_desk s)).
Proof. intros [] ? ?. by split. Qed.

(** A thread moves on, the shared state at most growing. *)
Lemma ok_thread s t p p' st :
  server_ok s → sv_threads s !! t = Some p → verify_chain (d_log st) = true →
  omap recorded (d_trace st) = d_log st → justified (d_trace st) →
  count is_post (d_trace st) + pending (<[t := p']> (sv_threads s)) ≤ count authorizes (d_trace st) →
  (∃ tr, d_trace st = d_trace (sv_desk s) ++ tr) →
  (∀ e, p' = Vouched_for e → on_record (d_trace st) e) →
  server_ok (mkServer (sv_active s) (sv_acceptor s) (<[t := p']> (sv_threads s)) st).
Proof.
  intros [] Ht Hl Htr Hj Hp [tr Happ] Hv. split; cbn [sv_active sv_acceptor sv_threads sv_desk]; try done.
  1-3: by rewrite (map_size_insert_Some _ _ _ (ex_intro _ p Ht)).
  intros t' e Hl'. destruct (decide (t = t')) as [->|Hne].
  - rewrite lookup_insert_eq in Hl'. injection Hl' as ->. by apply Hv.
  - rewrite lookup_insert_ne in Hl' by done. rewrite Happ. apply on_record_app. by eapply ok_vouched0.
Qed.

Lemma ok_quiet s t p p' :
  server_ok s → sv_threads s !! t = Some p → is_vouched p' = false → server_ok (set_thread s t p').
Proof.
  intros Hs Ht Hp'. pose proof Hs as []. unfold set_thread. eapply ok_thread; try done.
  - pose proof (pending_insert (sv_threads s) t p p' Ht) as Hi. rewrite Hp' in Hi. lia.
  - exists []. by rewrite app_nil_r.
  - intros e ->. done.
Qed.

Lemma ok_done s t :
  server_ok s → sv_threads s !! t = Some Finished →
  server_ok (mkServer (fetch_sub (sv_active s)) (sv_acceptor s) (delete t (sv_threads s)) (sv_desk s)).
Proof.
  intros [] Ht. pose proof (map_size_delete_Some t (sv_threads s) (ex_intro _ _ Ht)) as Hsz.
  assert (size (sv_threads s) ≠ 0) by (intros Hz%map_size_empty_inv; by rewrite Hz, lookup_empty in Ht).
  assert (counting (sv_acceptor s) ≤ 1)%N by by destruct (sv_acceptor s).
  split; cbn [sv_active sv_acceptor sv_threads sv_desk]; rewrite ?Hsz; try done.
  - rewrite fetch_sub_small by lia. lia.
  - lia.
  - intros old Ho. specialize (ok_old0 old Ho). lia.
  - by rewrite (pending_delete _ _ _ Ht eq_refl).
  - intros t' e Hl'. apply lookup_delete_Some in Hl' as [_ Hl']. by eapply ok_vouched0.
Qed.

Lemma ok_verify s t json r st :
  server_ok s → sv_threads s !! t = Some (HasRequest json) → verify_request (sv_desk s) json = (r, st) →
  server_ok (mkServer (sv_active s) (sv_acceptor s)
    (<[t := match r with inl response => Answering response | inr e => Vouched_for e end]> (sv_threads s)) st).
Proof.
  intros Hs Ht [[-> [resp ->]]|(en & -> & Hv & Hr)]%verify_request_spec.
  { by apply (ok_quiet s t (HasRequest json) (Answering resp)). }
  pose proof Hs as [].
  pose proof (pending_insert (sv_threads s) t _
    (match r with inl response => Answering response | inr e => Vouched_for e end) Ht) as Hi. cbn in Hi.
  eapply ok_thread; cbn [d_log d_trace]; try done.
  - by apply Hv.
  - rewrite omap_app, ok_trace0. done.
  - by apply justified_record.
  - rewrite !count_app. change (count is_post [Recorded en]) with 0.
    assert (count authorizes [Recorded en] = if e_authorized en then 1 else 0) as ->
      by (unfold count; cbn; by destruct (e_authorized en)).
    destruct r; cbn in Hi |- *; [rewrite Hr|rewrite (proj1 Hr)]; lia.
  - by eexists.
  - intros e He. destruct r as [|e']; [done|]. injection He as <-. destruct Hr as (Ha & Hc & Hm & Hii). split; [done|].
    exists en. split_and!; try done. apply elem_of_app. right. by left.
Qed.

Lemma ok_forward s t e w r st :
  server_ok s → sv_threads s !! t = Some (Vouched_for e) → forward_request w url key (sv_desk s) e = (r, st) →
  server_ok (mkServer (sv_active s) (sv_acceptor s) (<[t := Answering r]> (sv_threads s)) st).
Proof.
  intros Hs Ht Hf. pose proof Hs as []. pose proof (pending_insert (sv_threads s) t _ (Answering r) Ht) as Hi. cbn in Hi.
  apply forward_request_spec in Hf as [->|(u & body & Hu & -> & Hb)].
  { by apply (ok_quiet s t (Vouched_for e) (Answering r)). }
  eapply ok_thread; cbn [d_log d_trace]; try done.
  - rewrite omap_app, ok_trace0. apply app_nil_r.
  - apply justified_post; try done; [lia|]. exists e, w. split; [by eapply ok_vouched0|done].
  - rewrite !count_app. change (count is_post [Posted u body]) with 1. lia.
  - by eexists.
Qed.

Lemma server_step_ok s s' : server_step url key limits s s' → server_ok s → server_ok s'.
Proof.
  intros Hstep Hs. pose proof Hs as [].
  destruct Hstep as [s Ha|s Ha|s Ha|s old Ha Hcap|s old t Ha Hcap Hfresh|s old Ha Hcap|s Ha|s t now steps buf rest json Ht
    |s t now steps buf rest e Ht|s t json r st Ht Hv|s t e w r st Ht Hf|s t r Ht|s t Ht];
    try (rewrite Ha in ok_active0; cbn [counting] in ok_active0).
  - done.
  - apply ok_acceptor; [done|by cbn; lia|done].
  - apply ok_acceptor; [done|rewrite fetch_add_small by lia; cbn; lia|]. intros old [= <-]. lia.
  - apply ok_acceptor; [done|by cbn; lia|done].
  - specialize (ok_old0 old Ha). split; cbn [sv_active sv_acceptor sv_threads sv_desk];
      rewrite ?map_size_insert_None by done; try done; cbn [counting]; [lia|lia|by rewrite pending_new|].
    intros t' e Hl'. destruct (decide (t = t')) as [->|Hne]; [by rewrite lookup_insert_eq in Hl'|].
    rewrite lookup_insert_ne in Hl' by done. by eapply ok_vouched0.
  - apply ok_acceptor; [done|by cbn; lia|done].
  - apply ok_acceptor; [done|rewrite fetch_sub_small by lia; cbn; lia|done].
  - by eapply ok_quiet.
  - by eapply ok_quiet.
  - by eapply ok_verify.
  - by eapply ok_forward.
  - by eapply ok_quiet.
  - by apply ok_done.
Qed.

Lemma server_start_ok : server_ok server_start.
Proof.
  split; try done; cbn.
  - rewrite map_size_empty. apply N.le_0_l.
  - intros pre u body suf Heq. by destruct pre.
Qed.

Lemma reachable_ok s : server_reachable url key limits s → server_ok s.
Proof.
  unfold server_reachable. generalize server_start server_start_ok. intros s0 Hs0 Hr. revert Hs0.
  induction Hr as [s|s s' s'' Hstep _ IH]; [done|]. intros Hs. apply IH. by eapply server_step_ok.
Qed.
End invariant.

Section spec.
Context `{SS : SignatureScheme} `{SHA : Sha256} `{SD : StrDebug} `{DJ : DeskJson} `{HT : HttpText}.

(** C7. However connections, threads, reads, locks and counter updates interleave: the
    counter never wraps and counts exactly the running connections and the one being
    admitted, at most [max_connections] run, and a connection is turned away only while
    that many are running; the evidence log verifies and holds exactly the recorded
    decisions; and every POST to CITADEL is the signed envelope of a request whose
    authorization was recorded before it, with one POST at most per recorded
    authorization. *)
Theorem server_invariant url key limits s :
  (max_connections limits < usize_max)%N → server_reachable url key limits s →
  sv_active s = (N.of_nat (size (sv_threads s)) + counting (sv_acceptor s))%N ∧
  (N.of_nat (size (sv_threads s)) ≤ max_connections limits)%N ∧
  (∀ s', sv_acceptor s = Accepted → server_step url key limits s s' → ∀ old, sv_acceptor s' = Counted old →
     (max_connections limits ≤ old)%N → N.of_nat (size (sv_threads s)) = max_connections limits) ∧
  verify_chain (d_log (sv_desk s)) = true ∧ omap recorded (d_trace (sv_desk s)) = d_log (sv_desk s) ∧
  justified url key (d_trace (sv_desk s)).
Proof.
  intros Hcap Hr. pose proof (reachable_ok url key limits Hcap s Hr) as []. split_and!; try done.
  intros s' Ha Hstep old Ho Hold. rewrite Ha in ok_active0. cbn in ok_active0.
  destruct Hstep; cbn in Ho; try congruence. injection Ho as <-. lia.
Qed.
End spec.

(** ** From the kernel's request to the kernel's gate *)

Section exchange.
Context `{SS : SignatureScheme} `{SHA : Sha256} `{SD : StrDebug} `{DJ : DeskJson} `{HT : HttpText} `{!DeskTexts}.

(** What is read off a connection on which the kernel's request arrives, in part or whole. *)
Lemma read_of_sent now first f steps json more req buf rest :
  Forall chunk_fits steps → concat (chunk_of <$> steps) ++ more = request_encode json →
  bytes (request_encode json) → (len json ≤ MAX_JSON_LEN)%N →
  read_marshal_request now first f steps = (Some (Ok req), buf, rest) → req = json.
Proof.
  intros Hfit Heq Hb Hl Hr. apply read_loop_sound in Hr as (used & -> & -> & n & Hd). cbn [app] in Hd.
  pose proof (request_prefix json [] (concat (chunk_of <$> used)) (concat (chunk_of <$> rest) ++ more)
    ltac:(by rewrite app_nil_r) Hl) as Hp.
  rewrite Hd in Hp. apply Hp. rewrite app_nil_r, <-Heq, fmap_app, concat_app. by rewrite app_assoc.
Qed.

(** A cut reply passes nothing its whole would not. *)
Lemma cut_reply r k json n :
  encodable r ∨ (∃ o d, r = Decision o d ∧ (MAX_JSON_LEN < len d)%N) →
  (∀ o d, r = Decision o d → bytes d ∧ (len d < 4294967296)%N) →
  decode_status (take k (response_encode r)) = Complete (Decision OutExecute json) n →
  take k (response_encode r) = response_encode r ∧ reply_class r = Execute.
Proof.
  intros He Hd Hc.
  assert (bytes (response_encode r)) as Hb by (apply response_encode_bytes; intros o d ->; by apply (Hd o)).
  assert (decode_status (response_encode r) = Complete (Decision OutExecute json) n) as Hfull.
  { rewrite <-(take_drop k (response_encode r)). apply complete_stays; [by rewrite take_drop|done]. }
  split; [|by rewrite <-classify_reply, Hfull].
  apply decode_status_exact in Hc as (Hen & -> & ext & Hext); [|by apply Forall_take].
  destruct He as [He|(o & d & -> & Hlong)].
  - rewrite (proj2 (decode_status_exact (response_encode r) r (len (response_encode r)) Hb)) in Hfull
      by (split_and!; [done..|exists []; by rewrite app_nil_r]).
    injection Hfull as -> _. apply take_ge. apply (f_equal length) in Hext.
    rewrite length_app, length_take in Hext. lia.
  - rewrite oversized_malformed in Hfull; [done|by apply (Hd o)|split; [done|by apply (Hd o)]].
Qed.

Lemma written_prefix e out : ∃ k, (write_response e out).2 = take k out.
Proof.
  unfold write_response. destruct (wr_set e); [exists 0; by rewrite take_0|].
  destruct (wr_fail e) as [[k ?]|]; [by exists k|]. exists (length out). by rewrite take_ge.
Qed.

(** Any prefix of what a connection wrote. *)
Lemma served_prefix url key w st limits now steps env a v principal body more j :
  vouched_of a = Some v → is_well_formed_identifier principal = true →
  envelope_from_slice (as_bytes (kerkese_json a principal)) = Ok (kernel_envelope a v principal) →
  kerkese_to_vec (build_enriched_envelope (kernel_envelope a v principal) key (w_uuid w) (w_now w)) = Ok body →
  world_text w → (∀ u b s d, w_http w u b = Responded s (BodyOk d) → (len d < 4294967296)%N) →
  unreachable_policy a = FailClosed → Forall chunk_fits steps →
  concat (chunk_of <$> steps) ++ more = request_encode (as_bytes (kerkese_json a principal)) →
  (len (as_bytes (kerkese_json a principal)) ≤ MAX_JSON_LEN)%N →
  let out := take j (handle_connection_with w url key st limits now steps env).1.2 in
  enforce (unreachable_policy a) (Remote (classify_decode (decode_status out))) = Ok () ↔
    (read_marshal_request now (first_byte_timeout limits) (frame_deadline limits) steps).1.1 =
      Some (Ok (as_bytes (kerkese_json a principal))) ∧
    out = response_encode (build_response w url key st (as_bytes (kerkese_json a principal))).1 ∧
    ∃ u, url = Some u ∧ said_execute (w_http w u body).
Proof.
  intros Ha Hp He Hb Hw Hlen Hfc Hfit Hsent Hl. cbv zeta. set (json := as_bytes (kerkese_json a principal)) in *.
  pose proof (proxy_gate_class url key w st a v principal body Ha Hp He Hb Hw Hlen) as Hgate.
  fold json in Hgate. destruct Hgate as [Hx _].
  unfold handle_connection_with.
  destruct (read_marshal_request now (first_byte_timeout limits) (frame_deadline limits) steps) as [[r buf] rest] eqn:Hr.
  rewrite Hfc. destruct r as [[req|e]|]; cbn [fst snd].
  2,3: rewrite take_nil; split; [done|by intros ([=] & _)].
  assert (req = json) as ->.
  { eapply read_of_sent; try done. unfold request_encode, encode_bytes. apply bytes_app. split; [apply bytes_u32|apply bytes_as_bytes]. }
  destruct (build_response w url key st json) as [resp st'] eqn:Hbr. cbn [fst] in Hx |- *.
  assert (encodable resp ∨ ∃ o d, resp = Decision o d ∧ (MAX_JSON_LEN < len d)%N) as Henc.
  { pose proof (response_encodable url key w st json Hw) as Hre. by rewrite Hbr in Hre. }
  assert (∀ o d, resp = Decision o d → bytes d ∧ (len d < 4294967296)%N) as Hdd.
  { intros o d ->. eapply decision_bytes; [done|done|]. by rewrite Hbr. }
  pose proof (written_prefix env (response_encode resp)) as [k Hk].
  destruct (write_response env (response_encode resp)) as [wr out]. cbn [fst snd] in Hk |- *. subst out. rewrite take_take.
  revert k. intros k0. generalize (j `min` k0)%nat. intros k.
  rewrite enforce_Ok. split.
  - intros [Hg|[_ [=]]]. injection Hg as Hg. split; [done|].
    destruct (decode_status (take k (response_encode resp))) as [[[] d|[]] n| |] eqn:Hds; try done.
    apply cut_reply in Hds as [-> Hcl]; [|done..]. split; [done|]. by apply Hx.
  - intros (_ & -> & Hse). left. rewrite classify_reply by done. f_equal. by apply Hx.
Qed.

(** End to end, for a fail-closed action: whatever part of the kernel's request reaches
    the proxy, whenever, in whatever pieces, and whatever part of the answer reaches the
    kernel, the action passes the gate exactly when the whole request was read, CITADEL
    answered EXECUTE to the signed envelope of this very action, and the whole answer
    arrived. *)
Theorem served_gate url key w st limits now steps env a v principal body more :
  vouched_of a = Some v → is_well_formed_identifier principal = true →
  envelope_from_slice (as_bytes (kerkese_json a principal)) = Ok (kernel_envelope a v principal) →
  kerkese_to_vec (build_enriched_envelope (kernel_envelope a v principal) key (w_uuid w) (w_now w)) = Ok body →
  world_text w → (∀ u b s d, w_http w u b = Responded s (BodyOk d) → (len d < 4294967296)%N) →
  unreachable_policy a = FailClosed → Forall chunk_fits steps →
  concat (chunk_of <$> steps) ++ more = request_encode (as_bytes (kerkese_json a principal)) →
  (len (as_bytes (kerkese_json a principal)) ≤ MAX_JSON_LEN)%N →
  let out := (handle_connection_with w url key st limits now steps env).1.2 in
  enforce (unreachable_policy a) (Remote (classify_decode (decode_status out))) = Ok () ↔
    (read_marshal_request now (first_byte_timeout limits) (frame_deadline limits) steps).1.1 =
      Some (Ok (as_bytes (kerkese_json a principal))) ∧
    out = response_encode (build_response w url key st (as_bytes (kerkese_json a principal))).1 ∧
    ∃ u, url = Some u ∧ said_execute (w_http w u body).
Proof.
  intros Ha Hp He Hb Hw Hlen Hfc Hfit Hsent Hl. cbv zeta.
  pose proof (served_prefix url key w st limits now steps env a v principal body more
    (length (handle_connection_with w url key st limits now steps env).1.2) Ha Hp He Hb Hw Hlen Hfc Hfit Hsent Hl) as Hpre.
  cbv zeta in Hpre. by rewrite take_ge in Hpre by done.
Qed.
End exchange.

(** ** Concrete runs *)

Module DeskRun.
Definition sent : list N := request_encode (as_bytes (kerkese_json DeskToy.asked_action DeskToy.principal)).
(** The request arrives in two pieces. *)
Definition steps : list ReadStep :=
  [mkRead 10 None (RBytes (take 3 sent)) 20; mkRead 20 None (RBytes (drop 3 sent)) 30].
Definition writes : WriteEnv := mkWrite None None None.
End DeskRun.

Lemma toy_world_text : world_text DeskToy.world.
Proof. intros u b. by apply bytes_dec. Qed.

Lemma run_steps_fit : Forall chunk_fits DeskRun.steps.
Proof. repeat (constructor; [split; [by vm_compute|by apply bytes_dec; vm_compute]|]). constructor. Qed.

Lemma served_gate_witness :
  enforce (unreachable_policy DeskToy.asked_action) (Remote (classify_decode (decode_status
    (handle_connection_with (SHA := Toy.toy_sha256) (SD := DeskToy.debug) (DJ := DeskToy.json) (HT := DeskToy.http_text)
       DeskToy.world (Some "http://citadel") DeskDemo.key DeskToy.start default_limits 0 DeskRun.steps DeskRun.writes).1.2)))
  = Ok ().
Proof.
  eapply (served_gate (SS := Demo.scheme) (SHA := Toy.toy_sha256) (SD := DeskToy.debug) (DJ := DeskToy.json)
    (HT := DeskToy.http_text) (H := DeskToy.texts)
    (Some "http://citadel") DeskDemo.key DeskToy.world DeskToy.start default_limits 0 DeskRun.steps DeskRun.writes
    DeskToy.asked_action (VReset 7) DeskToy.principal _ []).
  - reflexivity.
  - vm_compute. reflexivity.
  - vm_compute. reflexivity.
  - reflexivity.
  - exact toy_world_text.
  - intros u b s d [= <- <-]. by vm_compute.
  - reflexivity.
  - exact run_steps_fit.
  - vm_compute. reflexivity.
  - by vm_compute.
  - split; [vm_compute; reflexivity|]. split; [vm_compute; reflexivity|].
    exists "http://citadel". split; [reflexivity|]. exists 200%N, [1%N]. by split_and!.
Defined.

(** One connection admitted. *)
Lemma server_invariant_witness :
  let s := mkServer 1 AtAccept {[0 := Reading]} (mkDesk [] []) in
  (N.of_nat (size (sv_threads s)) ≤ max_connections default_limits)%N ∧ sv_active s = 1%N.
Proof.
  pose proof (server_invariant (SS := Demo.scheme) (SHA := Toy.toy_sha256) (SD := DeskToy.debug) (DJ := DeskToy.json)
    (HT := DeskToy.http_text) None DeskDemo.key default_limits
    (mkServer 1 AtAccept {[0 := Reading]} (mkDesk [] []))) as (_ & Hc & _).
  - by vm_compute.
  - eapply rtc_l; [apply SAccept; reflexivity|]. eapply rtc_l; [apply SCount; reflexivity|].
    eapply rtc_l; [eapply (SSpawn _ _ _ _ _ 0); [reflexivity|by vm_compute|reflexivity]|]. apply rtc_refl.
  - by split.
Defined.
