(* ===== verification/ArmTransport.v ===== *)
(** * ArmTransport: how the ARM kernel asks MARSHAL

    Model of [kernel-arm/src/marshal_transport.rs] and of the relay loop of
    [net-driver-host-arm/src/main.rs].  An evaluation builds a driver process
    ([ArmNet.setup]), spawns its thread, yields to the scheduler at most 64 times and
    reads the reply out of the response region.  What runs during a yield is a
    parameter: the state the evaluating thread finds when it runs again.  The driver's
    TCP socket is the [smoltcp] crate's: each turn of its loop meets what the socket
    answers. *)

From S2P Require Import Prelude Bytes StateErr Capability Worm Marshal MarshalCodec ArmVm ArmElf ArmReclaim ArmLoader ArmSpace ArmWorld ArmProcess ArmNet ArmSched.

Local Open Scope N_scope.

(** ** The driver's relay loop *)

Definition RESPONSE_CAPACITY : N := 8192.
Definition REQUEST_CAPACITY : N := 8192.
Definition RELAY_TURNS : nat := N.to_nat 2000000.

(** What the socket answers in one turn, after [iface.poll]: [send_slice] takes some of
    the bytes of the slice it is offered, [recv_slice] fills some of the slice it is
    offered; both are given the slice's length. *)
Record SockTurn := mkTurn {
  tn_can_send : bool;
  tn_send : N → option N;
  tn_can_recv : bool;
  tn_recv : N → option (list N);
  tn_open : bool;
}.

Record Relay := mkRelay { rl_sent : N; rl_received : list N }.

Definition relay_turn (request : list N) (r : Relay) (tn : SockTurn) : Relay :=
  let sent :=
    if tn_can_send tn && bool_decide (rl_sent r < len request)
    then rl_sent r + default 0 (tn_send tn (len request - rl_sent r)) else rl_sent r in
  let received :=
    if tn_can_recv tn && bool_decide (len (rl_received r) < RESPONSE_CAPACITY)
    then rl_received r ++ default [] (tn_recv tn (RESPONSE_CAPACITY - len (rl_received r))) else rl_received r in
  mkRelay sent received.

Definition relay_stops (request : list N) (r : Relay) (tn : SockTurn) : bool :=
  bool_decide (RESPONSE_CAPACITY ≤ len (rl_received r)) ||
  (bool_decide (len request ≤ rl_sent r) && negb (tn_open tn)).

Fixpoint relay_loop (budget : nat) (request : list N) (r : Relay) (turns : list SockTurn) : Relay :=
  match budget, turns with
  | S budget, tn :: turns =>
      let r := relay_turn request r tn in
      if relay_stops request r tn then r else relay_loop budget request r turns
  | _, _ => r
  end.

(** [run_marshal_request]: the status and length it reports, and the bytes it leaves in
    the response region. *)
Definition run_marshal_request (connected : bool) (region : list N) (request_len : N) (turns : list SockTurn) :
    N * N * list N :=
  if negb connected then (1, 0, []) else
  let request := take (N.to_nat (N.min request_len REQUEST_CAPACITY)) region in
  let r := relay_loop RELAY_TURNS request (mkRelay 0 []) turns in
  if decide (len (rl_received r) = 0) then (1, 0, []) else (0, len (rl_received r), rl_received r).

(** ** The kernel's side *)

Record Observation := mkObs { ob_status : N; ob_response_len : N; ob_fault : option (N * N * N * N) }.

Section transport.
Context `{Heap} `{SS : SignatureScheme} (demo_key : SigningKey).

(** The statics of the module, the three registers an excursion overwrites and the
    kernel. *)
Record Transport := mkTransport {
  mt_proxy : option (list N * N);
  mt_counter : N;
  mt_entry : N;
  mt_stack_top : N;
  mt_response_phys : N;
  mt_finished : bool;
  mt_active : bool;
  mt_observed : Observation;
  mt_elr : N;
  mt_spsr : N;
  mt_sp_el0 : N;
  mt_kernel : Kernel;
}.

Definition with_proxy (pr : option (list N * N)) (t : Transport) : Transport :=
  mkTransport pr (mt_counter t) (mt_entry t) (mt_stack_top t) (mt_response_phys t) (mt_finished t) (mt_active t)
    (mt_observed t) (mt_elr t) (mt_spsr t) (mt_sp_el0 t) (mt_kernel t).
Definition with_kernel (k : Kernel) (t : Transport) : Transport :=
  mkTransport (mt_proxy t) (mt_counter t) (mt_entry t) (mt_stack_top t) (mt_response_phys t) (mt_finished t)
    (mt_active t) (mt_observed t) (mt_elr t) (mt_spsr t) (mt_sp_el0 t) k.
Definition with_observed (o : Observation) (t : Transport) : Transport :=
  mkTransport (mt_proxy t) (mt_counter t) (mt_entry t) (mt_stack_top t) (mt_response_phys t) (mt_finished t)
    (mt_active t) o (mt_elr t) (mt_spsr t) (mt_sp_el0 t) (mt_kernel t).
Definition with_registers (elr spsr sp_el0 : N) (t : Transport) : Transport :=
  mkTransport (mt_proxy t) (mt_counter t) (mt_entry t) (mt_stack_top t) (mt_response_phys t) (mt_finished t)
    (mt_active t) (mt_observed t) elr spsr sp_el0 (mt_kernel t).

Definition set_marshal_proxy (ip : list N) (port : N) (t : Transport) : Transport := with_proxy (Some (ip, port)) t.
Definition clear_marshal_proxy (t : Transport) : Transport := with_proxy None t.

(** [finish], when [el0_exec] holds a continuation to take or not. *)
Definition finish (continuation : bool) (status response_len : N) (t : Transport) : option N * Transport :=
  if continuation
  then (None, with_observed (mkObs status response_len (ob_fault (mt_observed t))) t)
  else (Some u64_max, t).

Definition abort_from_fault (fault : N * N * N * N) (t : Transport) : Transport :=
  with_observed (mkObs (ob_status (mt_observed t)) (ob_response_len (mt_observed t)) (Some fault)) t.

(** [fetch_add] of the counter, and the statics written before the spawn. *)
Definition count_evaluation (t : Transport) : Transport :=
  mkTransport (mt_proxy t) ((mt_counter t + 1) mod (u64_max + 1)) (mt_entry t) (mt_stack_top t) (mt_response_phys t)
    (mt_finished t) (mt_active t) (mt_observed t) (mt_elr t) (mt_spsr t) (mt_sp_el0 t) (mt_kernel t).
Definition arm_excursion (entry_ stack_top_ response_phys : N) (t : Transport) : Transport :=
  mkTransport (mt_proxy t) (mt_counter t) entry_ stack_top_ response_phys false (mt_active t)
    (mkObs u64_max 0 None) (mt_elr t) (mt_spsr t) (mt_sp_el0 t) (mt_kernel t).

(** What an evaluation meets: the device registers, the driver's image, the clock, the
    thread's entry point, the [try_reserve] answers, and what a yield returns to. *)
Record EvalEnv := mkEvalEnv {
  ee_read32 : N → N;
  ee_read8 : N → N;
  ee_image : list N;
  ee_now : N;
  ee_ticks : N;
  ee_thread : N;
  ee_reserved : bool;
  ee_yield : Transport → Transport;
}.

(** [while !FINISHED.load() && yields < 64 { yield_now(); yields += 1 }] *)
Fixpoint wait_loop (yield : Transport → Transport) (budget : nat) (t : Transport) : Transport :=
  match budget with
  | O => t
  | S budget => if mt_finished t then t else wait_loop yield budget (yield t)
  end.

(** [from_raw_parts(response_phys, len)] *)
Definition read_phys (m : Mem) (pa n : N) : list N :=
  (λ i, phys_byte m (pa + N.of_nat i)) <$> seq 0 (N.to_nat n).

Definition evaluate_configured (env : EvalEnv) (action : MarshalAction) (principal : string)
    (remote_ip : list N) (remote_port : N) (t : Transport) : GateOutcome * Transport :=
  match scan_net (probe (ee_read32 env) (ee_read8 env)) with
  | None => (Remote Unreachable, t)
  | Some dev =>
      let encoded := request_encode (as_bytes (kerkese_json action principal)) in
      let info := mkNetBootInfo 0 0 0 (replicate (N.to_nat RX_BUFFER_COUNT) 0) (replicate (N.to_nat TX_BUFFER_COUNT) 0)
                    1 remote_ip remote_port (marshal_local_port (mt_counter t)) 0 in
      let t := count_evaluation t in
      match setup demo_key (ee_reserved env) (ee_image env) dev info (Some encoded) (ee_now env) (ee_ticks env)
              (k_phys (mt_kernel t)) with
      | (Err _, p) | (Ok (_, _, None), p) => (LocalFail SetupFailed, with_kernel (with_kphys p (mt_kernel t)) t)
      | (Ok (space, loaded, Some response_phys), p) =>
          let t := arm_excursion (ArmLoader.entry loaded) (ArmLoader.stack_top loaded) response_phys t in
          match spawn_with_address_space (ee_reserved env) (ee_thread env) space (with_kphys p (mt_kernel t)) with
          | (Err _, k) => (LocalFail SpawnFailed, with_kernel k t)
          | (Ok _, k) =>
              let t := wait_loop (ee_yield env) 64 (with_kernel k t) in
              if negb (mt_finished t) then (Remote Unreachable, t)
              else if is_some (ob_fault (mt_observed t)) then (LocalFail ExcursionFaulted, t)
              else if decide (ob_status (mt_observed t) ≠ 0 ∨ ob_response_len (mt_observed t) = 0)
                   then (Remote Unreachable, t)
              else
                let n := N.min (ob_response_len (mt_observed t)) MARSHAL_BUFFER_CAPACITY in
                let bytes := read_phys (mem (k_phys (mt_kernel t))) response_phys n in
                (Remote (classify_decode (decode_status bytes)), t)
          end
      end
  end.

Definition evaluate (env : EvalEnv) (reap_reserved : N → bool) (action : MarshalAction) (principal : string)
    (t : Transport) : GateOutcome * Transport :=
  match mt_proxy t with
  | None => (Remote Unreachable, t)
  | Some (remote_ip, remote_port) =>
      let saved_elr := mt_elr t in
      let saved_spsr := mt_spsr t in
      let saved_sp_el0 := mt_sp_el0 t in
      let '(outcome, t) := evaluate_configured env action principal remote_ip remote_port t in
      let t := with_kernel (reap_exited reap_reserved (mt_kernel t)).2 t in
      (outcome, with_registers saved_elr saved_spsr saved_sp_el0 t)
  end.
End transport.

(** ** The relay *)

(** The documented behaviour of [send_slice] and [recv_slice]. *)
Definition socket_ok (tn : SockTurn) : Prop :=
  (∀ n m, tn_send tn n = Some m → m ≤ n) ∧ (∀ n bs, tn_recv tn n = Some bs → len bs ≤ n ∧ bytes bs).

Definition relay_ok (request : list N) (r : Relay) : Prop :=
  rl_sent r ≤ len request ∧ len (rl_received r) ≤ RESPONSE_CAPACITY ∧ bytes (rl_received r).

Lemma relay_turn_ok request r tn : socket_ok tn → relay_ok request r → relay_ok request (relay_turn request r tn).
Proof.
  intros [Hs Hr] (H1 & H2 & H3). unfold relay_turn, relay_ok. cbn [rl_sent rl_received]. split.
  - destruct (tn_can_send tn && bool_decide (rl_sent r < len request)) eqn:Hc; [|done].
    apply andb_true_iff in Hc as [_ Hc%bool_decide_eq_true]. destruct (tn_send tn _) eqn:He; cbn; [apply Hs in He|]; lia.
  - destruct (tn_can_recv tn && bool_decide (len (rl_received r) < RESPONSE_CAPACITY)) eqn:Hc; [|done].
    apply andb_true_iff in Hc as [_ Hc%bool_decide_eq_true]. rewrite len_app.
    destruct (tn_recv tn _) as [bs|] eqn:He; cbn [from_option id]; [apply Hr in He as [He Hb]; split; [lia|by apply bytes_app]|].
    rewrite app_nil_r. change (len (@nil N)) with 0. split; [lia|done].
Qed.

Lemma relay_loop_ok budget request turns : ∀ r,
  Forall socket_ok turns → relay_ok request r → relay_ok request (relay_loop budget request r turns).
Proof.
  revert budget. induction turns as [|tn turns IH]; intros [|budget] r Ht Hr; try done.
  apply Forall_cons in Ht as [Htn Ht]. cbn [relay_loop]. pose proof (relay_turn_ok request r tn Htn Hr) as Hr'.
  destruct (relay_stops _ _ tn); [done|]. by apply IH.
Qed.

(** The driver keeps to its buffers whatever the network does: it never offers bytes
    beyond the request region, the reply it stores and reports has at most 8192 bytes,
    and it reports success exactly when it stored some. *)
Theorem relay_bounded connected region request_len turns :
  Forall socket_ok turns →
  let '(status, n, stored) := run_marshal_request connected region request_len turns in
  n = len stored ∧ n ≤ RESPONSE_CAPACITY ∧ bytes stored ∧ (status = 0 ↔ n ≠ 0) ∧
  let request := take (N.to_nat (N.min request_len REQUEST_CAPACITY)) region in
  rl_sent (relay_loop RELAY_TURNS request (mkRelay 0 []) turns) ≤ len request ∧ len request ≤ REQUEST_CAPACITY.
Proof.
  intros Ht. unfold run_marshal_request. set (request := take _ region).
  assert (len request ≤ REQUEST_CAPACITY) as Hreq by (unfold request, len; rewrite length_take; lia).
  assert (relay_ok request (relay_loop RELAY_TURNS request (mkRelay 0 []) turns)) as (H1 & H2 & H3)
    by (apply relay_loop_ok; [done|split_and!; [apply N.le_0_l|by vm_compute|constructor]]).
  destruct connected; cbn [negb]; [|by split_and!; try constructor].
  case_decide as Hz; (split_and!; try done). constructor.
Qed.

(** TCP delivers in order: what each turn of the loop receives is the next part of the
    stream [out]. *)
Fixpoint in_order (out : list N) (budget : nat) (request : list N) (r : Relay) (turns : list SockTurn) : Prop :=
  match budget, turns with
  | S budget, tn :: turns =>
      (∀ bs, tn_recv tn (RESPONSE_CAPACITY - len (rl_received r)) = Some bs →
         bs `prefix_of` drop (length (rl_received r)) out) ∧
      let r := relay_turn request r tn in
      if relay_stops request r tn then True else in_order out budget request r turns
  | _, _ => True
  end.

Lemma relay_turn_prefix out request r tn :
  rl_received r `prefix_of` out →
  (∀ bs, tn_recv tn (RESPONSE_CAPACITY - len (rl_received r)) = Some bs →
     bs `prefix_of` drop (length (rl_received r)) out) →
  rl_received (relay_turn request r tn) `prefix_of` out.
Proof.
  intros [rest ->] Hr. unfold relay_turn. cbn [rl_received].
  destruct (_ && _); [|by eexists]. destruct (tn_recv tn _) as [bs|]; cbn [from_option id];
    [|rewrite app_nil_r; by eexists].
  destruct (Hr bs eq_refl) as [rest' He]. rewrite drop_app_length in He. subst rest. exists rest'. by rewrite <-app_assoc.
Qed.

Lemma relay_loop_prefix out request turns : ∀ budget r,
  in_order out budget request r turns → rl_received r `prefix_of` out →
  rl_received (relay_loop budget request r turns) `prefix_of` out.
Proof.
  induction turns as [|tn turns IH]; intros [|budget] r Ho Hr; try done. destruct Ho as [Hb Ho].
  pose proof (relay_turn_prefix out request r tn Hr Hb) as Hr'. cbn [relay_loop in_order] in *.
  destruct (relay_stops _ _ tn); [done|]. by apply IH.
Qed.

(** What the driver stores is the beginning of the stream. *)
Lemma stored_prefix out region request_len turns :
  in_order out RELAY_TURNS (take (N.to_nat (N.min request_len REQUEST_CAPACITY)) region) (mkRelay 0 []) turns →
  (run_marshal_request true region request_len turns).2 `prefix_of` out.
Proof.
  intros Ho. unfold run_marshal_request. cbn [negb]. case_decide; cbn [snd]; [apply prefix_nil|].
  eapply relay_loop_prefix; [exact Ho|apply prefix_nil].
Qed.

(** More turns than the socket has answers for change nothing. *)
Lemma relay_loop_enough request turns : ∀ budget r,
  (length turns ≤ budget)%nat → relay_loop budget request r turns = relay_loop (length turns) request r turns.
Proof.
  induction turns as [|tn turns IH]; intros [|budget] r Hl; cbn [length] in *; try done; [lia|]. cbn [relay_loop].
  destruct (relay_stops _ _ tn); [done|]. apply IH. lia.
Qed.

Lemma in_order_enough out request turns : ∀ budget r,
  (length turns ≤ budget)%nat → in_order out (length turns) request r turns → in_order out budget request r turns.
Proof.
  induction turns as [|tn turns IH]; intros [|budget] r Hl; cbn [length] in *; try done. cbn [in_order].
  intros [Hb Ho]. split; [done|]. destruct (relay_stops _ _ tn); [done|]. apply IH; [lia|done].
Qed.

(** ** Reading a region back *)

Lemma byte_of_copy page src i : i < len src → byte_at (copy_at page 0 src) i = default 0 (src !! N.to_nat i).
Proof.
  intros Hi. unfold byte_at, copy_at. change (N.to_nat 0) with 0%nat. rewrite take_0. cbn [app]. by rewrite lookup_app_l by (unfold len in Hi; lia).
Qed.

Lemma page_of_offset pa i : pa mod GRANULE_4KIB = 0 → i < GRANULE_4KIB → page_of (pa + i) = pa ∧ (pa + i) mod GRANULE_4KIB = i.
Proof.
  unfold page_of. change GRANULE_4KIB with 4096. intros Ha Hi. rewrite <-N.Div0.add_mod_idemp_l, Ha, N.mod_small by lia. split; lia.
Qed.

(** What was copied into a page-aligned region of two pages is what is read from it. *)
Lemma read_copied m pa src :
  pa mod GRANULE_4KIB = 0 → len src ≤ 2 * GRANULE_4KIB → read_phys (copy_frames pa src 2 m) pa (len src) = src.
Proof.
  intros Ha Hl. unfold read_phys, len. rewrite Nat2N.id. apply list_eq. intros i. rewrite list_lookup_fmap.
  destruct (decide (i < length src)%nat) as [Hi|Hi].
  2: { rewrite (proj2 (lookup_ge_None src i)) by lia. by rewrite (proj2 (lookup_ge_None (seq _ _) i)) by (rewrite length_seq; lia). }
  rewrite lookup_seq_lt by done. cbn [fmap option_fmap option_map Nat.add].
  destruct (lookup_lt_is_Some_2 src i Hi) as [b Hb]. rewrite Hb. f_equal.
  unfold copy_frames. change (N.to_nat 2) with 2%nat. cbn [seq foldl]. change (N.of_nat 0 * GRANULE_4KIB) with 0.
  rewrite N.add_0_r. change (N.of_nat 1 * GRANULE_4KIB) with GRANULE_4KIB. unfold phys_byte.
  assert (∀ m a c, page_at (<[a := c]> m) a = c) as Hat by (intros; unfold page_at; by rewrite lookup_insert_eq).
  destruct (decide (N.of_nat i < GRANULE_4KIB)) as [Hp|Hp].
  - destruct (page_of_offset pa (N.of_nat i) Ha Hp) as [-> ->].
    assert (∀ m c, page_at (<[pa + GRANULE_4KIB := c]> m) pa = page_at m pa) as ->
      by (intros; unfold page_at; rewrite lookup_insert_ne by (change GRANULE_4KIB with 4096; lia); done).
    rewrite Hat, byte_of_copy; rewrite drop_0; [|unfold len; rewrite length_take; change GRANULE_4KIB with 4096 in *; lia].
    rewrite lookup_take_lt by (change GRANULE_4KIB with 4096 in *; lia). by rewrite Nat2N.id, Hb.
  - replace (pa + N.of_nat i) with (pa + GRANULE_4KIB + (N.of_nat i - GRANULE_4KIB)) by lia.
    assert ((pa + GRANULE_4KIB) mod GRANULE_4KIB = 0) as Ha'
      by (rewrite <-N.Div0.add_mod_idemp_l, Ha; reflexivity).
    destruct (page_of_offset (pa + GRANULE_4KIB) (N.of_nat i - GRANULE_4KIB) Ha') as [-> ->];
      [unfold len in *; change GRANULE_4KIB with 4096 in *; lia|].
    rewrite Hat, byte_of_copy; [|unfold len in *; change GRANULE_4KIB with 4096 in *; rewrite length_take, length_drop; lia].
    rewrite lookup_take_lt by (unfold len in *; change GRANULE_4KIB with 4096 in *; lia). rewrite lookup_drop.
    replace (4096 * 1 + N.to_nat (N.of_nat i - GRANULE_4KIB))%nat with i by (change GRANULE_4KIB with 4096 in *; lia). by rewrite Hb.
Qed.

(** ** What an evaluation concludes *)

Section spec.
Context `{HP : Heap} `{SS : SignatureScheme} (demo_key : SigningKey).

(** The steps of an evaluation. *)
Definition eval_setup (env : EvalEnv) (a : MarshalAction) (principal : string) (ip : list N) (port : N)
    (dev : NetDevice) (t : Transport) : Result string (AddressSpace * LoadedImage * option N) * Phys :=
  setup demo_key (ee_reserved env) (ee_image env) dev
    (mkNetBootInfo 0 0 0 (replicate (N.to_nat RX_BUFFER_COUNT) 0) (replicate (N.to_nat TX_BUFFER_COUNT) 0) 1 ip port
       (marshal_local_port (mt_counter t)) 0)
    (Some (request_encode (as_bytes (kerkese_json a principal)))) (ee_now env) (ee_ticks env)
    (k_phys (mt_kernel (count_evaluation t))).

Definition eval_armed (loaded : LoadedImage) (response : N) (t : Transport) : Transport :=
  arm_excursion (ArmLoader.entry loaded) (ArmLoader.stack_top loaded) response (count_evaluation t).

Definition eval_spawn (env : EvalEnv) (space : AddressSpace) (p : Phys) (t : Transport) : Result SpawnError () * Kernel :=
  spawn_with_address_space (ee_reserved env) (ee_thread env) space (with_kphys p (mt_kernel t)).

Definition eval_end (env : EvalEnv) (k : Kernel) (t : Transport) : Transport :=
  wait_loop (ee_yield env) 64 (with_kernel k t).

Definition eval_bytes (response : N) (t : Transport) : list N :=
  read_phys (mem (k_phys (mt_kernel t))) response (N.min (ob_response_len (mt_observed t)) MARSHAL_BUFFER_CAPACITY).

(** The evaluation ran its excursion to an orderly end and found these reply bytes. *)
Definition answered (env : EvalEnv) (a : MarshalAction) (principal : string) (t : Transport) (bs : list N) : Prop :=
  ∃ ip port dev space loaded response p k,
    mt_proxy t = Some (ip, port) ∧ scan_net (probe (ee_read32 env) (ee_read8 env)) = Some dev ∧
    eval_setup env a principal ip port dev t = (Ok (space, loaded, Some response), p) ∧
    eval_spawn env space p (eval_armed loaded response t) = (Ok (), k) ∧
    let t' := eval_end env k (eval_armed loaded response t) in
    mt_finished t' = true ∧ ob_fault (mt_observed t') = None ∧ ob_status (mt_observed t') = 0 ∧
    ob_response_len (mt_observed t') ≠ 0 ∧ bs = eval_bytes response t'.

(** The bytes an evaluation reads, computed. *)
Definition reply_bytes (env : EvalEnv) (a : MarshalAction) (principal : string) (t : Transport) : option (list N) :=
  match mt_proxy t, scan_net (probe (ee_read32 env) (ee_read8 env)) with
  | Some (ip, port), Some dev =>
      match eval_setup env a principal ip port dev t with
      | (Ok (space, loaded, Some response), p) =>
          let t := eval_armed loaded response t in
          Some (eval_bytes response (eval_end env (eval_spawn env space p t).2 t))
      | _ => None
      end
  | _, _ => None
  end.

Lemma answered_reply env a principal t bs : answered env a principal t bs → reply_bytes env a principal t = Some bs.
Proof.
  intros (ip & port & dev & space & loaded & response & p & k & Hp & Hdev & Hset & Hsp & _ & _ & _ & _ & ->).
  unfold reply_bytes. by rewrite Hp, Hdev, Hset, Hsp.
Qed.

Lemma answered_bounded env a principal t bs : answered env a principal t bs → len bs ≤ MARSHAL_BUFFER_CAPACITY.
Proof.
  intros (ip & port & dev & space & loaded & response & p & k & _ & _ & _ & _ & _ & _ & _ & _ & ->).
  unfold eval_bytes, read_phys, len. rewrite length_fmap, length_seq. lia.
Qed.

Lemma evaluate_answered env rr a principal t bs :
  answered env a principal t bs → (evaluate demo_key env rr a principal t).1 = Remote (classify_decode (decode_status bs)).
Proof.
  intros (ip & port & dev & space & loaded & response & p & k & Hp & Hdev & Hset & Hsp & Hf & Hfa & Hst & Hl & ->).
  unfold evaluate. rewrite Hp. unfold evaluate_configured. rewrite Hdev. cbv zeta in *.
  fold (eval_setup env a principal ip port dev t). rewrite Hset. fold (eval_armed loaded response t).
  fold (eval_spawn env space p (eval_armed loaded response t)). rewrite Hsp.
  fold (eval_end env k (eval_armed loaded response t)). rewrite Hf, Hfa. cbn [negb is_some]. rewrite decide_False by (rewrite Hst; intros [?|?]; done). done.
Qed.

Lemma evaluate_execute env rr a principal t :
  (evaluate demo_key env rr a principal t).1 = Remote Execute →
  ∃ bs, answered env a principal t bs ∧ classify_decode (decode_status bs) = Execute.
Proof.
  unfold evaluate. destruct (mt_proxy t) as [[ip port]|] eqn:Hp; [|done].
  destruct (evaluate_configured demo_key env a principal ip port t) as [o t'] eqn:He. cbn [fst]. intros ->. revert He.
  unfold evaluate_configured. destruct (scan_net _) as [dev|] eqn:Hdev; [|done]. cbv zeta.
  fold (eval_setup env a principal ip port dev t).
  destruct (eval_setup env a principal ip port dev t) as [[[[space loaded] [response|]]|] p] eqn:Hset; [|done..].
  fold (eval_armed loaded response t). fold (eval_spawn env space p (eval_armed loaded response t)).
  destruct (eval_spawn env space p (eval_armed loaded response t)) as [[[]|] k] eqn:Hsp; [|done].
  fold (eval_end env k (eval_armed loaded response t)). set (t3 := eval_end env k (eval_armed loaded response t)). destruct (mt_finished t3) eqn:Hf; [|done]. cbn [negb].
  destruct (ob_fault (mt_observed t3)) eqn:Hfa; [done|]. cbn [is_some]. case_decide as Hn; [done|].
  intros [= Hc <-]. eexists. split; [|exact Hc].
  exists ip, port, dev, space, loaded, response, p, k. cbv zeta. fold t3.
  split_and!; try done; destruct (decide (ob_status (mt_observed t3) = 0)); tauto.
Qed.

(** The registers of the interrupted caller survive the excursion, and each evaluation
    that reaches the network takes the next source port. *)
Lemma evaluate_registers env rr a principal t :
  let t' := (evaluate demo_key env rr a principal t).2 in
  mt_elr t' = mt_elr t ∧ mt_spsr t' = mt_spsr t ∧ mt_sp_el0 t' = mt_sp_el0 t.
Proof.
  unfold evaluate. destruct (mt_proxy t) as [[ip port]|]; [|done].
  by destruct (evaluate_configured demo_key env a principal ip port t) as [o t'].
Qed.

(** An action whose policy is fail-closed passes the gate exactly when an evaluation ran
    to an orderly end (proxy configured, device found, driver built and spawned, finished
    within the yields, no fault, success reported) and the bytes in the response region
    begin with an EXECUTE decision; and the caller's registers are restored however the
    evaluation went. *)
Theorem transport_fail_closed env rr a principal t :
  unreachable_policy a = FailClosed →
  (enforce (unreachable_policy a) (evaluate demo_key env rr a principal t).1 = Ok () ↔
   ∃ bs, answered env a principal t bs ∧ classify_decode (decode_status bs) = Execute) ∧
  let t' := (evaluate demo_key env rr a principal t).2 in
  mt_elr t' = mt_elr t ∧ mt_spsr t' = mt_spsr t ∧ mt_sp_el0 t' = mt_sp_el0 t.
Proof.
  intros ->. split; [|apply evaluate_registers]. rewrite enforce_Ok. split.
  - intros [Ho|[_ [=]]]. by apply evaluate_execute in Ho.
  - intros (bs & Ha & Hc). left. by rewrite (evaluate_answered _ _ _ _ _ _ Ha), Hc.
Qed.
End spec.
