(* ===== verification/EndToEnd.v ===== *)
(** * EndToEnd: from a governed system call to CITADEL and back

    The whole chain of a governed action: the kernel's evaluation ([ArmTransport]), the
    driver's buffers, the desktop proxy's connection ([DeskServer]) and its exchange with
    CITADEL ([DeskProxy]).  The network between driver and proxy is what TCP promises:
    each side sees a prefix of what the other wrote. *)

From S2P Require Import Prelude Text Bytes Worm Marshal MarshalCodec Capability ArmVm ArmElf ArmReclaim StateErr ArmLoader ArmSpace ArmWorld ArmProcess ArmNet ArmSched ArmThreads ArmChecks ArmScenario DeskPolicy DeskIdentity DeskProxy DeskServer ArmTransport.

Local Open Scope N_scope.

Section chain.
Context `{HP : Heap} `{SS : SignatureScheme} `{SHA : Sha256} `{SD : StrDebug} `{DJ : DeskJson} `{HT : HttpText} `{!DeskTexts}.
Variables (demo_key : SigningKey) (url : option string) (key : SigningKey).

(** The kernel's request, what the driver takes of it from its request region, and the
    driver's loop over it. *)
Definition wire_request (a : MarshalAction) (principal : string) : list N := request_encode (as_bytes (kerkese_json a principal)).
Definition region_request (a : MarshalAction) (principal : string) : list N :=
  take (N.to_nat (N.min (len (wire_request a principal)) REQUEST_CAPACITY)) (wire_request a principal).
Definition driver_loop (a : MarshalAction) (principal : string) (turns : list SockTurn) : Relay :=
  relay_loop RELAY_TURNS (region_request a principal) (mkRelay 0 []) turns.

(** One evaluation of [a], the driver's loop that carried it and the connection that
    served it: what reached the proxy is a prefix of the bytes the driver's socket took,
    the driver received, in order, what the proxy wrote, and the kernel found in its
    response region what the driver stored there. *)
Record chain (eenv : EvalEnv) (t : Transport) (a : MarshalAction) (principal : string) (turns : list SockTurn)
    (w : World) (st : DeskState) (limits : ProxyLimits) (now : N) (steps : list ReadStep) (wenv : WriteEnv) : Prop := {
  ch_chunks : Forall chunk_fits steps;
  ch_request : concat (chunk_of <$> steps) `prefix_of`
    take (N.to_nat (rl_sent (driver_loop a principal turns))) (region_request a principal);
  ch_order : in_order (handle_connection_with w url key st limits now steps wenv).1.2 RELAY_TURNS
    (region_request a principal) (mkRelay 0 []) turns;
  ch_reply bs : answered demo_key eenv a principal t bs →
    bs = (run_marshal_request true (wire_request a principal) (len (wire_request a principal)) turns).2;
}.

Lemma chain_prefixes eenv t a principal turns w st limits now steps wenv :
  chain eenv t a principal turns w st limits now steps wenv →
  (∃ more, concat (chunk_of <$> steps) ++ more = wire_request a principal) ∧
  ∀ bs, answered demo_key eenv a principal t bs →
    ∃ j, bs = take j (handle_connection_with w url key st limits now steps wenv).1.2.
Proof.
  intros [_ Hreq Hord Hrep]. split.
  - destruct Hreq as [more Hm]. exists (more ++ drop (N.to_nat (rl_sent (driver_loop a principal turns))) (region_request a principal)
      ++ drop (N.to_nat (N.min (len (wire_request a principal)) REQUEST_CAPACITY)) (wire_request a principal)).
    rewrite app_assoc, <-Hm, app_assoc, take_drop. apply take_drop.
  - intros bs Ha. rewrite (Hrep bs Ha). destruct (stored_prefix _ _ _ _ Hord) as [rest Hr].
    exists (length (run_marshal_request true (wire_request a principal) (len (wire_request a principal)) turns).2).
    rewrite Hr. by rewrite take_app_length.
Qed.

(** What the crates and CITADEL are relied on for, for this action. *)
Record serves (w : World) (a : MarshalAction) (v : Vouched) (principal : string) (body : list N) : Prop := {
  sv_vouched : vouched_of a = Some v;
  sv_principal : is_well_formed_identifier principal = true;
  sv_parses : envelope_from_slice (as_bytes (kerkese_json a principal)) = Ok (kernel_envelope a v principal);
  sv_writes : kerkese_to_vec (build_enriched_envelope (kernel_envelope a v principal) key (w_uuid w) (w_now w)) = Ok body;
  sv_texts : world_text w;
  sv_bodies u b s d : w_http w u b = Responded s (BodyOk d) → len d < 4294967296;
  sv_fits : len (as_bytes (kerkese_json a principal)) ≤ MAX_JSON_LEN;
}.

(** C5. A fail-closed action (deleting a profile, reactivating an account, resetting usage)
    executes exactly when the kernel's evaluation ran to an orderly end, the proxy read the
    kernel's whole request, CITADEL answered EXECUTE, with a success status, to the signed
    envelope of this very action, and the whole of that answer came back; whatever else
    happens anywhere along the chain blocks it.  The answer then has at most 8192 bytes. *)
Theorem governed_end_to_end eenv rr t a v principal turns w st limits now steps wenv body :
  unreachable_policy a = FailClosed →
  chain eenv t a principal turns w st limits now steps wenv → serves w a v principal body →
  enforce (unreachable_policy a) (evaluate demo_key eenv rr a principal t).1 = Ok () ↔
  ∃ bs, answered demo_key eenv a principal t bs ∧ len bs ≤ MARSHAL_BUFFER_CAPACITY ∧
    (read_marshal_request now (first_byte_timeout limits) (frame_deadline limits) steps).1.1 =
      Some (Ok (as_bytes (kerkese_json a principal))) ∧
    bs = response_encode (build_response w url key st (as_bytes (kerkese_json a principal))).1 ∧
    ∃ u, url = Some u ∧ said_execute (w_http w u body).
Proof.
  intros Hfc Hchain [Hv Hp Hpa Hwr Htx Hbo Hfi]. pose proof (ch_chunks _ _ _ _ _ _ _ _ _ _ _ Hchain) as Hch.
  apply chain_prefixes in Hchain as [[more Hreq] Hrep].
  assert (∀ j, let out := take j (handle_connection_with w url key st limits now steps wenv).1.2 in
    classify_decode (decode_status out) = Execute ↔
    (read_marshal_request now (first_byte_timeout limits) (frame_deadline limits) steps).1.1 =
      Some (Ok (as_bytes (kerkese_json a principal))) ∧
    out = response_encode (build_response w url key st (as_bytes (kerkese_json a principal))).1 ∧
    ∃ u, url = Some u ∧ said_execute (w_http w u body)) as Hcls.
  { intros j out. pose proof (served_prefix url key w st limits now steps wenv a v principal body more j Hv Hp Hpa Hwr Htx
      Hbo Hfc Hch Hreq Hfi) as Hs. cbv zeta in Hs. fold out in Hs. rewrite <-Hs, Hfc, enforce_Ok.
    split; [by intros ->; left|]. by intros [[= ?]|[_ [=]]]. }
  rewrite Hfc, enforce_Ok. split.
  - intros [(bs & Ha & Hc)%evaluate_execute|[_ [=]]]. exists bs. split; [done|].
    split; [by eapply answered_bounded|]. destruct (Hrep bs Ha) as [j ->]. by apply Hcls.
  - intros (bs & Ha & _ & H1 & H2 & H3). left. rewrite (evaluate_answered _ _ _ _ _ _ _ Ha). f_equal.
    destruct (Hrep bs Ha) as [j ->]. by apply Hcls.
Qed.

(** *** Long answers *)

Lemma long_reply_incomplete o d :
  bytes d → 8186 < len d ≤ MAX_JSON_LEN →
  decode_status (take (N.to_nat RESPONSE_CAPACITY) (response_encode (Decision o d))) = Incomplete.
Proof.
  intros Hb Hl. assert (decode_status (response_encode (Decision o d)) =
    Complete (Decision o d) (len (response_encode (Decision o d)))) as Hfull.
  { apply decode_status_exact; [by apply response_encode_bytes; intros ? ? [= _ <-]|]. split_and!; [by apply Hl|done|].
    exists []. by rewrite app_nil_r. }
  assert (bytes (response_encode (Decision o d))) as Hbe by (by apply response_encode_bytes; intros ? ? [= _ <-]).
  set (buf := take (N.to_nat RESPONSE_CAPACITY) (response_encode (Decision o d))).
  assert (buf ++ drop (N.to_nat RESPONSE_CAPACITY) (response_encode (Decision o d)) = response_encode (Decision o d)) as Hsp
    by apply take_drop.
  destruct (decode_status buf) as [r n| |] eqn:Hd; [|done|].
  - pose proof Hd as Hd'. apply (complete_stays _ (drop (N.to_nat RESPONSE_CAPACITY) (response_encode (Decision o d)))) in Hd';
      [|by rewrite Hsp]. rewrite Hsp, Hfull in Hd'. injection Hd' as <- <-.
    apply decode_status_exact in Hd as (_ & _ & ext & He); [|by apply Forall_take].
    apply (f_equal length) in He. unfold buf in He. rewrite length_app, length_take in He.
    assert (length (response_encode (Decision o d)) = (6 + length d)%nat) as Hlen by reflexivity.
    unfold RESPONSE_CAPACITY, len in *. lia.
  - apply (malformed_stays _ (drop (N.to_nat RESPONSE_CAPACITY) (response_encode (Decision o d)))) in Hd.
    rewrite Hsp, Hfull in Hd. done.
Qed.

(** C33. A refusal that does not fit is not a refusal: the response region is half the size of
    the largest decision the wire allows, so of a REFUSE or HARD_STOP whose JSON has between
    8187 and 16384 bytes the kernel finds the first 8192 bytes, takes them for a reply that
    stalled, and lets a fail-open action (enabling a profile, binding, suspending) through,
    although the same reply read whole blocks it. *)
Theorem long_refusal_ignored eenv rr t a principal turns o d bs :
  unreachable_policy a = FailOpen → o ≠ OutExecute → bytes d → 8186 < len d ≤ MAX_JSON_LEN →
  in_order (response_encode (Decision o d)) RELAY_TURNS (region_request a principal) (mkRelay 0 []) turns →
  bs = (run_marshal_request true (wire_request a principal) (len (wire_request a principal)) turns).2 →
  len bs = RESPONSE_CAPACITY → answered demo_key eenv a principal t bs →
  enforce (unreachable_policy a) (evaluate demo_key eenv rr a principal t).1 = Ok () ∧
  enforce (unreachable_policy a) (Remote (classify_decode (decode_status (response_encode (Decision o d))))) ≠ Ok ().
Proof.
  intros Hfo Ho Hb Hl Hord Hbs Hfull Ha.
  assert (bs = take (N.to_nat RESPONSE_CAPACITY) (response_encode (Decision o d))) as ->.
  { destruct (stored_prefix _ _ _ _ Hord) as [rest Hr]. rewrite <-Hbs in Hr. rewrite Hr.
    by rewrite take_app_length' by (rewrite <-Hfull; unfold len; lia). }
  rewrite (evaluate_answered _ _ _ _ _ _ _ Ha), (long_reply_incomplete o d Hb Hl), Hfo.
  split; [done|].
  rewrite (classify_reply (Decision o d)); [|left; apply Hl|intros ? ? [= _ <-]; split; [done|unfold MAX_JSON_LEN in *; lia]].
  unfold reply_class. rewrite decide_True by apply Hl. by destruct o.
Qed.
End chain.

(** ** Concrete evaluations

    The ARM kernel of [ArmScenario] asks MARSHAL through a driver that stores the given
    reply: one evaluation whose reply is what the desktop proxy wrote, one whose reply is
    a refusal cut at the capacity of the response region. *)

Import Bump Demo.

Local Open Scope N_scope.

Module EndRun.
Definition demo_key : @SigningKey Demo.scheme := 7.

(** A virtio-net device in slot 3. *)
Definition read32 (a : N) : N :=
  let base := VIRTIO_MMIO_BASE + 3 * SLOT_STRIDE in
  if a =? base + REG_MAGIC_VALUE then MAGIC else if a =? base + REG_VERSION then 2
  else if a =? base + REG_DEVICE_ID then DEVICE_ID_NET else 0.

(** The driver stores [reply] and reports it. *)
Definition excursion (reply : list N) (t : Transport) : Transport :=
  let k := mt_kernel t in
  let m := copy_frames (mt_response_phys t) reply MARSHAL_BUFFER_PAGES (mem (k_phys k)) in
  mkTransport (mt_proxy t) (mt_counter t) (mt_entry t) (mt_stack_top t) (mt_response_phys t) true true
    (mkObs 0 (len reply) None) 1 2 3 (with_kphys (set_mem m (k_phys k)) k).

Definition env (reply : list N) : EvalEnv :=
  mkEvalEnv read32 (λ _, 0) build_proof_image 0 1 0x40200000 true (excursion reply).

Definition start : Transport :=
  mkTransport (Some ([10; 0; 2; 100], 9000)) 0 0 0 0 false false (mkObs u64_max 0 None) 11 12 13 (init boot_kernel).

(** What the proxy of [DeskRun] writes. *)
Definition written : list N :=
  (handle_connection_with (SHA := Toy.toy_sha256) (SD := DeskToy.debug) (DJ := DeskToy.json) (HT := DeskToy.http_text)
     DeskToy.world (Some "http://citadel"%string) DeskDemo.key DeskToy.start default_limits 0 DeskRun.steps DeskRun.writes).1.2.

(** A refusal of 9000 bytes, and what fits of it. *)
Definition long_json : list N := replicate (N.to_nat 9000) 123.
Definition cut : list N := take (N.to_nat RESPONSE_CAPACITY) (response_encode (Decision OutRefuse long_json)).
Definition enable : MarshalAction := Esim "enable" 0 1.
End EndRun.

(** The setup and the spawn of an evaluation succeed, with an aligned response region. *)
Definition placed (a : MarshalAction) : bool :=
  match scan_net (probe EndRun.read32 (λ _, 0)) with
  | Some dev =>
      match eval_setup EndRun.demo_key (EndRun.env []) a DeskToy.principal [10; 0; 2; 100] 9000 dev EndRun.start with
      | (Ok (space, loaded, Some response), p) =>
          match eval_spawn (EndRun.env []) space p (eval_armed loaded response EndRun.start) with
          | (Ok _, k) => response mod GRANULE_4KIB =? 0
          | _ => false
          end
      | _ => false
      end
  | None => false
  end.

(** An evaluation finds the reply its driver stored. *)
Lemma run_answered a reply :
  placed a = true → 0 < len reply ≤ MARSHAL_BUFFER_CAPACITY →
  answered EndRun.demo_key (EndRun.env reply) a DeskToy.principal EndRun.start reply.
Proof.
  unfold placed. intros Hp Hl. destruct (scan_net (probe EndRun.read32 (λ _, 0))) as [dev|] eqn:Hdev; [|done].
  destruct (eval_setup EndRun.demo_key (EndRun.env []) a DeskToy.principal [10; 0; 2; 100] 9000 dev EndRun.start)
    as [[[[space loaded] [response|]]|] p] eqn:Hset; [|done..].
  destruct (eval_spawn (EndRun.env []) space p (eval_armed loaded response EndRun.start)) as [[[]|] k] eqn:Hsp; [|done].
  apply N.eqb_eq in Hp. exists [10; 0; 2; 100], 9000, dev, space, loaded, response, p, k.
  split; [reflexivity|]. split; [exact Hdev|]. split; [exact Hset|]. split; [exact Hsp|].
  set (armed := with_kernel k (eval_armed loaded response EndRun.start)).
  assert (eval_end (EndRun.env reply) k (eval_armed loaded response EndRun.start) = EndRun.excursion reply armed) as -> by reflexivity.
  cbv zeta. split; [reflexivity|]. split; [reflexivity|]. split; [reflexivity|].
  change (ob_response_len (mt_observed (EndRun.excursion reply armed))) with (len reply). split; [lia|].
  unfold eval_bytes. change (ob_response_len (mt_observed (EndRun.excursion reply armed))) with (len reply).
  rewrite N.min_l by lia.
  change (mem (k_phys (mt_kernel (EndRun.excursion reply armed)))) with (copy_frames response reply 2 (mem (k_phys k))).
  symmetry. apply read_copied; [done|]. apply Hl.
Qed.

Lemma placed_reset : placed DeskToy.asked_action = true.
Proof. vm_compute. reflexivity. Qed.

Lemma placed_enable : placed EndRun.enable = true.
Proof. vm_compute. reflexivity. Qed.

Lemma run_reply :
  answered EndRun.demo_key (EndRun.env EndRun.written) DeskToy.asked_action DeskToy.principal EndRun.start EndRun.written.
Proof. apply run_answered; [exact placed_reset|by vm_compute]. Qed.

Lemma cut_run :
  answered EndRun.demo_key (EndRun.env EndRun.cut) EndRun.enable DeskToy.principal EndRun.start EndRun.cut.
Proof. apply run_answered; [exact placed_enable|by vm_compute]. Qed.

Lemma toy_serves : ∃ body,
  serves (SS := Demo.scheme) (DJ := DeskToy.json) DeskDemo.key DeskToy.world DeskToy.asked_action (VReset 7) DeskToy.principal body.
Proof.
  eexists. split.
  - reflexivity.
  - by vm_compute.
  - by vm_compute.
  - reflexivity.
  - exact toy_world_text.
  - intros u b s d [= <- <-]. by vm_compute.
  - by vm_compute.
Qed.

(** A driver that sends the whole request, receives [reply] and sees the close. *)
Definition send_turn : SockTurn := mkTurn true Some false (λ _, None) true.
Definition recv_turn (reply : list N) : SockTurn := mkTurn false (λ _, None) true (λ n, Some (take (N.to_nat n) reply)) true.
Definition close_turn : SockTurn := mkTurn false (λ _, None) false (λ _, None) false.
Definition one_exchange (reply : list N) : list SockTurn := [send_turn; recv_turn reply; close_turn].

Lemma relay_turns_enough reply : (length (one_exchange reply) ≤ RELAY_TURNS)%nat.
Proof. unfold RELAY_TURNS. cbn [length one_exchange]. lia. Qed.

Lemma send_turn_run request : relay_turn request (mkRelay 0 []) send_turn = mkRelay (len request) [].
Proof.
  unfold relay_turn. cbn [send_turn tn_can_send tn_can_recv rl_sent rl_received andb tn_send from_option id].
  case_bool_decide; f_equal; lia.
Qed.

Lemma recv_turn_run request sent reply :
  relay_turn request (mkRelay sent []) (recv_turn reply) = mkRelay sent (take (N.to_nat RESPONSE_CAPACITY) reply).
Proof. unfold relay_turn. reflexivity. Qed.

(** It sends the whole request and stores the reply up to its capacity, in order. *)
Lemma exchange_run request reply :
  relay_loop RELAY_TURNS request (mkRelay 0 []) (one_exchange reply) =
    mkRelay (len request) (take (N.to_nat RESPONSE_CAPACITY) reply) ∧
  in_order reply RELAY_TURNS request (mkRelay 0 []) (one_exchange reply).
Proof.
  split.
  - rewrite relay_loop_enough by apply relay_turns_enough. cbn [length one_exchange relay_loop].
    rewrite send_turn_run, recv_turn_run. unfold relay_stops at 1. cbn [rl_received rl_sent send_turn tn_open negb].
    rewrite bool_decide_eq_false_2, andb_false_r by (unfold RESPONSE_CAPACITY, len; cbn; lia). cbn [orb].
    destruct (relay_stops _ _ (recv_turn reply)); [done|]. by destruct (relay_stops _ _ close_turn).
  - apply in_order_enough; [apply relay_turns_enough|]. cbn [length one_exchange in_order]. split; [done|].
    rewrite send_turn_run. destruct (relay_stops _ _ send_turn); [done|]. split.
    + intros bs [= <-]. exists (drop (N.to_nat RESPONSE_CAPACITY) reply). cbn [rl_received length]. rewrite drop_0. symmetry. apply take_drop.
    + destruct (relay_stops _ _ (recv_turn reply)); [done|]. split; [done|]. by destruct (relay_stops _ _ close_turn).
Qed.

Lemma exchange_stores region n reply :
  0 < len reply → (run_marshal_request true region n (one_exchange reply)).2 = take (N.to_nat RESPONSE_CAPACITY) reply.
Proof.
  intros Hl. unfold run_marshal_request. cbn [negb]. rewrite (proj1 (exchange_run _ reply)). cbn [rl_received].
  rewrite decide_False; [done|]. unfold RESPONSE_CAPACITY, len in *. rewrite length_take. lia.
Qed.

Lemma toy_chain :
  chain (HP := bump) (SS := Demo.scheme) (SHA := Toy.toy_sha256) (SD := DeskToy.debug) (DJ := DeskToy.json)
    (HT := DeskToy.http_text) EndRun.demo_key (Some "http://citadel"%string) DeskDemo.key
    (EndRun.env EndRun.written) EndRun.start DeskToy.asked_action DeskToy.principal (one_exchange EndRun.written)
    DeskToy.world DeskToy.start default_limits 0 DeskRun.steps DeskRun.writes.
Proof.
  split; [exact run_steps_fit| |exact (proj2 (exchange_run _ _))|].
  - unfold driver_loop. rewrite (proj1 (exchange_run _ _)). cbn [rl_sent].
    rewrite take_ge by (unfold len; lia). exists []. by vm_compute.
  - intros bs Ha%answered_reply. rewrite (answered_reply _ _ _ _ _ _ run_reply) in Ha. injection Ha as <-.
    rewrite exchange_stores by (by vm_compute). by vm_compute.
Qed.

Lemma run_passes :
  enforce (unreachable_policy DeskToy.asked_action)
    (evaluate EndRun.demo_key (EndRun.env EndRun.written) (λ _, true) DeskToy.asked_action DeskToy.principal EndRun.start).1
  = Ok ().
Proof.
  rewrite (evaluate_answered _ _ _ _ _ _ _ run_reply). by vm_compute.
Qed.

(** The reset went through: CITADEL had answered EXECUTE. *)
Lemma governed_end_to_end_witness : ∃ body u,
  Some "http://citadel"%string = Some u ∧ said_execute (H := DeskToy.json) (w_http DeskToy.world u body).
Proof.
  destruct toy_serves as [body Hs]. exists body.
  pose proof (governed_end_to_end (HP := bump) (SS := Demo.scheme) (SHA := Toy.toy_sha256) (SD := DeskToy.debug)
    (DJ := DeskToy.json) (HT := DeskToy.http_text) (H := DeskToy.texts) EndRun.demo_key (Some "http://citadel"%string)
    DeskDemo.key (EndRun.env EndRun.written) (λ _, true) EndRun.start DeskToy.asked_action (VReset 7) DeskToy.principal
    (one_exchange EndRun.written) DeskToy.world DeskToy.start default_limits 0 DeskRun.steps DeskRun.writes body eq_refl toy_chain Hs) as [Hr _].
  destruct (Hr run_passes) as (bs & _ & _ & _ & _ & u & Hu). by exists u.
Defined.

Lemma transport_fail_closed_witness :
  (∃ bs, answered EndRun.demo_key (EndRun.env EndRun.written) DeskToy.asked_action DeskToy.principal EndRun.start bs) ∧
  mt_elr (evaluate EndRun.demo_key (EndRun.env EndRun.written) (λ _, true) DeskToy.asked_action DeskToy.principal
    EndRun.start).2 = 11.
Proof.
  destruct (transport_fail_closed EndRun.demo_key (EndRun.env EndRun.written) (λ _, true) DeskToy.asked_action
    DeskToy.principal EndRun.start eq_refl) as [[Hr _] (He & _)].
  destruct (Hr run_passes) as (bs & Ha & _). split; [by exists bs|exact He].
Defined.

Lemma long_refusal_ignored_witness :
  enforce (unreachable_policy EndRun.enable)
    (evaluate EndRun.demo_key (EndRun.env EndRun.cut) (λ _, true) EndRun.enable DeskToy.principal EndRun.start).1 = Ok ().
Proof.
  apply (long_refusal_ignored (HP := bump) EndRun.demo_key (EndRun.env EndRun.cut) (λ _, true) EndRun.start EndRun.enable
    DeskToy.principal (one_exchange (response_encode (Decision OutRefuse EndRun.long_json))) OutRefuse EndRun.long_json EndRun.cut).
  - reflexivity.
  - done.
  - apply bytes_dec. by vm_compute.
  - by vm_compute.
  - exact (proj2 (exchange_run _ _)).
  - rewrite exchange_stores by (by vm_compute). reflexivity.
  - by vm_compute.
  - exact cut_run.
Defined.

(** Three turns of the driver's socket: connect and send, receive, see the close. *)
Definition demo_turns : list SockTurn :=
  [mkTurn true (λ n, Some (N.min n 3)) false (λ _, None) true; mkTurn true (λ n, Some n) true (λ n, if n =? 0 then None else Some [5]) true;
   mkTurn false (λ _, None) false (λ _, None) false].

Lemma relay_bounded_witness :
  let '(status, n, stored) := run_marshal_request true [1; 2; 3; 4] 4 demo_turns in n = len stored ∧ n ≤ RESPONSE_CAPACITY.
Proof.
  pose proof (relay_bounded true [1; 2; 3; 4] 4 demo_turns) as Hb.
  destruct (run_marshal_request true [1; 2; 3; 4] 4 demo_turns) as [[status n] stored].
  destruct Hb as (H1 & H2 & _); [|by split].
  constructor; [split; [intros n' m [= <-]; lia|done]|]. constructor; [|constructor; [by split|constructor]].
  split; [intros n' m [= <-]; lia|]. intros n' bs. cbn. destruct (N.eqb_spec n' 0); [done|]. intros [= <-].
  split; [unfold len; cbn; lia|by repeat constructor].
Defined.
