(* ===== verification/NetRx.v ===== *)
(** * NetRx: the network drivers' receive path against an untrusted device

    Model of [smoltcp_device/rx_policy.rs] and [smoltcp_device.rs] of the two network
    driver hosts (the same code twice, but for the header length and the notification
    register), of the completion and queue-size checks of their [lib.rs], and of the
    virtqueue rings of [virtio_net.rs] and [virtio.rs].  The device owns the used ring:
    every poll meets whatever the device shows at that moment. *)

From S2P Require Import Prelude.

Local Open Scope N_scope.

(** ** Checks of [lib.rs] *)

Definition RX_BUFFER_SIZE : N := 4096.
Definition MAX_QUEUE_SIZE : N := 256.

(** [usize] is wider than [u32], so the cast of [desc_id] is exact. *)
Definition validate_rx_completion (hdr desc_id len_ : N) (buffer_count : N) : option (N * N) :=
  if decide (len_ < hdr ∨ RX_BUFFER_SIZE < len_) then None
  else if decide (buffer_count ≤ desc_id) then None
  else Some (desc_id, len_).

Definition is_power_of_two (n : N) : bool := bool_decide (n ≠ 0) && (N.land n (n - 1) =? 0).

Definition queue_size_is_valid (qsize min_size : N) : bool :=
  is_power_of_two qsize && bool_decide (min_size ≤ qsize) && bool_decide (qsize ≤ MAX_QUEUE_SIZE).

(** [1u16 << (15 - cap.leading_zeros())] is [2] to the position of the highest bit. *)
Definition choose_queue_size (device_max requested min_size : N) : option N :=
  let cap := N.min (N.min device_max requested) MAX_QUEUE_SIZE in
  if decide (cap = 0) then None
  else
    let size := N.shiftl 1 (N.log2 cap) in
    if queue_size_is_valid size min_size then Some size else None.

(** ** Who owns a buffer *)

(** [RxPosted] is its mask. *)
Definition bit (index : N) : N := if decide (index < 32) then N.shiftl 1 index else 0.
Definition is_posted (mask index : N) : bool := negb (N.land mask (bit index) =? 0).
Definition try_post (mask index : N) : option N :=
  if decide (bit index = 0 ∨ N.land mask (bit index) ≠ 0) then None else Some (N.lor mask (bit index)).
Definition release_bit (mask index : N) : N := N.ldiff mask (bit index).

Inductive RxAction :=
  | Deliver (index len_ : N)
  | DropAndRepost (index : N)
  | DropUnidentified
  | DropNotOwned.

Definition classify_rx_completion (hdr desc_id len_ buffer_count mask : N) : RxAction :=
  if decide (buffer_count ≤ desc_id) then DropUnidentified
  else if negb (is_posted mask desc_id) then DropNotOwned
  else match validate_rx_completion hdr desc_id len_ buffer_count with
       | Some (index, len_) => Deliver index len_
       | None => DropAndRepost desc_id
       end.

(** ** Virtqueues *)

Record VirtqDesc := mkDesc { vd_addr : N; vd_len : N; vd_flags : N; vd_next : N }.

Record Virtqueue := mkQueue {
  vq_desc : gmap N VirtqDesc;
  vq_avail_flags : N;
  vq_avail_idx : N;
  vq_avail_ring : gmap N N;
  vq_qsize : N;
  vq_last_used_seen : N;
}.

(** What the device shows in the used ring at one moment. *)
Record UsedView := mkUsed { u_idx : N; u_elem : N → N * N }.

Definition VIRTQ_DESC_F_WRITE : N := 2.

Definition queue_new (qsize : N) : Virtqueue := mkQueue ∅ 0 0 ∅ qsize 0.

Definition init_avail_flags (q : Virtqueue) : Virtqueue :=
  mkQueue (vq_desc q) 0 0 (vq_avail_ring q) (vq_qsize q) (vq_last_used_seen q).

Definition post (q : Virtqueue) (index buf_phys buf_len : N) (writable : bool) : Virtqueue :=
  let idx := vq_avail_idx q in
  mkQueue (<[index := mkDesc buf_phys buf_len (if writable then VIRTQ_DESC_F_WRITE else 0) 0]> (vq_desc q))
    (vq_avail_flags q) ((idx + 1) mod 65536) (<[idx mod vq_qsize q := index]> (vq_avail_ring q)) (vq_qsize q)
    (vq_last_used_seen q).

Definition poll_used (v : UsedView) (q : Virtqueue) : option (N * N) * Virtqueue :=
  if decide (u_idx v = vq_last_used_seen q) then (None, q)
  else
    (Some (u_elem v (vq_last_used_seen q mod vq_qsize q)),
     mkQueue (vq_desc q) (vq_avail_flags q) (vq_avail_idx q) (vq_avail_ring q) (vq_qsize q)
       ((vq_last_used_seen q + 1) mod 65536)).

(** ** The device adapter *)

Definition RX_BUFFER_COUNT : N := 8.
Definition TX_BUFFER_COUNT : N := 4.

(** What the driver does to the device's view of its buffers, in order. *)
Inductive NetEvent :=
  | RxPost (index : N)
  | RxAccept (index : N)
  | RxNotify
  | TxPost (slot len_ : N)
  | TxNotify.

Record RunixNetDevice := mkNet {
  nd_rx : Virtqueue;
  nd_tx : Virtqueue;
  nd_rx_phys : list N;
  nd_tx_phys : list N;
  nd_tx_in_use : list bool;
  nd_unidentified : N;
  nd_not_owned : N;
  nd_posted : N;
  nd_trace : list NetEvent;
}.

Definition with_rx (q : Virtqueue) (posted : N) (evs : list NetEvent) (d : RunixNetDevice) : RunixNetDevice :=
  mkNet q (nd_tx d) (nd_rx_phys d) (nd_tx_phys d) (nd_tx_in_use d) (nd_unidentified d) (nd_not_owned d) posted
    (nd_trace d ++ evs).
Definition with_tx (q : Virtqueue) (in_use : list bool) (evs : list NetEvent) (d : RunixNetDevice) : RunixNetDevice :=
  mkNet (nd_rx d) q (nd_rx_phys d) (nd_tx_phys d) in_use (nd_unidentified d) (nd_not_owned d) (nd_posted d)
    (nd_trace d ++ evs).

(** [post_rx_buffer] with the write it is given: descriptor and avail entry. *)
Definition post_rx_buffer (index : N) (d : RunixNetDevice) : bool * RunixNetDevice :=
  match try_post (nd_posted d) index with
  | None => (false, d)
  | Some mask =>
      (true, with_rx (post (nd_rx d) index (default 0 (nd_rx_phys d !! N.to_nat index)) RX_BUFFER_SIZE true) mask
               [RxPost index] d)
  end.

Definition release (index : N) (d : RunixNetDevice) : RunixNetDevice :=
  with_rx (nd_rx d) (release_bit (nd_posted d) index) [RxAccept index] d.

Definition repost (index : N) (d : RunixNetDevice) : RunixNetDevice :=
  if decide (RX_BUFFER_COUNT ≤ index) then d
  else
    let '(wrote, d) := post_rx_buffer index d in
    if wrote then with_rx (nd_rx d) (nd_posted d) [RxNotify] d else d.

Definition note_unidentified (d : RunixNetDevice) : RunixNetDevice :=
  mkNet (nd_rx d) (nd_tx d) (nd_rx_phys d) (nd_tx_phys d) (nd_tx_in_use d)
    (N.min (nd_unidentified d + 1) u32_max) (nd_not_owned d) (nd_posted d) (nd_trace d).
Definition note_not_owned (d : RunixNetDevice) : RunixNetDevice :=
  mkNet (nd_rx d) (nd_tx d) (nd_rx_phys d) (nd_tx_phys d) (nd_tx_in_use d) (nd_unidentified d)
    (N.min (nd_not_owned d + 1) u32_max) (nd_posted d) (nd_trace d).

Definition rx_poll (v : UsedView) (d : RunixNetDevice) : option (N * N) * RunixNetDevice :=
  let '(r, q) := poll_used v (nd_rx d) in (r, with_rx q (nd_posted d) [] d).

Definition MAX_ENTRIES_PER_CALL : nat := 16.

(** The batch loop of [next_rx_frame]: the [k]-th poll meets [views k]. *)
Fixpoint rx_batch (hdr buffer_count : N) (views : nat → UsedView) (k n : nat) (pending : N) (d : RunixNetDevice) :
    option (N * N) * N * RunixNetDevice :=
  match n with
  | O => (None, pending, d)
  | S n =>
      match rx_poll (views k) d with
      | (None, d) => (None, pending, d)
      | (Some (desc_id, len_), d) =>
          match classify_rx_completion hdr desc_id len_ buffer_count (nd_posted d) with
          | Deliver index len_ => (Some (index, len_), pending, release index d)
          | DropAndRepost index =>
              rx_batch hdr buffer_count views (S k) n (N.lor pending (bit index)) (release index d)
          | DropUnidentified => rx_batch hdr buffer_count views (S k) n pending (note_unidentified d)
          | DropNotOwned => rx_batch hdr buffer_count views (S k) n pending (note_not_owned d)
          end
      end
  end.

(** [for index in 0..buffer_count { if pending & bit(index) != 0 { repost(index) } }] *)
Definition repost_pending (buffer_count pending : N) (d : RunixNetDevice) : RunixNetDevice :=
  foldl (λ d i, if N.land pending (bit (N.of_nat i)) =? 0 then d else repost (N.of_nat i) d)
    d (seq 0 (N.to_nat buffer_count)).

Definition next_rx_frame (hdr buffer_count : N) (views : nat → UsedView) (d : RunixNetDevice) :
    option (N * N) * RunixNetDevice :=
  let '(found, pending, d) := rx_batch hdr buffer_count views 0 MAX_ENTRIES_PER_CALL 0 d in
  (found, repost_pending buffer_count pending d).

(** [free_tx_slot]: the loop runs as long as the device shows new entries; [None] when it
    has not ended within [fuel] polls. *)
Fixpoint reap_tx (fuel : nat) (views : nat → UsedView) (k : nat) (d : RunixNetDevice) : option RunixNetDevice :=
  match fuel with
  | O => None
  | S fuel =>
      match poll_used (views k) (nd_tx d) with
      | (None, q) => Some (with_tx q (nd_tx_in_use d) [] d)
      | (Some (desc_id, _), q) =>
          let in_use := if decide (desc_id < TX_BUFFER_COUNT) then <[N.to_nat desc_id := false]> (nd_tx_in_use d)
                        else nd_tx_in_use d in
          reap_tx fuel views (S k) (with_tx q in_use [] d)
      end
  end.

Fixpoint position (l : list bool) (i : N) : option N :=
  match l with
  | [] => None
  | used :: l => if used then position l (i + 1) else Some i
  end.

Definition free_tx_slot (fuel : nat) (views : nat → UsedView) (d : RunixNetDevice) : option (option N * RunixNetDevice) :=
  d ← reap_tx fuel views 0 d; Some (position (nd_tx_in_use d) 0, d).

(** [service_rx], which is all [receive] does before it builds the tokens: TX slot, RX
    buffer, length. *)
Definition receive (hdr : N) (fuel : nat) (tx_views rx_views : nat → UsedView) (d : RunixNetDevice) :
    option (option (N * N * N) * RunixNetDevice) :=
  '(slot, d) ← free_tx_slot fuel tx_views d;
  match slot with
  | None => Some (None, d)
  | Some tx_slot =>
      let '(frame, d) := next_rx_frame hdr RX_BUFFER_COUNT rx_views d in
      Some ((λ '(index, len_), (tx_slot, index, len_)) <$> frame, d)
  end.

Definition transmit (fuel : nat) (views : nat → UsedView) (d : RunixNetDevice) : option (option N * RunixNetDevice) :=
  free_tx_slot fuel views d.

(** [RxToken::consume], after the frame was handed over. *)
Definition consume_rx (index : N) (d : RunixNetDevice) : RunixNetDevice :=
  let '(wrote, d) := post_rx_buffer index d in
  if wrote then with_rx (nd_rx d) (nd_posted d) [RxNotify] d else d.

(** The slice handed to the stack: offset and length inside the buffer. *)
Definition rx_slice (hdr len_ : N) : N * N := (hdr, len_ - hdr).

(** [TxToken::consume]; [None] is the panic of the slice index. *)
Definition consume_tx (hdr slot len_ : N) (d : RunixNetDevice) : option RunixNetDevice :=
  if decide (RX_BUFFER_SIZE < hdr + len_) then None
  else Some (with_tx (post (nd_tx d) slot (default 0 (nd_tx_phys d !! N.to_nat slot)) (hdr + len_) false)
               (<[N.to_nat slot := true]> (nd_tx_in_use d)) [TxPost slot (hdr + len_); TxNotify] d).

(** [RunixNetDevice::new]. *)
Definition net_new (rx_qsize tx_qsize : N) (rx_phys tx_phys : list N) : RunixNetDevice :=
  foldl (λ d i, (post_rx_buffer (N.of_nat i) d).2)
    (mkNet (init_avail_flags (queue_new rx_qsize)) (init_avail_flags (queue_new tx_qsize)) rx_phys tx_phys
       (replicate (N.to_nat TX_BUFFER_COUNT) false) 0 0 0 [])
    (seq 0 (length rx_phys)).

(** ** Masks *)

Lemma bit_testbit i j : i < 32 → N.testbit (bit i) j = (i =? j).
Proof. intros Hi. unfold bit. rewrite decide_True by done. rewrite N.shiftl_1_l. apply N.pow2_bits_eqb. Qed.

Lemma land_bit m i : i < 32 → (N.land m (bit i) =? 0) = negb (N.testbit m i).
Proof.
  intros Hi. destruct (N.testbit m i) eqn:Ht; cbn [negb].
  - apply N.eqb_neq. intros Hz. apply (f_equal (λ x, N.testbit x i)) in Hz.
    rewrite N.land_spec, bit_testbit, N.eqb_refl, Ht in Hz by done. by rewrite N.bits_0 in Hz.
  - apply N.eqb_eq. apply N.bits_inj_0. intros j. rewrite N.land_spec, bit_testbit by done.
    destruct (N.eqb_spec i j) as [->|]; [by rewrite Ht|apply andb_false_r].
Qed.

Lemma is_posted_testbit m i : i < 32 → is_posted m i = N.testbit m i.
Proof. intros Hi. unfold is_posted. by rewrite land_bit, negb_involutive. Qed.

Lemma try_post_spec m i :
  i < 32 → try_post m i = if N.testbit m i then None else Some (N.lor m (bit i)).
Proof.
  intros Hi. unfold try_post. pose proof (land_bit m i Hi) as Hl. destruct (N.testbit m i); cbn [negb] in Hl.
  - apply N.eqb_neq in Hl. by rewrite decide_True by (right; done).
  - apply N.eqb_eq in Hl. rewrite decide_False; [done|]. intros [Hz|Hz]; [|done].
    apply (f_equal (λ x, N.testbit x i)) in Hz. by rewrite bit_testbit, N.eqb_refl, N.bits_0 in Hz.
Qed.

Lemma lor_bit m i j : i < 32 → N.testbit (N.lor m (bit i)) j = N.testbit m j || (i =? j).
Proof. intros Hi. by rewrite N.lor_spec, bit_testbit. Qed.

Lemma release_testbit m i j : i < 32 → N.testbit (release_bit m i) j = N.testbit m j && negb (i =? j).
Proof. intros Hi. unfold release_bit. by rewrite N.ldiff_spec, bit_testbit. Qed.

(** ** The discipline *)

(** Does the device own buffer [i] after these events? *)
Definition owner_step (i : N) (b : bool) (ev : NetEvent) : bool :=
  match ev with
  | RxPost j => if j =? i then true else b
  | RxAccept j => if j =? i then false else b
  | _ => b
  end.
Definition owner (i : N) (tr : list NetEvent) : bool := foldl (owner_step i) false tr.

Lemma owner_snoc i tr ev : owner i (tr ++ [ev]) = owner_step i (owner i tr) ev.
Proof. unfold owner. by rewrite foldl_app. Qed.

(** A buffer is made available only while the device does not own it, and taken back only
    while it does. *)
Definition allowed (tr : list NetEvent) (ev : NetEvent) : Prop :=
  match ev with
  | RxPost i => i < RX_BUFFER_COUNT ∧ owner i tr = false
  | RxAccept i => i < RX_BUFFER_COUNT ∧ owner i tr = true
  | _ => True
  end.

Definition disciplined (tr : list NetEvent) : Prop := every_event allowed tr.

(** Ring accesses stay inside their pages. *)
Definition queue_ok (q : Virtqueue) : Prop :=
  0 < vq_qsize q ≤ MAX_QUEUE_SIZE ∧
  (∀ i d, vq_desc q !! i = Some d → i < MAX_QUEUE_SIZE) ∧ (∀ i x, vq_avail_ring q !! i = Some x → i < vq_qsize q).

Record dev_ok (d : RunixNetDevice) : Prop := {
  do_posted i : i < RX_BUFFER_COUNT → N.testbit (nd_posted d) i = owner i (nd_trace d);
  do_trace : disciplined (nd_trace d);
  do_rx : queue_ok (nd_rx d);
  do_tx : queue_ok (nd_tx d);
  do_slots : length (nd_tx_in_use d) = 4%nat;
}.

Lemma post_queue_ok q i a n w : queue_ok q → i < MAX_QUEUE_SIZE → queue_ok (post q i a n w).
Proof.
  intros (Hq & Hd & Ha) Hi. split_and!; cbn; [lia|lia|..].
  - intros j x. destruct (decide (i = j)) as [->|]; [done|]. rewrite lookup_insert_ne by done. apply Hd.
  - intros j x. destruct (decide (vq_avail_idx q mod vq_qsize q = j)) as [<-|]; [intros _; apply N.mod_lt; lia|].
    rewrite lookup_insert_ne by done. apply Ha.
Qed.

Lemma poll_queue_ok v q : queue_ok q → queue_ok (poll_used v q).2.
Proof. unfold poll_used. by case_decide. Qed.

Lemma count_small i : i < RX_BUFFER_COUNT → i < 32 ∧ i < MAX_QUEUE_SIZE.
Proof. unfold RX_BUFFER_COUNT, MAX_QUEUE_SIZE. lia. Qed.

(** An event appended with the mask it calls for. *)
Lemma dev_ok_event d q mask ev :
  dev_ok d → queue_ok q → allowed (nd_trace d) ev →
  (∀ i, i < RX_BUFFER_COUNT → N.testbit mask i = owner_step i (N.testbit (nd_posted d) i) ev) →
  dev_ok (with_rx q mask [ev] d).
Proof.
  intros [] Hq Ha Hm. split; cbn [nd_posted nd_trace nd_rx nd_tx nd_tx_in_use with_rx]; try done.
  - intros i Hi. by rewrite owner_snoc, Hm, do_posted0.
  - by apply every_event_snoc.
Qed.

Lemma post_rx_buffer_ok i d :
  dev_ok d → i < RX_BUFFER_COUNT →
  let '(wrote, d') := post_rx_buffer i d in
  dev_ok d' ∧ wrote = negb (N.testbit (nd_posted d) i) ∧
  ∀ j, j < RX_BUFFER_COUNT → N.testbit (nd_posted d') j = N.testbit (nd_posted d) j || (i =? j).
Proof.
  intros Hd Hi. destruct (count_small i Hi) as [H32 Hmax]. unfold post_rx_buffer. rewrite try_post_spec by done.
  destruct (N.testbit (nd_posted d) i) eqn:Ht.
  - split_and!; [done..|]. intros j Hj. destruct (N.eqb_spec i j) as [<-|]; [by rewrite Ht|by rewrite orb_false_r].
  - split_and!; [|done|intros j Hj; by apply lor_bit]. apply dev_ok_event; [done| | |].
    + apply post_queue_ok; [apply Hd|done].
    + split; [done|]. by rewrite <-(do_posted _ Hd).
    + intros j Hj. rewrite lor_bit by done. cbn. by destruct (N.eqb_spec i j); [rewrite orb_true_r|rewrite orb_false_r].
Qed.

Lemma release_ok i d :
  dev_ok d → i < RX_BUFFER_COUNT → N.testbit (nd_posted d) i = true →
  dev_ok (release i d) ∧
  ∀ j, N.testbit (nd_posted (release i d)) j = N.testbit (nd_posted d) j && negb (i =? j).
Proof.
  intros Hd Hi Ht. destruct (count_small i Hi) as [H32 _]. split; [|intros j; by apply release_testbit].
  apply dev_ok_event; [done|apply Hd|split; [done|by rewrite <-(do_posted _ Hd)]|].
  intros j Hj. rewrite release_testbit by done. cbn. by destruct (N.eqb_spec i j); [rewrite andb_false_r|rewrite andb_true_r].
Qed.

Lemma notify_ok d : dev_ok d → dev_ok (with_rx (nd_rx d) (nd_posted d) [RxNotify] d).
Proof. intros Hd. by apply dev_ok_event; [done|apply Hd| |]. Qed.

(** [repost] and [RxToken::consume]. *)
Lemma consume_rx_ok i d :
  dev_ok d → i < RX_BUFFER_COUNT →
  dev_ok (consume_rx i d) ∧
  ∀ j, j < RX_BUFFER_COUNT → N.testbit (nd_posted (consume_rx i d)) j = N.testbit (nd_posted d) j || (i =? j).
Proof.
  intros Hd Hi. unfold consume_rx. pose proof (post_rx_buffer_ok i d Hd Hi) as Hp.
  destruct (post_rx_buffer i d) as [[] d']; destruct Hp as (Hd' & _ & Hj); split; try done. by apply notify_ok.
Qed.

Lemma repost_consume i d : i < RX_BUFFER_COUNT → repost i d = consume_rx i d.
Proof. intros Hi. unfold repost, consume_rx. by rewrite decide_False by lia. Qed.

Lemma rx_poll_ok v d : dev_ok d → dev_ok (rx_poll v d).2 ∧ nd_posted (rx_poll v d).2 = nd_posted d.
Proof.
  intros Hd. unfold rx_poll. pose proof (poll_queue_ok v (nd_rx d) (do_rx _ Hd)) as Hq.
  destruct (poll_used v (nd_rx d)) as [r q]. cbn [snd] in *. split; [|done]. destruct Hd. split; cbn; rewrite ?app_nil_r; done.
Qed.

(** ** A batch *)

Lemma note_unidentified_ok d : dev_ok d → dev_ok (note_unidentified d).
Proof. intros []. by split. Qed.

Lemma note_not_owned_ok d : dev_ok d → dev_ok (note_not_owned d).
Proof. intros []. by split. Qed.

(** The buffer a result takes out of the pool. *)
Definition taken (found : option (N * N)) (i : N) : bool := match found with Some (j, _) => j =? i | None => false end.

Definition batch_ok (hdr pending : N) (found : option (N * N)) (d : RunixNetDevice) : Prop :=
  dev_ok d ∧
  (∀ i, i < RX_BUFFER_COUNT →
     N.testbit (nd_posted d) i = negb (N.testbit pending i) && negb (taken found i)) ∧
  (∀ i len_, found = Some (i, len_) → i < RX_BUFFER_COUNT ∧ hdr ≤ len_ ≤ RX_BUFFER_SIZE ∧ N.testbit pending i = false).

Lemma classify_cases hdr id len_ mask :
  match classify_rx_completion hdr id len_ RX_BUFFER_COUNT mask with
  | Deliver i n => i = id ∧ n = len_ ∧ i < RX_BUFFER_COUNT ∧ N.testbit mask i = true ∧ hdr ≤ n ≤ RX_BUFFER_SIZE
  | DropAndRepost i => i = id ∧ i < RX_BUFFER_COUNT ∧ N.testbit mask i = true
  | DropUnidentified => RX_BUFFER_COUNT ≤ id
  | DropNotOwned => id < RX_BUFFER_COUNT ∧ N.testbit mask id = false
  end.
Proof.
  unfold classify_rx_completion. case_decide as Hid; [done|].
  rewrite is_posted_testbit by (apply count_small; lia).
  destruct (N.testbit mask id) eqn:Ht; cbn [negb]; [|split; [lia|done]].
  unfold validate_rx_completion. case_decide as Hl; [split_and!; [done|lia|done]|].
  rewrite decide_False by done. split_and!; try done; lia.
Qed.

Lemma rx_batch_ok hdr views n : ∀ k pending d,
  batch_ok hdr pending None d →
  let '(found, pending', d') := rx_batch hdr RX_BUFFER_COUNT views k n pending d in
  batch_ok hdr pending' found d' ∧ (∀ i, N.testbit pending i = true → N.testbit pending' i = true).
Proof.
  induction n as [|n IH]; intros k pending d Hb; [done|]. cbn [rx_batch].
  pose proof Hb as (Hd & Hp & _). pose proof (rx_poll_ok (views k) d Hd) as [Hd1 Hm1].
  destruct (rx_poll (views k) d) as [r d1]. cbn [snd] in *.
  assert (batch_ok hdr pending None d1) as Hb1 by (split_and!; [done|by rewrite Hm1|done]).
  destruct r as [[id l]|]; [|done]. pose proof (classify_cases hdr id l (nd_posted d1)) as Hc.
  destruct (classify_rx_completion hdr id l RX_BUFFER_COUNT (nd_posted d1)) as [i n'|i| |].
  - destruct Hc as (_ & _ & Hi & Ht & Hn). destruct (release_ok i d1 Hd1 Hi Ht) as [Hr Hj].
    split; [|done]. pose proof Hb1 as (_ & Hp1 & _). split_and!; [done| |].
    + intros j Hjb. rewrite Hj, Hp1 by done. cbn [taken]. by rewrite andb_true_r.
    + intros i' l' [= <- <-]. split_and!; [done|lia|lia|]. specialize (Hp1 i Hi). rewrite Ht in Hp1.
      by destruct (N.testbit pending i).
  - destruct Hc as (_ & Hi & Ht). destruct (release_ok i d1 Hd1 Hi Ht) as [Hr Hj]. destruct (count_small i Hi) as [H32 _].
    specialize (IH (S k) (N.lor pending (bit i)) (release i d1)).
    destruct (rx_batch _ _ _ _ _ _ _) as [[found p'] d']. destruct IH as [IH1 IH2].
    { pose proof Hb1 as (_ & Hp1 & _). split_and!; [done| |done]. intros j Hjb. rewrite Hj, Hp1, lor_bit by done. cbn [taken].
      destruct (N.testbit pending j), (i =? j); done. }
    split; [done|]. intros j Hjt. apply IH2. rewrite lor_bit by done. by rewrite Hjt.
  - apply IH. destruct Hb1 as (H1 & H2 & H3). split_and!; [by apply note_unidentified_ok|done..].
  - apply IH. destruct Hb1 as (H1 & H2 & H3). split_and!; [by apply note_not_owned_ok|done..].
Qed.

Lemma repost_fold_ok pending l : ∀ d,
  dev_ok d → Forall (λ i, N.of_nat i < RX_BUFFER_COUNT) l →
  let d' := foldl (λ d i, if N.land pending (bit (N.of_nat i)) =? 0 then d else repost (N.of_nat i) d) d l in
  dev_ok d' ∧
  ∀ j, j < RX_BUFFER_COUNT →
    N.testbit (nd_posted d') j = N.testbit (nd_posted d) j || (N.testbit pending j && bool_decide (N.to_nat j ∈ l)).
Proof.
  induction l as [|i l IH]; intros d Hd Hl.
  { split; [done|]. intros j _. rewrite bool_decide_eq_false_2 by apply not_elem_of_nil. by rewrite andb_false_r, orb_false_r. }
  apply Forall_cons in Hl as [Hi Hl]. cbn [foldl].
  assert (∀ j, bool_decide (N.to_nat j ∈ i :: l) = (N.of_nat i =? j) || bool_decide (N.to_nat j ∈ l)) as Hin.
  { intros j. apply eq_bool_prop_intro. rewrite !Is_true_true, orb_true_iff, N.eqb_eq, !bool_decide_eq_true, elem_of_cons.
    split; (intros [?|?]; [left; lia|by right]). }
  rewrite land_bit by (by apply count_small).
  destruct (N.testbit pending (N.of_nat i)) eqn:Hp; cbn [negb].
  - rewrite repost_consume by done. destruct (consume_rx_ok (N.of_nat i) d Hd Hi) as [Hd' Hj'].
    destruct (IH _ Hd' Hl) as [IH1 IH2]. split; [done|]. intros j Hj. rewrite IH2, Hj', Hin by done.
    destruct (N.eqb_spec (N.of_nat i) j) as [<-|]; [by rewrite Hp, !orb_true_r|by rewrite orb_false_r].
  - destruct (IH d Hd Hl) as [IH1 IH2]. split; [done|]. intros j Hj. rewrite IH2, Hin by done.
    by destruct (N.eqb_spec (N.of_nat i) j) as [<-|]; [rewrite Hp|].
Qed.

(** With every buffer posted, servicing the ring leaves every buffer posted but the one
    it delivers. *)
Definition pool_full_but (held : option N) (d : RunixNetDevice) : Prop :=
  ∀ i, i < RX_BUFFER_COUNT → N.testbit (nd_posted d) i = negb (bool_decide (held = Some i)).

Lemma next_rx_frame_ok hdr views d :
  dev_ok d → pool_full_but None d →
  let '(found, d') := next_rx_frame hdr RX_BUFFER_COUNT views d in
  dev_ok d' ∧ pool_full_but (fst <$> found) d' ∧
  ∀ i len_, found = Some (i, len_) → i < RX_BUFFER_COUNT ∧ hdr ≤ len_ ≤ RX_BUFFER_SIZE.
Proof.
  intros Hd Hf. unfold next_rx_frame. pose proof (rx_batch_ok hdr views MAX_ENTRIES_PER_CALL 0 0 d) as Hb.
  destruct (rx_batch hdr RX_BUFFER_COUNT views 0 MAX_ENTRIES_PER_CALL 0 d) as [[found pending] d1].
  destruct Hb as [(Hd1 & Hp1 & Hfound) _].
  { split_and!; [done| |done]. intros i Hi. rewrite Hf by done. by rewrite N.bits_0. }
  destruct (repost_fold_ok pending (seq 0 (N.to_nat RX_BUFFER_COUNT)) d1 Hd1) as [Hd2 Hp2].
  { apply Forall_forall. intros i Hi%elem_of_seq. unfold RX_BUFFER_COUNT in *. lia. }
  fold (repost_pending RX_BUFFER_COUNT pending d1) in Hd2, Hp2. split_and!; [done| |].
  - intros i Hi. rewrite Hp2, Hp1 by done.
    rewrite bool_decide_eq_true_2 by (apply elem_of_seq; unfold RX_BUFFER_COUNT in *; lia). rewrite andb_true_r.
    destruct found as [[j l]|]; cbn [taken fmap option_fmap option_map fst].
    + destruct (Hfound j l eq_refl) as (_ & _ & Hpj). destruct (N.eqb_spec j i) as [<-|Hne].
      * rewrite Hpj. by rewrite bool_decide_eq_true_2.
      * rewrite bool_decide_eq_false_2 by congruence. by destruct (N.testbit pending i).
    + by destruct (N.testbit pending i).
  - intros i l Hs. destruct (Hfound i l Hs) as (? & ? & _). done.
Qed.

(** ** Transmission *)

Lemma with_tx_ok d q in_use evs :
  dev_ok d → queue_ok q → length in_use = 4%nat →
  Forall (λ ev, match ev with TxPost _ _ | TxNotify => True | _ => False end) evs →
  dev_ok (with_tx q in_use evs d) ∧ nd_posted (with_tx q in_use evs d) = nd_posted d.
Proof.
  intros Hd Hq Hl Hev. split; [|done].
  assert (∀ tr, disciplined tr → disciplined (tr ++ evs) ∧ ∀ i, owner i (tr ++ evs) = owner i tr) as Htr.
  { clear -Hev. induction evs as [|ev evs IH] using rev_ind; intros tr Ht; [by rewrite app_nil_r|].
    apply Forall_app in Hev as [Hevs Hev]. rewrite Forall_singleton in Hev. destruct (IH Hevs tr Ht) as [H1 H2]. rewrite app_assoc. split; [apply every_event_snoc; [done|by destruct ev; cbn in *]|].
    intros i. rewrite owner_snoc, H2. by destruct ev; cbn in *. }
  destruct (Htr (nd_trace d) (do_trace _ Hd)) as [H1 H2]. destruct Hd. split; cbn [nd_posted nd_trace nd_rx nd_tx nd_tx_in_use with_tx]; try done.
  intros i Hi. rewrite H2. by apply do_posted0.
Qed.

Lemma reap_tx_ok fuel views : ∀ k d d',
  dev_ok d → reap_tx fuel views k d = Some d' → dev_ok d' ∧ nd_posted d' = nd_posted d ∧ nd_rx d' = nd_rx d.
Proof.
  induction fuel as [|fuel IH]; intros k d d' Hd; [done|]. cbn [reap_tx].
  pose proof (poll_queue_ok (views k) (nd_tx d) (do_tx _ Hd)) as Hq.
  destruct (poll_used (views k) (nd_tx d)) as [[[id l]|] q]; cbn [snd] in Hq.
  - intros Hr.
    destruct (with_tx_ok d q (if decide (id < TX_BUFFER_COUNT) then <[N.to_nat id := false]> (nd_tx_in_use d) else nd_tx_in_use d)
      [] Hd Hq) as [Hd1 Hm1]; [case_decide; rewrite ?length_insert; apply Hd|constructor|].
    destruct (IH _ _ _ Hd1 Hr) as (H1 & H2 & H3). split_and!; [done|by rewrite H2|by rewrite H3].
  - intros [= <-]. destruct (with_tx_ok d q (nd_tx_in_use d) [] Hd Hq (do_slots _ Hd)) as [H1 H2]; [constructor|done].
Qed.

Lemma position_Some l : ∀ i j, position l i = Some j → i ≤ j < i + N.of_nat (length l) ∧ l !! N.to_nat (j - i) = Some false.
Proof.
  induction l as [|b l IH]; intros i j; [done|]. cbn [position]. destruct b.
  - intros [Hj Hl]%IH. cbn [length]. split; [lia|]. replace (N.to_nat (j - i)) with (S (N.to_nat (j - (i + 1)))) by lia. done.
  - intros [= <-]. cbn [length]. split; [lia|]. by rewrite N.sub_diag.
Qed.

Lemma free_tx_slot_ok fuel views d slot d' :
  dev_ok d → free_tx_slot fuel views d = Some (slot, d') →
  dev_ok d' ∧ nd_posted d' = nd_posted d ∧ nd_rx d' = nd_rx d ∧
  ∀ i, slot = Some i → i < TX_BUFFER_COUNT ∧ nd_tx_in_use d' !! N.to_nat i = Some false.
Proof.
  intros Hd (d1 & Hr & [= <- <-])%bind_Some. destruct (reap_tx_ok _ _ _ _ _ Hd Hr) as (H1 & H2 & H3).
  split_and!; [done..|]. intros i [Hi Hl]%position_Some. rewrite (do_slots _ H1) in Hi. unfold TX_BUFFER_COUNT.
  rewrite N.sub_0_r in Hl. split; [lia|done].
Qed.

Lemma consume_tx_ok hdr slot len_ d d' :
  dev_ok d → slot < TX_BUFFER_COUNT → consume_tx hdr slot len_ d = Some d' →
  dev_ok d' ∧ nd_posted d' = nd_posted d ∧ nd_tx_in_use d' !! N.to_nat slot = Some true.
Proof.
  intros Hd Hs. unfold consume_tx. case_decide; [done|]. intros [= <-]. unfold TX_BUFFER_COUNT in Hs.
  destruct (with_tx_ok d (post (nd_tx d) slot (default 0 (nd_tx_phys d !! N.to_nat slot)) (hdr + len_) false)
    (<[N.to_nat slot := true]> (nd_tx_in_use d)) [TxPost slot (hdr + len_); TxNotify] Hd) as [H1 H2].
  - apply post_queue_ok; [apply Hd|unfold MAX_QUEUE_SIZE; lia].
  - rewrite length_insert. apply Hd.
  - by repeat constructor.
  - split_and!; [done..|]. cbn. apply list_lookup_insert_eq. rewrite (do_slots _ Hd). lia.
Qed.

(** ** The driver against its device *)

(** What the network stack does with the adapter: a receive token is consumed before the
    next call; a transmit token may be dropped.  [held] is the buffer of a live receive
    token. *)
Inductive net_step (hdr : N) : RunixNetDevice * option N → RunixNetDevice * option N → Prop :=
  | NReceive fuel tv rv d frame d' :
      receive hdr fuel tv rv d = Some (frame, d') →
      net_step hdr (d, None) (d', (λ '(_, index, _), index) <$> frame)
  | NConsumeRx d index : net_step hdr (d, Some index) (consume_rx index d, None)
  | NTransmit fuel tv d slot d' len_ d'' held :
      transmit fuel tv d = Some (Some slot, d') → consume_tx hdr slot len_ d' = Some d'' →
      net_step hdr (d, held) (d'', held)
  | NTransmitNone fuel tv d slot d' held :
      transmit fuel tv d = Some (slot, d') → net_step hdr (d, held) (d', held).

Definition held_ok (held : option N) : Prop := ∀ i, held = Some i → i < RX_BUFFER_COUNT.

Definition net_inv (s : RunixNetDevice * option N) : Prop := dev_ok s.1 ∧ pool_full_but s.2 s.1 ∧ held_ok s.2.

(** Servicing the receive ring leaves the transmit side alone. *)
Lemma post_rx_tx i d : nd_tx_in_use (post_rx_buffer i d).2 = nd_tx_in_use d.
Proof. unfold post_rx_buffer. by destruct (try_post (nd_posted d) i). Qed.

Lemma repost_tx i d : nd_tx_in_use (repost i d) = nd_tx_in_use d.
Proof.
  unfold repost. case_decide; [done|]. pose proof (post_rx_tx i d) as Hp. by destruct (post_rx_buffer i d) as [[] d'].
Qed.

Lemma rx_batch_tx hdr c views n : ∀ k pending d, nd_tx_in_use (rx_batch hdr c views k n pending d).2 = nd_tx_in_use d.
Proof.
  induction n as [|n IH]; intros k pending d; [done|]. cbn [rx_batch]. unfold rx_poll.
  destruct (poll_used (views k) (nd_rx d)) as [[[id l]|] q]; [|done].
  destruct (classify_rx_completion _ _ _ _ _); [done|by rewrite IH..].
Qed.

Lemma next_rx_frame_tx hdr views d : nd_tx_in_use (next_rx_frame hdr RX_BUFFER_COUNT views d).2 = nd_tx_in_use d.
Proof.
  unfold next_rx_frame. pose proof (rx_batch_tx hdr RX_BUFFER_COUNT views MAX_ENTRIES_PER_CALL 0 0 d) as Hb.
  destruct (rx_batch _ _ _ _ _ _ _) as [[found pending] d1]. cbn [snd] in *. rewrite <-Hb. unfold repost_pending.
  generalize (seq 0 (N.to_nat RX_BUFFER_COUNT)) as l. intros l. revert d1 Hb.
  induction l as [|i l IH]; intros d1 Hb; [done|]. cbn [foldl]. rewrite IH; [|by case_match; rewrite ?repost_tx].
  case_match; [done|apply repost_tx].
Qed.

Lemma receive_ok hdr fuel tv rv d frame d' :
  dev_ok d → pool_full_but None d → receive hdr fuel tv rv d = Some (frame, d') →
  net_inv (d', (λ '(_, index, _), index) <$> frame) ∧
  ∀ slot i len_, frame = Some (slot, i, len_) →
    slot < TX_BUFFER_COUNT ∧ nd_tx_in_use d' !! N.to_nat slot = Some false ∧ i < RX_BUFFER_COUNT ∧ hdr ≤ len_ ≤ RX_BUFFER_SIZE.
Proof.
  intros Hd Hf ([slot d1] & Hs & Hr)%bind_Some. destruct (free_tx_slot_ok _ _ _ _ _ Hd Hs) as (Hd1 & Hm1 & _ & Hfree).
  assert (pool_full_but None d1) as Hf1 by (intros i Hi; rewrite Hm1; by apply Hf).
  destruct slot as [slot|]; [|injection Hr as <- <-; by split; [split_and!|]].
  pose proof (next_rx_frame_ok hdr rv d1 Hd1 Hf1) as Hn.
  pose proof (next_rx_frame_tx hdr rv d1) as Htx.
  destruct (next_rx_frame hdr RX_BUFFER_COUNT rv d1) as [found d2]. injection Hr as <- <-. cbn [snd] in Htx.
  destruct Hn as (Hd2 & Hp2 & Hb2). split.
  - destruct found as [[i l]|]; cbn in *; [|by split_and!]. split_and!; [done..|]. intros j [= <-]. by apply (Hb2 i l).
  - destruct found as [[i l]|]; [|done]. cbn. intros s' i' l' [= <- <- <-]. destruct (Hfree slot eq_refl) as [Hs1 Hs2].
    rewrite Htx. destruct (Hb2 i l eq_refl) as [Hi Hl]. done.
Qed.

Lemma net_step_inv hdr s s' : net_step hdr s s' → net_inv s → net_inv s'.
Proof.
  intros Hstep (Hd & Hp & Hh). destruct Hstep as [fuel tv rv d frame d' Hr|d index|fuel tv d slot d' len_ d'' held Ht Hc|fuel tv d slot d' held Ht];
    cbn [fst snd] in *.
  - by apply (receive_ok hdr fuel tv rv d frame d').
  - destruct (consume_rx_ok index d Hd (Hh index eq_refl)) as [H1 H2]. split_and!; [done| |done].
    intros i Hi. rewrite H2, Hp by done. destruct (N.eqb_spec index i) as [<-|Hne]; [by rewrite orb_true_r|].
    rewrite bool_decide_eq_false_2 by congruence. done.
  - destruct (free_tx_slot_ok _ _ _ _ _ Hd Ht) as (Hd1 & Hm1 & _ & Hs). destruct (Hs slot eq_refl) as [Hs1 _].
    destruct (consume_tx_ok _ _ _ _ _ Hd1 Hs1 Hc) as (Hd2 & Hm2 & _). split_and!; [done| |done].
    intros i Hi. cbn. rewrite Hm2, Hm1. by apply Hp.
  - destruct (free_tx_slot_ok _ _ _ _ _ Hd Ht) as (Hd1 & Hm1 & _). split_and!; [done| |done].
    intros i Hi. cbn. rewrite Hm1. by apply Hp.
Qed.

Lemma post_all_ok l : ∀ d,
  dev_ok d → Forall (λ i, N.of_nat i < RX_BUFFER_COUNT) l →
  let d' := foldl (λ d i, (post_rx_buffer (N.of_nat i) d).2) d l in
  dev_ok d' ∧
  ∀ j, j < RX_BUFFER_COUNT → N.to_nat j ∈ l ∨ N.testbit (nd_posted d) j = true → N.testbit (nd_posted d') j = true.
Proof.
  induction l as [|i l IH]; intros d Hd Hl.
  { split; [done|]. by intros j _ [?%elem_of_nil|?]. }
  apply Forall_cons in Hl as [Hi Hl]. cbn [foldl]. pose proof (post_rx_buffer_ok (N.of_nat i) d Hd Hi) as Hp.
  destruct (post_rx_buffer (N.of_nat i) d) as [w d1]. destruct Hp as (Hd1 & _ & Hj1). cbn [snd].
  destruct (IH d1 Hd1 Hl) as [H1 H2]. split; [done|]. intros j Hj Hin. apply H2; [done|]. rewrite Hj1 by done.
  destruct (N.eqb_spec (N.of_nat i) j) as [|Hne]; [right; apply orb_true_r|]. rewrite orb_false_r.
  destruct Hin as [[Heq|Hin]%elem_of_cons|Hin]; [exfalso; apply Hne; lia|by left|by right].
Qed.

Lemma net_new_inv rxq txq rx_phys tx_phys :
  0 < rxq ≤ MAX_QUEUE_SIZE → 0 < txq ≤ MAX_QUEUE_SIZE → length rx_phys = 8%nat → net_inv (net_new rxq txq rx_phys tx_phys, None).
Proof.
  intros Hrx Htx Hl. unfold net_new. rewrite Hl.
  destruct (post_all_ok (seq 0 8) (mkNet (init_avail_flags (queue_new rxq)) (init_avail_flags (queue_new txq)) rx_phys tx_phys
    (replicate (N.to_nat TX_BUFFER_COUNT) false) 0 0 0 [])) as [H1 H2].
  - split; cbn [nd_posted nd_trace nd_rx nd_tx nd_tx_in_use].
    + intros i _. apply N.bits_0.
    + intros pre ev suf Heq. by destruct pre.
    + by split; [exact Hrx|].
    + by split; [exact Htx|].
    + done.
  - apply Forall_forall. intros i Hi%elem_of_seq. unfold RX_BUFFER_COUNT. lia.
  - split_and!; [done| |done]. intros i Hi. cbn [fst snd]. rewrite H2; [done|done|].
    left. apply elem_of_seq. unfold RX_BUFFER_COUNT in Hi. lia.
Qed.

(** C13. Whatever a device puts in its used rings, however often it lies about ids and lengths:
    a receive buffer is made available only while the device does not own it and taken
    back only while it does; no buffer is ever lost, all eight are available except the
    one of a frame being read; every ring access stays in its page; and a frame handed to
    the stack lies inside its own buffer, past the header, with an idle transmit slot. *)
Theorem rx_pool_safe hdr rxq txq rx_phys tx_phys s :
  0 < rxq ≤ MAX_QUEUE_SIZE → 0 < txq ≤ MAX_QUEUE_SIZE → length rx_phys = 8%nat →
  rtc (net_step hdr) (net_new rxq txq rx_phys tx_phys, None) s →
  disciplined (nd_trace s.1) ∧ queue_ok (nd_rx s.1) ∧ queue_ok (nd_tx s.1) ∧
  (∀ i, i < RX_BUFFER_COUNT → owner i (nd_trace s.1) = negb (bool_decide (s.2 = Some i))) ∧
  ∀ fuel tv rv slot i len_ d', s.2 = None → receive hdr fuel tv rv s.1 = Some (Some (slot, i, len_), d') →
    slot < TX_BUFFER_COUNT ∧ nd_tx_in_use d' !! N.to_nat slot = Some false ∧ i < RX_BUFFER_COUNT ∧
    (rx_slice hdr len_).1 + (rx_slice hdr len_).2 = len_ ∧ len_ ≤ RX_BUFFER_SIZE.
Proof.
  intros Hrx Htx Hl Hr. assert (net_inv s) as (Hd & Hp & _).
  { pose proof (net_new_inv rxq txq rx_phys tx_phys Hrx Htx Hl) as Hi. revert Hi. generalize dependent (net_new rxq txq rx_phys tx_phys, @None N).
    intros s0 Hr. induction Hr as [|s0 s1 s2 Hs _ IH]; [done|]. intros Hi. apply IH. by eapply net_step_inv. }
  split_and!; [apply Hd..| |].
  - intros i Hi. rewrite <-(do_posted _ Hd) by done. by apply Hp.
  - intros fuel tv rv slot i len_ d' Hs Hrec. rewrite Hs in Hp.
    destruct (receive_ok hdr fuel tv rv s.1 _ d' Hd Hp Hrec) as [_ Hb].
    destruct (Hb slot i len_ eq_refl) as (H1 & H2 & H3 & H4). split_and!; [done..| |lia]. cbn. lia.
Qed.

(** ** Does the transmit loop end? *)

Definition behind (v : UsedView) (q : Virtqueue) : N := (u_idx v + 65536 - vq_last_used_seen q) mod 65536.

Lemma reap_tx_ends v : ∀ fuel k d,
  u_idx v < 65536 → vq_last_used_seen (nd_tx d) < 65536 → (N.to_nat (behind v (nd_tx d)) < fuel)%nat →
  is_Some (reap_tx fuel (λ _, v) k d).
Proof.
  induction fuel as [|fuel IH]; intros k d Hv Hd Hf; [lia|]. cbn [reap_tx]. unfold poll_used.
  case_decide as He; [by eexists|]. destruct (u_elem v _) as [id l]. apply IH; [done|cbn; apply N.mod_lt; lia|].
  unfold behind in *. cbn [nd_tx with_tx vq_last_used_seen].
  assert (∀ a b, a < 65536 → b < 65536 → a ≠ b →
    (a + 65536 - (b + 1) mod 65536) mod 65536 + 1 = (a + 65536 - b) mod 65536) as Hstep.
  { intros a b Ha Hb Hab. assert (b = 65535 ∨ b < 65535) as [->|Hb'] by lia.
    - change ((65535 + 1) mod 65536) with 0. rewrite N.sub_0_r. replace (a + 65536) with (a + 1 * 65536) by lia.
      rewrite N.Div0.mod_add, !N.mod_small by lia. lia.
    - rewrite (N.mod_small (b + 1)) by lia. destruct (N.lt_ge_cases b a) as [Hlt|Hge].
      + replace (a + 65536 - (b + 1)) with (a - (b + 1) + 1 * 65536) by lia.
        replace (a + 65536 - b) with (a - b + 1 * 65536) by lia. rewrite !N.Div0.mod_add, !N.mod_small by lia. lia.
      + rewrite !N.mod_small by lia. lia. }
  specialize (Hstep (u_idx v) (vq_last_used_seen (nd_tx d)) Hv Hd He). lia.
Qed.

(** A device that always has one more completion to show. *)
Definition restless (first : N) (k : nat) : UsedView := mkUsed ((first + N.of_nat k + 1) mod 65536) (λ _, (0, 0)).

Lemma reap_tx_restless first : ∀ fuel k d,
  vq_last_used_seen (nd_tx d) = (first + N.of_nat k) mod 65536 → reap_tx fuel (restless first) k d = None.
Proof.
  induction fuel as [|fuel IH]; intros k d Hd; [done|]. cbn [reap_tx]. unfold poll_used. cbn [restless u_idx u_elem].
  rewrite decide_False.
  - apply IH. cbn. rewrite Hd, N.Div0.add_mod_idemp_l. f_equal. lia.
  - rewrite Hd. intros He. pose proof (N.mod_lt (first + N.of_nat k) 65536 ltac:(lia)) as Hlt.
    rewrite <-N.Div0.add_mod_idemp_l in He. revert He Hlt. generalize ((first + N.of_nat k) mod 65536). intros x He Hx.
    assert (x = 65535 ∨ x < 65535) as [->|Hx'] by lia; [by vm_compute in He|]. rewrite N.mod_small in He by lia. lia.
Qed.

(** C32. The receive path ends against a device whose used index rests, after at most 65536
    polls of the transmit ring and 16 of the receive ring; but nothing bounds the drain of
    the transmit ring, and against a device that keeps completing it never ends. *)
Theorem receive_ends_iff_quiet hdr d rv :
  vq_last_used_seen (nd_tx d) < 65536 →
  (∀ v, u_idx v < 65536 → is_Some (receive hdr (N.to_nat 65536) (λ _, v) rv d)) ∧
  (∀ fuel, receive hdr fuel (restless (vq_last_used_seen (nd_tx d))) rv d = None).
Proof.
  intros Hd. split.
  - intros v Hv. unfold receive, free_tx_slot.
    destruct (reap_tx_ends v (N.to_nat 65536) 0 d Hv Hd) as [d' ->].
    { pose proof (N.mod_lt (u_idx v + 65536 - vq_last_used_seen (nd_tx d)) 65536 ltac:(lia)). unfold behind. lia. }
    cbn [mbind option_bind]. destruct (position _ _); [|by eexists].
    destruct (next_rx_frame hdr RX_BUFFER_COUNT rv d') as [f d'']. by eexists.
  - intros fuel. unfold receive, free_tx_slot. rewrite reap_tx_restless; [done|]. rewrite N.add_0_r. by rewrite N.mod_small.
Qed.

(** ** Queue sizes *)

Lemma power_is_power k : is_power_of_two (2 ^ k) = true.
Proof.
  unfold is_power_of_two. rewrite bool_decide_eq_true_2 by (apply N.pow_nonzero; lia). cbn [andb].
  replace (2 ^ k - 1) with (N.ones k) by (rewrite N.ones_equiv; lia). rewrite N.land_ones, N.Div0.mod_same. done.
Qed.

(** The driver programs the largest power of two the device, the request and its
    one-page rings allow, and refuses a device that leaves no room for the buffers it
    posts. *)
Theorem queue_size_exact device_max requested min_size :
  let cap := N.min (N.min device_max requested) MAX_QUEUE_SIZE in
  match choose_queue_size device_max requested min_size with
  | Some n => queue_size_is_valid n min_size = true ∧ (∃ k, n = 2 ^ k) ∧ n ≤ cap < 2 * n ∧
              16 * n ≤ 4096 ∧ 4 + 2 * n ≤ 4096 ∧ 4 + 8 * n ≤ 4096
  | None => ∀ k, 2 ^ k ≤ cap → 2 ^ k < min_size
  end.
Proof.
  cbv zeta. unfold choose_queue_size. set (cap := N.min (N.min device_max requested) MAX_QUEUE_SIZE).
  case_decide as Hz; [intros k Hk; pose proof (N.pow_nonzero 2 k ltac:(lia)); lia|].
  rewrite N.shiftl_1_l. destruct (N.log2_spec cap) as [Hlo Hhi]; [lia|]. rewrite N.pow_succ_r' in Hhi.
  assert (cap ≤ MAX_QUEUE_SIZE) as Hcap by (unfold cap; lia). unfold MAX_QUEUE_SIZE in Hcap.
  destruct (queue_size_is_valid (2 ^ N.log2 cap) min_size) eqn:Hv.
  - split_and!; try lia; [done|by eexists].
  - intros k Hk. unfold queue_size_is_valid in Hv. rewrite power_is_power in Hv. cbn [andb] in Hv.
    rewrite (bool_decide_eq_true_2 (2 ^ N.log2 cap ≤ MAX_QUEUE_SIZE)) in Hv by (unfold MAX_QUEUE_SIZE; lia).
    rewrite andb_true_r in Hv. apply bool_decide_eq_false in Hv.
    apply N.log2_le_pow2 in Hk; [|lia]. pose proof (N.pow_le_mono_r 2 k (N.log2 cap) ltac:(lia) Hk). lia.
Qed.

(** ** A concrete device: one good frame after a completion with a bad length *)

Module NetDemo.
Definition dev : RunixNetDevice := net_new 8 4 (replicate 8 0x1000) (replicate 4 0x2000).
(** Nothing completed on the transmit ring; two completions on the receive ring. *)
Definition idle (_ : nat) : UsedView := mkUsed 0 (λ _, (0, 0)).
Definition frames (_ : nat) : UsedView := mkUsed 2 (λ i, if i =? 0 then (5, 3) else (2, 64)).
Definition after : option (option (N * N * N) * RunixNetDevice) := receive 12 1 idle frames dev.
End NetDemo.

Lemma demo_frame : ∃ d', NetDemo.after = Some (Some (0, 2, 64), d') ∧ nd_posted d' = 251.
Proof. eexists. split; [vm_compute; reflexivity|reflexivity]. Qed.

Lemma demo_run d' : NetDemo.after = Some (Some (0, 2, 64), d') → 
  rtc (net_step 12) (net_new 8 4 (replicate 8 0x1000) (replicate 4 0x2000), None) (d', Some 2).
Proof.
  unfold NetDemo.after, NetDemo.dev. generalize (net_new 8 4 (replicate 8 0x1000) (replicate 4 0x2000)) NetDemo.idle NetDemo.frames.
  intros d tv rv Hd.
  apply rtc_once. exact (NReceive 12 1 tv rv d (Some (0, 2, 64)) d' Hd).
Qed.

Lemma rx_pool_safe_witness : ∃ d', NetDemo.after = Some (Some (0, 2, 64), d') ∧ owner 5 (nd_trace d') = true ∧ owner 2 (nd_trace d') = false.
Proof.
  destruct demo_frame as (d' & Hd & _). exists d'. split; [exact Hd|].
  assert (0 < 8 ≤ MAX_QUEUE_SIZE ∧ 0 < 4 ≤ MAX_QUEUE_SIZE) as [H8 H4] by (unfold MAX_QUEUE_SIZE; lia).
  destruct (rx_pool_safe 12 8 4 (replicate 8 0x1000) (replicate 4 0x2000) (d', Some 2) H8 H4 eq_refl (demo_run d' Hd))
    as (_ & _ & _ & Ho & _).
  split; [exact (Ho 5 eq_refl)|exact (Ho 2 eq_refl)].
Defined.

Lemma receive_ends_witness : is_Some (receive 12 (N.to_nat 65536) (λ _, mkUsed 7 (λ _, (9, 9))) NetDemo.frames NetDemo.dev).
Proof.
  assert (vq_last_used_seen (nd_tx NetDemo.dev) < 65536) as Hd by reflexivity.
  refine (proj1 (receive_ends_iff_quiet 12 NetDemo.dev NetDemo.frames Hd) (mkUsed 7 (λ _, (9, 9))) _). reflexivity.
Defined.
