(* ===== verification/X86Sockets.v ===== *)
(** * X86Sockets: the sockets server of [net-driver-host]

    Model of [run_socket_ipc_server], [pin_to_own_session] and [handle_socket_request]
    of [net-driver-host/src/main.rs]: sessions accepted on the server's port, one TCP
    socket per session, requests and responses of [ipc/src/sockets.rs].  The TCP/IP
    stack (smoltcp) is the class [TcpStack]; [None] is the panic of
    [SocketSet::get_mut] on a handle that is not in the set.  The kernel's answers to
    accepting and receiving are inputs; the responses are the output.  Which session
    used which socket is recorded in a trace. *)

From S2P Require Import Prelude Bytes SocketCodec.

Local Open Scope N_scope.

(** ** The TCP stack *)

(** [add] puts a fresh socket with [TCP_BUFFER] bytes of buffer on either side into the
    set. *)
Class TcpStack := {
  Tcp : Type;
  tcp_live : N → Tcp → bool;
  tcp_add : Tcp → N * Tcp;
  tcp_remove : N → Tcp → Tcp;
  tcp_is_open : N → Tcp → bool;
  tcp_established : N → Tcp → bool;
  tcp_closed : N → Tcp → bool;
  tcp_connect : N → N * N * N * N → N → N → Tcp → bool * Tcp;
  tcp_send_slice : N → list N → Tcp → option N * Tcp;
  tcp_can_recv : N → Tcp → bool;
  tcp_recv_slice : N → N → Tcp → option (list N) * Tcp;
  tcp_close : N → Tcp → Tcp;
  tcp_poll : N → Tcp → Tcp;
}.

Definition TCP_BUFFER : N := 256.

(** The documented behaviour: which handles are in the set, and that a socket takes and
    hands out no more than its buffer holds. *)
Class TcpLaws `{TcpStack} : Prop := {
  tcp_add_fresh t : tcp_live (tcp_add t).1 t = false;
  tcp_add_live t h : tcp_live h (tcp_add t).2 = bool_decide (h = (tcp_add t).1) || tcp_live h t;
  tcp_remove_live t h h' : tcp_live h' (tcp_remove h t) = negb (bool_decide (h' = h)) && tcp_live h' t;
  tcp_connect_live t h ip rp lp h' : tcp_live h' (tcp_connect h ip rp lp t).2 = tcp_live h' t;
  tcp_send_live t h d h' : tcp_live h' (tcp_send_slice h d t).2 = tcp_live h' t;
  tcp_recv_live t h n h' : tcp_live h' (tcp_recv_slice h n t).2 = tcp_live h' t;
  tcp_close_live t h h' : tcp_live h' (tcp_close h t) = tcp_live h' t;
  tcp_poll_live t i h' : tcp_live h' (tcp_poll i t) = tcp_live h' t;
  tcp_send_len t h d n : (tcp_send_slice h d t).1 = Some n → n ≤ N.min (len d) TCP_BUFFER;
  tcp_recv_len t h n d : (tcp_recv_slice h n t).1 = Some d → len d ≤ N.min n TCP_BUFFER ∧ bytes d;
}.

(** ** State *)

Inductive SockEvent :=
  | EvAdd (sid h : N)
  | EvUse (sid h : N)
  | EvConnect (sid h : N) (ip : N * N * N * N) (remote_port : N)
  | EvSend (sid h : N) (data : list N)
  | EvRecv (sid h : N) (data : list N)
  | EvRemove (sid h : N).

Section server.
Context `{TS : TcpStack}.

Record Sockets := mkSockets {
  sk_tcp : Tcp;
  sk_slots : list (option N);
  sk_trace : list SockEvent;
}.

Record SockServer := mkSockServer {
  ss_sockets : Sockets;
  ss_live : list (option N);
  ss_bufs : list (list N);
  ss_pending : list (option N);
  ss_served : N;
  ss_sent : list (N * SocketResponse);
}.

Definition NSOCK : nat := N.to_nat MAX_SOCKETS.

Definition server_new (t : Tcp) : SockServer :=
  mkSockServer (mkSockets t (replicate NSOCK None) []) (replicate NSOCK None) (replicate NSOCK [])
    (replicate NSOCK None) 0 [].

(** ** Requests *)

Inductive RequestOutcome := Immediate (response : SocketResponse) | ConnectPending.

Definition pin_to_own_session (request : SocketRequest) (own_index : N) : SocketRequest :=
  match request with
  | SockOpen => SockOpen
  | SockConnect _ ip remote_port local_port => SockConnect own_index ip remote_port local_port
  | SockSend _ data => SockSend own_index data
  | SockRecv _ max_len => SockRecv own_index max_len
  | SockClose _ => SockClose own_index
  end.

(** [slots.get(handle as usize).copied().flatten()] *)
Definition slot_of (k : Sockets) (handle : N) : option N := mjoin (sk_slots k !! N.to_nat handle).

Definition with_tcp (t : Tcp) (ev : SockEvent) (k : Sockets) : Sockets := mkSockets t (sk_slots k) (sk_trace k ++ [ev]).

(** [sid] is the session the request came from, for the trace. *)
Definition handle_socket_request (sid own_index : N) (request : SocketRequest) (k : Sockets) :
    option (RequestOutcome * Sockets) :=
  match request with
  | SockOpen =>
      match slot_of k own_index with
      | Some _ => Some (Immediate (OpenFailed TooManyOpen), k)
      | None =>
          let '(h, t) := tcp_add (sk_tcp k) in
          Some (Immediate (Opened (own_index mod 256)),
                mkSockets t (<[N.to_nat own_index := Some h]> (sk_slots k)) (sk_trace k ++ [EvAdd sid h]))
      end
  | SockConnect handle ip remote_port local_port =>
      match slot_of k handle with
      | None => Some (Immediate (ConnectFailed handle InvalidHandle), k)
      | Some h =>
          if negb (tcp_live h (sk_tcp k)) then None
          else if tcp_is_open h (sk_tcp k) then
            Some (Immediate (ConnectFailed handle AlreadyOpen), with_tcp (sk_tcp k) (EvUse sid h) k)
          else
            let '(ok, t) := tcp_connect h ip remote_port local_port (sk_tcp k) in
            let k := with_tcp t (EvConnect sid h ip remote_port) k in
            Some (if ok : bool then ConnectPending else Immediate (ConnectFailed handle ConnectFailedErr), k)
      end
  | SockSend handle data =>
      match slot_of k handle with
      | None => Some (Immediate (SendFailed handle InvalidHandle), k)
      | Some h =>
          if negb (tcp_live h (sk_tcp k)) then None
          else if negb (tcp_is_open h (sk_tcp k)) then
            Some (Immediate (SendFailed handle NotOpen), with_tcp (sk_tcp k) (EvUse sid h) k)
          else
            match tcp_send_slice h data (sk_tcp k) with
            | (Some n, t) =>
                Some (Immediate (Sent handle (n mod 65536)), with_tcp t (EvSend sid h (take (N.to_nat n) data)) k)
            | (None, t) => Some (Immediate (SendFailed handle InvalidLength), with_tcp t (EvUse sid h) k)
            end
      end
  | SockRecv handle max_len =>
      match slot_of k handle with
      | None => Some (Immediate (SockError handle InvalidHandle), k)
      | Some h =>
          if negb (tcp_live h (sk_tcp k)) then None
          else if negb (tcp_is_open h (sk_tcp k)) then
            Some (Immediate (SockError handle NotOpen), with_tcp (sk_tcp k) (EvUse sid h) k)
          else if tcp_can_recv h (sk_tcp k) then
            match tcp_recv_slice h (N.min max_len MAX_PAYLOAD_LEN) (sk_tcp k) with
            | (Some data, t) => Some (Immediate (SockData handle data), with_tcp t (EvRecv sid h data) k)
            | (None, t) => Some (Immediate (SockData handle []), with_tcp t (EvUse sid h) k)
            end
          else Some (Immediate (SockData handle []), with_tcp (sk_tcp k) (EvUse sid h) k)
      end
  | SockClose handle =>
      match slot_of k handle with
      | Some h =>
          if negb (tcp_live h (sk_tcp k)) then None
          else
            Some (Immediate (Closed handle),
                  mkSockets (tcp_remove h (tcp_close h (sk_tcp k))) (<[N.to_nat handle := None]> (sk_slots k))
                    (sk_trace k ++ [EvRemove sid h]))
      | None => Some (Immediate (Closed handle), k)
      end
  end.

(** ** One iteration *)

Definition CONNECT_TIMEOUT_ITERATIONS : N := 200000.

Definition set_pending (i : nat) (p : option N) (s : SockServer) : SockServer :=
  mkSockServer (ss_sockets s) (ss_live s) (ss_bufs s) (<[i := p]> (ss_pending s)) (ss_served s) (ss_sent s).
Definition set_sockets (k : Sockets) (s : SockServer) : SockServer :=
  mkSockServer k (ss_live s) (ss_bufs s) (ss_pending s) (ss_served s) (ss_sent s).
Definition set_live (i : nat) (l : option N) (s : SockServer) : SockServer :=
  mkSockServer (ss_sockets s) (<[i := l]> (ss_live s)) (ss_bufs s) (ss_pending s) (ss_served s) (ss_sent s).
Definition set_buf (i : nat) (b : list N) (s : SockServer) : SockServer :=
  mkSockServer (ss_sockets s) (ss_live s) (<[i := b]> (ss_bufs s)) (ss_pending s) (ss_served s) (ss_sent s).

(** [send_session_response] and [requests_served += 1]: the response goes to the kernel,
    whose answers to the lock and to each byte change nothing for the server. *)
Definition respond (sid : N) (r : SocketResponse) (s : SockServer) : SockServer :=
  mkSockServer (ss_sockets s) (ss_live s) (ss_bufs s) (ss_pending s) (ss_served s + 1) (ss_sent s ++ [(sid, r)]).

(** The loop over pending connects, at one handle. *)
Definition resolve_connect (offset : N) (i : nat) (s : SockServer) : option SockServer :=
  match mjoin (ss_pending s !! i) with
  | None => Some s
  | Some since =>
      match slot_of (ss_sockets s) (N.of_nat i) with
      | None => Some (set_pending i None s)
      | Some h =>
          if negb (tcp_live h (sk_tcp (ss_sockets s))) then None
          else
            match mjoin (ss_live s !! i) with
            | None => Some (set_pending i None s)
            | Some sid =>
                let s := set_sockets (with_tcp (sk_tcp (ss_sockets s)) (EvUse sid h) (ss_sockets s)) s in
                if tcp_established h (sk_tcp (ss_sockets s)) then
                  Some (set_pending i None (respond sid (Connected (N.of_nat i mod 256)) s))
                else if tcp_closed h (sk_tcp (ss_sockets s)) ||
                        bool_decide (CONNECT_TIMEOUT_ITERATIONS < (offset + (u32_max + 1) - since) mod (u32_max + 1)) then
                  Some (set_pending i None (respond sid (ConnectFailed (N.of_nat i mod 256) ConnectFailedErr) s))
                else Some s
            end
      end
  end.

(** The kernel's raw answers, by iteration (and session). *)
Record SockKernel := mkSockKernel { kk_accept : N → N; kk_recv : N → N → N }.

Fixpoint first_free (l : list (option N)) (i : nat) : option nat :=
  match l with
  | [] => None
  | None :: _ => Some i
  | Some _ :: l => first_free l (S i)
  end.

Definition accept_session (kk : SockKernel) (offset : N) (s : SockServer) : SockServer :=
  match first_free (ss_live s) 0 with
  | None => s
  | Some idx =>
      if decide (kk_accept kk offset = u64_max) then s else set_live idx (Some (kk_accept kk offset)) s
  end.

Definition is_close (r : SocketRequest) : bool := match r with SockClose _ => true | _ => false end.

(** The request loop, at one index. *)
Definition serve_session (kk : SockKernel) (offset : N) (idx : nat) (s : SockServer) : option SockServer :=
  match mjoin (ss_live s !! idx) with
  | None => Some s
  | Some sid =>
      match mjoin (ss_pending s !! idx) with
      | Some _ => Some s
      | None =>
          let buf := default [] (ss_bufs s !! idx) in
          let buf := if decide (kk_recv kk offset sid = u64_max) then buf else buf ++ [kk_recv kk offset sid mod 256] in
          match sock_request_decode buf with
          | None => Some (set_buf idx buf s)
          | Some (request, consumed) =>
              let s := set_buf idx (drop (N.to_nat consumed) buf) s in
              '(outcome, k) ← handle_socket_request sid (N.of_nat idx)
                                (pin_to_own_session request (N.of_nat idx mod 256)) (ss_sockets s);
              let s := set_sockets k s in
              let s := match outcome with
                       | Immediate response => respond sid response s
                       | ConnectPending => set_pending idx (Some offset) s
                       end in
              Some (if is_close request then set_live idx None s else s)
          end
      end
  end.

Fixpoint for_each (f : nat → SockServer → option SockServer) (idxs : list nat) (s : SockServer) : option SockServer :=
  match idxs with
  | [] => Some s
  | i :: idxs => s ← f i s; for_each f idxs s
  end.

(** [start_iteration] is at most 7,000,001, so the sum stays below [2^32]. *)
Definition server_iteration (kk : SockKernel) (start_iteration offset : N) (s : SockServer) : option SockServer :=
  let k := ss_sockets s in
  let s := set_sockets (mkSockets (tcp_poll (start_iteration + offset) (sk_tcp k)) (sk_slots k) (sk_trace k)) s in
  s ← for_each (resolve_connect offset) (seq 0 NSOCK) s;
  for_each (serve_session kk offset) (seq 0 NSOCK) (accept_session kk offset s).

(** [for offset in 0..500_000_000], from [offset]. *)
Fixpoint server_loop (kk : SockKernel) (start_iteration : N) (fuel : nat) (offset : N) (s : SockServer) :
    option SockServer :=
  match fuel with
  | O => Some s
  | S fuel => s ← server_iteration kk start_iteration offset s; server_loop kk start_iteration fuel (offset + 1) s
  end.

Definition SERVER_ITERATIONS : nat := N.to_nat 500000000.

Definition run_socket_ipc_server (kk : SockKernel) (start_iteration : N) (t : Tcp) : option SockServer :=
  server_loop kk start_iteration SERVER_ITERATIONS 0 (server_new t).
End server.

(** ** Ownership of sockets *)

Definition sock_owner_step (h : N) (o : option N) (ev : SockEvent) : option N :=
  match ev with
  | EvAdd sid h' => if decide (h' = h) then Some sid else o
  | EvRemove _ h' => if decide (h' = h) then None else o
  | _ => o
  end.
Definition sock_owner (tr : list SockEvent) (h : N) : option N := foldl (sock_owner_step h) None tr.

(** A handle is added only when nobody has it, and used or removed only by the session
    that added it. *)
Definition sock_allowed (tr : list SockEvent) (ev : SockEvent) : Prop :=
  match ev with
  | EvAdd _ h => sock_owner tr h = None
  | EvUse sid h | EvConnect sid h _ _ | EvSend sid h _ | EvRecv sid h _ | EvRemove sid h => sock_owner tr h = Some sid
  end.
Definition sock_disciplined (tr : list SockEvent) : Prop := every_event sock_allowed tr.

Lemma sock_owner_snoc tr ev h : sock_owner (tr ++ [ev]) h = sock_owner_step h (sock_owner tr h) ev.
Proof. unfold sock_owner. by rewrite foldl_app. Qed.

Section invariant.
Context `{TS : TcpStack} `{!TcpLaws}.

(** Sockets against the table of sessions: an open slot belongs to a session, which owns
    the slot's socket; sockets owned are in slots, one each. *)
Record sk_ok (live : list (option N)) (k : Sockets) : Prop := {
  sk_len : length (sk_slots k) = NSOCK;
  sk_slot i h : sk_slots k !! i = Some (Some h) →
    ∃ sid, live !! i = Some (Some sid) ∧ sock_owner (sk_trace k) h = Some sid ∧ tcp_live h (sk_tcp k) = true;
  sk_inj i j h : sk_slots k !! i = Some (Some h) → sk_slots k !! j = Some (Some h) → i = j;
  sk_owned h sid : sock_owner (sk_trace k) h = Some sid → ∃ i, sk_slots k !! i = Some (Some h);
  sk_disc : sock_disciplined (sk_trace k);
}.

Lemma slot_of_Some k i h : slot_of k i = Some h ↔ sk_slots k !! N.to_nat i = Some (Some h).
Proof. unfold slot_of. destruct (sk_slots k !! N.to_nat i) as [[]|]; cbn; naive_solver. Qed.

(** An event that moves no handle keeps everything. *)
Definition plain (ev : SockEvent) : bool := match ev with EvAdd _ _ | EvRemove _ _ => false | _ => true end.

Lemma with_tcp_ok live k t ev :
  sk_ok live k → plain ev = true → sock_allowed (sk_trace k) ev →
  (∀ h, tcp_live h t = tcp_live h (sk_tcp k)) → sk_ok live (with_tcp t ev k).
Proof.
  intros Hk Hp Ha Ht. assert (∀ h, sock_owner (sk_trace k ++ [ev]) h = sock_owner (sk_trace k) h) as Ho
    by (intros h; rewrite sock_owner_snoc; by destruct ev).
  split; cbn [with_tcp sk_tcp sk_slots sk_trace].
  - apply Hk.
  - intros i h Hi. rewrite Ho, Ht. by apply Hk.
  - apply Hk.
  - intros h sid. rewrite Ho. apply Hk.
  - apply every_event_snoc; [apply Hk|done].
Qed.

(** A socket in nobody's hands is in no slot. *)
Lemma fresh_handle live k : sk_ok live k → sock_owner (sk_trace k) (tcp_add (sk_tcp k)).1 = None.
Proof.
  intros Hk. destruct (sock_owner _ _) as [sid|] eqn:Ho; [|done].
  destruct (sk_owned _ _ Hk _ _ Ho) as [i Hi]. destruct (sk_slot _ _ Hk _ _ Hi) as (_ & _ & _ & Hl).
  by rewrite tcp_add_fresh in Hl.
Qed.

Lemma open_ok live k i sid :
  sk_ok live k → live !! i = Some (Some sid) → sk_slots k !! i = Some None →
  sk_ok live (mkSockets (tcp_add (sk_tcp k)).2 (<[i := Some (tcp_add (sk_tcp k)).1]> (sk_slots k))
                (sk_trace k ++ [EvAdd sid (tcp_add (sk_tcp k)).1])).
Proof.
  intros Hk Hl Hs. pose proof (fresh_handle _ _ Hk) as Hf. set (h := (tcp_add (sk_tcp k)).1) in *.
  assert (∀ j h', sk_slots k !! j = Some (Some h') → h' ≠ h ∧ j ≠ i) as Hne.
  { intros j h' Hj. split; [|congruence]. intros ->. destruct (sk_slot _ _ Hk _ _ Hj) as (? & _ & ? & _). congruence. }
  assert (i < length (sk_slots k))%nat as Hi by (by apply lookup_lt_Some in Hs).
  split; cbn [sk_tcp sk_slots sk_trace].
  - rewrite length_insert. apply Hk.
  - intros j h' Hj. rewrite sock_owner_snoc, tcp_add_live. cbn [sock_owner_step]. fold h.
    apply list_lookup_insert_Some in Hj as [(<- & [= <-] & _)|[Hij Hj]].
    + rewrite decide_True, bool_decide_eq_true_2 by done. by exists sid.
    + destruct (Hne _ _ Hj) as [Hh' _]. rewrite decide_False, bool_decide_eq_false_2 by done. by apply Hk.
  - intros j j' h' Hj Hj'.
    apply list_lookup_insert_Some in Hj as [(<- & He & _)|[Hij Hj]];
      apply list_lookup_insert_Some in Hj' as [(<- & He' & _)|[Hij' Hj']].
    + done.
    + destruct (Hne _ _ Hj'). congruence.
    + destruct (Hne _ _ Hj). congruence.
    + by eapply (sk_inj _ _ Hk).
  - intros h' sid'. rewrite sock_owner_snoc. cbn [sock_owner_step]. case_decide as Hh.
    + intros _. exists i. rewrite list_lookup_insert_eq by done. by subst.
    + intros Ho. destruct (sk_owned _ _ Hk _ _ Ho) as [j Hj]. exists j. rewrite list_lookup_insert_ne; [done|].
      destruct (Hne _ _ Hj) as [_ Hj']. done.
  - apply every_event_snoc; [apply Hk|done].
Qed.

Lemma close_ok live k i sid h :
  sk_ok live k → live !! i = Some (Some sid) → sk_slots k !! i = Some (Some h) →
  sk_ok live (mkSockets (tcp_remove h (tcp_close h (sk_tcp k))) (<[i := None]> (sk_slots k))
                (sk_trace k ++ [EvRemove sid h])).
Proof.
  intros Hk Hl Hs. destruct (sk_slot _ _ Hk _ _ Hs) as (sid' & Hl' & Ho & _).
  assert (sid' = sid) as -> by congruence.
  assert (∀ j h', <[i := None]> (sk_slots k) !! j = Some (Some h') → j ≠ i ∧ sk_slots k !! j = Some (Some h') ∧ h' ≠ h) as Hne.
  { intros j h' [(_ & [=] & _)|[Hij Hj]]%list_lookup_insert_Some. split_and!; [done..|].
    intros ->. destruct Hij. by eapply (sk_inj _ _ Hk). }
  split; cbn [sk_tcp sk_slots sk_trace].
  - rewrite length_insert. apply Hk.
  - intros j h' (_ & Hj & Hh)%Hne. rewrite sock_owner_snoc, tcp_remove_live, tcp_close_live. cbn [sock_owner_step].
    rewrite decide_False, bool_decide_eq_false_2 by done. by apply Hk.
  - intros j j' h' (_ & Hj & _)%Hne (_ & Hj' & _)%Hne. by eapply (sk_inj _ _ Hk).
  - intros h' sid''. rewrite sock_owner_snoc. cbn [sock_owner_step]. case_decide as Hh; [done|].
    intros Ho'. destruct (sk_owned _ _ Hk _ _ Ho') as [j Hj]. exists j. rewrite list_lookup_insert_ne; [done|]. congruence.
  - by apply every_event_snoc; [apply Hk|].
Qed.

(** What a response may say: data only from the session's own socket, and no more bytes
    taken than the socket's buffer holds. *)
Definition response_ok (sid : N) (r : SocketResponse) (tr : list SockEvent) : Prop :=
  match r with
  | SockData _ data => data = [] ∨ ∃ h, EvRecv sid h data ∈ tr
  | Sent _ n => n ≤ TCP_BUFFER
  | _ => True
  end.

(** A request of the session bound to slot [i], pinned to it. *)
Lemma handle_ok live k sid (i : nat) request :
  sk_ok live k → live !! i = Some (Some sid) → (i < NSOCK)%nat →
  ∃ o k', handle_socket_request sid (N.of_nat i) (pin_to_own_session request (N.of_nat i mod 256)) k = Some (o, k') ∧
    sk_ok live k' ∧ sk_trace k `prefix_of` sk_trace k' ∧
    (∀ j, j ≠ i → sk_slots k' !! j = sk_slots k !! j) ∧
    (is_close request = true → sk_slots k' !! i = Some None) ∧
    (o = ConnectPending → is_close request = false ∧ ∃ h, sk_slots k' !! i = Some (Some h)) ∧
    (∀ r, o = Immediate r → response_ok sid r (sk_trace k')).
Proof.
  intros Hk Hl Hi. assert (N.of_nat i mod 256 = N.of_nat i) as Hm by (apply N.mod_small; unfold NSOCK, MAX_SOCKETS in Hi; lia).
  rewrite Hm. assert (is_Some (sk_slots k !! i)) as [slot Hs] by (apply lookup_lt_is_Some_2; by rewrite (sk_len _ _ Hk)).
  assert (slot_of k (N.of_nat i) = slot) as Hso by (unfold slot_of; by rewrite Nat2N.id, Hs).
  destruct slot as [h|].
  2: { destruct request as [|hd ip rp lp|hd data|hd m|hd]; cbn [pin_to_own_session handle_socket_request]; rewrite Hso.
    - pose proof (open_ok live k i sid Hk Hl Hs) as Hn. destruct (tcp_add (sk_tcp k)) as [h t]. cbn [fst snd] in Hn.
      rewrite Nat2N.id. do 2 eexists. split; [done|]. split_and!; [done|by eexists| |done|done|by intros ? [= <-]].
      intros j Hj. by apply list_lookup_insert_ne.
    - do 2 eexists. split; [done|]. by split_and!; [| |naive_solver..].
    - do 2 eexists. split; [done|]. by split_and!; [| |naive_solver..].
    - do 2 eexists. split; [done|]. by split_and!; [| |naive_solver..].
    - do 2 eexists. split; [done|]. by split_and!; [| |naive_solver..]. }
  destruct (sk_slot _ _ Hk _ _ Hs) as (sid' & Hl' & Ho & Ht). assert (sid' = sid) as -> by congruence.
  assert (∀ t ev, plain ev = true → sock_allowed (sk_trace k) ev → (∀ h, tcp_live h t = tcp_live h (sk_tcp k)) →
    sk_ok live (with_tcp t ev k) ∧ sk_trace k `prefix_of` sk_trace (with_tcp t ev k)) as Hw
    by (intros; split; [by apply with_tcp_ok|by eexists]).
  destruct request as [|hd ip rp lp|hd data|hd m|hd]; cbn [pin_to_own_session handle_socket_request]; rewrite Hso, ?Ht; cbn [negb].
  - do 2 eexists. split; [done|]. by split_and!; [| |naive_solver..].
  - destruct (tcp_is_open h (sk_tcp k)).
    + destruct (Hw (sk_tcp k) (EvUse sid h)) as [H1 H2]; [done..|]. do 2 eexists. split; [done|]. by split_and!; [| |naive_solver..].
    + pose proof (tcp_connect_live (sk_tcp k) h ip rp lp) as Hc. destruct (tcp_connect h ip rp lp (sk_tcp k)) as [ok t]. cbn [snd] in Hc.
      destruct (Hw t (EvConnect sid h ip rp)) as [H1 H2]; [done..|]. do 2 eexists. split; [done|].
      split_and!; [done|done|done|done| |by destruct ok; intros ? [= <-]]. intros _. split; [done|by exists h].
  - destruct (tcp_is_open h (sk_tcp k)); cbn [negb].
    + pose proof (tcp_send_live (sk_tcp k) h data) as Hc. pose proof (tcp_send_len (sk_tcp k) h data) as Hn.
      destruct (tcp_send_slice h data (sk_tcp k)) as [[n|] t]; cbn [fst snd] in Hc, Hn.
      * destruct (Hw t (EvSend sid h (take (N.to_nat n) data))) as [H1 H2]; [done..|]. do 2 eexists. split; [done|].
        split_and!; [done..|]. intros r [= <-]. specialize (Hn n eq_refl). cbn.
        pose proof (N.Div0.mod_le n 65536). lia.
      * destruct (Hw t (EvUse sid h)) as [H1 H2]; [done..|]. do 2 eexists. split; [done|]. by split_and!; [| |naive_solver..].
    + destruct (Hw (sk_tcp k) (EvUse sid h)) as [H1 H2]; [done..|]. do 2 eexists. split; [done|]. by split_and!; [| |naive_solver..].
  - destruct (tcp_is_open h (sk_tcp k)); cbn [negb].
    + destruct (tcp_can_recv h (sk_tcp k)).
      * pose proof (tcp_recv_live (sk_tcp k) h (N.min m MAX_PAYLOAD_LEN)) as Hc.
        destruct (tcp_recv_slice h (N.min m MAX_PAYLOAD_LEN) (sk_tcp k)) as [[d|] t]; cbn [snd] in Hc.
        -- destruct (Hw t (EvRecv sid h d)) as [H1 H2]; [done..|]. do 2 eexists. split; [done|]. split_and!; [done..|].
           intros r [= <-]. right. exists h. cbn. apply elem_of_app. right. by left.
        -- destruct (Hw t (EvUse sid h)) as [H1 H2]; [done..|]. do 2 eexists. split; [done|]. split_and!; [done..|].
           intros r [= <-]. by left.
      * destruct (Hw (sk_tcp k) (EvUse sid h)) as [H1 H2]; [done..|]. do 2 eexists. split; [done|]. split_and!; [done..|].
        intros r [= <-]. by left.
    + destruct (Hw (sk_tcp k) (EvUse sid h)) as [H1 H2]; [done..|]. do 2 eexists. split; [done|]. by split_and!; [| |naive_solver..].
  - rewrite Nat2N.id. pose proof (close_ok live k i sid h Hk Hl Hs) as Hn. do 2 eexists. split; [done|].
    split_and!; [done|by eexists| | |done|by intros ? [= <-]].
    + intros j Hj. by apply list_lookup_insert_ne.
    + intros _. apply list_lookup_insert_eq. by apply lookup_lt_Some in Hs.
Qed.

(** ** The server *)

Record srv_ok (s : SockServer) : Prop := {
  so_live : length (ss_live s) = NSOCK;
  so_bufs : length (ss_bufs s) = NSOCK;
  so_pends : length (ss_pending s) = NSOCK;
  so_sockets : sk_ok (ss_live s) (ss_sockets s);
  so_pending i since : ss_pending s !! i = Some (Some since) →
    ∃ sid h, ss_live s !! i = Some (Some sid) ∧ sk_slots (ss_sockets s) !! i = Some (Some h);
  so_buf i b : ss_bufs s !! i = Some b →
    bytes b ∧ sock_request_decode b = None ∧ (ss_live s !! i = Some None → b = []);
  so_sent sid r : (sid, r) ∈ ss_sent s → response_ok sid r (sk_trace (ss_sockets s));
}.

Lemma response_ok_mono sid r tr tr' : tr `prefix_of` tr' → response_ok sid r tr → response_ok sid r tr'.
Proof.
  intros [ext ->]. destruct r; cbn; try done. intros [?|[h Hh]]; [by left|right]. exists h. apply elem_of_app. by left.
Qed.

Lemma mjoin_lookup (l : list (option N)) i x : mjoin (l !! i) = Some x ↔ l !! i = Some (Some x).
Proof. destruct (l !! i) as [[]|]; cbn; naive_solver. Qed.

(** Sockets that changed without moving a slot or losing history. *)
Lemma set_sockets_ok s k :
  srv_ok s → sk_ok (ss_live s) k → sk_trace (ss_sockets s) `prefix_of` sk_trace k → sk_slots k = sk_slots (ss_sockets s) →
  srv_ok (set_sockets k s).
Proof.
  intros Hs Hk Hp Hsl. split; cbn [set_sockets ss_live ss_bufs ss_pending ss_sockets ss_sent]; try apply Hs; [done| |].
  - intros i since Hi. rewrite Hsl. by eapply (so_pending _ Hs).
  - intros sid r Hr. by eapply response_ok_mono, Hs.
Qed.

Lemma respond_ok s sid r :
  srv_ok s → response_ok sid r (sk_trace (ss_sockets s)) → srv_ok (respond sid r s).
Proof.
  intros Hs Hr. split; cbn [respond ss_live ss_bufs ss_pending ss_sockets ss_sent]; try apply Hs.
  intros sid' r' [?|[= -> ->]%list_elem_of_singleton]%elem_of_app; [by apply Hs|done].
Qed.

Lemma set_pending_None_ok s i : srv_ok s → srv_ok (set_pending i None s).
Proof.
  intros Hs. split; cbn [set_pending ss_live ss_bufs ss_pending ss_sockets ss_sent]; try apply Hs.
  - rewrite length_insert. apply Hs.
  - intros j since [(_ & [=] & _)|[_ Hj]]%list_lookup_insert_Some. by eapply (so_pending _ Hs).
Qed.

Lemma resolve_connect_ok offset i s : srv_ok s → ∃ s', resolve_connect offset i s = Some s' ∧ srv_ok s'.
Proof.
  intros Hs. unfold resolve_connect. destruct (mjoin (ss_pending s !! i)) as [since|] eqn:Hp; [|by exists s].
  apply mjoin_lookup in Hp. destruct (so_pending _ Hs _ _ Hp) as (sid & h & Hl & Hsl).
  assert (slot_of (ss_sockets s) (N.of_nat i) = Some h) as -> by (apply slot_of_Some; by rewrite Nat2N.id).
  destruct (sk_slot _ _ (so_sockets _ Hs) _ _ Hsl) as (sid' & Hl' & Ho & Ht). assert (sid' = sid) as -> by congruence.
  rewrite Ht. cbn [negb]. rewrite (proj2 (mjoin_lookup _ _ _) Hl).
  set (s1 := set_sockets _ s). assert (srv_ok s1) as Hs1.
  { apply set_sockets_ok; [done| |by eexists|done]. by apply with_tcp_ok; [apply Hs|..]. }
  destruct (tcp_established h _).
  - eexists. split; [done|]. by apply set_pending_None_ok, respond_ok.
  - destruct (_ || _); eexists; (split; [done|]); [by apply set_pending_None_ok, respond_ok|done].
Qed.

Lemma first_free_Some l : ∀ i j, first_free l i = Some j → (i ≤ j)%nat ∧ l !! (j - i)%nat = Some None.
Proof.
  induction l as [|[x|] l IH]; intros i j; cbn [first_free]; [done| |].
  - intros [Hi Hl]%IH. split; [lia|]. by replace (j - i)%nat with (S (j - S i)) by lia.
  - intros [= <-]. split; [lia|]. by rewrite Nat.sub_diag.
Qed.

Lemma accept_session_ok kk offset s : srv_ok s → srv_ok (accept_session kk offset s).
Proof.
  intros Hs. unfold accept_session. destruct (first_free (ss_live s) 0) as [i|] eqn:Hf; [|done]. case_decide; [done|].
  apply first_free_Some in Hf as [_ Hi]. rewrite Nat.sub_0_r in Hi. set (new := kk_accept kk offset).
  assert (i < length (ss_live s))%nat as Hlt by (by apply lookup_lt_Some in Hi).
  assert (∀ j x, ss_live s !! j = Some (Some x) → <[i := Some new]> (ss_live s) !! j = Some (Some x)) as Hkeep.
  { intros j x Hj. rewrite list_lookup_insert_ne; [done|]. congruence. }
  split; cbn [set_live ss_live ss_bufs ss_pending ss_sockets ss_sent].
  - rewrite length_insert. apply Hs.
  - apply Hs.
  - apply Hs.
  - pose proof (so_sockets _ Hs) as Hk. split; try apply Hk. intros j h Hj.
    destruct (sk_slot _ _ Hk _ _ Hj) as (sid & Hl & Ho). exists sid. split; [by apply Hkeep|done].
  - intros j since Hj. destruct (so_pending _ Hs _ _ Hj) as (sid & h & Hl & Hh). exists sid, h. split; [by apply Hkeep|done].
  - intros j b Hb. destruct (so_buf _ Hs _ _ Hb) as (Hby & Hd & He). split_and!; [done..|].
    intros [(_ & [=] & _)|[_ Hj]]%list_lookup_insert_Some. by apply He.
  - apply Hs.
Qed.

(** Bytes arrive one at a time, so a request is complete with its last byte. *)
Lemma complete_at_last_byte buf b r n :
  bytes (buf ++ [b]) → sock_request_decode buf = None → sock_request_decode (buf ++ [b]) = Some (r, n) →
  n = len (buf ++ [b]).
Proof.
  intros Hb Hn Hd. apply sock_request_inv in Hd as (Hf & -> & ext & He); [|done].
  destruct ext as [|x ext _] using rev_ind; [by rewrite He, app_nil_r|].
  rewrite app_assoc in He. apply app_inj_tail in He as [He _]. apply bytes_app in Hb as [Hb _]. rewrite He in Hb, Hn.
  apply bytes_app in Hb as [_ Hx]. by rewrite sock_request_ok in Hn.
Qed.

Lemma set_buf_ok s i b :
  srv_ok s → bytes b → sock_request_decode b = None → (ss_live s !! i = Some None → b = []) → srv_ok (set_buf i b s).
Proof.
  intros Hs Hb Hd Hl. split; cbn [set_buf ss_live ss_bufs ss_pending ss_sockets ss_sent]; try apply Hs.
  - rewrite length_insert. apply Hs.
  - intros j b' [(<- & [= <-] & _)|[_ Hj]]%list_lookup_insert_Some; [done|]. by apply (so_buf _ Hs).
Qed.

(** A request was handled for the session in slot [i], whose buffer is now empty. *)
Lemma handled_ok s i sid request o k :
  srv_ok s → ss_live s !! i = Some (Some sid) → ss_bufs s !! i = Some [] → ss_pending s !! i = Some None →
  sk_ok (ss_live s) k → sk_trace (ss_sockets s) `prefix_of` sk_trace k →
  (∀ j, j ≠ i → sk_slots k !! j = sk_slots (ss_sockets s) !! j) →
  (is_close request = true → sk_slots k !! i = Some None) →
  (o = ConnectPending → is_close request = false ∧ ∃ h, sk_slots k !! i = Some (Some h)) →
  (∀ r, o = Immediate r → response_ok sid r (sk_trace k)) → ∀ offset,
  let s1 := set_sockets k s in
  let s2 := match o with Immediate r => respond sid r s1 | ConnectPending => set_pending i (Some offset) s1 end in
  srv_ok (if is_close request then set_live i None s2 else s2).
Proof.
  intros Hs Hl Hb Hpi Hk Htr Hsl Hcl Hcp Hr offset. cbv zeta.
  assert (srv_ok (set_sockets k s)) as Hs1.
  { split; cbn [set_sockets ss_live ss_bufs ss_pending ss_sockets ss_sent]; try apply Hs; [done| |].
    - intros j since Hj. rewrite Hsl by congruence. by eapply (so_pending _ Hs).
    - intros sid' r Hr'. by eapply response_ok_mono, Hs. }
  assert (∀ s', ss_live s' = ss_live s → ss_pending s' !! i = Some None → sk_slots (ss_sockets s') !! i = Some None →
    ss_bufs s' !! i = Some [] → srv_ok s' → srv_ok (set_live i None s')) as Hclose.
  { intros s' Hl' Hp' Hsl' Hb' Hs'. pose proof (so_sockets _ Hs') as Hk'.
    split; cbn [set_live ss_live ss_bufs ss_pending ss_sockets ss_sent]; try apply Hs'.
    - rewrite length_insert. apply Hs'.
    - split; try apply Hk'. intros j h Hj. rewrite list_lookup_insert_ne by congruence. by apply Hk'.
    - intros j since Hj. rewrite list_lookup_insert_ne by congruence. by eapply (so_pending _ Hs').
    - intros j b Hj. destruct (so_buf _ Hs' _ _ Hj) as (H1 & H2 & H3). split_and!; [done..|].
      intros [(<- & _ & _)|[_ Hj']]%list_lookup_insert_Some; [congruence|by apply H3]. }
  destruct o as [r|].
  - pose proof (respond_ok _ sid r Hs1 (Hr r eq_refl)) as Hs2. destruct (is_close request) eqn:Hc; [|done].
    apply Hclose; [done|done|by apply Hcl|done|done].
  - destruct (Hcp eq_refl) as [-> [h Hh]]. split; cbn [set_pending ss_live ss_bufs ss_pending ss_sockets ss_sent]; try apply Hs1.
    + rewrite length_insert. apply Hs1.
    + intros j since [(<- & _ & _)|[_ Hj]]%list_lookup_insert_Some; [by exists sid, h|]. by eapply (so_pending _ Hs1).
Qed.

Lemma serve_session_ok kk offset i s : srv_ok s → ∃ s', serve_session kk offset i s = Some s' ∧ srv_ok s'.
Proof.
  intros Hs. unfold serve_session. destruct (mjoin (ss_live s !! i)) as [sid|] eqn:Hl; [|by exists s].
  apply mjoin_lookup in Hl. assert (i < NSOCK)%nat as Hi by (rewrite <-(so_live _ Hs); by apply lookup_lt_Some in Hl).
  destruct (lookup_lt_is_Some_2 (ss_pending s) i) as [p Hp]; [by rewrite (so_pends _ Hs)|].
  destruct (lookup_lt_is_Some_2 (ss_bufs s) i) as [b Hb]; [by rewrite (so_bufs _ Hs)|]. rewrite Hp, Hb.
  destruct p as [since|]; cbn [mjoin option_join]; [by exists s|]. cbn [default from_option id].
  destruct (so_buf _ Hs _ _ Hb) as (Hby & Hd & _). set (raw := kk_recv kk offset sid).
  case_decide as Hm; [rewrite Hd; eexists; split; [done|]; by apply set_buf_ok; [..|congruence]|].
  assert (bytes (b ++ [raw mod 256])) as Hby'
    by (apply bytes_app; split; [done|]; repeat constructor; by apply N.mod_lt).
  destruct (sock_request_decode (b ++ [raw mod 256])) as [[request n]|] eqn:Hd'.
  2: { eexists. split; [done|]. by apply set_buf_ok; [..|congruence]. }
  assert (drop (N.to_nat n) (b ++ [raw mod 256]) = []) as ->
    by (rewrite (complete_at_last_byte _ _ _ _ Hby' Hd Hd'); unfold len; by rewrite Nat2N.id, drop_all).
  assert (srv_ok (set_buf i [] s)) as Hs0 by (apply set_buf_ok; [done|constructor|done|done]).
  change (ss_sockets (set_buf i [] s)) with (ss_sockets s).
  destruct (handle_ok (ss_live s) (ss_sockets s) sid i request) as (o & k & -> & H1 & H2 & H3 & H4 & H5 & H6);
    [apply Hs|done..|]. cbn [mbind option_bind]. eexists. split; [done|].
  apply (handled_ok (set_buf i [] s) i sid request o k); try done.
  cbn. apply list_lookup_insert_eq. by rewrite (so_bufs _ Hs).
Qed.

Lemma for_each_ok (f : nat → SockServer → option SockServer) idxs :
  (∀ i s, srv_ok s → ∃ s', f i s = Some s' ∧ srv_ok s') → ∀ s, srv_ok s → ∃ s', for_each f idxs s = Some s' ∧ srv_ok s'.
Proof.
  intros Hf. induction idxs as [|i idxs IH]; intros s Hs; cbn [for_each]; [by exists s|].
  destruct (Hf i s Hs) as (s' & -> & Hs'). by apply IH.
Qed.

Lemma server_iteration_ok kk start offset s : srv_ok s → ∃ s', server_iteration kk start offset s = Some s' ∧ srv_ok s'.
Proof.
  intros Hs. unfold server_iteration.
  set (s0 := set_sockets _ s). assert (srv_ok s0) as Hs0.
  { apply set_sockets_ok; [done| |done|done]. pose proof (so_sockets _ Hs) as Hk. split; try apply Hk.
    intros i h Hi. cbn. rewrite tcp_poll_live. by apply Hk. }
  destruct (for_each_ok (resolve_connect offset) (seq 0 NSOCK) (λ i s, resolve_connect_ok offset i s) s0 Hs0) as (s1 & -> & Hs1).
  apply for_each_ok; [intros; by apply serve_session_ok|by apply accept_session_ok].
Qed.

Lemma server_new_ok t : srv_ok (server_new t).
Proof.
  assert (∀ i, replicate NSOCK (@None N) !! i ≠ Some (Some (0 : N)) ∧ ∀ x, replicate NSOCK (@None N) !! i ≠ Some (Some x)) as Hn
    by (intros i; split; [|intros x]; by intros [? _]%lookup_replicate).
  split; cbn [server_new ss_live ss_bufs ss_pending ss_sockets ss_sent]; try by rewrite length_replicate.
  - split; cbn [sk_slots sk_trace sk_tcp]; [by rewrite length_replicate|intros i h Hi; by destruct (proj2 (Hn i) h)|
      intros i j h Hi; by destruct (proj2 (Hn i) h)|done|apply every_event_nil].
  - intros i since Hi. by destruct (proj2 (Hn i) since).
  - intros i b [-> _]%lookup_replicate. by repeat constructor.
  - by intros ? ? ?%elem_of_nil.
Qed.

Lemma server_loop_ok kk start fuel : ∀ offset s, srv_ok s → ∃ s', server_loop kk start fuel offset s = Some s' ∧ srv_ok s'.
Proof.
  induction fuel as [|fuel IH]; intros offset s Hs; cbn [server_loop]; [by exists s|].
  destruct (server_iteration_ok kk start offset s Hs) as (s' & -> & Hs'). by apply IH.
Qed.


(** ** A session that never sends a request *)

(** One session is accepted first; it only ever sends a byte that starts no request. *)
Definition junk_kernel : SockKernel := mkSockKernel (λ i, if i =? 0 then 7 else u64_max) (λ _ _, 255).

Definition junk_state (t : Tcp) (n : nat) : SockServer :=
  mkSockServer (mkSockets t (replicate NSOCK None) []) [Some 7; None; None; None]
    [replicate n 255; []; []; []] (replicate NSOCK None) 0 [].

Lemma junk_serve offset t n : serve_session junk_kernel offset 0 (junk_state t n) = Some (junk_state t (S n)).
Proof.
  unfold serve_session. cbn [mjoin option_join junk_state ss_live ss_pending ss_bufs lookup list_lookup default from_option id junk_kernel kk_recv].
  change (replicate NSOCK (@None N) !! 0%nat) with (Some (@None N)). cbn [mjoin option_join].
  rewrite decide_False by done. change (255 mod 256) with 255. rewrite <-replicate_S_end. reflexivity.
Qed.

Lemma junk_iteration start offset t n :
  offset ≠ 0 → server_iteration junk_kernel start offset (junk_state t n) = Some (junk_state (tcp_poll (start + offset) t) (S n)).
Proof.
  intros Ho. unfold server_iteration. cbv zeta.
  change (set_sockets _ (junk_state t n)) with (junk_state (tcp_poll (start + offset) t) n). generalize (tcp_poll (start + offset) t). intros t'.
  assert (for_each (resolve_connect offset) (seq 0 NSOCK) (junk_state t' n) = Some (junk_state t' n)) as -> by reflexivity.
  cbn [mbind option_bind].
  assert (accept_session junk_kernel offset (junk_state t' n) = junk_state t' n) as ->.
  { unfold accept_session. cbn [junk_state ss_live first_free junk_kernel kk_accept]. by rewrite (proj2 (N.eqb_neq offset 0) Ho), decide_True. }
  change (seq 0 NSOCK) with [0; 1; 2; 3]%nat. cbn [for_each]. rewrite junk_serve. reflexivity.
Qed.

(** Nothing bounds what a session may leave pending: one whose first byte starts no
    request keeps its slot and grows its buffer by a byte in every iteration, without ever
    being answered. *)
Theorem junk_session_grows start t n :
  ∃ s, server_loop junk_kernel start (S n) 0 (server_new t) = Some s ∧
    ss_live s !! 0%nat = Some (Some 7) ∧ (∃ buf, ss_bufs s !! 0%nat = Some buf ∧ length buf = S n) ∧ ss_sent s = [].
Proof.
  assert (∀ n offset t k, offset ≠ 0 → ∃ t', server_loop junk_kernel start n offset (junk_state t k) = Some (junk_state t' (n + k))) as Hl.
  { clear. induction n as [|n IH]; intros offset t k Ho; cbn [server_loop Nat.add]; [by exists t|].
    rewrite junk_iteration by done. cbn [mbind option_bind]. destruct (IH (offset + 1) (tcp_poll (start + offset) t) (S k)) as [t' Ht]; [lia|].
    exists t'. by rewrite Ht, Nat.add_succ_r. }
  assert (server_iteration junk_kernel start 0 (server_new t) = Some (junk_state (tcp_poll (start + 0) t) 1)) as H0 by reflexivity.
  cbn [server_loop]. rewrite H0. cbn [mbind option_bind]. destruct (Hl n (0 + 1) (tcp_poll (start + 0) t) 1%nat) as [t' ->]; [done|].
  eexists. split; [done|]. split; [done|]. split; [|done]. eexists. split; [done|]. rewrite length_replicate. lia.
Qed.
End invariant.

(** ** A concrete stack *)

(** Sockets connect at once; [toy_reply] is what the peer answers once something was sent
    to it. *)
Module ToyTcp.
Record Stack := mkStack { toy_sockets : list N; toy_open : list N; toy_taken : list N; toy_reply : list N }.

Definition next_handle (l : list N) : N := 1 + foldr N.max 0 l.

#[export] Instance toy_tcp : TcpStack := {|
  Tcp := Stack;
  tcp_live h t := bool_decide (h ∈ toy_sockets t);
  tcp_add t := (next_handle (toy_sockets t), mkStack (next_handle (toy_sockets t) :: toy_sockets t) (toy_open t) (toy_taken t) (toy_reply t));
  tcp_remove h t := mkStack (filter (λ x, x ≠ h) (toy_sockets t)) (toy_open t) (toy_taken t) (toy_reply t);
  tcp_is_open h t := bool_decide (h ∈ toy_open t);
  tcp_established h t := bool_decide (h ∈ toy_open t);
  tcp_closed h t := negb (bool_decide (h ∈ toy_open t));
  tcp_connect h _ _ _ t := (true, mkStack (toy_sockets t) (h :: toy_open t) (toy_taken t) (toy_reply t));
  tcp_send_slice h d t :=
    (Some (N.min (len d) TCP_BUFFER), mkStack (toy_sockets t) (toy_open t) (toy_taken t ++ take 256 d) (toy_reply t));
  tcp_can_recv h t := bool_decide (toy_taken t ≠ [] ∧ toy_reply t ≠ []);
  tcp_recv_slice h n t :=
    let d := take (N.to_nat (N.min n TCP_BUFFER)) (toy_reply t) in
    (Some ((λ b, b mod 256) <$> d), mkStack (toy_sockets t) (toy_open t) (toy_taken t) (drop (length d) (toy_reply t)));
  tcp_close h t := mkStack (toy_sockets t) (filter (λ x, x ≠ h) (toy_open t)) (toy_taken t) (toy_reply t);
  tcp_poll _ t := t;
|}.

Lemma next_handle_fresh l : ∀ x, x ∈ l → x < next_handle l.
Proof.
  unfold next_handle. induction l as [|y l IH]; intros x; [by intros ?%elem_of_nil|]. cbn [foldr].
  intros [->|Hx]%elem_of_cons; [lia|]. specialize (IH _ Hx). lia.
Qed.

#[export] Instance toy_tcp_laws : TcpLaws.
Proof.
  split; cbn; try done.
  - intros t. apply bool_decide_eq_false. intros Hin%next_handle_fresh. lia.
  - intros t h. destruct (decide (h = next_handle (toy_sockets t))) as [->|Hne].
    + by rewrite !bool_decide_eq_true_2 by (done || by left).
    + rewrite (bool_decide_eq_false_2 (h = _)) by done. cbn. apply bool_decide_ext. rewrite elem_of_cons. naive_solver.
  - intros t h h'. destruct (decide (h' = h)) as [->|Hne].
    + rewrite (bool_decide_eq_true_2 (h = h)) by done. cbn. apply bool_decide_eq_false. by intros [? _]%list_elem_of_filter.
    + rewrite (bool_decide_eq_false_2 (h' = h)) by done. cbn. apply bool_decide_ext. rewrite list_elem_of_filter. naive_solver.
  - intros t h d n [= <-]. lia.
  - intros t h n d [= <-]. unfold len. rewrite length_fmap, length_take. split; [lia|].
    apply Forall_fmap, Forall_forall. intros x _. by apply N.mod_lt.
Qed.

(** Two sessions, opened in the first two iterations; the first opens a socket, connects
    and sends a byte, and so does the second. *)
Definition script : list N := [0; 1; 0; 10; 0; 2; 2; 80; 0; 0; 4; 2; 0; 1; 0; 65].
Definition kernel : SockKernel :=
  mkSockKernel (λ i, if i <? 2 then 40 + i else u64_max) (λ i _, default u64_max (script !! N.to_nat i)).
Definition quiet_net : Stack := mkStack [] [] [] [].
End ToyTcp.

Import ToyTcp.

