(* ===== verification/X86Marshal.v ===== *)
(** * X86Marshal: the x86_64 kernel's MARSHAL client and the spawn gate

    Model of [kernel/src/marshal_client.rs] (one evaluation over a session of the sockets
    server) and of [kernel/src/grid_sandbox.rs] up to the decision to spawn: the request
    text, the evaluation, its record and the gate.  The client's system calls and yields
    are the class [ClientSys]; its instance [pipe] runs the sockets server of [X86Sockets]
    on every byte the client sends and before every byte it asks for. *)

From Stdlib Require Import Ascii.
From S2P Require Import Prelude Text Bytes Worm Marshal MarshalCodec Capability Allowlist SocketCodec X86Kernel X86Sockets.

Local Open Scope N_scope.

(** ** System calls *)

(** [syscall(num, arg1, arg2, 0)] and [scheduler::yield_now()]. *)
Class ClientSys := {
  cst : Type;
  sys_call : N → N → N → cst → N * cst;
  sys_yield : cst → cst;
}.

Section client.
Context `{CS : ClientSys}.

Definition SOCKETS_SERVER_PORT : N := 11.

(** [if i % k == 0 { yield_now() }] *)
Definition yield_every (k i : N) (st : cst) : cst := if decide (i mod k = 0) then sys_yield st else st.

(** [for i in 0..max_iters], with [fuel] iterations left. *)
Fixpoint open_session_loop (fuel : nat) (i : N) (st : cst) : option N * cst :=
  match fuel with
  | O => (None, st)
  | S fuel =>
      let '(ret, st) := sys_call SYS_IPC_SESSION_OPEN SOCKETS_SERVER_PORT 0 st in
      if decide (ret ≠ u64_max) then (Some ret, st) else open_session_loop fuel (i + 1) (yield_every 64 i st)
  end.
Definition open_session (max_iters : N) (st : cst) : option N * cst := open_session_loop (N.to_nat max_iters) 0 st.

Fixpoint send_bytes_loop (sid : N) (bs : list N) (st : cst) : bool * cst :=
  match bs with
  | [] => (true, st)
  | b :: bs =>
      let '(ret, st) := sys_call SYS_IPC_SESSION_SEND sid b st in
      if decide (ret = u64_max) then (false, st) else send_bytes_loop sid bs st
  end.

Definition send_socket_request (sid : N) (request : SocketRequest) (st : cst) : bool * cst :=
  let '(locked, st) := sys_call SYS_IPC_SESSION_SEND_LOCK sid 0 st in
  if decide (locked = u64_max) then (false, st)
  else
    let '(ok, st) := send_bytes_loop sid (sock_request_encode request) st in
    (ok, (sys_call SYS_IPC_SESSION_SEND_UNLOCK sid 0 st).2).

Fixpoint recv_loop (fuel : nat) (i : N) (sid : N) (buf : list N) (st : cst) : option SocketResponse * cst :=
  match fuel with
  | O => (None, st)
  | S fuel =>
      let '(ret, st) := sys_call SYS_IPC_SESSION_RECV sid 0 st in
      if decide (ret ≠ u64_max) then
        let buf := buf ++ [ret mod 256] in
        match sock_response_decode buf with
        | Some (response, _) => (Some response, st)
        | None => recv_loop fuel (i + 1) sid buf (yield_every 64 i st)
        end
      else recv_loop fuel (i + 1) sid buf (yield_every 64 i st)
  end.
Definition recv_socket_response (sid max_iters : N) (st : cst) : option SocketResponse * cst :=
  recv_loop (N.to_nat max_iters) 0 sid [] st.

(** A request and the response to it. *)
Definition exchange (sid max_iters : N) (request : SocketRequest) (st : cst) : option SocketResponse * cst :=
  let '(ok, st) := send_socket_request sid request st in
  if ok : bool then recv_socket_response sid max_iters st else (None, st).

Definition open_socket (sid max_iters : N) (st : cst) : option N * cst :=
  let '(r, st) := exchange sid max_iters SockOpen st in
  (match r with Some (Opened handle) => Some handle | _ => None end, st).

Definition connect_socket (sid handle : N) (remote_ip : N * N * N * N) (remote_port local_port max_iters : N) (st : cst) :
    bool * cst :=
  let '(r, st) := exchange sid max_iters (SockConnect handle remote_ip remote_port local_port) st in
  (match r with Some (Connected h) => bool_decide (h = handle) | _ => false end, st).

(** [bytes.chunks(n)] *)
Fixpoint chunks_fuel (fuel : nat) (n : nat) (l : list N) : list (list N) :=
  match fuel, l with
  | S fuel, _ :: _ => take n l :: chunks_fuel fuel n (drop n l)
  | _, _ => []
  end.
Definition chunks (n : N) (l : list N) : list (list N) := chunks_fuel (length l) (N.to_nat n) l.

Fixpoint send_chunks (sid handle max_iters : N) (cs : list (list N)) (st : cst) : bool * cst :=
  match cs with
  | [] => (true, st)
  | chunk :: cs =>
      let '(r, st) := exchange sid max_iters (SockSend handle chunk) st in
      match r with
      | Some (Sent h n) =>
          if decide (h = handle ∧ n = len chunk) then send_chunks sid handle max_iters cs st else (false, st)
      | _ => (false, st)
      end
  end.
Definition send_bytes (sid handle : N) (bs : list N) (max_iters : N) (st : cst) : bool * cst :=
  send_chunks sid handle max_iters (chunks MAX_PAYLOAD_LEN bs) st.

Definition close_socket (sid handle max_iters : N) (st : cst) : cst :=
  (recv_socket_response sid max_iters (send_socket_request sid (SockClose handle) st).2).2.

Definition malformed_reply : MarshalResponse := RespError (ErrBadResponse "malformed ipc reply").

Fixpoint recv_marshal_loop (fuel : nat) (i : N) (sid handle : N) (buf : list N) (st : cst) : option MarshalResponse * cst :=
  match fuel with
  | O => (None, st)
  | S fuel =>
      let '(ok, st) := send_socket_request sid (SockRecv handle MAX_PAYLOAD_LEN) st in
      if negb ok then (None, st)
      else
        let '(r, st) := recv_socket_response sid 2000 st in
        let fresh := match r with Some (SockData h data) => if decide (h = handle) then Some data else None | _ => None end in
        match fresh with
        | Some data =>
            let buf := buf ++ data in
            match decode_status buf with
            | Complete response _ => (Some response, st)
            | Malformed => (Some malformed_reply, st)
            | Incomplete => recv_marshal_loop fuel (i + 1) sid handle buf (yield_every 16 i st)
            end
        | None => recv_marshal_loop fuel (i + 1) sid handle buf (yield_every 16 i st)
        end
  end.
Definition recv_marshal_response (sid handle max_polls : N) (st : cst) : option MarshalResponse * cst :=
  recv_marshal_loop (N.to_nat max_polls) 0 sid handle [] st.

Definition evaluate (remote_ip : N * N * N * N) (remote_port local_port : N) (json : list N) (max_iters : N) (st : cst) :
    option MarshalResponse * cst :=
  match open_session max_iters st with
  | (None, st) => (None, st)
  | (Some sid, st) =>
      match open_socket sid max_iters st with
      | (None, st) => (None, st)
      | (Some handle, st) =>
          match connect_socket sid handle remote_ip remote_port local_port max_iters st with
          | (false, st) => (None, close_socket sid handle max_iters st)
          | (true, st) =>
              match send_bytes sid handle (request_encode json) max_iters st with
              | (false, st) => (None, close_socket sid handle max_iters st)
              | (true, st) =>
                  let '(response, st) := recv_marshal_response sid handle max_iters st in
                  (response, close_socket sid handle max_iters st)
              end
          end
      end
  end.
End client.

(** ** The spawn request *)

Local Close Scope N_scope.

Definition backslash : ascii := ascii_of_nat 92.
Definition double_quote : ascii := ascii_of_nat 34.

(** [json_escape_into]: characters beyond ASCII pass through byte by byte. *)
Fixpoint json_escape (s : string) : string :=
  match s with
  | EmptyString => EmptyString
  | String c s =>
      (if decide (c = double_quote) then String backslash (String double_quote EmptyString)
       else if decide (c = backslash) then String backslash (String backslash EmptyString)
       else if decide (N_of_ascii c < 32)%N then
         String backslash ("u00" +:+ String (hex_char (N_of_ascii c / 16)) (String (hex_char (N_of_ascii c mod 16)) EmptyString))
       else String c EmptyString) +:+ json_escape s
  end.

Definition JSON_HEAD : string :=
  "{" +:+ quoted "kerkese_version" +:+ ":" +:+ quoted "1.0" +:+ "," +:+ quoted "dry_run" +:+ ":true," +:+
  quoted "action" +:+ ":{" +:+ quoted "type" +:+ ":" +:+ quoted "grid_sandbox.spawn_instance" +:+ "," +:+
  quoted "module_id" +:+ ":" +:+ dq.
Definition JSON_INSTANCE : string := "," +:+ quoted "instance_id" +:+ ":" +:+ dq.
Definition JSON_ACTOR : string :=
  "}," +:+ quoted "actor" +:+ ":{" +:+ quoted "user_id" +:+ ":" +:+ quoted "kernel:grid_sandbox" +:+ "," +:+
  quoted "role" +:+ ":" +:+ quoted "operator" +:+ "}," +:+ quoted "execution_id" +:+ ":" +:+ dq.

Definition build_spawn_kerkese_json (module_id instance_id : string) : string :=
  JSON_HEAD +:+ json_escape module_id +:+ dq +:+ JSON_INSTANCE +:+ json_escape instance_id +:+
  dq +:+ JSON_ACTOR +:+ json_escape instance_id +:+ dq +:+ "}".

(** ** The gate *)

Record ShadowMarshalProxyConfig := mkProxyConfig {
  pc_remote_ip : N * N * N * N;
  pc_remote_port : N;
  pc_local_port : N;
}.

Definition SHADOW_MARSHAL_MAX_ITERS : N := 2000.

Inductive MarshalEnforcementError := EnforceBlocked (outcome : ShadowMarshalOutcome) | FaultyReply.

Definition enforce_marshal_decision (outcome : ShadowMarshalOutcome) : Result MarshalEnforcementError () :=
  match outcome with
  | Unreachable => Ok ()
  | Execute => Ok ()
  | Faulty => Err FaultyReply
  | Refuse | HardStop => Err (EnforceBlocked outcome)
  end.

Inductive SpawnInstanceError :=
  | Authorization (e : CitadelError)
  | MarshalEnforcement (e : MarshalEnforcementError).

Section spawn.
Context `{CS : ClientSys} `{SS : SignatureScheme} `{SHA : Sha256} (demo_signing_key : SigningKey).

(** The statics [SHADOW_MARSHAL_PROXY], [SHADOW_MARSHAL_MAX_ITERS_OVERRIDE] and
    [SHADOW_MARSHAL_LOG], and what the client's system calls act on. *)
Record Sandbox := mkSandbox {
  sb_proxy : option ShadowMarshalProxyConfig;
  sb_max_iters : option N;
  sb_log : list WormEntry;
  sb_sys : cst;
}.

Definition set_shadow_marshal_proxy (config : option ShadowMarshalProxyConfig) (s : Sandbox) : Sandbox :=
  mkSandbox config (sb_max_iters s) (sb_log s) (sb_sys s).
Definition set_shadow_marshal_max_iters_override (max_iters : option N) (s : Sandbox) : Sandbox :=
  mkSandbox (sb_proxy s) max_iters (sb_log s) (sb_sys s).

Definition shadow_marshal_evaluate (module_id instance_id : string) (s : Sandbox) : ShadowMarshalOutcome * Sandbox :=
  let '(outcome, st) :=
    match sb_proxy s with
    | None => (Unreachable, sb_sys s)
    | Some config =>
        let kerkese_json := build_spawn_kerkese_json module_id instance_id in
        let max_iters := default SHADOW_MARSHAL_MAX_ITERS (sb_max_iters s) in
        let '(r, st) := evaluate (pc_remote_ip config) (pc_remote_port config) (pc_local_port config)
                          (as_bytes kerkese_json) max_iters (sb_sys s) in
        (match r with
         | Some (Decision outcome _) =>
             match outcome with OutExecute => Execute | OutRefuse => Refuse | OutHardStop => HardStop end
         | Some (RespError (ErrPolicyRefused _)) => Refuse
         | Some (RespError (ErrBadResponse _)) | Some (RespError (ErrOther _)) => Faulty
         | Some (RespError (ErrUnreachable _)) | Some (RespError ErrTimeout) | None => Unreachable
         end, st)
    end in
  (outcome, mkSandbox (sb_proxy s) (sb_max_iters s)
              (record_shadow_marshal_evaluation (sb_log s) module_id instance_id outcome) st).

Definition GRID_MODULE : string := "grid-sandbox-host".

(** [spawn_instance] up to the point where the image is parsed; [image] is the compiled
    sandbox host. *)
Definition spawn_gate (image instance_id : string) (tier : SandboxTier) (s : Sandbox) :
    Result SpawnInstanceError SandboxTier * Sandbox :=
  match demo_authorize_instance demo_signing_key GRID_MODULE instance_id image tier with
  | Err e => (Err (Authorization e), s)
  | Ok tier =>
      let '(outcome, s) := shadow_marshal_evaluate GRID_MODULE instance_id s in
      match enforce_marshal_decision outcome with
      | Err e => (Err (MarshalEnforcement e), s)
      | Ok _ => (Ok tier, s)
      end
  end.
End spawn.

(** ** What the request text says *)

(** The contents of a JSON string (RFC 8259) up to the closing quote, and the rest: an
    escape is a quote, a backslash or [\u00XX]; control characters must be escaped. *)
Fixpoint read_string (s : string) : option (string * string) :=
  match s with
  | EmptyString => None
  | String c s =>
      if decide (c = double_quote) then Some (EmptyString, s)
      else if decide (c = backslash) then
        match s with
        | String e s' =>
            if decide (e = double_quote ∨ e = backslash) then
              '(t, rest) ← read_string s'; Some (String e t, rest)
            else if decide (e = "u"%char) then
              match s' with
              | String z1 (String z2 (String h (String l s''))) =>
                  if decide (z1 = "0"%char ∧ z2 = "0"%char) then
                    hi ← hex_digit h; lo ← hex_digit l;
                    '(t, rest) ← read_string s''; Some (String (ascii_of_N (hi * 16 + lo)) t, rest)
                  else None
              | _ => None
              end
            else None
        | EmptyString => None
        end
      else if decide (N_of_ascii c < 32)%N then None
      else '(t, rest) ← read_string s; Some (String c t, rest)
  end.

(** A reader of the request: the fixed members in order, their string values read by the
    JSON grammar. *)
Definition read_spawn (text : string) : option (string * string * string) :=
  s ← strip_prefix JSON_HEAD text;
  '(module_id, s) ← read_string s;
  s ← strip_prefix JSON_INSTANCE s;
  '(instance_id, s) ← read_string s;
  s ← strip_prefix JSON_ACTOR s;
  '(execution_id, s) ← read_string s;
  if decide (s = "}") then Some (module_id, instance_id, execution_id) else None.

Lemma read_quote e s t rest :
  e = double_quote ∨ e = backslash → read_string s = Some (t, rest) →
  read_string (String backslash (String e s)) = Some (String e t, rest).
Proof. intros He Hs. cbn [read_string]. by rewrite decide_False, decide_True, decide_True, Hs. Qed.

Lemma read_control c s t rest :
  (N_of_ascii c < 32)%N → read_string s = Some (t, rest) →
  read_string (String backslash (String "u" (String "0" (String "0"
    (String (hex_char (N_of_ascii c / 16)) (String (hex_char (N_of_ascii c mod 16)) s)))))) = Some (String c t, rest).
Proof.
  intros Hc Hs. assert (N_of_ascii c / 16 < 16)%N by (apply N.Div0.div_lt_upper_bound; lia).
  cbn [read_string]. rewrite decide_False, decide_True, decide_False by (try done; by intros [?|?]).
  rewrite decide_True, decide_True by done. rewrite !hex_digit_char by (try done; by apply N.mod_lt).
  cbn [mbind option_bind]. rewrite Hs. cbn [mbind option_bind]. do 3 f_equal.
  rewrite N.mul_comm, <-N.div_mod' by done. apply ascii_N_embedding.
Qed.

Lemma read_plain c s t rest :
  c ≠ double_quote → c ≠ backslash → ¬ (N_of_ascii c < 32)%N → read_string s = Some (t, rest) →
  read_string (String c s) = Some (String c t, rest).
Proof. intros H1 H2 H3 Hs. cbn [read_string]. by rewrite !decide_False, Hs by done. Qed.

Lemma read_escape s rest : read_string (json_escape s +:+ dq +:+ rest) = Some (s, rest).
Proof.
  induction s as [|c s IH]; [done|]. cbn [json_escape]. rewrite string_app_assoc.
  case_decide as Hq; [subst; apply read_quote; [by left|done]|].
  case_decide as Hb; [subst; apply read_quote; [by right|done]|].
  case_decide as Hc; [by apply read_control|by apply read_plain].
Qed.


Lemma spawn_json_length instance_id :
  String.length (build_spawn_kerkese_json GRID_MODULE instance_id) = 215 + 2 * String.length (json_escape instance_id).
Proof.
  unfold build_spawn_kerkese_json. rewrite !string_length_app.
  change (String.length JSON_HEAD) with 100. change (String.length (json_escape GRID_MODULE)) with 17.
  change (String.length JSON_INSTANCE) with 16. change (String.length JSON_ACTOR) with 78.
  change (String.length dq) with 1. change (String.length "}") with 1. lia.
Qed.

(** ** The client against the sockets server *)

Local Open Scope N_scope.

Section pipe.
Context `{TS : TcpStack}.

(** The server with the client's session in slot 0, the number of its next iteration, and
    the two lanes of the session. *)
Record Pipe := mkPipe {
  pp_srv : SockServer;
  pp_off : N;
  pp_in : list N;
  pp_out : list N;
}.

Definition CLIENT : N := 7.

(** The session was just accepted. *)
Definition pipe_start (t : Tcp) : Pipe :=
  mkPipe (accept_session (mkSockKernel (λ _, CLIENT) (λ _ _, u64_max)) 0 (server_new t)) 1 [] [].

(** Whether the server reads from the session in this iteration. *)
Definition reads (s : SockServer) : bool :=
  match mjoin (ss_live s !! 0%nat), mjoin (ss_pending s !! 0%nat) with Some _, None => true | _, _ => false end.

Definition answers_from (n : nat) (sent : list (N * SocketResponse)) : list N :=
  concat (sock_response_encode ∘ snd <$> drop n sent).

(** One iteration of the server: [None] when it panicked. *)
Definition pipe_iteration (p : Pipe) : option Pipe :=
  let k := ss_sockets (pp_srv p) in
  let s := set_sockets (mkSockets (tcp_poll (pp_off p) (sk_tcp k)) (sk_slots k) (sk_trace k)) (pp_srv p) in
  let kk := mkSockKernel (λ _, u64_max) (λ _ _, default u64_max (head (pp_in p))) in
  s ← for_each (resolve_connect (pp_off p)) (seq 0 NSOCK) s;
  let lane := if reads s then tail (pp_in p) else pp_in p in
  s ← for_each (serve_session kk (pp_off p)) (seq 0 NSOCK) (accept_session kk (pp_off p) s);
  Some (mkPipe s (pp_off p + 1) lane (pp_out p ++ answers_from (length (ss_sent (pp_srv p))) (ss_sent s))).

(** A server that panicked answers nothing more. *)
Definition pipe_step (p : Pipe) : Pipe := default p (pipe_iteration p).

(** The server runs an iteration for every byte sent and every byte asked for. *)
Definition pipe_call (num arg1 arg2 : N) (p : Pipe) : N * Pipe :=
  if decide (num = SYS_IPC_SESSION_OPEN) then (CLIENT, p)
  else if decide (arg1 ≠ CLIENT) then (u64_max, p)
  else if decide (num = SYS_IPC_SESSION_SEND) then
    (0, pipe_step (mkPipe (pp_srv p) (pp_off p) (pp_in p ++ [arg2 mod 256]) (pp_out p)))
  else if decide (num = SYS_IPC_SESSION_RECV) then
    let p := pipe_step p in
    match pp_out p with
    | [] => (u64_max, p)
    | b :: out => (b, mkPipe (pp_srv p) (pp_off p) (pp_in p) out)
    end
  else (0, p).

#[export] Instance pipe : ClientSys := { cst := Pipe; sys_call := pipe_call; sys_yield := pipe_step }.

(** The iteration of the pipe is the server's, with these answers of the kernel. *)
Lemma pipe_iteration_server p p' :
  pipe_iteration p = Some p' →
  server_iteration (mkSockKernel (λ _, u64_max) (λ _ _, default u64_max (head (pp_in p)))) 0 (pp_off p) (pp_srv p) = Some (pp_srv p').
Proof.
  unfold pipe_iteration, server_iteration. rewrite N.add_0_l.
  destruct (for_each (resolve_connect (pp_off p)) _ _) as [s|]; [|done]. cbn [mbind option_bind].
  destruct (for_each (serve_session _ _) _ _) as [s'|]; [|done]. by intros [= <-].
Qed.

(** *** The server with one session *)

Definition ONE : list (option N) := [Some CLIENT; None; None; None].
Definition single (k : Sockets) (buf : list N) (pend : option N) (n : N) (sent : list (N * SocketResponse)) : SockServer :=
  mkSockServer k ONE [buf; []; []; []] [pend; None; None; None] n sent.
Definition closed (k : Sockets) (n : N) (sent : list (N * SocketResponse)) : SockServer :=
  mkSockServer k [None; None; None; None] [[]; []; []; []] [None; None; None; None] n sent.
Definition polled (off : N) (k : Sockets) : Sockets := mkSockets (tcp_poll off (sk_tcp k)) (sk_slots k) (sk_trace k).

Lemma answers_from_same sent : answers_from (length sent) sent = [].
Proof. unfold answers_from. by rewrite drop_all. Qed.

Lemma answers_from_one sent sid r : answers_from (length sent) (sent ++ [(sid, r)]) = sock_response_encode r.
Proof. unfold answers_from. rewrite drop_app_length. cbn. by rewrite app_nil_r. Qed.

Lemma pipe_start_single t : pipe_start t = mkPipe (single (mkSockets t (replicate NSOCK None) []) [] None 0 []) 1 [] [].
Proof. reflexivity. Qed.

(** An iteration that has no connect to resolve serves slot 0. *)
Lemma iteration_ready k buf n sent off lane out s :
  let kk := mkSockKernel (λ _, u64_max) (λ _ _, default u64_max (head lane)) in
  serve_session kk off 0 (single (polled off k) buf None n sent) = Some s →
  ss_live s !! 1%nat = Some None → ss_live s !! 2%nat = Some None → ss_live s !! 3%nat = Some None →
  pipe_step (mkPipe (single k buf None n sent) off lane out) =
    mkPipe s (off + 1) (tail lane) (out ++ answers_from (length sent) (ss_sent s)).
Proof.
  intros kk Hs H1 H2 H3. unfold pipe_step, pipe_iteration. cbn [pp_srv pp_off pp_in pp_out]. fold kk.
  change (set_sockets _ (single k buf None n sent)) with (single (polled off k) buf None n sent).
  assert (for_each (resolve_connect off) (seq 0 NSOCK) (single (polled off k) buf None n sent) =
    Some (single (polled off k) buf None n sent)) as -> by reflexivity. cbn [mbind option_bind].
  assert (accept_session kk off (single (polled off k) buf None n sent) = single (polled off k) buf None n sent) as -> by reflexivity.
  change (reads (single (polled off k) buf None n sent)) with true.
  change (seq 0 NSOCK) with [0; 1; 2; 3]%nat. cbn [for_each]. rewrite Hs. cbn [mbind option_bind].
  assert (∀ i, ss_live s !! i = Some None → serve_session kk off i s = Some s) as Hidle
    by (intros i Hi; unfold serve_session; by rewrite Hi).
  do 3 (rewrite Hidle by done; cbn [mbind option_bind]). done.
Qed.

Lemma serve_single kk off k buf n sent :
  serve_session kk off 0 (single k buf None n sent) =
    let raw := kk_recv kk off CLIENT in
    let buf := if decide (raw = u64_max) then buf else buf ++ [raw mod 256] in
    match sock_request_decode buf with
    | None => Some (single k buf None n sent)
    | Some (request, consumed) =>
        '(outcome, k) ← handle_socket_request CLIENT 0 (pin_to_own_session request 0) k;
        let s := match outcome with
                 | Immediate r => single k (drop (N.to_nat consumed) buf) None (n + 1) (sent ++ [(CLIENT, r)])
                 | ConnectPending => single k (drop (N.to_nat consumed) buf) (Some off) n sent
                 end in
        Some (if is_close request then set_live 0 None s else s)
    end.
Proof.
  unfold serve_session, single. cbn [ss_live ss_pending ss_bufs ONE lookup list_lookup mjoin option_join default from_option id].
  cbv zeta. destruct (sock_request_decode _) as [[request consumed]|]; [|done].
  change (N.of_nat 0 mod 256) with 0. change (N.of_nat 0) with 0.
  cbn [set_buf ss_sockets]. destruct (handle_socket_request _ _ _ k) as [[[r|] k']|]; done.
Qed.

(** Nothing to read. *)
Lemma step_idle k n sent off out :
  pipe_step (mkPipe (single k [] None n sent) off [] out) = mkPipe (single (polled off k) [] None n sent) (off + 1) [] out.
Proof.
  rewrite (iteration_ready _ _ _ _ _ _ _ (single (polled off k) [] None n sent)); [|reflexivity..].
  cbn [ss_sent single tail]. by rewrite answers_from_same, app_nil_r.
Qed.

(** A byte that completes no request, and one that does. *)
Lemma step_byte k buf n sent off b out :
  b < 256 → sock_request_decode (buf ++ [b]) = None →
  pipe_step (mkPipe (single k buf None n sent) off [b] out) = mkPipe (single (polled off k) (buf ++ [b]) None n sent) (off + 1) [] out.
Proof.
  intros Hb Hd. rewrite (iteration_ready _ _ _ _ _ _ _ (single (polled off k) (buf ++ [b]) None n sent)); [| |done..].
  - cbn [ss_sent single tail]. by rewrite answers_from_same, app_nil_r.
  - rewrite serve_single. cbn [kk_recv head default from_option id]. cbv zeta.
    rewrite decide_False by (unfold u64_max; lia). by rewrite N.mod_small, Hd.
Qed.

Lemma step_request k buf n sent off b request o k' :
  b < 256 → sock_request_decode (buf ++ [b]) = Some (request, len (buf ++ [b])) → is_close request = false →
  handle_socket_request CLIENT 0 (pin_to_own_session request 0) (polled off k) = Some (o, k') →
  pipe_step (mkPipe (single k buf None n sent) off [b] []) =
    match o with
    | Immediate r => mkPipe (single k' [] None (n + 1) (sent ++ [(CLIENT, r)])) (off + 1) [] (sock_response_encode r)
    | ConnectPending => mkPipe (single k' [] (Some off) n sent) (off + 1) [] []
    end.
Proof.
  intros Hb Hd Hc Hh.
  rewrite (iteration_ready _ _ _ _ _ _ _ (match o with
    | Immediate r => single k' [] None (n + 1) (sent ++ [(CLIENT, r)]) | ConnectPending => single k' [] (Some off) n sent end)).
  - destruct o as [r|]; cbn [ss_sent single tail app]; [by rewrite answers_from_one|by rewrite answers_from_same].
  - rewrite serve_single. cbn [kk_recv head default from_option id]. cbv zeta.
    rewrite decide_False by (unfold u64_max; lia). rewrite N.mod_small, Hd by done. rewrite Hh. cbn [mbind option_bind].
    rewrite Hc. unfold len. rewrite Nat2N.id, drop_all. by destruct o.
  - by destruct o.
  - by destruct o.
  - by destruct o.
Qed.

(** *** Requests and responses over the session *)

Lemma sock_request_prefix request pre rest :
  sock_request_fits request → sock_request_encode request = pre ++ rest → rest ≠ [] → sock_request_decode pre = None.
Proof.
  intros Hf He Hr. assert (bytes (sock_request_encode request)) as Hb by by apply codec_bytes.
  destruct (sock_request_decode pre) as [[r' n]|] eqn:Hd; [|done]. rewrite He in Hb. pose proof Hb as [Hbp Hbr]%bytes_app.
  apply sock_request_inv in Hd as (Hf' & _ & ext & ->); [|done].
  pose proof (sock_request_ok request [] Hf ltac:(constructor)) as H1. rewrite app_nil_r, He, <-app_assoc in H1.
  rewrite sock_request_ok in H1; [|done|]. 2: { apply bytes_app in Hbp as [_ ?]. by apply bytes_app. }
  injection H1 as -> _. rewrite <-app_assoc in He. rewrite <-(app_nil_r (sock_request_encode request)) in He at 1.
  apply app_inv_head in He. destruct ext; [by destruct rest|done].
Qed.

Lemma sock_response_prefix response pre rest :
  sock_response_fits response → sock_response_encode response = pre ++ rest → rest ≠ [] → sock_response_decode pre = None.
Proof.
  intros Hf He Hr. assert (bytes (sock_response_encode response)) as Hb by by apply codec_bytes.
  destruct (sock_response_decode pre) as [[r' n]|] eqn:Hd; [|done]. rewrite He in Hb. pose proof Hb as [Hbp Hbr]%bytes_app.
  apply sock_response_inv in Hd as (Hf' & _ & ext & ->); [|done].
  pose proof (sock_response_ok response [] Hf ltac:(constructor)) as H1. rewrite app_nil_r, He, <-app_assoc in H1.
  rewrite sock_response_ok in H1; [|done|]. 2: { apply bytes_app in Hbp as [_ ?]. by apply bytes_app. }
  injection H1 as -> _. rewrite <-app_assoc in He. rewrite <-(app_nil_r (sock_response_encode response)) in He at 1.
  apply app_inv_head in He. destruct ext; [by destruct rest|done].
Qed.

(** The sockets did nothing of note: time passed and states were looked at. *)
Definition is_use (ev : SockEvent) : bool := match ev with EvUse _ _ => true | _ => false end.
Definition quiet (k k' : Sockets) : Prop :=
  sk_slots k' = sk_slots k ∧ (∃ evs, sk_trace k' = sk_trace k ++ evs ∧ Forall (λ ev, is_use ev = true) evs).

#[global] Instance quiet_refl : Reflexive quiet.
Proof. intros k. split; [done|]. exists []. rewrite app_nil_r. by split. Qed.
#[global] Instance quiet_trans : Transitive quiet.
Proof.
  intros k1 k2 k3 [H1 (e1 & T1 & F1)] [H2 (e2 & T2 & F2)]. split; [congruence|].
  exists (e1 ++ e2). split; [by rewrite T2, T1, app_assoc|by apply Forall_app].
Qed.

Lemma quiet_polled off k : quiet k (polled off k).
Proof. split; [done|]. exists []. cbn. rewrite app_nil_r. by split. Qed.

Context `{!TcpLaws}.

Lemma polled_ok off k : sk_ok ONE k → sk_ok ONE (polled off k).
Proof. intros Hk. split; try apply Hk. intros i h Hi. cbn. rewrite tcp_poll_live. by apply Hk. Qed.

(** What the server is left with after a request: a response to read, or a connect to
    wait for. *)
Inductive handled (k : Sockets) (request : SocketRequest) : Pipe → Prop :=
  | HImmediate k0 k1 r n sent off :
      quiet k k0 → sk_ok ONE k0 → sk_ok ONE k1 →
      handle_socket_request CLIENT 0 (pin_to_own_session request 0) k0 = Some (Immediate r, k1) →
      handled k request (mkPipe (single k1 [] None n sent) off [] (sock_response_encode r))
  | HPending k0 k1 since n sent off :
      quiet k k0 → sk_ok ONE k0 → sk_ok ONE k1 →
      handle_socket_request CLIENT 0 (pin_to_own_session request 0) k0 = Some (ConnectPending, k1) →
      handled k request (mkPipe (single k1 [] (Some since) n sent) off [] []).

Lemma handled_quiet k k' request p : quiet k k' → handled k' request p → handled k request p.
Proof.
  intros Hq. destruct 1 as [k0 k1 r n sent off Hq' H0 H1 Hh|k0 k1 since n sent off Hq' H0 H1 Hh];
    [apply (HImmediate _ _ k0 k1 r n sent off)|apply (HPending _ _ k0 k1 since n sent off)]; try done; by etrans.
Qed.

Lemma send_loop_run request rest : ∀ pre k n sent off,
  sock_request_fits request → is_close request = false → sk_ok ONE k →
  sock_request_encode request = pre ++ rest → rest ≠ [] →
  ∃ p', send_bytes_loop CLIENT rest (mkPipe (single k pre None n sent) off [] []) = (true, p') ∧ handled k request p'.
Proof.
  induction rest as [|b rest IH]; intros pre k n sent off Hf Hc Hk He Hr; [done|].
  assert (bytes (sock_request_encode request)) as Hb by by apply codec_bytes.
  assert (b < 256) as Hb256 by (rewrite He in Hb; apply bytes_app in Hb as [_ Hb]; by apply Forall_cons in Hb as [? _]).
  cbn [send_bytes_loop]. unfold sys_call. cbn [pipe]. unfold pipe_call.
  rewrite decide_False by done. rewrite decide_False by (intros []; done). rewrite decide_True by done.
  cbn [pp_srv pp_off pp_in pp_out app]. rewrite N.mod_small by done. rewrite decide_False by done.
  destruct (decide (rest = [])) as [->|Hne].
  - assert (sock_request_decode (pre ++ [b]) = Some (request, len (pre ++ [b]))) as Hd.
    { rewrite <-He. pose proof (sock_request_ok request [] Hf ltac:(constructor)) as H1. by rewrite app_nil_r in H1. }
    destruct (handle_ok ONE (polled off k) CLIENT 0 request) as (o & k' & Hh & Hk' & _); [by apply polled_ok|done|unfold NSOCK, MAX_SOCKETS; lia|].
    rewrite (step_request k pre n sent off b request o k' Hb256 Hd Hc Hh). cbn [send_bytes_loop].
    eexists. split; [done|]. destruct o as [r|]; [apply (HImmediate _ _ (polled off k) k')|apply (HPending _ _ (polled off k) k')];
      try done; first [apply quiet_polled|by apply polled_ok].
  - rewrite step_byte; [|done|].
    + destruct (IH (pre ++ [b]) (polled off k) n sent (off + 1)) as (p' & Hp & Hh); [done|done|by apply polled_ok|by rewrite <-app_assoc|done|].
      exists p'. split; [done|]. eapply handled_quiet; [apply quiet_polled|done].
    + eapply (sock_request_prefix request _ rest); [done| |done]. by rewrite <-app_assoc.
Qed.

Lemma send_request_run request k n sent off :
  sock_request_fits request → is_close request = false → sk_ok ONE k →
  ∃ p', send_socket_request CLIENT request (mkPipe (single k [] None n sent) off [] []) = (true, p') ∧ handled k request p'.
Proof.
  intros Hf Hc Hk. unfold send_socket_request. unfold sys_call at 1. cbn [pipe]. unfold pipe_call at 1.
  rewrite decide_False, decide_False, decide_False, decide_False by (done || by intros []). cbn [fst].
  rewrite decide_False by done.
  destruct (send_loop_run request (sock_request_encode request) [] k n sent off Hf Hc Hk eq_refl) as (p' & -> & Hh).
  { by destruct request as [|? [[[? ?] ?] ?] ? ?| | |]. }
  exists p'. split; [|done]. unfold sys_call. cbn [pipe]. unfold pipe_call.
  by rewrite decide_False, decide_False, decide_False, decide_False by (done || by intros []).
Qed.

(** Reading what is there. *)
Definition at_rest (k : Sockets) (p : Pipe) : Prop :=
  ∃ k' n sent off, quiet k k' ∧ sk_ok ONE k' ∧ p = mkPipe (single k' [] None n sent) off [] [].

Lemma yield_rest kk i k n sent off out :
  ∃ off' k', yield_every kk i (mkPipe (single k [] None n sent) off [] out) = mkPipe (single k' [] None n sent) off' [] out ∧
    quiet k k' ∧ (sk_ok ONE k → sk_ok ONE k').
Proof.
  unfold yield_every. case_decide; [|by exists off, k]. unfold sys_yield. cbn [pipe]. rewrite step_idle.
  exists (off + 1), (polled off k). split_and!; [done|apply quiet_polled|apply polled_ok].
Qed.

Lemma recv_loop_run response fuel : ∀ i pre rest k n sent off,
  sock_response_fits response → sk_ok ONE k → sock_response_encode response = pre ++ rest → rest ≠ [] →
  ∃ o p', recv_loop fuel i CLIENT pre (mkPipe (single k [] None n sent) off [] rest) = (o, p') ∧
    (o = None ∧ (fuel < length rest)%nat ∨ o = Some response ∧ at_rest k p').
Proof.
  induction fuel as [|fuel IH]; intros i pre rest k n sent off Hf Hk He Hr.
  { do 2 eexists. split; [done|]. left. destruct rest; [done|]. cbn. split; [done|lia]. }
  destruct rest as [|b rest]; [done|]. cbn [recv_loop]. unfold sys_call. cbn [pipe]. unfold pipe_call.
  rewrite decide_False, decide_False, decide_False, decide_True by (done || by intros []).
  rewrite step_idle. cbn [pp_out pp_srv pp_off pp_in].
  assert (bytes (sock_response_encode response)) as Hb by by apply codec_bytes.
  assert (b < 256) as Hb256 by (rewrite He in Hb; apply bytes_app in Hb as [_ Hb]; by apply Forall_cons in Hb as [? _]).
  rewrite decide_True by (unfold u64_max; lia). rewrite N.mod_small by done.
  destruct (decide (rest = [])) as [->|Hne].
  - pose proof (sock_response_ok response [] Hf ltac:(constructor)) as H1. rewrite app_nil_r, He in H1. rewrite H1.
    do 2 eexists. split; [done|]. right. split; [done|]. exists (polled off k), n, sent, (off + 1).
    split_and!; [apply quiet_polled|by apply polled_ok|done].
  - rewrite (sock_response_prefix response (pre ++ [b]) rest); [|done|by rewrite <-app_assoc|done].
    destruct (yield_rest 64 i (polled off k) n sent (off + 1) rest) as (off' & k' & -> & Hq & Hk').
    destruct (IH (i + 1) (pre ++ [b]) rest k' n sent off') as (o & p' & Hrun & Ho);
      [done|by apply Hk', polled_ok|by rewrite <-app_assoc|done|].
    exists o, p'. split; [done|]. destruct Ho as [[-> Hlt]|[-> (k'' & n' & sent' & off'' & Hq' & Hok & ->)]].
    + left. cbn. split; [done|lia].
    + right. split; [done|]. exists k'', n', sent', off''. split_and!; [|done..]. etrans; [apply quiet_polled|by etrans].
Qed.

(** *** Connecting *)

Definition connect_reply (r : SocketResponse) : Prop := r = Connected 0 ∨ ∃ e, r = ConnectFailed 0 e.

(** The pipe while a connect is pending, or with its outcome to be read. *)
Inductive connecting (k : Sockets) (out : list N) : Pipe → Prop :=
  | CWaiting k' since n sent off :
      quiet k k' → sk_ok ONE k' → out = [] → connecting k out (mkPipe (single k' [] (Some since) n sent) off [] [])
  | CDone k' r n sent off :
      quiet k k' → sk_ok ONE k' → connect_reply r → out = sock_response_encode r →
      connecting k out (mkPipe (single k' [] None n sent) off [] out).

(** Looking at a pending connect. *)
Lemma resolve_single off k h since n sent :
  sk_ok ONE k → sk_slots k !! 0%nat = Some (Some h) →
  let k1 := with_tcp (sk_tcp k) (EvUse CLIENT h) k in
  resolve_connect off 0 (single k [] (Some since) n sent) = Some (single k1 [] (Some since) n sent) ∨
  ∃ r, connect_reply r ∧
    resolve_connect off 0 (single k [] (Some since) n sent) = Some (single k1 [] None (n + 1) (sent ++ [(CLIENT, r)])).
Proof.
  intros Hk Hh k1. destruct (sk_slot _ _ Hk _ _ Hh) as (sid & Hl & Ho & Ht). injection Hl as <-.
  assert (slot_of k 0 = Some h) as Hs by (by apply slot_of_Some).
  unfold resolve_connect. cbn [single ss_pending lookup list_lookup mjoin option_join ss_sockets ss_live ONE].
  change (N.of_nat 0) with 0. rewrite Hs, Ht. cbn [negb]. cbv zeta. cbn [set_sockets ss_sockets]. fold k1. change (0 mod 256) with 0.
  destruct (tcp_established h (sk_tcp k1)); [right; exists (Connected 0); split; [by left|done]|].
  destruct (_ || _); [|by left]. right. exists (ConnectFailed 0 ConnectFailedErr). split; [right; by eexists|done].
Qed.

(** Time passes for a waiting server. *)
Lemma pending_step k h since n sent off :
  sk_ok ONE k → sk_slots k !! 0%nat = Some (Some h) →
  ∃ out, connecting k out (pipe_step (mkPipe (single k [] (Some since) n sent) off [] [])).
Proof.
  intros Hk Hh. pose proof (polled_ok off k Hk) as Hp. set (k1 := with_tcp (sk_tcp (polled off k)) (EvUse CLIENT h) (polled off k)).
  destruct (sk_slot _ _ Hp _ _ Hh) as (sid & Hl & Ho & _). injection Hl as <-.
  assert (quiet k k1) as Hq by (split; [done|]; exists [EvUse CLIENT h]; split; [done|by repeat constructor]).
  assert (sk_ok ONE k1) as Hk1 by (by apply with_tcp_ok).
  unfold pipe_step, pipe_iteration. cbn [pp_srv pp_off pp_in pp_out].
  change (set_sockets _ (single k [] (Some since) n sent)) with (single (polled off k) [] (Some since) n sent).
  change (seq 0 NSOCK) with [0; 1; 2; 3]%nat. cbn [for_each].
  destruct (resolve_single off (polled off k) h since n sent Hp Hh) as [->|(r & Hr & ->)]; fold k1.
  - exists []. change (connecting k [] (mkPipe (single k1 [] (Some since) n sent) (off + 1) [] (answers_from (length sent) sent))).
    rewrite answers_from_same. by apply CWaiting.
  - exists (sock_response_encode r).
    change (connecting k (sock_response_encode r) (mkPipe (single k1 [] None (n + 1) (sent ++ [(CLIENT, r)])) (off + 1) []
      (answers_from (length sent) (sent ++ [(CLIENT, r)])))).
    rewrite answers_from_one. by apply (CDone _ _ k1 r).
Qed.

Lemma connect_reply_fits r : connect_reply r → sock_response_fits r ∧ ∃ b rest, sock_response_encode r = b :: rest ∧ rest ≠ [] ∧ b < 256.
Proof. intros [->|[e ->]]; (split; [done|]); do 2 eexists; (split; [reflexivity|]); split; done. Qed.

(** Waiting for the outcome of a connect. *)
Lemma connect_recv k0 h fuel : ∀ i out p,
  sk_slots k0 !! 0%nat = Some (Some h) → connecting k0 out p →
  ∃ o p', recv_loop fuel i CLIENT [] p = (o, p') ∧ (o = None ∨ ∃ r, o = Some r ∧ connect_reply r ∧ at_rest k0 p').
Proof.
  induction fuel as [|fuel IH]; intros i out p Hh Hc; [do 2 eexists; split; [done|by left]|].
  destruct Hc as [k since n sent off Hq Hk ->|k r n sent off Hq Hk Hr ->].
  2: { destruct (connect_reply_fits r Hr) as (Hf & _). destruct (recv_loop_run r (S fuel) i [] (sock_response_encode r) k n sent off)
      as (o & p' & Hrun & Ho); [done..|by destruct Hr as [->|[e ->]]|]. exists o, p'. split; [done|].
    destruct Ho as [[-> _]|[-> (k' & n' & sent' & off' & Hq' & Hk' & ->)]]; [by left|right]. exists r. split_and!; [done..|].
    exists k', n', sent', off'. split_and!; [by etrans|done..]. }
  assert (sk_slots k !! 0%nat = Some (Some h)) as Hhk by (by rewrite (proj1 Hq)).
  cbn [recv_loop]. unfold sys_call. cbn [pipe]. unfold pipe_call.
  rewrite decide_False, decide_False, decide_False, decide_True by (done || by intros []).
  destruct (pending_step k h since n sent off Hk Hhk) as [out Hs]. revert Hs. generalize (pipe_step (mkPipe (single k [] (Some since) n sent) off [] [])).
  intros p Hs. destruct Hs as [k' since' n' sent' off' Hq' Hk' ->|k' r n' sent' off' Hq' Hk' Hr ->]; cbn [pp_out pp_srv pp_off pp_in].
  - rewrite decide_False by (by intros []). unfold yield_every. case_decide.
    + unfold sys_yield. cbn [pipe]. assert (sk_slots k' !! 0%nat = Some (Some h)) as Hhk' by (by rewrite (proj1 Hq')).
      destruct (pending_step k' h since' n' sent' off' Hk' Hhk') as [out' Hs']. apply (IH _ out'); [done|].
      destruct Hs' as [k'' since'' n'' sent'' off'' Hq'' Hk'' ->|k'' r'' n'' sent'' off'' Hq'' Hk'' Hr'' ->].
      * apply (CWaiting _ _ k''); [by do 2 (etrans; [done|])|done..].
      * apply (CDone _ _ k'' r''); [by do 2 (etrans; [done|])|done..].
    + apply (IH _ []); [done|]. apply (CWaiting _ _ k'); [by etrans|done..].
  - destruct (connect_reply_fits r Hr) as (Hf & b & rest & He & Hne & Hb). rewrite He.
    rewrite decide_True by (unfold u64_max; lia). rewrite N.mod_small by done. cbn [app].
    rewrite (sock_response_prefix r [b] rest) by done.
    destruct (yield_rest 64 i k' n' sent' off' rest) as (off'' & k'' & -> & Hq'' & Hk'').
    destruct (recv_loop_run r fuel (i + 1) [b] rest k'' n' sent' off'') as (o & p' & Hrun & Ho); [done|by apply Hk''|done|done|].
    exists o, p'. split; [done|]. destruct Ho as [[-> _]|[-> (k3 & n3 & sent3 & off3 & Hq3 & Hk3 & ->)]]; [by left|right].
    exists r. split_and!; [done..|]. exists k3, n3, sent3, off3. split_and!; [|done..]. do 3 (etrans; [done|]). done.
Qed.

(** *** One exchange *)

Lemma handle_fits request k r k1 :
  handle_socket_request CLIENT 0 (pin_to_own_session request 0) k = Some (Immediate r, k1) → sock_response_fits r.
Proof.
  destruct request as [|hd ip rp lp|hd data|hd m|hd]; cbn [pin_to_own_session handle_socket_request].
  - destruct (slot_of k 0); [by intros [= <- <-]|]. destruct (tcp_add (sk_tcp k)). by intros [= <- <-].
  - destruct (slot_of k 0) as [h|]; [|by intros [= <- <-]]. destruct (tcp_live h _); [|done]. cbn [negb].
    destruct (tcp_is_open h _); [by intros [= <- <-]|]. destruct (tcp_connect h ip rp lp _) as [[] ?]; [done|by intros [= <- <-]].
  - destruct (slot_of k 0) as [h|]; [|by intros [= <- <-]]. destruct (tcp_live h _); [|done]. cbn [negb].
    destruct (tcp_is_open h _); cbn [negb]; [|by intros [= <- <-]]. destruct (tcp_send_slice h data _) as [[n|] t]; intros [= <- <-]; [|done].
    split; [done|]. by apply N.mod_lt.
  - destruct (slot_of k 0) as [h|]; [|by intros [= <- <-]]. destruct (tcp_live h _); [|done]. cbn [negb].
    destruct (tcp_is_open h _); cbn [negb]; [|by intros [= <- <-]].
    assert (sock_response_fits (SockData 0 [])) as H0 by (split_and!; [done|done|constructor]).
    destruct (tcp_can_recv h _); [|by intros [= <- <-]].
    pose proof (tcp_recv_len (sk_tcp k) h (N.min m MAX_PAYLOAD_LEN)) as Hl.
    destruct (tcp_recv_slice h _ _) as [[d|] t]; intros [= <- <-]; [|done]. destruct (Hl d eq_refl). split_and!; [done| |done]. lia.
  - destruct (slot_of k 0) as [h|]; [|by intros [= <- <-]]. destruct (tcp_live h _); [|done]. by intros [= <- <-].
Qed.

(** What came of a request: nothing readable, or the server's response. *)
Lemma client_exchange_run request m k n sent off :
  sock_request_fits request → is_close request = false → sk_ok ONE k →
  ∃ o p' k0 k1 out, exchange CLIENT m request (mkPipe (single k [] None n sent) off [] []) = (o, p') ∧
    quiet k k0 ∧ sk_ok ONE k0 ∧ sk_ok ONE k1 ∧
    handle_socket_request CLIENT 0 (pin_to_own_session request 0) k0 = Some (out, k1) ∧
    match o with
    | None => ∀ r, out = Immediate r → m < len (sock_response_encode r)
    | Some r => at_rest k1 p' ∧ (out = Immediate r ∨ out = ConnectPending ∧ connect_reply r)
    end.
Proof.
  intros Hf Hc Hk. unfold exchange. destruct (send_request_run request k n sent off Hf Hc Hk) as (p1 & -> & Hh).
  unfold recv_socket_response. destruct Hh as [k0 k1 r n1 sent1 off1 Hq H0 H1 Hh|k0 k1 since n1 sent1 off1 Hq H0 H1 Hh].
  - destruct (recv_loop_run r (N.to_nat m) 0 [] (sock_response_encode r) k1 n1 sent1 off1) as (o & p' & -> & Ho);
      [by eapply handle_fits|done..|by destruct r|].
    exists o, p', k0, k1, (Immediate r). split_and!; [done..|]. destruct Ho as [[-> Hl]|[-> Hr]]; [|split; [done|by left]].
    intros ? [= <-]. unfold len. lia.
  - destruct (handle_ok ONE k0 CLIENT 0 request H0 eq_refl) as (o' & k' & Hh' & _ & _ & _ & _ & Hp & _); [unfold NSOCK, MAX_SOCKETS; lia|].
    change (N.of_nat 0 mod 256) with 0 in Hh'. change (N.of_nat 0) with 0 in Hh'. rewrite Hh in Hh'. injection Hh' as <- <-.
    destruct (Hp eq_refl) as [_ [h Hs]].
    destruct (connect_recv k1 h (N.to_nat m) 0 [] (mkPipe (single k1 [] (Some since) n1 sent1) off1 [] []) Hs) as (o & p' & -> & Ho);
      [by apply CWaiting|].
    exists o, p', k0, k1, ConnectPending. split_and!; [done..|]. destruct Ho as [->|(r & -> & Hr & Hrest)]; [done|]. split; [done|by right].
Qed.

(** *** What a session did *)

Definition sent_of (tr : list SockEvent) : list N :=
  concat (omap (λ ev, match ev with EvSend _ _ d => Some d | _ => None end) tr).
Definition recv_of (tr : list SockEvent) : list N :=
  concat (omap (λ ev, match ev with EvRecv _ _ d => Some d | _ => None end) tr).

Lemma sent_of_app tr tr' : sent_of (tr ++ tr') = sent_of tr ++ sent_of tr'.
Proof. unfold sent_of. by rewrite omap_app, concat_app. Qed.
Lemma recv_of_app tr tr' : recv_of (tr ++ tr') = recv_of tr ++ recv_of tr'.
Proof. unfold recv_of. by rewrite omap_app, concat_app. Qed.

Lemma quiet_of evs : Forall (λ ev, is_use ev = true) evs → sent_of evs = [] ∧ recv_of evs = [].
Proof. induction 1 as [|ev evs He _ [IH1 IH2]]; [done|]. by destruct ev. Qed.

(** The socket of the session, the peer it was connected to, what it took and what it
    delivered. *)
Record carried (ip : N * N * N * N) (port : N) (sent_ got : list N) (k : Sockets) : Prop := {
  ca_slot : ∃ h, sk_slots k !! 0%nat = Some (Some h) ∧ EvConnect CLIENT h ip port ∈ sk_trace k;
  ca_sent : sent_of (sk_trace k) = sent_;
  ca_got : recv_of (sk_trace k) = got;
}.

Lemma carried_quiet ip port s g k k' : quiet k k' → carried ip port s g k → carried ip port s g k'.
Proof.
  intros [Hs (evs & Ht & He)] [(h & Hh & Hc) H1 H2]. apply quiet_of in He as [E1 E2]. split.
  - exists h. rewrite Hs, Ht. split; [done|]. apply elem_of_app. by left.
  - by rewrite Ht, sent_of_app, E1, app_nil_r.
  - by rewrite Ht, recv_of_app, E2, app_nil_r.
Qed.

Lemma carried_event ip port s g k t ev :
  carried ip port s g k → plain ev = true →
  carried ip port (s ++ sent_of [ev]) (g ++ recv_of [ev]) (with_tcp t ev k).
Proof.
  intros [(h & Hh & Hc) <- <-] _. split; cbn [with_tcp sk_slots sk_trace].
  - exists h. split; [done|]. apply elem_of_app. by left.
  - apply sent_of_app.
  - apply recv_of_app.
Qed.

Lemma carried_use ip port s g k t h : carried ip port s g k → carried ip port s g (with_tcp t (EvUse CLIENT h) k).
Proof.
  intros Hc. pose proof (carried_event ip port s g k t (EvUse CLIENT h) Hc eq_refl) as He. cbn in He.
  by rewrite !app_nil_r in He.
Qed.

Lemma carried_slot ip port s g k : carried ip port s g k → ∃ h, slot_of k 0 = Some h.
Proof. intros [(h & Hh & _) _ _]. exists h. by apply slot_of_Some. Qed.

(** Sending and receiving over a carried connection. *)
Lemma send_carried ip port s g k data r k1 :
  sk_ok ONE k → carried ip port s g k →
  handle_socket_request CLIENT 0 (SockSend 0 data) k = Some (Immediate r, k1) →
  ∃ took, carried ip port (s ++ took) g k1 ∧
    (∀ n, r = Sent 0 n → n ≤ TCP_BUFFER ∧ (n = len data → took = data)).
Proof.
  intros Hk Hc. destruct (carried_slot _ _ _ _ _ Hc) as [h Hs]. cbn [handle_socket_request]. rewrite Hs.
  destruct (tcp_live h _); [|done]. cbn [negb]. destruct (tcp_is_open h _); cbn [negb].
  - pose proof (tcp_send_len (sk_tcp k) h data) as Hl. destruct (tcp_send_slice h data _) as [[n|] t]; intros [= <- <-].
    + exists (take (N.to_nat n) data). split.
      * pose proof (carried_event ip port s g k t (EvSend CLIENT h (take (N.to_nat n) data)) Hc eq_refl) as He. cbn in He.
        by rewrite !app_nil_r in He.
      * specialize (Hl n eq_refl). intros n' [= <-]. rewrite N.mod_small by (unfold TCP_BUFFER in Hl; lia).
        split; [lia|]. intros ->. unfold len. by rewrite Nat2N.id, firstn_all.
    + exists []. rewrite app_nil_r. split; [by apply carried_use|done].
  - intros [= <- <-]. exists []. rewrite app_nil_r. split; [by apply carried_use|done].
Qed.

Lemma recv_carried ip port s g k m r k1 :
  carried ip port s g k →
  handle_socket_request CLIENT 0 (SockRecv 0 m) k = Some (Immediate r, k1) →
  len (sock_response_encode r) ≤ 260 ∧
  ((∃ e, r = SockError 0 e ∧ carried ip port s g k1) ∨ ∃ data, r = SockData 0 data ∧ carried ip port s (g ++ data) k1).
Proof.
  intros Hc. destruct (carried_slot _ _ _ _ _ Hc) as [h Hs]. cbn [handle_socket_request]. rewrite Hs.
  destruct (tcp_live h _); [|done]. cbn [negb].
  destruct (tcp_is_open h _); cbn [negb].
  2: { intros [= <- <-]. split; [done|]. left. eexists. split; [done|by apply carried_use]. }
  destruct (tcp_can_recv h _).
  - pose proof (tcp_recv_len (sk_tcp k) h (N.min m MAX_PAYLOAD_LEN)) as Hl.
    destruct (tcp_recv_slice h _ _) as [[d|] t]; intros [= <- <-].
    + destruct (Hl d eq_refl) as [Hd _]. split; [unfold TCP_BUFFER, len in *; cbn [sock_response_encode]; rewrite !length_app; cbn; lia|].
      right. exists d. split; [done|].
      pose proof (carried_event ip port s g k t (EvRecv CLIENT h d) Hc eq_refl) as He. cbn in He. by rewrite !app_nil_r in He.
    + split; [done|]. right. exists []. rewrite app_nil_r. split; [done|by apply carried_use].
  - intros [= <- <-]. split; [done|]. right. exists []. rewrite app_nil_r. split; [done|by apply carried_use].
Qed.

(** The pipe between two exchanges. *)
Definition resting (ip : N * N * N * N) (port : N) (s g : list N) (p : Pipe) : Prop :=
  ∃ k n sent off, carried ip port s g k ∧ sk_ok ONE k ∧ p = mkPipe (single k [] None n sent) off [] [].

Lemma at_rest_resting ip port s g k p : carried ip port s g k → at_rest k p → resting ip port s g p.
Proof.
  intros Hc (k' & n & sent & off & Hq & Hk & ->). exists k', n, sent, off. split_and!; [by eapply carried_quiet|done..].
Qed.

Lemma send_chunks_run ip port g m cs : ∀ s p,
  Forall (λ c, len c ≤ MAX_PAYLOAD_LEN ∧ bytes c) cs → resting ip port s g p →
  ∃ b p', send_chunks CLIENT 0 m cs p = (b, p') ∧
    (b = true → resting ip port (s ++ concat cs) g p' ∧ Forall (λ c, len c ≤ TCP_BUFFER) cs).
Proof.
  induction cs as [|c cs IH]; intros s p Hcs Hp; cbn [send_chunks concat].
  { do 2 eexists. split; [done|]. intros _. rewrite app_nil_r. split; [done|constructor]. }
  apply Forall_cons in Hcs as [[Hl Hb] Hcs]. destruct Hp as (k & n & sent & off & Hc & Hk & ->).
  destruct (client_exchange_run (SockSend 0 c) m k n sent off) as (o & p1 & k0 & k1 & out & -> & Hq & H0 & H1 & Hh & Ho); [done..|].
  apply (carried_quiet _ _ _ _ _ _ Hq) in Hc. destruct o as [r|]; [|do 2 eexists; split; done].
  destruct Ho as [Hr [->|[-> Hcr]]]; [|destruct Hcr as [->|[e ->]]; do 2 eexists; split; done].
  destruct (send_carried _ _ _ _ _ _ _ _ H0 Hc Hh) as (took & Hc1 & Ht).
  destruct r as [h|e|h e|h l|h e|h d|h|h|h e]; try (do 2 eexists; split; done).
  case_decide as Hd; [|do 2 eexists; split; done]. destruct Hd as [-> ->]. destruct (Ht _ eq_refl) as [Hle Htook].
  rewrite (Htook eq_refl) in Hc1. destruct (IH (s ++ c) p1 Hcs (at_rest_resting _ _ _ _ _ _ Hc1 Hr)) as (b & p' & -> & Hres).
  do 2 eexists. split; [done|]. intros ->. destruct (Hres eq_refl) as [Hrest Hall]. rewrite <-app_assoc in Hrest. split; [done|by constructor].
Qed.

Lemma chunks_fuel_spec fuel n : ∀ l, (0 < n)%nat → (length l ≤ fuel)%nat →
  concat (chunks_fuel fuel n l) = l ∧ Forall (λ c, (length c ≤ n)%nat ∧ ∀ x, x ∈ c → x ∈ l) (chunks_fuel fuel n l) ∧
  (l ≠ [] → take n l ∈ chunks_fuel fuel n l).
Proof.
  induction fuel as [|fuel IH]; intros l Hn Hl; [destruct l; [done|cbn in Hl; lia]|].
  destruct l as [|x l]; [by split_and!|]. cbn [chunks_fuel]. destruct (IH (drop n (x :: l)) Hn) as (H1 & H2 & _).
  { rewrite length_drop. cbn [length] in *. lia. }
  split_and!.
  - cbn [concat]. rewrite H1. apply take_drop.
  - constructor; [split; [rewrite length_take; lia|intros y Hy; eapply elem_of_take in Hy as (i & Hy & _); by eapply list_elem_of_lookup_2]|].
    eapply Forall_impl; [exact H2|]. intros c [Hc Hx]. split; [done|]. intros y Hy. apply Hx in Hy.
    rewrite <-(take_drop n (x :: l)). apply elem_of_app. by right.
  - intros _. by left.
Qed.

Lemma send_bytes_run ip port g m bs s p :
  bytes bs → bs ≠ [] → resting ip port s g p →
  ∃ b p', send_bytes CLIENT 0 bs m p = (b, p') ∧ (b = true → resting ip port (s ++ bs) g p' ∧ len bs ≤ TCP_BUFFER).
Proof.
  intros Hb Hne Hp. unfold send_bytes, chunks.
  destruct (chunks_fuel_spec (length bs) (N.to_nat MAX_PAYLOAD_LEN) bs) as (H1 & H2 & H3); [unfold MAX_PAYLOAD_LEN; lia|done|].
  destruct (send_chunks_run ip port g m (chunks_fuel (length bs) (N.to_nat MAX_PAYLOAD_LEN) bs) s p) as (b & p' & Hrun & Hres); [|done|].
  { eapply Forall_impl; [exact H2|]. intros c [Hc Hx]. split; [unfold len; lia|].
    apply Forall_forall. intros x Hin. apply Hx in Hin. by eapply Forall_forall in Hb. }
  exists b, p'. split; [done|]. intros ->. destruct (Hres eq_refl) as [Hrest Hall]. rewrite H1 in Hrest. split; [done|].
  eapply Forall_forall in Hall; [|by apply H3]. unfold len in *. rewrite length_take in Hall. unfold TCP_BUFFER, MAX_PAYLOAD_LEN in *. lia.
Qed.

Definition answer_of (got : list N) (r : MarshalResponse) : Prop :=
  (∃ n, decode_status got = Complete r n) ∨ decode_status got = Malformed ∧ r = malformed_reply.

Lemma yield_resting kk i ip port s g p : resting ip port s g p → resting ip port s g (yield_every kk i p).
Proof.
  intros (k & n & sent & off & Hc & Hk & ->). destruct (yield_rest kk i k n sent off []) as (off' & k' & -> & Hq & Hk').
  exists k', n, sent, off'. split_and!; [by eapply carried_quiet|by apply Hk'|done].
Qed.

Lemma recv_immediate k m out k1 :
  handle_socket_request CLIENT 0 (SockRecv 0 m) k = Some (out, k1) → ∃ r, out = Immediate r.
Proof.
  cbn [handle_socket_request]. destruct (slot_of k 0) as [h|]; [|intros [= <- _]; by eexists].
  destruct (tcp_live h _); cbn [negb]; [|done]. destruct (tcp_is_open h _); cbn [negb]; [|intros [= <- _]; by eexists].
  destruct (tcp_can_recv h _); [|intros [= <- _]; by eexists].
  destruct (tcp_recv_slice h _ _) as [[d|] t]; intros [= <- _]; by eexists.
Qed.

(** A poll for data is an exchange that is always answered in time. *)
Lemma poll_run ip port s g k n sent off :
  carried ip port s g k → sk_ok ONE k →
  ∃ p0 p1 r, send_socket_request CLIENT (SockRecv 0 MAX_PAYLOAD_LEN) (mkPipe (single k [] None n sent) off [] []) = (true, p0) ∧
    recv_socket_response CLIENT 2000 p0 = (Some r, p1) ∧
    ((∃ e, r = SockError 0 e ∧ resting ip port s g p1) ∨ ∃ data, r = SockData 0 data ∧ resting ip port s (g ++ data) p1).
Proof.
  intros Hc Hk. assert (260 ≤ 2000) as Hm by done. revert Hm. generalize 2000. intros m Hm.
  assert (sock_request_fits (SockRecv 0 MAX_PAYLOAD_LEN)) as Hf by done.
  destruct (send_request_run (SockRecv 0 MAX_PAYLOAD_LEN) k n sent off Hf eq_refl Hk) as (p0 & Hs & _). exists p0.
  destruct (client_exchange_run (SockRecv 0 MAX_PAYLOAD_LEN) m k n sent off Hf eq_refl Hk) as (o & p1 & k0 & k1 & out & Hx & Hq & H0 & H1 & Hh & Ho).
  unfold exchange in Hx. rewrite Hs in Hx. apply (carried_quiet _ _ _ _ _ _ Hq) in Hc.
  destruct (recv_immediate _ _ _ _ Hh) as [r ->].
  destruct (recv_carried _ _ _ _ _ _ _ _ Hc Hh) as [Hlen Hcase].
  destruct o as [r'|]; [|specialize (Ho r eq_refl); lia]. destruct Ho as [Hrest [[= <-]|[[=] _]]].
  exists p1, r. split; [exact Hs|]. split; [exact Hx|].
  destruct Hcase as [(e & -> & Hc1)|(data & -> & Hc1)]; [left|right]; eexists; (split; [reflexivity|]); exact (at_rest_resting _ _ _ _ _ _ Hc1 Hrest).
Qed.

Lemma recv_marshal_run ip port s fuel : ∀ i g p,
  resting ip port s g p →
  ∃ o p', recv_marshal_loop fuel i CLIENT 0 g p = (o, p') ∧ ∀ r, o = Some r → ∃ got, resting ip port s got p' ∧ answer_of got r.
Proof.
  induction fuel as [|fuel IH]; intros i g p Hp; cbn [recv_marshal_loop]; [do 2 eexists; split; done|].
  destruct Hp as (k & n & sent & off & Hc & Hk & ->).
  destruct (poll_run ip port s g k n sent off Hc Hk) as (p0 & p1 & r & -> & -> & Hcase). cbn [negb].
  destruct Hcase as [(e & -> & Hr1)|(data & -> & Hr1)]; [by apply IH, yield_resting|]. rewrite decide_True by done.
  destruct (decode_status (g ++ data)) as [r n'| |] eqn:Hd.
  - do 2 eexists. split; [done|]. intros ? [= <-]. exists (g ++ data). split; [done|]. left. by eexists.
  - by apply IH, yield_resting.
  - do 2 eexists. split; [done|]. intros ? [= <-]. exists (g ++ data). split; [done|]. by right.
Qed.

(** *** Closing *)

(** The session is gone and the trace is complete. *)
Definition ended (tr : list SockEvent) (p : Pipe) : Prop :=
  ∃ k n sent off lane out, sk_trace k = tr ∧ p = mkPipe (closed k n sent) off lane out.

Lemma ended_step tr p : ended tr p → ended tr (pipe_step p).
Proof.
  intros (k & n & sent & off & lane & out & Ht & ->).
  exists (polled off k), n, sent, (off + 1), lane, (out ++ answers_from (length sent) sent). split; [done|]. reflexivity.
Qed.

Lemma ended_recv tr fuel : ∀ i buf p, ended tr p → ended tr (recv_loop fuel i CLIENT buf p).2.
Proof.
  induction fuel as [|fuel IH]; intros i buf p Hp; cbn [recv_loop]; [done|].
  assert (∀ p, ended tr p → ended tr (yield_every 64 i p)) as Hy
    by (intros q Hq; unfold yield_every; case_decide; [by apply ended_step|done]).
  unfold sys_call. cbn [pipe]. unfold pipe_call.
  rewrite decide_False, decide_False, decide_False, decide_True by (done || by intros []).
  pose proof (ended_step tr p Hp) as Hs. destruct Hs as (k & n & sent & off & lane & out & Ht & ->).
  cbn [pp_out pp_srv pp_off pp_in]. destruct out as [|b out].
  - rewrite decide_False by (by intros []). apply IH, Hy. by exists k, n, sent, off, lane, [].
  - assert (ended tr (mkPipe (closed k n sent) off lane out)) as He by (by exists k, n, sent, off, lane, out).
    case_decide; [|by apply IH, Hy]. destruct (sock_response_decode _) as [[r ?]|]; [done|]. by apply IH, Hy.
Qed.

Lemma close_run ip port s g m p :
  resting ip port s g p →
  ∃ tr, ended tr (close_socket CLIENT 0 m p) ∧ (∃ h, EvConnect CLIENT h ip port ∈ tr) ∧ sent_of tr = s ∧ recv_of tr = g.
Proof.
  intros (k & n & sent & off & Hc & Hk & ->). unfold close_socket, recv_socket_response.
  assert (∃ tr p1, send_socket_request CLIENT (SockClose 0) (mkPipe (single k [] None n sent) off [] []) = (true, p1) ∧
    ended tr p1 ∧ (∃ h, EvConnect CLIENT h ip port ∈ tr) ∧ sent_of tr = s ∧ recv_of tr = g) as (tr & p1 & -> & He & Hf).
  2: { exists tr. split; [by apply ended_recv|done]. }
  unfold send_socket_request. unfold sys_call at 1. cbn [pipe]. unfold pipe_call at 1.
  rewrite decide_False, decide_False, decide_False, decide_False by (done || by intros []). rewrite decide_False by done.
  cbn [sock_request_encode send_bytes_loop]. unfold sys_call at 1. cbn [pipe]. unfold pipe_call at 1.
  rewrite decide_False, decide_False, decide_True by (done || by intros []). cbn [pp_srv pp_off pp_in pp_out app].
  change (3 mod 256) with 3. rewrite step_byte by done. rewrite decide_False by done. cbn [app].
  unfold sys_call at 1. cbn [pipe]. unfold pipe_call at 1.
  rewrite decide_False, decide_False, decide_True by (done || by intros []). cbn [pp_srv pp_off pp_in pp_out app].
  change (0 mod 256) with 0. set (k2 := polled (off + 1) (polled off k)).
  assert (sk_ok ONE k2) as Hk2 by (by do 2 apply polled_ok).
  destruct (carried_slot _ _ _ _ _ Hc) as [h Hh]. assert (slot_of k2 0 = Some h) as Hs2 by done.
  assert (tcp_live h (sk_tcp k2) = true) as Hl.
  { destruct (sk_slot _ _ Hk2 0%nat h) as (_ & _ & _ & Hl); [by apply slot_of_Some in Hs2|done]. }
  set (k3 := mkSockets (tcp_remove h (tcp_close h (sk_tcp k2))) (<[N.to_nat 0 := None]> (sk_slots k2)) (sk_trace k2 ++ [EvRemove CLIENT h])).
  rewrite (iteration_ready _ _ _ _ _ _ _ (closed k3 (n + 1) (sent ++ [(CLIENT, Closed 0)]))); [| |done..].
  2: { rewrite serve_single. fold k2. cbn [kk_recv head default from_option id]. cbv zeta.
    rewrite decide_False by done. change (0 mod 256) with 0.
    change (sock_request_decode ([3] ++ [0])) with (Some (SockClose 0, 2)). cbn [pin_to_own_session handle_socket_request].
    rewrite Hs2, Hl. cbn [negb mbind option_bind is_close]. fold k3. reflexivity. }
  rewrite decide_False by done. unfold sys_call. cbn [pipe]. unfold pipe_call.
  rewrite decide_False, decide_False, decide_False, decide_False by (done || by intros []). cbn [snd].
  exists (sk_trace k ++ [EvRemove CLIENT h]). eexists. split; [done|]. split.
  { do 6 eexists. split; [|reflexivity]. done. }
  destruct Hc as [(h' & _ & Hcon) <- <-]. split_and!.
  - exists h'. apply elem_of_app. by left.
  - by rewrite sent_of_app, app_nil_r.
  - by rewrite recv_of_app, app_nil_r.
Qed.

(** *** An evaluation *)

(** The socket was opened; nothing was carried yet. *)
Definition opened (p : Pipe) : Prop :=
  ∃ k n sent off, (∃ h, sk_slots k !! 0%nat = Some (Some h)) ∧ sent_of (sk_trace k) = [] ∧ recv_of (sk_trace k) = [] ∧
    sk_ok ONE k ∧ p = mkPipe (single k [] None n sent) off [] [].

Lemma open_run t m :
  ∃ o p, open_socket CLIENT m (pipe_start t) = (o, p) ∧ ∀ h, o = Some h → h = 0 ∧ opened p.
Proof.
  rewrite pipe_start_single. set (k := mkSockets t (replicate NSOCK None) []). unfold open_socket.
  assert (sk_ok ONE k) as Hk
    by exact (so_sockets _ (accept_session_ok (mkSockKernel (λ _, CLIENT) (λ _ _, u64_max)) 0 (server_new t) (server_new_ok t))).
  destruct (client_exchange_run SockOpen m k 0 [] 1 I eq_refl Hk) as (o & p & k0 & k1 & out & -> & [Hq (evs & Ht & He)] & H0 & H1 & Hh & Ho).
  do 2 eexists. split; [done|]. intros h. destruct o as [[]|]; try done. intros [= ->].
  destruct Ho as [Hr [->|[_ [[=]|[e [=]]]]]]. cbn [pin_to_own_session handle_socket_request] in Hh.
  assert (slot_of k0 0 = None) as E by (unfold slot_of; by rewrite Hq). rewrite E in Hh. destruct (tcp_add (sk_tcp k0)) as [h' t'].
  injection Hh as <- <-. split; [done|]. destruct Hr as (k' & n' & sent' & off' & [Hs' (evs' & Ht' & He')] & Hok & ->).
  exists k', n', sent', off'. apply quiet_of in He as [E1 E2], He' as [E1' E2'].
  rewrite Hs', Ht'. cbn [sk_slots sk_trace]. rewrite Ht, !sent_of_app, !recv_of_app, E1, E2, E1', E2'. split_and!; [|done..].
  exists h'. change (N.to_nat 0) with 0%nat. apply list_lookup_insert_eq. rewrite Hq. cbn. rewrite length_replicate. unfold NSOCK, MAX_SOCKETS. lia.
Qed.

Lemma connect_run ip port lport m p :
  sock_request_fits (SockConnect 0 ip port lport) → opened p →
  ∃ b p', connect_socket CLIENT 0 ip port lport m p = (b, p') ∧ (b = true → resting ip port [] [] p').
Proof.
  intros Hf (k & n & sent & off & (h & Hh) & Hs & Hg & Hk & ->). unfold connect_socket.
  destruct (client_exchange_run (SockConnect 0 ip port lport) m k n sent off Hf eq_refl Hk)
    as (o & p' & k0 & k1 & out & -> & [Hq (evs & Ht & He)] & H0 & H1 & Hr & Ho).
  do 2 eexists. split; [done|]. destruct o as [[]|]; try done. intros _. apply quiet_of in He as [E1 E2].
  destruct Ho as [Hrest Hout]. cbn [pin_to_own_session handle_socket_request] in Hr.
  assert (slot_of k0 0 = Some h) as E by (apply slot_of_Some; by rewrite Hq). rewrite E in Hr.
  destruct (tcp_live h (sk_tcp k0)); [|done]. cbn [negb] in Hr. destruct (tcp_is_open h (sk_tcp k0)).
  { injection Hr as <- <-. by destruct Hout as [[=]|[[=] _]]. }
  destruct (tcp_connect h ip port lport (sk_tcp k0)) as [ok t1]. injection Hr as <- <-.
  eapply at_rest_resting; [|exact Hrest]. split; cbn [with_tcp sk_slots sk_trace].
  - exists h. rewrite Hq. split; [done|]. apply elem_of_app. right. by left.
  - by rewrite Ht, !sent_of_app, Hs, E1.
  - by rewrite Ht, !recv_of_app, Hg, E2.
Qed.

Lemma evaluate_run ip port lport json m t :
  sock_request_fits (SockConnect 0 ip port lport) → bytes json →
  ∃ o p, evaluate ip port lport json m (pipe_start t) = (o, p) ∧
    ∀ r, o = Some r → len (request_encode json) ≤ TCP_BUFFER ∧
      ∃ tr got, ended tr p ∧ (∃ h, EvConnect CLIENT h ip port ∈ tr) ∧
        sent_of tr = request_encode json ∧ recv_of tr = got ∧ answer_of got r.
Proof.
  intros Hf Hb. unfold evaluate, open_session. destruct (N.to_nat m) as [|fuel]; [by do 2 eexists|]. cbn [open_session_loop].
  unfold sys_call at 1. cbn [pipe]. unfold pipe_call at 1. rewrite decide_True, decide_True by done.
  destruct (open_run t m) as (o & p & -> & Ho). destruct o as [hd|]; [|by do 2 eexists].
  destruct (Ho hd eq_refl) as [-> Hop]. destruct (connect_run ip port lport m p Hf Hop) as (b & p1 & -> & Hc).
  destruct b; [|by do 2 eexists].
  assert (bytes (request_encode json) ∧ request_encode json ≠ []) as [Hby Hne].
  { split; [apply bytes_app; split; [apply bytes_u32|done]|done]. }
  destruct (send_bytes_run ip port [] m (request_encode json) [] p1 Hby Hne (Hc eq_refl)) as (b & p2 & -> & Hs).
  destruct b; [|by do 2 eexists]. destruct (Hs eq_refl) as [Hr2 Hle].
  destruct (recv_marshal_run ip port (request_encode json) (N.to_nat m) 0 [] p2 Hr2) as (o & p3 & Hrun & Hres).
  unfold recv_marshal_response. rewrite Hrun. do 2 eexists. split; [done|]. intros r ->. split; [done|].
  destruct (Hres r eq_refl) as (got & Hr3 & Ha). destruct (close_run ip port (request_encode json) got m p3 Hr3) as (tr & He & Hcon & H1 & H2).
  exists tr, got. by split_and!.
Qed.

(** *** The gate over the pipe *)

Context `{SS : SignatureScheme} `{SHA : Sha256}.

(** What the proxy's bytes say, for an outcome; nothing is claimed when it was not reached. *)
Definition proxy_said (got : list N) (outcome : ShadowMarshalOutcome) : Prop :=
  match outcome with
  | Execute => ∃ d n, decode_status got = Complete (Decision OutExecute d) n
  | HardStop => ∃ d n, decode_status got = Complete (Decision OutHardStop d) n
  | Refuse => ∃ n, (∃ d, decode_status got = Complete (Decision OutRefuse d) n) ∨
                   ∃ why, decode_status got = Complete (RespError (ErrPolicyRefused why)) n
  | Faulty => decode_status got = Malformed ∨
              ∃ e n, decode_status got = Complete (RespError (ErrBadResponse e)) n ∨ decode_status got = Complete (RespError (ErrOther e)) n
  | Unreachable => True
  end.

Definition passes (outcome : ShadowMarshalOutcome) : bool := match outcome with Execute | Unreachable => true | _ => false end.
Definition sock_trace (s : Sandbox) : list SockEvent := sk_trace (ss_sockets (pp_srv (sb_sys s))).
Definition spawn_wire (instance_id : string) : list N := request_encode (as_bytes (build_spawn_kerkese_json GRID_MODULE instance_id)).

Lemma spawn_wire_length instance_id : len (spawn_wire instance_id) = 219 + 2 * N.of_nat (String.length (json_escape instance_id)).
Proof.
  unfold spawn_wire, request_encode, encode_bytes, len. rewrite length_app, length_as_bytes, spawn_json_length.
  change (length (u32_to_le _)) with 4%nat. lia.
Qed.

Definition proxied (config : ShadowMarshalProxyConfig) (t : Tcp) (s : Sandbox) : Prop :=
  sb_proxy s = Some config ∧ sb_sys s = pipe_start t ∧
  sock_request_fits (SockConnect 0 (pc_remote_ip config) (pc_remote_port config) (pc_local_port config)).

Lemma shadow_run config t instance_id s :
  proxied config t s →
  ∃ outcome s', shadow_marshal_evaluate GRID_MODULE instance_id s = (outcome, s') ∧
    sb_log s' = record_shadow_marshal_evaluation (sb_log s) GRID_MODULE instance_id outcome ∧
    (outcome ≠ Unreachable →
       len (spawn_wire instance_id) ≤ TCP_BUFFER ∧ sent_of (sock_trace s') = spawn_wire instance_id ∧
       (∃ h, EvConnect CLIENT h (pc_remote_ip config) (pc_remote_port config) ∈ sock_trace s') ∧
       proxy_said (recv_of (sock_trace s')) outcome).
Proof.
  intros (Hp & Hs & Hf). unfold shadow_marshal_evaluate. rewrite Hp, Hs. cbv zeta.
  destruct (evaluate_run (pc_remote_ip config) (pc_remote_port config) (pc_local_port config)
    (as_bytes (build_spawn_kerkese_json GRID_MODULE instance_id)) (default SHADOW_MARSHAL_MAX_ITERS (sb_max_iters s)) t Hf
    (bytes_as_bytes _)) as (o & p & -> & Ho).
  do 2 eexists. split; [done|]. split; [done|]. destruct o as [r|]; [|done]. intros Hne.
  destruct (Ho r eq_refl) as (Hle & tr & got & (k & n & sent & off & lane & out & Htr & ->) & Hcon & Hsent & Hgot & Ha).
  unfold sock_trace. cbn [sb_sys pp_srv closed ss_sockets]. rewrite Htr, Hgot. split_and!; [done..|].
  destruct Ha as [[n' Hd]|[Hd ->]]; [|by left]. unfold proxy_said. rewrite Hd. destruct r as [[] d|[]]; try done; try naive_solver.
Qed.


End pipe.

(** ** Concrete runs *)

Import Demo Toy ToyTcp.

Module Spawn.
Definition key : @SigningKey Demo.scheme := 7.
Definition config : ShadowMarshalProxyConfig := mkProxyConfig (10, 0, 2, 2) 8088 49160.
(** A proxy that answers with [outcome]. *)
Definition proxy (outcome : MarshalOutcome) : Stack := mkStack [] [] [] (response_encode (Decision outcome [123; 125])).
Definition sandbox (outcome : MarshalOutcome) : Sandbox (CS := pipe) := mkSandbox (Some config) None [] (pipe_start (proxy outcome)).
End Spawn.

(** A refusing proxy blocks a spawn and lets a longer id pass; an executing one is followed. *)
Example spawn_runs :
  (spawn_gate Spawn.key "host" "app-1" T3Untrusted (Spawn.sandbox OutRefuse)).1 = Err (MarshalEnforcement (EnforceBlocked Refuse)) ∧
  (spawn_gate Spawn.key "host" "app-1" T3Untrusted (Spawn.sandbox OutExecute)).1 = Ok T3Untrusted ∧
  (spawn_gate Spawn.key "host" "shadow-refused-0001" T3Untrusted (Spawn.sandbox OutRefuse)).1 = Ok T3Untrusted.
Proof. split_and!; vm_compute; reflexivity. Qed.

(** An evaluation that gives up on the answer to its open request ends without closing:
    the session keeps its slot of the server and the socket in it. *)
Example open_timeout_keeps_slot :
  let '(r, p) := evaluate (10, 0, 2, 2) 8088 49160 [123; 125] 1 (pipe_start (Spawn.proxy OutExecute)) in
  r = None ∧ ss_live (pp_srv p) !! 0%nat = Some (Some CLIENT) ∧ sk_slots (ss_sockets (pp_srv p)) !! 0%nat = Some (Some 1).
Proof. vm_compute. by split_and!. Qed.



